(* ===== verification/_CoqProject ===== *)
-Q . S2P
Prelude.v
StdDef.v
Lrpc.v
Preempt.v
Ring.v
RunQueue.v
LinkedList.v
RcuList.v
Rcu.v
Timer.v
Mutex.v
Sync.v
Condvar.v
Sched.v
SchedProofs.v
SchedSoft.v
SchedSpec.v
Uintr.v
Bitmap.v
Tcache.v
Mempool.v
Page.v
Slab.v
Smalloc.v
IoSched.v
IoOwn.v
IoDelay.v
IoClients.v
IoSimple.v
IoPolicy.v
IoInit.v
Tcp.v
TcpOut.v
TcpIn.v
TcpRx.v
TcpFsm.v
TcpConn.v
TcpStream.v
TcpTx.v
TcpOpts.v
Transport.v
TcpOpen.v
TcpListen.v
TcpClose.v
Chksum.v
Bags.v
Arp.v
ArpSpec.v
NetCore.v
Udp.v
UdpSpec.v
RpcUtil.v
BwClient.v
Breakwater.v
BwExec.v
BwRaces.v
BwServer.v
BwLink.v
IoData.v
IoDataSpec.v
IoDataRun.v
IoDataPath.v
