(* ===== verification/Prelude.v ===== *)
(** * Aspen: a verification development of the runtime and the I/O kernel

    Aspen is a user-level threading runtime with a kernel-bypass network stack.
    An application links the runtime; an I/O kernel process assigns cores to
    applications and passes packets to them.  The parts, and how they interact:

    - [inc/base], [base]: integer helpers, bitmaps, intrusive lists, memory
      allocators, and the lock-free single-producer, single-consumer channels
      (lrpc) between the runtime and the I/O kernel;
    - [runtime/preempt.c], [inc/runtime/preempt.h], [runtime/uintr.c]: a
      per-kthread counter that defers preemption inside critical sections, the
      signal and user-interrupt handlers, and the dedicated core that decides
      whom to interrupt;
    - [runtime/sched.c], [runtime/softirq.c]: the kthreads' run queues, waking,
      dispatching, yielding, and work stealing;
    - [runtime/timer.c]: a timer heap per kthread, run by the scheduler;
    - [runtime/sync.c], [runtime/rcu.c]: mutexes, condition variables and the
      like, on top of parking and waking threads, and read-copy-update, which
      uses the scheduler's generation counters;
    - [runtime/smalloc.c]: size classes over the slab allocator of [base];
    - [runtime/net]: TCP and UDP and the layers below them (transport table,
      IP, ARP, ICMP, checksums).  Packets are handled by runtime threads;
      readers and writers park on wait queues;
    - [iokernel]: clients, the cores they run on, the measurement of the delays
      in their queues, a policy that gives and takes cores, and the data path
      that moves packets between the network card and the clients' channels;
    - [breakwater]: remote procedure calls over TCP, with windows that the server
      gives to its clients against overload.

    ** How the code is modelled

    Every definition is a translation of C code named in its comment.  A C integer
    is a [Z] of its width; [u32], [u64] and the like in this file bring results
    back to it, so overflow and wrap-around are those of the machine. Structures
    are records, functions take and return the state they change, and a failed
    [assert] or [BUG_ON] is a [None].  Code that runs under a lock is one
    function; code whose interleavings matter (mutexes, condition variables, lrpc,
    rcu and its lists, arp, udp, breakwater) is a step relation with one step per
    shared access or locked section. What the code obtains from elsewhere is a
    parameter: the clock, the hash functions, whether an allocation succeeds, what
    the network card or the kernel module answers.

    ** The files

    Base:
    - Prelude: fixed-width integers, record updates, lemmas on lists and
      options, tactics.
    - StdDef: [inc/base/stddef.h] and [inc/base/atomic.h].
    - Lrpc: [inc/base/lrpc.h] and [base/lrpc.c].  A channel refines a bounded
      FIFO queue, also with every shared access interleaved (Module Micro).
    - Bitmap: [inc/base/bitmap.h] and the search of [base/bitmap.c], against the
      set of positions.
    - LinkedList: [inc/base/list.h] on a memory of nodes; its operations refine
      those of sequences.
    - Tcache, Mempool, Page, Slab, Smalloc: the allocators.  An item is with one
      user or in one place of the allocator; a per-thread cache is proved against
      an interface that Mempool and Slab implement.  What a cache holds is
      computed by following the links of its magazines.  The machine has one
      NUMA node.

    Runtime:
    - Preempt: the preemption words refine a nesting counter with two pending
      flags; a deferred preemption is delivered when the section ends.
    - Ring, RunQueue: the run queues (ring, overflow list, exported counters)
      refine a double-ended queue.
    - Timer: the heap refines a finite map from timers to deadlines; expired
      timers fire in order.
    - Mutex, Condvar: mutual exclusion and no lost wake-up, for any number of
      threads and every interleaving.  Sync: read-write mutexes, wait groups,
      barriers.
    - RcuList, Rcu: lists that are read while they change, store by store, and
      grace periods: no object is freed while a reader has it, and every object is
      freed once the kthreads moved on.
    - Sched (model), SchedProofs (invariant), SchedSoft (softirq threads),
      SchedSpec (theorems): no thread is lost, duplicated or run twice by any
      sequence of scheduler operations; the search for work finds what there is;
      stealing takes half.
    - Uintr: the decision of the preemption core.

    Network:
    - Tcp (connections), TcpOut (egress), TcpIn (ingress): the model of
      [runtime/net/tcp.h], [tcp.c], [tcp_out.c] and [tcp_in.c].  TcpRx
      (reassembly), TcpFsm (the handler), TcpConn (theorems on one packet),
      TcpStream (theorems on executions): what an application reads is what the
      peer sent.  TcpTx: what is sent, and sent again, is what the application
      wrote.  TcpOpts: options.
    - Transport: the table of sockets refines a map from addresses.
    - TcpOpen, TcpListen, TcpClose: the handshake, listen queues, and the
      reference counts of connections to their end.
    - Chksum: the assembly checksum ([inc/asm/chksum.h]) and the portable one
      ([inc/net/chksum.h]) compute the same one's complement sum.
    - Arp (model of [arp.c]), ArpSpec: a buffer that waits for an address is sent
      to an address that was announced, or freed, exactly once; entries are aged
      and given up.  A lookup copies the address byte by byte without the lock, so
      what it returns is stated for each byte.  Bags: permutations by counting,
      sums over threads.
    - NetCore: [core.c], [icmp.c] and [inc/net/mbuf.h] byte by byte: what is sent
      is received, packets leave in order, and where fragments and loopback go
      wrong.
    - Udp (model of [udp.c]), UdpSpec: datagrams from end to end; a socket with
      any number of calls in progress delivers in order, loses no wake-up in
      normal use and is released once; and the executions in which it hangs.

    I/O kernel ([iokernel]):
    - IoSched (model of [sched.c]), IoOwn: a core has at most one kthread, a
      kthread at most one core, and a process has a reference for every place
      that refers to it, whatever the policy asks for.
    - IoDelay: the measurement of delays; its signals mean what they say, and a
      process is not looked at only while it has nothing to do.
    - IoClients: guarantees and addresses of clients.
    - IoSimple (model of [simple.c] and of the poll loop), IoPolicy: the policy's
      tables agree with the cores; it takes a core only from a process above its
      guarantee and serves a process below it.
    - IoInit: the choice of cores at start-up.
    - IoData (model of [rx.c], [tx.c], [commands.c], [dp_clients.c] and
      [mempool_completion.c]), IoDataSpec (invariant), IoDataRun (handlers keep
      it), IoDataPath (executions): every transmit buffer is in one place, every
      packet has one outcome, and a process outlives its buffers.

    Overload control ([breakwater]):
    - RpcUtil: [util.c], whole reads and writes over partial ones.
    - BwClient: [bw_client.c].  The ring of requests refines a queue that drops
      its oldest; requests leave in order and within the window.
    - Breakwater (model of [bw_server.c]), BwExec (its steps as a function):
      sessions with their threads, and the congestion control worker.
    - BwServer: the counters are sums over the sessions, each slot is in one
      hand, and a sender that sleeps has nothing to do.
    - BwRaces: the executions in which the worker meets a session that changed.
    - BwLink: a client and its session; a request always finds a slot.

    ** Fuel and bounds

    Loops that are not structural carry fuel, and running out of it is a
    failure, so a theorem that a call returns covers its termination:
    [send_loop] takes at least a byte per iteration except one that finds a
    full pending segment ([length buf + 2]); [parse_loop] advances by the
    length of an option ([optlen + 1], enough exactly when no option has length
    zero); [pop_loop] and [drain_ooo] consume a queue; the heap's sifting loops
    move the index ([n] iterations); walks over linked lists visit each node
    once.  The TCP theorems assume windows of at most [2^29] and segments below
    [2^16] bytes, which keep comparisons of 32-bit sequence numbers unambiguous;
    the code's window is [2^17 - 1].  The I/O kernel's theorems assume that the
    array of polled kthreads has room ([NCPU] entries), which the code does not
    check.

    ** Not modelled

    Device drivers, DPDK and the direct path, the kernel module, context-switch
    assembly, signal-handler installation and start-up, since they are hardware
    access, assembly or system calls; the policies of the I/O kernel other than
    the simple one, which follow performance counters; the other overload
    controls (DAGOR, SEDA), and breakwater's control law, which is floating
    point.  Statistics counters and logging are left out. *)

From stdpp Require Export base numbers list gmap sorting.
From Stdlib Require Export ZArith Lia.

#[export] Set Default Goal Selector "!".
#[global] Open Scope Z_scope.
#[global] Arguments Z.pow : simpl never.
#[global] Arguments Z.testbit : simpl never.
#[global] Arguments Z.land : simpl never.
#[global] Arguments Z.lor : simpl never.
#[global] Arguments Z.modulo : simpl never.
#[global] Arguments Z.div : simpl never.

(** ** Fixed-width integers

    A [w]-bit unsigned C integer is a [Z] in [[0, 2^w)]; every arithmetic
    result is brought back with [u32] or [u64].  A C [int] is a [Z] in
    [[-2^31, 2^31)], brought back with [s32]. *)

Definition u16 (x : Z) : Z := x mod 2 ^ 16.
Definition u32 (x : Z) : Z := x mod 2 ^ 32.
Definition u64 (x : Z) : Z := x mod 2 ^ 64.
Definition s32 (x : Z) : Z := (x + 2 ^ 31) mod 2 ^ 32 - 2 ^ 31.

Definition UINT32_MAX : Z := 2 ^ 32 - 1.
Definition UINT64_MAX : Z := 2 ^ 64 - 1.

Definition is_u32 (x : Z) : Prop := 0 <= x < 2 ^ 32.
Definition is_u64 (x : Z) : Prop := 0 <= x < 2 ^ 64.
Definition is_s32 (x : Z) : Prop := - 2 ^ 31 <= x < 2 ^ 31.

Create HintDb aspen.
#[export] Hint Constants Opaque : aspen.

(** ** Automation *)

(** Case analysis on the boolean comparisons of a goal or of a hypothesis,
    leaving the propositions they decide. *)
Ltac zcase :=
  match goal with
  | |- context [Z.ltb ?a ?b] => destruct (Z.ltb_spec a b)
  | |- context [Z.leb ?a ?b] => destruct (Z.leb_spec a b)
  | |- context [Z.eqb ?a ?b] => destruct (Z.eqb_spec a b)
  | |- context [Z.gtb ?a ?b] => rewrite (Z.gtb_ltb a b); destruct (Z.ltb_spec b a)
  | |- context [Z.geb ?a ?b] => rewrite (Z.geb_leb a b); destruct (Z.leb_spec b a)
  | H : context [Z.ltb ?a ?b] |- _ => destruct (Z.ltb_spec a b)
  | H : context [Z.leb ?a ?b] |- _ => destruct (Z.leb_spec a b)
  | H : context [Z.eqb ?a ?b] |- _ => destruct (Z.eqb_spec a b)
  | H : context [Z.gtb ?a ?b] |- _ => rewrite (Z.gtb_ltb a b) in H; destruct (Z.ltb_spec b a)
  | H : context [Z.geb ?a ?b] |- _ => rewrite (Z.geb_leb a b) in H; destruct (Z.leb_spec b a)
  end.

Ltac zcases := repeat (zcase; simpl in *; try lia).

(** Unfold the width predicates and evaluate the powers of two, then [lia]. *)
Ltac width :=
  unfold is_u32, is_u64, is_s32, u16, u32, u64, s32, UINT32_MAX, UINT64_MAX in *;
  change (2 ^ 16) with 65536 in *; change (2 ^ 31) with 2147483648 in *;
  change (2 ^ 32) with 4294967296 in *; change (2 ^ 64) with 18446744073709551616 in *;
  try (Z.to_euclidean_division_equations; lia).

(** ** Lemmas on fixed-width integers *)

Lemma u32_range x : is_u32 (u32 x).
Proof. apply Z.mod_pos_bound. lia. Qed.

Lemma u64_range x : is_u64 (u64 x).
Proof. apply Z.mod_pos_bound. lia. Qed.

Lemma s32_range x : is_s32 (s32 x).
Proof. unfold s32, is_s32. pose proof (Z.mod_pos_bound (x + 2 ^ 31) (2 ^ 32)). lia. Qed.

Lemma u32_small x : is_u32 x -> u32 x = x.
Proof. apply Z.mod_small. Qed.

Lemma u64_small x : is_u64 x -> u64 x = x.
Proof. apply Z.mod_small. Qed.

Lemma s32_small x : is_s32 x -> s32 x = x.
Proof. unfold is_s32, s32. intros. rewrite Z.mod_small by lia. lia. Qed.

Lemma u32_idem x : u32 (u32 x) = u32 x.
Proof. apply Z.mod_mod. lia. Qed.

Lemma u32_add_l x y : u32 (u32 x + y) = u32 (x + y).
Proof. apply Z.add_mod_idemp_l. lia. Qed.

Lemma u32_add_r x y : u32 (x + u32 y) = u32 (x + y).
Proof. apply Z.add_mod_idemp_r. lia. Qed.

Lemma u32_sub_l x y : u32 (u32 x - y) = u32 (x - y).
Proof. apply Zminus_mod_idemp_l. Qed.

Lemma u32_sub_r x y : u32 (x - u32 y) = u32 (x - y).
Proof. apply Zminus_mod_idemp_r. Qed.

Create Rewrite HintDb width.
#[export] Hint Rewrite u32_idem u32_add_l u32_add_r u32_sub_l u32_sub_r : width.
#[export] Hint Resolve u32_range u64_range s32_range : aspen.

(** Two counters that differ by less than [2^32] are told apart by their
    wrapped difference. *)
Lemma u32_diff x y : 0 <= x - y < 2 ^ 32 -> u32 (u32 x - u32 y) = x - y.
Proof. intros. autorewrite with width. by apply u32_small. Qed.

(** Wrapping is invisible to a power-of-two modulus. *)
Lemma u32_mod_pow2 x k : 0 <= k <= 32 -> u32 x mod 2 ^ k = x mod 2 ^ k.
Proof.
  intros. unfold u32.
  replace (2 ^ 32) with (2 ^ k * 2 ^ (32 - k))
    by (rewrite <- Z.pow_add_r by lia; f_equal; lia).
  apply Z.mod_mod_divide, Z.divide_factor_l.
Qed.

Lemma u32_testbit x k : 0 <= k < 32 -> Z.testbit (u32 x) k = Z.testbit x k.
Proof. intros. unfold u32. apply Z.mod_pow2_bits_low. lia. Qed.

Lemma land_pow2_ne0 x k : 0 <= k -> (Z.land x (2 ^ k) =? 0) = negb (Z.testbit x k).
Proof.
  intros Hk. destruct (Z.testbit x k) eqn:Hb; simpl.
  - apply Z.eqb_neq. intros E.
    assert (Z.testbit (Z.land x (2 ^ k)) k = false) as H by (by rewrite E, Z.bits_0).
    rewrite Z.land_spec, Hb, Z.pow2_bits_true in H by lia. done.
  - apply Z.eqb_eq. apply Z.bits_inj'. intros n Hn.
    rewrite Z.land_spec, Z.bits_0.
    destruct (decide (n = k)) as [->|]; [by rewrite Hb|].
    rewrite Z.pow2_bits_false by lia. apply andb_false_r.
Qed.

Lemma land_pred_pow2 x k : 0 <= k -> Z.land x (2 ^ k - 1) = x mod 2 ^ k.
Proof. intros. rewrite <- Z.land_ones by lia. f_equal. rewrite Z.ones_equiv. lia. Qed.

(** Adding [2^k] flips bit [k] and leaves the residue alone. *)
Lemma testbit_add_pow2 x k : 0 <= k -> Z.testbit (x + 2 ^ k) k = negb (Z.testbit x k).
Proof.
  intros. rewrite !Z.testbit_odd, !Z.shiftr_div_pow2 by lia.
  replace (x + 2 ^ k) with (x + 1 * 2 ^ k) by lia.
  rewrite Z.div_add by lia. by rewrite Z.odd_add, xorb_true_r.
Qed.

(** Residues tell apart the positions of a window shorter than the modulus. *)
Lemma mod_inj_window c i j : 0 < c -> i mod c = j mod c -> - c < i - j < c -> i = j.
Proof.
  intros Hc E H. rewrite (Z.div_mod i c), (Z.div_mod j c) by lia. rewrite E.
  assert (i / c = j / c); [|lia].
  pose proof (Z.div_mod i c). pose proof (Z.div_mod j c). nia.
Qed.

(** ** Record update

    [r <| f := v |>] is [r] with field [f] replaced; a record type opts in by an
    [Instance] of [Settable], its eta-expansion. *)

Class Settable (R : Type) := eta : R -> R.
Class Setter {R T} (proj : R -> T) := set_field : (T -> T) -> R -> R.

Ltac build_setter :=
  match goal with
  | |- @Setter ?R ?T ?proj =>
      let e := constr:(_ : Settable R) in
      let e := eval red in e in
      match eval pattern proj in e with
      | ?g _ =>
          let s := eval cbv beta in (fun (f : T -> T) (r : R) => g (fun r' => f (proj r')) r) in
          exact s
      end
  end.
#[export] Hint Extern 1 (Setter _) => build_setter : typeclass_instances.

Definition set {R T} (proj : R -> T) `{S : !Setter proj} (f : T -> T) (r : R) : R := S f r.
Arguments set {R T} proj {S} f r /.

Declare Scope aspen_scope.
#[global] Open Scope aspen_scope.
Notation "x <| proj := v |>" := (set proj (fun _ => v) x)
  (at level 12, left associativity) : aspen_scope.

(** ** Lists *)

Lemma take_nonempty {A} n (l : list A) : (0 < n)%nat -> l <> [] -> take n l <> [].
Proof. destruct n, l; simpl; [lia|lia|done|done]. Qed.

Lemma Sorted_take {A} (R : relation A) n l : Sorted R l -> Sorted R (take n l).
Proof.
  intros H. revert n. induction H as [|x l Hl IH Hd]; intros [|n]; simpl; try constructor; [done|].
  destruct Hd, n; by constructor.
Qed.

(** ** Per-thread state *)

(** A function from threads, updated at one of them. *)
Definition upd {A} (f : nat -> A) (t : nat) (x : A) : nat -> A :=
  fun u => if decide (u = t) then x else f u.

Lemma upd_same {A} (f : nat -> A) t x : upd f t x t = x.
Proof. unfold upd. by rewrite decide_True. Qed.
Lemma upd_other {A} (f : nat -> A) t x u : u <> t -> upd f t x u = f u.
Proof. intros. unfold upd. by rewrite decide_False. Qed.

(** Case analysis on whether [u] is the thread that stepped. *)
Ltac is_thread u t :=
  destruct (decide (u = t)) as [->|]; [rewrite ?upd_same|rewrite ?upd_other by done].
