(* ===== verification/StdDef.v ===== *)
(** * stddef.h and atomic.h: the integer helpers shared by every component

    Models [inc/base/stddef.h] (the power-of-two and alignment macros, the
    wrap-around comparisons) and [inc/base/atomic.h] (the 32-bit atomic
    operations, each one a single indivisible state transition). *)

From S2P Require Import Prelude.

(** ** Macros of stddef.h *)

(** [#define is_power_of_two(x) ((x) != 0 && !((x) & ((x) - 1)))] *)
Definition is_power_of_two (x : Z) : bool :=
  negb (x =? 0) && (Z.land x (x - 1) =? 0).

(** [(((x) - 1) | ((typeof(x))(align) - 1)) + 1], at type [uint64_t]. *)
Definition align_up (x align : Z) : Z :=
  u64 (Z.lor (u64 (x - 1)) (u64 (align - 1)) + 1).

(** [((x) & ~((typeof(x))(align) - 1))], at type [uint64_t]. *)
Definition align_down (x align : Z) : Z :=
  Z.land x (u64 (Z.lnot (u64 (align - 1)))).

(** [((((x) + (d) - 1)) / (d))] on operands that do not overflow. *)
Definition div_up (x d : Z) : Z := (x + d - 1) / d.

Definition MIN (a b : Z) : Z := if a <? b then a else b.
Definition MAX (a b : Z) : Z := if a >? b then a else b.

(** ** Wrap-around comparisons *)

Definition wraps_lt (a b : Z) : bool := s32 (u32 (a - b)) <? 0.
Definition wraps_lte (a b : Z) : bool := s32 (u32 (a - b)) <=? 0.
Definition wraps_gt (a b : Z) : bool := s32 (u32 (b - a)) <? 0.
Definition wraps_gte (a b : Z) : bool := s32 (u32 (b - a)) <=? 0.

(** ** atomic.h

    [atomic_t] holds a C [int]; each operation returns the value the builtin
    returns together with the new contents. *)

Definition atomic_fetch_and_add (a val : Z) : Z * Z := (a, s32 (a + val)).
Definition atomic_fetch_and_sub (a val : Z) : Z * Z := (a, s32 (a + val)).
Definition atomic_fetch_and_or (a val : Z) : Z * Z := (a, s32 (Z.lor a val)).
Definition atomic_sub_and_fetch (a val : Z) : Z * Z := (s32 (a - val), s32 (a - val)).
Definition atomic_cmpxchg (a oldv newv : Z) : bool * Z :=
  if a =? oldv then (true, newv) else (false, a).
Definition atomic_inc (a : Z) : Z := snd (atomic_fetch_and_add a 1).
Definition atomic_dec (a : Z) : Z := snd (atomic_sub_and_fetch a 1).
Definition atomic_dec_and_test (a : Z) : bool * Z :=
  (fst (atomic_sub_and_fetch a 1) =? 0, snd (atomic_sub_and_fetch a 1)).

(** ** Lemmas *)

Lemma is_power_of_two_true x :
  0 <= x -> is_power_of_two x = true -> x = 2 ^ Z.log2 x.
Proof.
  unfold is_power_of_two. intros Hx H. apply andb_prop in H as [Hn Hl].
  apply negb_true_iff, Z.eqb_neq in Hn. apply Z.eqb_eq in Hl.
  destruct (Z.log2_spec x) as [Hlo Hhi]; [lia|].
  destruct (decide (x = 2 ^ Z.log2 x)) as [|Hne]; [done|exfalso].
  assert (Z.log2 (x - 1) = Z.log2 x) as Hlog.
  { apply Z.log2_unique; [apply Z.log2_nonneg | lia]. }
  assert (Z.testbit (Z.land x (x - 1)) (Z.log2 x) = true) as Hbit.
  { rewrite Z.land_spec, Z.bit_log2 by lia. rewrite <- Hlog at 1.
    apply Z.bit_log2. pose proof (Z.pow_pos_nonneg 2 (Z.log2 x)).
    pose proof (Z.log2_nonneg x). lia. }
  by rewrite Hl, Z.bits_0 in Hbit.
Qed.

Lemma is_power_of_two_pow2 k : 0 <= k -> is_power_of_two (2 ^ k) = true.
Proof.
  intros Hk. unfold is_power_of_two. rewrite land_pred_pow2 by done.
  rewrite Z.mod_same by (apply Z.pow_nonzero; lia).
  assert (2 ^ k <> 0) by (apply Z.pow_nonzero; lia).
  by destruct (Z.eqb_spec (2 ^ k) 0).
Qed.

(** A 32-bit power of two has an exponent below 32. *)
Lemma is_power_of_two_u32 x :
  is_u32 x -> is_power_of_two x = true -> exists k, 0 <= k < 32 /\ x = 2 ^ k.
Proof.
  intros [Hlo Hhi] H. apply is_power_of_two_true in H; [|done].
  exists (Z.log2 x). split; [|done]. split; [apply Z.log2_nonneg|].
  apply Z.log2_lt_pow2; [|done]. rewrite H. apply Z.pow_pos_nonneg; [lia|apply Z.log2_nonneg].
Qed.

Lemma MIN_min a b : MIN a b = Z.min a b.
Proof. unfold MIN. zcases. Qed.
Lemma MAX_max a b : MAX a b = Z.max a b.
Proof. unfold MAX. zcases. Qed.

Lemma div_up_bounds x d : 0 < d -> d * (div_up x d - 1) < x <= d * div_up x d.
Proof.
  intros. unfold div_up. pose proof (Z.mul_div_le (x + d - 1) d).
  pose proof (Z.mul_succ_div_gt (x + d - 1) d). lia.
Qed.

Lemma s32_u32_diff A B :
  - 2 ^ 31 <= A - B < 2 ^ 31 -> s32 (u32 (u32 A - u32 B)) = A - B.
Proof.
  intros H. autorewrite with width. unfold s32, u32.
  rewrite Z.add_mod_idemp_l by lia. rewrite Z.mod_small by lia. lia.
Qed.

(** The wrap-around comparisons order free-running counters: as long as two
    unbounded counters stay within [2^31] of each other, comparing their
    32-bit truncations with [wraps_lt]/[wraps_lte]/[wraps_gt]/[wraps_gte]
    gives the order of the counters themselves. *)
Theorem wraps_compare_counters A B :
  - 2 ^ 31 < A - B < 2 ^ 31 ->
  wraps_lt (u32 A) (u32 B) = (A <? B) /\
  wraps_lte (u32 A) (u32 B) = (A <=? B) /\
  wraps_gt (u32 A) (u32 B) = (A >? B) /\
  wraps_gte (u32 A) (u32 B) = (A >=? B).
Proof.
  intros H. unfold wraps_lt, wraps_lte, wraps_gt, wraps_gte.
  rewrite !s32_u32_diff by lia. repeat split; zcases.
Qed.

Lemma wraps_lt_counters A B :
  - 2 ^ 31 <= A - B < 2 ^ 31 -> wraps_lt (u32 A) (u32 B) = (A <? B).
Proof. intros H. unfold wraps_lt. rewrite s32_u32_diff by lia. zcases. Qed.
