(* ===== verification/Lrpc.v ===== *)
(** * lrpc: the shared-memory message channels

    Models [inc/base/lrpc.h] and [base/lrpc.c]: a single-producer,
    single-consumer ring of messages whose producer publishes a slot by a
    release store of the command word, tagged with a parity bit that flips on
    every lap, and whose consumer publishes its position by a release store of
    [recv_head_wb].  [lrpc_send] and [lrpc_recv] are the C functions; [Micro]
    splits both at their shared-memory accesses and lets them interleave. *)

From S2P Require Import Prelude StdDef.

Definition EINVAL : Z := 22.

Record lrpc_msg := LrpcMsg { cmd : Z; payload : Z }.

#[global] Instance lrpc_msg_eq_dec : EqDecision lrpc_msg.
Proof. solve_decision. Defined.
#[global] Instance lrpc_msg_inhabited : Inhabited lrpc_msg := populate (LrpcMsg 0 0).

Definition LRPC_DONE_PARITY : Z := 2 ^ 63.
Definition LRPC_CMD_MASK : Z := u64 (Z.lnot LRPC_DONE_PARITY).

(** The producer's private state; [tbl] and [recv_head_wb] live in the shared
    memory region below. *)
Record lrpc_chan_out := ChanOut { send_head : Z; send_tail : Z; out_size : Z }.
(** The consumer's private state. *)
Record lrpc_chan_in := ChanIn { recv_head : Z; in_size : Z }.
(** What both sides map: the message table and the consumer's written-back head. *)
Record lrpc_shm := Shm { tbl : list lrpc_msg; recv_head_wb : Z }.

(** ** Operations *)

(** [tbl[head & (size - 1)]] *)
Definition slot (head size : Z) : nat := Z.to_nat (Z.land head (size - 1)).

(** [(head & size) ? 0 : LRPC_DONE_PARITY] *)
Definition parity_of (head size : Z) : Z :=
  if Z.land head size =? 0 then LRPC_DONE_PARITY else 0.

(** The two stores at the end of a successful send: payload, then the command
    word with its parity, and the post-increment of [send_head]. *)
Definition lrpc_put (chan : lrpc_chan_out) (m : lrpc_shm) (c p : Z)
    : lrpc_chan_out * lrpc_shm :=
  let i := slot (send_head chan) (out_size chan) in
  let c' := Z.lor c (parity_of (send_head chan) (out_size chan)) in
  (ChanOut (u32 (send_head chan + 1)) (send_tail chan) (out_size chan),
   Shm (<[i := LrpcMsg c' p]> (tbl m)) (recv_head_wb m)).

(** The slow path, [__lrpc_send] of lrpc.c. *)
Definition lrpc_send_slow (chan : lrpc_chan_out) (m : lrpc_shm) (c p : Z)
    : bool * (lrpc_chan_out * lrpc_shm) :=
  let chan := ChanOut (send_head chan) (recv_head_wb m) (out_size chan) in
  if u32 (send_head chan - send_tail chan) =? out_size chan
  then (false, (chan, m))
  else (true, lrpc_put chan m c p).

Definition lrpc_send (chan : lrpc_chan_out) (m : lrpc_shm) (c p : Z)
    : bool * (lrpc_chan_out * lrpc_shm) :=
  if u32 (send_head chan - send_tail chan) >=? out_size chan
  then lrpc_send_slow chan m c p
  else (true, lrpc_put chan m c p).

Definition lrpc_get_cached_send_window (chan : lrpc_chan_out) : Z :=
  u32 (out_size chan - send_head chan + send_tail chan).

Definition lrpc_get_cached_length (chan : lrpc_chan_out) : Z :=
  u32 (send_head chan - send_tail chan).

Definition lrpc_poll_send_tail (chan : lrpc_chan_out) (m : lrpc_shm) : Z * lrpc_chan_out :=
  (recv_head_wb m, ChanOut (send_head chan) (recv_head_wb m) (out_size chan)).

(** [lrpc_recv] returns the message it stores through [cmd_out] and
    [payload_out], or [None] where the C function returns false. *)
Definition lrpc_recv (chan : lrpc_chan_in) (m : lrpc_shm)
    : option (Z * Z) * (lrpc_chan_in * lrpc_shm) :=
  let e := tbl m !!! slot (recv_head chan) (in_size chan) in
  let parity := parity_of (recv_head chan) (in_size chan) in
  if negb (Z.land (cmd e) LRPC_DONE_PARITY =? parity)
  then (None, (chan, m))
  else let h := u32 (recv_head chan + 1) in
       (Some (Z.land (cmd e) LRPC_CMD_MASK, payload e),
        (ChanIn h (in_size chan), Shm (tbl m) h)).

Definition lrpc_empty (chan : lrpc_chan_in) (m : lrpc_shm) : bool :=
  let e := tbl m !!! slot (recv_head chan) (in_size chan) in
  negb (Z.land (cmd e) LRPC_DONE_PARITY =? parity_of (recv_head chan) (in_size chan)).

Definition lrpc_init_out (size : Z) : Z + lrpc_chan_out :=
  if negb (is_power_of_two size) then inl (- EINVAL) else inr (ChanOut 0 0 size).

Definition lrpc_init_in (size : Z) : Z + lrpc_chan_in :=
  if negb (is_power_of_two size) then inl (- EINVAL) else inr (ChanIn 0 size).

(** A channel: both ends and the shared memory between them. *)
Record channel := Channel { c_out : lrpc_chan_out; c_in : lrpc_chan_in; c_shm : lrpc_shm }.

(** A freshly mapped (zeroed) region with both ends initialised. *)
Definition channel_init (size : Z) : Z + channel :=
  match lrpc_init_out size, lrpc_init_in size with
  | inr o, inr i => inr (Channel o i (Shm (replicate (Z.to_nat size) (LrpcMsg 0 0)) 0))
  | inl e, _ => inl e
  | _, inl e => inl e
  end.

(** ** Abstract specification: a bounded first-in first-out queue *)

Inductive op := Send (c p : Z) | Recv | Empty | Poll.
Inductive res := Sent (b : bool) | Received (m : option (Z * Z)) | IsEmpty (b : bool) | Polled.

Definition fifo_step (cap : Z) (o : op) (q : list (Z * Z)) : res * list (Z * Z) :=
  match o with
  | Send c p => if Z.of_nat (length q) <? cap then (Sent true, q ++ [(c, p)]) else (Sent false, q)
  | Recv => match q with [] => (Received None, []) | m :: q' => (Received (Some m), q') end
  | Empty => (IsEmpty (bool_decide (q = [])), q)
  | Poll => (Polled, q)
  end.

Definition channel_step (o : op) (ch : channel) : res * channel :=
  match o with
  | Send c p => let '(b, (o', m')) := lrpc_send (c_out ch) (c_shm ch) c p in
                (Sent b, Channel o' (c_in ch) m')
  | Recv => let '(r, (i', m')) := lrpc_recv (c_in ch) (c_shm ch) in
            (Received r, Channel (c_out ch) i' m')
  | Empty => (IsEmpty (lrpc_empty (c_in ch) (c_shm ch)), ch)
  | Poll => (Polled, Channel (snd (lrpc_poll_send_tail (c_out ch) (c_shm ch))) (c_in ch) (c_shm ch))
  end.

Fixpoint run {S} (step : op -> S -> res * S) (ops : list op) (s : S) : list res * S :=
  match ops with
  | [] => ([], s)
  | o :: ops => let '(r, s1) := step o s in let '(rs, s2) := run step ops s1 in (r :: rs, s2)
  end.

(** The contract of [lrpc_send] (its [assert]): the command leaves the parity
    bit free. *)
Definition op_ok (o : op) : Prop :=
  match o with Send c p => 0 <= c < LRPC_DONE_PARITY | _ => True end.

(** ** The representation invariant *)

Section Invariant.
Context (k : Z) (Hk : 0 <= k < 32).
#[local] Abbreviation size := (2 ^ k).

(** The parity a message in position [i] of the stream is published with:
    it flips every [size] positions. *)
Definition par (i : Z) : Z := if Z.testbit i k then 0 else LRPC_DONE_PARITY.

Definition at_pos (t : list lrpc_msg) (i : Z) : lrpc_msg := t !!! Z.to_nat (i mod size).

(** The table against the stream [h] of messages sent so far: the last [size]
    positions carry their own lap's parity, and those that were really sent
    (not the zeroed slots of the first lap) carry their message. *)
Definition table_ok (h : list (Z * Z)) (t : list lrpc_msg) : Prop :=
  length t = Z.to_nat size /\
  forall i, Z.of_nat (length h) - size <= i < Z.of_nat (length h) ->
    Z.land (cmd (at_pos t i)) LRPC_DONE_PARITY = par i /\
    (0 <= i -> h !! Z.to_nat i =
       Some (Z.land (cmd (at_pos t i)) LRPC_CMD_MASK, payload (at_pos t i))).

(** [h]: every message ever sent; [R]: how many were received; [T]: the
    producer's last view of [R]. *)
Definition chan_inv (h : list (Z * Z)) (R T : Z) (ch : channel) : Prop :=
  let S := Z.of_nat (length h) in
  c_out ch = ChanOut (u32 S) (u32 T) size /\
  c_in ch = ChanIn (u32 R) size /\
  recv_head_wb (c_shm ch) = u32 R /\
  table_ok h (tbl (c_shm ch)) /\
  0 <= T <= R /\ R <= S <= T + size.

Lemma size_pos : 0 < size <= 2 ^ 31.
Proof. split; [apply Z.pow_pos_nonneg; lia | apply Z.pow_le_mono_r; lia]. Qed.

Lemma slot_u32 i : slot (u32 i) size = Z.to_nat (i mod size).
Proof.
  unfold slot. rewrite land_pred_pow2 by lia. rewrite u32_mod_pow2 by lia. done.
Qed.

Lemma parity_u32 i : parity_of (u32 i) size = par i.
Proof.
  unfold parity_of, par. rewrite land_pow2_ne0 by lia.
  rewrite u32_testbit by lia. by destruct (Z.testbit i k).
Qed.

Lemma par_flip i : par (i + size) <> par i.
Proof.
  unfold par. rewrite testbit_add_pow2 by lia. by destruct (Z.testbit i k).
Qed.

Lemma at_pos_lap t i : at_pos t (i + size) = at_pos t i.
Proof.
  unfold at_pos. f_equal. f_equal. replace (i + size) with (i + 1 * size) by lia.
  apply Z.mod_add. pose proof size_pos. lia.
Qed.

Lemma at_pos_insert t i j m :
  length t = Z.to_nat size -> - size < i - j < size ->
  at_pos (<[Z.to_nat (i mod size) := m]> t) j = if decide (i = j) then m else at_pos t j.
Proof.
  intros Hl Hij. unfold at_pos. pose proof size_pos.
  pose proof (Z.mod_pos_bound i size). pose proof (Z.mod_pos_bound j size).
  case_decide as E.
  - subst. rewrite list_lookup_total_insert by lia. by rewrite decide_True by lia.
  - rewrite list_lookup_total_insert_ne; [done|]. intros F. apply E, (mod_inj_window size); lia.
Qed.

Lemma mask_lor c p : 0 <= c < LRPC_DONE_PARITY -> p = 0 \/ p = LRPC_DONE_PARITY ->
  Z.land (Z.lor c p) LRPC_CMD_MASK = c /\ Z.land (Z.lor c p) LRPC_DONE_PARITY = p.
Proof.
  intros Hc Hp. unfold LRPC_DONE_PARITY in *.
  change LRPC_CMD_MASK with (2 ^ 63 - 1). rewrite land_pred_pow2 by lia.
  assert (Z.land c (2 ^ 63) = 0) as Hz.
  { apply Z.eqb_eq. rewrite land_pow2_ne0 by lia.
    rewrite Z.bits_above_log2; [done|lia|]. destruct (decide (c = 0)) as [->|]; [done|].
    apply Z.log2_lt_pow2; lia. }
  destruct Hp as [-> | ->].
  - rewrite Z.lor_0_r. split; [by apply Z.mod_small | done].
  - rewrite Z.land_lor_distr_l, Hz, Z.land_diag, Z.lor_0_l. split; [|done].
    rewrite <- Z.land_ones by lia. rewrite Z.land_lor_distr_l.
    rewrite Z.land_ones by lia. rewrite Z.mod_small by lia.
    change (Z.land (2 ^ 63) (Z.ones 63)) with 0. by rewrite Z.lor_0_r.
Qed.

Lemma par_cases i : par i = 0 \/ par i = LRPC_DONE_PARITY.
Proof. unfold par. destruct (Z.testbit i k); auto. Qed.

(** Writing the next message of the stream keeps the table in step. *)
Lemma table_ok_put h t c p :
  table_ok h t -> 0 <= c < LRPC_DONE_PARITY ->
  let S := Z.of_nat (length h) in
  table_ok (h ++ [(c, p)])
    (<[Z.to_nat (S mod size) := LrpcMsg (Z.lor c (par S)) p]> t).
Proof.
  intros [Hl Ht] Hc S. split; [by rewrite length_insert|].
  rewrite length_app; simpl. intros i Hi.
  rewrite at_pos_insert by (done || lia).
  destruct (mask_lor c (par S) Hc (par_cases S)) as [Hm Hp].
  case_decide as E.
  - subst i. simpl. split; [done|]. intros _. rewrite Hm. unfold S. rewrite Nat2Z.id.
    by rewrite lookup_app_r, Nat.sub_diag by lia.
  - destruct (Ht i) as [Hi1 Hi2]; [lia|]. split; [done|]. intros H0.
    rewrite lookup_app_l; [by apply Hi2 | lia].
Qed.

(** The parity bit of the consumer's slot tells exactly whether a message is
    waiting there. *)
Lemma table_parity h t R :
  table_ok h t -> 0 <= R -> Z.of_nat (length h) - size <= R <= Z.of_nat (length h) ->
  (Z.land (cmd (at_pos t R)) LRPC_DONE_PARITY =? par R) = (R <? Z.of_nat (length h)).
Proof.
  intros [Hl Ht] H0 HR. pose proof size_pos. destruct (Z.ltb_spec R (Z.of_nat (length h))).
  - apply Z.eqb_eq. apply Ht. lia.
  - assert (R = Z.of_nat (length h)) as -> by lia. apply Z.eqb_neq.
    replace (Z.of_nat (length h)) with (Z.of_nat (length h) - size + size) at 1 by lia.
    rewrite at_pos_lap. destruct (Ht (Z.of_nat (length h) - size)) as [-> _]; [lia|].
    intros E. apply (par_flip (Z.of_nat (length h) - size)). by rewrite Z.sub_add.
Qed.

Lemma send_ok h R T ch c p :
  chan_inv h R T ch -> 0 <= c < LRPC_DONE_PARITY ->
  let S := Z.of_nat (length h) in
  exists T', chan_inv (if S - R <? size then h ++ [(c, p)] else h) R T'
               (snd (channel_step (Send c p) ch)) /\
    fst (channel_step (Send c p) ch) = Sent (S - R <? size).
Proof.
  intros (Ho & Hi & Hw & Ht & HT & HS) Hc S. pose proof size_pos.
  destruct ch as [o i m]. simpl in *. subst o i.
  unfold lrpc_send, lrpc_send_slow, lrpc_put; simpl.
  rewrite !slot_u32, !parity_u32, Hw, !u32_diff, u32_add_l by lia.
  pose proof (table_ok_put h (tbl m) c p Ht Hc) as Ht'.
  assert (forall T', T' <= R -> 0 <= T' -> S + 1 <= T' + size ->
    chan_inv (h ++ [(c, p)]) R T'
      (Channel (ChanOut (u32 (S + 1)) (u32 T') size) (ChanIn (u32 R) size)
         (Shm (<[Z.to_nat (S mod size) := LrpcMsg (Z.lor c (par S)) p]> (tbl m)) (u32 R)))) as Hput.
  { intros T' ???. unfold chan_inv; simpl. rewrite length_app; simpl.
    rewrite Nat2Z.inj_add; simpl. split_and!; done || lia. }
  fold S. destruct (Z.geb_spec (S - T) size).
  - destruct (Z.eqb_spec (S - R) size).
    + exists R. rewrite (proj2 (Z.ltb_ge (S - R) size)) by lia.
      split; [|done]. unfold chan_inv; simpl. split_and!; done || lia.
    + exists R. rewrite (proj2 (Z.ltb_lt (S - R) size)) by lia. split; [|done].
      apply Hput; lia.
  - exists T. rewrite (proj2 (Z.ltb_lt (S - R) size)) by lia. split; [|done].
    apply Hput; lia.
Qed.

Lemma recv_ok h R T ch :
  chan_inv h R T ch ->
  let S := Z.of_nat (length h) in
  chan_inv h (if R <? S then R + 1 else R) T (snd (channel_step Recv ch)) /\
  fst (channel_step Recv ch) = Received (h !! Z.to_nat R) /\
  fst (channel_step Empty ch) = IsEmpty (negb (R <? S)).
Proof.
  intros (Ho & Hi & Hw & Ht & HT & HS) S. pose proof size_pos.
  destruct ch as [o i m]. simpl in *. subst o i.
  unfold lrpc_recv, lrpc_empty; simpl.
  rewrite !slot_u32, !parity_u32. change (tbl m !!! Z.to_nat (R mod size)) with (at_pos (tbl m) R).
  rewrite (table_parity h) by (done || lia). fold S. destruct (Z.ltb_spec R S); simpl.
  - rewrite u32_add_l. destruct Ht as [Hl Ht]. destruct (Ht R) as [_ Hm]; [lia|].
    rewrite Hm by lia. unfold chan_inv; simpl. split_and!; done || lia.
  - rewrite lookup_ge_None_2 by lia. unfold chan_inv; simpl. split_and!; done || lia.
Qed.

Lemma poll_ok h R T ch :
  chan_inv h R T ch -> chan_inv h R R (snd (channel_step Poll ch)).
Proof.
  intros (Ho & Hi & Hw & Ht & HT & HS). destruct ch as [o i m]. simpl in *. subst o i.
  unfold chan_inv; simpl. rewrite Hw. split_and!; done || lia.
Qed.

(** One operation of the channel is one operation of the bounded queue that
    holds the messages sent and not yet received. *)
Lemma channel_step_refines o h R T ch :
  chan_inv h R T ch -> op_ok o ->
  exists h' R' T', chan_inv h' R' T' (snd (channel_step o ch)) /\
    fifo_step size o (drop (Z.to_nat R) h) =
      (fst (channel_step o ch), drop (Z.to_nat R') h').
Proof.
  intros Hinv Hop. assert (0 <= R <= Z.of_nat (length h)) as HR by (unfold chan_inv in Hinv; lia).
  destruct o as [c p | | |].
  - destruct (send_ok h R T ch c p Hinv Hop) as (T' & Hinv' & ->).
    eexists _, R, T'. split; [exact Hinv'|]. unfold fifo_step. rewrite length_drop.
    replace (Z.of_nat (length h - Z.to_nat R)) with (Z.of_nat (length h) - R) by lia.
    zcase; [|done]. by rewrite drop_app_le by lia.
  - destruct (recv_ok h R T ch Hinv) as (Hinv' & -> & _).
    eexists h, _, T. split; [exact Hinv'|]. unfold fifo_step.
    destruct (Z.ltb_spec R (Z.of_nat (length h))).
    + destruct (lookup_lt_is_Some_2 h (Z.to_nat R)) as [x Hx]; [lia|].
      rewrite (drop_S h x) by done. rewrite Hx. do 2 f_equal. lia.
    + by rewrite drop_ge, lookup_ge_None_2 by lia.
  - destruct (recv_ok h R T ch Hinv) as (_ & _ & He). exists h, R, T. split; [done|].
    rewrite He. simpl. do 2 f_equal. destruct (Z.ltb_spec R (Z.of_nat (length h))); simpl.
    + apply bool_decide_eq_false. intros E%(f_equal length). rewrite length_drop in E. simpl in E. lia.
    + apply bool_decide_eq_true. apply drop_ge. lia.
  - exists h, R, R. split; [by apply (poll_ok h R T)|]. done.
Qed.

Lemma run_refines ops : forall h R T ch,
  chan_inv h R T ch -> Forall op_ok ops ->
  fst (run channel_step ops ch) = fst (run (fifo_step size) ops (drop (Z.to_nat R) h)).
Proof.
  induction ops as [|o ops IH]; intros h R T ch Hinv Hops; [done|].
  apply Forall_cons in Hops as [Ho Hops].
  destruct (channel_step_refines o h R T ch Hinv Ho) as (h' & R' & T' & Hinv' & Hs).
  simpl. rewrite Hs. destruct (channel_step o ch) as [r ch']; simpl in *.
  specialize (IH h' R' T' ch' Hinv' Hops).
  destruct (run channel_step ops ch'), (run (fifo_step size) ops (drop (Z.to_nat R') h')).
  simpl in *. by f_equal.
Qed.

Lemma channel_init_ok :
  exists ch, channel_init size = inr ch /\ chan_inv [] 0 0 ch.
Proof.
  unfold channel_init, lrpc_init_out, lrpc_init_in. pose proof size_pos.
  rewrite is_power_of_two_pow2 by lia. simpl. eexists. split; [done|].
  unfold chan_inv, table_ok; simpl. rewrite length_replicate. repeat split; try (done || lia).
  unfold at_pos. rewrite lookup_total_replicate_2 by (pose proof (Z.mod_pos_bound i size); lia).
  simpl. unfold par. rewrite Z.testbit_odd, Z.shiftr_div_pow2 by lia.
  by rewrite <- (Zdiv_unique i size (-1) (i + size)) by lia.
Qed.
End Invariant.

(** C1: the channel refines a bounded FIFO.  For every power-of-two size that
    fits the 32-bit [size] field, initialising both ends over zeroed shared
    memory succeeds, and any sequence of sends, receives, emptiness tests and
    tail polls returns exactly what the bounded first-in first-out queue of
    that capacity returns: messages come out once, in order and unchanged, a
    send fails only when [size] messages are waiting, and a receive fails only
    when none is - across any number of wrap-arounds of the 32-bit heads. *)
Theorem lrpc_refines_bounded_fifo size ops :
  is_u32 size -> is_power_of_two size = true -> Forall op_ok ops ->
  exists ch, channel_init size = inr ch /\
    fst (run channel_step ops ch) = fst (run (fifo_step size) ops []).
Proof.
  intros Hu Hp Hops. destruct (is_power_of_two_u32 size Hu Hp) as (k & Hk & ->).
  destruct (channel_init_ok k Hk) as (ch & Hch & Hinv). exists ch. split; [done|].
  by rewrite (run_refines k Hk ops [] 0 0 ch Hinv Hops).
Qed.

Lemma lrpc_refines_bounded_fifo_witness :
  let ops := [Send 1 10; Send 2 20; Send 3 30; Recv; Send 4 40; Recv; Recv; Recv; Empty] in
  (exists ch, channel_init 2 = inr ch /\
    fst (run channel_step ops ch) = fst (run (fifo_step 2) ops [])) /\
  fst (run (fifo_step 2) ops []) =
    [Sent true; Sent true; Sent false; Received (Some (1, 10)); Sent true;
     Received (Some (2, 20)); Received (Some (4, 40)); Received None; IsEmpty true].
Proof.
  split; [|reflexivity]. apply lrpc_refines_bounded_fifo.
  - unfold is_u32; lia.
  - reflexivity.
  - repeat constructor; simpl; unfold LRPC_DONE_PARITY; lia.
Defined.

(** ** Interleaving the two ends

    [Micro] runs one producer and one consumer concurrently, one shared-memory
    access at a time, in any order: the producer checks (and on the slow path
    refreshes) its window, stores the payload, then publishes the command word;
    the consumer loads the command word, reads the payload, then writes its
    head back. *)

Module Micro.

Inductive spc := SIdle | SReady (c p : Z) | SPayload (c p : Z).
Inductive rpc := RIdle | RGot (c : Z) | RRead.

#[global] Instance rpc_eq_dec : EqDecision rpc.
Proof. solve_decision. Defined.

(** [sent] and [got] record the calls that published and returned a message. *)
Record mstate := MState {
  ch : channel; m_s : spc; m_r : rpc; sent : list (Z * Z); got : list (Z * Z) }.

Definition out_slot (s : mstate) : nat :=
  slot (send_head (c_out (ch s))) (out_size (c_out (ch s))).
Definition in_entry (s : mstate) : lrpc_msg :=
  tbl (c_shm (ch s)) !!! slot (recv_head (c_in (ch s))) (in_size (c_in (ch s))).

Definition window_full (o : lrpc_chan_out) : bool :=
  u32 (send_head o - send_tail o) >=? out_size o.

Definition set_tbl (c : channel) (t : list lrpc_msg) : channel :=
  Channel (c_out c) (c_in c) (Shm t (recv_head_wb (c_shm c))).

Inductive mstep : mstate -> mstate -> Prop :=
(** [lrpc_send]: the cached window has room. *)
| s_fast s c p : m_s s = SIdle -> 0 <= c < LRPC_DONE_PARITY ->
    window_full (c_out (ch s)) = false ->
    mstep s (MState (ch s) (SReady c p) (m_r s) (sent s) (got s))
(** [__lrpc_send]: refresh [send_tail] from [recv_head_wb], then give up or go on. *)
| s_slow s c p o : m_s s = SIdle -> 0 <= c < LRPC_DONE_PARITY ->
    window_full (c_out (ch s)) = true ->
    o = snd (lrpc_poll_send_tail (c_out (ch s)) (c_shm (ch s))) ->
    mstep s (MState (Channel o (c_in (ch s)) (c_shm (ch s)))
               (if u32 (send_head o - send_tail o) =? out_size o then SIdle else SReady c p)
               (m_r s) (sent s) (got s))
(** [dst->payload = payload] *)
| s_payload s c p t : m_s s = SReady c p -> t = tbl (c_shm (ch s)) ->
    mstep s (MState (set_tbl (ch s) (<[out_slot s := LrpcMsg (cmd (t !!! out_slot s)) p]> t))
               (SPayload c p) (m_r s) (sent s) (got s))
(** [store_release(&dst->cmd, cmd)] and the increment of [send_head] *)
| s_publish s c p t o : m_s s = SPayload c p -> t = tbl (c_shm (ch s)) -> o = c_out (ch s) ->
    mstep s (MState
      (Channel (ChanOut (u32 (send_head o + 1)) (send_tail o) (out_size o)) (c_in (ch s))
         (Shm (<[out_slot s := LrpcMsg (Z.lor c (parity_of (send_head o) (out_size o)))
                                 (payload (t !!! out_slot s))]> t)
            (recv_head_wb (c_shm (ch s)))))
      SIdle (m_r s) (sent s ++ [(c, p)]) (got s))
(** [lrpc_recv]: the parity says the slot is not ours yet. *)
| r_miss s : m_r s = RIdle -> lrpc_empty (c_in (ch s)) (c_shm (ch s)) = true -> mstep s s
(** [cmd = load_acquire(&m->cmd)] with the right parity *)
| r_hit s : m_r s = RIdle -> lrpc_empty (c_in (ch s)) (c_shm (ch s)) = false ->
    mstep s (MState (ch s) (m_s s) (RGot (cmd (in_entry s))) (sent s) (got s))
(** [chan->recv_head++; *cmd_out = ...; *payload_out = m->payload] *)
| r_read s c : m_r s = RGot c ->
    mstep s (MState
      (Channel (c_out (ch s)) (ChanIn (u32 (recv_head (c_in (ch s)) + 1)) (in_size (c_in (ch s))))
         (c_shm (ch s)))
      (m_s s) RRead (sent s) (got s ++ [(Z.land c LRPC_CMD_MASK, payload (in_entry s))]))
(** [store_release(chan->recv_head_wb, chan->recv_head)] *)
| r_wb s : m_r s = RRead ->
    mstep s (MState
      (Channel (c_out (ch s)) (c_in (ch s)) (Shm (tbl (c_shm (ch s))) (recv_head (c_in (ch s)))))
      (m_s s) RIdle (sent s) (got s)).

Inductive reachable (size : Z) : mstate -> Prop :=
| reach_init c : channel_init size = inr c -> reachable size (MState c SIdle RIdle [] [])
| reach_step s s' : reachable size s -> mstep s s' -> reachable size s'.

Section MicroInvariant.
Context (k : Z) (Hk : 0 <= k < 32).
#[local] Abbreviation size := (2 ^ k).

Definition writing (s : mstate) : Prop := exists c p, m_s s = SPayload c p.

Record minv (s : mstate) (T B : Z) : Prop := {
  mi_out : c_out (ch s) = ChanOut (u32 (Z.of_nat (length (sent s)))) (u32 T) size;
  mi_in : c_in (ch s) = ChanIn (u32 (Z.of_nat (length (got s)))) size;
  mi_wb : recv_head_wb (c_shm (ch s)) = u32 B;
  mi_order : 0 <= T <= B /\ B <= Z.of_nat (length (got s)) <= Z.of_nat (length (sent s)) /\
             Z.of_nat (length (sent s)) <= T + size;
  mi_room : m_s s <> SIdle -> Z.of_nat (length (sent s)) < T + size;
  mi_cmd : forall c p, m_s s = SReady c p \/ m_s s = SPayload c p -> 0 <= c < LRPC_DONE_PARITY;
  mi_len : length (tbl (c_shm (ch s))) = Z.to_nat size;
  (* while the payload of the next slot is overwritten, the old message of
     that slot keeps its parity but not its contents *)
  mi_tbl : forall i,
    Z.of_nat (length (sent s)) - size <= i < Z.of_nat (length (sent s)) ->
    Z.land (cmd (at_pos k (tbl (c_shm (ch s))) i)) LRPC_DONE_PARITY = par k i /\
    (0 <= i -> (i = Z.of_nat (length (sent s)) - size -> ~ writing s) ->
     sent s !! Z.to_nat i = Some (Z.land (cmd (at_pos k (tbl (c_shm (ch s))) i)) LRPC_CMD_MASK,
                                  payload (at_pos k (tbl (c_shm (ch s))) i)));
  mi_payload : forall c p, m_s s = SPayload c p ->
    payload (at_pos k (tbl (c_shm (ch s))) (Z.of_nat (length (sent s)))) = p;
  mi_wb_lag : B = if decide (m_r s = RRead) then Z.of_nat (length (got s)) - 1
                  else Z.of_nat (length (got s));
  mi_hit : forall c, m_r s = RGot c ->
    Z.of_nat (length (got s)) < Z.of_nat (length (sent s)) /\
    c = cmd (at_pos k (tbl (c_shm (ch s))) (Z.of_nat (length (got s))));
  mi_prefix : got s `prefix_of` sent s }.

Lemma mod_lap i : (i - size) mod size = i mod size.
Proof.
  replace (i - size) with (i + (-1) * size) by lia. apply Z.mod_add.
  pose proof (size_pos k Hk). lia.
Qed.

(** Reading back a slot of the current window after the next slot was written. *)
Lemma at_pos_next t S j m :
  length t = Z.to_nat size -> S - size <= j < S ->
  at_pos k (<[Z.to_nat (S mod size) := m]> t) j =
    if decide (j = S - size) then m else at_pos k t j.
Proof.
  intros Hl Hj. rewrite <- mod_lap, (at_pos_insert k Hk) by (done || lia).
  repeat case_decide; done || lia.
Qed.

Lemma at_pos_same t S m :
  length t = Z.to_nat size -> at_pos k (<[Z.to_nat (S mod size) := m]> t) S = m.
Proof.
  intros Hl. pose proof (size_pos k Hk).
  rewrite (at_pos_insert k Hk) by (done || lia). by rewrite decide_True.
Qed.

Lemma out_slot_eq s T B : minv s T B ->
  out_slot s = Z.to_nat (Z.of_nat (length (sent s)) mod size).
Proof. intros H. unfold out_slot. rewrite (mi_out _ _ _ H). simpl. by apply slot_u32. Qed.

Lemma in_entry_eq s T B : minv s T B ->
  in_entry s = at_pos k (tbl (c_shm (ch s))) (Z.of_nat (length (got s))).
Proof. intros H. unfold in_entry. rewrite (mi_in _ _ _ H). simpl. by rewrite slot_u32. Qed.

Lemma window_full_eq s T B : minv s T B ->
  window_full (c_out (ch s)) = (Z.of_nat (length (sent s)) - T >=? size).
Proof.
  intros H. unfold window_full. rewrite (mi_out _ _ _ H). simpl.
  destruct H. pose proof (size_pos k Hk). by rewrite u32_diff by lia.
Qed.

Lemma minv_fast s T B c p :
  minv s T B -> m_s s = SIdle -> 0 <= c < LRPC_DONE_PARITY ->
  window_full (c_out (ch s)) = false ->
  minv (MState (ch s) (SReady c p) (m_r s) (sent s) (got s)) T B.
Proof.
  intros H Hs Hc Hw. rewrite (window_full_eq s T B H) in Hw. destruct H.
  rewrite Z.geb_leb in Hw. apply Z.leb_gt in Hw.
  split; simpl; try done.
  - lia.
  - intros ?? [E|E]; by simplify_eq.
  - intros i Hi. destruct (mi_tbl0 i Hi) as [Hp Hm]. split; [done|]. intros H0 _.
    apply Hm; [done|]. intros _ (? & ? & E). by rewrite Hs in E.
Qed.

Lemma minv_slow s T B c p :
  minv s T B -> m_s s = SIdle -> 0 <= c < LRPC_DONE_PARITY ->
  let o := snd (lrpc_poll_send_tail (c_out (ch s)) (c_shm (ch s))) in
  minv (MState (Channel o (c_in (ch s)) (c_shm (ch s)))
          (if u32 (send_head o - send_tail o) =? out_size o then SIdle else SReady c p)
          (m_r s) (sent s) (got s)) B B.
Proof.
  intros H Hs Hc. destruct H. simpl. rewrite mi_out0, mi_wb0; simpl.
  pose proof (size_pos k Hk).
  rewrite u32_diff by lia. split; simpl; try done.
  - lia.
  - destruct (Z.eqb_spec (Z.of_nat (length (sent s)) - B) size); [done|]. lia.
  - intros ?? [E|E]; destruct (_ =? _) in E; by simplify_eq.
  - intros i Hi. destruct (mi_tbl0 i Hi) as [Hp Hm]. split; [done|]. intros H0 _.
    apply Hm; [done|]. intros _ (? & ? & E). by rewrite Hs in E.
  - intros ?? E. by destruct (_ =? _) in E.
Qed.

Lemma minv_payload s T B c p t :
  minv s T B -> m_s s = SReady c p -> t = tbl (c_shm (ch s)) ->
  minv (MState (set_tbl (ch s) (<[out_slot s := LrpcMsg (cmd (t !!! out_slot s)) p]> t))
          (SPayload c p) (m_r s) (sent s) (got s)) T B.
Proof.
  intros H Hs ->. rewrite (out_slot_eq s T B H). destruct H.
  assert (Z.of_nat (length (sent s)) < T + size) by (apply mi_room0; by rewrite Hs).
  change (tbl (c_shm (ch s)) !!! Z.to_nat (Z.of_nat (length (sent s)) mod size))
    with (at_pos k (tbl (c_shm (ch s))) (Z.of_nat (length (sent s)))).
  split; simpl; try done.
  - intros ?? [E|E]; simplify_eq. eauto.
  - by rewrite length_insert.
  - intros i Hi. rewrite at_pos_next by done. destruct (mi_tbl0 i Hi) as [Hp Hm].
    destruct (decide (i = Z.of_nat (length (sent s)) - size)) as [E|E]; simpl.
    + split; [|intros _ F; destruct (F E); by exists c, p].
      rewrite <- Hp, E. by rewrite <- (at_pos_lap k Hk _ (_ - size)), Z.sub_add.
    + split; [done|]. intros H0 _. apply Hm; [done|]. done.
  - intros ?? E. simplify_eq. by rewrite at_pos_same.
  - intros c' E. destruct (mi_hit0 c' E) as [Hlt ->]. split; [done|].
    rewrite at_pos_next by (done || lia). by rewrite decide_False by lia.
Qed.

Lemma minv_publish s T B c p t o :
  minv s T B -> m_s s = SPayload c p -> t = tbl (c_shm (ch s)) -> o = c_out (ch s) ->
  minv (MState
    (Channel (ChanOut (u32 (send_head o + 1)) (send_tail o) (out_size o)) (c_in (ch s))
       (Shm (<[out_slot s := LrpcMsg (Z.lor c (parity_of (send_head o) (out_size o)))
                               (payload (t !!! out_slot s))]> t)
          (recv_head_wb (c_shm (ch s)))))
    SIdle (m_r s) (sent s ++ [(c, p)]) (got s)) T B.
Proof.
  intros H Hs -> ->. rewrite (out_slot_eq s T B H). destruct H.
  assert (Z.of_nat (length (sent s)) < T + size) by (apply mi_room0; by rewrite Hs).
  set (S := Z.of_nat (length (sent s))) in *.
  change (tbl (c_shm (ch s)) !!! Z.to_nat (S mod size)) with (at_pos k (tbl (c_shm (ch s))) S).
  rewrite mi_out0, (mi_payload0 c p Hs); simpl.
  rewrite (parity_u32 k Hk), u32_add_l.
  assert (0 <= c < LRPC_DONE_PARITY) as Hc by eauto.
  destruct (mask_lor c (par k S) Hc (par_cases k S)) as [Hm1 Hm2].
  assert (Z.of_nat (length (sent s ++ [(c, p)])) = S + 1) as HS
    by (rewrite length_app; simpl; lia).
  split; simpl; rewrite ?HS; try done.
  - lia.
  - intros ?? [E|E]; done.
  - by rewrite length_insert.
  - intros i Hi. destruct (decide (i = S)) as [->|Hne].
    + rewrite at_pos_same by done. simpl. split; [done|]. intros _ _. rewrite Hm1. unfold S.
      rewrite Nat2Z.id. by rewrite lookup_app_r, Nat.sub_diag by lia.
    + rewrite at_pos_next by (done || lia). rewrite decide_False by lia.
      destruct (mi_tbl0 i) as [Hp Hm]; [lia|]. split; [done|]. intros H0 _.
      rewrite lookup_app_l by lia. apply Hm; [done | lia].
  - intros c' E. destruct (mi_hit0 c' E) as [Hlt ->]. split; [lia|].
    rewrite at_pos_next by (done || lia). by rewrite decide_False by lia.
  - by apply prefix_app_r.
Qed.

Lemma minv_hit s T B :
  minv s T B -> m_r s = RIdle -> lrpc_empty (c_in (ch s)) (c_shm (ch s)) = false ->
  minv (MState (ch s) (m_s s) (RGot (cmd (in_entry s))) (sent s) (got s)) T B.
Proof.
  intros H Hr He. rewrite (in_entry_eq s T B H). destruct H.
  unfold lrpc_empty in He. rewrite mi_in0 in He. simpl in He.
  rewrite (slot_u32 k Hk), (parity_u32 k Hk) in He. apply negb_false_iff, Z.eqb_eq in He.
  split; simpl; try done.
  - by rewrite mi_wb_lag0, Hr.
  - intros c E. simplify_eq. split; [|done].
    destruct (decide (length (got s) < length (sent s))%nat); [lia|exfalso].
    assert (Z.of_nat (length (got s)) = Z.of_nat (length (sent s))) as E by lia.
    pose proof (size_pos k Hk).
    destruct (mi_tbl0 (Z.of_nat (length (sent s)) - size)) as [Hp _]; [lia|].
    apply (par_flip k Hk (Z.of_nat (length (sent s)) - size)).
    rewrite <- Hp, Z.sub_add, <- E, <- He.
    change (tbl (c_shm (ch s)) !!! _) with (at_pos k (tbl (c_shm (ch s))) (Z.of_nat (length (got s)))).
    by rewrite <- (at_pos_lap k Hk _ (_ - size)), Z.sub_add.
Qed.

Lemma minv_read s T B c :
  minv s T B -> m_r s = RGot c ->
  minv (MState
    (Channel (c_out (ch s)) (ChanIn (u32 (recv_head (c_in (ch s)) + 1)) (in_size (c_in (ch s))))
       (c_shm (ch s)))
    (m_s s) RRead (sent s) (got s ++ [(Z.land c LRPC_CMD_MASK, payload (in_entry s))])) T B.
Proof.
  intros H Hr. rewrite (in_entry_eq s T B H). destruct H.
  destruct (mi_hit0 c Hr) as [Hlt ->]. rewrite decide_False in mi_wb_lag0 by (by rewrite Hr).
  destruct (mi_tbl0 (Z.of_nat (length (got s)))) as [_ Hm]; [lia|].
  split; simpl; rewrite ?length_app; simpl; try done.
  - rewrite mi_in0. simpl. rewrite u32_add_l. do 2 f_equal. lia.
  - lia.
  - lia.
  - rewrite Nat2Z.id in Hm. destruct mi_prefix0 as [l Hl].
    assert (sent s !! length (got s) = l !! 0%nat) as Hx
      by (rewrite Hl, lookup_app_r by lia; by rewrite Nat.sub_diag).
    rewrite Hm in Hx; [|lia|].
    + destruct l as [|x l]; [done|]. exists l. rewrite Hl, <- app_assoc. simpl in *. by simplify_eq.
    + intros E (c' & p' & Hw).
      assert (Z.of_nat (length (sent s)) < T + size) by (apply mi_room0; by rewrite Hw). lia.
Qed.

Lemma minv_step s s' T B : minv s T B -> mstep s s' -> exists T' B', minv s' T' B'.
Proof.
  intros H Hstep. inversion Hstep; subst; eauto using minv_fast, minv_payload, minv_publish,
    minv_hit, minv_read, minv_slow.
  (* r_wb *)
  destruct H. exists T, (Z.of_nat (length (got s))). rewrite decide_True in mi_wb_lag0 by done.
  split; simpl; try done.
  - by rewrite mi_in0.
  - lia.
Qed.

Lemma minv_reachable s : reachable size s -> exists T B, minv s T B.
Proof.
  induction 1 as [c Hc | s s' _ (T & B & H) Hstep]; [|by eapply minv_step].
  destruct (channel_init_ok k Hk) as (c' & Hc' & Ho & Hi & Hw & (Hl & Ht) & HT & HS).
  assert (c' = c) as -> by congruence. simpl in *. exists 0, 0. split; simpl; try done.
  - pose proof (size_pos k Hk). lia.
  - intros ?? [E|E]; done.
  - intros i Hi'. destruct (Ht i Hi') as [Hp Hm]. split; [done|]. eauto.
Qed.
End MicroInvariant.

(** C7: no interleaving of the producer and the consumer tears, drops,
    duplicates or reorders a message.  In every state reachable by running
    [lrpc_send] and [lrpc_recv] concurrently, one shared-memory access at a
    time in any order, the messages received are a prefix of the messages
    sent, and at most [size] messages are in flight. *)
Theorem lrpc_concurrent_fifo size s :
  is_u32 size -> is_power_of_two size = true -> reachable size s ->
  got s `prefix_of` sent s /\ Z.of_nat (length (sent s)) - Z.of_nat (length (got s)) <= size.
Proof.
  intros Hu Hp Hr. destruct (is_power_of_two_u32 size Hu Hp) as (k & Hk & ->).
  destruct (minv_reachable k Hk s Hr) as (T & B & []). split; [done|]. lia.
Qed.

Lemma lrpc_concurrent_fifo_witness : exists s,
  reachable 2 s /\ sent s = [(5, 7)] /\ got s = [(5, 7)] /\
  (got s `prefix_of` sent s /\ Z.of_nat (length (sent s)) - Z.of_nat (length (got s)) <= 2).
Proof.
  assert (exists s, reachable 2 s /\ sent s = [(5, 7)] /\ got s = [(5, 7)]) as (s & Hr & Hs & Hg).
  { eexists. split; [|split].
    - eapply reach_step; [eapply reach_step; [eapply reach_step; [eapply reach_step;
        [eapply reach_step; [eapply reach_init; reflexivity|] |] |] |] |].
      + apply (s_fast _ 5 7); [reflexivity | unfold LRPC_DONE_PARITY; lia | reflexivity].
      + eapply s_payload; reflexivity.
      + eapply s_publish; reflexivity.
      + apply r_hit; reflexivity.
      + eapply r_read. reflexivity.
    - reflexivity.
    - reflexivity. }
  exists s. split; [exact Hr|]. split; [exact Hs|]. split; [exact Hg|].
  apply lrpc_concurrent_fifo; [unfold is_u32; lia | reflexivity | exact Hr].
Defined.
End Micro.
