(* ===== verification/Preempt.v ===== *)
(** * preempt: the per-kthread preemption counters

    Models [inc/runtime/preempt.h], [runtime/preempt.c] and the interrupt
    entry points of [runtime/uintr.c] that use them: the nesting counter with
    its "not pending" flag in bit 31, the second word that remembers a user
    interrupt that arrived while preemption was off, the signal and
    user-interrupt handlers, and [preempt_enable], which delivers what is
    pending when the outermost critical section ends.  The build is the one
    with [UNSAFE_PREEMPT_FLAG] or [UNSAFE_PREEMPT_SIMDREG] (the shipped
    configuration), not [UNSAFE_PREEMPT_CLUI]. *)

From S2P Require Import Prelude StdDef.

Record pcpu := PCpu { preempt_cnt : Z; upreempt_cnt : Z }.

#[global] Instance pcpu_eq_dec : EqDecision pcpu.
Proof. solve_decision. Defined.

(** [#define PREEMPT_NOT_PENDING (1 << 31)], as the [unsigned int] it is
    combined with. *)
Definition PREEMPT_NOT_PENDING : Z := 2 ^ 31.

(** The shared words [preempt_cede_needed] and [preempt_yield_needed] compare. *)
Record q_gens := QGens {
  curr_grant_gen : Z; cede_gen : Z; yield_rcu_gen : Z; park_gen : Z; rcu_gen : Z }.

Definition preempt_cede_needed (q : q_gens) : bool := curr_grant_gen q =? cede_gen q.
Definition preempt_yield_needed (q : q_gens) : bool := yield_rcu_gen q =? rcu_gen q.
Definition preempt_park_needed (q : q_gens) : bool := curr_grant_gen q =? park_gen q.

(** The calls that leave the current thread. *)
Inductive event := Cede | Yield.

#[global] Instance event_eq_dec : EqDecision event.
Proof. solve_decision. Defined.

Definition preempt_enabled (p : pcpu) : bool :=
  Z.land (preempt_cnt p) (u32 (Z.lnot PREEMPT_NOT_PENDING)) =? 0.
Definition preempt_needed (p : pcpu) : bool :=
  Z.land (preempt_cnt p) PREEMPT_NOT_PENDING =? 0.
Definition upreempt_needed (p : pcpu) : bool :=
  Z.land (upreempt_cnt p) PREEMPT_NOT_PENDING =? 0.

Definition set_preempt_needed (p : pcpu) : pcpu :=
  PCpu (Z.land (preempt_cnt p) 0x7fffffff) (upreempt_cnt p).
Definition set_upreempt_needed (p : pcpu) : pcpu :=
  PCpu (preempt_cnt p) (Z.land (upreempt_cnt p) 0x7fffffff).
Definition clear_preempt_needed (p : pcpu) : pcpu :=
  PCpu (Z.lor (preempt_cnt p) 0x80000000) (upreempt_cnt p).
Definition clear_upreempt_needed (p : pcpu) : pcpu :=
  PCpu (preempt_cnt p) (Z.lor (upreempt_cnt p) 0x80000000).

Definition preempt_disable (p : pcpu) : pcpu :=
  PCpu (u32 (preempt_cnt p + 1)) (upreempt_cnt p).
Definition preempt_enable_nocheck (p : pcpu) : pcpu :=
  PCpu (u32 (preempt_cnt p - 1)) (upreempt_cnt p).

(** [preempt_enable], as compiled with [__GCC_ASM_FLAG_OUTPUTS__]: subtract one
    and branch on the zero flag.  [pre] is the [preempt()] it calls. *)
Definition preempt_enable_with (pre : pcpu -> list event * pcpu) (p : pcpu)
    : list event * pcpu :=
  let p := preempt_enable_nocheck p in
  if preempt_cnt p =? 0 then pre p
  else if preempt_enabled p && (upreempt_cnt p =? 0)
       then ([Yield], clear_upreempt_needed p)
       else ([], p).

(** [preempt()], the entry point for a deferred preemption: [getk], check,
    clear, then cede, yield or nothing.  [thread_cede] is called with
    preemption still disabled; the other paths call [putk].  The recursion
    [preempt -> putk -> preempt_enable -> preempt] is bounded by [fuel]. *)
Fixpoint preempt (fuel : nat) (q : q_gens) (p : pcpu) : list event * pcpu :=
  match fuel with
  | O => ([], p)
  | S fuel =>
    let putk := preempt_enable_with (preempt fuel q) in
    let p := preempt_disable p in
    if negb (preempt_needed p) then putk p
    else
      let p := clear_preempt_needed p in
      if preempt_cede_needed q then ([Cede], p)
      else if preempt_yield_needed q then let '(e, p) := putk p in (e ++ [Yield], p)
      else putk p
  end.

(** One nested call is enough (see [preempt_fuel]). *)
Definition PREEMPT_FUEL : nat := 2.
Definition preempt_enable (q : q_gens) : pcpu -> list event * pcpu :=
  preempt_enable_with (preempt PREEMPT_FUEL q).

(** The fallback body of [preempt_enable], for compilers without flag outputs. *)
Definition preempt_enable_fallback (q : q_gens) (p : pcpu) : list event * pcpu :=
  let p := preempt_enable_nocheck p in
  if preempt_cnt p =? 0 then preempt PREEMPT_FUEL q p
  else if preempt_enabled p && (upreempt_cnt p =? 0) then ([Yield], p) else ([], p).

Definition preempt_init_thread : pcpu := PCpu PREEMPT_NOT_PENDING PREEMPT_NOT_PENDING.

(** ** Interrupts *)

(** [SIGUSR1] asks for a cede, [SIGUSR2] for a yield; [Uintr] is the user
    interrupt (or the SIGUSR1 of [SIGNAL_PREEMPT], or Concord's flag). *)
Inductive interrupt := SigUsr1 | SigUsr2 | Uintr.

Definition handle_sigusr1 (q : q_gens) (p : pcpu) : list event * pcpu :=
  if negb (preempt_enabled p) then ([], set_preempt_needed p)
  else ([Cede], preempt_disable p).

Definition handle_sigusr2 (q : q_gens) (p : pcpu) : list event * pcpu :=
  if negb (preempt_enabled p) then ([], set_preempt_needed p)
  else if negb (preempt_yield_needed q) then ([], p) else ([Yield], p).

Definition ui_handler (p : pcpu) : list event * pcpu :=
  if preempt_enabled p then ([Yield], p) else ([], set_upreempt_needed p).

Definition signal_handler (p : pcpu) : list event * pcpu :=
  if negb (preempt_enabled p) then ([], set_upreempt_needed p) else ([Yield], p).

Definition interrupted (i : interrupt) (q : q_gens) (p : pcpu) : list event * pcpu :=
  match i with
  | SigUsr1 => handle_sigusr1 q p
  | SigUsr2 => handle_sigusr2 q p
  | Uintr => ui_handler p
  end.

(** ** Thread creation, as far as it touches the counters

    [th_ok] and [stack_ok]: whether [tcache_alloc] and [stack_alloc] succeed. *)

Definition thread_create_inner (q : q_gens) (th_ok stack_ok : bool) (p : pcpu)
    : bool * pcpu :=
  let p := preempt_disable p in
  if negb th_ok then (false, snd (preempt_enable q p))
  else if negb stack_ok then (false, snd (preempt_enable q p))
  else (true, snd (preempt_enable q p)).

Definition thread_create_with_buf (q : q_gens) (th_ok stack_ok : bool) (p : pcpu)
    : bool * pcpu :=
  let p := preempt_disable p in
  let '(ok, p) := thread_create_inner q th_ok stack_ok p in
  if negb ok then (false, p)
  else (true, snd (preempt_enable q p)).

(** ** A kthread's history of preemption operations

    A thread that calls [thread_cede] leaves with preemption disabled once;
    [__jmp_thread] (switch.S) subtracts that one when the thread is resumed, so
    an operation that ceded is followed by [resume]. *)

Inductive pop := PDisable | PEnable (q : q_gens) | PInt (i : interrupt) (q : q_gens).

Definition resume (r : list event * pcpu) : list event * pcpu :=
  let '(e, p) := r in
  (e, if bool_decide (Cede ∈ e) then preempt_enable_nocheck p else p).

Definition pop_step (o : pop) (p : pcpu) : list event * pcpu :=
  match o with
  | PDisable => ([], preempt_disable p)
  | PEnable q => resume (preempt_enable q p)
  | PInt i q => resume (interrupted i q p)
  end.

(** The nesting depth and the two kinds of pending requests, as the abstract
    state the words stand for. *)
Record pabs := PAbs { depth : Z; pending : bool; upending : bool }.

(** What an operation does to it: inside a critical section interrupts are only
    recorded; closing the outermost section delivers what was recorded. *)
Definition deliver (q : q_gens) (a u : bool) : list event * pabs :=
  let uy := if u then [Yield] else [] in
  if a then
    if preempt_cede_needed q then ([Cede], PAbs 0 false u)
    else if preempt_yield_needed q then (uy ++ [Yield], PAbs 0 false false)
    else (uy, PAbs 0 false false)
  else (uy, PAbs 0 false false).

Definition pop_spec (o : pop) (s : pabs) : list event * pabs :=
  match o with
  | PDisable => ([], PAbs (depth s + 1) (pending s) (upending s))
  | PEnable q =>
      if depth s =? 1 then deliver q (pending s) (upending s)
      else ([], PAbs (depth s - 1) (pending s) (upending s))
  | PInt i q =>
      if depth s =? 0 then
        (match i with
         | SigUsr1 => [Cede]
         | SigUsr2 => if preempt_yield_needed q then [Yield] else []
         | Uintr => [Yield]
         end, s)
      else ([], match i with
                | Uintr => PAbs (depth s) (pending s) true
                | _ => PAbs (depth s) true (upending s)
                end)
  end.

(** The words that represent an abstract state. *)
Definition prep (s : pabs) : pcpu :=
  PCpu (depth s + (if pending s then 0 else 2 ^ 31)) (if upending s then 0 else 2 ^ 31).

(** Depths the 31-bit counter can hold; nothing is pending for preemption
    outside critical sections. *)
Definition pabs_ok (s : pabs) : Prop :=
  0 <= depth s < 2 ^ 31 /\ (depth s = 0 -> pending s = false).

(** An operation the caller may perform in [s]: enables match disables and the
    counter does not overflow. *)
Definition pop_ok (o : pop) (s : pabs) : Prop :=
  match o with
  | PDisable => depth s < 2 ^ 31 - 1
  | PEnable _ => 1 <= depth s
  | PInt _ _ => True
  end.

(** ** Lemmas on the counter words *)

Lemma not_pending_mask : u32 (Z.lnot PREEMPT_NOT_PENDING) = 2 ^ 31 - 1.
Proof. reflexivity. Qed.

Lemma bit31_add d (a : bool) : 0 <= d < 2 ^ 31 ->
  Z.testbit (d + (if a then 0 else 2 ^ 31)) 31 = negb a.
Proof.
  intros Hd. assert (Z.testbit d 31 = false) as Hb.
  { destruct (decide (d = 0)) as [->|]; [done|].
    apply Z.bits_above_log2; [lia|]. apply Z.log2_lt_pow2; lia. }
  destruct a; [by rewrite Z.add_0_r | rewrite testbit_add_pow2 by lia; by rewrite Hb].
Qed.

Lemma mask31 d (a : bool) : 0 <= d < 2 ^ 31 ->
  Z.land (d + (if a then 0 else 2 ^ 31)) (2 ^ 31 - 1) = d.
Proof.
  intros Hd. rewrite land_pred_pow2 by lia. destruct a.
  - rewrite Z.add_0_r. by apply Z.mod_small.
  - replace (d + 2 ^ 31) with (d + 1 * 2 ^ 31) by lia. rewrite Z.mod_add by lia.
    by apply Z.mod_small.
Qed.

Lemma or31 d (a : bool) : 0 <= d < 2 ^ 31 ->
  Z.lor (d + (if a then 0 else 2 ^ 31)) (2 ^ 31) = d + 2 ^ 31.
Proof.
  intros Hd. destruct a.
  - rewrite Z.add_0_r. rewrite <- Z.add_nocarry_lor; [done|].
    apply Z.eqb_eq. rewrite land_pow2_ne0 by lia.
    pose proof (bit31_add d true Hd) as H. rewrite Z.add_0_r in H. by rewrite H.
  - rewrite (Z.add_nocarry_lor d (2 ^ 31)), <- Z.lor_assoc, Z.lor_diag; [done|].
    apply Z.eqb_eq. rewrite land_pow2_ne0 by lia.
    pose proof (bit31_add d true Hd) as H. rewrite Z.add_0_r in H. by rewrite H.
Qed.

Section Represented.
Context (s : pabs) (Hs : 0 <= depth s < 2 ^ 31).

Lemma prep_enabled : preempt_enabled (prep s) = (depth s =? 0).
Proof. unfold preempt_enabled. rewrite not_pending_mask. simpl. by rewrite mask31 by exact Hs. Qed.

Lemma prep_needed : preempt_needed (prep s) = pending s.
Proof.
  unfold preempt_needed, PREEMPT_NOT_PENDING. rewrite land_pow2_ne0 by lia. simpl.
  rewrite bit31_add by exact Hs. apply negb_involutive.
Qed.

Lemma prep_zero : (preempt_cnt (prep s) =? 0) = (depth s =? 0) && pending s.
Proof. simpl. destruct (pending s); zcases. Qed.

Lemma prep_upending : (upreempt_cnt (prep s) =? 0) = upending s.
Proof. simpl. by destruct (upending s). Qed.

Lemma prep_set : set_preempt_needed (prep s) = prep (PAbs (depth s) true (upending s)).
Proof.
  unfold set_preempt_needed, prep. simpl. change 0x7fffffff with (2 ^ 31 - 1).
  rewrite mask31 by exact Hs. f_equal. lia.
Qed.

Lemma prep_uset : set_upreempt_needed (prep s) = prep (PAbs (depth s) (pending s) true).
Proof. unfold set_upreempt_needed, prep. simpl. by destruct (upending s). Qed.

Lemma prep_clear : clear_preempt_needed (prep s) = prep (PAbs (depth s) false (upending s)).
Proof.
  unfold clear_preempt_needed, prep. simpl. change 0x80000000 with (2 ^ 31).
  by rewrite or31 by exact Hs.
Qed.

Lemma prep_uclear : clear_upreempt_needed (prep s) = prep (PAbs (depth s) (pending s) false).
Proof. unfold clear_upreempt_needed, prep. simpl. by destruct (upending s). Qed.

Lemma prep_disable : depth s < 2 ^ 31 - 1 ->
  preempt_disable (prep s) = prep (PAbs (depth s + 1) (pending s) (upending s)).
Proof.
  intros H. unfold preempt_disable, prep; simpl.
  rewrite u32_small by (unfold is_u32; destruct (pending s); lia). f_equal. lia.
Qed.
Lemma prep_nocheck : 1 <= depth s ->
  preempt_enable_nocheck (prep s) = prep (PAbs (depth s - 1) (pending s) (upending s)).
Proof.
  intros H. unfold preempt_enable_nocheck, prep; simpl.
  rewrite u32_small by (unfold is_u32; destruct (pending s); lia). f_equal. lia.
Qed.
End Represented.

#[local] Arguments prep : simpl never.

(** Closing the outermost section, whatever is pending. *)
Lemma preempt_enable_with_prep pre s :
  0 <= depth s < 2 ^ 31 -> 1 <= depth s ->
  preempt_enable_with pre (prep s) =
    if depth s =? 1 then
      if pending s then pre (prep (PAbs 0 true (upending s)))
      else (if upending s then [Yield] else [], prep (PAbs 0 false false))
    else ([], prep (PAbs (depth s - 1) (pending s) (upending s))).
Proof.
  intros Hs H1. unfold preempt_enable_with. rewrite prep_nocheck by done.
  rewrite prep_zero, prep_enabled, prep_upending by (simpl; lia). simpl.
  destruct (Z.eqb_spec (depth s) 1) as [E|E].
  - rewrite E, Z.sub_diag. simpl. destruct (pending s); [done|].
    destruct (upending s) eqn:Hu; simpl; [|done].
    by rewrite prep_uclear by (simpl; lia).
  - by rewrite (proj2 (Z.eqb_neq (depth s - 1) 0)) by lia.
Qed.

(** [preempt] started by [preempt_enable] needs one nested [putk] at most: any
    fuel of two or more gives the same result. *)
Lemma preempt_fuel q u n :
  preempt (S (S n)) q (prep (PAbs 0 true u)) =
    let uy := if u then [Yield] else [] in
    if preempt_cede_needed q then ([Cede], prep (PAbs 1 false u))
    else if preempt_yield_needed q then (uy ++ [Yield], prep (PAbs 0 false false))
    else (uy, prep (PAbs 0 false false)).
Proof.
  remember (S n) as m eqn:Hm. simpl. rewrite prep_disable by (simpl; lia). simpl.
  rewrite prep_clear by (simpl; lia). simpl.
  rewrite preempt_enable_with_prep by (simpl; lia). simpl.
  by destruct (preempt_cede_needed q), (preempt_yield_needed q).
Qed.

Lemma preempt_enable_prep q s :
  0 <= depth s < 2 ^ 31 -> 1 <= depth s ->
  resume (preempt_enable q (prep s)) =
    (fst (pop_spec (PEnable q) s), prep (snd (pop_spec (PEnable q) s))).
Proof.
  intros Hs H1. unfold preempt_enable. rewrite preempt_enable_with_prep by done.
  unfold pop_spec. destruct (Z.eqb_spec (depth s) 1) as [E|E]; [|done].
  unfold PREEMPT_FUEL, deliver. destruct (pending s).
  - rewrite preempt_fuel. simpl.
    destruct (preempt_cede_needed q); simpl.
    + by rewrite prep_nocheck by (simpl; lia).
    + destruct (preempt_yield_needed q), (upending s); done.
  - simpl. by destruct (upending s).
Qed.

Lemma interrupted_prep i q s :
  0 <= depth s < 2 ^ 31 ->
  resume (interrupted i q (prep s)) =
    (fst (pop_spec (PInt i q) s), prep (snd (pop_spec (PInt i q) s))).
Proof.
  intros Hs. destruct i; simpl; unfold handle_sigusr1, handle_sigusr2, ui_handler;
    rewrite prep_enabled by done; destruct (Z.eqb_spec (depth s) 0) as [E|E]; simpl.
  - rewrite prep_disable, prep_nocheck by (simpl; lia). simpl. destruct s; simpl in *.
    by rewrite Z.add_simpl_r.
  - by rewrite prep_set.
  - by destruct (preempt_yield_needed q).
  - by rewrite prep_set.
  - done.
  - by rewrite prep_uset.
Qed.

Lemma pop_spec_ok o s : pabs_ok s -> pop_ok o s -> pabs_ok (snd (pop_spec o s)).
Proof.
  intros [Hd Hp] Ho. destruct o as [|q|i q]; simpl in *.
  - split; simpl; lia.
  - destruct (Z.eqb_spec (depth s) 1); [|split; simpl; lia].
    unfold deliver. by destruct (pending s), (preempt_cede_needed q), (preempt_yield_needed q).
  - destruct (Z.eqb_spec (depth s) 0); [done|]. destruct i; split; simpl; lia.
Qed.

(** C27: the two counter words implement the abstract preemption state. From a represented
    state, every operation the caller may perform - disabling, enabling, and an interrupt
    of any kind between two such operations - emits exactly the thread switches the
    abstract state machine prescribes and leaves the words representing its next state:
    inside a critical section an interrupt is only recorded (nothing is emitted unless the
    section being closed is the outermost), and when it closes a recorded preemption is
    delivered, once, and so is a recorded user interrupt, except that a cede leaves it
    recorded. *)
Theorem preempt_words_refine_nesting o s :
  pabs_ok s -> pop_ok o s ->
  pop_step o (prep s) = (fst (pop_spec o s), prep (snd (pop_spec o s))) /\
  pabs_ok (snd (pop_spec o s)) /\
  (fst (pop_step o (prep s)) <> [] -> depth (snd (pop_spec o s)) = 0).
Proof.
  intros Hs Ho.
  assert (pop_step o (prep s) = (fst (pop_spec o s), prep (snd (pop_spec o s)))) as E.
  { destruct o as [|q|i q]; [|apply preempt_enable_prep|apply interrupted_prep]; try apply Hs.
    - simpl. by rewrite prep_disable by apply Hs || exact Ho.
    - exact Ho. }
  split; [done|]. split; [by apply pop_spec_ok|]. rewrite E. clear E. simpl.
  destruct o as [|q|i q]; simpl; [done| |].
  - destruct (Z.eqb_spec (depth s) 1); [|done]. intros _. unfold deliver.
    by destruct (pending s), (preempt_cede_needed q), (preempt_yield_needed q).
  - by destruct (Z.eqb_spec (depth s) 0).
Qed.

Lemma preempt_words_refine_nesting_witness :
  let q := QGens 3 3 7 2 5 in
  let s := PAbs 1 true true in
  pop_step (PEnable q) (prep s) = ([Cede], prep (PAbs 0 false true)) /\
  (pop_step (PEnable q) (prep s) =
     (fst (pop_spec (PEnable q) s), prep (snd (pop_spec (PEnable q) s))) /\
   pabs_ok (snd (pop_spec (PEnable q) s)) /\
   (fst (pop_step (PEnable q) (prep s)) <> [] -> depth (snd (pop_spec (PEnable q) s)) = 0)).
Proof.
  split; [reflexivity|]. apply preempt_words_refine_nesting.
  - split; simpl; lia.
  - simpl. lia.
Defined.

(** Runs a history, collecting what each operation emitted. *)
Fixpoint run_pops (os : list pop) (p : pcpu) : list (list event) * pcpu :=
  match os with
  | [] => ([], p)
  | o :: os => let '(e, p1) := pop_step o p in
               let '(es, p2) := run_pops os p1 in (e :: es, p2)
  end.

Lemma run_pops_app os1 os2 p :
  run_pops (os1 ++ os2) p =
    let '(es1, p1) := run_pops os1 p in
    let '(es2, p2) := run_pops os2 p1 in (es1 ++ es2, p2).
Proof.
  revert p. induction os1 as [|o os1 IH]; intros p; simpl.
  - by destruct (run_pops os2 p).
  - destruct (pop_step o p) as [e p1]. rewrite IH.
    destruct (run_pops os1 p1) as [es1 p2]. by destruct (run_pops os2 p2).
Qed.

Definition is_uintr (iq : interrupt * q_gens) : bool :=
  match fst iq with Uintr => true | _ => false end.

Lemma run_interrupts is_ : forall d a u,
  0 < d < 2 ^ 31 ->
  run_pops (map (fun iq => PInt iq.1 iq.2) is_) (prep (PAbs d a u)) =
    (replicate (length is_) [],
     prep (PAbs d (a || existsb (fun iq => negb (is_uintr iq)) is_) (u || existsb is_uintr is_))).
Proof.
  induction is_ as [|[i q] is_ IH]; intros d a u Hd; simpl.
  - by rewrite !orb_false_r.
  - rewrite interrupted_prep by (simpl; lia). simpl.
    rewrite (proj2 (Z.eqb_neq d 0)) by lia. simpl.
    destruct i; simpl; rewrite IH by done; simpl; by rewrite ?orb_true_r.
Qed.

(** A preemption request that arrives in a critical section is neither
    acted on inside it nor lost.  Whatever signals and user interrupts arrive
    between [preempt_disable] and the matching outermost [preempt_enable],
    nothing happens until that [preempt_enable], which then cedes the core if
    the iokernel still wants it, or else performs the yields that were asked
    for; the pending flags are consumed (a cede leaves a user interrupt
    pending for the resumed thread's next critical section). *)
Theorem deferred_preemption_delivered is_ q :
  let a := existsb (fun iq => negb (is_uintr iq)) is_ in
  let u := existsb is_uintr is_ in
  run_pops (PDisable :: map (fun iq => PInt iq.1 iq.2) is_ ++ [PEnable q]) preempt_init_thread =
    ([] :: replicate (length is_) [] ++ [fst (deliver q a u)], prep (snd (deliver q a u))) /\
  (preempt_cede_needed q = true -> a = true -> fst (deliver q a u) = [Cede]) /\
  (u = true -> preempt_cede_needed q = false -> Yield ∈ fst (deliver q a u)).
Proof.
  intros a u. split; [|split].
  - change preempt_init_thread with (prep (PAbs 0 false false)). simpl run_pops at 1.
    rewrite prep_disable by (simpl; lia). simpl. rewrite run_pops_app, run_interrupts by lia.
    simpl. rewrite preempt_enable_prep by (simpl; lia). simpl. done.
  - intros Hq Ha. unfold deliver. by rewrite Ha, Hq.
  - intros Hu Hq. unfold deliver. rewrite Hu, Hq.
    destruct a, (preempt_yield_needed q); simpl; set_solver.
Qed.

(** [thread_create_with_buf] leaks a preemption count when it fails.  Called
    with preemption enabled and nothing pending, it restores the counter when
    both allocations succeed, but when either fails it returns NULL with
    preemption still disabled. *)
Theorem thread_create_with_buf_leaks q th_ok stack_ok :
  thread_create_with_buf q th_ok stack_ok preempt_init_thread =
    if th_ok && stack_ok then (true, preempt_init_thread)
    else (false, preempt_disable preempt_init_thread).
Proof.
  change preempt_init_thread with (prep (PAbs 0 false false)).
  unfold thread_create_with_buf, thread_create_inner, preempt_enable.
  rewrite !prep_disable by (simpl; lia). rewrite !preempt_enable_with_prep by (simpl; lia).
  by destruct th_ok, stack_ok.
Qed.

(** The fallback body of [preempt_enable] never clears a pending user
    interrupt: closing the outermost section yields but leaves the flag set, so
    the next outermost [preempt_enable] yields again, and so on - where the
    flag-output version clears it. *)
Theorem preempt_enable_fallback_keeps_pending q :
  let p := prep (PAbs 1 false true) in
  preempt_enable_fallback q p = ([Yield], prep (PAbs 0 false true)) /\
  preempt_enable q p = ([Yield], prep (PAbs 0 false false)) /\
  preempt_enable_fallback q (preempt_disable (snd (preempt_enable_fallback q p))) =
    preempt_enable_fallback q p.
Proof. done. Qed.
