(* ===== verification/Ring.v ===== *)
(** * Ring buffers indexed by free-running 32-bit counters

    The scheduler's run queues keep threads in [rq[i % RUNTIME_RQ_SIZE]] with
    32-bit [head] and [tail] counters that are never reduced modulo the size.
    This file is the library those queues share: the logical contents of such a
    buffer and what a store at either end does to it. *)

From S2P Require Import Prelude.

Section Ring.
Context {A : Type} `{!Inhabited A} (k : Z) (Hk : 0 <= k <= 31).
Implicit Types (buf : list A) (x : A).
#[local] Abbreviation cap := (2 ^ k).

(** [buf[i % cap]] *)
Definition rslot (i : Z) : nat := Z.to_nat (i mod cap).
Definition rget (buf : list A) (i : Z) : A := buf !!! rslot i.
Definition rset (buf : list A) (i : Z) (x : A) : list A := <[rslot i := x]> buf.

(** The [len] elements from [tail] on, oldest first. *)
Definition contents (buf : list A) (tail len : Z) : list A := rget buf <$> seqZ tail len.

Lemma cap_pos : 0 < cap <= 2 ^ 31.
Proof. split; [apply Z.pow_pos_nonneg; lia | apply Z.pow_le_mono_r; lia]. Qed.

Lemma rslot_u32 i : rslot (u32 i) = rslot i.
Proof. unfold rslot. by rewrite u32_mod_pow2 by lia. Qed.

Lemma rget_u32 buf i : rget buf (u32 i) = rget buf i.
Proof. unfold rget. by rewrite rslot_u32. Qed.

Lemma rset_u32 buf i x : rset buf (u32 i) x = rset buf i x.
Proof. unfold rset. by rewrite rslot_u32. Qed.

Lemma length_rset buf i x : length (rset buf i x) = length buf.
Proof. apply length_insert. Qed.

Lemma rslot_lt buf i : length buf = Z.to_nat cap -> (rslot i < length buf)%nat.
Proof. intros ->. unfold rslot. pose proof cap_pos. pose proof (Z.mod_pos_bound i cap). lia. Qed.

Lemma rslot_inj i j : rslot i = rslot j -> - cap < i - j < cap -> i = j.
Proof.
  unfold rslot. intros E H. pose proof cap_pos.
  pose proof (Z.mod_pos_bound i cap). pose proof (Z.mod_pos_bound j cap).
  apply (mod_inj_window cap); lia.
Qed.

Lemma rget_rset buf i j x :
  length buf = Z.to_nat cap -> - cap < i - j < cap ->
  rget (rset buf i x) j = if decide (i = j) then x else rget buf j.
Proof.
  intros Hl Hij. unfold rget, rset. case_decide as E.
  - subst. rewrite list_lookup_total_insert. by rewrite decide_True by (auto using rslot_lt).
  - rewrite list_lookup_total_insert_ne; [done|]. intros F. by apply E, rslot_inj.
Qed.

Lemma length_contents buf t n : length (contents buf t n) = Z.to_nat n.
Proof. unfold contents. by rewrite length_fmap, length_seqZ. Qed.

Lemma contents_u32 buf t n : contents buf (u32 t) n = contents buf t n.
Proof.
  unfold contents. apply list_eq. intros j. rewrite !list_lookup_fmap.
  destruct (decide (Z.of_nat j < n)).
  - rewrite !lookup_seqZ_lt by done. simpl. f_equal.
    by rewrite <- rget_u32, u32_add_l, rget_u32.
  - by rewrite !lookup_seqZ_ge by lia.
Qed.

Lemma contents_nil buf t n : n <= 0 -> contents buf t n = [].
Proof. intros. unfold contents. by rewrite seqZ_nil. Qed.

Lemma contents_pop buf t n : 0 < n ->
  contents buf t n = rget buf t :: contents buf (t + 1) (n - 1).
Proof. intros. unfold contents. by rewrite seqZ_cons. Qed.

Lemma contents_app buf t n m : 0 <= n -> 0 <= m ->
  contents buf t (n + m) = contents buf t n ++ contents buf (t + n) m.
Proof. intros. unfold contents. by rewrite seqZ_app, fmap_app. Qed.

Lemma contents_snoc buf t n : 0 <= n ->
  contents buf t (n + 1) = contents buf t n ++ [rget buf (t + n)].
Proof.
  intros. rewrite contents_app by lia. by f_equal.
Qed.

(** A store outside the window leaves the contents alone. *)
Lemma contents_rset_out buf t n i x :
  length buf = Z.to_nat cap -> 0 <= n -> (t + n <= i < t + cap \/ t + n - cap <= i < t) -> n <= cap ->
  contents (rset buf i x) t n = contents buf t n.
Proof.
  intros Hl Hn Hi Hc. unfold contents. apply list_fmap_ext. intros j y Hy.
  apply lookup_seqZ in Hy as [-> Hj]. rewrite rget_rset by (done || lia).
  by rewrite decide_False by lia.
Qed.

Lemma contents_push_back buf t n x :
  length buf = Z.to_nat cap -> 0 <= n < cap ->
  contents (rset buf (t + n) x) t (n + 1) = contents buf t n ++ [x].
Proof.
  intros Hl Hn. rewrite contents_snoc by lia.
  rewrite contents_rset_out by (done || lia). rewrite rget_rset by (done || lia).
  by rewrite decide_True.
Qed.

Lemma contents_push_front buf t n x :
  length buf = Z.to_nat cap -> 0 <= n < cap ->
  contents (rset buf (t - 1) x) (t - 1) (n + 1) = x :: contents buf t n.
Proof.
  intros Hl Hn. rewrite contents_pop by lia. rewrite rget_rset by (done || lia).
  rewrite decide_True by done. replace (t - 1 + 1) with t by lia.
  replace (n + 1 - 1) with n by lia. by rewrite contents_rset_out by (done || lia).
Qed.

(** Pushing at the front of a full buffer overwrites its newest element. *)
Lemma contents_push_front_full buf t x :
  length buf = Z.to_nat cap ->
  contents buf t cap = contents buf t (cap - 1) ++ [rget buf (t - 1)] /\
  contents (rset buf (t - 1) x) (t - 1) cap = x :: contents buf t (cap - 1).
Proof.
  intros Hl. pose proof cap_pos. split.
  - replace cap with (cap - 1 + 1) at 1 by lia. rewrite contents_snoc by lia.
    do 2 f_equal. unfold rget. f_equal. unfold rslot. f_equal.
    replace (t + (cap - 1)) with (t - 1 + 1 * cap) by lia. apply Z.mod_add. lia.
  - replace cap with (cap - 1 + 1) at 1 by lia. by rewrite contents_push_front by (done || lia).
Qed.
End Ring.
