(* ===== verification/RunQueue.v ===== *)
(** * The run queues of a kthread

    Models the queue manipulation of [runtime/sched.c]: a ring of
    [RUNTIME_RQ_SIZE] threads with an overflow list behind it, and the copies
    of the counters exported to the iokernel ([q_ptrs->rq_head],
    [q_ptrs->rq_tail]).  A kthread has one such queue for runnable threads and,
    with [PREEMPTED_RQ], a second one, with the same code, for threads that
    were preempted.  The specification is a list: the threads in the order in
    which they will run. *)

From S2P Require Import Prelude StdDef Ring.

Abbreviation tid := nat.

Definition RQ_BITS : Z := 5.
Definition RUNTIME_RQ_SIZE : Z := 32.

Record runq := RunQ {
  rq_head : Z;             (* uint32_t rq_head *)
  rq_tail : Z;             (* uint32_t rq_tail *)
  rq : list tid;           (* thread_t *rq[RUNTIME_RQ_SIZE] *)
  rq_overflow : list tid;  (* struct list_head rq_overflow *)
  qp_head : Z;             (* q_ptrs->rq_head *)
  qp_tail : Z              (* q_ptrs->rq_tail *)
}.

(** [rq_head - rq_tail], at type [uint32_t]. *)
Definition rq_len (q : runq) : Z := u32 (rq_head q - rq_tail q).

(** [rq[rq_head++ % RUNTIME_RQ_SIZE] = th] *)
Definition ring_push (q : runq) (th : tid) : runq :=
  RunQ (u32 (rq_head q + 1)) (rq_tail q) (rset RQ_BITS (rq q) (rq_head q) th)
    (rq_overflow q) (qp_head q) (qp_tail q).

Definition set_overflow (q : runq) (ov : list tid) : runq :=
  RunQ (rq_head q) (rq_tail q) (rq q) ov (qp_head q) (qp_tail q).

(** [ACCESS_ONCE(k->q_ptrs->rq_head) += n] *)
Definition export_head (n : Z) (q : runq) : runq :=
  RunQ (rq_head q) (rq_tail q) (rq q) (rq_overflow q) (u32 (qp_head q + n)) (qp_tail q).

(** ** Operations *)

(** [drain_overflow]: move overflowed threads into the ring while it has room. *)
Fixpoint drain_loop (ov : list tid) (q : runq) : runq :=
  if rq_len q <? RUNTIME_RQ_SIZE then
    match ov with
    | [] => set_overflow q []
    | th :: ov => drain_loop ov (ring_push q th)
    end
  else set_overflow q ov.

Definition drain_overflow (q : runq) : runq := drain_loop (rq_overflow q) q.

(** [if (unlikely(!list_empty(&k->rq_overflow))) drain_overflow(k);] *)
Definition drain_if_overflow (q : runq) : runq :=
  match rq_overflow q with [] => q | _ => drain_overflow q end.

(** The queueing part of [thread_ready_locked]. *)
Definition enqueue_locked (q : runq) (th : tid) : runq :=
  let q := drain_if_overflow q in
  if rq_len q >=? RUNTIME_RQ_SIZE
  then export_head 1 (set_overflow q (rq_overflow q ++ [th]))
  else export_head 1 (ring_push q th).

(** The queueing part of [thread_ready] (and, on the second queue, of
    [thread_preempt_ready]). *)
Definition enqueue_tail (q : runq) (th : tid) : runq :=
  if (rq_len q >=? RUNTIME_RQ_SIZE) || negb (bool_decide (rq_overflow q = []))
  then export_head 1 (drain_overflow (set_overflow q (rq_overflow q ++ [th])))
  else export_head 1 (ring_push q th).

(** The queueing part of [thread_ready_head] and [thread_ready_head_locked]:
    the slot before the tail may hold the newest thread of a full ring, which
    then moves to the front of the overflow list. *)
Definition enqueue_head (q : runq) (th : tid) : runq :=
  let tail := u32 (rq_tail q - 1) in
  let oldestth := rget RQ_BITS (rq q) tail in
  let buf := rset RQ_BITS (rq q) tail th in
  if u32 (rq_head q - tail) >? RUNTIME_RQ_SIZE
  then RunQ (u32 (rq_head q - 1)) tail buf (oldestth :: rq_overflow q)
         (u32 (qp_head q + 1)) (qp_tail q)
  else RunQ (rq_head q) tail buf (rq_overflow q) (u32 (qp_head q + 1)) (qp_tail q).

(** [th = rq[rq_tail++ % RUNTIME_RQ_SIZE]; q_ptrs->rq_tail++], then refill from
    the overflow list. *)
Definition pop_thread (q : runq) : tid * runq :=
  (rget RQ_BITS (rq q) (rq_tail q),
   drain_if_overflow
     (RunQ (rq_head q) (u32 (rq_tail q + 1)) (rq q) (rq_overflow q)
        (qp_head q) (u32 (qp_tail q + 1)))).

(** [rq_head != rq_tail] *)
Definition rq_nonempty (q : runq) : bool := negb (rq_head q =? rq_tail q).

(** The loop of [drain_threads], over the local copies of the counters: the
    threads taken, and the tail and overflow list left. *)
Fixpoint drain_threads_loop (nr : nat) (head tail : Z) (buf ov : list tid)
    : list tid * (Z * list tid) :=
  match nr with
  | O => ([], (tail, ov))
  | S nr =>
      if wraps_lt tail head then
        let '(l, st) := drain_threads_loop nr head (u32 (tail + 1)) buf ov in
        (rget RQ_BITS buf tail :: l, st)
      else
        match ov with
        | [] => ([], (tail, ov))
        | th :: ov => let '(l, st) := drain_threads_loop nr head tail buf ov in (th :: l, st)
        end
  end.

Definition drain_threads (q : runq) (nr : Z) (update_tail : bool) : list tid * runq :=
  let '(l, (tail, ov)) :=
    drain_threads_loop (Z.to_nat nr) (rq_head q) (rq_tail q) (rq q) (rq_overflow q) in
  (l, if update_tail
      then RunQ (rq_head q) tail (rq q) ov (qp_head q) (u32 (qp_tail q + Z.of_nat (length l)))
      else set_overflow q ov).

(** Requeueing one merged thread: into the ring, or behind it when it is full. *)
Definition requeue (q : runq) (th : tid) : runq :=
  if rq_len q >=? RUNTIME_RQ_SIZE
  then set_overflow q (rq_overflow q ++ [th])
  else ring_push q th.

(** The merge loop of [merge_runqueues]: [ls] is [cur_l] with what is left of
    [l_ths], [rs] is [cur_r] with what is left of [r_ths]. *)
Fixpoint merge_loop (tsc : tid -> Z) (i : nat) (ls rs : list tid) (q : runq) : runq :=
  match i with
  | O => q
  | S i =>
      match rs, ls with
      | r :: rs', [] => merge_loop tsc i ls rs' (requeue q r)
      | r :: rs', l :: ls' =>
          if tsc r <? tsc l
          then merge_loop tsc i ls rs' (requeue q r)
          else merge_loop tsc i ls' rs (requeue q l)
      | [], l :: ls' => merge_loop tsc i ls' rs (requeue q l)
      | [], [] => q
      end
  end.

(** [l->rq_head = l->rq_tail = x] *)
Definition reset_ring (x : Z) (q : runq) : runq :=
  RunQ x x (rq q) (rq_overflow q) (qp_head q) (qp_tail q).

Definition merge_runqueues (tsc : tid -> Z) (l : runq) (lsize : Z) (r : runq) (rsize : Z)
    : runq * runq :=
  let '(r_ths, r) := drain_threads r rsize true in
  let '(l_ths, l) := drain_threads l lsize false in
  let l := merge_loop tsc (length l_ths + length r_ths) l_ths r_ths (reset_ring 0 l) in
  (export_head (Z.of_nat (length r_ths)) l, r).

(** The merge loop of [merge_preempted_runqueues]: the timestamp test is
    commented out, so every stolen thread goes first. *)
Fixpoint merge_preempted_loop (i : nat) (ls rs : list tid) (q : runq) : runq :=
  match i with
  | O => q
  | S i =>
      match rs, ls with
      | r :: rs', _ => merge_preempted_loop i ls rs' (requeue q r)
      | [], l :: ls' => merge_preempted_loop i ls' rs (requeue q l)
      | [], [] => q
      end
  end.

Definition merge_preempted_runqueues (l : runq) (lsize : Z) (r : runq) (rsize : Z)
    : runq * runq :=
  let '(r_ths, r) := drain_threads r rsize true in
  let '(l_ths, l) := drain_threads l lsize false in
  let l := merge_preempted_loop (length l_ths + length r_ths) l_ths r_ths
             (reset_ring (UINT32_MAX / 2) l) in
  (export_head (Z.of_nat (length r_ths)) l, r).

(** [q_ptrs->rq_head - q_ptrs->rq_tail], what [steal_work] sizes a theft by. *)
Definition exported_len (q : runq) : Z := u32 (qp_head q - qp_tail q).

(** How many threads [steal_work] takes:
    [MIN(div_up(rsize - lsize, 2), RUNTIME_RQ_SIZE)] at type [uint32_t]. *)
Definition num_to_steal (lsize rsize : Z) : Z :=
  if lsize <? rsize then MIN (u32 (rsize - lsize + 2 - 1) / 2) RUNTIME_RQ_SIZE else 0.

(** ** Abstraction and invariant *)

Definition ring (q : runq) : list tid := contents RQ_BITS (rq q) (rq_tail q) (rq_len q).

(** The threads of the queue in running order. *)
Definition abs (q : runq) : list tid := ring q ++ rq_overflow q.

(** Well-formed counters and buffer. *)
Record ring_wf (q : runq) : Prop := {
  wf_head : is_u32 (rq_head q);
  wf_tail : is_u32 (rq_tail q);
  wf_len : rq_len q <= RUNTIME_RQ_SIZE;
  wf_buf : length (rq q) = 32%nat
}.

(** ... and exported counters that count the threads of the queue. *)
Definition wf (q : runq) : Prop :=
  ring_wf q /\ exported_len q = u32 (Z.of_nat (length (abs q))).

(** An empty queue whose counters both start at [x]. *)
Definition empty_runq (x : Z) : runq := RunQ x x (replicate 32 0%nat) [] 0 0.

(** ** Lemmas on the ring *)

Lemma rq_bits : 0 <= RQ_BITS <= 31.
Proof. unfold RQ_BITS. lia. Qed.
#[local] Hint Resolve rq_bits : core.

(** Arithmetic with the queue's constants unfolded. *)
Ltac rqlia := unfold RUNTIME_RQ_SIZE, RQ_BITS in *; lia.

Lemma rq_len_nonneg q : 0 <= rq_len q < 2 ^ 32.
Proof. apply u32_range. Qed.

Lemma ring_head q : ring_wf q -> rq_head q = u32 (rq_tail q + rq_len q).
Proof.
  intros []. unfold rq_len. autorewrite with width.
  replace (rq_tail q + (rq_head q - rq_tail q)) with (rq_head q) by lia. by rewrite u32_small.
Qed.

Lemma length_ring q : length (ring q) = Z.to_nat (rq_len q).
Proof. apply length_contents. Qed.

Lemma length_abs q : Z.of_nat (length (abs q)) = rq_len q + Z.of_nat (length (rq_overflow q)).
Proof. unfold abs. rewrite length_app, length_ring. pose proof (rq_len_nonneg q). lia. Qed.

Lemma ring_nil q : rq_len q = 0 -> ring q = [].
Proof. intros H. unfold ring. by rewrite contents_nil by lia. Qed.

Lemma rq_nonempty_len q : ring_wf q -> rq_nonempty q = (0 <? rq_len q).
Proof.
  intros H. unfold rq_nonempty. rewrite (ring_head q H). pose proof (rq_len_nonneg q).
  destruct H as [_ Ht Hl _]. unfold RUNTIME_RQ_SIZE in Hl. unfold is_u32 in Ht.
  destruct (Z.ltb_spec 0 (rq_len q)).
  - apply negb_true_iff, Z.eqb_neq. width.
  - replace (rq_len q) with 0 by lia. rewrite Z.add_0_r, u32_small by done. by rewrite Z.eqb_refl.
Qed.

(** A push at the head, when there is room. *)
Lemma ring_push_spec q th :
  ring_wf q -> rq_len q < RUNTIME_RQ_SIZE ->
  ring_wf (ring_push q th) /\ rq_len (ring_push q th) = rq_len q + 1 /\
  ring (ring_push q th) = ring q ++ [th].
Proof.
  intros Hq Hlt. pose proof (rq_len_nonneg q). unfold RUNTIME_RQ_SIZE in *.
  assert (rq_len (ring_push q th) = rq_len q + 1) as Hlen.
  { unfold rq_len at 1. simpl. rewrite (ring_head q Hq). autorewrite with width.
    replace (rq_tail q + rq_len q + 1 - rq_tail q) with (rq_len q + 1) by lia. width. }
  split; [|split; [done|]].
  - destruct Hq. split; rewrite ?Hlen; simpl; rewrite ?length_rset; auto with aspen. rqlia.
  - unfold ring. rewrite Hlen. simpl. rewrite (ring_head q Hq), rset_u32 by done.
    destruct Hq. by rewrite contents_push_back by (done || (unfold RQ_BITS; simpl; lia)).
Qed.

(** A pop at the tail, when the ring is not empty. *)
Lemma ring_pop_spec q qt :
  ring_wf q -> 0 < rq_len q ->
  let q' := RunQ (rq_head q) (u32 (rq_tail q + 1)) (rq q) (rq_overflow q) (qp_head q) qt in
  ring_wf q' /\ rq_len q' = rq_len q - 1 /\
  ring q = rget RQ_BITS (rq q) (rq_tail q) :: ring q'.
Proof.
  intros Hq Hlt q'.
  assert (rq_len q' = rq_len q - 1) as Hlen.
  { unfold rq_len at 1. simpl. rewrite (ring_head q Hq). autorewrite with width.
    pose proof (rq_len_nonneg q).
    replace (rq_tail q + rq_len q - (rq_tail q + 1)) with (rq_len q - 1) by lia. width. }
  split; [|split; [done|]].
  - destruct Hq. split; rewrite ?Hlen; simpl; try done; try lia. apply u32_range.
  - unfold ring. rewrite Hlen. simpl. rewrite contents_u32 by done. by rewrite contents_pop by done.
Qed.

(** ** [drain_overflow] *)

Lemma ring_wf_overflow q ov : ring_wf q -> ring_wf (set_overflow q ov).
Proof. intros []. by split. Qed.
#[local] Hint Resolve ring_wf_overflow : core.

Lemma exported_overflow q ov : exported_len (set_overflow q ov) = exported_len q.
Proof. done. Qed.

Lemma drain_loop_spec ov : forall q, ring_wf q ->
  ring_wf (drain_loop ov q) /\ abs (drain_loop ov q) = ring q ++ ov /\
  exported_len (drain_loop ov q) = exported_len q /\
  (rq_overflow (drain_loop ov q) <> [] -> rq_len (drain_loop ov q) = RUNTIME_RQ_SIZE).
Proof.
  induction ov as [|th ov IH]; intros q Hq; simpl.
  - assert (set_overflow q [] = if rq_len q <? RUNTIME_RQ_SIZE then set_overflow q [] else set_overflow q []) as <-
      by (by destruct (_ <? _)). split_and!; auto. done.
  - destruct (Z.ltb_spec (rq_len q) RUNTIME_RQ_SIZE).
    + destruct (ring_push_spec q th) as (Hw & _ & Hr); [done..|].
      destruct (IH (ring_push q th) Hw) as (Hw' & Ha & He & Ho).
      split_and!; auto. by rewrite Ha, Hr, <- app_assoc.
    + destruct Hq. split_and!; auto; [by split|]. intros _. simpl. unfold rq_len in *. simpl. lia.
Qed.

Lemma drain_overflow_spec q : ring_wf q ->
  ring_wf (drain_overflow q) /\ abs (drain_overflow q) = abs q /\
  exported_len (drain_overflow q) = exported_len q /\
  (rq_overflow (drain_overflow q) <> [] -> rq_len (drain_overflow q) = RUNTIME_RQ_SIZE).
Proof. apply drain_loop_spec. Qed.

Lemma drain_if_overflow_spec q : ring_wf q ->
  ring_wf (drain_if_overflow q) /\ abs (drain_if_overflow q) = abs q /\
  exported_len (drain_if_overflow q) = exported_len q /\
  (rq_overflow (drain_if_overflow q) <> [] -> rq_len (drain_if_overflow q) = RUNTIME_RQ_SIZE).
Proof.
  intros Hq. unfold drain_if_overflow. destruct (rq_overflow q) eqn:E; [|by apply drain_overflow_spec].
  by rewrite E.
Qed.

(** ** The queue operations against lists *)

Lemma export_head_spec n q :
  ring_wf q -> ring_wf (export_head n q) /\ abs (export_head n q) = abs q /\
  exported_len (export_head n q) = u32 (exported_len q + n).
Proof.
  intros []. split; [by split|]. split; [done|]. unfold exported_len. simpl.
  autorewrite with width. f_equal. lia.
Qed.

(** Re-establishing the exported count after [n] threads were added. *)
Lemma wf_grow q q' n :
  wf q -> ring_wf q' -> exported_len q' = u32 (exported_len q + n) ->
  Z.of_nat (length (abs q')) = Z.of_nat (length (abs q)) + n -> wf q'.
Proof. intros [_ He] Hw He' Hl. split; [done|]. by rewrite He', He, Hl, u32_add_l. Qed.

Lemma abs_overflow q ov : abs (set_overflow q ov) = ring q ++ ov.
Proof. done. Qed.

Lemma enqueue_grow q q' th :
  wf q -> ring_wf q' -> exported_len q' = exported_len q -> abs q' = abs q ++ [th] ->
  wf (export_head 1 q') /\ abs (export_head 1 q') = abs q ++ [th].
Proof.
  intros Hq Hw He Ha. destruct (export_head_spec 1 q' Hw) as (Hw' & Ha' & He').
  split; [|congruence]. apply (wf_grow q _ 1); [done..|congruence|].
  rewrite Ha', Ha, length_app. simpl. lia.
Qed.

Lemma enqueue_locked_spec q th :
  wf q -> wf (enqueue_locked q th) /\ abs (enqueue_locked q th) = abs q ++ [th].
Proof.
  intros Hq. destruct (drain_if_overflow_spec q) as (Hw & Ha & He & Ho); [apply Hq|].
  unfold enqueue_locked. rewrite Z.geb_leb. destruct (Z.leb_spec RUNTIME_RQ_SIZE (rq_len (drain_if_overflow q))).
  - apply enqueue_grow; auto. rewrite abs_overflow, <- Ha. unfold abs. by rewrite app_assoc.
  - destruct (ring_push_spec (drain_if_overflow q) th Hw) as (Hw' & _ & Hr); [done|].
    apply enqueue_grow; auto. unfold abs at 1. rewrite Hr. simpl.
    assert (rq_overflow (drain_if_overflow q) = []) as E.
    { destruct (rq_overflow (drain_if_overflow q)); [done|]. rewrite Ho in H by done. lia. }
    rewrite <- Ha. unfold abs. by rewrite E, !app_nil_r.
Qed.

Lemma enqueue_tail_spec q th :
  wf q -> wf (enqueue_tail q th) /\ abs (enqueue_tail q th) = abs q ++ [th].
Proof.
  intros Hq. unfold enqueue_tail. destruct (_ || _) eqn:E.
  - destruct (drain_overflow_spec (set_overflow q (rq_overflow q ++ [th]))) as (Hw & Ha & He & _).
    { apply ring_wf_overflow, Hq. }
    apply enqueue_grow; auto. rewrite Ha, abs_overflow. unfold abs. by rewrite app_assoc.
  - apply orb_false_iff in E as [E1 E2]. rewrite Z.geb_leb in E1. apply Z.leb_gt in E1.
    apply negb_false_iff, bool_decide_eq_true in E2.
    destruct (ring_push_spec q th) as (Hw & _ & Hr); [apply Hq|done|].
    apply enqueue_grow; auto. unfold abs. rewrite Hr. simpl. by rewrite E2, !app_nil_r.
Qed.

(** The occupancy once the tail has been moved back by one. *)
Lemma rq_len_front q :
  rq_len q <= RUNTIME_RQ_SIZE -> u32 (rq_head q - u32 (rq_tail q - 1)) = rq_len q + 1.
Proof.
  intros Hl. pose proof (rq_len_nonneg q). transitivity (u32 (rq_len q + 1)).
  - unfold rq_len. autorewrite with width. f_equal. lia.
  - apply u32_small. unfold is_u32. rqlia.
Qed.

Lemma enqueue_head_spec q th :
  wf q -> wf (enqueue_head q th) /\ abs (enqueue_head q th) = th :: abs q.
Proof.
  intros Hq. pose proof Hq as [[Hh Ht Hl Hb] _]. pose proof (rq_len_nonneg q).
  assert (length (rq q) = Z.to_nat (2 ^ RQ_BITS)) as Hb' by done.
  pose proof (rq_len_front q Hl) as Hlen.
  assert (forall q', ring_wf q' -> exported_len q' = u32 (exported_len q + 1) ->
    abs q' = th :: abs q -> wf q' /\ abs q' = th :: abs q) as Hgrow.
  { intros q' Hw He Ha. split; [|done]. apply (wf_grow q q' 1); try done. rewrite Ha. simpl. lia. }
  unfold enqueue_head. rewrite Hlen, Z.gtb_ltb.
  destruct (Z.ltb_spec RUNTIME_RQ_SIZE (rq_len q + 1)).
  - assert (rq_len q = 2 ^ RQ_BITS) as Hfull by (unfold RQ_BITS; rqlia).
    apply Hgrow.
    + split; simpl; rewrite ?length_rset; try apply u32_range; [|done].
      unfold rq_len. simpl. autorewrite with width. by replace (rq_head q - 1 - (rq_tail q - 1)) with (rq_head q - rq_tail q) by lia.
    + unfold exported_len. simpl. autorewrite with width. f_equal. lia.
    + unfold abs, ring, rq_len. simpl. autorewrite with width.
      replace (rq_head q - 1 - (rq_tail q - 1)) with (rq_head q - rq_tail q) by lia.
      fold (rq_len q). rewrite Hfull, contents_u32, rset_u32, rget_u32 by done.
      destruct (contents_push_front_full RQ_BITS rq_bits (rq q) (rq_tail q) th Hb') as [-> ->].
      by rewrite <- app_assoc.
  - apply Hgrow.
    + split; simpl; rewrite ?length_rset; try apply u32_range; try done.
      unfold rq_len at 1. simpl. rewrite Hlen. done.
    + unfold exported_len. simpl. autorewrite with width. f_equal. lia.
    + unfold abs, ring. unfold rq_len at 1. simpl. rewrite Hlen.
      rewrite contents_u32, rset_u32 by done.
      rewrite contents_push_front by (done || (unfold RQ_BITS; rqlia)). done.
Qed.

Lemma pop_thread_spec q :
  wf q -> rq_nonempty q = true ->
  wf (snd (pop_thread q)) /\ abs q = fst (pop_thread q) :: abs (snd (pop_thread q)).
Proof.
  intros [Hq He] Hne. rewrite rq_nonempty_len in Hne by done. apply Z.ltb_lt in Hne.
  destruct (ring_pop_spec q (u32 (qp_tail q + 1)) Hq Hne) as (Hw & Hl & Hr).
  destruct (drain_if_overflow_spec _ Hw) as (Hw' & Ha & He' & _).
  assert (abs q = fst (pop_thread q) :: abs (snd (pop_thread q))) as E.
  { simpl. rewrite Ha. unfold abs. by rewrite Hr. }
  split; [|done]. split; [done|]. simpl. rewrite He'.
  rewrite E in He. simpl in He. unfold exported_len in *. simpl in *.
  autorewrite with width. replace (qp_head q - (qp_tail q + 1)) with (qp_head q - qp_tail q - 1) by lia.
  rewrite <- u32_sub_l, He, u32_sub_l. f_equal. lia.
Qed.

(** ** Stealing *)

(** Older (or equally old) threads first. *)
Definition older (tsc : tid -> Z) (a b : tid) : Prop := tsc a <= tsc b.
#[global] Instance older_dec tsc : RelDecision (older tsc).
Proof. intros a b. unfold older. apply _. Defined.
#[global] Instance older_total tsc : Total (older tsc).
Proof. intros a b. unfold older. lia. Qed.

Lemma drain_threads_loop_spec nr : forall buf t n ov,
  0 <= n <= RUNTIME_RQ_SIZE ->
  drain_threads_loop nr (u32 (t + n)) (u32 t) buf ov =
    (take nr (contents RQ_BITS buf t n ++ ov),
     (u32 (t + Z.min (Z.of_nat nr) n), drop (nr - Z.to_nat n) ov)).
Proof.
  induction nr as [|nr IH]; intros buf t n ov Hn; simpl.
  - by rewrite Z.min_l, Z.add_0_r by lia.
  - rewrite wraps_lt_counters by rqlia.
    destruct (Z.ltb_spec t (t + n)).
    + rewrite u32_add_l, (contents_pop RQ_BITS buf t n) by lia. simpl.
      specialize (IH buf (t + 1) (n - 1) ov). replace (t + 1 + (n - 1)) with (t + n) in IH by lia.
      rewrite IH by rqlia. rewrite rget_u32 by done. do 2 f_equal.
      * f_equal. lia.
      * f_equal. lia.
    + rewrite contents_nil by lia. simpl. assert (n = 0) as -> by lia.
      specialize (IH buf t 0). rewrite Z.add_0_r in *.
      destruct ov as [|th ov]; simpl.
      * by rewrite Z.min_r, Z.add_0_r by lia.
      * rewrite IH by rqlia. rewrite contents_nil by lia. simpl. do 2 f_equal.
        -- f_equal. lia.
        -- by rewrite Nat.sub_0_r.
Qed.

Lemma u32_tail q : ring_wf q -> u32 (rq_tail q) = rq_tail q.
Proof. intros []. by apply u32_small. Qed.

Lemma drain_threads_loop_q q nr : ring_wf q ->
  drain_threads_loop nr (rq_head q) (rq_tail q) (rq q) (rq_overflow q) =
    (take nr (abs q), (u32 (rq_tail q + Z.min (Z.of_nat nr) (rq_len q)),
                       drop (nr - Z.to_nat (rq_len q)) (rq_overflow q))).
Proof.
  intros Hq. pose proof (rq_len_nonneg q).
  pose proof (drain_threads_loop_spec nr (rq q) (rq_tail q) (rq_len q) (rq_overflow q)) as E.
  rewrite <- ring_head, u32_tail in E by done. apply E. destruct Hq. rqlia.
Qed.

(** Draining up to [nr] threads for a thief. *)
Lemma drain_threads_steal q nr :
  wf q -> 0 <= nr ->
  let '(l, q') := drain_threads q nr true in
  l = take (Z.to_nat nr) (abs q) /\ abs q' = drop (Z.to_nat nr) (abs q) /\ wf q'.
Proof.
  intros [Hq He] Hnr. unfold drain_threads. pose proof (rq_len_nonneg q).
  rewrite drain_threads_loop_q by done.
  set (m := Z.min (Z.of_nat (Z.to_nat nr)) (rq_len q)).
  assert (m = Z.min nr (rq_len q)) as Hm by (unfold m; lia). clearbody m.
  set (q' := RunQ _ _ _ _ _ _).
  assert (rq_len q' = rq_len q - m) as Hlen.
  { unfold rq_len at 1. simpl. rewrite (ring_head q Hq). autorewrite with width.
    replace (rq_tail q + rq_len q - (rq_tail q + m)) with (rq_len q - m) by lia.
    apply u32_small. unfold is_u32. lia. }
  assert (abs q' = drop (Z.to_nat nr) (abs q)) as Ha.
  { unfold abs, ring. rewrite Hlen, drop_app. simpl. rewrite contents_u32, length_contents by done.
    f_equal. replace (rq_len q) with (m + (rq_len q - m)) at 2 by lia.
    rewrite contents_app by lia. destruct (decide (nr <= rq_len q)).
    - rewrite drop_app_length' by (rewrite length_contents; lia). done.
    - rewrite contents_nil by lia. rewrite drop_ge; [done|].
      rewrite length_app, !length_contents. simpl. lia. }
  split; [done|]. split; [done|]. split.
  - destruct Hq. split; [done | apply u32_range | rewrite Hlen; rqlia | done].
  - rewrite Ha. rewrite length_drop. unfold exported_len in *. simpl.
    rewrite length_take. autorewrite with width.
    replace (qp_head q - (qp_tail q + Z.of_nat (Z.to_nat nr `min` length (abs q)))) with
      (qp_head q - qp_tail q - Z.of_nat (Z.to_nat nr `min` length (abs q))) by lia.
    rewrite <- u32_sub_l, He, u32_sub_l. f_equal. lia.
Qed.

(** Draining all of the local queue, whose tail is not updated. *)
Lemma drain_threads_all q nr :
  ring_wf q -> Z.of_nat (length (abs q)) <= nr ->
  drain_threads q nr false = (abs q, set_overflow q []).
Proof.
  intros Hq Hnr. unfold drain_threads. pose proof (rq_len_nonneg q). rewrite length_abs in Hnr.
  rewrite drain_threads_loop_q by done.
  rewrite take_ge, drop_ge; [done| lia |]. pose proof (length_abs q). lia.
Qed.

(** The state of a queue being refilled: overflow only behind a full ring. *)
Definition refill (q : runq) : Prop :=
  ring_wf q /\ (rq_overflow q <> [] -> rq_len q = RUNTIME_RQ_SIZE).

Lemma requeue_spec q th :
  refill q -> refill (requeue q th) /\ abs (requeue q th) = abs q ++ [th] /\
  exported_len (requeue q th) = exported_len q.
Proof.
  intros [Hq Ho]. unfold requeue. rewrite Z.geb_leb.
  destruct (Z.leb_spec RUNTIME_RQ_SIZE (rq_len q)) as [H|H].
  - split; [|split; [|done]].
    + split; [auto|]. intros _. destruct Hq. change (rq_len (set_overflow q _)) with (rq_len q). lia.
    + rewrite abs_overflow. unfold abs. by rewrite app_assoc.
  - destruct (ring_push_spec q th Hq H) as (Hw & Hl & Hr).
    assert (rq_overflow q = []) as E by (destruct (rq_overflow q); [done|]; rewrite Ho in H by done; lia).
    split; [|split; [|done]].
    + split; [done|]. simpl. by rewrite E.
    + unfold abs. rewrite Hr. simpl. by rewrite E, !app_nil_r.
Qed.

Lemma merge_loop_spec tsc i : forall ls rs q,
  i = (length ls + length rs)%nat -> refill q ->
  refill (merge_loop tsc i ls rs q) /\
  abs (merge_loop tsc i ls rs q) = abs q ++ list_merge (older tsc) ls rs /\
  exported_len (merge_loop tsc i ls rs q) = exported_len q.
Proof.
  induction i as [|i IH]; intros ls rs q Hi Hq.
  - destruct ls, rs; try done. simpl. by rewrite app_nil_r.
  - assert (forall th ls' rs', i = (length ls' + length rs')%nat ->
      list_merge (older tsc) ls rs = th :: list_merge (older tsc) ls' rs' ->
      let q' := merge_loop tsc i ls' rs' (requeue q th) in
      refill q' /\ abs q' = abs q ++ list_merge (older tsc) ls rs /\
      exported_len q' = exported_len q) as Hstep.
    { intros th ls' rs' Hi' E q'. destruct (requeue_spec q th Hq) as (Hw & Ha & He).
      destruct (IH ls' rs' (requeue q th) Hi' Hw) as (Hw' & Ha' & He').
      subst q'. split; [done|]. split; [|congruence]. by rewrite Ha', Ha, E, <- app_assoc. }
    destruct rs as [|r rs], ls as [|l ls]; simpl in Hi; try lia; cbn [merge_loop].
    + apply Hstep; [simpl; lia|]. by rewrite !list_merge_nil_r.
    + apply Hstep; [simpl; lia|]. by rewrite !list_merge_nil_l.
    + rewrite list_merge_cons in *. destruct (Z.ltb_spec (tsc r) (tsc l)).
      * apply Hstep; [simpl; lia|]. by rewrite decide_False by (unfold older; lia).
      * apply Hstep; [simpl; lia|]. by rewrite decide_True by (unfold older; lia).
Qed.

Lemma reset_refill x q :
  is_u32 x -> ring_wf q -> refill (reset_ring x (set_overflow q [])) /\
  abs (reset_ring x (set_overflow q [])) = [].
Proof.
  intros Hx Hq. assert (rq_len (reset_ring x (set_overflow q [])) = 0) as Hl.
  { unfold rq_len. simpl. by rewrite Z.sub_diag. }
  split.
  - destruct Hq. split; [|done]. split; try done. rewrite Hl. rqlia.
  - unfold abs. by rewrite ring_nil.
Qed.

(** The common part of the two merges: once both queues are drained, refilling
    the local one with a permutation of what was drained. *)
Lemma merge_finish l l' ths n m :
  wf l -> refill l' -> abs l' = ths -> exported_len l' = exported_len l ->
  Z.of_nat (length ths) = Z.of_nat (length (abs l)) + n -> m = n ->
  wf (export_head m l') /\ refill (export_head m l') /\ abs (export_head m l') = ths.
Proof.
  intros Hl [Hw Ho] Ha He Hn ->. destruct (export_head_spec n l' Hw) as (Hw' & Ha' & He').
  split; [|split; [by split|congruence]].
  apply (wf_grow l _ n); [done..|congruence|]. rewrite Ha', Ha. done.
Qed.

Lemma merge_runqueues_spec tsc l lsize r n :
  wf l -> wf r -> Z.of_nat (length (abs l)) <= lsize -> 0 <= n ->
  let '(l', r') := merge_runqueues tsc l lsize r n in
  wf l' /\ refill l' /\ wf r' /\
  abs l' = list_merge (older tsc) (abs l) (take (Z.to_nat n) (abs r)) /\
  abs r' = drop (Z.to_nat n) (abs r).
Proof.
  intros Hl Hr Hls Hn. unfold merge_runqueues.
  pose proof (drain_threads_steal r n Hr Hn) as Hd.
  destruct (drain_threads r n true) as [r_ths r']. destruct Hd as (-> & Hra & Hrw).
  rewrite drain_threads_all by (apply Hl || done).
  destruct (reset_refill 0 l) as [Hf Hz]; [unfold is_u32; lia|apply Hl|].
  destruct (merge_loop_spec tsc _ (abs l) (take (Z.to_nat n) (abs r)) _ eq_refl Hf) as (Hw & Ha & He).
  rewrite Hz in Ha. simpl in Ha.
  edestruct (merge_finish l) as (Hw' & Hf' & Ha'); [done|exact Hw|exact Ha|exact He| |reflexivity|by split_and!].
  rewrite (Permutation_length (merge_Permutation _ _ _)), length_app. lia.
Qed.

Lemma merge_preempted_loop_spec i : forall ls rs q,
  i = (length ls + length rs)%nat -> refill q ->
  refill (merge_preempted_loop i ls rs q) /\
  abs (merge_preempted_loop i ls rs q) = abs q ++ rs ++ ls /\
  exported_len (merge_preempted_loop i ls rs q) = exported_len q.
Proof.
  induction i as [|i IH]; intros ls rs q Hi Hq.
  - destruct ls, rs; try done. simpl. by rewrite app_nil_r.
  - destruct rs as [|r rs]; [destruct ls as [|l ls]; [done|]|]; cbn [merge_preempted_loop].
    + destruct (requeue_spec q l Hq) as (Hw & Ha & He).
      destruct (IH ls [] (requeue q l)) as (Hw' & Ha' & He'); [simpl in *; lia|done|].
      split; [done|]. split; [|congruence]. rewrite Ha', Ha, <- app_assoc. done.
    + destruct (requeue_spec q r Hq) as (Hw & Ha & He).
      destruct (IH ls rs (requeue q r)) as (Hw' & Ha' & He'); [simpl in *; lia|done|].
      split; [done|]. split; [|congruence]. rewrite Ha', Ha, <- app_assoc. done.
Qed.

Lemma merge_preempted_runqueues_spec l lsize r n :
  wf l -> wf r -> Z.of_nat (length (abs l)) <= lsize -> 0 <= n ->
  let '(l', r') := merge_preempted_runqueues l lsize r n in
  wf l' /\ refill l' /\ wf r' /\
  abs l' = take (Z.to_nat n) (abs r) ++ abs l /\ abs r' = drop (Z.to_nat n) (abs r).
Proof.
  intros Hl Hr Hls Hn. unfold merge_preempted_runqueues.
  pose proof (drain_threads_steal r n Hr Hn) as Hd.
  destruct (drain_threads r n true) as [r_ths r']. destruct Hd as (-> & Hra & Hrw).
  rewrite drain_threads_all by (apply Hl || done).
  destruct (reset_refill (UINT32_MAX / 2) l) as [Hf Hz]; [done|apply Hl|].
  destruct (merge_preempted_loop_spec _ (abs l) (take (Z.to_nat n) (abs r)) _ eq_refl Hf)
    as (Hw & Ha & He).
  rewrite Hz in Ha. simpl in Ha.
  edestruct (merge_finish l) as (Hw' & Hf' & Ha'); [done|exact Hw|exact Ha|exact He| |reflexivity|by split_and!].
  rewrite length_app. lia.
Qed.

(** A queue with threads has one in its ring, which is what the scheduler
    looks at, after a merge, a push at the head or a drain of the overflow. *)
Lemma refill_nonempty q : refill q -> abs q <> [] -> rq_nonempty q = true.
Proof.
  intros [Hq Ho] Ha. rewrite rq_nonempty_len by done. apply Z.ltb_lt.
  pose proof (rq_len_nonneg q) as Hz. destruct (decide (rq_len q = 0)) as [E|]; [|lia].
  destruct (rq_overflow q) eqn:Eo.
  - exfalso. apply Ha. unfold abs. by rewrite ring_nil, Eo.
  - rewrite Ho by done. done.
Qed.

Lemma drain_if_overflow_refill q : wf q -> wf (drain_if_overflow q) /\ refill (drain_if_overflow q).
Proof.
  intros [Hq He]. destruct (drain_if_overflow_spec q Hq) as (Hw & Ha & He' & Ho).
  split; split; try done. by rewrite He', He, Ha.
Qed.

Lemma enqueue_head_nonempty q th : wf q -> rq_nonempty (enqueue_head q th) = true.
Proof.
  intros Hq. destruct (enqueue_head_spec q th Hq) as [[Hw _] _]. rewrite rq_nonempty_len by done.
  destruct Hq as [[Hh Ht Hl Hb] _]. pose proof (rq_len_nonneg q).
  pose proof (rq_len_front q Hl) as Hlen.
  apply Z.ltb_lt. unfold enqueue_head. rewrite Hlen.
  destruct (_ >? _) eqn:E; unfold rq_len at 1; simpl; rewrite ?Hlen; [|lia].
  rewrite Z.gtb_ltb in E. apply Z.ltb_lt in E.
  replace (u32 (u32 (rq_head q - 1) - u32 (rq_tail q - 1))) with (rq_len q); [rqlia|].
  unfold rq_len. autorewrite with width. f_equal. lia.
Qed.

(** ** A queue's history *)

(** What a kthread does to its own queue and what thieves do to it, each under
    the kthread lock. *)
Inductive qop :=
| QReady (th : tid)        (* thread_ready *)
| QReadyLocked (th : tid)  (* thread_ready_locked *)
| QReadyHead (th : tid)    (* thread_ready_head, thread_ready_head_locked *)
| QNext                    (* schedule: refill, then pop if the ring is not empty *)
| QStolen (n : Z).         (* drain_threads by a thief *)

(** The threads that leave the queue, and the queue after. *)
Definition qop_step (o : qop) (q : runq) : list tid * runq :=
  match o with
  | QReady th => ([], enqueue_tail q th)
  | QReadyLocked th => ([], enqueue_locked q th)
  | QReadyHead th => ([], enqueue_head q th)
  | QNext => let q := drain_if_overflow q in
             if rq_nonempty q then let '(th, q) := pop_thread q in ([th], q) else ([], q)
  | QStolen n => drain_threads q n true
  end.

(** The same on a double-ended queue without bounds. *)
Definition deque_step (o : qop) (l : list tid) : list tid * list tid :=
  match o with
  | QReady th | QReadyLocked th => ([], l ++ [th])
  | QReadyHead th => ([], th :: l)
  | QNext => (take 1 l, drop 1 l)
  | QStolen n => (take (Z.to_nat n) l, drop (Z.to_nat n) l)
  end.

Definition qop_ok (o : qop) : Prop := match o with QStolen n => 0 <= n | _ => True end.

Fixpoint run_q {S} (step : qop -> S -> list tid * S) (os : list qop) (s : S)
    : list (list tid) * S :=
  match os with
  | [] => ([], s)
  | o :: os => let '(r, s) := step o s in let '(rs, s) := run_q step os s in (r :: rs, s)
  end.

Lemma qop_step_refines o q :
  wf q -> qop_ok o ->
  wf (snd (qop_step o q)) /\
  (fst (qop_step o q), abs (snd (qop_step o q))) = deque_step o (abs q).
Proof.
  intros Hq Ho. destruct o as [th|th|th| |n]; cbn [qop_step deque_step].
  - destruct (enqueue_tail_spec q th Hq) as [Hw Ha]. simpl. by rewrite Ha.
  - destruct (enqueue_locked_spec q th Hq) as [Hw Ha]. simpl. by rewrite Ha.
  - destruct (enqueue_head_spec q th Hq) as [Hw Ha]. simpl. by rewrite Ha.
  - pose proof Hq as [Hrw He].
    destruct (drain_if_overflow_spec q Hrw) as (Hw & Ha & He' & Hov). rewrite <- Ha.
    assert (wf (drain_if_overflow q)) as Hw' by (split; [done|by rewrite He', He, Ha]).
    destruct (rq_nonempty (drain_if_overflow q)) eqn:E.
    + destruct (pop_thread_spec _ Hw' E) as [Hw'' Ha''].
      destruct (pop_thread (drain_if_overflow q)) as [th q']. simpl in *. by rewrite Ha''.
    + simpl. split; [done|]. rewrite rq_nonempty_len in E by done. apply Z.ltb_ge in E.
      pose proof (rq_len_nonneg (drain_if_overflow q)).
      assert (rq_len (drain_if_overflow q) = 0) as El by lia.
      assert (rq_overflow (drain_if_overflow q) = []) as Eo.
      { destruct (rq_overflow (drain_if_overflow q)); [done|]. rewrite Hov in El; done. }
      unfold abs. by rewrite Eo, ring_nil.
  - pose proof (drain_threads_steal q n Hq Ho). destruct (drain_threads q n true) as [l q'].
    simpl. destruct H as (-> & -> & ?). done.
Qed.

Lemma run_q_refines os : forall q, wf q -> Forall qop_ok os ->
  fst (run_q qop_step os q) = fst (run_q deque_step os (abs q)) /\
  abs (snd (run_q qop_step os q)) = snd (run_q deque_step os (abs q)) /\
  wf (snd (run_q qop_step os q)).
Proof.
  induction os as [|o os IH]; intros q Hq Hos; [done|].
  apply Forall_cons in Hos as [Ho Hos]. destruct (qop_step_refines o q Hq Ho) as [Hw E].
  simpl. rewrite <- E. destruct (qop_step o q) as [r q1]. simpl in *.
  destruct (IH q1 Hw Hos) as (E1 & E2 & E3).
  destruct (run_q qop_step os q1), (run_q deque_step os (abs q1)). simpl in *.
  by rewrite E1, E2.
Qed.

Lemma empty_runq_wf x : is_u32 x -> wf (empty_runq x) /\ abs (empty_runq x) = [].
Proof.
  intros Hx. assert (rq_len (empty_runq x) = 0) as Hl by (unfold rq_len; simpl; by rewrite Z.sub_diag).
  assert (abs (empty_runq x) = []) as Ha by (unfold abs; by rewrite ring_nil).
  split; [|done]. split; [|by rewrite Ha]. split; simpl; try done. rewrite Hl. rqlia.
Qed.

(** C2: a kthread's run queue is an unbounded double-ended queue.  From an empty
    queue whose 32-bit counters start anywhere, any sequence of wake-ups (at
    the tail or at the head, locked or not), dispatches and thefts of up to [n]
    threads makes exactly the same threads leave, in the same order, as on a
    plain list; no thread is lost or duplicated when the 32-slot ring
    overflows, refills or its counters wrap, and the counters exported to the
    iokernel always count the queued threads. *)
Theorem runq_refines_deque x os :
  is_u32 x -> Forall qop_ok os ->
  let '(out, q) := run_q qop_step os (empty_runq x) in
  let '(out', l) := run_q deque_step os [] in
  out = out' /\ abs q = l /\ wf q.
Proof.
  intros Hx Hos. destruct (empty_runq_wf x Hx) as [Hw Ha].
  pose proof (run_q_refines os (empty_runq x) Hw Hos) as (E1 & E2 & E3). rewrite Ha in *.
  destruct (run_q qop_step os (empty_runq x)), (run_q deque_step os []). done.
Qed.

Lemma runq_refines_deque_witness :
  let os := (QReady <$> seq 1 40) ++ [QReadyHead 99%nat; QNext; QNext; QStolen 34; QNext; QNext] in
  let '(out, q) := run_q qop_step os (empty_runq (UINT32_MAX - 3)) in
  let '(out', l) := run_q deque_step os [] in
  out = out' /\ abs q = l /\ wf q.
Proof.
  apply runq_refines_deque; [done|]. apply Forall_app. split.
  - apply Forall_fmap, Forall_true. done.
  - repeat constructor. simpl. lia.
Defined.
