(* ===== verification/LinkedList.v ===== *)
(** * list: intrusive doubly-linked lists

    Models [inc/base/list.h] and [base/list.c] on a memory of nodes with [next]
    and [prev] fields: a list is a circle through its head, nodes are addresses,
    and reading or writing an address that holds no node is a fault.  Offsets
    between a node and the structure around it ([list_entry]) are left out: an
    entry is named by the address of its node, and 0 is [NULL].  This is the
    build without [DEBUG], where the consistency check is only called directly. *)

From S2P Require Import Prelude.

Record mem := Mem { next : gmap Z Z; prev : gmap Z Z }.
#[global] Instance eta_mem : Settable mem := fun r => Mem (next r) (prev r).
Definition NULL : Z := 0.

(** Code that reads and writes nodes; [None] is a fault. *)
Definition P (A : Type) : Type := mem -> option (A * mem).
Definition ret {A} (x : A) : P A := fun m => Some (x, m).
Definition bind {A B} (p : P A) (f : A -> P B) : P B :=
  fun m => match p m with Some (x, m) => f x m | None => None end.
Declare Scope ptr_scope.
Notation "'do' x <- p ; q" := (bind p (fun x => q)) (at level 200, x pattern, p at level 99, q at level 200) : ptr_scope.
Notation "p ;; q" := (bind p (fun _ => q)) (at level 100, q at level 200, right associativity) : ptr_scope.
Open Scope ptr_scope.

Definition get_next (a : Z) : P Z := fun m => match next m !! a with Some b => Some (b, m) | None => None end.
Definition get_prev (a : Z) : P Z := fun m => match prev m !! a with Some b => Some (b, m) | None => None end.
Definition set_next (a b : Z) : P unit :=
  fun m => match next m !! a with Some _ => Some (tt, m <| next := <[a := b]> (next m) |>) | None => None end.
Definition set_prev (a b : Z) : P unit :=
  fun m => match prev m !! a with Some _ => Some (tt, m <| prev := <[a := b]> (prev m) |>) | None => None end.

(** ** Operations *)

Definition list_head_init (h : Z) : P unit := set_prev h h ;; set_next h h.

Definition list_add (h n : Z) : P unit :=
  do x <- get_next h; set_next n x ;;
  set_prev n h ;;
  (do x <- get_next h; set_prev x n) ;;
  set_next h n.

Definition list_add_tail (h n : Z) : P unit :=
  set_next n h ;;
  (do x <- get_prev h; set_prev n x) ;;
  (do x <- get_prev h; set_next x n) ;;
  set_prev h n.

Definition list_add_between (prv n nxt : Z) : P unit :=
  set_next prv n ;; set_prev n prv ;; set_next n nxt ;; set_prev nxt n.
Definition list_add_after (prv n : Z) : P unit := do x <- get_next prv; list_add_between prv n x.
Definition list_add_before (nxt n : Z) : P unit := do x <- get_prev nxt; list_add_between x n nxt.

Definition list_empty (h : Z) : P bool := do x <- get_next h; ret (x =? h).

Definition list_del (n : Z) : P unit :=
  (do x <- get_next n; do p <- get_prev n; set_prev x p) ;;
  (do p <- get_prev n; do x <- get_next n; set_next p x).
Definition list_del_from (h n : Z) : P unit := list_del n.

Definition list_top (h : Z) : P Z :=
  do e <- list_empty h; if e : bool then ret NULL else get_next h.
Definition list_pop (h : Z) : P Z :=
  do e <- list_empty h;
  if e : bool then ret NULL else do n <- get_next h; list_del n ;; ret n.
Definition list_tail (h : Z) : P Z :=
  do e <- list_empty h; if e : bool then ret NULL else get_prev h.

Definition list_entry_or_null (h n : Z) : Z := if n =? h then NULL else n.
Definition list_next (h i : Z) : P Z := do x <- get_next i; ret (list_entry_or_null h x).
Definition list_prev (h i : Z) : P Z := do x <- get_prev i; ret (list_entry_or_null h x).

Definition list_append_list (to from : Z) : P unit :=
  do from_tail <- get_prev from;
  do to_tail <- get_prev to;
  set_prev to from_tail ;; set_next from_tail to ;;
  set_next to_tail from ;; set_prev from to_tail ;;
  list_del from ;; list_head_init from.

Definition list_prepend_list (to from : Z) : P unit :=
  do from_tail <- get_prev from;
  do to_head <- get_next to;
  set_next to from ;; set_prev from to ;;
  set_prev to_head from_tail ;; set_next from_tail to_head ;;
  list_del from ;; list_head_init from.

(** The loops of the iteration macros, with [body] run for each node;
    [fuel] bounds the number of iterations. *)
Fixpoint for_each_from (fuel : nat) (h i : Z) (body : Z -> P unit) : P unit :=
  match fuel with
  | O => fun _ => None
  | S fuel => if i =? h then ret tt else body i ;; (do i <- get_next i; for_each_from fuel h i body)
  end.
Definition list_for_each (fuel : nat) (h : Z) (body : Z -> P unit) : P unit :=
  do i <- get_next h; for_each_from fuel h i body.

Fixpoint for_each_rev_from (fuel : nat) (h i : Z) (body : Z -> P unit) : P unit :=
  match fuel with
  | O => fun _ => None
  | S fuel => if i =? h then ret tt else body i ;; (do i <- get_prev i; for_each_rev_from fuel h i body)
  end.
Definition list_for_each_rev (fuel : nat) (h : Z) (body : Z -> P unit) : P unit :=
  do i <- get_prev h; for_each_rev_from fuel h i body.

(** The safe loop has read the successor before the body runs. *)
Fixpoint for_each_safe_from (fuel : nat) (h i nxt : Z) (body : Z -> P unit) : P unit :=
  match fuel with
  | O => fun _ => None
  | S fuel => if i =? h then ret tt else body i ;; (do n <- get_next nxt; for_each_safe_from fuel h nxt n body)
  end.
Definition list_for_each_safe (fuel : nat) (h : Z) (body : Z -> P unit) : P unit :=
  do i <- get_next h; do n <- get_next i; for_each_safe_from fuel h i n body.

(** [list_check_node]: [false] stands for the corruption report. *)
Fixpoint check_from (fuel : nat) (node p n : Z) : P bool :=
  match fuel with
  | O => fun _ => None
  | S fuel =>
      if n =? node then do x <- get_prev node; ret (x =? p)
      else do x <- get_prev n; if x =? p then do y <- get_next n; check_from fuel node n y else ret false
  end.
Definition list_check_node (fuel : nat) (node : Z) : P bool := do n <- get_next node; check_from fuel node node n.
Definition list_check (fuel : nat) (h : Z) : P bool := list_check_node fuel h.

(** ** Circles of nodes *)

(** The nodes [xs] are linked in this order, in both directions. *)
Fixpoint path (m : mem) (xs : list Z) : Prop :=
  match xs with
  | a :: (b :: _) as r => next m !! a = Some b /\ prev m !! b = Some a /\ path m r
  | _ => True
  end.

(** The list with head [h] holds the nodes [l]. *)
Definition ring (m : mem) (h : Z) (l : list Z) : Prop := path m (h :: l ++ [h]) /\ NoDup (h :: l).

Lemma path_cons m a b r : path m (a :: b :: r) <-> next m !! a = Some b /\ prev m !! b = Some a /\ path m (b :: r).
Proof. done. Qed.

Lemma path_app m xs a ys : path m (xs ++ a :: ys) <-> path m (xs ++ [a]) /\ path m (a :: ys).
Proof.
  induction xs as [|x [|y xs] IH]; [simpl; tauto|simpl; tauto|].
  rewrite <- !app_comm_cons in *. rewrite !path_cons, IH. tauto.
Qed.

(** A path only depends on the [next] of all nodes but the last and the [prev]
    of all nodes but the first. *)
Lemma path_frame m m' xs :
  path m xs -> (forall a, a ∈ removelast xs -> next m' !! a = next m !! a) ->
  (forall a, a ∈ tail xs -> prev m' !! a = prev m !! a) -> path m' xs.
Proof.
  induction xs as [|a [|b r] IH]; [done..|]. rewrite !path_cons. intros (H1 & H2 & H3) Hn Hp.
  rewrite Hn, Hp by (simpl; left). split_and!; [done..|]. apply IH; [done| |].
  - intros c Hc. apply Hn. by right.
  - intros c Hc. apply Hp. simpl. by right.
Qed.

Lemma removelast_snoc {A} (l : list A) x : removelast (l ++ [x]) = l.
Proof. apply removelast_last. Qed.

Lemma removelast_app_cons {A} (l : list A) x r : removelast (l ++ x :: r) = l ++ removelast (x :: r).
Proof. by apply removelast_app. Qed.

Lemma tail_app_cons {A} (l : list A) x r : tail (l ++ x :: r) = tail (l ++ [x]) ++ r.
Proof. destruct l; simpl; [done|]. by rewrite <- app_assoc. Qed.

(** A circle cut at a link [p], [x]. *)
Lemma ring_cut m h l1 l2 :
  ring m h (l1 ++ l2) ->
  exists xs p x ys, h :: l1 = xs ++ [p] /\ l2 ++ [h] = x :: ys /\ next m !! p = Some x /\ prev m !! x = Some p.
Proof.
  intros [Hp _]. destruct (exists_last (l := h :: l1)) as (xs & p & E1); [done|].
  destruct (l2 ++ [h]) as [|x ys] eqn:E2; [by destruct l2|]. exists xs, p, x, ys. split_and!; [done..| |];
  rewrite <- app_assoc, E2, app_comm_cons, E1, <- app_assoc in Hp; simpl in Hp; apply path_app in Hp as [_ Hp]; apply Hp.
Qed.

(** The parts of a circle on both sides of a cut, and what they do not contain. *)
Lemma ring_sides m h l1 l2 xs p x ys :
  ring m h (l1 ++ l2) -> h :: l1 = xs ++ [p] -> l2 ++ [h] = x :: ys ->
  path m (xs ++ [p]) /\ path m (x :: ys) /\ p ∉ xs /\ p ∉ removelast (x :: ys) /\ x ∉ tail (xs ++ [p]) /\ x ∉ ys.
Proof.
  intros [Hp Hd] E1 E2.
  assert (h :: (l1 ++ l2) ++ [h] = xs ++ p :: x :: ys) as E.
  { rewrite <- app_assoc, E2, app_comm_cons, E1, <- app_assoc. done. }
  assert (NoDup (removelast (xs ++ p :: x :: ys))) as Hr by (rewrite <- E, app_comm_cons, removelast_snoc; done).
  assert (NoDup (tail (xs ++ p :: x :: ys))) as Ht.
  { rewrite <- E. simpl. apply NoDup_app. apply NoDup_cons in Hd as [Hh Hd]. split_and!; [done| |apply NoDup_singleton].
    intros a Ha ->%list_elem_of_singleton. done. }
  rewrite removelast_app_cons, NoDup_app in Hr. rewrite tail_app_cons, NoDup_app in Ht. destruct Hr as (Hr1 & Hr2 & Hr3), Ht as (Ht1 & Ht2 & Ht3).
  rewrite E in Hp. rewrite path_app in Hp. destruct Hp as [H1 H2]. rewrite path_cons in H2. split_and!; [done|apply H2|..].
  - intros Hin. apply (Hr2 p Hin). simpl. left.
  - change (removelast (p :: x :: ys)) with (p :: removelast (x :: ys)) in Hr3. by apply NoDup_cons in Hr3 as [? _].
  - intros Hin. apply (Ht2 x Hin). left.
  - by apply NoDup_cons in Ht3 as [? _].
Qed.

Lemma removelast_elem {A} (l : list A) x : x ∈ removelast l -> x ∈ l.
Proof.
  induction l as [|a [|b r] IH]; [done| |]; [by intros ?%not_elem_of_nil|].
  change (removelast (a :: b :: r)) with (a :: removelast (b :: r)). rewrite (elem_of_cons _ x a), (elem_of_cons (b :: r) x a). naive_solver.
Qed.
Lemma tail_elem {A} (l : list A) x : x ∈ tail l -> x ∈ l.
Proof. destruct l; [done|]. by right. Qed.

Lemma not_elem_of_pair (a b c : Z) : a ∉ [b; c] -> b <> a /\ c <> a.
Proof. intros [? [? _]%not_elem_of_cons]%not_elem_of_cons. done. Qed.
Lemma not_elem_of_single (a b : Z) : a ∉ [b] -> b <> a.
Proof. intros [? _]%not_elem_of_cons. done. Qed.

(** Memory [m'] is [m] with some [next] and [prev] fields changed. *)
Definition same_but (m m' : mem) (ns ps : list Z) : Prop :=
  (forall a, a ∉ ns -> next m' !! a = next m !! a) /\ (forall a, a ∉ ps -> prev m' !! a = prev m !! a).

Lemma path_same m m' ns ps xs :
  path m xs -> same_but m m' ns ps -> (forall a, a ∈ ns -> a ∉ removelast xs) -> (forall a, a ∈ ps -> a ∉ tail xs) -> path m' xs.
Proof.
  intros Hp [Hn Hv] H1 H2. apply (path_frame m); [done| |].
  - intros a Ha. apply Hn. intros Hin. by apply (H1 a).
  - intros a Ha. apply Hv. intros Hin. by apply (H2 a).
Qed.

Lemma NoDup_middle (h : Z) l1 l2 n : NoDup (h :: l1 ++ n :: l2) <-> NoDup (h :: l1 ++ l2) /\ n ∉ h :: l1 ++ l2.
Proof.
  rewrite <- (Permutation_middle l1 l2 n), (Permutation_swap n h), NoDup_cons. tauto.
Qed.

Lemma ring_insert m m' h l1 l2 xs p x ys n :
  ring m h (l1 ++ l2) -> h :: l1 = xs ++ [p] -> l2 ++ [h] = x :: ys -> n ∉ h :: l1 ++ l2 ->
  same_but m m' [p; n] [x; n] -> next m' !! p = Some n -> next m' !! n = Some x ->
  prev m' !! n = Some p -> prev m' !! x = Some n -> ring m' h (l1 ++ n :: l2).
Proof.
  intros Hr E1 E2 Hn Hm Hpn Hnx Hnp Hxn.
  destruct (ring_sides m h l1 l2 xs p x ys Hr E1 E2) as (P1 & P2 & D1 & D2 & D3 & D4).
  assert (forall a, a ∈ xs ++ [p] \/ a ∈ x :: ys -> a <> n) as Hne.
  { intros a Ha ->. rewrite <- E1, <- E2 in Ha. apply Hn. clear -Ha. set_solver. }
  split.
  - rewrite <- app_assoc. cbn [app]. rewrite E2, app_comm_cons, E1, <- app_assoc. cbn [app]. apply path_app. split.
    + apply (path_same m m' [p; n] [x; n]); [done..| |]; intros a [->|[->|[]%not_elem_of_nil]%elem_of_cons]%elem_of_cons; rewrite ?removelast_snoc; try done.
      * intros Hin. by apply (Hne n); [left; apply elem_of_app; left|].
      * intros Hin%tail_elem. by apply (Hne n); [left|].
    + rewrite !path_cons. split_and!; try done.
      apply (path_same m m' [p; n] [x; n]); [done..| |]; intros a [->|[->|[]%not_elem_of_nil]%elem_of_cons]%elem_of_cons; try done.
      * intros Hin%removelast_elem. by apply (Hne n); [right|].
      * simpl. intros Hin. by apply (Hne n); [right; right|].
  - apply NoDup_middle. by destruct Hr.
Qed.

Lemma ring_remove m m' h l1 l2 n xs p x ys :
  ring m h (l1 ++ n :: l2) -> h :: l1 = xs ++ [p] -> l2 ++ [h] = x :: ys ->
  same_but m m' [p] [x] -> next m' !! p = Some x -> prev m' !! x = Some p -> ring m' h (l1 ++ l2).
Proof.
  intros Hr E1 E2 Hm Hpx Hxp.
  destruct (ring_sides m h l1 (n :: l2) xs p n (x :: ys) Hr E1 ltac:(simpl; by rewrite E2)) as (P1 & P2 & D1 & D2 & D3 & D4).
  assert (ring m h ((l1 ++ [n]) ++ l2)) as Hr' by by rewrite <- app_assoc.
  destruct (ring_sides m h (l1 ++ [n]) l2 (xs ++ [p]) n x ys Hr' ltac:(by rewrite app_comm_cons, E1) E2) as (P3 & P4 & D5 & D6 & D7 & D8).
  split.
  - rewrite <- app_assoc, E2, app_comm_cons, E1, <- app_assoc. cbn [app]. apply path_app. split.
    + apply (path_same m m' [p] [x]); [done..| |]; intros a ->%list_elem_of_singleton; rewrite ?removelast_snoc; [done|].
      intros Hin. apply D7. rewrite <- app_assoc. simpl. rewrite tail_app_cons. apply elem_of_app. by left.
    + rewrite path_cons. split_and!; try done.
      apply (path_same m m' [p] [x]); [done..| |]; intros a ->%list_elem_of_singleton; [|done].
      intros Hin. apply D2. simpl. by right.
  - destruct Hr as [_ Hd]. by apply (NoDup_middle h l1 l2 n).
Qed.

Lemma path_join m xs p x ys :
  path m (xs ++ [p]) -> path m (x :: ys) -> next m !! p = Some x -> prev m !! x = Some p -> path m (xs ++ p :: x :: ys).
Proof. intros. apply path_app. by rewrite path_cons. Qed.

(** The whole circle of [from], its head included, put between [p] and [x]. *)
Lemma ring_sew m m' to a b from l xs p x ys zs q :
  ring m to (a ++ b) -> to :: a = xs ++ [p] -> b ++ [to] = x :: ys ->
  ring m from l -> from :: l = zs ++ [q] -> (forall c, c ∈ from :: l -> c ∉ to :: a ++ b) ->
  same_but m m' [p; q] [x; from] -> next m' !! p = Some from -> next m' !! q = Some x ->
  prev m' !! from = Some p -> prev m' !! x = Some q -> ring m' to (a ++ from :: l ++ b).
Proof.
  intros Hr E1 E2 Hf E3 Hdj Hm Hpf Hqx Hfp Hxq.
  destruct (ring_sides m to a b xs p x ys Hr E1 E2) as (P1 & P2 & D1 & D2 & D3 & D4).
  destruct (ring_sides m from l [] zs q from [] ltac:(by rewrite app_nil_r) E3 eq_refl) as (P3 & _ & D5 & _ & D7 & _).
  assert (forall c, c ∈ xs ++ [p] \/ c ∈ x :: ys -> c ∉ zs ++ [q]) as Hd.
  { intros c Hc Hin. rewrite <- E3 in Hin. rewrite <- E1, <- E2 in Hc. apply (Hdj c Hin). clear -Hc. set_solver. }
  assert (p ∈ xs ++ [p]) as Hp by (apply elem_of_app; right; left).
  assert (q ∈ zs ++ [q]) as Hq by (apply elem_of_app; right; left).
  assert (from ∈ zs ++ [q]) as Hfrom by (rewrite <- E3; left).
  assert (path m' (xs ++ [p]) /\ path m' (zs ++ [q]) /\ path m' (x :: ys)) as (Q1 & Q2 & Q3).
  { split_and!; (eapply path_same; [done|exact Hm|..]); intros c [->|[->|[]%not_elem_of_nil]%elem_of_cons]%elem_of_cons;
      rewrite ?removelast_snoc; try done.
    - intros Hin. apply (Hd q); [left; by apply elem_of_app; left|done].
    - intros Hin%tail_elem. by apply (Hd from); [left|].
    - intros Hin. apply (Hd p); [by left|]. by apply elem_of_app; left.
    - intros Hin%tail_elem. apply (Hd x); [right; left|done].
    - intros Hin%removelast_elem. by apply (Hd q); [right|].
    - intros Hin. by apply (Hd from); [right; right|]. }
  split.
  - rewrite <- !app_assoc, <- app_comm_cons, <- app_assoc, E2, app_comm_cons, E1, <- app_assoc. cbn [app].
    apply path_join; try done. rewrite app_comm_cons, E3, <- app_assoc. by apply path_join.
  - destruct Hr as [_ Hr], Hf as [_ Hf].
    assert (a ++ from :: l ++ b ≡ₚ (from :: l) ++ (a ++ b)) as Hperm by solve_Permutation.
    rewrite Hperm, (Permutation_middle (from :: l) (a ++ b) to). by apply NoDup_app.
Qed.

(** ** A memory of lists *)

Section Memory.
(** The addresses that hold a node. *)
Context (N : gset Z).

(** Memory [m] holds the lists [A], by the address of the head. *)
Record stands (m : mem) (A : gmap Z (list Z)) : Prop := {
  st_ring : forall h l, A !! h = Some l -> ring m h l;
  st_disj : forall h1 h2 l1 l2, A !! h1 = Some l1 -> A !! h2 = Some l2 -> h1 <> h2 -> forall a, a ∈ h1 :: l1 -> a ∉ h2 :: l2;
  st_dom : forall a, (is_Some (next m !! a) <-> a ∈ N) /\ (is_Some (prev m !! a) <-> a ∈ N)
}.
(** A node that is on no list. *)
Definition unlinked (A : gmap Z (list Z)) (a : Z) : Prop :=
  a ∈ N /\ forall h l, A !! h = Some l -> a ∉ h :: l.

Lemma node_fields m A a : stands m A -> a ∈ N -> is_Some (next m !! a) /\ is_Some (prev m !! a).
Proof. intros Hs Ha. destruct (st_dom m A Hs a) as [[_ H1] [_ H2]]. auto. Qed.

Lemma path_node m xs a : path m xs -> (2 <= length xs)%nat -> a ∈ xs -> is_Some (next m !! a) \/ is_Some (prev m !! a).
Proof.
  induction xs as [|b [|c r] IH]; simpl length; intros Hp Hl Ha; [lia..|]. apply path_cons in Hp as (H1 & H2 & Hp).
  apply elem_of_cons in Ha as [->|Ha]; [eauto|]. destruct r as [|d r]; [|apply IH; simpl; auto; lia].
  apply list_elem_of_singleton in Ha as ->. eauto.
Qed.

Lemma stands_node m A h l a : stands m A -> A !! h = Some l -> a ∈ h :: l -> is_Some (next m !! a) /\ is_Some (prev m !! a).
Proof.
  intros Hs Hl Ha. destruct (st_ring m A Hs h l Hl) as [Hp _]. pose proof (st_dom m A Hs a).
  destruct (path_node m (h :: l ++ [h]) a) as [?|?]; try tauto; [simpl; rewrite length_app; simpl; lia|].
  rewrite app_comm_cons. apply elem_of_app. by left.
Qed.

Lemma insert_is_Some (M : gmap Z Z) k v a : is_Some (M !! k) -> is_Some (<[k := v]> M !! a) <-> is_Some (M !! a).
Proof. intros H. destruct (decide (k = a)) as [->|Hne]; [rewrite lookup_insert_eq|rewrite lookup_insert_ne]; naive_solver. Qed.

(** Replacing the nodes of one list. *)
Lemma stands_upd m m' A h l l' ns ps :
  stands m A -> A !! h = Some l -> ring m' h l' -> same_but m m' ns ps ->
  (forall a, (is_Some (next m' !! a) <-> a ∈ N) /\ (is_Some (prev m' !! a) <-> a ∈ N)) ->
  (forall a, a ∈ ns \/ a ∈ ps \/ a ∈ l' -> a ∈ h :: l \/ unlinked A a) -> stands m' (<[h := l']> A).
Proof.
  intros Hs Hl Hr Hm Hd Hsub.
  assert (forall g k a, g <> h -> A !! g = Some k -> a ∈ ns \/ a ∈ ps \/ a ∈ h :: l' -> a ∉ g :: k) as Hout.
  { intros g k a Hne Hg Ha. assert (a ∈ h :: l \/ unlinked A a) as [Hin|[_ Hu]]; [|eapply (st_disj m A Hs h g); eauto|by apply Hu].
    destruct Ha as [Ha|[Ha|[->|Ha]%elem_of_cons]]; [eauto..|left; left|eauto]. }
  split; [| |done].
  - intros g k. rewrite lookup_insert_Some. intros [[<- <-]|[Hne Hg]]; [done|].
    destruct (st_ring m A Hs g k Hg) as [Hp Hnd]. split; [|done].
    apply (path_same m m' ns ps); [done..| |]; intros a Ha.
    + rewrite app_comm_cons, removelast_snoc. eapply Hout; eauto.
    + intros Hin. eapply Hout; eauto. simpl in Hin. apply elem_of_app in Hin as [?| ->%list_elem_of_singleton]; [by right|left].
  - intros h1 h2 l1 l2. rewrite !lookup_insert_Some. intros [[<- <-]|[N1 H1]] [[<- <-]|[N2 H2]] Hne a Ha; try done.
    + eapply Hout; eauto.
    + intros Hin. eapply (Hout h1 l1 a); eauto.
    + eapply (st_disj m A Hs h1 h2); eauto.
Qed.

Lemma stands_insert m m' A h l1 l2 xs p x ys n :
  stands m A -> A !! h = Some (l1 ++ l2) -> h :: l1 = xs ++ [p] -> l2 ++ [h] = x :: ys -> unlinked A n ->
  next m' = <[p := n]> (<[n := x]> (next m)) -> prev m' = <[x := n]> (<[n := p]> (prev m)) ->
  stands m' (<[h := l1 ++ n :: l2]> A).
Proof.
  intros Hs Hl E1 E2 Hn Hnx Hpv. assert (n ∉ h :: l1 ++ l2) as Hni by by apply Hn.
  assert (p ∈ h :: l1 ++ l2) as Hp by (rewrite app_comm_cons, E1; apply elem_of_app; left; apply elem_of_app; right; left).
  assert (x ∈ h :: l1 ++ l2) as Hx.
  { assert (x ∈ l2 ++ [h]) as H by (rewrite E2; left). clear -H. set_solver. }
  assert (p <> n /\ x <> n) as [Hpn Hxn] by (split; by intros ->).
  assert (same_but m m' [p; n] [x; n]) as Hm.
  { split; intros a [? ?]%not_elem_of_pair; by rewrite ?Hnx, ?Hpv, !lookup_insert_ne by done. }
  apply (stands_upd m m' A h (l1 ++ l2) _ [p; n] [x; n]); try done.
  - apply (ring_insert m m' h l1 l2 xs p x ys n); try done; try apply Hs; try done;
      rewrite ?Hnx, ?Hpv, ?lookup_insert_eq; rewrite ?lookup_insert_ne by done; by rewrite ?lookup_insert_eq.
  - destruct (stands_node m A h _ x Hs Hl Hx), (stands_node m A h _ p Hs Hl Hp), Hn as [Hn _].
    destruct (node_fields m A n Hs Hn). intros a. rewrite Hnx, Hpv, !insert_is_Some by (rewrite ?insert_is_Some; done).
    apply Hs.
  - intros a Ha. destruct (decide (a = n)) as [->|Hne]; [by right|left]. clear -Ha Hp Hx Hne. set_solver.
Qed.

(** Running straight-line code on a memory whose fields are known. *)
Ltac ptr :=
  repeat (progress (unfold bind, ret, get_next, get_prev, set_next, set_prev; cbn [next prev];
    unfold set; cbn [next prev]) ||
    match goal with
    | |- context [<[?a := _]> _ !! ?a] => rewrite (lookup_insert_eq _ a)
    | |- context [<[?a := _]> _ !! ?b] => rewrite (lookup_insert_ne _ a b) by (done || congruence)
    | H : ?t !! ?a = Some _ |- context [?t !! ?a] => rewrite H
    | _ => progress cbv beta iota
    end).

Lemma snoc_nil_inv {A} (h : A) xs p : [h] = xs ++ [p] -> xs = [] /\ p = h.
Proof. destruct xs as [|y [|z xs]]; [by intros [= ->]|done..]. Qed.

(** The link [p], [x] where [n] is to be inserted. *)
Lemma insert_at m A h l1 l2 n :
  stands m A -> A !! h = Some (l1 ++ l2) -> unlinked A n ->
  exists xs p x ys v w, h :: l1 = xs ++ [p] /\ l2 ++ [h] = x :: ys /\ next m !! p = Some x /\ prev m !! x = Some p /\
    next m !! n = Some v /\ prev m !! n = Some w /\ n <> p /\ n <> x.
Proof.
  intros Hs Hl Hn. destruct (ring_cut m h l1 l2) as (xs & p & x & ys & E1 & E2 & Hx & Hp); [by apply Hs|].
  pose proof (proj2 Hn h _ Hl) as Hni.
  destruct (node_fields m A n Hs (proj1 Hn)) as [[v Hv] [w Hw]].
  exists xs, p, x, ys, v, w. split_and!; try done; intros ->; apply Hni.
  - rewrite app_comm_cons, E1. apply elem_of_app. left. apply elem_of_app. right. left.
  - assert (x ∈ l2 ++ [h]) as H by (rewrite E2; left). clear -H. set_solver.
Qed.

(** Inserting [n] after [l1]. *)
Definition inserts (p : P unit) (h n : Z) (l1 l2 : list Z) : Prop :=
  forall m A, stands m A -> A !! h = Some (l1 ++ l2) -> unlinked A n ->
  exists m', p m = Some (tt, m') /\ stands m' (<[h := l1 ++ n :: l2]> A).

Lemma list_add_ok h n l : inserts (list_add h n) h n [] l.
Proof.
  intros m A Hs Hl Hn. destruct (insert_at m A h [] l n Hs Hl Hn) as (xs & p & x & ys & v & w & E1 & E2 & Hx & Hp & Hv & Hw & N1 & N2).
  destruct (snoc_nil_inv _ _ _ E1) as [-> ->].
  eexists. split; [unfold list_add; ptr; reflexivity|]. by apply (stands_insert m _ A h [] l [] h x ys n).
Qed.

Lemma list_add_tail_ok h n l : inserts (list_add_tail h n) h n l [].
Proof.
  intros m A Hs Hl Hn. destruct (insert_at m A h l [] n Hs Hl Hn) as (xs & p & x & ys & v & w & E1 & E2 & Hx & Hp & Hv & Hw & N1 & N2).
  injection E2 as <- <-. eexists. split; [unfold list_add_tail; ptr; reflexivity|].
  by apply (stands_insert m _ A h l [] xs p h [] n).
Qed.

Lemma list_add_after_ok h n l1 l2 p : last (h :: l1) = Some p -> inserts (list_add_after p n) h n l1 l2.
Proof.
  intros Hlast m A Hs Hl Hn. destruct (insert_at m A h l1 l2 n Hs Hl Hn) as (xs & p' & x & ys & v & w & E1 & E2 & Hx & Hp & Hv & Hw & N1 & N2).
  rewrite E1, last_snoc in Hlast. injection Hlast as ->.
  eexists. split; [unfold list_add_after, list_add_between; ptr; reflexivity|].
  apply (stands_insert m _ A h l1 l2 xs p x ys n); try done. simpl. by apply insert_insert_ne.
Qed.

Lemma list_add_before_ok h n l1 l2 x : head (l2 ++ [h]) = Some x -> inserts (list_add_before x n) h n l1 l2.
Proof.
  intros Hhd m A Hs Hl Hn. destruct (insert_at m A h l1 l2 n Hs Hl Hn) as (xs & p & x' & ys & v & w & E1 & E2 & Hx & Hp & Hv & Hw & N1 & N2).
  rewrite E2 in Hhd. injection Hhd as ->.
  eexists. split; [unfold list_add_before, list_add_between; ptr; reflexivity|].
  apply (stands_insert m _ A h l1 l2 xs p x ys n); try done. simpl. by apply insert_insert_ne.
Qed.

Lemma list_head_init_ok m A h :
  stands m A -> unlinked A h -> exists m', list_head_init h m = Some (tt, m') /\ stands m' (<[h := []]> A).
Proof.
  intros Hs [Hh Hu]. destruct (node_fields m A h Hs Hh) as [[v Hv] [w Hw]].
  eexists. split; [unfold list_head_init; ptr; reflexivity|].
  assert (forall g k, A !! g = Some k -> h ∉ g :: k) as Hout by done. split; simpl.
  - intros g k. rewrite lookup_insert_Some. intros [[<- <-]|[Hne Hg]].
    + split; [|apply NoDup_singleton]. simpl. by rewrite !lookup_insert_eq.
    + destruct (st_ring m A Hs g k Hg) as [Hp Hnd]. split; [|done]. apply (path_same m _ [h] [h]); [done|..].
      * split; intros a ?%not_elem_of_single; simpl; by rewrite lookup_insert_ne by done.
      * intros a ->%list_elem_of_singleton. rewrite app_comm_cons, removelast_snoc. by apply Hout.
      * intros a ->%list_elem_of_singleton Hin. apply (Hout g k Hg). simpl in Hin.
        apply elem_of_app in Hin as [?| ->%list_elem_of_singleton]; [by right|left].
  - intros h1 h2 l1 l2. rewrite !lookup_insert_Some. intros [[<- <-]|[N1 H1]] [[<- <-]|[N2 H2]] Hne a Ha; try done.
    + apply list_elem_of_singleton in Ha as ->. by apply Hout.
    + intros ->%list_elem_of_singleton. by apply (Hout h1 l1).
    + eapply (st_disj m A Hs h1 h2); eauto.
  - intros a. rewrite !insert_is_Some by eauto. apply Hs.
Qed.

Lemma list_del_ok m A h l1 n l2 :
  stands m A -> A !! h = Some (l1 ++ n :: l2) ->
  exists m', list_del n m = Some (tt, m') /\ stands m' (<[h := l1 ++ l2]> A) /\ unlinked (<[h := l1 ++ l2]> A) n.
Proof.
  intros Hs Hl. pose proof (st_ring m A Hs h _ Hl) as Hr.
  destruct (ring_cut m h l1 (n :: l2) Hr) as (xs & p & n' & ys' & E1 & E2' & Hpn & Hnp). injection E2' as <- <-.
  destruct (ring_cut m h (l1 ++ [n]) l2) as (zs & n' & x & ys & E3 & E2 & Hnx & Hxn); [by rewrite <- app_assoc|].
  rewrite app_comm_cons in E3. apply app_inj_tail in E3 as [_ <-].
  assert (NoDup (h :: l1 ++ n :: l2)) as Hnd by apply Hr. apply NoDup_middle in Hnd as [_ Hni].
  assert (p ∈ h :: l1 ++ l2) as Hp by (rewrite app_comm_cons, E1; apply elem_of_app; left; apply elem_of_app; right; left).
  assert (x ∈ h :: l1 ++ l2) as Hx. { assert (x ∈ l2 ++ [h]) as H by (rewrite E2; left). clear -H. set_solver. }
  assert (n <> p) by (by intros ->). assert (n <> x) by (by intros ->).
  assert (stands (Mem (<[p := x]> (next m)) (<[x := p]> (prev m))) (<[h := l1 ++ l2]> A)) as Hs'.
  { eapply (stands_upd m _ A h _ (l1 ++ l2) [p] [x]); try done.
    - apply (ring_remove m _ h l1 l2 n xs p x ys); simpl; try done; try apply lookup_insert_eq.
      split; intros a ?%not_elem_of_single; simpl; by rewrite lookup_insert_ne by done.
    - split; intros a ?%not_elem_of_single; simpl; by rewrite lookup_insert_ne by done.
    - intros a. simpl. rewrite !insert_is_Some by eauto. apply Hs.
    - intros a Ha. left. clear -Ha Hp Hx. set_solver. }
  eexists. split; [unfold list_del; ptr; reflexivity|]. split; [exact Hs'|]. split.
  - apply (st_dom m A Hs n). eauto.
  - intros g k. rewrite lookup_insert_Some. intros [[<- <-]|[Hne Hg]]; [done|].
    apply (st_disj m A Hs h g (l1 ++ n :: l2) k); try done. right. apply elem_of_app. right. left.
Qed.

Lemma stands_delete m A h l :
  stands m A -> A !! h = Some l ->
  stands m (delete h A) /\ forall c, c ∈ h :: l -> unlinked (delete h A) c.
Proof.
  intros Hs Hl. split.
  - split; [| |apply Hs].
    + intros g k [Hne Hg]%lookup_delete_Some. by apply Hs.
    + intros h1 h2 l1 l2 [_ H1]%lookup_delete_Some [_ H2]%lookup_delete_Some. by apply (st_disj m A Hs).
  - intros c Hc. split; [by apply (st_dom m A Hs c), (stands_node m A h l)|].
    intros g k [Hne Hg]%lookup_delete_Some. by apply (st_disj m A Hs h g l k).
Qed.

Lemma stands_sew m m' A to a b from l xs p x ys zs q :
  stands m A -> A !! to = Some (a ++ b) -> A !! from = Some l -> to <> from ->
  to :: a = xs ++ [p] -> b ++ [to] = x :: ys -> from :: l = zs ++ [q] ->
  next m' = <[p := from]> (<[q := x]> (next m)) -> prev m' = <[from := p]> (<[x := q]> (prev m)) ->
  stands m' (<[to := a ++ from :: l ++ b]> (delete from A)).
Proof.
  intros Hs Ht Hf Hne E1 E2 E3 Hnx Hpv. destruct (stands_delete m A from l Hs Hf) as [Hs' Hun].
  assert (forall c, c ∈ from :: l -> c ∉ to :: a ++ b) as Hdj by by apply (st_disj m A Hs from to).
  assert (p ∈ to :: a ++ b) as Hp by (rewrite app_comm_cons, E1; apply elem_of_app; left; apply elem_of_app; right; left).
  assert (x ∈ to :: a ++ b) as Hx. { assert (x ∈ b ++ [to]) as H by (rewrite E2; left). clear -H. set_solver. }
  assert (q ∈ from :: l) as Hq by (rewrite E3; apply elem_of_app; right; left).
  assert (from ∈ from :: l) as Hfr by left.
  assert (p <> q) by (intros ->; by apply (Hdj q)). assert (from <> x) by (intros ->; by apply (Hdj x)).
  assert (same_but m m' [p; q] [x; from]) as Hm.
  { split; intros c [? ?]%not_elem_of_pair; by rewrite ?Hnx, ?Hpv, !lookup_insert_ne by done. }
  apply (stands_upd m m' _ to (a ++ b) _ [p; q] [x; from] Hs'); [by rewrite lookup_delete_ne| |done| |].
  - apply (ring_sew m m' to a b from l xs p x ys zs q); try done; try (apply Hs; done);
      rewrite ?Hnx, ?Hpv, ?lookup_insert_eq; rewrite ?lookup_insert_ne by done; by rewrite ?lookup_insert_eq.
  - destruct (stands_node m A to _ x Hs Ht Hx), (stands_node m A to _ p Hs Ht Hp).
    destruct (stands_node m A from _ q Hs Hf Hq), (stands_node m A from _ from Hs Hf Hfr).
    intros c. rewrite Hnx, Hpv, !insert_is_Some by (rewrite ?insert_is_Some; done). apply Hs.
  - intros c Hc. destruct (decide (c ∈ from :: l)) as [Hin|Hni]; [by right; apply Hun|left].
    clear -Hc Hp Hx Hq Hfr Hni. set_solver.
Qed.

(** Unlinking the head that was sewn in. *)
Lemma drop_head m A to a b from l :
  stands m (<[to := a ++ from :: l ++ b]> (delete from A)) -> to <> from ->
  exists m', (list_del from ;; list_head_init from) m = Some (tt, m') /\
    stands m' (<[from := []]> (<[to := a ++ l ++ b]> A)).
Proof.
  intros Hs Hne. destruct (list_del_ok m _ to a from (l ++ b) Hs) as (m1 & E1 & Hs1 & Hu1); [by rewrite lookup_insert_eq|].
  rewrite insert_insert_eq in Hs1, Hu1. destruct (list_head_init_ok m1 _ from Hs1 Hu1) as (m2 & E2 & Hs2).
  exists m2. unfold bind. rewrite E1, E2. split; [done|].
  by rewrite <- delete_insert_ne, insert_delete_eq in Hs2 by done.
Qed.

Lemma list_append_list_ok m A to from lt lf :
  stands m A -> A !! to = Some lt -> A !! from = Some lf -> to <> from ->
  exists m', list_append_list to from m = Some (tt, m') /\ stands m' (<[from := []]> (<[to := lt ++ lf]> A)).
Proof.
  intros Hs Ht Hf Hne. rewrite <- (app_nil_r lt) in Ht.
  destruct (ring_cut m to lt []) as (xs & p & x & ys & E1 & E2 & Hx & Hp); [by apply Hs|]. injection E2 as <- <-.
  destruct (ring_cut m from lf []) as (zs & q & y & ws & E3 & E4 & Hy & Hq); [rewrite app_nil_r; by apply Hs|].
  injection E4 as <- <-.
  assert (q <> p). { intros ->. apply (st_disj m A Hs to from (lt ++ []) lf Ht Hf Hne p).
    - rewrite app_nil_r, E1. apply elem_of_app. right. left.
    - rewrite E3. apply elem_of_app. right. left. }
  unfold list_append_list. ptr.
  edestruct (drop_head (Mem (<[p := from]> (<[q := to]> (next m))) (<[from := p]> (<[to := q]> (prev m)))) A to lt [] from lf) as (m' & E & Hs');
    [by apply (stands_sew m _ A to lt [] from lf xs p to [] zs q)|done|].
  exists m'. split; [|by rewrite app_nil_r in Hs']. unfold bind in E. exact E.
Qed.

Lemma list_prepend_list_ok m A to from lt lf :
  stands m A -> A !! to = Some lt -> A !! from = Some lf -> to <> from ->
  exists m', list_prepend_list to from m = Some (tt, m') /\ stands m' (<[from := []]> (<[to := lf ++ lt]> A)).
Proof.
  intros Hs Ht Hf Hne.
  destruct (ring_cut m to [] lt) as (xs & p & x & ys & E1 & E2 & Hx & Hp); [by apply Hs|].
  destruct (snoc_nil_inv _ _ _ E1) as [-> ->].
  destruct (ring_cut m from lf []) as (zs & q & y & ws & E3 & E4 & Hy & Hq); [rewrite app_nil_r; by apply Hs|].
  injection E4 as <- <-.
  assert (from <> x /\ q <> to) as [N1 N2].
  { pose proof (st_disj m A Hs to from lt lf Ht Hf Hne) as Hd. split; intros ->.
    - apply (Hd x); [|left]. assert (x ∈ lt ++ [to]) as H by (rewrite E2; left). clear -H. set_solver.
    - apply (Hd to); [left|]. rewrite E3. apply elem_of_app. right. left. }
  unfold list_prepend_list. ptr.
  edestruct (drop_head (Mem (<[to := from]> (<[q := x]> (next m))) (<[from := to]> (<[x := q]> (prev m)))) A to [] lt from lf) as (m' & E & Hs');
    [by apply (stands_sew m _ A to [] lt from lf [] to x ys zs q)|done|].
  exists m'. split; [|done]. unfold bind in E. rewrite (insert_insert_ne _ q to), (insert_insert_ne _ x from) by done. exact E.
Qed.

Lemma ring_first m h l : ring m h l -> next m !! h = Some (default h (head l)).
Proof.
  intros Hr. destruct (ring_cut m h [] l Hr) as (xs & p & x & ys & E1 & E2 & Hx & _).
  destruct (snoc_nil_inv _ _ _ E1) as [-> ->]. destruct l; injection E2 as <- _; done.
Qed.
Lemma ring_last m h l : ring m h l -> prev m !! h = Some (default h (last l)).
Proof.
  intros Hr. destruct (ring_cut m h l []) as (xs & p & x & ys & E1 & E2 & _ & Hp); [by rewrite app_nil_r|].
  injection E2 as <- <-. rewrite Hp. destruct l as [|a l]; [by apply snoc_nil_inv in E1 as [_ ->]|].
  assert (last (h :: a :: l) = Some p) as E by by rewrite E1, last_snoc.
  change (last (h :: a :: l)) with (last (a :: l)) in E. by rewrite E.
Qed.
Lemma ring_head_notin m h l : ring m h l -> h ∉ l.
Proof. intros [_ Hd]. apply NoDup_cons in Hd. apply Hd. Qed.

Lemma list_empty_ok m h l : ring m h l -> list_empty h m = Some (bool_decide (l = []), m).
Proof.
  intros Hr. unfold list_empty. pose proof (ring_first m h l Hr). ptr. pose proof (ring_head_notin m h l Hr) as Hh.
  destruct l as [|a l]; simpl; [by rewrite Z.eqb_refl|]. destruct (Z.eqb_spec a h) as [->|]; [|done]. destruct Hh. left.
Qed.
Lemma list_top_ok m h l : ring m h l -> list_top h m = Some (default NULL (head l), m).
Proof.
  intros Hr. unfold list_top, bind. rewrite (list_empty_ok m h l Hr). pose proof (ring_first m h l Hr).
  case_bool_decide; [by subst|]. destruct l; simpl in *; [done|by ptr].
Qed.
Lemma list_tail_ok m h l : ring m h l -> list_tail h m = Some (default NULL (last l), m).
Proof.
  intros Hr. unfold list_tail, bind. rewrite (list_empty_ok m h l Hr). pose proof (ring_last m h l Hr).
  case_bool_decide; [by subst|]. ptr. by destruct (last l) eqn:E; [|apply last_None in E].
Qed.

Lemma list_next_cut m h l1 i l2 : ring m h (l1 ++ i :: l2) -> next m !! i = Some (default h (head l2)).
Proof.
  intros Hr. destruct (ring_cut m h (l1 ++ [i]) l2) as (xs & p & x & ys & E1 & E2 & Hx & _); [by rewrite <- app_assoc|].
  rewrite app_comm_cons in E1. apply app_inj_tail in E1 as [_ <-]. rewrite Hx. destruct l2; injection E2 as <- _; done.
Qed.
Lemma list_next_ok m h l1 i l2 :
  ring m h (l1 ++ i :: l2) -> list_next h i m = Some (default NULL (head l2), m).
Proof.
  intros Hr. pose proof (list_next_cut m h l1 i l2 Hr). unfold list_next. ptr. unfold list_entry_or_null. pose proof (ring_head_notin m h _ Hr) as Hh.
  destruct l2 as [|a l2]; simpl; [by rewrite Z.eqb_refl|].
  destruct (Z.eqb_spec a h) as [->|]; [|done]. destruct Hh. apply elem_of_app. right. right. left.
Qed.
Lemma list_prev_ok m h l1 i l2 :
  ring m h (l1 ++ i :: l2) -> list_prev h i m = Some (default NULL (last l1), m).
Proof.
  intros Hr. destruct (ring_cut m h l1 (i :: l2) Hr) as (xs & p & x & ys & E1 & E2 & _ & Hp). injection E2 as <- _.
  unfold list_prev. ptr. unfold list_entry_or_null. pose proof (ring_head_notin m h _ Hr) as Hh.
  destruct l1 as [|a l1]; [apply snoc_nil_inv in E1 as [_ ->]; by rewrite Z.eqb_refl|].
  assert (last (a :: l1) = Some p) as E.
  { change (last (h :: a :: l1) = Some p). by rewrite E1, last_snoc. }
  rewrite E. simpl. destruct (Z.eqb_spec p h) as [->|]; [|done]. destruct Hh. apply elem_of_app. left. by apply last_Some_elem_of.
Qed.

(** ** Iteration *)

(** [body] for each node in turn. *)
Fixpoint run_all (body : Z -> P unit) (l : list Z) : P unit :=
  match l with [] => ret tt | i :: l => body i ;; run_all body l end.

Section Iteration.
Context (h : Z) (l : list Z) (body : Z -> P unit).
(** The body leaves the links of the list alone. *)
Hypothesis body_ok : forall m i, ring m h l -> i ∈ l -> exists m', body i m = Some (tt, m') /\ ring m' h l.

Lemma for_each_visits m l1 l2 i fuel :
  l = l1 ++ l2 -> ring m h l -> i = default h (head l2) -> (length l2 < fuel)%nat ->
  for_each_from fuel h i body m = run_all body l2 m.
Proof.
  revert m l1 i fuel. induction l2 as [|a l2 IH]; intros m l1 i fuel El Hr -> Hf; (destruct fuel as [|fuel]; [simpl in Hf; lia|]); simpl.
  - by rewrite Z.eqb_refl.
  - destruct (Z.eqb_spec a h) as [->|Hne].
    { destruct (ring_head_notin m h l Hr). rewrite El. apply elem_of_app. right. left. }
    destruct (body_ok m a Hr) as (m' & E & Hr'); [rewrite El; apply elem_of_app; right; left|].
    unfold bind at 1 3. rewrite E. rewrite El in Hr'. unfold bind, get_next. rewrite (list_next_cut m' h l1 a l2 Hr').
    apply (IH m' (l1 ++ [a])); [by rewrite <- app_assoc|by rewrite El|done|simpl in Hf; lia].
Qed.
End Iteration.

(** Draining a list with the safe loop. *)
Lemma drain_safe m A h l i nxt fuel :
  stands m A -> A !! h = Some l -> i = default h (head l) -> (l <> [] -> nxt = default h (head (tail l))) ->
  (length l < fuel)%nat ->
  exists m', for_each_safe_from fuel h i nxt list_del m = Some (tt, m') /\ stands m' (<[h := []]> A).
Proof.
  revert m A i nxt fuel. induction l as [|a l IH]; intros m A i nxt fuel Hs Hl -> Hn Hf; (destruct fuel as [|fuel]; [simpl in Hf; lia|]); simpl.
  - rewrite Z.eqb_refl. exists m. by rewrite insert_id.
  - pose proof (ring_head_notin m h _ (st_ring m A Hs h _ Hl)) as Hh.
    destruct (Z.eqb_spec a h) as [->|Hne]; [destruct Hh; left|].
    destruct (list_del_ok m A h [] a l Hs Hl) as (m1 & E1 & Hs1 & _). unfold bind at 1. rewrite E1.
    rewrite (Hn ltac:(done)). simpl. assert (<[h := l]> A !! h = Some l) as Hl1 by apply lookup_insert_eq.
    assert (default h (head l) ∈ h :: l) as Hin by (destruct l; simpl; [left|right; left]).
    destruct (stands_node m1 _ h l _ Hs1 Hl1 Hin) as [[n Hnn] _]. unfold bind, get_next. rewrite Hnn.
    destruct (IH m1 _ (default h (head l)) n fuel Hs1 Hl1 eq_refl) as (m2 & E2 & Hs2); [|simpl in Hf; lia|].
    + destruct l as [|b l]; [done|]. intros _. pose proof (list_next_cut m1 h [] b l (st_ring m1 _ Hs1 h _ Hl1)).
      simpl in *. congruence.
    + exists m2. split; [done|]. by rewrite insert_insert_eq in Hs2.
Qed.

(** ** The consistency check *)

Lemma check_complete m h l1 p l2 fuel n :
  ring m h (l1 ++ l2) -> last (h :: l1) = Some p -> n = default h (head l2) -> (length l2 < fuel)%nat ->
  check_from fuel h p n m = Some (true, m).
Proof.
  revert l1 p fuel n. induction l2 as [|a l2 IH]; intros l1 p fuel n Hr Hp -> Hf; (destruct fuel as [|fuel]; [simpl in Hf; lia|]); simpl;
    destruct (ring_cut m h l1 _ Hr) as (xs & p' & x & ys & E1 & E2 & Hx & Hpv); injection E2 as <- _;
    rewrite E1, last_snoc in Hp; injection Hp as ->.
  - rewrite Z.eqb_refl. ptr. by rewrite Z.eqb_refl.
  - pose proof (ring_head_notin m h _ Hr) as Hh. destruct (Z.eqb_spec a h) as [->|]; [destruct Hh; apply elem_of_app; right; left|].
    pose proof (list_next_cut m h l1 a l2 Hr). ptr. rewrite Z.eqb_refl. ptr.
    apply (IH (l1 ++ [a])); [by rewrite <- app_assoc|by rewrite app_comm_cons, last_snoc|done|simpl in Hf; lia].
Qed.

Lemma check_sound fuel m h p n m' :
  check_from fuel h p n m = Some (true, m') -> next m !! p = Some n ->
  exists l, path m (p :: l ++ [h]) /\ h ∉ l.
Proof.
  revert p n. induction fuel as [|fuel IH]; intros p n; simpl; [done|]. destruct (Z.eqb_spec n h) as [->|Hne].
  - unfold bind, get_prev, ret. destruct (prev m !! h) as [x|] eqn:Ex; [|done]. intros [= Hxp _] Hn.
    apply Z.eqb_eq in Hxp as ->. exists []. split; [done|apply not_elem_of_nil].
  - unfold bind at 1, get_prev. destruct (prev m !! n) as [x|] eqn:Ex; [|done]. destruct (Z.eqb_spec x p) as [->|]; [|done].
    unfold bind, get_next. destruct (next m !! n) as [y|] eqn:Ey; [|done]. intros Hc Hn.
    destruct (IH n y Hc Ey) as (l & Hp & Hh). exists (n :: l). split; [apply (path_cons m p n (l ++ [h])); done|].
    intros [->|?]%elem_of_cons; done.
Qed.

(** The nodes up to the head are determined by the [next] fields. *)
Lemma path_det m h a r1 r2 :
  path m (a :: r1 ++ [h]) -> path m (a :: r2 ++ [h]) -> h ∉ r1 -> h ∉ r2 -> r1 = r2.
Proof.
  revert a r2. induction r1 as [|b r1 IH]; intros a [|c r2]; cbn [app]; rewrite !path_cons; [done| | |].
  - intros (H1 & _) (H2 & _) _ []. rewrite H1 in H2. injection H2 as ->. left.
  - intros (H1 & _) (H2 & _) [] _. rewrite H1 in H2. injection H2 as ->. left.
  - intros (H1 & _ & P1) (H2 & _ & P2) N1 N2. rewrite H1 in H2. injection H2 as <-.
    f_equal. apply (IH b); [done..| |]; intros ?; [apply N1|apply N2]; by right.
Qed.

Lemma path_nodup m h l : path m (h :: l ++ [h]) -> h ∉ l -> NoDup (h :: l).
Proof.
  intros Hp Hh. apply NoDup_cons. split; [done|].
  assert (path m (l ++ [h])) as Hl by (destruct l; [done|apply Hp]). clear Hp. induction l as [|a l IH]; [constructor|].
  apply not_elem_of_cons in Hh as [Hne Hh]. apply NoDup_cons. split.
  - intros [l1 [l2 ->]]%list_elem_of_split. assert (l1 ++ a :: l2 = l2) as E.
    { apply (path_det m h a); [done| |done|set_solver]. apply (path_app m (a :: l1) a (l2 ++ [h])).
      cbn [app] in Hl |- *. by rewrite <- app_assoc in Hl. }
    apply (f_equal length) in E. rewrite length_app in E. simpl in E. lia.
  - apply IH; [done|]. destruct l; [done|apply Hl].
Qed.

(** ** The operations on lists of nodes *)

Inductive op :=
| Init (h : Z) | Add (h n : Z) | AddTail (h n : Z) | AddAfter (p n : Z) | AddBefore (x n : Z)
| Del (n : Z) | DelFrom (h n : Z) | Pop (h : Z) | Top (h : Z) | Tail (h : Z) | Empty (h : Z) | Next (h i : Z) | Prev (h i : Z)
| Append (to from : Z) | Prepend (to from : Z) | Drain (h : Z) | Verify (h : Z).
Inductive answer := Done | Node (a : Z) | Bool (b : bool).

(** No list has more nodes than there are addresses, so this is enough for the loops. *)
Definition fuel : nat := S (size N).

Definition run_op (o : op) : P answer :=
  match o with
  | Init h => list_head_init h ;; ret Done
  | Add h n => list_add h n ;; ret Done
  | AddTail h n => list_add_tail h n ;; ret Done
  | AddAfter p n => list_add_after p n ;; ret Done
  | AddBefore x n => list_add_before x n ;; ret Done
  | Del n => list_del n ;; ret Done
  | DelFrom h n => list_del_from h n ;; ret Done
  | Pop h => do a <- list_pop h; ret (Node a)
  | Top h => do a <- list_top h; ret (Node a)
  | Tail h => do a <- list_tail h; ret (Node a)
  | Empty h => do b <- list_empty h; ret (Bool b)
  | Next h i => do a <- list_next h i; ret (Node a)
  | Prev h i => do a <- list_prev h i; ret (Node a)
  | Append to from => list_append_list to from ;; ret Done
  | Prepend to from => list_prepend_list to from ;; ret Done
  | Drain h => list_for_each_safe fuel h list_del ;; ret Done
  | Verify h => do b <- list_check fuel h; ret (Bool b)
  end.

(** The same operations on a map from heads to sequences of nodes; they are
    defined for nodes that are on no list and for heads that are. *)
Inductive spec_op (A : gmap Z (list Z)) : op -> answer -> gmap Z (list Z) -> Prop :=
| sp_init h : unlinked A h -> spec_op A (Init h) Done (<[h := []]> A)
| sp_add h n l : A !! h = Some l -> unlinked A n -> spec_op A (Add h n) Done (<[h := n :: l]> A)
| sp_add_tail h n l : A !! h = Some l -> unlinked A n -> spec_op A (AddTail h n) Done (<[h := l ++ [n]]> A)
| sp_add_after h p n l1 l2 : A !! h = Some (l1 ++ l2) -> last (h :: l1) = Some p -> unlinked A n ->
    spec_op A (AddAfter p n) Done (<[h := l1 ++ n :: l2]> A)
| sp_add_before h x n l1 l2 : A !! h = Some (l1 ++ l2) -> head (l2 ++ [h]) = Some x -> unlinked A n ->
    spec_op A (AddBefore x n) Done (<[h := l1 ++ n :: l2]> A)
| sp_del h l1 n l2 : A !! h = Some (l1 ++ n :: l2) -> spec_op A (Del n) Done (<[h := l1 ++ l2]> A)
| sp_del_from h l1 n l2 : A !! h = Some (l1 ++ n :: l2) -> spec_op A (DelFrom h n) Done (<[h := l1 ++ l2]> A)
| sp_pop_empty h : A !! h = Some [] -> spec_op A (Pop h) (Node NULL) A
| sp_pop h n l : A !! h = Some (n :: l) -> spec_op A (Pop h) (Node n) (<[h := l]> A)
| sp_top h l : A !! h = Some l -> spec_op A (Top h) (Node (default NULL (head l))) A
| sp_tail h l : A !! h = Some l -> spec_op A (Tail h) (Node (default NULL (last l))) A
| sp_empty h l : A !! h = Some l -> spec_op A (Empty h) (Bool (bool_decide (l = []))) A
| sp_next h l1 i l2 : A !! h = Some (l1 ++ i :: l2) -> spec_op A (Next h i) (Node (default NULL (head l2))) A
| sp_prev h l1 i l2 : A !! h = Some (l1 ++ i :: l2) -> spec_op A (Prev h i) (Node (default NULL (last l1))) A
| sp_append to from lt lf : A !! to = Some lt -> A !! from = Some lf -> to <> from ->
    spec_op A (Append to from) Done (<[from := []]> (<[to := lt ++ lf]> A))
| sp_prepend to from lt lf : A !! to = Some lt -> A !! from = Some lf -> to <> from ->
    spec_op A (Prepend to from) Done (<[from := []]> (<[to := lf ++ lt]> A))
| sp_drain h l : A !! h = Some l -> spec_op A (Drain h) Done (<[h := []]> A)
| sp_check h l : A !! h = Some l -> spec_op A (Verify h) (Bool true) A.

Fixpoint run_ops (os : list op) : P (list answer) :=
  match os with [] => ret [] | o :: os => do a <- run_op o; do l <- run_ops os; ret (a :: l) end.
Inductive spec_ops : gmap Z (list Z) -> list op -> list answer -> gmap Z (list Z) -> Prop :=
| sps_nil A : spec_ops A [] [] A
| sps_cons A A' A'' o a os l : spec_op A o a A' -> spec_ops A' os l A'' -> spec_ops A (o :: os) (a :: l) A''.

Lemma list_length_fuel m A h l : stands m A -> A !! h = Some l -> (length l < fuel)%nat.
Proof.
  intros Hs Hl. destruct (st_ring m A Hs h l Hl) as [_ Hd]. apply NoDup_cons in Hd as [_ Hd]. unfold fuel.
  rewrite <- (size_list_to_set (C := gset Z) l Hd). apply Nat.lt_succ_r, subseteq_size.
  intros a Ha%elem_of_list_to_set. apply (st_dom m A Hs a). apply (stands_node m A h l); [done..|by right].
Qed.

Lemma list_pop_ok m A h n l :
  stands m A -> A !! h = Some (n :: l) -> exists m', list_pop h m = Some (n, m') /\ stands m' (<[h := l]> A).
Proof.
  intros Hs Hl. pose proof (st_ring m A Hs h _ Hl) as Hr. destruct (list_del_ok m A h [] n l Hs Hl) as (m' & E & Hs' & _).
  exists m'. unfold list_pop. unfold bind at 1. rewrite (list_empty_ok m h _ Hr), bool_decide_eq_false_2 by done.
  pose proof (ring_first m h _ Hr) as Hf. simpl in Hf. unfold bind, get_next. by rewrite Hf, E.
Qed.

Lemma list_drain_ok m A h l :
  stands m A -> A !! h = Some l -> exists m', list_for_each_safe fuel h list_del m = Some (tt, m') /\ stands m' (<[h := []]> A).
Proof.
  intros Hs Hl. pose proof (st_ring m A Hs h _ Hl) as Hr. pose proof (list_length_fuel m A h l Hs Hl).
  assert (default h (head l) ∈ h :: l) as Hin by (destruct l; simpl; [left|right; left]).
  destruct (stands_node m A h l _ Hs Hl Hin) as [[n Hn] _].
  destruct (drain_safe m A h l (default h (head l)) n fuel) as (m' & E & Hs'); [done..| |done|].
  - destruct l as [|b l]; [done|]. intros _. pose proof (list_next_cut m h [] b l Hr). simpl in *. congruence.
  - exists m'. split; [|done]. unfold list_for_each_safe, bind, get_next. by rewrite (ring_first m h l Hr), Hn.
Qed.

Lemma bind_ok {B C} (p : P B) (f : B -> P C) m x m' y : p m = Some (x, m') -> f x m' = y -> bind p f m = y.
Proof. intros E <-. unfold bind. by rewrite E. Qed.

Lemma run_op_ok m A o a A' : stands m A -> spec_op A o a A' -> exists m', run_op o m = Some (a, m') /\ stands m' A'.
Proof.
  intros Hs Ho.
  assert (forall (p : P unit) B, (exists m', p m = Some (tt, m') /\ stands m' B) ->
    exists m', (p ;; ret Done) m = Some (Done, m') /\ stands m' B) as Hd.
  { intros p B (m' & E & Hm). exists m'. split; [by eapply bind_ok|done]. }
  assert (forall h l, A !! h = Some l -> ring m h l) as Hr by apply Hs.
  destruct Ho; simpl; try apply Hd.
  - by apply list_head_init_ok.
  - by apply (list_add_ok h n l m A).
  - apply (list_add_tail_ok h n l m A); [done|by rewrite app_nil_r|done].
  - by apply (list_add_after_ok h n l1 l2 p).
  - by apply (list_add_before_ok h n l1 l2 x).
  - destruct (list_del_ok m A h l1 n l2) as (m' & ? & ? & _); eauto.
  - destruct (list_del_ok m A h l1 n l2) as (m' & ? & ? & _); eauto.
  - exists m. split; [|done]. eapply bind_ok; [|done]. unfold list_pop, bind. by rewrite (list_empty_ok m h []) by auto.
  - destruct (list_pop_ok m A h n l Hs) as (m' & E & Hs'); [done|]. exists m'. split; [by eapply bind_ok|done].
  - exists m. split; [|done]. eapply bind_ok; [by apply list_top_ok, Hr|done].
  - exists m. split; [|done]. eapply bind_ok; [by apply list_tail_ok, Hr|done].
  - exists m. split; [|done]. eapply bind_ok; [by apply list_empty_ok, Hr|done].
  - exists m. split; [|done]. eapply bind_ok; [by eapply list_next_ok, Hr|done].
  - exists m. split; [|done]. eapply bind_ok; [by eapply list_prev_ok, Hr|done].
  - by apply list_append_list_ok.
  - by apply list_prepend_list_ok.
  - by apply (list_drain_ok m A h l).
  - exists m. split; [|done]. eapply bind_ok; [|done]. unfold list_check, list_check_node, get_next, bind.
    rewrite (ring_first m h l) by auto. apply (check_complete m h [] h l); eauto using list_length_fuel.
Qed.

Lemma run_ops_ok m A os l A' : stands m A -> spec_ops A os l A' -> exists m', run_ops os m = Some (l, m') /\ stands m' A'.
Proof.
  intros Hs Ho. revert m Hs. induction Ho as [A|A A1 A2 o a os l Ho _ IH]; intros m Hs; [by exists m|].
  destruct (run_op_ok m A o a A1 Hs Ho) as (m1 & E1 & Hs1). destruct (IH m1 Hs1) as (m2 & E2 & Hs2).
  exists m2. split; [|done]. simpl. eapply bind_ok; [done|]. by eapply bind_ok.
Qed.

(** A memory whose fields are arbitrary and that holds no list yet. *)
Definition fresh (m : mem) : Prop := dom (next m) = N /\ dom (prev m) = N.
Lemma stands_fresh m : fresh m -> stands m ∅.
Proof. intros [H1 H2]. split; [done..|]. intros a. by rewrite <- !elem_of_dom, H1, H2. Qed.
End Memory.

(** C29: the pointer operations of [list.h] implement sequences: starting from
    any memory, every series of calls that respects the interface (a node is
    added when it is on no list, heads are initialised) runs without touching
    an address that holds no node, returns what the operations on sequences
    return, and leaves circles that hold those sequences.  This covers adding at
    both ends and in the middle, removal, moving whole lists, draining with the
    safe loop and the consistency check. *)
Theorem list_refines_sequences N m os l A :
  fresh N m -> spec_ops N ∅ os l A -> exists m', run_ops N os m = Some (l, m') /\ stands N m' A.
Proof. intros Hm. apply run_ops_ok. by apply stands_fresh. Qed.

(** The consistency check is exact: it reports no corruption, for some
    number of steps, exactly when the node is the head of a well-formed circle. *)
Theorem list_check_exact m h :
  (exists fuel m', list_check fuel h m = Some (true, m')) <-> exists l, ring m h l.
Proof.
  split.
  - intros (fuel & m' & H). unfold list_check, list_check_node, bind, get_next in H.
    destruct (next m !! h) as [n|] eqn:En; [|done]. destruct (check_sound fuel m h h n m' H En) as (l & Hp & Hh).
    exists l. split; [done|by apply (path_nodup m)].
  - intros [l Hr]. exists (S (length l)), m. unfold list_check, list_check_node, bind, get_next.
    rewrite (ring_first m h l Hr). apply (check_complete m h [] h l); auto.
Qed.

Definition demo_nodes : gset Z := list_to_set [1; 2; 3; 4; 5; 6].
Definition demo_mem : mem := let f := gset_to_gmap 0 demo_nodes in Mem f f.
Definition demo_ops : list op :=
  [Init 1; Init 2; Add 1 3; AddTail 1 4; AddAfter 3 5; AddTail 2 6; Append 1 2; Del 5; Prev 1 6; Verify 1; Pop 1; Drain 1; Empty 1].

Lemma unlinked_dec N A a :
  bool_decide (a ∈ N /\ map_Forall (fun h l => a ∉ h :: l) A) = true -> unlinked N A a.
Proof. by intros ?%bool_decide_eq_true. Qed.

Lemma list_refines_sequences_witness :
  exists m', run_ops demo_nodes demo_ops demo_mem =
    Some ([Done; Done; Done; Done; Done; Done; Done; Done; Node 4; Bool true; Node 3; Done; Bool true], m').
Proof.
  edestruct (list_refines_sequences demo_nodes demo_mem demo_ops) as (m' & E & _);
    [split; vm_compute; reflexivity| |exists m'; exact E].
  apply sps_cons with (A' := <[1 := []]> ∅); [apply sp_init, unlinked_dec; vm_compute; reflexivity|].
  apply sps_cons with (A' := <[2 := []]> (<[1 := []]> ∅)); [apply sp_init, unlinked_dec; vm_compute; reflexivity|].
  eapply sps_cons; [apply sp_add with (l := []); [vm_compute; reflexivity|apply unlinked_dec; vm_compute; reflexivity]|].
  eapply sps_cons; [apply sp_add_tail with (l := [3]); [vm_compute; reflexivity|apply unlinked_dec; vm_compute; reflexivity]|].
  eapply sps_cons; [apply sp_add_after with (h := 1) (l1 := [3]) (l2 := [4]); [vm_compute; reflexivity..|apply unlinked_dec; vm_compute; reflexivity]|].
  eapply sps_cons; [apply sp_add_tail with (l := []); [vm_compute; reflexivity|apply unlinked_dec; vm_compute; reflexivity]|].
  eapply sps_cons; [apply sp_append with (lt := [3; 5; 4]) (lf := [6]); [vm_compute; reflexivity..|discriminate]|].
  eapply sps_cons; [apply sp_del with (h := 1) (l1 := [3]) (l2 := [4; 6]); vm_compute; reflexivity|].
  eapply sps_cons; [apply sp_prev with (l1 := [3; 4]) (l2 := []); vm_compute; reflexivity|].
  eapply sps_cons; [apply sp_check with (l := [3; 4; 6]); vm_compute; reflexivity|].
  eapply sps_cons; [apply sp_pop with (n := 3) (l := [4; 6]); vm_compute; reflexivity|].
  eapply sps_cons; [apply sp_drain with (l := [4; 6]); vm_compute; reflexivity|].
  eapply sps_cons; [apply sp_empty with (l := []); vm_compute; reflexivity|apply sps_nil].
Defined.
