(* ===== verification/RcuList.v ===== *)
(** * rculist: lists that are read without a lock

    Models [inc/runtime/rculist.h] and the lists of [inc/base/list.h] it is
    copied from ([hlist]) on a memory of heads and nodes: a node points to the
    next one and back to the pointer that points to it, which is a field of the
    head or of another node.  The theorems are about the writers, which hold a
    lock, and about a reader that walks the list while they run. *)

From S2P Require Import Prelude.

(** A pointer field: the head of list [h], or the [next] field of node [n]. *)
Inductive slot := HeadOf (h : Z) | NextOf (n : Z).
#[global] Instance slot_eq_dec : EqDecision slot.
Proof. solve_decision. Defined.

Record hmem := HMem { heads : gmap Z Z; nexts : gmap Z Z; pprev : gmap Z slot }.
#[global] Instance eta_hmem : Settable hmem := fun r => HMem (heads r) (nexts r) (pprev r).

Definition load (m : hmem) (s : slot) : option Z :=
  match s with HeadOf h => heads m !! h | NextOf n => nexts m !! n end.
(** Writing an address that is no such field is a fault. *)
Definition store (s : slot) (v : Z) (m : hmem) : option hmem :=
  match load m s with
  | None => None
  | Some _ => Some (match s with
                    | HeadOf h => m <| heads := <[h := v]> (heads m) |>
                    | NextOf n => m <| nexts := <[n := v]> (nexts m) |>
                    end)
  end.
Definition set_pprev (n : Z) (s : slot) (m : hmem) : option hmem :=
  match pprev m !! n with
  | None => None
  | Some _ => Some (m <| pprev := <[n := s]> (pprev m) |>)
  end.

Definition rcu_hlist_init_head (h : Z) (m : hmem) : option hmem := store (HeadOf h) 0 m.

(** The stores of a writer, in the order of the program: [RCU_INIT_POINTER], a plain store
    to [pprev], and [rcu_assign_pointer].  The values are read at the start: the writer has
    the lock. *)
Inductive wstore := InitPtr (s : slot) (v : Z) | SetPprev (n : Z) (s : slot) | AssignPtr (s : slot) (v : Z).
Definition do_store (w : wstore) (m : hmem) : option hmem :=
  match w with InitPtr s v | AssignPtr s v => store s v m | SetPprev n s => set_pprev n s m end.
Fixpoint run_stores (ws : list wstore) (m : hmem) : option hmem := match ws with [] => Some m | w :: ws => m ← do_store w m; run_stores ws m end.
Definition fix_pprev (n : Z) (s : slot) : list wstore := if n =? 0 then [] else [SetPprev n s].

Definition add_head_stores (h n : Z) (m : hmem) : option (list wstore) :=
  head ← load m (HeadOf h);
  Some ([InitPtr (NextOf n) head; SetPprev n (HeadOf h); AssignPtr (HeadOf h) n] ++ fix_pprev head (NextOf n)).
Definition rcu_hlist_add_head (h n : Z) (m : hmem) : option hmem := ws ← add_head_stores h n m; run_stores ws m.

Definition del_stores (n : Z) (m : hmem) : option (list wstore) :=
  s ← pprev m !! n; nxt ← load m (NextOf n); Some (AssignPtr s nxt :: fix_pprev nxt s).
Definition rcu_hlist_del (n : Z) (m : hmem) : option hmem := ws ← del_stores n m; run_stores ws m.

Definition rcu_hlist_empty (h : Z) (m : hmem) : option bool := first ← load m (HeadOf h); Some (first =? 0).

(** The loop of [rcu_hlist_for_each], collecting the nodes it visits. *)
Fixpoint hlist_for_each_from (fuel : nat) (pos : Z) (m : hmem) : option (list Z) :=
  match fuel with
  | O => None
  | S fuel =>
      if pos =? 0 then Some []
      else nxt ← load m (NextOf pos); l ← hlist_for_each_from fuel nxt m; Some (pos :: l)
  end.
Definition rcu_hlist_for_each (fuel : nat) (h : Z) (m : hmem) : option (list Z) :=
  first ← load m (HeadOf h); hlist_for_each_from fuel first m.

Definition hlist_del_head (h : Z) (m : hmem) : option hmem :=
  first ← load m (HeadOf h); if first =? 0 then Some m else rcu_hlist_del first m.

Lemma run_fix n s m : run_stores (fix_pprev n s) m = if n =? 0 then Some m else set_pprev n s m.
Proof. unfold fix_pprev. destruct (n =? 0); [done|]. simpl. by destruct (set_pprev n s m). Qed.
Lemma add_head_unfold h n m : rcu_hlist_add_head h n m =
  (head ← load m (HeadOf h); m ← store (NextOf n) head m; m ← set_pprev n (HeadOf h) m; m ← store (HeadOf h) n m; if head =? 0 then Some m else set_pprev head (NextOf n) m).
Proof.
  unfold rcu_hlist_add_head, add_head_stores. destruct (load m (HeadOf h)) as [x|]; [|done]. cbn [mbind option_bind app run_stores do_store].
  destruct (store (NextOf n) x m) as [m1|]; [|done]. cbn [mbind option_bind]. destruct (set_pprev n (HeadOf h) m1) as [m2|]; [|done]. cbn [mbind option_bind].
  destruct (store (HeadOf h) n m2) as [m3|]; [|done]. cbn [mbind option_bind]. apply run_fix.
Qed.
Lemma del_unfold n m : rcu_hlist_del n m = (s ← pprev m !! n; nxt ← load m (NextOf n); m ← store s nxt m; if nxt =? 0 then Some m else set_pprev nxt s m).
Proof.
  unfold rcu_hlist_del, del_stores. destruct (pprev m !! n) as [s|]; [|done]. cbn [mbind option_bind]. destruct (load m (NextOf n)) as [x|]; [|done]. cbn [mbind option_bind run_stores do_store].
  destruct (store s x m) as [m1|]; [|done]. cbn [mbind option_bind]. apply run_fix.
Qed.

(** ** Chains of nodes *)

(** The pointer [s] leads to the nodes [l]. *)
Fixpoint chain (m : hmem) (s : slot) (l : list Z) : Prop :=
  match l with
  | [] => load m s = Some 0
  | a :: r => load m s = Some a /\ a <> 0 /\ pprev m !! a = Some s /\ chain m (NextOf a) r
  end.

Lemma chain_load m s l : chain m s l -> load m s = Some (default 0 (head l)).
Proof. destruct l; simpl; tauto. Qed.

(** The pointer before the last part of a chain. *)
Definition slot_after (s : slot) (l : list Z) : slot := match last l with Some a => NextOf a | None => s end.
Lemma slot_after_cons s a l : slot_after s (a :: l) = slot_after (NextOf a) l.
Proof. unfold slot_after. rewrite last_cons. by destruct (last l). Qed.

Lemma hchain_app m s l1 l2 : chain m s (l1 ++ l2) -> chain m (slot_after s l1) l2.
Proof.
  revert s. induction l1 as [|a l1 IH]; intros s; [done|]. rewrite slot_after_cons. simpl. intros (_ & _ & _ & H). by apply IH.
Qed.

(** A chain only depends on its own pointers. *)
Lemma chain_frame m m' s l :
  chain m s l -> load m' s = load m s ->
  (forall a, a ∈ l -> nexts m' !! a = nexts m !! a /\ pprev m' !! a = pprev m !! a) -> chain m' s l.
Proof.
  revert s. induction l as [|a l IH]; simpl; intros s Hc Hs H; [by rewrite Hs|].
  destruct Hc as (H1 & H2 & H3 & H4). destruct (H a ltac:(left)) as [E1 E2]. rewrite Hs, E2. split_and!; try done.
  apply IH; [done|done|]. intros b Hb. apply H. by right.
Qed.

(** Changing the pointer in the middle of a chain. *)
Lemma chain_replace m m' s l1 l2 l2' :
  chain m s (l1 ++ l2) -> NoDup l1 -> (l1 <> [] -> load m' s = load m s) ->
  (forall a, a ∈ l1 -> pprev m' !! a = pprev m !! a) ->
  (forall a, a ∈ l1 -> NextOf a <> slot_after s l1 -> nexts m' !! a = nexts m !! a) ->
  chain m' (slot_after s l1) l2' -> chain m' s (l1 ++ l2').
Proof.
  revert s. induction l1 as [|a l1 IH]; intros s Hc Hd Hs Hp Hn Hc'; [done|].
  rewrite slot_after_cons in Hc', Hn. destruct Hc as (H1 & H2 & H3 & H4). apply NoDup_cons in Hd as [Ha Hd].
  simpl. rewrite Hs, Hp by (done || left). split_and!; try done. apply IH; try done.
  - intros Hl1. simpl. apply Hn; [left|]. unfold slot_after. destruct (last l1) as [b|] eqn:E; [|by apply last_None in E].
    intros [= ->]. apply Ha. by apply last_Some_elem_of.
  - intros b Hb. apply Hp. by right.
  - intros b Hb. apply Hn. by right.
Qed.

(** ** Writers *)

Section Memory.
(** The addresses that hold a node. *)
Context (N : gset Z).

(** Memory [m] holds the lists [A], by the address of the head. *)
Record hstands (m : hmem) (A : gmap Z (list Z)) : Prop := {
  hs_chain : forall h l, A !! h = Some l -> chain m (HeadOf h) l /\ NoDup l;
  hs_disj : forall h1 h2 l1 l2 a, A !! h1 = Some l1 -> A !! h2 = Some l2 -> a ∈ l1 -> a ∈ l2 -> h1 = h2;
  hs_dom : forall a, (is_Some (nexts m !! a) <-> a ∈ N) /\ (is_Some (pprev m !! a) <-> a ∈ N)
}.
(** A node that is on no list. *)
Definition hfree (A : gmap Z (list Z)) (n : Z) : Prop := n ∈ N /\ n <> 0 /\ forall h l, A !! h = Some l -> n ∉ l.

Lemma hs_fields m A a : hstands m A -> a ∈ N -> is_Some (nexts m !! a) /\ is_Some (pprev m !! a).
Proof. intros Hs Ha. destruct (hs_dom m A Hs a) as [[_ H1] [_ H2]]. auto. Qed.

Lemma chain_node m s l a : chain m s l -> a ∈ l -> is_Some (pprev m !! a) /\ a <> 0.
Proof.
  revert s. induction l as [|b l IH]; intros s Hc Ha; [by apply not_elem_of_nil in Ha|].
  destruct Hc as (_ & H2 & H3 & H4). apply elem_of_cons in Ha as [->|Ha]; [eauto|by eapply IH].
Qed.

(** Writers change one list: its pointers and its nodes. *)
Lemma hstands_upd m m' A h l l' :
  hstands m A -> A !! h = Some l -> chain m' (HeadOf h) l' -> NoDup l' ->
  (forall g, g <> h -> heads m' !! g = heads m !! g) ->
  (forall a, nexts m' !! a <> nexts m !! a \/ pprev m' !! a <> pprev m !! a \/ a ∈ l' -> a ∈ l \/ hfree A a) ->
  (forall a, (is_Some (nexts m' !! a) <-> a ∈ N) /\ (is_Some (pprev m' !! a) <-> a ∈ N)) -> hstands m' (<[h := l']> A).
Proof.
  intros Hs Hl Hc Hd Hh Hch Hdom. split; [| |done].
  - intros g k [[<- <-]|[Hne Hg]]%lookup_insert_Some; [done|]. destruct (hs_chain m A Hs g k Hg) as [Hk Hkd]. split; [|done].
    apply (chain_frame m); [done|by apply Hh|]. intros a Ha.
    assert (~ (a ∈ l \/ hfree A a)) as Hn.
    { intros [Hin|(_ & _ & Hf)]; [|by apply (Hf g k)]. by destruct Hne; apply (hs_disj m A Hs h g l k a). }
    split; [destruct (decide (nexts m' !! a = nexts m !! a)) as [|Hd']|destruct (decide (pprev m' !! a = pprev m !! a)) as [|Hd']];
      try done; destruct Hn; apply Hch; tauto.
  - assert (forall g k a, A !! g = Some k -> g <> h -> a ∈ l' -> a ∉ k) as Hout.
    { intros g k a Hg Hne Ha Hk. destruct (Hch a) as [Hin|(_ & _ & Hf)]; [tauto| |by apply (Hf g k)].
      by destruct Hne; apply (hs_disj m A Hs g h k l a). }
    intros h1 h2 l1 l2 a [[<- <-]|[N1 H1]]%lookup_insert_Some [[<- <-]|[N2 H2]]%lookup_insert_Some Ha1 Ha2; try done.
    + by destruct (Hout h2 l2 a).
    + by destruct (Hout h1 l1 a).
    + by apply (hs_disj m A Hs h1 h2 l1 l2 a).
Qed.

Lemma lookup_insert_some {V} (t : gmap Z V) k v a : is_Some (t !! k) -> is_Some (<[k := v]> t !! a) <-> is_Some (t !! a).
Proof. intros H. destruct (decide (k = a)) as [->|]; [rewrite lookup_insert_eq|rewrite lookup_insert_ne]; naive_solver. Qed.

Lemma add_head_ok m A h n l :
  hstands m A -> A !! h = Some l -> hfree A n ->
  exists m', rcu_hlist_add_head h n m = Some m' /\ hstands m' (<[h := n :: l]> A) /\
    forall a, a <> n -> nexts m' !! a = nexts m !! a.
Proof.
  intros Hs Hl (Hn & Hn0 & Hf). destruct (hs_chain m A Hs h l Hl) as [Hc Hd]. pose proof (chain_load _ _ _ Hc) as Hh. simpl in Hh.
  destruct (hs_fields m A n Hs Hn) as [[v Hv] [w Hw]]. pose proof (Hf h l Hl) as Hnl.
  set (m1 := HMem (<[h := n]> (heads m)) (<[n := default 0 (head l)]> (nexts m)) (<[n := HeadOf h]> (pprev m))).
  assert (exists m', rcu_hlist_add_head h n m = Some m' /\ heads m' = heads m1 /\ nexts m' = nexts m1 /\
     pprev m' = match l with [] => pprev m1 | a :: _ => <[a := NextOf n]> (pprev m1) end) as (m' & E & E1 & E2 & E3).
  { rewrite add_head_unfold. unfold store, set_pprev, load. simpl. rewrite Hh. simpl. rewrite Hv. simpl. rewrite Hw. simpl. rewrite Hh. simpl.
    destruct l as [|a l]; simpl in *; [by eexists|]. destruct Hc as (_ & Ha & Hp & _).
    destruct (Z.eqb_spec a 0) as [|_]; [done|]. rewrite lookup_insert_ne by set_solver. rewrite Hp. by eexists. }
  exists m'. split; [done|]. split; [|intros a Ha; rewrite E2; simpl; by rewrite lookup_insert_ne].
  assert (forall a, is_Some (<[n := HeadOf h]> (pprev m) !! a) <-> is_Some (pprev m !! a)) as Hp1 by (intros; apply lookup_insert_some; eauto).
  apply (hstands_upd m m' A h l); try done.
  - split_and!; [simpl; rewrite E1; apply lookup_insert_eq|done| |].
    + rewrite E3. destruct l as [|a l]; simpl; [by rewrite lookup_insert_eq|].
      rewrite lookup_insert_ne by set_solver. by rewrite lookup_insert_eq.
    + destruct l as [|a l]; simpl; rewrite E2; simpl; rewrite lookup_insert_eq; [done|]. destruct Hc as (_ & Ha & Hp & Hc).
      rewrite E3. split_and!; [done|done|apply lookup_insert_eq|]. apply NoDup_cons in Hd as [Hal Hd].
      apply (chain_frame m); [done|simpl; rewrite E2; simpl; rewrite lookup_insert_ne by set_solver; done|].
      intros b Hb. rewrite E2, E3. simpl. rewrite !lookup_insert_ne by set_solver. done.
  - apply NoDup_cons. done.
  - intros g Hg. rewrite E1. simpl. by rewrite lookup_insert_ne.
  - intros a Ha. destruct (decide (a = n)) as [->|Han]; [by right|]. left. rewrite E2, E3 in Ha. simpl in Ha.
    rewrite lookup_insert_ne in Ha by done. destruct l as [|b l]; simpl in Ha; [rewrite lookup_insert_ne in Ha by done; set_solver|].
    destruct (decide (a = b)) as [->|Hb]; [left|]. rewrite !lookup_insert_ne in Ha by done. set_solver.
  - intros a. rewrite E2, E3. simpl. rewrite lookup_insert_some by eauto. split; [apply Hs|].
    destruct l as [|b l]; [rewrite Hp1; apply Hs|]. destruct (chain_node _ _ _ b Hc ltac:(left)) as [Hb _].
    rewrite lookup_insert_some by by apply Hp1. rewrite Hp1. apply Hs.
Qed.

Lemma last_split (l : list Z) a : last l = Some a -> exists l0, l = l0 ++ [a].
Proof.
  intros H. destruct (exists_last (l := l)) as (l0 & b & E); [by intros ->|]. exists l0.
  rewrite E, last_snoc in H. by injection H as ->.
Qed.

(** Removal changes the pointer to the node, and keeps the node's own. *)
Lemma del_ok m A h l1 n l2 :
  hstands m A -> A !! h = Some (l1 ++ n :: l2) ->
  exists m', rcu_hlist_del n m = Some m' /\ hstands m' (<[h := l1 ++ l2]> A) /\
    forall a, nexts m' !! a = if decide (last l1 = Some a) then nexts m !! n else nexts m !! a.
Proof.
  intros Hs Hl. destruct (hs_chain m A Hs h _ Hl) as [Hc Hd]. pose proof (hchain_app _ _ _ _ Hc) as Hn.
  destruct Hn as (Hsn & Hn0 & Hp & Hc2). set (s := slot_after (HeadOf h) l1) in *.
  apply NoDup_app in Hd as (Hd1 & Hd12 & Hd2). apply NoDup_cons in Hd2 as [Hn2 Hd2].
  pose proof (chain_load _ _ _ Hc2) as Hx. simpl in Hx. set (x := default 0 (head l2)) in *.
  assert (forall a, a ∈ l1 -> a <> n) as Hne by (intros a Ha ->; apply (Hd12 n Ha); left).
  set (m1 := match s with HeadOf h => m <| heads := <[h := x]> (heads m) |> | NextOf p => m <| nexts := <[p := x]> (nexts m) |> end).
  assert (exists m', rcu_hlist_del n m = Some m' /\ heads m' = heads m1 /\ nexts m' = nexts m1 /\
     pprev m' = match l2 with [] => pprev m | b :: _ => <[b := s]> (pprev m) end) as (m' & E & E1 & E2 & E3).
  { assert (store s x m = Some m1) as Hst by (unfold store; by rewrite Hsn).
    rewrite del_unfold. cbn [load]. rewrite Hp. cbn [mbind option_bind]. rewrite Hx. cbn [mbind option_bind]. rewrite Hst. cbn [mbind option_bind].
    assert (pprev m1 = pprev m) as Epp by (unfold m1; by destruct s).
    destruct l2 as [|b l2]; [by eexists|]. destruct Hc2 as (_ & Hb & Hpb & _). change x with b.
    destruct (Z.eqb_spec b 0) as [|_]; [done|]. unfold set_pprev. rewrite Epp, Hpb. by eexists. }
  assert (forall a, nexts m' !! a = if decide (last l1 = Some a) then nexts m !! n else nexts m !! a) as Hnx.
  { intros a. rewrite E2, Hx. unfold m1, s, slot_after. destruct (last l1) as [p|]; simpl; [|done].
    destruct (decide (p = a)) as [->|Hpa]; [rewrite lookup_insert_eq, decide_True by done|rewrite lookup_insert_ne, decide_False by congruence]; done. }
  assert (forall g, g <> h -> heads m' !! g = heads m !! g) as Hhd.
  { intros g Hg. rewrite E1. unfold m1, s, slot_after. destruct (last l1); simpl; [done|by rewrite lookup_insert_ne]. }
  exists m'. split; [done|]. split; [|done].
  assert (forall b, b ∈ l2 -> nexts m' !! b = nexts m !! b) as Hn2'.
  { intros b Hb. rewrite Hnx, decide_False; [done|]. intros [l0 ->]%last_split. apply (Hd12 b); [apply elem_of_app; right; left|by right]. }
  apply (hstands_upd m m' A h (l1 ++ n :: l2)); try done.
  - apply (chain_replace m m' _ l1 (n :: l2)); try done.
    + intros Hl1. simpl. rewrite E1. unfold m1, s, slot_after. destruct (last l1) eqn:El; [done|]. by apply last_None in El.
    + intros a Ha. rewrite E3. destruct l2 as [|b l2]; [done|]. rewrite lookup_insert_ne; [done|].
      intros ->. apply (Hd12 a Ha). right. left.
    + intros a Ha Has. rewrite Hnx, decide_False; [done|]. intros El. apply Has. unfold slot_after. by rewrite El.
    + fold s. assert (load m' s = Some x) as Hls.
      { clear -E1 E2 Hsn. unfold m1 in *. destruct s; simpl in *; [rewrite E1|rewrite E2]; apply lookup_insert_eq. }
      destruct l2 as [|b l2]; [done|]. destruct Hc2 as (_ & Hb & Hpb & Hc3). apply NoDup_cons in Hd2 as [Hbl Hd2].
      split_and!; [done|done|rewrite E3; apply lookup_insert_eq|]. apply (chain_frame m); [done|apply Hn2'; left|].
      intros c Hcl. split; [apply Hn2'; by right|]. rewrite E3, lookup_insert_ne; [done|]. by intros ->.
  - apply NoDup_app. split_and!; [done| |done]. intros a Ha Hb. apply (Hd12 a Ha). by right.
  - intros a Ha. left. destruct Ha as [Ha|[Ha|Ha]].
    + rewrite Hnx in Ha. destruct (decide (last l1 = Some a)) as [El|]; [|done]. apply elem_of_app. left. by apply last_Some_elem_of.
    + rewrite E3 in Ha. destruct l2 as [|b l2]; [done|]. destruct (decide (b = a)) as [->|]; [|by rewrite lookup_insert_ne in Ha].
      apply elem_of_app. right. right. left.
    + apply elem_of_app in Ha as [?|?]; apply elem_of_app; [by left|right; by right].
  - intros a. rewrite Hnx, E3. split.
    + destruct (decide (last l1 = Some a)) as [El|]; [|apply Hs]. apply last_Some_elem_of in El.
      rewrite Hx. split; [|eauto]. intros _. apply (hs_dom m A Hs a). eapply chain_node; [exact Hc|]. apply elem_of_app. by left.
    + destruct l2 as [|b l2]; [apply Hs|]. rewrite lookup_insert_some; [apply Hs|]. destruct Hc2 as (_ & _ & ? & _). eauto.
Qed.

Lemma init_head_ok m A h :
  hstands m A -> is_Some (heads m !! h) ->
  exists m', rcu_hlist_init_head h m = Some m' /\ hstands m' (<[h := []]> A).
Proof.
  intros Hs [v Hv]. unfold rcu_hlist_init_head, store. simpl. rewrite Hv. eexists. split; [done|]. split; simpl.
  - intros g k [[<- <-]|[Hne Hg]]%lookup_insert_Some; [split; [apply lookup_insert_eq|constructor]|].
    destruct (hs_chain m A Hs g k Hg) as [Hk Hkd]. split; [|done]. apply (chain_frame m); [done| |done].
    simpl. by rewrite lookup_insert_ne.
  - intros h1 h2 l1 l2 a [[<- <-]|[N1 H1]]%lookup_insert_Some [[<- <-]|[N2 H2]]%lookup_insert_Some Ha1 Ha2;
      [done|by apply not_elem_of_nil in Ha1|by apply not_elem_of_nil in Ha2|by apply (hs_disj m A Hs h1 h2 l1 l2 a)].
  - apply Hs.
Qed.

Lemma for_each_ok m s l fuel :
  chain m s l -> (length l < fuel)%nat -> forall pos, load m s = Some pos -> hlist_for_each_from fuel pos m = Some l.
Proof.
  revert s fuel. induction l as [|a l IH]; intros s fuel Hc Hf pos Hp; (destruct fuel as [|fuel]; [simpl in Hf; lia|]).
  - simpl in Hc. assert (pos = 0) as -> by congruence. done.
  - destruct Hc as (H1 & H2 & H3 & H4). assert (pos = a) as -> by congruence. simpl.
    destruct (Z.eqb_spec a 0) as [|_]; [done|]. pose proof (chain_load _ _ _ H4) as Hl. simpl in Hl. rewrite Hl. simpl.
    by rewrite (IH (NextOf a) fuel H4 ltac:(simpl in Hf; lia) _ Hl).
Qed.

(** The addresses of the heads are fixed. *)
Context (H : gset Z).
Definition hfuel : nat := S (size N).

Inductive hop := HInit (h : Z) | HAdd (h n : Z) | HDel (n : Z) | HDelHead (h : Z) | HEmpty (h : Z) | HForEach (h : Z).
Inductive hanswer := HDone | HBool (b : bool) | HNodes (l : list Z).
Definition run_hop (o : hop) (m : hmem) : option (hanswer * hmem) :=
  match o with
  | HInit h => m ← rcu_hlist_init_head h m; Some (HDone, m)
  | HAdd h n => m ← rcu_hlist_add_head h n m; Some (HDone, m)
  | HDel n => m ← rcu_hlist_del n m; Some (HDone, m)
  | HDelHead h => m ← hlist_del_head h m; Some (HDone, m)
  | HEmpty h => b ← rcu_hlist_empty h m; Some (HBool b, m)
  | HForEach h => l ← rcu_hlist_for_each hfuel h m; Some (HNodes l, m)
  end.
Inductive spec_hop (A : gmap Z (list Z)) : hop -> hanswer -> gmap Z (list Z) -> Prop :=
| sh_init h : h ∈ H -> spec_hop A (HInit h) HDone (<[h := []]> A)
| sh_add h n l : A !! h = Some l -> hfree A n -> spec_hop A (HAdd h n) HDone (<[h := n :: l]> A)
| sh_del h l1 n l2 : A !! h = Some (l1 ++ n :: l2) -> spec_hop A (HDel n) HDone (<[h := l1 ++ l2]> A)
| sh_del_head h l : A !! h = Some l -> spec_hop A (HDelHead h) HDone (<[h := tail l]> A)
| sh_empty h l : A !! h = Some l -> spec_hop A (HEmpty h) (HBool (bool_decide (l = []))) A
| sh_each h l : A !! h = Some l -> spec_hop A (HForEach h) (HNodes l) A.

Definition hmem_ok (m : hmem) (A : gmap Z (list Z)) : Prop := hstands m A /\ forall h, h ∈ H -> is_Some (heads m !! h).

(** Writers do not unmap heads. *)
Lemma store_heads s v m m' h : store s v m = Some m' -> is_Some (heads m !! h) -> is_Some (heads m' !! h).
Proof.
  unfold store. destruct (load m s) eqn:E; [|done]. intros [= <-]. destruct s as [g|n]; simpl; [|done].
  intros Hh. apply lookup_insert_some; [by exists z|done].
Qed.
Lemma set_pprev_heads n s m m' : set_pprev n s m = Some m' -> heads m' = heads m.
Proof. unfold set_pprev. destruct (pprev m !! n); [|done]. by intros [= <-]. Qed.
Lemma add_head_heads h n m m' g : rcu_hlist_add_head h n m = Some m' -> is_Some (heads m !! g) -> is_Some (heads m' !! g).
Proof.
  rewrite add_head_unfold. intros E Hg. destruct (load m (HeadOf h)) as [x|]; [|done]. cbn [mbind option_bind] in E.
  destruct (store (NextOf n) x m) as [m1|] eqn:E1; [|done]. cbn [mbind option_bind] in E. apply (store_heads _ _ _ _ g) in E1; [|done].
  destruct (set_pprev n (HeadOf h) m1) as [m2|] eqn:E2; [|done]. cbn [mbind option_bind] in E. apply set_pprev_heads in E2.
  destruct (store (HeadOf h) n m2) as [m3|] eqn:E3; [|done]. cbn [mbind option_bind] in E. apply (store_heads _ _ _ _ g) in E3; [|by rewrite E2].
  destruct (x =? 0); [by injection E as <-|]. apply set_pprev_heads in E. by rewrite E.
Qed.
Lemma del_heads n m m' g : rcu_hlist_del n m = Some m' -> is_Some (heads m !! g) -> is_Some (heads m' !! g).
Proof.
  rewrite del_unfold. intros E Hg. destruct (pprev m !! n) as [s|]; [|done]. cbn [mbind option_bind] in E.
  destruct (load m (NextOf n)) as [x|]; [|done]. cbn [mbind option_bind] in E.
  destruct (store s x m) as [m1|] eqn:E1; [|done]. cbn [mbind option_bind] in E. apply (store_heads _ _ _ _ g) in E1; [|done].
  destruct (x =? 0); [by injection E as <-|]. apply set_pprev_heads in E. by rewrite E.
Qed.

Lemma chain_length m A h l : hstands m A -> A !! h = Some l -> (length l < hfuel)%nat.
Proof.
  intros Hs Hl. destruct (hs_chain m A Hs h l Hl) as [Hc Hd]. unfold hfuel.
  rewrite <- (size_list_to_set (C := gset Z) l Hd). apply Nat.lt_succ_r, subseteq_size.
  intros a Ha%elem_of_list_to_set. apply (hs_dom m A Hs a). by apply (chain_node m (HeadOf h) l).
Qed.

Lemma run_hop_ok m A o a A' :
  hmem_ok m A -> spec_hop A o a A' -> exists m', run_hop o m = Some (a, m') /\ hmem_ok m' A'.
Proof.
  intros [Hs HH] Ho. destruct Ho as [h Hh|h n l Hl Hn|h l1 n l2 Hl|h l Hl|h l Hl|h l Hl]; simpl.
  - destruct (init_head_ok m A h Hs (HH h Hh)) as (m' & E & Hs'). exists m'. rewrite E. split; [done|]. split; [done|].
    intros g Hg. unfold rcu_hlist_init_head in E. by apply (store_heads _ _ _ _ g) in E; [|apply HH].
  - destruct (add_head_ok m A h n l Hs Hl Hn) as (m' & E & Hs' & _). exists m'. rewrite E. split; [done|]. split; [done|].
    intros g Hg. by apply (add_head_heads h n m m' g), HH.
  - destruct (del_ok m A h l1 n l2 Hs Hl) as (m' & E & Hs' & _). exists m'. rewrite E. split; [done|]. split; [done|].
    intros g Hg. by apply (del_heads n m m' g), HH.
  - destruct (hs_chain m A Hs h l Hl) as [Hc _]. pose proof (chain_load _ _ _ Hc) as Hf. unfold hlist_del_head. rewrite Hf. simpl.
    destruct l as [|n l]; simpl.
    { exists m. split; [done|]. by rewrite insert_id. }
    destruct Hc as (_ & Hn & _). destruct (Z.eqb_spec n 0) as [|_]; [done|].
    destruct (del_ok m A h [] n l Hs Hl) as (m' & E & Hs' & _). exists m'. rewrite E. split; [done|]. split; [done|].
    intros g Hg. by apply (del_heads n m m' g), HH.
  - destruct (hs_chain m A Hs h l Hl) as [Hc _]. pose proof (chain_load _ _ _ Hc) as Hf. exists m. unfold rcu_hlist_empty. rewrite Hf. simpl.
    split; [|by split]. destruct l as [|n l]; simpl; [done|]. destruct Hc as (_ & Hn & _). by destruct (Z.eqb_spec n 0).
  - destruct (hs_chain m A Hs h l Hl) as [Hc _]. pose proof (chain_load _ _ _ Hc) as Hf. exists m. unfold rcu_hlist_for_each. rewrite Hf.
    cbn [mbind option_bind]. by rewrite (for_each_ok m (HeadOf h) l hfuel Hc (chain_length m A h l Hs Hl) _ Hf).
Qed.

Fixpoint run_hops (os : list hop) (m : hmem) : option (list hanswer * hmem) :=
  match os with
  | [] => Some ([], m)
  | o :: os => '(a, m) ← run_hop o m; '(l, m) ← run_hops os m; Some (a :: l, m)
  end.
Inductive spec_hops : gmap Z (list Z) -> list hop -> list hanswer -> gmap Z (list Z) -> Prop :=
| shs_nil A : spec_hops A [] [] A
| shs_cons A A' A'' o a os l : spec_hop A o a A' -> spec_hops A' os l A'' -> spec_hops A (o :: os) (a :: l) A''.

Lemma run_hops_ok m A os l A' :
  hmem_ok m A -> spec_hops A os l A' -> exists m', run_hops os m = Some (l, m') /\ hmem_ok m' A'.
Proof.
  intros Hs Ho. revert m Hs. induction Ho as [A|A A1 A2 o a os l Ho _ IH]; intros m Hs; [by exists m|].
  destruct (run_hop_ok m A o a A1 Hs Ho) as (m1 & E1 & Hs1). destruct (IH m1 Hs1) as (m2 & E2 & Hs2).
  exists m2. split; [|done]. simpl. rewrite E1. simpl. by rewrite E2.
Qed.

(** ** A reader among writers *)

(** A writer, which has the lock, is in the middle of its stores [todo]; the lists change
    when it assigns the pointer that readers follow ([effect]: the lists after it, and the
    node that it removes).  The reader, once it has loaded the head of a list, which then
    had the nodes [l0], is at [pos] and has visited [seen]; [removed] collects the nodes
    removed since then, which writers do not add again before the reader is done (that is
    what [rcu_free] waits for). *)
Record walk := Walk { from : list Z; pos : Z; seen : list Z }.
Record racing := Racing { rm : hmem; lists : gmap Z (list Z); todo : list wstore; effect : option (gmap Z (list Z) * list Z); removed : list Z; reader : option walk }.
#[global] Instance eta_racing : Settable racing := fun r => Racing (rm r) (lists r) (todo r) (effect r) (removed r) (reader r).
Definition commit (w : wstore) (r : racing) : racing :=
  match w, effect r with AssignPtr _ _, Some (A, x) => r <| lists := A |> <| removed := x ++ removed r |> <| effect := None |> | _, _ => r end.

(** One access to the memory, or the start of an operation of a writer. *)
Inductive race_step (r : racing) : racing -> Prop :=
| rc_add h n l ws : todo r = [] -> lists r !! h = Some l -> hfree (lists r) n -> n ∉ removed r -> add_head_stores h n (rm r) = Some ws ->
    race_step r (r <| todo := ws |> <| effect := Some (<[h := n :: l]> (lists r), []) |>)
| rc_del h l1 n l2 ws : todo r = [] -> lists r !! h = Some (l1 ++ n :: l2) -> del_stores n (rm r) = Some ws ->
    race_step r (r <| todo := ws |> <| effect := Some (<[h := l1 ++ l2]> (lists r), [n]) |>)
| rc_store w ws m : todo r = w :: ws -> do_store w (rm r) = Some m -> race_step r (commit w (r <| rm := m |> <| todo := ws |>))
| rc_start h l0 p : reader r = None -> lists r !! h = Some l0 -> load (rm r) (HeadOf h) = Some p -> race_step r (r <| reader := Some (Walk l0 p []) |> <| removed := [] |>)
| rc_next l0 p vis p' : reader r = Some (Walk l0 p vis) -> p <> 0 -> load (rm r) (NextOf p) = Some p' -> race_step r (r <| reader := Some (Walk l0 p' (vis ++ [p])) |>).

(** Following the [next] pointers from [p]. *)
Fixpoint leads (m : hmem) (p : Z) (l : list Z) : Prop :=
  match l with
  | [] => p = 0
  | a :: r => p = a /\ a <> 0 /\ exists p', nexts m !! a = Some p' /\ leads m p' r
  end.

Lemma chain_leads m s l p : chain m s l -> load m s = Some p -> leads m p l.
Proof.
  revert s p. induction l as [|a l IH]; intros s p Hc Hp; [simpl in Hc; simpl; congruence|].
  destruct Hc as (H1 & H2 & H3 & H4). split_and!; [congruence|done|]. pose proof (chain_load _ _ _ H4) as Hl.
  eexists. split; [exact Hl|]. by eapply IH.
Qed.

Lemma leads_frame m m' p l : leads m p l -> (forall a, a ∈ l -> nexts m' !! a = nexts m !! a) -> leads m' p l.
Proof.
  revert p. induction l as [|a l IH]; intros p Hp Hf; [done|]. destruct Hp as (H1 & H2 & p' & H3 & H4).
  split_and!; [done|done|]. exists p'. rewrite Hf by left. split; [done|]. apply IH; [done|]. intros b Hb. apply Hf. by right.
Qed.

(** Removing a node takes at most that node out of the reader's way. *)
Lemma leads_del m m' p l prv n :
  leads m p l -> (forall q, prv = Some q -> nexts m !! q = Some n) -> n <> 0 ->
  (forall a, nexts m' !! a = if decide (prv = Some a) then nexts m !! n else nexts m !! a) ->
  exists l', leads m' p l' /\ sublist l' l /\ forall a, a ∈ l -> a <> n -> a ∈ l'.
Proof.
  intros Hp Hprv Hn Hm. remember (length l) as k eqn:Ek. revert p l Ek Hp.
  induction (lt_wf k) as [k _ IH]. intros p l Ek Hp. destruct l as [|a l]; [exists []; split_and!; [done..|by intros ? ?%not_elem_of_nil]|].
  destruct Hp as (-> & Ha & p' & Hp' & Hl). simpl in Ek.
  destruct (decide (prv = Some a)) as [E|E].
  - pose proof (Hprv a E) as Hx. assert (p' = n) as -> by congruence. destruct l as [|b l]; [simpl in Hl; done|].
    destruct Hl as (<- & _ & p2 & Hp2 & Hl). destruct (IH (length l) ltac:(simpl in Ek; lia) p2 l eq_refl Hl) as (l' & H1 & H2 & H3).
    exists (a :: l'). split_and!; [split_and!; [done|done|]; exists p2; rewrite Hm, decide_True by done; done|by constructor; constructor|].
    intros c [->|[->|Hc]%elem_of_cons]%elem_of_cons Hne; [left|done|right; auto].
  - destruct (IH (length l) ltac:(lia) p' l eq_refl Hl) as (l' & H1 & H2 & H3).
    exists (a :: l'). split_and!; [split_and!; [done|done|]; exists p'; rewrite Hm, decide_False by done; done|by constructor|].
    intros c [->|Hc]%elem_of_cons Hne; [left|right; auto].
Qed.

(** *** Writers, store by store *)

Lemma store_same s v m : load m s = Some v -> store s v m = Some m.
Proof. intros E. unfold store. rewrite E. destruct s; simpl in *; rewrite insert_id by done; by destruct m. Qed.
Lemma set_pprev_same n s m : pprev m !! n = Some s -> set_pprev n s m = Some m.
Proof. intros E. unfold set_pprev. rewrite E, insert_id by done. by destruct m. Qed.
Lemma set_pprev_nexts n s m m' : set_pprev n s m = Some m' -> heads m' = heads m /\ nexts m' = nexts m.
Proof. unfold set_pprev. destruct (pprev m !! n); [|done]. by intros [= <-]. Qed.

(** The fields of a node on no list can be written. *)
Lemma free_fields m m' A n : hstands m A -> hfree A n -> heads m' = heads m ->
  (forall a, a <> n -> nexts m' !! a = nexts m !! a /\ pprev m' !! a = pprev m !! a) -> is_Some (nexts m' !! n) -> is_Some (pprev m' !! n) -> hstands m' A.
Proof.
  intros Hs (Hn & _ & Hf) Eh Ho I1 I2. split; [|apply Hs|].
  - intros h l Hl. destruct (hs_chain m A Hs h l Hl) as [Hc Hd]. split; [|done]. apply (chain_frame m); [done|simpl; by rewrite Eh|]. intros a Ha. apply Ho. intros ->. by apply (Hf h l).
  - intros a. destruct (decide (a = n)) as [->|Ha]; [|destruct (Ho a Ha) as [-> ->]; apply Hs]. done.
Qed.

(** Where a writer is, with what it still has to store. *)
Inductive wphase (m : hmem) (A : gmap Z (list Z)) (rem : list Z) : list wstore -> option (gmap Z (list Z) * list Z) -> Prop :=
| ph_idle : hstands m A -> wphase m A rem [] None
| ph_add k h n l ws : hstands m A -> A !! h = Some l -> hfree A n -> n ∉ rem -> add_head_stores h n m = Some ws -> (k <= 2)%nat ->
    (k <> 0%nat -> nexts m !! n = Some (default 0 (head l))) -> (k = 2%nat -> pprev m !! n = Some (HeadOf h)) -> wphase m A rem (drop k ws) (Some (<[h := n :: l]> A, []))
| ph_del h l1 n l2 ws : hstands m A -> A !! h = Some (l1 ++ n :: l2) -> del_stores n m = Some ws -> wphase m A rem ws (Some (<[h := l1 ++ l2]> A, [n]))
| ph_fix a s m' : set_pprev a s m = Some m' -> hstands m' A -> wphase m A rem [SetPprev a s] None.
(** What readers can notice of a store. *)
Inductive noticed (m m' : hmem) (A : gmap Z (list Z)) (rem : list Z) : gmap Z (list Z) -> list Z -> Prop :=
| no_private : (forall a, nexts m' !! a = nexts m !! a \/ (hfree A a /\ a ∉ rem)) -> noticed m m' A rem A []
| no_add h n l : A !! h = Some l -> nexts m' = nexts m -> noticed m m' A rem (<[h := n :: l]> A) []
| no_del h l1 n l2 : hstands m A -> A !! h = Some (l1 ++ n :: l2) -> (forall a, nexts m' !! a = if decide (last l1 = Some a) then nexts m !! n else nexts m !! a) ->
    noticed m m' A rem (<[h := l1 ++ l2]> A) [n].

(** The pointer was assigned: one store to [pprev] may be left. *)
Lemma fix_phase n s m m' A rem : (if n =? 0 then Some m else set_pprev n s m) = Some m' -> hstands m' A -> wphase m A rem (fix_pprev n s) None /\ nexts m' = nexts m.
Proof.
  unfold fix_pprev. destruct (n =? 0); intros E Hs; [injection E as ->; split; [by constructor|done]|]. split; [by apply (ph_fix _ _ _ _ _ m')|by apply set_pprev_nexts in E as [_ E]].
Qed.
Lemma publish_phase m A rem h n l ws : hstands m A -> A !! h = Some l -> hfree A n -> add_head_stores h n m = Some ws -> nexts m !! n = Some (default 0 (head l)) -> pprev m !! n = Some (HeadOf h) ->
  exists w ws' m', drop 2 ws = w :: ws' /\ w = AssignPtr (HeadOf h) n /\ do_store w m = Some m' /\ wphase m' (<[h := n :: l]> A) rem ws' None /\ nexts m' = nexts m.
Proof.
  intros Hs Hl Hn E Hx Hp. destruct (hs_chain m A Hs h l Hl) as [Hc _]. pose proof (chain_load _ _ _ Hc) as Hh. unfold add_head_stores in E. rewrite Hh in E. cbn [mbind option_bind] in E. injection E as <-.
  eexists _, _. destruct (add_head_ok m A h n l Hs Hl Hn) as (m2 & E2 & Hs2 & Hf). rewrite add_head_unfold, Hh in E2. cbn [mbind option_bind] in E2.
  rewrite store_same in E2 by done. cbn [mbind option_bind] in E2. rewrite set_pprev_same in E2 by done. cbn [mbind option_bind] in E2.
  destruct (store (HeadOf h) n m) as [m1|] eqn:E1; [|done]. cbn [mbind option_bind] in E2. exists m1. split; [done|]. split; [done|]. split; [done|].
  destruct (fix_phase _ _ _ _ _ rem E2 Hs2) as [W En]. split; [done|]. unfold store in E1. rewrite Hh in E1. by injection E1 as <-.
Qed.
Lemma phase_store m A rem w ws ef : wphase m A rem (w :: ws) ef -> exists m' A' x ef',
  do_store w m = Some m' /\ (forall r, lists r = A -> removed r = rem -> effect r = ef -> commit w r = r <| lists := A' |> <| removed := x ++ rem |> <| effect := ef' |>) /\
  wphase m' A' (x ++ rem) ws ef' /\ noticed m m' A rem A' x.
Proof.
  intros W. remember (w :: ws) as todo eqn:Et. destruct W as [Hs|k h n l ws0 Hs Hl Hn Hr E Hk H1 H2|h l1 n l2 ws0 Hs Hl E|a s m' E Hs].
  - done.
  - destruct (hs_chain m A Hs h l Hl) as [Hc _]. pose proof (chain_load _ _ _ Hc) as Hh. pose proof E as E0. unfold add_head_stores in E0. rewrite Hh in E0. cbn [mbind option_bind] in E0. injection E0 as Ews. pose proof Hn as (Hin & _ & _). destruct (hs_fields m A n Hs Hin) as [[v Hv] [u Hu]].
    destruct k as [|[|[|k]]]; [| | |lia].
    + rewrite <- Ews in Et. simpl in Et. injection Et as <- <-. set (m1 := m <| nexts := <[n := default 0 (head l)]> (nexts m) |>).
      assert (hstands m1 A) as Hs1. { apply (free_fields m _ A n); [done|done|done| |simpl; rewrite lookup_insert_eq; by eexists|by eexists]. intros a Ha. simpl. by rewrite lookup_insert_ne. }
      exists m1, A, [], (Some (<[h := n :: l]> A, [])). split; [unfold do_store, store; simpl; by rewrite Hv|]. split; [intros r <- <- <-; by destruct r|]. split.
      * change (wphase m1 A rem (drop 1 (InitPtr (NextOf n) (default 0 (head l)) :: SetPprev n (HeadOf h) :: AssignPtr (HeadOf h) n :: fix_pprev (default 0 (head l)) (NextOf n))) (Some (<[h := n :: l]> A, []))).
        apply ph_add; try done; [|lia|intros _; simpl; apply lookup_insert_eq]. unfold add_head_stores. change (load m1 (HeadOf h)) with (load m (HeadOf h)). by rewrite Hh.
      * apply no_private. intros a. simpl. destruct (decide (a = n)) as [->|Ha]; [by right|left; by rewrite lookup_insert_ne].
    + rewrite <- Ews in Et. simpl in Et. injection Et as <- <-. set (m1 := m <| pprev := <[n := HeadOf h]> (pprev m) |>).
      assert (hstands m1 A) as Hs1. { apply (free_fields m _ A n); [done|done|done| |by eexists|simpl; rewrite lookup_insert_eq; by eexists]. intros a Ha. simpl. by rewrite lookup_insert_ne. }
      exists m1, A, [], (Some (<[h := n :: l]> A, [])). split; [unfold do_store, set_pprev; by rewrite Hu|]. split; [intros r <- <- <-; by destruct r|]. split; [|apply no_private; by left].
      change (wphase m1 A rem (drop 2 (InitPtr (NextOf n) (default 0 (head l)) :: SetPprev n (HeadOf h) :: AssignPtr (HeadOf h) n :: fix_pprev (default 0 (head l)) (NextOf n))) (Some (<[h := n :: l]> A, []))).
      apply ph_add; try done; [|intros _; by apply H1|intros _; simpl; apply lookup_insert_eq]. unfold add_head_stores. change (load m1 (HeadOf h)) with (load m (HeadOf h)). by rewrite Hh.
    + destruct (publish_phase m A rem h n l ws0 Hs Hl Hn E (H1 ltac:(done)) (H2 eq_refl)) as (w' & ws' & m' & Ed & Ew & Em & W & En). rewrite Ed in Et. injection Et as -> ->. exists m', (<[h := n :: l]> A), [], None.
      split; [done|]. split; [intros r <- <- Ee; rewrite Ew; unfold commit; rewrite Ee; by destruct r|]. split; [done|]. by apply (no_add _ _ _ _ h n l).
  - destruct (del_ok m A h l1 n l2 Hs Hl) as (m2 & E2 & Hs2 & Hnx). rewrite del_unfold in E2. unfold del_stores in E. destruct (pprev m !! n) as [s|]; [|done]. cbn [mbind option_bind] in E, E2.
    destruct (load m (NextOf n)) as [x|]; [|done]. cbn [mbind option_bind] in E, E2. injection E as <-. injection Et as <- <-. destruct (store s x m) as [m1|] eqn:E1; [|done]. cbn [mbind option_bind] in E2.
    destruct (fix_phase _ _ _ _ _ (n :: rem) E2 Hs2) as [W En]. exists m1, (<[h := l1 ++ l2]> A), [n], None. split; [done|]. split; [intros r <- <- Ee; unfold commit; by rewrite Ee|]. split; [done|].
    apply (no_del _ _ _ _ h l1 n l2); [done|done|]. intros a. by rewrite <- Hnx, En.
  - injection Et as <- <-. exists m', A, [], None. split; [done|]. split; [intros r <- <- <-; by destruct r|]. split; [by constructor|]. apply no_private. intros b. left. by apply set_pprev_nexts in E as [_ ->].
Qed.
(** At every moment the heads lead to the lists. *)
Lemma phase_leads m A rem ws ef h l : wphase m A rem ws ef -> A !! h = Some l -> exists p, load m (HeadOf h) = Some p /\ leads m p l.
Proof.
  assert (forall m0, hstands m0 A -> A !! h = Some l -> exists p, load m0 (HeadOf h) = Some p /\ leads m0 p l) as Hst.
  { intros m0 Hs Hl. destruct (hs_chain m0 A Hs h l Hl) as [Hc _]. pose proof (chain_load _ _ _ Hc) as Hp. eexists. split; [exact Hp|]. by eapply chain_leads. }
  intros [Hs|k h' n l' ws0 Hs _ _ _ _ _ _ _|h' l1 n l2 ws0 Hs _ _|a s m' E Hs] Hl; [by apply Hst..|]. destruct (Hst m' Hs Hl) as (p & Hp & Hlead). apply set_pprev_nexts in E as [E1 E2].
  exists p. split; [simpl in *; congruence|]. apply (leads_frame m'); [done|]. intros a' _. by rewrite E2.
Qed.

(** What a reader that started at the list [l0] knows. *)
Record sees (m : hmem) (A : gmap Z (list Z)) (rem : list Z) (k : walk) : Prop := {
  se_old : forall a, a ∈ from k -> a ∈ rem \/ exists h l, A !! h = Some l /\ a ∈ l;
  se_rest : exists rest, leads m (pos k) rest /\ sublist (seen k ++ rest) (from k) /\ forall a, a ∈ from k -> a ∉ rem -> a ∈ seen k ++ rest }.
Record rinv (r : racing) : Prop := {
  ri_writer : wphase (rm r) (lists r) (removed r) (todo r) (effect r);
  ri_reader : forall k, reader r = Some k -> sees (rm r) (lists r) (removed r) k }.

Lemma sees_noticed m m' A rem A' x k : sees m A rem k -> noticed m m' A rem A' x -> sees m' A' (x ++ rem) k.
Proof.
  intros [Ho (rest & Hl & Hsub & Hall)] [Hp|h n l Hh En|h l1 n l2 Hs Hh Hnx]; simpl.
  - split; [done|]. exists rest. split_and!; [|done|done]. apply (leads_frame m); [done|]. intros a Ha. destruct (Hp a) as [?|[(_ & _ & Hf) Hr]]; [done|]. exfalso.
    destruct (Ho a) as [?|(h & l & H1 & H2)]; [eapply elem_of_sublist; [|exact Hsub]; apply elem_of_app; by right|done|by apply (Hf h l)].
  - split; [|exists rest; split_and!; [apply (leads_frame m); [done|]; intros a _; by rewrite En|done|done]]. intros a Ha. destruct (Ho a Ha) as [?|(g & k0 & Hg & Hk)]; [by left|right]. destruct (decide (g = h)) as [->|Hne].
    + exists h, (n :: l). rewrite lookup_insert_eq. split; [done|]. right. congruence.
    + exists g, k0. by rewrite lookup_insert_ne.
  - split.
    + intros a Ha. destruct (Ho a Ha) as [?|(g & k0 & Hg & Hk)]; [left; by right|]. destruct (decide (g = h)) as [->|Hne].
      * assert (k0 = l1 ++ n :: l2) as -> by congruence. destruct (decide (a = n)) as [->|Han]; [left; left|right]. exists h, (l1 ++ l2). rewrite lookup_insert_eq. split; [done|]. set_solver.
      * right. exists g, k0. by rewrite lookup_insert_ne.
    + destruct (hs_chain m A Hs h _ Hh) as [Hc _].
      destruct (leads_del m m' (pos k) rest (last l1) n) as (rest' & H1 & H2 & H3); [done| |by eapply (chain_node m (HeadOf h) (l1 ++ n :: l2) n); [|set_solver]|done|].
      { intros q Hq. apply hchain_app in Hc. unfold slot_after in Hc. rewrite Hq in Hc. by destruct Hc as [Hc _]. }
      exists rest'. split_and!; [done|etransitivity; [|exact Hsub]; by apply sublist_app|]. intros a Ha [Hne Hnr]%not_elem_of_cons. specialize (Hall a Ha Hnr). apply elem_of_app in Hall as [?|?]; apply elem_of_app; [by left|right; auto].
Qed.
Lemma phase_nil m A rem ef : wphase m A rem [] ef -> hstands m A.
Proof.
  intros W. remember [] as ws eqn:Et. destruct W as [Hs|k h n l ws Hs _ _ _ _ _ _ _|h l1 n l2 ws Hs _ _|a s m' E Hs]; done.
Qed.
(** A node that may be added may be added after the reader has started. *)
Lemma phase_restart m A rem ws ef : wphase m A rem ws ef -> wphase m A [] ws ef.
Proof. intros [Hs|k h n l ws0 Hs Hl Hn Hr E Hk H1 H2|h l1 n l2 ws0 Hs Hl E|a s m' E Hs]; [by constructor|apply ph_add; try done; by apply not_elem_of_nil|by apply ph_del|by apply (ph_fix _ _ _ _ _ m')]. Qed.
Lemma rinv_step r r' : rinv r -> race_step r r' -> rinv r'.
Proof.
  intros [W R] [h n l ws Et Hl Hn Hr E|h l1 n l2 ws Et Hl E|w ws m Et E|h l0 p Er Hl Hp|l0 p vis p' Er Hp E].
  - rewrite Et in W. apply phase_nil in W. split; [|done]. by apply (ph_add _ _ _ 0 h n l ws); [..|lia| |].
  - rewrite Et in W. apply phase_nil in W. split; [|done]. by apply ph_del.
  - rewrite Et in W. destruct (phase_store _ _ _ _ _ _ W) as (m' & A' & x & ef' & Em & Ec & W' & Hno). assert (m' = m) as -> by congruence.
    assert (commit w (r <| rm := m |> <| todo := ws |>) = r <| rm := m |> <| todo := ws |> <| lists := A' |> <| removed := x ++ removed r |> <| effect := ef' |>) as ->.
    { by apply Ec. }
    split; [done|]. intros k Hk. by apply (sees_noticed (rm r) m (lists r) (removed r)); [apply R|].
  - split; simpl; [by eapply phase_restart|]. intros k [= <-]. destruct (phase_leads _ _ _ _ _ h l0 W Hl) as (p1 & Hp1 & Hlead). assert (p1 = p) as -> by congruence. split; [intros a Ha; right; by exists h, l0|]. by exists l0.
  - split; [done|]. simpl. intros k [= <-]. destruct (R _ Er) as [Ho (rest & Hlead & Hsub & Hall)]. simpl in *. split; [done|]. destruct rest as [|a rest]; [done|]. destruct Hlead as (-> & _ & p2 & Hp2 & Hlead).
    assert (p2 = p') as -> by congruence. exists rest. simpl. rewrite <- app_assoc. done.
Qed.
End Memory.

(** The RCU lists implement sequences: every series of calls by writers
    (heads are initialised, a node is added when it is on no list) runs without
    touching an address that holds no pointer, removal through [pprev] included,
    and a walk returns the nodes of the list in order. *)
Theorem rcu_hlist_refines_lists N H m A os l A' :
  hmem_ok N H m A -> spec_hops N H A os l A' -> exists m', run_hops N os m = Some (l, m') /\ hmem_ok N H m' A'.
Proof. apply run_hops_ok. Qed.

(** C9: a reader that walks a list without a lock, while writers, one at a time, add and
    remove nodes, in any interleaving of its loads with their single stores and starting at
    any moment, in the middle of an operation too: it is never led to an address that holds
    no node, takes no more steps than the list had nodes when it started, and when it is
    done it has visited, in order, a part of that list that contains every node that was
    not removed meanwhile; and no store of a writer goes to an address that holds no
    pointer.  Removed nodes are not added again while it reads, and accesses take effect in
    the order of the program. *)
Theorem rcu_hlist_reader_sees_stable N m0 A0 r :
  hstands N m0 A0 -> rtc (race_step N) (Racing m0 A0 [] None [] None) r ->
  (forall w ws, todo r = w :: ws -> is_Some (do_store w (rm r))) /\
  (forall l0 p vis, reader r = Some (Walk l0 p vis) ->
    sublist vis l0 /\ (length vis <= length l0)%nat /\ (p <> 0 -> is_Some (load (rm r) (NextOf p))) /\ (p = 0 -> forall a, a ∈ l0 -> a ∉ removed r -> a ∈ vis)).
Proof.
  intros Hs Hr. assert (rinv N r) as [W R].
  { assert (rinv N (Racing m0 A0 [] None [] None)) as H0 by (split; [by constructor|done]). clear -Hr H0. induction Hr; eauto using rinv_step. }
  split; [intros w ws Et; rewrite Et in W; destruct (phase_store _ _ _ _ _ _ _ W) as (m' & _ & _ & _ & -> & _); by eexists|].
  intros l0 p vis Hk. destruct (R _ Hk) as [_ (rest & H1 & H2 & H3)]. simpl in *. assert (sublist vis l0) as Hsub by (etransitivity; [|exact H2]; by apply sublist_inserts_r).
  split_and!; [done|by apply sublist_length| |].
  - intros Hp0. destruct rest as [|a rest]; [done|]. destruct H1 as (-> & _ & p' & Hp' & _). by exists p'.
  - intros E a Ha Hr'. destruct rest as [|b rest]; [rewrite app_nil_r in H3; auto|]. destruct H1 as (Eb & Hb & _). congruence.
Qed.

Definition demo_nodes : gset Z := list_to_set [11; 12; 13].
Definition demo_hmem : hmem := HMem {[ 1 := 0 ]} (gset_to_gmap 0 demo_nodes) (gset_to_gmap (HeadOf 1) demo_nodes).
Lemma hfree_dec N A n :
  bool_decide (n ∈ N /\ n <> 0 /\ map_Forall (fun _ l => n ∉ l) A) = true -> hfree N A n.
Proof. by intros ?%bool_decide_eq_true. Qed.
Lemma demo_hmem_ok : hmem_ok demo_nodes {[ 1 ]} demo_hmem ∅.
Proof.
  split; [|intros h ->%elem_of_singleton; by eexists]. split; [done..|]. intros a. simpl.
  rewrite <- !elem_of_dom, !dom_gset_to_gmap. done.
Qed.


(** A list of two nodes.  A third one has just been published when the reader starts; the
    next one is removed while the reader is at it. *)
Definition demo_list : hmem :=
  match run_hops demo_nodes [HInit 1; HAdd 1 11; HAdd 1 12] demo_hmem with Some (_, m) => m | None => demo_hmem end.
Lemma demo_list_ok : hstands demo_nodes demo_list {[ 1 := [12; 11] ]}.
Proof.
  split.
  - intros h l [<- <-]%lookup_singleton_Some. split; [vm_compute; split_and!; congruence|].
    apply (bool_decide_unpack _). vm_compute. exact I.
  - intros h1 h2 l1 l2 a [<- <-]%lookup_singleton_Some [<- <-]%lookup_singleton_Some. done.
  - intros a. rewrite <- !elem_of_dom.
    assert (dom (nexts demo_list) = demo_nodes /\ dom (pprev demo_list) = demo_nodes) as [-> ->]
      by (split; vm_compute; reflexivity). done.
Qed.
Lemma demo_race : exists r, rtc (race_step demo_nodes) (Racing demo_list {[ 1 := [12; 11] ]} [] None [] None) r /\ reader r = Some (Walk [13; 12; 11] 0 [13; 12; 11]) /\ removed r = [12].
Proof.
  eexists. split; [|split].
  - eapply rtc_l; [apply (rc_add _ _ 1 13 [12; 11]); [reflexivity|reflexivity|apply hfree_dec; vm_compute; reflexivity|apply not_elem_of_nil|vm_compute; reflexivity]|]. simpl.
    do 3 (eapply rtc_l; [eapply rc_store; [reflexivity|vm_compute; reflexivity]|]; simpl).
    eapply rtc_l; [apply (rc_start _ _ 1); [reflexivity|vm_compute; reflexivity|vm_compute; reflexivity]|]. simpl.
    eapply rtc_l; [eapply rc_next; [reflexivity|discriminate|vm_compute; reflexivity]|]. simpl.
    eapply rtc_l; [eapply rc_store; [reflexivity|vm_compute; reflexivity]|]. simpl.
    eapply rtc_l; [apply (rc_del _ _ 1 [13] 12 [11]); [reflexivity|vm_compute; reflexivity|vm_compute; reflexivity]|]. simpl.
    do 2 (eapply rtc_l; [eapply rc_store; [reflexivity|vm_compute; reflexivity]|]; simpl).
    do 2 (eapply rtc_l; [eapply rc_next; [reflexivity|discriminate|vm_compute; reflexivity]|]; simpl). apply rtc_refl.
  - reflexivity.
  - reflexivity.
Qed.
Lemma rcu_hlist_reader_sees_stable_witness :
  exists r, reader r = Some (Walk [13; 12; 11] 0 [13; 12; 11]) /\ removed r = [12] /\ forall a, a ∈ [13; 12; 11] -> a ∉ removed r -> a ∈ [13; 12; 11].
Proof.
  destruct demo_race as (r & Hr & Hk & He). exists r. split; [exact Hk|]. split; [exact He|].
  destruct (rcu_hlist_reader_sees_stable demo_nodes demo_list {[ 1 := [12; 11] ]} r demo_list_ok Hr) as [_ H]. destruct (H _ _ _ Hk) as (_ & _ & _ & H4). exact (H4 eq_refl).
Defined.
