(* ===== verification/Rcu.v ===== *)
(** * rcu: read-copy-update

    Models [runtime/rcu.c] and the readers' side of [inc/runtime/rcu.h] as a
    transition system: kthreads that enter and leave the scheduler, readers, the
    callers of [rcu_free] and [synchronize_rcu], and the worker thread, one step
    per access to shared memory (a section under [rcu_lock] is one step).  The
    generation counters move as in [Sched]: they are odd while a thread runs. *)

From S2P Require Import Prelude.

(** A kthread: its generation counter, the nesting of [rcu_read_lock] in the
    thread it runs, and, as history, how many read sections it has started and
    the objects the current one has reached. *)
Record kt := Kt { gen : Z; nest : nat; sections : nat; held : gset nat }.
#[global] Instance eta_kt : Settable kt := fun r => Kt (gen r) (nest r) (sections r) (held r).

(** Where the worker is: at the top of its loop, parked, reading the counters,
    sleeping, comparing the counters, or calling the callbacks.  [head] is the
    list it took, [last] is [last_rcu_gen]. *)
Inductive worker_pc :=
| Top
| Parked
| Snap (head : list nat) (last : list Z)
| Sleep (head : list nat) (last : list Z)
| Compare (head : list nat) (last : list Z) (i : nat)
| Call (head : list nat).

(** [linked] holds the objects readers can reach and [freed] those whose
    callback has run.  [waits o] is history: the read section each kthread was in
    when [o] was given to RCU. *)
Record rcu := Rcu {
  ks : list kt;
  linked : gset nat;
  rcu_head : list nat;
  rcu_worker_th : bool;
  to_wake : nat;
  worker : worker_pc;
  waits : gmap nat (list (option nat));
  freed : gset nat }.
#[global] Instance eta_rcu : Settable rcu := fun r =>
  Rcu (ks r) (linked r) (rcu_head r) (rcu_worker_th r) (to_wake r) (worker r) (waits r) (freed r).

Definition section_of (k : kt) : option nat := if Nat.eqb (nest k) 0 then None else Some (sections k).

(** ** Readers and the scheduler *)

Definition rcu_read_lock (k : kt) : kt :=
  if Nat.eqb (nest k) 0 then k <| nest := 1%nat |> <| sections := S (sections k) |>
  else k <| nest := S (nest k) |>.
(** Pointers that were read are not used after the outermost unlock. *)
Definition rcu_read_unlock (k : kt) : kt :=
  match nest k with
  | O => k
  | S O => k <| nest := O |> <| held := ∅ |>
  | S n => k <| nest := n |>
  end.
Definition rcu_dereference (o : nat) (k : kt) : kt := k <| held := {[ o ]} ∪ held k |>.

(** [schedule] is entered or left, and a thread switches to another directly. *)
Definition sched_switch (n : Z) (k : kt) : kt := k <| gen := u32 (gen k + n) |>.

(** ** Freeing *)

(** Giving an object to RCU, under [rcu_lock]. *)
Definition push (o : nat) (s : rcu) : rcu :=
  s <| rcu_head := o :: rcu_head s |> <| waits := <[ o := section_of <$> ks s ]> (waits s) |>
    <| rcu_worker_th := false |>.
Definition wake_worker (s : rcu) : rcu :=
  s <| worker := match worker s with Parked => Top | p => p end |>.

(** [rcu_free] up to the unlock; the caller then wakes the worker it found
    parked, which is [rcu_free_wake]. *)
Definition rcu_free (o : nat) (s : rcu) : rcu :=
  let th := rcu_worker_th s in
  let s := push o s in
  if th then s <| to_wake := S (to_wake s) |> else s.
Definition rcu_free_wake (s : rcu) : rcu := wake_worker (s <| to_wake := pred (to_wake s) |>).

(** [synchronize_rcu] for the record [o] on the caller's stack, which wakes the
    worker before it unlocks; [synchronize_rcu_finish] is the callback. *)
Definition synchronize_rcu (o : nat) (s : rcu) : rcu :=
  let th := rcu_worker_th s in
  let s := push o s in
  if th then wake_worker s else s.

(** ** The worker *)

(** The test of the second loop: kthread [k] may still be in the read section it
    was in. *)
Definition not_quiet (k : kt) (last : Z) : bool := (Z.land (gen k) 1 =? 1) && (gen k =? last).

Definition rcu_worker (s : rcu) : rcu :=
  match worker s with
  | Top =>
      match rcu_head s with
      | [] => s <| rcu_worker_th := true |> <| worker := Parked |>
      | head => s <| rcu_head := [] |> <| worker := Snap head [] |>
      end
  | Parked => s
  | Snap head last =>
      match ks s !! length last with
      | Some k => s <| worker := Snap head (last ++ [gen k]) |>
      | None => s <| worker := Sleep head last |>
      end
  | Sleep head last => s <| worker := Compare head last 0 |>
  | Compare head last i =>
      match ks s !! i with
      | Some k => if not_quiet k (nth i last 0) then s <| worker := Sleep head last |>
                  else s <| worker := Compare head last (S i) |>
      | None => s <| worker := Call head |>
      end
  | Call [] => s <| worker := Top |>
  | Call (o :: head) => s <| freed := {[ o ]} ∪ freed s |> <| worker := Call head |>
  end.

(** ** The system *)

Definition on (i : nat) (f : kt -> kt) (s : rcu) : rcu := s <| ks := alter f i (ks s) |>.

Inductive event :=
| Switch (i : nat) (n : Z)
| Lock (i : nat) | Unlock (i : nat) | Deref (i o : nat)
| Link (o : nat) | Unlink (o : nat)
| Free (o : nat) | Wake | Synchronize (o : nat)
| Worker.

(** What the callers respect: a read section has preemption disabled, so the
    kthread does not enter the scheduler in it; readers run in threads and reach
    linked objects; an object is given to RCU once, after it was unlinked, and
    is not linked again. *)
Definition allowed (e : event) (s : rcu) : bool :=
  match e with
  | Switch i n => match ks s !! i with Some k => Nat.eqb (nest k) 0 && ((n =? 1) || ((n =? 2) && Z.odd (gen k))) | None => false end
  | Lock i => match ks s !! i with Some k => Z.odd (gen k) | None => false end
  | Unlock i => match ks s !! i with Some k => negb (Nat.eqb (nest k) 0) | None => false end
  | Deref i o => match ks s !! i with Some k => negb (Nat.eqb (nest k) 0) && bool_decide (o ∈ linked s) | None => false end
  | Link o => bool_decide (waits s !! o = None)
  | Unlink o => true
  | Free o | Synchronize o => bool_decide (waits s !! o = None) && bool_decide (o ∉ linked s)
  | Wake => negb (Nat.eqb (to_wake s) 0)
  | Worker => true
  end.

Definition run_event (e : event) (s : rcu) : rcu :=
  match e with
  | Switch i n => on i (sched_switch n) s
  | Lock i => on i rcu_read_lock s
  | Unlock i => on i rcu_read_unlock s
  | Deref i o => on i (rcu_dereference o) s
  | Link o => s <| linked := {[ o ]} ∪ linked s |>
  | Unlink o => s <| linked := linked s ∖ {[ o ]} |>
  | Free o => rcu_free o s
  | Wake => rcu_free_wake s
  | Synchronize o => synchronize_rcu o s
  | Worker => rcu_worker s
  end.

Definition rcu_init_late (maxks : nat) : rcu :=
  Rcu (replicate maxks (Kt 1 0 0 ∅)) ∅ [] false 0 Top ∅ ∅.

Inductive rcu_reachable (maxks : nat) : rcu -> Prop :=
| rcu_start : rcu_reachable maxks (rcu_init_late maxks)
| rcu_step s e : rcu_reachable maxks s -> allowed e s = true -> rcu_reachable maxks (run_event e s).

(** ** The grace period *)

(** Kthread [i], in state [k], is still in the read section it was in when [o]
    was given to RCU. *)
Definition waiting (s : rcu) (o i : nat) (k : kt) : Prop :=
  ks s !! i = Some k /\ section_of k <> None /\ exists w, waits s !! o = Some w /\ w !! i = Some (section_of k).

(** The objects the worker has taken. *)
Definition taken (p : worker_pc) : list nat :=
  match p with Top | Parked => [] | Snap h _ | Sleep h _ | Compare h _ _ | Call h => h end.

(** What the worker knows of an object it has taken: the counters it has
    recorded are those of the kthreads that are waited for, and no kthread it has
    passed is. *)
Definition knows (p : worker_pc) (o i : nat) (k : kt) : Prop :=
  match p with
  | Top | Parked => True
  | Snap _ last => forall l, last !! i = Some l -> gen k = l
  | Sleep _ last => last !! i = Some (gen k)
  | Compare _ last j => last !! i = Some (gen k) /\ (j <= i)%nat
  | Call _ => False
  end.

Record inv (s : rcu) : Prop := {
  i_odd : forall i k, ks s !! i = Some k -> section_of k <> None -> Z.odd (gen k) = true;
  i_none : forall i k, ks s !! i = Some k -> section_of k = None -> held k = ∅;
  i_past : forall o w, waits s !! o = Some w ->
    forall i k n, ks s !! i = Some k -> w !! i = Some (Some n) -> (n <= sections k)%nat;
  i_linked : forall o, o ∈ linked s -> waits s !! o = None;
  i_held : forall i k o, ks s !! i = Some k -> o ∈ held k -> waits s !! o = None \/ waiting s o i k;
  i_given : forall o, o ∈ rcu_head s \/ o ∈ taken (worker s) \/ o ∈ freed s -> is_Some (waits s !! o);
  i_knows : forall o i k, o ∈ taken (worker s) -> waiting s o i k -> knows (worker s) o i k;
  i_freed : forall o i k, o ∈ freed s -> ~ waiting s o i k
}.

Lemma section_of_read_lock k : section_of (rcu_read_lock k) =
  if Nat.eqb (nest k) 0 then Some (S (sections k)) else section_of k.
Proof. unfold rcu_read_lock, section_of. destruct (nest k) as [|n]; done. Qed.
Lemma section_of_read_unlock k : section_of (rcu_read_unlock k) = section_of k \/ section_of (rcu_read_unlock k) = None.
Proof. unfold rcu_read_unlock, section_of. destruct (nest k) as [|[|n]] eqn:E; simpl; rewrite ?E; auto. Qed.

(** A step of a kthread: its read section goes on, ends, or is a new one; the
    counter does not move while it goes on. *)
Definition moves (k k' : kt) : Prop :=
  (sections k <= sections k')%nat /\
  (section_of k' = None \/ section_of k' = Some (S (sections k)) /\ (nest k = 0)%nat \/
   section_of k' = section_of k /\ gen k' = gen k).

Lemma on_lookup s i f j k' : ks (on i f s) !! j = Some k' -> exists k, ks s !! j = Some k /\ (k' = k \/ j = i /\ k' = f k).
Proof.
  unfold on. simpl. destruct (decide (j = i)) as [->|Hne].
  - rewrite list_lookup_alter_eq. destruct (ks s !! i) as [k|]; [|done]. intros [= <-]. eauto.
  - rewrite list_lookup_alter_ne by done. eauto.
Qed.

Lemma moves_refl k : moves k k.
Proof. split; [done|]. auto. Qed.

Lemma on_waiting s i f :
  inv s -> (forall k, ks s !! i = Some k -> moves k (f k)) ->
  forall o j k', waiting (on i f s) o j k' -> exists k, waiting s o j k /\ gen k' = gen k.
Proof.
  intros Hs Hf o j k' (Hk' & Hn & w & Hw & Hj). destruct (on_lookup _ _ _ _ _ Hk') as (k & Hk & Hm).
  exists k. assert (moves k k') as [_ Hmv] by (destruct Hm as [->|[-> ->]]; auto using moves_refl).
  destruct Hmv as [?|[[Hnew _]|[Hsame Hg]]]; [done| |].
  - rewrite Hnew in Hj. pose proof (i_past s Hs o w Hw j k _ Hk Hj). lia.
  - split; [|done]. rewrite Hsame in Hn, Hj. split_and!; eauto.
Qed.

Lemma on_inv s i f :
  inv s ->
  (forall k, ks s !! i = Some k -> moves k (f k) /\ (section_of (f k) <> None -> Z.odd (gen (f k)) = true) /\
    (section_of (f k) = None -> held (f k) = ∅) /\
    (forall o, o ∈ held (f k) -> o ∈ linked s \/ o ∈ held k /\ section_of (f k) = section_of k)) ->
  inv (on i f s).
Proof.
  intros Hs Hf. pose proof (on_waiting s i f Hs (fun k Hk => proj1 (Hf k Hk))) as Hw. split; simpl.
  - intros j k' Hk'. destruct (on_lookup _ _ _ _ _ Hk') as (k & Hk & [->|[-> ->]]); [by eapply i_odd|by apply Hf].
  - intros j k' Hk'. destruct (on_lookup _ _ _ _ _ Hk') as (k & Hk & [->|[-> ->]]); [by eapply i_none|by apply Hf].
  - intros o w Ho j k' n Hk' Hn. destruct (on_lookup _ _ _ _ _ Hk') as (k & Hk & Hm).
    pose proof (i_past s Hs o w Ho j k n Hk Hn). destruct Hm as [->|[-> ->]]; [done|].
    destruct (Hf k Hk) as [[? _] _]. lia.
  - apply Hs.
  - intros j k' o Hk' Ho. destruct (on_lookup _ _ _ _ _ Hk') as (k & Hk & Hm).
    assert (o ∈ linked s \/ o ∈ held k /\ section_of k' = section_of k) as [Hl|[Hh He]].
    { destruct Hm as [->|[-> ->]]; [by right|by apply Hf]. }
    + left. by apply Hs.
    + destruct (i_held s Hs j k o Hk Hh) as [?|(_ & Hn & w & Hw1 & Hw2)]; [by left|right].
      split; [done|]. rewrite He. eauto.
  - apply Hs.
  - intros o j k' Ht Hk'. destruct (Hw o j k' Hk') as (k & Hk & Hg). pose proof (i_knows s Hs o j k Ht Hk) as H.
    unfold knows in *. by rewrite Hg.
  - intros o j k' Ho Hk'. destruct (Hw o j k' Hk') as (k & Hk & _). by apply (i_freed s Hs o j k).
Qed.

Lemma section_None k : section_of k = None <-> nest k = 0%nat.
Proof. unfold section_of. by destruct (nest k). Qed.

Lemma kthread_inv s e :
  inv s -> allowed e s = true -> match e with Switch _ _ | Lock _ | Unlock _ | Deref _ _ => True | _ => False end ->
  inv (run_event e s).
Proof.
  intros Hs Ha He. destruct e as [i n|i|i|i o| | | | | |]; try done; simpl in *;
    apply on_inv; try done; intros k Hk; rewrite Hk in Ha;
    pose proof (i_odd s Hs i k Hk) as Hodd; pose proof (i_none s Hs i k Hk) as Hnone.
  - apply andb_true_iff in Ha as [Hn%Nat.eqb_eq _].
    assert (section_of (sched_switch n k) = None) as E by by apply section_None.
    pose proof (proj2 (section_None k) Hn). split_and!; [split; auto|congruence|auto|intros o Ho; right; split; [done|congruence]].
  - pose proof (section_of_read_lock k) as E. destruct (Nat.eqb_spec (nest k) 0) as [Hn|Hn].
    + assert (rcu_read_lock k = k <| nest := 1%nat |> <| sections := S (sections k) |>) as Ek
        by (unfold rcu_read_lock; by rewrite Hn).
      pose proof (Hnone (proj2 (section_None k) Hn)) as Hh. assert (held (rcu_read_lock k) = held k) as Eh by by rewrite Ek.
      rewrite E, Eh, Hh. split_and!; [split; [rewrite Ek; simpl; lia|auto]|by rewrite Ek|done|set_solver].
    + assert (rcu_read_lock k = k <| nest := S (nest k) |>) as Ek
        by (unfold rcu_read_lock; by destruct (nest k)).
      rewrite E. split_and!; [split; [by rewrite Ek|right; right; split; [done|by rewrite Ek]]|..]; rewrite Ek; auto.
  - apply negb_true_iff, Nat.eqb_neq in Ha. unfold rcu_read_unlock. destruct (nest k) as [|[|n]] eqn:En; [done| |].
    + split_and!; [split; [done|by left]|done|done|set_solver].
    + assert (section_of (k <| nest := S n |>) = section_of k) as E by (unfold section_of; by rewrite En).
      rewrite E. split_and!; [split; auto|done|auto|auto].
  - apply andb_true_iff in Ha as [Hn%negb_true_iff Hl%bool_decide_eq_true].
    assert (section_of (rcu_dereference o k) = section_of k) as E by done. rewrite E.
    split_and!; [split; auto|done| |].
    + intros ?%section_None. by rewrite H in Hn.
    + intros o' [->%elem_of_singleton|?]%elem_of_union; auto.
Qed.

(** Whatever was given to RCU before, a new object is not among it. *)
Lemma push_waiting s o o' i k : o <> o' -> waiting (push o s) o' i k <-> waiting s o' i k.
Proof. intros Hne. unfold waiting, push. simpl. by rewrite lookup_insert_ne. Qed.

Lemma rcu_push_inv s o : inv s -> waits s !! o = None -> o ∉ linked s -> inv (push o s).
Proof.
  intros Hs Hw Hl.
  assert (forall o', o' ∈ rcu_head s \/ o' ∈ taken (worker s) \/ o' ∈ freed s -> o <> o') as Hne.
  { intros o' Ho' <-. destruct (i_given s Hs o Ho'). congruence. }
  split; simpl; try apply Hs.
  - intros o' w Ho'. apply lookup_insert_Some in Ho' as [[<- <-]|[_ Ho']]; [|by apply (i_past s Hs o')].
    intros i k n Hk. rewrite list_lookup_fmap, Hk. simpl. unfold section_of. destruct (nest k); naive_solver lia.
  - intros o' Ho'. rewrite lookup_insert_ne by congruence. by apply Hs.
  - intros i k o' Hk Ho'. destruct (decide (o' = o)) as [->|Hn].
    + right. assert (section_of k <> None) as Hsec. { intros E. apply (i_none s Hs i k Hk) in E. set_solver. }
      split_and!; [done..|]. exists (section_of <$> ks s). simpl. by rewrite lookup_insert_eq, list_lookup_fmap, Hk.
    + rewrite lookup_insert_ne, push_waiting by done. by apply Hs.
  - intros o' [[->|Ho']%elem_of_cons|Ho']; [rewrite lookup_insert_eq; eauto| |];
      (rewrite lookup_insert_ne; [|apply Hne]; [apply Hs|]; tauto).
  - intros o' i k Ho'. rewrite push_waiting by (apply Hne; tauto). by apply Hs.
  - intros o' i k Ho'. rewrite push_waiting by (apply Hne; tauto). by apply Hs.
Qed.

(** Steps that leave the kthreads and what was given to RCU alone. *)
Lemma same_inv s s' :
  inv s -> ks s' = ks s -> waits s' = waits s ->
  (forall o, o ∈ linked s' -> waits s !! o = None) ->
  (forall o, o ∈ rcu_head s' \/ o ∈ taken (worker s') \/ o ∈ freed s' ->
     o ∈ rcu_head s \/ o ∈ taken (worker s) \/ o ∈ freed s) ->
  (forall o i k, o ∈ taken (worker s') -> waiting s o i k -> knows (worker s') o i k) ->
  (forall o i k, o ∈ freed s' -> ~ waiting s o i k) -> inv s'.
Proof.
  intros Hs Hk Hw Hl Hg Hkn Hf.
  assert (forall o i k, waiting s' o i k <-> waiting s o i k) as Ew by (intros; unfold waiting; by rewrite Hk, Hw).
  split; rewrite ?Hk, ?Hw; try apply Hs; auto.
  - intros i k o Ho. rewrite Ew. by apply Hs.
  - intros o Ho. apply (i_given s Hs), Hg, Ho.
  - intros o i k Ho. rewrite Ew. intros Hwt. apply Hkn; done.
  - intros o i k Ho. rewrite Ew. by apply Hf.
Qed.

Lemma rcu_wake_inv s n : inv s -> inv (wake_worker (s <| to_wake := n |>)).
Proof.
  intros Hs. apply (same_inv s); try done; simpl; try apply Hs.
  - intros o. destruct (worker s); tauto.
  - intros o i k. pose proof (i_knows s Hs o i k). destruct (worker s); auto.
Qed.

Lemma not_quiet_waiting k last : Z.odd (gen k) = true -> not_quiet k last = false -> gen k <> last.
Proof.
  unfold not_quiet. intros Ho. assert (Z.land (gen k) 1 = 1) as ->.
  { change 1 with (Z.ones 1) at 1. rewrite Z.land_ones by done. rewrite Zmod_odd. by rewrite Ho. }
  simpl. by intros ?%Z.eqb_neq.
Qed.

(** The worker keeps what it knows. *)
Lemma worker_inv s : inv s -> inv (rcu_worker s).
Proof.
  intros Hs. pose proof (i_knows s Hs) as Hkn. pose proof (i_freed s Hs) as Hf. pose proof (i_linked s Hs) as Hl.
  unfold rcu_worker. destruct (worker s) as [| |head last|head last|head last j|[|o head]] eqn:Ep; simpl in Hkn.
  - destruct (rcu_head s) as [|o head] eqn:Eh; apply (same_inv s); try done; simpl;
      intros o'; rewrite ?Eh, ?Ep; simpl; try tauto; intros; set_solver.
  - done.
  - destruct (ks s !! length last) as [k|] eqn:Ek; apply (same_inv s); try done; simpl.
    + by rewrite Ep.
    + intros o i k' Ho Hw l [Hli|[Hi [Hz <-]%list_lookup_singleton_Some]]%lookup_app_Some; [by eapply Hkn|].
      assert (i = length last) as -> by lia. destruct Hw as [Hk' _]. congruence.
    + by rewrite Ep.
    + intros o i k' Ho Hw. assert (i < length last)%nat as [l Hli]%lookup_lt_is_Some.
      { destruct Hw as [Hk' _]. apply lookup_lt_Some in Hk'. apply lookup_ge_None in Ek. lia. }
      rewrite Hli. f_equal. symmetry. by eapply Hkn.
  - apply (same_inv s); try done; simpl; [by rewrite Ep|]. intros o i k Ho Hw. split; [by eapply Hkn|lia].
  - destruct (ks s !! j) as [k|] eqn:Ek; [destruct (not_quiet k (nth j last 0)) eqn:Eq|]; apply (same_inv s); try done; simpl;
      rewrite ?Ep; try done; intros o i k' Ho Hw; destruct (Hkn o i k' Ho Hw) as [Hg Hj].
    + done.
    + split; [done|]. enough (i <> j) by lia. intros ->. destruct Hw as (Hk' & Hsec & _).
      assert (k' = k) as -> by congruence. apply (not_quiet_waiting _ _ (i_odd s Hs _ _ Ek Hsec)) in Eq.
      by rewrite nth_lookup, Hg in Eq.
    + destruct Hw as [Hk' _]. apply lookup_ge_None in Ek. apply lookup_lt_Some in Hk'. lia.
  - apply (same_inv s); try done; simpl; rewrite ?Ep; simpl; intros; set_solver.
  - apply (same_inv s); try done; simpl; rewrite ?Ep; simpl.
    + intros o'. rewrite elem_of_cons. set_solver.
    + intros o' i k Ho'. apply Hkn. by right.
    + intros o' i k [->%elem_of_singleton|Ho']%elem_of_union; [intros Hw; eapply Hkn; [left|done]|by apply Hf].
Qed.

Lemma run_inv s e : inv s -> allowed e s = true -> inv (run_event e s).
Proof.
  intros Hs Ha. destruct e; try (by apply kthread_inv); simpl in *.
  - apply bool_decide_eq_true in Ha. apply (same_inv s); try done; simpl; try apply Hs.
    intros o' [->%elem_of_singleton|Ho]%elem_of_union; [done|by apply Hs].
  - apply (same_inv s); try done; simpl; try apply Hs. intros o' [Ho _]%elem_of_difference. by apply Hs.
  - apply andb_true_iff in Ha as [Hw%bool_decide_eq_true Hl%bool_decide_eq_true].
    pose proof (rcu_push_inv s o Hs Hw Hl) as Hp. unfold rcu_free. destruct (rcu_worker_th s); [|done].
    apply (same_inv (push o s)); done || apply Hp.
  - by apply rcu_wake_inv.
  - apply andb_true_iff in Ha as [Hw%bool_decide_eq_true Hl%bool_decide_eq_true].
    pose proof (rcu_push_inv s o Hs Hw Hl) as Hp. unfold synchronize_rcu. destruct (rcu_worker_th s); [|done].
    apply (rcu_wake_inv (push o s) (to_wake s) Hp).
  - by apply worker_inv.
Qed.

Lemma init_inv n : inv (rcu_init_late n).
Proof.
  assert (forall i k, ks (rcu_init_late n) !! i = Some k -> k = Kt 1 0 0 ∅) as H.
  { intros i k Hk. simpl in Hk. by apply lookup_replicate in Hk as [-> _]. }
  split; simpl; try done.
  - by intros i k ->%H.
  - by intros i k ->%H.
  - intros i k o ->%H. set_solver.
  - intros o. set_solver.
Qed.

Lemma rcu_reachable_inv n s : rcu_reachable n s -> inv s.
Proof. induction 1; [apply init_inv|by apply run_inv]. Qed.

(** ** The worker is woken and frees *)

Record wake_inv_of (s : rcu) : Prop := {
  w_parked : worker s = Parked -> rcu_worker_th s = true /\ rcu_head s = [] \/ to_wake s = 1%nat;
  w_th : rcu_worker_th s = true -> worker s = Parked /\ to_wake s = 0%nat;
  w_wake : to_wake s <> 0%nat -> worker s = Parked /\ to_wake s = 1%nat
}.

Lemma run_wake_inv s e : wake_inv_of s -> allowed e s = true -> wake_inv_of (run_event e s).
Proof.
  intros [H1 H2 H3] Ha. destruct e; simpl in *; try by split.
  - unfold rcu_free. destruct (rcu_worker_th s) eqn:Eth.
    + destruct (H2 eq_refl) as [Hp Hn]. split; simpl; rewrite ?Hn; auto. done.
    + split; simpl; try done. intros Hp. destruct (H1 Hp) as [[? _]|?]; [done|by right].
  - unfold rcu_free_wake, wake_worker. destruct (to_wake s) as [|n] eqn:En; [done|]. destruct (H3 ltac:(done)) as [Hp [= ->]].
    simpl. rewrite Hp. split; simpl; try done. intros Eth. by destruct (H2 Eth).
  - unfold synchronize_rcu, wake_worker. destruct (rcu_worker_th s) eqn:Eth.
    + destruct (H2 eq_refl) as [Hp Hn]. simpl. rewrite Hp. split; simpl; try done.
    + split; simpl; try done. intros Hp. destruct (H1 Hp) as [[? _]|?]; [done|by right].
  - pose proof (Build_wake_inv_of s H1 H2 H3) as Hs. unfold rcu_worker.
    destruct (rcu_worker_th s) eqn:Eth; [by destruct (H2 eq_refl) as [-> _]|].
    assert (worker s <> Parked -> to_wake s = 0%nat) as Hz.
    { intros Hp. destruct (decide (to_wake s = 0%nat)) as [|Hn]; [done|]. by destruct (H3 Hn). }
    destruct (worker s) as [| |h l|h l|h l j|[|o h]]; try done;
      specialize (Hz ltac:(done)); repeat case_match; split; simpl; rewrite ?Hz, ?Eth; naive_solver.
Qed.

Lemma reachable_wake_inv n s : rcu_reachable n s -> wake_inv_of s.
Proof. induction 1; [by split|by apply run_wake_inv]. Qed.

(** The worker's steps with nothing else running. *)
Fixpoint rcu_worker_steps (n : nat) (s : rcu) : rcu :=
  match n with O => s | S n => rcu_worker_steps n (rcu_worker s) end.

Lemma worker_steps_add m n s : rcu_worker_steps (m + n) s = rcu_worker_steps n (rcu_worker_steps m s).
Proof. revert s. induction m; simpl; auto. Qed.

Lemma call_steps head s :
  worker s = Call head ->
  rcu_worker_steps (length head + 1) s = s <| freed := list_to_set head ∪ freed s |> <| worker := Top |>.
Proof.
  revert s. induction head as [|o head IH]; intros s Hw; simpl.
  - unfold rcu_worker. rewrite Hw. destruct s; simpl. unfold set; simpl. f_equal. set_solver.
  - rewrite IH; unfold rcu_worker; rewrite Hw; [|done]. destruct s; simpl. f_equal.
    set_solver.
Qed.

Lemma set_worker_twice s p q : s <| worker := p |> <| worker := q |> = s <| worker := q |>.
Proof. done. Qed.

Lemma compare_steps head last n j s :
  worker s = Compare head last j -> (j + n = length (ks s))%nat ->
  (forall i k, ks s !! i = Some k -> not_quiet k (nth i last 0) = false) ->
  rcu_worker_steps (n + 1) s = s <| worker := Call head |>.
Proof.
  revert j s. induction n as [|n IH]; intros j s Hw Hj Hq; simpl; unfold rcu_worker; rewrite Hw.
  - by rewrite lookup_ge_None_2 by lia.
  - assert (j < length (ks s))%nat as [k Hk]%lookup_lt_is_Some by lia. rewrite Hk, (Hq j k Hk).
    rewrite (IH (S j)); [done|done|simpl; lia|done].
Qed.

Lemma snap_steps head n last s :
  worker s = Snap head last -> (length last + n = length (ks s))%nat -> last = gen <$> take (length last) (ks s) ->
  rcu_worker_steps (n + 1) s = s <| worker := Sleep head (gen <$> ks s) |>.
Proof.
  revert last s. induction n as [|n IH]; intros last s Hw Hj Hl; simpl; unfold rcu_worker; rewrite Hw.
  - rewrite lookup_ge_None_2 by lia. rewrite Hl. by rewrite take_ge by lia.
  - assert (length last < length (ks s))%nat as [k Hk]%lookup_lt_is_Some by lia. rewrite Hk.
    rewrite (IH (last ++ [gen k])); [done|done|rewrite length_app; simpl; lia|].
    simpl. rewrite length_app, Nat.add_1_r, (take_S_r _ _ k) by done. rewrite fmap_app. by f_equal.
Qed.

(** C8: RCU frees nothing a reader can still reach: for any number of kthreads
    and every interleaving of readers, scheduling, callers and the worker, once
    the callback of an object has run, no kthread holds a pointer to the object
    and every read section that was open when the object was given to
    [rcu_free] or [synchronize_rcu] has ended.  The 32-bit generation counters
    may wrap. *)
Theorem rcu_grace_period maxks s o i k :
  rcu_reachable maxks s -> o ∈ freed s -> ks s !! i = Some k ->
  o ∉ held k /\ exists w, waits s !! o = Some w /\ ~ (section_of k <> None /\ w !! i = Some (section_of k)).
Proof.
  intros Hs%rcu_reachable_inv Ho Hk. destruct (i_given s Hs o ltac:(tauto)) as [w Hw].
  assert (~ waiting s o i k) as Hn by by apply Hs. split.
  - intros Hh. destruct (i_held s Hs i k o Hk Hh); [congruence|done].
  - exists w. split; [done|]. intros [? ?]. apply Hn. split_and!; eauto.
Qed.

(** Nothing given to RCU is forgotten: a parked worker with objects waiting
    has a caller about to wake it, which restarts it; the worker takes all the
    objects and records every generation counter; and once no kthread is in the
    state it recorded, the next comparison runs every callback. *)
Theorem rcu_worker_frees maxks s :
  rcu_reachable maxks s ->
  (worker s = Parked -> rcu_head s <> [] -> to_wake s = 1%nat /\ worker (rcu_free_wake s) = Top) /\
  (worker s = Top -> rcu_head s <> [] ->
   rcu_worker_steps (length (ks s) + 2) s = s <| rcu_head := [] |> <| worker := Sleep (rcu_head s) (gen <$> ks s) |>) /\
  (forall head last, worker s = Sleep head last ->
   (forall i k, ks s !! i = Some k -> not_quiet k (nth i last 0) = false) ->
   rcu_worker_steps (1 + (length (ks s) + 1) + (length head + 1)) s =
     s <| freed := list_to_set head ∪ freed s |> <| worker := Top |>).
Proof.
  intros Hs%reachable_wake_inv. split_and!.
  - intros Hp Hh. destruct (w_parked s Hs Hp) as [[_ ?]|Hw]; [done|]. split; [done|]. simpl. by rewrite Hp.
  - intros Hw Hh. replace (length (ks s) + 2)%nat with (1 + (length (ks s) + 1))%nat by lia.
    rewrite worker_steps_add. cbn [rcu_worker_steps]. unfold rcu_worker at 1. rewrite Hw. destruct (rcu_head s) as [|o head]; [done|].
    by rewrite (snap_steps (o :: head) (length (ks s)) []).
  - intros head last Hw Hq. rewrite (worker_steps_add (1 + _)), (worker_steps_add 1). cbn [rcu_worker_steps]. unfold rcu_worker at 1. rewrite Hw.
    rewrite (compare_steps head last (length (ks s)) 0) by done. by rewrite (call_steps head).
Qed.

(** A run with one reader: the first comparison waits for it. *)
Definition run_events (es : list event) (s : rcu) : rcu := fold_left (fun s e => run_event e s) es s.
Definition demo_events : list event :=
  [ Link 7; Lock 0; Deref 0 7; Unlink 7; Worker; Free 7; Wake; Worker; Worker; Worker; Worker;
    Worker; Worker; Unlock 0; Switch 0 2; Worker; Worker; Switch 1 1; Worker; Worker; Worker ].

Lemma run_reachable n es s :
  rcu_reachable n s -> forallb (fun i => allowed (nth i es Worker) (run_events (take i es) s)) (seq 0 (length es)) = true ->
  rcu_reachable n (run_events es s).
Proof.
  revert s. induction es as [|e es IH]; intros s Hs Ha; simpl in *; [done|].
  apply andb_true_iff in Ha as [He Ha]. apply IH; [by apply rcu_step|].
  rewrite <- seq_shift in Ha. rewrite forallb_forall in Ha |- *. intros i Hi. apply (Ha (S i)). by apply in_map.
Qed.

Lemma rcu_grace_period_witness :
  let s := run_events demo_events (rcu_init_late 2) in 7%nat ∈ freed s /\ 7%nat ∉ held (Kt 3 0 1 ∅).
Proof.
  split; [by apply (bool_decide_unpack _); vm_compute|].
  apply (rcu_grace_period 2 (run_events demo_events (rcu_init_late 2)) 7 0 (Kt 3 0 1 ∅)).
  - apply run_reachable; [constructor|]. vm_compute. reflexivity.
  - by apply (bool_decide_unpack _); vm_compute.
  - vm_compute. reflexivity.
Defined.

Definition demo_quiet : rcu := run_events (take 15 demo_events ++ [Switch 1 1]) (rcu_init_late 2).
