(* ===== verification/Timer.v ===== *)
(** * timer: the timer heap of a kthread

    Models [runtime/timer.c] and [inc/runtime/timer.h]: a 4-ary min-heap of
    deadlines in an array, with each timer's index kept in its entry, and the
    earliest deadline published to the iokernel.  The state is one kthread's
    heap together with the entries of the timers ([e->localk] names the kthread
    whose heap holds the entry).  The specification is a finite map from armed
    timers to deadlines.  Every operation runs under [timer_lock]. *)

From S2P Require Import Prelude StdDef.

Abbreviation eid := nat.

(** The arity of the heap. *)
Definition D : nat := 4.
Definition RUNTIME_MAX_TIMERS : nat := Z.to_nat 4096.

(** [struct timer_idx] *)
Definition timer_idx : Type := Z * eid.
Definition deadline_us (x : timer_idx) : Z := fst x.

(** [struct timer_entry]; the handler [fn] and its argument are a parameter of
    [timer_softirq_one]. *)
Record timer_entry := TimerEntry { armed : bool; executing : bool; idx : nat }.
#[global] Instance timer_entry_inhabited : Inhabited timer_entry :=
  populate (TimerEntry false false 0).

(** The timer fields of a kthread, and the entries its timers point to. *)
Record timers := Timers {
  heap : list timer_idx;            (* k->timers *)
  timern : nat;                     (* k->timern *)
  entries : gmap eid timer_entry;
  next_timer_tsc : Z                (* k->q_ptrs->next_timer_tsc *)
}.

Definition at_ (s : timers) (i : nat) : timer_idx := heap s !!! i.
Definition entry (s : timers) (e : eid) : timer_entry := entries s !!! e.
Definition set_idx (i : nat) (x : timer_entry) : timer_entry := TimerEntry (armed x) (executing x) i.
Definition upd_entry (s : timers) (e : eid) (f : timer_entry -> timer_entry) : timers :=
  Timers (heap s) (timern s) (<[e := f (entry s e)]> (entries s)) (next_timer_tsc s).

(** [heap[i] = x; heap[i].e->idx = i] *)
Definition put (s : timers) (i : nat) (x : timer_idx) : timers :=
  upd_entry (Timers (<[i := x]> (heap s)) (timern s) (entries s) (next_timer_tsc s)) (snd x) (set_idx i).

Definition set_timern (s : timers) (n : nat) : timers :=
  Timers (heap s) n (entries s) (next_timer_tsc s).

(** ** The heap *)

Definition parent (i : nat) : nat := ((i - 1) / D)%nat.

(** The loop of [is_valid_heap], from [i] down to 2. *)
Fixpoint is_valid_heap_from (i : nat) (s : timers) : bool :=
  match i with
  | S (S _ as i') =>
      if deadline_us (at_ s (parent i)) >? deadline_us (at_ s i) then false
      else is_valid_heap_from i' s
  | _ => true
  end.
Definition is_valid_heap (s : timers) : bool := is_valid_heap_from (timern s - 1) s.

(** The loop of [sift_up]: [tmp] is at index [i].  The index decreases at every
    iteration, so [i] iterations are enough. *)
Fixpoint sift_up_loop (fuel : nat) (tmp : timer_idx) (i : nat) (s : timers) : timers :=
  match fuel with
  | O => s
  | S fuel =>
      if bool_decide (i = 0%nat) then s
      else
        let p := parent i in
        if deadline_us tmp >=? deadline_us (at_ s p) then s
        else sift_up_loop fuel tmp p (put (put s i (at_ s p)) p tmp)
  end.
Definition sift_up (s : timers) (i : nat) : timers := sift_up_loop i (at_ s i) i s.

(** The inner loop of [sift_down] over the children from [j]: the index of the
    smallest deadline below [w], [None] standing for [INT_MAX]. *)
Fixpoint min_child (k : nat) (s : timers) (n j : nat) (w : Z) (c : option nat) : option nat :=
  match k with
  | O => c
  | S k =>
      if (n <=? j)%nat then c
      else if deadline_us (at_ s j) <? w
      then min_child k s n (S j) (deadline_us (at_ s j)) (Some j)
      else min_child k s n (S j) w c
  end.

(** The loop of [sift_down]; the index grows and stays below [n], so [n]
    iterations are enough. *)
Fixpoint sift_down_loop (fuel : nat) (tmp : timer_idx) (i n : nat) (s : timers) : timers :=
  match fuel with
  | O => s
  | S fuel =>
      match min_child D s n (i * D + 1) (deadline_us tmp) None with
      | None => s
      | Some c => sift_down_loop fuel tmp c n (put (put s i (at_ s c)) c tmp)
      end
  end.
Definition sift_down (s : timers) (i n : nat) : timers := sift_down_loop n (at_ s i) i n s.

(** ** Operations *)

Section Ops.
(** The calibrated clock. *)
Context (cycles_per_us start_tsc : Z).

Definition update_q_ptrs (s : timers) : timers :=
  let next_tsc :=
    if (timern s =? 0)%nat then UINT64_MAX
    else u64 (deadline_us (at_ s 0) * cycles_per_us + start_tsc) in
  Timers (heap s) (timern s) (entries s) next_tsc.

Definition timer_earliest_deadline (s : timers) : Z :=
  if (timern s =? 0)%nat then 0 else deadline_us (at_ s 0).

Definition timer_init (s : timers) (e : eid) : timers :=
  upd_entry s e (fun x => TimerEntry false false (idx x)).

(** [None] is a failed [BUG_ON(e->armed)] or the [BUG()] of a full heap. *)
Definition timer_start_locked (s : timers) (e : eid) (deadline : Z) : option timers :=
  if armed (entry s e) then None
  else
    let i := timern s in
    let s := set_timern s (S i) in
    if (RUNTIME_MAX_TIMERS <=? timern s)%nat then None
    else
      let s := sift_up (put s i (deadline, e)) i in
      Some (upd_entry s e (fun x => TimerEntry true false (idx x))).

(** [timer_start], and the part of [__timer_sleep] before it parks. *)
Definition timer_start (s : timers) (e : eid) (deadline : Z) : option timers :=
  match timer_start_locked s e deadline with
  | None => None
  | Some s => Some (update_q_ptrs s)
  end.

(** [__timer_cancel]; a timer that is executing is waited for before [false]
    is returned. *)
Definition timer_cancel (s : timers) (e : eid) : bool * timers :=
  if negb (armed (entry s e)) then (false, s)
  else
    let s := upd_entry s e (fun x => TimerEntry false (executing x) (idx x)) in
    let last := (timern s - 1)%nat in
    let s := set_timern s last in
    let i := idx (entry s e) in
    if bool_decide (i = last) then (true, update_q_ptrs s)
    else
      let s := put s i (at_ s last) in
      let s := sift_up s i in
      let s := sift_down s i last in
      (true, update_q_ptrs s).

(** One iteration of the loop of [timer_softirq_one] up to the call of the
    handler: the timer that fires. *)
Definition timer_pop (s : timers) : eid * timers :=
  let i := (timern s - 1)%nat in
  let s := set_timern s i in
  let e := snd (at_ s 0) in
  let s := if (0 <? i)%nat then sift_down (put s 0 (at_ s i)) 0 i else s in
  let s := update_q_ptrs s in
  (e, upd_entry s e (fun x => TimerEntry false true (idx x))).

Definition timer_due (s : timers) (now_us : Z) : bool :=
  (0 <? timern s)%nat && (deadline_us (at_ s 0) <=? now_us).

Definition finish (s : timers) (e : eid) : timers :=
  upd_entry s e (fun x => TimerEntry (armed x) false (idx x)).

(** [timer_softirq_one]: [now i] and [preempt i] are the [i]-th reading of the
    clock and of [preempt_needed()], [fn] is what the handlers do.  The fuel
    bounds the number of handlers run. *)
Fixpoint timer_softirq_one (fuel : nat) (now : nat -> Z) (preempt : nat -> bool)
    (fn : eid -> timers -> timers) (s : timers) : list eid * timers :=
  match fuel with
  | O => ([], s)
  | S fuel =>
      if negb (preempt 0%nat) && timer_due s (now 0%nat) then
        let '(e, s) := timer_pop s in
        let s := finish (fn e s) e in
        let '(fired, s) :=
          timer_softirq_one fuel (fun i => now (S i)) (fun i => preempt (S i)) fn s in
        (e :: fired, s)
      else ([], s)
  end.
End Ops.

Definition timer_init_thread : timers :=
  Timers (replicate RUNTIME_MAX_TIMERS (0, 0%nat)) 0 ∅ UINT64_MAX.

#[global] Opaque RUNTIME_MAX_TIMERS.

(** ** Lemmas on the heap *)

Lemma parent_spec i j : (0 < j)%nat -> parent j = i <-> (4 * i + 1 <= j <= 4 * i + 4)%nat.
Proof.
  intros Hj. unfold parent, D. pose proof (Nat.div_mod_eq (j - 1) 4).
  pose proof (Nat.mod_upper_bound (j - 1) 4). split; intros H'; [subst; lia|nia].
Qed.

Lemma parent_lt j : (0 < j)%nat -> (parent j < j)%nat.
Proof. intros Hj. pose proof (proj1 (parent_spec (parent j) j Hj) eq_refl). lia. Qed.

(** The rest of the state, which sifting leaves alone. *)
Record same_rest (s s' : timers) : Prop := {
  rs_len : length (heap s') = length (heap s);
  rs_n : timern s' = timern s;
  rs_next : next_timer_tsc s' = next_timer_tsc s;
  rs_armed : forall e, armed (entry s' e) = armed (entry s e);
  rs_exec : forall e, executing (entry s' e) = executing (entry s e)
}.

Lemma same_rest_refl s : same_rest s s.
Proof. done. Qed.

Lemma same_rest_trans s1 s2 s3 : same_rest s1 s2 -> same_rest s2 s3 -> same_rest s1 s3.
Proof. intros [] []. split; congruence. Qed.

Lemma entry_upd s e f e' : entry (upd_entry s e f) e' = if decide (e = e') then f (entry s e) else entry s e'.
Proof. unfold entry, upd_entry. simpl. by rewrite lookup_total_insert. Qed.

Lemma same_rest_put s i x : same_rest s (put s i x).
Proof.
  unfold put. split; simpl; try done; [apply length_insert|..];
    intros e; rewrite entry_upd; by case_decide; subst.
Qed.

Lemma at_put s i x j :
  (i < length (heap s))%nat -> at_ (put s i x) j = if decide (i = j) then x else at_ s j.
Proof.
  intros Hi. unfold at_, put. simpl. rewrite list_lookup_total_insert.
  destruct (decide (i = j)) as [->|]; [by rewrite decide_True|rewrite decide_False; [done|]].
  by intros [].
Qed.

Lemma idx_put s i x e : idx (entry (put s i x) e) = if decide (snd x = e) then i else idx (entry s e).
Proof. unfold put. rewrite entry_upd. by case_decide. Qed.

(** The first [n] slots hold the timers of [m] with their deadlines, and each
    timer's entry points back to its slot. *)
Record holds (s : timers) (m : gmap eid Z) (n : nat) : Prop := {
  ho_n : (n <= length (heap s))%nat;
  ho_slot : forall i, (i < n)%nat ->
    m !! snd (at_ s i) = Some (deadline_us (at_ s i)) /\ idx (entry s (snd (at_ s i))) = i;
  ho_all : forall e d, m !! e = Some d ->
    (idx (entry s e) < n)%nat /\ at_ s (idx (entry s e)) = (d, e)
}.

Definition swap (s : timers) (i p : nat) : timers := put (put s i (at_ s p)) p (at_ s i).

Lemma at_swap s m n i p j :
  holds s m n -> (i < n)%nat -> (p < n)%nat ->
  at_ (swap s i p) j = if decide (j = p) then at_ s i else if decide (j = i) then at_ s p else at_ s j.
Proof.
  intros Hh Hi Hp. pose proof (ho_n _ _ _ Hh). pose proof (rs_len _ _ (same_rest_put s i (at_ s p))).
  unfold swap. rewrite !at_put by lia. repeat case_decide; congruence.
Qed.

Lemma same_rest_swap s i p : same_rest s (swap s i p).
Proof. eapply same_rest_trans; apply same_rest_put. Qed.

Lemma slots_inj s m n i j :
  holds s m n -> (i < n)%nat -> (j < n)%nat -> snd (at_ s i) = snd (at_ s j) -> i = j.
Proof.
  intros [_ Hs _] Hi Hj E. destruct (Hs i Hi) as [_ <-], (Hs j Hj) as [_ <-]. by rewrite E.
Qed.

Lemma holds_swap s m n i p :
  holds s m n -> (i < n)%nat -> (p < n)%nat -> i <> p -> holds (swap s i p) m n.
Proof.
  intros Hh Hi Hp Hne. pose proof (at_swap s m n i p) as Ha. pose proof (fun i j => slots_inj s m n i j Hh) as Hinj.
  assert (forall e, idx (entry (swap s i p) e) =
    if decide (snd (at_ s i) = e) then p else if decide (snd (at_ s p) = e) then i else idx (entry s e)) as Hidx.
  { intros e. unfold swap. by rewrite !idx_put. }
  destruct Hh as [Hn Hs Hall]. split.
  - by rewrite (rs_len _ _ (same_rest_swap s i p)).
  - intros j Hj. rewrite Hidx, Ha by done. destruct (Hs i Hi), (Hs p Hp), (Hs j Hj).
    destruct (decide (j = p)) as [->|]; [by rewrite decide_True|].
    destruct (decide (j = i)) as [->|].
    + rewrite decide_False, decide_True by (done || (intros E; by apply Hinj in E)). done.
    + rewrite !decide_False by (intros E; by apply Hinj in E). done.
  - intros e d He. rewrite Hidx. destruct (Hall e d He) as [Hlt Heq].
    repeat case_decide; subst; (split; [done|]); rewrite Ha by done.
    + rewrite decide_True by done. destruct (Hs i Hi) as [E _]. rewrite E in He. injection He as <-.
      by destruct (at_ s i).
    + rewrite decide_False, decide_True by done. destruct (Hs p Hp) as [E _]. rewrite E in He.
      injection He as <-. by destruct (at_ s p).
    + rewrite !decide_False; [done|..]; intros E; rewrite E in Heq; rewrite Heq in *; done.
Qed.

(** ** Sifting *)

Definition dl (s : timers) (i : nat) : Z := deadline_us (at_ s i).

Definition heap_ok (s : timers) (n : nat) : Prop :=
  forall j, (0 < j < n)%nat -> dl s (parent j) <= dl s j.

(** Ordered except around slot [i]: the slots not involving [i] are, and the
    children of [i] are later than its parent. *)
Definition mid_ok (s : timers) (n i : nat) : Prop :=
  (forall j, (0 < j < n)%nat -> j <> i -> parent j <> i -> dl s (parent j) <= dl s j) /\
  (forall j, (0 < j < n)%nat -> parent j = i -> (0 < i)%nat -> dl s (parent i) <= dl s j).

(** Ordered except that slot [i] may be earlier than its parent, or later than
    its children. *)
Definition up_ok (s : timers) (n i : nat) : Prop :=
  mid_ok s n i /\ forall j, (0 < j < n)%nat -> parent j = i -> dl s i <= dl s j.
Definition down_ok (s : timers) (n i : nat) : Prop :=
  mid_ok s n i /\ ((0 < i)%nat -> dl s (parent i) <= dl s i).

Lemma dl_swap s m n i p j :
  holds s m n -> (i < n)%nat -> (p < n)%nat ->
  dl (swap s i p) j = if decide (j = p) then dl s i else if decide (j = i) then dl s p else dl s j.
Proof. intros. unfold dl. rewrite (at_swap s m n) by done. repeat case_decide; done. Qed.

(** The outcome of a sift. *)
Definition sifted (s s' : timers) (m : gmap eid Z) (n : nat) : Prop :=
  same_rest s s' /\ holds s' m n /\ heap_ok s' n.

Lemma sifted_step s s1 s' m n : same_rest s s1 -> sifted s1 s' m n -> sifted s s' m n.
Proof. intros H (H1 & H2 & H3). split_and!; [by eapply same_rest_trans|done..]. Qed.

(** Decides the index comparisons of a swapped heap. *)
Ltac swap_cases :=
  repeat match goal with
    | |- context [decide (?a = ?b)] => destruct (decide (a = b)); try lia
    end.

Lemma up_ok_swap s m n i :
  holds s m n -> (0 < i < n)%nat -> up_ok s n i -> dl s i < dl s (parent i) ->
  up_ok (swap s i (parent i)) n (parent i).
Proof.
  intros Hh Hi [[H1 H2] H3] Hlt. pose proof (parent_lt i) as Hp.
  assert (forall j, (0 < j < n)%nat -> j <> i -> parent j = parent i -> dl s (parent i) <= dl s j) as Hsib.
  { intros j Hj Hne E. rewrite <- E. apply H1; [done..|]. rewrite E. lia. }
  split; [split|].
  - intros j Hj Hne Hnp. rewrite !(dl_swap s m n) by (done || lia). swap_cases; try congruence.
    + apply H2; [done..|lia].
    + by apply H1.
  - intros j Hj Hpj H0. pose proof (parent_lt (parent i) H0). pose proof (parent_lt j).
    assert (dl s (parent (parent i)) <= dl s (parent i)) by (apply H1; lia).
    rewrite !(dl_swap s m n) by (done || lia). swap_cases. pose proof (Hsib j Hj ltac:(done) Hpj). lia.
  - intros j Hj Hpj. pose proof (parent_lt j). rewrite !(dl_swap s m n) by (done || lia). swap_cases.
    pose proof (Hsib j Hj ltac:(done) Hpj). lia.
Qed.

Lemma up_ok_root s n : up_ok s n 0 -> heap_ok s n.
Proof.
  intros [[H1 _] H3] j Hj. destruct (decide (parent j = 0%nat)) as [E|].
  - rewrite E. by apply H3.
  - apply H1; [done|lia|done].
Qed.

Lemma sift_up_loop_spec fuel : forall tmp i s m n,
  holds s m n -> (i < n)%nat -> (i <= fuel)%nat -> at_ s i = tmp -> up_ok s n i ->
  sifted s (sift_up_loop fuel tmp i s) m n.
Proof.
  induction fuel as [|fuel IH]; intros tmp i s m n Hh Hi Hf Ht Hup; simpl.
  - assert (i = 0%nat) as -> by lia. split_and!; [apply same_rest_refl|done|by apply up_ok_root].
  - case_bool_decide as E0.
    { subst i. split_and!; [apply same_rest_refl|done|by apply up_ok_root]. }
    rewrite Z.geb_leb. destruct (Z.leb_spec (deadline_us (at_ s (parent i))) (deadline_us tmp)) as [Hle|Hlt].
    + destruct Hup as [[H1 H2] H3]. split_and!; [apply same_rest_refl|done|]. intros j Hj.
      destruct (decide (j = i)) as [->|]; [unfold dl; by rewrite Ht|].
      destruct (decide (parent j = i)) as [<-|]; [by apply H3|by apply H1].
    + pose proof (parent_lt i). rewrite <- Ht at 2. fold (swap s i (parent i)).
      eapply sifted_step; [apply (same_rest_swap s i (parent i))|]. apply IH; [|lia..| |].
      * apply holds_swap; [done|lia..].
      * rewrite (at_swap s m n) by (done || lia). by rewrite decide_True.
      * apply up_ok_swap with m; [done|lia|done|]. unfold dl. by rewrite Ht.
Qed.

Lemma min_child_spec s n k : forall j w c,
  match min_child k s n j w c with
  | None => c = None /\ forall x, (j <= x < j + k)%nat -> (x < n)%nat -> w <= dl s x
  | Some y =>
      (c = Some y /\ forall x, (j <= x < j + k)%nat -> (x < n)%nat -> w <= dl s x) \/
      ((j <= y < j + k)%nat /\ (y < n)%nat /\ dl s y < w /\
       forall x, (j <= x < j + k)%nat -> (x < n)%nat -> dl s y <= dl s x)
  end.
Proof.
  induction k as [|k IH]; intros j w c; simpl.
  { destruct c; [left|]; (split; [done|]); lia. }
  destruct (Nat.leb_spec n j); [destruct c; [left|]; (split; [done|]); lia|].
  fold (dl s j). destruct (Z.ltb_spec (dl s j) w) as [Hlt|Hle].
  - specialize (IH (S j) (dl s j) (Some j)).
    destruct (min_child k s n (S j) (dl s j) (Some j)) as [y|]; [|by destruct IH].
    right. destruct IH as [[[= <-] IH]|(Hy & Hn & Hd & IH)]; split_and!; try lia.
    + intros x Hx Hxn. destruct (decide (x = j)) as [->|]; [lia|]. apply IH; lia.
    + intros x Hx Hxn. destruct (decide (x = j)) as [->|]; [lia|]. apply IH; lia.
  - assert (forall (P : Prop), (forall x, (S j <= x < S j + k)%nat -> (x < n)%nat -> w <= dl s x) ->
      forall x, (j <= x < j + S k)%nat -> (x < n)%nat -> w <= dl s x) as Hext.
    { intros _ Hx x Hr Hn. destruct (decide (x = j)) as [->|]; [lia|]. apply Hx; lia. }
    specialize (IH (S j) w c). destruct (min_child k s n (S j) w c) as [y|].
    + destruct IH as [[-> IH]|(Hy & Hn & Hd & IH)]; [left; split; [done|]; by apply (Hext True)|right].
      split_and!; try lia. intros x Hx Hxn. destruct (decide (x = j)) as [->|]; [lia|]. apply IH; lia.
    + destruct IH as [-> IH]. split; [done|]. by apply (Hext True).
Qed.

Lemma down_ok_swap s m n i c :
  holds s m n -> (i < n)%nat -> down_ok s n i -> (0 < c < n)%nat -> parent c = i -> dl s c < dl s i ->
  (forall j, (0 < j < n)%nat -> parent j = i -> dl s c <= dl s j) ->
  down_ok (swap s i c) n c.
Proof.
  intros Hh Hi [[H1 H2] H3] Hc Hpc Hlt Hmin. pose proof (parent_lt c). pose proof (parent_lt i).
  split; [split|].
  - intros j Hj Hne Hnp. pose proof (parent_lt j). rewrite !(dl_swap s m n) by (done || lia).
    swap_cases; subst; try lia; auto.
    apply H2; [done..|lia].
  - intros j Hj Hpj _. pose proof (parent_lt j). rewrite !(dl_swap s m n) by (done || lia).
    swap_cases. rewrite <- Hpj. apply H1; lia.
  - intros _. rewrite !(dl_swap s m n) by (done || lia). swap_cases.
Qed.

Lemma down_ok_done s n i :
  down_ok s n i -> (forall j, (0 < j < n)%nat -> parent j = i -> dl s i <= dl s j) -> heap_ok s n.
Proof.
  intros [[H1 _] H3] Hc j Hj. destruct (decide (j = i)) as [->|]; [by apply H3; lia|].
  destruct (decide (parent j = i)) as [<-|]; [by apply Hc|by apply H1].
Qed.

Lemma sift_down_loop_spec fuel : forall tmp i s m n,
  holds s m n -> (i < n)%nat -> (n <= i + fuel)%nat -> at_ s i = tmp -> down_ok s n i ->
  sifted s (sift_down_loop fuel tmp i n s) m n.
Proof.
  induction fuel as [|fuel IH]; intros tmp i s m n Hh Hi Hf Ht Hd;
    cbn [sift_down_loop]; [lia|].
  assert (deadline_us tmp = dl s i) as Ew by (unfold dl; by rewrite Ht). rewrite Ew.
  pose proof (min_child_spec s n D (i * D + 1) (dl s i) None) as Hm.
  assert (forall j, (0 < j < n)%nat -> parent j = i -> (i * D + 1 <= j < i * D + 1 + D)%nat) as Hr.
  { intros j Hj E. apply parent_spec in E; [|lia]. unfold D. lia. }
  destruct (min_child _ _ _ _ _ _) as [c|].
  - destruct Hm as [[? _]|(Hc & Hcn & Hlt & Hmin)]; [done|].
    assert (parent c = i) as Hpc by (apply parent_spec; unfold D in *; lia).
    assert (0 < c)%nat by (unfold D in *; lia). pose proof (parent_lt c).
    subst tmp. change (put (put s i (at_ s c)) c (at_ s i)) with (swap s i c). eapply sifted_step; [apply (same_rest_swap s i c)|].
    apply IH; [|done|lia| |].
    + apply holds_swap; [done|lia..].
    + rewrite (at_swap s m n) by done. by rewrite decide_True.
    + apply down_ok_swap with m; try done. intros j Hj Hpj. apply Hmin; [by apply Hr|lia].
  - destruct Hm as [_ Hm]. split_and!; [apply same_rest_refl|done|].
    eapply down_ok_done; [done|]. intros j Hj Hpj. apply Hm; [by apply Hr|lia].
Qed.

Lemma sift_up_spec s i m n :
  holds s m n -> (i < n)%nat -> up_ok s n i -> sifted s (sift_up s i) m n.
Proof. intros. by apply sift_up_loop_spec. Qed.

Lemma sift_down_spec s i m n :
  holds s m n -> (i < n)%nat -> down_ok s n i -> sifted s (sift_down s i n) m n.
Proof. intros. apply sift_down_loop_spec; auto. lia. Qed.

Lemma heap_ok_down s n i : heap_ok s n -> (i < n)%nat -> down_ok s n i.
Proof.
  intros H Hi. split; [split; [auto|]|].
  - intros j Hj Hp H0. transitivity (dl s i); [apply H; lia|]. rewrite <- Hp. by apply H.
  - intros H0. apply H. lia.
Qed.

(** Sifting up and then down repairs a heap that is out of order around one
    slot, as [__timer_cancel] leaves it. *)
Lemma sift_both_spec s i m n :
  holds s m n -> (i < n)%nat -> mid_ok s n i -> sifted s (sift_down (sift_up s i) i n) m n.
Proof.
  intros Hh Hi Hm. destruct (decide (i = 0%nat \/ dl s (parent i) <= dl s i)) as [Hp|Hp].
  - assert (sift_up s i = s) as ->.
    { unfold sift_up. destruct i as [|i]; [done|]. destruct Hp as [|Hp]; [done|]. simpl.
      rewrite Z.geb_leb. unfold dl in Hp. by apply Z.leb_le in Hp as ->. }
    apply sift_down_spec; [done..|]. split; [done|]. intros H0. destruct Hp; lia.
  - apply Decidable.not_or in Hp as [H0 Hlt]. apply Z.nle_gt in Hlt.
    destruct (sift_up_spec s i m n) as (Hr & Hh' & Ho); [done..| |].
    { split; [done|]. intros j Hj Hpj. pose proof (proj2 Hm j Hj Hpj). lia. }
    eapply sifted_step; [done|]. apply sift_down_spec; [done..|]. by apply heap_ok_down.
Qed.

(** A timer that is not armed is written behind the last slot. *)
Lemma put_last s m n e d :
  holds s m n -> heap_ok s n -> m !! e = None -> (n < length (heap s))%nat ->
  holds (put s n (d, e)) (<[e := d]> m) (S n) /\ up_ok (put s n (d, e)) (S n) n.
Proof.
  intros [H1 H2 H3] Ho Hm Hn.
  assert (forall j, at_ (put s n (d, e)) j = if decide (n = j) then (d, e) else at_ s j) as Hat
    by (intros j; by apply at_put).
  split; [split|].
  - rewrite (rs_len _ _ (same_rest_put s n (d, e))). lia.
  - intros i Hi. rewrite Hat, idx_put. case_decide; subst; simpl.
    + by rewrite lookup_insert_eq, decide_True.
    + destruct (H2 i) as [Hs Hi']; [lia|].
      assert (e <> snd (at_ s i)) by (intros ->; congruence).
      by rewrite lookup_insert_ne, decide_False.
  - intros e' d' He'. rewrite idx_put. simpl. destruct (decide (e = e')) as [->|Hne].
    + rewrite lookup_insert_eq in He'. injection He' as <-. rewrite Hat, decide_True by done. split; [lia|done].
    + rewrite lookup_insert_ne in He' by done. destruct (H3 e' d' He').
      rewrite Hat, decide_False by lia. split; [lia|done].
  - assert (forall j, dl (put s n (d, e)) j = if decide (n = j) then d else dl s j) as Hdl.
    { intros j. unfold dl. rewrite Hat. by case_decide. }
    split; [split|].
    + intros j Hj Hne Hp. pose proof (parent_lt j). rewrite !Hdl, !decide_False by lia. apply Ho. lia.
    + intros j Hj Hp _. pose proof (parent_lt j). lia.
    + intros j Hj Hp. pose proof (parent_lt j). lia.
Qed.

(** Slot [i] is taken out by moving the last slot into it. *)
Lemma holds_remove s m n i e d :
  holds s m (S n) -> (i <= n)%nat -> at_ s i = (d, e) ->
  let s' := if decide (i = n) then s else put s i (at_ s n) in
  holds s' (delete e m) n.
Proof.
  intros Hh Hi He. pose proof (fun i j => slots_inj s m (S n) i j Hh) as Hinj.
  destruct Hh as [Hn Hs Hall]. destruct (Hs i) as [_ Hix]; [lia|]. rewrite He in Hix. simpl in Hix.
  assert (forall j, (j <= n)%nat -> j <> i -> snd (at_ s j) <> e) as Hother.
  { intros j Hj Hne E. apply Hne, Hinj; [lia..|]. by rewrite He. }
  destruct (decide (i = n)) as [->|Hne]; simpl.
  - split; [lia|..].
    + intros j Hj. rewrite lookup_delete_ne by (intros E; by apply (Hother j); [lia..|]). apply Hs. lia.
    + intros e' d' [Hne' He']%lookup_delete_Some. destruct (Hall e' d' He') as [Hlt Heq]. split; [|done].
      destruct (decide (idx (entry s e') = n)) as [E|]; [|lia]. rewrite E, He in Heq. congruence.
  - assert (forall j, at_ (put s i (at_ s n)) j = if decide (i = j) then at_ s n else at_ s j) as Ha
      by (intros; apply at_put; lia).
    destruct (Hs n) as [Hnm Hnx]; [lia|]. split.
    + rewrite (rs_len _ _ (same_rest_put _ _ _)). lia.
    + intros j Hj. rewrite Ha, idx_put. case_decide.
      * subst. rewrite decide_True by done. rewrite lookup_delete_ne; [done|].
        intros E. by apply (Hother n); [lia..|].
      * rewrite decide_False by (intros E; apply Hinj in E; lia).
        rewrite lookup_delete_ne; [apply Hs; lia|]. intros E. by apply (Hother j); [lia..|].
    + intros e' d' [Hne' He']%lookup_delete_Some. destruct (Hall e' d' He') as [Hlt Heq].
      rewrite idx_put. case_decide as Hl.
      * split; [lia|]. rewrite Ha, decide_True by done. subst e'. rewrite Hnm in He'. injection He' as <-.
        by destruct (at_ s n).
      * rewrite Ha. split.
        -- destruct (decide (idx (entry s e') = n)) as [E|]; [|lia]. rewrite E in Heq. by rewrite Heq in Hl.
        -- rewrite decide_False; [done|]. intros E. rewrite <- E, He in Heq. congruence.
Qed.

Lemma mid_ok_remove s m n i :
  holds s m (S n) -> heap_ok s (S n) -> (i < n)%nat -> mid_ok (put s i (at_ s n)) n i.
Proof.
  intros [Hn _ _] Ho Hi.
  assert (forall j, dl (put s i (at_ s n)) j = if decide (i = j) then dl s n else dl s j) as Hd.
  { intros j. unfold dl. rewrite at_put by lia. by case_decide. }
  split.
  - intros j Hj H1 H2. rewrite !Hd, !decide_False by done. apply Ho. lia.
  - intros j Hj <- H0. pose proof (parent_lt j). pose proof (parent_lt (parent j)).
    rewrite !Hd, !decide_False by lia. transitivity (dl s (parent j)); apply Ho; lia.
Qed.

Lemma heap_ok_le s n n' : heap_ok s n -> (n' <= n)%nat -> heap_ok s n'.
Proof. intros H Hn j Hj. apply H. lia. Qed.

(** The root is the earliest deadline. *)
Lemma heap_root s n i : heap_ok s n -> (i < n)%nat -> dl s 0 <= dl s i.
Proof.
  intros Ho. induction i as [i IH] using lt_wf_ind. intros Hi.
  destruct (decide (i = 0%nat)) as [->|]; [lia|]. pose proof (parent_lt i ltac:(lia)).
  transitivity (dl s (parent i)); [apply IH; lia|apply Ho; lia].
Qed.

Lemma holds_size s m n : holds s m n -> size m = n.
Proof.
  intros Hh. pose proof (fun i j => slots_inj s m n i j Hh) as Hinj. destruct Hh as [_ Hs Hall].
  rewrite <- size_dom.
  assert (dom m = list_to_set ((fun i => snd (at_ s i)) <$> seq 0 n)) as ->.
  { apply set_eq. intros e. rewrite elem_of_list_to_set, list_elem_of_fmap, elem_of_dom. split.
    - intros [d He]. destruct (Hall e d He) as [Hlt Heq]. exists (idx (entry s e)). rewrite Heq.
      split; [done|]. apply elem_of_seq. lia.
    - intros (i & -> & Hi%elem_of_seq). destruct (Hs i) as [-> _]; [lia|]. done. }
  rewrite size_list_to_set; [by rewrite length_fmap, length_seq|].
  apply NoDup_fmap_2_strong; [|apply NoDup_seq].
  intros i j Hi%elem_of_seq Hj%elem_of_seq E. apply Hinj; [lia..|done].
Qed.

(** ** The operations against a map *)

Section Specs.
Context (cycles_per_us start_tsc : Z).
#[local] Abbreviation update_q_ptrs := (update_q_ptrs cycles_per_us start_tsc).
#[local] Abbreviation timer_start := (timer_start cycles_per_us start_tsc).
#[local] Abbreviation timer_cancel := (timer_cancel cycles_per_us start_tsc).
#[local] Abbreviation timer_pop := (timer_pop cycles_per_us start_tsc).

(** The heap holds exactly the armed timers of [m], in heap order, and the
    published deadline is that of its root. *)
Record tinv (s : timers) (m : gmap eid Z) : Prop := {
  ti_len : length (heap s) = RUNTIME_MAX_TIMERS;
  ti_n : (timern s < RUNTIME_MAX_TIMERS)%nat;
  ti_holds : holds s m (timern s);
  ti_heap : heap_ok s (timern s);
  ti_armed : forall e, armed (entry s e) = bool_decide (is_Some (m !! e));
  ti_next : next_timer_tsc s = next_timer_tsc (update_q_ptrs s)
}.

(** Entries and published deadline do not matter to [holds] and [heap_ok]
    beyond the indices. *)
Lemma holds_ext s s' m n :
  holds s m n -> heap s' = heap s -> (forall e, idx (entry s' e) = idx (entry s e)) -> holds s' m n.
Proof.
  intros [H1 H2 H3] Eh Ei. unfold at_ in *.
  split; unfold at_; rewrite Eh; [done|..].
  - intros i Hi. rewrite Ei. auto.
  - intros e d He. rewrite Ei. auto.
Qed.

Lemma heap_ok_ext s s' n : heap_ok s n -> heap s' = heap s -> heap_ok s' n.
Proof. intros H E j Hj. unfold dl, at_. rewrite E. by apply H. Qed.

(** From a sifted heap to the invariant: [f] is the last update of the entry
    of [e], the only one whose armed flag changes. *)
Lemma sifted_tinv s s' m e f :
  sifted s s' m (timern s) -> length (heap s) = RUNTIME_MAX_TIMERS ->
  (timern s < RUNTIME_MAX_TIMERS)%nat ->
  (forall x, idx (f x) = idx x) ->
  (forall e', armed (if decide (e = e') then f (entry s' e) else entry s e') = bool_decide (is_Some (m !! e'))) ->
  tinv (update_q_ptrs (upd_entry s' e f)) m /\ tinv (upd_entry (update_q_ptrs s') e f) m.
Proof.
  intros ([Hl Hn Hx Ha He] & Hh & Ho) Hlen Hmax Hf Harm.
  assert (forall e', idx (entry (upd_entry s' e f) e') = idx (entry s' e')) as Hi.
  { intros e'. rewrite entry_upd. case_decide; subst; auto. }
  assert (forall e', armed (entry (upd_entry s' e f) e') = bool_decide (is_Some (m !! e'))) as Harm'.
  { intros e'. rewrite entry_upd, <- Harm. case_decide; [done|]. apply Ha. }
  split; (split; simpl; rewrite ?Hl, ?Hn; try done; try by eapply holds_ext).
Qed.

Lemma timer_start_spec s m e d :
  tinv s m ->
  timer_start s e d = None /\ (is_Some (m !! e) \/ RUNTIME_MAX_TIMERS <= S (size m))%nat \/
  exists s', timer_start s e d = Some s' /\ m !! e = None /\
    (S (size m) < RUNTIME_MAX_TIMERS)%nat /\ tinv s' (<[e := d]> m).
Proof.
  intros [Hl Hn Hh Ho Ha Hx]. unfold Timer.timer_start, timer_start_locked.
  rewrite Ha, (holds_size s m _ Hh). case_bool_decide as Hm; [left; split; [done|by left]|].
  apply eq_None_not_Some in Hm. simpl.
  destruct (Nat.leb_spec RUNTIME_MAX_TIMERS (S (timern s))) as [|Hlt]; [left; split; [done|by right]|]. right.
  set (s0 := set_timern s (S (timern s))). set (s1 := put s0 (timern s) (d, e)).
  eexists. split; [done|]. split; [done|]. split; [done|].
  pose proof (same_rest_put s0 (timern s) (d, e)) as Hr. fold s1 in Hr.
  assert (timern s1 = S (timern s)) as Hn1 by apply Hr.
  destruct (put_last s0 m (timern s) e d) as [Hh1 Hu]; [by eapply holds_ext|by eapply heap_ok_ext|done|simpl; lia|].
  assert (sifted s1 (sift_up s1 (timern s)) (<[e := d]> m) (timern s1)) as Hsift.
  { rewrite Hn1. apply sift_up_spec; [done|lia|done]. }
  apply (sifted_tinv s1 _ _ e (fun x => TimerEntry true false (idx x)) Hsift).
  - destruct Hr as [-> _ _ _ _]. done.
  - lia.
  - done.
  - intros e'. case_decide as E; simpl.
    + subst. by rewrite lookup_insert_eq, bool_decide_true.
    + rewrite lookup_insert_ne by done. rewrite <- Ha. apply Hr.
Qed.
Lemma sifted_tinv_q s s' m :
  sifted s s' m (timern s) -> length (heap s) = RUNTIME_MAX_TIMERS ->
  (timern s < RUNTIME_MAX_TIMERS)%nat ->
  (forall e, armed (entry s e) = bool_decide (is_Some (m !! e))) ->
  tinv (update_q_ptrs s') m.
Proof.
  intros ([Hl Hn Hx Ha He] & Hh & Ho) Hlen Hmax Harm.
  split; simpl; rewrite ?Hl, ?Hn; try done; [by eapply holds_ext|]. intros e. rewrite <- Harm. apply Ha.
Qed.

Lemma timer_cancel_spec s m e b s' :
  tinv s m -> timer_cancel s e = (b, s') ->
  b = bool_decide (is_Some (m !! e)) /\ tinv s' (delete e m).
Proof.
  intros Hinv. pose proof Hinv as [Hl Hn Hh Ho Ha Hx]. unfold Timer.timer_cancel. rewrite Ha.
  case_bool_decide as Hm; simpl.
  2: { intros [= <- <-]. apply eq_None_not_Some in Hm. by rewrite delete_id. }
  destruct Hm as [d Hm]. destruct (ho_all _ _ _ Hh e d Hm) as [Hlt Hat].
  set (s0 := set_timern _ _). set (last := (timern s - 1)%nat) in *.
  assert (timern s = S last) as En by lia. rewrite En in Hh, Ho, Hlt.
  assert (forall e', idx (entry s0 e') = idx (entry s e')) as Hi0.
  { intros e'. change (entry s0 e') with (entry (upd_entry s e (fun x => TimerEntry false (executing x) (idx x))) e').
    rewrite entry_upd. by case_decide; subst. }
  assert (holds s0 m (S last)) as Hh0 by (by eapply holds_ext).
  assert (forall e', armed (entry s0 e') = bool_decide (is_Some (delete e m !! e'))) as Ha0.
  { intros e'. change (entry s0 e') with (entry (upd_entry s e (fun x => TimerEntry false (executing x) (idx x))) e').
    rewrite entry_upd. case_decide; subst; simpl.
    - by rewrite lookup_delete_eq, bool_decide_false by (intros []; done).
    - by rewrite lookup_delete_ne, Ha. }
  rewrite !Hi0. set (i := idx (entry s e)) in *.
  pose proof (holds_remove s0 m last i e d Hh0 ltac:(lia) Hat) as Hrem. simpl in Hrem.
  assert (Hn0 : (last < RUNTIME_MAX_TIMERS)%nat) by lia.
  case_bool_decide as Hil.
  - rewrite decide_True in Hrem by done. intros [= <- <-]. split; [done|].
    apply (sifted_tinv_q s0); [|done..]. split_and!; [apply same_rest_refl|done|].
    apply (heap_ok_le _ (S last)); [by eapply heap_ok_ext|simpl; lia].
  - rewrite decide_False in Hrem by done. intros [= <- <-]. split; [done|].
    set (s1 := put s0 i (at_ s0 last)) in *.
    pose proof (same_rest_put s0 i (at_ s0 last)) as Hr. fold s1 in Hr.
    apply (sifted_tinv_q s1); [|destruct Hr as [Hr1 Hr2 Hr3 Hr4 Hr5]; rewrite ?Hr1, ?Hr2; done..|].
    + replace (timern s1) with last by (symmetry; apply Hr). apply sift_both_spec; [done|lia|].
      apply (mid_ok_remove s0 m); [done| |lia]. by eapply heap_ok_ext.
    + intros e'. rewrite <- Ha0. apply Hr.
Qed.

Lemma timer_pop_spec s m e s' :
  tinv s m -> (0 < timern s)%nat -> timer_pop s = (e, s') ->
  exists d, d = deadline_us (at_ s 0) /\ m !! e = Some d /\
    (forall e' d', m !! e' = Some d' -> d <= d') /\ tinv s' (delete e m).
Proof.
  intros [Hl Hn Hh Ho Ha Hx] Hpos. unfold Timer.timer_pop.
  set (last := (timern s - 1)%nat). set (s0 := set_timern s last).
  intros [= <- <-]. change (at_ s0 0) with (at_ s 0). destruct (at_ s 0) as [d e] eqn:E0. simpl.
  destruct (ho_slot _ _ _ Hh 0%nat Hpos) as [Hm _]. rewrite E0 in Hm. simpl in Hm.
  exists d. split; [done|]. split; [done|]. split.
  { intros e' d' He'. destruct (ho_all _ _ _ Hh e' d' He') as [Hlt Hat].
    pose proof (heap_root s _ _ Ho Hlt) as H. unfold dl in H. by rewrite E0, Hat in H. }
  assert (timern s = S last) as En by lia. rewrite En in Hh, Ho.
  pose proof (holds_remove s0 m last 0 e d ltac:(by eapply holds_ext) ltac:(lia) E0) as Hrem.
  assert (forall u, (forall e', armed (entry u e') = armed (entry s e')) -> forall v, forall e',
    armed (if decide (e = e') then TimerEntry false true (idx (entry v e)) else entry u e') =
    bool_decide (is_Some (delete e m !! e'))) as Harm.
  { intros u Hu v e'. destruct (decide (e = e')) as [<-|]; simpl.
    - by rewrite lookup_delete_eq, bool_decide_false by (intros []; done).
    - by rewrite lookup_delete_ne, Hu, Ha. }
  destruct (Nat.ltb_spec 0 last) as [Hlast|Hlast].
  - rewrite decide_False in Hrem by lia. set (s1 := put s0 0 (at_ s0 last)) in *.
    pose proof (same_rest_put s0 0 (at_ s0 last)) as Hr. fold s1 in Hr.
    assert (timern s1 = last) as En1 by apply Hr.
    apply (sifted_tinv s1 _ _ e (fun x => TimerEntry false true (idx x))).
    + rewrite En1. apply sift_down_spec; [done|lia|]. split; [|lia].
      apply (mid_ok_remove s0 m); [by eapply holds_ext|by eapply heap_ok_ext|done].
    + by destruct Hr as [-> _ _ _ _].
    + lia.
    + done.
    + apply Harm. apply Hr.
  - rewrite decide_True in Hrem by lia.
    apply (sifted_tinv s0 s0 _ e (fun x => TimerEntry false true (idx x))).
    + split_and!; [apply same_rest_refl|done|]. intros j Hj. simpl in Hj. lia.
    + done.
    + simpl. lia.
    + done.
    + by apply Harm.
Qed.
Lemma finish_tinv s m e : tinv s m -> tinv (finish s e) m.
Proof.
  intros [Hl Hn Hh Ho Ha Hx]. split; try done.
  - eapply holds_ext; [done..|]. intros e'. unfold finish. rewrite entry_upd. by case_decide; subst.
  - intros e'. rewrite <- Ha. unfold finish. rewrite entry_upd. by case_decide; subst.
Qed.

(** *** Histories of a heap *)

Inductive top := TStart (e : eid) (d : Z) | TCancel (e : eid) | TExpire (now : Z).
Inductive tres := RStarted | RBug | RCancelled (b : bool) | RFired (e : option eid).

Definition top_step (o : top) (s : timers) : tres * timers :=
  match o with
  | TStart e d => match timer_start s e d with Some s' => (RStarted, s') | None => (RBug, s) end
  | TCancel e => let '(b, s') := timer_cancel s e in (RCancelled b, s')
  | TExpire now =>
      if timer_due s now
      then let '(e, s') := timer_pop s in (RFired (Some e), finish s' e)
      else (RFired None, s)
  end.

(** What the operations promise, on the map of armed timers. *)
Inductive map_step : gmap eid Z -> top -> tres -> gmap eid Z -> Prop :=
| ms_start m e d :
    m !! e = None -> (S (size m) < RUNTIME_MAX_TIMERS)%nat ->
    map_step m (TStart e d) RStarted (<[e := d]> m)
| ms_bug m e d :
    is_Some (m !! e) \/ (RUNTIME_MAX_TIMERS <= S (size m))%nat -> map_step m (TStart e d) RBug m
| ms_cancel m e : map_step m (TCancel e) (RCancelled (bool_decide (is_Some (m !! e)))) (delete e m)
| ms_fire m e d now :
    m !! e = Some d -> d <= now -> (forall e' d', m !! e' = Some d' -> d <= d') ->
    map_step m (TExpire now) (RFired (Some e)) (delete e m)
| ms_quiet m now :
    (forall e d, m !! e = Some d -> now < d) -> map_step m (TExpire now) (RFired None) m.

Inductive map_run : gmap eid Z -> list top -> list tres -> gmap eid Z -> Prop :=
| mr_nil m : map_run m [] [] m
| mr_cons m o r m' os rs m'' : map_step m o r m' -> map_run m' os rs m'' -> map_run m (o :: os) (r :: rs) m''.

Fixpoint run_timers (os : list top) (s : timers) : list tres * timers :=
  match os with
  | [] => ([], s)
  | o :: os => let '(r, s) := top_step o s in let '(rs, s) := run_timers os s in (r :: rs, s)
  end.

Lemma timer_not_due s m now :
  tinv s m -> timer_due s now = false -> forall e d, m !! e = Some d -> now < d.
Proof.
  intros [_ _ Hh Ho _ _] Hd e d He. destruct (ho_all _ _ _ Hh e d He) as [Hlt Hat].
  pose proof (heap_root s _ _ Ho Hlt) as Hr. unfold dl in Hr. rewrite Hat in Hr. simpl in Hr.
  unfold timer_due in Hd. apply andb_false_iff in Hd as [Hd|Hd]; [apply Nat.ltb_ge in Hd; lia|].
  apply Z.leb_gt in Hd. lia.
Qed.

Lemma timer_due_pop s m now e s' :
  tinv s m -> timer_due s now = true -> timer_pop s = (e, s') ->
  exists d, m !! e = Some d /\ d <= now /\ (forall e' d', m !! e' = Some d' -> d <= d') /\
    tinv (finish s' e) (delete e m).
Proof.
  intros Hinv Hd E. apply andb_true_iff in Hd as [Hn Hd]. apply Nat.ltb_lt in Hn. apply Z.leb_le in Hd.
  destruct (timer_pop_spec s m e s' Hinv Hn E) as (d & -> & Hm & Hmin & Hinv').
  eexists. split_and!; [done..|by apply finish_tinv].
Qed.

Lemma top_step_refines o s m r s' :
  tinv s m -> top_step o s = (r, s') -> exists m', map_step m o r m' /\ tinv s' m'.
Proof.
  intros Hinv. destruct o as [e d|e|now]; cbn [top_step].
  - destruct (timer_start_spec s m e d Hinv) as [[-> H]|(s1 & -> & Hm & Hsz & H)]; intros [= <- <-].
    + exists m. split; [by constructor|done].
    + eexists. split; [by constructor|done].
  - destruct (timer_cancel s e) as [b s1] eqn:E. intros [= <- <-].
    destruct (timer_cancel_spec s m e b s1 Hinv E) as [-> H]. eexists. split; [constructor|done].
  - destruct (timer_due s now) eqn:Ed.
    + destruct (timer_pop s) as [e s1] eqn:E. intros [= <- <-].
      destruct (timer_due_pop s m now e s1 Hinv Ed E) as (d & H1 & H2 & H3 & H4).
      eexists. split; [by eapply ms_fire|done].
    + intros [= <- <-]. exists m. split; [|done]. constructor. by eapply timer_not_due.
Qed.

Lemma init_tinv : tinv timer_init_thread ∅.
Proof.
  assert (0 < RUNTIME_MAX_TIMERS)%nat as Hmax by (vm_compute; lia).
  split; simpl; [apply length_replicate|done| |intros j Hj; lia| |done].
  - split; [lia|intros i Hi; lia|by intros e d ?].
  - intros e. unfold entry. simpl. by rewrite lookup_total_empty, lookup_empty.
Qed.

Lemma run_timers_refines os : forall s m rs s',
  tinv s m -> run_timers os s = (rs, s') -> exists m', map_run m os rs m' /\ tinv s' m'.
Proof.
  induction os as [|o os IH]; intros s m rs s' Hinv; simpl.
  - intros [= <- <-]. exists m. split; [constructor|done].
  - destruct (top_step o s) as [r s1] eqn:E1. destruct (run_timers os s1) as [rs1 s2] eqn:E2.
    intros [= <- <-]. destruct (top_step_refines o s m r s1 Hinv E1) as (m1 & H1 & Hinv1).
    destruct (IH _ _ _ _ Hinv1 E2) as (m2 & H2 & Hinv2). exists m2. split; [by econstructor|done].
Qed.

(** The published deadline is that of an earliest armed timer. *)
Lemma published s m :
  tinv s m ->
  (m = ∅ /\ next_timer_tsc s = UINT64_MAX) \/
  exists e d, m !! e = Some d /\ (forall e' d', m !! e' = Some d' -> d <= d') /\
    next_timer_tsc s = u64 (d * cycles_per_us + start_tsc).
Proof.
  intros [_ _ Hh Ho _ ->]. simpl. destruct (Nat.eqb_spec (timern s) 0) as [E|E].
  - left. split; [|done]. apply map_size_empty_inv. by rewrite (holds_size s m _ Hh).
  - right. destruct (at_ s 0) as [d e] eqn:E0. exists e, d.
    destruct (ho_slot _ _ _ Hh 0%nat) as [Hm _]; [lia|]. rewrite E0 in Hm. split_and!; [done| |done].
    intros e' d' He'. destruct (ho_all _ _ _ Hh e' d' He') as [Hlt Hat].
    pose proof (heap_root s _ _ Ho Hlt) as Hr. unfold dl in Hr. by rewrite E0, Hat in Hr.
Qed.

(** What a run of the timer softirq fires, for handlers that do not touch
    timers and no preemption: [fired] at the clock readings [now]. *)
Record fires (now : nat -> Z) (m : gmap eid Z) (fired : list eid) (m' : gmap eid Z) : Prop := {
  fi_left : forall e, m' !! e = if decide (e ∈ fired) then None else m !! e;
  fi_due : forall i e, fired !! i = Some e -> exists d, m !! e = Some d /\ d <= now i;
  fi_order : forall i j a b da db, (i < j)%nat -> fired !! i = Some a -> fired !! j = Some b ->
    m !! a = Some da -> m !! b = Some db -> da <= db;
  fi_rest : forall e d, m' !! e = Some d -> now (length fired) < d
}.

Lemma fires_cons now m e d fired m' :
  m !! e = Some d -> d <= now 0%nat -> (forall e' d', m !! e' = Some d' -> d <= d') ->
  fires (fun i => now (S i)) (delete e m) fired m' -> fires now m (e :: fired) m'.
Proof.
  intros He Hd Hmin [H1 H2 H3 H4]. split.
  - intros e'. rewrite H1. destruct (decide (e' = e)) as [->|Hne].
    + rewrite (decide_True _ _ (list_elem_of_here e fired)). case_decide; [done|]. apply lookup_delete_eq.
    + rewrite lookup_delete_ne by done.
      destruct (decide (e' ∈ fired)); [rewrite decide_True; [done|by right]|].
      rewrite decide_False; [done|]. by intros [|]%elem_of_cons.
  - intros [|i] e' E; simpl in E.
    + injection E as <-. eauto.
    + destruct (H2 i e' E) as (d' & [_ Hd']%lookup_delete_Some & Hle). eauto.
  - intros [|i] [|j] a b da db Hij Ha Hb Hda Hdb; simpl in *; try lia.
    + injection Ha as <-. assert (da = d) as -> by congruence. eauto.
    + destruct (H2 i a Ha) as (da' & Ea & _), (H2 j b Hb) as (db' & Eb & _).
      assert (da' = da) as -> by (apply lookup_delete_Some in Ea as [_ Ea]; congruence).
      assert (db' = db) as -> by (apply lookup_delete_Some in Eb as [_ Eb]; congruence).
      eapply (H3 i j); eauto. lia.
  - intros e' d' He'. exact (H4 e' d' He').
Qed.

Lemma softirq_fires fuel : forall now s m fired s',
  tinv s m -> (size m < fuel)%nat ->
  timer_softirq_one cycles_per_us start_tsc fuel now (fun _ => false) (fun _ s => s) s = (fired, s') ->
  exists m', tinv s' m' /\ fires now m fired m'.
Proof.
  induction fuel as [|fuel IH]; intros now s m fired s' Hinv Hf; [lia|].
  cbn [timer_softirq_one negb andb]. destruct (timer_due s (now 0%nat)) eqn:Ed.
  - destruct (timer_pop s) as [e s1] eqn:E.
    destruct (timer_due_pop s m _ e s1 Hinv Ed E) as (d & H1 & H2 & H3 & H4).
    destruct (timer_softirq_one _ _ _ _ _ _ _) as [fired1 s2] eqn:E2. intros [= <- <-].
    eapply IH in E2 as (m' & Hinv' & Hfi); [|done|].
    + exists m'. split; [done|]. by eapply fires_cons.
    + assert (size m <> 0)%nat by (intros E0%map_size_empty_inv; by subst).
      rewrite map_size_delete_Some by eauto. lia.
  - intros [= <- <-]. exists m. split; [done|]. split; [done|done|done|].
    intros e d He. simpl. by eapply timer_not_due.
Qed.

(** The timer softirq loop terminates and fires exactly the due timers: with
    handlers that leave the timers alone and no preemption, every timer it
    fires was due at the clock reading that fired it, they fire in the order
    of their deadlines, and it stops only when no armed timer is due. *)
Theorem timer_softirq_fires_due now s m fired s' :
  tinv s m ->
  timer_softirq_one cycles_per_us start_tsc (S (size m)) now (fun _ => false) (fun _ s => s) s = (fired, s') ->
  exists m', tinv s' m' /\
    (forall e, m' !! e = if decide (e ∈ fired) then None else m !! e) /\
    (forall i e, fired !! i = Some e -> exists d, m !! e = Some d /\ d <= now i) /\
    (forall i j a b da db, (i < j)%nat -> fired !! i = Some a -> fired !! j = Some b ->
       m !! a = Some da -> m !! b = Some db -> da <= db) /\
    (forall e d, m' !! e = Some d -> now (length fired) < d).
Proof.
  intros Hinv E. eapply softirq_fires in E as (m' & Hinv' & []); [|done|lia]. exists m'. by split_and!.
Qed.

Lemma is_valid_heap_from_ok i s n : heap_ok s n -> (i < n)%nat -> is_valid_heap_from i s = true.
Proof.
  intros Ho. induction i as [|[|i] IH]; intros Hi; [done..|]. cbn [is_valid_heap_from].
  rewrite Z.gtb_ltb. pose proof (Ho (S (S i)) ltac:(lia)) as H. unfold dl in H.
  destruct (Z.ltb_spec (deadline_us (at_ s (S (S i)))) (deadline_us (at_ s (parent (S (S i)))))); [lia|].
  apply IH. lia.
Qed.

(** The assertion [assert_timer_heap_is_valid] of the timer softirq holds in
    every state the operations reach. *)
Theorem heap_assertion_holds os :
  is_valid_heap (snd (run_timers os timer_init_thread)) = true.
Proof.
  destruct (run_timers os timer_init_thread) as [rs s] eqn:E.
  destruct (run_timers_refines os _ _ _ _ init_tinv E) as (m & _ & [_ _ _ Ho _ _]). simpl.
  unfold is_valid_heap. destruct (timern s) as [|n] eqn:En; [done|].
  eapply is_valid_heap_from_ok; [done|lia].
Qed.

(** C6: over any sequence of arming, cancelling and expiring timers the array
    heap behaves as a map from armed timers to deadlines: arming an armed
    timer or a 4096th one is the only failure, a cancel succeeds exactly when
    the timer is armed, expiry fires a due timer with an earliest deadline
    and fires nothing only when nothing is due; and the deadline published to
    the iokernel is always that of an earliest armed timer. *)
Theorem timer_refines_map os :
  let '(rs, s) := run_timers os timer_init_thread in
  exists m, map_run ∅ os rs m /\
    ((m = ∅ /\ next_timer_tsc s = UINT64_MAX) \/
     exists e d, m !! e = Some d /\ (forall e' d', m !! e' = Some d' -> d <= d') /\
       next_timer_tsc s = u64 (d * cycles_per_us + start_tsc)).
Proof.
  destruct (run_timers os timer_init_thread) as [rs s] eqn:E.
  destruct (run_timers_refines os _ _ _ _ init_tinv E) as (m & Hm & Hinv).
  exists m. split; [done|]. by apply published.
Qed.
End Specs.

(** Timer 1 at 30us, timer 2 at 10us and timer 3 at 20us, with one clock cycle
    per microsecond. *)
Definition demo_timers : timers :=
  snd (run_timers 1 0 [TStart 1 30; TStart 2 10; TStart 3 20]%nat timer_init_thread).

Lemma demo_timers_inv : exists m, tinv 1 0 demo_timers m /\ size m = 3%nat.
Proof.
  unfold demo_timers. destruct (run_timers 1 0 _ timer_init_thread) as [rs s] eqn:E. simpl.
  destruct (run_timers_refines 1 0 _ _ _ _ _ (init_tinv 1 0) E) as (m & _ & Hinv). exists m.
  split; [done|]. rewrite (holds_size s m _ (ti_holds _ _ _ _ Hinv)).
  assert (timern (snd (rs, s)) = 3%nat) as H by (rewrite <- E; vm_compute; reflexivity). exact H.
Qed.

Lemma timer_softirq_fires_due_witness :
  let '(fired, s) := timer_softirq_one 1 0 4 (fun _ => 25) (fun _ => false) (fun _ s => s) demo_timers in
  fired = [2; 3]%nat /\ exists m', tinv 1 0 s m' /\ forall e d, m' !! e = Some d -> 25 < d.
Proof.
  destruct (timer_softirq_one _ _ _ _ _ _ _) as [fired s] eqn:E.
  destruct demo_timers_inv as (m & Hinv & Hsz).
  destruct (timer_softirq_fires_due 1 0 (fun _ => 25) demo_timers m fired s Hinv) as (m' & Hi & _ & _ & _ & Hr).
  { rewrite Hsz. exact E. }
  split; [|exists m'; split; [exact Hi|exact Hr]].
  assert (fst (fired, s) = [2; 3]%nat) as H by (rewrite <- E; vm_compute; reflexivity). exact H.
Defined.

(** [is_valid_heap] never compares slot 1 with the root: it accepts a heap
    whose root is later than its first child. *)
Theorem is_valid_heap_misses_first_child :
  let s := Timers [(30, 1%nat); (10, 2%nat)] 2 ∅ 0 in
  is_valid_heap s = true /\ ~ heap_ok s 2.
Proof.
  split; [reflexivity|]. intros H. specialize (H 1%nat ltac:(lia)). vm_compute in H. by apply H.
Qed.
