(* ===== verification/Mutex.v ===== *)
(** * sync: the mutex

    Models the mutex of [runtime/sync.c] and [inc/runtime/sync.h] one atomic
    access at a time, for any number of threads: the fast paths on the word
    [held], the slow paths under [waiter_lock], parking, and the hand-off of
    the mutex to the thread that waited longest.  A thread's program counter
    says which access it does next. *)

From S2P Require Import Prelude StdDef.

Abbreviation tid := nat.

(** [1 << 31] at type [int]. *)
Definition WAITER_FLAG : Z := - 2 ^ 31.

Record mutex := MutexT {
  held : Z;                   (* atomic_t held *)
  waiter_lock : bool;         (* spinlock_t waiter_lock *)
  waiters : list tid          (* struct list_head waiters *)
}.

Definition mutex_init : mutex := MutexT 0 false [].
Definition mutex_held (m : mutex) : bool := negb (held m =? 0).

Definition set_held (m : mutex) (v : Z) : mutex := MutexT v (waiter_lock m) (waiters m).
Definition set_wlock (m : mutex) (b : bool) : mutex := MutexT (held m) b (waiters m).
Definition set_waiters (m : mutex) (l : list tid) : mutex := MutexT (held m) (waiter_lock m) l.

(** The next access of a thread: in [mutex_try_lock] ([T0]), [mutex_lock] and
    [__mutex_lock] ([L0] to [L6]), parked, in its critical section, or in
    [mutex_unlock] and [__mutex_unlock] ([U0] to [U6]). *)
Inductive pc :=
| Idle | T0
| L0          (* cmpxchg(held, 0, 1) *)
| L1          (* spin_lock(waiter_lock) *)
| L2          (* fetch_and_or(held, WAITER_FLAG) *)
| L3          (* it was 0: atomic_write(held, 1) *)
| L4          (* spin_unlock(waiter_lock) *)
| L5          (* it was not: list_add_tail(waiters) *)
| L6          (* spin_unlock(waiter_lock) and park *)
| Parked
| Crit
| U0          (* cmpxchg(held, 1, 0) *)
| U1          (* spin_lock(waiter_lock) *)
| U2          (* list_pop(waiters) *)
| U3          (* no waiter: atomic_write(held, 0) *)
| U4          (* spin_unlock(waiter_lock) *)
| U5 (w : tid)   (* a waiter: spin_unlock(waiter_lock) *)
| U6 (w : tid).  (* thread_ready(waketh) *)

#[global] Instance pc_eq_dec : EqDecision pc.
Proof. solve_decision. Defined.

(** The access a thread at [p] makes: its next program counter, the mutex, and
    the thread it makes ready.  [None] when it cannot step: it spins on
    [waiter_lock], is parked, or is not in a mutex operation. *)
Definition exec (t : tid) (p : pc) (m : mutex) : option (pc * mutex * option tid) :=
  match p with
  | Idle | Parked | Crit => None
  | T0 =>
      let '(ok, v) := atomic_cmpxchg (held m) 0 1 in
      Some (if ok then Crit else Idle, set_held m v, None)
  | L0 =>
      let '(ok, v) := atomic_cmpxchg (held m) 0 1 in
      Some (if ok then Crit else L1, set_held m v, None)
  | L1 => if waiter_lock m then None else Some (L2, set_wlock m true, None)
  | L2 =>
      let '(old, v) := atomic_fetch_and_or (held m) WAITER_FLAG in
      Some (if old =? 0 then L3 else L5, set_held m v, None)
  | L3 => Some (L4, set_held m 1, None)
  | L4 => Some (Crit, set_wlock m false, None)
  | L5 => Some (L6, set_waiters m (waiters m ++ [t]), None)
  | L6 => Some (Parked, set_wlock m false, None)
  | U0 =>
      let '(ok, v) := atomic_cmpxchg (held m) 1 0 in
      Some (if ok then Idle else U1, set_held m v, None)
  | U1 => if waiter_lock m then None else Some (U2, set_wlock m true, None)
  | U2 =>
      match waiters m with
      | [] => Some (U3, m, None)
      | w :: l => Some (U5 w, set_waiters m l, None)
      end
  | U3 => Some (U4, set_held m 0, None)
  | U4 => Some (Idle, set_wlock m false, None)
  | U5 w => Some (U6 w, set_wlock m false, None)
  | U6 w => Some (Idle, m, Some w)
  end.

Record state := State { pcs : tid -> pc; mtx : mutex }.

(** A thread made ready returns from [__mutex_lock]. *)
Definition wake (f : tid -> pc) (w : option tid) : tid -> pc :=
  match w with Some w => upd f w Crit | None => f end.

Inductive step : state -> state -> Prop :=
| step_try s t : pcs s t = Idle -> step s (State (upd (pcs s) t T0) (mtx s))
| step_lock s t : pcs s t = Idle -> step s (State (upd (pcs s) t L0) (mtx s))
| step_unlock s t : pcs s t = Crit -> step s (State (upd (pcs s) t U0) (mtx s))
| step_exec s t p m w :
    exec t (pcs s t) (mtx s) = Some (p, m, w) -> step s (State (wake (upd (pcs s) t p) w) m).

Definition initial : state := State (fun _ => Idle) mutex_init.

(** ** The invariant *)

(** The program counters of a thread that owns the mutex, or is about to give
    it to the thread it popped. *)
Definition token (p : pc) : bool :=
  match p with L3 | L4 | Crit | U0 | U1 | U2 | U3 | U5 _ | U6 _ => true | _ => false end.

(** ... and of a thread that holds [waiter_lock]. *)
Definition locks (p : pc) : bool :=
  match p with L2 | L3 | L4 | L5 | L6 | U2 | U3 | U4 | U5 _ => true | _ => false end.

Definition hands_to (p : pc) : option tid :=
  match p with U5 w | U6 w => Some w | _ => None end.

Definition waiting (p : pc) : bool := match p with L6 | Parked => true | _ => false end.

(** The thread to which the owner [o] is handing the mutex. *)
Definition handed (f : tid -> pc) (o : option tid) : option tid :=
  match o with Some u => hands_to (f u) | None => None end.

(** What [held] is while a thread at [p] owns the mutex. *)
Definition held_by (p : pc) (v : Z) : Prop :=
  match p with
  | L3 => v = WAITER_FLAG
  | L4 => v = 1
  | _ => v = 1 \/ v = WAITER_FLAG + 1
  end.

(** [o] is the owner of the mutex and [l] the holder of [waiter_lock]. *)
Record inv (s : state) (o l : option tid) : Prop := {
  inv_token : forall t, token (pcs s t) = true <-> o = Some t;
  inv_locks : forall t, locks (pcs s t) = true <-> l = Some t;
  inv_wlock : waiter_lock (mtx s) = bool_decide (is_Some l);
  inv_held : match o with Some t => held_by (pcs s t) (held (mtx s)) | None => held (mtx s) = 0 end;
  inv_nodup : NoDup (waiters (mtx s));
  inv_waiting : forall t, waiting (pcs s t) = true <->
    t ∈ waiters (mtx s) \/ handed (pcs s) o = Some t;
  inv_handed : forall t, handed (pcs s) o = Some t -> pcs s t = Parked /\ t ∉ waiters (mtx s);
  inv_flag : waiters (mtx s) <> [] -> held (mtx s) = WAITER_FLAG + 1;
  inv_l5 : forall t, pcs s t = L5 -> held (mtx s) = WAITER_FLAG + 1;
  inv_empty : forall t, pcs s t = U3 \/ pcs s t = L3 \/ pcs s t = L4 -> waiters (mtx s) = []
}.

Lemma initial_inv : inv initial None None.
Proof.
  split; simpl; try done; try (intros; naive_solver).
  - constructor.
  - intros t. split; [done|]. by intros [?%elem_of_nil|].
Qed.

(** What a step of thread [t] from [p] to [p'] must establish; the rest of the
    invariant carries over from the other threads. *)
Record moves (s : state) (t : tid) (p' : pc) (m : mutex) (o l o' l' : option tid) : Prop := {
  mv_token : token p' = true <-> o' = Some t;
  mv_owner : forall x, x <> t -> o' = Some x <-> o = Some x;
  mv_locks : locks p' = true <-> l' = Some t;
  mv_locker : forall x, x <> t -> l' = Some x <-> l = Some x;
  mv_wlock : waiter_lock m = bool_decide (is_Some l');
  mv_held : match o' with
            | Some u => held_by (if decide (u = t) then p' else pcs s u) (held m)
            | None => held m = 0
            end;
  mv_nodup : NoDup (waiters m);
  mv_waiting : waiting p' = true <-> t ∈ waiters m \/ handed (upd (pcs s) t p') o' = Some t;
  mv_others : forall x, x <> t ->
    x ∈ waiters m \/ handed (upd (pcs s) t p') o' = Some x <->
    x ∈ waiters (mtx s) \/ handed (pcs s) o = Some x;
  mv_handed : forall x, handed (upd (pcs s) t p') o' = Some x -> upd (pcs s) t p' x = Parked /\ x ∉ waiters m;
  mv_flag : waiters m <> [] -> held m = WAITER_FLAG + 1;
  mv_l5 : p' = L5 -> held m = WAITER_FLAG + 1;
  mv_l5_other : held m = held (mtx s) \/ forall x, x <> t -> pcs s x <> L5;
  mv_empty : p' = U3 \/ p' = L3 \/ p' = L4 -> waiters m = [];
  mv_empty_other : waiters (mtx s) = [] -> waiters m = [] \/ locks p' = true
}.

Lemma moves_inv s t p' m o l o' l' :
  inv s o l -> moves s t p' m o l o' l' -> inv (State (upd (pcs s) t p') m) o' l'.
Proof.
  intros [] []. split; simpl; try done.
  - intros x. is_thread x t; [done|]. rewrite mv_owner0 by done. auto.
  - intros x. is_thread x t; [done|]. rewrite mv_locker0 by done. auto.
  - intros x. is_thread x t; [done|]. rewrite mv_others0 by done. auto.
  - intros x. is_thread x t; [auto|]. intros Hx. destruct mv_l5_other0 as [->|Hn]; [eauto|].
    by destruct (Hn x).
  - intros x. is_thread x t; [auto|]. intros Hx.
    destruct (mv_empty_other0 (inv_empty0 x Hx)) as [|Hl]; [done|].
    assert (l' = Some t) as -> by (by apply mv_locks0).
    assert (locks (pcs s x) = true) as Hlx by (destruct Hx as [->|[->| ->]]; done).
    apply inv_locks0, mv_locker0 in Hlx; [congruence|done].
Qed.

Lemma handed_other f t p o : o <> Some t -> handed (upd f t p) o = handed f o.
Proof. intros H. destruct o as [u|]; [|done]. simpl. rewrite upd_other by congruence. done. Qed.

Lemma handed_same f t p : handed (upd f t p) (Some t) = hands_to p.
Proof. simpl. by rewrite upd_same. Qed.

(** A step that changes the thread's program counter and [waiter_lock] only. *)
Lemma keep_moves s t o l p' b l' :
  inv s o l -> token (pcs s t) = token p' -> hands_to (pcs s t) = hands_to p' ->
  waiting (pcs s t) = waiting p' -> pcs s t <> Parked ->
  (token p' = true -> forall v, held_by (pcs s t) v -> held_by p' v) ->
  p' <> L5 -> ~ (p' = U3 \/ p' = L3 \/ p' = L4) ->
  (locks p' = true <-> l' = Some t) -> (forall x, x <> t -> l' = Some x <-> l = Some x) ->
  b = bool_decide (is_Some l') ->
  moves s t p' (set_wlock (mtx s) b) o l o l'.
Proof.
  intros [] Et Eh Ew Hp Hh H5 H3 Hl Hlo Hb.
  assert (handed (upd (pcs s) t p') o = handed (pcs s) o) as Ho.
  { destruct (decide (o = Some t)) as [->|]; [by rewrite handed_same|by apply handed_other]. }
  split; rewrite ?Ho; try done; auto.
  - by rewrite <- Et.
  - destruct o as [u|]; [|done]. case_decide; [subst; apply Hh; [|done]|done].
    rewrite <- Et. by apply inv_token0.
  - rewrite <- Ew. auto.
  - intros x Hx. destruct (inv_handed0 x Hx) as [E1 E2]. split; [|done].
    rewrite upd_other; [done|]. congruence.
Qed.

Lemma set_held_same m : set_held m (held m) = m.
Proof. by destruct m. Qed.

Lemma set_wlock_same m : set_wlock m (waiter_lock m) = m.
Proof. by destruct m. Qed.

Ltac moves_auto :=
  split; rewrite ?handed_same; simpl; rewrite ?decide_True by done; try done;
  try (by left); try (intros; intuition congruence).

Section Exec.
Context (s : state) (t : tid) (o l : option tid) (Hinv : inv s o l).
Implicit Types (p : pc).

Lemma no_token : token (pcs s t) = false -> o <> Some t.
Proof. intros H ->. by rewrite (proj2 (inv_token s _ _ Hinv t) eq_refl) in H. Qed.

Lemma no_lock : locks (pcs s t) = false -> l <> Some t.
Proof. intros H ->. by rewrite (proj2 (inv_locks s _ _ Hinv t) eq_refl) in H. Qed.

Lemma not_waiting : waiting (pcs s t) = false -> t ∉ waiters (mtx s) /\ handed (pcs s) o <> Some t.
Proof.
  intros H. split; intros Hx;
    (rewrite (proj2 (inv_waiting s _ _ Hinv t)) in H; [done|auto]).
Qed.

(** Who can own the mutex or hold [waiter_lock], from the words. *)
Lemma held_0 : held (mtx s) = 0 -> o = None.
Proof.
  intros Eh. destruct o as [u|]; [|done]. pose proof (inv_held s _ _ Hinv) as H. simpl in H.
  rewrite Eh in H. destruct (pcs s u); cbn [held_by] in H; unfold WAITER_FLAG in H; lia.
Qed.

Lemma wlock_free : waiter_lock (mtx s) = false -> l = None.
Proof.
  rewrite (inv_wlock s _ _ Hinv). intros H. apply bool_decide_eq_false in H. by apply eq_None_not_Some.
Qed.

Lemma no_l5 : held (mtx s) <> WAITER_FLAG + 1 -> forall x, pcs s x <> L5.
Proof. intros H x E. apply H. by eapply (inv_l5 s _ _ Hinv). Qed.

Lemma no_waiters : held (mtx s) <> WAITER_FLAG + 1 -> waiters (mtx s) = [].
Proof.
  intros H. destruct (waiters (mtx s)) eqn:E; [done|]. exfalso. apply H, (inv_flag s _ _ Hinv). by rewrite E.
Qed.

(** [held] was 0 and becomes 1. *)
Lemma acquire_moves :
  token (pcs s t) = false -> locks (pcs s t) = false -> waiting (pcs s t) = false ->
  held (mtx s) = 0 -> moves s t Crit (set_held (mtx s) 1) o l (Some t) l.
Proof.
  intros Et El Ew Eh. pose proof (no_token Et) as Ho. pose proof (no_lock El) as Hl.
  destruct (not_waiting Ew) as [Hw _]. pose proof (held_0 Eh) as En.
  pose proof (no_l5 ltac:(rewrite Eh; done)) as H5. pose proof (no_waiters ltac:(rewrite Eh; done)) as Hn.
  destruct Hinv. subst o. moves_auto.
Qed.

(** The fast path of [mutex_unlock]. *)
Lemma release_moves :
  pcs s t = U0 -> held (mtx s) = 1 -> moves s t Idle (set_held (mtx s) 0) o l None l.
Proof.
  intros Ep Eh. assert (o = Some t) as Eo by (apply (inv_token s _ _ Hinv); by rewrite Ep).
  pose proof (no_lock ltac:(by rewrite Ep)) as Hl. destruct (not_waiting ltac:(by rewrite Ep)) as [Hw _].
  pose proof (no_l5 ltac:(by rewrite Eh)) as H5. pose proof (no_waiters ltac:(by rewrite Eh)) as Hn.
  destruct Hinv. subst o. moves_auto. rewrite Ep. intuition congruence.
Qed.

Lemma silent_moves p' :
  token (pcs s t) = token p' -> locks (pcs s t) = locks p' -> hands_to (pcs s t) = hands_to p' ->
  waiting (pcs s t) = waiting p' -> pcs s t <> Parked ->
  (token p' = true -> forall v, held_by (pcs s t) v -> held_by p' v) ->
  p' <> L5 -> ~ (p' = U3 \/ p' = L3 \/ p' = L4) -> moves s t p' (mtx s) o l o l.
Proof.
  intros. rewrite <- (set_wlock_same (mtx s)). apply keep_moves; try done.
  - replace (locks p') with (locks (pcs s t)) by done. apply (inv_locks s _ _ Hinv).
  - apply (inv_wlock s _ _ Hinv).
Qed.

(** Taking and releasing [waiter_lock]. *)
Lemma wlock_moves p' :
  (pcs s t = L1 /\ p' = L2 \/ pcs s t = U1 /\ p' = U2) -> waiter_lock (mtx s) = false ->
  moves s t p' (set_wlock (mtx s) true) o l o (Some t).
Proof.
  intros Hp Hw. pose proof (wlock_free Hw) as El.
  apply keep_moves; try done; destruct Hp as [[Ep ->]|[Ep ->]]; rewrite ?Ep; try done; try (by intuition congruence).
  all: intros x Hx; rewrite El; split; congruence.
Qed.

Lemma wunlock_moves p' :
  (pcs s t = L4 /\ p' = Crit \/ pcs s t = U4 /\ p' = Idle \/ pcs s t = L6 /\ p' = Parked \/
   exists w, pcs s t = U5 w /\ p' = U6 w) ->
  moves s t p' (set_wlock (mtx s) false) o l o None.
Proof.
  intros Hp. assert (l = Some t) as El.
  { apply (inv_locks s _ _ Hinv). destruct Hp as [[-> _]|[[-> _]|[[-> _]|(w & -> & _)]]]; done. }
  apply keep_moves; try done; destruct Hp as [[Ep ->]|[[Ep ->]|[[Ep ->]|(w & Ep & ->)]]];
    rewrite ?Ep; try done; try (by intuition congruence); try (by left).
  all: intros x Hx; rewrite El; split; congruence.
Qed.

(** [fetch_and_or] on a free mutex, and the write that follows. *)
Lemma l2_l3_moves :
  pcs s t = L2 -> held (mtx s) = 0 -> moves s t L3 (set_held (mtx s) WAITER_FLAG) o l (Some t) l.
Proof.
  intros Ep Eh. pose proof (held_0 Eh) as Eo. destruct (not_waiting ltac:(by rewrite Ep)) as [Hw _].
  assert (l = Some t) as El by (apply (inv_locks s _ _ Hinv); by rewrite Ep).
  pose proof (no_l5 ltac:(by rewrite Eh)) as H5. pose proof (no_waiters ltac:(by rewrite Eh)) as Hn.
  destruct Hinv. subst o l. moves_auto.
Qed.

Lemma l3_l4_moves : pcs s t = L3 -> moves s t L4 (set_held (mtx s) 1) o l (Some t) l.
Proof.
  intros Ep. destruct (not_waiting ltac:(by rewrite Ep)) as [Hw _].
  assert (o = Some t) as Eo by (apply (inv_token s _ _ Hinv); by rewrite Ep).
  assert (l = Some t) as El by (apply (inv_locks s _ _ Hinv); by rewrite Ep).
  pose proof (inv_empty s _ _ Hinv t ltac:(rewrite Ep; auto)) as Hn.
  assert (forall x, x <> t -> pcs s x <> L5) as H5.
  { intros x Hx E. assert (l = Some x) by (apply (inv_locks s _ _ Hinv); by rewrite E). congruence. }
  destruct Hinv. subst o l. moves_auto. rewrite Ep. intuition congruence.
Qed.

(** [fetch_and_or] on a held mutex. *)
Lemma l2_l5_moves :
  pcs s t = L2 -> held (mtx s) <> 0 -> moves s t L5 (set_held (mtx s) (WAITER_FLAG + 1)) o l o l.
Proof.
  intros Ep Eh. destruct (not_waiting ltac:(by rewrite Ep)) as [Hw Hh].
  pose proof (no_token ltac:(by rewrite Ep)) as Ho.
  assert (l = Some t) as El by (apply (inv_locks s _ _ Hinv); by rewrite Ep).
  assert (forall x, x <> t -> locks (pcs s x) = false) as Hlk.
  { intros x Hx. destruct (locks (pcs s x)) eqn:E; [|done]. apply (inv_locks s _ _ Hinv) in E. congruence. }
  destruct Hinv. split; rewrite ?(handed_other _ _ _ _ Ho); simpl; try done; try (intros; intuition congruence).
  - destruct o as [u|]; [|done]. rewrite decide_False by congruence.
    specialize (Hlk u ltac:(congruence)). destruct (pcs s u); try done; by right.
  - intros x Hx. destruct (inv_handed0 x Hx) as [E1 E2]. split; [|done]. rewrite upd_other; congruence.
  - right. intros x Hx E. specialize (Hlk x Hx). by rewrite E in Hlk.
Qed.

Lemma l5_l6_moves : pcs s t = L5 -> moves s t L6 (set_waiters (mtx s) (waiters (mtx s) ++ [t])) o l o l.
Proof.
  intros Ep. destruct (not_waiting ltac:(by rewrite Ep)) as [Hw Hh].
  pose proof (no_token ltac:(by rewrite Ep)) as Ho.
  assert (l = Some t) as El by (apply (inv_locks s _ _ Hinv); by rewrite Ep).
  pose proof (inv_l5 s _ _ Hinv t Ep) as Ef.
  destruct Hinv. split; rewrite ?(handed_other _ _ _ _ Ho); simpl; try done; try (intros; intuition congruence).
  - destruct o as [u|]; [|done]. by rewrite decide_False by congruence.
  - apply NoDup_app. split; [done|]. split; [|apply NoDup_singleton].
    intros x Hx ->%list_elem_of_singleton. done.
  - split; [|done]. intros _. left. apply elem_of_app. right. by apply list_elem_of_singleton.
  - intros x Hx. rewrite elem_of_app, list_elem_of_singleton. intuition congruence.
  - intros x Hx. destruct (inv_handed0 x Hx) as [E1 E2]. rewrite upd_other by congruence. split; [done|].
    rewrite elem_of_app, list_elem_of_singleton. intuition congruence.
Qed.

(** [list_pop] in [__mutex_unlock]. *)
Lemma u2_u3_moves : pcs s t = U2 -> waiters (mtx s) = [] -> moves s t U3 (mtx s) o l o l.
Proof.
  intros Ep Hn. destruct (not_waiting ltac:(by rewrite Ep)) as [Hw Hh].
  assert (o = Some t) as Eo by (apply (inv_token s _ _ Hinv); by rewrite Ep).
  assert (l = Some t) as El by (apply (inv_locks s _ _ Hinv); by rewrite Ep).
  destruct Hinv. subst o l. rewrite Ep in inv_held0. moves_auto. rewrite Ep. intuition congruence.
Qed.

Lemma u2_u5_moves w ws :
  pcs s t = U2 -> waiters (mtx s) = w :: ws -> moves s t (U5 w) (set_waiters (mtx s) ws) o l o l.
Proof.
  intros Ep Hn. destruct (not_waiting ltac:(by rewrite Ep)) as [Hw Hh].
  assert (o = Some t) as Eo by (apply (inv_token s _ _ Hinv); by rewrite Ep).
  assert (l = Some t) as El by (apply (inv_locks s _ _ Hinv); by rewrite Ep).
  pose proof (inv_flag s _ _ Hinv ltac:(by rewrite Hn)) as Ef.
  assert (pcs s w = Parked /\ w <> t) as [Epw Hwt].
  { assert (waiting (pcs s w) = true) as H by (apply (inv_waiting s _ _ Hinv); left; rewrite Hn; by left).
    assert (w <> t) as Hne by (intros ->; by rewrite Ep in H). split; [|done].
    destruct (pcs s w) eqn:E; try done.
    assert (l = Some w) by (apply (inv_locks s _ _ Hinv); by rewrite E). congruence. }
  destruct Hinv. subst o l. rewrite Hn in *. apply NoDup_cons in inv_nodup0 as [Hnw Hnd].
  moves_auto.
  - by right.
  - split; [done|]. intros [?|]; [|congruence]. exfalso. apply Hw. by right.
  - intros x Hx. rewrite Ep, Hn, elem_of_cons. simpl. intuition congruence.
  - intros x [= <-]. by rewrite upd_other.
Qed.

Lemma u3_u4_moves : pcs s t = U3 -> moves s t U4 (set_held (mtx s) 0) o l None l.
Proof.
  intros Ep. destruct (not_waiting ltac:(by rewrite Ep)) as [Hw Hh].
  assert (o = Some t) as Eo by (apply (inv_token s _ _ Hinv); by rewrite Ep).
  assert (l = Some t) as El by (apply (inv_locks s _ _ Hinv); by rewrite Ep).
  pose proof (inv_empty s _ _ Hinv t ltac:(rewrite Ep; auto)) as Hn.
  assert (forall x, x <> t -> pcs s x <> L5) as H5.
  { intros x Hx E. assert (l = Some x) by (apply (inv_locks s _ _ Hinv); by rewrite E). congruence. }
  destruct Hinv. subst o l. moves_auto. rewrite Ep. intuition congruence.
Qed.
(** [thread_ready] makes the thread that was handed the mutex its owner. *)
Lemma u6_inv w :
  pcs s t = U6 w -> inv (State (upd (upd (pcs s) t Idle) w Crit) (mtx s)) (Some w) l.
Proof.
  intros Ep. assert (o = Some t) as Eo by (apply (inv_token s _ _ Hinv); by rewrite Ep).
  assert (handed (pcs s) o = Some w) as Eh by (rewrite Eo; simpl; by rewrite Ep).
  destruct (inv_handed s _ _ Hinv w Eh) as [Epw Hnw]. assert (w <> t) as Hwt by congruence.
  destruct Hinv. rewrite Eo in *. simpl in *. rewrite Ep in *. simpl in *.
  assert (forall x, x <> w -> x <> t -> upd (upd (pcs s) t Idle) w Crit x = pcs s x) as Hother.
  { intros x H1 H2. by rewrite !upd_other. }
  assert (upd (upd (pcs s) t Idle) w Crit t = Idle) as Ht by (rewrite upd_other, upd_same; done).
  pose proof (inv_locks0 w) as Lw. pose proof (inv_locks0 t) as Lt. pose proof (inv_waiting0 t) as Wt.
  rewrite Epw in Lw. rewrite Ep in Lt, Wt. simpl in *.
  assert (forall x (P : Prop), (x = w -> P) -> (x = t -> P) -> (x <> w -> x <> t -> P) -> P) as Hcase.
  { intros x P H1 H2 H3. destruct (decide (x = w)); [auto|]. destruct (decide (x = t)); auto. }
  split; simpl; rewrite ?upd_same; simpl; try done.
  all: intros x; apply (Hcase x); [intros -> |intros -> |intros H1 H2];
    rewrite ?upd_same, ?Ht, ?Hother by done; simpl; try done; try (intuition congruence).
  - rewrite inv_token0. intuition congruence.
  - rewrite inv_waiting0. intuition congruence.
  - eauto.
  - eauto.
Qed.
End Exec.

(** The value [fetch_and_or] leaves in a held mutex. *)
Lemma or_waiter_flag v :
  v = 1 \/ v = WAITER_FLAG + 1 -> s32 (Z.lor v WAITER_FLAG) = WAITER_FLAG + 1.
Proof. intros [-> | ->]; reflexivity. Qed.

Lemma owned_word s o l :
  inv s o l -> held (mtx s) <> 0 -> (forall x, pcs s x <> L3) ->
  held (mtx s) = 1 \/ held (mtx s) = WAITER_FLAG + 1.
Proof.
  intros [] Hh H3. destruct o as [u|]; [|done]. specialize (H3 u).
  destruct (pcs s u); try done; auto.
Qed.

Lemma exec_inv s t p m w o l :
  inv s o l -> exec t (pcs s t) (mtx s) = Some (p, m, w) ->
  exists o' l', inv (State (wake (upd (pcs s) t p) w) m) o' l'.
Proof.
  intros Hinv.
  assert (forall p' m' o' l', moves s t p' m' o l o' l' ->
    exists o' l', inv (State (wake (upd (pcs s) t p') None) m') o' l') as Hmv.
  { intros p' m' o' l' Hm. exists o', l'. by eapply moves_inv. }
  assert (forall x, x <> t -> locks (pcs s t) = true -> locks (pcs s x) = false) as Hlk.
  { intros x Hx Ht. destruct (locks (pcs s x)) eqn:E; [|done].
    apply (inv_locks s _ _ Hinv) in Ht, E. congruence. }
  destruct (pcs s t) eqn:E; simpl; try done; unfold atomic_cmpxchg, atomic_fetch_and_or.
  - destruct (Z.eqb_spec (held (mtx s)) 0); intros [= <- <- <-].
    + eapply Hmv, acquire_moves; rewrite ?E; done.
    + rewrite set_held_same. eapply Hmv, silent_moves; rewrite ?E; try done. by intros [|[]].
  - destruct (Z.eqb_spec (held (mtx s)) 0); intros [= <- <- <-].
    + eapply Hmv, acquire_moves; rewrite ?E; done.
    + rewrite set_held_same. eapply Hmv, silent_moves; rewrite ?E; try done. by intros [|[]].
  - destruct (waiter_lock (mtx s)) eqn:Ew; intros [= <- <- <-]. eapply Hmv, wlock_moves; auto.
  - destruct (Z.eqb_spec (held (mtx s)) 0) as [Eh|Eh]; intros [= <- <- <-].
    + rewrite Eh. eapply Hmv. by apply l2_l3_moves.
    + rewrite or_waiter_flag; [eapply Hmv; by apply l2_l5_moves|].
      eapply owned_word; [done..|]. intros x Ex. destruct (decide (x = t)) as [->|Hx]; [congruence|].
      specialize (Hlk x Hx eq_refl). by rewrite Ex in Hlk.
  - intros [= <- <- <-]. eapply Hmv. by apply l3_l4_moves.
  - intros [= <- <- <-]. eapply Hmv, wunlock_moves; auto.
  - intros [= <- <- <-]. eapply Hmv. by apply l5_l6_moves.
  - intros [= <- <- <-]. eapply Hmv, wunlock_moves; auto.
  - destruct (Z.eqb_spec (held (mtx s)) 1); intros [= <- <- <-].
    + eapply Hmv. by apply release_moves.
    + rewrite set_held_same. eapply Hmv, silent_moves; rewrite ?E; try done. by intros [|[]].
  - destruct (waiter_lock (mtx s)) eqn:Ew; intros [= <- <- <-]. eapply Hmv, wlock_moves; auto.
  - destruct (waiters (mtx s)) as [|w' ws] eqn:Ew; intros [= <- <- <-].
    + eapply Hmv. by apply u2_u3_moves.
    + eapply Hmv. by apply u2_u5_moves.
  - intros [= <- <- <-]. eapply Hmv. by apply u3_u4_moves.
  - intros [= <- <- <-]. eapply Hmv, wunlock_moves; auto.
  - intros [= <- <- <-]. eapply Hmv, wunlock_moves; eauto 6.
  - intros [= <- <- <-]. exists (Some w0), l. by eapply u6_inv.
Qed.

Lemma step_inv s s' o l : inv s o l -> step s s' -> exists o' l', inv s' o' l'.
Proof.
  intros Hinv Hs.
  assert (forall t p', moves s t p' (mtx s) o l o l ->
    exists o' l', inv (State (upd (pcs s) t p') (mtx s)) o' l') as Hmv.
  { intros t p' Hm. exists o, l. by eapply moves_inv. }
  destruct Hs as [s t E|s t E|s t E|s t p m w E].
  - eapply Hmv, silent_moves; rewrite ?E; try done. by intros [|[]].
  - eapply Hmv, silent_moves; rewrite ?E; try done. by intros [|[]].
  - eapply Hmv, silent_moves; rewrite ?E; try done. by intros [|[]].
  - by eapply exec_inv.
Qed.

Lemma reachable_inv s : rtc step initial s -> exists o l, inv s o l.
Proof.
  intros H. assert (exists o l, inv initial o l) as Hi by (exists None, None; apply initial_inv).
  induction H as [|s s1 s2 Hs _ IH]; [done|]. destruct Hi as (o & l & Hi). apply IH. by eapply step_inv.
Qed.

(** ** Schedules *)

(** A schedule: which thread does what next.  Running one gives a witness of
    reachability. *)
Inductive action := ATry (t : tid) | ALock (t : tid) | AUnlock (t : tid) | AExec (t : tid).

Definition act (a : action) (s : state) : option state :=
  match a with
  | ATry t => match pcs s t with Idle => Some (State (upd (pcs s) t T0) (mtx s)) | _ => None end
  | ALock t => match pcs s t with Idle => Some (State (upd (pcs s) t L0) (mtx s)) | _ => None end
  | AUnlock t => match pcs s t with Crit => Some (State (upd (pcs s) t U0) (mtx s)) | _ => None end
  | AExec t =>
      match exec t (pcs s t) (mtx s) with
      | Some (p, m, w) => Some (State (wake (upd (pcs s) t p) w) m)
      | None => None
      end
  end.

Fixpoint drive (acts : list action) (s : state) : option state :=
  match acts with
  | [] => Some s
  | a :: acts => match act a s with Some s' => drive acts s' | None => None end
  end.

Lemma act_step a s s' : act a s = Some s' -> step s s'.
Proof.
  destruct a as [t|t|t|t]; simpl.
  - destruct (pcs s t) eqn:E; try done. intros [= <-]. by constructor.
  - destruct (pcs s t) eqn:E; try done. intros [= <-]. by constructor.
  - destruct (pcs s t) eqn:E; try done. intros [= <-]. by constructor.
  - destruct (exec t (pcs s t) (mtx s)) as [[[p m] w]|] eqn:E; [|done]. intros [= <-]. by constructor.
Qed.

Lemma drive_reachable acts : forall s s', drive acts s = Some s' -> rtc step s s'.
Proof.
  induction acts as [|a acts IH]; intros s s'; simpl; [intros [= <-]; done|].
  destruct (act a s) as [s1|] eqn:E; [|done]. intros H. eapply rtc_l; [by eapply act_step|eauto].
Qed.

(** ** Theorems *)

(** C4: the mutex excludes: over any interleaving of the atomic accesses of any
    number of threads that lock, try to lock and unlock it, two threads are
    never in the critical section at once, and the word is zero exactly when no
    thread owns the mutex. *)
Theorem mutex_mutual_exclusion s :
  rtc step initial s ->
  (forall t u, pcs s t = Crit -> pcs s u = Crit -> t = u) /\
  (mutex_held (mtx s) = false <-> forall t, token (pcs s t) = false).
Proof.
  intros (o & l & Hinv)%reachable_inv. split.
  - intros t u Ht Hu.
    assert (o = Some t) by (apply (inv_token s o l Hinv); by rewrite Ht).
    assert (o = Some u) by (apply (inv_token s o l Hinv); by rewrite Hu). congruence.
  - unfold mutex_held. rewrite negb_false_iff, Z.eqb_eq. split.
    + intros Hh t. destruct (token (pcs s t)) eqn:E; [|done]. apply (inv_token s o l Hinv) in E.
      rewrite (held_0 s o l Hinv Hh) in E. done.
    + intros Hn. pose proof (inv_held s o l Hinv) as Hh. destruct o as [u|]; [|done].
      specialize (Hn u). by rewrite (proj2 (inv_token s _ l Hinv u) eq_refl) in Hn.
Qed.

(** The thread that holds [waiter_lock] is never blocked. *)
Lemma locker_steps t p m : locks p = true -> is_Some (exec t p m).
Proof. destruct p; try done; intros _; simpl; repeat case_match; done. Qed.

(** No waiter is lost: a parked thread is always either on the waiter list,
    and then the word carries the waiter flag so that the owner's unlock cannot
    take its fast path, or is the one the owner is about to wake; and whenever
    a thread is inside an operation, some thread can take a step or one is in
    the critical section, so the implementation does not deadlock. *)
Theorem mutex_no_lost_waiter s t :
  rtc step initial s -> pcs s t <> Idle ->
  (pcs s t = Parked -> exists u, token (pcs s u) = true /\
     (t ∈ waiters (mtx s) /\ held (mtx s) = WAITER_FLAG + 1 \/ hands_to (pcs s u) = Some t)) /\
  ((exists u, pcs s u = Crit) \/ exists u, is_Some (exec u (pcs s u) (mtx s))).
Proof.
  intros (o & l & Hinv)%reachable_inv Hp.
  assert (pcs s t = Parked -> exists u, token (pcs s u) = true /\
     (t ∈ waiters (mtx s) /\ held (mtx s) = WAITER_FLAG + 1 \/ hands_to (pcs s u) = Some t)) as Hpark.
  { intros E. destruct (proj1 (inv_waiting s o l Hinv t)) as [Hw|Hw]; [by rewrite E|..].
    - pose proof (inv_flag s o l Hinv ltac:(intros H; rewrite H in Hw; by apply elem_of_nil in Hw)) as Hf.
      destruct o as [u|].
      + exists u. split; [by apply (inv_token s _ l Hinv)|auto].
      + pose proof (inv_held s _ l Hinv) as H. simpl in H. by rewrite H in Hf.
    - destruct o as [u|]; [|done]. exists u. split; [by apply (inv_token s _ l Hinv)|auto]. }
  split; [done|]. destruct (waiter_lock (mtx s)) eqn:Ew.
  - right. pose proof (inv_wlock s o l Hinv) as Hw. rewrite Ew in Hw. symmetry in Hw.
    apply bool_decide_eq_true in Hw as [u ->]. exists u. apply locker_steps. by apply (inv_locks s o _ Hinv).
  - destruct (decide (pcs s t = Parked)) as [E|].
    + destruct (Hpark E) as (u & Hu & _). destruct (pcs s u) eqn:Eu; try done;
        first [by left; exists u | right; exists u; rewrite Eu; simpl; rewrite ?Ew; repeat case_match; done].
    + destruct (pcs s t) eqn:Et; try done;
        first [by left; exists t | right; exists t; rewrite Et; simpl; rewrite ?Ew; repeat case_match; done].
Qed.

(** Thread 0 locks, thread 1 finds the mutex held and parks, thread 0 unlocks
    and hands it over. *)
Definition contended : list action :=
  [ALock 0; AExec 0; ALock 1; AExec 1; AExec 1; AExec 1; AExec 1; AExec 1].
Definition hand_over : list action := contended ++ [AUnlock 0; AExec 0; AExec 0; AExec 0; AExec 0; AExec 0].

Lemma mutex_mutual_exclusion_witness :
  exists s, drive hand_over initial = Some s /\ pcs s 1%nat = Crit /\ pcs s 0%nat = Idle /\
    forall t, pcs s t = Crit -> t = 1%nat.
Proof.
  destruct (drive hand_over initial) as [s|] eqn:E; [|vm_compute in E; discriminate E].
  destruct (mutex_mutual_exclusion s) as [H _]; [apply (drive_reachable hand_over); exact E|].
  exists s. split; [reflexivity|].
  assert (pcs s 1%nat = Crit) as H1 by (vm_compute in E; injection E as <-; reflexivity).
  split; [exact H1|]. split; [vm_compute in E; injection E as <-; reflexivity|].
  intros t Ht. exact (H t 1%nat Ht H1).
Defined.

