(* ===== verification/Sync.v ===== *)
(** * sync: read-write mutexes, condition variables, wait groups, barriers

    Models the rest of [runtime/sync.c].  Every operation runs under the
    object's spin lock, so each is one transition of the object's state; the
    threads it makes ready after dropping the lock are part of its result.
    Condition variables, whose wait spans two locks and a timer, are modelled
    one lock operation at a time.  [int] counters are mathematical integers:
    the invariants bound them by the number of threads. *)

From S2P Require Import Prelude StdDef.

Abbreviation tid := nat.

(** ** Read-write mutex *)

Module RWMutex.

Record rwmutex := RWMutexT {
  count : Z;
  read_waiters : list tid;
  write_waiters : list tid;
  read_waiter_count : Z
}.

Definition rwmutex_init : rwmutex := RWMutexT 0 [] [] 0.
Definition rwmutex_held (m : rwmutex) : bool := negb (count m =? 0).

(** Whether the caller holds the lock on return; if not it is parked. *)
Definition rwmutex_rdlock (m : rwmutex) (myth : tid) : bool * rwmutex :=
  if count m >=? 0
  then (true, RWMutexT (count m + 1) (read_waiters m) (write_waiters m) (read_waiter_count m))
  else (false, RWMutexT (count m) (read_waiters m ++ [myth]) (write_waiters m) (read_waiter_count m + 1)).

Definition rwmutex_try_rdlock (m : rwmutex) : bool * rwmutex :=
  if count m >=? 0
  then (true, RWMutexT (count m + 1) (read_waiters m) (write_waiters m) (read_waiter_count m))
  else (false, m).

Definition rwmutex_wrlock (m : rwmutex) (myth : tid) : bool * rwmutex :=
  if count m =? 0
  then (true, RWMutexT (-1) (read_waiters m) (write_waiters m) (read_waiter_count m))
  else (false, RWMutexT (count m) (read_waiters m) (write_waiters m ++ [myth]) (read_waiter_count m)).

Definition rwmutex_try_wrlock (m : rwmutex) : bool * rwmutex :=
  if count m =? 0
  then (true, RWMutexT (-1) (read_waiters m) (write_waiters m) (read_waiter_count m))
  else (false, m).

(** The threads an unlock makes ready. *)
Inductive woken := WReaders (l : list tid) | WWriter (t : tid).

(** [None] is the failed [assert(m->count != 0)]. *)
Definition rwmutex_unlock (m : rwmutex) : option (woken * rwmutex) :=
  if count m =? 0 then None
  else
    let c := if count m <? 0 then 0 else count m - 1 in
    Some (
      if (c =? 0) && (read_waiter_count m >? 0) then
        (WReaders (read_waiters m), RWMutexT (read_waiter_count m) [] (write_waiters m) 0)
      else if c =? 0 then
        match write_waiters m with
        | [] => (WReaders [], RWMutexT 0 (read_waiters m) [] (read_waiter_count m))
        | th :: l => (WWriter th, RWMutexT (-1) (read_waiters m) l (read_waiter_count m))
        end
      else (WReaders [], RWMutexT c (read_waiters m) (write_waiters m) (read_waiter_count m))).

(** The lock with the threads that hold it. *)
Record sys := Sys { lk : rwmutex; readers : list tid; writers : list tid }.

Definition waiting (s : sys) : list tid := read_waiters (lk s) ++ write_waiters (lk s).
Definition holding (s : sys) : list tid := readers s ++ writers s.

Definition grant (w : woken) (s : sys) : sys :=
  match w with
  | WReaders l => Sys (lk s) (l ++ readers s) (writers s)
  | WWriter t => Sys (lk s) (readers s) (t :: writers s)
  end.

Inductive step : sys -> sys -> Prop :=
| step_rdlock s t ok m :
    t ∉ waiting s -> t ∉ holding s -> rwmutex_rdlock (lk s) t = (ok, m) ->
    step s (Sys m (if ok then t :: readers s else readers s) (writers s))
| step_try_rdlock s t ok m :
    t ∉ waiting s -> t ∉ holding s -> rwmutex_try_rdlock (lk s) = (ok, m) ->
    step s (Sys m (if ok then t :: readers s else readers s) (writers s))
| step_wrlock s t ok m :
    t ∉ waiting s -> t ∉ holding s -> rwmutex_wrlock (lk s) t = (ok, m) ->
    step s (Sys m (readers s) (if ok then t :: writers s else writers s))
| step_try_wrlock s t ok m :
    t ∉ waiting s -> t ∉ holding s -> rwmutex_try_wrlock (lk s) = (ok, m) ->
    step s (Sys m (readers s) (if ok then t :: writers s else writers s))
| step_rdunlock s rs1 t rs2 w m :
    readers s = rs1 ++ t :: rs2 -> rwmutex_unlock (lk s) = Some (w, m) ->
    step s (grant w (Sys m (rs1 ++ rs2) (writers s)))
| step_wrunlock s ws1 t ws2 w m :
    writers s = ws1 ++ t :: ws2 -> rwmutex_unlock (lk s) = Some (w, m) ->
    step s (grant w (Sys m (readers s) (ws1 ++ ws2))).

Record inv (s : sys) : Prop := {
  inv_count : count (lk s) = Z.of_nat (length (readers s)) /\ writers s = [] \/
              count (lk s) = -1 /\ readers s = [] /\ exists w, writers s = [w];
  inv_rwc : read_waiter_count (lk s) = Z.of_nat (length (read_waiters (lk s)));
  inv_readers_wait : 0 <= count (lk s) -> read_waiters (lk s) = [];
  inv_writers_wait : count (lk s) = 0 -> write_waiters (lk s) = [];
  inv_nodup : NoDup (waiting s ++ holding s)
}.

Lemma rw_init_inv : inv (Sys rwmutex_init [] []).
Proof. split; simpl; auto. constructor. Qed.

(** The counts after an unlock that leaves [rs] and [ws] holding the lock. *)
Lemma rw_unlock_inv s rs ws w m :
  inv s -> rwmutex_unlock (lk s) = Some (w, m) ->
  (exists t, readers s ≡ₚ t :: rs /\ ws = writers s \/ writers s ≡ₚ t :: ws /\ rs = readers s) ->
  inv (grant w (Sys m rs ws)).
Proof.
  intros [Hc Hr H1 H2 Hn] Hu (t & Ht).
  assert (NoDup (waiting s ++ rs ++ ws)) as Hn'.
  { assert (waiting s ++ holding s ≡ₚ t :: (waiting s ++ rs ++ ws)) as Hp.
    { unfold holding. destruct Ht as [[-> ->]|[-> ->]]; solve_Permutation. }
    rewrite Hp in Hn. by apply NoDup_cons in Hn as [_ Hn]. }
  (* after the decrement: [c] readers, no writer, and no reader waits unless a writer unlocked *)
  set (c := if count (lk s) <? 0 then 0 else count (lk s) - 1).
  assert (c = Z.of_nat (length rs) /\ ws = [] /\ (0 < c -> read_waiters (lk s) = [])) as (Hcr & -> & Hrw).
  { unfold c. destruct Hc as [(Hc & Hw)|(Hc & Hrd & v & Hw)], Ht as [[Ht ->]|[Ht ->]].
    - apply Permutation_length in Ht. simpl in Ht. destruct (Z.ltb_spec (count (lk s)) 0); [lia|].
      split_and!; [lia|done|intros _; apply H1; lia].
    - rewrite Hw in Ht. by apply Permutation_nil_cons in Ht.
    - rewrite Hrd in Ht. by apply Permutation_nil_cons in Ht.
    - rewrite Hw in Ht. apply Permutation_length in Ht. destruct ws; [|simpl in Ht; lia].
      rewrite Hc, Hrd. simpl. split_and!; [done..|lia]. }
  unfold rwmutex_unlock in Hu. fold c in Hu. clearbody c. destruct (count (lk s) =? 0); [done|].
  injection Hu as Hu. destruct (Z.eqb_spec c 0) as [Ec|Ec]; simpl in Hu.
  2: { injection Hu as <- <-. split; simpl; auto; try lia. intros _. apply Hrw. lia. }
  assert (rs = []) as -> by (destruct rs; [done|simpl in Hcr; lia]).
  destruct (Z.gtb_spec (read_waiter_count (lk s)) 0) as [Hg|Hg].
  - injection Hu as <- <-. split; simpl; rewrite ?app_nil_r; auto; [lia|].
    unfold waiting, holding in *. simpl. rewrite !app_nil_r in *. by rewrite Permutation_app_comm.
  - assert (read_waiters (lk s) = []) as E by (destruct (read_waiters (lk s)); [done|simpl in Hr; lia]).
    destruct (write_waiters (lk s)) as [|th l] eqn:Ew; injection Hu as <- <-.
    + split; simpl; auto. unfold waiting, holding in *. simpl. by rewrite Ew, E in *.
    + split; simpl; auto; [right; eauto|lia|].
      unfold waiting, holding in *. simpl. rewrite E, Ew in Hn'. rewrite E. simpl in *.
      rewrite app_nil_r in Hn'. by rewrite <- Permutation_cons_append.
Qed.

Lemma rw_read_inv s t :
  inv s -> NoDup (t :: waiting s ++ holding s) -> 0 <= count (lk s) ->
  inv (Sys (RWMutexT (count (lk s) + 1) (read_waiters (lk s)) (write_waiters (lk s)) (read_waiter_count (lk s)))
         (t :: readers s) (writers s)).
Proof.
  intros [Hc Hr H1 H2 _] Hn H0. split; simpl; auto; [|lia|].
  - destruct Hc as [[Hc Hw]|[Hc _]]; [left; split; [lia|done]|lia].
  - unfold waiting, holding in *. simpl. by rewrite <- Permutation_middle.
Qed.

Lemma rw_write_inv s t :
  inv s -> NoDup (t :: waiting s ++ holding s) -> count (lk s) = 0 ->
  inv (Sys (RWMutexT (-1) (read_waiters (lk s)) (write_waiters (lk s)) (read_waiter_count (lk s)))
         (readers s) (t :: writers s)).
Proof.
  intros [Hc Hr H1 H2 _] Hn H0. destruct Hc as [[Hc Hw]|[Hc _]]; [|lia].
  assert (readers s = []) as E by (destruct (readers s); [done|simpl in Hc; lia]).
  split; simpl; auto; [|lia|].
  - right. rewrite E, Hw. eauto.
  - unfold waiting, holding in *. simpl. rewrite E in *. simpl in *. by rewrite <- Permutation_middle.
Qed.

Lemma rw_step_inv s s' : inv s -> step s s' -> inv s'.
Proof.
  intros Hinv Hs. destruct Hs as [s t ok m Hw Hh E|s t ok m Hw Hh E|s t ok m Hw Hh E|s t ok m Hw Hh E
    |s rs1 t rs2 w m Ht E|s ws1 t ws2 w m Ht E].
  5: { eapply rw_unlock_inv; [done..|]. exists t. left. split; [|done]. rewrite Ht. solve_Permutation. }
  5: { eapply rw_unlock_inv; [done..|]. exists t. right. split; [|done]. rewrite Ht. solve_Permutation. }
  all: assert (NoDup (t :: waiting s ++ holding s)) as Hn'
    by (apply NoDup_cons; split; [rewrite elem_of_app; by intros [|]|apply Hinv]).
  - unfold rwmutex_rdlock in E. rewrite Z.geb_leb in E.
    destruct (Z.leb_spec 0 (count (lk s))) as [H0|H0]; injection E as <- <-.
    + by apply rw_read_inv.
    + destruct Hinv as [Hc Hr H1 H2 Hn]. split; simpl; auto; [rewrite length_app; simpl; lia|lia|].
      unfold waiting, holding in *. simpl. eapply NoDup_Permutation_proper; [|exact Hn']. solve_Permutation.
  - unfold rwmutex_try_rdlock in E. rewrite Z.geb_leb in E.
    destruct (Z.leb_spec 0 (count (lk s))) as [H0|H0]; injection E as <- <-; [by apply rw_read_inv|by destruct s].
  - unfold rwmutex_wrlock in E. destruct (Z.eqb_spec (count (lk s)) 0) as [H0|H0]; injection E as <- <-.
    + by apply rw_write_inv.
    + destruct Hinv as [Hc Hr H1 H2 Hn]. split; simpl; auto; [lia|].
      unfold waiting, holding in *. simpl. eapply NoDup_Permutation_proper; [|exact Hn']. solve_Permutation.
  - unfold rwmutex_try_wrlock in E. destruct (Z.eqb_spec (count (lk s)) 0) as [H0|H0];
      injection E as <- <-; [by apply rw_write_inv|by destruct s].
Qed.

(** A read-write mutex excludes and loses no waiter: over any sequence of
    operations, a writer is alone, the count is the number of readers or -1
    under a writer, readers wait only while a writer holds the lock, and a free
    lock has no waiter. *)
Theorem rwmutex_excludes s :
  rtc step (Sys rwmutex_init [] []) s ->
  (writers s = [] \/ readers s = [] /\ exists w, writers s = [w]) /\
  count (lk s) = (if bool_decide (writers s = []) then Z.of_nat (length (readers s)) else -1) /\
  (read_waiters (lk s) <> [] -> writers s <> []) /\
  (rwmutex_held (lk s) = false -> waiting s = []).
Proof.
  intros H. assert (inv s) as [Hc Hr H1 H2 _].
  { pose proof rw_init_inv as Hi. induction H; eauto using rw_step_inv. }
  unfold rwmutex_held, waiting. rewrite negb_false_iff, Z.eqb_eq.
  destruct Hc as [[Hc Hw]|(Hc & Hrd & w & Hw)].
  - rewrite Hw, bool_decide_true by done. split_and!; auto.
    + intros Hne. destruct Hne. apply H1. lia.
    + intros Hz. rewrite H1, H2 by lia. done.
  - rewrite Hw, bool_decide_false by done. split_and!; eauto. lia.
Qed.

(** Thread 1 reads, thread 2 waits to write, thread 1 unlocks and hands over. *)
Lemma rwmutex_excludes_witness :
  exists s, rtc step (Sys rwmutex_init [] []) s /\ writers s = [2%nat] /\ count (lk s) = -1.
Proof.
  assert (rtc step (Sys rwmutex_init [] []) (Sys (RWMutexT (-1) [] [] 0) [] [2%nat])) as H.
  { eapply rtc_l; [eapply (step_rdlock _ 1%nat true); [apply not_elem_of_nil..|reflexivity]|].
    eapply rtc_l; [eapply (step_wrlock _ 2%nat false (RWMutexT 1 [] [2%nat] 0))|]; [vm_compute; set_solver..|reflexivity|].
    eapply rtc_l; [eapply (step_rdunlock _ [] 1%nat []); reflexivity|]. reflexivity. }
  exists (Sys (RWMutexT (-1) [] [] 0) [] [2%nat]).
  destruct (rwmutex_excludes _ H) as (_ & Hc & _). split; [exact H|]. split; [reflexivity|exact Hc].
Defined.
End RWMutex.

(** ** Wait group *)

Module WaitGroup.

Record waitgroup := WaitGroupT { cnt : Z; waiters : list tid }.

Definition waitgroup_init : waitgroup := WaitGroupT 0 [].

(** The threads made ready; [None] is the [BUG_ON] of a negative count. *)
Definition waitgroup_add (wg : waitgroup) (c : Z) : option (list tid * waitgroup) :=
  let n := cnt wg + c in
  if n <? 0 then None
  else if n =? 0 then Some (waiters wg, WaitGroupT n [])
  else Some ([], WaitGroupT n (waiters wg)).

Definition waitgroup_done (wg : waitgroup) : option (list tid * waitgroup) := waitgroup_add wg (-1).

(** Whether the caller returns at once; if not it is parked. *)
Definition waitgroup_wait (wg : waitgroup) (myth : tid) : bool * waitgroup :=
  if cnt wg =? 0 then (true, wg) else (false, WaitGroupT (cnt wg) (waiters wg ++ [myth])).

Inductive wop := Add (c : Z) | Wait (t : tid).

(** The threads an operation lets continue: those made ready, or the caller. *)
Definition wstep (o : wop) (wg : waitgroup) : option (list tid * waitgroup) :=
  match o with
  | Add c => waitgroup_add wg c
  | Wait t => let '(ok, wg) := waitgroup_wait wg t in Some (if ok then [t] else [], wg)
  end.

Fixpoint wrun (os : list wop) (wg : waitgroup) : option (list (list tid) * waitgroup) :=
  match os with
  | [] => Some ([], wg)
  | o :: os =>
      match wstep o wg with
      | None => None
      | Some (r, wg) => match wrun os wg with None => None | Some (rs, wg) => Some (r :: rs, wg) end
      end
  end.

(** The count and the threads waiting after a history, by the history alone. *)
Definition total (os : list wop) : Z := foldr (fun o n => match o with Add c => c + n | Wait _ => n end) 0 os.

(** What each operation lets continue: a wait at count zero its caller, an
    addition that makes the count zero every thread that waits. *)
Fixpoint spec (n : Z) (ws : list tid) (os : list wop) : list (list tid) :=
  match os with
  | [] => []
  | Add c :: os => if n + c =? 0 then ws :: spec 0 [] os else [] :: spec (n + c) ws os
  | Wait t :: os => if n =? 0 then [t] :: spec n ws os else [] :: spec n (ws ++ [t]) os
  end.

Lemma wrun_spec os : forall n ws rs wg,
  0 <= n -> (n = 0 -> ws = []) -> wrun os (WaitGroupT n ws) = Some (rs, wg) ->
  rs = spec n ws os /\ cnt wg = n + total os /\ 0 <= cnt wg /\ (cnt wg = 0 -> waiters wg = []).
Proof.
  induction os as [|[c|t] os IH]; intros n ws rs wg Hn Hw; simpl.
  - intros [= <- <-]. simpl. split_and!; auto. lia.
  - unfold waitgroup_add. simpl. destruct (Z.ltb_spec (n + c) 0); [done|].
    destruct (Z.eqb_spec (n + c) 0) as [E|E].
    + destruct (wrun os _) as [[rs' wg']|] eqn:Er; [|done]. intros [= <- <-].
      rewrite E in Er. apply IH in Er as (-> & H1 & H2 & H3); [|lia|done]. split_and!; auto. lia.
    + destruct (wrun os _) as [[rs' wg']|] eqn:Er; [|done]. intros [= <- <-].
      apply IH in Er as (-> & H1 & H2 & H3); [|lia|lia]. split_and!; auto. lia.
  - unfold waitgroup_wait. simpl. destruct (Z.eqb_spec n 0) as [E|E].
    + destruct (wrun os _) as [[rs' wg']|] eqn:Er; [|done]. intros [= <- <-].
      apply IH in Er as (-> & H1 & H2 & H3); auto.
    + destruct (wrun os _) as [[rs' wg']|] eqn:Er; [|done]. intros [= <- <-].
      apply IH in Er as (-> & H1 & H2 & H3); auto. lia.
Qed.

(** A wait group lets exactly the right threads continue: over any history
    that never takes the count below zero, the count is the sum of the
    additions, each waiting thread is made ready by the addition that brings it
    to zero and by no other, and no thread is left waiting at count zero. *)
Theorem waitgroup_counts os rs wg :
  wrun os waitgroup_init = Some (rs, wg) ->
  rs = spec 0 [] os /\ cnt wg = total os /\ (total os = 0 -> waiters wg = []).
Proof.
  intros H. apply wrun_spec in H as (H1 & H2 & _ & H3); [|done..]. simpl in H2. rewrite H2 in H3. done.
Qed.

Lemma waitgroup_counts_witness :
  exists wg, wrun [Add 2; Wait 7; Add (-1); Wait 8; Add (-1); Wait 9]%nat waitgroup_init =
    Some ([[]; []; []; []; [7; 8]; [9]]%nat, wg) /\ waiters wg = [].
Proof.
  destruct (wrun [Add 2; Wait 7; Add (-1); Wait 8; Add (-1); Wait 9]%nat waitgroup_init)
    as [[rs wg]|] eqn:E; [|vm_compute in E; discriminate E].
  destruct (waitgroup_counts _ rs wg E) as (-> & _ & H). exists wg.
  split; [reflexivity|apply H; reflexivity].
Defined.

End WaitGroup.

(** ** Barrier *)

Module Barrier.

Record barrier := BarrierT { waiting : Z; count : Z; waiters : list tid }.

Definition barrier_init (n : Z) : barrier := BarrierT 0 n [].

(** Whether the caller releases the barrier, and the threads it makes ready; a
    caller that does not release it is parked. *)
Definition barrier_wait (b : barrier) (th : tid) : bool * list tid * barrier :=
  if waiting b + 1 >=? count b
  then (true, waiters b, BarrierT 0 (count b) [])
  else (false, [], BarrierT (waiting b + 1) (count b) (waiters b ++ [th])).

Fixpoint arrive (ts : list tid) (b : barrier) : list (bool * list tid) * barrier :=
  match ts with
  | [] => ([], b)
  | t :: ts => let '(r, b) := barrier_wait b t in let '(rs, b) := arrive ts b in (r :: rs, b)
  end.

(** Within one generation: the callers park in order until the last one. *)
Lemma arrive_round ws : forall (n : Z) ts,
  0 < n -> Z.of_nat (length ws + length ts) < n ->
  arrive ts (BarrierT (Z.of_nat (length ws)) n ws) =
    ((fun _ => (false, [])) <$> ts, BarrierT (Z.of_nat (length ws + length ts)) n (ws ++ ts)).
Proof.
  intros n ts Hn. revert ws. induction ts as [|t ts IH]; intros ws Hl; simpl.
  - by rewrite app_nil_r, Nat.add_0_r.
  - simpl in Hl. unfold barrier_wait. simpl. rewrite Z.geb_leb.
    destruct (Z.leb_spec n (Z.of_nat (length ws) + 1)); [lia|].
    replace (Z.of_nat (length ws) + 1) with (Z.of_nat (length (ws ++ [t]))) by (rewrite length_app; simpl; lia).
    rewrite IH by (rewrite length_app; simpl; lia). rewrite <- app_assoc. simpl.
    do 2 f_equal. rewrite length_app. simpl. f_equal. lia.
Qed.

Lemma arrive_app ts us b :
  arrive (ts ++ us) b =
    let '(rs, b) := arrive ts b in let '(rs', b) := arrive us b in (rs ++ rs', b).
Proof.
  revert b. induction ts as [|t ts IH]; intros b; simpl.
  - by destruct (arrive us b).
  - destruct (barrier_wait b t) as [r b1]. rewrite IH. destruct (arrive ts b1) as [rs b2].
    by destruct (arrive us b2).
Qed.

(** A barrier of [n] releases its callers [n] at a time, and is then as new:
    in each round the first [n-1] callers park, the [n]-th gets [true] and
    makes exactly those ready, in order. *)
Theorem barrier_releases n (ts : list tid) t :
  0 < n -> Z.of_nat (length ts) = n - 1 ->
  arrive (ts ++ [t]) (barrier_init n) = (((fun _ => (false, [])) <$> ts) ++ [(true, ts)], barrier_init n).
Proof.
  intros Hn Hl. rewrite arrive_app. unfold barrier_init.
  change (BarrierT 0 n []) with (BarrierT (Z.of_nat (length (@nil tid))) n []).
  rewrite (arrive_round []) by (simpl; lia). simpl. unfold barrier_wait. simpl. rewrite Z.geb_leb.
  destruct (Z.leb_spec n (Z.of_nat (length ts) + 1)); [done|lia].
Qed.

Lemma barrier_releases_witness :
  arrive [4; 5; 6]%nat (barrier_init 3) = ([(false, []); (false, []); (true, [4; 5]%nat)], barrier_init 3).
Proof. apply (barrier_releases 3 [4; 5]%nat 6%nat); [lia|reflexivity]. Defined.

End Barrier.
