(* ===== verification/Condvar.v ===== *)
(** * sync: condition variables

    Models [condvar_wait], [condvar_wait_timed], [condvar_timeout],
    [condvar_signal] and [condvar_broadcast] of [runtime/sync.c], one lock or
    list operation at a time and for any number of threads, with the mutex the
    condition variable is used with (Mutex shows that it excludes) and the
    timers of the timed waits. *)

From S2P Require Import Prelude StdDef.

Abbreviation tid := nat.

Record condvar := CondvarT {
  waiter_lock : bool;          (* cv->waiter_lock *)
  waiters : list tid;          (* cv->waiters *)
  m_held : bool;               (* the mutex *)
  armed : tid -> bool;         (* the timer of a thread's timed wait *)
  timed_out : tid -> bool      (* args.timed_out of that wait *)
}.

Definition condvar_init : condvar := CondvarT false [] false (fun _ => false) (fun _ => false).

Definition set_lock (c : condvar) (b : bool) : condvar :=
  CondvarT b (waiters c) (m_held c) (armed c) (timed_out c).
Definition set_waiters (c : condvar) (l : list tid) : condvar :=
  CondvarT (waiter_lock c) l (m_held c) (armed c) (timed_out c).
Definition set_m (c : condvar) (b : bool) : condvar :=
  CondvarT (waiter_lock c) (waiters c) b (armed c) (timed_out c).
Definition set_timer (c : condvar) (t : tid) (a o : bool) : condvar :=
  CondvarT (waiter_lock c) (waiters c) (m_held c) (upd (armed c) t a) (upd (timed_out c) t o).

(** What a thread does next.  [S0] to [S3] are a signal ([all = false]) or a
    broadcast, by a thread that holds the mutex ([inm]) or not. *)
Inductive pc :=
| Idle
| M0                                   (* mutex_lock(m) *)
| Crit                                 (* holds the mutex *)
| W0                                   (* condvar_wait: spin_lock *)
| TW0                                  (* condvar_wait_timed: timer_start *)
| TW1                                  (* spin_lock *)
| TW2                                  (* if (args.timed_out) *)
| TW3                                  (* spin_unlock, return false *)
| C1                                   (* mutex_unlock(m) *)
| C2                                   (* list_add_tail *)
| C3                                   (* spin_unlock and park *)
| Parked
| R0                                   (* after the switch: timer_cancel *)
| S0 (all inm : bool)                  (* spin_lock *)
| S1 (all inm : bool)                  (* list_pop, or take the whole list *)
| S2 (l : list tid) (inm : bool)       (* spin_unlock *)
| S3 (l : list tid) (inm : bool).      (* thread_ready on each *)

#[global] Instance pc_eq_dec : EqDecision pc.
Proof. solve_decision. Defined.

(** The step of thread [t] at [p], and the thread it makes ready. *)
Definition exec (t : tid) (p : pc) (c : condvar) : option (pc * condvar * option tid) :=
  match p with
  | Idle | Crit | Parked => None
  | M0 => if m_held c then None else Some (Crit, set_m c true, None)
  | W0 => if waiter_lock c then None else Some (C1, set_lock c true, None)
  | TW0 => Some (TW1, set_timer c t true false, None)
  | TW1 => if waiter_lock c then None else Some (TW2, set_lock c true, None)
  | TW2 => Some (if timed_out c t then TW3 else C1, c, None)
  | TW3 => Some (Crit, set_lock c false, None)
  | C1 => Some (C2, set_m c false, None)
  | C2 => Some (C3, set_waiters c (waiters c ++ [t]), None)
  | C3 => Some (Parked, set_lock c false, None)
  | R0 => Some (M0, set_timer c t false (timed_out c t), None)
  | S0 all inm => if waiter_lock c then None else Some (S1 all inm, set_lock c true, None)
  | S1 all inm =>
      let l := if all then waiters c else take 1 (waiters c) in
      Some (S2 l inm, set_waiters c (drop (length l) (waiters c)), None)
  | S2 l inm => Some (S3 l inm, set_lock c false, None)
  | S3 [] inm => Some (if inm then Crit else Idle, c, None)
  | S3 (w :: l) inm => Some (S3 l inm, c, Some w)
  end.

Record state := State { pcs : tid -> pc; cv : condvar }.

Definition wake (f : tid -> pc) (w : option tid) : tid -> pc :=
  match w with Some w => upd f w R0 | None => f end.

(** The timer of thread [t] fires: [condvar_timeout], with the lock free. *)
Definition condvar_timeout (t : tid) (s : state) : state :=
  if bool_decide (t ∈ waiters (cv s)) then
    State (upd (pcs s) t R0)
      (set_timer (set_waiters (cv s) (filter (.≠ t) (waiters (cv s)))) t false true)
  else State (pcs s) (set_timer (cv s) t false (timed_out (cv s) t)).

Inductive step : state -> state -> Prop :=
| step_lock s t : pcs s t = Idle -> step s (State (upd (pcs s) t M0) (cv s))
| step_unlock s t : pcs s t = Crit -> step s (State (upd (pcs s) t Idle) (set_m (cv s) false))
| step_wait s t : pcs s t = Crit -> step s (State (upd (pcs s) t W0) (cv s))
| step_wait_timed s t : pcs s t = Crit -> step s (State (upd (pcs s) t TW0) (cv s))
| step_signal s t all : pcs s t = Idle -> step s (State (upd (pcs s) t (S0 all false)) (cv s))
| step_signal_in s t all : pcs s t = Crit -> step s (State (upd (pcs s) t (S0 all true)) (cv s))
| step_timer s t :
    armed (cv s) t = true -> waiter_lock (cv s) = false -> step s (condvar_timeout t s)
| step_exec s t p c w :
    exec t (pcs s t) (cv s) = Some (p, c, w) -> step s (State (wake (upd (pcs s) t p) w) c).

Definition initial : state := State (fun _ => Idle) condvar_init.

(** ** The invariant *)

Definition locks (p : pc) : bool :=
  match p with TW2 | TW3 | C1 | C2 | C3 | S1 _ _ | S2 _ _ => true | _ => false end.

Definition waiting (p : pc) : bool := match p with C3 | Parked => true | _ => false end.

(** The threads a signaller has taken off the list and not yet made ready. *)
Definition chosen (p : pc) : list tid := match p with S2 l _ | S3 l _ => l | _ => [] end.

(** [l] holds the lock of the condition variable and [ch t] is the thread that
    has chosen [t]. *)
Record inv (s : state) (l : option tid) (ch : tid -> option tid) : Prop := {
  inv_locks : forall t, locks (pcs s t) = true <-> l = Some t;
  inv_wlock : waiter_lock (cv s) = bool_decide (is_Some l);
  inv_nodup : NoDup (waiters (cv s));
  inv_chosen_nodup : forall v, NoDup (chosen (pcs s v));
  inv_chosen : forall t v, t ∈ chosen (pcs s v) <-> ch t = Some v;
  inv_waiting : forall t, waiting (pcs s t) = true <-> t ∈ waiters (cv s) \/ is_Some (ch t);
  inv_parked : forall t, is_Some (ch t) -> pcs s t = Parked /\ t ∉ waiters (cv s)
}.




Lemma not_holder s l ch t : inv s l ch -> locks (pcs s t) = false -> l <> Some t.
Proof. intros Hinv H ->. by rewrite (proj2 (inv_locks s _ ch Hinv t) eq_refl) in H. Qed.












(** ** Schedules *)

Inductive action :=
| ALock (t : tid) | AWait (t : tid) | AWaitTimed (t : tid) | ASignal (t : tid) (all : bool)
| ATimer (t : tid) | AExec (t : tid).

Definition act (a : action) (s : state) : option state :=
  match a with
  | ALock t => if decide (pcs s t = Idle) then Some (State (upd (pcs s) t M0) (cv s)) else None
  | AWait t => if decide (pcs s t = Crit) then Some (State (upd (pcs s) t W0) (cv s)) else None
  | AWaitTimed t => if decide (pcs s t = Crit) then Some (State (upd (pcs s) t TW0) (cv s)) else None
  | ASignal t all =>
      if decide (pcs s t = Idle) then Some (State (upd (pcs s) t (S0 all false)) (cv s)) else None
  | ATimer t => if armed (cv s) t && negb (waiter_lock (cv s)) then Some (condvar_timeout t s) else None
  | AExec t =>
      match exec t (pcs s t) (cv s) with
      | Some (p, c, w) => Some (State (wake (upd (pcs s) t p) w) c)
      | None => None
      end
  end.

Fixpoint drive (acts : list action) (s : state) : option state :=
  match acts with
  | [] => Some s
  | a :: acts => match act a s with Some s' => drive acts s' | None => None end
  end.

Lemma cv_act_step a s s' : act a s = Some s' -> step s s'.
Proof.
  destruct a as [t|t|t|t all|t|t]; simpl.
  - case_decide; [|done]. intros [= <-]. by constructor.
  - case_decide; [|done]. intros [= <-]. by constructor.
  - case_decide; [|done]. intros [= <-]. by constructor.
  - case_decide; [|done]. intros [= <-]. by constructor.
  - destruct (armed _ t) eqn:E; [|done]. destruct (waiter_lock _) eqn:E2; [done|]. intros [= <-]. by constructor.
  - destruct (exec t _ _) as [[[p c] w]|] eqn:E; [|done]. intros [= <-]. by constructor.
Qed.

Lemma cv_drive_reachable acts : forall s s', drive acts s = Some s' -> rtc step s s'.
Proof.
  induction acts as [|a acts IH]; intros s s'; simpl; [intros [= <-]; done|].
  destruct (act a s) as [s1|] eqn:E; [|done]. intros H. eapply rtc_l; [by eapply cv_act_step|eauto].
Qed.



(** Thread 1 starts a timed wait and its timer fires before it has taken the
    lock of the condition variable. *)
Definition early_timer : list action :=
  [ALock 1; AExec 1; AWaitTimed 1; AExec 1; ATimer 1; AExec 1; AExec 1; AExec 1; AExec 1; AExec 1].

(** A timeout can be lost: when the timer of [condvar_wait_timed] fires after
    it was started and before the thread is on the waiter list,
    [condvar_timeout] does not find the thread and leaves [timed_out] clear;
    the thread then parks with no timer armed, so that without a signal it
    waits forever although its timeout has passed. *)
Theorem condvar_timeout_lost :
  match drive early_timer initial with
  | Some s => rtc step initial s /\ pcs s 1%nat = Parked /\ waiters (cv s) = [1%nat] /\
      armed (cv s) 1%nat = false /\ timed_out (cv s) 1%nat = false
  | None => False
  end.
Proof.
  destruct (drive early_timer initial) as [s|] eqn:E; [|vm_compute in E; discriminate E].
  split; [apply (cv_drive_reachable early_timer); exact E|].
  vm_compute in E. injection E as <-. split; [|split; [|split]]; reflexivity.
Qed.
