(* ===== verification/Sched.v ===== *)
(** * sched: the user-level thread scheduler

    Models [runtime/sched.c] with the parts of [runtime/softirq.c] it calls:
    waking threads, dispatching them (the fast path of [enter_schedule] and the
    search of [schedule]) and stealing work from other kthreads.  The state is
    the threads, the kthreads with their run queues (RunQueue), and the
    scheduler's view of the softirq sources.  Each definition runs under the
    kthread locks the C function holds or takes; values of the time stamp
    counter are arguments.  The build is without [GC], [DIRECTPATH] and
    [DIRECT_STORAGE]; [PREEMPTED_RQ], Aspen's two-queue policy, is a
    parameter. *)

From S2P Require Import Prelude StdDef Ring RunQueue Lrpc.

(** ** State *)

Record thread := Thread {
  thread_ready : bool;
  thread_running : bool;
  last_cpu : Z;
  run_start_tsc : Z;
  ready_tsc : Z;
  preempted : bool
}.
#[global] Instance thread_inhabited : Inhabited thread :=
  populate (Thread false false 0 0 0 false).

(** The counters of [STAT()] the scheduler increments. *)
Inductive stat :=
| RESCHEDULES | SOFTIRQS_STOLEN | SOFTIRQS_LOCAL | LOCAL_RUNS | REMOTE_RUNS
| LOCAL_WAKES | REMOTE_WAKES | RQ_OVERFLOW.
Definition stat_idx (s : stat) : nat :=
  match s with
  | RESCHEDULES => 0 | SOFTIRQS_STOLEN => 1 | SOFTIRQS_LOCAL => 2 | LOCAL_RUNS => 3
  | REMOTE_RUNS => 4 | LOCAL_WAKES => 5 | REMOTE_WAKES => 6 | RQ_OVERFLOW => 7
  end.

(** The softirq sources of a kthread: its ingress channel and the earliest
    deadline of its timer heap. *)
Record softirqs := Softirqs {
  rxq : lrpc_chan_in; rx_shm : lrpc_shm;
  iokernel_busy : bool; iokernel_softirq : tid;
  timern : Z; timer0_deadline : Z;
  timer_busy : bool; timer_softirq : tid;
  last_softirq_tsc : Z
}.

Record kthread := KThread {
  k_rq : runq;                (* rq_head, rq_tail, rq, rq_overflow and q_ptrs *)
  k_prq : runq;               (* the preempted_rq_* fields *)
  locked : bool;              (* spinlock_t lock *)
  parked : bool;
  curr_cpu : Z;
  rcu_gen : Z;
  q_rcu_gen : Z;              (* q_ptrs->rcu_gen *)
  oldest_tsc : Z;             (* q_ptrs->oldest_tsc *)
  q_run_start_tsc : Z;        (* q_ptrs->run_start_tsc *)
  is_preempted : Z;
  uthread_start_ts : Z;
  cede_needed : bool;         (* preempt_cede_needed(k) *)
  soft : softirqs;
  stats : list Z
}.
#[global] Instance kthread_inhabited : Inhabited kthread :=
  populate (KThread (empty_runq 0) (empty_runq (UINT32_MAX / 2)) false false 0 0 0 0 0 (-1) 0 false
    (Softirqs (ChanIn 0 1) (Shm [] 0) false 0%nat 0 0 false 0%nat 0) (replicate 8 0)).

(** Field updates. *)
Definition set_rq (k : kthread) (q : runq) : kthread :=
  KThread q (k_prq k) (locked k) (parked k) (curr_cpu k) (rcu_gen k) (q_rcu_gen k) (oldest_tsc k)
    (q_run_start_tsc k) (is_preempted k) (uthread_start_ts k) (cede_needed k) (soft k) (stats k).
Definition set_prq (k : kthread) (q : runq) : kthread :=
  KThread (k_rq k) q (locked k) (parked k) (curr_cpu k) (rcu_gen k) (q_rcu_gen k) (oldest_tsc k)
    (q_run_start_tsc k) (is_preempted k) (uthread_start_ts k) (cede_needed k) (soft k) (stats k).
Definition set_locked (k : kthread) (b : bool) : kthread :=
  KThread (k_rq k) (k_prq k) b (parked k) (curr_cpu k) (rcu_gen k) (q_rcu_gen k) (oldest_tsc k)
    (q_run_start_tsc k) (is_preempted k) (uthread_start_ts k) (cede_needed k) (soft k) (stats k).
Definition set_rcu_gen (k : kthread) (g : Z) : kthread :=
  KThread (k_rq k) (k_prq k) (locked k) (parked k) (curr_cpu k) g g (oldest_tsc k)
    (q_run_start_tsc k) (is_preempted k) (uthread_start_ts k) (cede_needed k) (soft k) (stats k).
Definition set_oldest (k : kthread) (t : Z) : kthread :=
  KThread (k_rq k) (k_prq k) (locked k) (parked k) (curr_cpu k) (rcu_gen k) (q_rcu_gen k) t
    (q_run_start_tsc k) (is_preempted k) (uthread_start_ts k) (cede_needed k) (soft k) (stats k).
Definition set_run_start (k : kthread) (t : Z) : kthread :=
  KThread (k_rq k) (k_prq k) (locked k) (parked k) (curr_cpu k) (rcu_gen k) (q_rcu_gen k) (oldest_tsc k)
    t (is_preempted k) (uthread_start_ts k) (cede_needed k) (soft k) (stats k).
Definition set_is_preempted (k : kthread) (v : Z) : kthread :=
  KThread (k_rq k) (k_prq k) (locked k) (parked k) (curr_cpu k) (rcu_gen k) (q_rcu_gen k) (oldest_tsc k)
    (q_run_start_tsc k) v (uthread_start_ts k) (cede_needed k) (soft k) (stats k).
Definition set_start_ts (k : kthread) (t : Z) : kthread :=
  KThread (k_rq k) (k_prq k) (locked k) (parked k) (curr_cpu k) (rcu_gen k) (q_rcu_gen k) (oldest_tsc k)
    (q_run_start_tsc k) (is_preempted k) t (cede_needed k) (soft k) (stats k).
Definition set_soft (k : kthread) (s : softirqs) : kthread :=
  KThread (k_rq k) (k_prq k) (locked k) (parked k) (curr_cpu k) (rcu_gen k) (q_rcu_gen k) (oldest_tsc k)
    (q_run_start_tsc k) (is_preempted k) (uthread_start_ts k) (cede_needed k) s (stats k).
Definition stat_incr (s : stat) (k : kthread) : kthread :=
  KThread (k_rq k) (k_prq k) (locked k) (parked k) (curr_cpu k) (rcu_gen k) (q_rcu_gen k) (oldest_tsc k)
    (q_run_start_tsc k) (is_preempted k) (uthread_start_ts k) (cede_needed k) (soft k)
    (alter (fun n => u64 (n + 1)) (stat_idx s) (stats k)).

Record world := World { ths : gmap tid thread; ks : list kthread }.

Definition th_at (w : world) (t : tid) : thread := ths w !!! t.
Definition k_at (w : world) (i : nat) : kthread := ks w !!! i.
Definition set_th (w : world) (t : tid) (x : thread) : world := World (<[t := x]> (ths w)) (ks w).
Definition set_k (w : world) (i : nat) (k : kthread) : world := World (ths w) (<[i := k]> (ks w)).
Definition upd_k (w : world) (i : nat) (f : kthread -> kthread) : world := set_k w i (f (k_at w i)).

(** [th->ready_tsc] *)
Definition tsc_of (w : world) (t : tid) : Z := ready_tsc (th_at w t).

(** ** Operations *)

Section Ops.
(** The build option, the CPU topology ([cpu_map[].sibling_core]), the
    calibrated clock ([cycles_per_us], [start_tsc]) and the
    [disable_watchdog] switch. *)
Context (PREEMPTED_RQ : bool) (sibling_core : Z -> Z)
  (cycles_per_us start_tsc : Z) (disable_watchdog : bool).

(** [clk i] is the [i]-th value the function reads from the time stamp counter. *)
Implicit Types (clk : nat -> Z) (w : world) (me l r : nat) (th : tid).

Definition RUNTIME_WATCHDOG_US : Z := 50.

Definition shift (n : nat) clk : nat -> Z := fun i => clk (n + i)%nat.

Definition cores_have_affinity (cpua cpub : Z) : bool :=
  (cpua =? cpub) || (sibling_core cpua =? cpub).

Definition upd_th w th (f : thread -> thread) : world := set_th w th (f (th_at w th)).

Definition mark_ready (tsc : option Z) (x : thread) : thread :=
  Thread true (thread_running x) (last_cpu x) (run_start_tsc x)
    (default (ready_tsc x) tsc) (preempted x).
Definition mark_unready (x : thread) : thread :=
  Thread false (thread_running x) (last_cpu x) (run_start_tsc x) (ready_tsc x) (preempted x).
Definition mark_running (b : bool) (x : thread) : thread :=
  Thread (thread_ready x) b (last_cpu x) (run_start_tsc x) (ready_tsc x) (preempted x).
Definition set_last_cpu (c : Z) (x : thread) : thread :=
  Thread (thread_ready x) (thread_running x) c (run_start_tsc x) (ready_tsc x) (preempted x).
Definition set_thread_start (t : Z) (x : thread) : thread :=
  Thread (thread_ready x) (thread_running x) (last_cpu x) t (ready_tsc x) (preempted x).
Definition set_ready_tsc (t : Z) (x : thread) : thread :=
  Thread (thread_ready x) (thread_running x) (last_cpu x) (run_start_tsc x) t (preempted x).
Definition clear_preempted (x : thread) : thread :=
  if PREEMPTED_RQ
  then Thread (thread_ready x) (thread_running x) (last_cpu x) (run_start_tsc x) (ready_tsc x) false
  else x.

(** [thread_ready_prepare] ([tsc = Some (rdtsc())]) and
    [thread_preempt_ready_prepare] ([tsc = None]: the time stamp is kept).
    [None] is the [BUG_ON] of a thread that is already ready. *)
Definition thread_ready_prepare w me th (tsc : option Z) : option world :=
  if thread_ready (th_at w th) then None
  else
    let local := cores_have_affinity (last_cpu (th_at w th)) (curr_cpu (k_at w me)) in
    let w := upd_th w th (mark_ready tsc) in
    Some (upd_k w me (stat_incr (if local then LOCAL_WAKES else REMOTE_WAKES))).

Definition thread_ready_locked w me th clk : option world :=
  let w := upd_th w th clear_preempted in
  let overflow := rq_len (drain_if_overflow (k_rq (k_at w me))) >=? RUNTIME_RQ_SIZE in
  match thread_ready_prepare w me th (Some (clk 0%nat)) with
  | None => None
  | Some w => Some (upd_k w me (fun k =>
      let k := set_rq k (enqueue_locked (k_rq k) th) in
      if overflow then stat_incr RQ_OVERFLOW k
      else if rq_len (k_rq k) =? 1 then set_oldest k (tsc_of w th) else k))
  end.

(** The body shared by [thread_ready_head] and [thread_ready_head_locked]. *)
Definition ready_head w me th clk : option world :=
  match thread_ready_prepare w me th (Some (clk 0%nat)) with
  | None => None
  | Some w =>
      let q := k_rq (k_at w me) in
      let w := if rq_nonempty q
               then upd_th w th (set_ready_tsc (tsc_of w (rget RQ_BITS (rq q) (rq_tail q))))
               else w in
      Some (upd_k w me (fun k =>
        let overflow := u32 (rq_head q - u32 (rq_tail q - 1)) >? RUNTIME_RQ_SIZE in
        let k := set_rq k (enqueue_head (k_rq k) th) in
        let k := if overflow then stat_incr RQ_OVERFLOW k else k in
        set_oldest k (tsc_of w th)))
  end.

Definition thread_ready_head_locked w me th clk : option world :=
  ready_head (upd_th w th clear_preempted) me th clk.

Definition thread_ready_head w me th clk : option world := ready_head w me th clk.

Definition ready_tail_overflows (q : runq) : bool :=
  (rq_len q >=? RUNTIME_RQ_SIZE) || negb (bool_decide (rq_overflow q = [])).

(** [thread_ready] (the C name is kept for the thread's flag). *)
Definition make_thread_ready w me th clk : option world :=
  let w := upd_th w th clear_preempted in
  let overflow := ready_tail_overflows (k_rq (k_at w me)) in
  match thread_ready_prepare w me th (Some (clk 0%nat)) with
  | None => None
  | Some w => Some (upd_k w me (fun k =>
      let k := set_rq k (enqueue_tail (k_rq k) th) in
      if overflow then stat_incr RQ_OVERFLOW k
      else if rq_len (k_rq k) =? 1 then set_oldest k (tsc_of w th) else k))
  end.

(** [thread_preempt_ready]: onto the queue of preempted threads. *)
Definition thread_preempt_ready w me th : option world :=
  let overflow := ready_tail_overflows (k_prq (k_at w me)) in
  match thread_ready_prepare w me th None with
  | None => None
  | Some w => Some (upd_k w me (fun k =>
      let k := set_prq k (enqueue_tail (k_prq k) th) in
      if overflow then stat_incr RQ_OVERFLOW k
      else if rq_len (k_prq k) =? 1 then set_oldest k (tsc_of w th) else k))
  end.

(** *** softirq.c *)

Definition softirq_iokernel_pending (s : softirqs) : bool := negb (lrpc_empty (rxq s) (rx_shm s)).
Definition softirq_timer_pending (s : softirqs) (now_tsc : Z) : bool :=
  (0 <? timern s) && (timer0_deadline s <=? u64 (now_tsc - start_tsc) / cycles_per_us).
Definition softirq_pending (s : softirqs) (now_tsc : Z) : bool :=
  softirq_iokernel_pending s || softirq_timer_pending s now_tsc.

Definition set_iokernel_busy (s : softirqs) : softirqs :=
  Softirqs (rxq s) (rx_shm s) true (iokernel_softirq s) (timern s) (timer0_deadline s)
    (timer_busy s) (timer_softirq s) (last_softirq_tsc s).
Definition set_timer_busy (s : softirqs) : softirqs :=
  Softirqs (rxq s) (rx_shm s) (iokernel_busy s) (iokernel_softirq s) (timern s) (timer0_deadline s)
    true (timer_softirq s) (last_softirq_tsc s).
Definition set_last_softirq (t : Z) (s : softirqs) : softirqs :=
  Softirqs (rxq s) (rx_shm s) (iokernel_busy s) (iokernel_softirq s) (timern s) (timer0_deadline s)
    (timer_busy s) (timer_softirq s) t.
Definition upd_soft w k (f : softirqs -> softirqs) : world :=
  upd_k w k (fun x => set_soft x (f (soft x))).

(** [softirq_run_locked(k)] called on kthread [me]: the softirq threads of [k]
    go to the head of [me]'s queue. *)
Definition softirq_run_locked w me k clk : option (bool * world) :=
  let now_tsc := clk 0%nat in
  let s := soft (k_at w k) in
  let step1 :=
    if negb (iokernel_busy s) && softirq_iokernel_pending s then
      match thread_ready_head_locked (upd_soft w k set_iokernel_busy) me (iokernel_softirq s) (shift 1 clk) with
      | None => None
      | Some w => Some (true, w)
      end
    else Some (false, w) in
  match step1 with
  | None => None
  | Some (done1, w) =>
      let s := soft (k_at w k) in
      let step2 :=
        if negb (timer_busy s) && softirq_timer_pending s now_tsc then
          match thread_ready_head_locked (upd_soft w k set_timer_busy) me (timer_softirq s) (shift 2 clk) with
          | None => None
          | Some w => Some (true, w)
          end
        else Some (done1, w) in
      match step2 with
      | None => None
      | Some (done2, w) => Some (done2, upd_soft w k (set_last_softirq now_tsc))
      end
  end.

(** [softirq_run], called with the kthread lock free. *)
Definition softirq_run w me clk : option (bool * world) :=
  let now_tsc := clk 0%nat in
  let w := upd_soft w me (set_last_softirq now_tsc) in
  if negb (softirq_pending (soft (k_at w me)) now_tsc) then Some (false, w)
  else softirq_run_locked w me me (shift 1 clk).

(** *** Stealing *)

Definition work_available w r (now_tsc : Z) : bool :=
  rq_nonempty (k_rq (k_at w r)) ||
  (PREEMPTED_RQ && rq_nonempty (k_prq (k_at w r))) ||
  softirq_pending (soft (k_at w r)) now_tsc.

Definition update_oldest_tsc w i : world :=
  let q := k_rq (k_at w i) in
  if rq_nonempty q
  then upd_k w i (fun k => set_oldest k (tsc_of w (rget RQ_BITS (rq q) (rq_tail q))))
  else w.

Definition unlock w i : world := upd_k w i (fun k => set_locked k false).
Definition lock w i : world := upd_k w i (fun k => set_locked k true).

Definition steal_rq w l lsize r num : world :=
  let '(ql, qr) := merge_runqueues (tsc_of w) (k_rq (k_at w l)) lsize (k_rq (k_at w r)) num in
  let w := upd_k w r (fun k => set_rq k qr) in
  let w := unlock (update_oldest_tsc w r) r in
  update_oldest_tsc (upd_k w l (fun k => set_rq k ql)) l.

Definition steal_prq w l lsize r num : world :=
  let '(ql, qr) := merge_preempted_runqueues (k_prq (k_at w l)) lsize (k_prq (k_at w r)) num in
  let w := unlock (upd_k w r (fun k => set_prq k qr)) r in
  upd_k w l (fun k => set_prq k ql).

Definition steal_work w l r clk : option (bool * world) :=
  if negb (work_available w r (clk 0%nat)) || locked (k_at w r) then Some (false, w)
  else
    let w := lock w r in
    let lsize := exported_len (k_rq (k_at w l)) in
    let num := num_to_steal lsize (exported_len (k_rq (k_at w r))) in
    if negb (num =? 0) then Some (true, steal_rq w l lsize r num)
    else
      let plsize := exported_len (k_prq (k_at w l)) in
      let pnum := num_to_steal plsize (exported_len (k_prq (k_at w r))) in
      if PREEMPTED_RQ && negb (pnum =? 0) then Some (true, steal_prq w l plsize r pnum)
      else
        match softirq_run_locked w l r (shift 1 clk) with
        | None => None
        | Some (true, w) => Some (true, unlock (upd_k w l (stat_incr SOFTIRQS_STOLEN)) r)
        | Some (false, w) => Some (false, unlock w r)
        end.

(** *** Dispatch *)

(** Popping the next thread, as after [done:] in [schedule] and on the fast
    path of [enter_schedule]: new threads first, then preempted ones. *)
Definition pop_next w me : tid * world :=
  let k := k_at w me in
  if negb PREEMPTED_RQ || rq_nonempty (k_rq k) then
    let '(th, q) := pop_thread (k_rq k) in
    let k := set_rq k q in
    (th, set_k w me (if PREEMPTED_RQ then set_is_preempted k 0 else k))
  else
    let '(th, q) := pop_thread (k_prq k) in
    (th, set_k w me (set_is_preempted (set_prq k q) 1)).

Definition count_run w me th : world :=
  upd_k w me (stat_incr
    (if cores_have_affinity (last_cpu (th_at w th)) (curr_cpu (k_at w me))
     then LOCAL_RUNS else REMOTE_RUNS)).

(** The part of [schedule] after the label [done], up to and including
    [jmp_thread]; [clk 0] is [last_tsc], [clk 1] the exported start time. *)
Definition schedule_done w me clk : tid * world :=
  let '(th, w) := pop_next w me in
  let w := unlock (update_oldest_tsc w me) me in
  let w := count_run w me th in
  let w := upd_th w th (set_thread_start (clk 0%nat)) in
  let w := upd_k w me (fun k =>
    set_start_ts (set_rcu_gen (set_run_start k (clk 0%nat)) (u32 (rcu_gen k + 1))) (clk 1%nat)) in
  (th, upd_th w th (fun x => mark_running true (mark_unready x))).

Inductive outcome := SlowPath | SameThread | SwitchTo (th : tid).

(** The test of [enter_schedule] for the slow path. *)
Definition needs_slow_path w me (now_tsc : Z) : bool :=
  let k := k_at w me in
  (negb (rq_nonempty (k_rq k)) && (negb PREEMPTED_RQ || negb (rq_nonempty (k_prq k)))) ||
  cede_needed k ||
  (negb disable_watchdog &&
   (u64 (now_tsc - last_softirq_tsc (soft k)) >? cycles_per_us * RUNTIME_WATCHDOG_US)).

(** [enter_schedule(curth)]; [clk 0] is [now_tsc]. *)
Definition enter_schedule w me curth clk : outcome * world :=
  let w := upd_th w curth (set_last_cpu (curr_cpu (k_at w me))) in
  let w := lock w me in
  if needs_slow_path w me (clk 0%nat) then (SlowPath, w)
  else
    let '(th, w) := pop_next w me in
    let w := unlock (update_oldest_tsc w me) me in
    let w := upd_th w th (set_thread_start (clk 0%nat)) in
    let w := upd_k w me (fun k =>
      set_start_ts (set_rcu_gen (set_run_start k (clk 0%nat)) (u32 (rcu_gen k + 2))) (clk 1%nat)) in
    if bool_decide (th = curth) then (SameThread, upd_th w th mark_unready)
    else
      let w := upd_k w me (stat_incr RESCHEDULES) in
      let w := count_run w me th in
      let w := upd_th w th (fun x => mark_running true (mark_unready x)) in
      (SwitchTo th, upd_th w curth (mark_running false)).

(** [thread_yield]: poll the softirqs, requeue the caller, then schedule;
    [thread_preempt_yield] requeues it as preempted. *)
Definition thread_yield w me curth clk : option (outcome * world) :=
  match softirq_run w me clk with
  | None => None
  | Some (_, w) =>
      match make_thread_ready (upd_th w curth mark_unready) me curth (shift 4 clk) with
      | None => None
      | Some w => Some (enter_schedule w me curth (shift 5 clk))
      end
  end.

Definition thread_preempt_yield w me curth clk : option (outcome * world) :=
  match softirq_run w me clk with
  | None => None
  | Some (_, w) =>
      match thread_preempt_ready (upd_th w curth mark_unready) me curth with
      | None => None
      | Some w => Some (enter_schedule w me curth (shift 4 clk))
      end
  end.

(** *** The search of [schedule] *)

(** From the entry to the first RCU update. *)
Definition schedule_entry w me (self : option tid) : world :=
  let w := if PREEMPTED_RQ then upd_k w me (fun k => set_is_preempted k (-1)) else w in
  let w := match self with Some t => upd_th w t (mark_running false) | None => w end in
  upd_k w me (fun k => let k := stat_incr RESCHEDULES k in set_rcu_gen k (u32 (rcu_gen k + 1))).

Definition local_softirqs w me clk : option (bool * world) :=
  match softirq_run_locked w me me clk with
  | None => None
  | Some (true, w) => Some (true, upd_k w me (stat_incr SOFTIRQS_LOCAL))
  | Some (false, w) => Some (false, w)
  end.

(** The local queues, overflowed threads first moved into their rings. *)
Definition local_queues w me : bool * world :=
  let w := upd_k w me (fun k => set_rq k (drain_if_overflow (k_rq k))) in
  if rq_nonempty (k_rq (k_at w me)) then (true, w)
  else if negb PREEMPTED_RQ then (false, w)
  else
    let w := upd_k w me (fun k => set_prq k (drain_if_overflow (k_prq k))) in
    (rq_nonempty (k_prq (k_at w me)), w).

(** The watchdog, then the local queues; [clk 0] is [start_tsc].  The flag says
    whether to go to [done]. *)
Definition schedule_local w me clk : option (bool * world) :=
  let start := clk 0%nat in
  let watchdog :=
    if negb disable_watchdog &&
       (u64 (start - last_softirq_tsc (soft (k_at w me))) >=? cycles_per_us * RUNTIME_WATCHDOG_US)
    then local_softirqs (upd_soft w me (set_last_softirq start)) me (shift 1 clk)
    else Some (false, w) in
  match watchdog with
  | None => None
  | Some (true, w) => Some (true, w)
  | Some (false, w) => Some (local_queues w me)
  end.

(** The kthreads to steal from: the one that last ran on the sibling core,
    then every kthread from a random start. *)
Definition victims me (sibling_k : option nat) (start_idx : Z) (maxks : nat) : list nat :=
  filter (.≠ me) (option_list sibling_k ++
    ((fun i => Z.to_nat (u32 (start_idx + Z.of_nat i) mod Z.of_nat maxks)) <$> seq 0 maxks)).

Fixpoint try_steals w me (vs : list nat) clk : option (bool * world) :=
  match vs with
  | [] => Some (false, w)
  | v :: vs =>
      match steal_work w me v clk with
      | None => None
      | Some (true, w) => Some (true, w)
      | Some (false, w) => try_steals w me vs (shift 4 clk)
      end
  end.

(** One pass from the label [again]. *)
Definition schedule_again w me (vs : list nat) clk : option (bool * world) :=
  match local_softirqs w me clk with
  | None => None
  | Some (true, w) => Some (true, w)
  | Some (false, w) =>
      match try_steals w me vs (shift 3 clk) with
      | None => None
      | Some (true, w) => Some (true, w)
      | Some (false, w) => local_softirqs w me (shift (3 + 4 * length vs) clk)
      end
  end.
End Ops.
