(* ===== verification/SchedProofs.v ===== *)
(** * sched: the scheduler invariant and its theorems

    Properties of the operations of Sched: no thread is ever on two queues,
    lost or queued without being ready; waking, dispatching and stealing
    preserve this; stealing conserves threads and leaves the thief with one to
    run; a search that fails has looked at every queue it could lock. *)

From S2P Require Import Prelude StdDef Ring RunQueue Lrpc Sched.

(** ** The scheduler invariant *)

Definition k_queued (k : kthread) : list tid := abs (k_rq k) ++ abs (k_prq k).
Definition all_queued (w : world) : list tid := concat (k_queued <$> ks w).

(** Every queue is well formed, no thread is queued twice (on any queue of any
    kthread), and exactly the threads marked ready are queued. *)
Record sched_inv (w : world) : Prop := {
  si_wf : forall i, (i < length (ks w))%nat -> wf (k_rq (k_at w i)) /\ wf (k_prq (k_at w i));
  si_nodup : NoDup (all_queued w);
  si_ready : forall t, t ∈ all_queued w <-> thread_ready (th_at w t) = true
}.

(** ** Lemmas on worlds *)

Lemma k_at_set w i j k : (i < length (ks w))%nat ->
  k_at (set_k w i k) j = if decide (i = j) then k else k_at w j.
Proof.
  intros Hi. unfold k_at, set_k. simpl. rewrite list_lookup_total_insert.
  repeat case_decide; naive_solver.
Qed.

Lemma th_at_set w i j x : th_at (set_th w i x) j = if decide (i = j) then x else th_at w j.
Proof. unfold th_at, set_th. simpl. rewrite lookup_total_insert. done. Qed.

Lemma length_set_k w i k : length (ks (set_k w i k)) = length (ks w).
Proof. apply length_insert. Qed.

(** What a world transformer did, as far as the invariant can tell: it replaced
    the queues of kthread [me] by [q] and [p] and the ready flags by [R]. *)
Record moved (me : nat) (q p : runq) (R : tid -> bool) (w w' : world) : Prop := {
  mv_len : length (ks w') = length (ks w);
  mv_other : forall i, i <> me -> k_rq (k_at w' i) = k_rq (k_at w i) /\ k_prq (k_at w' i) = k_prq (k_at w i);
  mv_rq : k_rq (k_at w' me) = q;
  mv_prq : k_prq (k_at w' me) = p;
  mv_ready : forall t, thread_ready (th_at w' t) = R t
}.

Lemma all_queued_split w me : (me < length (ks w))%nat ->
  exists rest, all_queued w ≡ₚ k_queued (k_at w me) ++ rest /\
    forall w', length (ks w') = length (ks w) ->
      (forall i, i <> me -> k_queued (k_at w' i) = k_queued (k_at w i)) ->
      all_queued w' ≡ₚ k_queued (k_at w' me) ++ rest.
Proof.
  intros Hme. unfold all_queued.
  exists (concat (k_queued <$> take me (ks w)) ++ concat (k_queued <$> drop (S me) (ks w))).
  assert (forall u, (me < length (ks u))%nat -> concat (k_queued <$> ks u) ≡ₚ k_queued (k_at u me) ++
     concat (k_queued <$> take me (ks u)) ++ concat (k_queued <$> drop (S me) (ks u))) as Hsplit.
  { intros u Hu. rewrite <- (take_drop_middle (ks u) me (k_at u me)) at 1
      by (by apply list_lookup_lookup_total_lt).
    rewrite fmap_app, concat_app. simpl. solve_Permutation. }
  split; [by apply Hsplit|]. intros w' Hl Ho. rewrite Hsplit by (by rewrite Hl).
  do 2 f_equiv; apply reflexive_eq; f_equal; apply list_eq; intros j; rewrite !list_lookup_fmap.
  - destruct (decide (j < me)%nat).
    + rewrite !lookup_take_lt by lia.
      rewrite !list_lookup_lookup_total_lt by lia. simpl. f_equal. apply Ho. lia.
    + by rewrite !lookup_take_ge by lia.
  - rewrite !lookup_drop. destruct (decide (S me + j < length (ks w))%nat).
    + rewrite !list_lookup_lookup_total_lt by lia. simpl. f_equal. apply Ho. lia.
    + by rewrite !lookup_ge_None_2 by lia.
Qed.

(** The invariant after a move: the new queues are well formed and the ready
    flags follow what entered and left. *)
Lemma moved_inv me q p R w w' :
  sched_inv w -> (me < length (ks w))%nat -> moved me q p R w w' ->
  wf q -> wf p -> NoDup (abs q ++ abs p) ->
  (forall t, t ∈ abs q ++ abs p ->
     t ∈ k_queued (k_at w me) \/ thread_ready (th_at w t) = false) ->
  (forall t, R t = true <->
     t ∈ abs q ++ abs p \/ (thread_ready (th_at w t) = true /\ t ∉ k_queued (k_at w me))) ->
  sched_inv w'.
Proof.
  intros Hinv Hme [] Hq Hp Hnd Hin HR. destruct Hinv as [Hwf HN Hr].
  destruct (all_queued_split w me Hme) as (rest & Hs & Hs').
  assert (all_queued w' ≡ₚ (abs q ++ abs p) ++ rest) as Hall.
  { rewrite (Hs' w' mv_len0).
    - unfold k_queued. by rewrite mv_rq0, mv_prq0.
    - intros i Hi. destruct (mv_other0 i Hi) as [E1 E2]. unfold k_queued. by rewrite E1, E2. }
  rewrite Hs in HN. apply NoDup_app in HN as (HN1 & HN2 & HN3).
  split.
  - rewrite mv_len0. intros i Hi. destruct (decide (i = me)) as [->|].
    + by rewrite mv_rq0, mv_prq0.
    + destruct (mv_other0 i) as [-> ->]; auto.
  - rewrite Hall. apply NoDup_app. split; [done|]. split; [|done].
    intros t Ht Hrest. destruct (Hin t Ht) as [Ho|Ho]; [by eapply HN2|].
    assert (t ∈ all_queued w) as Ht' by (rewrite Hs; apply elem_of_app; auto). apply Hr in Ht'. congruence.
  - intros t. rewrite mv_ready0, HR, Hall, elem_of_app. split.
    + intros [?|Hrest]; [auto|]. right. split.
      * apply Hr. rewrite Hs. apply elem_of_app. auto.
      * intros Ho. by eapply HN2.
    + intros [?|[Ht Ho]]; [auto|]. right. apply Hr in Ht. rewrite Hs, elem_of_app in Ht. by destruct Ht.
Qed.

(** ** Scheduler-equivalent worlds *)

(** Worlds with the same queues and ready flags. *)
#[export] Instance world_equiv : Equiv world := fun w w' =>
  length (ks w) = length (ks w') /\
  (forall i, k_rq (k_at w i) = k_rq (k_at w' i) /\ k_prq (k_at w i) = k_prq (k_at w' i)) /\
  (forall t, thread_ready (th_at w t) = thread_ready (th_at w' t)).

#[export] Instance world_equivalence : Equivalence (≡@{world}).
Proof.
  split.
  - intros w. by split_and!.
  - intros w w' (H1 & H2 & H3). split_and!; [done|intros i; by destruct (H2 i)|done].
  - intros u v w (H1 & H2 & H3) (G1 & G2 & G3). split_and!; [congruence| |congruence].
    intros i. destruct (H2 i), (G2 i). split; congruence.
Qed.

#[export] Instance all_queued_proper : Proper ((≡@{world}) ==> eq) all_queued.
Proof.
  intros w w' (Hl & Hq & _). unfold all_queued. f_equal. apply list_eq. intros i.
  rewrite !list_lookup_fmap. destruct (decide (i < length (ks w))%nat).
  - rewrite !list_lookup_lookup_total_lt by lia. simpl. f_equal.
    fold (k_at w i) (k_at w' i). unfold k_queued. destruct (Hq i) as [-> ->]. done.
  - by rewrite !lookup_ge_None_2 by lia.
Qed.

#[export] Instance sched_inv_proper : Proper ((≡@{world}) ==> iff) sched_inv.
Proof.
  assert (forall w w', w ≡ w' -> sched_inv w -> sched_inv w') as H.
  { intros w w' E []. pose proof (all_queued_proper w w' E) as Ea. destruct E as (E1 & E2 & E3).
    split.
    - intros i. rewrite <- E1. destruct (E2 i) as [<- <-]. auto.
    - by rewrite <- Ea.
    - intros t. by rewrite <- Ea, <- E3. }
  intros w w' E. split; apply H; [done|by symmetry].
Qed.

(** ** Composing moves *)

Definition same_queues (f : kthread -> kthread) : Prop :=
  forall k, k_rq (f k) = k_rq k /\ k_prq (f k) = k_prq k.
Definition same_ready (f : thread -> thread) : Prop :=
  forall x, thread_ready (f x) = thread_ready x.

Lemma moved_refl w me :
  moved me (k_rq (k_at w me)) (k_prq (k_at w me)) (fun t => thread_ready (th_at w t)) w w.
Proof. by split. Qed.

Lemma equiv_quiet_k w i f : same_queues f -> upd_k w i f ≡ w.
Proof.
  intros Hf. unfold upd_k. split_and!; [apply length_set_k| |done].
  intros j. destruct (decide (i < length (ks w))%nat).
  - rewrite k_at_set by done. destruct (decide (i = j)) as [->|]; [apply Hf|done].
  - unfold k_at, set_k at 1. simpl. rewrite list_insert_ge by lia. done.
Qed.

Lemma equiv_quiet_th w t f : same_ready f -> upd_th w t f ≡ w.
Proof.
  intros Hf. unfold upd_th. split_and!; [done..|]. intros t'. rewrite th_at_set.
  case_decide; [subst; apply Hf|done].
Qed.

#[export] Instance moved_proper me q p R : Proper ((≡) ==> (≡) ==> iff) (moved me q p R).
Proof.
  assert (forall u u' v v', u ≡ u' -> v ≡ v' -> moved me q p R u v -> moved me q p R u' v') as H.
  { intros u u' v v' (E1 & E2 & E3) (F1 & F2 & F3) []. split; [congruence| | | |congruence].
    - intros i Hi. destruct (E2 i) as [<- <-], (F2 i) as [<- <-]. auto.
    - by destruct (F2 me) as [<- _].
    - by destruct (F2 me) as [_ <-]. }
  intros u u' E v v' F. split; apply H; by try symmetry.
Qed.

Lemma moved_upd_k me q p R w w' f :
  (me < length (ks w))%nat -> moved me q p R w w' ->
  moved me (k_rq (f (k_at w' me))) (k_prq (f (k_at w' me))) R w (upd_k w' me f).
Proof.
  intros Hme []. unfold upd_k. split; auto.
  - by rewrite length_set_k.
  - intros i Hi. rewrite k_at_set by lia. rewrite decide_False by done. auto.
  - rewrite k_at_set by lia. by rewrite decide_True.
  - rewrite k_at_set by lia. by rewrite decide_True.
Qed.

(** Updates of other fields, on any kthread or thread. *)
Lemma moved_quiet_k me q p R w w' i f :
  moved me q p R w w' -> same_queues f -> moved me q p R w (upd_k w' i f).
Proof. intros Hm Hf. by rewrite equiv_quiet_k. Qed.

Lemma moved_quiet_th me q p R w w' th f :
  moved me q p R w w' -> same_ready f -> moved me q p R w (upd_th w' th f).
Proof. intros Hm Hf. by rewrite equiv_quiet_th. Qed.

Lemma moved_upd_th me q p R w w' th f :
  moved me q p R w w' ->
  moved me q p (fun t => if decide (th = t) then thread_ready (f (th_at w' th)) else R t) w (upd_th w' th f).
Proof.
  intros []. unfold upd_th. split; auto. intros t. rewrite th_at_set. case_decide; auto.
Qed.

Lemma moved_eq me q p q' p' R w w' :
  moved me q p R w w' -> q = q' -> p = p' -> moved me q' p' R w w'.
Proof. by intros ? <- <-. Qed.

Lemma quiet_preempted b : same_ready (clear_preempted b).
Proof. intros x. unfold clear_preempted. by destruct b. Qed.

Create HintDb quiet.
#[export] Hint Resolve quiet_preempted : quiet.
#[export] Hint Extern 1 (same_queues _) => done : quiet.
#[export] Hint Extern 2 (same_ready _) => done : quiet.

(** Strips the updates that no queue and no ready flag sees. *)
Ltac quiet_moves :=
  repeat first
    [ assumption
    | apply moved_quiet_k; [|solve [auto with quiet]]
    | apply moved_quiet_th; [|solve [auto with quiet]] ].

(** ** Waking threads *)

(** [th] joined the ready threads. *)
Definition with_ready (w : world) (th : tid) : tid -> bool :=
  fun t => if decide (th = t) then true else thread_ready (th_at w t).
Definition without_ready (w : world) (th : tid) : tid -> bool :=
  fun t => if decide (th = t) then false else thread_ready (th_at w t).

(** A thread that was not ready enters the queues of [me]. *)
Lemma push_inv me q p w w' th :
  sched_inv w -> (me < length (ks w))%nat -> thread_ready (th_at w th) = false ->
  moved me q p (with_ready w th) w w' ->
  wf q -> wf p -> abs q ++ abs p ≡ₚ th :: k_queued (k_at w me) -> sched_inv w'.
Proof.
  intros Hinv Hme Hth Hm Hq Hp Hperm.
  destruct (all_queued_split w me Hme) as (rest & Hs & _).
  pose proof (si_nodup w Hinv) as HN. rewrite Hs in HN. apply NoDup_app in HN as (HN & _ & _).
  assert (th ∉ k_queued (k_at w me)) as Hnew.
  { intros Hin. assert (th ∈ all_queued w) as H by (rewrite Hs; apply elem_of_app; auto).
    apply (si_ready w Hinv) in H. congruence. }
  apply (moved_inv me q p (with_ready w th) w w'); auto.
  - rewrite Hperm. by apply NoDup_cons.
  - intros t. rewrite Hperm, elem_of_cons. intros [->|]; auto.
  - intros t. rewrite Hperm, elem_of_cons. unfold with_ready. case_decide as E.
    + subst. split; auto.
    + assert (t ∈ k_queued (k_at w me) -> thread_ready (th_at w t) = true) as Hr.
      { intros Hin. apply (si_ready w Hinv). rewrite Hs. apply elem_of_app. auto. }
      destruct (decide (t ∈ k_queued (k_at w me))); [|split; [by auto|intros [[|]|[]]; congruence]].
      split; auto.
Qed.

(** The last update of a waking operation, on the kthread's record. *)
Ltac woken Hm :=
  eapply moved_eq; [by eapply moved_upd_k| |]; simpl;
  destruct Hm as [_ _ E1 E2 _]; rewrite <- ?E1, <- ?E2; repeat case_match; done.

(** ** Moving threads between kthreads *)

(** Queued threads fit the 32-bit counters exported to the iokernel. *)
Definition few_queued (w : world) : Prop := Z.of_nat (length (all_queued w)) < UINT32_MAX.

(** The queues of [l] and [r] were rearranged, nothing else. *)
Record shared (l r : nat) (w w' : world) : Prop := {
  sh_len : length (ks w') = length (ks w);
  sh_other : forall i, i <> l -> i <> r ->
    k_rq (k_at w' i) = k_rq (k_at w i) /\ k_prq (k_at w' i) = k_prq (k_at w i);
  sh_ready : forall t, thread_ready (th_at w' t) = thread_ready (th_at w t)
}.

Lemma shared_queued l r w w' :
  l <> r -> (l < length (ks w))%nat -> (r < length (ks w))%nat -> shared l r w w' ->
  k_queued (k_at w' l) ++ k_queued (k_at w' r) ≡ₚ k_queued (k_at w l) ++ k_queued (k_at w r) ->
  all_queued w' ≡ₚ all_queued w.
Proof.
  intros Hne Hl Hr [Hlen Ho _] Hperm.
  destruct (all_queued_split w r Hr) as (rest & Hs & Hs').
  set (w1 := set_k w r (k_at w' r)).
  assert (forall i, k_at w1 i = if decide (r = i) then k_at w' r else k_at w i) as Hk
    by (intros; by apply k_at_set).
  assert (length (ks w1) = length (ks w)) as Hlen1 by apply length_set_k.
  specialize (Hs' w1 Hlen1). rewrite !Hk, (decide_True _ _ (eq_refl r)) in Hs'.
  destruct (all_queued_split w1 l) as (rest1 & Hs1 & Hs1'); [lia|].
  specialize (Hs1' w'). rewrite !Hk, decide_False in Hs1 by congruence.
  rewrite Hs' in Hs1 by (intros; by rewrite Hk, decide_False by congruence).
  rewrite Hs1' by (congruence || (intros i Hi; rewrite Hk; case_decide; [by subst|];
    unfold k_queued; destruct (Ho i) as [-> ->]; done)).
  rewrite Hs. apply (Permutation_app_inv_l (k_queued (k_at w' r))).
  rewrite (Permutation_app_swap_app _ (k_queued (k_at w r))), Hs1, !app_assoc.
  apply Permutation_app_tail. rewrite Permutation_app_comm, Hperm. apply Permutation_app_comm.
Qed.

Lemma shared_inv l r w w' :
  sched_inv w -> l <> r -> (l < length (ks w))%nat -> (r < length (ks w))%nat -> shared l r w w' ->
  (forall i, i = l \/ i = r -> wf (k_rq (k_at w' i)) /\ wf (k_prq (k_at w' i))) ->
  k_queued (k_at w' l) ++ k_queued (k_at w' r) ≡ₚ k_queued (k_at w l) ++ k_queued (k_at w r) ->
  sched_inv w'.
Proof.
  intros Hinv Hne Hl Hr Hsh Hwf Hperm. pose proof (shared_queued l r w w' Hne Hl Hr Hsh Hperm) as Ha.
  destruct Hsh as [Hlen Ho Hrd], Hinv as [Hw HN HR]. split.
  - rewrite Hlen. intros i Hi. destruct (decide (i = l)); [auto|]. destruct (decide (i = r)); [auto|].
    destruct (Ho i) as [-> ->]; auto.
  - by rewrite Ha.
  - intros t. by rewrite Ha, Hrd.
Qed.

(** The exported counters give the exact length of a queue. *)
Lemma exported_all w i :
  sched_inv w -> few_queued w -> (i < length (ks w))%nat ->
  exported_len (k_rq (k_at w i)) = Z.of_nat (length (abs (k_rq (k_at w i)))) /\
  exported_len (k_prq (k_at w i)) = Z.of_nat (length (abs (k_prq (k_at w i)))).
Proof.
  intros Hinv Hfew Hi. destruct (all_queued_split w i Hi) as (rest & Hs & _).
  unfold few_queued in Hfew. rewrite Hs in Hfew. unfold k_queued in Hfew. rewrite !length_app in Hfew.
  destruct (si_wf w Hinv i Hi) as [[_ ->] [_ ->]]. rewrite !u32_small by (unfold is_u32, UINT32_MAX in *; lia). done.
Qed.

Lemma equiv_upd_k w w' i f :
  w ≡ w' ->
  (forall k k', k_rq k = k_rq k' -> k_prq k = k_prq k' ->
     k_rq (f k) = k_rq (f k') /\ k_prq (f k) = k_prq (f k')) ->
  upd_k w i f ≡ upd_k w' i f.
Proof.
  intros (E1 & E2 & E3) Hf. unfold upd_k. split_and!; [by rewrite !length_set_k| |done].
  intros j. destruct (decide (i < length (ks w))%nat).
  - rewrite !k_at_set by lia. case_decide; [apply Hf; apply E2|apply E2].
  - unfold k_at, set_k in *. simpl in *. rewrite !list_insert_ge by lia. apply E2.
Qed.

Lemma update_oldest_equiv w i : update_oldest_tsc w i ≡ w.
Proof. unfold update_oldest_tsc. destruct (rq_nonempty _); [|done]. by apply equiv_quiet_k. Qed.

Lemma unlock_equiv w i : unlock w i ≡ w.
Proof. by apply equiv_quiet_k. Qed.

Lemma lock_equiv w i : lock w i ≡ w.
Proof. by apply equiv_quiet_k. Qed.

#[export] Hint Rewrite update_oldest_equiv unlock_equiv lock_equiv : quiet.

Lemma equiv_upd_th w w' th f g :
  w ≡ w' ->
  (forall x x', thread_ready x = thread_ready x' -> thread_ready (f x) = thread_ready (g x')) ->
  upd_th w th f ≡ upd_th w' th g.
Proof.
  intros (E1 & E2 & E3) Hf. split_and!; [done..|]. intros t. unfold upd_th. rewrite !th_at_set.
  case_decide; auto.
Qed.

(** Proves [w' ≡ w] when [w'] is [w] under updates of other fields. *)
Ltac quiet_equiv :=
  repeat first
    [ reflexivity
    | assumption
    | etransitivity; [apply update_oldest_equiv|]
    | etransitivity; [apply equiv_quiet_k; solve [auto with quiet]|]
    | etransitivity; [apply equiv_quiet_th; solve [auto with quiet]|] ].

(** Replacing the queues of two kthreads. *)
Lemma replace_two w l r kl kr :
  l <> r -> (l < length (ks w))%nat -> (r < length (ks w))%nat ->
  let w' := set_k (set_k w r kr) l kl in
  shared l r w w' /\ k_at w' l = kl /\ k_at w' r = kr.
Proof.
  intros Hne Hl Hr w'.
  assert (forall i, k_at w' i = if decide (l = i) then kl else if decide (r = i) then kr else k_at w i) as Hk.
  { intros i. unfold w'. rewrite !k_at_set by (rewrite ?length_set_k; done). done. }
  split; [split|].
  - unfold w'. by rewrite !length_set_k.
  - intros i Hi Hi'. by rewrite Hk, !decide_False by congruence.
  - done.
  - by rewrite !Hk, decide_True, decide_False, decide_True.
Qed.

(** A thread leaves the queues of [me] and is no longer ready. *)
Lemma pop_inv me q p w w' th :
  sched_inv w -> (me < length (ks w))%nat -> moved me q p (without_ready w th) w w' ->
  wf q -> wf p -> k_queued (k_at w me) ≡ₚ th :: abs q ++ abs p ->
  sched_inv w' /\ thread_ready (th_at w th) = true.
Proof.
  intros Hinv Hme Hm Hq Hp Hperm.
  destruct (all_queued_split w me Hme) as (rest & Hs & _).
  pose proof (si_nodup w Hinv) as HN. rewrite Hs in HN. apply NoDup_app in HN as (HN & _ & _).
  rewrite Hperm in HN. apply NoDup_cons in HN as [Hnew HN].
  assert (forall t, t ∈ k_queued (k_at w me) -> thread_ready (th_at w t) = true) as Hr.
  { intros t Hin. apply (si_ready w Hinv). rewrite Hs. apply elem_of_app. auto. }
  split; [|apply Hr; rewrite Hperm; by left].
  apply (moved_inv me q p (without_ready w th) w w'); auto.
  - intros t Ht. left. rewrite Hperm. by right.
  - intros t. rewrite Hperm, elem_of_cons. unfold without_ready. case_decide as E.
    + subst. split; [done|]. intros [|[_ ?]]; [done|]. exfalso. auto.
    + destruct (decide (t ∈ abs q ++ abs p)).
      * split; [by left|]. intros _. apply Hr. rewrite Hperm. by right.
      * split; [|by intros [|[]]]. intros Ht. right. split; [done|]. by intros [|].
Qed.

Section Proofs.
Context (PREEMPTED_RQ : bool) (sibling_core : Z -> Z)
  (cycles_per_us start_tsc : Z) (disable_watchdog : bool).
Implicit Types (clk : nat -> Z) (w : world) (me l r : nat) (th : tid).

#[local] Abbreviation clear_preempted := (clear_preempted PREEMPTED_RQ).
#[local] Abbreviation thread_ready_prepare := (thread_ready_prepare sibling_core).
#[local] Abbreviation thread_ready_locked := (thread_ready_locked PREEMPTED_RQ sibling_core).
#[local] Abbreviation make_thread_ready := (make_thread_ready PREEMPTED_RQ sibling_core).
#[local] Abbreviation ready_head := (ready_head sibling_core).
#[local] Abbreviation thread_ready_head_locked := (thread_ready_head_locked PREEMPTED_RQ sibling_core).
#[local] Abbreviation thread_ready_head := (thread_ready_head sibling_core).
#[local] Abbreviation thread_preempt_ready := (thread_preempt_ready sibling_core).

(** [thread_ready_prepare] hits its [BUG_ON] exactly on a ready thread. *)
Lemma prepare_none w me th tsc :
  thread_ready_prepare w me th tsc = None <-> thread_ready (th_at w th) = true.
Proof. unfold Sched.thread_ready_prepare. by destruct (thread_ready _). Qed.

Lemma prepare_some w me th tsc w' :
  thread_ready_prepare w me th tsc = Some w' ->
  thread_ready (th_at w th) = false /\
  moved me (k_rq (k_at w me)) (k_prq (k_at w me)) (with_ready w th) w w'.
Proof.
  unfold Sched.thread_ready_prepare. destruct (thread_ready (th_at w th)) eqn:E; [done|].
  intros [= <-]. split; [done|]. quiet_moves.
  exact (moved_upd_th me _ _ _ w w th (mark_ready tsc) (moved_refl w me)).
Qed.

Lemma prepare_some_cleared w me th tsc w' :
  thread_ready_prepare (upd_th w th clear_preempted) me th tsc = Some w' ->
  thread_ready (th_at w th) = false /\
  moved me (k_rq (k_at w me)) (k_prq (k_at w me)) (with_ready w th) w w'.
Proof.
  intros H. apply prepare_some in H as [Hth [H1 H2 H3 H4 H5]].
  pose proof (moved_quiet_th me _ _ _ w w th clear_preempted (moved_refl w me)
    (quiet_preempted _)) as [G1 G2 G3 G4 G5].
  rewrite G5 in Hth. split; [done|]. split; auto.
  intros t. rewrite H5. unfold with_ready. case_decide; auto.
Qed.
(** What each way of waking a thread does to the queues. *)
Lemma thread_ready_locked_moved w me th clk w' :
  (me < length (ks w))%nat -> thread_ready_locked w me th clk = Some w' ->
  thread_ready (th_at w th) = false /\
  moved me (enqueue_locked (k_rq (k_at w me)) th) (k_prq (k_at w me)) (with_ready w th) w w'.
Proof.
  intros Hme. unfold Sched.thread_ready_locked.
  destruct (thread_ready_prepare _ _ _ _) as [w1|] eqn:E; [|done]. intros [= <-].
  apply prepare_some_cleared in E as [Hth Hm]. split; [done|].
  woken Hm.
Qed.

Lemma make_thread_ready_moved w me th clk w' :
  (me < length (ks w))%nat -> make_thread_ready w me th clk = Some w' ->
  thread_ready (th_at w th) = false /\
  moved me (enqueue_tail (k_rq (k_at w me)) th) (k_prq (k_at w me)) (with_ready w th) w w'.
Proof.
  intros Hme. unfold Sched.make_thread_ready.
  destruct (thread_ready_prepare _ _ _ _) as [w1|] eqn:E; [|done]. intros [= <-].
  apply prepare_some_cleared in E as [Hth Hm]. split; [done|].
  woken Hm.
Qed.

Lemma thread_preempt_ready_moved w me th w' :
  (me < length (ks w))%nat -> thread_preempt_ready w me th = Some w' ->
  thread_ready (th_at w th) = false /\
  moved me (k_rq (k_at w me)) (enqueue_tail (k_prq (k_at w me)) th) (with_ready w th) w w'.
Proof.
  intros Hme. unfold Sched.thread_preempt_ready.
  destruct (thread_ready_prepare _ _ _ _) as [w1|] eqn:E; [|done]. intros [= <-].
  apply prepare_some in E as [Hth Hm]. split; [done|].
  woken Hm.
Qed.

Lemma ready_head_finish w w1 me th :
  (me < length (ks w))%nat ->
  moved me (k_rq (k_at w me)) (k_prq (k_at w me)) (with_ready w th) w w1 ->
  forall tsc ov, let w2 := if rq_nonempty (k_rq (k_at w1 me)) then upd_th w1 th (set_ready_tsc tsc) else w1 in
  moved me (enqueue_head (k_rq (k_at w me)) th) (k_prq (k_at w me)) (with_ready w th) w
    (upd_k w2 me (fun k => set_oldest (let k := set_rq k (enqueue_head (k_rq k) th) in
       if ov : bool then stat_incr RQ_OVERFLOW k else k) (tsc_of w2 th))).
Proof.
  intros Hme Hm tsc ov w2.
  assert (moved me (k_rq (k_at w me)) (k_prq (k_at w me)) (with_ready w th) w w2) as Hm2.
  { unfold w2. destruct (rq_nonempty _); quiet_moves. }
  woken Hm2.
Qed.

Lemma thread_ready_head_moved w me th clk w' :
  (me < length (ks w))%nat -> thread_ready_head w me th clk = Some w' ->
  thread_ready (th_at w th) = false /\
  moved me (enqueue_head (k_rq (k_at w me)) th) (k_prq (k_at w me)) (with_ready w th) w w'.
Proof.
  intros Hme. unfold Sched.thread_ready_head, Sched.ready_head.
  destruct (thread_ready_prepare _ _ _ _) as [w1|] eqn:E; [|done]. intros [= <-].
  apply prepare_some in E as [Hth Hm]. split; [done|]. by apply ready_head_finish.
Qed.

Lemma thread_ready_head_locked_moved w me th clk w' :
  (me < length (ks w))%nat -> thread_ready_head_locked w me th clk = Some w' ->
  thread_ready (th_at w th) = false /\
  moved me (enqueue_head (k_rq (k_at w me)) th) (k_prq (k_at w me)) (with_ready w th) w w'.
Proof.
  intros Hme. unfold Sched.thread_ready_head_locked, Sched.ready_head.
  destruct (thread_ready_prepare _ _ _ _) as [w1|] eqn:E; [|done]. intros [= <-].
  apply prepare_some_cleared in E as [Hth Hm]. split; [done|]. by apply ready_head_finish.
Qed.
(** *** softirqs *)

#[local] Abbreviation softirq_run_locked :=
  (softirq_run_locked PREEMPTED_RQ sibling_core cycles_per_us start_tsc).
#[local] Abbreviation softirq_run :=
  (softirq_run PREEMPTED_RQ sibling_core cycles_per_us start_tsc).
#[local] Abbreviation steal_work :=
  (steal_work PREEMPTED_RQ sibling_core cycles_per_us start_tsc).

(** After a step on kthread [me]: the invariant holds over the same kthreads. *)
Definition stepped w w' : Prop := sched_inv w' /\ length (ks w') = length (ks w).

Lemma stepped_equiv w w' : sched_inv w -> w' ≡ w -> stepped w w'.
Proof. intros H E. split; [by rewrite E|apply E]. Qed.

Lemma stepped_trans u v w : stepped u v -> stepped v w -> stepped u w.
Proof. unfold stepped. intros [] []. split; [done|congruence]. Qed.

Lemma thread_ready_head_locked_inv w me th clk w' :
  sched_inv w -> (me < length (ks w))%nat -> thread_ready_head_locked w me th clk = Some w' ->
  stepped w w' /\ rq_nonempty (k_rq (k_at w' me)) = true.
Proof.
  intros Hinv Hme H. apply thread_ready_head_locked_moved in H as [Hth Hm]; [|done].
  destruct (si_wf w Hinv me Hme) as [Hq Hp].
  destruct (enqueue_head_spec (k_rq (k_at w me)) th Hq) as [Hw Ha].
  split; [split; [|apply Hm]|].
  - eapply push_inv; eauto. by rewrite Ha.
  - destruct Hm as [_ _ -> _ _]. by apply enqueue_head_nonempty.
Qed.

(** One of the two softirq sources of [softirq_run_locked]. *)
Lemma softirq_source_inv w me k (c b0 : bool) f th clk b w' :
  sched_inv w -> (me < length (ks w))%nat ->
  (if c then match thread_ready_head_locked (upd_soft w k f) me th clk with
             | None => None | Some w => Some (true, w) end
   else Some (b0, w)) = Some (b, w') ->
  stepped w w' /\
  (b = true -> b0 = true /\ w' = w \/ rq_nonempty (k_rq (k_at w' me)) = true) /\
  (b = false -> b0 = false /\ w' = w).
Proof.
  intros Hinv Hme. destruct c.
  - destruct (thread_ready_head_locked _ _ _ _) as [w1|] eqn:E; [|done]. intros [= <- <-].
    assert (upd_soft w k f ≡ w) as Eq by (by apply equiv_quiet_k).
    apply thread_ready_head_locked_inv in E as [Hst Hne]; [|by rewrite Eq|destruct Eq as [-> _]; done].
    split; [|split; [by auto|done]]. eapply stepped_trans; [|done]. by apply stepped_equiv.
  - intros [= <- <-]. split; [by apply stepped_equiv|]. auto.
Qed.

Lemma softirq_run_locked_inv w me k clk b w' :
  sched_inv w -> (me < length (ks w))%nat -> softirq_run_locked w me k clk = Some (b, w') ->
  stepped w w' /\ (b = true -> rq_nonempty (k_rq (k_at w' me)) = true) /\
  (b = false -> w' = upd_soft w k (set_last_softirq (clk 0%nat))).
Proof.
  intros Hinv Hme. unfold Sched.softirq_run_locked.
  set (step1 := if _ && _ then _ else _). destruct step1 as [[b1 w1]|] eqn:E1; [|done].
  apply softirq_source_inv in E1 as (Hs1 & Ht1 & Hf1); [|done..]. destruct Hs1 as [Hi1 Hl1].
  set (step2 := if _ && _ then _ else _). destruct step2 as [[b2 w2]|] eqn:E2; [|done].
  apply softirq_source_inv in E2 as (Hs2 & Ht2 & Hf2); [|by rewrite ?Hl1..].
  intros [= <- <-].
  assert (upd_soft w2 k (set_last_softirq (clk 0%nat)) ≡ w2) as Eq by (by apply equiv_quiet_k).
  split_and!.
  - destruct Hs2. split; [by rewrite Eq|]. destruct Eq as [-> _]. congruence.
  - intros ->. destruct Eq as (_ & Eq & _). destruct (Eq me) as [-> _].
    destruct (Ht2 eq_refl) as [[-> ->]|]; [|done]. by destruct (Ht1 eq_refl) as [[]|].
  - intros ->. destruct (Hf2 eq_refl) as [-> ->]. by destruct (Hf1 eq_refl) as [_ ->].
Qed.
(** Which threads the softirqs of [k] are never changes. *)
Definition softirq_ids (k : kthread) : tid * tid := (iokernel_softirq (soft k), timer_softirq (soft k)).

Lemma softirq_ids_upd_k w i f j :
  (forall k, softirq_ids (f k) = softirq_ids k) -> softirq_ids (k_at (upd_k w i f) j) = softirq_ids (k_at w j).
Proof.
  intros Hf. unfold upd_k. destruct (decide (i < length (ks w))%nat).
  - rewrite k_at_set by done. case_decide; [subst; apply Hf|done].
  - unfold k_at, set_k at 1. simpl. by rewrite list_insert_ge by lia.
Qed.

Lemma thread_ready_head_locked_ids w me th clk w' j :
  thread_ready_head_locked w me th clk = Some w' -> softirq_ids (k_at w' j) = softirq_ids (k_at w j).
Proof.
  unfold Sched.thread_ready_head_locked, Sched.ready_head, Sched.thread_ready_prepare.
  destruct (thread_ready _); [done|]. intros [= <-].
  rewrite softirq_ids_upd_k by (intros k; by destruct (_ >? _)).
  destruct (rq_nonempty _); apply (softirq_ids_upd_k (upd_th (upd_th w th clear_preempted) th _)); done.
Qed.

(** Only the softirq threads of [k] become ready. *)
Lemma softirq_run_locked_ready w me k clk b w' t :
  (me < length (ks w))%nat -> softirq_run_locked w me k clk = Some (b, w') ->
  t <> iokernel_softirq (soft (k_at w k)) -> t <> timer_softirq (soft (k_at w k)) ->
  thread_ready (th_at w' t) = thread_ready (th_at w t).
Proof.
  assert (forall u f th c u', (me < length (ks u))%nat -> t <> th ->
    thread_ready_head_locked (upd_soft u k f) me th c = Some u' ->
    length (ks u') = length (ks u) /\ thread_ready (th_at u' t) = thread_ready (th_at u t)) as Hstep.
  { intros u f th c u' Hu Hne H. apply thread_ready_head_locked_moved in H as [_ [Hl _ _ _ Hr]].
    - rewrite Hl, Hr. unfold with_ready. rewrite decide_False by congruence. split; [apply length_set_k|done].
    - unfold upd_soft, upd_k. by rewrite length_set_k. }
  intros Hme. unfold Sched.softirq_run_locked. intros H H1 H2. revert H.
  set (step1 := if _ && _ then _ else _). destruct step1 as [[b1 w1]|] eqn:E1; [|done].
  assert (length (ks w1) = length (ks w) /\ thread_ready (th_at w1 t) = thread_ready (th_at w t) /\
    softirq_ids (k_at w1 k) = softirq_ids (k_at w k)) as (Hl & Hr & Hid).
  { subst step1. destruct (_ && _) in E1; [|by injection E1 as <- <-].
    destruct (thread_ready_head_locked _ _ _ _) as [u|] eqn:E in E1; [|done]. injection E1 as <- <-.
    destruct (Hstep _ _ _ _ _ Hme H1 E). split_and!; [done..|].
    rewrite (thread_ready_head_locked_ids _ _ _ _ _ _ E). by apply softirq_ids_upd_k. }
  injection Hid as _ Hid. rewrite <- Hid in H2.
  set (step2 := if _ && _ then _ else _). destruct step2 as [[b2 w2]|] eqn:E2; [|done].
  intros [= <- <-]. change (thread_ready (th_at w2 t) = thread_ready (th_at w t)). rewrite <- Hr.
  subst step2. destruct (_ && _) in E2; [|by injection E2 as <- <-].
  destruct (thread_ready_head_locked _ _ _ _) as [u|] eqn:E in E2; [|done]. injection E2 as <- <-.
  eapply Hstep; [|done..]. lia.
Qed.

(** *** Stealing *)

Lemma steal_rq_equiv w l lsize r num ql qr :
  l <> r -> (l < length (ks w))%nat -> (r < length (ks w))%nat ->
  merge_runqueues (tsc_of w) (k_rq (k_at w l)) lsize (k_rq (k_at w r)) num = (ql, qr) ->
  steal_rq w l lsize r num ≡
    set_k (set_k w r (set_rq (k_at w r) qr)) l (set_rq (k_at w l) ql).
Proof.
  intros Hne Hl Hr E. unfold steal_rq. rewrite E, update_oldest_equiv.
  etransitivity; [apply equiv_upd_k; [rewrite unlock_equiv; apply update_oldest_equiv|done]|].
  unfold upd_k. rewrite k_at_set by done. by rewrite decide_False by congruence.
Qed.

Lemma steal_prq_equiv w l lsize r num ql qr :
  l <> r -> (l < length (ks w))%nat -> (r < length (ks w))%nat ->
  merge_preempted_runqueues (k_prq (k_at w l)) lsize (k_prq (k_at w r)) num = (ql, qr) ->
  steal_prq w l lsize r num ≡
    set_k (set_k w r (set_prq (k_at w r) qr)) l (set_prq (k_at w l) ql).
Proof.
  intros Hne Hl Hr E. unfold steal_prq. rewrite E.
  etransitivity; [apply equiv_upd_k; [apply unlock_equiv|done]|].
  unfold upd_k. rewrite k_at_set by done. by rewrite decide_False by congruence.
Qed.

(** The two kthreads' queues after a theft that conserves threads. *)
Lemma theft w l r kl kr w' :
  sched_inv w -> l <> r -> (l < length (ks w))%nat -> (r < length (ks w))%nat ->
  w' ≡ set_k (set_k w r kr) l kl ->
  wf (k_rq kl) -> wf (k_prq kl) -> wf (k_rq kr) -> wf (k_prq kr) ->
  k_queued kl ++ k_queued kr ≡ₚ k_queued (k_at w l) ++ k_queued (k_at w r) ->
  stepped w w' /\ all_queued w' ≡ₚ all_queued w /\
  (k_rq (k_at w' l) = k_rq kl /\ k_prq (k_at w' l) = k_prq kl) /\
  (k_rq (k_at w' r) = k_rq kr /\ k_prq (k_at w' r) = k_prq kr).
Proof.
  intros Hinv Hne Hl Hr E W1 W2 W3 W4 Hperm.
  destruct (replace_two w l r kl kr) as (Hsh & Hkl & Hkr); [done..|].
  set (w2 := set_k _ _ _) in *. clearbody w2. rewrite <- Hkl, <- Hkr in Hperm.
  pose proof (shared_queued l r w w2 Hne Hl Hr Hsh Hperm) as Hall.
  assert (sched_inv w2) as Hinv2.
  { eapply (shared_inv l r w w2); eauto. intros i [-> | ->]; [rewrite Hkl|rewrite Hkr]; done. }
  rewrite (all_queued_proper _ _ E). destruct Hsh as [Hlen _ _]. pose proof E as (E1 & E2 & _).
  rewrite <- Hkl, <- Hkr. split_and!; try done; try apply E2. split; [by rewrite E|congruence].
Qed.

(** What a theft from the run queue does: [num] threads, those at the front,
    move and are merged in by age. *)
Record stolen_rq w l r (num : Z) w' : Prop := {
  sr_stepped : stepped w w';
  sr_all : all_queued w' ≡ₚ all_queued w;
  sr_l : abs (k_rq (k_at w' l)) =
    list_merge (older (tsc_of w)) (abs (k_rq (k_at w l))) (take (Z.to_nat num) (abs (k_rq (k_at w r))));
  sr_r : abs (k_rq (k_at w' r)) = drop (Z.to_nat num) (abs (k_rq (k_at w r)));
  sr_refill : refill (k_rq (k_at w' l));
  sr_prq : k_prq (k_at w' l) = k_prq (k_at w l) /\ k_prq (k_at w' r) = k_prq (k_at w r)
}.

Lemma steal_rq_spec w l r num :
  sched_inv w -> few_queued w -> l <> r -> (l < length (ks w))%nat -> (r < length (ks w))%nat ->
  0 <= num ->
  stolen_rq w l r num (steal_rq w l (exported_len (k_rq (k_at w l))) r num).
Proof.
  intros Hinv Hfew Hne Hl Hr Hn. destruct (exported_all w l Hinv Hfew Hl) as [-> _].
  destruct (si_wf w Hinv l Hl) as [Hwl Hpl], (si_wf w Hinv r Hr) as [Hwr Hpr].
  set (w' := steal_rq _ _ _ _ _).
  pose proof (merge_runqueues_spec (tsc_of w) (k_rq (k_at w l)) _ (k_rq (k_at w r)) num
    Hwl Hwr (Z.le_refl _) Hn) as Hm.
  destruct (merge_runqueues _ _ _ _ _) as [ql qr] eqn:E. destruct Hm as (Hql & Hf & Hqr & Hal & Har).
  apply steal_rq_equiv in E; [|done..]. fold w' in E. clearbody w'.
  apply theft in E as (Hst & Hall & [E1 E2] & [E3 E4]); try done.
  - simpl in *. split; rewrite ?E1, ?E2, ?E3, ?E4; done.
  - unfold k_queued. simpl. rewrite Hal, Har, merge_Permutation.
    rewrite <- (take_drop (Z.to_nat num) (abs (k_rq (k_at w r)))) at 3. solve_Permutation.
Qed.

(** A theft of preempted threads: they go in front of the thief's own. *)
Record stolen_prq w l r (num : Z) w' : Prop := {
  sp_stepped : stepped w w';
  sp_all : all_queued w' ≡ₚ all_queued w;
  sp_l : abs (k_prq (k_at w' l)) =
    take (Z.to_nat num) (abs (k_prq (k_at w r))) ++ abs (k_prq (k_at w l));
  sp_r : abs (k_prq (k_at w' r)) = drop (Z.to_nat num) (abs (k_prq (k_at w r)));
  sp_refill : refill (k_prq (k_at w' l));
  sp_rq : k_rq (k_at w' l) = k_rq (k_at w l) /\ k_rq (k_at w' r) = k_rq (k_at w r)
}.

Lemma steal_prq_spec w l r num :
  sched_inv w -> few_queued w -> l <> r -> (l < length (ks w))%nat -> (r < length (ks w))%nat ->
  0 <= num ->
  stolen_prq w l r num (steal_prq w l (exported_len (k_prq (k_at w l))) r num).
Proof.
  intros Hinv Hfew Hne Hl Hr Hn. destruct (exported_all w l Hinv Hfew Hl) as [_ ->].
  destruct (si_wf w Hinv l Hl) as [Hwl Hpl], (si_wf w Hinv r Hr) as [Hwr Hpr].
  set (w' := steal_prq _ _ _ _ _).
  pose proof (merge_preempted_runqueues_spec (k_prq (k_at w l)) _ (k_prq (k_at w r)) num
    Hpl Hpr (Z.le_refl _) Hn) as Hm.
  destruct (merge_preempted_runqueues _ _ _ _) as [ql qr] eqn:E.
  destruct Hm as (Hql & Hf & Hqr & Hal & Har).
  apply steal_prq_equiv in E; [|done..]. fold w' in E. clearbody w'.
  apply theft in E as (Hst & Hall & [E1 E2] & [E3 E4]); try done.
  - simpl in *. split; rewrite ?E1, ?E2, ?E3, ?E4; done.
  - unfold k_queued. simpl. rewrite Hal, Har.
    rewrite <- (take_drop (Z.to_nat num) (abs (k_prq (k_at w r)))) at 3. solve_Permutation.
Qed.

(** The number of threads a theft takes: half the difference, rounded up, and
    at most a ring's worth. *)
Lemma num_to_steal_spec (a b : nat) :
  Z.of_nat b < UINT32_MAX ->
  let n := num_to_steal (Z.of_nat a) (Z.of_nat b) in
  0 <= n <= RUNTIME_RQ_SIZE /\ (n = 0 <-> (b <= a)%nat) /\ 2 * n <= Z.max 0 (Z.of_nat b - Z.of_nat a + 1).
Proof.
  unfold UINT32_MAX, num_to_steal, RUNTIME_RQ_SIZE. intros Hb. rewrite MIN_min.
  destruct (Z.ltb_spec (Z.of_nat a) (Z.of_nat b)); [|lia].
  rewrite u32_small by (unfold is_u32; lia).
  pose proof (Z.div_le_lower_bound (Z.of_nat b - Z.of_nat a + 2 - 1) 2 1).
  pose proof (Z.mul_div_le (Z.of_nat b - Z.of_nat a + 2 - 1) 2). lia.
Qed.

Lemma queue_length w i :
  (i < length (ks w))%nat -> few_queued w ->
  Z.of_nat (length (abs (k_rq (k_at w i)))) < UINT32_MAX /\
  Z.of_nat (length (abs (k_prq (k_at w i)))) < UINT32_MAX.
Proof.
  intros Hi Hfew. destruct (all_queued_split w i Hi) as (rest & Hs & _).
  unfold few_queued in Hfew. rewrite Hs in Hfew. unfold k_queued in Hfew. rewrite !length_app in Hfew. lia.
Qed.

(** A thread the label [done] can pop. *)
Definition runnable w me : bool :=
  rq_nonempty (k_rq (k_at w me)) || (PREEMPTED_RQ && rq_nonempty (k_prq (k_at w me))).

Lemma stolen_rq_runnable w l r num w' :
  stolen_rq w l r num w' -> 0 < num -> abs (k_rq (k_at w r)) <> [] -> runnable w' l = true.
Proof.
  intros [] Hn Hr. unfold runnable. rewrite refill_nonempty; [done|done|].
  rewrite sr_l0. intros E. apply (f_equal length) in E. simpl in E.
  rewrite (Permutation_length (merge_Permutation _ _ _)), length_app in E.
  assert (take (Z.to_nat num) (abs (k_rq (k_at w r))) <> []) as H by (apply take_nonempty; [lia|done]).
  destruct (take _ _); [done|]. simpl in E. lia.
Qed.

Lemma stolen_prq_runnable w l r num w' :
  PREEMPTED_RQ = true ->
  stolen_prq w l r num w' -> 0 < num -> abs (k_prq (k_at w r)) <> [] -> runnable w' l = true.
Proof.
  intros HP [] Hn Hr. unfold runnable. rewrite (refill_nonempty (k_prq _)); [by rewrite HP, orb_true_r|done|].
  rewrite sp_l0. assert (take (Z.to_nat num) (abs (k_prq (k_at w r))) <> []) as H by (apply take_nonempty; [lia|done]).
  by destruct (take _ _).
Qed.
Lemma stepped_equiv_l u w w' : u ≡ w -> stepped u w' -> stepped w w'.
Proof. intros (E & _) [H1 H2]. split; [done|congruence]. Qed.

Lemma stolen_rq_lock w l r i num w' : stolen_rq (lock w i) l r num w' -> stolen_rq w l r num w'.
Proof.
  intros []. pose proof (lock_equiv w i) as E. pose proof (all_queued_proper _ _ E) as Ea.
  pose proof E as (_ & Eq & _). destruct (Eq l) as [El Epl], (Eq r) as [Er Epr].
  rewrite El, Er in *. rewrite Epl, Epr, Ea in *. split; try done. by eapply stepped_equiv_l.
Qed.

Lemma stolen_prq_lock w l r i num w' : stolen_prq (lock w i) l r num w' -> stolen_prq w l r num w'.
Proof.
  intros []. pose proof (lock_equiv w i) as E. pose proof (all_queued_proper _ _ E) as Ea.
  pose proof E as (_ & Eq & _). destruct (Eq l) as [El Epl], (Eq r) as [Er Epr].
  rewrite El, Er in *. rewrite Epl, Epr, Ea in *. split; try done. by eapply stepped_equiv_l.
Qed.

(** The outcomes of [steal_work]. *)
Inductive steal_result w l r (now : Z) : bool -> world -> Prop :=
| steal_skip w' :
    w' ≡ w -> (forall i, locked (k_at w' i) = locked (k_at w i)) ->
    locked (k_at w r) = true \/
    work_available PREEMPTED_RQ cycles_per_us start_tsc w r now = false \/
    ((length (abs (k_rq (k_at w r))) <= length (abs (k_rq (k_at w l))))%nat /\
     (PREEMPTED_RQ = true ->
       (length (abs (k_prq (k_at w r))) <= length (abs (k_prq (k_at w l))))%nat)) ->
    steal_result w l r now false w'
| steal_threads w' num :
    num = num_to_steal (Z.of_nat (length (abs (k_rq (k_at w l))))) (Z.of_nat (length (abs (k_rq (k_at w r))))) ->
    0 < num -> stolen_rq w l r num w' -> steal_result w l r now true w'
| steal_preempted w' num :
    PREEMPTED_RQ = true ->
    num = num_to_steal (Z.of_nat (length (abs (k_prq (k_at w l))))) (Z.of_nat (length (abs (k_prq (k_at w r))))) ->
    0 < num -> stolen_prq w l r num w' -> steal_result w l r now true w'
| steal_softirqs w' :
    stepped w w' -> rq_nonempty (k_rq (k_at w' l)) = true -> steal_result w l r now true w'.

(** The sizes [steal_work] computes with the victim locked. *)
Lemma steal_sizes w l r :
  sched_inv w -> few_queued w -> (l < length (ks w))%nat -> (r < length (ks w))%nat ->
  let size f := num_to_steal (exported_len (f (k_at (lock w r) l))) (exported_len (f (k_at (lock w r) r))) in
  let size' f := num_to_steal (Z.of_nat (length (abs (f (k_at w l))))) (Z.of_nat (length (abs (f (k_at w r))))) in
  forall f, f = k_rq \/ f = k_prq ->
  size f = size' f /\ 0 <= size f /\
  (size f = 0 <-> (length (abs (f (k_at w r))) <= length (abs (f (k_at w l))))%nat).
Proof.
  intros Hinv Hfew Hl Hr size size' f Hf.
  pose proof (lock_equiv w r) as (_ & Eq & _). destruct (Eq l) as [El Epl], (Eq r) as [Er Epr].
  destruct (exported_all w l Hinv Hfew Hl) as [Xl Xpl], (exported_all w r Hinv Hfew Hr) as [Xr Xpr].
  destruct (queue_length w r Hr Hfew) as [Lr Lpr].
  assert (size f = size' f) as Es.
  { unfold size, size'. destruct Hf; subst; rewrite ?El, ?Er, ?Epl, ?Epr; by rewrite ?Xl, ?Xr, ?Xpl, ?Xpr. }
  rewrite Es. split; [done|]. unfold size'.
  destruct (num_to_steal_spec (length (abs (f (k_at w l)))) (length (abs (f (k_at w r))))) as (? & ? & _);
    [by destruct Hf; subst|]. split; [lia|done].
Qed.

Lemma relock w r f :
  (r < length (ks w))%nat -> locked (k_at w r) = false ->
  forall i, locked (k_at (unlock (upd_soft (lock w r) r f) r) i) = locked (k_at w i).
Proof.
  intros Hr Hf i. unfold unlock, upd_soft, lock, upd_k.
  rewrite !k_at_set by (rewrite ?length_set_k; done). destruct (decide (r = i)); by subst.
Qed.

Lemma steal_work_spec w l r clk b w' :
  sched_inv w -> few_queued w -> l <> r -> (l < length (ks w))%nat -> (r < length (ks w))%nat ->
  steal_work w l r clk = Some (b, w') -> steal_result w l r (clk 0%nat) b w'.
Proof.
  intros Hinv Hfew Hne Hl Hr. unfold Sched.steal_work.
  destruct (negb _ || _) eqn:E0.
  { intros [= <- <-]. apply steal_skip; [done..|]. apply orb_true_iff in E0 as [E0|E0]; [|auto].
    apply negb_true_iff in E0. auto. }
  apply orb_false_iff in E0 as [_ E0]. pose proof (lock_equiv w r) as E. pose proof (all_queued_proper _ _ E) as Ea.
  pose proof E as (Elen & _). assert (sched_inv (lock w r)) as Hinv1 by (by rewrite E).
  assert (few_queued (lock w r)) as Hfew1 by (unfold few_queued; by rewrite Ea).
  pose proof (steal_sizes w l r Hinv Hfew Hl Hr k_rq) as (Hn & Hn' & Hn0); [auto|].
  pose proof (steal_sizes w l r Hinv Hfew Hl Hr k_prq) as (Hp & Hp' & Hp0); [auto|].
  cbv beta in *. set (num := num_to_steal (exported_len (k_rq _)) _) in *.
  set (pnum := num_to_steal (exported_len (k_prq _)) _) in *. clearbody num pnum.
  destruct (Z.eqb_spec num 0) as [N0|N0]; simpl.
  2: { intros [= <- <-]. apply (steal_threads _ _ _ _ _ num); [done|lia|].
       apply (stolen_rq_lock w l r r), steal_rq_spec; rewrite ?Elen; done || lia. }
  destruct (PREEMPTED_RQ && _) eqn:P0.
  { apply andb_true_iff in P0 as [HP P0]. apply negb_true_iff, Z.eqb_neq in P0. intros [= <- <-].
    apply (steal_preempted _ _ _ _ _ pnum); [done..|lia|].
    apply (stolen_prq_lock w l r r), steal_prq_spec; rewrite ?Elen; done || lia. }
  destruct (softirq_run_locked _ _ _ _) as [[b1 w1]|] eqn:Es; [|done].
  apply softirq_run_locked_inv in Es as (Hst & Ht & Hf); [|done|by rewrite Elen].
  destruct b1; intros [= <- <-].
  - assert (unlock (upd_k w1 l (stat_incr SOFTIRQS_STOLEN)) r ≡ w1) as E1.
    { rewrite unlock_equiv. by apply equiv_quiet_k. }
    apply steal_softirqs.
    + eapply stepped_equiv_l; [done|]. eapply stepped_trans; [done|].
      apply stepped_equiv; [apply Hst|done].
    + destruct E1 as (_ & E1 & _). destruct (E1 l) as [-> _]. auto.
  - rewrite Hf by done. apply steal_skip; [quiet_equiv|by apply relock|]. right. right. split; [lia|]. intros HP.
    rewrite HP in P0. apply negb_false_iff, Z.eqb_eq in P0. lia.
Qed.
(** A theft from a longer run queue. *)
Lemma steal_work_theft w l r clk :
  sched_inv w -> few_queued w -> l <> r -> (l < length (ks w))%nat -> (r < length (ks w))%nat ->
  locked (k_at w r) = false -> rq_nonempty (k_rq (k_at w r)) = true ->
  (length (abs (k_rq (k_at w l))) < length (abs (k_rq (k_at w r))))%nat ->
  exists w' num, steal_work w l r clk = Some (true, w') /\
    num = num_to_steal (Z.of_nat (length (abs (k_rq (k_at w l))))) (Z.of_nat (length (abs (k_rq (k_at w r))))) /\
    0 < num /\ stolen_rq w l r num w'.
Proof.
  intros Hinv Hfew Hne Hl Hr Hlk Hnr Hlt. unfold Sched.steal_work, work_available.
  rewrite Hlk, Hnr. cbn [orb negb].
  pose proof (lock_equiv w r) as E. pose proof (all_queued_proper _ _ E) as Ea.
  pose proof E as (Elen & _). assert (sched_inv (lock w r)) as Hinv1 by (by rewrite E).
  assert (few_queued (lock w r)) as Hfew1 by (unfold few_queued; by rewrite Ea).
  pose proof (steal_sizes w l r Hinv Hfew Hl Hr k_rq) as (Hn & Hn' & Hn0); [auto|].
  cbv beta in *. set (num := num_to_steal (exported_len (k_rq _)) _) in *. clearbody num.
  destruct (Z.eqb_spec num 0) as [N0|N0]; [lia|]. simpl.
  eexists _, num. split; [done|]. split_and!; [done|lia|].
  apply (stolen_rq_lock w l r r), steal_rq_spec; rewrite ?Elen; done || lia.
Qed.

(** *** Dispatch *)

#[local] Abbreviation pop_next := (pop_next PREEMPTED_RQ).
#[local] Abbreviation schedule_done := (schedule_done PREEMPTED_RQ sibling_core).
#[local] Abbreviation enter_schedule :=
  (enter_schedule PREEMPTED_RQ sibling_core cycles_per_us disable_watchdog).

(** [th] is what the two-queue policy picks from [me], leaving [q] and [p]. *)
Definition picks w me th (q p : runq) : Prop :=
  if rq_nonempty (k_rq (k_at w me))
  then abs (k_rq (k_at w me)) = th :: abs q /\ p = k_prq (k_at w me)
  else PREEMPTED_RQ = true /\ abs (k_prq (k_at w me)) = th :: abs p /\ q = k_rq (k_at w me).

Lemma picks_perm w me th q p : picks w me th q p -> k_queued (k_at w me) ≡ₚ th :: abs q ++ abs p.
Proof.
  unfold picks, k_queued. destruct (rq_nonempty _).
  - intros [-> ->]. done.
  - intros (_ & -> & ->). by rewrite <- Permutation_middle.
Qed.

Lemma pop_next_spec w me th w' :
  sched_inv w -> (me < length (ks w))%nat -> runnable w me = true -> pop_next w me = (th, w') ->
  exists q p, moved me q p (fun t => thread_ready (th_at w t)) w w' /\ ths w' = ths w /\
    wf q /\ wf p /\ picks w me th q p /\
    is_preempted (k_at w' me) =
      (if PREEMPTED_RQ then if rq_nonempty (k_rq (k_at w me)) then 0 else 1
       else is_preempted (k_at w me)).
Proof.
  intros Hinv Hme Hrun. destruct (si_wf w Hinv me Hme) as [Hq Hp].
  unfold Sched.pop_next, runnable, picks in *.
  destruct (rq_nonempty (k_rq (k_at w me))) eqn:E.
  - rewrite orb_true_r. pose proof (pop_thread_spec _ Hq E) as [Hw Ha].
    destruct (pop_thread (k_rq (k_at w me))) as [th1 q]. intros [= <- <-].
    exists q, (k_prq (k_at w me)). split_and!; try done.
    + eapply moved_eq; [exact (moved_upd_k me _ _ _ w w (fun k =>
          if PREEMPTED_RQ then set_is_preempted (set_rq k q) 0 else set_rq k q) Hme (moved_refl w me))| |];
        by destruct PREEMPTED_RQ.
    + rewrite k_at_set by done. rewrite decide_True by done. by destruct PREEMPTED_RQ.
  - simpl in Hrun. apply andb_true_iff in Hrun as [-> Hrun]. cbn [negb orb].
    pose proof (pop_thread_spec _ Hp Hrun) as [Hw Ha].
    destruct (pop_thread (k_prq (k_at w me))) as [th1 q]. intros [= <- <-].
    exists (k_rq (k_at w me)), q. split_and!; try done.
    + exact (moved_upd_k me _ _ _ w w (fun k => set_is_preempted (set_prq k q) 1) Hme (moved_refl w me)).
    + rewrite k_at_set by done. by rewrite decide_True by done.
Qed.
Lemma rq_nonempty_equiv w w' i : w ≡ w' -> rq_nonempty (k_rq (k_at w i)) = rq_nonempty (k_rq (k_at w' i)).
Proof. intros (_ & E & _). by destruct (E i) as [-> _]. Qed.

(** What dispatching [th] on [me] leaves: the invariant, the queues after the
    pick, and a thread that is marked running and no longer ready. *)
Record dispatched w me th w' : Prop := {
  dp_stepped : stepped w w';
  dp_was_ready : thread_ready (th_at w th) = true;
  dp_picks : picks w me th (k_rq (k_at w' me)) (k_prq (k_at w' me));
  dp_ready : forall t, thread_ready (th_at w' t) = without_ready w th t
}.

(** A pick followed by updates of other fields and by clearing the thread's
    ready flag. *)
Lemma dispatch w me th w1 w' :
  sched_inv w -> (me < length (ks w))%nat -> runnable w me = true -> pop_next w me = (th, w1) ->
  w' ≡ upd_th w1 th mark_unready -> dispatched w me th w'.
Proof.
  intros Hinv Hme Hrun Hpop E.
  destruct (pop_next_spec w me th w1 Hinv Hme Hrun Hpop) as (q & p & Hm & _ & Hq & Hp & Hpick & _).
  assert (moved me q p (without_ready w th) w w') as Hm'.
  { rewrite E. exact (moved_upd_th me q p _ w w1 th mark_unready Hm). }
  destruct (pop_inv me q p w w' th Hinv Hme Hm' Hq Hp (picks_perm _ _ _ _ _ Hpick)) as [Hi Hr].
  destruct Hm' as [Hl _ Eq Ep Hrd]. by split; rewrite ?Eq, ?Ep.
Qed.

Lemma dispatched_equiv u w me th w' : u ≡ w -> dispatched u me th w' -> dispatched w me th w'.
Proof.
  intros E []. pose proof E as (_ & E2 & E3). split.
  - by eapply stepped_equiv_l.
  - by rewrite <- E3.
  - unfold picks in *. destruct (E2 me) as [<- <-]. done.
  - intros t. rewrite dp_ready0. unfold without_ready. by rewrite E3.
Qed.

Lemma schedule_done_dispatches w me clk th w' :
  sched_inv w -> (me < length (ks w))%nat -> runnable w me = true ->
  schedule_done w me clk = (th, w') -> dispatched w me th w'.
Proof.
  intros Hinv Hme Hrun. unfold Sched.schedule_done. destruct (pop_next w me) as [th1 w1] eqn:E.
  intros [= <- <-]. eapply dispatch; [done..|]. apply equiv_upd_th; [|done].
  quiet_equiv.
Qed.

(** The fast path of [enter_schedule]. *)
Lemma enter_schedule_dispatches w me curth clk o w' :
  sched_inv w -> (me < length (ks w))%nat -> enter_schedule w me curth clk = (o, w') ->
  match o with
  | SlowPath => w' ≡ w
  | SameThread => dispatched w me curth w'
  | SwitchTo th => th <> curth /\ dispatched w me th w'
  end.
Proof.
  intros Hinv Hme. unfold Sched.enter_schedule.
  set (w1 := lock (upd_th w curth _) me).
  assert (w1 ≡ w) as E1 by (unfold w1; quiet_equiv). clearbody w1.
  destruct (needs_slow_path _ _ _ _ _ _) eqn:Es.
  { by intros [= <- <-]. }
  apply orb_false_iff in Es as [Es _]. apply orb_false_iff in Es as [Es _].
  assert (runnable w1 me = true) as Hrun.
  { unfold runnable. destruct (rq_nonempty (k_rq _)); [done|].
    destruct PREEMPTED_RQ; [|done]. by apply negb_false_iff in Es. }
  destruct (pop_next w1 me) as [th w2] eqn:E.
  assert (forall w3, w3 ≡ upd_th w2 th mark_unready -> dispatched w me th w3) as Hd.
  { intros w3 E3. apply (dispatched_equiv w1); [done|].
    eapply dispatch; eauto; [by rewrite E1|by destruct E1 as [-> _]]. }
  case_bool_decide as Ec; intros [= <- <-].
  - subst. apply Hd. apply equiv_upd_th; [|done]. quiet_equiv.
  - split; [done|]. apply Hd. quiet_equiv. apply equiv_upd_th; [|done]. quiet_equiv.
Qed.
(** *** The search *)

#[local] Abbreviation local_softirqs :=
  (local_softirqs PREEMPTED_RQ sibling_core cycles_per_us start_tsc).
#[local] Abbreviation schedule_local :=
  (schedule_local PREEMPTED_RQ sibling_core cycles_per_us start_tsc disable_watchdog).
#[local] Abbreviation try_steals :=
  (try_steals PREEMPTED_RQ sibling_core cycles_per_us start_tsc).
#[local] Abbreviation schedule_again :=
  (schedule_again PREEMPTED_RQ sibling_core cycles_per_us start_tsc).

Lemma stepped_equiv_r w w1 w2 : stepped w w1 -> w2 ≡ w1 -> stepped w w2.
Proof. intros [H1 H2] E. split; [by rewrite E|]. destruct E as [-> _]. done. Qed.

Lemma runnable_equiv w w' me : w ≡ w' -> runnable w me = runnable w' me.
Proof. intros (_ & E & _). unfold runnable. by destruct (E me) as [-> ->]. Qed.

Lemma locked_upd_soft w k f i :
  (k < length (ks w))%nat -> locked (k_at (upd_soft w k f) i) = locked (k_at w i).
Proof.
  intros Hk. unfold upd_soft, upd_k. rewrite k_at_set by done. by destruct (decide (k = i)); subst.
Qed.

Lemma local_softirqs_inv w me clk b w' :
  sched_inv w -> (me < length (ks w))%nat -> local_softirqs w me clk = Some (b, w') ->
  stepped w w' /\ (b = true -> runnable w' me = true) /\
  (b = false -> w' ≡ w /\ forall i, locked (k_at w' i) = locked (k_at w i)).
Proof.
  intros Hinv Hme. unfold Sched.local_softirqs.
  destruct (softirq_run_locked _ _ _ _) as [[b1 w1]|] eqn:E; [|done].
  apply softirq_run_locked_inv in E as (Hst & Ht & Hf); [|done..].
  destruct b1; intros [= <- <-].
  2: { split_and!; [done..|]. intros _. rewrite Hf by done.
       split; [quiet_equiv|]. intros i. by apply locked_upd_soft. }
  assert (upd_k w1 me (stat_incr SOFTIRQS_LOCAL) ≡ w1) as E by (by apply equiv_quiet_k).
  split_and!; [by eapply stepped_equiv_r| |done]. intros _.
  rewrite (runnable_equiv _ _ _ E). unfold runnable. by rewrite Ht.
Qed.

(** Rearranging a kthread's queues keeps the invariant. *)
Lemma rearranged w me k' :
  sched_inv w -> (me < length (ks w))%nat ->
  wf (k_rq k') -> wf (k_prq k') -> k_queued k' ≡ₚ k_queued (k_at w me) -> stepped w (set_k w me k').
Proof.
  intros Hinv Hme Hq Hp Hperm. split; [|apply length_set_k].
  destruct (all_queued_split w me Hme) as (rest & Hs & _).
  pose proof (si_nodup w Hinv) as HN. rewrite Hs in HN. apply NoDup_app in HN as (HN & _ & _).
  apply (moved_inv me (k_rq k') (k_prq k') (fun t => thread_ready (th_at w t)) w); auto.
  - exact (moved_upd_k me _ _ _ w w (fun _ => k') Hme (moved_refl w me)).
  - fold (k_queued k'). by rewrite Hperm.
  - fold (k_queued k'). intros t. rewrite Hperm. auto.
  - fold (k_queued k'). intros t. rewrite Hperm.
    destruct (decide (t ∈ k_queued (k_at w me))) as [Hin|]; [|split; [auto|by intros [|[]]]].
    split; [auto|]. intros _. apply (si_ready w Hinv). rewrite Hs. apply elem_of_app. auto.
Qed.

(** Draining the overflow list of one queue. *)
Lemma drained (g : kthread -> runq -> kthread) (f : kthread -> runq) w me :
  sched_inv w -> (me < length (ks w))%nat ->
  (forall k q, wf (f k) -> abs q = abs (f k) -> k_queued (g k q) = k_queued k) ->
  (forall k q, wf (k_rq k) /\ wf (k_prq k) -> wf q -> wf (f k) /\ wf (k_rq (g k q)) /\ wf (k_prq (g k q))) ->
  (forall k q, f (g k q) = q) ->
  let w' := upd_k w me (fun k => g k (drain_if_overflow (f k))) in
  stepped w w' /\ refill (f (k_at w' me)) /\ abs (f (k_at w' me)) = abs (f (k_at w me)) /\
  k_at w' me = g (k_at w me) (drain_if_overflow (f (k_at w me))).
Proof.
  intros Hinv Hme Hk Hwf Hfg w'. pose proof (si_wf w Hinv me Hme) as Hw.
  assert (wf (f (k_at w me))) as Hf by (by apply (Hwf _ (empty_runq 0) Hw), empty_runq_wf).
  destruct (drain_if_overflow_refill _ Hf) as [Hwd Hr].
  destruct (drain_if_overflow_spec (f (k_at w me))) as (_ & Ha & _); [apply Hf|].
  assert (k_at w' me = g (k_at w me) (drain_if_overflow (f (k_at w me)))) as E.
  { unfold w', upd_k. rewrite k_at_set by done. by rewrite decide_True by done. }
  rewrite E, Hfg. split_and!; try done.
  destruct (Hwf _ _ Hw Hwd) as (_ & H1 & H2). apply rearranged; auto. by rewrite Hk.
Qed.

Lemma refill_empty q : refill q -> rq_nonempty q = false -> abs q = [].
Proof.
  intros Hr He. destruct (abs q) eqn:E; [done|]. exfalso.
  rewrite refill_nonempty in He; [done|done|]. by rewrite E.
Qed.

Lemma local_queues_inv w me b w' :
  sched_inv w -> (me < length (ks w))%nat -> local_queues PREEMPTED_RQ w me = (b, w') ->
  stepped w w' /\ (b = true -> runnable w' me = true) /\
  (b = false -> abs (k_rq (k_at w' me)) = [] /\
     (PREEMPTED_RQ = true -> abs (k_prq (k_at w' me)) = [])).
Proof.
  intros Hinv Hme. unfold local_queues.
  destruct (drained set_rq k_rq w me Hinv Hme) as (Hst & Hr & Ha & Ek);
    [intros k q _ E; unfold k_queued; simpl; by rewrite E|by intros k q []|done|].
  set (w1 := upd_k w me _) in *. clearbody w1. destruct Hst as [Hinv1 Hlen1].
  destruct (rq_nonempty (k_rq (k_at w1 me))) eqn:E.
  { intros [= <- <-]. split_and!; [done| |done]. intros _. unfold runnable. by rewrite E. }
  pose proof (refill_empty _ Hr E) as He.
  destruct PREEMPTED_RQ eqn:HP; cbn [negb]; [|by intros [= <- <-]].
  destruct (drained set_prq k_prq w1 me Hinv1) as (Hst2 & Hr2 & Ha2 & Ek2);
    [by rewrite Hlen1|intros k q _ E'; unfold k_queued; simpl; by rewrite E'|by intros k q []|done|].
  set (w2 := upd_k w1 me _) in *. clearbody w2. intros [= <- <-]. split_and!.
  - by eapply stepped_trans.
  - intros E2. unfold runnable. by rewrite E2, HP, orb_true_r.
  - intros E2. split; [by rewrite Ek2|]. intros _. by apply refill_empty.
Qed.

(** The local part of [schedule]: it goes to [done] only with a thread to
    run, and otherwise both queues are empty, overflow lists included. *)
Lemma schedule_local_inv w me clk b w' :
  sched_inv w -> (me < length (ks w))%nat -> schedule_local w me clk = Some (b, w') ->
  stepped w w' /\ (b = true -> runnable w' me = true) /\
  (b = false -> abs (k_rq (k_at w' me)) = [] /\
     (PREEMPTED_RQ = true -> abs (k_prq (k_at w' me)) = [])).
Proof.
  intros Hinv Hme. unfold Sched.schedule_local. set (watchdog := if negb _ && _ then _ else _).
  destruct watchdog as [[b1 w1]|] eqn:Ew; [|done].
  assert (stepped w w1 /\ (b1 = true -> runnable w1 me = true)) as [Hst Hb1].
  { subst watchdog. destruct (_ && _) in Ew.
    - set (w0 := upd_soft _ _ _) in Ew. assert (w0 ≡ w) as E0 by (by apply equiv_quiet_k).
      apply local_softirqs_inv in Ew as (H1 & H2 & _); [|by rewrite E0|by destruct E0 as [-> _]].
      split; [|done]. by eapply stepped_equiv_l.
    - injection Ew as <- <-. split; [by apply stepped_equiv|done]. }
  destruct b1; [intros [= <- <-]; by split_and!; auto|].
  destruct (local_queues _ _ _) as [b2 w2] eqn:El. intros [= <- <-].
  apply local_queues_inv in El as (Hst2 & H1 & H2); [|apply Hst|destruct Hst; lia].
  split_and!; [by eapply stepped_trans|done..].
Qed.

Lemma few_equiv w w' : w' ≡ w -> few_queued w -> few_queued w'.
Proof. intros E. unfold few_queued. by rewrite E. Qed.

(** Nothing a thief could take from [v]. *)
Definition nothing_to_steal w v : Prop :=
  locked (k_at w v) = true \/
  (rq_nonempty (k_rq (k_at w v)) = false /\
   (PREEMPTED_RQ = true -> rq_nonempty (k_prq (k_at w v)) = false)).
Lemma num_to_steal_0 (n : nat) : num_to_steal (Z.of_nat n) (Z.of_nat (length (@nil tid))) = 0.
Proof.
  unfold num_to_steal. change (Z.of_nat (length [])) with 0.
  by destruct (Z.ltb_spec (Z.of_nat n) 0); [lia|].
Qed.

Lemma steal_result_inv w l r now b w' :
  sched_inv w -> few_queued w -> (r < length (ks w))%nat -> steal_result w l r now b w' ->
  stepped w w' /\ (b = true -> runnable w' l = true) /\
  (b = false -> w' ≡ w /\ forall i, locked (k_at w' i) = locked (k_at w i)).
Proof.
  intros Hinv Hfew Hr [w1 E Hl _|w1 num En Hn Hs|w1 num HP En Hn Hs|w1 Hst Hne].
  - split_and!; [by apply stepped_equiv|done..].
  - split_and!; [apply Hs| |done]. intros _. eapply stolen_rq_runnable; [done..|].
    intros E. rewrite E, num_to_steal_0 in En. lia.
  - split_and!; [apply Hs| |done]. intros _. eapply stolen_prq_runnable; [done..|].
    intros E. rewrite E, num_to_steal_0 in En. lia.
  - split_and!; [done| |done]. intros _. unfold runnable. by rewrite Hne.
Qed.

(** A failed theft by a kthread whose own queues are empty. *)
Lemma steal_result_nothing w l r now w' :
  steal_result w l r now false w' -> abs (k_rq (k_at w l)) = [] ->
  (PREEMPTED_RQ = true -> abs (k_prq (k_at w l)) = []) ->
  wf (k_rq (k_at w r)) -> wf (k_prq (k_at w r)) -> nothing_to_steal w r.
Proof.
  intros Hres El Epl Hq Hp. inversion Hres as [w1 E Hlk [H|[H|[H1 H2]]]| | |]; subst; [by left|right..].
  - apply orb_false_iff in H as [H _]. apply orb_false_iff in H as [H1 H2]. split; [done|].
    by intros ->.
  - rewrite El in H1. assert (forall q, wf q -> (length (abs q) <= 0)%nat -> rq_nonempty q = false) as Hz.
    { intros q [Hw _] Hz. rewrite rq_nonempty_len by done. pose proof (length_abs q).
      destruct (Z.ltb_spec 0 (rq_len q)); [lia|done]. }
    split; [by apply Hz|]. intros HP. apply Hz; [done|]. specialize (H2 HP). by rewrite Epl in H2.
Qed.

Lemma try_steals_inv me vs : forall w clk b w',
  sched_inv w -> few_queued w -> (me < length (ks w))%nat ->
  Forall (fun v => v <> me /\ (v < length (ks w))%nat) vs ->
  try_steals w me vs clk = Some (b, w') ->
  stepped w w' /\ (b = true -> runnable w' me = true) /\
  (b = false -> w' ≡ w /\ (abs (k_rq (k_at w me)) = [] ->
     (PREEMPTED_RQ = true -> abs (k_prq (k_at w me)) = []) -> Forall (nothing_to_steal w) vs)).
Proof.
  induction vs as [|v vs IH]; intros w clk b w' Hinv Hfew Hme Hvs; simpl.
  { intros [= <- <-]. split_and!; [by apply stepped_equiv|done|]. auto. }
  apply Forall_cons in Hvs as [[Hne Hv] Hvs].
  destruct (steal_work w me v clk) as [[b1 w1]|] eqn:E; [|done].
  apply steal_work_spec in E; [|done..].
  pose proof (steal_result_inv _ _ _ _ _ _ Hinv Hfew Hv E) as (Hst & Ht & Hf).
  destruct b1; [intros [= <- <-]; by split_and!|].
  destruct (Hf eq_refl) as [Eq Hlk]. pose proof Eq as (Elen & Eqs & _). intros H.
  apply IH in H as (H1 & H2 & H3); [|by rewrite Eq|by eapply few_equiv|by rewrite Elen|by rewrite Elen].
  split_and!; [by eapply stepped_trans|done|]. intros ->. destruct (H3 eq_refl) as [Ew Hall].
  split; [by rewrite Ew|]. intros El Epl. destruct (Eqs me) as [Em Emp]. rewrite Em, Emp in Hall.
  apply Forall_cons. split.
  - destruct (si_wf w Hinv v Hv). by eapply steal_result_nothing.
  - eapply Forall_impl; [by apply Hall|]. intros i. unfold nothing_to_steal.
    destruct (Eqs i) as [-> ->]. by rewrite Hlk.
Qed.
(** One pass of the search. *)
Lemma schedule_again_inv w me vs clk b w' :
  sched_inv w -> few_queued w -> (me < length (ks w))%nat ->
  Forall (fun v => v <> me /\ (v < length (ks w))%nat) vs ->
  schedule_again w me vs clk = Some (b, w') ->
  stepped w w' /\ (b = true -> runnable w' me = true) /\
  (b = false -> w' ≡ w /\ (abs (k_rq (k_at w me)) = [] ->
     (PREEMPTED_RQ = true -> abs (k_prq (k_at w me)) = []) -> Forall (nothing_to_steal w) vs)).
Proof.
  intros Hinv Hfew Hme Hvs. unfold Sched.schedule_again.
  destruct (local_softirqs w me clk) as [[b1 w1]|] eqn:E1; [|done].
  apply local_softirqs_inv in E1 as (Hs1 & Ht1 & Hf1); [|done..].
  destruct b1; [intros [= <- <-]; by split_and!|]. destruct (Hf1 eq_refl) as [Eq1 Hlk1].
  pose proof Eq1 as (Elen1 & Eqs1 & _).
  destruct (try_steals w1 me vs _) as [[b2 w2]|] eqn:E2; [|done].
  apply try_steals_inv in E2 as (Hs2 & Ht2 & Hf2);
    [|by rewrite Eq1|by eapply few_equiv|by rewrite Elen1|by rewrite Elen1].
  assert (stepped w w2) as Hs2' by (by eapply stepped_trans).
  destruct b2; [intros [= <- <-]; by split_and!|]. destruct (Hf2 eq_refl) as [Eq2 Hall].
  pose proof Hs2' as [Hinv2 Hlen2]. intros E3.
  apply local_softirqs_inv in E3 as (Hs3 & Ht3 & Hf3); [|done|by rewrite Hlen2].
  split_and!; [by eapply stepped_trans|done|]. intros ->. destruct (Hf3 eq_refl) as [Eq3 _].
  split; [by rewrite Eq3, Eq2|]. intros El Epl. destruct (Eqs1 me) as [Em Emp]. rewrite Em, Emp in Hall.
  eapply Forall_impl; [by apply Hall|]. intros i. unfold nothing_to_steal.
  destruct (Eqs1 i) as [-> ->]. by rewrite Hlk1.
Qed.

(** *** Yielding *)

#[local] Abbreviation thread_yield :=
  (thread_yield PREEMPTED_RQ sibling_core cycles_per_us start_tsc disable_watchdog).
#[local] Abbreviation thread_preempt_yield :=
  (thread_preempt_yield PREEMPTED_RQ sibling_core cycles_per_us start_tsc disable_watchdog).

Lemma softirq_run_inv w me clk b w' :
  sched_inv w -> (me < length (ks w))%nat -> softirq_run w me clk = Some (b, w') -> stepped w w'.
Proof.
  intros Hinv Hme. unfold Sched.softirq_run. set (w0 := upd_soft w me _).
  assert (w0 ≡ w) as E by (by apply equiv_quiet_k). destruct (negb _).
  - intros [= <- <-]. by apply stepped_equiv.
  - intros H. eapply stepped_equiv_l; [done|].
    apply softirq_run_locked_inv in H as (H & _); [done|by rewrite E|by destruct E as [-> _]].
Qed.

Lemma woken_stepped w me th w' q p :
  sched_inv w -> (me < length (ks w))%nat ->
  thread_ready (th_at w th) = false /\ moved me q p (with_ready w th) w w' ->
  wf q -> wf p -> abs q ++ abs p ≡ₚ th :: k_queued (k_at w me) -> stepped w w'.
Proof.
  intros Hinv Hme [Hth Hm] Hq Hp Hperm. split; [|apply Hm]. by eapply push_inv.
Qed.

Lemma make_thread_ready_inv w me th clk w' :
  sched_inv w -> (me < length (ks w))%nat -> make_thread_ready w me th clk = Some w' -> stepped w w'.
Proof.
  intros Hinv Hme H. destruct (si_wf w Hinv me Hme) as [Hq Hp].
  destruct (enqueue_tail_spec (k_rq (k_at w me)) th Hq) as [Hw Ha].
  eapply woken_stepped; [done|done|by eapply make_thread_ready_moved|done|done|].
  rewrite Ha. unfold k_queued. solve_Permutation.
Qed.

Lemma thread_ready_locked_inv w me th clk w' :
  sched_inv w -> (me < length (ks w))%nat -> thread_ready_locked w me th clk = Some w' -> stepped w w'.
Proof.
  intros Hinv Hme H. destruct (si_wf w Hinv me Hme) as [Hq Hp].
  destruct (enqueue_locked_spec (k_rq (k_at w me)) th Hq) as [Hw Ha].
  eapply woken_stepped; [done|done|by eapply thread_ready_locked_moved|done|done|].
  rewrite Ha. unfold k_queued. solve_Permutation.
Qed.

Lemma thread_ready_head_inv w me th clk w' :
  sched_inv w -> (me < length (ks w))%nat -> thread_ready_head w me th clk = Some w' -> stepped w w'.
Proof.
  intros Hinv Hme H. destruct (si_wf w Hinv me Hme) as [Hq Hp].
  destruct (enqueue_head_spec (k_rq (k_at w me)) th Hq) as [Hw Ha].
  eapply woken_stepped; [done|done|by eapply thread_ready_head_moved|done|done|]. by rewrite Ha.
Qed.

Lemma thread_preempt_ready_inv w me th w' :
  sched_inv w -> (me < length (ks w))%nat -> thread_preempt_ready w me th = Some w' -> stepped w w'.
Proof.
  intros Hinv Hme H. destruct (si_wf w Hinv me Hme) as [Hq Hp].
  destruct (enqueue_tail_spec (k_prq (k_at w me)) th Hp) as [Hw Ha].
  eapply woken_stepped; [done|done|by eapply thread_preempt_ready_moved|done|done|].
  rewrite Ha. unfold k_queued. solve_Permutation.
Qed.
End Proofs.
