(* ===== verification/SchedSoft.v ===== *)
(** * sched: softirq threads

    The softirq threads of a kthread sleep until [softirq_run_locked] finds work for them,
    which it notes in [iokernel_busy] and [timer_busy]; the thread clears its flag when it
    has done its work, and sleeps again.  Here: a softirq thread that is not busy is not
    ready, every operation of the scheduler (Sched) keeps this, and so the [BUG_ON] for a
    thread that is made ready twice is never reached from the softirqs. *)

From S2P Require Import Prelude StdDef Ring RunQueue Lrpc Sched SchedProofs.

(** ** Idle softirq threads *)

Definition flags (k : kthread) : bool * tid * bool * tid :=
  (iokernel_busy (soft k), iokernel_softirq (soft k), timer_busy (soft k), timer_softirq (soft k)).

(** A thread that is woken by what it waits for: it is not a softirq thread that has nothing
    to do. *)
Definition may_wake (w : world) (t : tid) : Prop := forall i, (i < length (ks w))%nat ->
  (iokernel_softirq (soft (k_at w i)) = t -> iokernel_busy (soft (k_at w i)) = true) /\
  (timer_softirq (soft (k_at w i)) = t -> timer_busy (soft (k_at w i)) = true).

Record soft_ok (w : world) : Prop := {
  so_iokernel : forall i, (i < length (ks w))%nat -> iokernel_busy (soft (k_at w i)) = false ->
    thread_ready (th_at w (iokernel_softirq (soft (k_at w i)))) = false;
  so_timer : forall i, (i < length (ks w))%nat -> timer_busy (soft (k_at w i)) = false ->
    thread_ready (th_at w (timer_softirq (soft (k_at w i)))) = false;
  so_iokernels : forall i j, (i < length (ks w))%nat -> (j < length (ks w))%nat ->
    iokernel_softirq (soft (k_at w i)) = iokernel_softirq (soft (k_at w j)) -> i = j;
  so_timers : forall i j, (i < length (ks w))%nat -> (j < length (ks w))%nat ->
    timer_softirq (soft (k_at w i)) = timer_softirq (soft (k_at w j)) -> i = j;
  so_different : forall i j, (i < length (ks w))%nat -> (j < length (ks w))%nat ->
    iokernel_softirq (soft (k_at w i)) <> timer_softirq (soft (k_at w j))
}.

(** ** Operations that leave the softirqs alone *)

(** Only threads of [P] may have become ready, and no flag has changed. *)
Record tame (P : tid -> Prop) (w w' : world) : Prop := {
  ta_len : length (ks w') = length (ks w);
  ta_flags : forall i, flags (k_at w' i) = flags (k_at w i);
  ta_ready : forall t, thread_ready (th_at w' t) = true -> P t \/ thread_ready (th_at w t) = true
}.
Abbreviation calm := (tame (fun _ => False)).

Lemma tame_refl P w : tame P w w.
Proof. split; auto. Qed.
Lemma flags_upd_k w i f j : (forall k, flags (f k) = flags k) -> flags (k_at (upd_k w i f) j) = flags (k_at w j).
Proof.
  intros Hf. unfold upd_k. destruct (decide (i < length (ks w))%nat).
  - rewrite k_at_set by done. case_decide; [subst; apply Hf|done].
  - unfold k_at, set_k at 1. simpl. by rewrite list_insert_ge by lia.
Qed.
Lemma tame_upd_k P w w1 i f : tame P w w1 -> (forall k, flags (f k) = flags k) -> tame P w (upd_k w1 i f).
Proof.
  intros [H1 H2 H3] Hf. split; [unfold upd_k; by rewrite length_set_k| |done]. intros j. by rewrite flags_upd_k.
Qed.
Lemma tame_set_k P w w1 i k : tame P w w1 -> flags k = flags (k_at w1 i) -> tame P w (set_k w1 i k).
Proof.
  intros [H1 H2 H3] Hf. split; [by rewrite length_set_k| |done]. intros j. rewrite <- H2. destruct (decide (i < length (ks w1))%nat).
  - rewrite k_at_set by done. case_decide; [by subst|done].
  - unfold k_at, set_k at 1. simpl. by rewrite list_insert_ge by lia.
Qed.
Lemma tame_upd_th (P : tid -> Prop) w w1 t f :
  tame P w w1 -> P t \/ (forall x, thread_ready (f x) = true -> thread_ready x = true) -> tame P w (upd_th w1 t f).
Proof.
  intros [H1 H2 H3] Hf. split; [done|done|]. intros u. unfold upd_th. rewrite th_at_set. case_decide as E; [subst u|apply H3].
  intros Hu. destruct Hf as [Hf|Hf]; [by left|]. apply H3. by apply Hf.
Qed.
Lemma tame_update_oldest P w w1 i : tame P w w1 -> tame P w (update_oldest_tsc w1 i).
Proof. intros H. unfold update_oldest_tsc. destruct (rq_nonempty _); [|done]. by apply tame_upd_k. Qed.

Ltac tame_side := solve [intros; repeat case_match; done | by left | by right | right; intros ?; unfold clear_preempted; repeat case_match; done].
(** Strips the updates from the outside. *)
Ltac tame_updates :=
  repeat first
    [ assumption | apply tame_refl
    | apply tame_update_oldest
    | apply tame_upd_k; [|tame_side]
    | apply tame_set_k; [|tame_side]
    | apply tame_upd_th; [|tame_side] ].

(** ** Steps that keep softirq threads idle *)

(** After a step: softirq threads that have nothing to do are not ready, and a thread that
    may be woken still may, and has not become ready. *)
Record kept_idle (w w' : world) : Prop := {
  ki_len : length (ks w') = length (ks w);
  ki_soft : soft_ok w';
  ki_wake : forall t, may_wake w t -> may_wake w' t;
  ki_asleep : forall t, may_wake w t -> thread_ready (th_at w' t) = true -> thread_ready (th_at w t) = true
}.
Lemma kept_trans u v w : kept_idle u v -> kept_idle v w -> kept_idle u w.
Proof. intros [H1 H2 H3 H4] [G1 G2 G3 G4]. split; [congruence|done|auto|auto]. Qed.

Lemma flags_fields k k' : flags k' = flags k -> iokernel_busy (soft k') = iokernel_busy (soft k) /\ iokernel_softirq (soft k') = iokernel_softirq (soft k) /\
  timer_busy (soft k') = timer_busy (soft k) /\ timer_softirq (soft k') = timer_softirq (soft k).
Proof. unfold flags. intros [= H1 H2 H3 H4]. done. Qed.
Lemma tame_may_wake P w w' t : tame P w w' -> may_wake w t -> may_wake w' t.
Proof.
  intros [H1 H2 _] Hm i Hi. rewrite H1 in Hi. destruct (flags_fields _ _ (H2 i)) as (-> & -> & -> & ->). by apply Hm.
Qed.
Lemma tame_soft (P : tid -> Prop) w w' : soft_ok w -> tame P w w' -> (forall t, P t -> may_wake w t) -> soft_ok w'.
Proof.
  intros [S1 S2 S3 S4 S5] [H1 H2 H3] HP.
  assert (forall i, (i < length (ks w))%nat -> iokernel_busy (soft (k_at w i)) = false -> thread_ready (th_at w' (iokernel_softirq (soft (k_at w i)))) = false) as G1.
  { intros i Hi Hb. apply not_true_is_false. intros Hr. apply H3 in Hr as [Hp|Hr]; [|rewrite S1 in Hr; done]. apply HP in Hp. destruct (Hp i Hi) as [Hp1 _]. rewrite Hp1 in Hb; done. }
  assert (forall i, (i < length (ks w))%nat -> timer_busy (soft (k_at w i)) = false -> thread_ready (th_at w' (timer_softirq (soft (k_at w i)))) = false) as G2.
  { intros i Hi Hb. apply not_true_is_false. intros Hr. apply H3 in Hr as [Hp|Hr]; [|rewrite S2 in Hr; done]. apply HP in Hp. destruct (Hp i Hi) as [_ Hp2]. rewrite Hp2 in Hb; done. }
  split; rewrite ?H1.
  - intros i. destruct (flags_fields _ _ (H2 i)) as (-> & -> & _). apply G1.
  - intros i. destruct (flags_fields _ _ (H2 i)) as (_ & _ & -> & ->). apply G2.
  - intros i j. destruct (flags_fields _ _ (H2 i)) as (_ & -> & _), (flags_fields _ _ (H2 j)) as (_ & -> & _). apply S3.
  - intros i j. destruct (flags_fields _ _ (H2 i)) as (_ & _ & _ & ->), (flags_fields _ _ (H2 j)) as (_ & _ & _ & ->). apply S4.
  - intros i j. destruct (flags_fields _ _ (H2 i)) as (_ & -> & _), (flags_fields _ _ (H2 j)) as (_ & _ & _ & ->). apply S5.
Qed.
Lemma calm_kept w w' : soft_ok w -> calm w w' -> kept_idle w w'.
Proof.
  intros Hs Ht. split; [apply Ht|by apply (tame_soft _ w _ Hs Ht)|intros t; by apply (tame_may_wake _ _ _ t Ht)|].
  intros t _ Hr. by apply (ta_ready _ _ _ Ht) in Hr as [|].
Qed.

Section Ops.
Context (PREEMPTED_RQ : bool) (sibling_core : Z -> Z)
  (cycles_per_us start_tsc : Z) (disable_watchdog : bool).
Implicit Types (clk : nat -> Z) (w : world) (me l r : nat) (th : tid).

(** *** Waking *)

Lemma prepare_tame w me th tsc w' : thread_ready_prepare sibling_core w me th tsc = Some w' -> tame (eq th) w w'.
Proof. unfold thread_ready_prepare. destruct (thread_ready _); [done|]. intros [= <-]. tame_updates. Qed.
Lemma prepare_cleared_tame w me th tsc w' :
  thread_ready_prepare sibling_core (upd_th w th (clear_preempted PREEMPTED_RQ)) me th tsc = Some w' -> tame (eq th) w w'.
Proof. unfold thread_ready_prepare. destruct (thread_ready _); [done|]. intros [= <-]. tame_updates. Qed.
Lemma prepare_total w me th tsc : thread_ready (th_at w th) = false -> is_Some (thread_ready_prepare sibling_core w me th tsc).
Proof. unfold thread_ready_prepare. intros ->. by eexists. Qed.
Lemma prepare_cleared_total w me th tsc : thread_ready (th_at w th) = false ->
  is_Some (thread_ready_prepare sibling_core (upd_th w th (clear_preempted PREEMPTED_RQ)) me th tsc).
Proof.
  intros H. apply prepare_total. unfold upd_th. rewrite th_at_set, decide_True by done. unfold clear_preempted. by destruct PREEMPTED_RQ.
Qed.
Lemma make_thread_ready_tame w me th clk : thread_ready (th_at w th) = false ->
  exists w', make_thread_ready PREEMPTED_RQ sibling_core w me th clk = Some w' /\ tame (eq th) w w'.
Proof.
  intros H. unfold make_thread_ready. destruct (prepare_cleared_total w me th (Some (clk 0%nat)) H) as [w1 E]. rewrite E.
  eexists. split; [done|]. apply prepare_cleared_tame in E. tame_updates.
Qed.
Lemma thread_ready_locked_tame w me th clk : thread_ready (th_at w th) = false ->
  exists w', thread_ready_locked PREEMPTED_RQ sibling_core w me th clk = Some w' /\ tame (eq th) w w'.
Proof.
  intros H. unfold thread_ready_locked. destruct (prepare_cleared_total w me th (Some (clk 0%nat)) H) as [w1 E]. rewrite E.
  eexists. split; [done|]. apply prepare_cleared_tame in E. tame_updates.
Qed.
Lemma thread_preempt_ready_tame w me th : thread_ready (th_at w th) = false ->
  exists w', thread_preempt_ready sibling_core w me th = Some w' /\ tame (eq th) w w'.
Proof.
  intros H. unfold thread_preempt_ready. destruct (prepare_total w me th None H) as [w1 E]. rewrite E.
  eexists. split; [done|]. apply prepare_tame in E. tame_updates.
Qed.
Lemma ready_head_tame w0 w me th clk : tame (eq th) w0 w -> thread_ready (th_at w th) = false ->
  exists w', ready_head sibling_core w me th clk = Some w' /\ tame (eq th) w0 w'.
Proof.
  intros H0 H. unfold ready_head. destruct (prepare_total w me th (Some (clk 0%nat)) H) as [w1 E]. rewrite E. eexists. split; [done|].
  unfold thread_ready_prepare in E. destruct (thread_ready _); [done|]. injection E as <-.
  destruct (rq_nonempty _); tame_updates.
Qed.
Lemma thread_ready_head_locked_tame w me th clk : thread_ready (th_at w th) = false ->
  exists w', thread_ready_head_locked PREEMPTED_RQ sibling_core w me th clk = Some w' /\ tame (eq th) w w'.
Proof.
  intros H. unfold thread_ready_head_locked. apply ready_head_tame; [tame_updates|].
  unfold upd_th. rewrite th_at_set, decide_True by done. unfold clear_preempted. by destruct PREEMPTED_RQ.
Qed.

(** *** Softirqs *)

(** A softirq thread that is not busy is taken: its flag is set, and it can be woken. *)
Record claimed (w : world) (th : tid) (w1 : world) : Prop := {
  cl_kept : kept_idle w w1; cl_wake : may_wake w1 th; cl_other : forall t, may_wake w t -> t <> th
}.
Lemma soft_upd_k w k f i : (k < length (ks w))%nat -> soft (k_at (upd_soft w k f) i) = if decide (k = i) then f (soft (k_at w i)) else soft (k_at w i).
Proof. intros Hk. unfold upd_soft, upd_k. rewrite k_at_set by done. case_decide; [by subst|done]. Qed.
Lemma soft_upd_len w k f : length (ks (upd_soft w k f)) = length (ks w).
Proof. unfold upd_soft, upd_k. by rewrite length_set_k. Qed.
Lemma claim_iokernel w k : soft_ok w -> (k < length (ks w))%nat -> iokernel_busy (soft (k_at w k)) = false ->
  claimed w (iokernel_softirq (soft (k_at w k))) (upd_soft w k set_iokernel_busy).
Proof.
  intros [S1 S2 S3 S4 S5] Hk Hb. split.
  - split; [apply soft_upd_len| | |done].
    + split; rewrite soft_upd_len.
      * intros i Hi. rewrite soft_upd_k by done. case_decide; [done|]. by apply S1.
      * intros i Hi. rewrite soft_upd_k by done. case_decide; by apply S2.
      * intros i j Hi Hj. rewrite !soft_upd_k by done. intros E. apply S3; [done..|]. by repeat case_decide.
      * intros i j Hi Hj. rewrite !soft_upd_k by done. intros E. apply S4; [done..|]. by repeat case_decide.
      * intros i j Hi Hj. rewrite !soft_upd_k by done. repeat case_decide; by apply S5.
    + intros t Hm i. rewrite soft_upd_len. intros Hi. rewrite soft_upd_k by done. case_decide; [|by apply Hm]. split; [done|]. by apply Hm.
  - intros i. rewrite soft_upd_len. intros Hi. rewrite soft_upd_k by done. case_decide as E; [split; [done|]|split]; simpl; intros Ht.
    + exfalso. by apply (S5 k i).
    + exfalso. apply E. symmetry. by apply S3.
    + exfalso. by apply (S5 k i).
  - intros t Hm ->. destruct (Hm k Hk) as [H _]. rewrite H in Hb; done.
Qed.
Lemma claim_timer w k : soft_ok w -> (k < length (ks w))%nat -> timer_busy (soft (k_at w k)) = false ->
  claimed w (timer_softirq (soft (k_at w k))) (upd_soft w k set_timer_busy).
Proof.
  intros [S1 S2 S3 S4 S5] Hk Hb. split.
  - split; [apply soft_upd_len| | |done].
    + split; rewrite soft_upd_len.
      * intros i Hi. rewrite soft_upd_k by done. case_decide; by apply S1.
      * intros i Hi. rewrite soft_upd_k by done. case_decide; [done|]. by apply S2.
      * intros i j Hi Hj. rewrite !soft_upd_k by done. intros E. apply S3; [done..|]. by repeat case_decide.
      * intros i j Hi Hj. rewrite !soft_upd_k by done. intros E. apply S4; [done..|]. by repeat case_decide.
      * intros i j Hi Hj. rewrite !soft_upd_k by done. repeat case_decide; by apply S5.
    + intros t Hm i. rewrite soft_upd_len. intros Hi. rewrite soft_upd_k by done. case_decide; [|by apply Hm]. split; [|done]. by apply Hm.
  - intros i. rewrite soft_upd_len. intros Hi. rewrite soft_upd_k by done. case_decide as E; [split; [|done]|split]; simpl; intros Ht.
    + exfalso. by apply (S5 i k).
    + exfalso. by apply (S5 i k).
    + exfalso. apply E. symmetry. by apply S4.
  - intros t Hm ->. destruct (Hm k Hk) as [_ H]. rewrite H in Hb; done.
Qed.
Lemma claim_wakes w w1 me th clk : claimed w th w1 -> thread_ready (th_at w1 th) = false ->
  exists w', thread_ready_head_locked PREEMPTED_RQ sibling_core w1 me th clk = Some w' /\ kept_idle w w'.
Proof.
  intros [[H1 H2 H3 H4] Hw Ho] Hr. destruct (thread_ready_head_locked_tame w1 me th clk Hr) as (w' & E & T). exists w'. split; [done|].
  split; [rewrite (ta_len _ _ _ T); done| | |].
  - apply (tame_soft _ w1 _ H2 T). by intros t <-.
  - intros t Ht. by apply (tame_may_wake _ w1 _ _ T), H3.
  - intros t Ht Hr'. apply (ta_ready _ _ _ T) in Hr' as [<-|Hr']; [by destruct (Ho th Ht)|]. by apply H4.
Qed.
Lemma soft_refl w : soft_ok w -> kept_idle w w.
Proof. intros H. apply calm_kept; [done|apply tame_refl]. Qed.

Lemma softirq_run_locked_kept w me k clk : soft_ok w -> (k < length (ks w))%nat ->
  exists b w', softirq_run_locked PREEMPTED_RQ sibling_core cycles_per_us start_tsc w me k clk = Some (b, w') /\ kept_idle w w'.
Proof.
  intros Hs Hk. unfold softirq_run_locked. set (step1 := if _ && _ then _ else _).
  assert (exists b1 w1, step1 = Some (b1, w1) /\ kept_idle w w1) as (b1 & w1 & -> & K1).
  { unfold step1. destruct (negb _ && _) eqn:E; [|exists false, w; split; [done|by apply soft_refl]]. apply andb_true_iff in E as [Hb%negb_true_iff _].
    destruct (claim_wakes w (upd_soft w k set_iokernel_busy) me (iokernel_softirq (soft (k_at w k))) (shift 1 clk)) as (w' & -> & K); [by apply claim_iokernel|by apply (so_iokernel w Hs)|].
    by exists true, w'. }
  assert (k < length (ks w1))%nat as Hk1 by (rewrite (ki_len _ _ K1); done). pose proof (ki_soft _ _ K1) as Hs1. set (step2 := if _ && _ then _ else _).
  assert (exists b2 w2, step2 = Some (b2, w2) /\ kept_idle w1 w2) as (b2 & w2 & -> & K2).
  { unfold step2. destruct (negb _ && _) eqn:E; [|exists b1, w1; split; [done|by apply soft_refl]]. apply andb_true_iff in E as [Hb%negb_true_iff _].
    destruct (claim_wakes w1 (upd_soft w1 k set_timer_busy) me (timer_softirq (soft (k_at w1 k))) (shift 2 clk)) as (w' & -> & K); [by apply claim_timer|by apply (so_timer w1 Hs1)|].
    by exists true, w'. }
  eexists _, _. split; [done|]. apply (kept_trans _ w1); [done|]. apply (kept_trans _ w2); [done|]. apply calm_kept; [apply K2|]. unfold upd_soft. tame_updates.
Qed.
Lemma softirq_run_kept w me clk : soft_ok w -> (me < length (ks w))%nat ->
  exists b w', softirq_run PREEMPTED_RQ sibling_core cycles_per_us start_tsc w me clk = Some (b, w') /\ kept_idle w w'.
Proof.
  intros Hs Hk. unfold softirq_run. cbv zeta. set (w0 := upd_soft w me (set_last_softirq (clk 0%nat))).
  assert (kept_idle w w0) as K0 by (apply calm_kept; [done|]; unfold w0, upd_soft; tame_updates).
  destruct (negb _); [by exists false, w0|]. destruct (softirq_run_locked_kept w0 me me (shift 1 clk)) as (b & w' & E & K); [apply K0|unfold w0; by rewrite soft_upd_len|].
  exists b, w'. split; [done|]. by apply (kept_trans _ w0).
Qed.
Lemma local_softirqs_kept w me clk : soft_ok w -> (me < length (ks w))%nat ->
  exists b w', local_softirqs PREEMPTED_RQ sibling_core cycles_per_us start_tsc w me clk = Some (b, w') /\ kept_idle w w'.
Proof.
  intros Hs Hk. unfold local_softirqs. destruct (softirq_run_locked_kept w me me clk Hs Hk) as (b & w' & -> & K). destruct b; [|by exists false, w'].
  eexists true, _. split; [done|]. apply (kept_trans _ w'); [done|]. apply calm_kept; [apply K|]. tame_updates.
Qed.

(** *** Stealing *)

Lemma steal_rq_calm w l lsize r num : calm w (steal_rq w l lsize r num).
Proof. unfold steal_rq. destruct (merge_runqueues _ _ _ _ _) as [ql qr]. unfold unlock. tame_updates. Qed.
Lemma steal_prq_calm w l lsize r num : calm w (steal_prq w l lsize r num).
Proof. unfold steal_prq. destruct (merge_preempted_runqueues _ _ _ _) as [ql qr]. unfold unlock. tame_updates. Qed.
Lemma steal_work_kept w l r clk : soft_ok w -> (r < length (ks w))%nat ->
  exists b w', steal_work PREEMPTED_RQ sibling_core cycles_per_us start_tsc w l r clk = Some (b, w') /\ kept_idle w w'.
Proof.
  intros Hs Hr. unfold steal_work. destruct (_ || _); [exists false, w; split; [done|by apply soft_refl]|]. cbv zeta. set (w0 := lock w r).
  assert (kept_idle w w0) as K0 by (apply calm_kept; [done|]; unfold w0, lock; tame_updates). pose proof (ki_soft _ _ K0) as Hs0.
  assert (forall w1, calm w0 w1 -> kept_idle w w1) as Hcalm by (intros w1 H; apply (kept_trans _ w0); [done|by apply calm_kept]).
  destruct (negb _); [eexists true, _; split; [done|]; by apply Hcalm, steal_rq_calm|].
  destruct (PREEMPTED_RQ && _); [eexists true, _; split; [done|]; by apply Hcalm, steal_prq_calm|].
  destruct (softirq_run_locked_kept w0 l r (shift 1 clk) Hs0) as (b & w1 & -> & K1); [rewrite (ki_len _ _ K0); done|].
  destruct b; eexists _, _; (split; [done|]); apply (kept_trans _ w0); try done; apply (kept_trans _ w1); try done; (apply calm_kept; [apply K1|]); unfold unlock; tame_updates.
Qed.
Lemma try_steals_kept w me vs clk : soft_ok w -> Forall (fun v => (v < length (ks w))%nat) vs ->
  exists b w', try_steals PREEMPTED_RQ sibling_core cycles_per_us start_tsc w me vs clk = Some (b, w') /\ kept_idle w w'.
Proof.
  revert w clk. induction vs as [|v vs IH]; intros w clk Hs Hv; simpl; [exists false, w; split; [done|by apply soft_refl]|]. apply Forall_cons in Hv as [Hv Hvs].
  destruct (steal_work_kept w me v clk Hs Hv) as (b & w1 & -> & K1). destruct b; [by exists true, w1|].
  destruct (IH w1 (shift 4 clk)) as (b & w2 & -> & K2); [apply K1|by rewrite (ki_len _ _ K1)|]. exists b, w2. split; [done|]. by apply (kept_trans _ w1).
Qed.

(** *** Dispatching *)

Lemma pop_next_calm w0 w me : calm w0 w -> calm w0 (pop_next PREEMPTED_RQ w me).2.
Proof.
  intros H. unfold pop_next. destruct (negb _ || _).
  - destruct (pop_thread _) as [th q]. simpl. tame_updates.
  - destruct (pop_thread _) as [th q]. simpl. tame_updates.
Qed.
Lemma schedule_done_calm w me clk : calm w (schedule_done PREEMPTED_RQ sibling_core w me clk).2.
Proof.
  unfold schedule_done. pose proof (pop_next_calm w w me (tame_refl _ w)) as H. destruct (pop_next _ _ _) as [th w1]. simpl in *.
  unfold unlock, count_run. tame_updates.
Qed.
Lemma enter_schedule_calm w me curth clk : calm w (enter_schedule PREEMPTED_RQ sibling_core cycles_per_us disable_watchdog w me curth clk).2.
Proof.
  unfold enter_schedule. cbv zeta. set (w0 := lock (upd_th w curth _) me). assert (calm w w0) as H0 by (unfold w0, lock; tame_updates).
  destruct (needs_slow_path _ _ _ _ _ _); [done|]. pose proof (pop_next_calm w w0 me H0) as H. destruct (pop_next _ _ _) as [th w1]. simpl in *.
  destruct (bool_decide _); simpl; unfold unlock, count_run; tame_updates.
Qed.
Lemma schedule_entry_calm w me self : calm w (schedule_entry PREEMPTED_RQ w me self).
Proof. unfold schedule_entry. destruct self, PREEMPTED_RQ; tame_updates. Qed.
Lemma local_queues_calm w me : calm w (local_queues PREEMPTED_RQ w me).2.
Proof. unfold local_queues. destruct (rq_nonempty _); [simpl; tame_updates|]. destruct (negb _); simpl; tame_updates. Qed.
Lemma schedule_local_kept w me clk : soft_ok w -> (me < length (ks w))%nat ->
  exists b w', schedule_local PREEMPTED_RQ sibling_core cycles_per_us start_tsc disable_watchdog w me clk = Some (b, w') /\ kept_idle w w'.
Proof.
  intros Hs Hk. unfold schedule_local. cbv zeta. set (watchdog := if _ && _ then _ else _).
  assert (exists b1 w1, watchdog = Some (b1, w1) /\ kept_idle w w1) as (b1 & w1 & -> & K1).
  { unfold watchdog. destruct (_ && _); [|exists false, w; split; [done|by apply soft_refl]]. set (w0 := upd_soft w me _).
    assert (kept_idle w w0) as K0 by (apply calm_kept; [done|]; unfold w0, upd_soft; tame_updates).
    destruct (local_softirqs_kept w0 me (shift 1 clk)) as (b & w' & -> & K); [apply K0|unfold w0; by rewrite soft_upd_len|].
    exists b, w'. split; [done|]. by apply (kept_trans _ w0). }
  destruct b1; [by exists true, w1|]. pose proof (local_queues_calm w1 me) as Hc. destruct (local_queues _ _ _) as [b w']. exists b, w'. split; [done|].
  apply (kept_trans _ w1); [done|]. apply calm_kept; [apply K1|done].
Qed.
Lemma schedule_again_kept w me vs clk : soft_ok w -> (me < length (ks w))%nat -> Forall (fun v => (v < length (ks w))%nat) vs ->
  exists b w', schedule_again PREEMPTED_RQ sibling_core cycles_per_us start_tsc w me vs clk = Some (b, w') /\ kept_idle w w'.
Proof.
  intros Hs Hk Hvs. unfold schedule_again. destruct (local_softirqs_kept w me clk Hs Hk) as (b1 & w1 & -> & K1). destruct b1; [by exists true, w1|].
  destruct (try_steals_kept w1 me vs (shift 3 clk)) as (b2 & w2 & -> & K2); [apply K1|by rewrite (ki_len _ _ K1)|]. pose proof (kept_trans _ _ _ K1 K2) as K.
  destruct b2; [by exists true, w2|]. destruct (local_softirqs_kept w2 me (shift (3 + 4 * length vs) clk)) as (b3 & w3 & -> & K3); [apply K|rewrite (ki_len _ _ K); done|].
  exists b3, w3. split; [done|]. by apply (kept_trans _ w2).
Qed.

(** *** Yielding *)

(** A running thread that yields is made ready by no one else, so that [BUG_ON] is not
    reached. *)
Lemma thread_yield_kept w me curth clk : soft_ok w -> (me < length (ks w))%nat -> may_wake w curth -> thread_ready (th_at w curth) = false ->
  exists o w', thread_yield PREEMPTED_RQ sibling_core cycles_per_us start_tsc disable_watchdog w me curth clk = Some (o, w') /\ soft_ok w'.
Proof.
  intros Hs Hk Hm Hr. unfold thread_yield. destruct (softirq_run_kept w me clk Hs Hk) as (b & w1 & -> & K1). set (w2 := upd_th w1 curth mark_unready).
  assert (kept_idle w1 w2) as K2 by (apply calm_kept; [apply K1|]; unfold w2; tame_updates). pose proof (kept_trans _ _ _ K1 K2) as K.
  destruct (make_thread_ready_tame w2 me curth (shift 4 clk)) as (w3 & -> & T3).
  { unfold w2, upd_th. by rewrite th_at_set, decide_True. }
  assert (soft_ok w3) as Hs3 by (apply (tame_soft _ w2 _ (ki_soft _ _ K) T3); intros t <-; by apply K).
  pose proof (enter_schedule_calm w3 me curth (shift 5 clk)) as Hc. destruct (enter_schedule _ _ _ _ _ _ _ _) as [o w4]. exists o, w4. split; [done|].
  by apply (ki_soft w3), calm_kept.
Qed.
Lemma thread_preempt_yield_kept w me curth clk : soft_ok w -> (me < length (ks w))%nat -> may_wake w curth -> thread_ready (th_at w curth) = false ->
  exists o w', thread_preempt_yield PREEMPTED_RQ sibling_core cycles_per_us start_tsc disable_watchdog w me curth clk = Some (o, w') /\ soft_ok w'.
Proof.
  intros Hs Hk Hm Hr. unfold thread_preempt_yield. destruct (softirq_run_kept w me clk Hs Hk) as (b & w1 & -> & K1). set (w2 := upd_th w1 curth mark_unready).
  assert (kept_idle w1 w2) as K2 by (apply calm_kept; [apply K1|]; unfold w2; tame_updates). pose proof (kept_trans _ _ _ K1 K2) as K.
  destruct (thread_preempt_ready_tame w2 me curth) as (w3 & -> & T3).
  { unfold w2, upd_th. by rewrite th_at_set, decide_True. }
  assert (soft_ok w3) as Hs3 by (apply (tame_soft _ w2 _ (ki_soft _ _ K) T3); intros t <-; by apply K).
  pose proof (enter_schedule_calm w3 me curth (shift 4 clk)) as Hc. destruct (enter_schedule _ _ _ _ _ _ _ _) as [o w4]. exists o, w4. split; [done|].
  by apply (ki_soft w3), calm_kept.
Qed.
End Ops.
