(* ===== verification/SchedSpec.v ===== *)
(** * sched: what the scheduler guarantees

    The theorems about [runtime/sched.c]: the invariant over every sequence of
    scheduler operations, what stealing does and how much it takes, that the
    search ends with a thread to run or has seen every queue it could lock,
    that a yielding thread is not lost, and the generation numbers RCU reads. *)

From S2P Require Import Prelude StdDef Ring RunQueue Lrpc Sched SchedProofs SchedSoft.

(** A world of [n] idle kthreads and no thread queued. *)
Definition init_world (n : nat) : world := World ∅ (replicate n inhabitant).

Lemma init_world_inv n : sched_inv (init_world n).
Proof.
  assert (forall i, (i < n)%nat -> k_at (init_world n) i = inhabitant) as Hk.
  { intros i Hi. unfold k_at. simpl. apply list_lookup_total_correct. by apply lookup_replicate. }
  assert (all_queued (init_world n) = []) as Ha.
  { unfold all_queued. simpl. rewrite fmap_replicate. clear Hk. by induction n. }
  split.
  - simpl. rewrite length_replicate. intros i Hi. rewrite Hk by done.
    split; by apply empty_runq_wf.
  - rewrite Ha. constructor.
  - intros t. rewrite Ha. unfold th_at. simpl. rewrite lookup_total_empty. split; [|done].
    by intros ?%elem_of_nil.
Qed.

(** ** The system *)

(** Idle kthreads, each with its iokernel and its timer softirq thread. *)
Definition boot_kthread (ids : tid * tid) : kthread :=
  set_soft inhabitant (Softirqs (ChanIn 0 1) (Shm [] 0) false ids.1 0 0 false ids.2 0).
Definition boot_world (ids : list (tid * tid)) : world := World ∅ (boot_kthread <$> ids).

(** Messages and timers come and go. *)
Definition set_sources (q : lrpc_chan_in) (m : lrpc_shm) (n deadline : Z) (s : softirqs) : softirqs :=
  Softirqs q m (iokernel_busy s) (iokernel_softirq s) n deadline (timer_busy s) (timer_softirq s) (last_softirq_tsc s).
(** What a softirq thread does before it sleeps, in [iokernel_softirq] and
    [timer_softirq]. *)
Definition clear_iokernel_busy (s : softirqs) : softirqs :=
  Softirqs (rxq s) (rx_shm s) false (iokernel_softirq s) (timern s) (timer0_deadline s) (timer_busy s) (timer_softirq s) (last_softirq_tsc s).
Definition clear_timer_busy (s : softirqs) : softirqs :=
  Softirqs (rxq s) (rx_shm s) (iokernel_busy s) (iokernel_softirq s) (timern s) (timer0_deadline s) false (timer_softirq s) (last_softirq_tsc s).

Lemma boot_at ids i : (i < length (ks (boot_world ids)))%nat -> exists x, ids !! i = Some x /\ k_at (boot_world ids) i = boot_kthread x.
Proof.
  simpl. rewrite length_fmap. intros Hi. destruct (lookup_lt_is_Some_2 ids i Hi) as [x Hx]. exists x. split; [done|].
  unfold k_at. simpl. apply list_lookup_total_correct. by rewrite list_lookup_fmap, Hx.
Qed.
Lemma boot_inv ids : sched_inv (boot_world ids).
Proof.
  assert (all_queued (boot_world ids) = []) as Ha.
  { unfold all_queued. simpl. rewrite <- list_fmap_compose. by induction ids. }
  split; rewrite ?Ha.
  - intros i Hi. destruct (boot_at ids i Hi) as (x & _ & ->). split; by apply empty_runq_wf.
  - constructor.
  - intros t. unfold th_at. simpl. rewrite lookup_total_empty. split; [by intros ?%elem_of_nil|done].
Qed.
Lemma boot_soft ids : NoDup (ids.*1 ++ ids.*2) -> soft_ok (boot_world ids).
Proof.
  intros (N1 & N12 & N2)%NoDup_app. assert (forall t, thread_ready (th_at (boot_world ids) t) = false) as Hr by (intros t; unfold th_at; simpl; by rewrite lookup_total_empty).
  split; try (intros; by apply Hr).
  - intros i j Hi Hj. destruct (boot_at ids i Hi) as (x & Hx & ->), (boot_at ids j Hj) as (y & Hy & ->). simpl. intros E.
    apply (NoDup_lookup _ _ _ x.1 N1); rewrite list_lookup_fmap, ?Hx, ?Hy; simpl; congruence.
  - intros i j Hi Hj. destruct (boot_at ids i Hi) as (x & Hx & ->), (boot_at ids j Hj) as (y & Hy & ->). simpl. intros E.
    apply (NoDup_lookup _ _ _ x.2 N2); rewrite list_lookup_fmap, ?Hx, ?Hy; simpl; congruence.
  - intros i j Hi Hj. destruct (boot_at ids i Hi) as (x & Hx & ->), (boot_at ids j Hj) as (y & Hy & ->). simpl. intros E.
    apply (N12 x.1); [apply list_elem_of_fmap; exists x; split; [done|by eapply list_elem_of_lookup_2]|].
    rewrite E. apply list_elem_of_fmap. exists y. split; [done|by eapply list_elem_of_lookup_2].
Qed.

Section Spec.
Context (PREEMPTED_RQ : bool) (sibling_core : Z -> Z)
  (cycles_per_us start_tsc : Z) (disable_watchdog : bool).
Implicit Types (clk : nat -> Z) (w : world) (me l r : nat) (th : tid).

#[local] Abbreviation enter_schedule :=
  (enter_schedule PREEMPTED_RQ sibling_core cycles_per_us disable_watchdog).
#[local] Abbreviation steal_work :=
  (steal_work PREEMPTED_RQ sibling_core cycles_per_us start_tsc).
#[local] Abbreviation schedule_local :=
  (schedule_local PREEMPTED_RQ sibling_core cycles_per_us start_tsc disable_watchdog).
#[local] Abbreviation schedule_again :=
  (schedule_again PREEMPTED_RQ sibling_core cycles_per_us start_tsc).
#[local] Abbreviation schedule_done := (schedule_done PREEMPTED_RQ sibling_core).
#[local] Abbreviation schedule_entry := (schedule_entry PREEMPTED_RQ).
#[local] Abbreviation runnable := (runnable PREEMPTED_RQ).

#[local] Abbreviation thread_yield :=
  (thread_yield PREEMPTED_RQ sibling_core cycles_per_us start_tsc disable_watchdog).
#[local] Abbreviation thread_preempt_yield :=
  (thread_preempt_yield PREEMPTED_RQ sibling_core cycles_per_us start_tsc disable_watchdog).
#[local] Abbreviation softirq_run := (softirq_run PREEMPTED_RQ sibling_core cycles_per_us start_tsc).
#[local] Abbreviation local_softirqs := (local_softirqs PREEMPTED_RQ sibling_core cycles_per_us start_tsc).

(** One operation of some kthread, or of what is around the scheduler.  [None] results (a
    failed [BUG_ON]) stop the program and have no step.  A softirq thread that has nothing
    to do is woken by [softirq_run_locked] only; a thread that yields runs, and so does a
    softirq thread that has finished its work, so that they are not ready. *)
Inductive sched_step : world -> world -> Prop :=
| step_ready w w' me th clk :
    (me < length (ks w))%nat -> may_wake w th ->
    make_thread_ready PREEMPTED_RQ sibling_core w me th clk = Some w' -> sched_step w w'
| step_ready_locked w w' me th clk :
    (me < length (ks w))%nat -> may_wake w th ->
    thread_ready_locked PREEMPTED_RQ sibling_core w me th clk = Some w' -> sched_step w w'
| step_ready_head w w' me th clk :
    (me < length (ks w))%nat -> may_wake w th ->
    thread_ready_head sibling_core w me th clk = Some w' -> sched_step w w'
| step_preempt_ready w w' me th :
    (me < length (ks w))%nat -> may_wake w th ->
    thread_preempt_ready sibling_core w me th = Some w' -> sched_step w w'
| step_yield w w' me curth clk o :
    (me < length (ks w))%nat -> may_wake w curth -> thread_ready (th_at w curth) = false ->
    thread_yield w me curth clk = Some (o, w') -> sched_step w w'
| step_preempt_yield w w' me curth clk o :
    (me < length (ks w))%nat -> may_wake w curth -> thread_ready (th_at w curth) = false ->
    thread_preempt_yield w me curth clk = Some (o, w') -> sched_step w w'
| step_traffic w k q m n deadline :
    (k < length (ks w))%nat -> sched_step w (upd_soft w k (set_sources q m n deadline))
| step_iokernel_done w k :
    (k < length (ks w))%nat -> thread_ready (th_at w (iokernel_softirq (soft (k_at w k)))) = false ->
    sched_step w (upd_soft w k clear_iokernel_busy)
| step_timer_done w k :
    (k < length (ks w))%nat -> thread_ready (th_at w (timer_softirq (soft (k_at w k)))) = false ->
    sched_step w (upd_soft w k clear_timer_busy)
| step_softirq_run w w' me clk b :
    (me < length (ks w))%nat -> softirq_run w me clk = Some (b, w') -> sched_step w w'
| step_local_softirqs w w' me clk b :
    (me < length (ks w))%nat -> local_softirqs w me clk = Some (b, w') -> sched_step w w'
| step_enter_schedule w w' me curth clk o :
    (me < length (ks w))%nat -> enter_schedule w me curth clk = (o, w') -> sched_step w w'
| step_schedule_entry w me self :
    (me < length (ks w))%nat -> sched_step w (schedule_entry w me self)
| step_schedule_local w w' me clk b :
    (me < length (ks w))%nat -> schedule_local w me clk = Some (b, w') -> sched_step w w'
| step_steal w w' l r clk b :
    l <> r -> (l < length (ks w))%nat -> (r < length (ks w))%nat -> few_queued w ->
    steal_work w l r clk = Some (b, w') -> sched_step w w'
| step_schedule_done w w' me clk th :
    (me < length (ks w))%nat -> runnable w me = true ->
    schedule_done w me clk = (th, w') -> sched_step w w'.

Lemma schedule_entry_equiv w me self : schedule_entry w me self ≡ w.
Proof. unfold Sched.schedule_entry. destruct self, PREEMPTED_RQ; quiet_equiv. Qed.
Lemma local_softirqs_sched_inv w me clk b w' :
  sched_inv w -> (me < length (ks w))%nat -> local_softirqs w me clk = Some (b, w') -> sched_inv w'.
Proof.
  intros Hinv Hme. unfold Sched.local_softirqs. destruct (softirq_run_locked _ _ _ _ _ _ _ _) as [[b1 w1]|] eqn:E; [|done].
  apply softirq_run_locked_inv in E as ([Hi _] & _); [|done..]. destruct b1; intros [= <- <-]; [|done]. by rewrite equiv_quiet_k.
Qed.
Lemma upd_unready w th : thread_ready (th_at w th) = false -> upd_th w th mark_unready ≡ w.
Proof.
  intros H. split_and!; [done..|]. intros t. unfold upd_th. rewrite th_at_set.
  case_decide; [by subst|done].
Qed.
Lemma enter_schedule_inv w me curth clk o w' : sched_inv w -> (me < length (ks w))%nat -> enter_schedule w me curth clk = (o, w') -> sched_inv w'.
Proof.
  intros Hinv Hme E. pose proof (enter_schedule_dispatches _ _ _ _ _ _ _ _ _ _ Hinv Hme E) as Hd. destruct o; [by rewrite Hd|apply Hd|apply Hd].
Qed.
(** The running thread is not ready after the softirqs were polled. *)
Lemma softirq_run_running w me clk b w1 curth : sched_inv w -> soft_ok w -> (me < length (ks w))%nat -> may_wake w curth -> thread_ready (th_at w curth) = false ->
  softirq_run w me clk = Some (b, w1) -> sched_inv (upd_th w1 curth mark_unready) /\ length (ks (upd_th w1 curth mark_unready)) = length (ks w).
Proof.
  intros Hinv Hs Hme Hm Hr E. destruct (softirq_run_kept PREEMPTED_RQ sibling_core cycles_per_us start_tsc w me clk Hs Hme) as (b' & w' & E' & K).
  rewrite E in E'. injection E' as <- <-. apply softirq_run_inv in E as [Hi Hl]; [|done..]. split; [|done]. rewrite upd_unready; [done|].
  apply not_true_is_false. intros H. pose proof (ki_asleep _ _ K curth Hm H). congruence.
Qed.
Lemma yields_inv w me curth clk o w' : sched_inv w -> soft_ok w -> (me < length (ks w))%nat -> may_wake w curth -> thread_ready (th_at w curth) = false ->
  thread_yield w me curth clk = Some (o, w') \/ thread_preempt_yield w me curth clk = Some (o, w') -> sched_inv w'.
Proof.
  intros Hinv Hs Hme Hm Hr [H|H]; unfold Sched.thread_yield, Sched.thread_preempt_yield in H;
    (destruct (Sched.softirq_run _ _ _ _ _ _ _) as [[b w1]|] eqn:E1; [|done]); apply (softirq_run_running _ _ _ _ _ curth) in E1 as [Hi1 Hl1]; try done.
  - destruct (make_thread_ready _ _ _ _ _ _) as [w2|] eqn:E2; [|done]. injection H as H. apply make_thread_ready_inv in E2 as [Hi2 Hl2]; [|done|lia].
    eapply enter_schedule_inv; [done| |exact H]. lia.
  - destruct (thread_preempt_ready _ _ _ _) as [w2|] eqn:E2; [|done]. injection H as H. apply thread_preempt_ready_inv in E2 as [Hi2 Hl2]; [|done|lia].
    eapply enter_schedule_inv; [done| |exact H]. lia.
Qed.

Lemma sched_step_inv w w' : sched_step w w' -> sched_inv w -> soft_ok w -> sched_inv w'.
Proof.
  intros [] Hinv Hs.
  - eapply make_thread_ready_inv; eauto.
  - eapply thread_ready_locked_inv; eauto.
  - eapply thread_ready_head_inv; eauto.
  - eapply thread_preempt_ready_inv; eauto.
  - eapply yields_inv; eauto.
  - eapply yields_inv; eauto.
  - unfold upd_soft. by rewrite equiv_quiet_k.
  - unfold upd_soft. by rewrite equiv_quiet_k.
  - unfold upd_soft. by rewrite equiv_quiet_k.
  - eapply softirq_run_inv; eauto.
  - eapply local_softirqs_sched_inv; eauto.
  - eapply enter_schedule_inv; eauto.
  - by rewrite schedule_entry_equiv.
  - eapply schedule_local_inv; eauto.
  - eapply steal_result_inv; eauto. eapply steal_work_spec; eauto.
  - eapply schedule_done_dispatches; eauto.
Qed.

(** A thread is woken. *)
Lemma wake_soft w w1 w' th (o : option world) : soft_ok w -> may_wake w th -> o = Some w' -> o = Some w1 /\ tame (eq th) w w1 -> soft_ok w'.
Proof. intros Hs Hm E [E1 T]. replace w' with w1 by congruence. apply (tame_soft _ w _ Hs T). by intros t <-. Qed.
(** A softirq thread that has finished its work. *)
Lemma done_soft w k f : soft_ok w -> (k < length (ks w))%nat ->
  (f = clear_iokernel_busy /\ thread_ready (th_at w (iokernel_softirq (soft (k_at w k)))) = false) \/
  (f = clear_timer_busy /\ thread_ready (th_at w (timer_softirq (soft (k_at w k)))) = false) -> soft_ok (upd_soft w k f).
Proof.
  intros [S1 S2 S3 S4 S5] Hk Hf.
  assert (forall i, iokernel_softirq (soft (k_at (upd_soft w k f) i)) = iokernel_softirq (soft (k_at w i)) /\
    timer_softirq (soft (k_at (upd_soft w k f) i)) = timer_softirq (soft (k_at w i))) as Hid.
  { intros i. rewrite soft_upd_k by done. by destruct Hf as [[-> _]|[-> _]]; case_decide. }
  split; rewrite soft_upd_len.
  - intros i Hi. destruct (Hid i) as [-> _]. change (th_at (upd_soft w k f) ?t) with (th_at w t). rewrite soft_upd_k by done. destruct Hf as [[-> Hr]|[-> Hr]]; case_decide; subst; simpl; auto.
  - intros i Hi. destruct (Hid i) as [_ ->]. change (th_at (upd_soft w k f) ?t) with (th_at w t). rewrite soft_upd_k by done. destruct Hf as [[-> Hr]|[-> Hr]]; case_decide; subst; simpl; auto.
  - intros i j. destruct (Hid i) as [-> _], (Hid j) as [-> _]. apply S3.
  - intros i j. destruct (Hid i) as [_ ->], (Hid j) as [_ ->]. apply S4.
  - intros i j. destruct (Hid i) as [-> _], (Hid j) as [_ ->]. apply S5.
Qed.
Lemma sched_step_soft w w' : sched_step w w' -> sched_inv w -> soft_ok w -> soft_ok w'.
Proof.
  intros [w1 w2 me th clk Hme Hm E|w1 w2 me th clk Hme Hm E|w1 w2 me th clk Hme Hm E|w1 w2 me th Hme Hm E|w1 w2 me cur clk o Hme Hm Hr E|w1 w2 me cur clk o Hme Hm Hr E
    |w1 k q m n dl Hk|w1 k Hk Hr|w1 k Hk Hr|w1 w2 me clk b Hme E|w1 w2 me clk b Hme E|w1 w2 me cur clk o Hme E|w1 me self Hme|w1 w2 me clk b Hme E|w1 w2 l r clk b Hne Hl Hr Hf E|w1 w2 me clk th Hme Hru E] Hinv Hs.
  - destruct (make_thread_ready_moved _ _ _ _ _ _ _ Hme E) as [Hr _]. destruct (make_thread_ready_tame PREEMPTED_RQ sibling_core w1 me th clk Hr) as (w3 & H). by eapply wake_soft.
  - destruct (thread_ready_locked_moved _ _ _ _ _ _ _ Hme E) as [Hr _]. destruct (thread_ready_locked_tame PREEMPTED_RQ sibling_core w1 me th clk Hr) as (w3 & H). by eapply wake_soft.
  - destruct (thread_ready_head_moved _ _ _ _ _ _ Hme E) as [Hr _]. destruct (ready_head_tame sibling_core w1 w1 me th clk (tame_refl _ _) Hr) as (w3 & H). by eapply wake_soft.
  - destruct (thread_preempt_ready_moved _ _ _ _ _ Hme E) as [Hr _]. destruct (thread_preempt_ready_tame sibling_core w1 me th Hr) as (w3 & H). by eapply wake_soft.
  - destruct (thread_yield_kept PREEMPTED_RQ sibling_core cycles_per_us start_tsc disable_watchdog w1 me cur clk Hs Hme Hm Hr) as (o' & w3 & E3 & K). congruence.
  - destruct (thread_preempt_yield_kept PREEMPTED_RQ sibling_core cycles_per_us start_tsc disable_watchdog w1 me cur clk Hs Hme Hm Hr) as (o' & w3 & E3 & K). congruence.
  - apply (ki_soft w1), calm_kept; [done|]. unfold upd_soft. tame_updates.
  - apply done_soft; auto.
  - apply done_soft; auto.
  - destruct (softirq_run_kept PREEMPTED_RQ sibling_core cycles_per_us start_tsc w1 me clk Hs Hme) as (b' & w3 & E3 & K). replace w2 with w3 by congruence. apply K.
  - destruct (local_softirqs_kept PREEMPTED_RQ sibling_core cycles_per_us start_tsc w1 me clk Hs Hme) as (b' & w3 & E3 & K). replace w2 with w3 by congruence. apply K.
  - apply (ki_soft w1), calm_kept; [done|]. pose proof (enter_schedule_calm PREEMPTED_RQ sibling_core cycles_per_us disable_watchdog w1 me cur clk) as H. by rewrite E in H.
  - apply (ki_soft w1), calm_kept; [done|]. apply schedule_entry_calm.
  - destruct (schedule_local_kept PREEMPTED_RQ sibling_core cycles_per_us start_tsc disable_watchdog w1 me clk Hs Hme) as (b' & w3 & E3 & K). replace w2 with w3 by congruence. apply K.
  - destruct (steal_work_kept PREEMPTED_RQ sibling_core cycles_per_us start_tsc w1 l r clk Hs Hr) as (b' & w3 & E3 & K). replace w2 with w3 by congruence. apply K.
  - apply (ki_soft w1), calm_kept; [done|]. pose proof (schedule_done_calm PREEMPTED_RQ sibling_core w1 me clk) as H. by rewrite E in H.
Qed.

(** C3: in every state the scheduler can reach from idle kthreads, by waking, preempting and
    yielding, running softirqs while messages and timers come in, stealing (with fewer than
    [2^32 - 1] threads queued) and dispatching in any order on any kthreads: no thread is on
    two queues or twice on one, and the queued threads are exactly those marked ready; a
    softirq thread that has nothing to do is not queued; and polling the softirqs, searching
    for work on any kthreads and yielding never make a ready thread ready again, so that
    their [BUG_ON] is not reached. *)
Theorem sched_reachable ids w :
  NoDup (ids.*1 ++ ids.*2) -> rtc sched_step (boot_world ids) w ->
  NoDup (all_queued w) /\ (forall t, t ∈ all_queued w <-> thread_ready (th_at w t) = true) /\
  (forall i, (i < length (ks w))%nat -> let s := soft (k_at w i) in
    (iokernel_busy s = false -> iokernel_softirq s ∉ all_queued w) /\ (timer_busy s = false -> timer_softirq s ∉ all_queued w)) /\
  (forall me clk, (me < length (ks w))%nat ->
    is_Some (softirq_run w me clk) /\ is_Some (schedule_local w me clk) /\
    (forall vs, Forall (fun v => (v < length (ks w))%nat) vs -> is_Some (schedule_again w me vs clk)) /\
    (forall curth, may_wake w curth -> thread_ready (th_at w curth) = false ->
      is_Some (thread_yield w me curth clk) /\ is_Some (thread_preempt_yield w me curth clk))).
Proof.
  intros Hnd H. assert (sched_inv w /\ soft_ok w) as [[_ HN HR] Hs].
  { pose proof (boot_inv ids) as Hi. pose proof (boot_soft ids Hnd) as Hs. induction H as [|w w1 w2 H1 _ IH]; [done|]. apply IH; eauto using sched_step_inv, sched_step_soft. }
  split; [done|]. split; [done|]. split.
  - intros i Hi s. split; intros Hb Hq%HR; [pose proof (so_iokernel w Hs i Hi Hb)|pose proof (so_timer w Hs i Hi Hb)]; unfold s in Hq; congruence.
  - intros me clk Hme. split; [|split; [|split]].
    + destruct (softirq_run_kept PREEMPTED_RQ sibling_core cycles_per_us start_tsc w me clk Hs Hme) as (b & w' & -> & _). by eexists.
    + destruct (schedule_local_kept PREEMPTED_RQ sibling_core cycles_per_us start_tsc disable_watchdog w me clk Hs Hme) as (b & w' & -> & _). by eexists.
    + intros vs Hvs. destruct (schedule_again_kept PREEMPTED_RQ sibling_core cycles_per_us start_tsc w me vs clk Hs Hme Hvs) as (b & w' & -> & _). by eexists.
    + intros cur Hm Hr. destruct (thread_yield_kept PREEMPTED_RQ sibling_core cycles_per_us start_tsc disable_watchdog w me cur clk Hs Hme Hm Hr) as (o & w' & -> & _).
      destruct (thread_preempt_yield_kept PREEMPTED_RQ sibling_core cycles_per_us start_tsc disable_watchdog w me cur clk Hs Hme Hm Hr) as (o2 & w2 & -> & _). split; by eexists.
Qed.

(** A kthread that finds another one, unlocked, with a longer run queue
    takes from its front half the difference rounded up, at most a ring's
    worth: the thief ends with at most one thread more than its victim, no
    thread is lost, queues sorted by waiting time stay sorted, and the thief
    has a thread to run. *)
Theorem steal_work_takes_half w l r clk :
  sched_inv w -> few_queued w -> l <> r -> (l < length (ks w))%nat -> (r < length (ks w))%nat ->
  locked (k_at w r) = false -> rq_nonempty (k_rq (k_at w r)) = true ->
  (length (abs (k_rq (k_at w l))) < length (abs (k_rq (k_at w r))))%nat ->
  exists w' n, steal_work w l r clk = Some (true, w') /\
    0 < n <= RUNTIME_RQ_SIZE /\
    abs (k_rq (k_at w' l)) =
      list_merge (older (tsc_of w)) (abs (k_rq (k_at w l))) (take (Z.to_nat n) (abs (k_rq (k_at w r)))) /\
    abs (k_rq (k_at w' r)) = drop (Z.to_nat n) (abs (k_rq (k_at w r))) /\
    (length (abs (k_rq (k_at w' l))) <= length (abs (k_rq (k_at w' r))) + 1)%nat /\
    all_queued w' ≡ₚ all_queued w /\
    (Sorted (older (tsc_of w)) (abs (k_rq (k_at w l))) ->
     Sorted (older (tsc_of w)) (abs (k_rq (k_at w r))) ->
     Sorted (older (tsc_of w)) (abs (k_rq (k_at w' l)))) /\
    runnable w' l = true /\ sched_inv w'.
Proof.
  intros Hinv Hfew Hne Hl Hr Hlk Hnr Hlt.
  destruct (steal_work_theft PREEMPTED_RQ sibling_core cycles_per_us start_tsc w l r clk)
    as (w' & n & E & En & Hn & Hs); [done..|].
  destruct (queue_length w r Hr Hfew) as [Lr _].
  destruct (num_to_steal_spec (length (abs (k_rq (k_at w l)))) _ Lr) as (Hn1 & _ & Hn2).
  rewrite <- En in Hn1, Hn2. exists w', n.
  assert (runnable w' l = true) as Hrun.
  { eapply stolen_rq_runnable; [done..|]. intros E0. rewrite E0 in Hlt. simpl in Hlt. lia. }
  destruct Hs as [[Hi _] Hall El Er _ _]. split_and!; try done; try lia.
  - rewrite El, Er, (Permutation_length (merge_Permutation _ _ _)), length_app, length_take, length_drop. lia.
  - intros Sl Sr. rewrite El. apply Sorted_list_merge; [apply _|done|]. by apply Sorted_take.
Qed.
#[local] Abbreviation picks := (picks PREEMPTED_RQ).

(** A kthread reached the label [done] of [schedule]. *)
Definition found_work w me w' : Prop :=
  (exists clk, schedule_local w me clk = Some (true, w')) \/
  (exists vs clk, few_queued w /\ Forall (fun v => v <> me /\ (v < length (ks w))%nat) vs /\
     schedule_again w me vs clk = Some (true, w')).

Lemma found_work_runnable w me w' :
  sched_inv w -> (me < length (ks w))%nat -> found_work w me w' ->
  sched_inv w' /\ (me < length (ks w'))%nat /\ runnable w' me = true.
Proof.
  intros Hinv Hme [[clk H]|(vs & clk & Hfew & Hvs & H)].
  - apply schedule_local_inv in H as ([H1 H2] & H3 & _); [|done..]. split_and!; [done|lia|auto].
  - apply schedule_again_inv in H as ([H1 H2] & H3 & _); [|done..]. split_and!; [done|lia|auto].
Qed.

Lemma schedule_done_thread w me clk th w' :
  schedule_done w me clk = (th, w') ->
  thread_running (th_at w' th) = true /\ run_start_tsc (th_at w' th) = clk 0%nat.
Proof.
  unfold Sched.schedule_done. destruct (pop_next _ _ _) as [th1 w1]. intros [= <- <-].
  unfold upd_th. rewrite !th_at_set, !decide_True by done. simpl. split; [done|].
  unfold th_at, upd_k, set_k, set_th. simpl. by rewrite lookup_total_insert, decide_True.
Qed.

(** Whenever [schedule] goes to its label [done], whether from the watchdog,
    the local queues, a softirq or a theft, its assertions hold: there is a
    thread to pop, it is marked ready, it is the first of the run queue (of
    the preempted queue when the run queue is empty), and after the switch it
    is running, not ready and off the queues. *)
Theorem schedule_dispatches w me w1 clk th w2 :
  sched_inv w -> (me < length (ks w))%nat -> found_work w me w1 ->
  schedule_done w1 me clk = (th, w2) ->
  thread_ready (th_at w1 th) = true /\
  picks w1 me th (k_rq (k_at w2 me)) (k_prq (k_at w2 me)) /\
  thread_ready (th_at w2 th) = false /\ thread_running (th_at w2 th) = true /\
  th ∉ all_queued w2 /\ sched_inv w2.
Proof.
  intros Hinv Hme Hf Hd. destruct (found_work_runnable w me w1 Hinv Hme Hf) as (Hi & Hm & Hr).
  destruct (schedule_done_thread w1 me clk th w2 Hd) as [Hrun _].
  apply schedule_done_dispatches in Hd as [[Hi2 _] Hrd Hp Hnew]; [|done..].
  assert (thread_ready (th_at w2 th) = false) as Hn.
  { rewrite Hnew. unfold without_ready. by rewrite decide_True. }
  split_and!; try done. intros Hin. apply (si_ready w2 Hi2) in Hin. congruence.
Qed.

(** [victims] lists every other kthread when the random start does not wrap. *)
Lemma victims_complete me sib start (maxks : nat) v :
  0 <= start -> start + Z.of_nat maxks <= 2 ^ 32 -> (v < maxks)%nat -> v <> me ->
  v ∈ victims me sib start maxks.
Proof.
  intros Hs Hb Hv Hne. unfold victims. apply list_elem_of_filter. split; [done|].
  apply elem_of_app. right. apply list_elem_of_fmap.
  exists (Z.to_nat ((Z.of_nat v - start) mod Z.of_nat maxks)).
  pose proof (Z.mod_pos_bound (Z.of_nat v - start) (Z.of_nat maxks) ltac:(lia)) as Hm.
  split; [|apply elem_of_seq; lia].
  rewrite Z2Nat.id by lia. rewrite u32_small by (unfold is_u32; lia).
  rewrite Z.add_mod_idemp_r by lia. replace (start + (Z.of_nat v - start)) with (Z.of_nat v) by lia.
  rewrite Z.mod_small by lia. lia.
Qed.

(** C28: [schedule] is work conserving: when it finds nothing to run, its own
    queues are empty, overflow included, and every other kthread either was
    locked or had nothing in its rings (for a random start index that does
    not wrap around 32 bits). *)
Theorem schedule_work_conserving w me clk w1 sib start clk' w2 :
  sched_inv w -> few_queued w1 -> (me < length (ks w))%nat ->
  (forall v, sib = Some v -> (v < length (ks w))%nat) ->
  0 <= start -> start + Z.of_nat (length (ks w)) <= 2 ^ 32 ->
  schedule_local w me clk = Some (false, w1) ->
  schedule_again w1 me (victims me sib start (length (ks w))) clk' = Some (false, w2) ->
  abs (k_rq (k_at w2 me)) = [] /\ (PREEMPTED_RQ = true -> abs (k_prq (k_at w2 me)) = []) /\
  forall v, (v < length (ks w))%nat -> v <> me -> nothing_to_steal PREEMPTED_RQ w1 v.
Proof.
  intros Hinv Hfew Hme Hsib Hs Hb Hl Ha.
  apply schedule_local_inv in Hl as ([Hi Hlen] & _ & He); [|done..].
  destruct (He eq_refl) as [Er Ep].
  apply schedule_again_inv in Ha as (_ & _ & Hf); [|done..|lia|].
  - destruct (Hf eq_refl) as [(_ & Eq & _) Hall]. destruct (Eq me) as [-> ->].
    split_and!; [done..|]. intros v Hv Hne.
    specialize (Hall Er Ep). rewrite Forall_forall in Hall. apply Hall. by apply victims_complete.
  - apply Forall_forall. intros v [Hne Hv]%list_elem_of_filter. split; [done|]. rewrite Hlen.
    apply elem_of_app in Hv as [Hv|Hv].
    + destruct sib; [|by apply elem_of_nil in Hv]. apply list_elem_of_singleton in Hv as ->. auto.
    + apply list_elem_of_fmap in Hv as (i & -> & _).
      pose proof (Z.mod_pos_bound (u32 (start + Z.of_nat i)) (Z.of_nat (length (ks w))) ltac:(lia)). lia.
Qed.
(** *** Yielding *)

Lemma softirq_run_ready w me clk b w' t :
  (me < length (ks w))%nat ->
  softirq_run w me clk = Some (b, w') ->
  t <> iokernel_softirq (soft (k_at w me)) -> t <> timer_softirq (soft (k_at w me)) ->
  thread_ready (th_at w' t) = thread_ready (th_at w t).
Proof.
  intros Hme H H1 H2. unfold Sched.softirq_run in H. revert H. set (w0 := upd_soft w me _).
  assert (softirq_ids (k_at w0 me) = softirq_ids (k_at w me)) as [= E1 E2] by (by apply softirq_ids_upd_k).
  destruct (negb _); [by intros [= <- <-]|]. intros H.
  change (thread_ready (th_at w t)) with (thread_ready (th_at w0 t)).
  eapply softirq_run_locked_ready; [|done|congruence..].
  unfold w0, upd_soft, upd_k. by rewrite length_set_k.
Qed.

(** What the dispatch of [enter_schedule] leaves of a queued thread. *)
Lemma queued_after w me th w' t :
  dispatched PREEMPTED_RQ w me th w' -> t ∈ all_queued w' <-> thread_ready (th_at w t) = true /\ t <> th.
Proof.
  intros [[Hi _] _ _ Hr]. rewrite (si_ready w' Hi), Hr. unfold without_ready.
  case_decide; [subst; naive_solver|]. naive_solver.
Qed.

(** A running thread that yields is never lost: it is queued behind the
    runnable threads and either stays queued while the scheduler or the next
    thread runs, or is picked again at once and is then off the queues. *)
Theorem thread_yield_not_lost w me curth clk o w' :
  sched_inv w -> (me < length (ks w))%nat -> thread_ready (th_at w curth) = false ->
  curth <> iokernel_softirq (soft (k_at w me)) -> curth <> timer_softirq (soft (k_at w me)) ->
  thread_yield w me curth clk = Some (o, w') ->
  sched_inv w' /\
  match o with
  | SlowPath => curth ∈ all_queued w'
  | SameThread => curth ∉ all_queued w' /\ thread_ready (th_at w' curth) = false
  | SwitchTo th => th <> curth /\ curth ∈ all_queued w' /\ th ∉ all_queued w'
  end.
Proof.
  intros Hinv Hme Hc Hi Ht. unfold Sched.thread_yield.
  destruct (Sched.softirq_run _ _ _ _ _ _ _) as [[b w1]|] eqn:E1; [|done].
  pose proof (softirq_run_ready _ _ _ _ _ curth Hme E1 Hi Ht) as Hc1. rewrite Hc in Hc1.
  apply softirq_run_inv in E1 as [Hi1 Hl1]; [|done..].
  pose proof (upd_unready w1 curth Hc1) as Eu. set (wu := upd_th w1 curth mark_unready) in *.
  destruct (make_thread_ready _ _ _ _ _ _) as [w2|] eqn:E2; [|done].
  assert (me < length (ks wu))%nat as Hme' by (destruct Eu as [-> _]; lia).
  assert (sched_inv wu) as Hiu by (by rewrite Eu).
  pose proof (make_thread_ready_inv _ _ _ _ _ _ _ Hiu Hme' E2) as [Hi2 Hl2].
  apply make_thread_ready_moved in E2 as [_ Hm]; [|done].
  assert (thread_ready (th_at w2 curth) = true) as Hr2.
  { destruct Hm as [_ _ _ _ ->]. unfold with_ready. by rewrite decide_True. }
  intros [= E3]. apply enter_schedule_dispatches in E3; [|done|lia]. destruct o as [| |th].
  - split; [by rewrite E3|]. rewrite E3. by apply (si_ready w2 Hi2).
  - split; [apply E3|]. rewrite (queued_after _ _ _ _ _ E3). split; [naive_solver|].
    destruct E3 as [_ _ _ ->]. unfold without_ready. by rewrite decide_True.
  - destruct E3 as [Hne E3]. split; [apply E3|]. rewrite !(queued_after _ _ _ _ _ E3). naive_solver.
Qed.

(** *** RCU generations *)

Lemma u32_odd x : u32 x mod 2 = x mod 2.
Proof. exact (u32_mod_pow2 x 1 ltac:(lia)). Qed.
Definition gens (k : kthread) : Z * Z := (rcu_gen k, q_rcu_gen k).

Lemma gens_upd_k w i f j :
  (forall k, gens (f k) = gens k) -> gens (k_at (upd_k w i f) j) = gens (k_at w j).
Proof.
  intros Hf. unfold upd_k. destruct (decide (i < length (ks w))%nat).
  - rewrite k_at_set by done. case_decide; [subst; apply Hf|done].
  - unfold k_at, set_k at 1. simpl. by rewrite list_insert_ge by lia.
Qed.

Lemma gens_pop_next w me : gens (k_at (snd (pop_next PREEMPTED_RQ w me)) me) = gens (k_at w me).
Proof.
  unfold pop_next.
  destruct (negb _ || _);
    [exact (gens_upd_k w me (fun k => let k' := set_rq k (snd (pop_thread (k_rq k))) in
       if PREEMPTED_RQ then set_is_preempted k' 0 else k') me ltac:(intros; by destruct PREEMPTED_RQ))
    |exact (gens_upd_k w me (fun k => set_is_preempted (set_prq k (snd (pop_thread (k_prq k)))) 1) me ltac:(done))].
Qed.

Lemma gens_update_oldest w i j : gens (k_at (update_oldest_tsc w i) j) = gens (k_at w j).
Proof. unfold update_oldest_tsc. destruct (rq_nonempty _); [|done]. by apply gens_upd_k. Qed.

Lemma length_pop_next w me : length (ks (snd (pop_next PREEMPTED_RQ w me))) = length (ks w).
Proof. unfold pop_next. destruct (negb _ || _); simpl; apply length_insert. Qed.

Lemma length_update_oldest w i : length (ks (update_oldest_tsc w i)) = length (ks w).
Proof. apply update_oldest_equiv. Qed.

(** The generation after a thread was picked and [n] was added to it. *)
Lemma gens_picked w me th f t0 t1 n :
  (me < length (ks w))%nat ->
  let w1 := unlock (update_oldest_tsc (snd (pop_next PREEMPTED_RQ w me)) me) me in
  forall w2, length (ks w2) = length (ks w1) -> gens (k_at w2 me) = gens (k_at w1 me) ->
  gens (k_at (upd_th (upd_k w2 me (fun k =>
    set_start_ts (set_rcu_gen (set_run_start k t0) (u32 (rcu_gen k + n))) t1)) th f) me) =
  (u32 (rcu_gen (k_at w me) + n), u32 (rcu_gen (k_at w me) + n)).
Proof.
  intros Hme w1 w2 Hl Hg. change (k_at (upd_th ?u th f) me) with (k_at u me).
  assert (gens (k_at w1 me) = gens (k_at w me)) as Hw1.
  { unfold w1, unlock. rewrite gens_upd_k by done. by rewrite gens_update_oldest, gens_pop_next. }
  rewrite Hw1 in Hg. injection Hg as Hg _. unfold upd_k. rewrite k_at_set, decide_True by
    (done || (rewrite Hl; unfold w1, unlock, upd_k; rewrite length_set_k, length_update_oldest, length_pop_next; done)).
  unfold gens. simpl. by rewrite Hg.
Qed.
Lemma gens_schedule_entry w me self :
  (me < length (ks w))%nat ->
  gens (k_at (schedule_entry w me self) me) = (u32 (rcu_gen (k_at w me) + 1), u32 (rcu_gen (k_at w me) + 1)).
Proof.
  intros Hme. unfold Sched.schedule_entry.
  set (w1 := if PREEMPTED_RQ then _ else _). set (w2 := match self with Some t => _ | None => _ end).
  assert (gens (k_at w1 me) = gens (k_at w me) /\ length (ks w1) = length (ks w)) as [Hg Hl].
  { unfold w1. destruct PREEMPTED_RQ; [|done]. split; [by apply gens_upd_k|apply length_set_k]. }
  assert (ks w2 = ks w1) as E by (unfold w2; by destruct self).
  unfold upd_k. rewrite k_at_set, decide_True by (done || (rewrite E; lia)).
  unfold gens, k_at in *. rewrite E. simpl. by injection Hg as -> _.
Qed.

Lemma gens_schedule_done w me clk :
  (me < length (ks w))%nat ->
  gens (k_at (snd (schedule_done w me clk)) me) = (u32 (rcu_gen (k_at w me) + 1), u32 (rcu_gen (k_at w me) + 1)).
Proof.
  intros Hme. unfold Sched.schedule_done. destruct (pop_next _ w me) as [th w1] eqn:E.
  cbn [snd]. apply gens_picked; rewrite ?E; [done|apply length_set_k|].
  change (k_at (upd_th ?u th _) me) with (k_at u me). by apply gens_upd_k.
Qed.

Lemma gens_enter_schedule w me curth clk :
  (me < length (ks w))%nat ->
  let '(o, w') := enter_schedule w me curth clk in
  gens (k_at w' me) = match o with SlowPath => gens (k_at w me)
    | _ => (u32 (rcu_gen (k_at w me) + 2), u32 (rcu_gen (k_at w me) + 2)) end.
Proof.
  intros Hme. unfold Sched.enter_schedule. set (w0 := lock (upd_th w curth _) me).
  assert (gens (k_at w0 me) = gens (k_at w me)) as Hg by (by apply (gens_upd_k (upd_th w curth _))).
  assert (length (ks w0) = length (ks w)) as Hl by (unfold w0, lock, upd_k; by rewrite length_set_k).
  destruct (needs_slow_path _ _ _ _ _ _); [done|].
  pose proof (gens_picked w0 me) as Hp. destruct (pop_next _ w0 me) as [th w1].
  cbv zeta in Hp. cbn [snd] in Hp. injection Hg as Hg _. rewrite Hg in Hp.
  destruct (bool_decide (th = curth)).
  - apply Hp; [lia|done..].
  - change (k_at (upd_th ?u curth _) me) with (k_at u me).
    change (k_at (upd_th ?u th _) me) with (k_at u me). unfold count_run.
    rewrite !gens_upd_k by done. apply (Hp th id); [lia|done..].
Qed.

Lemma u32_diff_2 x : is_u32 x -> u32 (x + 2) <> x.
Proof.
  unfold is_u32. intros Hx. destruct (decide (x + 2 < 2 ^ 32)).
  - rewrite u32_small; unfold is_u32; lia.
  - unfold u32. rewrite <- (Z.mod_unique (x + 2) (2 ^ 32) 1 (x + 2 - 2 ^ 32)); lia.
Qed.

(** The generation number RCU reads is odd exactly while a thread runs, and
    its copy exported to the iokernel agrees: [schedule] makes it even, its
    dispatch makes it odd again, and a direct switch between threads keeps it
    odd and still changes it, so that every switch shows. *)
Theorem rcu_generations w me :
  (me < length (ks w))%nat -> is_u32 (rcu_gen (k_at w me)) ->
  (forall self, let '(g, q) := gens (k_at (schedule_entry w me self) me) in
     q = g /\ g mod 2 = 1 - rcu_gen (k_at w me) mod 2) /\
  (forall clk, let '(g, q) := gens (k_at (snd (schedule_done w me clk)) me) in
     q = g /\ g mod 2 = 1 - rcu_gen (k_at w me) mod 2) /\
  (forall curth clk, let '(o, w') := enter_schedule w me curth clk in
     match o with
     | SlowPath => gens (k_at w' me) = gens (k_at w me)
     | _ => let '(g, q) := gens (k_at w' me) in
            q = g /\ g mod 2 = rcu_gen (k_at w me) mod 2 /\ g <> rcu_gen (k_at w me)
     end).
Proof.
  intros Hme Hg.
  assert (forall x, u32 (x + 1) mod 2 = 1 - x mod 2) as Hflip.
  { intros x. rewrite u32_odd, Z.add_mod by lia. pose proof (Z.mod_pos_bound x 2).
    assert (x mod 2 = 0 \/ x mod 2 = 1) as [-> | ->] by lia; done. }
  split_and!.
  - intros self. rewrite gens_schedule_entry by done. auto.
  - intros clk. rewrite gens_schedule_done by done. auto.
  - intros curth clk. pose proof (gens_enter_schedule w me curth clk Hme) as He.
    destruct (enter_schedule w me curth clk) as [o w']. destruct o; [done|rewrite He..].
    all: split; [done|]; rewrite u32_odd, Z.add_mod, Z.mod_same, Z.add_0_r, Z.mod_mod by lia; split; [done|].
    all: intros E; by apply (u32_diff_2 _ Hg).
Qed.
End Spec.

(** ** Concrete runs *)

(** Two-queue build, no hyperthreads, no watchdog; thread [th] becomes ready at
    time [th]. *)
Definition demo_ready (me : nat) (w : world) (th : tid) : world :=
  default w (make_thread_ready true (fun c => c) w me th (fun _ => Z.of_nat th)).
Definition demo_preempt (me : nat) (w : world) (th : tid) : world :=
  default w (thread_preempt_ready (fun c => c) w me th).
Definition demo (n me : nat) (fresh old : list tid) : world :=
  foldl (demo_preempt me) (foldl (demo_ready me) (init_world n) fresh) old.

Lemma demo_inv n me fresh old :
  (me < n)%nat -> sched_inv (demo n me fresh old) /\ length (ks (demo n me fresh old)) = n.
Proof.
  intros Hn. unfold demo.
  assert (forall l w, sched_inv w /\ length (ks w) = n ->
    sched_inv (foldl (demo_ready me) w l) /\ length (ks (foldl (demo_ready me) w l)) = n) as H1.
  { induction l as [|t l IH]; intros w [Hi Hl]; simpl; [done|]. apply IH. unfold demo_ready.
    destruct (make_thread_ready _ _ _ _ _ _) as [w'|] eqn:E; simpl; [|done].
    apply make_thread_ready_inv in E as []; [split; [done|congruence]|done|lia]. }
  assert (forall l w, sched_inv w /\ length (ks w) = n ->
    sched_inv (foldl (demo_preempt me) w l) /\ length (ks (foldl (demo_preempt me) w l)) = n) as H2.
  { induction l as [|t l IH]; intros w [Hi Hl]; simpl; [done|]. apply IH. unfold demo_preempt.
    destruct (thread_preempt_ready _ _ _ _) as [w'|] eqn:E; simpl; [|done].
    apply thread_preempt_ready_inv in E as []; [split; [done|congruence]|done|lia]. }
  apply H2, H1. split; [apply init_world_inv|apply length_replicate].
Qed.

(** Two kthreads: a message comes in for kthread 1, kthread 0 runs its softirq for it and
    dispatches the softirq thread, which finishes; then another message comes in. *)
Definition demo_message : softirqs -> softirqs := set_sources (ChanIn 0 1) (Shm [LrpcMsg LRPC_DONE_PARITY 7] 0) 0 0.
Definition demo_step (f : world -> option (bool * world)) (w : world) : world := match f w with Some (_, w) => w | None => w end.
Definition demo_boot : world := boot_world [(100, 101); (102, 103)]%nat.
Definition demo_arrived : world := upd_soft demo_boot 1 demo_message.
Definition demo_stolen : world := demo_step (fun w => steal_work true (fun c => c) 1000 0 w 0 1 (fun _ => 9)) demo_arrived.
Definition demo_served : world := (schedule_done true (fun c => c) demo_stolen 0 (fun _ => 9)).2.
Definition demo_again : world := upd_soft (upd_soft demo_served 1 clear_iokernel_busy) 1 demo_message.
Lemma sched_reachable_witness :
  all_queued demo_stolen = [102%nat] /\ all_queued demo_again = [] /\ NoDup (all_queued demo_again) /\
  is_Some (schedule_again true (fun c => c) 1000 0 demo_again 0 [1%nat] (fun _ => 9)).
Proof.
  split; [vm_compute; reflexivity|]. split; [vm_compute; reflexivity|].
  destruct (sched_reachable true (fun c => c) 1000 0 true [(100, 101); (102, 103)]%nat demo_again) as (HN & _ & _ & H).
  - by apply (bool_decide_unpack _).
  - apply (rtc_l _ _ demo_arrived); [apply step_traffic; vm_compute; lia|].
    apply (rtc_l _ _ demo_stolen); [apply (step_steal _ _ _ _ _ _ _ 0 1 (fun _ => 9) true); [done|vm_compute; lia|vm_compute; lia|vm_compute; reflexivity|vm_compute; reflexivity]|].
    apply (rtc_l _ _ demo_served); [apply (step_schedule_done _ _ _ _ _ _ _ 0 (fun _ => 9) 102%nat); [vm_compute; lia|vm_compute; reflexivity|vm_compute; reflexivity]|].
    apply (rtc_l _ _ (upd_soft demo_served 1 clear_iokernel_busy)); [apply step_iokernel_done; [vm_compute; lia|vm_compute; reflexivity]|].
    apply rtc_once, step_traffic. vm_compute. lia.
  - split; [exact HN|]. destruct (H 0%nat (fun _ => 9)) as (_ & _ & H1 & _); [vm_compute; lia|]. apply H1. repeat constructor.
Defined.

Lemma steal_work_takes_half_witness :
  let w := demo 2 1 [1; 2; 3]%nat [] in
  exists w', steal_work true (fun c => c) 1000 0 w 0 1 (fun _ => 9) = Some (true, w') /\ sched_inv w'.
Proof.
  destruct (demo_inv 2 1 [1; 2; 3]%nat []) as [Hi Hl]; [lia|].
  destruct (steal_work_takes_half true (fun c => c) 1000 0 (demo 2 1 [1; 2; 3]%nat []) 0 1 (fun _ => 9))
    as (w' & n & E & _ & _ & _ & _ & _ & _ & _ & Hi').
  1: exact Hi.
  1: vm_compute; reflexivity.
  1: lia.
  1-2: rewrite Hl; lia.
  1-2: vm_compute; reflexivity.
  1: vm_compute; lia.
  exists w'. split; [exact E|exact Hi'].
Defined.

Lemma schedule_dispatches_witness :
  let w := demo 2 0 [1; 2]%nat [3]%nat in
  let run := schedule_local true (fun c => c) 1000 0 true w 0 (fun _ => 9) in
  let w1 := default (true, w) run in
  let '(th, w2) := schedule_done true (fun c => c) (snd w1) 0 (fun _ => 9) in
  th = 1%nat /\ thread_ready (th_at w2 th) = false /\ th ∉ all_queued w2.
Proof.
  destruct (demo_inv 2 0 [1; 2]%nat [3]%nat) as [Hi _]; [lia|].
  intros w run w1. destruct (schedule_done _ _ _ _ _) as [th w2] eqn:E.
  destruct (schedule_dispatches true (fun c => c) 1000 0 true w 0 (snd w1) (fun _ => 9) th w2)
    as (_ & Hp & H1 & _ & H2 & _).
  - exact Hi.
  - vm_compute. lia.
  - left. exists (fun _ => 9). vm_compute. reflexivity.
  - exact E.
  - split; [|split; [exact H1|exact H2]]. vm_compute in E. injection E as <- _. reflexivity.
Defined.

Lemma schedule_work_conserving_witness :
  let w := demo 2 0 [] [] in
  let w1 := snd (default (true, w) (schedule_local true (fun c => c) 1000 0 true w 0 (fun _ => 9))) in
  nothing_to_steal true w1 1.
Proof.
  destruct (demo_inv 2 0 [] []) as [Hi _]; [lia|]. intros w w1.
  set (w2 := snd (default (true, w) (schedule_again true (fun c => c) 1000 0 w1 0 (victims 0 None 5 2) (fun _ => 9)))).
  destruct (schedule_work_conserving true (fun c => c) 1000 0 true w 0 (fun _ => 9) w1 None 5 (fun _ => 9) w2)
    as (_ & _ & H).
  - exact Hi.
  - vm_compute. reflexivity.
  - vm_compute. lia.
  - intros v Hv. discriminate Hv.
  - lia.
  - vm_compute. intros H; discriminate H.
  - vm_compute. reflexivity.
  - vm_compute. reflexivity.
  - apply H; [vm_compute|]; lia.
Defined.

Lemma thread_yield_not_lost_witness :
  let w := demo 2 0 [1]%nat [] in
  exists w', thread_yield true (fun c => c) 1000 0 true w 0 5 (fun _ => 9) = Some (SwitchTo 1%nat, w') /\
    5%nat ∈ all_queued w'.
Proof.
  destruct (demo_inv 2 0 [1]%nat []) as [Hi _]; [lia|]. intros w.
  destruct (thread_yield true (fun c => c) 1000 0 true w 0 5 (fun _ => 9)) as [[o w']|] eqn:E.
  2: { vm_compute in E. discriminate E. }
  assert (o = SwitchTo 1%nat) as -> by (vm_compute in E; injection E as <- _; reflexivity).
  destruct (thread_yield_not_lost true (fun c => c) 1000 0 true w 0 5 (fun _ => 9) (SwitchTo 1%nat) w')
    as (_ & _ & H & _).
  - exact Hi.
  - vm_compute. lia.
  - vm_compute. reflexivity.
  - vm_compute. intros H; discriminate H.
  - vm_compute. intros H; discriminate H.
  - exact E.
  - exists w'. split; [reflexivity|exact H].
Defined.

Lemma rcu_generations_witness :
  rcu_gen (k_at (snd (schedule_done true (fun c => c) (demo 2 0 [1]%nat []) 0 (fun _ => 9))) 0) mod 2 = 1.
Proof.
  destruct (rcu_generations true (fun c => c) 1000 true (demo 2 0 [1]%nat []) 0) as (_ & H & _).
  - vm_compute. lia.
  - vm_compute. split; [intros H; discriminate H|reflexivity].
  - exact (proj2 (H (fun _ => 9))).
Defined.

(** ** Corner cases *)

(** When the random start index is close to [UINT_MAX] the index wraps inside
    the loop of [schedule] that tries every kthread, and with a number of
    kthreads that is not a power of two one of them is not tried. *)
Theorem victims_wrap_misses : victims 0 None UINT32_MAX 3 = [1%nat].
Proof. vm_compute. reflexivity. Qed.

(** A theft can empty the ring of a kthread with 64 runnable threads or more
    while threads remain on its overflow list; the fast path of
    [enter_schedule] then runs a preempted thread although 32 threads that were
    never preempted wait on the same kthread. *)
Theorem fast_path_overtakes_overflow :
  match steal_work true (fun c => c) 1000 0 (demo 2 1 (seq 1 64) [99]%nat) 0 1 (fun _ => 100) with
  | Some (stolen, w1) =>
      stolen = true /\ length (abs (k_rq (k_at w1 1))) = 32%nat /\
      fst (enter_schedule true (fun c => c) 1000 true w1 1 77 (fun _ => 100)) = SwitchTo 99%nat
  | None => False
  end.
Proof. vm_compute. split; [|split]; reflexivity. Qed.
