(* ===== verification/Uintr.v ===== *)
(** * uintr: the preemption timer

    Models the loop of [uintr_timer] in [runtime/uintr.c]: a dedicated core
    visits every kthread, and interrupts it when its user thread has used up
    its time slice and, with [SMART_PREEMPT], when another thread waits for the
    core.  What the timer reads of a kthread ([uthread_start_ts],
    [is_preempted], the exported queue counters) is the state of Sched. *)

From S2P Require Import Prelude StdDef Ring RunQueue Lrpc Sched SchedProofs.

(** The timer's own variables for one kthread. *)
Record tslot := TSlot { last_check : Z; last_preempt : Z; uintr_sent : Z }.

Section Timer.
(** Build options, and [pending_cqe], which is [true] unless [DIRECTPATH]. *)
Context (PREEMPTED_RQ SMART_PREEMPT : bool) (pending_cqe : nat -> bool).
(** The quantum and the hard quantum, in cycles. *)
Context (TIMESLICE HARD_TIMESLICE : Z).

Definition pending_uthreads (k : kthread) : bool := negb (qp_tail (k_rq k) =? qp_head (k_rq k)).
Definition has_new_tasks (i : nat) (k : kthread) : bool := pending_uthreads k || pending_cqe i.
Definition has_old_tasks (k : kthread) : bool := negb (qp_tail (k_prq k) =? qp_head (k_prq k)).

(** The condition of [SMART_PREEMPT]. *)
Definition should_preempt (i : nat) (k : kthread) (s : tslot) (current : Z) : bool :=
  if PREEMPTED_RQ then
    let task_type := is_preempted k in
    ((task_type =? 0) && (has_new_tasks i k || has_old_tasks k)) ||
    ((task_type =? 1) &&
     (has_new_tasks i k || ((current - last_preempt s >? HARD_TIMESLICE) && has_old_tasks k)))
  else pending_uthreads k || pending_cqe i.

(** One iteration of the loop over the kthreads: [current0] is the value of
    [current] before it, [current] the clock read in it.  The flag says
    whether an interrupt is sent. *)
Definition visit (timer_flag : Z) (i : nat) (k : kthread) (current0 current : Z) (s : tslot)
    : bool * tslot :=
  if timer_flag =? 0 then
    (false, TSlot current0 (if PREEMPTED_RQ then current0 else last_preempt s) (uintr_sent s))
  else
    let start_ts := uthread_start_ts k in
    let s :=
      if last_check s <? start_ts
      then TSlot start_ts (if PREEMPTED_RQ then start_ts else last_preempt s) (uintr_sent s)
      else s in
    if current - last_check s <? TIMESLICE then (false, s)
    else
      let s := TSlot current (last_preempt s) (uintr_sent s) in
      if negb SMART_PREEMPT || should_preempt i k s current then
        (true, TSlot (last_check s)
                 (if SMART_PREEMPT && PREEMPTED_RQ then current else last_preempt s)
                 (uintr_sent s + 1))
      else (false, s).

(** A sequence of visits to kthread [i] while the timer runs: the interrupts
    sent, each with the start time of the thread it interrupts. *)
Fixpoint visits (i : nat) (vs : list (kthread * Z * Z)) (s : tslot) : list (Z * Z) * tslot :=
  match vs with
  | [] => ([], s)
  | (k, c0, c) :: vs =>
      let '(sent, s) := visit 1 i k c0 c s in
      let '(ts, s) := visits i vs s in
      (if sent then (c, uthread_start_ts k) :: ts else ts, s)
  end.

(** ** Theorems *)

Lemma visit_quantum i k c0 c s :
  0 <= TIMESLICE ->
  let '(sent, s') := visit 1 i k c0 c s in
  last_check s <= last_check s' /\
  (sent = true -> last_check s + TIMESLICE <= c /\ uthread_start_ts k + TIMESLICE <= c /\ last_check s' = c).
Proof.
  intros HT. unfold visit. simpl.
  destruct (Z.ltb_spec (last_check s) (uthread_start_ts k)); simpl.
  - destruct (Z.ltb_spec (c - uthread_start_ts k) TIMESLICE); [simpl; split; [lia|done]|].
    destruct (_ || _); simpl; (split; [lia|]); [lia|done].
  - destruct (Z.ltb_spec (c - last_check s) TIMESLICE); [simpl; split; [lia|done]|].
    destruct (_ || _); simpl; (split; [lia|]); [lia|done].
Qed.

Lemma visits_quantum i vs : forall s,
  0 <= TIMESLICE ->
  let ts := fst (visits i vs s) in
  StronglySorted (fun a b => fst a + TIMESLICE <= fst b) ts /\
  Forall (fun x => last_check s + TIMESLICE <= fst x /\ snd x + TIMESLICE <= fst x) ts.
Proof.
  induction vs as [|[[k c0] c] vs IH]; intros s HT; simpl; [split; constructor|].
  pose proof (visit_quantum i k c0 c s HT) as Hv. destruct (visit 1 i k c0 c s) as [sent s1].
  specialize (IH s1 HT). simpl in IH. destruct (visits i vs s1) as [ts s2]. simpl in *.
  destruct IH as [Hs Hf], Hv as [Hm Hsent].
  assert (Forall (fun x => last_check s + TIMESLICE <= fst x /\ snd x + TIMESLICE <= fst x) ts) as Hf'.
  { eapply Forall_impl; [exact Hf|]. simpl. intros x. lia. }
  destruct sent; simpl; [|done]. destruct (Hsent eq_refl) as (H1 & H2 & H3).
  split; constructor; auto. eapply Forall_impl; [exact Hf|]. simpl. intros x. lia.
Qed.

(** The timer respects the quantum: while it runs, the interrupts it sends
    to a kthread are at least a time slice apart, and a thread is only
    interrupted once it has run for a time slice. *)
Theorem uintr_respects_quantum i vs s :
  0 <= TIMESLICE ->
  let ts := fst (visits i vs s) in
  StronglySorted (fun a b => fst a + TIMESLICE <= fst b) ts /\
  Forall (fun x => snd x + TIMESLICE <= fst x) ts.
Proof.
  intros HT ts. destruct (visits_quantum i vs s HT) as [Hs Hf]. split; [done|].
  eapply Forall_impl; [exact Hf|]. simpl. intros x. lia.
Qed.

(** When the thread's slice runs out, and since when its kthread was last
    preempted, as the visit sees them. *)
Definition expired (k : kthread) (s : tslot) (c : Z) : bool :=
  Z.max (last_check s) (uthread_start_ts k) + TIMESLICE <=? c.
Definition since (k : kthread) (s : tslot) : Z :=
  if last_check s <? uthread_start_ts k then uthread_start_ts k else last_preempt s.

Lemma visit_sends i k c0 c s :
  SMART_PREEMPT = true -> PREEMPTED_RQ = true ->
  fst (visit 1 i k c0 c s) = expired k s c && should_preempt i k (TSlot c (since k s) (uintr_sent s)) c.
Proof.
  intros HS HP. unfold visit, expired, since. rewrite HS, HP. simpl.
  destruct (Z.ltb_spec (last_check s) (uthread_start_ts k)); simpl.
  - rewrite Z.max_r by lia. destruct (Z.ltb_spec (c - uthread_start_ts k) TIMESLICE).
    + destruct (Z.leb_spec (uthread_start_ts k + TIMESLICE) c); [lia|done].
    + destruct (Z.leb_spec (uthread_start_ts k + TIMESLICE) c); [|lia]. simpl. by destruct (should_preempt _ _ _ _).
  - rewrite Z.max_l by lia. destruct (Z.ltb_spec (c - last_check s) TIMESLICE).
    + destruct (Z.leb_spec (last_check s + TIMESLICE) c); [lia|done].
    + destruct (Z.leb_spec (last_check s + TIMESLICE) c); [|lia]. simpl. by destruct (should_preempt _ _ _ _).
Qed.

(** The exported counters differ exactly when the queue holds a thread. *)
Lemma counters_differ q :
  wf q -> is_u32 (qp_head q) -> is_u32 (qp_tail q) -> Z.of_nat (length (abs q)) < UINT32_MAX ->
  negb (qp_tail q =? qp_head q) = negb (bool_decide (abs q = [])).
Proof.
  intros [_ He] Hh Ht Hl. unfold exported_len in He. rewrite (u32_small (Z.of_nat _)) in He
    by (unfold is_u32, UINT32_MAX in *; lia).
  f_equal. destruct (Z.eqb_spec (qp_tail q) (qp_head q)) as [E|E].
  - rewrite E, Z.sub_diag, u32_small in He by (unfold is_u32; lia).
    destruct (abs q); [by rewrite bool_decide_true|simpl in He; lia].
  - rewrite bool_decide_false; [done|]. intros Ha. rewrite Ha in He. simpl in He. apply E.
    unfold is_u32 in *. revert He. unfold u32. intros He.
    apply Z.mod_divide in He as [z Hz]; [|lia]. assert (z = 0) by lia. lia.
Qed.
(** The two-queue policy of [SMART_PREEMPT] with [PREEMPTED_RQ] is exact: on
    a kthread of a well-formed scheduler state with no packet pending, the
    timer interrupts iff the time slice is used up and either a thread that
    was never preempted runs and any other thread waits, or a preempted
    thread runs and a fresh one waits, or another preempted thread waits and
    the hard quantum has passed too. *)
Theorem smart_preempt_exact w i c0 c s :
  SMART_PREEMPT = true -> PREEMPTED_RQ = true -> pending_cqe i = false ->
  sched_inv w -> few_queued w -> (i < length (ks w))%nat ->
  is_u32 (qp_head (k_rq (k_at w i))) -> is_u32 (qp_tail (k_rq (k_at w i))) ->
  is_u32 (qp_head (k_prq (k_at w i))) -> is_u32 (qp_tail (k_prq (k_at w i))) ->
  let k := k_at w i in
  fst (visit 1 i k c0 c s) = true <->
  expired k s c = true /\
  (is_preempted k = 0 /\ (abs (k_rq k) <> [] \/ abs (k_prq k) <> []) \/
   is_preempted k = 1 /\
     (abs (k_rq k) <> [] \/ (HARD_TIMESLICE < c - since k s /\ abs (k_prq k) <> []))).
Proof.
  intros HS HP Hcqe Hinv Hfew Hi H1 H2 H3 H4 k. rewrite visit_sends by done.
  destruct (si_wf w Hinv i Hi) as [Hq Hpq], (queue_length w i Hi Hfew) as [Lq Lp].
  unfold should_preempt. rewrite HP. unfold has_new_tasks, pending_uthreads, has_old_tasks.
  fold k in Hq, Hpq, Lq, Lp, H1, H2, H3, H4. rewrite !counters_differ, Hcqe, orb_false_r by done. simpl.
  rewrite andb_true_iff, orb_true_iff, !andb_true_iff, !orb_true_iff, andb_true_iff, !negb_true_iff,
    !bool_decide_eq_false, !Z.eqb_eq, Z.gtb_ltb, Z.ltb_lt. done.
Qed.

(** Without [DIRECTPATH], where [pending_cqe] always answers true, the smart
    policy never skips an interrupt: every running thread whose slice is used
    up is interrupted, even when no other thread waits. *)
Theorem smart_preempt_never_skips i k c0 c s :
  SMART_PREEMPT = true -> PREEMPTED_RQ = true -> pending_cqe i = true ->
  is_preempted k = 0 \/ is_preempted k = 1 ->
  fst (visit 1 i k c0 c s) = expired k s c.
Proof.
  intros HS HP Hcqe Ht. rewrite visit_sends by done. unfold should_preempt, has_new_tasks.
  rewrite HP, Hcqe, !orb_true_r. destruct Ht as [-> | ->]; simpl; by rewrite ?orb_true_r, andb_true_r.
Qed.
End Timer.

(** ** Concrete visits *)

Lemma uintr_respects_quantum_witness :
  let k := k_at (World ∅ [inhabitant]) 0 in
  fst (visits true false (fun _ => false) 10 100 0
         [(k, 0, 5); (k, 5, 12); (k, 12, 20); (k, 20, 25)] (TSlot 0 0 0)) = [(12, 0); (25, 0)] /\
  StronglySorted (fun a b => fst a + 10 <= fst b) [(12, 0); (25, 0)].
Proof.
  split; [vm_compute; reflexivity|].
  exact (proj1 (uintr_respects_quantum true false (fun _ => false) 10 100 0
    [(inhabitant, 0, 5); (inhabitant, 5, 12); (inhabitant, 12, 20); (inhabitant, 20, 25)] (TSlot 0 0 0)
    ltac:(lia))).
Defined.

(** Kthread 0 runs a fresh thread while thread 2 waits. *)
Definition busy_world : world :=
  World (<[2%nat := Thread true false 0 0 0 false]> ∅)
    [set_is_preempted (set_rq inhabitant (enqueue_tail (empty_runq 0) 2)) 0].

Lemma busy_world_inv : sched_inv busy_world.
Proof.
  assert (all_queued busy_world = [2%nat]) as Ha by (vm_compute; reflexivity).
  split.
  - intros i Hi. assert (i = 0%nat) as -> by (vm_compute in Hi; lia). split.
    + apply enqueue_tail_spec, empty_runq_wf. unfold is_u32. lia.
    + by apply empty_runq_wf.
  - rewrite Ha. apply NoDup_singleton.
  - intros t. rewrite Ha, list_elem_of_singleton. unfold th_at, busy_world. simpl.
    destruct (decide (t = 2%nat)) as [->|]; [by rewrite lookup_total_insert_eq|].
    rewrite lookup_total_insert_ne, lookup_total_empty by done. done.
Qed.

Lemma smart_preempt_exact_witness :
  fst (visit true true (fun _ => false) 10 100 1 0 (k_at busy_world 0) 0 15 (TSlot 0 0 0)) = true.
Proof.
  apply (smart_preempt_exact true true (fun _ => false) 10 100 busy_world 0 0 15 (TSlot 0 0 0));
    try reflexivity; try (vm_compute; split; [discriminate|reflexivity]); try exact busy_world_inv.
  - vm_compute. lia.
  - split; [reflexivity|]. left. split; [reflexivity|]. left. vm_compute. discriminate.
Defined.
