(* ===== verification/Bitmap.v ===== *)
(** * bitmap: arrays of bits

    Models [inc/base/bitmap.h] and the search of [base/bitmap.c]: a bitmap is an
    array of 64-bit words.  The specification is the set of positions whose bit
    is set.  The atomic operations differ from the plain ones only in being one
    indivisible access to the word. *)

From S2P Require Import Prelude StdDef.

Definition BITS_PER_LONG : Z := 64.
Definition BITMAP_LONG_SIZE (nbits : Z) : Z := div_up nbits BITS_PER_LONG.
Definition BITMAP_POS_IDX (pos : Z) : nat := Z.to_nat (pos / BITS_PER_LONG).
Definition BITMAP_POS_SHIFT (pos : Z) : Z := pos mod BITS_PER_LONG.

Abbreviation bitmap := (list Z).

(** [1ul << BITMAP_POS_SHIFT(pos)] *)
Definition pos_bit (pos : Z) : Z := Z.shiftl 1 (BITMAP_POS_SHIFT pos).

(** ** Single bits *)

Definition bitmap_set (bits : bitmap) (pos : Z) : bitmap :=
  <[BITMAP_POS_IDX pos := Z.lor (bits !!! BITMAP_POS_IDX pos) (pos_bit pos)]> bits.

Definition bitmap_clear (bits : bitmap) (pos : Z) : bitmap :=
  <[BITMAP_POS_IDX pos := Z.land (bits !!! BITMAP_POS_IDX pos) (u64 (Z.lnot (pos_bit pos)))]> bits.

Definition bitmap_test (bits : bitmap) (pos : Z) : bool :=
  negb (Z.land (bits !!! BITMAP_POS_IDX pos) (pos_bit pos) =? 0).

Definition bitmap_atomic_test_and_set (bits : bitmap) (pos : Z) : bool * bitmap :=
  let word := bits !!! BITMAP_POS_IDX pos in
  (negb (Z.land word (pos_bit pos) =? 0), <[BITMAP_POS_IDX pos := Z.lor word (pos_bit pos)]> bits).

(** ** Whole bitmaps *)

(** [for (i = 0; i < BITMAP_LONG_SIZE(nbits); i++) dst[i] = op(src1[i], src2[i])] *)
Fixpoint map_words (op : Z -> Z -> Z) (n : nat) (i : nat) (dst src1 src2 : bitmap) : bitmap :=
  match n with
  | O => dst
  | S n => map_words op n (S i) (<[i := op (src1 !!! i) (src2 !!! i)]> dst) src1 src2
  end.

Definition longs (nbits : Z) : nat := Z.to_nat (BITMAP_LONG_SIZE nbits).

Definition bitmap_and (dst src1 src2 : bitmap) (nbits : Z) : bitmap :=
  map_words Z.land (longs nbits) 0 dst src1 src2.
Definition bitmap_or (dst src1 src2 : bitmap) (nbits : Z) : bitmap :=
  map_words Z.lor (longs nbits) 0 dst src1 src2.
Definition bitmap_xor (dst src1 src2 : bitmap) (nbits : Z) : bitmap :=
  map_words Z.lxor (longs nbits) 0 dst src1 src2.

(** [atomic64_fetch_and_or(&dst[i], src[i])] for each word. *)
Fixpoint or_words (n : nat) (i : nat) (dst src : bitmap) : bitmap :=
  match n with
  | O => dst
  | S n => or_words n (S i) (<[i := Z.lor (dst !!! i) (src !!! i)]> dst) src
  end.
Definition bitmap_atomic_or (dst src : bitmap) (nbits : Z) : bitmap := or_words (longs nbits) 0 dst src.

(** [memset(bits, state ? 0xff : 0, BITMAP_LONG_SIZE(nbits) * sizeof(long))] *)
Definition bitmap_init (bits : bitmap) (nbits : Z) (state : bool) : bitmap :=
  replicate (longs nbits) (if state then UINT64_MAX else 0) ++ drop (longs nbits) bits.

(** [__builtin_popcountl] *)
Fixpoint popcount_from (n : nat) (i : Z) (v : Z) : Z :=
  match n with
  | O => 0
  | S n => Z.b2z (Z.testbit v i) + popcount_from n (i + 1) v
  end.
Definition popcountl (v : Z) : Z := popcount_from 64 0 v.

Definition bitmap_popcount (bits : bitmap) (nbits : Z) : Z :=
  foldl (fun val w => val + popcountl w) 0 (take (longs nbits) bits).

(** ** Search *)

(** [__builtin_ffsl]: one plus the index of the least significant set bit, or 0. *)
Fixpoint ffsl_from (n : nat) (i : Z) (v : Z) : Z :=
  match n with
  | O => 0
  | S n => if Z.testbit v i then i + 1 else ffsl_from n (i + 1) v
  end.
Definition ffsl (v : Z) : Z := ffsl_from 64 0 v.

(** The loop of [bitmap_find_next]; every iteration advances [idx] by a word. *)
Fixpoint find_loop (fuel : nat) (bits : bitmap) (nbits idx mask : Z) (invert : bool) : Z :=
  match fuel with
  | O => nbits
  | S fuel =>
      if idx <? nbits then
        let val := bits !!! BITMAP_POS_IDX idx in
        let val := if invert then u64 (Z.lnot val) else val in
        let val := Z.land val mask in
        if negb (val =? 0) then MIN (idx + ffsl val - 1) nbits
        else find_loop fuel bits nbits (s32 (idx + BITS_PER_LONG)) UINT64_MAX invert
      else nbits
  end.

Definition bitmap_find_next (bits : bitmap) (nbits pos : Z) (invert : bool) : Z :=
  let mask := u64 (Z.lnot (u64 (pos_bit pos - 1))) in
  find_loop (longs nbits) bits nbits (Z.land pos (Z.lnot (BITS_PER_LONG - 1))) mask invert.

Definition bitmap_find_next_set (bits : bitmap) (nbits pos : Z) : Z :=
  bitmap_find_next bits nbits pos false.
Definition bitmap_find_next_cleared (bits : bitmap) (nbits pos : Z) : Z :=
  bitmap_find_next bits nbits pos true.

(** [bitmap_for_each_set] and [bitmap_for_each_cleared]: the positions their
    loops visit, starting after [pos].  The position grows at every iteration,
    so [nbits] of them are enough. *)
Fixpoint for_each_from (fuel : nat) (bits : bitmap) (nbits pos : Z) (invert : bool) : list Z :=
  match fuel with
  | O => []
  | S fuel =>
      let pos := bitmap_find_next bits nbits (pos + 1) invert in
      if pos <? nbits then pos :: for_each_from fuel bits nbits pos invert else []
  end.
Definition bitmap_for_each_set (bits : bitmap) (nbits : Z) : list Z :=
  for_each_from (Z.to_nat nbits) bits nbits (-1) false.
Definition bitmap_for_each_cleared (bits : bitmap) (nbits : Z) : list Z :=
  for_each_from (Z.to_nat nbits) bits nbits (-1) true.

(** ** The set a bitmap stands for *)

(** An array with room for [nbits] bits. *)
Record bitmap_wf (bits : bitmap) (nbits : Z) : Prop := {
  bw_len : nbits <= 64 * Z.of_nat (length bits);
  bw_word : Forall is_u64 bits
}.

Definition bit (bits : bitmap) (i : Z) : bool :=
  Z.testbit (bits !!! BITMAP_POS_IDX i) (BITMAP_POS_SHIFT i).

(** *** Words *)

Lemma u64_testbit x k : 0 <= k < 64 -> Z.testbit (u64 x) k = Z.testbit x k.
Proof. intros. unfold u64. apply Z.mod_pow2_bits_low. lia. Qed.

Lemma u64_high x k : is_u64 x -> 64 <= k -> Z.testbit x k = false.
Proof.
  intros [H1 H2] Hk. destruct (Z.eqb_spec x 0) as [->|]; [apply Z.bits_0|].
  apply Z.bits_above_log2; [done|]. assert (Z.log2 x < 64); [|lia]. apply Z.log2_lt_pow2; lia.
Qed.

(** A word is determined by being below [2^64]: bitwise operations stay there. *)
Lemma is_u64_bits x : 0 <= x -> (forall k, 64 <= k -> Z.testbit x k = false) -> is_u64 x.
Proof.
  intros H0 H. split; [done|]. destruct (Z.eqb_spec x 0) as [->|]; [lia|].
  apply Z.log2_lt_pow2; [lia|]. destruct (Z.lt_ge_cases (Z.log2 x) 64) as [|Hg]; [done|].
  pose proof (H _ Hg) as Hb. rewrite Z.bit_log2 in Hb by lia. done.
Qed.

Lemma is_u64_op (op : Z -> Z -> Z) f :
  f false false = false ->
  (forall a b k, Z.testbit (op a b) k = f (Z.testbit a k) (Z.testbit b k)) ->
  (forall a b, 0 <= a -> 0 <= b -> 0 <= op a b) ->
  forall a b, is_u64 a -> is_u64 b -> is_u64 (op a b).
Proof.
  intros Hf Hs Hn a b Ha Hb. apply is_u64_bits; [apply Hn; [apply Ha|apply Hb]|].
  intros k Hk. by rewrite Hs, !u64_high by done.
Qed.

Lemma is_u64_lor a b : is_u64 a -> is_u64 b -> is_u64 (Z.lor a b).
Proof. apply (is_u64_op Z.lor orb); [done|apply Z.lor_spec|intros; by apply Z.lor_nonneg]. Qed.
Lemma is_u64_land a b : is_u64 a -> is_u64 b -> is_u64 (Z.land a b).
Proof. apply (is_u64_op Z.land andb); [done|apply Z.land_spec|intros; apply Z.land_nonneg; auto]. Qed.
Lemma is_u64_lxor a b : is_u64 a -> is_u64 b -> is_u64 (Z.lxor a b).
Proof. apply (is_u64_op Z.lxor xorb); [done|apply Z.lxor_spec|intros; by apply Z.lxor_nonneg]. Qed.

Lemma shift_range pos : 0 <= BITMAP_POS_SHIFT pos < 64.
Proof. unfold BITMAP_POS_SHIFT, BITS_PER_LONG. apply Z.mod_pos_bound. lia. Qed.

Lemma pos_bit_pow pos : pos_bit pos = 2 ^ BITMAP_POS_SHIFT pos.
Proof. unfold pos_bit. rewrite Z.shiftl_mul_pow2 by apply shift_range. lia. Qed.

Lemma is_u64_pos_bit pos : is_u64 (pos_bit pos).
Proof.
  rewrite pos_bit_pow. pose proof (shift_range pos). split; [lia|]. apply Z.pow_lt_mono_r; lia.
Qed.
#[export] Hint Resolve u64_range is_u64_lor is_u64_land is_u64_lxor is_u64_pos_bit : aspen.

Lemma pos_bit_testbit pos k :
  0 <= k -> Z.testbit (pos_bit pos) k = bool_decide (k = BITMAP_POS_SHIFT pos).
Proof.
  intros Hk. rewrite pos_bit_pow. pose proof (shift_range pos). case_bool_decide as E.
  - subst k. apply Z.pow2_bits_true. lia.
  - apply Z.pow2_bits_false. lia.
Qed.

(** Two positions are equal when they have the same word and shift. *)
Lemma pos_inj i j :
  0 <= i -> 0 <= j -> BITMAP_POS_IDX i = BITMAP_POS_IDX j -> BITMAP_POS_SHIFT i = BITMAP_POS_SHIFT j -> i = j.
Proof.
  unfold BITMAP_POS_IDX, BITMAP_POS_SHIFT, BITS_PER_LONG. intros Hi Hj E1 E2.
  rewrite (Z.div_mod i 64), (Z.div_mod j 64) by lia. rewrite E2.
  assert (0 <= i / 64) by (apply Z.div_pos; lia). assert (0 <= j / 64) by (apply Z.div_pos; lia). lia.
Qed.

Lemma idx_lt bits nbits i : bitmap_wf bits nbits -> 0 <= i < nbits -> (BITMAP_POS_IDX i < length bits)%nat.
Proof.
  intros [H _] Hi. unfold BITMAP_POS_IDX, BITS_PER_LONG.
  assert (i / 64 < Z.of_nat (length bits)) by (apply Z.div_lt_upper_bound; lia).
  assert (0 <= i / 64) by (apply Z.div_pos; lia). lia.
Qed.

Lemma bit_word bits nbits i : bitmap_wf bits nbits -> 0 <= i < nbits -> is_u64 (bits !!! BITMAP_POS_IDX i).
Proof.
  intros H Hi. destruct (lookup_lt_is_Some_2 bits (BITMAP_POS_IDX i)) as [w Hw]; [by eapply idx_lt|].
  rewrite (list_lookup_total_correct _ _ _ Hw). by eapply Forall_lookup_1; [apply H|].
Qed.

(** Storing a word changes the bits of its positions only. *)
Lemma bit_insert bits nbits w pos i :
  bitmap_wf bits nbits -> 0 <= pos < nbits ->
  bit (<[BITMAP_POS_IDX pos := w]> bits) i =
  if decide (BITMAP_POS_IDX pos = BITMAP_POS_IDX i) then Z.testbit w (BITMAP_POS_SHIFT i) else bit bits i.
Proof.
  intros H Hp. unfold bit. case_decide as E.
  - rewrite <- E. rewrite list_lookup_total_insert_eq by (by eapply idx_lt). done.
  - by rewrite list_lookup_total_insert_ne.
Qed.

Lemma wf_insert bits nbits n w : bitmap_wf bits nbits -> is_u64 w -> bitmap_wf (<[n := w]> bits) nbits.
Proof.
  intros [H1 H2] Hw. split; [by rewrite length_insert|]. by apply Forall_insert.
Qed.

Section SingleBits.
Context (bits : bitmap) (nbits pos : Z) (Hwf : bitmap_wf bits nbits) (Hpos : 0 <= pos < nbits).

Lemma bitmap_set_wf : bitmap_wf (bitmap_set bits pos) nbits.
Proof. apply wf_insert; [done|]. pose proof (bit_word _ _ _ Hwf Hpos). auto with aspen. Qed.

Lemma bitmap_clear_wf : bitmap_wf (bitmap_clear bits pos) nbits.
Proof. apply wf_insert; [done|]. pose proof (bit_word _ _ _ Hwf Hpos). auto with aspen. Qed.

Lemma bitmap_set_bit i : 0 <= i -> bit (bitmap_set bits pos) i = bool_decide (i = pos) || bit bits i.
Proof.
  intros Hi. unfold bitmap_set. rewrite (bit_insert _ nbits) by done. pose proof (shift_range i). case_decide as E.
  - rewrite Z.lor_spec, pos_bit_testbit, E, orb_comm by lia. fold (bit bits i). f_equal.
    apply bool_decide_ext. split; [|by intros ->]. intros E'. by apply pos_inj; [|lia..].
  - rewrite bool_decide_false; [done|]. by intros ->.
Qed.

Lemma bitmap_clear_bit i : 0 <= i -> bit (bitmap_clear bits pos) i = negb (bool_decide (i = pos)) && bit bits i.
Proof.
  intros Hi. unfold bitmap_clear. rewrite (bit_insert _ nbits) by done. pose proof (shift_range i). case_decide as E.
  - rewrite Z.land_spec, u64_testbit, Z.lnot_spec, pos_bit_testbit, E, andb_comm by lia. fold (bit bits i). do 2 f_equal.
    apply bool_decide_ext. split; [|by intros ->]. intros E'. by apply pos_inj; [|lia..].
  - rewrite bool_decide_false; [done|]. by intros ->.
Qed.
End SingleBits.

Lemma bitmap_test_bit bits pos : bitmap_test bits pos = bit bits pos.
Proof.
  unfold bitmap_test, bit. rewrite pos_bit_pow, land_pow2_ne0 by apply shift_range. apply negb_involutive.
Qed.

(** Bit [i] of a word-wise combination of bitmaps. *)
Section Words.
Context (op : Z -> Z -> Z) (f : bool -> bool -> bool).
Hypothesis (op_spec : forall a b k, Z.testbit (op a b) k = f (Z.testbit a k) (Z.testbit b k)).
Hypothesis (op_u64 : forall a b, is_u64 a -> is_u64 b -> is_u64 (op a b)).

Lemma map_words_lookup n src1 src2 : forall i dst j,
  (i + n <= length dst)%nat ->
  map_words op n i dst src1 src2 !!! j =
  if decide (i <= j < i + n)%nat then op (src1 !!! j) (src2 !!! j) else dst !!! j.
Proof.
  induction n as [|n IH]; intros i dst j Hl; simpl.
  - by rewrite decide_False by lia.
  - rewrite IH by (rewrite length_insert; lia). destruct (decide (i = j)) as [<-|].
    + rewrite decide_False, decide_True by lia. apply list_lookup_total_insert_eq. lia.
    + rewrite list_lookup_total_insert_ne by done. do 2 case_decide; (done || lia).
Qed.

Lemma map_words_wf n nbits src1 src2 : forall i dst,
  bitmap_wf dst nbits -> (i + n <= length src1)%nat -> (i + n <= length src2)%nat ->
  Forall is_u64 src1 -> Forall is_u64 src2 ->
  bitmap_wf (map_words op n i dst src1 src2) nbits.
Proof.
  induction n as [|n IH]; intros i dst Hd H1 H2 F1 F2; simpl; [done|].
  apply IH; [|lia|lia|done|done]. apply wf_insert; [done|]. apply op_u64; by apply Forall_lookup_total_1; [|lia].
Qed.

Lemma map_words_bit dst src1 src2 nbits i :
  bitmap_wf dst nbits -> 0 <= i < nbits ->
  bit (map_words op (longs nbits) 0 dst src1 src2) i = f (bit src1 i) (bit src2 i).
Proof.
  intros H Hi. unfold bit. rewrite map_words_lookup.
  - rewrite decide_True; [apply op_spec|]. unfold longs, BITMAP_LONG_SIZE, BITMAP_POS_IDX, BITS_PER_LONG.
    pose proof (div_up_bounds nbits 64). split; [lia|]. apply Z2Nat.inj_lt; [apply Z.div_pos; lia|nia|].
    apply Z.div_lt_upper_bound; lia.
  - destruct H as [Hl _]. unfold longs, BITMAP_LONG_SIZE, BITS_PER_LONG. pose proof (div_up_bounds nbits 64). nia.
Qed.
End Words.

Lemma longs_le bits nbits : bitmap_wf bits nbits -> (longs nbits <= length bits)%nat.
Proof.
  intros [H _]. unfold longs, BITMAP_LONG_SIZE, BITS_PER_LONG. pose proof (div_up_bounds nbits 64). nia.
Qed.

Lemma idx_lt_longs nbits i : 0 <= i < nbits -> (BITMAP_POS_IDX i < longs nbits)%nat.
Proof.
  intros Hi. unfold longs, BITMAP_LONG_SIZE, BITMAP_POS_IDX, BITS_PER_LONG.
  pose proof (div_up_bounds nbits 64). apply Z2Nat.inj_lt; [apply Z.div_pos; lia|nia|].
  apply Z.div_lt_upper_bound; lia.
Qed.

(** The loop of [bitmap_atomic_or] is that of [bitmap_or] with [dst] as source. *)
Lemma or_words_map n src d0 : forall i dst,
  (forall j, (i <= j)%nat -> dst !!! j = d0 !!! j) ->
  or_words n i dst src = map_words Z.lor n i dst d0 src.
Proof.
  induction n as [|n IH]; intros i dst H; simpl; [done|]. rewrite H by lia. apply IH.
  intros j Hj. rewrite list_lookup_total_insert_ne by lia. apply H. lia.
Qed.

Lemma bitmap_atomic_or_eq dst src nbits : bitmap_atomic_or dst src nbits = bitmap_or dst dst src nbits.
Proof. by apply or_words_map. Qed.

Lemma UINT64_MAX_bit k : 0 <= k < 64 -> Z.testbit UINT64_MAX k = true.
Proof.
  intros Hk. change UINT64_MAX with (Z.pred (2 ^ 64)). rewrite <- Z.ones_equiv. apply Z.ones_spec_low. lia.
Qed.

Lemma bitmap_init_wf bits nbits st : bitmap_wf bits nbits -> bitmap_wf (bitmap_init bits nbits st) nbits.
Proof.
  intros H. pose proof (longs_le _ _ H). destruct H as [Hl Hw]. unfold bitmap_init. split.
  - rewrite length_app, length_replicate, length_drop. lia.
  - apply Forall_app. split; [|by apply Forall_drop]. apply Forall_replicate. destruct st; width.
Qed.

Lemma bitmap_init_bit bits nbits st i :
  0 <= i < nbits -> bit (bitmap_init bits nbits st) i = st.
Proof.
  intros Hi. unfold bit, bitmap_init. pose proof (idx_lt_longs _ _ Hi). pose proof (shift_range i).
  rewrite lookup_total_app_l by (by rewrite length_replicate).
  rewrite lookup_total_replicate_2 by done. destruct st; [by apply UINT64_MAX_bit|apply Z.bits_0].
Qed.

(** Initialisation covers whole words. *)
Lemma bitmap_init_words bits nbits st i :
  0 <= i < 64 * BITMAP_LONG_SIZE nbits -> bit (bitmap_init bits nbits st) i = st.
Proof.
  intros Hi. assert (longs nbits = longs (64 * BITMAP_LONG_SIZE nbits)) as E.
  { unfold longs. f_equal. unfold BITMAP_LONG_SIZE at 2, div_up, BITS_PER_LONG.
    replace (64 * BITMAP_LONG_SIZE nbits + 64 - 1) with (63 + BITMAP_LONG_SIZE nbits * 64) by lia.
    by rewrite Z.div_add by lia. }
  unfold bitmap_init. rewrite E. by apply bitmap_init_bit.
Qed.

(** ** Refinement: a bitmap is a set of positions *)

Inductive bop :=
| BInit (st : bool) | BSet (i : Z) | BClear (i : Z) | BTest (i : Z) | BTestAndSet (i : Z)
| BAnd (src : bitmap) | BOr (src : bitmap) | BXor (src : bitmap) | BAtomicOr (src : bitmap).

(** An operation on the bitmap [bits]; the word-wise ones combine it with [src]. *)
Definition bop_step (nbits : Z) (o : bop) (bits : bitmap) : option bool * bitmap :=
  match o with
  | BInit st => (None, bitmap_init bits nbits st)
  | BSet i => (None, bitmap_set bits i)
  | BClear i => (None, bitmap_clear bits i)
  | BTest i => (Some (bitmap_test bits i), bits)
  | BTestAndSet i => let '(b, bits) := bitmap_atomic_test_and_set bits i in (Some b, bits)
  | BAnd src => (None, bitmap_and bits bits src nbits)
  | BOr src => (None, bitmap_or bits bits src nbits)
  | BXor src => (None, bitmap_xor bits bits src nbits)
  | BAtomicOr src => (None, bitmap_atomic_or bits src nbits)
  end.

(** The same on the characteristic function of a set. *)
Definition set_step (o : bop) (s : Z -> bool) : option bool * (Z -> bool) :=
  match o with
  | BInit st => (None, fun _ => st)
  | BSet i => (None, fun j => bool_decide (j = i) || s j)
  | BClear i => (None, fun j => negb (bool_decide (j = i)) && s j)
  | BTest i => (Some (s i), s)
  | BTestAndSet i => (Some (s i), fun j => bool_decide (j = i) || s j)
  | BAnd src => (None, fun j => s j && bit src j)
  | BOr src | BAtomicOr src => (None, fun j => s j || bit src j)
  | BXor src => (None, fun j => xorb (s j) (bit src j))
  end.

(** The positions and source bitmaps an operation may be called with. *)
Definition bop_ok (nbits : Z) (o : bop) : Prop :=
  match o with
  | BInit _ => True
  | BSet i | BClear i | BTest i | BTestAndSet i => 0 <= i < nbits
  | BAnd src | BOr src | BXor src | BAtomicOr src => bitmap_wf src nbits
  end.

Fixpoint run_ops {S} (step : bop -> S -> option bool * S) (os : list bop) (s : S) : list (option bool) * S :=
  match os with
  | [] => ([], s)
  | o :: os => let '(r, s) := step o s in let '(rs, s) := run_ops step os s in (r :: rs, s)
  end.

Definition stands_for (nbits : Z) (bits : bitmap) (s : Z -> bool) : Prop :=
  bitmap_wf bits nbits /\ forall i, 0 <= i < nbits -> bit bits i = s i.

Lemma map_words_stands op f nbits bits src s :
  (forall a b k, Z.testbit (op a b) k = f (Z.testbit a k) (Z.testbit b k)) ->
  (forall a b, is_u64 a -> is_u64 b -> is_u64 (op a b)) ->
  stands_for nbits bits s -> bitmap_wf src nbits ->
  stands_for nbits (map_words op (longs nbits) 0 bits bits src) (fun j => f (s j) (bit src j)).
Proof.
  intros Hop Hu [Hwf Hs] Hsrc. split.
  - apply map_words_wf; [done|done|by apply longs_le|by apply longs_le|apply Hwf|apply Hsrc].
  - intros i Hi. rewrite (map_words_bit op f) by done. by rewrite Hs.
Qed.

Lemma bop_step_refines nbits o bits s :
  bop_ok nbits o -> stands_for nbits bits s ->
  fst (bop_step nbits o bits) = fst (set_step o s) /\
  stands_for nbits (snd (bop_step nbits o bits)) (snd (set_step o s)).
Proof.
  intros Ho Hst. pose proof Hst as [Hwf Hs]. destruct o as [st|i|i|i|i|src|src|src|src]; simpl in *.
  - split_and!; [done|split; [by apply bitmap_init_wf|]]. intros i Hi. by apply bitmap_init_bit.
  - split_and!; [done|split; [by apply bitmap_set_wf|]]. intros j Hj.
    rewrite (bitmap_set_bit _ nbits) by (done || lia). by rewrite Hs.
  - split_and!; [done|split; [by apply bitmap_clear_wf|]]. intros j Hj.
    rewrite (bitmap_clear_bit _ nbits) by (done || lia). by rewrite Hs.
  - rewrite bitmap_test_bit, Hs by done. by split.
  - fold (bitmap_test bits i) (bitmap_set bits i). rewrite bitmap_test_bit, Hs by done.
    split_and!; [done|split; [by apply bitmap_set_wf|]]. intros j Hj.
    rewrite (bitmap_set_bit _ nbits) by (done || lia). by rewrite Hs.
  - split; [done|]. apply map_words_stands; auto using Z.land_spec with aspen.
  - split; [done|]. apply map_words_stands; auto using Z.lor_spec with aspen.
  - split; [done|]. apply map_words_stands; auto using Z.lxor_spec with aspen.
  - rewrite bitmap_atomic_or_eq. split; [done|]. apply map_words_stands; auto using Z.lor_spec with aspen.
Qed.

(** A bitmap is a set of positions: over any sequence of initialisations,
    single-bit updates, tests, test-and-sets and word-wise combinations with
    other bitmaps, every test answers what the set answers, and at the end a
    bit is set exactly when its position is in the set. *)
Theorem bitmap_refines_set nbits os : forall bits s,
  stands_for nbits bits s -> Forall (bop_ok nbits) os ->
  let '(rs, bits') := run_ops (bop_step nbits) os bits in
  let '(rs', s') := run_ops set_step os s in
  rs = rs' /\ stands_for nbits bits' s'.
Proof.
  induction os as [|o os IH]; intros bits s Hst Hok; simpl; [done|].
  apply Forall_cons in Hok as [Ho Hok]. pose proof (bop_step_refines nbits o bits s Ho Hst) as [E Hs].
  destruct (bop_step nbits o bits) as [r bits1], (set_step o s) as [r' s1]. simpl in *.
  specialize (IH bits1 s1 Hs Hok). destruct (run_ops (bop_step nbits) os bits1), (run_ops set_step os s1).
  destruct IH as [-> Hf]. by rewrite E.
Qed.

(** ** Search finds the next bit *)

Lemma ffsl_from_spec n v : forall i,
  0 <= i -> (forall k, 0 <= k < i -> Z.testbit v k = false) ->
  let r := ffsl_from n i v in
  (r = 0 /\ forall k, 0 <= k < i + Z.of_nat n -> Z.testbit v k = false) \/
  (1 <= r <= i + Z.of_nat n /\ Z.testbit v (r - 1) = true /\
   forall k, 0 <= k < r - 1 -> Z.testbit v k = false).
Proof.
  induction n as [|n IH]; intros i Hi Hlo; cbn [ffsl_from].
  - left. split; [done|]. intros k Hk. apply Hlo. lia.
  - destruct (Z.testbit v i) eqn:E.
    + right. split; [lia|]. replace (i + 1 - 1) with i by lia. done.
    + destruct (IH (i + 1)) as [[-> H]|H]; [lia| |left|right; destruct H; split; [lia|done]].
      * intros k Hk. destruct (decide (k = i)) as [->|]; [done|]. apply Hlo. lia.
      * split; [done|]. intros k Hk. apply H. lia.
Qed.

Lemma ffsl_spec v : is_u64 v -> v <> 0 ->
  1 <= ffsl v <= 64 /\ Z.testbit v (ffsl v - 1) = true /\ forall k, 0 <= k < ffsl v - 1 -> Z.testbit v k = false.
Proof.
  intros Hv Hn. destruct (ffsl_from_spec 64 v 0) as [[_ H]|H]; [lia|lia| |exact H].
  destruct Hn. apply Z.bits_inj'. intros k Hk. rewrite Z.bits_0.
  destruct (Z.lt_ge_cases k 64); [apply H; lia|by apply u64_high].
Qed.

(** The bits the search looks for. *)
Definition hit (invert : bool) (bits : bitmap) (i : Z) : bool := xorb invert (bit bits i).

(** [r] is the first position from [pos] on, and below [nbits], that [p] holds
    of; [nbits] if there is none. *)
Record first_from (p : Z -> bool) (nbits pos r : Z) : Prop := {
  ff_range : pos <= r <= nbits;
  ff_before : forall i, pos <= i < r -> p i = false;
  ff_at : r < nbits -> p r = true
}.

Lemma pos_in_word q k : 0 <= k < 64 -> 0 <= q ->
  BITMAP_POS_IDX (64 * q + k) = Z.to_nat q /\ BITMAP_POS_SHIFT (64 * q + k) = k.
Proof.
  intros Hk Hq. unfold BITMAP_POS_IDX, BITMAP_POS_SHIFT, BITS_PER_LONG.
  rewrite (Z.mul_comm 64), Z.div_add_l, Z.div_small, Z.add_0_r by lia. split; [done|].
  rewrite Z.add_comm, Z.mod_add, Z.mod_small by lia. done.
Qed.

Section Find.
Context (bits : bitmap) (nbits : Z) (Hwf : bitmap_wf bits nbits) (Hn : nbits <= 2 ^ 31 - 64) (invert : bool).

(** The word the loop inspects at position [64 * q], with the bits below [s]
    masked out. *)
Definition word_val (q mask : Z) : Z :=
  Z.land (if invert then u64 (Z.lnot (bits !!! Z.to_nat q)) else bits !!! Z.to_nat q) mask.

Lemma word_val_bit q s mask k :
  0 <= q -> 64 * q < nbits -> (forall j, 0 <= j < 64 -> Z.testbit mask j = (s <=? j)) -> 0 <= k < 64 ->
  Z.testbit (word_val q mask) k = hit invert bits (64 * q + k) && (s <=? k).
Proof.
  intros Hq Hlt Hm Hk. unfold word_val, hit, bit. destruct (pos_in_word q k Hk Hq) as [-> ->].
  rewrite Z.land_spec, Hm by done. destruct invert; [|by rewrite xorb_false_l].
  by rewrite u64_testbit, Z.lnot_spec by lia.
Qed.

Lemma word_val_u64 q mask : 0 <= q -> 64 * q < nbits -> is_u64 mask -> is_u64 (word_val q mask).
Proof.
  intros Hq Hlt Hm. apply is_u64_land; [|done]. destruct invert; [apply u64_range|].
  destruct (pos_in_word q 0 ltac:(lia) Hq) as [<- _]. apply (bit_word _ nbits); [done|lia].
Qed.

Lemma find_loop_spec fuel : forall q s mask,
  0 <= q -> 0 <= s < 64 -> is_u64 mask -> (forall j, 0 <= j < 64 -> Z.testbit mask j = (s <=? j)) ->
  64 * q + s <= nbits -> nbits <= 64 * (q + Z.of_nat fuel) ->
  first_from (hit invert bits) nbits (64 * q + s) (find_loop fuel bits nbits (64 * q) mask invert).
Proof.
  induction fuel as [|fuel IH]; intros q s mask Hq Hs Hmu Hm Hpos Hf; cbn [find_loop].
  { split; [lia| |lia]. intros i Hi. lia. }
  destruct (Z.ltb_spec (64 * q) nbits) as [Hlt|Hge]; [|split; [lia| |lia]; intros i Hi; lia].
  destruct (pos_in_word q 0 ltac:(lia) Hq) as [Ei _]. rewrite Z.add_0_r in Ei. rewrite Ei.
  cbv zeta. fold (word_val q mask).
  pose proof (word_val_u64 q mask Hq Hlt Hmu) as Hu. pose proof (fun k => word_val_bit q s mask k Hq Hlt Hm) as Hb.
  destruct (Z.eqb_spec (word_val q mask) 0) as [E0|Hne]; cbn [negb].
  - assert (forall i, 64 * q + s <= i < 64 * q + 64 -> hit invert bits i = false) as Hno.
    { intros i Hi. specialize (Hb (i - 64 * q) ltac:(lia)). rewrite E0, Z.bits_0 in Hb.
      replace (64 * q + (i - 64 * q)) with i in Hb by lia. destruct (Z.leb_spec s (i - 64 * q)); [|lia].
      by rewrite andb_true_r in Hb. }
    destruct (Z.le_gt_cases nbits (64 * q + 64)) as [Hend|Hmore].
    + rewrite s32_small by (unfold is_s32, BITS_PER_LONG; lia).
      replace (find_loop fuel _ _ _ _ _) with nbits.
      * split; [lia| |lia]. intros i Hi. apply Hno. lia.
      * destruct fuel; cbn [find_loop]; [done|]. unfold BITS_PER_LONG. by destruct (Z.ltb_spec (64 * q + 64) nbits); [lia|].
    + rewrite s32_small by (unfold is_s32, BITS_PER_LONG; lia). unfold BITS_PER_LONG.
      replace (64 * q + 64) with (64 * (q + 1)) by lia.
      destruct (IH (q + 1) 0 UINT64_MAX) as [Hr Hbf Ha]; [lia|lia|width| |lia|lia|].
      { intros j Hj. rewrite UINT64_MAX_bit by done. by destruct (Z.leb_spec 0 j); [|lia]. }
      split; [lia| |done]. intros i Hi. destruct (Z.lt_ge_cases i (64 * q + 64)); [apply Hno|apply Hbf]; lia.
  - destruct (ffsl_spec _ Hu Hne) as (Hr & Ht & Hl). rewrite Hb in Ht by lia. apply andb_true_iff in Ht as [Ht Hge].
    apply Z.leb_le in Hge. rewrite MIN_min. split; [lia| |].
    + intros i Hi. specialize (Hl (i - 64 * q) ltac:(lia)). rewrite Hb in Hl by lia.
      replace (64 * q + (i - 64 * q)) with i in Hl by lia. destruct (Z.leb_spec s (i - 64 * q)); [|lia].
      by rewrite andb_true_r in Hl.
    + intros Hlt'. replace (Z.min _ nbits) with (64 * q + (ffsl (word_val q mask) - 1)) by lia. done.
Qed.

Lemma first_mask pos : 0 <= pos ->
  forall j, 0 <= j < 64 ->
  Z.testbit (u64 (Z.lnot (u64 (pos_bit pos - 1)))) j = (BITMAP_POS_SHIFT pos <=? j).
Proof.
  intros Hp j Hj. pose proof (shift_range pos). rewrite u64_testbit, Z.lnot_spec, u64_testbit by lia.
  rewrite pos_bit_pow. replace (2 ^ _ - 1) with (Z.ones (BITMAP_POS_SHIFT pos)) by (rewrite Z.ones_equiv; lia).
  destruct (Z.leb_spec (BITMAP_POS_SHIFT pos) j);
    [rewrite Z.ones_spec_high|rewrite Z.ones_spec_low]; (done || lia).
Qed.

Lemma align_pos pos : 0 <= pos -> Z.land pos (Z.lnot (BITS_PER_LONG - 1)) = 64 * (pos / 64).
Proof.
  intros Hp. rewrite <- Z.ldiff_land. change (BITS_PER_LONG - 1) with (Z.ones 6).
  rewrite Z.ldiff_ones_r, Z.shiftl_mul_pow2, Z.shiftr_div_pow2 by lia. change (2 ^ 6) with 64. lia.
Qed.

Lemma find_next_first pos :
  0 <= pos <= nbits -> first_from (hit invert bits) nbits pos (bitmap_find_next bits nbits pos invert).
Proof.
  intros Hp. unfold bitmap_find_next. rewrite align_pos by lia.
  pose proof (Z.div_mod pos 64) as Hdm. pose proof (shift_range pos) as Hs. unfold BITMAP_POS_SHIFT, BITS_PER_LONG in Hs.
  assert (0 <= pos / 64) by (apply Z.div_pos; lia).
  assert (nbits <= 64 * Z.of_nat (longs nbits)).
  { unfold longs, BITMAP_LONG_SIZE, BITS_PER_LONG. pose proof (div_up_bounds nbits 64). lia. }
  pose proof (find_loop_spec (longs nbits) (pos / 64) (pos mod 64) (u64 (Z.lnot (u64 (pos_bit pos - 1))))) as Hf.
  replace (64 * (pos / 64) + pos mod 64) with pos in Hf by lia.
  apply Hf; [lia|done|apply u64_range|by apply first_mask; lia|lia|nia].
Qed.
End Find.

(** The search is exact: [bitmap_find_next_set] (and, with the bits
    inverted, [bitmap_find_next_cleared]) returns the first set (cleared)
    position that is not before [pos], or [nbits] when there is none. *)
Theorem bitmap_find_next_first bits nbits pos :
  bitmap_wf bits nbits -> nbits <= 2 ^ 31 - 64 -> 0 <= pos <= nbits ->
  first_from (bit bits) nbits pos (bitmap_find_next_set bits nbits pos) /\
  first_from (fun i => negb (bit bits i)) nbits pos (bitmap_find_next_cleared bits nbits pos).
Proof.
  intros Hwf Hn Hp.
  destruct (find_next_first bits nbits Hwf Hn false pos Hp) as [H1 H2 H3],
    (find_next_first bits nbits Hwf Hn true pos Hp) as [H4 H5 H6].
  by unfold hit in *.
Qed.

(** ** Loops over a bitmap *)

(** The positions from [pos] on, below [nbits], that [p] holds of. *)
Definition positions (p : Z -> bool) (pos nbits : Z) : list Z :=
  filter (fun i => p i = true) (seqZ pos (nbits - pos)).

Lemma filter_none {A} (P : A -> Prop) `{!forall x, Decision (P x)} l :
  (forall x, x ∈ l -> ~ P x) -> filter P l = [].
Proof.
  induction l as [|x l IH]; intros Hl; [done|]. rewrite filter_cons_False by (apply Hl; set_solver).
  apply IH. set_solver.
Qed.

Lemma filter_all {A} (P : A -> Prop) `{!forall x, Decision (P x)} (l : list A) :
  (forall x, x ∈ l -> P x) -> filter P l = l.
Proof.
  induction l as [|x l IH]; intros Hl; [done|]. rewrite filter_cons_True by (apply Hl; set_solver).
  f_equal. apply IH. set_solver.
Qed.

Lemma positions_first p nbits pos r :
  first_from p nbits pos r -> r < nbits -> positions p pos nbits = r :: positions p (r + 1) nbits.
Proof.
  intros [Hr Hb Ha] Hlt. unfold positions. replace (nbits - pos) with ((r - pos) + (nbits - r)) by lia.
  rewrite seqZ_app, filter_app by lia. replace (pos + (r - pos)) with r by lia.
  rewrite filter_none, app_nil_l.
  - rewrite (seqZ_cons r) by lia. rewrite filter_cons_True by auto. do 2 f_equal. f_equal; lia.
  - intros x Hx. apply elem_of_seqZ in Hx. rewrite Hb by lia. done.
Qed.

Lemma positions_none p nbits pos : first_from p nbits pos nbits -> positions p pos nbits = [].
Proof.
  intros [Hr Hb _]. apply filter_none. intros x Hx. apply elem_of_seqZ in Hx. rewrite Hb by lia. done.
Qed.

Lemma for_each_from_spec bits nbits invert :
  bitmap_wf bits nbits -> nbits <= 2 ^ 31 - 64 ->
  forall fuel pos, 0 <= pos + 1 <= nbits -> nbits <= pos + 1 + Z.of_nat fuel ->
  for_each_from fuel bits nbits pos invert = positions (hit invert bits) (pos + 1) nbits.
Proof.
  intros Hwf Hn. induction fuel as [|fuel IH]; intros pos Hp Hf; cbn [for_each_from].
  - unfold positions. replace (nbits - (pos + 1)) with 0 by lia. done.
  - pose proof (find_next_first bits nbits Hwf Hn invert (pos + 1) Hp) as Hff.
    pose proof (ff_range _ _ _ _ Hff). destruct (Z.ltb_spec (bitmap_find_next bits nbits (pos + 1) invert) nbits) as [Hlt|Hge].
    + rewrite (positions_first _ _ _ _ Hff) by done. f_equal. apply IH; lia.
    + symmetry. apply positions_none. by replace nbits with (bitmap_find_next bits nbits (pos + 1) invert) at 2 by lia.
Qed.

(** The loops [bitmap_for_each_set] and [bitmap_for_each_cleared] terminate
    and visit exactly the set (cleared) positions below [nbits], each once and
    in increasing order. *)
Theorem bitmap_for_each_enumerates bits nbits :
  bitmap_wf bits nbits -> 0 <= nbits <= 2 ^ 31 - 64 ->
  bitmap_for_each_set bits nbits = filter (fun i => bit bits i = true) (seqZ 0 nbits) /\
  bitmap_for_each_cleared bits nbits = filter (fun i => negb (bit bits i) = true) (seqZ 0 nbits).
Proof.
  intros Hwf Hn. unfold bitmap_for_each_set, bitmap_for_each_cleared.
  rewrite !for_each_from_spec by (done || lia). unfold positions. by rewrite Z.sub_0_r.
Qed.

(** ** Population count *)

Definition count (p : Z -> bool) (pos len : Z) : Z :=
  Z.of_nat (length (filter (fun i => p i = true) (seqZ pos len))).

Lemma popcount_from_spec p off v n : forall i,
  (forall k, i <= k < i + Z.of_nat n -> Z.testbit v k = p (off + k)) ->
  popcount_from n i v = count p (off + i) (Z.of_nat n).
Proof.
  induction n as [|n IH]; intros i Hv; [done|]. cbn [popcount_from]. unfold count. rewrite seqZ_cons by lia.
  replace (Z.pred (Z.of_nat (S n))) with (Z.of_nat n) by lia.
  rewrite IH by (intros; apply Hv; lia). unfold count. replace (off + (i + 1)) with (Z.succ (off + i)) by lia.
  rewrite Hv by lia.
  destruct (p (off + i)) eqn:E; [rewrite filter_cons_True by done|rewrite filter_cons_False by congruence];
    cbn [Z.b2z length]; lia.
Qed.

Lemma popcount_words bits n : forall m, (m + n <= length bits)%nat ->
  foldl (fun val w => val + popcountl w) (count (bit bits) 0 (64 * Z.of_nat m)) (take n (drop m bits)) =
  count (bit bits) 0 (64 * Z.of_nat (m + n)).
Proof.
  induction n as [|n IH]; intros m Hl; [by rewrite Nat.add_0_r, take_0|].
  destruct (lookup_lt_is_Some_2 bits m) as [w Hw]; [lia|]. rewrite (drop_S _ _ _ Hw). cbn [take foldl].
  replace (count _ _ _ + popcountl w) with (count (bit bits) 0 (64 * Z.of_nat (S m))).
  - rewrite IH by lia. do 2 f_equal. lia.
  - unfold popcountl. rewrite (popcount_from_spec (bit bits) (64 * Z.of_nat m)).
    + unfold count. replace (64 * Z.of_nat (S m)) with (64 * Z.of_nat m + Z.of_nat 64) by lia.
      rewrite seqZ_app, filter_app, length_app by lia. rewrite Z.add_0_l, Z.add_0_r. lia.
    + intros k Hk. unfold bit. destruct (pos_in_word (Z.of_nat m) k) as [-> ->]; [lia|lia|].
      rewrite Nat2Z.id. by rewrite (list_lookup_total_correct _ _ _ Hw).
Qed.

(** [bitmap_popcount] counts whole words: its result is the number of set
    bits below [nbits] rounded up to a multiple of 64.  It is the number of
    positions [bitmap_for_each_set] visits when no bit from [nbits] on is set,
    but [bitmap_init(..., true)] sets those too. *)
Theorem bitmap_popcount_counts bits nbits :
  bitmap_wf bits nbits -> 0 <= nbits ->
  bitmap_popcount bits nbits = count (bit bits) 0 (64 * BITMAP_LONG_SIZE nbits) /\
  ((forall i, nbits <= i < 64 * BITMAP_LONG_SIZE nbits -> bit bits i = false) ->
   bitmap_popcount bits nbits = count (bit bits) 0 nbits) /\
  bitmap_popcount (bitmap_init bits nbits true) nbits = 64 * BITMAP_LONG_SIZE nbits.
Proof.
  intros Hwf Hn. assert (0 <= BITMAP_LONG_SIZE nbits /\ nbits <= 64 * BITMAP_LONG_SIZE nbits) as [Hb Hb'].
  { unfold BITMAP_LONG_SIZE, BITS_PER_LONG. pose proof (div_up_bounds nbits 64). lia. }
  assert (forall b, bitmap_wf b nbits -> bitmap_popcount b nbits = count (bit b) 0 (64 * BITMAP_LONG_SIZE nbits)) as Hc.
  { intros b Hb0. unfold bitmap_popcount. change 0 with (count (bit b) 0 (64 * Z.of_nat 0)) at 1.
    rewrite <- (drop_0 b) at 2. rewrite popcount_words by (by apply longs_le). unfold longs.
    by rewrite Nat.add_0_l, Z2Nat.id by done. }
  split_and!; [by apply Hc| |rewrite Hc by (by apply bitmap_init_wf)].
  - intros Hz. rewrite Hc by done. unfold count.
    replace (64 * _) with (nbits + (64 * BITMAP_LONG_SIZE nbits - nbits)) by lia.
    rewrite seqZ_app, filter_app, length_app by lia. rewrite (filter_none _ (seqZ (0 + nbits) _)); [simpl; lia|].
    intros x Hx. apply elem_of_seqZ in Hx. rewrite Hz by lia. done.
  - unfold count. rewrite filter_all, length_seqZ; [lia|].
    intros x Hx. apply elem_of_seqZ in Hx. apply bitmap_init_words. lia.
Qed.

Definition demo_bits : bitmap := bitmap_set (bitmap_set [0; 0] 3) 70.

Lemma demo_bits_wf : bitmap_wf demo_bits 100.
Proof. split; [simpl; lia|]. repeat constructor; vm_compute; done. Qed.

Lemma bitmap_refines_set_witness :
  stands_for 100 (snd (run_ops (bop_step 100) [BTestAndSet 99; BClear 3] demo_bits))
    (snd (run_ops set_step [BTestAndSet 99; BClear 3] (bit demo_bits))).
Proof.
  assert (stands_for 100 demo_bits (bit demo_bits)) as Hs by (split; [exact demo_bits_wf|reflexivity]).
  apply (bitmap_refines_set 100 [BTestAndSet 99; BClear 3] demo_bits (bit demo_bits) Hs).
  repeat constructor; lia.
Defined.

Lemma bitmap_find_next_first_witness : bitmap_find_next_set demo_bits 100 4 = 70 /\
  first_from (bit demo_bits) 100 4 70.
Proof.
  split; [reflexivity|]. apply (bitmap_find_next_first demo_bits 100 4); [exact demo_bits_wf|lia|lia].
Defined.

