(* ===== verification/Tcache.v ===== *)
(** * tcache: per-thread caches of items

    Models [inc/base/tcache.h] and [base/tcache.c].  A thread keeps two
    magazines of items, linked through the first word of the items themselves;
    full magazines are exchanged with a shared pool, and whole magazines are
    obtained from and returned to an allocator behind [struct tcache_ops].
    Item headers live in one memory, shared by the cache, the allocator and the
    users of the items.  A part of a call that holds no lock only touches the
    thread's own handle; each critical section is one step. *)

From S2P Require Import Prelude.

Definition TCACHE_MAX_MAG_SIZE : nat := 64.
Definition TCACHE_DEFAULT_MAG_SIZE : nat := 32.
Definition TCACHE_MIN_ITEM_SIZE : Z := 16.

(** The two words of [struct tcache_hdr], by address; 0 is [NULL]. *)
Record hdrs := Hdrs { next_item : Z -> Z; next_mag : Z -> Z }.
#[global] Instance eta_hdrs : Settable hdrs := fun r => Hdrs (next_item r) (next_mag r).
Definition wr (f : Z -> Z) (a v : Z) : Z -> Z := fun x => if x =? a then v else f x.

(** [struct tcache_ops]: allocate a number of items, or free some.  The
    allocator may use the first word of an item it holds.  [None] is a failed
    assertion; an [alloc] that returns an error gives no items. *)
Class tcache_ops (S : Type) := {
  ops_alloc : nat -> (Z -> Z) -> S -> option (option (list Z) * (Z -> Z) * S);
  ops_free : list Z -> (Z -> Z) -> S -> option ((Z -> Z) * S)
}.

(** What the cache relies on: [holds m b out] says that the allocator [b] has
    given out the items [out] and does not depend on what is in them. *)
Class TcacheOpsLaws (S : Type) `{tcache_ops S} := {
  holds : (Z -> Z) -> S -> gset Z -> Prop;
  holds_frame m m' b out : holds m b out -> (forall x, x ∉ out -> m' x = m x) -> holds m' b out;
  alloc_ok n m b out : holds m b out -> (0 < n)%nat ->
    exists r m' b', ops_alloc n m b = Some (r, m', b') /\ (forall x, x ∈ out -> m' x = m x) /\
      match r with
      | Some l => length l = n /\ NoDup l /\ (forall x, x ∈ l -> x <> 0 /\ x ∉ out) /\ holds m' b' (out ∪ list_to_set l)
      | None => holds m' b' out
      end;
  free_ok l m b out : holds m b out -> NoDup l -> (forall x, x ∈ l -> x ∈ out) ->
    exists m' b', ops_free l m b = Some (m', b') /\ (forall x, x ∈ out -> x ∉ l -> m' x = m x) /\
      holds m' b' (out ∖ list_to_set l)
}.

(** [struct tcache_perthread] and [struct tcache]. *)
Record tcache_perthread := Perthread { rounds : Z; capacity : Z; loaded : Z; previous : Z }.
#[global] Instance eta_perthread : Settable tcache_perthread := fun r =>
  Perthread (rounds r) (capacity r) (loaded r) (previous r).
Record tcache := Tcache { mag_size : nat; item_size : Z; mags_allocated : Z; shared_mags : Z }.
#[global] Instance eta_tcache : Settable tcache := fun r =>
  Tcache (mag_size r) (item_size r) (mags_allocated r) (shared_mags r).

(** What the threads share. *)
Record shared (S : Type) := Shared { hdr : hdrs; tc : tcache; back : S }.
Arguments Shared {S}.
Arguments hdr {S}.
Arguments tc {S}.
Arguments back {S}.
#[global] Instance eta_shared S : Settable (shared S) := fun r => Shared (hdr r) (tc r) (back r).

Section Cache.
Context {S : Type} `{tcache_ops S}.

Definition set_next_item (a v : Z) (w : shared S) : shared S :=
  w <| hdr := hdr w <| next_item := wr (next_item (hdr w)) a v |> |>.
Definition set_next_mag (a v : Z) (w : shared S) : shared S :=
  w <| hdr := hdr w <| next_mag := wr (next_mag (hdr w)) a v |> |>.

(** ** Magazines *)

(** The loop of [tcache_alloc_mag]: [pos] is the item whose link is set next. *)
Fixpoint link (pos : Z) (items : list Z) (w : shared S) : shared S :=
  match items with
  | [] => set_next_item pos 0 w
  | x :: l => link x l (set_next_item pos x w)
  end.

Definition tcache_alloc_mag (w : shared S) : option (Z * shared S) :=
  '(r, m, b) ← ops_alloc (mag_size (tc w)) (next_item (hdr w)) (back w);
  let w := w <| hdr := hdr w <| next_item := m |> |> <| back := b |> in
  match r with
  | None => Some (0, w)
  | Some [] => None
  | Some (head :: l) =>
      let w := link head l w in
      Some (head, w <| tc := tc w <| mags_allocated := mags_allocated (tc w) + 1 |> |>)
  end.

(** The loop of [tcache_free_mag]; [fuel] is what is left of the array. *)
Fixpoint collect (fuel : nat) (h : Z) (w : shared S) : option (list Z) :=
  match fuel with
  | O => None
  | Datatypes.S fuel =>
      let nxt := next_item (hdr w) h in
      if nxt =? 0 then Some [h] else l ← collect fuel nxt w; Some (h :: l)
  end.
Definition tcache_free_mag (h : Z) (w : shared S) : option (shared S) :=
  items ← collect TCACHE_MAX_MAG_SIZE h w;
  if negb (length items =? mag_size (tc w))%nat then None
  else
    '(m, b) ← ops_free items (next_item (hdr w)) (back w);
    Some (w <| hdr := hdr w <| next_item := m |> |> <| back := b |>
            <| tc := tc w <| mags_allocated := mags_allocated (tc w) - 1 |> |>).

(** ** Allocating *)

(** The label [alloc] of [__tcache_alloc]. *)
Definition reload (l : tcache_perthread) (w : shared S) : Z * tcache_perthread :=
  (loaded l, l <| rounds := capacity l - 1 |> <| loaded := next_item (hdr w) (loaded l) |>).

(** CASE 2: the shared pool, under the lock. *)
Definition take_shared (l : tcache_perthread) (w : shared S) : tcache_perthread * shared S :=
  (l <| loaded := shared_mags (tc w) |>,
   if shared_mags (tc w) =? 0 then w
   else w <| tc := tc w <| shared_mags := next_mag (hdr w) (shared_mags (tc w)) |> |>).

(** [tcache_alloc] up to CASE 3, the item or [NULL] if that is needed; and CASE 3. *)
Definition alloc_begin (l : tcache_perthread) (w : shared S) : option (Z * tcache_perthread * shared S) :=
  if negb (rounds l =? 0) then
    Some (loaded l, l <| rounds := rounds l - 1 |> <| loaded := next_item (hdr w) (loaded l) |>, w)
  else if negb (loaded l =? 0) then None
  else if negb (previous l =? 0) then
    let '(x, l) := reload (l <| loaded := previous l |> <| previous := 0 |>) w in Some (x, l, w)
  else
    let '(l, w) := take_shared l w in
    if loaded l =? 0 then Some (0, l, w) else let '(x, l) := reload l w in Some (x, l, w).
Definition alloc_refill (l : tcache_perthread) (w : shared S) : option (Z * tcache_perthread * shared S) :=
  '(h, w) ← tcache_alloc_mag w;
  let l := l <| loaded := h |> in
  if h =? 0 then Some (0, l, w) else let '(x, l) := reload l w in Some (x, l, w).
Definition tcache_alloc (l : tcache_perthread) (w : shared S) : option (Z * tcache_perthread * shared S) :=
  '(x, l, w) ← alloc_begin l w; if x =? 0 then alloc_refill l w else Some (x, l, w).

(** ** Freeing *)

Definition tcache_free (l : tcache_perthread) (item : Z) (w : shared S) : option (tcache_perthread * shared S) :=
  if negb (rounds l >=? capacity l) then
    Some (l <| rounds := rounds l + 1 |> <| loaded := item |>, set_next_item item (loaded l) w)
  else if negb (rounds l =? capacity l) || (loaded l =? 0) then None
  else
    let w := if previous l =? 0 then w
             else let w' := set_next_mag (previous l) (shared_mags (tc w)) w in
                  w' <| tc := tc w' <| shared_mags := previous l |> |> in
    Some (l <| previous := loaded l |> <| rounds := 1 |> <| loaded := item |>, set_next_item item 0 w).

(** ** Creating and reclaiming *)

Definition tcache_create (mag : nat) (size : Z) : option tcache :=
  if (size <? TCACHE_MIN_ITEM_SIZE) || (TCACHE_MAX_MAG_SIZE <? mag)%nat then None else Some (Tcache mag size 0 0).
Definition tcache_init_perthread (t : tcache) : tcache_perthread := Perthread 0 (Z.of_nat (mag_size t)) 0 0.

(** [tcache_reclaim]: the pool is emptied under the lock; then one iteration of
    the loop, which leaves the next magazine. *)
Definition reclaim_take (w : shared S) : Z * shared S :=
  (shared_mags (tc w), w <| tc := tc w <| shared_mags := 0 |> |>).
Definition reclaim_one (h : Z) (w : shared S) : option (Z * shared S) :=
  let nxt := next_mag (hdr w) h in w ← tcache_free_mag h w; Some (nxt, w).
Fixpoint reclaim_loop (fuel : nat) (h : Z) (w : shared S) : option (shared S) :=
  match fuel with
  | O => None
  | Datatypes.S fuel => if h =? 0 then Some w else '(h, w) ← reclaim_one h w; reclaim_loop fuel h w
  end.
Definition tcache_reclaim (fuel : nat) (w : shared S) : option (shared S) :=
  let '(h, w) := reclaim_take w in reclaim_loop fuel h w.
End Cache.

(** ** Threads, users and reclaimers

    The state of a thread (its handle, and whether it is about to get a new
    magazine), the items in the hands of users, and the magazines that calls of
    [tcache_reclaim] still have to free. *)

Record system (S : Type) := System {
  sh : shared S; pts : list (tcache_perthread * bool); users : list Z; reclaiming : list Z }.
Arguments System {S}.
Arguments sh {S}.
Arguments pts {S}.
Arguments users {S}.
Arguments reclaiming {S}.
#[global] Instance eta_system S : Settable (system S) := fun r =>
  System (sh r) (pts r) (users r) (reclaiming r).

Inductive call :=
| Alloc (i : nat) | Refill (i : nat)       (* tcache_alloc of thread i *)
| Free (i k : nat)                         (* thread i frees the k-th item in use *)
| Write (k : nat) (a b : Z)                (* a user writes to the k-th item in use *)
| Reclaim | ReclaimOne (k : nat).          (* tcache_reclaim *)

(** Which calls can happen: a thread is in one call at a time, and only items in
    use are freed or written. *)
Definition at_rest {S} (i : nat) (s : system S) : bool := match pts s !! i with Some (_, false) => true | _ => false end.
Definition allowed {S} (a : call) (s : system S) : bool :=
  match a with
  | Alloc i => at_rest i s
  | Refill i => match pts s !! i with Some (_, true) => true | _ => false end
  | Free i k => at_rest i s && (k <? length (users s))%nat
  | Write k _ _ => (k <? length (users s))%nat
  | Reclaim => true
  | ReclaimOne k => match reclaiming s !! k with Some h => negb (h =? 0) | None => false end
  end.

Section Client.
Context {S : Type} `{tcache_ops S}.

(** The call itself; [None] is a failed assertion. *)
Definition perform (a : call) (s : system S) : option (system S) :=
  match a with
  | Alloc i =>
      '(l, _) ← pts s !! i;
      '(x, l, w) ← alloc_begin l (sh s);
      Some (s <| sh := w |> <| pts := <[i := (l, x =? 0)]> (pts s) |>
              <| users := if x =? 0 then users s else x :: users s |>)
  | Refill i =>
      '(l, _) ← pts s !! i;
      '(x, l, w) ← alloc_refill l (sh s);
      Some (s <| sh := w |> <| pts := <[i := (l, false)]> (pts s) |>
              <| users := if x =? 0 then users s else x :: users s |>)
  | Free i k =>
      '(l, p) ← pts s !! i;
      x ← users s !! k;
      '(l, w) ← tcache_free l x (sh s);
      Some (s <| sh := w |> <| pts := <[i := (l, p)]> (pts s) |> <| users := delete k (users s) |>)
  | Write k a b =>
      x ← users s !! k;
      Some (s <| sh := set_next_item x a (set_next_mag x b (sh s)) |>)
  | Reclaim =>
      let '(h, w) := reclaim_take (sh s) in Some (s <| sh := w |> <| reclaiming := h :: reclaiming s |>)
  | ReclaimOne k =>
      h ← reclaiming s !! k;
      '(h, w) ← reclaim_one h (sh s);
      Some (s <| sh := w |> <| reclaiming := <[k := h]> (reclaiming s) |>)
  end.

(** Nothing cached yet: [n] threads. *)
Definition cache_init (h : hdrs) (t : tcache) (b : S) (n : nat) : system S :=
  System (Shared h t b) (replicate n (tcache_init_perthread t, false)) [] [].
End Client.

(** The items that are in the cache: those that the links lead to from the magazines of
    the threads, from the shared pool and from what the reclaimers have still to free. *)
Fixpoint follow (fuel : nat) (f : Z -> Z) (h : Z) : list Z :=
  match fuel with O => [] | Datatypes.S fuel => if h =? 0 then [] else h :: follow fuel f (f h) end.
Definition mag_items (m : hdrs) (h : Z) : list Z := follow TCACHE_MAX_MAG_SIZE (next_item m) h.
Definition pool_items (k : nat) (m : hdrs) (h : Z) : list (list Z) := mag_items m <$> follow k (next_mag m) h.
Definition cached_items {S} (s : system S) : list Z :=
  let m := hdr (sh s) in
  let k := Z.to_nat (mags_allocated (tc (sh s))) in
  concat ((fun t => mag_items m (loaded t.1) ++ mag_items m (previous t.1)) <$> pts s) ++
  concat (pool_items k m (shared_mags (tc (sh s)))) ++ concat (concat (pool_items k m <$> reclaiming s)).

(** ** Representation *)

(** The magazine [l] starts at [h]. *)
Fixpoint chain (m : hdrs) (h : Z) (l : list Z) : Prop :=
  match l with
  | [] => h = 0
  | x :: l => h = x /\ x <> 0 /\ chain m (next_item m x) l
  end.

(** The full magazines [ms], of [n] items, start at [h]. *)
Fixpoint pool (m : hdrs) (n : nat) (h : Z) (ms : list (list Z)) : Prop :=
  match ms with
  | [] => h = 0
  | l :: ms => h <> 0 /\ chain m h l /\ length l = n /\ pool m n (next_mag m h) ms
  end.

(** A thread with the magazines [v]. *)
Record thread_ok (m : hdrs) (n : nat) (t : tcache_perthread * bool) (v : list Z * list Z) : Prop := {
  to_loaded : chain m (loaded t.1) v.1;
  to_rounds : rounds t.1 = Z.of_nat (length v.1);
  to_max : (length v.1 <= n)%nat;
  to_capacity : capacity t.1 = Z.of_nat n;
  to_previous : chain m (previous t.1) v.2;
  to_full : v.2 = [] \/ length v.2 = n;
  to_pending : t.2 = true -> v = ([], [])
}.

(** The items cached: by the threads, in the pool, and being reclaimed. *)
Record view := View { tv : list (list Z * list Z); sv : list (list Z); rv : list (list (list Z)) }.
Definition mags (v : list Z * list Z) : list Z := v.1 ++ v.2.
Definition cached (v : view) : list Z :=
  concat (mags <$> tv v) ++ concat (sv v) ++ concat (concat (rv v)).

Record layout {S} (s : system S) (v : view) : Prop := {
  la_threads : Forall2 (thread_ok (hdr (sh s)) (mag_size (tc (sh s)))) (pts s) (tv v);
  la_pool : pool (hdr (sh s)) (mag_size (tc (sh s))) (shared_mags (tc (sh s))) (sv v);
  la_reclaim : Forall2 (pool (hdr (sh s)) (mag_size (tc (sh s)))) (reclaiming s) (rv v)
}.

(** *** Memory that is not touched *)

Definition agree (m m' : hdrs) (l : list Z) : Prop :=
  forall x, x ∈ l -> next_item m' x = next_item m x /\ next_mag m' x = next_mag m x.

Lemma agree_sub m m' l k : agree m m' l -> (forall x, x ∈ k -> x ∈ l) -> agree m m' k.
Proof. intros H Hk x Hx. by apply H, Hk. Qed.
Lemma chain_items m m' h l : (forall x, x ∈ l -> next_item m' x = next_item m x) -> chain m h l -> chain m' h l.
Proof.
  revert h. induction l as [|x l IH]; intros h Ha; simpl; [done|]. intros (-> & Hx & Hc).
  rewrite (Ha x ltac:(left)). split_and!; [done|done|]. apply IH; [|done]. intros y Hy. apply Ha. by right.
Qed.
Lemma chain_agree m m' h l : agree m m' l -> chain m h l -> chain m' h l.
Proof. intros Ha. apply chain_items. intros x Hx. by apply Ha. Qed.
Lemma pool_agree m m' n h ms : (0 < n)%nat -> agree m m' (concat ms) -> pool m n h ms -> pool m' n h ms.
Proof.
  intros Hn. revert h. induction ms as [|l ms IH]; intros h Ha; simpl; [done|]. intros (Hh & Hc & Hl & Hp).
  assert (h ∈ l) as Hin by (destruct l as [|y l]; [simpl in Hl; lia|destruct Hc as [-> _]; left]).
  simpl in Ha. split_and!; [done| |done|].
  - apply (chain_agree m); [|done]. apply (agree_sub _ _ _ _ Ha). intros y Hy. apply elem_of_app. by left.
  - destruct (Ha h) as [_ ->]; [apply elem_of_app; by left|]. apply IH; [|done].
    apply (agree_sub _ _ _ _ Ha). intros y Hy. apply elem_of_app. by right.
Qed.
Lemma thread_agree m m' n t v : agree m m' (mags v) -> thread_ok m n t v -> thread_ok m' n t v.
Proof.
  intros Ha [H1 H2 H3 H4 H5 H6 H7]. split; try done.
  - apply (chain_agree m); [|done]. apply (agree_sub _ _ _ _ Ha). intros y Hy. apply elem_of_app. by left.
  - apply (chain_agree m); [|done]. apply (agree_sub _ _ _ _ Ha). intros y Hy. apply elem_of_app. by right.
Qed.

Lemma chain_null m l : chain m 0 l -> l = [].
Proof. destruct l; [done|]. by intros (<- & ? & _). Qed.
Lemma chain_nonnull m h l : h <> 0 -> chain m h l -> exists k, l = h :: k /\ chain m (next_item m h) k.
Proof. intros Hh. destruct l as [|x k]; simpl; [done|]. intros (-> & _ & Hc). by exists k. Qed.
Lemma pool_null m n ms : pool m n 0 ms -> ms = [].
Proof. destruct ms; [done|]. by intros (? & _). Qed.

(** *** One component of a list of lists *)

Lemma elem_concat {A} (ls : list (list A)) k x : k ∈ ls -> x ∈ k -> x ∈ concat ls.
Proof. intros H1 H2. apply list_elem_of_In, in_concat. exists k. by rewrite <- !list_elem_of_In. Qed.
Lemma concat_at {A} (ls : list (list A)) i l : ls !! i = Some l ->
  exists rest, (forall l', concat (<[i := l']> ls) ≡ₚ l' ++ rest) /\ concat ls ≡ₚ l ++ rest /\
    forall j k x, j <> i -> ls !! j = Some k -> x ∈ k -> x ∈ rest.
Proof.
  intros Hi. exists (concat (take i ls) ++ concat (drop (S i) ls)). split_and!.
  - intros l'. rewrite insert_take_drop by (by eapply lookup_lt_Some). rewrite concat_app. simpl. solve_Permutation.
  - rewrite <- (take_drop_middle ls i l Hi) at 1. rewrite concat_app. simpl. solve_Permutation.
  - intros j k x Hj Hk Hx. apply elem_of_app. destruct (decide (j < i)%nat) as [Hlt|Hge].
    + left. apply (elem_concat _ k); [|done]. apply list_elem_of_lookup. exists j.
      by rewrite lookup_take_lt.
    + right. apply (elem_concat _ k); [|done]. apply list_elem_of_lookup. exists (j - S i)%nat.
      rewrite lookup_drop. by replace (S i + (j - S i))%nat with j by lia.
Qed.

Lemma threads_insert m m' n ts vs i t' a a' : Forall2 (thread_ok m n) ts vs -> vs !! i = Some a ->
  (forall x, x ∈ concat (mags <$> vs) -> x ∉ mags a -> next_item m' x = next_item m x /\ next_mag m' x = next_mag m x) ->
  NoDup (concat (mags <$> vs)) -> thread_ok m' n t' a' -> Forall2 (thread_ok m' n) (<[i := t']> ts) (<[i := a']> vs).
Proof.
  intros Hf Ha Hm Hd Ht. pose proof (Forall2_length _ _ _ Hf) as Hlen.
  destruct (concat_at (mags <$> vs) i (mags a)) as (rest & _ & Hp & Hr); [by rewrite list_lookup_fmap, Ha|].
  rewrite Hp in Hd. apply NoDup_app in Hd as (_ & Hd & _).
  apply Forall2_lookup. intros j. destruct (decide (j = i)) as [->|Hj].
  - rewrite !list_lookup_insert_eq; [by constructor|by eapply lookup_lt_Some|rewrite Hlen; by eapply lookup_lt_Some].
  - rewrite !list_lookup_insert_ne by done. pose proof (proj1 (Forall2_lookup _ _ _) Hf j) as Hj2.
    destruct (vs !! j) as [b|] eqn:Eb; inversion Hj2 as [t b' Hok|]; subst; constructor.
    apply (thread_agree m); [|done]. intros x Hx. assert (x ∈ rest) as Hxr.
    { apply (Hr j (mags b)); [done|by rewrite list_lookup_fmap, Eb|done]. }
    apply Hm; [|intros Hin; by apply (Hd x)]. rewrite Hp. apply elem_of_app. by right.
Qed.

Lemma pools_agree m m' n hs ms : (0 < n)%nat -> agree m m' (concat (concat ms)) ->
  Forall2 (pool m n) hs ms -> Forall2 (pool m' n) hs ms.
Proof.
  intros Hn Ha Hf. induction Hf as [|h l hs ms Hp _ IH]; [done|]. simpl in Ha. rewrite concat_app in Ha.
  constructor.
  - apply (pool_agree m); [done| |done]. apply (agree_sub _ _ _ _ Ha). intros x Hx. apply elem_of_app. by left.
  - apply IH, (agree_sub _ _ _ _ Ha). intros x Hx. apply elem_of_app. by right.
Qed.

(** ** The invariant *)

Section Inv.
Context {S : Type} `{TcacheOpsLaws S}.

Definition owned (s : system S) (v : view) : list Z := users s ++ cached v.

Record inv (s : system S) (v : view) : Prop := {
  in_size : (0 < mag_size (tc (sh s)) <= TCACHE_MAX_MAG_SIZE)%nat;
  in_layout : layout s v;
  in_nodup : NoDup (owned s v);
  in_nonnull : 0 ∉ owned s v;
  in_back : holds (next_item (hdr (sh s))) (back (sh s)) (list_to_set (owned s v));
  in_count : mags_allocated (tc (sh s)) * Z.of_nat (mag_size (tc (sh s))) = Z.of_nat (length (owned s v))
}.

(** The same cache with the same allocator and number of magazines. *)
Record same_cache (w w' : shared S) : Prop := {
  sc_size : mag_size (tc w') = mag_size (tc w);
  sc_mags : mags_allocated (tc w') = mags_allocated (tc w);
  sc_back : back w' = back w
}.

(** Items change hands, and only items of the account are written to. *)
Lemma inv_move s v s' v' : inv s v -> same_cache (sh s) (sh s') ->
  (forall x, x ∉ owned s v -> next_item (hdr (sh s')) x = next_item (hdr (sh s)) x) ->
  owned s' v' ≡ₚ owned s v -> layout s' v' -> inv s' v'.
Proof.
  intros [H1 H2 H3 H4 H5 H6] [E1 E2 E3] Hm Hp Hl. split; rewrite ?Hp, ?E1, ?E2, ?E3; try done.
  apply (holds_frame (next_item (hdr (sh s)))); [done|]. intros x Hx. apply Hm. by rewrite elem_of_list_to_set in Hx.
Qed.

(** The lists of the other threads and of the reclaimers, when thread [i] does
    something with users' items, its own and the pool. *)
Lemma inv_thread s v i t a t' a' w' us' sv' :
  inv s v -> pts s !! i = Some t -> tv v !! i = Some a -> same_cache (sh s) w' ->
  us' ++ mags a' ++ concat sv' ≡ₚ users s ++ mags a ++ concat (sv v) ->
  (forall x, x ∉ users s ++ mags a ->
     next_item (hdr w') x = next_item (hdr (sh s)) x /\ next_mag (hdr w') x = next_mag (hdr (sh s)) x) ->
  thread_ok (hdr w') (mag_size (tc w')) t' a' -> pool (hdr w') (mag_size (tc w')) (shared_mags (tc w')) sv' ->
  inv (s <| sh := w' |> <| pts := <[i := t']> (pts s) |> <| users := us' |>) (View (<[i := a']> (tv v)) sv' (rv v)).
Proof.
  intros Hi Ht Ha Hc Hp Hm Hok Hpool. pose proof Hi as [[Hn Hmax] [L1 L2 L3] Hd _ _ _]. pose proof Hc as [E1 _ _].
  destruct (concat_at (mags <$> tv v) i (mags a)) as (rest & Hr1 & Hr2 & _); [by rewrite list_lookup_fmap, Ha|].
  assert (owned s v ≡ₚ (users s ++ mags a) ++ concat (sv v) ++ rest ++ concat (concat (rv v))) as Ho.
  { unfold owned, cached. rewrite Hr2. solve_Permutation. }
  pose proof Hd as Hd'. rewrite Ho in Hd'. apply NoDup_app in Hd' as (Hd1 & Hd2 & Hd3).
  apply (inv_move s v); simpl; [done|done| | |].
  - intros x Hx. apply Hm. intros Hin. apply Hx. rewrite Ho. apply elem_of_app. by left.
  - rewrite Ho. unfold owned, cached. simpl. rewrite list_fmap_insert, Hr1.
    transitivity ((us' ++ mags a' ++ concat sv') ++ rest ++ concat (concat (rv v))); [solve_Permutation|].
    rewrite Hp. solve_Permutation.
  - split; simpl; rewrite ?E1 in *.
    + apply (threads_insert (hdr (sh s)) _ _ _ _ _ _ a); [done|done| | |done].
      * intros x Hx Hxa. apply Hm. intros [Hu|Hu]%elem_of_app; [|done].
        unfold owned in Hd. apply NoDup_app in Hd as (_ & Hd & _). apply (Hd x Hu). apply elem_of_app. by left.
      * unfold owned, cached in Hd. apply NoDup_app in Hd as (_ & _ & Hd). by apply NoDup_app in Hd as (Hd & _ & _).
    + done.
    + apply (pools_agree (hdr (sh s))); [done| |done]. intros x Hx. apply Hm. intros Hin. apply (Hd2 x Hin).
      rewrite !elem_of_app. by right; right.
Qed.

Lemma thread_view s v i t : inv s v -> pts s !! i = Some t ->
  exists a, tv v !! i = Some a /\ thread_ok (hdr (sh s)) (mag_size (tc (sh s))) t a.
Proof.
  intros [_ [L1 _ _] _ _ _ _] Ht. destruct (Forall2_lookup_l _ _ _ _ _ L1 Ht) as (a & Ha & Hok). by exists a.
Qed.

(** ** The operations *)

Lemma chain_pos m h l : chain m h l -> l <> [] -> h <> 0 /\ exists k, l = h :: k /\ chain m (next_item m h) k.
Proof. destruct l as [|x k]; [done|]. intros (-> & Hx & Hc) _. split; [done|by exists k]. Qed.

(** Taking the first item of a full magazine. *)
Lemma reload_ok n l k (w : shared S) : (0 < n)%nat -> previous l = 0 -> capacity l = Z.of_nat n ->
  chain (hdr w) (loaded l) k -> length k = n ->
  loaded l <> 0 /\ exists k', k = loaded l :: k' /\ thread_ok (hdr w) n ((reload l w).2, false) (k', []).
Proof.
  intros Hn Hp Hc Hk Hl. destruct (chain_pos _ _ _ Hk) as (Hh & k' & -> & Hk'); [by intros ->; simpl in Hl; lia|].
  split; [done|]. exists k'. split; [done|]. simpl in Hl. split; simpl; [done|lia|lia|done|by rewrite Hp|by left|done].
Qed.

Lemma same_refl w : same_cache w w.
Proof. done. Qed.

Lemma alloc_begin_ok s v i l : inv s v -> pts s !! i = Some (l, false) ->
  exists x l' w' v', alloc_begin l (sh s) = Some (x, l', w') /\ (x = 0 -> w' = sh s /\ sv v = [] /\ tv v !! i = Some ([], [])) /\
    inv (s <| sh := w' |> <| pts := <[i := (l', x =? 0)]> (pts s) |> <| users := if x =? 0 then users s else x :: users s |>) v'.
Proof.
  intros Hi Hl. destruct (thread_view s v i _ Hi Hl) as ([a b] & Ha & [T1 T2 T3 T4 T5 T6 _]). simpl in *.
  pose proof (in_size _ _ Hi) as [Hn _]. pose proof (la_pool _ _ (in_layout _ _ Hi)) as Hpool.
  set (n := mag_size (tc (sh s))) in *. unfold alloc_begin. destruct (rounds l =? 0) eqn:Er; simpl.
  - assert (a = []) as -> by (apply length_zero_iff_nil; lia). simpl in T1. rewrite T1. simpl.
    destruct (previous l =? 0) eqn:Ep; simpl.
    + assert (b = []) as -> by (apply Z.eqb_eq in Ep; rewrite Ep in T5; by apply chain_null in T5).
      unfold take_shared. destruct (shared_mags (tc (sh s)) =? 0) eqn:Es; simpl; rewrite ?Es.
      * apply Z.eqb_eq in Es. rewrite Es in Hpool. apply pool_null in Hpool.
        eexists _, _, _, (View (<[i := ([], [])]> (tv v)) [] (rv v)). split; [done|]. split; [done|].
        apply (inv_thread s v i _ _ _ _ _ _ _ Hi Hl Ha (same_refl _)); [by rewrite Hpool|done| |by rewrite Es].
        split; simpl; [by rewrite Es|lia|lia|done|done|by left|done].
      * apply Z.eqb_neq in Es. destruct (sv v) as [|k ms] eqn:Ev; [done|]. destruct Hpool as (_ & Hk & Hkl & Hms).
        pose (l1 := l <| loaded := shared_mags (tc (sh s)) |>).
        pose (w1 := sh s <| tc := tc (sh s) <| shared_mags := next_mag (hdr (sh s)) (shared_mags (tc (sh s))) |> |>).
        destruct (reload_ok n l1 k w1) as (Hh & k' & -> & Hok); [done|by apply Z.eqb_eq|done|done|done|].
        apply Z.eqb_neq in Hh. simpl in *. eexists _, _, w1, (View (<[i := (k', [])]> (tv v)) ms (rv v)).
        split; [done|]. rewrite Hh. split; [lia|]. apply (inv_thread s v i _ _ _ _ w1 _ _ Hi Hl Ha); [done| |done|done|done].
        rewrite Ev. simpl. unfold mags. simpl. rewrite !app_nil_r. solve_Permutation.
    + apply Z.eqb_neq in Ep. destruct T6 as [->|Hb]; [by simpl in T5|].
      pose (l1 := l <| loaded := previous l |> <| previous := 0 |>).
      destruct (reload_ok n l1 b (sh s)) as (Hh & k' & -> & Hok); [done|done|done|done|done|].
      apply Z.eqb_neq in Hh. simpl in *. eexists _, _, _, (View (<[i := (k', [])]> (tv v)) (sv v) (rv v)).
      split; [done|]. rewrite Hh. split; [lia|]. apply (inv_thread s v i _ _ _ _ _ _ _ Hi Hl Ha (same_refl _)); [|done|done|done].
      unfold mags. simpl. rewrite app_nil_r. solve_Permutation.
  - destruct (chain_pos _ _ _ T1) as (Hh & k & -> & Hk); [by intros ->; simpl in T2; lia|]. apply Z.eqb_neq in Hh.
    eexists _, _, _, (View (<[i := (k, b)]> (tv v)) (sv v) (rv v)). split; [done|]. rewrite Hh. split; [lia|].
    simpl in *. apply (inv_thread s v i _ _ _ _ _ _ _ Hi Hl Ha (same_refl _)); [unfold mags; simpl; solve_Permutation|done| |done].
    split; simpl; [done|lia|lia|done|done|done|done].
Qed.

Lemma wr_ne f a v x : x <> a -> wr f a v x = f x.
Proof. intros H1. unfold wr. by apply Z.eqb_neq in H1 as ->. Qed.
Lemma wr_eq f a v : wr f a v a = v.
Proof. unfold wr. by rewrite Z.eqb_refl. Qed.

(** Writing to an item outside [l], and to the second word of another. *)
Lemma agree_writes m l x u y z : x ∉ l -> y ∉ l ->
  agree m (Hdrs (wr (next_item m) x u) (wr (next_mag m) y z)) l.
Proof. intros Hx Hy e He. simpl. split; apply wr_ne; intros ->; done. Qed.
Lemma agree_write m l x u : x ∉ l -> agree m (Hdrs (wr (next_item m) x u) (next_mag m)) l.
Proof. intros Hx e He. simpl. split; [|done]. apply wr_ne. by intros ->. Qed.

(** What thread [i] has, a user has and the pool has are different items. *)
Record apart (s : system S) (v : view) (a b : list Z) (x : Z) : Prop := {
  ap_null : x <> 0;
  ap_mags : x ∉ a /\ x ∉ b /\ x ∉ concat (sv v);
  ap_prev : forall y, y ∈ b -> y ∉ a /\ y ∉ concat (sv v);
  ap_users : forall y, y ∉ users s ++ mags (a, b) -> y <> x /\ y ∉ b
}.
Lemma inv_apart s v i a b k x : inv s v -> tv v !! i = Some (a, b) -> users s !! k = Some x -> apart s v a b x.
Proof.
  intros Hi Ha Hx. pose proof (in_nodup _ _ Hi) as Hd. pose proof (in_nonnull _ _ Hi) as Hz.
  destruct (concat_at (mags <$> tv v) i (mags (a, b))) as (rest & _ & Hr & _); [by rewrite list_lookup_fmap, Ha|].
  pose proof (delete_Permutation _ _ _ Hx) as Hu. unfold owned, cached in *. rewrite Hr, Hu in Hd, Hz.
  assert (NoDup (x :: b ++ a ++ concat (sv v))) as Hn.
  { assert ((x :: delete k (users s)) ++ (mags (a, b) ++ rest) ++ concat (sv v) ++ concat (concat (rv v)) ≡ₚ
      (x :: b ++ a ++ concat (sv v)) ++ delete k (users s) ++ rest ++ concat (concat (rv v))) as Hp
      by (unfold mags; simpl; solve_Permutation).
    rewrite Hp in Hd. by apply NoDup_app in Hd as (Hd & _ & _). }
  apply NoDup_cons in Hn as [Hx1 Hn]. rewrite !not_elem_of_app in Hx1. apply NoDup_app in Hn as (_ & Hb & _). split.
  - intros ->. apply Hz. simpl. by left.
  - tauto.
  - intros y Hy. specialize (Hb y Hy). rewrite not_elem_of_app in Hb. done.
  - intros y. rewrite Hu. unfold mags. simpl. rewrite not_elem_of_cons, !not_elem_of_app. tauto.
Qed.

Lemma give_back (us : list Z) k x l l' : us !! k = Some x -> l ≡ₚ x :: l' -> delete k us ++ l ≡ₚ us ++ l'.
Proof.
  intros Hx ->. pose proof (delete_Permutation _ _ _ Hx) as Hu. revert Hu. generalize (delete k us). intros r ->. solve_Permutation.
Qed.

(** [tcache_free] with room in the loaded magazine, with an empty previous
    magazine, and with two full ones. *)
Lemma free_fast_ok s v i k l x a b : inv s v -> pts s !! i = Some (l, false) -> users s !! k = Some x ->
  tv v !! i = Some (a, b) -> thread_ok (hdr (sh s)) (mag_size (tc (sh s))) (l, false) (a, b) -> rounds l < capacity l ->
  inv (s <| sh := set_next_item x (loaded l) (sh s) |>
         <| pts := <[i := (l <| rounds := rounds l + 1 |> <| loaded := x |>, false)]> (pts s) |>
         <| users := delete k (users s) |>) (View (<[i := (x :: a, b)]> (tv v)) (sv v) (rv v)).
Proof.
  intros Hi Hl Hx Ha [T1 T2 T3 T4 T5 T6 _] Hr. destruct (inv_apart s v i a b k x Hi Ha Hx) as [A1 (A2 & A3 & A4) A5 A6].
  simpl in *. apply (inv_thread s v i _ _ _ _ _ _ _ Hi Hl Ha); [done| | | |]; simpl.
  - apply (give_back _ _ _ _ _ Hx). unfold mags. simpl. solve_Permutation.
  - intros y Hy. split; [|done]. by apply wr_ne, A6.
  - split; simpl; [|lia|lia|done| |done|done].
    + split_and!; [done|done|]. rewrite wr_eq. by apply (chain_agree (hdr (sh s))); [apply agree_write|].
    + by apply (chain_agree (hdr (sh s))); [apply agree_write|].
  - apply (pool_agree (hdr (sh s))); [apply (in_size _ _ Hi)|by apply agree_write|]. apply (la_pool _ _ (in_layout _ _ Hi)).
Qed.

Lemma free_swap_ok s v i k l x a : inv s v -> pts s !! i = Some (l, false) -> users s !! k = Some x ->
  tv v !! i = Some (a, []) -> thread_ok (hdr (sh s)) (mag_size (tc (sh s))) (l, false) (a, []) -> rounds l = capacity l ->
  inv (s <| sh := set_next_item x 0 (sh s) |>
         <| pts := <[i := (l <| previous := loaded l |> <| rounds := 1 |> <| loaded := x |>, false)]> (pts s) |>
         <| users := delete k (users s) |>) (View (<[i := ([x], a)]> (tv v)) (sv v) (rv v)).
Proof.
  intros Hi Hl Hx Ha [T1 T2 T3 T4 T5 T6 _] Hr. destruct (inv_apart s v i a [] k x Hi Ha Hx) as [A1 (A2 & A3 & A4) A5 A6].
  pose proof (in_size _ _ Hi) as [Hn _]. simpl in *. apply (inv_thread s v i _ _ _ _ _ _ _ Hi Hl Ha); [done| | | |]; simpl.
  - apply (give_back _ _ _ _ _ Hx). unfold mags. simpl. rewrite app_nil_r. solve_Permutation.
  - intros y Hy. split; [|done]. by apply wr_ne, A6.
  - split; simpl; [by rewrite wr_eq|done|lia|done| |right; lia|done].
    by apply (chain_agree (hdr (sh s))); [apply agree_write|].
  - apply (pool_agree (hdr (sh s))); [done|by apply agree_write|]. apply (la_pool _ _ (in_layout _ _ Hi)).
Qed.

Lemma free_return_ok s v i k l x a b (w := set_next_mag (previous l) (shared_mags (tc (sh s))) (sh s)) :
  inv s v -> pts s !! i = Some (l, false) -> users s !! k = Some x -> tv v !! i = Some (a, b) ->
  thread_ok (hdr (sh s)) (mag_size (tc (sh s))) (l, false) (a, b) -> rounds l = capacity l -> previous l <> 0 ->
  inv (s <| sh := set_next_item x 0 (w <| tc := tc w <| shared_mags := previous l |> |>) |>
         <| pts := <[i := (l <| previous := loaded l |> <| rounds := 1 |> <| loaded := x |>, false)]> (pts s) |>
         <| users := delete k (users s) |>) (View (<[i := ([x], a)]> (tv v)) (b :: sv v) (rv v)).
Proof.
  intros Hi Hl Hx Ha [T1 T2 T3 T4 T5 T6 _] Hr Hp. destruct (inv_apart s v i a b k x Hi Ha Hx) as [A1 (A2 & A3 & A4) A5 A6].
  pose proof (in_size _ _ Hi) as [Hn _]. simpl in *. destruct (chain_nonnull _ _ _ Hp T5) as (b' & Eb & _).
  assert (previous l ∈ b) as Hb by (rewrite Eb; left). destruct (A5 _ Hb) as [B1 B2]. destruct T6 as [->|Hlb]; [done|].
  apply (inv_thread s v i _ _ _ _ _ _ _ Hi Hl Ha); [done| | | |]; simpl.
  - apply (give_back _ _ _ _ _ Hx). unfold mags. simpl. solve_Permutation.
  - intros y Hy. destruct (A6 y Hy) as [C1 C2]. split; [by apply wr_ne|]. apply wr_ne. by intros ->.
  - split; simpl; [by rewrite wr_eq|done|lia|done| |right; lia|done].
    by apply (chain_agree (hdr (sh s))); [apply agree_writes|].
  - split_and!; [done| |done|].
    + apply (chain_items (hdr (sh s))); [|done]. intros y Hy. apply wr_ne. by intros ->.
    + rewrite wr_eq. apply (pool_agree (hdr (sh s))); [done|by apply agree_writes|]. apply (la_pool _ _ (in_layout _ _ Hi)).
Qed.

Lemma tcache_free_ok s v i k l x : inv s v -> pts s !! i = Some (l, false) -> users s !! k = Some x ->
  exists l' w' v', tcache_free l x (sh s) = Some (l', w') /\
    inv (s <| sh := w' |> <| pts := <[i := (l', false)]> (pts s) |> <| users := delete k (users s) |>) v'.
Proof.
  intros Hi Hl Hx. destruct (thread_view s v i _ Hi Hl) as ([a b] & Ha & Hok). pose proof Hok as [T1 T2 T3 T4 T5 T6 _].
  pose proof (in_size _ _ Hi) as [Hn _]. simpl in *. unfold tcache_free. destruct (rounds l >=? capacity l) eqn:Er; simpl.
  - replace (rounds l =? capacity l) with true by lia.
    destruct (chain_pos _ _ _ T1) as (Hh & _); [by intros ->; simpl in *; lia|]. apply Z.eqb_neq in Hh as ->. simpl.
    destruct (previous l =? 0) eqn:Ep.
    + apply Z.eqb_eq in Ep. rewrite Ep in T5. apply chain_null in T5 as ->.
      eexists _, _, _. split; [done|]. apply (free_swap_ok s v i k l x a Hi Hl Hx Ha Hok). lia.
    + eexists _, _, _. split; [done|]. apply (free_return_ok s v i k l x a b Hi Hl Hx Ha Hok); lia.
  - eexists _, _, _. split; [done|]. apply (free_fast_ok s v i k l x a b Hi Hl Hx Ha Hok). lia.
Qed.

(** Memory changes outside what is cached. *)
Lemma layout_agree (s s' : system S) v : (0 < mag_size (tc (sh s)))%nat -> layout s v -> agree (hdr (sh s)) (hdr (sh s')) (cached v) ->
  mag_size (tc (sh s')) = mag_size (tc (sh s)) -> shared_mags (tc (sh s')) = shared_mags (tc (sh s)) -> pts s' = pts s -> reclaiming s' = reclaiming s -> layout s' v.
Proof.
  intros Hn [L1 L2 L3] Ha E1 E4 E2 E3. unfold cached in Ha. split; rewrite ?E1, ?E2, ?E3, ?E4.
  - assert (agree (hdr (sh s)) (hdr (sh s')) (concat (mags <$> tv v))) as Hb.
    { apply (agree_sub _ _ _ _ Ha). intros x Hx. apply elem_of_app. by left. }
    clear Ha L2 L3 E1 E2 E3 E4. induction L1 as [|t a ts vs Ht _ IH]; [done|]. simpl in Hb. constructor.
    + apply (thread_agree (hdr (sh s))); [|done]. apply (agree_sub _ _ _ _ Hb). intros x Hx. apply elem_of_app. by left.
    + apply IH, (agree_sub _ _ _ _ Hb). intros x Hx. apply elem_of_app. by right.
  - apply (pool_agree (hdr (sh s))); [done| |done]. apply (agree_sub _ _ _ _ Ha). intros x Hx. rewrite !elem_of_app. tauto.
  - apply (pools_agree (hdr (sh s))); [done| |done]. apply (agree_sub _ _ _ _ Ha). intros x Hx. rewrite !elem_of_app. tauto.
Qed.

Lemma write_ok s v k x a b : inv s v -> users s !! k = Some x ->
  inv (s <| sh := set_next_item x a (set_next_mag x b (sh s)) |>) v.
Proof.
  intros Hi Hx. assert (x ∈ users s) as Hu by (apply list_elem_of_lookup; by exists k).
  pose proof (in_nodup _ _ Hi) as (_ & Hd & _)%NoDup_app. apply (inv_move s v); simpl; [done|done| |done|].
  - intros y Hy. apply wr_ne. intros ->. apply Hy, elem_of_app. by left.
  - apply (layout_agree s); simpl; try done; [apply (in_size _ _ Hi)|apply (in_layout _ _ Hi)|].
    apply agree_writes; by apply Hd.
Qed.

(** *** New magazines *)

Lemma link_spec pos items (w : shared S) (w' := link pos items w) : NoDup (pos :: items) -> 0 ∉ pos :: items ->
  chain (hdr w') pos (pos :: items) /\ next_mag (hdr w') = next_mag (hdr w) /\ tc w' = tc w /\ back w' = back w /\
  (forall y, y ∉ pos :: items -> next_item (hdr w') y = next_item (hdr w) y).
Proof.
  subst w'. revert pos w. induction items as [|x l IH]; intros pos w Hd Hz; simpl.
  - rewrite wr_eq. split_and!; try done; [by intros ->; apply Hz; left|]. intros y [Hy _]%not_elem_of_cons. by apply wr_ne.
  - apply NoDup_cons in Hd as [Hp Hd]. destruct (IH x (set_next_item pos x w) Hd) as (H1 & H2 & H3 & H4 & H5).
    { intros Hin. apply Hz. by right. }
    assert (next_item (hdr (link x l (set_next_item pos x w))) pos = x) as Ep by (rewrite H5 by done; apply wr_eq).
    rewrite Ep. split; [|split; [done|]; split; [done|]; split; [done|]].
    + split; [done|]. split; [|done]. intros ->. apply Hz. left.
    + intros y [Hy1 Hy2]%not_elem_of_cons. rewrite H5 by done. simpl. by apply wr_ne.
Qed.

Lemma owned_set s v x : x ∈ (list_to_set (owned s v) : gset Z) <-> x ∈ owned s v.
Proof. apply elem_of_list_to_set. Qed.

(** The state of thread [i] does not show in what is owned if it has nothing. *)
Lemma insert_thread_nil s v i a : tv v !! i = Some ([], []) ->
  owned s (View (<[i := a]> (tv v)) (sv v) (rv v)) ≡ₚ mags a ++ owned s v.
Proof.
  intros Ha. destruct (concat_at (mags <$> tv v) i (mags ([], []))) as (rest & Hr1 & Hr2 & _); [by rewrite list_lookup_fmap, Ha|].
  unfold owned, cached. simpl. rewrite list_fmap_insert, Hr1, Hr2. unfold mags. simpl. solve_Permutation.
Qed.

Lemma layout_thread s v i t t' a' : layout (S := S) s v -> NoDup (cached v) -> tv v !! i = Some ([], []) ->
  thread_ok (hdr (sh s)) (mag_size (tc (sh s))) t' a' -> pts s !! i = Some t ->
  layout (s <| pts := <[i := t']> (pts s) |>) (View (<[i := a']> (tv v)) (sv v) (rv v)).
Proof.
  intros [L1 L2 L3] Hd Ha Hok Ht. split; simpl; try done. apply (threads_insert (hdr (sh s)) _ _ _ _ _ _ ([], [])); try done.
  unfold cached in Hd. by apply NoDup_app in Hd as (Hd & _ & _).
Qed.

(** A state with the memory and the allocator replaced. *)
Lemma inv_backend s v m b : inv s v -> holds m b (list_to_set (owned s v)) ->
  (forall x, x ∈ owned s v -> m x = next_item (hdr (sh s)) x) ->
  inv (s <| sh := sh s <| hdr := hdr (sh s) <| next_item := m |> |> <| back := b |> |>) v.
Proof.
  intros Hi Hb Hm. pose proof Hi as [H1 H2 H3 H4 _ H6]. split; simpl; try done.
  apply (layout_agree s); simpl; try done; [lia|]. intros x Hx. split; [|done]. apply Hm, elem_of_app. by right.
Qed.

(** A new magazine, of items that nobody had. *)
Record new_mag (s : system S) (v : view) (h : Z) (k : list Z) (w : shared S) : Prop := {
  nm_chain : chain (hdr w) h (h :: k);
  nm_length : length (h :: k) = mag_size (tc w);
  nm_nodup : NoDup (h :: k);
  nm_null : 0 ∉ h :: k;
  nm_new : forall x, x ∈ h :: k -> x ∉ owned s v;
  nm_layout : layout (s <| sh := w |>) v;
  nm_size : mag_size (tc w) = mag_size (tc (sh s));
  nm_count : mags_allocated (tc w) = mags_allocated (tc (sh s)) + 1;
  nm_back : holds (next_item (hdr w)) (back w) (list_to_set (owned s v) ∪ list_to_set (h :: k))
}.

Lemma alloc_mag_ok s v : inv s v ->
  exists h w, tcache_alloc_mag (sh s) = Some (h, w) /\
    ((h = 0 /\ inv (s <| sh := w |>) v) \/ exists k, new_mag s v h k w).
Proof.
  intros Hi. pose proof Hi as [[Hn _] Hl _ _ Hb _].
  destruct (alloc_ok (mag_size (tc (sh s))) _ _ _ Hb Hn) as (r & m & b & Ea & Hm & Hr).
  unfold tcache_alloc_mag. rewrite Ea. cbn [mbind option_bind]. destruct r as [items|].
  - destruct Hr as (Hlen & Hnd & Hnew & Hh). destruct items as [|h k]; [simpl in Hlen; lia|].
    eexists _, _. split; [done|]. right. exists k. set (w1 := sh s <| hdr := hdr (sh s) <| next_item := m |> |> <| back := b |>).
    assert (0 ∉ h :: k) as Hz by (intros Hin; by destruct (Hnew 0 Hin)).
    destruct (link_spec h k w1 Hnd Hz) as (L1 & L2 & L3 & L4 & L5).
    assert (forall x, x ∈ h :: k -> x ∉ owned s v) as Hno by (intros x Hx; by apply Hnew in Hx as [_ ?%not_elem_of_list_to_set]).
    set (w2 := link h k w1) in *. clearbody w2. split; [by apply L1| | | | | | | |]; simpl; rewrite ?L3, ?L4; try done.
    + apply (layout_agree s); simpl; rewrite ?L3; try done. intros x Hx. rewrite L2. split; [|done].
      assert (x ∈ owned s v) as Hxo by (apply elem_of_app; by right). rewrite L5; [by apply Hm, owned_set|].
      intros Hin. by apply (Hno x).
    + apply (holds_frame m); [done|]. intros x Hx. apply L5. intros Hin. apply Hx, elem_of_union_r.
      rewrite elem_of_union, elem_of_singleton, elem_of_list_to_set. by apply elem_of_cons.
  - eexists _, _. split; [done|]. left. split; [done|]. apply inv_backend; [done|done|].
    intros x Hx. apply Hm. by apply owned_set.
Qed.

(** The new magazine is loaded and its first item given out. *)
Lemma grow_ok s v i l h k w t' (v' := View (<[i := (k, [])]> (tv v)) (sv v) (rv v)) :
  inv s v -> pts s !! i = Some (l, true) -> tv v !! i = Some ([], []) -> new_mag s v h k w ->
  thread_ok (hdr w) (mag_size (tc w)) t' (k, []) ->
  inv (s <| sh := w |> <| pts := <[i := t']> (pts s) |> <| users := h :: users s |>) v'.
Proof.
  intros Hi Hl Ha [N1 N2 N3 N4 N5 N6 N7 N8 N9] Hok. pose proof Hi as [H1 _ H3 H4 _ H6].
  pose (s1 := s <| sh := w |> <| pts := <[i := t']> (pts s) |> <| users := h :: users s |>).
  assert (owned s1 v' ≡ₚ (h :: k) ++ owned s v) as Ho.
  { transitivity (h :: owned s v'); [done|]. unfold v'. rewrite (insert_thread_nil s v i (k, []) Ha).
    unfold mags. simpl. by rewrite app_nil_r. }
  change (inv s1 v'). split; rewrite ?Ho.
  - simpl. by rewrite N7.
  - destruct (layout_thread (s <| sh := w |>) v i (l, true) t' (k, []) N6) as [A B C]; try done.
    unfold owned in H3. by apply NoDup_app in H3 as (_ & _ & ?).
  - apply NoDup_app. split_and!; [done| |done]. intros x Hx. by apply N5.
  - rewrite not_elem_of_app. done.
  - rewrite list_to_set_app_L, (comm_L union). done.
  - rewrite length_app, N2. simpl. rewrite N8, N7. lia.
Qed.

Lemma refill_ok s v i l : inv s v -> pts s !! i = Some (l, true) ->
  exists x l' w' v', alloc_refill l (sh s) = Some (x, l', w') /\
    inv (s <| sh := w' |> <| pts := <[i := (l', false)]> (pts s) |> <| users := if x =? 0 then users s else x :: users s |>) v'.
Proof.
  intros Hi Hl. destruct (thread_view s v i _ Hi Hl) as (a & Ha & [T1 T2 T3 T4 T5 T6 T7]). specialize (T7 eq_refl) as ->.
  simpl in *. destruct (alloc_mag_ok s v Hi) as (h & w & Ew & [[-> Hi'] | [k Hnm]]);
    unfold alloc_refill; rewrite Ew; cbn [mbind option_bind].
  - destruct (thread_view _ v i _ Hi' Hl) as (a' & Ha' & [_ _ _ U4 _ _ _]). simpl in *.
    eexists _, _, _, (View (<[i := ([], [])]> (tv v)) (sv v) (rv v)). split; [done|]. simpl.
    pose proof (inv_thread (s <| sh := w |>) v i (l, true) ([], []) (l <| loaded := 0 |>, false) ([], []) w (users s) (sv v) Hi') as Hs.
    simpl in Hs. apply Hs; try done; [|apply (la_pool _ _ (in_layout _ _ Hi'))].
    split; simpl; [done|lia|lia|done|done|by left|done].
  - pose proof Hnm as [N1 N2 N3 N4 N5 N6 N7 N8 N9]. assert (h <> 0) as Hh by (intros ->; apply N4; left).
    pose (l1 := l <| loaded := h |>). assert (capacity l1 = Z.of_nat (mag_size (tc w))) as Hc by (simpl; by rewrite N7).
    destruct (reload_ok (mag_size (tc w)) l1 (h :: k) w) as (_ & k' & [= <-] & Hok); [simpl in N2; lia|done|done|done|done|].
    apply Z.eqb_neq in Hh. rewrite Hh. eexists _, _, _, _. split; [done|]. simpl. rewrite Hh.
    by apply (grow_ok s v i l h k w).
Qed.

(** *** Reclaiming *)

Lemma reclaim_take_ok s v (hw := reclaim_take (sh s)) : inv s v ->
  inv (s <| sh := hw.2 |> <| reclaiming := hw.1 :: reclaiming s |>) (View (tv v) [] (sv v :: rv v)).
Proof.
  intros Hi. pose proof Hi as [_ [L1 L2 L3] _ _ _ _]. apply (inv_move s v); simpl; [done|done|done| |].
  - unfold owned, cached. simpl. by rewrite concat_app.
  - split; simpl; [done|done|]. by constructor.
Qed.

Lemma collect_ok (w : shared S) fuel h l : chain (hdr w) h l -> l <> [] -> (length l <= fuel)%nat -> collect fuel h w = Some l.
Proof.
  revert h l. induction fuel as [|fuel IH]; intros h l Hc Hl Hf; [by destruct l; simpl in Hf; [|lia]|].
  destruct (chain_pos _ _ _ Hc Hl) as (Hh & k & -> & Hk). simpl in *. destruct (next_item (hdr w) h =? 0) eqn:En.
  - apply Z.eqb_eq in En. rewrite En in Hk. by apply chain_null in Hk as ->.
  - apply Z.eqb_neq in En. rewrite (IH _ k); [done|done| |lia]. by intros ->.
Qed.

Lemma concat_perm {A} (l k : list (list A)) : l ≡ₚ k -> concat l ≡ₚ concat k.
Proof.
  intros Hp. induction Hp as [|x l k _ IH|x y l|l k m _ IH1 _ IH2]; simpl; [done|by rewrite IH|solve_Permutation|by transitivity (concat k)].
Qed.

Lemma reclaim_one_ok s v k h : inv s v -> reclaiming s !! k = Some h -> h <> 0 ->
  exists h' w' l ms, rv v !! k = Some (l :: ms) /\ reclaim_one h (sh s) = Some (h', w') /\
    mags_allocated (tc w') = mags_allocated (tc (sh s)) - 1 /\
    inv (s <| sh := w' |> <| reclaiming := <[k := h']> (reclaiming s) |>) (View (tv v) (sv v) (<[k := ms]> (rv v))).
Proof.
  intros Hi Hk Hh. pose proof Hi as [[Hn Hmax] [L1 L2 L3] Hd Hz Hb Hc].
  destruct (Forall2_lookup_l _ _ _ _ _ L3 Hk) as (ms & Hms & Hp). destruct ms as [|l ms]; [done|]. destruct Hp as (_ & Hl & Hll & Hp).
  destruct (concat_at (rv v) k _ Hms) as (rest & Hr1 & Hr2 & _).
  pose (v' := View (tv v) (sv v) (<[k := ms]> (rv v))).
  assert (owned s v ≡ₚ l ++ owned s v') as Ho.
  { unfold owned, cached. simpl. rewrite (concat_perm _ _ Hr2), (concat_perm _ _ (Hr1 ms)), !concat_app. simpl. solve_Permutation. }
  rewrite Ho in Hd, Hz, Hb, Hc. apply NoDup_app in Hd as (Hd1 & Hd2 & Hd3). rewrite not_elem_of_app in Hz.
  destruct (free_ok l _ _ _ Hb Hd1) as (m & b & Ef & Hm & Hh').
  { intros x Hx. rewrite list_to_set_app_L. apply elem_of_union_l. by apply elem_of_list_to_set. }
  unfold reclaim_one, tcache_free_mag. rewrite (collect_ok _ _ _ _ Hl); [|by intros ->; simpl in Hll; lia|lia].
  cbn [mbind option_bind]. rewrite Hll, Nat.eqb_refl. simpl. rewrite Ef. cbn [mbind option_bind].
  eexists _, _, l, ms. split; [done|]. split; [done|]. split; [done|]. fold v'. simpl in *.
  assert (forall x, x ∈ owned s v' -> m x = next_item (hdr (sh s)) x) as Hag.
  { intros x Hx. apply Hm; [rewrite list_to_set_app_L; apply elem_of_union_r; by apply elem_of_list_to_set|].
    intros Hxl. by apply (Hd2 x). }
  assert (layout (s <| reclaiming := <[k := next_mag (hdr (sh s)) h]> (reclaiming s) |>) v') as HL.
  { split; simpl; [done|done|]. by apply Forall2_insert. }
  split; simpl; try done; [|by destruct Hz|..].
  - apply (layout_agree (s <| reclaiming := <[k := next_mag (hdr (sh s)) h]> (reclaiming s) |>)); simpl; try done. intros x Hx. split; [|done]. apply Hag, elem_of_app. by right.
  - rewrite list_to_set_app_L, difference_union_distr_l_L, difference_diag_L, union_empty_l_L in Hh'.
    rewrite difference_disjoint_L in Hh'; [done|]. intros x Hx1%elem_of_list_to_set Hx2%elem_of_list_to_set. by apply (Hd2 x).
  - rewrite length_app, Hll in Hc. change (length (owned _ v')) with (length (owned s v')). lia.
Qed.

(** ** Executions *)

Inductive reachable (s0 : system S) : system S -> Prop :=
| Start : reachable s0 s0
| Step s a s' : reachable s0 s -> allowed a s = true -> perform a s = Some s' -> reachable s0 s'.

Fixpoint run (l : list call) (s : system S) : option (system S) :=
  match l with [] => Some s | a :: l => if allowed a s then s ← perform a s; run l s else None end.
Lemma cache_run_reachable s0 l s s' : reachable s0 s -> run l s = Some s' -> reachable s0 s'.
Proof.
  revert s. induction l as [|a l IH]; intros s Hr; simpl; [by intros [= <-]|]. destruct (allowed a s) eqn:Ea; [|done].
  destruct (perform a s) as [s1|] eqn:Ep; [|done]. simpl. apply IH. by apply (Step s0 s a).
Qed.

Lemma at_rest_handle (s : system S) i : at_rest i s = true -> exists l, pts s !! i = Some (l, false).
Proof. unfold at_rest. destruct (pts s !! i) as [[l []]|]; [done| |done]. by exists l. Qed.

Lemma perform_ok s v a : inv s v -> allowed a s = true -> exists s' v', perform a s = Some s' /\ inv s' v'.
Proof.
  intros Hi Ha. destruct a as [i|i|i k|k x y| |k]; simpl in *.
  - destruct (at_rest_handle s i Ha) as [l Hl]. destruct (alloc_begin_ok s v i l Hi Hl) as (x & l' & w' & v' & Ex & _ & Hi').
    rewrite Hl. simpl. rewrite Ex. eauto.
  - destruct (pts s !! i) as [[l []]|] eqn:Hl; [|done|done]. destruct (refill_ok s v i l Hi Hl) as (x & l' & w' & v' & Ex & Hi').
    simpl. rewrite Ex. eauto.
  - apply andb_true_iff in Ha as [[l Hl]%at_rest_handle Hk%Nat.ltb_lt]. destruct (lookup_lt_is_Some_2 _ _ Hk) as [x Hx].
    destruct (tcache_free_ok s v i k l x Hi Hl Hx) as (l' & w' & v' & Ex & Hi').
    rewrite Hl, Hx. simpl. rewrite Ex. eauto.
  - apply Nat.ltb_lt, lookup_lt_is_Some_2 in Ha as [z Hz]. rewrite Hz. simpl. eexists _, v. split; [done|]. by apply (write_ok s v k).
  - eexists _, _. split; [done|]. by apply reclaim_take_ok.
  - destruct (reclaiming s !! k) as [h|] eqn:Hh; [|done]. apply negb_true_iff, Z.eqb_neq in Ha.
    destruct (reclaim_one_ok s v k h Hi Hh Ha) as (h' & w' & l & ms & _ & Ex & _ & Hi'). simpl. rewrite Ex. eauto.
Qed.

Lemma init_ok h mag size t b n : tcache_create mag size = Some t -> (0 < mag)%nat -> holds (next_item h) b ∅ ->
  inv (cache_init h t b n) (View (replicate n ([], [])) [] []).
Proof.
  unfold tcache_create. intros Ht Hm Hb. destruct (_ || _) eqn:E; [done|]. injection Ht as <-.
  apply orb_false_iff in E as [_ E%Nat.ltb_ge].
  assert (cached (View (replicate n ([], [])) [] []) = []) as Ec.
  { unfold cached. simpl. rewrite fmap_replicate. by induction n. }
  split; unfold owned; rewrite ?Ec; simpl; try done.
  - split; simpl; [|done|constructor]. apply Forall2_replicate. split; simpl; try done; [lia|by left].
  - apply NoDup_nil_2.
  - apply not_elem_of_nil.
Qed.

Lemma cache_reachable_inv s0 v0 s : inv s0 v0 -> reachable s0 s -> exists v, inv s v.
Proof.
  intros Hi Hr. induction Hr as [|s a s' _ [v Hv] Ha Hp]; [by exists v0|].
  destruct (perform_ok s v a Hv Ha) as (s'' & v' & Ep & Hi'). exists v'. congruence.
Qed.

(** Following the links gives the items of the layout. *)
Lemma follow_chain m h l fuel : chain m h l -> (length l <= fuel)%nat -> follow fuel (next_item m) h = l.
Proof.
  revert h fuel. induction l as [|x l IH]; intros h fuel; simpl; [by intros -> _; destruct fuel|]. intros (-> & Hx & Hc) Hf.
  destruct fuel as [|fuel]; [lia|]. simpl. apply Z.eqb_neq in Hx. rewrite Hx, (IH _ fuel); [done|done|lia].
Qed.
Lemma pool_items_ok m n h ms k : (n <= TCACHE_MAX_MAG_SIZE)%nat -> pool m n h ms -> (length ms <= k)%nat -> pool_items k m h = ms.
Proof.
  intros Hn. revert h k. induction ms as [|l ms IH]; intros h k; simpl; [by intros -> _; destruct k|]. intros (Hh & Hc & Hl & Hp) Hk.
  destruct k as [|k]; [lia|]. unfold pool_items in *. simpl. apply Z.eqb_neq in Hh. rewrite Hh. simpl. rewrite (IH _ k); [|done|lia].
  f_equal. apply follow_chain; [done|lia].
Qed.
Lemma pool_length m n h ms : pool m n h ms -> length (concat ms) = (n * length ms)%nat.
Proof. revert h. induction ms as [|l ms IH]; intros h; simpl; [lia|]. intros (_ & _ & Hl & Hp). rewrite length_app, (IH _ Hp). lia. Qed.
Lemma threads_items m n ts vs : (n <= TCACHE_MAX_MAG_SIZE)%nat -> Forall2 (thread_ok m n) ts vs ->
  (fun t => mag_items m (loaded t.1) ++ mag_items m (previous t.1)) <$> ts = mags <$> vs.
Proof.
  intros Hn Hf. induction Hf as [|t v ts vs [T1 T2 T3 T4 T5 T6 T7] _ IH]; [done|]. rewrite !fmap_cons, IH. f_equal. unfold mag_items, mags.
  rewrite (follow_chain m (loaded t.1) v.1), (follow_chain m (previous t.1) v.2); try done; [|lia]. destruct T6 as [-> | ->]; simpl; lia.
Qed.
Lemma cached_items_ok s v : inv s v -> cached_items s = cached v.
Proof.
  intros [[Hn Hmax] [L1 L2 L3] _ _ _ Hc]. unfold owned, cached in Hc. rewrite !length_app in Hc. unfold cached_items, cached. rewrite (threads_items _ _ _ _ Hmax L1). f_equal.
  set (k := Z.to_nat _). assert (forall h ms, pool (hdr (sh s)) (mag_size (tc (sh s))) h ms -> (length (concat ms) <= length (concat (sv v)) + length (concat (concat (rv v))))%nat ->
    pool_items k (hdr (sh s)) h = ms) as Hpool.
  { intros h ms Hp Hle. apply (pool_items_ok _ (mag_size (tc (sh s)))); [done|done|]. rewrite (pool_length _ _ _ _ Hp) in Hle. unfold k. nia. }
  rewrite (Hpool _ _ L2) by lia. f_equal. f_equal. f_equal. assert (forall ms, ms ∈ rv v -> (length (concat ms) <= length (concat (concat (rv v))))%nat) as Hle.
  { clear. induction (rv v) as [|x l IH]; intros ms; [by intros ?%not_elem_of_nil|]. simpl. rewrite concat_app, length_app. intros [->|H%IH]%elem_of_cons; lia. }
  assert (forall h ms, pool (hdr (sh s)) (mag_size (tc (sh s))) h ms -> ms ∈ rv v -> pool_items k (hdr (sh s)) h = ms) as Hall.
  { intros h ms Hp Hin. apply Hpool; [done|]. specialize (Hle ms Hin). lia. }
  clear -L3 Hall. induction L3 as [|h ms hs mss Hp _ IH]; [done|]. rewrite fmap_cons, (Hall h ms Hp) by left. f_equal. apply IH.
  intros h' ms' Hp' Hin. apply Hall; [done|by right].
Qed.

(** C21: a cache over any allocator that keeps the contract of [struct
    tcache_ops], with any number of threads, in any interleaving of their calls
    with each other, with writes of users to the items they hold and with
    reclaimers: no assertion of the cache fails; the items in use are different,
    not [NULL] and distinct from every cached item, whatever the users write;
    and the items the allocator has given out are exactly those in use and those
    that the links reach from the threads' magazines, the shared pool and the
    reclaimers: none is lost, and there are [mag_size] of them for each magazine
    counted in [mags_allocated].  A critical section is one step. *)
Theorem tcache_exclusive h mag size t b n s :
  tcache_create mag size = Some t -> (0 < mag)%nat -> holds (next_item h) b ∅ ->
  reachable (cache_init h t b n) s ->
  (forall a, allowed a s = true -> is_Some (perform a s)) /\
  NoDup (users s ++ cached_items s) /\ 0 ∉ users s ++ cached_items s /\
  holds (next_item (hdr (sh s))) (back (sh s)) (list_to_set (users s ++ cached_items s)) /\
  mags_allocated (tc (sh s)) * Z.of_nat (mag_size (tc (sh s))) = Z.of_nat (length (users s ++ cached_items s)).
Proof.
  intros Ht Hm Hb Hr. destruct (cache_reachable_inv _ _ _ (init_ok h mag size t b n Ht Hm Hb) Hr) as [v Hv]. split.
  - intros a Ha. destruct (perform_ok s v a Hv Ha) as (s' & _ & -> & _). by eexists.
  - rewrite (cached_items_ok s v Hv). by destruct Hv.
Qed.

(** *** The calls as a whole *)

(** A call of [tcache_alloc] that no other interrupts. *)
Theorem tcache_alloc_runs s v i l : inv s v -> pts s !! i = Some (l, false) ->
  exists x l' w' v', tcache_alloc l (sh s) = Some (x, l', w') /\
    inv (s <| sh := w' |> <| pts := <[i := (l', false)]> (pts s) |> <| users := if x =? 0 then users s else x :: users s |>) v'.
Proof.
  intros Hi Hl. destruct (alloc_begin_ok s v i l Hi Hl) as (x & l' & w' & v' & Ex & _ & Hi').
  unfold tcache_alloc. rewrite Ex. cbn [mbind option_bind]. destruct (x =? 0) eqn:E0; [|exists x, l', w', v'; by rewrite E0].
  destruct (refill_ok _ v' i l' Hi') as (y & l2 & w2 & v2 & Ey & Hi2).
  { simpl. apply list_lookup_insert_eq. by eapply lookup_lt_Some. }
  simpl in *. rewrite Ey. exists y, l2, w2, v2. split; [done|]. by rewrite list_insert_insert_eq in Hi2.
Qed.

(** [tcache_reclaim] ends, and returns every magazine of the pool. *)
Lemma reclaim_loop_ok fuel s v h ms r rs : inv s v -> reclaiming s = h :: r -> rv v = ms :: rs -> (length ms < fuel)%nat ->
  exists w' v', reclaim_loop fuel h (sh s) = Some w' /\ inv (s <| sh := w' |> <| reclaiming := 0 :: r |>) v' /\
    mags_allocated (tc w') = mags_allocated (tc (sh s)) - Z.of_nat (length ms).
Proof.
  revert s v h ms. induction fuel as [|fuel IH]; intros s v h ms Hi Hr Hv Hf; [lia|]. simpl.
  pose proof Hi as [_ [_ _ L3] _ _ _ _]. rewrite Hr, Hv in L3. inversion L3 as [|? ? ? ? Hp _]; subst.
  destruct (h =? 0) eqn:E0.
  - apply Z.eqb_eq in E0 as ->. apply pool_null in Hp as ->. exists (sh s), v. split; [done|]. split; [|simpl; lia].
    destruct s as [w p u rr]. simpl in *. by subst.
  - apply Z.eqb_neq in E0. destruct (reclaim_one_ok s v 0 h Hi) as (h' & w' & l & ms' & Em & Ex & Hm & Hi'); [by rewrite Hr|done|].
    rewrite Hv in Em, Hi'. simpl in Em. injection Em as ->. rewrite Hr in Hi'. simpl in *. rewrite Ex. cbn [mbind option_bind].
    destruct (IH _ _ h' ms' Hi' eq_refl eq_refl ltac:(lia)) as (w2 & v2 & E2 & Hi2 & Hm2). simpl in *.
    exists w2, v2. split; [done|]. split; [done|]. lia.
Qed.

Theorem tcache_reclaim_returns s v fuel : inv s v -> (length (sv v) < fuel)%nat ->
  exists w' v', tcache_reclaim fuel (sh s) = Some w' /\ inv (s <| sh := w' |> <| reclaiming := 0 :: reclaiming s |>) v' /\
    mags_allocated (tc w') = mags_allocated (tc (sh s)) - Z.of_nat (length (sv v)).
Proof.
  intros Hi Hf. destruct (reclaim_loop_ok fuel _ _ _ (sv v) _ _ (reclaim_take_ok s v Hi) eq_refl eq_refl Hf) as (w' & v' & E & Hi' & Hm).
  by exists w', v'.
Qed.
End Inv.

(** ** An allocator that never reuses an item *)

Definition bump_items (n : nat) (b : Z) : list Z := (fun i => b + 16 * Z.of_nat i) <$> seq 0 n.
#[global] Instance bump_ops : tcache_ops Z := {
  ops_alloc n m b := Some (if b <? 4096 then (Some (bump_items n b), m, b + 16 * Z.of_nat n) else (None, m, b));
  ops_free l m b := Some (m, b)
}.
#[global, refine] Instance bump_laws : TcacheOpsLaws Z := {
  holds m b out := 0 < b /\ forall x, x ∈ out -> x < b
}.
Proof.
  - done.
  - intros n m b out [Hb Ho] Hn. simpl. destruct (b <? 4096); eexists _, _, _; (split; [done|]); (split; [done|]); [|done].
    assert (forall x, x ∈ bump_items n b -> b <= x < b + 16 * Z.of_nat n) as Hx.
    { intros x (i & -> & Hi%elem_of_seq)%list_elem_of_fmap. lia. }
    split_and!.
    + unfold bump_items. by rewrite length_fmap, length_seq.
    + apply NoDup_fmap_2; [intros i j; lia|apply NoDup_seq].
    + intros x Hin. specialize (Hx x Hin). split; [lia|]. intros Hi. specialize (Ho x Hi). lia.
    + lia.
    + intros x [Hi|Hi%elem_of_list_to_set]%elem_of_union; [specialize (Ho x Hi)|specialize (Hx x Hi)]; lia.
  - intros l m b out [Hb Ho] _ _. simpl. eexists _, _. split; [done|]. split; [done|]. split; [done|].
    intros x [Hx _]%elem_of_difference. by apply Ho.
Defined.

Definition demo_cache : system Z := cache_init (Hdrs (fun _ => 7) (fun _ => 7)) (Tcache 2 64 0 0) 16 2.

(** Two threads: thread 0 allocates five items, one of which is overwritten; thread 1 frees
    them all, so that a magazine goes to the shared pool, which a reclaimer takes. *)
Definition demo_calls : list call :=
  [Alloc 0; Refill 0; Alloc 0; Alloc 0; Refill 0; Alloc 0; Alloc 0; Refill 0; Write 1 5 6;
   Free 1 1; Free 1 1; Free 1 1; Free 1 1; Free 1 0; Reclaim; Alloc 1].
Lemma tcache_exclusive_witness : exists s,
  run demo_calls demo_cache = Some s /\ users s = [80] /\ mags_allocated (tc (sh s)) = 3 /\ cached_items s = [96; 16; 32; 48; 64] /\ NoDup (users s ++ cached_items s).
Proof.
  eexists. split; [vm_compute; reflexivity|]. split; [reflexivity|]. split; [reflexivity|]. split; [vm_compute; reflexivity|].
  refine (match tcache_exclusive (Hdrs (fun _ => 7) (fun _ => 7)) 2 64 (Tcache 2 64 0 0) 16 2 _ eq_refl _ _ _ with
          | conj _ (conj Hc _) => Hc end).
  - lia.
  - simpl. split; [lia|]. intros x Hx. by apply not_elem_of_empty in Hx.
  - apply (cache_run_reachable _ demo_calls demo_cache); [apply Start|]. vm_compute. reflexivity.
Defined.
