(* ===== verification/Mempool.v ===== *)
(** * mempool: a preallocated pool of items

    Models [inc/base/mempool.h] and [base/mempool.c], in the build without
    [DEBUG]: an array of free items whose first [allocated] entries are stale,
    and its use as the allocator behind a per-thread cache (Tcache).  Sizes are
    those of a buffer in a 64-bit address space, so no multiplication wraps. *)

From S2P Require Import Prelude StdDef Tcache.

Definition ENOMEM : Z := 12.
Definition EINVAL : Z := 22.

Record mempool := Mempool {
  free_items : list Z; allocated : Z; capacity : Z; buf : Z; len : Z; pgsize : Z; item_len : Z }.
#[global] Instance eta_mempool : Settable mempool := fun r =>
  Mempool (free_items r) (allocated r) (capacity r) (buf r) (len r) (pgsize r) (item_len r).

(** ** Operations *)

(** Reading and writing the array; [None] is an access outside of it. *)
Definition read_item (i : Z) (m : mempool) : option Z :=
  if i <? 0 then None else free_items m !! Z.to_nat i.
Definition write_item (i x : Z) (m : mempool) : option mempool :=
  if (0 <=? i) && (i <? Z.of_nat (length (free_items m)))
  then Some (m <| free_items := <[Z.to_nat i := x]> (free_items m) |>) else None.

(** The loops of [mempool_populate]. *)
Fixpoint fill_page (n : nat) (base j : Z) (m : mempool) : option mempool :=
  match n with
  | O => Some m
  | S n =>
      m ← write_item (capacity m) (base + item_len m * j) m;
      fill_page n base (j + 1) (m <| capacity := capacity m + 1 |>)
  end.
Fixpoint fill_pages (n per_page : nat) (i : Z) (m : mempool) : option mempool :=
  match n with
  | O => Some m
  | S n => m ← fill_page per_page (buf m + pgsize m * i) 0 m; fill_pages n per_page (i + 1) m
  end.

(** [mempool_populate]; [mem_ok] tells whether [calloc] succeeds. *)
Definition mempool_populate (mem_ok : bool) (m : mempool) : option (Z * mempool) :=
  let items_per_page := pgsize m / item_len m in
  let nr_pages := len m / pgsize m in
  if negb mem_ok then Some (- ENOMEM, m <| free_items := [] |>)
  else
    m ← fill_pages (Z.to_nat nr_pages) (Z.to_nat items_per_page) 0
          (m <| free_items := replicate (Z.to_nat (nr_pages * items_per_page)) 0 |>);
    Some (0, m).

(** [mempool_create]; [capacity] keeps the value it had in [m]. *)
Definition mempool_create (mem_ok : bool) (m : mempool) (b l pg item : Z) : option (Z * mempool) :=
  if (item =? 0) || negb (is_power_of_two pg) || negb (l mod pg =? 0) then Some (- EINVAL, m)
  else mempool_populate mem_ok (m <| allocated := 0 |> <| buf := b |> <| len := l |> <| pgsize := pg |> <| item_len := item |>).

Definition mempool_alloc (m : mempool) : option (Z * mempool) :=
  if allocated m >=? capacity m then Some (0, m)
  else x ← read_item (allocated m) m; Some (x, m <| allocated := allocated m + 1 |>).

Definition mempool_free (m : mempool) (x : Z) : option mempool :=
  let a := u64 (allocated m - 1) in
  m ← write_item a x m;
  if negb (a <=? capacity m) then None else Some (m <| allocated := a |>).

(** [mempool_tcache_free] and [mempool_tcache_alloc]. *)
Fixpoint mempool_tcache_free (items : list Z) (m : mempool) : option mempool :=
  match items with
  | [] => Some m
  | x :: l => m ← mempool_free m x; mempool_tcache_free l m
  end.
Fixpoint tcache_alloc_loop (nr : nat) (items : list Z) (m : mempool) : option (option (list Z) * mempool) :=
  match nr with
  | O => Some (Some items, m)
  | S nr =>
      '(x, m) ← mempool_alloc m;
      if x =? 0 then m ← mempool_tcache_free items m; Some (None, m)
      else tcache_alloc_loop nr (items ++ [x]) m
  end.
Definition mempool_tcache_alloc (nr : nat) (m : mempool) : option (option (list Z) * mempool) := tcache_alloc_loop nr [] m.

#[global] Instance mempool_tcache_ops : tcache_ops mempool := {
  ops_alloc nr w m := '(r, m) ← mempool_tcache_alloc nr m; Some (r, w, m);
  ops_free items w m := m ← mempool_tcache_free items m; Some (w, m)
}.

(** [mempool_create_tcache], when its allocations succeed. *)
Definition mempool_create_tcache (m : mempool) (mag : nat) : option tcache := tcache_create mag (item_len m).

(** ** The items of a pool *)

Definition page_items (base item : Z) (n : nat) : list Z := (fun j => base + item * Z.of_nat j) <$> seq 0 n.
Definition pool_items (b pg item : Z) (pages per_page : nat) : list Z :=
  concat ((fun i => page_items (b + pg * Z.of_nat i) item per_page) <$> seq 0 pages).

Lemma page_items_S base item n : page_items base item (S n) = base :: page_items (base + item) item n.
Proof.
  unfold page_items. simpl. f_equal; [lia|]. rewrite <- seq_shift. rewrite map_map || rewrite <- list_fmap_compose.
  apply list_fmap_ext. intros ? j _. unfold compose. lia.
Qed.

(** [m'] is [m] with the items [l] added. *)
Record filled (m m' : mempool) (l : list Z) : Prop := {
  fl_items : free_items m' = take (Z.to_nat (capacity m)) (free_items m) ++ l ++ drop (Z.to_nat (capacity m) + length l) (free_items m);
  fl_capacity : capacity m' = capacity m + Z.of_nat (length l);
  fl_rest : allocated m' = allocated m /\ buf m' = buf m /\ len m' = len m /\ pgsize m' = pgsize m /\ item_len m' = item_len m
}.

Lemma filled_nil m : 0 <= capacity m -> filled m m [].
Proof. intros Hc. split; simpl; [by rewrite Nat.add_0_r, take_drop|lia|done]. Qed.
Lemma filled_trans m m1 m2 l1 l2 : 0 <= capacity m -> (Z.to_nat (capacity m) + length l1 <= length (free_items m))%nat ->
  filled m m1 l1 -> filled m1 m2 l2 -> filled m m2 (l1 ++ l2).
Proof.
  intros Hc Hl [A1 A2 (A3 & A4 & A5 & A6 & A7)] [B1 B2 (B3 & B4 & B5 & B6 & B7)].
  split; [|rewrite length_app; lia|split_and!; congruence].
  replace (Z.to_nat (capacity m1)) with (Z.to_nat (capacity m) + length l1)%nat in B1 by lia. rewrite B1, A1, length_app.
  rewrite !app_assoc. rewrite take_app_length' by (rewrite length_app, length_take; lia).
  rewrite drop_app_ge by (rewrite length_app, length_take; lia). rewrite drop_drop.
  rewrite length_app, length_take. do 2 f_equal. lia.
Qed.

Lemma write_filled m x : 0 <= capacity m < Z.of_nat (length (free_items m)) ->
  exists m1, write_item (capacity m) x m = Some m1 /\ filled m (m1 <| capacity := capacity m1 + 1 |>) [x] /\ length (free_items m1) = length (free_items m).
Proof.
  intros Hc. unfold write_item. replace (_ && _) with true by lia. eexists. split; [done|]. split; [|simpl; by rewrite length_insert].
  split; simpl; [|lia|done]. rewrite insert_take_drop by lia. do 2 f_equal. rewrite Nat.add_1_r. done.
Qed.

Lemma fill_page_ok n base j m : 0 <= capacity m -> (Z.to_nat (capacity m) + n <= length (free_items m))%nat ->
  exists m', fill_page n base j m = Some m' /\ filled m m' (page_items (base + item_len m * j) (item_len m) n).
Proof.
  revert j m. induction n as [|n IH]; intros j m Hc Hl; [eexists; split; [done|by apply filled_nil]|].
  simpl. destruct (write_filled m (base + item_len m * j)) as (m1 & E1 & F1 & L1); [lia|]. rewrite E1. simpl.
  pose proof F1 as [_ C1 (_ & _ & _ & _ & I1)]. simpl in C1, I1.
  destruct (IH (j + 1) (m1 <| capacity := capacity m1 + 1 |>)) as (m' & E2 & F2); simpl; [lia|lia|].
  exists m'. split; [done|]. rewrite page_items_S. refine (filled_trans _ _ _ [_] _ Hc _ F1 _); [simpl; lia|].
  change (item_len (m1 <| capacity := capacity m1 + 1 |>)) with (item_len m1) in F2. rewrite I1 in F2.
  by replace (base + item_len m * j + item_len m) with (base + item_len m * (j + 1)) by lia.
Qed.

Lemma pool_items_S b pg item pages per : pool_items b pg item (S pages) per = page_items b item per ++ pool_items (b + pg) pg item pages per.
Proof.
  unfold pool_items. simpl. f_equal; [f_equal; lia|]. rewrite <- seq_shift. rewrite map_map || rewrite <- list_fmap_compose.
  f_equal. apply list_fmap_ext. intros ? j _. unfold compose. f_equal. lia.
Qed.
Lemma page_items_length base item n : length (page_items base item n) = n.
Proof. unfold page_items. by rewrite length_fmap, length_seq. Qed.
Lemma pool_items_length b pg item pages per : length (pool_items b pg item pages per) = (pages * per)%nat.
Proof.
  revert b. induction pages as [|n IH]; intros b; [done|]. by rewrite pool_items_S, length_app, page_items_length, IH.
Qed.

Lemma fill_pages_ok n per i m : 0 <= capacity m -> (Z.to_nat (capacity m) + n * per <= length (free_items m))%nat ->
  exists m', fill_pages n per i m = Some m' /\ filled m m' (pool_items (buf m + pgsize m * i) (pgsize m) (item_len m) n per).
Proof.
  revert i m. induction n as [|n IH]; intros i m Hc Hl; [eexists; split; [done|by apply filled_nil]|].
  simpl. destruct (fill_page_ok per (buf m + pgsize m * i) 0 m Hc) as (m1 & E1 & F1); [lia|]. rewrite E1. simpl.
  rewrite Z.mul_0_r, Z.add_0_r in F1. pose proof F1 as [D1 C1 (A1 & B1 & _ & P1 & I1)]. rewrite page_items_length in C1, D1.
  assert (length (free_items m1) = length (free_items m)) as L1.
  { rewrite D1, !length_app, length_take, length_drop, page_items_length. lia. }
  destruct (IH (i + 1) m1) as (m' & E2 & F2); [lia|lia|]. exists m'. split; [done|]. rewrite pool_items_S.
  apply (filled_trans m m1 m' _ _ Hc); [rewrite page_items_length; lia|done|].
  rewrite B1, P1, I1 in F2. by replace (buf m + pgsize m * i + pgsize m) with (buf m + pgsize m * (i + 1)) by lia.
Qed.

(** *** Where the items are *)

Section Geometry.
Context (b pg item : Z) (pages : nat).
Hypothesis (Hitem : 0 < item) (Hpg : 0 < pg).
Let per : nat := Z.to_nat (pg / item).

Lemma pool_item_inv x : x ∈ pool_items b pg item pages per ->
  exists i j, (i < pages)%nat /\ 0 <= j /\ item * (j + 1) <= pg /\ x = b + pg * Z.of_nat i + item * j.
Proof.
  unfold pool_items. intros Hx%list_elem_of_In. apply in_concat in Hx as (l & Hl%list_elem_of_In & Hx%list_elem_of_In).
  apply list_elem_of_fmap in Hl as (i & -> & Hi%elem_of_seq). apply list_elem_of_fmap in Hx as (j & -> & Hj%elem_of_seq).
  exists i, (Z.of_nat j). split_and!; [lia|lia| |done]. subst per.
  assert (Z.of_nat j < pg / item) by lia. pose proof (Z.mul_div_le pg item). nia.
Qed.

(** An item lies in the buffer and does not cross a page boundary. *)
Lemma pool_item_page x : x ∈ pool_items b pg item pages per ->
  b <= x /\ x + item <= b + pg * Z.of_nat pages /\ (x - b) / pg = (x + item - 1 - b) / pg.
Proof.
  intros (i & j & Hi & Hj & Hp & ->)%pool_item_inv. split_and!; [nia|nia|].
  replace (b + pg * Z.of_nat i + item * j - b) with (item * j + Z.of_nat i * pg) by lia.
  replace (b + pg * Z.of_nat i + item * j + item - 1 - b) with (item * (j + 1) - 1 + Z.of_nat i * pg) by lia.
  rewrite !Z.div_add, !Z.div_small; nia.
Qed.

(** Two items do not overlap. *)
Lemma pool_items_apart x y : x ∈ pool_items b pg item pages per -> y ∈ pool_items b pg item pages per ->
  x <> y -> x + item <= y \/ y + item <= x.
Proof.
  intros (i & j & _ & Hj & Hp & ->)%pool_item_inv (i' & j' & _ & Hj' & Hp' & ->)%pool_item_inv Hne.
  destruct (Nat.lt_trichotomy i i') as [Hi|[->|Hi]]; [left; nia| |right; nia].
  destruct (Z.lt_trichotomy j j') as [H|[->|H]]; [left; nia|lia|right; nia].
Qed.
End Geometry.

Lemma page_items_nodup base item n : 0 < item -> NoDup (page_items base item n).
Proof. intros Hi. apply NoDup_fmap_2; [intros x y; nia|apply NoDup_seq]. Qed.
Lemma pool_items_nodup b pg item pages : 0 < item -> 0 < pg -> NoDup (pool_items b pg item pages (Z.to_nat (pg / item))).
Proof.
  intros Hi Hp. revert b. induction pages as [|n IH]; intros b; [constructor|]. rewrite pool_items_S. apply NoDup_app.
  split_and!; [by apply page_items_nodup| |apply IH]. intros x (j & -> & Hj%elem_of_seq)%list_elem_of_fmap Hx.
  apply pool_item_page in Hx as (Hx & _); [|done|done]. assert (Z.of_nat j < pg / item) by lia. pose proof (Z.mul_div_le pg item). nia.
Qed.

(** ** The pool as an allocator *)

Definition all_items (m : mempool) : list Z :=
  pool_items (buf m) (pgsize m) (item_len m) (Z.to_nat (len m / pgsize m)) (Z.to_nat (pgsize m / item_len m)).
Definition geometry (m : mempool) : Z * Z * Z * Z := (buf m, len m, pgsize m, item_len m).
Definition free_list (m : mempool) : list Z := drop (Z.to_nat (allocated m)) (free_items m).

(** [out] has been given out; the rest of the items is in the array. *)
Record pool_ok (m : mempool) (out : gset Z) : Prop := {
  po_shape : 0 < buf m /\ 0 < pgsize m /\ 0 < item_len m;
  po_capacity : capacity m = Z.of_nat (length (free_items m)) /\ capacity m < 2 ^ 64;
  po_allocated : allocated m = Z.of_nat (size out) /\ allocated m <= capacity m;
  po_nodup : NoDup (free_list m);
  po_disjoint : forall x, x ∈ free_list m -> x ∉ out;
  po_items : forall x, x ∈ all_items m <-> x ∈ out \/ x ∈ free_list m
}.

Lemma pool_item_pos m x : 0 < buf m -> 0 < pgsize m -> 0 < item_len m -> x ∈ all_items m -> x <> 0.
Proof. intros H1 H2 H3 Hx. apply pool_item_page in Hx as [Hx _]; [lia|done|done]. Qed.

Lemma mempool_alloc_ok m out : pool_ok m out ->
  if allocated m <? capacity m then
    exists x m', mempool_alloc m = Some (x, m') /\ x <> 0 /\ x ∉ out /\ x ∈ all_items m /\ geometry m' = geometry m /\ pool_ok m' ({[x]} ∪ out)
  else mempool_alloc m = Some (0, m).
Proof.
  intros [(S1 & S2 & S3) [C1 C2] [A1 A2] Hn Hd Hi]. unfold mempool_alloc. destruct (allocated m <? capacity m) eqn:E.
  - replace (allocated m >=? capacity m) with false by lia. unfold read_item. replace (allocated m <? 0) with false by lia.
    destruct (lookup_lt_is_Some_2 (free_items m) (Z.to_nat (allocated m))) as [x Hx]; [lia|]. rewrite Hx. simpl.
    assert (free_list m = x :: drop (S (Z.to_nat (allocated m))) (free_items m)) as Ef by (by apply drop_S).
    assert (x ∉ out) as Hxo by (apply Hd; rewrite Ef; left). assert (x ∈ all_items m) as Hxi by (apply Hi; right; rewrite Ef; left).
    rewrite Ef in Hn, Hd, Hi. apply NoDup_cons in Hn as [Hxn Hn].
    eexists _, _. split; [done|]. split; [by apply (pool_item_pos m)|]. split; [done|]. split; [done|]. split; [done|].
    match goal with |- pool_ok ?m' _ => assert (free_list m' = drop (S (Z.to_nat (allocated m))) (free_items m)) as Ef' end.
    { unfold free_list. simpl. f_equal. lia. }
    split; rewrite ?Ef'; [done|done| |exact Hn| |].
    + simpl. rewrite size_union, size_singleton by set_solver. lia.
    + intros y Hy. rewrite not_elem_of_union, not_elem_of_singleton. split; [by intros ->|]. apply Hd. by right.
    + intros y. change (all_items _) with (all_items m). rewrite Hi, elem_of_union, elem_of_singleton, elem_of_cons. tauto.
  - by replace (allocated m >=? capacity m) with true by lia.
Qed.

Lemma mempool_free_ok m out x : pool_ok m out -> x ∈ out ->
  exists m', mempool_free m x = Some m' /\ geometry m' = geometry m /\ pool_ok m' (out ∖ {[x]}).
Proof.
  intros [(S1 & S2 & S3) [C1 C2] [A1 A2] Hn Hd Hi] Hx. assert (0 < Z.of_nat (size out)) as Hs.
  { assert (size out <> 0%nat); [|lia]. intros H0%size_empty_inv. set_solver. }
  unfold mempool_free. rewrite u64_small by (unfold is_u64; lia). unfold write_item.
  replace (_ && _) with true by lia. cbn [mbind option_bind]. simpl. replace (negb _) with false by lia.
  eexists. split; [done|]. split; [done|].
  match goal with |- pool_ok ?m' _ => assert (free_list m' = x :: free_list m) as Ef end.
  { unfold free_list. simpl. rewrite insert_take_drop by lia. rewrite drop_app_length' by (rewrite length_take; lia).
    do 2 f_equal. lia. }
  split; rewrite ?Ef; [done| | | | |].
  - simpl. by rewrite length_insert.
  - simpl. rewrite size_difference, size_singleton by set_solver. lia.
  - apply NoDup_cons. split; [|done]. intros Hin. by apply (Hd x).
  - intros y [->|Hy]%elem_of_cons; [set_solver|]. specialize (Hd y Hy). set_solver.
  - intros y. change (all_items _) with (all_items m). rewrite Hi, elem_of_difference, elem_of_singleton, elem_of_cons.
    destruct (decide (y = x)) as [->|]; tauto.
Qed.

Lemma mempool_tcache_free_ok l m out : pool_ok m out -> NoDup l -> (forall x, x ∈ l -> x ∈ out) ->
  exists m', mempool_tcache_free l m = Some m' /\ geometry m' = geometry m /\ pool_ok m' (out ∖ list_to_set l).
Proof.
  revert m out. induction l as [|x l IH]; intros m out Hm Hd Hl; simpl.
  - exists m. split; [done|]. split; [done|]. by rewrite difference_empty_L.
  - apply NoDup_cons in Hd as [Hx Hd]. destruct (mempool_free_ok m out x Hm) as (m1 & E1 & G1 & H1); [apply Hl; left|].
    rewrite E1. simpl. destruct (IH m1 (out ∖ {[x]}) H1 Hd) as (m2 & E2 & G2 & H2).
    { intros y Hy. apply elem_of_difference. split; [apply Hl; by right|]. rewrite elem_of_singleton. by intros ->. }
    exists m2. split; [done|]. split; [congruence|]. by rewrite <- difference_difference_l_L.
Qed.

Lemma alloc_loop_ok nr items m out : pool_ok m (list_to_set items ∪ out) -> NoDup items ->
  (forall x, x ∈ items -> x <> 0 /\ x ∉ out) ->
  exists r m', tcache_alloc_loop nr items m = Some (r, m') /\ geometry m' = geometry m /\
    match r with
    | Some l => length l = (length items + nr)%nat /\ NoDup l /\ (forall x, x ∈ l -> x <> 0 /\ x ∉ out) /\ pool_ok m' (list_to_set l ∪ out)
    | None => pool_ok m' out
    end.
Proof.
  revert items m. induction nr as [|nr IH]; intros items m Hm Hd Hi; simpl.
  - eexists _, _. split; [done|]. split; [done|]. by rewrite Nat.add_0_r.
  - pose proof (mempool_alloc_ok m _ Hm) as Ha. destruct (allocated m <? capacity m).
    + destruct Ha as (x & m1 & -> & Hx0 & Hxo & _ & G1 & H1). cbn [mbind option_bind]. apply Z.eqb_neq in Hx0 as Hx1. rewrite Hx1.
      rewrite not_elem_of_union, elem_of_list_to_set in Hxo. destruct Hxo as [Hxi Hxo].
      destruct (IH (items ++ [x]) m1) as (r & m2 & E2 & G2 & H2).
      * rewrite list_to_set_app_L. simpl. replace (list_to_set items ∪ ({[x]} ∪ ∅) ∪ out : gset Z) with ({[x]} ∪ (list_to_set items ∪ out) : gset Z) by set_solver. done.
      * apply NoDup_app. split_and!; [done| |apply NoDup_singleton]. intros y Hy ->%list_elem_of_singleton. done.
      * intros y [Hy| ->%list_elem_of_singleton]%elem_of_app; [by apply Hi|done].
      * exists r, m2. split; [done|]. split; [congruence|]. destruct r; [|done]. rewrite length_app in H2. simpl in H2.
        by rewrite <- Nat.add_assoc in H2.
    + rewrite Ha. cbn [mbind option_bind]. rewrite Z.eqb_refl.
      destruct (mempool_tcache_free_ok items m _ Hm Hd) as (m2 & E2 & G2 & H2).
      { intros x Hx. apply elem_of_union_l. by apply elem_of_list_to_set. }
      rewrite E2. simpl. eexists _, _. split; [done|]. split; [done|].
      replace ((list_to_set items ∪ out) ∖ list_to_set items) with out in H2; [done|].
      apply set_eq. intros y. rewrite elem_of_difference, elem_of_union, elem_of_list_to_set.
      destruct (decide (y ∈ items)) as [Hy|Hy]; [pose proof (Hi y Hy); tauto|tauto].
Qed.

(** A pool with the geometry [g] keeps the contract of the cache. *)
#[refine] Instance mempool_laws (g : Z * Z * Z * Z) : TcacheOpsLaws mempool := {
  holds _ m out := pool_ok m out /\ geometry m = g
}.
Proof.
  - done.
  - intros n w m out [Hm Hg] Hn. simpl. unfold mempool_tcache_alloc.
    destruct (alloc_loop_ok n [] m out) as (r & m' & E & G & H); [simpl; by rewrite union_empty_l_L|apply NoDup_nil_2|by intros x Hx%not_elem_of_nil|].
    rewrite E. simpl. eexists _, _, _. split; [done|]. split; [done|]. destruct r as [l|]; [|split; [done|congruence]].
    destruct H as (H1 & H2 & H3 & H4). rewrite (comm_L union). split_and!; try done. congruence.
  - intros l w m out [Hm Hg] Hd Hl. simpl. destruct (mempool_tcache_free_ok l m out Hm Hd Hl) as (m' & E & G & H).
    rewrite E. simpl. eexists _, _. split; [done|]. split; [done|]. split; [done|congruence].
Defined.

(** ** Creating a pool *)

Lemma mempool_create_ok m b l pg item : capacity m = 0 -> 0 < b -> 0 < item -> 0 < pg -> is_power_of_two pg = true ->
  0 <= l < 2 ^ 64 -> l mod pg = 0 ->
  exists m', mempool_create true m b l pg item = Some (0, m') /\ geometry m' = (b, l, pg, item) /\ pool_ok m' ∅ /\
    capacity m' = l / pg * (pg / item).
Proof.
  intros Hc Hb Hi Hp Hw Hl Hm. unfold mempool_create. replace (item =? 0) with false by lia. rewrite Hw, Hm. simpl.
  unfold mempool_populate. simpl. set (n := Z.to_nat (l / pg)). set (per := Z.to_nat (pg / item)).
  match goal with |- context [fill_pages n per 0 ?m0] => destruct (fill_pages_ok n per 0 m0) as (m' & E & F); simpl; [lia| |] end.
  { rewrite length_replicate, Hc. simpl. subst n per. pose proof (Z.div_pos l pg). pose proof (Z.div_pos pg item). nia. }
  rewrite E. simpl. rewrite Z.mul_0_r, Z.add_0_r in F. destruct F as [F1 F2 (F3 & F4 & F5 & F6 & F7)]. simpl in *.
  rewrite Hc in F1, F2. rewrite pool_items_length in F1, F2. simpl in F1.
  assert (n * per = Z.to_nat (l / pg * (pg / item)))%nat as En.
  { subst n per. pose proof (Z.div_pos l pg). pose proof (Z.div_pos pg item). nia. }
  rewrite drop_ge, app_nil_r in F1 by (rewrite length_replicate; lia).
  assert (all_items m' = free_items m') as Ea by (unfold all_items; by rewrite F1, F4, F5, F6, F7).
  assert (free_list m' = free_items m') as Ef by (unfold free_list; by rewrite F3).
  assert (l / pg * (pg / item) <= l) as Hmax.
  { pose proof (Z.div_pos l pg). pose proof (Z.div_pos pg item). pose proof (Z.mul_div_le l pg). pose proof (Z.mul_div_le pg item). nia. }
  assert (0 <= l / pg * (pg / item)) by (apply Z.mul_nonneg_nonneg; apply Z.div_pos; lia).
  exists m'. split; [done|]. split; [unfold geometry; by rewrite F4, F5, F6, F7|]. split; [|lia].
  split; rewrite ?Ef, ?Ea, ?F3, ?F4, ?F6, ?F7.
  - done.
  - rewrite F1, pool_items_length. lia.
  - rewrite size_empty. lia.
  - rewrite F1. by apply pool_items_nodup.
  - intros x _. apply not_elem_of_empty.
  - intros x. split; [by right|]. intros [Hx|Hx]; [by apply not_elem_of_empty in Hx|done].
Qed.

(** C32: a memory pool behind per-thread caches, in any interleaving of the calls
    of any number of threads: every item in use lies in the buffer of the pool
    and does not cross a page boundary, two items in use do not overlap, and
    there are never more of them than items in the pool. *)
Theorem mempool_cache_sound m b l pg item m' mag t n s hd :
  capacity m = 0 -> 0 < b -> 0 < item -> 0 < pg -> 0 <= l < 2 ^ 64 ->
  mempool_create true m b l pg item = Some (0, m') -> mempool_create_tcache m' mag = Some t -> (0 < mag)%nat ->
  reachable (cache_init hd t m' n) s ->
  (forall x, x ∈ users s -> b <= x /\ x + item <= b + l /\ (x - b) / pg = (x + item - 1 - b) / pg) /\
  (forall x y, x ∈ users s -> y ∈ users s -> x <> y -> x + item <= y \/ y + item <= x) /\
  NoDup (users s) /\ Z.of_nat (length (users s)) <= l / pg * (pg / item).
Proof.
  intros Hc Hb Hi Hp Hl He Ht Hmag Hr.
  assert (is_power_of_two pg = true /\ l mod pg = 0) as [Hw Hm].
  { unfold mempool_create in He. destruct (is_power_of_two pg), (l mod pg =? 0) eqn:Em, (item =? 0); try done. split; [done|lia]. }
  destruct (mempool_create_ok m b l pg item Hc Hb Hi Hp Hw Hl Hm) as (m2 & E & G & Hok & Hcap).
  assert (m2 = m') as -> by congruence.
  destruct (cache_reachable_inv (H0 := mempool_laws (b, l, pg, item)) _ _ s (init_ok (H0 := mempool_laws (b, l, pg, item)) hd mag (item_len m') t m' n Ht Hmag (conj Hok G)) Hr) as [v Hv].
  destruct Hv as [_ _ Hnd _ [Hpool Hg] _]. injection Hg as G1 G2 G3 G4.
  apply NoDup_app in Hnd as (Hnd & _ & _). set (pages := Z.to_nat (l / pg)).
  assert (forall x, x ∈ users s -> x ∈ pool_items b pg item pages (Z.to_nat (pg / item))) as Hin.
  { intros x Hx. pose proof (proj2 (po_items _ _ Hpool x)) as Hall. unfold all_items in Hall. rewrite G1, G2, G3, G4 in Hall.
    apply Hall. left. apply elem_of_list_to_set, elem_of_app. by left. }
  assert (pg * Z.of_nat pages = l) as El.
  { subst pages. pose proof (Z.div_pos l pg). pose proof (Z.div_mod l pg). lia. }
  split_and!.
  - intros x Hx%Hin. apply pool_item_page in Hx as (H1 & H2 & H3); [|done|done]. by rewrite El in H2.
  - intros x y Hx%Hin Hy%Hin. by apply (pool_items_apart b pg item pages).
  - done.
  - assert (users s ⊆+ pool_items b pg item pages (Z.to_nat (pg / item))) as Hs%submseteq_length by by apply NoDup_submseteq.
    rewrite pool_items_length in Hs. subst pages. pose proof (Z.div_pos l pg). pose proof (Z.div_pos pg item). nia.
Qed.

Definition demo_pool : mempool := Mempool [] 0 0 0 0 0 0.
Definition demo_made : mempool := match mempool_create true demo_pool 8192 8192 4096 1000 with Some (_, m) => m | None => demo_pool end.
(** The last call asks for a magazine of three items when two are left. *)
Definition demo_calls : list call :=
  [Alloc 0; Refill 0; Alloc 1; Refill 1; Alloc 0; Alloc 1; Free 0 1; Alloc 1; Alloc 1; Refill 1]%nat.
Definition demo_run : option (system mempool) :=
  run demo_calls
    (cache_init (Hdrs (fun _ => 0) (fun _ => 0)) (Tcache 3 1000 0 0) demo_made 2).

Lemma mempool_cache_sound_witness : exists s,
  demo_run = Some s /\ users s = [13288; 12288; 11192; 8192] /\ (forall x, x ∈ users s -> 8192 <= x).
Proof.
  eexists. split; [vm_compute; reflexivity|]. split; [reflexivity|]. intros x Hx.
  refine (proj1 (proj1 (mempool_cache_sound demo_pool 8192 8192 4096 1000 demo_made 3 (Tcache 3 1000 0 0) 2 _
    (Hdrs (fun _ => 0) (fun _ => 0)) eq_refl _ _ _ _ _ _ _ _) x Hx)); [lia..| | | |].
  - vm_compute. reflexivity.
  - vm_compute. reflexivity.
  - lia.
  - apply (cache_run_reachable _ demo_calls _ _ (Start _)).
    vm_compute. reflexivity.
Defined.
