(* ===== verification/Page.v ===== *)
(** * page: the page allocator

    Models the large pages of [inc/base/page.h] and [base/page.c], in the build
    without [DEBUG]: a table of page structures, of which every NUMA node has a
    part, hands out the addresses of pages of 2MB, mapping them when they are
    allocated.  The results of the mappings ([lgpage_create]) come from the kernel,
    and are a part of the state.  Small pages are the items of a slab (Slab).

    A client of the page allocator relies on [PageLaws]. *)

From S2P Require Import Prelude StdDef.

Definition PGSIZE_4KB : Z := 4096.
Definition PGSIZE_2MB : Z := 2097152.
Definition PAGE_BASE_ADDR : Z := 17592186044416.
Definition SIZEOF_PAGE : Z := 64.
Definition SMPAGE_META_LEN : Z := PGSIZE_2MB / PGSIZE_4KB * SIZEOF_PAGE.
Definition LGPAGE_META_NR_LGPAGES : Z := 1.
Definition LGPAGE_META_LEN : Z := LGPAGE_META_NR_LGPAGES * PGSIZE_2MB.
Definition LGPAGE_META_ENTS : Z := LGPAGE_META_LEN / SIZEOF_PAGE.
Definition LGPAGE_NODE_ADDR_LEN : Z := LGPAGE_META_ENTS * PGSIZE_2MB.
Definition PAGE_FLAG_LARGE : Z := 1.
Definition PAGE_FLAG_IN_USE : Z := 2.

(** ** What a client relies on *)

(** [page_alloc_on_node] for one page size and NUMA node, which gives 0 when it
    is out of memory, and [page_put]. *)
Class page_ops (P : Type) := {
  page_alloc : P -> option (Z * P);
  page_put : Z -> P -> option P
}.
(** Pages of [pg] bytes: [page_holds p out] says that [out] are in use, each with
    one reference. *)
Class PageLaws (P : Type) `{page_ops P} (pg : Z) := {
  page_holds : P -> gset Z -> Prop;
  page_alloc_ok p out : page_holds p out ->
    exists a p', page_alloc p = Some (a, p') /\
      ((a = 0 /\ page_holds p' out) \/ (0 < a /\ a mod pg = 0 /\ a ∉ out /\ page_holds p' ({[a]} ∪ out)));
  page_put_ok p out a : page_holds p out -> a ∈ out ->
    exists p', page_put a p = Some p' /\ page_holds p' (out ∖ {[a]})
}.

(** ** Addresses and page structures *)

(** A page structure is its index in [page_tbl]. *)
Definition LGPGN (a : Z) : Z := (a - PAGE_BASE_ADDR) / PGSIZE_2MB.
Definition addr_to_lgpage (a : Z) : Z := LGPGN a.
Definition lgpage_to_addr (k : Z) : Z := PAGE_BASE_ADDR + k * PGSIZE_2MB.
Definition addr_to_numa_node (a : Z) : Z := (a - PAGE_BASE_ADDR) / LGPAGE_NODE_ADDR_LEN.

(** [flags] and [ref] of [struct page], and [struct lgpage_node]. *)
Record pgstruct := Pgstruct { pflags : Z; ref : Z }.
Record lgpage_node := LgNode { idx : Z; lg_pages : list Z }.
Record lgpages := Lgpages { nodes : list lgpage_node; tbl : gmap Z pgstruct; maps : list bool }.
#[global] Instance eta_lgpage_node : Settable lgpage_node := fun r => LgNode (idx r) (lg_pages r).
#[global] Instance eta_lgpages : Settable lgpages := fun r => Lgpages (nodes r) (tbl r) (maps r).

(** The table is mapped as zeroes. *)
Definition pg_at (p : lgpages) (k : Z) : pgstruct := default (Pgstruct 0 0) (tbl p !! k).
Definition page_to_size (e : pgstruct) : Z := if Z.testbit (pflags e) 0 then PGSIZE_2MB else PGSIZE_4KB.

(** ** The operations *)

(** [lgpage_create]: maps the page; [false] is an error of [mem_map_anom] or of
    [mem_lookup_page_phys_addr]. *)
Definition lgpage_create (k : Z) (p : lgpages) : bool * lgpages :=
  match maps p with
  | true :: ms => (true, p <| maps := ms |> <| tbl := <[k := Pgstruct (Z.lor PAGE_FLAG_LARGE PAGE_FLAG_IN_USE) 1]> (tbl p) |>)
  | _ => (false, p <| maps := tail (maps p) |>)
  end.

(** [lgpage_alloc_on_node]: the address of the page, or 0. *)
Definition lgpage_pick (nd : nat) (p : lgpages) : option (option (Z * lgpages)) :=
  n ← nodes p !! nd;
  match lg_pages n with
  | k :: l => Some (Some (k, p <| nodes := <[nd := n <| lg_pages := l |>]> (nodes p) |>))
  | [] =>
      if idx n >=? LGPAGE_META_ENTS then Some None
      else Some (Some (Z.of_nat nd * LGPAGE_META_ENTS + idx n, p <| nodes := <[nd := n <| idx := idx n + 1 |>]> (nodes p) |>))
  end.
Definition lgpage_alloc_on_node (nd : nat) (p : lgpages) : option (Z * lgpages) :=
  r ← lgpage_pick nd p;
  match r with
  | None => Some (0, p)
  | Some (k, p) =>
      if Z.testbit (pflags (pg_at p k)) 1 then None
      else
        let '(ok, p) := lgpage_create k p in
        Some (if ok then lgpage_to_addr k else 0, p)
  end.

(** [lgpage_free] and [lgpage_destroy] *)
Definition lgpage_free (k : Z) (p : lgpages) : option lgpages :=
  let nd := Z.to_nat (addr_to_numa_node (lgpage_to_addr k)) in
  let p := p <| tbl := <[k := (Pgstruct 0 (ref (pg_at p k)))]> (tbl p) |> in
  n ← nodes p !! nd;
  Some (p <| nodes := <[nd := n <| lg_pages := k :: lg_pages n |>]> (nodes p) |>).

(** [page_get], and [page_put] with [page_release], of a large page. *)
Definition page_get (a : Z) (p : lgpages) : option lgpages :=
  let k := addr_to_lgpage a in
  let e := pg_at p k in
  if ref e >? 0 then Some (p <| tbl := <[k := Pgstruct (pflags e) (ref e + 1)]> (tbl p) |>) else None.
Definition lgpage_put (a : Z) (p : lgpages) : option lgpages :=
  let k := addr_to_lgpage a in
  let e := pg_at p k in
  let p := p <| tbl := <[k := Pgstruct (pflags e) (ref e - 1)]> (tbl p) |> in
  if ref e - 1 =? 0 then (if page_to_size e =? PGSIZE_2MB then lgpage_free k p else None) else Some p.

(** [page_init]: a node for each of the [n] NUMA nodes. *)
Definition page_init (n : nat) (ms : list bool) : lgpages := Lgpages (replicate n (LgNode 0 [])) ∅ ms.

#[global] Instance lgpage_ops (nd : nat) : page_ops lgpages := {
  page_alloc := lgpage_alloc_on_node nd;
  page_put := lgpage_put
}.

(** ** The invariant *)

Definition node_of (k : Z) : nat := Z.to_nat (k / LGPAGE_META_ENTS).
Record node_pages_ok (p : lgpages) (i : nat) (n : lgpage_node) : Prop := {
  np_idx : 0 <= idx n <= LGPAGE_META_ENTS;
  np_nodup : NoDup (lg_pages n);
  np_free : forall k, k ∈ lg_pages n -> Z.of_nat i * LGPAGE_META_ENTS <= k < Z.of_nat i * LGPAGE_META_ENTS + idx n /\ pflags (pg_at p k) = 0;
  np_fresh : forall k, Z.of_nat i * LGPAGE_META_ENTS + idx n <= k < (Z.of_nat i + 1) * LGPAGE_META_ENTS -> pflags (pg_at p k) = 0
}.
Definition lgpages_ok (p : lgpages) : Prop := forall i n, nodes p !! i = Some n -> node_pages_ok p i n.

(** Page [k], of node [nd], is allocated, with [r] references. *)
Definition allocated (nd : nat) (p : lgpages) (k r : Z) : Prop :=
  pg_at p k = Pgstruct 3 r /\ Z.of_nat nd * LGPAGE_META_ENTS <= k < (Z.of_nat nd + 1) * LGPAGE_META_ENTS.

Lemma addr_lgpage k : addr_to_lgpage (lgpage_to_addr k) = k.
Proof. unfold addr_to_lgpage, LGPGN, lgpage_to_addr, PGSIZE_2MB. rewrite Z.add_simpl_l. by apply Z.div_mul. Qed.
(** A page is in the part of the table of its NUMA node. *)
Lemma addr_numa nd k : Z.of_nat nd * LGPAGE_META_ENTS <= k < (Z.of_nat nd + 1) * LGPAGE_META_ENTS ->
  addr_to_numa_node (lgpage_to_addr k) = Z.of_nat nd.
Proof.
  intros Hk. unfold addr_to_numa_node, lgpage_to_addr, LGPAGE_NODE_ADDR_LEN. rewrite Z.add_simpl_l.
  rewrite Z.div_mul_cancel_r; [|change LGPAGE_META_ENTS with 32768; lia|done].
  change LGPAGE_META_ENTS with 32768 in *. symmetry. apply (Z.div_unique _ _ _ (k - Z.of_nat nd * 32768)); lia.
Qed.

Lemma pg_at_insert p k e j : pg_at (p <| tbl := <[k := e]> (tbl p) |>) j = if decide (j = k) then e else pg_at p j.
Proof. unfold pg_at. simpl. case_decide as E; [subst; by rewrite lookup_insert_eq|by rewrite lookup_insert_ne]. Qed.

(** No list of free pages has page [k], nor is it one that was never used. *)
Definition untracked (p : lgpages) (k : Z) : Prop := forall i n, nodes p !! i = Some n ->
  k ∉ lg_pages n /\ ~ (Z.of_nat i * LGPAGE_META_ENTS + idx n <= k < (Z.of_nat i + 1) * LGPAGE_META_ENTS).

Lemma untracked_update p k e : lgpages_ok p -> untracked p k -> lgpages_ok (p <| tbl := <[k := e]> (tbl p) |>).
Proof.
  intros Hp Hk i n Hn. destruct (Hp i n Hn) as [A1 A2 A3 A4]. destruct (Hk i n Hn) as [K1 K2]. split; try done.
  - intros j Hj. rewrite pg_at_insert, decide_False by (by intros ->). by apply A3.
  - intros j Hj. rewrite pg_at_insert, decide_False by (by intros ->). by apply A4.
Qed.
Lemma in_use_untracked p k : lgpages_ok p -> pflags (pg_at p k) <> 0 -> untracked p k.
Proof.
  intros Hp Hk i n Hn. destruct (Hp i n Hn) as [A1 A2 A3 A4]. split; [intros Hin; by apply A3 in Hin as [_ ?]|].
  intros Hr. by apply A4 in Hr.
Qed.

(** The nodes own disjoint parts of the table. *)
Lemma node_regions (i j : nat) k : Z.of_nat i * LGPAGE_META_ENTS <= k < (Z.of_nat i + 1) * LGPAGE_META_ENTS ->
  Z.of_nat j * LGPAGE_META_ENTS <= k < (Z.of_nat j + 1) * LGPAGE_META_ENTS -> i = j.
Proof. change LGPAGE_META_ENTS with 32768. lia. Qed.

Lemma nodes_insert p nd n n' i m : nodes p !! nd = Some n -> <[nd := n']> (nodes p) !! i = Some m ->
  (i = nd /\ m = n') \/ (i <> nd /\ nodes p !! i = Some m).
Proof.
  intros Hn. destruct (decide (i = nd)) as [->|Hne]; [|rewrite list_lookup_insert_ne by done; by right].
  rewrite list_lookup_insert_eq by (by eapply lookup_lt_Some). intros [= <-]. by left.
Qed.

(** [lgpage_pick] gives a page of the node that is no longer tracked. *)
Lemma pick_ok p nd n : lgpages_ok p -> nodes p !! nd = Some n -> exists r, lgpage_pick nd p = Some r /\
  match r with
  | None => idx n = LGPAGE_META_ENTS /\ lg_pages n = []
  | Some (k, p') => lgpages_ok p' /\ untracked p' k /\ tbl p' = tbl p /\ maps p' = maps p /\ is_Some (nodes p' !! nd) /\
      pflags (pg_at p k) = 0 /\ Z.of_nat nd * LGPAGE_META_ENTS <= k < (Z.of_nat nd + 1) * LGPAGE_META_ENTS
  end.
Proof.
  intros Hp Hn. pose proof (Hp nd n Hn) as [A1 A2 A3 A4]. unfold lgpage_pick. rewrite Hn. cbn [mbind option_bind].
  assert (nd < length (nodes p))%nat as Hl by (by eapply lookup_lt_Some).
  destruct (lg_pages n) as [|k l] eqn:El.
  - destruct (idx n >=? LGPAGE_META_ENTS) eqn:E; eexists; (split; [done|]); [split; [lia|done]|].
    set (k := Z.of_nat nd * LGPAGE_META_ENTS + idx n).
    assert (Z.of_nat nd * LGPAGE_META_ENTS <= k < (Z.of_nat nd + 1) * LGPAGE_META_ENTS) as Hk by (subst k; lia).
    split_and!; simpl; try done.
    + intros i m Hm. destruct (nodes_insert p nd n _ i m Hn Hm) as [[-> ->]|[Hi Hm']]; [|destruct (Hp i m Hm'); by split].
      split; simpl; [lia|by rewrite El|by rewrite El; intros j Hj%not_elem_of_nil|]. intros j Hj. apply A4. lia.
    + intros i m Hm. destruct (nodes_insert p nd n _ i m Hn Hm) as [[-> ->]|[Hi Hm']]; simpl.
      * rewrite El. split; [apply not_elem_of_nil|lia].
      * destruct (Hp i m Hm') as [B1 B2 B3 B4]. split; [intros Hin%B3|intros Hr]; apply Hi, (node_regions i nd k); lia.
    + by rewrite list_lookup_insert_eq.
    + apply A4. lia.
    + lia.
    + lia.
  - destruct (A3 k ltac:(left)) as [Hk Hf]. eexists. split; [done|]. apply NoDup_cons in A2 as [Hkl A2].
    split_and!; simpl; try done.
    + intros i m Hm. destruct (nodes_insert p nd n _ i m Hn Hm) as [[-> ->]|[Hi Hm']]; [|destruct (Hp i m Hm'); by split].
      split; simpl; try done. intros j Hj. apply A3. by right.
    + intros i m Hm. destruct (nodes_insert p nd n _ i m Hn Hm) as [[-> ->]|[Hi Hm']]; simpl; [split; [done|lia]|].
      destruct (Hp i m Hm') as [B1 B2 B3 B4]. split; [intros Hin%B3|intros Hr]; apply Hi, (node_regions i nd k); lia.
    + by rewrite list_lookup_insert_eq.
    + lia.
    + lia.
Qed.

Definition lg_holds (nd : nat) (p : lgpages) (out : gset Z) : Prop :=
  lgpages_ok p /\ is_Some (nodes p !! nd) /\ forall a, a ∈ out -> exists k, a = lgpage_to_addr k /\ allocated nd p k 1.

Lemma maps_ok p ms : lgpages_ok p -> lgpages_ok (p <| maps := ms |>).
Proof. intros Hp i n Hn. destruct (Hp i n Hn) as [A1 A2 A3 A4]. by split. Qed.

Lemma lgpage_alloc_ok nd p out : lg_holds nd p out ->
  exists a p', lgpage_alloc_on_node nd p = Some (a, p') /\
    ((a = 0 /\ lg_holds nd p' out) \/ (0 < a /\ a mod PGSIZE_2MB = 0 /\ a ∉ out /\ lg_holds nd p' ({[a]} ∪ out))).
Proof.
  intros Hh. pose proof Hh as (Hp & [n Hn] & Ho). destruct (pick_ok p nd n Hp Hn) as (r & E & Hr). unfold lgpage_alloc_on_node. rewrite E. cbn [mbind option_bind].
  destruct r as [[k p1]|]; [|exists 0, p; split; [done|by left]].
  destruct Hr as (H1 & H2 & Et & Em & Hs & Hf & Hk). assert (forall j, pg_at p1 j = pg_at p j) as Ea by (intros j; unfold pg_at; by rewrite Et).
  rewrite Ea, Hf. simpl. unfold lgpage_create.
  assert (forall a, a ∈ out -> exists j, a = lgpage_to_addr j /\ j <> k /\ allocated nd p1 j 1) as Ho1.
  { intros a Ha. destruct (Ho a Ha) as (j & -> & Hj & Hr). exists j. split; [done|]. split; [|split; [by rewrite Ea|done]]. intros ->. by rewrite Hj in Hf. }
  destruct (maps p1) as [|[|] ms] eqn:Ems; eexists _, _; (split; [done|]).
  1,3: left; split; [done|]; split_and!; [by apply maps_ok|done|]; intros a (j & Ej & _ & Hj)%Ho1; by exists j.
  right. assert (lgpage_to_addr k ∉ out) as Hnew.
  { intros (j & Ej & Hne & _)%Ho1. apply Hne. rewrite <- (addr_lgpage j), <- (addr_lgpage k). by f_equal. }
  assert (0 <= k) as Hk0 by (change LGPAGE_META_ENTS with 32768 in Hk; lia).
  split_and!; [unfold lgpage_to_addr, PAGE_BASE_ADDR, PGSIZE_2MB; lia| |done|split; [|split; [done|]]].
  - unfold lgpage_to_addr. rewrite Z.mod_add by done. reflexivity.
  - exact (maps_ok _ ms (untracked_update p1 k _ H1 H2)).
  - intros a [->%elem_of_singleton|Ha]%elem_of_union.
    + exists k. split; [done|]. split; [|done]. unfold pg_at. simpl. by rewrite lookup_insert_eq.
    + destruct (Ho1 a Ha) as (j & -> & Hne & Hj & Hr). exists j. split; [done|]. split; [|done].
      unfold pg_at in *. simpl. by rewrite lookup_insert_ne.
Qed.

Lemma lgpage_put_ok nd p out a : lg_holds nd p out -> a ∈ out -> exists p', lgpage_put a p = Some p' /\ lg_holds nd p' (out ∖ {[a]}).
Proof.
  intros (Hp & [n Hn] & Ho) Ha. destruct (Ho a Ha) as (k & -> & Hk & Hr). unfold lgpage_put. rewrite addr_lgpage, Hk. simpl.
  unfold lgpage_free. rewrite (addr_numa nd k Hr), Nat2Z.id. simpl. rewrite Hn. cbn [mbind option_bind]. eexists. split; [done|].
  assert (untracked p k) as Hu by (apply in_use_untracked; [done|by rewrite Hk]).
  rewrite insert_insert_eq. set (e := Pgstruct 0 _). pose proof (untracked_update p k e Hp Hu) as Hp1.
  assert (lgpages_ok (p <| tbl := <[k := e]> (tbl p) |> <| nodes := <[nd := n <| lg_pages := k :: lg_pages n |>]> (nodes p) |>)) as Hp2.
  { intros i m Hm. destruct (nodes_insert p nd n _ i m Hn Hm) as [[-> ->]|[Hi Hm']]; [|destruct (Hp1 i m Hm'); by split].
    destruct (Hp1 nd n Hn) as [A1 A2 A3 A4]. destruct (Hu nd n Hn) as [K1 K2]. split; simpl; [done|by apply NoDup_cons| |done].
    intros j [->|Hj]%elem_of_cons; [|by apply A3]. split; [lia|]. unfold pg_at. simpl. by rewrite lookup_insert_eq. }
  split; [exact Hp2|]. split; [simpl; rewrite list_lookup_insert_eq; [done|by eapply lookup_lt_Some]|].
  intros b [Hb Hne]%elem_of_difference. destruct (Ho b Hb) as (j & -> & Hj & Hrj). exists j. split; [done|]. split; [|done].
  unfold pg_at in *. simpl. rewrite lookup_insert_ne; [done|]. intros ->. by apply Hne, elem_of_singleton.
Qed.

#[global, refine] Instance lgpage_laws (nd : nat) : PageLaws lgpages (H := lgpage_ops nd) PGSIZE_2MB := {
  page_holds := lg_holds nd
}.
Proof.
  - intros p out. apply lgpage_alloc_ok.
  - intros p out a. apply lgpage_put_ok.
Defined.

Lemma page_init_ok n nd ms : (nd < n)%nat -> lg_holds nd (page_init n ms) ∅.
Proof.
  intros Hnd. split_and!; [| |by intros a Ha%not_elem_of_empty].
  - intros i m [-> _]%lookup_replicate. split; simpl; [by vm_compute|by apply NoDup_nil|by intros k Hk%not_elem_of_nil|].
    intros k _. unfold pg_at. simpl. by rewrite lookup_empty.
  - simpl. exists (LgNode 0 []). by apply lookup_replicate.
Qed.
