(* ===== verification/Slab.v ===== *)
(** * slab: the slab allocator

    Models [inc/base/slab.h] and [base/slab.c], in the build without [DEBUG]: a
    node carves items out of pages and keeps the free items of a page in a list
    through their first words.  A page is named by the address of its data, which
    is what [addr_to_page] and [page_to_addr] translate between; the lists of
    pages are sequences (LinkedList).  There is one node: [slab_tcache_alloc] and
    [slab_tcache_free] take [nodes[this_numa_node()]], which is the node of the item on a machine with one
    NUMA node only.  [slab_tcache_free] locks the node for each of its items, and so does
    [slab_tcache_alloc] when it gives back what it has got; here they are one step.  A node gets its pages through the interface
    of Page, and is the allocator behind a per-thread cache (Tcache). *)

From S2P Require Import Prelude StdDef Tcache Page.

Definition WORD_SIZE : Z := 64.
Definition CACHE_LINE_SIZE : Z := 64.
Definition SLAB_CHUNK_SIZE : Z := 8.
Definition SLAB_MIN_SIZE : Z := 16.
Definition SLAB_PARTIAL_THRESH : Z := SLAB_CHUNK_SIZE / 2.
Definition SLAB_4KB_LIMIT : Z := align_down (PGSIZE_4KB / (SLAB_PARTIAL_THRESH * 2)) WORD_SIZE.
Definition SLAB_2MB_LIMIT : Z := align_down (PGSIZE_2MB / (SLAB_PARTIAL_THRESH * 2)) WORD_SIZE.
Definition SLAB_FLAG_LGPAGE : Z := 1.
Definition SLAB_FLAG_FALSE_OKAY : Z := 2.
Definition SLAB_FLAG_PAGES : Z := 4.
Definition ENOMEM : Z := 12.
Definition E2BIG : Z := 7.

(** The fields of [struct page] that a slab uses, and [struct slab_node]. *)
Record page := Page { pg_next : Z; item_count : Z }.
#[global] Instance eta_page : Settable page := fun r => Page (pg_next r) (item_count r).
Record slab_node := SlabNode {
  size : Z; offset : Z; flags : Z; nr_elems : Z; pg_off : Z; cur_pg : Z;
  full_list : list Z; partial_list : list Z; nr_pages : Z; meta : gmap Z page }.
#[global] Instance eta_slab_node : Settable slab_node := fun r =>
  SlabNode (size r) (offset r) (flags r) (nr_elems r) (pg_off r) (cur_pg r) (full_list r) (partial_list r) (nr_pages r) (meta r).

Definition has_flag (f b : Z) : bool := negb (Z.land f b =? 0).
Definition node_pgsize (n : slab_node) : Z := if has_flag (flags n) SLAB_FLAG_LGPAGE then PGSIZE_2MB else PGSIZE_4KB.
(** [addr_to_lgpage] or [addr_to_smpage], and [page_to_addr] of it. *)
Definition page_of (n : slab_node) (item : Z) : Z := item - item mod node_pgsize n.

(** ** Creating *)

(** [__slab_create_node] *)
Definition slab_create_node (sz off fl elems : Z) : slab_node := SlabNode sz off fl elems 0 0 [] [] 0 ∅.

(** [slab_create]: the size of the items, the flags and the number of items per
    page of the nodes. *)
Definition slab_create (sz fl : Z) : Z + (Z * Z * Z) :=
  let sz := if negb (has_flag fl SLAB_FLAG_FALSE_OKAY) then align_up sz CACHE_LINE_SIZE else align_up sz WORD_SIZE in
  if sz >? SLAB_2MB_LIMIT then inl (- E2BIG)
  else
    let fl := if sz >? SLAB_4KB_LIMIT then Z.lor fl SLAB_FLAG_LGPAGE else fl in
    let pgsize := if has_flag fl SLAB_FLAG_LGPAGE then PGSIZE_2MB else PGSIZE_4KB in
    inr (sz, fl, pgsize / sz).

Section Node.
Context {P : Type} `{page_ops P}.

(** [__slab_destroy_node]: every page goes back. *)
Fixpoint put_pages (l : list Z) (p : P) : option P :=
  match l with [] => Some p | pg :: l => p ← page_put pg p; put_pages l p end.
Definition slab_destroy_node (s : slab_node * P) : option P :=
  p ← put_pages (full_list s.1) s.2;
  p ← put_pages (partial_list s.1) p;
  if cur_pg s.1 =? 0 then Some p else page_put (cur_pg s.1) p.

(** The node and the page allocator; [w] below is the first words of items. *)
Abbreviation state := (slab_node * P)%type.

(** [__slab_node_get_page]: the page, or 0. *)
Definition slab_node_get_page (s : state) : option (Z * state) :=
  let '(n, p) := s in
  match partial_list n with
  | pg :: l => Some (pg, (n <| partial_list := l |>, p))
  | [] =>
      '(pg, p) ← page_alloc p;
      if pg =? 0 then Some (0, (n, p))
      else Some (pg, (n <| pg_off := offset n |> <| meta := <[pg := Page 0 (nr_elems n)]> (meta n) |>, p))
  end.

(** The first part of [__slab_node_alloc]: the exhausted page goes to the list of
    full pages, and another page takes its place. *)
Definition slab_need_page (n : slab_node) : option bool :=
  if cur_pg n =? 0 then Some true else e ← meta n !! cur_pg n; Some (item_count e =? 0).
Definition retire (n : slab_node) : slab_node := if cur_pg n =? 0 then n else n <| full_list := cur_pg n :: full_list n |>.
Definition slab_next_page (s : state) : option state :=
  '(pg, (n, p)) ← slab_node_get_page (retire s.1, s.2);
  Some (if pg =? 0 then n <| cur_pg := 0 |> else n <| cur_pg := pg |> <| nr_pages := nr_pages n + 1 |>, p).

(** The second part: an item of the current page. *)
Definition slab_take (w : Z -> Z) (n : slab_node) : option (Z * slab_node) :=
  e ← meta n !! cur_pg n;
  if negb (pg_next e =? 0) then
    Some (pg_next e, n <| meta := <[cur_pg n := Page (w (pg_next e)) (item_count e - 1)]> (meta n) |>)
  else if negb (pg_off n <? node_pgsize n) then None
  else
    Some (cur_pg n + pg_off n, n <| pg_off := pg_off n + size n |>
            <| meta := <[cur_pg n := Page (pg_next e) (item_count e - 1)]> (meta n) |>).

(** [__slab_node_alloc] *)
Definition slab_node_alloc (w : Z -> Z) (s : state) : option (Z * state) :=
  need ← slab_need_page s.1;
  s ← (if need : bool then slab_next_page s else Some s);
  if cur_pg s.1 =? 0 then Some (0, s) else '(x, n) ← slab_take w s.1; Some (x, (n, s.2)).

(** [list_del] of a page that is on one of the lists. *)
Definition slab_unlink (pg : Z) (n : slab_node) : option slab_node :=
  if bool_decide (pg ∈ full_list n ++ partial_list n)
  then Some (n <| full_list := filter (fun x => x <> pg) (full_list n) |>
               <| partial_list := filter (fun x => x <> pg) (partial_list n) |>)
  else None.

Definition slab_node_free (item : Z) (w : Z -> Z) (s : state) : option ((Z -> Z) * state) :=
  let '(n, p) := s in
  let pg := page_of n item in
  e ← meta n !! pg;
  let w := wr w item (pg_next e) in
  let e := Page item (item_count e + 1) in
  let n := n <| meta := <[pg := e]> (meta n) |> in
  if pg =? cur_pg n then Some (w, (n, p))
  else if item_count e =? SLAB_PARTIAL_THRESH then
    n ← slab_unlink pg n; Some (w, (n <| partial_list := pg :: partial_list n |>, p))
  else if item_count e =? nr_elems n then
    n ← slab_unlink pg n;
    p ← page_put pg p;
    Some (w, (n <| nr_pages := nr_pages n - 1 |> <| meta := delete pg (meta n) |>, p))
  else Some (w, (n, p)).

(** [slab_tcache_free], and [slab_tcache_alloc], which frees what it has got
    when memory runs out, the last item first. *)
Fixpoint slab_tcache_free (items : list Z) (w : Z -> Z) (s : state) : option ((Z -> Z) * state) :=
  match items with
  | [] => Some (w, s)
  | x :: l => '(w, s) ← slab_node_free x w s; slab_tcache_free l w s
  end.
Fixpoint slab_alloc_loop (nr : nat) (items : list Z) (w : Z -> Z) (s : state) : option (option (list Z) * (Z -> Z) * state) :=
  match nr with
  | O => Some (Some items, w, s)
  | S nr =>
      '(x, s) ← slab_node_alloc w s;
      if x =? 0 then '(w, s) ← slab_tcache_free (reverse items) w s; Some (None, w, s)
      else slab_alloc_loop nr (items ++ [x]) w s
  end.
Definition slab_tcache_alloc (nr : nat) (w : Z -> Z) (s : state) : option (option (list Z) * (Z -> Z) * state) :=
  slab_alloc_loop nr [] w s.

#[global] Instance slab_tcache_ops : tcache_ops (slab_node * P) := {
  ops_alloc := slab_tcache_alloc;
  ops_free := slab_tcache_free
}.
End Node.

(** ** The pages of a node *)

(** Item size, offset of the first item, items per page, page size. *)
Record geom := Geom { g_size : Z; g_off : Z; g_n : Z; g_pg : Z }.
Definition node_geom (n : slab_node) : geom := Geom (size n) (offset n) (nr_elems n) (node_pgsize n).
Record geom_ok (g : geom) : Prop := {
  go_size : 0 < g_size g;
  go_off : 0 <= g_off g;
  go_fit : g_off g + g_size g * g_n g <= g_pg g;
  go_many : SLAB_PARTIAL_THRESH < g_n g
}.

(** [x] is one of the first [k] items of page [pg]. *)
Definition item_at (g : geom) (pg k x : Z) : Prop := exists j, 0 <= j < k /\ x = pg + g_off g + g_size g * j.

(** The free list [l] starts at [h]. *)
Fixpoint links (w : Z -> Z) (h : Z) (l : list Z) : Prop :=
  match l with [] => h = 0 | x :: l => h = x /\ x <> 0 /\ links w (w x) l end.

(** A page with the free list [v.1], of which [v.2] items were carved so far. *)
Record page_ok (w : Z -> Z) (g : geom) (pg : Z) (e : page) (v : list Z * Z) : Prop := {
  pk_addr : 0 < pg /\ pg mod g_pg g = 0;
  pk_links : links w (pg_next e) v.1;
  pk_nodup : NoDup v.1;
  pk_items : forall x, x ∈ v.1 -> item_at g pg v.2 x;
  pk_carved : 0 <= v.2 <= g_n g;
  pk_count : item_count e = Z.of_nat (length v.1) + (g_n g - v.2)
}.

(** An item of the page that is in use. *)
Definition used (g : geom) (pg : Z) (v : list Z * Z) (x : Z) : Prop := item_at g pg v.2 x /\ x ∉ v.1.
Definition used_elsewhere (g : geom) (m : gmap Z page) (gv : Z -> list Z * Z) (pg x : Z) : Prop :=
  exists pg', pg' <> pg /\ is_Some (m !! pg') /\ used g pg' (gv pg') x.

Record pages_ok (w : Z -> Z) (g : geom) (m : gmap Z page) (gv : Z -> list Z * Z) (out : gset Z) : Prop := {
  pa_pages : forall pg e, m !! pg = Some e -> page_ok w g pg e (gv pg);
  pa_out : forall x, x ∈ out <-> exists pg, is_Some (m !! pg) /\ used g pg (gv pg) x
}.

Definition updz {A} (f : Z -> A) (a : Z) (v : A) : Z -> A := fun x => if x =? a then v else f x.
Lemma updz_eq {A} (f : Z -> A) a v : updz f a v a = v.
Proof. unfold updz. by rewrite Z.eqb_refl. Qed.
Lemma updz_ne {A} (f : Z -> A) a v x : x <> a -> updz f a v x = f x.
Proof. intros Hx. unfold updz. by apply Z.eqb_neq in Hx as ->. Qed.

Lemma links_ext w w' h l : (forall x, x ∈ l -> w' x = w x) -> links w h l -> links w' h l.
Proof.
  revert h. induction l as [|x l IH]; intros h Hw; simpl; [done|]. intros (-> & Hx & Hl).
  rewrite (Hw x ltac:(left)). split_and!; [done|done|]. apply IH; [|done]. intros y Hy. apply Hw. by right.
Qed.
Lemma page_ok_ext w w' g pg e v : (forall x, x ∈ v.1 -> w' x = w x) -> page_ok w g pg e v -> page_ok w' g pg e v.
Proof. intros Hw [H1 H2 H3 H4 H5 H6]. split; try done. by apply (links_ext w). Qed.

Section Pages.
Context (g : geom) (Hg : geom_ok g).

(** An item is in one page. *)
Lemma item_page pg k x : 0 < pg /\ pg mod g_pg g = 0 -> k <= g_n g -> item_at g pg k x -> x - x mod g_pg g = pg /\ pg <= x.
Proof.
  destruct Hg as [H1 H2 H3 H4]. intros [Hp Hm] Hk (j & Hj & ->). change SLAB_PARTIAL_THRESH with 4 in H4.
  assert (0 <= g_off g + g_size g * j < g_pg g) as Hr by nia. split; [|lia].
  replace (pg + g_off g + g_size g * j) with (g_off g + g_size g * j + pg) by lia.
  rewrite <- Zplus_mod_idemp_r, Hm, Z.add_0_r, Z.mod_small by lia. lia.
Qed.

Lemma used_page w m gv out pg x : pages_ok w g m gv out -> is_Some (m !! pg) -> used g pg (gv pg) x -> x - x mod g_pg g = pg /\ 0 < x.
Proof.
  intros [Hp _] [e He] [Hi _]. destruct (Hp pg e He) as [Ha _ _ _ Hk _].
  destruct (item_page pg (gv pg).2 x Ha) as [H1 H2]; [lia|done|]. lia.
Qed.

(** What is in use is in use on page [pg] or elsewhere, not both. *)
Lemma out_split w m gv out pg x : pages_ok w g m gv out -> is_Some (m !! pg) ->
  x ∈ out <-> used_elsewhere g m gv pg x \/ used g pg (gv pg) x.
Proof.
  intros [_ Ho] Hs. rewrite Ho. split.
  - intros (pg' & Hs' & Hu). destruct (decide (pg' = pg)) as [->|Hne]; [by right|]. left. by exists pg'.
  - intros [(pg' & _ & Hs' & Hu)|Hu]; [by exists pg'|by exists pg].
Qed.
Lemma elsewhere_page w m gv out pg x : pages_ok w g m gv out -> used_elsewhere g m gv pg x -> x - x mod g_pg g <> pg.
Proof. intros Hp (pg' & Hne & Hs & Hu). destruct (used_page w m gv out pg' x Hp Hs Hu) as [-> _]. done. Qed.

(** Page [pg] gets the entry [e'] and the view [v']. *)
Lemma pages_update w w' m gv out out' pg e' v' : pages_ok w g m gv out -> page_ok w' g pg e' v' ->
  (forall pg' x, pg' <> pg -> is_Some (m !! pg') -> x ∈ (gv pg').1 -> w' x = w x) ->
  (forall x, x ∈ out' <-> used_elsewhere g m gv pg x \/ used g pg v' x) ->
  pages_ok w' g (<[pg := e']> m) (updz gv pg v') out'.
Proof.
  intros [Hp Ho] He Hw Ho'. split.
  - intros pg' e1. destruct (decide (pg' = pg)) as [->|Hne].
    + rewrite lookup_insert_eq, updz_eq. by intros [= <-].
    + rewrite lookup_insert_ne by done. rewrite updz_ne by done. intros H1. apply (page_ok_ext w); [|by apply Hp].
      intros x Hx. by apply (Hw pg').
  - intros x. rewrite Ho'. split.
    + intros [(pg' & Hne & Hs & Hu)|Hu].
      * exists pg'. rewrite lookup_insert_ne by done. by rewrite updz_ne by done.
      * exists pg. rewrite lookup_insert_eq, updz_eq. by eauto.
    + intros (pg' & Hs & Hu). destruct (decide (pg' = pg)) as [->|Hne]; [right; by rewrite updz_eq in Hu|].
      rewrite lookup_insert_ne in Hs by done. rewrite updz_ne in Hu by done. left. by exists pg'.
Qed.

(** Free items of different pages are different. *)
Lemma free_page w m gv out pg x : pages_ok w g m gv out -> is_Some (m !! pg) -> x ∈ (gv pg).1 -> x - x mod g_pg g = pg.
Proof.
  intros [Hp _] [e He] Hx. destruct (Hp pg e He) as [Ha _ _ Hi Hk _].
  destruct (item_page pg (gv pg).2 x Ha) as [H1 H2]; [lia|by apply Hi|done].
Qed.
End Pages.

(** ** The invariant of a node *)

Record node_ok (w : Z -> Z) (n : slab_node) (gv : Z -> list Z * Z) (out : gset Z) : Prop := {
  nd_geom : geom_ok (node_geom n);
  nd_pages : pages_ok w (node_geom n) (meta n) gv out;
  nd_nodup : NoDup (full_list n ++ partial_list n);
  nd_cur : cur_pg n ∉ full_list n ++ partial_list n;
  nd_dom : forall pg, is_Some (meta n !! pg) <-> pg ∈ full_list n ++ partial_list n \/ (pg = cur_pg n /\ cur_pg n <> 0);
  nd_full : forall pg e, pg ∈ full_list n -> meta n !! pg = Some e -> item_count e < SLAB_PARTIAL_THRESH /\ (gv pg).2 = nr_elems n;
  nd_partial : forall pg e, pg ∈ partial_list n -> meta n !! pg = Some e ->
    SLAB_PARTIAL_THRESH <= item_count e < nr_elems n /\ (gv pg).2 = nr_elems n;
  nd_off : cur_pg n <> 0 -> (gv (cur_pg n)).2 < nr_elems n -> pg_off n = offset n + size n * (gv (cur_pg n)).2
}.

Section NodeProofs.
Context {P : Type} `{page_ops P}.

(** *** Taking an item of the current page *)

Lemma node_take w n gv out e' v' x : node_ok w n gv out -> cur_pg n <> 0 ->
  page_ok w (node_geom n) (cur_pg n) e' v' -> x ∉ out -> 
  (forall y, used (node_geom n) (cur_pg n) v' y <-> y = x \/ used (node_geom n) (cur_pg n) (gv (cur_pg n)) y) ->
  forall off, (v'.2 < nr_elems n -> off = offset n + size n * v'.2) ->
  node_ok w (n <| pg_off := off |> <| meta := <[cur_pg n := e']> (meta n) |>) (updz gv (cur_pg n) v') ({[x]} ∪ out).
Proof.
  intros [N1 N2 N3 N4 N5 N6 N7 N8] Hc He Hx Hu off Ho.
  assert (is_Some (meta n !! cur_pg n)) as Hs by (apply N5; by right).
  assert (forall pg, pg ∈ full_list n ++ partial_list n -> pg <> cur_pg n) as Hne by (intros pg Hp ->; done).
  split; simpl; try done.
  - apply (pages_update _ w w _ _ out); try done.
    intros y. rewrite Hu, elem_of_union, elem_of_singleton, (out_split _ w _ _ out (cur_pg n) y N2 Hs). tauto.
  - intros pg. destruct (decide (pg = cur_pg n)) as [->|Hp]; [rewrite lookup_insert_eq; split; [by right|by eexists]|].
    by rewrite lookup_insert_ne.
  - intros pg e Hp. rewrite lookup_insert_ne, updz_ne; [by apply N6|apply Hne, elem_of_app; by left|symmetry; apply Hne, elem_of_app; by left].
  - intros pg e Hp. rewrite lookup_insert_ne, updz_ne; [by apply N7|apply Hne, elem_of_app; by right|symmetry; apply Hne, elem_of_app; by right].
  - rewrite updz_eq. intros _. apply Ho.
Qed.

(** What is in use on the current page. *)
Lemma used_current w n gv out y : node_ok w n gv out -> cur_pg n <> 0 ->
  used (node_geom n) (cur_pg n) (gv (cur_pg n)) y <-> y ∈ out /\ y - y mod node_pgsize n = cur_pg n.
Proof.
  intros [N1 N2 _ _ N5 _ _ _] Hc. assert (is_Some (meta n !! cur_pg n)) as Hs by (apply N5; by right). split.
  - intros Hy. destruct (used_page _ N1 w _ _ out (cur_pg n) y N2 Hs Hy) as [H1 _].
    split; [|done]. apply (pa_out _ _ _ _ _ N2). by exists (cur_pg n).
  - intros [Hy Hp]. apply (out_split _ w _ _ out (cur_pg n) y N2 Hs) in Hy as [Hy|Hy]; [|done].
    by apply (elsewhere_page _ N1 w _ _ out (cur_pg n) y N2) in Hy.
Qed.

(** The node after the item [x] was taken. *)
Definition took (w : Z -> Z) (n : slab_node) (out : gset Z) (x : Z) (n' : slab_node) : Prop :=
  0 < x /\ x ∉ out /\ (exists gv', node_ok w n' gv' ({[x]} ∪ out)) /\ dom (meta n') = dom (meta n).

Lemma take_carve w n gv out e k : node_ok w n gv out -> cur_pg n <> 0 -> meta n !! cur_pg n = Some e -> 0 < item_count e ->
  gv (cur_pg n) = ([], k) -> slab_take w n = Some (cur_pg n + pg_off n, n <| pg_off := pg_off n + size n |>
    <| meta := <[cur_pg n := Page (pg_next e) (item_count e - 1)]> (meta n) |>) /\
  took w n out (cur_pg n + pg_off n) (n <| pg_off := pg_off n + size n |>
    <| meta := <[cur_pg n := Page (pg_next e) (item_count e - 1)]> (meta n) |>).
Proof.
  intros Hn Hc He Hi Ev. pose proof Hn as [[G1 G2 G3 G4] N2 _ _ _ _ _ N8].
  pose proof (pa_pages _ _ _ _ _ N2 _ _ He) as A. rewrite Ev in A. destruct A as [A1 A2 A3 A4 A5 A6]. rewrite Ev in N8. simpl in *.
  assert (pg_off n = offset n + size n * k) as Eo by (apply N8; [done|lia]).
  set (x := cur_pg n + pg_off n). assert (x = cur_pg n + offset n + size n * k) as Ex by (unfold x; lia).
  assert (forall y, item_at (node_geom n) (cur_pg n) (k + 1) y <-> y = x \/ item_at (node_geom n) (cur_pg n) k y) as Hk.
  { intros y. split.
    - intros (j & Hj & ->). destruct (decide (j = k)) as [->|]; [by left|]. right. exists j. split; [lia|done].
    - intros [->|(j & Hj & ->)]; [exists k; split; [lia|done]|]. exists j. split; [lia|done]. }
  destruct (item_page _ (nd_geom _ _ _ _ Hn) (cur_pg n) (k + 1) x A1) as [P1 P2]; [simpl; lia|apply Hk; by left|]. simpl in P1.
  assert (x ∉ out) as Hxo.
  { intros Hin. destruct (proj2 (used_current w n gv out x Hn Hc) (conj Hin P1)) as [(j & Hj & Ej) _]. rewrite Ev in Hj. simpl in *. nia. }
  unfold slab_take. rewrite He. cbn [mbind option_bind]. rewrite A2. simpl. replace (pg_off n <? node_pgsize n) with true by nia.
  split; [done|]. destruct A1 as [A1 A1']. split; [lia|]. split; [done|]. split; [|simpl; rewrite dom_insert_L; apply elem_of_dom_2 in He; set_solver].
  exists (updz gv (cur_pg n) ([], k + 1)). apply (node_take w n gv out _ ([], k + 1) x Hn Hc) with (off := pg_off n + size n); try done.
  - split; simpl; try done; [by intros y Hy%not_elem_of_nil|lia|lia].
  - intros y. unfold used. rewrite Ev. simpl. rewrite Hk. pose proof (not_elem_of_nil y). tauto.
  - intros _. simpl. lia.
Qed.

Lemma take_free w n gv out e x fl k : node_ok w n gv out -> cur_pg n <> 0 -> meta n !! cur_pg n = Some e ->
  gv (cur_pg n) = (x :: fl, k) ->
  slab_take w n = Some (x, n <| meta := <[cur_pg n := Page (w x) (item_count e - 1)]> (meta n) |>) /\
  took w n out x (n <| meta := <[cur_pg n := Page (w x) (item_count e - 1)]> (meta n) |>).
Proof.
  intros Hn Hc He Ev. pose proof Hn as [[G1 G2 G3 G4] N2 _ _ _ _ _ N8].
  pose proof (pa_pages _ _ _ _ _ N2 _ _ He) as A. rewrite Ev in A. destruct A as [A1 A2 A3 A4 A5 A6]. rewrite Ev in N8. simpl in *.
  destruct A2 as (B2 & Hx0 & A2). apply NoDup_cons in A3 as [Hxf A3].
  assert (item_at (node_geom n) (cur_pg n) k x) as Hx by (apply A4; left).
  destruct (item_page _ (nd_geom _ _ _ _ Hn) (cur_pg n) k x A1) as [P1 P2]; [simpl; lia|done|]. simpl in P1.
  assert (x ∉ out) as Hxo.
  { intros Hin. destruct (proj2 (used_current w n gv out x Hn Hc) (conj Hin P1)) as [_ Hnin]. rewrite Ev in Hnin. apply Hnin. left. }
  unfold slab_take. rewrite He. cbn [mbind option_bind]. rewrite B2. apply Z.eqb_neq in Hx0. rewrite Hx0. simpl.
  split; [done|]. destruct A1 as [A1 A1']. split; [lia|]. split; [done|]. split; [|simpl; rewrite dom_insert_L; apply elem_of_dom_2 in He; set_solver].
  exists (updz gv (cur_pg n) (fl, k)). apply (node_take w n gv out _ (fl, k) x Hn Hc) with (off := pg_off n); try done.
  - split; simpl; try done; [intros y Hy; apply A4; by right|lia].
  - intros y. unfold used. rewrite Ev. simpl. rewrite not_elem_of_cons. destruct (decide (y = x)) as [->|]; [tauto|].
    split; [|tauto]. intros [? ?]. right. tauto.
  - simpl. by apply N8.
Qed.

Lemma slab_take_ok w n gv out e : node_ok w n gv out -> cur_pg n <> 0 -> meta n !! cur_pg n = Some e -> 0 < item_count e ->
  exists x n', slab_take w n = Some (x, n') /\ took w n out x n'.
Proof.
  intros Hn Hc He Hi. destruct (gv (cur_pg n)) as [[|x fl] k] eqn:Ev.
  - eexists _, _. by apply (take_carve w n gv out e k).
  - eexists _, _. by apply (take_free w n gv out e x fl k).
Qed.

(** *** A new current page *)

Lemma node_ok_count w n gv out k : node_ok w n gv out -> node_ok w (n <| nr_pages := k |>) gv out.
Proof. intros [N1 N2 N3 N4 N5 N6 N7 N8]. by split. Qed.

Lemma listed_pos w n gv out pg : node_ok w n gv out -> pg ∈ full_list n ++ partial_list n -> 0 < pg.
Proof.
  intros [_ N2 _ _ N5 _ _ _] Hp. destruct (proj2 (N5 pg) (or_introl Hp)) as [e He].
  by destruct (pa_pages _ _ _ _ _ N2 _ _ He) as [[? _] _ _ _ _ _].
Qed.

Lemma retire_ok w n gv out : node_ok w n gv out -> slab_need_page n = Some true -> node_ok w (retire n <| cur_pg := 0 |>) gv out.
Proof.
  intros Hn Hneed. assert (0 ∉ full_list n ++ partial_list n) as H0 by (intros Hp%(listed_pos w n gv out); [lia|done]).
  unfold retire. destruct (cur_pg n =? 0) eqn:Ec; unfold slab_need_page in Hneed; rewrite Ec in Hneed.
  - apply Z.eqb_eq in Ec. destruct Hn as [N1 N2 N3 N4 N5 N6 N7 N8]. split; simpl; try done.
    intros pg. rewrite N5, Ec. tauto.
  - destruct (meta n !! cur_pg n) as [e|] eqn:He; [|done]. injection Hneed as Hi. apply Z.eqb_eq in Hi. apply Z.eqb_neq in Ec.
    destruct Hn as [N1 N2 N3 N4 N5 N6 N7 N8]. pose proof (pa_pages _ _ _ _ _ N2 _ _ He) as [A1 A2 A3 A4 A5 A6]. simpl in *.
    split; simpl; try done.
    + by apply NoDup_cons.
    + apply not_elem_of_cons. split; [done|done].
    + intros pg. rewrite N5, elem_of_cons. tauto.
    + intros pg e' [->|Hp]%elem_of_cons; [|by apply N6]. rewrite He. intros [= <-]. change SLAB_PARTIAL_THRESH with 4. lia.
Qed.

Lemma adopt_partial w n gv out pg l : node_ok w n gv out -> cur_pg n = 0 -> partial_list n = pg :: l ->
  node_ok w (n <| partial_list := l |> <| cur_pg := pg |>) gv out /\ exists e, meta n !! pg = Some e /\ 0 < item_count e.
Proof.
  intros Hn Hc Hp. pose proof (listed_pos w n gv out pg Hn) as Hpos. destruct Hn as [N1 N2 N3 N4 N5 N6 N7 N8].
  rewrite Hp in *. assert (pg ∈ full_list n ++ pg :: l) as Hin by (apply elem_of_app; right; left). specialize (Hpos Hin).
  destruct (proj2 (N5 pg) (or_introl Hin)) as [e He]. destruct (N7 pg e ltac:(left) He) as [Hi Hk].
  assert (NoDup (pg :: full_list n ++ l)) as [Hd1 Hd2]%NoDup_cons by (by rewrite Permutation_middle).
  split; [|exists e; split; [done|change SLAB_PARTIAL_THRESH with 4 in Hi; lia]]. split; simpl; try done.
  - intros pg'. rewrite N5, !elem_of_app, elem_of_cons, Hc. split; [|intros [[?|?]|[-> _]]; tauto].
    intros [[?|[->|?]]|[-> ?]]; [tauto|right; split; [done|lia]|tauto|done].
  - intros pg' e' Hp'. apply N7. by right.
  - rewrite Hk. lia.
Qed.

Lemma adopt_fresh w n gv out pg : node_ok w n gv out -> cur_pg n = 0 -> 0 < pg -> pg mod node_pgsize n = 0 -> meta n !! pg = None ->
  node_ok w (n <| pg_off := offset n |> <| meta := <[pg := Page 0 (nr_elems n)]> (meta n) |> <| cur_pg := pg |>) (updz gv pg ([], 0)) out.
Proof.
  intros [N1 N2 N3 N4 N5 N6 N7 N8] Hc Hpos Hal Hno.
  assert (forall pg', pg' ∈ full_list n ++ partial_list n -> pg' <> pg) as Hne.
  { intros pg' Hp ->. destruct (proj2 (N5 pg) (or_introl Hp)) as [e He]. congruence. }
  pose proof (go_many _ N1) as G4. change SLAB_PARTIAL_THRESH with 4 in G4. simpl in G4.
  split; simpl; try done.
  - apply (pages_update _ w w _ _ out); try done.
    + split; simpl; try done; [by apply NoDup_nil|by intros x Hx%not_elem_of_nil|lia|lia].
    + intros x. rewrite (pa_out _ _ _ _ _ N2 x). split.
      * intros (pg' & Hs & Hu). left. exists pg'. split; [|done]. intros ->. destruct Hs. congruence.
      * intros [(pg' & _ & Hs & Hu)|[(j & Hj & _) _]]; [by exists pg'|simpl in Hj; lia].
  - intros Hin. by apply (Hne pg).
  - intros pg'. destruct (decide (pg' = pg)) as [->|Hp]; [rewrite lookup_insert_eq; split; [right; split; [done|lia]|by eexists]|].
    rewrite lookup_insert_ne by done. rewrite N5, Hc. split; [|tauto]. intros [?|[? ?]]; [tauto|done].
  - intros pg' e Hp. assert (pg' <> pg) by (apply Hne, elem_of_app; by left). rewrite lookup_insert_ne, updz_ne by done. by apply N6.
  - intros pg' e Hp. assert (pg' <> pg) by (apply Hne, elem_of_app; by right). rewrite lookup_insert_ne, updz_ne by done. by apply N7.
  - rewrite updz_eq. simpl. lia.
Qed.

(** *** Freeing an item *)

(** The first [k] items of a page. *)
Definition items_of (g : geom) (pg k : Z) : list Z := (fun j => pg + g_off g + g_size g * j) <$> seqZ 0 k.
Lemma elem_items_of g pg k x : x ∈ items_of g pg k <-> item_at g pg k x.
Proof.
  unfold items_of, item_at. rewrite list_elem_of_fmap. split; intros (j & H1 & H2); exists j.
  - apply elem_of_seqZ in H2. split; [lia|done].
  - split; [done|]. apply elem_of_seqZ. lia.
Qed.
Lemma free_items_bound g pg e w v : page_ok w g pg e v -> Z.of_nat (length v.1) <= v.2 /\
  (Z.of_nat (length v.1) = v.2 -> forall x, ~ used g pg v x).
Proof.
  intros [_ _ A3 A4 A5 _]. assert (v.1 ⊆+ items_of g pg v.2) as Hs.
  { apply NoDup_submseteq; [done|]. intros x Hx. by apply elem_items_of, A4. }
  assert (Z.of_nat (length (items_of g pg v.2)) = v.2) as Hl by (unfold items_of; rewrite length_fmap, length_seqZ; lia).
  pose proof (submseteq_length _ _ Hs). split; [lia|]. intros Hk x [Hx Hn]. apply Hn.
  rewrite (submseteq_length_Permutation _ _ Hs) by lia. by apply elem_items_of.
Qed.

(** The page of an item in use, and what becomes of it when the item is freed. *)
Lemma item_entry w n gv out x : node_ok w n gv out -> x ∈ out ->
  exists e, meta n !! page_of n x = Some e /\ used (node_geom n) (page_of n x) (gv (page_of n x)) x /\ 0 < x.
Proof.
  intros [N1 N2 _ _ _ _ _ _] Hx. apply (pa_out _ _ _ _ _ N2) in Hx as (pg & Hs & Hu).
  destruct (used_page _ N1 _ _ _ _ _ _ N2 Hs Hu) as [H1 H2]. simpl in H1. unfold page_of. rewrite H1. destruct Hs as [e He]. by exists e.
Qed.
Lemma pages_free w n gv out x e : node_ok w n gv out -> x ∈ out -> meta n !! page_of n x = Some e ->
  let pg := page_of n x in let v := (x :: (gv pg).1, (gv pg).2) in
  pages_ok (wr w x (pg_next e)) (node_geom n) (<[pg := Page x (item_count e + 1)]> (meta n)) (updz gv pg v) (out ∖ {[x]}).
Proof.
  intros Hn Hx He pg v. destruct (item_entry w n gv out x Hn Hx) as (e0 & _ & [Hi Hf] & Hpos). destruct Hn as [N1 N2 _ _ _ _ _ _].
  assert (forall y, y <> x -> wr w x (pg_next e) y = w y) as Hw by (intros y Hy; by apply wr_ne).
  pose proof (pa_pages _ _ _ _ _ N2 _ _ He) as [A1 A2 A3 A4 A5 A6]. fold pg in A6. simpl in A6. apply (pages_update _ w _ _ _ out); try done.
  - split; unfold v; simpl; try done.
    + split_and!; [done|lia|]. rewrite wr_eq. apply (links_ext w); [|done]. intros y Hy. apply Hw. by intros ->.
    + by apply NoDup_cons.
    + intros y [->|Hy]%elem_of_cons; [done|by apply A4].
    + lia.
  - intros pg' y Hne Hs Hy. apply Hw. intros ->. apply Hne. symmetry. by apply (free_page _ N1 w _ _ out _ _ N2 Hs Hy).
  - intros y. rewrite elem_of_difference, elem_of_singleton, (out_split _ w _ _ out pg y N2 ltac:(by eexists)).
    unfold used, v. simpl. rewrite not_elem_of_cons. split; [tauto|]. intros [Hy|Hy]; [|tauto]. split; [by left|].
    intros ->. by apply (elsewhere_page _ N1 w _ _ out pg x N2) in Hy.
Qed.

(** The node with the new entry of page [pg], the lists having the same pages. *)
Lemma put_ok w w' n gv out out' pg e v fl pl : node_ok w n gv out -> is_Some (meta n !! pg) ->
  pages_ok w' (node_geom n) (<[pg := e]> (meta n)) (updz gv pg v) out' -> v.2 = (gv pg).2 ->
  fl ++ pl ≡ₚ full_list n ++ partial_list n ->
  (forall q, q <> pg -> (q ∈ fl -> q ∈ full_list n) /\ (q ∈ pl -> q ∈ partial_list n)) ->
  (pg ∈ fl -> item_count e < SLAB_PARTIAL_THRESH) -> (pg ∈ pl -> SLAB_PARTIAL_THRESH <= item_count e < nr_elems n) ->
  node_ok w' (n <| meta := <[pg := e]> (meta n) |> <| full_list := fl |> <| partial_list := pl |>) (updz gv pg v) out'.
Proof.
  intros [N1 N2 N3 N4 N5 N6 N7 N8] [e0 He0] Hpa Hv Hl Hq Hf Hp.
  assert (pg ∈ fl ++ pl -> (gv pg).2 = nr_elems n) as Hk.
  { rewrite Hl. intros [Hin|Hin]%elem_of_app; [by apply (N6 pg e0)|by apply (N7 pg e0)]. }
  assert (forall q, (updz gv pg v q).2 = (gv q).2) as Hu by (intros q; unfold updz; destruct (q =? pg) eqn:E; [apply Z.eqb_eq in E as ->; done|done]).
  split; simpl; try done.
  - by rewrite Hl.
  - by rewrite Hl.
  - intros q. rewrite Hl, <- N5. destruct (decide (q = pg)) as [->|Hne]; [rewrite lookup_insert_eq, He0; split; by eexists|].
    by rewrite lookup_insert_ne.
  - intros q e1 Hin He1. rewrite Hu. destruct (decide (q = pg)) as [->|Hne].
    + rewrite lookup_insert_eq in He1. injection He1 as <-. split; [by apply Hf|]. apply Hk, elem_of_app. by left.
    + rewrite lookup_insert_ne in He1 by done. apply (N6 q e1); [by apply Hq|done].
  - intros q e1 Hin He1. rewrite Hu. destruct (decide (q = pg)) as [->|Hne].
    + rewrite lookup_insert_eq in He1. injection He1 as <-. split; [by apply Hp|]. apply Hk, elem_of_app. by right.
    + rewrite lookup_insert_ne in He1 by done. apply (N7 q e1); [by apply Hq|done].
  - by rewrite Hu.
Qed.

(** The node without page [pg], all of whose items are free. *)
Lemma drop_ok w w' n gv out out' pg e v fl pl : node_ok w n gv out -> is_Some (meta n !! pg) -> pg <> cur_pg n ->
  pages_ok w' (node_geom n) (<[pg := e]> (meta n)) (updz gv pg v) out' -> (forall x, ~ used (node_geom n) pg v x) ->
  pg :: fl ++ pl ≡ₚ full_list n ++ partial_list n ->
  (forall q, (q ∈ fl -> q ∈ full_list n) /\ (q ∈ pl -> q ∈ partial_list n)) ->
  node_ok w' (n <| meta := delete pg (<[pg := e]> (meta n)) |> <| full_list := fl |> <| partial_list := pl |>) (updz gv pg v) out'.
Proof.
  intros [N1 N2 N3 N4 N5 N6 N7 N8] Hs Hc [Q1 Q2] Hv Hl Hq.
  rewrite <- Hl in N3, N4. apply NoDup_cons in N3 as [Hpg N3]. apply not_elem_of_cons in N4 as [_ N4].
  assert (forall q, q ∈ fl ++ pl -> q <> pg) as Hne by (intros q Hin ->; done).
  rewrite delete_insert_eq. split; simpl; try done.
  - split.
    + intros q e1 [Hq1 Hq2]%lookup_delete_Some. apply Q1. by rewrite lookup_insert_ne.
    + intros x. rewrite Q2. split; intros (q & Hs1 & Hu); exists q.
      * destruct (decide (q = pg)) as [->|Hqn]; [rewrite updz_eq in Hu; by apply Hv in Hu|].
        rewrite lookup_insert_ne in Hs1 by done. by rewrite lookup_delete_ne.
      * destruct Hs1 as [e1 [Hq1 Hq2]%lookup_delete_Some]. rewrite lookup_insert_ne by done. split; [by eexists|done].
  - intros q. destruct (decide (q = pg)) as [->|Hqn].
    + rewrite lookup_delete_eq. split; [by intros [? ?]|]. intros [?|[? _]]; done.
    + rewrite lookup_delete_ne by done. rewrite N5, <- Hl, elem_of_cons. tauto.
  - intros q e1 Hin [Hq1 Hq2]%lookup_delete_Some. rewrite updz_ne by done. apply (N6 q e1); [by apply Hq|done].
  - intros q e1 Hin [Hq1 Hq2]%lookup_delete_Some. rewrite updz_ne by done. apply (N7 q e1); [by apply Hq|done].
  - rewrite updz_ne by done. done.
Qed.

(** [list_del] finds the page and removes it. *)
Lemma unlink_lists (pg : Z) (l k : list Z) : NoDup (l ++ k) -> pg ∈ l ++ k ->
  pg :: filter (fun x => x <> pg) l ++ filter (fun x => x <> pg) k ≡ₚ l ++ k.
Proof.
  intros Hd Hin. rewrite <- filter_app. apply NoDup_Permutation; [|done|].
  - apply NoDup_cons. split; [|by apply NoDup_filter]. by intros [? _]%list_elem_of_filter.
  - intros x. rewrite elem_of_cons, list_elem_of_filter. destruct (decide (x = pg)) as [->|]; tauto.
Qed.
End NodeProofs.

(** The cases of [slab_node_free]: [x] goes back to its page, whose new entry is
    [e'] and whose new view is [v]. *)
Section Freeing.
Context (w : Z -> Z) (n : slab_node) (gv : Z -> list Z * Z) (out : gset Z) (x : Z) (e : page).
Context (Hn : node_ok w n gv out) (Hx : x ∈ out) (He : meta n !! page_of n x = Some e).
Abbreviation pg := (page_of n x).
Abbreviation w' := (wr w x (pg_next e)).
Abbreviation e' := (Page x (item_count e + 1)).
Abbreviation v := (x :: (gv pg).1, (gv pg).2).
Abbreviation fl := (filter (fun q => q <> pg) (full_list n)).
Abbreviation pl := (filter (fun q => q <> pg) (partial_list n)).

Lemma freeing_count : item_count e + 1 <= nr_elems n /\
  (item_count e + 1 = nr_elems n -> (gv pg).2 = nr_elems n -> forall y, ~ used (node_geom n) pg v y).
Proof.
  pose proof (pa_pages _ _ _ _ _ (pages_free w n gv out x e Hn Hx He) pg e' ltac:(apply lookup_insert_eq)) as Hpo.
  rewrite updz_eq in Hpo. destruct (free_items_bound _ _ _ _ _ Hpo) as [Hl Ha].
  pose proof (pk_count _ _ _ _ _ Hpo) as Hc. pose proof (pk_carved _ _ _ _ _ Hpo) as Hk. cbn [fst snd item_count node_geom g_n] in *.
  split; [lia|]. intros E1 E2. apply Ha. lia.
Qed.

Lemma freed_current : pg = cur_pg n -> node_ok w' (n <| meta := <[pg := e']> (meta n) |>) (updz gv pg v) (out ∖ {[x]}).
Proof.
  intros Ec. pose proof (nd_cur _ _ _ _ Hn) as N4. rewrite <- Ec, not_elem_of_app in N4.
  apply (put_ok w w' n gv out _ pg e' v (full_list n) (partial_list n) Hn); [by eexists|by apply pages_free|done|done|done| |]; tauto.
Qed.

Lemma freed_listed : pg <> cur_pg n -> pg ∈ full_list n ++ partial_list n /\ (gv pg).2 = nr_elems n /\
  (pg ∈ full_list n -> pg ∉ partial_list n /\ item_count e < SLAB_PARTIAL_THRESH) /\
  (pg ∈ partial_list n -> SLAB_PARTIAL_THRESH <= item_count e).
Proof.
  intros Hc. destruct Hn as [N1 N2 N3 N4 N5 N6 N7 N8].
  assert (pg ∈ full_list n ++ partial_list n) as Hin by (destruct (proj1 (N5 pg) ltac:(by eexists)) as [?|[? _]]; done).
  apply NoDup_app in N3 as (_ & N3 & _). split_and!; [done| | |].
  - apply elem_of_app in Hin as [Hf|Hf]; [by apply (N6 pg e)|by apply (N7 pg e)].
  - intros Hf. split; [by apply N3|by apply (N6 pg e)].
  - intros Hf. by apply (N7 pg e).
Qed.

Lemma freed_stays : pg <> cur_pg n -> item_count e + 1 <> SLAB_PARTIAL_THRESH -> item_count e + 1 <> nr_elems n ->
  node_ok w' (n <| meta := <[pg := e']> (meta n) |>) (updz gv pg v) (out ∖ {[x]}).
Proof.
  intros Hc H1 H2. destruct (freed_listed Hc) as (Hin & Hk & Hf & Hp). destruct freeing_count as [Hb _].
  change SLAB_PARTIAL_THRESH with 4 in *.
  apply (put_ok w w' n gv out _ pg e' v (full_list n) (partial_list n) Hn); [by eexists|by apply pages_free|done|done|done| |].
  - intros Hi. destruct (Hf Hi). change SLAB_PARTIAL_THRESH with 4. simpl. lia.
  - intros Hi. specialize (Hp Hi). change SLAB_PARTIAL_THRESH with 4. simpl. lia.
Qed.

Lemma unlinked_sub q : (q ∈ fl -> q ∈ full_list n) /\ (q ∈ pl -> q ∈ partial_list n).
Proof. split; by intros [_ ?]%list_elem_of_filter. Qed.

Lemma freed_partial : pg <> cur_pg n -> item_count e + 1 = SLAB_PARTIAL_THRESH ->
  node_ok w' (n <| meta := <[pg := e']> (meta n) |> <| full_list := fl |> <| partial_list := pg :: pl |>) (updz gv pg v) (out ∖ {[x]}).
Proof.
  intros Hc H1. destruct (freed_listed Hc) as (Hin & Hk & Hf & Hp). pose proof (go_many _ (nd_geom _ _ _ _ Hn)) as Hm.
  apply (put_ok w w' n gv out _ pg e' v fl (pg :: pl) Hn); [by eexists|by apply pages_free|done| | | |].
  - rewrite <- Permutation_middle. apply unlink_lists; [apply (nd_nodup _ _ _ _ Hn)|done].
  - intros q Hq. destruct (unlinked_sub q) as [U1 U2]. split; [done|]. intros [?|?]%elem_of_cons; [done|by apply U2].
  - by intros [? _]%list_elem_of_filter.
  - intros _. simpl in *. lia.
Qed.

Lemma freed_page : pg <> cur_pg n -> item_count e + 1 = nr_elems n ->
  node_ok w' (n <| meta := delete pg (<[pg := e']> (meta n)) |> <| full_list := fl |> <| partial_list := pl |>) (updz gv pg v) (out ∖ {[x]}).
Proof.
  intros Hc H1. destruct (freed_listed Hc) as (Hin & Hk & Hf & Hp).
  apply (drop_ok w w' n gv out _ pg e' v fl pl Hn); [by eexists|done|by apply pages_free| | |].
  - by apply freeing_count.
  - apply unlink_lists; [apply (nd_nodup _ _ _ _ Hn)|done].
  - apply unlinked_sub.
Qed.
End Freeing.

(** ** The node with its page allocator *)

Section Laws.
Context (g : geom) {P : Type} `{PageLaws P (g_pg g)}.

Definition slab_holds (w : Z -> Z) (s : slab_node * P) (out : gset Z) : Prop :=
  node_geom s.1 = g /\ (exists gv, node_ok w s.1 gv out) /\ page_holds (pg := g_pg g) s.2 (dom (meta s.1)).

Lemma slab_next_page_ok w s out : slab_holds w s out -> slab_need_page s.1 = Some true ->
  exists s', slab_next_page s = Some s' /\ slab_holds w s' out /\
    (cur_pg s'.1 <> 0 -> exists e, meta s'.1 !! cur_pg s'.1 = Some e /\ 0 < item_count e).
Proof.
  destruct s as [n p]. intros (Hg & [gv Hn] & Hp) Hneed. simpl in *. pose proof (retire_ok w n gv out Hn Hneed) as Hr.
  assert (meta (retire n) = meta n /\ node_geom (retire n) = g /\ offset (retire n) = offset n) as (Em & Eg & _)
    by (unfold retire; by destruct (cur_pg n =? 0)).
  unfold slab_next_page, slab_node_get_page. cbn [fst snd]. destruct (partial_list (retire n)) as [|pg l] eqn:El.
  - destruct (page_alloc_ok _ _ Hp) as (pg & p' & Ha & Hcase). rewrite Ha. cbn [mbind option_bind].
    destruct Hcase as [[-> Hp']|(Hpos & Hal & Hnew & Hp')].
    + change (0 =? 0) with true. cbn [mbind option_bind]. eexists. split; [done|]. split; [|simpl; intros ?; lia]. split; [done|]. split; [by eexists|]. simpl. by rewrite Em.
    + replace (pg =? 0) with false by lia. cbn [mbind option_bind]. replace (pg =? 0) with false by lia.
      eexists. split; [done|]. split.
      * split; [done|]. split; [|simpl; by rewrite dom_insert_L, Em].
        eexists. apply node_ok_count. apply (adopt_fresh w _ gv out pg Hr); [done|done| |simpl; rewrite Em; by apply not_elem_of_dom].
        change (pg mod g_pg (node_geom (retire n)) = 0). by rewrite Eg.
      * simpl. intros _. rewrite lookup_insert_eq. eexists. split; [done|]. simpl.
        pose proof (go_many _ (nd_geom _ _ _ _ Hr)) as Hm. change SLAB_PARTIAL_THRESH with 4 in Hm. simpl in Hm. lia.
  - pose proof (listed_pos w _ gv out pg Hr) as Hpos. simpl in Hpos. rewrite El in Hpos.
    assert (0 < pg) by (apply Hpos, elem_of_app; right; left). cbn [mbind option_bind]. replace (pg =? 0) with false by lia.
    destruct (adopt_partial w _ gv out pg l Hr) as [Ho He]; [done|done|].
    eexists. split; [done|]. split; [|done]. split; [done|]. split; [|simpl; by rewrite Em].
    eexists. apply node_ok_count, Ho.
Qed.

Lemma slab_node_alloc_ok w s out : slab_holds w s out ->
  exists x s', slab_node_alloc w s = Some (x, s') /\
    ((x = 0 /\ slab_holds w s' out) \/ (0 < x /\ x ∉ out /\ slab_holds w s' ({[x]} ∪ out))).
Proof.
  intros Hs. assert (exists s1, (need ← slab_need_page s.1; if need : bool then slab_next_page s else Some s) = Some s1 /\
    slab_holds w s1 out /\ (cur_pg s1.1 <> 0 -> exists e, meta s1.1 !! cur_pg s1.1 = Some e /\ 0 < item_count e)) as (s1 & E1 & H1 & Hc).
  { destruct (slab_need_page s.1) as [[|]|] eqn:En; cbn [mbind option_bind].
    - by apply slab_next_page_ok.
    - exists s. split; [done|]. split; [done|]. intros Hc. unfold slab_need_page in En. apply Z.eqb_neq in Hc. rewrite Hc in En.
      destruct (meta s.1 !! cur_pg s.1) as [e|] eqn:He; [|done]. exists e. split; [done|]. injection En as En.
      destruct Hs as (_ & [gv [_ N2 _ _ _ _ _ _]] & _). destruct (pa_pages _ _ _ _ _ N2 _ _ He) as [_ _ _ _ A5 A6]. lia.
    - destruct Hs as (_ & [gv [_ _ _ _ N5 _ _ _]] & _). unfold slab_need_page in En. destruct (cur_pg s.1 =? 0) eqn:Ec; [done|].
      apply Z.eqb_neq in Ec. destruct (proj2 (N5 _) (or_intror (conj eq_refl Ec))) as [e He]. by rewrite He in En. }
  unfold slab_node_alloc. destruct (slab_need_page s.1) as [need|]; [|done]. cbn [mbind option_bind] in *. rewrite E1. cbn [mbind option_bind].
  destruct (cur_pg s1.1 =? 0) eqn:Ec; [exists 0, s1; split; [done|by left]|]. apply Z.eqb_neq in Ec.
  destruct (Hc Ec) as (e & He & Hi). destruct H1 as (Hg & [gv Hn] & Hp).
  destruct (slab_take_ok w s1.1 gv out e Hn Ec He Hi) as (x & n' & Et & Hx & Hxo & Hn' & Hd). rewrite Et. cbn [mbind option_bind].
  eexists _, _. split; [done|]. right. split_and!; [done|done|]. split; [|split; [done|simpl; by rewrite Hd]].
  simpl. rewrite <- Hg. unfold slab_take in Et. rewrite He in Et. cbn [mbind option_bind] in Et. by repeat case_match; simplify_eq.
Qed.

Lemma slab_node_free_ok x w s out : slab_holds w s out -> x ∈ out ->
  exists w' s', slab_node_free x w s = Some (w', s') /\ (forall y, y <> x -> w' y = w y) /\ slab_holds w' s' (out ∖ {[x]}).
Proof.
  destruct s as [n p]. intros (Hg & [gv Hn] & Hp) Hx. simpl in *.
  destruct (item_entry w n gv out x Hn Hx) as (e & He & _ & _).
  assert (forall y, y <> x -> wr w x (pg_next e) y = w y) as Hw by (intros y Hy; by apply wr_ne).
  assert (dom (<[page_of n x := Page x (item_count e + 1)]> (meta n)) = dom (meta n)) as Hd
    by (rewrite dom_insert_L; apply elem_of_dom_2 in He; set_solver).
  unfold slab_node_free. rewrite He. cbn [mbind option_bind item_count]. unfold slab_unlink. simpl.
  destruct (page_of n x =? cur_pg n) eqn:Ec; [apply Z.eqb_eq in Ec|apply Z.eqb_neq in Ec].
  { eexists _, _. split; [done|]. split; [done|]. split; [done|]. split; [|simpl; by rewrite Hd]. eexists. by apply freed_current. }
  destruct (freed_listed w n gv out x e Hn He Ec) as (Hin & _). rewrite bool_decide_true by done. cbn [mbind option_bind].
  destruct (_ =? SLAB_PARTIAL_THRESH) eqn:Et; [apply Z.eqb_eq in Et|apply Z.eqb_neq in Et].
  { eexists _, _. split; [done|]. split; [done|]. split; [done|]. split; [|simpl; by rewrite Hd]. eexists. by apply freed_partial. }
  destruct (_ =? nr_elems n) eqn:En; [apply Z.eqb_eq in En|apply Z.eqb_neq in En].
  - destruct (page_put_ok p _ (page_of n x) Hp ltac:(by apply elem_of_dom_2 in He)) as (p' & Ep & Hp'). rewrite Ep. cbn [mbind option_bind].
    eexists _, _. split; [done|]. split; [done|]. split; [done|]. split; [|simpl; by rewrite dom_delete_L, Hd].
    eexists. pose proof (node_ok_count _ _ _ _ (nr_pages n - 1) (freed_page w n gv out x e Hn Hx He Ec En)) as Hf. exact Hf.
  - eexists _, _. split; [done|]. split; [done|]. split; [done|]. split; [|simpl; by rewrite Hd]. eexists. by apply freed_stays.
Qed.

Lemma slab_tcache_free_ok l w s out : slab_holds w s out -> NoDup l -> (forall x, x ∈ l -> x ∈ out) ->
  exists w' s', slab_tcache_free l w s = Some (w', s') /\ (forall y, y ∉ l -> w' y = w y) /\ slab_holds w' s' (out ∖ list_to_set l).
Proof.
  revert w s out. induction l as [|x l IH]; intros w s out Hs Hd Hl; simpl.
  - exists w, s. split; [done|]. split; [done|]. by rewrite difference_empty_L.
  - apply NoDup_cons in Hd as [Hx Hd]. destruct (slab_node_free_ok x w s out Hs (Hl x ltac:(left))) as (w1 & s1 & E1 & F1 & G1).
    rewrite E1. cbn [mbind option_bind].
    destruct (IH w1 s1 _ G1 Hd) as (w2 & s2 & E2 & F2 & G2).
    { intros y Hy. apply elem_of_difference. split; [apply Hl; by right|]. intros ->%elem_of_singleton. done. }
    exists w2, s2. split; [done|]. split.
    + intros y [H1 H2]%not_elem_of_cons. rewrite F2 by done. by apply F1.
    + by rewrite <- difference_difference_l_L.
Qed.

Lemma slab_alloc_loop_ok n items w s out : slab_holds w s (list_to_set items ∪ out) -> NoDup items ->
  (forall x, x ∈ items -> x <> 0 /\ x ∉ out) ->
  exists r w' s', slab_alloc_loop n items w s = Some (r, w', s') /\ (forall x, x ∈ out -> w' x = w x) /\
    match r with
    | Some l => length l = (length items + n)%nat /\ NoDup l /\ (forall x, x ∈ l -> x <> 0 /\ x ∉ out) /\ slab_holds w' s' (list_to_set l ∪ out)
    | None => slab_holds w' s' out
    end.
Proof.
  revert items w s. induction n as [|n IH]; intros items w s Hs Hd Hi; simpl.
  - eexists _, _, _. split; [done|]. split; [done|]. rewrite Nat.add_0_r. done.
  - destruct (slab_node_alloc_ok w s _ Hs) as (x & s1 & E1 & Hcase). rewrite E1. cbn [mbind option_bind].
    destruct Hcase as [[-> H1]|(Hpos & Hnew & H1)].
    + change (0 =? 0) with true. cbv iota. destruct (slab_tcache_free_ok (reverse items) w s1 _ H1) as (w2 & s2 & E2 & F2 & G2).
      * by rewrite reverse_Permutation.
      * intros x Hx. rewrite elem_of_reverse in Hx. apply elem_of_union. left. by rewrite elem_of_list_to_set.
      * rewrite E2. cbn [mbind option_bind]. eexists _, _, _. split; [done|]. split.
        -- intros x Hx. apply F2. intros Hr. rewrite elem_of_reverse in Hr. by apply Hi in Hr as [_ ?].
        -- rewrite reverse_Permutation in G2. replace ((list_to_set items ∪ out) ∖ list_to_set items) with out in G2; [done|].
           apply set_eq. intros x. rewrite elem_of_difference, elem_of_union, elem_of_list_to_set. specialize (Hi x).
           destruct (decide (x ∈ items)); naive_solver.
    + replace (x =? 0) with false by lia. apply not_elem_of_union in Hnew as [Hx1 Hx2]. rewrite elem_of_list_to_set in Hx1.
      destruct (IH (items ++ [x]) w s1) as (r & w2 & s2 & E2 & F2 & G2).
      * rewrite list_to_set_app_L. simpl. by rewrite union_empty_r_L, (comm_L union (list_to_set items)), <- (assoc_L union).
      * rewrite (comm app). by apply NoDup_cons.
      * intros y [Hy|Hy%list_elem_of_singleton]%elem_of_app; [by apply Hi|]. subst y. split; [lia|done].
      * exists r, w2, s2. split; [done|]. split; [done|]. destruct r as [l|]; [|done]. rewrite length_app in G2. simpl in G2.
        destruct G2 as (G2 & G3). split; [lia|done].
Qed.

(** A user may write to its items: the free lists do not go through them. *)
Lemma slab_holds_frame w w' s out : slab_holds w s out -> (forall x, x ∉ out -> w' x = w x) -> slab_holds w' s out.
Proof.
  intros (Hg & [gv [N1 N2 N3 N4 N5 N6 N7 N8]] & Hp) Hw. split; [done|]. split; [|done]. exists gv. split; try done.
  pose proof N2 as [Q1 Q2]. split; [|done]. intros pg e He. apply (page_ok_ext w); [|by apply Q1]. intros x Hx. apply Hw. intros Hin.
  apply (out_split _ w _ gv out pg x N2 ltac:(by eexists)) in Hin as [Hu|[_ Hu]]; [|done].
  apply (elsewhere_page _ N1 w _ gv out pg x N2) in Hu. by rewrite (free_page _ N1 w _ gv out pg x N2 ltac:(by eexists) Hx) in Hu.
Qed.

#[refine] Instance slab_laws : TcacheOpsLaws (slab_node * P) := {
  holds := slab_holds
}.
Proof.
  - intros w w' s out. apply slab_holds_frame.
  - intros n w s out Hs _. destruct (slab_alloc_loop_ok n [] w s out) as (r & w' & s' & E & F & G).
    + simpl. by rewrite union_empty_l_L.
    + by apply NoDup_nil.
    + by intros x Hx%not_elem_of_nil.
    + exists r, w', s'. split; [done|]. split; [done|]. destruct r as [l|]; [|done]. by rewrite (comm_L union).
  - intros l w s out Hs Hd Hl. destruct (slab_tcache_free_ok l w s out Hs Hd Hl) as (w' & s' & E & F & G).
    exists w', s'. split; [done|]. split; [|done]. intros x _. apply F.
Defined.

(** *** Destroying a node *)

Lemma put_pages_ok l p out : page_holds (pg := g_pg g) p out -> NoDup l -> (forall x, x ∈ l -> x ∈ out) ->
  exists p', put_pages l p = Some p' /\ page_holds (pg := g_pg g) p' (out ∖ list_to_set l).
Proof.
  revert p out. induction l as [|x l IH]; intros p out Hp Hd Hl; simpl.
  - exists p. split; [done|]. by rewrite difference_empty_L.
  - apply NoDup_cons in Hd as [Hx Hd]. destruct (page_put_ok p out x Hp (Hl x ltac:(left))) as (p1 & E1 & H1).
    rewrite E1. cbn [mbind option_bind]. destruct (IH p1 _ H1 Hd) as (p2 & E2 & H2).
    { intros y Hy. apply elem_of_difference. split; [apply Hl; by right|]. intros ->%elem_of_singleton. done. }
    exists p2. split; [done|]. by rewrite <- difference_difference_l_L.
Qed.

(** Destroying a node returns all of its pages. *)
Theorem slab_destroy_returns w s out : slab_holds w s out -> exists p', slab_destroy_node s = Some p' /\ page_holds (pg := g_pg g) p' ∅.
Proof.
  destruct s as [n p]. intros (_ & [gv [N1 N2 N3 N4 N5 _ _ _]] & Hp). simpl in *. unfold slab_destroy_node. simpl.
  apply NoDup_app in N3 as (D1 & D2 & D3).
  assert (forall x, x ∈ dom (meta n) <-> x ∈ full_list n ++ partial_list n \/ (x = cur_pg n /\ cur_pg n <> 0)) as Hdom
    by (intros x; by rewrite elem_of_dom).
  destruct (put_pages_ok (full_list n) p _ Hp D1) as (p1 & E1 & H1); [intros x Hx; apply Hdom; left; apply elem_of_app; by left|].
  rewrite E1. cbn [mbind option_bind].
  destruct (put_pages_ok (partial_list n) p1 _ H1 D3) as (p2 & E2 & H2).
  { intros x Hx. apply elem_of_difference. split; [apply Hdom; left; apply elem_of_app; by right|].
    rewrite elem_of_list_to_set. intros Hf. by apply (D2 x). }
  rewrite E2. cbn [mbind option_bind]. rewrite difference_difference_l_L, <- list_to_set_app_L in H2.
  destruct (cur_pg n =? 0) eqn:Ec.
  - exists p2. split; [done|]. replace (∅ : gset Z) with (dom (meta n) ∖ list_to_set (full_list n ++ partial_list n)); [done|].
    apply set_eq. intros x. rewrite elem_of_difference, elem_of_list_to_set, Hdom. apply Z.eqb_eq in Ec. set_solver.
  - apply Z.eqb_neq in Ec. destruct (page_put_ok p2 _ (cur_pg n) H2) as (p3 & E3 & H3).
    { apply elem_of_difference. rewrite elem_of_list_to_set, Hdom. split; [by right|done]. }
    exists p3. split; [done|]. match type of H3 with page_holds _ ?X => replace X with (∅ : gset Z) in H3; [done|] end.
    apply set_eq. intros x. rewrite !elem_of_difference, elem_of_list_to_set, Hdom. set_solver.
Qed.
End Laws.

(** ** Creating a slab *)

Lemma align_up_64 x : 0 < x <= 2 ^ 64 - 64 -> exists k, align_up x 64 = 64 * k /\ x <= 64 * k.
Proof.
  intros Hx. unfold align_up. rewrite (u64_small (x - 1)) by (unfold is_u64; lia). change (u64 (64 - 1)) with (Z.ones 6).
  pose proof (Z.add_lor_land (x - 1) (Z.ones 6)) as Hl. rewrite Z.land_ones in Hl by lia. change (Z.ones 6) with 63 in *. change (2 ^ 6) with 64 in Hl.
  pose proof (Z.div_mod (x - 1) 64). pose proof (Z.mod_pos_bound (x - 1) 64).
  exists ((x - 1) / 64 + 1). rewrite u64_small by (unfold is_u64; lia). lia.
Qed.

Lemma slab_create_geom sz fl sz' fl' nr : 0 < sz <= 2 ^ 64 - 64 -> slab_create sz fl = inr (sz', fl', nr) ->
  geom_ok (node_geom (slab_create_node sz' 0 fl' nr)) /\ sz <= sz' /\ sz' mod 64 = 0.
Proof.
  intros Hs. unfold slab_create. change CACHE_LINE_SIZE with 64. change WORD_SIZE with 64.
  replace (if negb (has_flag fl SLAB_FLAG_FALSE_OKAY) then align_up sz 64 else align_up sz 64) with (align_up sz 64) by (by destruct negb).
  destruct (align_up_64 sz Hs) as (k & -> & Hk). change SLAB_2MB_LIMIT with 262144. change SLAB_4KB_LIMIT with 512.
  destruct (_ >? 262144) eqn:E2; [done|]. intros [= <- <- <-].
  split; [|split; [done|by rewrite Z.mul_comm, Z.mod_mul]].
  set (f := if 64 * k >? 512 then _ else _).
  assert (has_flag f SLAB_FLAG_LGPAGE = true \/ 64 * k <= 512) as Hf.
  { subst f. destruct (64 * k >? 512) eqn:E4; [left|right; lia]. unfold has_flag, SLAB_FLAG_LGPAGE.
    rewrite Z.land_lor_distr_l. change (Z.land 1 1) with 1. apply negb_true_iff, Z.eqb_neq. intros [_ ?]%Z.lor_eq_0_iff. done. }
  unfold node_geom, node_pgsize. simpl. set (pgsz := if has_flag f SLAB_FLAG_LGPAGE then PGSIZE_2MB else PGSIZE_4KB).
  assert (8 * (64 * k) <= pgsz) as Hp.
  { subst pgsz. unfold PGSIZE_2MB, PGSIZE_4KB. destruct Hf as [->|Hf]; [lia|]. destruct (has_flag f SLAB_FLAG_LGPAGE); lia. }
  split; simpl; [lia|done|pose proof (Z.mul_div_le pgsz (64 * k)); lia|].
  change SLAB_PARTIAL_THRESH with 4. assert (8 <= pgsz / (64 * k)) by (apply Z.div_le_lower_bound; lia). lia.
Qed.

Lemma create_node_ok w sz off fl nr : geom_ok (node_geom (slab_create_node sz off fl nr)) ->
  node_ok w (slab_create_node sz off fl nr) (fun _ => ([], 0)) ∅.
Proof.
  intros Hg. split; simpl; try done.
  - split; [by intros pg e; rewrite lookup_empty|]. intros x. split; [by intros ?%not_elem_of_empty|].
    intros (pg & [e He] & _). by rewrite lookup_empty in He.
  - by apply NoDup_nil.
  - apply not_elem_of_nil.
  - intros pg. rewrite lookup_empty. split; [by intros [? ?]|]. intros [?%not_elem_of_nil|[_ ?]]; done.
Qed.

(** [slab_create_tcache] *)
Definition slab_create_tcache (sz : Z) (mag : nat) : option tcache := tcache_create mag sz.

(** Items in use are inside a page and do not overlap. *)
Lemma node_items w n gv out x : node_ok w n gv out -> x ∈ out ->
  exists j, 0 <= j < nr_elems n /\ x = page_of n x + offset n + size n * j /\ page_of n x ∈ dom (meta n) /\ page_of n x mod node_pgsize n = 0.
Proof.
  intros Hn Hx. destruct (item_entry w n gv out x Hn Hx) as (e & He & [(j & Hj & Ej) _] & _).
  destruct (pa_pages _ _ _ _ _ (nd_pages _ _ _ _ Hn) _ _ He) as [[_ A1] _ _ _ A5 _]. simpl in *.
  exists j. split_and!; [lia|lia|done|by eapply elem_of_dom_2|done].
Qed.
Lemma items_apart w n gv out x y : node_ok w n gv out -> x ∈ out -> y ∈ out -> x <> y -> x + size n <= y \/ y + size n <= x.
Proof.
  intros Hn Hx Hy Hne. destruct (node_items w n gv out x Hn Hx) as (j & Hj & Ex & _ & Px).
  destruct (node_items w n gv out y Hn Hy) as (i & Hi & Ey & _ & Py). destruct (nd_geom _ _ _ _ Hn) as [G1 G2 G3 G4]. simpl in *.
  set (p := page_of n x) in *. set (q := page_of n y) in *. clearbody p q.
  assert (0 < node_pgsize n) by nia.
  destruct (Z.lt_trichotomy p q) as [Hl|[<-|Hl]].
  - left. assert (p + node_pgsize n <= q); [|nia].
    apply Z.mod_divide in Px as [a ->], Py as [b ->]; [|lia|lia]. assert (a + 1 <= b) by nia. nia.
  - destruct (Z.lt_trichotomy i j) as [Hl|[<-|Hl]]; [right; nia|lia|left; nia].
  - right. assert (q + node_pgsize n <= p); [|nia].
    apply Z.mod_divide in Px as [a ->], Py as [b ->]; [|lia|lia]. assert (b + 1 <= a) by nia. nia.
Qed.

Section Created.
Context (sz fl sz' fl' nr : Z).
Abbreviation node0 := (slab_create_node sz' 0 fl' nr).
Context {P : Type} `{PageLaws P (node_pgsize node0)}.

(** C22: a slab behind per-thread caches on a machine with one NUMA node, over any page
    allocator that keeps its promises, in any interleaving of the calls of any number of
    threads, where a magazine is allocated or freed in one step: no assertion fails; an
    item in use is at a multiple of the item size in a page that the slab holds and ends
    inside the page; two items in use do not overlap; and the pages that the slab has
    recorded are exactly those it holds of the page allocator. *)
Theorem slab_cache_sound (p : P) mag t n s hd :
  0 < sz <= 2 ^ 64 - 64 -> slab_create sz fl = inr (sz', fl', nr) -> slab_create_tcache sz' mag = Some t -> (0 < mag)%nat ->
  page_holds p ∅ -> reachable (cache_init hd t (node0, p) n) s ->
  let '(nd, p') := back (sh s) in
  let pg := node_pgsize node0 in
  (forall a, allowed a s = true -> is_Some (perform a s)) /\
  (forall x, x ∈ users s -> (x mod pg) mod sz' = 0 /\ x mod pg + sz <= pg /\ x - x mod pg ∈ dom (meta nd)) /\
  (forall x y, x ∈ users s -> y ∈ users s -> x <> y -> x + sz <= y \/ y + sz <= x) /\
  NoDup (users s) /\ page_holds p' (dom (meta nd)).
Proof.
  intros Hsz Hc Ht Hm Hp Hr. destruct (slab_create_geom sz fl sz' fl' nr Hsz Hc) as (Hg & Hle & _).
  set (L := slab_laws (node_geom node0) (P := P)).
  assert (slab_holds (node_geom node0) (next_item hd) (node0, p) ∅) as H1.
  { split; [done|]. split; [eexists; by apply create_node_ok|]. simpl. by rewrite dom_empty_L. }
  destruct (cache_reachable_inv (H0 := L) _ _ s (init_ok (H0 := L) hd mag sz' t (node0, p) n Ht Hm H1) Hr) as [v Hv].
  pose proof Hv as [_ _ Hnd _ Hh _]. destruct (back (sh s)) as [nd p'] eqn:Eb. cbv zeta.
  split; [intros a Ha; destruct (perform_ok (H0 := L) s v a Hv Ha) as (s' & _ & -> & _); by eexists|].
  destruct Hh as (Eg & [gv Hn] & Hp'). injection Eg as G1 G2 G3 G4.
  assert (forall x, x ∈ users s -> x ∈ (list_to_set (owned s v) : gset Z)) as Hin.
  { intros x Hx. apply elem_of_list_to_set, elem_of_app. by left. }
  apply NoDup_app in Hnd as (Hnd & _ & _). split_and!; [| |done|done].
  - intros x Hx%Hin. destruct (node_items _ nd gv _ x Hn Hx) as (j & Hj & Ej & Hd & _). destruct (nd_geom _ _ _ _ Hn) as [K1 K2 K3 K4].
    unfold page_of in *. simpl in *. rewrite G4, ?G1, ?G2, ?G3 in *. assert (x mod node_pgsize node0 = sz' * j) as -> by lia.
    split_and!; [by rewrite Z.mul_comm, Z.mod_mul by lia|nia|]. by replace (x - sz' * j) with (x - x mod node_pgsize node0) by lia.
  - intros x y Hx%Hin Hy%Hin Hne. destruct (items_apart _ nd gv _ x y Hn Hx Hy Hne); simpl in *; rewrite G1 in *; lia.
Qed.
End Created.

(** A slab of items of 100,000 bytes, for which one large page can be mapped: the
    seventh magazine of three items does not fit, and its items go back. *)
Definition demo_node : slab_node := slab_create_node 100032 0 1 20.
Definition demo_calls : list call :=
  concat (replicate 6 [Alloc 0; Refill 0; Alloc 0; Alloc 0]) ++ [Alloc 0; Refill 0; Free 0 17; Alloc 1; Refill 1]%nat.
Definition demo_run : option (system (slab_node * lgpages)) :=
  run (H := slab_tcache_ops (H := lgpage_ops 0)) demo_calls
    (cache_init (Hdrs (fun _ => 0) (fun _ => 0)) (Tcache 3 100032 0 0) (demo_node, page_init 1 [true; false; false]) 2).

Lemma slab_cache_sound_witness : exists s,
  demo_run = Some s /\ length (users s) = 17%nat /\ dom (meta (back (sh s)).1) = {[PAGE_BASE_ADDR]} /\
  (forall x y, x ∈ users s -> y ∈ users s -> x <> y -> x + 100000 <= y \/ y + 100000 <= x).
Proof.
  destruct demo_run as [s|] eqn:E; [|vm_compute in E; discriminate E].
  exists s. split; [done|]. split; [vm_compute in E; injection E as <-; reflexivity|]. split; [vm_compute in E; injection E as <-; reflexivity|].
  pose proof (slab_cache_sound 100000 0 100032 1 20 (H := lgpage_ops 0) (page_init 1 [true; false; false]) 3 (Tcache 3 100032 0 0) 2 s
    (Hdrs (fun _ => 0) (fun _ => 0)) ltac:(lia) ltac:(vm_compute; reflexivity) ltac:(vm_compute; reflexivity) ltac:(lia)
    (page_init_ok 1 0 _ ltac:(lia)) (cache_run_reachable _ demo_calls _ _ (Start _) E)) as Hs.
  destruct (back (sh s)). by destruct Hs as (_ & _ & Hs & _).
Defined.
