(* ===== verification/Smalloc.v ===== *)
(** * smalloc: size classes

    Models [runtime/smalloc.c]: fifteen slabs (Slab) with a per-thread cache each
    (Tcache).  An allocation is served by the cache of its size, a free goes to
    the cache of the size that the slab node of the item's page has.  The memory of
    a class is its own here: what a user, or the cache of another class, writes to
    an item is [Store]. *)

From S2P Require Import Prelude StdDef Tcache Page Slab.

Definition SMALLOC_MAG_SIZE : nat := 8.
Definition SMALLOC_BITS : Z := 15.
Definition SMALLOC_MIN_SIZE : Z := SLAB_MIN_SIZE.
Definition SMALLOC_MAX_SIZE : Z := Z.shiftl SMALLOC_MIN_SIZE (SMALLOC_BITS - 1).

(** [__builtin_clzl] and [__builtin_ctz], of a value that is not 0. *)
Definition clzl (x : Z) : Z := 63 - Z.log2 x.
Definition ctz (x : Z) : Z := Z.log2 (Z.land x (- x)).
Definition smalloc_size_to_idx (size : Z) : Z := 64 - ctz SMALLOC_MIN_SIZE - clzl (Z.lor (u64 (size - 1)) SMALLOC_MIN_SIZE).

(** [smalloc_init]: the item sizes of the slabs. *)
Fixpoint smalloc_init_from (i : Z) (n : nat) : option (list Z) :=
  match n with
  | O => Some []
  | S n =>
      match slab_create (Z.shiftl SMALLOC_MIN_SIZE i) SLAB_FLAG_FALSE_OKAY with
      | inl _ => None
      | inr (sz, _, _) => l ← smalloc_init_from (i + 1) n; Some (sz :: l)
      end
  end.
Definition smalloc_init : option (list Z) := smalloc_init_from 0 (Z.to_nat SMALLOC_BITS).

Section Classes.
Context {S : Type} `{tcache_ops S}.

(** A thread's handles and the caches, by class. *)
Abbreviation classes := (list (tcache_perthread * shared S)).

Definition smalloc (size : Z) (st : classes) : option (Z * classes) :=
  if size >? SMALLOC_MAX_SIZE then Some (0, st)
  else
    let i := Z.to_nat (smalloc_size_to_idx size) in
    '(pt, w) ← st !! i;
    '(x, pt, w) ← tcache_alloc pt w;
    Some (x, <[i := (pt, w)]> st).

(** [sfree] of an item whose page has a slab node with items of [size] bytes. *)
Definition sfree (item size : Z) (st : classes) : option classes :=
  let i := Z.to_nat (smalloc_size_to_idx size) in
  '(pt, w) ← st !! i;
  '(pt, w) ← tcache_free pt item w;
  Some (<[i := (pt, w)]> st).

(** What a thread asks for: an item of a size, to free an item of the slab of
    class [c], or to write to an item. *)
Inductive request := Smalloc (size : Z) | Sfree (item : Z) (c : nat) | Store (item a b : Z).

(** [small] are the items handed out so far for sizes of at most 32 bytes; only
    such items of the class of these sizes are written to here. *)
Definition serve (sizes : list Z) (r : request) (z : classes * list Z) : option (classes * list Z) :=
  let '(st, small) := z in
  match r with
  | Smalloc size =>
      '(x, st) ← smalloc size st;
      Some (st, if negb (x =? 0) && (size <=? 32) then x :: small else small)
  | Sfree item c => size ← sizes !! c; st ← sfree item size st; Some (st, small)
  | Store item a b =>
      if bool_decide (item ∈ small) then
        '(pt, w) ← st !! 1%nat; Some (<[1%nat := (pt, set_next_item item a (set_next_mag item b w))]> st, small)
      else Some (st, small)
  end.
Fixpoint serve_all (sizes : list Z) (rs : list request) (z : classes * list Z) : option (classes * list Z) :=
  match rs with [] => Some z | r :: rs => z ← serve sizes r z; serve_all sizes rs z end.
End Classes.

(** ** The classes *)

Lemma smalloc_sizes : smalloc_init = Some [64; 64; 64; 128; 256; 512; 1024; 2048; 4096; 8192; 16384; 32768; 65536; 131072; 262144].
Proof. vm_compute. reflexivity. Qed.

Lemma size_to_idx size : 1 <= size <= SMALLOC_MAX_SIZE ->
  exists i, smalloc_size_to_idx size = i /\ 1 <= i <= 14 /\ size <= 2 ^ (i + 4) /\ (1 < i -> 2 ^ (i + 3) < size).
Proof.
  intros Hs. change SMALLOC_MAX_SIZE with 262144 in Hs. unfold smalloc_size_to_idx, clzl. change (ctz SMALLOC_MIN_SIZE) with 4.
  change SMALLOC_MIN_SIZE with 16. rewrite u64_small by (unfold is_u64; lia).
  set (l := Z.log2 (Z.lor (size - 1) 16)). exists (l - 3).
  assert (l = Z.max (Z.log2 (size - 1)) 4) as El by (unfold l; rewrite Z.log2_lor by lia; done).
  assert (Z.log2 (size - 1) <= 17) as Hb by (pose proof (Z.log2_le_mono (size - 1) 262143); change (Z.log2 262143) with 17 in *; lia).
  assert (0 <= Z.log2 (size - 1)) as H0 by apply Z.log2_nonneg. split_and!; [lia|lia|lia| |].
  - replace (l - 3 + 4) with (Z.succ l) by lia. destruct (decide (size = 1)) as [->|Hn]; [pose proof (Z.pow_pos_nonneg 2 (Z.succ l)); lia|].
    destruct (Z.log2_spec (size - 1)) as [_ Hl]; [lia|].
    pose proof (Z.pow_le_mono_r 2 (Z.succ (Z.log2 (size - 1))) (Z.succ l)). lia.
  - intros Hl. assert (l = Z.log2 (size - 1)) as -> by lia. replace (_ - 3 + 3) with (Z.log2 (size - 1)) by lia.
    destruct (decide (size = 1)) as [->|Hn]; [simpl in *; lia|]. destruct (Z.log2_spec (size - 1)); lia.
Qed.

(** Every size that is served gets an item that is large enough. *)
Theorem smalloc_fits size : 1 <= size <= SMALLOC_MAX_SIZE ->
  exists sizes sz, smalloc_init = Some sizes /\ sizes !! Z.to_nat (smalloc_size_to_idx size) = Some sz /\ size <= sz.
Proof.
  intros Hs. destruct (size_to_idx size Hs) as (i & -> & Hi & Hle & _). rewrite smalloc_sizes. eexists.
  assert (i = 1 \/ i = 2 \/ i = 3 \/ i = 4 \/ i = 5 \/ i = 6 \/ i = 7 \/ i = 8 \/ i = 9 \/ i = 10 \/ i = 11 \/ i = 12 \/ i = 13 \/ i = 14)
    as Hc by lia.
  repeat destruct Hc as [->|Hc]; [..|subst i]; eexists; (split; [done|]); (split; [done|]); simpl in *; lia.
Qed.

(** Sizes up to 32 are the class 1, and a free never goes to that class. *)
Lemma small_class size : 1 <= size <= 32 -> smalloc_size_to_idx size = 1.
Proof.
  intros Hs. destruct (size_to_idx size) as (i & -> & Hi & _ & Hlt); [change SMALLOC_MAX_SIZE with 262144; lia|].
  destruct (decide (i = 1)) as [->|]; [done|]. specialize (Hlt ltac:(lia)). pose proof (Z.pow_le_mono_r 2 5 (i + 3)). lia.
Qed.
Lemma free_class sizes c size : smalloc_init = Some sizes -> sizes !! c = Some size -> Z.to_nat (smalloc_size_to_idx size) <> 1%nat.
Proof.
  rewrite smalloc_sizes. intros [= <-]. do 15 (destruct c as [|c]; [intros [= <-]; vm_compute; done|]). done.
Qed.
Lemma other_class size : 32 < size <= SMALLOC_MAX_SIZE -> Z.to_nat (smalloc_size_to_idx size) <> 1%nat.
Proof.
  intros Hs. destruct (size_to_idx size) as (i & -> & Hi & Hle & _); [lia|].
  intros E. assert (i = 1) as -> by lia. simpl in Hle. lia.
Qed.

(** ** Items of the smallest class *)

Section Small.
Context {S : Type} `{TcacheOpsLaws S}.
Abbreviation classes := (list (tcache_perthread * shared S)).

(** The cache of class 1 as a cache whose users keep what they get. *)
Definition kept (z : classes * list Z) : Prop :=
  exists pt w v, z.1 !! 1%nat = Some (pt, w) /\ inv (System w [(pt, false)] z.2 []) v.

Lemma serve_kept sizes r z z' : smalloc_init = Some sizes -> (forall size, r = Smalloc size -> 1 <= size) ->
  kept z -> serve sizes r z = Some z' -> kept z'.
Proof.
  destruct z as [st small]. intros Hs Hr (pt & w & v & Hc & Hi). simpl in *. destruct r as [size|item c|item a b]; simpl.
  - specialize (Hr size eq_refl). unfold smalloc. destruct (size >? SMALLOC_MAX_SIZE) eqn:Em.
    { cbn [mbind option_bind]. intros [= <-]. by exists pt, w, v. }
    destruct (decide (size <= 32)) as [Hle|Hgt].
    + rewrite small_class by lia. change (Z.to_nat 1) with 1%nat. rewrite Hc. cbn [mbind option_bind].
      destruct (tcache_alloc_runs (System w [(pt, false)] small []) v 0 pt Hi eq_refl) as (x & pt' & w' & v' & E & Hi').
      simpl in E, Hi'. rewrite E. cbn [mbind option_bind]. intros [= <-]. exists pt', w', v'. simpl.
      split; [by apply list_lookup_insert_eq; eapply lookup_lt_Some|].
      replace (size <=? 32) with true by lia. rewrite andb_true_r. by destruct (x =? 0).
    + pose proof (other_class size ltac:(lia)) as Hne. destruct (st !! Z.to_nat (smalloc_size_to_idx size)) as [[pt1 w1]|]; cbn [mbind option_bind]; [|done].
      destruct (tcache_alloc pt1 w1) as [[[x pt2] w2]|]; cbn [mbind option_bind]; [|done]. intros [= <-].
      replace (size <=? 32) with false by lia. rewrite andb_false_r. exists pt, w, v. simpl. by rewrite list_lookup_insert_ne.
  - destruct (sizes !! c) as [size|] eqn:Ec; cbn [mbind option_bind]; [|done]. unfold sfree.
    pose proof (free_class sizes c size Hs Ec) as Hne. destruct (st !! Z.to_nat (smalloc_size_to_idx size)) as [[pt1 w1]|]; cbn [mbind option_bind]; [|done].
    destruct (tcache_free pt1 item w1) as [[pt2 w2]|]; cbn [mbind option_bind]; [|done]. intros [= <-].
    exists pt, w, v. simpl. by rewrite list_lookup_insert_ne.
  - case_bool_decide as Hin; [|intros [= <-]; by exists pt, w, v]. rewrite Hc. cbn [mbind option_bind]. intros [= <-].
    apply list_elem_of_lookup in Hin as [k Hk].
    pose proof (write_ok (System w [(pt, false)] small []) v k item a b Hi Hk) as Hi'. simpl in Hi'.
    eexists _, _, v. simpl. split; [by apply list_lookup_insert_eq; eapply lookup_lt_Some|done].
Qed.

(** C34: the small sizes lose their memory.  Items of at most 32 bytes come from the
    cache of class 1, but the slab of that class has items of 64 bytes, and a free
    looks the class up by that size: so in any sequence of allocations, frees and
    writes of a thread, no item that was handed out for a size of at most 32 bytes
    is ever handed out for such a size again, even after it was freed. *)
Theorem smalloc_small_never_reused sizes t h b (st : classes) rs st' small :
  smalloc_init = Some sizes -> (forall size, Smalloc size ∈ rs -> 1 <= size) ->
  slab_create_tcache 64 SMALLOC_MAG_SIZE = Some t -> holds (next_item h) b ∅ ->
  st !! 1%nat = Some (tcache_init_perthread t, Shared h t b) ->
  serve_all sizes rs (st, []) = Some (st', small) -> NoDup small.
Proof.
  intros Hs Hrs Ht Hb Hst Hrun. assert (kept (st, [])) as Hk.
  { pose proof (init_ok h SMALLOC_MAG_SIZE 64 t b 1 Ht ltac:(unfold SMALLOC_MAG_SIZE; lia) Hb) as Hi. by eexists _, _, _. }
  assert (kept (st', small)) as (pt & w & v & _ & [_ _ Hnd _ _ _]); [|by apply NoDup_app in Hnd as [? _]].
  revert Hrun Hk. generalize (st, @nil Z). induction rs as [|r rs IH]; intros z; simpl; [by intros [= <-]|].
  destruct (serve sizes r z) as [z'|] eqn:E; cbn [mbind option_bind]; [|done]. intros Hrun Hk.
  apply (IH ltac:(intros size Hin; apply Hrs; by right) z' Hrun). apply (serve_kept sizes r z z' Hs); [|done|done].
  intros size ->. apply Hrs. left.
Qed.
End Small.

(** Fifteen caches; an item of 32 bytes is allocated and freed twice. *)
Definition demo_classes : list (tcache_perthread * shared Z) :=
  replicate 15 (Perthread 0 8 0 0, Shared (Hdrs (fun _ => 0) (fun _ => 0)) (Tcache 8 64 0 0) 16).
Definition demo_sizes : list Z := default [] smalloc_init.
Definition demo_requests : list request := [Smalloc 32; Store 16 5 6; Sfree 16 1; Smalloc 20; Sfree 32 1; Smalloc 64].
Lemma smalloc_small_never_reused_witness : exists st,
  serve_all demo_sizes demo_requests (demo_classes, []) = Some (st, [32; 16]) /\ NoDup [32; 16].
Proof.
  eexists. split; [vm_compute; reflexivity|].
  eapply (smalloc_small_never_reused demo_sizes (Tcache 8 64 0 0) (Hdrs (fun _ => 0) (fun _ => 0)) 16 demo_classes demo_requests).
  - vm_compute. reflexivity.
  - intros size Hin. unfold demo_requests in Hin. set_unfold in Hin. naive_solver lia.
  - vm_compute. reflexivity.
  - simpl. split; [lia|]. by intros x Hx%not_elem_of_empty.
  - reflexivity.
  - vm_compute. reflexivity.
Defined.
