(* ===== verification/IoSched.v ===== *)
(** * I/O kernel: cores and kthreads

    Models the low-level scheduler of [iokernel/sched.c] with the parts of
    [iokernel/defs.h], [iokernel/ref.h] and [iokernel/dp_clients.c] it works on:
    which kthread of which process a core runs, is switching to, or has pending,
    the active and idle kthreads of a process, the table that steers flows to
    active kthreads, and the reference counts of processes.  A kthread is the pair
    of its process and its index in [threads].  What the kernel module, the
    channels and the device answer is the argument [env]; the policy that asks for
    cores is any sequence of calls (IoSimple has one of the policies).  Direct-path
    notifications and statistics are left out. *)

From S2P Require Import Prelude StdDef.

Definition NCPU : nat := 256.
Definition UINT_MAX : Z := 2 ^ 32 - 1.
Definition EINVAL : Z := 22.
Definition ENOENT : Z := 2.

Abbreviation tref := (nat * nat)%type.

(** ** Data *)

(** [struct thread], with the words it shares with the runtime ([q_ptrs]). *)
Record thread := Thread {
  active : bool; tid : Z; th_next_poll : Z; core : Z; at_idx : nat; ts_idx : option nat;
  last_yield_rcu_gen : Z; metrics_rcu_gen : Z; wake_gen : Z; change_tsc : Z;
  curr_grant_gen : Z; cede_gen : Z; park_gen : Z; yield_rcu_gen : Z }.
#[global] Instance eta_thread : Settable thread := fun r =>
  Thread (active r) (tid r) (th_next_poll r) (core r) (at_idx r) (ts_idx r) (last_yield_rcu_gen r) (metrics_rcu_gen r)
    (wake_gen r) (change_tsc r) (curr_grant_gen r) (cede_gen r) (park_gen r) (yield_rcu_gen r).

(** [struct proc]; [active_threads] is the array, of which the first
    [active_thread_count] entries are in use. *)
Record proc := Proc {
  ref : Z; ip_addr : Z; has_directpath : bool; has_vfio_directpath : bool; kill : bool; started : bool;
  guaranteed_cores : Z; flow_tbl : list Z; threads : list thread;
  active_thread_count : nat; active_threads : list nat; idle_threads : list nat; p_next_poll : Z }.
#[global] Instance eta_proc : Settable proc := fun r =>
  Proc (ref r) (ip_addr r) (has_directpath r) (has_vfio_directpath r) (kill r) (started r) (guaranteed_cores r) (flow_tbl r) (threads r)
    (active_thread_count r) (active_threads r) (idle_threads r) (p_next_poll r).
Definition thread_count (p : proc) : nat := length (threads p).

(** [struct core_state] *)
Record core_state := CoreState {
  last_th : option tref; pending_th : option tref; cur_th : option tref;
  idle : bool; pending : bool; wait : bool }.
#[global] Instance eta_core_state : Settable core_state := fun r =>
  CoreState (last_th r) (pending_th r) (cur_th r) (idle r) (pending r) (wait r).

(** What the scheduler asks of the kernel module. *)
Inductive kcmd := Krun (core : nat) (tid : Z) | Kintr_cede (core : nat) | Kintr_yield (core : nat) | Khint (core : nat) (hint : Z).

(** The I/O kernel: the processes that are not released, the cores, the clients
    ([dp.clients]) and the table of their addresses, the polled kthreads ([ts]) and
    the commands so far. *)
Record iok := Iok {
  procs : gmap nat proc; state : list core_state; clients : list nat; ip_to_proc : gmap Z nat; ts : list tref;
  nr_guaranteed : Z; cur_tsc : Z; kcmds : list kcmd }.
#[global] Instance eta_iok : Settable iok := fun r =>
  Iok (procs r) (state r) (clients r) (ip_to_proc r) (ts r) (nr_guaranteed r) (cur_tsc r) (kcmds r).

(** The machine: the allowed cores ([sched_cores_tbl], in ascending order, see
    [sched_init] in IoInit) and the hyperthread siblings. *)
Record machine := Machine { cores_tbl : list nat; siblings : nat -> nat; noht : bool }.

(** What polling the kernel module and the queues answers. *)
Record env := Env { run_done : nat -> bool; core_idle : nat -> bool; txpktq_empty : tref -> bool; rx_pending : tref -> bool }.

(** Removal from an array whose order does not matter: the last entry moves. *)
Definition swap_remove {A} (i : nat) (l : list A) : list A :=
  match last l with Some x => take (length l - 1) (<[i := x]> l) | None => l end.

Definition emit (k : kcmd) (w : iok) : iok := w <| kcmds := kcmds w ++ [k] |>.

(** ** Flow steering *)

Fixpoint steer_identity (l : list nat) (tbl : list Z) : list Z :=
  match l with [] => tbl | idx :: l => steer_identity l (<[idx := Z.of_nat idx]> tbl) end.
Fixpoint steer_rest (i n j : nat) (act : list nat) (tbl : list Z) : option (list Z) :=
  match n with
  | O => Some tbl
  | S n =>
      f ← tbl !! i;
      if negb (f =? UINT_MAX) then steer_rest (S i) n j act tbl
      else th ← act !! (j mod length act)%nat; steer_rest (S i) n (S j) act (<[i := Z.of_nat th]> tbl)
  end.
Definition sched_steer_flows (p : proc) : option proc :=
  let n := active_thread_count p in
  if (n =? 0)%nat then Some p
  else
    let act := take n (active_threads p) in
    tbl ← steer_rest 0 (thread_count p) 0 act
            (steer_identity act (replicate (thread_count p) UINT_MAX ++ drop (thread_count p) (flow_tbl p)));
    Some (p <| flow_tbl := tbl |>).

(** ** Active and idle kthreads *)

(** [list_del_from] of a kthread that is on the list. *)
Definition unlink_idle (i : nat) (p : proc) : option proc :=
  if bool_decide (i ∈ idle_threads p) then Some (p <| idle_threads := filter (fun k => k <> i) (idle_threads p) |>) else None.
Definition steer_unless_directpath (p : proc) : option proc := if has_directpath p then Some p else sched_steer_flows p.

(** [sched_enable_kthread] up to the polling of its queues. *)
Definition proc_enable (tsc : Z) (c i : nat) (p : proc) : option proc :=
  th ← threads p !! i;
  let n := active_thread_count p in
  let gen := u64 (wake_gen th + 1) in
  let th := th <| wake_gen := gen |> <| curr_grant_gen := gen |> <| th_next_poll := 0 |> <| change_tsc := tsc |>
               <| active := true |> <| core := Z.of_nat c |> <| at_idx := n |> in
  p ← unlink_idle i (p <| p_next_poll := 0 |> <| threads := <[i := th]> (threads p) |>);
  if negb (n <? length (active_threads p))%nat then None
  else steer_unless_directpath (p <| active_threads := <[n := i]> (active_threads p) |> <| active_thread_count := S n |>).

(** [sched_disable_kthread] up to there. *)
Definition proc_disable (tsc : Z) (i : nat) (p : proc) : option proc :=
  th ← threads p !! i;
  let th := th <| active := false |> <| change_tsc := tsc |> in
  let p := p <| threads := <[i := th]> (threads p) |> in
  match active_thread_count p with
  | O => None
  | S n =>
      k ← active_threads p !! n;
      if negb (at_idx th <? length (active_threads p))%nat then None
      else
        let p := p <| active_threads := <[at_idx th := k]> (active_threads p) |> <| active_thread_count := n |> in
        thk ← threads p !! k;
        let p := p <| threads := <[k := thk <| at_idx := at_idx th |>]> (threads p) |> in
        steer_unless_directpath (p <| idle_threads := i :: idle_threads p |>)
  end.

(** ** References to a process *)

Definition proc_get (p : nat) (w : iok) : option iok :=
  pr ← procs w !! p;
  if ref pr >? 0 then Some (w <| procs := <[p := pr <| ref := ref pr + 1 |>]> (procs w) |>) else None.
(** [proc_put], with [proc_release] at zero: the process goes away. *)
Definition proc_put (p : nat) (w : iok) : option iok :=
  pr ← procs w !! p;
  if ref pr - 1 =? 0 then Some (w <| procs := delete p (procs w) |>)
  else Some (w <| procs := <[p := pr <| ref := ref pr - 1 |>]> (procs w) |>).

Definition thread_at (t : tref) (w : iok) : option thread := pr ← procs w !! t.1; threads pr !! t.2.
Definition update_thread (f : thread -> thread) (t : tref) (w : iok) : option iok :=
  pr ← procs w !! t.1;
  th ← threads pr !! t.2;
  Some (w <| procs := <[t.1 := pr <| threads := <[t.2 := f th]> (threads pr) |>]> (procs w) |>).

(** [poll_thread] and [unpoll_thread]; the array [ts] is the list of its entries.  [None] is
    a write past its end, which [poll_thread] does not test for. *)
Definition poll_thread (t : tref) (w : iok) : option iok :=
  th ← thread_at t w;
  match ts_idx th with
  | Some _ => Some w
  | None =>
      w ← proc_get t.1 w;
      if negb (length (ts w) <? NCPU)%nat then None
      else update_thread (fun th => th <| ts_idx := Some (length (ts w)) |>) t (w <| ts := ts w ++ [t] |>)
  end.
Definition unpoll_thread (t : tref) (w : iok) : option iok :=
  th ← thread_at t w;
  match ts_idx th with
  | None => Some w
  | Some k =>
      u ← last (ts w);
      let w := w <| ts := swap_remove k (ts w) |> in
      w ← update_thread (fun th => th <| ts_idx := Some k |>) u w;
      w ← update_thread (fun th => th <| ts_idx := None |>) t w;
      proc_put t.1 w
  end.

(** ** Kthreads and cores *)

Definition sched_enable_kthread (t : tref) (c : nat) (w : iok) : option iok :=
  pr ← procs w !! t.1;
  pr ← proc_enable (cur_tsc w) c t.2 pr;
  let w := w <| procs := <[t.1 := pr]> (procs w) |> in
  w ← (if has_vfio_directpath pr then Some w else poll_thread t w);
  pr ← procs w !! t.1;
  Some (w <| procs := <[t.1 := pr <| started := true |>]> (procs w) |>).

Definition sched_disable_kthread (e : env) (t : tref) (w : iok) : option iok :=
  pr ← procs w !! t.1;
  pr ← proc_disable (cur_tsc w) t.2 pr;
  let w := w <| procs := <[t.1 := pr]> (procs w) |> in
  if negb (has_vfio_directpath pr) && txpktq_empty e t then unpoll_thread t w else Some w.

(** The kthread stops, and gives up its reference. *)
Definition retire_kthread (e : env) (t : tref) (w : iok) : option iok :=
  w ← sched_disable_kthread e t w; proc_put t.1 w.
Definition retire_opt (e : env) (t : option tref) (w : iok) : option iok :=
  match t with Some t => retire_kthread e t w | None => Some w end.

Definition ran_on (c : Z) (p : proc) (i : nat) : bool :=
  match threads p !! i with Some th => core th =? c | None => false end.
Definition sched_pick_kthread (m : machine) (p : proc) (c : nat) : option nat :=
  match List.find (ran_on (Z.of_nat c) p) (idle_threads p) with
  | Some i => Some i
  | None =>
      match (if noht m then None else List.find (ran_on (Z.of_nat (siblings m c)) p) (idle_threads p)) with
      | Some i => Some i
      | None => last (idle_threads p)
      end
  end.

Definition set_core (c : nat) (s : core_state) (w : iok) : iok := w <| state := <[c := s]> (state w) |>.

Definition tid_of (t : option tref) (w : iok) : Z :=
  match t with Some t => match thread_at t w with Some th => tid th | None => 0 end | None => 0 end.
(** [cede_gen] of the kthread gets its [wake_gen]. *)
Definition request_cede (t : tref) (w : iok) : option iok :=
  update_thread (fun th => th <| cede_gen := wake_gen th |>) t w.

(** [__sched_run] *)
Definition sched_run (e : env) (th : option tref) (c : nat) (w : iok) : option (Z * iok) :=
  s ← state w !! c;
  if wait s then
    w ← retire_opt e (pending_th s) w;
    Some (0, set_core c (s <| pending_th := th |> <| pending := true |>) w)
  else
    w ← (match cur_th s with
         | Some t => if idle s then Some w else w ← request_cede t w; Some (emit (Kintr_cede c) w)
         | None => Some w
         end);
    let w := emit (Krun c (tid_of th w)) w in
    Some (0, set_core c (s <| last_th := cur_th s |> <| cur_th := th |> <| wait := true |> <| idle := false |>) w).

Definition sched_run_on_core (m : machine) (e : env) (p c : nat) (w : iok) : option (Z * iok) :=
  pr ← procs w !! p;
  match idle_threads pr with
  | [] => Some (- EINVAL, w)
  | _ =>
      if negb (bool_decide (c ∈ cores_tbl m)) then Some (- EINVAL, w)
      else
        match sched_pick_kthread m pr c with
        | None => Some (- ENOENT, w)
        | Some i =>
            w ← proc_get p w;
            w ← sched_enable_kthread (p, i) c w;
            sched_run e (Some (p, i)) c w
        end
  end.

Definition sched_idle_on_core (m : machine) (e : env) (hint : Z) (c : nat) (w : iok) : option (Z * iok) :=
  if negb (bool_decide (c ∈ cores_tbl m)) then Some (- EINVAL, w)
  else sched_run e None c (emit (Khint c hint) w).

Definition sched_get_thread_on_core (c : nat) (w : iok) : option (option tref) :=
  s ← state w !! c; Some (if pending s then pending_th s else cur_th s).

Definition sched_request_cooperative_cede (c : nat) (w : iok) : option (Z * iok) :=
  th ← sched_get_thread_on_core c w;
  match th with
  | None => Some (- ENOENT, w)
  | Some t => w ← update_thread (fun th => th <| park_gen := wake_gen th |>) t w; Some (0, w)
  end.
Definition sched_cancel_cooperative_cede (p c : nat) (w : iok) : option (Z * iok) :=
  th ← sched_get_thread_on_core c w;
  match th with
  | None => Some (- ENOENT, w)
  | Some t =>
      if negb (t.1 =? p)%nat then Some (- ENOENT, w)
      else w ← update_thread (fun th => th <| park_gen := u64 (wake_gen th - 1) |>) t w; Some (0, w)
  end.

Definition sched_yield_on_core (c : nat) (w : iok) : option (Z * iok) :=
  t ← sched_get_thread_on_core c w;
  match t with
  | None => Some (- ENOENT, w)
  | Some t =>
      th ← thread_at t w;
      if last_yield_rcu_gen th =? metrics_rcu_gen th then Some (0, w)
      else
        w ← update_thread (fun th => th <| last_yield_rcu_gen := metrics_rcu_gen th |> <| yield_rcu_gen := metrics_rcu_gen th |>) t w;
        Some (0, emit (Kintr_yield c) w)
  end.

(** ** The fast pass of [sched_poll] *)

(** [sched_try_fast_rewake]: whether the kthread, which has yielded, runs again. *)
Definition sched_try_fast_rewake (e : env) (t : tref) (w : iok) : option bool :=
  pr ← procs w !! t.1;
  th ← threads pr !! t.2;
  Some (negb (kill pr) && negb (park_gen th =? wake_gen th) && rx_pending e t).

(** A context switch of the core has finished. *)
Definition switch_done (e : env) (c : nat) (s : core_state) (w : iok) : option (core_state * iok) :=
  w ← retire_opt e (last_th s) w;
  let s := s <| last_th := None |> in
  if pending s then
    w ← (match cur_th s with Some t => request_cede t w | None => Some w end);
    let w := emit (Krun c (tid_of (pending_th s) w)) (emit (Kintr_cede c) w) in
    Some (s <| pending_th := None |> <| pending := false |> <| last_th := cur_th s |> <| cur_th := pending_th s |>, w)
  else Some (s <| wait := false |>, w).

(** One core: the new state, and whether it went idle. *)
Definition poll_core (e : env) (c : nat) (w : iok) : option (bool * iok) :=
  s ← state w !! c;
  '(s, w) ← (if wait s && run_done e c then switch_done e c s w else Some (s, w));
  if negb (wait s) && negb (idle s) && core_idle e c then
    match cur_th s with
    | None => Some (true, set_core c (s <| idle := true |>) w)
    | Some t =>
        rewake ← sched_try_fast_rewake e t w;
        if rewake : bool then
          th ← thread_at t w;
          let c' := Z.to_nat (core th) in
          let w := set_core c s (emit (Krun c' (tid th)) w) in
          s' ← state w !! c';
          Some (false, set_core c' (s' <| wait := true |>) w)
        else
          w ← retire_kthread e t w;
          Some (true, set_core c (s <| cur_th := None |> <| idle := true |>) w)
    end
  else Some (false, set_core c s w).

(** All allowed cores; the result is the bitmap of cores that went idle. *)
Fixpoint fast_pass (e : env) (l : list nat) (w : iok) : option (list nat * iok) :=
  match l with
  | [] => Some ([], w)
  | c :: l =>
      '(b, w) ← poll_core e c w;
      '(idle, w) ← fast_pass e l w;
      Some (if b : bool then c :: idle else idle, w)
  end.

(** ** Clients *)

(** [sched_attach_proc]: the kthreads of the new process are idle. *)
Definition sched_attach_proc (m : machine) (p : proc) (w : iok) : option proc * iok :=
  if u32 (guaranteed_cores p + nr_guaranteed w) >? Z.of_nat (length (cores_tbl m)) then (None, w)
  else
    (Some (p <| active_thread_count := O |> <| active_threads := <[O := O]> (active_threads p) |>
             <| idle_threads := reverse (seq 0 (thread_count p)) |>
             <| threads := (fun th => th <| core := UINT_MAX |> <| active := false |>) <$> threads p |>),
     w <| nr_guaranteed := s32 (nr_guaranteed w + guaranteed_cores p) |>).

(** [dp_clients_remove_client] and [sched_detach_proc] *)
Definition dp_clients_remove_client (p : nat) (w : iok) : option iok :=
  match list_find (fun q => q = p) (clients w) with
  | None => Some w
  | Some (i, _) =>
    pr ← procs w !! p;
    let w := w <| clients := swap_remove i (clients w) |> <| ip_to_proc := delete (ip_addr pr) (ip_to_proc w) |>
               <| procs := <[p := pr <| kill := true |>]> (procs w) |>
               <| nr_guaranteed := s32 (nr_guaranteed w - guaranteed_cores pr) |> in
    proc_put p w
  end.

(** [dp_clients_add_client]: [hash_ok] is whether the hash table takes the address,
    [mem_ok] whether the device can use the memory of the process. *)
Definition dp_clients_add_client (m : machine) (hash_ok mem_ok : bool) (p : nat) (pr : proc) (w : iok) : option iok :=
  match sched_attach_proc m pr w with
  | (None, w) => Some w
  | (Some pr, w) =>
      let w := w <| procs := <[p := pr <| kill := false |>]> (procs w) |> <| clients := clients w ++ [p] |> in
      match ip_to_proc w !! ip_addr pr with
      | Some _ => dp_clients_remove_client p w
      | None =>
          if negb hash_ok then dp_clients_remove_client p w
          else
            let w := w <| ip_to_proc := <[ip_addr pr := p]> (ip_to_proc w) |> in
            if negb (has_directpath pr) && negb mem_ok then dp_clients_remove_client p w else Some w
      end
  end.

(** ** The kthreads of one process *)

Definition act (p : proc) : list nat := take (active_thread_count p) (active_threads p).

Definition steered (n : nat) (a : list nat) (tbl : list Z) : Prop :=
  forall i, (i < n)%nat -> exists t, tbl !! i = Some (Z.of_nat t) /\ t ∈ a /\ (i ∈ a -> t = i).

(** Every kthread is active or idle; [active_threads], [at_idx] and [active] agree;
    flows go to active kthreads, those of an active kthread to itself. *)
Record proc_ok (p : proc) : Prop := {
  po_perm : act p ++ idle_threads p ≡ₚ seq 0 (thread_count p);
  po_count : (active_thread_count p <= length (active_threads p))%nat;
  po_arrays : length (active_threads p) = NCPU /\ (thread_count p <= NCPU)%nat /\ length (flow_tbl p) = NCPU;
  po_at : forall k i, act p !! k = Some i -> exists th, threads p !! i = Some th /\ active th = true /\ at_idx th = k;
  po_idle : forall i, i ∈ idle_threads p -> exists th, threads p !! i = Some th /\ active th = false;
  po_flows : has_directpath p = false -> act p <> [] -> steered (thread_count p) (act p) (flow_tbl p)
}.

Lemma steer_identity_lookup l tbl i : (forall j, j ∈ l -> (j < length tbl)%nat) ->
  steer_identity l tbl !! i = if decide (i ∈ l) then Some (Z.of_nat i) else tbl !! i.
Proof.
  revert tbl. induction l as [|j l IH]; intros tbl Hl; cbn [steer_identity]; [by rewrite decide_False by apply not_elem_of_nil|].
  rewrite IH by (intros k Hk; rewrite length_insert; apply Hl; by right).
  destruct (decide (i ∈ l)) as [Hi|Hi]; [by rewrite decide_True by (by right)|].
  destruct (decide (i = j)) as [->|Hne].
  - rewrite decide_True by left. apply list_lookup_insert_eq, Hl. left.
  - rewrite decide_False by (rewrite elem_of_cons; tauto). by apply list_lookup_insert_ne.
Qed.
Lemma steer_identity_length l tbl : length (steer_identity l tbl) = length tbl.
Proof. revert tbl. induction l as [|j l IH]; intros tbl; simpl; [done|]. by rewrite IH, length_insert. Qed.

Lemma steer_rest_ok n : forall i j a tbl, (i + n <= length tbl)%nat -> a <> [] -> (i + n <= NCPU)%nat ->
  (forall k, (i <= k < i + n)%nat -> tbl !! k = Some (if decide (k ∈ a) then Z.of_nat k else UINT_MAX)) ->
  steered i a tbl ->
  exists tbl', steer_rest i n j a tbl = Some tbl' /\ length tbl' = length tbl /\ steered (i + n) a tbl'.
Proof.
  induction n as [|n IH]; intros i j a tbl Hl Ha Hn Hr Hs; simpl; [exists tbl; by rewrite Nat.add_0_r|].
  rewrite (Hr i) by lia. cbn [mbind option_bind].
  assert (forall tbl', length tbl' = length tbl -> (forall k, k <> i -> tbl' !! k = tbl !! k) ->
    (exists t, tbl' !! i = Some (Z.of_nat t) /\ t ∈ a /\ (i ∈ a -> t = i)) -> forall j', 
    exists tbl2, steer_rest (S i) n j' a tbl' = Some tbl2 /\ length tbl2 = length tbl /\ steered (i + S n) a tbl2) as Hstep.
  { intros tbl' Hl' Hk Hi j'. destruct (IH (S i) j' a tbl') as (tbl2 & E & L2 & S2); [lia|done|lia| | |].
    - intros k Hk'. rewrite Hk by lia. apply Hr. lia.
    - intros k Hk'. destruct (decide (k = i)) as [->|Hne]; [done|]. rewrite Hk by done. apply Hs. lia.
    - exists tbl2. split; [done|]. split; [lia|]. by replace (i + S n)%nat with (S i + n)%nat by lia. }
  destruct (decide (i ∈ a)) as [Hi|Hi].
  - replace (Z.of_nat i =? UINT_MAX) with false by (unfold UINT_MAX, NCPU in *; lia). simpl. apply Hstep; [done|done|].
    exists i. rewrite (Hr i) by lia. by rewrite decide_True by done.
  - rewrite Z.eqb_refl. simpl. assert (is_Some (a !! (j mod length a)%nat)) as [th Hth].
    { apply lookup_lt_is_Some, Nat.mod_upper_bound. by destruct a. }
    rewrite Hth. cbn [mbind option_bind]. apply Hstep; [apply length_insert|intros k Hk; by apply list_lookup_insert_ne|].
    exists th. rewrite list_lookup_insert_eq by lia. split; [done|]. split; [by eapply list_elem_of_lookup_2|done].
Qed.

(** Steering changes nothing but the table. *)
Lemma steer_ok p : (active_thread_count p <= length (active_threads p))%nat ->
  length (active_threads p) = NCPU /\ (thread_count p <= NCPU)%nat /\ length (flow_tbl p) = NCPU ->
  (forall i, i ∈ act p -> (i < thread_count p)%nat) ->
  exists tbl, steer_unless_directpath p = Some (p <| flow_tbl := tbl |>) /\ length tbl = NCPU /\
    (has_directpath p = false -> act p <> [] -> steered (thread_count p) (act p) tbl).
Proof.
  intros Hc (H1 & H2 & H3) Ha. unfold steer_unless_directpath.
  assert (Some p = Some (p <| flow_tbl := flow_tbl p |>)) as Hid by (by destruct p).
  destruct (has_directpath p) eqn:Ed; [exists (flow_tbl p); by rewrite Hid|].
  unfold sched_steer_flows. destruct (active_thread_count p =? 0)%nat eqn:E0.
  { apply Nat.eqb_eq in E0. exists (flow_tbl p). rewrite Hid. split; [done|]. split; [done|]. unfold act. by rewrite E0. }
  apply Nat.eqb_neq in E0. fold (act p).
  set (tbl0 := replicate _ _ ++ _). assert (length tbl0 = NCPU) as L0 by (subst tbl0; rewrite length_app, length_replicate, length_drop; lia).
  destruct (steer_rest_ok (thread_count p) 0 0 (act p) (steer_identity (act p) tbl0)) as (tbl & E & L & Hs).
  - rewrite steer_identity_length. lia.
  - unfold act. destruct (active_threads p); [simpl in *; lia|]. by destruct (active_thread_count p).
  - lia.
  - intros k Hk. rewrite steer_identity_lookup by (intros j Hj; specialize (Ha j Hj); lia).
    destruct (decide (k ∈ act p)); [done|]. subst tbl0. rewrite lookup_app_l by (rewrite length_replicate; lia).
    apply lookup_replicate_2. lia.
  - intros k Hk. lia.
  - rewrite E. cbn [mbind option_bind]. exists tbl. rewrite steer_identity_length in L. split; [done|]. split; [lia|done].
Qed.

(** *** Swapping removal *)

Lemma swap_remove_last {A} (l : list A) x : swap_remove (length l) (l ++ [x]) = l.
Proof.
  unfold swap_remove. rewrite last_snoc, length_app, insert_app_r_alt by lia. simpl.
  replace (length l + 1 - 1)%nat with (length l) by lia. by rewrite take_app_length.
Qed.
Lemma swap_remove_snoc {A} (l : list A) i x : (i < length l)%nat -> swap_remove i (l ++ [x]) = <[i := x]> l.
Proof.
  intros Hi. unfold swap_remove. rewrite last_snoc, length_app, insert_app_l by done. simpl.
  replace (length l + 1 - 1)%nat with (length (<[i:=x]> l)) by (rewrite length_insert; lia). by rewrite take_app_length.
Qed.
Lemma swap_remove_perm {A} (l : list A) i x : l !! i = Some x -> x :: swap_remove i l ≡ₚ l.
Proof.
  intros Hx. destruct l as [|u l _] using rev_ind; [done|]. destruct (decide (i = length l)) as [->|Hne].
  - rewrite swap_remove_last. rewrite lookup_app_r, Nat.sub_diag in Hx by done. injection Hx as <-. by rewrite (comm app).
  - assert (i < length l)%nat as Hi by (apply lookup_lt_Some in Hx; rewrite length_app in Hx; simpl in Hx; lia).
    rewrite swap_remove_snoc by done. rewrite lookup_app_l in Hx by done. rewrite (comm app).
    rewrite <- (take_drop_middle l i x Hx) at 2. rewrite insert_take_drop by done. solve_Permutation.
Qed.
Lemma swap_remove_at {A} (l : list A) i j : (i < length l)%nat -> (j < length l - 1)%nat ->
  swap_remove i l !! j = if decide (j = i) then last l else l !! j.
Proof.
  intros Hi Hj. destruct l as [|u l _] using rev_ind; [simpl in Hi; lia|]. rewrite last_snoc. rewrite length_app in *. simpl in *.
  rewrite lookup_app_l by lia. destruct (decide (i = length l)) as [->|Hne].
  - rewrite swap_remove_last. by rewrite decide_False by lia.
  - rewrite swap_remove_snoc by lia. case_decide as E; [subst; apply list_lookup_insert_eq; lia|by apply list_lookup_insert_ne].
Qed.
Lemma swap_remove_length {A} (l : list A) i : length (swap_remove i l) = (length l - 1)%nat.
Proof.
  unfold swap_remove. destruct (last l) eqn:E; [rewrite length_take, length_insert; lia|]. by apply last_None in E as ->.
Qed.
Lemma swap_remove_lookup {A} (l : list A) i j y : (i < length l)%nat -> swap_remove i l !! j = Some y ->
  (j < length l - 1)%nat /\ (if decide (j = i) then last l = Some y else l !! j = Some y).
Proof.
  intros Hi Hj. pose proof (lookup_lt_Some _ _ _ Hj) as Hl. rewrite swap_remove_length in Hl. split; [done|].
  rewrite swap_remove_at in Hj by done. by case_decide.
Qed.
Lemma filter_out {A} `{EqDecision A} (l : list A) x : NoDup l -> x ∈ l -> x :: filter (fun y => y <> x) l ≡ₚ l.
Proof.
  intros Hd Hx. apply NoDup_Permutation; [apply NoDup_cons; split|done|].
  - by intros [? _]%list_elem_of_filter.
  - by apply NoDup_filter.
  - intros y. rewrite elem_of_cons, list_elem_of_filter. destruct (decide (y = x)) as [->|]; tauto.
Qed.

(** *** Enabling and disabling *)

(** What else stays. *)
Record kept (p p' : proc) : Prop := {
  k_ref : ref p' = ref p;
  k_vfio : has_vfio_directpath p' = has_vfio_directpath p;
  k_kill : kill p' = kill p /\ guaranteed_cores p' = guaranteed_cores p;
  k_ts : ts_idx <$> threads p' = ts_idx <$> threads p
}.

Lemma proc_ok_nodup p : proc_ok p -> NoDup (act p ++ idle_threads p).
Proof. intros [H _ _ _ _ _]. rewrite H. apply NoDup_seq. Qed.
Lemma proc_ok_range p i : proc_ok p -> i ∈ act p ++ idle_threads p -> (i < thread_count p)%nat.
Proof. intros [H _ _ _ _ _]. rewrite H. intros Hi%elem_of_seq. lia. Qed.

Lemma proc_enable_ok tsc c i p : proc_ok p -> i ∈ idle_threads p ->
  exists p', proc_enable tsc c i p = Some p' /\ proc_ok p' /\ kept p p' /\ act p' = act p ++ [i] /\
    core <$> threads p' = <[i := Z.of_nat c]> (core <$> threads p).
Proof.
  intros Hp Hi. pose proof (proc_ok_nodup p Hp) as Hd. pose proof Hp as [P1 P2 (P3 & P4 & P5) P6 P7 P8].
  apply NoDup_app in Hd as (D1 & D2 & D3). assert (i ∉ act p) as Hia by (intros Ha; by apply (D2 i)).
  assert (active_thread_count p < length (active_threads p))%nat as Hn.
  { apply Permutation_length in P1. rewrite length_app, length_seq in P1. unfold act in P1. rewrite length_take in P1.
    destruct (idle_threads p); [by apply not_elem_of_nil in Hi|]. simpl in P1. lia. }
  destruct (P7 i Hi) as (th & Hth & Hact). unfold proc_enable. rewrite Hth. cbn [mbind option_bind].
  unfold unlink_idle. simpl. rewrite bool_decide_true by done. cbn [mbind option_bind]. simpl.
  replace (active_thread_count p <? length (active_threads p))%nat with true by (symmetry; by apply Nat.ltb_lt). simpl.
  match goal with |- context [steer_unless_directpath ?r] => set (q := r) end.
  assert (act q = act p ++ [i]) as Ea.
  { unfold act. simpl. rewrite (take_S_r _ _ i) by (by apply list_lookup_insert_eq). by rewrite take_insert_ge by lia. }
  assert (thread_count q = thread_count p) as Et by (unfold thread_count; simpl; apply length_insert).
  destruct (steer_ok q) as (tbl & E & L & Hs); simpl.
  - rewrite length_insert. lia.
  - rewrite length_insert, Et. done.
  - intros j. rewrite Ea, Et, elem_of_app, list_elem_of_singleton. intros Hj. apply (proc_ok_range p); [done|].
    apply elem_of_app. destruct Hj as [?| ->]; [by left|by right].
  - exists (q <| flow_tbl := tbl |>). split; [exact E|]. change (act (q <| flow_tbl := tbl |>)) with (act q). rewrite Ea.
    split_and!; [|split; simpl; try done|done|simpl; by rewrite list_fmap_insert].
    + split; simpl; try done.
      * change (act _) with (act q). rewrite Ea. change (thread_count _) with (thread_count q). rewrite Et, <- (assoc app). simpl.
        by rewrite filter_out by done.
      * rewrite length_insert. lia.
      * rewrite length_insert. change (thread_count _) with (thread_count q). by rewrite Et.
      * intros k j Hk. change (act _) with (act q) in Hk. rewrite Ea in Hk. apply lookup_app_Some in Hk as [Hk|[Hk1 Hk2]].
        -- rewrite list_lookup_insert_ne; [by apply P6|]. intros ->. by apply Hia, (list_elem_of_lookup_2 _ k).
        -- apply list_lookup_singleton_Some in Hk2 as [Hk2 <-]. eexists. rewrite list_lookup_insert_eq by (by eapply lookup_lt_Some).
           split; [done|]. split; [done|]. simpl. unfold act in *. rewrite length_take in *. lia.
      * intros j [Hj Hji]%list_elem_of_filter. rewrite list_lookup_insert_ne by done. by apply P7.
    + rewrite list_fmap_insert. simpl. apply list_insert_id. by rewrite list_lookup_fmap, Hth.
Qed.

(** The fields of the two kthreads that disabling changes. *)
Lemma disable_threads (ts : list thread) i k th thk at' tsc (off := th <| active := false |> <| change_tsc := tsc |>)
    (ts' := <[k := thk <| at_idx := at' |>]> (<[i := off]> ts)) :
  ts !! i = Some th -> <[i := off]> ts !! k = Some thk ->
  ts_idx <$> ts' = ts_idx <$> ts /\ core <$> ts' = core <$> ts /\ length ts' = length ts /\
  (forall j, j <> i -> j <> k -> ts' !! j = ts !! j) /\
  (exists th', ts' !! i = Some th' /\ active th' = false) /\
  (k <> i -> exists th', ts' !! k = Some th' /\ ts !! k = Some thk /\ active th' = active thk /\ at_idx th' = at').
Proof.
  intros Hi Hk. assert (i < length ts)%nat as Li by (by eapply lookup_lt_Some).
  assert (forall {B} (f : thread -> B), f off = f th -> f (thk <| at_idx := at' |>) = f thk -> f <$> ts' = f <$> ts) as Hf.
  { intros B f H1 H2. unfold ts'. rewrite !list_fmap_insert, H1, H2.
    rewrite (list_insert_id (_ <$> _) i) by (by rewrite list_lookup_fmap, Hi).
    destruct (decide (k = i)) as [->|Hne].
    - rewrite list_lookup_insert_eq in Hk by done. injection Hk as <-. rewrite H1. apply list_insert_id. by rewrite list_lookup_fmap, Hi.
    - rewrite list_lookup_insert_ne in Hk by done. apply list_insert_id. by rewrite list_lookup_fmap, Hk. }
  split_and!; [by apply Hf|by apply Hf|unfold ts'; by rewrite !length_insert| | |].
  - intros j H1 H2. unfold ts'. by rewrite !list_lookup_insert_ne.
  - destruct (decide (k = i)) as [->|Hne]; unfold ts'.
    + rewrite list_lookup_insert_eq in Hk by done. injection Hk as <-. rewrite list_lookup_insert_eq by (by rewrite length_insert). by eexists.
    + rewrite list_lookup_insert_ne by done. rewrite list_lookup_insert_eq by done. by eexists.
  - intros Hne. unfold ts'. rewrite list_lookup_insert_ne in Hk by done.
    rewrite list_lookup_insert_eq by (rewrite length_insert; by eapply lookup_lt_Some). by eexists.
Qed.

Lemma proc_disable_ok tsc i p : proc_ok p -> i ∈ act p ->
  exists p', proc_disable tsc i p = Some p' /\ proc_ok p' /\ kept p p' /\ i :: act p' ≡ₚ act p /\
    core <$> threads p' = core <$> threads p.
Proof.
  intros Hp [at' Hat]%list_elem_of_lookup. pose proof (proc_ok_nodup p Hp) as Hd. pose proof Hp as [P1 P2 (P3 & P4 & P5) P6 P7 P8].
  destruct (P6 at' i Hat) as (th & Hth & Hact & <-). apply NoDup_app in Hd as (D1 & D2 & D3).
  assert (length (act p) = active_thread_count p) as La by (unfold act; rewrite length_take; lia).
  assert ((at_idx th) < active_thread_count p)%nat as Hlt by (apply lookup_lt_Some in Hat; lia).
  unfold proc_disable. rewrite Hth. cbn [mbind option_bind]. simpl. destruct (active_thread_count p) as [|n] eqn:En; [lia|].
  assert (exists k, act p !! n = Some k) as [k Hk] by (apply lookup_lt_is_Some; lia).
  assert (active_threads p !! n = Some k) as Hk' by (unfold act in Hk; by rewrite lookup_take_lt in Hk by lia).
  rewrite Hk'. cbn [mbind option_bind]. replace ((at_idx th) <? length (active_threads p))%nat with true by (symmetry; apply Nat.ltb_lt; lia).
  simpl. set (off := Thread false _ _ _ _ _ _ _ _ _ _ _ _ _).
  assert (exists thk, <[i := off]> (threads p) !! k = Some thk) as [thk Ethk].
  { apply lookup_lt_is_Some. rewrite length_insert. destruct (P6 n k Hk) as (? & ? & _). by eapply lookup_lt_Some. }
  rewrite Ethk. cbn [mbind option_bind].
  pose proof (disable_threads (threads p) i k th thk (at_idx th) tsc Hth Ethk) as (T1 & T2 & T3 & T4 & T5 & T6).
  match goal with |- context [steer_unless_directpath ?r] => set (q := r) end.
  assert (act q = swap_remove (at_idx th) (act p)) as Ea.
  { unfold act. rewrite En. unfold q, swap_remove. simpl active_threads. simpl active_thread_count.
    rewrite (take_S_r _ _ k) by done. rewrite last_snoc, <- (take_S_r _ _ k) by done.
    rewrite length_take, <- take_insert_lt by lia. rewrite take_take. f_equal. lia. }
  pose proof (swap_remove_perm (act p) (at_idx th) i Hat) as Hsp. rewrite <- Ea in Hsp.
  assert (thread_count q = thread_count p) as Et by (unfold thread_count, q; simpl; exact T3).
  assert (forall j, j ∈ act q -> j ∈ act p) as Hsub by (intros j Hj; rewrite <- Hsp; by right).
  assert (i ∉ act q) as Hiq by (rewrite <- Hsp in D1; by apply NoDup_cons in D1 as [? _]).
  destruct (steer_ok q) as (tbl & E & L & Hs); unfold q; simpl.
  - rewrite length_insert. lia.
  - rewrite length_insert. change (thread_count _) with (thread_count q). by rewrite Et.
  - intros j Hj. change (thread_count _) with (thread_count q). rewrite Et. apply (proc_ok_range p); [done|]. apply elem_of_app. left. by apply Hsub.
  - exists (q <| flow_tbl := tbl |>). split; [exact E|]. change (act (q <| flow_tbl := tbl |>)) with (act q).
    split_and!; [|by split|done|exact T2]. split; simpl; try done.
    + change (act _) with (act q). change (thread_count _) with (thread_count q). rewrite Et, <- P1, <- Hsp. simpl. by rewrite <- Permutation_middle.
    + rewrite length_insert. lia.
    + rewrite length_insert. change (thread_count _) with (thread_count q). by rewrite Et.
    + intros m j Hm. change (act _) with (act q) in Hm. rewrite Ea in Hm.
      assert (j <> i) as Hji by (intros ->; apply Hiq; rewrite Ea; by apply (list_elem_of_lookup_2 _ m)).
      apply swap_remove_lookup in Hm as [Hm Hm']; [|lia]. destruct (decide (m = (at_idx th))) as [Em|Hne].
      * rewrite Em in *. rewrite last_lookup, La in Hm'. simpl in Hm'. assert (j = k) as -> by congruence.
        destruct (T6 Hji) as (th' & E1 & E2 & E3 & E4). exists th'. split; [done|]. split; [|done].
        destruct (P6 n k Hk) as (th2 & F1 & F2 & _). congruence.
      * assert (j <> k) as Hjk by (intros ->; apply Hne; pose proof (NoDup_lookup _ _ _ _ D1 Hm' Hk); lia).
        rewrite T4 by done. by apply P6.
    + intros j [->|Hj]%elem_of_cons; [done|]. destruct (P7 j Hj) as (thj & Hj1 & Hj2). exists thj. split; [|done]. rewrite T4; [done| |].
      * intros ->. apply (D2 i); [by apply (list_elem_of_lookup_2 _ (at_idx th))|done].
      * intros ->. apply (D2 k); [by apply (list_elem_of_lookup_2 _ n)|done].
Qed.
