(* ===== verification/IoOwn.v ===== *)
(** * I/O kernel: who owns which kthread

    The invariant of IoSched across processes and cores: an active kthread is held
    by exactly one place of one core, and the reference count of a process is the
    number of places that refer to it.  It holds for every sequence of requests to
    the scheduler, whatever policy makes them. *)

From S2P Require Import Prelude StdDef IoSched.

(** ** Counting references *)

Section Count.
Context {A : Type} `{EqDecision A}.
Implicit Types (p : A) (l : list A).

Definition cnt p l : Z := Z.of_nat (length (filter (fun q => q = p) l)).
Lemma cnt_nil p : cnt p [] = 0.
Proof. done. Qed.
Lemma cnt_cons p q l : cnt p (q :: l) = (if decide (q = p) then 1 else 0) + cnt p l.
Proof. unfold cnt. rewrite filter_cons. case_decide; simpl; lia. Qed.
Lemma cnt_app p l k : cnt p (l ++ k) = cnt p l + cnt p k.
Proof. unfold cnt. rewrite filter_app, length_app. lia. Qed.
Lemma cnt_perm p l k : l ≡ₚ k -> cnt p l = cnt p k.
Proof. intros H. unfold cnt. by rewrite H. Qed.
Lemma cnt_pos p l : 0 < cnt p l <-> p ∈ l.
Proof.
  unfold cnt. split.
  - intros H. destruct (filter _ l) as [|q k] eqn:E; [simpl in H; lia|].
    assert (q ∈ filter (fun q => q = p) l) as [-> Hq]%list_elem_of_filter by (rewrite E; left). done.
  - intros H. assert (p ∈ filter (fun q => q = p) l) as Hp by (by apply list_elem_of_filter).
    destruct (filter _ l); [by apply not_elem_of_nil in Hp|]. simpl. lia.
Qed.
Lemma cnt_nonneg p l : 0 <= cnt p l.
Proof. unfold cnt. lia. Qed.
End Count.
#[export] Hint Rewrite (@cnt_nil nat _) (@cnt_cons nat _) (@cnt_app nat _) : cnt.

(** ** The invariant, apart from the cores

    [sl] are the places of the cores that hold a kthread, [ex] are references in
    the hands of the code that is running. *)

Definition holders (w : iok) (sl : list (nat * tref)) (ex : list nat) : list nat :=
  clients w ++ (ts w).*1 ++ (sl.*2).*1 ++ ex.

Record base (w : iok) (sl : list (nat * tref)) (ex : list nat) : Prop := {
  b_procs : forall p pr, procs w !! p = Some pr -> proc_ok pr /\ 0 < ref pr /\ ref pr = cnt p (holders w sl ex);
  b_alive : forall p, p ∈ holders w sl ex -> is_Some (procs w !! p);
  b_nodup : NoDup sl.*2;
  b_owned : forall p i pr, procs w !! p = Some pr -> i ∈ act pr <-> (p, i) ∈ sl.*2;
  b_core : forall c t, (c, t) ∈ sl -> exists th, thread_at t w = Some th /\ core th = Z.of_nat c;
  b_ts : forall k t, ts w !! k = Some t -> exists th, thread_at t w = Some th /\ ts_idx th = Some k;
  b_ts_idx : forall t th k, thread_at t w = Some th -> ts_idx th = Some k -> ts w !! k = Some t;
  b_clients : NoDup (clients w)
}.

(** Only these parts matter. *)
Lemma base_ext w w' sl sl' ex ex' : base w sl ex -> procs w' = procs w -> ts w' = ts w -> clients w' = clients w ->
  sl' ≡ₚ sl -> ex' ≡ₚ ex -> base w' sl' ex'.
Proof.
  intros [B1 B2 B3 B4 B5 B6 B7 B8] E1 E2 E3 E4 E5.
  assert (holders w' sl' ex' ≡ₚ holders w sl ex) as Hh by (unfold holders; by rewrite E2, E3, E4, E5).
  assert (forall t, thread_at t w' = thread_at t w) as Ht by (intros t; unfold thread_at; by rewrite E1).
  split; rewrite ?E1, ?E2, ?E3, ?E4; try done.
  - intros p pr Hp. rewrite (cnt_perm _ _ _ Hh). by apply B1.
  - intros p. rewrite Hh. apply B2.
  - intros p i pr Hp. rewrite E4. by apply B4.
  - intros c t. rewrite E4, Ht. apply B5.
  - intros k t Hk. rewrite Ht. by apply B6.
  - intros t th k. rewrite Ht. apply B7.
Qed.

Lemma thread_at_insert w p pr' t :
  thread_at t (w <| procs := <[p := pr']> (procs w) |>) = if decide (t.1 = p) then threads pr' !! t.2 else thread_at t w.
Proof.
  unfold thread_at. simpl. case_decide as E; [subst; by rewrite lookup_insert_eq|by rewrite lookup_insert_ne].
Qed.

(** A process is replaced, and the references to it change hands. *)
Lemma base_replace w sl ex p pr pr' sl' ex' : base w sl ex -> procs w !! p = Some pr -> proc_ok pr' ->
  ts_idx <$> threads pr' = ts_idx <$> threads pr ->
  0 < ref pr' -> ref pr' = cnt p (holders w sl' ex') ->
  NoDup sl'.*2 -> (forall i, i ∈ act pr' <-> (p, i) ∈ sl'.*2) ->
  (forall c i, (c, (p, i)) ∈ sl' -> exists th, threads pr' !! i = Some th /\ core th = Z.of_nat c) ->
  (forall c q i, q <> p -> (c, (q, i)) ∈ sl' <-> (c, (q, i)) ∈ sl) ->
  (forall q, q <> p -> cnt q ((sl'.*2).*1 ++ ex') = cnt q ((sl.*2).*1 ++ ex)) ->
  base (w <| procs := <[p := pr']> (procs w) |>) sl' ex'.
Proof.
  intros [B1 B2 B3 B4 B5 B6 B7 B8] Hp Hok Hts Hpos Href Hnd Hact Hcore Hsl Hcnt.
  assert (forall q, q <> p -> cnt q (holders w sl' ex') = cnt q (holders w sl ex)) as Hh.
  { intros q Hq. unfold holders. rewrite !(cnt_app q (clients w)), !(cnt_app q (ts w).*1). by rewrite Hcnt. }
  assert (forall i k, (ts_idx <$> threads pr' !! i) = Some k <-> (ts_idx <$> threads pr !! i) = Some k) as Hti.
  { intros i k. by rewrite <- !list_lookup_fmap, Hts. }
  pose proof (fun t => thread_at_insert w p pr' t) as Ht. set (w' := w <| procs := _ |>) in *.
  assert (procs w' = <[p := pr']> (procs w) /\ ts w' = ts w /\ clients w' = clients w) as (Ep & Et & Ec) by done.
  assert (holders w' sl' ex' = holders w sl' ex') as Eh by (unfold holders; by rewrite Et, Ec).
  clearbody w'. split; rewrite ?Ep, ?Et, ?Ec; try done.
  - intros q qr. destruct (decide (q = p)) as [->|Hne]; [rewrite lookup_insert_eq; intros [= <-]; by rewrite Eh|].
    rewrite lookup_insert_ne by done. intros Hq. rewrite Eh, Hh by done. by apply B1.
  - rewrite Eh. intros q Hq. destruct (decide (q = p)) as [->|Hne]; [rewrite lookup_insert_eq; by eexists|].
    rewrite lookup_insert_ne by done. apply B2, cnt_pos. rewrite <- Hh by done. by apply cnt_pos.
  - intros q i qr. destruct (decide (q = p)) as [->|Hne]; [rewrite lookup_insert_eq; by intros [= <-]|].
    rewrite lookup_insert_ne by done. intros Hq. rewrite (B4 q i qr Hq), !list_elem_of_fmap.
    split; intros ([c t] & E & Hin); simpl in E; subst t; exists (c, (q, i)); (split; [done|]); by apply Hsl.
  - intros c [q i] Hin. rewrite Ht. simpl. case_decide as E; [subst; by apply Hcore|]. apply B5. by apply Hsl.
  - intros k [q i] Hk. destruct (B6 k _ Hk) as (th & Hth & Hi). rewrite Ht. simpl. case_decide as E; [|by eexists].
    subst. unfold thread_at in Hth. simpl in Hth. rewrite Hp in Hth. simpl in Hth.
    assert (ts_idx <$> threads pr' !! i = Some (Some k)) as (th' & E1 & E2)%fmap_Some by (apply Hti; by rewrite Hth, <- Hi).
    exists th'. split; [done|congruence].
  - intros [q i] th k. rewrite Ht. simpl. case_decide as E; [|by apply B7]. subst. intros Hth Hi.
    assert (ts_idx <$> threads pr !! i = Some (Some k)) as (th' & E1 & E2)%fmap_Some by (apply Hti; by rewrite Hth, <- Hi).
    apply (B7 (p, i) th' k); [|congruence]. unfold thread_at. simpl. by rewrite Hp.
Qed.

(** ** The operations on processes *)

(** The cores and clients stay, and at most [k] more kthreads are polled. *)
Definition frame (k : nat) (w w' : iok) : Prop :=
  state w' = state w /\ clients w' = clients w /\ (length (ts w') <= k + length (ts w))%nat.
Lemma frame_refl k w : frame k w w.
Proof. split; [done|]. split; [done|lia]. Qed.
Lemma frame_trans k1 k2 w1 w2 w3 : frame k1 w1 w2 -> frame k2 w2 w3 -> frame (k1 + k2) w1 w3.
Proof. intros (H1 & H2 & H3) (H4 & H5 & H6). split; [congruence|]. split; [congruence|lia]. Qed.

(** A process that differs in nothing the invariant is about. *)
Record neutral (pr pr' : proc) : Prop := {
  ne_ok : proc_ok pr -> proc_ok pr';
  ne_act : act pr' = act pr;
  ne_ref : ref pr' = ref pr;
  ne_threads : (fun th => (ts_idx th, core th)) <$> threads pr' = (fun th => (ts_idx th, core th)) <$> threads pr
}.
Lemma neutral_fields pr pr' : neutral pr pr' -> ts_idx <$> threads pr' = ts_idx <$> threads pr /\ core <$> threads pr' = core <$> threads pr.
Proof.
  intros [_ _ _ H]. split; [apply (f_equal (fmap fst)) in H|apply (f_equal (fmap snd)) in H]; by rewrite <- !list_fmap_compose in H.
Qed.

Lemma owned_core w sl ex p pr c i : base w sl ex -> procs w !! p = Some pr -> (c, (p, i)) ∈ sl ->
  exists th, threads pr !! i = Some th /\ core th = Z.of_nat c.
Proof.
  intros B Hp Hin. destruct (b_core _ _ _ B c (p, i) Hin) as (th & Hth & Hc). unfold thread_at in Hth. simpl in Hth.
  rewrite Hp in Hth. by exists th.
Qed.
Lemma core_field (pr : proc) i c : (core <$> threads pr) !! i = Some c -> exists th, threads pr !! i = Some th /\ core th = c.
Proof. intros H. rewrite list_lookup_fmap in H. apply fmap_Some in H as (th & E & ->). by exists th. Qed.

Lemma base_neutral w sl ex p pr pr' : base w sl ex -> procs w !! p = Some pr -> neutral pr pr' ->
  base (w <| procs := <[p := pr']> (procs w) |>) sl ex.
Proof.
  intros B Hp Hn. pose proof (neutral_fields pr pr' Hn) as [Hts Hc]. destruct Hn as [N1 N2 N3 _].
  destruct (b_procs _ _ _ B p pr Hp) as (Hok & Hpos & Href).
  apply (base_replace w sl ex p pr pr' sl ex B Hp); try done; [by apply N1|by rewrite N3|by rewrite N3|by apply B| |].
  - intros i. rewrite N2. by apply (b_owned _ _ _ B).
  - intros c i Hin. destruct (owned_core w sl ex p pr c i B Hp Hin) as (th & Hth & Ec).
    assert ((core <$> threads pr) !! i = Some (Z.of_nat c)) as Hl by (by rewrite list_lookup_fmap, Hth, <- Ec).
    rewrite <- Hc in Hl. by apply core_field.
Qed.

Lemma proc_ok_fields pr r k g s np : proc_ok pr ->
  proc_ok (pr <| ref := r |> <| kill := k |> <| guaranteed_cores := g |> <| started := s |> <| p_next_poll := np |>).
Proof. intros [H1 H2 H3 H4 H5 H6]. by split. Qed.

Lemma update_thread_ok w sl ex t f : base w sl ex -> is_Some (thread_at t w) ->
  (forall th, active (f th) = active th /\ core (f th) = core th /\ at_idx (f th) = at_idx th /\ ts_idx (f th) = ts_idx th) ->
  exists w', update_thread f t w = Some w' /\ base w' sl ex /\ frame 0 w w' /\ ts w' = ts w.
Proof.
  intros B [th Hth] Hf. unfold update_thread, thread_at in *. destruct (procs w !! t.1) as [pr|] eqn:Hp; [|done].
  cbn [mbind option_bind] in *. rewrite Hth. cbn [mbind option_bind]. eexists. split; [done|]. split; [|done].
  apply (base_neutral w sl ex t.1 pr); [done|done|]. destruct (Hf th) as (F1 & F2 & F3 & F4).
  assert (forall j, (if decide (j = t.2) then Some (f th) else threads pr !! j) = <[t.2 := f th]> (threads pr) !! j) as Hl.
  { intros j. case_decide; [subst; rewrite list_lookup_insert_eq; [done|by eapply lookup_lt_Some]|by rewrite list_lookup_insert_ne]. }
  split; try done; simpl.
  - intros [H1 H2 H3 H4 H5 H6]. unfold act, thread_count in *. split; simpl; unfold act, thread_count; simpl; rewrite ?length_insert; try done.
    + intros k i Hk. rewrite <- Hl. case_decide as E; [subst i|by apply H4]. destruct (H4 k t.2 Hk) as (th2 & E2 & E3 & E4).
      exists (f th). split; [done|]. assert (th2 = th) as -> by congruence. by rewrite F1, F3.
    + intros i Hi. rewrite <- Hl. case_decide as E; [subst i|by apply H5]. destruct (H5 t.2 Hi) as (th2 & E2 & E3).
      exists (f th). split; [done|]. assert (th2 = th) as -> by congruence. by rewrite F1.
  - rewrite list_fmap_insert. apply list_insert_id. rewrite list_lookup_fmap, Hth. simpl. by rewrite F2, F4.
Qed.

(** *** References *)

Lemma proc_get_ok w sl ex p pr : base w sl ex -> procs w !! p = Some pr ->
  exists w', proc_get p w = Some w' /\ base w' sl (p :: ex) /\ frame 0 w w' /\ ts w' = ts w /\
    procs w' = <[p := pr <| ref := ref pr + 1 |>]> (procs w).
Proof.
  intros B Hp. destruct (b_procs _ _ _ B p pr Hp) as (Hok & Hpos & Href). unfold proc_get. rewrite Hp. cbn [mbind option_bind].
  replace (ref pr >? 0) with true by lia. eexists. split; [done|]. split; [|done].
  apply (base_replace w sl ex p pr _ sl (p :: ex) B Hp); simpl; try done.
  - exact (proc_ok_fields pr (ref pr + 1) _ _ _ _ Hok).
  - lia.
  - rewrite Href. unfold holders. autorewrite with cnt. rewrite decide_True by done. lia.
  - apply B.
  - intros i. exact (b_owned _ _ _ B p i pr Hp).
  - intros c i. exact (owned_core w sl ex p pr c i B Hp).
  - intros q Hq. autorewrite with cnt. rewrite decide_False by congruence. lia.
Qed.

Lemma proc_put_ok w sl ex p : base w sl (p :: ex) -> exists w', proc_put p w = Some w' /\ base w' sl ex /\ frame 0 w w' /\ ts w' = ts w.
Proof.
  intros B. destruct (b_alive _ _ _ B p) as [pr Hp]; [unfold holders; rewrite !elem_of_app; do 3 right; left|].
  destruct (b_procs _ _ _ B p pr Hp) as (Hok & Hpos & Href). unfold proc_put. rewrite Hp. cbn [mbind option_bind].
  assert (ref pr - 1 = cnt p (holders w sl ex)) as Hr.
  { rewrite Href. unfold holders. autorewrite with cnt. rewrite decide_True by done. lia. }
  assert (forall q, q <> p -> cnt q (holders w sl (p :: ex)) = cnt q (holders w sl ex)) as Hq.
  { intros q Hq. unfold holders. autorewrite with cnt. rewrite decide_False by congruence. lia. }
  destruct (ref pr - 1 =? 0) eqn:E0; [apply Z.eqb_eq in E0|apply Z.eqb_neq in E0]; eexists; (split; [done|]); (split; [|done]).
  - assert (p ∉ holders w sl ex) as Hnot by (intros Hin%cnt_pos; lia).
    assert (p ∉ (ts w).*1 /\ p ∉ (sl.*2).*1 /\ p ∉ clients w) as (Hn1 & Hn2 & Hn3) by (unfold holders in Hnot; rewrite !not_elem_of_app in Hnot; tauto).
    assert (forall t, t.1 <> p -> thread_at t (w <| procs := delete p (procs w) |>) = thread_at t w) as Ht
      by (intros t Hne; unfold thread_at; simpl; by rewrite lookup_delete_ne).
    pose proof B as [B1 B2 B3 B4 B5 B6 B7 B8]. set (w' := w <| procs := _ |>) in *.
    assert (procs w' = delete p (procs w) /\ ts w' = ts w /\ clients w' = clients w) as (Ep & Et & Ec) by done.
    assert (holders w' sl ex = holders w sl ex) as Eh by (unfold holders; by rewrite Et, Ec).
    assert (forall t th, thread_at t w' = Some th -> t.1 <> p) as Hp'.
    { intros t th Hth E. unfold thread_at in Hth. by rewrite Ep, E, lookup_delete_eq in Hth. }
    clearbody w'. split; rewrite ?Ep, ?Et, ?Ec, ?Eh; try done.
    + intros q qr [Hne Hq']%lookup_delete_Some. destruct (B1 q qr Hq') as (O1 & O2 & O3). split; [done|]. split; [done|].
      by rewrite ?Eh, <- Hq.
    + intros q Hin. rewrite ?Eh in Hin. assert (q <> p) by (by intros ->).
      rewrite lookup_delete_ne by done. apply B2, cnt_pos. rewrite Hq by done. by apply cnt_pos.
    + intros q i qr [Hne Hq']%lookup_delete_Some. by apply B4.
    + intros c t Hin. rewrite Ht; [by apply B5|]. intros <-. apply Hn2, list_elem_of_fmap. exists t. split; [done|].
      apply list_elem_of_fmap. by exists (c, t).
    + intros k t Hk. rewrite Ht; [by apply B6|]. intros <-. apply Hn1, list_elem_of_fmap. exists t. split; [done|]. by eapply list_elem_of_lookup_2.
    + intros t th k Hth. apply B7. rewrite <- Ht; [done|]. by apply (Hp' t th).
  - apply (base_replace w sl (p :: ex) p pr _ sl ex B Hp); simpl; try done.
    + exact (proc_ok_fields pr (ref pr - 1) _ _ _ _ Hok).
    + lia.
    + apply B.
    + intros i. exact (b_owned _ _ _ B p i pr Hp).
    + intros c i. exact (owned_core w sl (p :: ex) p pr c i B Hp).
    + intros q Hne. autorewrite with cnt. rewrite decide_False by congruence. lia.
Qed.

(** *** Starting and stopping a kthread *)

Lemma owned_move (c : nat) (t : tref) (sl : list (nat * tref)) ex : (((c, t) :: sl).*2).*1 ++ ex ≡ₚ (sl.*2).*1 ++ t.1 :: ex.
Proof. rewrite !fmap_cons. simpl. by rewrite <- Permutation_middle. Qed.
Lemma holders_move w c (t : tref) sl ex : holders w ((c, t) :: sl) ex ≡ₚ holders w sl (t.1 :: ex).
Proof. unfold holders. by rewrite owned_move. Qed.

Lemma enable_part w sl ex p pr i c tsc : base w sl (p :: ex) -> procs w !! p = Some pr -> i ∈ idle_threads pr ->
  exists pr', proc_enable tsc c i pr = Some pr' /\ base (w <| procs := <[p := pr']> (procs w) |>) ((c, (p, i)) :: sl) ex /\
    kept pr pr'.
Proof.
  intros B Hp Hi. destruct (b_procs _ _ _ B p pr Hp) as (Hok & Hpos & Href).
  destruct (proc_enable_ok tsc c i pr Hok Hi) as (pr' & E & Hok' & Hk & Ha & Hc). exists pr'. split; [done|]. split; [|done].
  assert ((p, i) ∉ sl.*2) as Hni.
  { rewrite <- (b_owned _ _ _ B p i pr Hp). intros Hin. pose proof (proc_ok_nodup pr Hok) as Hd. apply NoDup_app in Hd as (_ & Hd & _). by apply (Hd i). }
  destruct Hk as [K1 K2 K3 K4].
  apply (base_replace w sl (p :: ex) p pr pr' _ ex B Hp); try done; [lia| | | | | |].
  - rewrite K1, Href. symmetry. apply cnt_perm, (holders_move w c (p, i)).
  - simpl. apply NoDup_cons. split; [done|apply B].
  - intros j. rewrite Ha, elem_of_app, list_elem_of_singleton. simpl. rewrite elem_of_cons, (b_owned _ _ _ B p j pr Hp). naive_solver.
  - intros c' j [Heq|Hin]%elem_of_cons.
    + injection Heq as -> ->. apply core_field. rewrite Hc. apply list_lookup_insert_eq. rewrite length_fmap.
      apply (proc_ok_range pr i Hok), elem_of_app. by right.
    + apply core_field. rewrite Hc. rewrite list_lookup_insert_ne.
      * destruct (owned_core w sl (p :: ex) p pr c' j B Hp Hin) as (th & Hth & <-). by rewrite list_lookup_fmap, Hth.
      * intros ->. apply Hni, list_elem_of_fmap. by exists (c', (p, j)).
  - intros c' q j Hq. rewrite elem_of_cons. split; [intros [?|?]; [congruence|done]|by right].
  - intros q Hq. apply cnt_perm, (owned_move c (p, i)).
Qed.

Lemma disable_part w sl ex p c i tsc : base w ((c, (p, i)) :: sl) ex -> exists pr pr', procs w !! p = Some pr /\
  proc_disable tsc i pr = Some pr' /\ base (w <| procs := <[p := pr']> (procs w) |>) sl (p :: ex) /\ kept pr pr'.
Proof.
  intros B. destruct (b_core _ _ _ B c (p, i)) as (th & Hth & _); [left|]. unfold thread_at in Hth. simpl in Hth.
  destruct (procs w !! p) as [pr|] eqn:Hp; [|done]. clear Hth. destruct (b_procs _ _ _ B p pr Hp) as (Hok & Hpos & Href).
  assert (i ∈ act pr) as Hi by (apply (b_owned _ _ _ B p i pr Hp); simpl; left).
  destruct (proc_disable_ok tsc i pr Hok Hi) as (pr' & E & Hok' & Hk & Ha & Hc). exists pr, pr'. split; [done|]. split; [done|]. split; [|done].
  destruct Hk as [K1 K2 K3 K4]. pose proof (b_nodup _ _ _ B) as Hnd. simpl in Hnd. apply NoDup_cons in Hnd as [Hni Hnd].
  pose proof (proc_ok_nodup pr Hok) as Hd. apply NoDup_app in Hd as (Hd & _ & _). rewrite <- Ha in Hd. apply NoDup_cons in Hd as [Hia _].
  apply (base_replace w _ ex p pr pr' sl (p :: ex) B Hp); try done; [lia| | | | |].
  - rewrite K1, Href. apply cnt_perm, (holders_move w c (p, i)).
  - intros j. pose proof (b_owned _ _ _ B p j pr Hp) as Ho. rewrite <- Ha in Ho. simpl in Ho. rewrite !elem_of_cons in Ho.
    destruct (decide (j = i)) as [->|Hne]; [tauto|]. destruct Ho as [Ho1 Ho2]. split; intros Hj.
    + destruct (Ho1 (or_intror Hj)) as [?|?]; [congruence|done].
    + destruct (Ho2 (or_intror Hj)) as [?|?]; [done|done].
  - intros c' j Hin. apply core_field. rewrite Hc.
    destruct (owned_core w _ ex p pr c' j B Hp) as (th' & Hth' & <-); [by right|]. by rewrite list_lookup_fmap, Hth'.
  - intros c' q j Hq. rewrite elem_of_cons. split; [by right|intros [?|?]; [congruence|done]].
  - intros q Hq. symmetry. apply cnt_perm, (owned_move c (p, i)).
Qed.

(** *** Polling *)

(** Only [ts_idx] of kthreads differs. *)
Record only_ts (pr pr' : proc) : Prop := {
  ot_ok : proc_ok pr -> proc_ok pr';
  ot_act : act pr' = act pr;
  ot_idle : idle_threads pr' = idle_threads pr;
  ot_ref : ref pr' = ref pr;
  ot_vfio : has_vfio_directpath pr' = has_vfio_directpath pr;
  ot_core : core <$> threads pr' = core <$> threads pr
}.
Lemma only_ts_refl pr : only_ts pr pr.
Proof. by split. Qed.
Lemma only_ts_trans a b c : only_ts a b -> only_ts b c -> only_ts a c.
Proof. intros [A1 A2 A3 A4 A5 A6] [C1 C2 C3 C4 C5 C6]. split; [tauto|congruence..]. Qed.
Lemma only_ts_thread pr i th k : threads pr !! i = Some th -> only_ts pr (pr <| threads := <[i := th <| ts_idx := k |>]> (threads pr) |>).
Proof.
  intros Hth. assert (forall j, (if decide (j = i) then Some (th <| ts_idx := k |>) else threads pr !! j) = <[i := th <| ts_idx := k |>]> (threads pr) !! j) as Hl.
  { intros j. case_decide; [subst; rewrite list_lookup_insert_eq; [done|by eapply lookup_lt_Some]|by rewrite list_lookup_insert_ne]. }
  split; try done; simpl.
  - intros [H1 H2 H3 H4 H5 H6]. unfold act, thread_count in *. split; simpl; unfold act, thread_count; simpl; rewrite ?length_insert; try done.
    + intros m j Hm. rewrite <- Hl. destruct (H4 m j Hm) as (th2 & E2 & E3). case_decide as E; [subst j|by exists th2]. eexists. split; [done|]. by simplify_eq.
    + intros j Hj. rewrite <- Hl. destruct (H5 j Hj) as (th2 & E2 & E3). case_decide as E; [subst j|by exists th2]. eexists. split; [done|]. by simplify_eq.
  - rewrite list_fmap_insert. apply list_insert_id. by rewrite list_lookup_fmap, Hth.
Qed.

Lemma base_ts w w' sl ex ex' : base w sl ex -> clients w' = clients w ->
  (forall p pr', procs w' !! p = Some pr' -> exists pr, procs w !! p = Some pr /\ only_ts pr pr') ->
  (forall p, is_Some (procs w !! p) -> is_Some (procs w' !! p)) ->
  (ts w').*1 ++ ex' ≡ₚ (ts w).*1 ++ ex ->
  (forall k t, ts w' !! k = Some t -> exists th, thread_at t w' = Some th /\ ts_idx th = Some k) ->
  (forall t th k, thread_at t w' = Some th -> ts_idx th = Some k -> ts w' !! k = Some t) ->
  base w' sl ex'.
Proof.
  intros [B1 B2 B3 B4 B5 B6 B7 B8] Ec Hpr Hal Hts T1 T2.
  assert (holders w' sl ex' ≡ₚ holders w sl ex) as Hh.
  { unfold holders. rewrite Ec. f_equiv. rewrite (Permutation_app_comm (sl.*2).*1 ex'), (Permutation_app_comm (sl.*2).*1 ex), !(assoc app). by f_equiv. }
  split; try done; rewrite ?Ec; try done.
  - intros p pr' Hp. destruct (Hpr p pr' Hp) as (pr & Hp0 & [O1 O2 _ O3 _ _]). destruct (B1 p pr Hp0) as (H1 & H2 & H3).
    rewrite O3, (cnt_perm _ _ _ Hh). split; [by apply O1|done].
  - intros p. rewrite Hh. intros Hin. by apply Hal, B2.
  - intros p i pr' Hp. destruct (Hpr p pr' Hp) as (pr & Hp0 & [O1 O2 _ O3 _ _]). rewrite O2. by apply B4.
  - intros c [p i] Hin. destruct (B5 c (p, i) Hin) as (th & Hth & Hc). unfold thread_at in *. simpl in *.
    destruct (procs w !! p) as [pr|] eqn:Hp0; [|done]. destruct (Hal p ltac:(by eexists)) as [pr' Hp']. rewrite Hp'. simpl in *.
    destruct (Hpr p pr' Hp') as (pr2 & Hp2 & [_ _ _ _ _ O4]). assert (pr2 = pr) as -> by congruence. apply core_field. rewrite O4. by rewrite list_lookup_fmap, Hth, <- Hc.
Qed.

(** One kthread gets a new [ts_idx]. *)
Lemma set_ts_idx w t k th : thread_at t w = Some th -> exists w', update_thread (fun th => th <| ts_idx := k |>) t w = Some w' /\
  clients w' = clients w /\ state w' = state w /\ ts w' = ts w /\
  (forall p pr', procs w' !! p = Some pr' -> exists pr, procs w !! p = Some pr /\ only_ts pr pr') /\
  (forall p, is_Some (procs w !! p) -> is_Some (procs w' !! p)) /\
  (forall u, thread_at u w' = if decide (u = t) then Some (th <| ts_idx := k |>) else thread_at u w).
Proof.
  intros Hth. destruct t as [p i]. unfold update_thread. unfold thread_at in Hth. simpl in *. destruct (procs w !! p) as [pr|] eqn:Hp; [|done].
  simpl in *. rewrite Hth. simpl. eexists. split; [done|]. split_and!; try done; simpl.
  - intros q pr'. destruct (decide (q = p)) as [->|Hne]; [rewrite lookup_insert_eq|rewrite lookup_insert_ne by done].
    + intros [= <-]. exists pr. split; [done|]. exact (only_ts_thread pr i th k Hth).
    + intros Hq. exists pr'. split; [done|apply only_ts_refl].
  - intros q Hq. destruct (decide (q = p)) as [->|Hne]; [rewrite lookup_insert_eq; by eexists|by rewrite lookup_insert_ne].
  - intros [q j]. unfold thread_at. simpl. destruct (decide (q = p)) as [->|Hne].
    + rewrite lookup_insert_eq. simpl. rewrite Hp. simpl. case_decide as E.
      * simplify_eq. apply list_lookup_insert_eq. by eapply lookup_lt_Some.
      * apply list_lookup_insert_ne. congruence.
    + rewrite lookup_insert_ne by done. by rewrite decide_False by congruence.
Qed.

Lemma poll_thread_ok w sl ex t th : base w sl ex -> thread_at t w = Some th -> (ts_idx th = None -> (length (ts w) < NCPU)%nat) ->
  exists w', poll_thread t w = Some w' /\ base w' sl ex /\ frame 1 w w' /\ (forall p, is_Some (procs w !! p) -> is_Some (procs w' !! p)).
Proof.
  intros B Hth Hroom. unfold poll_thread. rewrite Hth. cbn [mbind option_bind]. destruct (ts_idx th) as [k|] eqn:Ek; [exists w; pose proof (frame_refl 1 w); done|].
  assert (exists pr, procs w !! t.1 = Some pr /\ threads pr !! t.2 = Some th) as (pr & Hp & Hi).
  { unfold thread_at in Hth. destruct (procs w !! t.1) as [pr|]; [by exists pr|done]. }
  destruct (proc_get_ok w sl ex t.1 pr B Hp) as (w1 & E1 & B1 & (F1 & F2 & F3) & T1 & P1). rewrite E1. cbn [mbind option_bind].
  rewrite T1. replace (length (ts w) <? NCPU)%nat with true by (symmetry; by apply Nat.ltb_lt, Hroom). cbn [negb].
  set (w2 := w1 <| ts := ts w ++ [t] |>). assert (thread_at t w2 = Some th) as Hth2.
  { unfold thread_at, w2. simpl. rewrite P1, lookup_insert_eq. done. }
  destruct (set_ts_idx w2 t (Some (length (ts w))) th Hth2) as (w' & E & C1 & C2 & C3 & C4 & C5 & C6). rewrite E.
  change (state w2) with (state w1) in C2. change (clients w2) with (clients w1) in C1. change (ts w2) with (ts w ++ [t]) in C3.
  exists w'. split; [done|]. split; [|split; [split; [congruence|split; [congruence|rewrite C3, length_app; simpl; lia]]|]].
  - apply (base_ts w1 w' sl (t.1 :: ex) ex B1); [congruence|exact C4|exact C5| | |]; rewrite ?C3; simpl.
    + rewrite T1, fmap_app, <- (assoc app). done.
    + intros k u. rewrite C6, lookup_app_Some. case_decide as Eu.
      * subst u. intros [Hk|[Hk1 Hk2]].
        -- destruct (b_ts _ _ _ B k t Hk) as (th2 & E2 & E3). congruence.
        -- apply list_lookup_singleton_Some in Hk2 as [Hk2 _]. eexists. split; [done|]. simpl. f_equal. lia.
      * intros [Hk|[Hk1 Hk2]]; [|by apply list_lookup_singleton_Some in Hk2 as [_ ?]].
        rewrite <- T1 in Hk. by apply (b_ts _ _ _ B1).
    + intros u th' k. rewrite C6. case_decide as Eu.
      * subst u. intros [= <-]. simpl. intros [= <-]. by rewrite lookup_app_r, Nat.sub_diag.
      * intros Hu Hk. apply lookup_app_l_Some. rewrite <- T1. by apply (b_ts_idx _ _ _ B1 u th').
  - intros p Hsome. apply C5. unfold w2. simpl. rewrite P1. destruct (decide (p = t.1)) as [->|Hne]; [rewrite lookup_insert_eq; by eexists|by rewrite lookup_insert_ne].
Qed.

Lemma unpoll_thread_ok w sl ex t : base w sl ex -> is_Some (thread_at t w) ->
  exists w', unpoll_thread t w = Some w' /\ base w' sl ex /\ frame 0 w w'.
Proof.
  intros B [th Hth]. unfold unpoll_thread. rewrite Hth. cbn [mbind option_bind]. destruct (ts_idx th) as [k|] eqn:Ek; [|by exists w].
  pose proof (b_ts_idx _ _ _ B t th k Hth Ek) as Hk. assert (k < length (ts w))%nat as Lk by (by eapply lookup_lt_Some).
  assert (exists u, last (ts w) = Some u) as [u Hu] by (apply last_is_Some; by destruct (ts w)).
  assert (ts w !! (length (ts w) - 1)%nat = Some u) as Hu' by (rewrite last_lookup in Hu; by replace (length (ts w) - 1)%nat with (pred (length (ts w))) by lia).
  rewrite Hu. cbn [mbind option_bind]. set (w1 := w <| ts := swap_remove k (ts w) |>).
  assert (forall x i j, ts w !! i = Some x -> ts w !! j = Some x -> i = j) as Hinj.
  { intros x i j Hi Hj. destruct (b_ts _ _ _ B i x Hi) as (a & A1 & A2). destruct (b_ts _ _ _ B j x Hj) as (b & A3 & A4). congruence. }
  destruct (b_ts _ _ _ B _ u Hu') as (thu & Hthu & _).
  destruct (set_ts_idx w1 u (Some k) thu Hthu) as (w2 & E2 & C1 & C2 & C3 & C4 & C5 & C6). rewrite E2. cbn [mbind option_bind].
  change (state w1) with (state w) in C2. change (clients w1) with (clients w) in C1. change (ts w1) with (swap_remove k (ts w)) in C3.
  assert (exists th2, thread_at t w2 = Some th2) as [th2 Hth2] by (rewrite C6; case_decide; [by eexists|by exists th]).
  destruct (set_ts_idx w2 t None th2 Hth2) as (w3 & E3 & D1 & D2 & D3 & D4 & D5 & D6). rewrite E3. cbn [mbind option_bind].
  assert (base w3 sl (t.1 :: ex)) as B3.
  { apply (base_ts w w3 sl ex (t.1 :: ex) B); [congruence| |intros p Hp; by apply D5, C5| | |]; rewrite ?D3, ?C3; simpl.
    - intros p pr' Hp. destruct (D4 p pr' Hp) as (pr2 & Hp2 & O2). destruct (C4 p pr2 Hp2) as (pr1 & Hp1 & O1).
      exists pr1. split; [done|]. by apply (only_ts_trans _ pr2).
    - pose proof (fmap_Permutation fst _ _ (swap_remove_perm (ts w) k t Hk)) as Hperm. rewrite fmap_cons in Hperm.
      rewrite <- Hperm. simpl. by rewrite <- Permutation_middle.
    - intros j x Hj. apply swap_remove_lookup in Hj as [Lj Hj]; [|done]. rewrite D6.
      assert (x <> t) as Hxt.
      { intros ->. destruct (decide (j = k)); [|by assert (j = k) by (by apply (Hinj t))].
        assert (length (ts w) - 1 = k)%nat by (apply (Hinj t); [congruence|done]). lia. }
      rewrite decide_False by done. rewrite C6. destruct (decide (j = k)) as [->|Hne].
      + assert (x = u) as -> by congruence. rewrite decide_True by done. by eexists.
      + rewrite decide_False; [by apply (b_ts _ _ _ B)|]. intros ->. assert (j = length (ts w) - 1)%nat by (by apply (Hinj u)). lia.
    - intros x th' j. rewrite D6. case_decide as Ext; [by intros [= <-]|]. rewrite C6. case_decide as Exu.
      + subst x. intros [= <-]. simpl. intros [= <-]. rewrite swap_remove_at by (done || (assert (k <> length (ts w) - 1)%nat by (intros ->; congruence); lia)).
        by rewrite decide_True by done.
      + intros Hx Hj. pose proof (b_ts_idx _ _ _ B x th' j Hx Hj) as Hxj. rewrite swap_remove_at; [|done|].
        * rewrite decide_False; [done|]. intros ->. congruence.
        * assert (j <> length (ts w) - 1)%nat by (intros ->; congruence). apply lookup_lt_Some in Hxj. lia. }
  destruct (proc_put_ok w3 sl ex t.1 B3) as (w4 & E4 & B4 & (F1 & F2 & F3) & _). exists w4. split; [done|]. split; [done|].
  split; [congruence|]. split; [congruence|]. rewrite D3, C3, swap_remove_length in F3. lia.
Qed.

(** *** A kthread leaves or gets a core *)

Lemma kept_thread pr pr' i : kept pr pr' -> is_Some (threads pr !! i) -> is_Some (threads pr' !! i).
Proof.
  intros [_ _ _ K] [th Hth]. apply (f_equal (lookup i)) in K. rewrite !list_lookup_fmap, Hth in K. simpl in K.
  destruct (threads pr' !! i); [by eexists|done].
Qed.

Lemma retire_kthread_ok e w sl c t : base w ((c, t) :: sl) [] ->
  exists w', retire_kthread e t w = Some w' /\ base w' sl [] /\ frame 0 w w'.
Proof.
  intros B. destruct t as [p i]. destruct (disable_part w sl [] p c i (cur_tsc w) B) as (pr & pr' & Hp & E & B1 & K).
  unfold retire_kthread, sched_disable_kthread. simpl fst. simpl snd. rewrite Hp. cbn [mbind option_bind]. rewrite E. cbn [mbind option_bind].
  set (w1 := w <| procs := <[p := pr']> (procs w) |>) in *.
  assert (exists w2, (if negb (has_vfio_directpath pr') && txpktq_empty e (p, i) then unpoll_thread (p, i) w1 else Some w1) = Some w2 /\
    base w2 sl [p] /\ frame 0 w w2) as (w2 & E2 & B2 & F2).
  { destruct (negb _ && _); [|by exists w1]. destruct (unpoll_thread_ok w1 sl [p] (p, i) B1) as (w2 & E2 & B2 & F2); [|by exists w2].
    destruct (b_core _ _ _ B c (p, i)) as (th & Hth & _); [left|]. unfold thread_at in *. simpl in *. rewrite Hp in Hth.
    rewrite lookup_insert_eq. simpl in *. apply (kept_thread pr); [done|by eexists]. }
  rewrite E2. cbn [mbind option_bind]. destruct (proc_put_ok w2 sl [] p B2) as (w3 & E3 & B3 & F3 & _).
  exists w3. split; [done|]. split; [done|]. by apply (frame_trans 0 0 w w2).
Qed.

Lemma start_kthread_ok w sl p pr i c : base w sl [] -> procs w !! p = Some pr -> i ∈ idle_threads pr -> (length (ts w) < NCPU)%nat ->
  exists w1 w', proc_get p w = Some w1 /\ sched_enable_kthread (p, i) c w1 = Some w' /\ base w' ((c, (p, i)) :: sl) [] /\ frame 1 w w'.
Proof.
  intros B Hp Hi Hroom. destruct (proc_get_ok w sl [] p pr B Hp) as (w1 & E1 & B1 & F1 & T1 & P1). exists w1.
  set (pr1 := pr <| ref := ref pr + 1 |>) in *. assert (procs w1 !! p = Some pr1) as Hp1 by (rewrite P1; apply lookup_insert_eq).
  destruct (enable_part w1 sl [] p pr1 i c (cur_tsc w1) B1 Hp1 Hi) as (pr2 & E2 & B2 & K). unfold sched_enable_kthread. simpl fst. simpl snd.
  rewrite Hp1. cbn [mbind option_bind]. rewrite E2. cbn [mbind option_bind]. set (w2 := w1 <| procs := <[p := pr2]> (procs w1) |>) in *.
  assert (exists w3, (if has_vfio_directpath pr2 then Some w2 else poll_thread (p, i) w2) = Some w3 /\
    base w3 ((c, (p, i)) :: sl) [] /\ frame 1 w1 w3 /\ is_Some (procs w3 !! p)) as (w3 & E3 & B3 & F3 & [pr3 Hp3]).
  { assert (procs w2 !! p = Some pr2) as Hp2 by apply lookup_insert_eq.
    destruct (has_vfio_directpath pr2); [exists w2; rewrite Hp2; pose proof (frame_refl 1 w1); split_and!; [done|done|done|by eexists]|].
    destruct (b_core _ _ _ B2 c (p, i)) as (th & Hth & _); [left|].
    destruct (poll_thread_ok w2 _ [] (p, i) th B2 Hth) as (w3 & E3 & B3 & F3 & A3); [intros _; change (ts w2) with (ts w1); by rewrite T1|].
    exists w3. split; [done|]. split; [done|]. split; [exact F3|]. apply A3. by eexists. }
  rewrite E3. cbn [mbind option_bind]. rewrite Hp3. cbn [mbind option_bind]. eexists. split; [done|]. split; [done|]. split.
  - apply (base_neutral w3 _ [] p pr3); [done|done|]. split; try done. apply (proc_ok_fields pr3 _ _ _ true _).
  - exact (frame_trans 0 1 w w1 _ F1 F3).
Qed.

(** ** The cores *)

Definition slots_of (s : core_state) : list tref := option_list (last_th s) ++ option_list (pending_th s) ++ option_list (cur_th s).
Fixpoint slots_from (c : nat) (l : list core_state) : list (nat * tref) :=
  match l with [] => [] | s :: l => ((c,.) <$> slots_of s) ++ slots_from (S c) l end.
Abbreviation slots w := (slots_from 0 (state w)).

Lemma slots_at c l i s : l !! i = Some s -> exists rest, slots_from c l ≡ₚ (((c + i)%nat,.) <$> slots_of s) ++ rest /\
  forall s', slots_from c (<[i := s']> l) ≡ₚ (((c + i)%nat,.) <$> slots_of s') ++ rest.
Proof.
  revert c i. induction l as [|s0 l IH]; intros c i Hi; [done|]. destruct i as [|i]; simpl in *.
  - injection Hi as ->. exists (slots_from (S c) l). rewrite Nat.add_0_r. done.
  - destruct (IH (S c) i Hi) as (rest & H1 & H2). exists (((c,.) <$> slots_of s0) ++ rest). replace (c + S i)%nat with (S c + i)%nat by lia.
    split; [rewrite H1|intros s'; rewrite H2]; rewrite !(assoc app), (Permutation_app_comm (_ <$> slots_of s0)); done.
Qed.

(** Which fields of [struct core_state] go together. *)
Definition core_ok (s : core_state) : Prop :=
  (wait s = false -> last_th s = None /\ pending s = false) /\ (pending s = false -> pending_th s = None) /\
  (idle s = true -> cur_th s = None /\ wait s = false).

Record inv (w : iok) : Prop := {
  i_base : base w (slots w) [];
  i_cores : Forall core_ok (state w);
  i_ncpu : length (state w) = NCPU
}.

(** The invariant while core [c] is in the hands of the code, as [s]. *)
Definition held (c : nat) (s : core_state) (extra : list tref) (w : iok) : Prop :=
  (c < length (state w))%nat /\ length (state w) = NCPU /\ Forall core_ok (state w) /\
  exists rest, (forall s', slots_from 0 (<[c := s']> (state w)) ≡ₚ ((c,.) <$> slots_of s') ++ rest) /\
    base w (((c,.) <$> extra) ++ ((c,.) <$> slots_of s) ++ rest) [].

Lemma inv_held w c s : inv w -> state w !! c = Some s -> held c s [] w /\ core_ok s.
Proof.
  intros [B F L] Hs. split; [|by eapply Forall_lookup_1]. split; [by eapply lookup_lt_Some|]. split; [done|]. split; [done|].
  destruct (slots_at 0 (state w) c s Hs) as (rest & H1 & H2). exists rest. split; [exact H2|]. simpl. by apply (base_ext w w (slots w) _ [] []).
Qed.
Lemma held_set c s w : held c s [] w -> core_ok s -> inv (set_core c s w).
Proof.
  intros (Hc & L & F & rest & H2 & B) Hs. split; simpl.
  - apply (base_ext w _ _ _ [] [] B); try done.
  - apply Forall_insert; done.
  - by rewrite length_insert.
Qed.
Lemma set_core_twice c s s' w : set_core c s (set_core c s' w) = set_core c s w.
Proof. unfold set_core. simpl. by rewrite list_insert_insert_eq. Qed.
Lemma held_emit c s x w k : held c s x w -> held c s x (emit k w).
Proof. intros (Hc & L & F & rest & H2 & B). split; [done|]. split; [done|]. split; [done|]. exists rest. split; [done|]. by apply (base_ext w _ _ _ [] [] B). Qed.
Lemma held_perm c s x s' x' w : held c s x w -> x ++ slots_of s ≡ₚ x' ++ slots_of s' -> held c s' x' w.
Proof.
  intros (Hc & L & F & rest & H2 & B) Hp. split; [done|]. split; [done|]. split; [done|]. exists rest. split; [done|].
  apply (base_ext w _ _ _ [] [] B); try done. rewrite !(assoc app), <- !fmap_app. by rewrite Hp.
Qed.
Lemma held_update c s x w t f : held c s x w -> t ∈ x ++ slots_of s ->
  (forall th, active (f th) = active th /\ core (f th) = core th /\ at_idx (f th) = at_idx th /\ ts_idx (f th) = ts_idx th) ->
  exists w', update_thread f t w = Some w' /\ held c s x w' /\ frame 0 w w'.
Proof.
  intros (Hc & L & F & rest & H2 & B) Ht Hf.
  destruct (update_thread_ok w _ [] t f B) as (w' & E & B' & (F1 & F2 & F3) & _); [|done|].
  - destruct (b_core _ _ _ B c t) as (th & -> & _); [|by eexists]. rewrite (assoc app), <- fmap_app. apply elem_of_app. left.
    apply list_elem_of_fmap. by exists t.
  - exists w'. split; [done|]. split; [|done]. rewrite <- F1 in *. split; [done|]. split; [done|]. split; [done|]. by exists rest.
Qed.
Lemma held_retire e c s x w t : held c s (t :: x) w -> exists w', retire_kthread e t w = Some w' /\ held c s x w' /\ frame 0 w w'.
Proof.
  intros (Hc & L & F & rest & H2 & B). destruct (retire_kthread_ok e w _ c t B) as (w' & E & B' & (F1 & F2 & F3)).
  exists w'. split; [done|]. split; [|done]. rewrite <- F1 in *. split; [done|]. split; [done|]. split; [done|]. by exists rest.
Qed.

Ltac perm_slots := unfold slots_of; simpl; repeat match goal with H : _ = None |- _ => rewrite H | H : _ = Some _ |- _ => rewrite H end; simpl;
  rewrite ?app_nil_r; solve_Permutation.

Lemma held_retire_opt e c s x w t : held c s (option_list t ++ x) w -> exists w', retire_opt e t w = Some w' /\ held c s x w' /\ frame 0 w w'.
Proof. destruct t as [t|]; simpl; [apply held_retire|by exists w]. Qed.

(** The kthread that a core has or is about to have. *)
Definition on_core (s : core_state) : option tref := if pending s then pending_th s else cur_th s.
(** Only core [c] changes, to a state with kthread [t]. *)
Definition core_effect (k c : nat) (t : option tref) (w w' : iok) : Prop :=
  clients w' = clients w /\ (length (ts w') <= k + length (ts w))%nat /\ exists s', state w' = <[c := s']> (state w) /\ on_core s' = t.
Lemma frame_set_core k c s t w w' : frame k w w' -> on_core s = t -> core_effect k c t w (set_core c s w').
Proof. intros (F1 & F2 & F3) Ht. split; [done|]. split; [done|]. exists s. simpl. by rewrite F1. Qed.

(** *** [__sched_run] *)

Lemma sched_run_ok e th c s w : held c s (option_list th) w -> state w !! c = Some s -> core_ok s ->
  exists w', sched_run e th c w = Some (0, w') /\ inv w' /\ core_effect 0 c th w w'.
Proof.
  intros H Hs (C1 & C2 & C3). unfold sched_run. rewrite Hs. cbn [mbind option_bind]. destruct (wait s) eqn:Ew.
  - destruct (held_retire_opt e c (s <| pending_th := None |>) (option_list th) w (pending_th s)) as (w1 & E1 & H1 & F1).
    { apply (held_perm c s (option_list th) _ _ w H). perm_slots. }
    rewrite E1. cbn [mbind option_bind]. eexists. split; [done|]. split; [|by apply frame_set_core]. apply held_set.
    + apply (held_perm c _ _ _ _ w1 H1). perm_slots.
    + split; simpl; [congruence|]. split; [done|]. intros Hi. destruct (C3 Hi). congruence.
  - destruct (C1 eq_refl) as [El Ep]. pose proof (C2 Ep) as Ept.
    assert (exists w1, match cur_th s with Some t => if idle s then Some w else w ← request_cede t w; Some (emit (Kintr_cede c) w) | None => Some w end = Some w1 /\
      held c s (option_list th) w1 /\ frame 0 w w1) as (w1 & E1 & H1 & F1).
    { destruct (cur_th s) as [t|] eqn:Ec; [|by exists w]. destruct (idle s); [by exists w|]. unfold request_cede.
      destruct (held_update c s (option_list th) w t (fun th => th <| cede_gen := wake_gen th |>) H) as (w1 & E1 & H1 & F1); [|done|].
      - unfold slots_of. rewrite Ec, !elem_of_app. do 3 right. left.
      - rewrite E1. cbn [mbind option_bind]. eexists. split; [done|]. split; [by apply held_emit|done]. }
    rewrite E1. cbn [mbind option_bind]. eexists. split; [done|].
    split; [|apply frame_set_core; [exact F1|unfold on_core; simpl; by rewrite Ep]].
    apply held_set; [|by split].
    apply held_emit. apply (held_perm c _ _ _ _ w1 H1). perm_slots.
Qed.

Lemma held_start w c s p pr i : inv w -> state w !! c = Some s -> procs w !! p = Some pr -> i ∈ idle_threads pr -> (length (ts w) < NCPU)%nat ->
  exists w1 w', proc_get p w = Some w1 /\ sched_enable_kthread (p, i) c w1 = Some w' /\ held c s [(p, i)] w' /\ frame 1 w w'.
Proof.
  intros Hi Hs Hp Hin Hroom. destruct (inv_held w c s Hi Hs) as [(Hc & L & F & rest & H2 & B) _]. simpl in B.
  destruct (start_kthread_ok w _ p pr i c B Hp Hin Hroom) as (w1 & w' & E1 & E2 & B' & (F1 & F2 & F3)). exists w1, w'. split; [done|]. split; [done|].
  split; [|done]. rewrite <- F1 in *. split; [done|]. split; [done|]. split; [done|]. exists rest. split; [done|exact B'].
Qed.

Lemma pick_idle m pr c i : sched_pick_kthread m pr c = Some i -> i ∈ idle_threads pr.
Proof.
  unfold sched_pick_kthread. destruct (List.find _ (idle_threads pr)) as [j|] eqn:E1.
  - intros [= <-]. apply find_some in E1 as [E1 _]. by apply list_elem_of_In.
  - destruct (if noht m then _ else _) as [j|] eqn:E2.
    + intros [= <-]. destruct (noht m); [done|]. apply find_some in E2 as [E2 _]. by apply list_elem_of_In.
    + intros Hl. rewrite last_lookup in Hl. by eapply list_elem_of_lookup_2.
Qed.

Lemma allowed_core m w c : inv w -> (forall c, c ∈ cores_tbl m -> (c < NCPU)%nat) -> c ∈ cores_tbl m -> exists s, state w !! c = Some s.
Proof. intros [_ _ L] Hm Hc. apply lookup_lt_is_Some. rewrite L. by apply Hm. Qed.

Section Calls.
Context (m : machine) (Hm : forall c, c ∈ cores_tbl m -> (c < NCPU)%nat).

Lemma sched_run_on_core_ok e p c w : inv w -> is_Some (procs w !! p) -> (length (ts w) < NCPU)%nat ->
  exists r w', sched_run_on_core m e p c w = Some (r, w') /\ inv w' /\
    ((r <> 0 /\ w' = w) \/ (r = 0 /\ c ∈ cores_tbl m /\ exists i, core_effect 1 c (Some (p, i)) w w')).
Proof.
  intros Hi [pr Hp] Hroom. unfold sched_run_on_core. rewrite Hp. cbn [mbind option_bind].
  destruct (idle_threads pr) as [|i0 l] eqn:El; [eexists _, w; split; [done|]; split; [done|by left]|].
  case_bool_decide as Hc; simpl; [|eexists _, w; split; [done|]; split; [done|by left]].
  destruct (sched_pick_kthread m pr c) as [i|] eqn:Ei; [|eexists _, w; split; [done|]; split; [done|by left]]. apply pick_idle in Ei.
  destruct (allowed_core m w c Hi Hm Hc) as [s Hs]. destruct (inv_held w c s Hi Hs) as [_ Hok].
  destruct (held_start w c s p pr i Hi Hs Hp Ei Hroom) as (w1 & w2 & E1 & E2 & H2 & F2). rewrite E1. cbn [mbind option_bind]. rewrite E2. cbn [mbind option_bind].
  destruct (sched_run_ok e (Some (p, i)) c s w2 H2) as (w3 & E3 & H3 & X1 & X2 & s' & X3 & X4); [by destruct F2 as (-> & _)|done|].
  eexists _, w3. split; [done|]. split; [done|]. right. split; [done|]. split; [done|]. exists i. destruct F2 as (G1 & G2 & G3).
  split; [congruence|]. split; [lia|]. exists s'. split; [congruence|done].
Qed.

Lemma sched_idle_on_core_ok e hint c w : inv w -> exists r w', sched_idle_on_core m e hint c w = Some (r, w') /\ inv w'.
Proof.
  intros Hi. unfold sched_idle_on_core. case_bool_decide as Hc; simpl; [|by eexists _, w].
  destruct (allowed_core m w c Hi Hm Hc) as [s Hs]. destruct (inv_held w c s Hi Hs) as [H Hok].
  destruct (sched_run_ok e None c s (emit (Khint c hint) w)) as (w3 & E3 & H3 & _); [by apply held_emit|done|done|]. by eexists _, w3.
Qed.

(** *** Hints to the kthread on a core *)

Lemma inv_update w c s t f : inv w -> state w !! c = Some s -> t ∈ slots_of s ->
  (forall th, active (f th) = active th /\ core (f th) = core th /\ at_idx (f th) = at_idx th /\ ts_idx (f th) = ts_idx th) ->
  exists w', update_thread f t w = Some w' /\ inv w'.
Proof.
  intros [B F L] Hs Ht Hf. destruct (slots_at 0 (state w) c s Hs) as (rest & H1 & _).
  destruct (update_thread_ok w _ [] t f B) as (w' & E & B' & (F1 & F2 & F3) & _); [|done|].
  - destruct (b_core _ _ _ B c t) as (th & -> & _); [|by eexists]. rewrite H1. apply elem_of_app. left. apply list_elem_of_fmap. by exists t.
  - exists w'. split; [done|]. split; rewrite F1; done.
Qed.
Lemma thread_on_core w c t : sched_get_thread_on_core c w = Some (Some t) -> exists s, state w !! c = Some s /\ t ∈ slots_of s.
Proof.
  unfold sched_get_thread_on_core. destruct (state w !! c) as [s|]; [|done]. cbn [mbind option_bind]. intros [= H]. exists s. split; [done|].
  unfold slots_of. rewrite !elem_of_app. destruct (pending s); rewrite H; [right; left|do 2 right]; left.
Qed.
Lemma get_thread_on_core w c : inv w -> (c < NCPU)%nat -> exists t, sched_get_thread_on_core c w = Some t.
Proof.
  intros [_ _ L] Hc. unfold sched_get_thread_on_core. destruct (lookup_lt_is_Some_2 (state w) c) as [s Hs]; [lia|]. rewrite Hs. by eexists.
Qed.

Lemma hints_ok p c w : inv w -> (c < NCPU)%nat ->
  (exists r w', sched_request_cooperative_cede c w = Some (r, w') /\ inv w') /\
  (exists r w', sched_cancel_cooperative_cede p c w = Some (r, w') /\ inv w') /\
  (exists r w', sched_yield_on_core c w = Some (r, w') /\ inv w').
Proof.
  intros Hi Hc. destruct (get_thread_on_core w c Hi Hc) as [t Ht].
  unfold sched_request_cooperative_cede, sched_cancel_cooperative_cede, sched_yield_on_core. rewrite Ht. cbn [mbind option_bind].
  destruct t as [t|]; [|split_and!; by eexists _, w]. destruct (thread_on_core w c t Ht) as (s & Hs & Hin). split_and!.
  - destruct (inv_update w c s t (fun th => th <| park_gen := wake_gen th |>) Hi Hs Hin) as (w' & E & H'); [done|]. rewrite E. by eexists _, w'.
  - destruct (t.1 =? p)%nat; cbn [negb]; [|by eexists _, w].
    destruct (inv_update w c s t (fun th => th <| park_gen := u64 (wake_gen th - 1) |>) Hi Hs Hin) as (w' & E & H'); [done|]. rewrite E. by eexists _, w'.
  - destruct (inv_update w c s t (fun th => th <| last_yield_rcu_gen := metrics_rcu_gen th |> <| yield_rcu_gen := metrics_rcu_gen th |>) Hi Hs Hin)
      as (w' & E & [B F L]); [done|].
    destruct (slots_at 0 (state w) c s Hs) as (rest & H1 & _). destruct (b_core _ _ _ (i_base _ Hi) c t) as (th & Hth & _).
    { rewrite H1. apply elem_of_app. left. apply list_elem_of_fmap. by exists t. }
    rewrite Hth. cbn [mbind option_bind]. destruct (_ =? _); [by eexists _, w|]. rewrite E. cbn [mbind option_bind]. eexists _, _. split; [done|].
    split; try done. by apply (base_ext w' _ _ _ [] [] B).
Qed.

(** *** The fast pass *)

Lemma switch_done_ok e c s w : held c s [] w -> core_ok s -> wait s = true ->
  exists s' w', switch_done e c s w = Some (s', w') /\ held c s' [] w' /\ core_ok s' /\ frame 0 w w' /\ on_core s' = on_core s.
Proof.
  intros H (C1 & C2 & C3) Ew. assert (idle s = false) as Ei by (destruct (idle s); [destruct (C3 eq_refl); congruence|done]). unfold switch_done.
  destruct (held_retire_opt e c (s <| last_th := None |>) [] w (last_th s)) as (w1 & E1 & H1 & F1).
  { apply (held_perm c s [] _ _ w H). perm_slots. }
  rewrite E1. cbn [mbind option_bind]. simpl. destruct (pending s) eqn:Ep.
  - assert (exists w2, match cur_th s with Some t => request_cede t w1 | None => Some w1 end = Some w2 /\ held c (s <| last_th := None |>) [] w2 /\ frame 0 w1 w2) as (w2 & E2 & H2 & F2).
    { destruct (cur_th s) as [t|] eqn:Ec; [|by exists w1]. unfold request_cede.
      destruct (held_update c _ [] w1 t (fun th => th <| cede_gen := wake_gen th |>) H1) as (w2 & E2 & H2 & F2); [|done|by exists w2].
      unfold slots_of. simpl. rewrite Ec, !elem_of_app. right. left. }
    rewrite E2. cbn [mbind option_bind]. eexists _, _. split; [done|]. split; [do 2 apply held_emit; apply (held_perm c _ _ _ _ w2 H2); perm_slots|].
    split; [split; simpl; [congruence|]; split; [done|]; congruence|]. split; [exact (frame_trans 0 0 _ _ _ F1 F2)|].
    unfold on_core. simpl. by rewrite Ep.
  - eexists _, _. split; [done|]. pose proof (C2 eq_refl) as Hpt. split; [apply (held_perm c _ _ _ _ w1 H1); perm_slots|].
    split; [split; simpl; [done|]; split; [done|]; congruence|]. split; [exact F1|]. unfold on_core. simpl. by rewrite Ep.
Qed.

Lemma held_thread c s x w t : held c s x w -> t ∈ x ++ slots_of s -> exists th, thread_at t w = Some th /\ core th = Z.of_nat c.
Proof.
  intros (Hc & L & F & rest & H2 & B) Ht. apply (b_core _ _ _ B). rewrite (assoc app), <- fmap_app. apply elem_of_app. left.
  apply list_elem_of_fmap. by exists t.
Qed.

Lemma poll_core_ok e c s w : inv w -> state w !! c = Some s -> exists b w', poll_core e c w = Some (b, w') /\ inv w' /\
  core_effect 0 c (if b : bool then None else on_core s) w w'.
Proof.
  intros Hi Hs.
  destruct (inv_held w c s Hi Hs) as [H Hok]. unfold poll_core. rewrite Hs. cbn [mbind option_bind].
  assert (exists s1 w1, (if wait s && run_done e c then switch_done e c s w else Some (s, w)) = Some (s1, w1) /\ held c s1 [] w1 /\ core_ok s1 /\
    frame 0 w w1 /\ on_core s1 = on_core s) as (s1 & w1 & E1 & H1 & Hok1 & F1 & O1).
  { destruct (wait s) eqn:Ew; simpl; [|by eexists _, _]. destruct (run_done e c); [by apply switch_done_ok|by eexists _, _]. }
  rewrite E1. cbn [mbind option_bind]. destruct (negb (wait s1) && negb (idle s1) && core_idle e c) eqn:Ex.
  2: { eexists _, _. split; [done|]. split; [by apply held_set|by apply frame_set_core]. }
  apply andb_true_iff in Ex as [[Ew Eid]%andb_true_iff _]. apply negb_true_iff in Ew, Eid.
  destruct Hok1 as (C1 & C2 & C3). destruct (C1 Ew) as [El Ep]. pose proof (C2 Ep) as Ept.
  assert (on_core s = cur_th s1) as O2 by (rewrite <- O1; unfold on_core; by rewrite Ep).
  destruct (cur_th s1) as [t|] eqn:Ec.
  2: { eexists _, _. split; [done|]. split; [apply held_set; [apply (held_perm c s1 [] _ _ w1 H1); perm_slots|by split]|].
       apply frame_set_core; [done|]. unfold on_core. simpl. by rewrite Ep. }
  assert (t ∈ slots_of s1) as Hin by (unfold slots_of; rewrite Ec, !elem_of_app; do 2 right; left).
  destruct (held_thread c s1 [] w1 t H1 Hin) as (th & Hth & Hcore).
  assert (exists b, sched_try_fast_rewake e t w1 = Some b) as [b Eb].
  { unfold sched_try_fast_rewake. unfold thread_at in Hth. destruct (procs w1 !! t.1); [|done]. simpl in *. rewrite Hth. by eexists. }
  rewrite Eb. cbn [mbind option_bind]. destruct b.
  - rewrite Hth. cbn [mbind option_bind]. rewrite Hcore, Nat2Z.id. cbv zeta.
    assert (state (set_core c s1 (emit (Krun c (tid th)) w1)) !! c = Some s1) as -> by (simpl; apply list_lookup_insert_eq; by destruct H1).
    cbn [mbind option_bind]. eexists _, _. split; [done|]. rewrite set_core_twice.
    split; [|apply frame_set_core; [exact F1|rewrite O2; unfold on_core; simpl; by rewrite Ep]].
    apply (held_set c (s1 <| wait := true |>) (emit (Krun c (tid th)) w1)); [apply held_emit; apply (held_perm c s1 [] _ _ w1 H1); perm_slots|].
    split; simpl; [done|]. split; [done|]. congruence.
  - destruct (held_retire e c (s1 <| cur_th := None |>) [] w1 t) as (w2 & E2 & H2 & F2); [apply (held_perm c s1 [] _ _ w1 H1); perm_slots|].
    rewrite E2. cbn [mbind option_bind]. eexists _, _. split; [done|].
    split; [apply held_set; [apply (held_perm c _ [] _ _ w2 H2); perm_slots|by split]|].
    apply frame_set_core; [exact (frame_trans 0 0 _ _ _ F1 F2)|]. unfold on_core. simpl. by rewrite Ep.
Qed.

(** A core that is reported idle has no kthread, the others keep theirs. *)
Definition pass_effect (idles : list nat) (w w' : iok) : Prop :=
  clients w' = clients w /\ (length (ts w') <= length (ts w))%nat /\
  forall c s', state w' !! c = Some s' -> exists s, state w !! c = Some s /\ on_core s' = if decide (c ∈ idles) then None else on_core s.

Lemma fast_pass_ok e l w : inv w -> (forall c, c ∈ l -> (c < NCPU)%nat) -> NoDup l ->
  exists idles w', fast_pass e l w = Some (idles, w') /\ inv w' /\ pass_effect idles w w' /\ NoDup idles /\ (forall c, c ∈ idles -> c ∈ l).
Proof.
  revert w. induction l as [|c l IH]; intros w Hi Hl Hnd; cbn [fast_pass].
  { eexists [], w. split; [done|]. split; [done|]. split; [|split; [by apply NoDup_nil|done]]. split; [done|]. split; [done|].
    intros c s' Hs. exists s'. split; [done|]. by rewrite decide_False by apply not_elem_of_nil. }
  apply NoDup_cons in Hnd as [Hcl Hnd].
  destruct (lookup_lt_is_Some_2 (state w) c) as [s Hs]; [rewrite (i_ncpu _ Hi); apply Hl; left|].
  destruct (poll_core_ok e c s w Hi Hs) as (b & w1 & E1 & H1 & X1 & X2 & s1 & X3 & X4). rewrite E1. cbn [mbind option_bind].
  destruct (IH w1 H1 ltac:(intros c' Hc'; apply Hl; by right) Hnd) as (idles & w2 & E2 & H2 & (Y1 & Y2 & Y3) & Y4 & Y5).
  rewrite E2. cbn [mbind option_bind]. eexists _, w2. split; [done|]. split; [done|].
  assert (c ∉ idles) as Hci by (intros Hin; by apply Hcl, Y5).
  split; [|split; [by destruct b; [apply NoDup_cons|]|]].
  - split; [congruence|]. split; [lia|]. intros c' s' Hs'. destruct (Y3 c' s' Hs') as (s2 & Hs2 & O2). rewrite X3 in Hs2.
    destruct (decide (c' = c)) as [->|Hne].
    + rewrite list_lookup_insert_eq in Hs2 by (by eapply lookup_lt_Some). injection Hs2 as <-. exists s. split; [done|].
      rewrite O2, decide_False, X4 by done. destruct b; [by rewrite decide_True by left|by rewrite decide_False].
    + rewrite list_lookup_insert_ne in Hs2 by done. exists s2. split; [done|]. rewrite O2. destruct b; [|done].
      destruct (decide (c' ∈ idles)); [by rewrite decide_True by (by right)|]. rewrite decide_False; [done|]. rewrite elem_of_cons. tauto.
  - intros c'. destruct b; [|intros Hin; right; by apply Y5]. intros [->|Hin]%elem_of_cons; [left|right; by apply Y5].
Qed.
End Calls.

(** *** Clients *)

(** A process as the control plane hands it over. *)
Definition fresh_proc (pr : proc) : bool :=
  (ref pr =? 1) && (length (active_threads pr) =? NCPU)%nat && (thread_count pr <=? NCPU)%nat && (length (flow_tbl pr) =? NCPU)%nat &&
  forallb (fun th => bool_decide (ts_idx th = None)) (threads pr).
Lemma fresh_proc_spec pr : fresh_proc pr = true -> ref pr = 1 /\
  (length (active_threads pr) = NCPU /\ (thread_count pr <= NCPU)%nat /\ length (flow_tbl pr) = NCPU) /\
  Forall (fun th => ts_idx th = None) (threads pr).
Proof.
  unfold fresh_proc. rewrite !andb_true_iff, Z.eqb_eq, !Nat.eqb_eq, Nat.leb_le. intros ((((H1 & H2) & H3) & H4) & H5). split_and!; try done.
  apply Forall_forall. intros th Hth. rewrite forallb_forall in H5. by apply list_elem_of_In, H5, bool_decide_eq_true in Hth.
Qed.

Lemma attach_ok m pr w pr' w' : fresh_proc pr = true -> sched_attach_proc m pr w = (Some pr', w') ->
  proc_ok pr' /\ ref pr' = 1 /\ act pr' = [] /\ Forall (fun th => ts_idx th = None) (threads pr') /\
  procs w' = procs w /\ ts w' = ts w /\ clients w' = clients w /\ state w' = state w.
Proof.
  intros (F1 & (F2 & F3 & F4) & F5)%fresh_proc_spec. unfold sched_attach_proc. destruct (_ >? _); [done|]. intros [= <- <-]. split_and!; simpl; try done.
  - unfold thread_count in *. split; simpl; unfold act, thread_count; simpl; rewrite ?length_fmap, ?length_insert; try done; try lia.
    + apply reverse_Permutation.
    + intros i Hi. rewrite elem_of_reverse in Hi. apply elem_of_seq in Hi. rewrite list_lookup_fmap.
      destruct (lookup_lt_is_Some_2 (threads pr) i) as [th Hth]; [lia|]. rewrite Hth. simpl. by eexists.
  - apply Forall_fmap. by apply (Forall_impl _ _ _ F5).
Qed.

Lemma base_add w sl ex p pr : base w sl ex -> procs w !! p = None -> proc_ok pr -> ref pr = 1 -> act pr = [] ->
  Forall (fun th => ts_idx th = None) (threads pr) ->
  base (w <| procs := <[p := pr]> (procs w) |> <| clients := clients w ++ [p] |>) sl ex.
Proof.
  intros B Hp Hok Href Ha Hts. assert (p ∉ holders w sl ex) as Hnot by (intros Hin; destruct (b_alive _ _ _ B p Hin); congruence).
  assert (p ∉ (ts w).*1 /\ p ∉ (sl.*2).*1 /\ p ∉ clients w) as (Hn1 & Hn2 & Hn3) by (unfold holders in Hnot; rewrite !not_elem_of_app in Hnot; tauto).
  destruct B as [B1 B2 B3 B4 B5 B6 B7 B8].
  set (w' := w <| procs := _ |> <| clients := _ |>).
  assert (procs w' = <[p := pr]> (procs w) /\ ts w' = ts w /\ clients w' = clients w ++ [p]) as (Ep & Et & Ec) by done.
  assert (holders w' sl ex ≡ₚ p :: holders w sl ex) as Eh.
  { unfold holders. rewrite Et, Ec. rewrite <- (assoc app). simpl. by rewrite <- Permutation_middle. }
  assert (forall t, thread_at t w' = if decide (t.1 = p) then threads pr !! t.2 else thread_at t w) as Ht.
  { intros t. unfold thread_at. rewrite Ep. case_decide as E; [rewrite E; by rewrite lookup_insert_eq|by rewrite lookup_insert_ne]. }
  clearbody w'. split; rewrite ?Ep, ?Et, ?Ec; try done.
  - intros q qr. rewrite (cnt_perm _ _ _ Eh), cnt_cons. destruct (decide (q = p)) as [->|Hne].
    + rewrite lookup_insert_eq. intros [= <-]. rewrite decide_True by done. split; [done|]. rewrite Href. split; [lia|].
      assert (cnt p (holders w sl ex) = 0); [|lia]. pose proof (cnt_nonneg p (holders w sl ex)). pose proof (cnt_pos p (holders w sl ex)).
      destruct (decide (0 < cnt p (holders w sl ex))); [tauto|lia].
    + rewrite lookup_insert_ne by done. rewrite decide_False by congruence. rewrite Z.add_0_l. apply B1.
  - intros q. rewrite Eh. intros [->|Hin]%elem_of_cons; [rewrite lookup_insert_eq; by eexists|].
    rewrite lookup_insert_ne; [by apply B2|]. by intros ->.
  - intros q i qr. destruct (decide (q = p)) as [->|Hne]; [|rewrite lookup_insert_ne by done; apply B4].
    rewrite lookup_insert_eq. intros [= <-]. rewrite Ha. split; [by intros ?%not_elem_of_nil|].
    intros Hin. destruct Hn2. apply list_elem_of_fmap. by exists (p, i).
  - intros c t Hin. rewrite Ht. rewrite decide_False; [by apply B5|]. intros <-. apply Hn2, list_elem_of_fmap. exists t. split; [done|].
    apply list_elem_of_fmap. by exists (c, t).
  - intros k t Hk. rewrite Ht. rewrite decide_False; [by apply B6|]. intros <-. apply Hn1, list_elem_of_fmap. exists t. split; [done|]. by eapply list_elem_of_lookup_2.
  - intros t th k. rewrite Ht. case_decide; [|by apply B7]. intros Hth Hk. pose proof (Forall_lookup_1 _ _ _ _ Hts Hth) as E. simpl in E. congruence.
  - rewrite (comm app). by apply NoDup_cons.
Qed.

Lemma base_drop_client w sl ex p l : base w sl ex -> p :: l ≡ₚ clients w -> base (w <| clients := l |>) sl (p :: ex).
Proof.
  intros [B1 B2 B3 B4 B5 B6 B7 B8] Hl. set (w' := w <| clients := l |>).
  assert (holders w' sl (p :: ex) ≡ₚ holders w sl ex) as Eh.
  { unfold holders. simpl. rewrite <- Hl. simpl. by rewrite <- !Permutation_middle. }
  split; simpl; try done.
  - intros q qr Hq. rewrite (cnt_perm _ _ _ Eh). by apply B1.
  - intros q. rewrite Eh. apply B2.
  - rewrite <- Hl in B8. by apply NoDup_cons in B8 as [_ ?].
Qed.

Lemma remove_client_ok p w : inv w -> exists w', dp_clients_remove_client p w = Some w' /\ inv w'.
Proof.
  intros [B F L]. unfold dp_clients_remove_client. destruct (list_find _ (clients w)) as [[i q]|] eqn:Ef; [|by exists w].
  apply list_find_Some in Ef as (Hi & -> & _). assert (is_Some (procs w !! p)) as [pr Hp].
  { apply (b_alive _ _ _ B). unfold holders. apply elem_of_app. left. by eapply list_elem_of_lookup_2. }
  rewrite Hp. cbn [mbind option_bind].
  pose proof (base_neutral w _ [] p pr (pr <| kill := true |>) B Hp) as B1.
  assert (base (w <| procs := <[p := pr <| kill := true |>]> (procs w) |>) (slots w) []) as B2.
  { apply B1. split; try done. apply (proc_ok_fields pr _ true _ _ _). }
  pose proof (base_drop_client _ _ [] p (swap_remove i (clients w)) B2 (swap_remove_perm _ _ _ Hi)) as B3.
  match goal with |- context [proc_put p ?x] => set (w2 := x) end.
  destruct (proc_put_ok w2 (slots w) [] p) as (w' & E & B' & (F1 & F2 & F3) & _); [by apply (base_ext _ w2 _ _ _ _ B3)|].
  exists w'. split; [done|]. change (state w2) with (state w) in F1. split; rewrite F1; done.
Qed.

(** The new client, before its address is in the table. *)
Definition with_client (p : nat) (pr : proc) (w : iok) : iok :=
  w <| procs := <[p := pr <| kill := false |>]> (procs w) |> <| clients := clients w ++ [p] |>.
Lemma with_client_ok m p pr pr' w w1 : inv w -> procs w !! p = None -> fresh_proc pr = true -> sched_attach_proc m pr w = (Some pr', w1) ->
  forall t, inv (with_client p pr' w1) /\ inv (with_client p pr' w1 <| ip_to_proc := t |>).
Proof.
  intros [B F L] Hp Hf Ea t. destruct (attach_ok m pr w pr' w1 Hf Ea) as (H1 & H2 & H3 & H4 & E1 & E2 & E3 & E4).
  pose proof (base_add w _ [] p (pr' <| kill := false |>) B Hp) as B2.
  split; (split; [|by simpl; rewrite E4|by simpl; rewrite E4]); (eapply (base_ext _ _ _ _ [] []); [apply B2; try done; by apply (proc_ok_fields pr' _ false _ _ _)|..]);
    simpl; by rewrite ?E1, ?E2, ?E3, ?E4.
Qed.

Lemma add_client_ok m hok mok p pr w : inv w -> procs w !! p = None -> fresh_proc pr = true ->
  exists w', dp_clients_add_client m hok mok p pr w = Some w' /\ inv w'.
Proof.
  intros Hi Hp Hf. unfold dp_clients_add_client. destruct (sched_attach_proc m pr w) as [[pr'|] w1] eqn:Ea.
  - cbv zeta. fold (with_client p pr' w1). pose proof (with_client_ok m p pr pr' w w1 Hi Hp Hf Ea) as H. destruct (H ∅) as [H0 _].
    destruct (ip_to_proc _ !! _); [by apply remove_client_ok|]. destruct hok; [|by apply remove_client_ok].
    destruct (has_directpath pr'), mok; cbn [negb andb]; try (apply remove_client_ok, H); eexists; (split; [done|apply H]).
  - unfold sched_attach_proc in Ea. destruct (_ >? _); [|done]. injection Ea as <-. by exists w.
Qed.

(** ** Executions *)

(** What the policies, the data path and the control plane do; [Unpoll] is the
    data path that finds the queue of an inactive kthread empty. *)
Inductive call :=
| RunOn (e : env) (p c : nat) | IdleOn (e : env) (hint : Z) (c : nat)
| Cede (c : nat) | CancelCede (p c : nat) | YieldOn (c : nat)
| Poll (e : env) | Unpoll (t : tref) | AddClient (hash_ok mem_ok : bool) (p : nat) (pr : proc) | RemoveClient (p : nat) | Clock (tsc : Z).

Definition exists_proc (p : nat) (w : iok) : bool := match procs w !! p with Some _ => true | None => false end.
Definition allowed (a : call) (w : iok) : bool :=
  match a with
  | RunOn _ p _ => exists_proc p w && (length (ts w) <? NCPU)%nat
  | Cede c | CancelCede _ c | YieldOn c => (c <? NCPU)%nat
  | Unpoll t => bool_decide (t ∈ ts w)
  | AddClient _ _ p pr => negb (exists_proc p w) && fresh_proc pr
  | _ => true
  end.
Definition perform (m : machine) (a : call) (w : iok) : option iok :=
  match a with
  | RunOn e p c => snd <$> sched_run_on_core m e p c w
  | IdleOn e hint c => snd <$> sched_idle_on_core m e hint c w
  | Cede c => snd <$> sched_request_cooperative_cede c w
  | CancelCede p c => snd <$> sched_cancel_cooperative_cede p c w
  | YieldOn c => snd <$> sched_yield_on_core c w
  | Poll e => snd <$> fast_pass e (cores_tbl m) w
  | Unpoll t => unpoll_thread t w
  | AddClient hok mok p pr => dp_clients_add_client m hok mok p pr w
  | RemoveClient p => dp_clients_remove_client p w
  | Clock tsc => Some (w <| cur_tsc := tsc |>)
  end.

Definition iok_init : iok := Iok ∅ (replicate NCPU (CoreState None None None false false false)) [] ∅ [] 0 0 [].
Inductive reachable (m : machine) : iok -> Prop :=
| Start : reachable m iok_init
| Call a w w' : reachable m w -> allowed a w = true -> perform m a w = Some w' -> reachable m w'.

Lemma slots_init c n : slots_from c (replicate n (CoreState None None None false false false)) = [].
Proof. revert c. induction n as [|n IH]; intros c; simpl; [done|]. apply IH. Qed.
Lemma iok_init_inv : inv iok_init.
Proof.
  split; [|by apply Forall_replicate|apply length_replicate]. assert (slots iok_init = []) as -> by apply slots_init. split; simpl; try done.
  - by intros p Hp%not_elem_of_nil.
  - by apply NoDup_nil.
  - by intros c t Ht%not_elem_of_nil.
  - by apply NoDup_nil.
Qed.

Lemma perform_inv m a w : (forall c, c ∈ cores_tbl m -> (c < NCPU)%nat) -> NoDup (cores_tbl m) -> inv w -> allowed a w = true -> exists w', perform m a w = Some w' /\ inv w'.
Proof.
  intros Hm Hnd Hi Ha. destruct a as [e p c|e hint c|c|p c|c|e|t|hok mok p pr|p|tsc]; simpl in *.
  - apply andb_true_iff in Ha as [Hp Hroom%Nat.ltb_lt]. unfold exists_proc in Hp.
    assert (is_Some (procs w !! p)) as Hs by (destruct (procs w !! p); [by eexists|done]).
    destruct (sched_run_on_core_ok m Hm e p c w Hi Hs Hroom) as (r & w' & -> & H & _). by exists w'.
  - destruct (sched_idle_on_core_ok m Hm e hint c w Hi) as (r & w' & -> & H). by exists w'.
  - destruct (hints_ok 0 c w Hi ltac:(by apply Nat.ltb_lt)) as ((r & w' & -> & H) & _). by exists w'.
  - destruct (hints_ok p c w Hi ltac:(by apply Nat.ltb_lt)) as (_ & (r & w' & -> & H) & _). by exists w'.
  - destruct (hints_ok 0 c w Hi ltac:(by apply Nat.ltb_lt)) as (_ & _ & (r & w' & -> & H)). by exists w'.
  - destruct (fast_pass_ok e (cores_tbl m) w Hi Hm Hnd) as (l & w' & -> & H & _). by exists w'.
  - destruct Hi as [B F L]. apply bool_decide_eq_true, list_elem_of_lookup in Ha as [k Hk]. destruct (b_ts _ _ _ B k t Hk) as (th & Hth & _).
    destruct (unpoll_thread_ok w _ [] t B) as (w' & E & B' & (F1 & F2 & F3)); [by eexists|]. exists w'. split; [done|]. split; rewrite F1; done.
  - apply andb_true_iff in Ha as [Hp Hf]. apply add_client_ok; [done| |done]. unfold exists_proc in Hp. by destruct (procs w !! p).
  - by apply remove_client_ok.
  - eexists. split; [done|]. destruct Hi as [B F L]. split; try done. by apply (base_ext w _ _ _ [] [] B).
Qed.
Lemma reachable_ok m w : (forall c, c ∈ cores_tbl m -> (c < NCPU)%nat) -> NoDup (cores_tbl m) -> reachable m w -> inv w.
Proof.
  intros Hm Hnd. induction 1 as [|a w w' _ IH Ha E]; [apply iok_init_inv|]. destruct (perform_inv m a w Hm Hnd IH Ha) as (w2 & E2 & H2). congruence.
Qed.

Lemma active_act pr i th : proc_ok pr -> threads pr !! i = Some th -> active th = true <-> i ∈ act pr.
Proof.
  intros Hok Hth. pose proof Hok as [P1 _ _ P4 P5 _]. split.
  - intros Ha. assert (i ∈ act pr ++ idle_threads pr) as [?|Hi]%elem_of_app; [|done|].
    + rewrite P1. apply elem_of_seq. apply lookup_lt_Some in Hth. unfold thread_count. lia.
    + destruct (P5 i Hi) as (th' & E & E2). congruence.
  - intros [k Hk]%list_elem_of_lookup. destruct (P4 k i Hk) as (th' & E & E2 & _). congruence.
Qed.

(** C23: whatever the policy asks for, in any order with the polls, the arrivals and the
    departures of processes, where a kthread is started only while fewer than [NCPU]
    kthreads are polled (there is no room in [ts] for more): no request fails; a kthread
    is active exactly when one core has it as its current, its next or its last kthread,
    and no two places have the same kthread; a process has as many references as there are
    such places, polled queues and client entries for it, so none of these refers to a
    process that was released; and the flows of a process without directpath go to active
    kthreads, an active kthread's own flow to itself. *)
Theorem iosched_ownership m w : (forall c, c ∈ cores_tbl m -> (c < NCPU)%nat) -> NoDup (cores_tbl m) -> reachable m w ->
  (forall a, allowed a w = true -> is_Some (perform m a w)) /\
  NoDup (slots w).*2 /\
  (forall p pr, procs w !! p = Some pr ->
    ref pr = cnt p (clients w ++ (ts w).*1 ++ ((slots w).*2).*1) /\
    (forall i th, threads pr !! i = Some th -> active th = true <-> (p, i) ∈ (slots w).*2) /\
    (has_directpath pr = false -> act pr <> [] -> steered (thread_count pr) (act pr) (flow_tbl pr))) /\
  (forall p, p ∈ clients w ++ (ts w).*1 ++ ((slots w).*2).*1 -> is_Some (procs w !! p)).
Proof.
  intros Hm Hnd Hr. pose proof (reachable_ok m w Hm Hnd Hr) as Hi. split; [intros a Ha; destruct (perform_inv m a w Hm Hnd Hi Ha) as (w' & -> & _); by eexists|].
  destruct Hi as [[B1 B2 B3 B4 B5 B6 B7 B8] F L]. unfold holders in B1, B2. rewrite app_nil_r in B1, B2. split; [done|]. split; [|done].
  intros p pr Hp. destruct (B1 p pr Hp) as (Hok & _ & Href). split; [done|]. split; [|apply Hok].
  intros i th Hth. rewrite (active_act pr i th Hok Hth). by apply B4.
Qed.

Fixpoint run (m : machine) (l : list call) (w : iok) : option iok :=
  match l with [] => Some w | a :: l => if allowed a w then w ← perform m a w; run m l w else None end.
Lemma io_run_reachable m l w w' : reachable m w -> run m l w = Some w' -> reachable m w'.
Proof.
  revert w. induction l as [|a l IH]; intros w Hr; simpl; [by intros [= <-]|]. destruct (allowed a w) eqn:Ea; [|done].
  destruct (perform m a w) as [w1|] eqn:E; [|done]. cbn [mbind option_bind]. apply IH. by apply (Call m a w).
Qed.

(** Two cores and two processes: both ask for core 2 while it is still switching,
    then one of them leaves while its kthread runs. *)
Definition demo_thread (n : Z) : thread := Thread false n 0 0 0 None 0 0 0 0 0 0 0 0.
Definition demo_proc (ip : Z) (l : list Z) : proc :=
  Proc 1 ip false false false false 0 (replicate NCPU 0) (demo_thread <$> l) 0 (replicate NCPU 0%nat) [] 0.
Definition demo_machine : machine := Machine [2; 3]%nat (fun c => if (c =? 2)%nat then 3%nat else 2%nat) false.
Definition demo_env (done : bool) : env := Env (fun _ => done) (fun _ => false) (fun _ => true) (fun _ => false).
Definition demo_calls : list call :=
  [AddClient true true 7 (demo_proc 17 [70; 71]%Z); AddClient true true 8 (demo_proc 18 [80]%Z); RunOn (demo_env true) 7 2; RunOn (demo_env true) 8 2;
   RunOn (demo_env true) 7 3; Poll (demo_env true); RemoveClient 8; Cede 3; Poll (demo_env true)]%nat.
Definition demo_view (w : iok) : list (nat * tref) * list kcmd * list tref * list nat * option Z * option Z :=
  (slots w, kcmds w, ts w, clients w, ref <$> procs w !! 7%nat, ref <$> procs w !! 8%nat).
Lemma iosched_ownership_witness : exists w, run demo_machine demo_calls iok_init = Some w /\
  Some (demo_view w) =
    Some ([(2, (8, 0)); (3, (7, 1))]%nat, [Krun 2 70; Krun 3 71; Kintr_cede 2; Krun 2 80], [(7, 1); (8, 0)]%nat, [7%nat], Some 3, Some 2) /\
  (forall p, p ∈ clients w ++ (ts w).*1 ++ ((slots w).*2).*1 -> is_Some (procs w !! p)).
Proof.
  destruct (run demo_machine demo_calls iok_init) as [w|] eqn:E; [|vm_compute in E; discriminate E].
  exists w. split; [done|]. split.
  - transitivity (demo_view <$> run demo_machine demo_calls iok_init); [by rewrite E|]. vm_compute. reflexivity.
  - apply (iosched_ownership demo_machine w).
    + intros c Hc. unfold demo_machine in Hc. simpl in Hc. unfold NCPU. set_unfold in Hc. lia.
    + by apply (bool_decide_unpack (NoDup [2; 3]%nat)).
    + by apply (io_run_reachable demo_machine demo_calls iok_init); [apply Start|].
Defined.
