(* ===== verification/IoDelay.v ===== *)
(** * I/O kernel: measuring delays

    Models the slow pass of [sched_poll] in [iokernel/sched.c], with [hwq_busy] of
    [iokernel/defs.h]: what the I/O kernel reads of the queues of a kthread, the
    signals it computes from them (work, standing queue, delay) and when it stops
    polling an idle process.  What it reads is an argument, as are the time stamps of
    the network device and the direct path of VFIO.  Delays are exact whole numbers
    of cycles; the report of the load to the runtime, in floating point, is left out. *)

From S2P Require Import Prelude StdDef IoSched IoOwn.

Definition UINT64_MAX : Z := 2 ^ 64 - 1.
Definition IOKERNEL_POLL_INTERVAL : Z := 10.
Definition DIRECTPATH_TOTAL_RX_EL : Z := 65536 / 1024 * 32.
Definition DIRECTPATH_STRIDE_REFILL_THRESH_HI : Z := DIRECTPATH_TOTAL_RX_EL * 3 / 4.

(** ** Hardware queues *)

Inductive hwq_kind := HWQ_INVALID | HWQ_MLX5 | HWQ_MLX5_QSTEER | HWQ_SPDK_NVME.
#[global] Instance hwq_kind_eq : EqDecision hwq_kind.
Proof. solve_decision. Defined.

(** [struct hwq], and what the I/O kernel sees of the queue: the consumer's index, the
    bytes of the descriptor table, and the age in microseconds of the completion at an
    offset of the table, from the time stamps of the device. *)
Record hwq := Hwq {
  enabled : bool; descriptor_log_size : Z; nr_descriptors : Z; parity_byte_offset : Z; parity_bit_mask : Z;
  hwq_type : hwq_kind; last_tail : Z; last_head : Z; busy_since : Z }.
#[global] Instance eta_hwq : Settable hwq := fun r =>
  Hwq (enabled r) (descriptor_log_size r) (nr_descriptors r) (parity_byte_offset r) (parity_bit_mask r) (hwq_type r) (last_tail r) (last_head r) (busy_since r).
Record hwview := HwView { consumer_idx : Z; descriptor_table : Z -> Z; hw_timestamp_delay_us : Z -> Z }.

Definition hwq_busy (h : hwq) (table : Z -> Z) (cq_idx : Z) : bool :=
  let idx := Z.land cq_idx (u32 (nr_descriptors h - 1)) in
  let parity := negb (Z.land cq_idx (nr_descriptors h) =? 0) in
  let hd_parity := negb (Z.land (table (u32 (Z.shiftl idx (descriptor_log_size h)) + parity_byte_offset h)) (parity_bit_mask h) =? 0) in
  Bool.eqb parity hd_parity.

Fixpoint find_head_loop (n : nat) (h : hwq) (table : Z -> Z) (start i : Z) : Z :=
  match n with
  | O => i
  | S n => if negb (hwq_busy h table (u32 (start + i))) then i else find_head_loop n h table start (i + 1)
  end.
Definition hwq_find_head (h : hwq) (table : Z -> Z) (cur_tail last_head : Z) : Z :=
  let start_idx := if wraps_lt cur_tail last_head then last_head else cur_tail in
  let nr_desc := u32 (nr_descriptors h - u32 (start_idx - cur_tail)) in
  u32 (find_head_loop (Z.to_nat nr_desc) h table start_idx 0 + start_idx).

(** ** Signals *)

Section Measure.
Context (tsc cycles_per_us : Z).
(** Whether the time stamps of the device are in use. *)
Context (hw_timestamp_enabled : bool).

Definition sched_measure_mlx5_delay (h : hwq) (v : hwview) : Z :=
  let cur_tail := consumer_idx v in
  if negb (hwq_busy h (descriptor_table v) cur_tail) then 0
  else u64 (hw_timestamp_delay_us v (u32 (Z.shiftl (Z.land cur_tail (u32 (nr_descriptors h - 1))) (descriptor_log_size h))) * cycles_per_us).
Definition sched_queue_has_hw_timestamp (h : hwq) : bool :=
  hw_timestamp_enabled && (bool_decide (hwq_type h = HWQ_MLX5) || bool_decide (hwq_type h = HWQ_MLX5_QSTEER)).

(** The variables that a measurement adds to. *)
Record signals := Signals { has_work : bool; standing : bool; delay_cycles : Z }.

Definition sched_measure_hardware_delay (h : hwq) (v : hwview) (update_pointers : bool) (sg : signals) : hwq * signals :=
  if negb (enabled h) then (h, sg)
  else if sched_queue_has_hw_timestamp h then
    let delay := sched_measure_mlx5_delay h v in
    if delay =? 0 then (h, sg)
    else (h, Signals true (standing sg || (delay >=? IOKERNEL_POLL_INTERVAL * cycles_per_us)) delay)
  else
    let prev_head := last_head h in
    let prev_tail := last_tail h in
    let cur_tail := consumer_idx v in
    let cur_head := hwq_find_head h (descriptor_table v) cur_tail prev_head in
    let h := if update_pointers then h <| last_tail := cur_tail |> <| last_head := cur_head |> else h in
    if cur_head =? cur_tail then (h <| busy_since := UINT64_MAX |>, sg)
    else
      let h := if negb (cur_tail =? prev_tail) || (busy_since h =? UINT64_MAX) then h <| busy_since := tsc |> else h in
      (h, Signals true (standing sg || wraps_lt cur_tail prev_head) (u64 (tsc - busy_since h))).

Definition calc_delay_tsc (t : Z) : Z := tsc - Z.min t tsc.

(** The fields of [struct thread] for the measurement, and what it reads of the
    kthread: the queues in [q_ptrs], the channel [rxq] and the two hardware queues. *)
Record meters := Meters {
  last_rq_head : Z; last_rq_tail : Z; last_rxq_head : Z; last_rxq_tail : Z; rxq_busy_since : Z;
  directpath_hwq : hwq; storage_hwq : hwq; uthread_elapsed_us : Z; rcu_gen_seen : Z; work_pending : bool }.
#[global] Instance eta_meters : Settable meters := fun r =>
  Meters (last_rq_head r) (last_rq_tail r) (last_rxq_head r) (last_rxq_tail r) (rxq_busy_since r) (directpath_hwq r) (storage_hwq r)
    (uthread_elapsed_us r) (rcu_gen_seen r) (work_pending r).
Record reading := Reading {
  rq_head : Z; rq_tail : Z; oldest_tsc : Z; send_head : Z; send_tail : Z; next_timer_tsc : Z;
  rcu_gen : Z; run_start_tsc : Z; strides_consumed : Z; directpath_view : hwview; storage_view : hwview }.

Definition sched_update_kthread_metrics (q : reading) (work : bool) (th : meters) : meters :=
  let elapsed := if Z.land (u32 (rcu_gen q)) 1 =? 0 then 0 else u32 (tsc - Z.min (run_start_tsc q) tsc) in
  th <| uthread_elapsed_us := elapsed / cycles_per_us |> <| rcu_gen_seen := u32 (rcu_gen q) |> <| work_pending := work |>.

(** [sched_measure_kthread_delay], queue by queue. *)
Definition measure_uthreads (q : reading) (th : meters) (sg : signals) : meters * signals :=
  let busy := negb (rq_head q =? rq_tail q) in
  (th <| last_rq_head := rq_head q |> <| last_rq_tail := rq_tail q |>,
   Signals (has_work sg || busy) (standing sg || wraps_lt (rq_tail q) (last_rq_head th))
     (if busy then u64 (delay_cycles sg + calc_delay_tsc (oldest_tsc q)) else delay_cycles sg)).
Definition measure_rxq (q : reading) (th : meters) (sg : signals) : meters * signals :=
  let busy := negb (send_head q =? send_tail q) in
  let since := if negb busy then UINT64_MAX
               else if negb (send_tail q =? last_rxq_tail th) || (rxq_busy_since th =? UINT64_MAX) then tsc else rxq_busy_since th in
  (th <| last_rxq_head := send_head q |> <| last_rxq_tail := send_tail q |> <| rxq_busy_since := since |>,
   Signals (has_work sg || busy) (standing sg || wraps_lt (send_tail q) (last_rxq_head th)) (u64 (delay_cycles sg + calc_delay_tsc since))).
Definition measure_timers (q : reading) (sg : signals) : signals :=
  let t := next_timer_tsc q in
  let due := t <=? tsc in
  Signals (has_work sg || due) (standing sg || (due && (u64 (t + IOKERNEL_POLL_INTERVAL * cycles_per_us) <? tsc)))
    (u64 (delay_cycles sg + calc_delay_tsc t)).
(** A hardware queue whose delay is added to that of the kthread. *)
Definition measure_hwq (h : hwq) (v : hwview) (sg : signals) : hwq * signals :=
  let '(h, s) := sched_measure_hardware_delay h v true (Signals (has_work sg) (standing sg) 0) in
  (h, Signals (has_work s) (standing s) (u64 (delay_cycles sg + delay_cycles s))).
Definition measure_directpath (q : reading) (th : meters) (sg : signals) (rxq_delay : Z) : meters * signals * Z :=
  let h := directpath_hwq th in
  if bool_decide (hwq_type h = HWQ_MLX5_QSTEER) then
    let '(h, s) := sched_measure_hardware_delay h (directpath_view q) true (Signals false false rxq_delay) in
    (th <| directpath_hwq := h |>, sg, delay_cycles s)
  else
    let '(h, sg) := measure_hwq h (directpath_view q) sg in
    (th <| directpath_hwq := h |>, sg, rxq_delay).
Definition sched_measure_kthread_delay (q : reading) (th : meters) (st : bool) (rxq_delay : Z) : meters * signals * Z :=
  let '(th, sg) := measure_uthreads q th (Signals false st 0) in
  let '(th, sg) := measure_rxq q th sg in
  let sg := measure_timers q sg in
  let '(th, sg, rxq_delay) := measure_directpath q th sg rxq_delay in
  let '(h, sg) := measure_hwq (storage_hwq th) (storage_view q) sg in
  (th <| storage_hwq := h |>, sg, rxq_delay).

(** ** A process *)

(** [struct delay_info] before the conversion to microseconds; [sum_delay] is the sum
    that [avg_delay_us] is computed from. *)
Record delays := Delays {
  d_has_work : bool; d_standing : bool; d_parked_busy : bool; max_delay : Z; min_delay : Z; min_delay_core : option Z; sum_delay : Z }.
#[global] Instance eta_delays : Settable delays := fun r =>
  Delays (d_has_work r) (d_standing r) (d_parked_busy r) (max_delay r) (min_delay r) (min_delay_core r) (sum_delay r).

(** The local variables of [sched_measure_delay]. *)
Record tally := Tally { dl : delays; rxq_delay : Z; consumed_strides : Z; next_poll_tsc : Z }.

Definition sched_proc_can_unpoll (p : proc) : bool := started p && (negb (has_directpath p) || has_vfio_directpath p).

(** One kthread of the loop; [th] and [mt] are the two parts of its [struct thread]. *)
Definition measure_thread (p : proc) (q : reading) (th : thread) (mt : meters) (a : tally) : thread * meters * tally :=
  if negb (th_next_poll th <=? tsc) then (th, mt, Tally (dl a) (rxq_delay a) (consumed_strides a) (Z.min (next_poll_tsc a) (th_next_poll th)))
  else
    let '(mt, sg, rxq) := sched_measure_kthread_delay q mt (d_standing (dl a)) (rxq_delay a) in
    let busy := has_work sg in
    let delay := delay_cycles sg in
    let consumed := if active th then u64 (consumed_strides a + strides_consumed q) else consumed_strides a in
    let least := active th && (delay <? min_delay (dl a)) in
    let d := Delays (d_has_work (dl a) || busy) (standing sg) (d_parked_busy (dl a) || (busy && negb (active th))) (Z.max delay (max_delay (dl a)))
               (if least then delay else min_delay (dl a)) (if least then Some (core th) else min_delay_core (dl a)) (sum_delay (dl a) + delay) in
    let mt := sched_update_kthread_metrics q busy mt in
    let th := th <| metrics_rcu_gen := rcu_gen_seen mt |> in
    if negb (active th) && negb busy && sched_proc_can_unpoll p
    then (th <| th_next_poll := next_timer_tsc q |>, mt, Tally d rxq consumed (Z.min (next_poll_tsc a) (next_timer_tsc q)))
    else (th, mt, Tally d rxq consumed (next_poll_tsc a)).
Fixpoint measure_threads (p : proc) (qs : nat -> reading) (i : nat) (ths : list thread) (mts : list meters) (a : tally) {struct ths} :
  option (list thread * list meters * tally) :=
  match ths with
  | [] => Some ([], [], a)
  | th :: ths =>
      match mts with
      | [] => None
      | mt :: mts =>
          let '(th, mt, a) := measure_thread p (qs i) th mt a in
          '(ths, mts, a) ← measure_threads p qs (S i) ths mts a;
          Some (th :: ths, mt :: mts, a)
      end
  end.

(** What is read of the process: the strides in [runtime_info], and the answer of
    [directpath_poll_proc] with the delay it leaves. *)
Record proc_reading := ProcReading { posted : Z; consumed : Z; directpath_poll : Z -> bool * Z }.

(** The signals of the direct path, after the kthreads. *)
Definition add_rxq_delay (n rxq : Z) (d : delays) : delays :=
  if rxq =? 0 then d
  else Delays true (d_standing d || (rxq >=? IOKERNEL_POLL_INTERVAL * cycles_per_us)) (d_parked_busy d || (n =? 0))
         (max_delay d + rxq) (min_delay d + rxq) (min_delay_core d) (sum_delay d + rxq * n).

(** [sched_measure_delay] up to the notification of the policy: the process and its
    meters, whether the runtime is asked to post buffers, and the delays. *)
Definition sched_measure_delay (noidlefastwake : bool) (r : proc_reading) (qs : nat -> reading) (p : proc) (mts : list meters) :
  option (proc * list meters * bool * option delays) :=
  if negb (p_next_poll p <=? tsc) then Some (p, mts, false, None)
  else
    '(ths, mts, a) ← measure_threads p qs 0 (threads p) mts (Tally (Delays false false false 0 UINT64_MAX None 0) 0 (consumed r) UINT64_MAX);
    let p := p <| threads := ths |> in
    let '(armed, rxq) := if has_vfio_directpath p then directpath_poll r (rxq_delay a) else (true, rxq_delay a) in
    let refill := negb (posted r =? 0) && (u64 (posted r - consumed_strides a) <? DIRECTPATH_STRIDE_REFILL_THRESH_HI) in
    let n := Z.of_nat (active_thread_count p) in
    let d := add_rxq_delay n rxq (dl a) in
    let p := if (n =? 0) && negb (d_has_work d) && armed && sched_proc_can_unpoll p then p <| p_next_poll := next_poll_tsc a |> else p in
    let d := if noidlefastwake && (n =? 0) then d <| d_parked_busy := false |> else d in
    Some (p, mts, refill, Some d).

(** The parts of [struct delay_info] that the policy uses; a delay is its integral
    part, which decides comparisons with whole numbers. *)
Record delay_info := DelayInfo { standing_queue : bool; parked_thread_busy : bool; max_delay_us : Z }.
Definition delay_info_of (d : delays) : delay_info := DelayInfo (d_standing d) (d_parked_busy d) (max_delay d / cycles_per_us).

(** [sched_detect_io_for_idle_runtime]: whether a direct-path queue has work. *)
Fixpoint sched_detect_io_for_idle_runtime (qs : nat -> reading) (i : nat) (mts : list meters) : list meters * bool :=
  match mts with
  | [] => ([], false)
  | mt :: mts =>
      let '(h, sg) := sched_measure_hardware_delay (directpath_hwq mt) (directpath_view (qs i)) false (Signals false false 0) in
      let mt := mt <| directpath_hwq := h |> in
      if has_work sg then (mt :: mts, true)
      else let '(mts, b) := sched_detect_io_for_idle_runtime qs (S i) mts in (mt :: mts, b)
  end.
End Measure.

(** ** The head of a hardware queue

    Positions in the queue are unbounded numbers here.  The device has written the
    completions of all positions below [H]; each slot has the phase bit of the last
    position that was written to it, the pass over the ring that it belongs to. *)

Definition phase (h : hwq) (table : Z -> Z) (slot : Z) : bool :=
  negb (Z.land (table (u32 (Z.shiftl slot (descriptor_log_size h)) + parity_byte_offset h)) (parity_bit_mask h) =? 0).
Definition completions (h : hwq) (table : Z -> Z) (k H : Z) : Prop :=
  forall j, H - 2 ^ k <= j < H -> phase h table (j mod 2 ^ k) = Z.testbit j k.

Section Head.
Context (h : hwq) (table : Z -> Z) (k T H : Z).
Context (Hk : 0 <= k <= 30) (Hnr : nr_descriptors h = 2 ^ k) (HT : T <= H <= T + 2 ^ k) (HC : completions h table k H).

Lemma ring_size : 0 < 2 ^ k <= 2 ^ 30.
Proof using Hk. split; [lia|]. apply Z.pow_le_mono_r; lia. Qed.

Lemma hwq_busy_spec j : T <= j < T + 2 ^ k -> hwq_busy h table (u32 j) = (j <? H).
Proof using Hk Hnr HT HC.
  intros Hj. pose proof ring_size as Hr. unfold hwq_busy. rewrite Hnr, (u32_small (2 ^ k - 1)) by (unfold is_u32; lia).
  rewrite land_pred_pow2, land_pow2_ne0, negb_involutive, u32_testbit, u32_mod_pow2 by lia. fold (phase h table (j mod 2 ^ k)).
  destruct (j <? H) eqn:E.
  - rewrite (HC j) by lia. by destruct (Z.testbit j k).
  - assert (phase h table (j mod 2 ^ k) = Z.testbit (j - 2 ^ k) k) as ->.
    { rewrite <- (HC (j - 2 ^ k)) by lia. f_equal. rewrite <- (Z_mod_plus_full j (-1) (2 ^ k)). f_equal; lia. }
    replace j with (j - 2 ^ k + 2 ^ k) at 1 by lia. rewrite testbit_add_pow2 by lia. by destruct (Z.testbit (j - 2 ^ k) k).
Qed.

Lemma find_head_loop_spec n S i : T <= S -> 0 <= i -> S + i <= H -> H - S - i <= Z.of_nat n -> S + i + Z.of_nat n <= T + 2 ^ k ->
  find_head_loop n h table (u32 S) i = H - S.
Proof using Hk Hnr HT HC.
  revert i. induction n as [|n IH]; intros i HS Hi Hle Hn Hr; cbn [find_head_loop]; [lia|].
  rewrite u32_add_l, hwq_busy_spec by lia. destruct (S + i <? H) eqn:E; cbn [negb]; [apply IH; lia|lia].
Qed.

(** Scanning from the head of the last measurement, if that is ahead of the tail,
    finds the head. *)
Lemma hwq_find_head_spec L : L <= H -> T - L < 2 ^ 31 -> hwq_find_head h table (u32 T) (u32 L) = u32 H.
Proof using Hk Hnr HT HC.
  intros HL Hd. pose proof ring_size as Hr. unfold hwq_find_head. rewrite wraps_lt_counters by lia.
  assert (exists S, (if T <? L then u32 L else u32 T) = u32 S /\ T <= S <= H) as (S & -> & HS) by (destruct (T <? L) eqn:E; [exists L|exists T]; split; [done|lia|done|lia]).
  rewrite u32_diff, Hnr, (u32_small (2 ^ k - (S - T))) by (unfold is_u32; lia).
  rewrite (find_head_loop_spec _ S 0) by lia. rewrite u32_add_r. f_equal. lia.
Qed.
End Head.

(** ** The signals of a kthread *)

(** A queue with free-running counters: entries from position [T] to [H] are in it, and
    [L] was its head at the last measurement. *)
Definition counter_view (tail head last T H L : Z) : Prop :=
  tail = u32 T /\ head = u32 H /\ last = u32 L /\ T <= H < T + 2 ^ 31 /\ L <= H /\ T - L < 2 ^ 31.
Lemma counter_signals tail head last T H L : counter_view tail head last T H L ->
  negb (head =? tail) = (T <? H) /\ wraps_lt tail last = (T <? L).
Proof.
  intros (-> & -> & -> & HT & HL & Hd). rewrite wraps_lt_counters by lia. split; [|done]. destruct (T <? H) eqn:E.
  - apply negb_true_iff, Z.eqb_neq. intros Heq. assert (u32 (u32 H - u32 T) = 0) as H0 by (rewrite Heq, Z.sub_diag; done). rewrite u32_diff in H0; lia.
  - replace T with H by lia. by rewrite Z.eqb_refl.
Qed.

Section Signals.
Context (tsc cycles_per_us : Z) (hw_timestamp_enabled : bool).
Abbreviation hardware_delay := (sched_measure_hardware_delay tsc cycles_per_us hw_timestamp_enabled).
Abbreviation kthread_delay := (sched_measure_kthread_delay tsc cycles_per_us hw_timestamp_enabled).

(** The same for a hardware queue that is scanned; one that is not in use is empty. *)
Definition hw_view (h : hwq) (v : hwview) (T H L : Z) : Prop :=
  if enabled h then
    sched_queue_has_hw_timestamp hw_timestamp_enabled h = false /\ consumer_idx v = u32 T /\ last_head h = u32 L /\ L <= H /\ T - L < 2 ^ 31 /\
    exists k, 0 <= k <= 30 /\ nr_descriptors h = 2 ^ k /\ T <= H <= T + 2 ^ k /\ completions h (descriptor_table v) k H
  else T = H /\ L = H.

Lemma hardware_signals h v T H L sg : hw_view h v T H L -> exists h' d,
  hardware_delay h v true sg = (h', Signals (has_work sg || (T <? H)) (standing sg || (T <? L)) d) /\
  (enabled h = true -> enabled h' = true /\ last_head h' = u32 H /\ last_tail h' = u32 T).
Proof.
  unfold hw_view, sched_measure_hardware_delay. destruct (enabled h) eqn:He; cbn [negb].
  2: { intros [-> ->]. exists h, (delay_cycles sg). rewrite Z.ltb_irrefl, !orb_false_r. by destruct sg. }
  intros (-> & -> & -> & HL & Hd & k & Hk & Hnr & HT & HC). rewrite (hwq_find_head_spec h _ k T H) by done. cbv zeta.
  pose proof (ring_size k Hk) as Hr. assert (u32 H = u32 T <-> T = H) as Hiff.
  { split; [|by intros ->]. intros Heq. assert (u32 (u32 H - u32 T) = 0) as H0 by (by rewrite Heq, Z.sub_diag). rewrite u32_diff in H0; lia. }
  destruct (u32 H =? u32 T) eqn:E.
  - apply Z.eqb_eq, Hiff in E as ->. eexists _, (delay_cycles sg). rewrite Z.ltb_irrefl. replace (H <? L) with false by lia. rewrite !orb_false_r.
    split; [by destruct sg|done].
  - apply Z.eqb_neq in E. replace (T <? H) with true by lia. rewrite orb_true_r, wraps_lt_counters by lia.
    eexists _, _. split; [done|]. by destruct (_ || _).
Qed.
Lemma measure_hwq_signals h v T H L sg : hw_view h v T H L -> exists h' d,
  measure_hwq tsc cycles_per_us hw_timestamp_enabled h v sg = (h', Signals (has_work sg || (T <? H)) (standing sg || (T <? L)) d) /\
  (enabled h = true -> enabled h' = true /\ last_head h' = u32 H /\ last_tail h' = u32 T).
Proof.
  intros Hv. unfold measure_hwq. destruct (hardware_signals h v T H L (Signals (has_work sg) (standing sg) 0) Hv) as (h' & d & -> & Hp).
  exists h'. eexists. split; [done|exact Hp].
Qed.

(** A kthread without work has no delay. *)
Definition idle_is_prompt (sg : signals) : Prop := has_work sg = false -> delay_cycles sg = 0.
Lemma calc_delay_future t : tsc <= t -> calc_delay_tsc tsc t = 0.
Proof. unfold calc_delay_tsc. lia. Qed.
Lemma prompt_add b b' st x y : (b = false -> x = 0) -> (b' = false -> y = 0) -> idle_is_prompt (Signals (b || b') st (u64 (x + y))).
Proof. unfold idle_is_prompt. simpl. intros Hx Hy [H1 H2]%orb_false_iff. by rewrite (Hx H1), (Hy H2). Qed.
Lemma measure_hwq_prompt h v sg h' sg' : idle_is_prompt sg -> measure_hwq tsc cycles_per_us hw_timestamp_enabled h v sg = (h', sg') -> idle_is_prompt sg'.
Proof.
  unfold idle_is_prompt, measure_hwq, sched_measure_hardware_delay. intros Hp. cbv zeta. cbn [has_work standing].
  destruct (negb (enabled h)); [intros [= <- <-]; simpl; intros H; by rewrite (Hp H)|]. destruct (sched_queue_has_hw_timestamp _ h).
  - destruct (_ =? 0); intros [= <- <-]; simpl; [intros H; by rewrite (Hp H)|done].
  - destruct (hwq_find_head _ _ _ _ =? _); intros [= <- <-]; simpl; [intros H; by rewrite (Hp H)|done].
Qed.
Lemma kthread_prompt q mt st rxq mt' sg rxq' : tsc <= UINT64_MAX -> kthread_delay q mt st rxq = (mt', sg, rxq') -> idle_is_prompt sg.
Proof.
  intros Hmax. unfold sched_measure_kthread_delay, measure_uthreads, measure_rxq, measure_timers, measure_directpath. cbn [has_work standing delay_cycles]. cbv zeta.
  match goal with |- context [measure_hwq _ _ _ (directpath_hwq ?x) _ ?y] => set (mt1 := x); set (sg1 := y) end. intros E.
  assert (idle_is_prompt sg1) as H1.
  { apply prompt_add; [|intros H; apply calc_delay_future; lia]. apply (prompt_add _ _ true).
    - simpl. intros H. by rewrite H.
    - intros H. rewrite H. by apply calc_delay_future. }
  destruct (bool_decide _); [destruct (hardware_delay _ _ _ _) as [h3 s3]|destruct (measure_hwq _ _ _ (directpath_hwq mt1) _ sg1) as [h3 s3] eqn:E3];
    destruct (measure_hwq _ _ _ (storage_hwq _) _ _) as [h4 s4] eqn:E4; injection E as <- <- <-; refine (measure_hwq_prompt _ _ _ _ _ _ E4); [done|].
  by apply (measure_hwq_prompt _ _ _ _ _ H1 E3).
Qed.

(** The signals of a kthread mean what they say, whatever the wrap-around of the
    counters and of the rings of the devices: it has work exactly when one of its
    queues has an entry or a timer is due; there is a standing queue exactly when an
    entry that was queued at the last measurement is still there, or a timer is
    overdue by a whole interval; it is delayed only when it has work; and the heads are
    kept for the next measurement. *)
Theorem kthread_signals_exact q mt st rxq T1 H1 L1 T2 H2 L2 T3 H3 L3 T4 H4 L4 :
  counter_view (rq_tail q) (rq_head q) (last_rq_head mt) T1 H1 L1 ->
  counter_view (send_tail q) (send_head q) (last_rxq_head mt) T2 H2 L2 ->
  hw_view (directpath_hwq mt) (directpath_view q) T3 H3 L3 -> hwq_type (directpath_hwq mt) <> HWQ_MLX5_QSTEER ->
  hw_view (storage_hwq mt) (storage_view q) T4 H4 L4 ->
  0 <= next_timer_tsc q -> 0 <= cycles_per_us -> tsc + IOKERNEL_POLL_INTERVAL * cycles_per_us < 2 ^ 64 ->
  exists mt' sg, kthread_delay q mt st rxq = (mt', sg, rxq) /\
    (has_work sg = true <-> T1 < H1 \/ T2 < H2 \/ T3 < H3 \/ T4 < H4 \/ next_timer_tsc q <= tsc) /\
    (standing sg = true <-> st = true \/ T1 < L1 \/ T2 < L2 \/ T3 < L3 \/ T4 < L4 \/ next_timer_tsc q + IOKERNEL_POLL_INTERVAL * cycles_per_us < tsc) /\
    (has_work sg = false -> delay_cycles sg = 0) /\
    last_rq_head mt' = u32 H1 /\ last_rxq_head mt' = u32 H2 /\
    (enabled (directpath_hwq mt) = true -> last_head (directpath_hwq mt') = u32 H3) /\
    (enabled (storage_hwq mt) = true -> last_head (storage_hwq mt') = u32 H4).
Proof.
  intros V1 V2 V3 Hty V4 Ht Hcy Hov.
  pose proof (fun mt' sg rxq' => kthread_prompt q mt st rxq mt' sg rxq' ltac:(unfold UINT64_MAX, IOKERNEL_POLL_INTERVAL in *; lia)) as Hprompt.
  revert Hprompt. destruct (counter_signals _ _ _ _ _ _ V1) as [S1 S1'], (counter_signals _ _ _ _ _ _ V2) as [S2 S2'].
  unfold sched_measure_kthread_delay, measure_uthreads, measure_rxq, measure_timers, measure_directpath. cbn [has_work standing delay_cycles].
  cbn [last_rxq_head]. change (last_rxq_head (mt <| last_rq_head := rq_head q |> <| last_rq_tail := rq_tail q |>)) with (last_rxq_head mt).
  rewrite S1, S1', S2, S2'. cbv zeta.
  match goal with |- context [directpath_hwq ?x] => change (directpath_hwq x) with (directpath_hwq mt) end.
  rewrite bool_decide_false by done.
  match goal with |- context [measure_hwq _ _ _ (directpath_hwq mt) _ ?x] => set (sg := x) end.
  destruct (measure_hwq_signals _ _ T3 H3 L3 sg V3) as (h3 & d3 & -> & P3).
  match goal with |- context [storage_hwq ?x] => change (storage_hwq x) with (storage_hwq mt) end.
  match goal with |- context [measure_hwq _ _ _ (storage_hwq mt) _ ?x] => set (sg2 := x) end.
  destruct (measure_hwq_signals _ _ T4 H4 L4 sg2 V4) as (h4 & d4 & -> & P4).
  intros Hprompt. specialize (Hprompt _ _ _ eq_refl). eexists _, _. split; [done|]. revert Hprompt. unfold idle_is_prompt.
  cbn [has_work standing delay_cycles]. unfold sg2, sg. cbn [has_work standing]. intros Hprompt.
  destruct V1 as (_ & E1 & _), V2 as (_ & E2 & _). rewrite !orb_true_iff, andb_true_iff, !Z.ltb_lt, Z.leb_le.
  split; [intuition done|]. split; [|split; [done|split; [done|split; [done|split; intros He; [by apply P3|by apply P4]]]]].
  assert (next_timer_tsc q <= tsc -> u64 (next_timer_tsc q + IOKERNEL_POLL_INTERVAL * cycles_per_us) = next_timer_tsc q + IOKERNEL_POLL_INTERVAL * cycles_per_us) as Hu.
  { intros Hle. apply u64_small. unfold is_u64, IOKERNEL_POLL_INTERVAL in *. lia. }
  assert (next_timer_tsc q + IOKERNEL_POLL_INTERVAL * cycles_per_us < tsc -> next_timer_tsc q <= tsc) by (unfold IOKERNEL_POLL_INTERVAL; lia).
  split; [|naive_solver lia].
  intros [[[[[?|?]|?]|[Hle Hlt]]|?]|?]; try tauto. rewrite (Hu Hle) in Hlt. tauto.
Qed.

(** ** Processes that are not polled *)

Definition nothing_queued (q : reading) : Prop := rq_head q = rq_tail q /\ send_head q = send_tail q /\ tsc < next_timer_tsc q.

Lemma hardware_work h v b sg : has_work sg = true -> has_work (hardware_delay h v b sg).2 = true.
Proof.
  intros Hw. unfold sched_measure_hardware_delay. destruct (negb (enabled h)); [done|]. destruct (sched_queue_has_hw_timestamp _ h).
  - cbv zeta. by destruct (_ =? 0).
  - cbv zeta. by destruct (_ =? _).
Qed.
Lemma measure_hwq_work h v sg h' sg' : measure_hwq tsc cycles_per_us hw_timestamp_enabled h v sg = (h', sg') ->
  has_work sg' = false -> has_work sg = false.
Proof.
  unfold measure_hwq. pose proof (hardware_work h v true (Signals (has_work sg) (standing sg) 0)) as Hw. destruct (hardware_delay _ _ _ _) as [h2 s2].
  intros [= <- <-] H. simpl in *. destruct (has_work sg); [|done]. by rewrite Hw in H.
Qed.
Lemma kthread_no_work q mt st rxq mt' sg rxq' : kthread_delay q mt st rxq = (mt', sg, rxq') -> has_work sg = false -> nothing_queued q.
Proof.
  unfold sched_measure_kthread_delay, measure_uthreads, measure_rxq, measure_timers, measure_directpath. cbn [has_work standing delay_cycles]. cbv zeta.
  match goal with |- context [measure_hwq _ _ _ (directpath_hwq ?x) _ ?y] => set (mt1 := x); set (sg1 := y) end. intros E Hw.
  assert (has_work sg1 = false) as H1.
  { destruct (bool_decide _); [destruct (hardware_delay _ _ _ _) as [h3 s3]|destruct (measure_hwq _ _ _ (directpath_hwq mt1) _ sg1) as [h3 s3] eqn:E3];
      destruct (measure_hwq _ _ _ (storage_hwq _) _ _) as [h4 s4] eqn:E4; injection E as <- <- <-; apply measure_hwq_work in E4; try done.
    by apply measure_hwq_work in E3. }
  unfold sg1 in H1. cbn [has_work] in H1. rewrite !orb_false_iff, !negb_false_iff, !Z.eqb_eq, Z.leb_gt in H1. unfold nothing_queued. tauto.
Qed.

(** Until when a kthread needs no look: it was not looked at, or nothing is queued. *)
Definition quiet_until (q : reading) (th th' : thread) : Prop :=
  (th' = th /\ tsc < th_next_poll th) \/ (th_next_poll th' = next_timer_tsc q /\ nothing_queued q).
Abbreviation measure_one := (measure_thread tsc cycles_per_us hw_timestamp_enabled).
Abbreviation measure_all := (measure_threads tsc cycles_per_us hw_timestamp_enabled).

Lemma measure_thread_ok p q th mt a th' mt' a' : measure_one p q th mt a = (th', mt', a') ->
  next_poll_tsc a' <= next_poll_tsc a /\ (d_has_work (dl a') = false -> d_has_work (dl a) = false) /\
  (active th = false -> sched_proc_can_unpoll p = true -> d_has_work (dl a') = false -> next_poll_tsc a' <= th_next_poll th' /\ quiet_until q th th').
Proof.
  unfold measure_thread. destruct (th_next_poll th <=? tsc) eqn:En; cbn [negb].
  2: { intros [= <- <- <-]. cbn [next_poll_tsc dl]. split; [lia|]. split; [done|]. intros _ _ _. split; [lia|]. left. split; [done|lia]. }
  destruct (kthread_delay q mt _ _) as [[mt1 sg] rx] eqn:Ek. cbv zeta.
  change (active (th <| metrics_rcu_gen := _ |>)) with (active th).
  destruct (negb (active th) && negb (has_work sg) && sched_proc_can_unpoll p) eqn:Ec; intros [= <- <- <-]; cbn [next_poll_tsc dl d_has_work]; rewrite orb_false_iff.
  - rewrite !andb_true_iff, !negb_true_iff in Ec. destruct Ec as [[_ Hw] _]. split; [lia|]. split; [tauto|]. intros _ _ _.
    split; [cbn; lia|]. right. split; [done|]. by apply (kthread_no_work _ _ _ _ _ _ _ Ek).
  - split; [lia|]. split; [tauto|]. intros Ha Hu [_ Hw]. by rewrite Ha, Hu, Hw in Ec.
Qed.
Lemma measure_threads_ok p qs k ths mts a ths' mts' a' : measure_all p qs k ths mts a = Some (ths', mts', a') ->
  next_poll_tsc a' <= next_poll_tsc a /\ (d_has_work (dl a') = false -> d_has_work (dl a) = false) /\
  forall i th, ths !! i = Some th -> active th = false -> sched_proc_can_unpoll p = true -> d_has_work (dl a') = false ->
    exists th', ths' !! i = Some th' /\ next_poll_tsc a' <= th_next_poll th' /\ quiet_until (qs (k + i)%nat) th th'.
Proof.
  revert k mts a ths' mts'. induction ths as [|th ths IH]; intros k mts a ths' mts'; cbn [measure_threads].
  { intros [= <- <- <-]. by split; [lia|split]. }
  destruct mts as [|mt mts]; [done|]. destruct (measure_one p (qs k) th mt a) as [[th1 mt1] a1] eqn:E1.
  destruct (measure_all p qs (S k) ths mts a1) as [[[ths2 mts2] a2]|] eqn:E2; cbn [mbind option_bind]; [|done]. intros [= <- <- <-].
  destruct (measure_thread_ok _ _ _ _ _ _ _ _ E1) as (H1 & H2 & H3). destruct (IH _ _ _ _ _ E2) as (I1 & I2 & I3). split; [lia|]. split; [tauto|].
  intros [|i] t Ht Ha Hu Hw; [|replace (k + S i)%nat with (S k + i)%nat by lia; by apply (I3 i t)].
  injection Ht as ->. destruct (H3 Ha Hu (I2 Hw)) as [H4 H5]. exists th1. rewrite Nat.add_0_r. split_and!; [done|lia|done].
Qed.

(** A process whose polling is put off has no active kthread, and until then none
    of its kthreads needs a look: each one either was put off for at least as long
    before, or has nothing in its queues now and no timer before then. *)
Theorem deferral_safe noidle r qs p mts p' mts' refill d : proc_ok p ->
  sched_measure_delay tsc cycles_per_us hw_timestamp_enabled noidle r qs p mts = Some (p', mts', refill, Some d) ->
  tsc < p_next_poll p' ->
  active_thread_count p = 0%nat /\ d_has_work d = false /\
  forall i th, threads p !! i = Some th -> exists th', threads p' !! i = Some th' /\
    p_next_poll p' <= th_next_poll th' /\ quiet_until (qs i) th th'.
Proof.
  intros Hok. unfold sched_measure_delay. destruct (p_next_poll p <=? tsc) eqn:En; cbn [negb]; [|done].
  destruct (measure_all _ _ _ _ _ _) as [[[ths mts2] a]|] eqn:Em; cbn [mbind option_bind]; [|done]. cbv zeta.
  match goal with |- context [let '(armed, rxq) := ?x in _] => destruct x as [armed rxq] end.
  set (d0 := add_rxq_delay _ _ _ _). change (active_thread_count (p <| threads := ths |>)) with (active_thread_count p).
  change (sched_proc_can_unpoll (p <| threads := ths |>)) with (sched_proc_can_unpoll p).
  intros E Hlater. injection E as Ep _ _ Ed.
  assert (d_has_work d = d_has_work d0) as Hd by (rewrite <- Ed; by destruct (noidle && _)).
  destruct (_ && negb (d_has_work d0) && armed && _) eqn:Ec in Ep; [|rewrite <- Ep in Hlater; simpl in Hlater; lia].
  rewrite !andb_true_iff, negb_true_iff, Z.eqb_eq in Ec. destruct Ec as [[[Hn Hw] _] Hu]. assert (active_thread_count p = 0%nat) as Hn0 by lia.
  split; [done|]. split; [congruence|]. assert (d_has_work (dl a) = false) as Hwa.
  { unfold d0, add_rxq_delay in Hw. destruct (rxq =? 0); [done|]. done. }
  intros i th Hth. destruct (measure_threads_ok _ _ _ _ _ _ _ _ _ Em) as (_ & _ & H). assert (active th = false) as Ha.
  { destruct (active th) eqn:Ea; [|done]. apply (active_act p i th Hok Hth) in Ea. unfold act in Ea. rewrite Hn0 in Ea. by apply not_elem_of_nil in Ea. }
  destruct (H i th Hth Ha Hu Hwa) as (th' & H1 & H2 & H3). exists th'. rewrite <- Ep. done.
Qed.

(** ** What a measurement changes *)

(** The process is the same but for times to poll and metrics. *)
Definition sched_fields (th : thread) : bool * Z * nat * option nat := (active th, core th, at_idx th, ts_idx th).
Definition measured (p p' : proc) : Prop :=
  exists ths np, p' = p <| threads := ths |> <| p_next_poll := np |> /\ sched_fields <$> ths = sched_fields <$> threads p.

Lemma measure_threads_total p qs k ths mts a : length mts = length ths -> exists ths' mts' a',
  measure_all p qs k ths mts a = Some (ths', mts', a') /\ length mts' = length mts /\ sched_fields <$> ths' = sched_fields <$> ths.
Proof.
  revert k mts a. induction ths as [|th ths IH]; intros k mts a Hl; cbn [measure_threads].
  { destruct mts; [|done]. by exists [], [], a. }
  destruct mts as [|mt mts]; [done|]. simpl in Hl. destruct (measure_one p (qs k) th mt a) as [[th1 mt1] a1] eqn:E1.
  destruct (IH (S k) mts a1 ltac:(lia)) as (ths' & mts' & a' & -> & H1 & H2). cbn [mbind option_bind]. eexists _, _, _. split; [done|].
  split; [simpl; lia|]. rewrite !fmap_cons, H2. f_equal. unfold measure_thread in E1.
  destruct (negb (th_next_poll th <=? tsc)); [by injection E1 as <- _ _|]. destruct (kthread_delay _ _ _ _) as [[mt2 sg] rx]. cbv zeta in E1.
  destruct (negb _ && _ && _); by injection E1 as <- _ _.
Qed.
Lemma measure_total noidle r qs p mts : length mts = thread_count p -> exists p' mts' refill d,
  sched_measure_delay tsc cycles_per_us hw_timestamp_enabled noidle r qs p mts = Some (p', mts', refill, d) /\ length mts' = length mts /\ measured p p'.
Proof.
  intros Hl. unfold sched_measure_delay. destruct (negb _).
  { eexists p, mts, _, _. split; [done|]. split; [done|]. exists (threads p), (p_next_poll p). split; [by destruct p|done]. }
  destruct (measure_threads_total p qs 0 (threads p) mts (Tally (Delays false false false 0 UINT64_MAX None 0) 0 (consumed r) UINT64_MAX) Hl) as (ths & mts' & a & -> & H1 & H2).
  cbn [mbind option_bind]. cbv zeta. match goal with |- context [let '(armed, rxq) := ?x in _] => destruct x as [armed rxq] end.
  eexists _, _, _, _. split; [done|]. split; [done|]. destruct (_ && armed && _); [by eexists ths, _|]. exists ths, (p_next_poll p). split; [by destruct p|done].
Qed.
End Signals.

Lemma detect_length tsc cyc hw qs k mts : length (sched_detect_io_for_idle_runtime tsc cyc hw qs k mts).1 = length mts.
Proof.
  revert k. induction mts as [|mt mts IH]; intros k; [done|]. cbn [sched_detect_io_for_idle_runtime]. destruct (sched_measure_hardware_delay _ _ _ _ _ _ _) as [h sg].
  cbv zeta. destruct (has_work sg); [done|]. specialize (IH (S k)). destruct (sched_detect_io_for_idle_runtime _ _ _ _ _ mts) as [mts' b]. simpl in *. lia.
Qed.

Lemma sched_fields_lookup (ths ths' : list thread) i th : sched_fields <$> ths' = sched_fields <$> ths -> ths !! i = Some th -> exists th', ths' !! i = Some th' /\ sched_fields th' = sched_fields th.
Proof.
  intros E Hi. apply (f_equal (fun l => l !! i)) in E. rewrite !list_lookup_fmap, Hi in E. destruct (ths' !! i) as [th'|]; [|done]. exists th'. split; [done|]. change (Some (sched_fields th') = Some (sched_fields th)) in E. by apply (inj Some) in E.
Qed.
Lemma measured_count p p' : measured p p' -> thread_count p' = thread_count p.
Proof. intros (ths & np & -> & E). unfold thread_count. simpl. by rewrite <- (length_fmap sched_fields ths), E, length_fmap. Qed.
Lemma measured_neutral p p' : measured p p' -> neutral p p'.
Proof.
  intros Hm. pose proof (measured_count p p' Hm) as Hc. destruct Hm as (ths & np & -> & E). split; try done.
  - intros [H1 H2 H3 H4 H5 H6]. split; try done.
    + rewrite Hc. exact H1.
    + rewrite Hc. done.
    + intros k i Hk. destruct (H4 k i Hk) as (th & Hth & Ha & Hi). destruct (sched_fields_lookup _ _ i th E Hth) as (th' & Hth' & Ef).
      exists th'. unfold sched_fields in Ef. split; [done|]. split; congruence.
    + intros i Hi. destruct (H5 i Hi) as (th & Hth & Ha). destruct (sched_fields_lookup _ _ i th E Hth) as (th' & Hth' & Ef).
      exists th'. unfold sched_fields in Ef. split; [done|congruence].
    + rewrite Hc. exact H6.
  - simpl. apply (f_equal (fmap (fun x : bool * Z * nat * option nat => (x.2, x.1.1.2)))) in E. by rewrite <- !list_fmap_compose in E.
Qed.

(** ** Witnesses *)

(** A kthread whose run queue wraps around and holds an entry of the last measurement,
    with a completion in a direct-path ring of two descriptors. *)
Definition sample_off : hwq := Hwq false 0 1 0 1 HWQ_INVALID 0 0 UINT64_MAX.
Definition sample_ring : hwq := Hwq true 0 2 0 1 HWQ_SPDK_NVME 2 2 UINT64_MAX.
Definition sample_meters (h : hwq) : meters := Meters 0 (2 ^ 32 - 1) 0 0 UINT64_MAX h sample_off 0 0 false.
Definition sample_view : hwview := HwView 2 (fun a => if a =? 0 then 1 else 0) (fun _ => 0).
Definition sample_reading (head tail timer : Z) : reading := Reading head tail 990 0 0 timer 0 0 0 sample_view sample_view.

(** A process without a direct path whose two kthreads are parked, one of them put off
    before. *)
Definition sample_proc : proc :=
  demo_proc 17 [70; 71]%Z <| started := true |> <| idle_threads := [0; 1]%nat |>
    <| threads := [demo_thread 70; demo_thread 71 <| th_next_poll := 1500 |>] |>.
