(* ===== verification/IoClients.v ===== *)
(** * I/O kernel: what is promised to clients

    The guaranteed cores and the addresses of the clients of IoSched: requests to the
    scheduler leave both alone, [dp_clients_add_client] and
    [dp_clients_remove_client] account for them.  Also which cores a kthread can have
    as the one it ran on last. *)

From S2P Require Import Prelude StdDef IoSched IoOwn IoDelay.

(** ** Requests to the scheduler *)

Section Keeps.
Context (m : machine).

(** A kthread may get another core, an allowed one. *)
Definition proc_keeps (pr pr' : proc) : Prop :=
  (ip_addr pr' = ip_addr pr /\ guaranteed_cores pr' = guaranteed_cores pr /\ thread_count pr' = thread_count pr) /\
  forall i th', threads pr' !! i = Some th' ->
    (exists c, c ∈ cores_tbl m /\ core th' = Z.of_nat c) \/ exists th, threads pr !! i = Some th /\ core th' = core th.
Definition keeps (w w' : iok) : Prop :=
  (nr_guaranteed w' = nr_guaranteed w /\ ip_to_proc w' = ip_to_proc w /\ clients w' = clients w) /\
  forall p pr', procs w' !! p = Some pr' -> exists pr, procs w !! p = Some pr /\ proc_keeps pr pr'.

Lemma proc_keeps_threads pr pr' : ip_addr pr' = ip_addr pr -> guaranteed_cores pr' = guaranteed_cores pr -> threads pr' = threads pr -> proc_keeps pr pr'.
Proof. intros E1 E2 E3. unfold proc_keeps, thread_count. rewrite E3. split; [done|]. intros i th Hth. right. by exists th. Qed.
Lemma proc_keeps_insert pr pr' i th th' : threads pr !! i = Some th ->
  core th' = core th \/ (exists c, c ∈ cores_tbl m /\ core th' = Z.of_nat c) ->
  proc_keeps (pr <| threads := <[i := th']> (threads pr) |>) pr' -> proc_keeps pr pr'.
Proof.
  intros Hi Hc (E & H). unfold thread_count in E. simpl in E. rewrite length_insert in E. split; [done|]. intros k u Hu. destruct (H k u Hu) as [?|(v & Hv & Ev)]; [by left|]. simpl in Hv.
  destruct (decide (k = i)) as [->|Hne].
  - rewrite list_lookup_insert_eq in Hv by (by eapply lookup_lt_Some). injection Hv as <-.
    destruct Hc as [Hc|(c & Hc & Ec)]; [right; exists th; split; [done|congruence]|left; exists c; split; [done|congruence]].
  - rewrite list_lookup_insert_ne in Hv by done. right. by exists v.
Qed.

Lemma keeps_refl w : keeps w w.
Proof. split; [done|]. intros p pr Hp. exists pr. split; [done|]. by apply proc_keeps_threads. Qed.
Lemma keeps_trans w1 w2 w3 : keeps w1 w2 -> keeps w2 w3 -> keeps w1 w3.
Proof.
  intros ((A1 & A2 & A3) & A4) ((B1 & B2 & B3) & B4). split; [split_and!; congruence|]. intros p pr3 H3.
  destruct (B4 p pr3 H3) as (pr2 & H2 & ((E1 & E2 & E0) & E3)). destruct (A4 p pr2 H2) as (pr1 & H1 & ((D1 & D2 & D0) & D3)). exists pr1. split; [done|].
  split; [split_and!; congruence|]. intros i th Hth. destruct (E3 i th Hth) as [?|(u & Hu & Eu)]; [by left|].
  destruct (D3 i u Hu) as [(c & Hc & Ec)|(v & Hv & Ev)]; [left; exists c; split; [done|congruence]|right; exists v; split; [done|congruence]].
Qed.
(** Fields that [keeps] does not mention. *)
Lemma keeps_ext w w1 w2 : keeps w w1 -> procs w2 = procs w1 -> nr_guaranteed w2 = nr_guaranteed w1 -> ip_to_proc w2 = ip_to_proc w1 ->
  clients w2 = clients w1 -> keeps w w2.
Proof. intros ((A1 & A2 & A3) & A4) E1 E2 E3 E4. split; [split_and!; congruence|]. by rewrite E1. Qed.
Lemma keeps_procs p pr pr' w : procs w !! p = Some pr -> proc_keeps pr pr' -> keeps w (w <| procs := <[p := pr']> (procs w) |>).
Proof.
  intros Hp Hk. split; [done|]. intros q qr. simpl. destruct (decide (q = p)) as [->|Hne].
  - rewrite lookup_insert_eq. intros [= <-]. by exists pr.
  - rewrite lookup_insert_ne by done. intros Hq. exists qr. split; [done|]. by apply proc_keeps_threads.
Qed.

(** [H : (x ← e; k x) = Some w']: names the result of [e]. *)
Ltac bind_some H x E :=
  match type of H with context [mbind _ ?e] => destruct e as [x|] eqn:E; cbn [mbind option_bind] in H; [|done] end.

Lemma update_thread_keeps f t w w' : (forall th, core (f th) = core th) -> update_thread f t w = Some w' -> keeps w w'.
Proof.
  intros Hf H. unfold update_thread in H. bind_some H pr Hp. bind_some H th Hth. injection H as <-. apply (keeps_procs _ pr); [done|].
  apply (proc_keeps_insert pr _ t.2 th (f th)); [done|by left|]. by apply proc_keeps_threads.
Qed.
Lemma proc_get_keeps p w w' : proc_get p w = Some w' -> keeps w w'.
Proof. intros H. unfold proc_get in H. bind_some H pr Hp. destruct (_ >? _); [|done]. injection H as <-. apply (keeps_procs _ pr); [done|]. by apply proc_keeps_threads. Qed.
Lemma proc_put_keeps p w w' : proc_put p w = Some w' -> keeps w w'.
Proof.
  intros H. unfold proc_put in H. bind_some H pr Hp. destruct (_ =? _); injection H as <-.
  - split; [done|]. intros q qr. simpl. rewrite lookup_delete_Some. intros [_ Hq]. exists qr. split; [done|]. by apply proc_keeps_threads.
  - apply (keeps_procs _ pr); [done|]. by apply proc_keeps_threads.
Qed.
Lemma poll_thread_keeps t w w' : poll_thread t w = Some w' -> keeps w w'.
Proof.
  intros H. unfold poll_thread in H. bind_some H th Hth. destruct (ts_idx th); [injection H as <-; apply keeps_refl|].
  bind_some H w1 E1. destruct (negb _); [done|]. apply update_thread_keeps in H; [|done]. apply (keeps_trans _ w1); [by eapply proc_get_keeps|].
  apply (keeps_trans _ (w1 <| ts := ts w1 ++ [t] |>)); [by apply (keeps_ext _ w1); [apply keeps_refl|..]|done].
Qed.
Lemma unpoll_thread_keeps t w w' : unpoll_thread t w = Some w' -> keeps w w'.
Proof.
  intros H. unfold unpoll_thread in H. bind_some H th Hth. destruct (ts_idx th) as [k|]; [|injection H as <-; apply keeps_refl].
  bind_some H u Hu. bind_some H w1 E1. bind_some H w2 E2. apply update_thread_keeps in E1, E2; [|done..]. apply proc_put_keeps in H.
  apply (keeps_trans _ (w <| ts := swap_remove k (ts w) |>)); [by apply (keeps_ext _ w); [apply keeps_refl|..]|].
  by apply (keeps_trans _ w1), (keeps_trans _ w2).
Qed.

Lemma steer_keeps pr pr' : steer_unless_directpath pr = Some pr' -> ip_addr pr' = ip_addr pr /\ guaranteed_cores pr' = guaranteed_cores pr /\ threads pr' = threads pr.
Proof.
  unfold steer_unless_directpath, sched_steer_flows. intros H. destruct (has_directpath pr); [by injection H as <-|].
  destruct (_ =? _)%nat; [by injection H as <-|]. bind_some H tbl E. by injection H as <-.
Qed.
Lemma proc_enable_keeps tsc c i pr pr' : c ∈ cores_tbl m -> proc_enable tsc c i pr = Some pr' -> proc_keeps pr pr'.
Proof.
  intros Hc H. unfold proc_enable in H. bind_some H th Hth. cbv zeta in H. bind_some H pr1 E1. destruct (negb _); [done|].
  apply steer_keeps in H as (H1 & H2 & H3). unfold unlink_idle in E1. destruct (bool_decide _); [|done]. injection E1 as <-.
  eapply proc_keeps_insert; [exact Hth| |apply proc_keeps_threads; [exact H1|exact H2|exact H3]]. right. by exists c.
Qed.
Lemma proc_disable_keeps tsc i pr pr' : proc_disable tsc i pr = Some pr' -> proc_keeps pr pr'.
Proof.
  intros H. unfold proc_disable in H. bind_some H th Hth. cbv zeta in H. destruct (active_thread_count _) as [|n]; [done|].
  bind_some H k Hk. destruct (negb _); [done|]. bind_some H thk Hthk. apply steer_keeps in H as (H1 & H2 & H3).
  apply (proc_keeps_insert pr _ i th (th <| active := false |> <| change_tsc := tsc |>) Hth); [by left|].
  apply (proc_keeps_insert _ _ k thk (thk <| at_idx := at_idx th |>) Hthk); [by left|]. by apply proc_keeps_threads.
Qed.

Lemma enable_keeps t c w w' : c ∈ cores_tbl m -> sched_enable_kthread t c w = Some w' -> keeps w w'.
Proof.
  intros Hc H. unfold sched_enable_kthread in H. bind_some H pr Hp. bind_some H pr1 E1. cbv zeta in H. bind_some H w1 E2. bind_some H pr2 Hp2.
  injection H as <-. apply proc_enable_keeps in E1; [|done]. pose proof (keeps_procs _ _ _ _ Hp E1) as K1. apply (keeps_trans _ _ _ K1).
  apply (keeps_trans _ w1); [destruct (has_vfio_directpath pr1); [injection E2 as <-; apply keeps_refl|by eapply poll_thread_keeps]|].
  apply (keeps_procs _ pr2); [done|]. by apply proc_keeps_threads.
Qed.
Lemma retire_keeps e t w w' : retire_kthread e t w = Some w' -> keeps w w'.
Proof.
  intros H. unfold retire_kthread in H. bind_some H w1 E1. apply proc_put_keeps in H. apply (keeps_trans _ w1); [|done].
  unfold sched_disable_kthread in E1. bind_some E1 pr Hp. bind_some E1 pr1 E2. cbv zeta in E1. apply proc_disable_keeps in E2.
  apply (keeps_trans _ _ _ (keeps_procs _ _ _ _ Hp E2)). destruct (_ && _); [by eapply unpoll_thread_keeps|injection E1 as <-; apply keeps_refl].
Qed.
Lemma retire_opt_keeps e t w w' : retire_opt e t w = Some w' -> keeps w w'.
Proof. destruct t as [t|]; simpl; [apply retire_keeps|]. intros [= <-]. apply keeps_refl. Qed.
Lemma request_cede_keeps t w w' : request_cede t w = Some w' -> keeps w w'.
Proof. by apply update_thread_keeps. Qed.

Lemma sched_run_keeps e th c w r w' : sched_run e th c w = Some (r, w') -> keeps w w'.
Proof.
  intros H. unfold sched_run in H. bind_some H s Hs. destruct (wait s).
  - bind_some H w1 E1. injection H as _ <-. apply retire_opt_keeps in E1. by apply (keeps_ext _ w1).
  - bind_some H w1 E1. injection H as _ <-. apply (keeps_ext _ w1); [|done..].
    destruct (cur_th s) as [t|]; [|injection E1 as <-; apply keeps_refl]. destruct (idle s); [injection E1 as <-; apply keeps_refl|].
    bind_some E1 w2 E2. injection E1 as <-. apply request_cede_keeps in E2. by apply (keeps_ext _ w2).
Qed.
Lemma run_on_core_keeps e p c w r w' : sched_run_on_core m e p c w = Some (r, w') -> keeps w w'.
Proof.
  intros H. unfold sched_run_on_core in H. bind_some H pr Hp. destruct (idle_threads pr) as [|i0 l]; [injection H as _ <-; apply keeps_refl|].
  case_bool_decide as Hc; cbn [negb] in H; [|injection H as _ <-; apply keeps_refl].
  destruct (sched_pick_kthread m pr c) as [i|]; [|injection H as _ <-; apply keeps_refl].
  bind_some H w1 E1. bind_some H w2 E2. apply proc_get_keeps in E1. apply enable_keeps in E2; [|done]. apply sched_run_keeps in H.
  by apply (keeps_trans _ w1), (keeps_trans _ w2).
Qed.
Lemma hints_keep p c w r w' : (sched_request_cooperative_cede c w = Some (r, w') -> keeps w w') /\
  (sched_cancel_cooperative_cede p c w = Some (r, w') -> keeps w w') /\ (sched_yield_on_core c w = Some (r, w') -> keeps w w').
Proof.
  split_and!; intros H; unfold sched_request_cooperative_cede, sched_cancel_cooperative_cede, sched_yield_on_core in H;
    bind_some H th Hth; (destruct th as [t|]; [|injection H as _ <-; apply keeps_refl]).
  - bind_some H w1 E1. injection H as _ <-. by apply update_thread_keeps in E1.
  - destruct (negb _); [injection H as _ <-; apply keeps_refl|]. bind_some H w1 E1. injection H as _ <-. by apply update_thread_keeps in E1.
  - bind_some H th Ht. destruct (_ =? _); [injection H as _ <-; apply keeps_refl|]. bind_some H w1 E1. injection H as _ <-.
    apply update_thread_keeps in E1; [|done]. by apply (keeps_ext _ w1).
Qed.
Lemma switch_done_keeps e c s w s' w' : switch_done e c s w = Some (s', w') -> keeps w w'.
Proof.
  intros H. unfold switch_done in H. bind_some H w1 E1. cbv zeta in H. apply retire_opt_keeps in E1. destruct (pending _); [|by injection H as _ <-].
  bind_some H w2 E2. injection H as _ <-. apply (keeps_ext _ w2); [|done..]. apply (keeps_trans _ w1); [done|].
  destruct (cur_th _); [by apply request_cede_keeps in E2|injection E2 as <-; apply keeps_refl].
Qed.
Lemma poll_core_keeps e c w b w' : poll_core e c w = Some (b, w') -> keeps w w'.
Proof.
  intros H. unfold poll_core in H. bind_some H s Hs. bind_some H sw E1. destruct sw as [s1 w1].
  assert (keeps w w1) as K1 by (destruct (_ && _); [by eapply switch_done_keeps|injection E1 as _ <-; apply keeps_refl]).
  clear E1. destruct (negb (wait s1) && _ && _); [|injection H as _ <-; by apply (keeps_ext _ w1)]. destruct (cur_th s1) as [t|]; [|injection H as _ <-; by apply (keeps_ext _ w1)].
  bind_some H rw Er. destruct rw.
  - bind_some H th Hth. cbv zeta in H. bind_some H s2 Hs2. injection H as _ <-. by apply (keeps_ext _ w1).
  - bind_some H w2 E2. injection H as _ <-. apply retire_keeps in E2. apply (keeps_ext _ w2); [by apply (keeps_trans _ w1)|done..].
Qed.
Lemma fast_pass_keeps e l w r w' : fast_pass e l w = Some (r, w') -> keeps w w'.
Proof.
  revert w r. induction l as [|c l IH]; intros w r H; cbn [fast_pass] in H; [injection H as _ <-; apply keeps_refl|].
  bind_some H x E1. destruct x as [b w1]. bind_some H y E2. destruct y as [idles w2]. cbv beta iota in H. injection H as _ <-.
  apply poll_core_keeps in E1. apply IH in E2. by apply (keeps_trans _ w1).
Qed.

(** ** The accounts *)

(** The addresses are those of clients; a kthread ran on an allowed core or on none;
    the guarantees of the clients fit the machine. *)
Definition guarantee (w : iok) (p : nat) : Z := match procs w !! p with Some pr => guaranteed_cores pr | None => 0 end.
Definition sum_list (l : list Z) : Z := foldr Z.add 0 l.
Record accounts (w : iok) : Prop := {
  ac_addr : forall ip p, ip_to_proc w !! ip = Some p -> p ∈ clients w /\ exists pr, procs w !! p = Some pr /\ ip_addr pr = ip;
  ac_core : forall p pr i th, procs w !! p = Some pr -> threads pr !! i = Some th -> core th = UINT_MAX \/ exists c, c ∈ cores_tbl m /\ core th = Z.of_nat c;
  ac_pos : forall p pr, procs w !! p = Some pr -> 0 <= guaranteed_cores pr <= Z.of_nat NCPU;
  ac_sum : nr_guaranteed w = sum_list (guarantee w <$> clients w);
  ac_fit : nr_guaranteed w <= Z.of_nat (length (cores_tbl m))
}.

Lemma accounts_keeps w w' : inv w' -> keeps w w' -> accounts w -> accounts w'.
Proof.
  intros Hi ((E1 & E2 & E3) & K) [A1 A2 A3 A4 A5].
  assert (forall p, p ∈ clients w' -> is_Some (procs w' !! p)) as Halive.
  { intros p Hp. apply (b_alive _ _ _ (i_base _ Hi)). unfold holders. apply elem_of_app. by left. }
  assert (forall p, p ∈ clients w' -> guarantee w' p = guarantee w p) as Hg.
  { intros p Hp. destruct (Halive p Hp) as [pr' Hp']. destruct (K p pr' Hp') as (pr & Hpr & ((_ & G & _) & _)). unfold guarantee. by rewrite Hp', Hpr. }
  split.
  - intros ip p. rewrite E2. intros Hip. destruct (A1 ip p Hip) as (Hc & pr & Hp & Ha). rewrite <- E3 in Hc. split; [done|].
    destruct (Halive p Hc) as [pr' Hp']. exists pr'. split; [done|]. destruct (K p pr' Hp') as (pr2 & Hpr & ((G & _) & _)). congruence.
  - intros p pr' i th Hp Hth. destruct (K p pr' Hp) as (pr & Hpr & (_ & G)). destruct (G i th Hth) as [?|(u & Hu & ->)]; [by right|by eapply A2].
  - intros p pr' Hp. destruct (K p pr' Hp) as (pr & Hpr & ((_ & -> & _) & _)). by eapply A3.
  - rewrite E1, A4, E3. f_equal. apply list_fmap_ext. intros k p Hk. symmetry. apply Hg. rewrite E3. by eapply list_elem_of_lookup_2.
  - by rewrite E1.
Qed.

(** A measurement of delays. *)
Lemma measured_keeps p pr pr' w : procs w !! p = Some pr -> measured pr pr' -> keeps w (w <| procs := <[p := pr']> (procs w) |>).
Proof.
  intros Hp Hme. apply (keeps_procs p pr); [done|]. pose proof (measured_count _ _ Hme) as Hc. destruct Hme as (ths & np & -> & E). split; [done|].
  intros i th' Hth'. right. destruct (sched_fields_lookup _ _ i th' (eq_sym E) Hth') as (th & Hth & Ef). exists th. split; [done|]. unfold sched_fields in Ef. congruence.
Qed.

Lemma sum_list_perm l k : l ≡ₚ k -> sum_list l = sum_list k.
Proof. induction 1; simpl; lia. Qed.
Lemma sum_list_nonneg l : (forall x, x ∈ l -> 0 <= x) -> 0 <= sum_list l.
Proof.
  induction l as [|x l IH]; intros H; simpl; [done|]. specialize (IH (fun y Hy => H y (list_elem_of_further _ _ _ Hy))).
  specialize (H x (list_elem_of_here _ _)). lia.
Qed.
Lemma sum_list_cons x l : sum_list (x :: l) = x + sum_list l.
Proof. done. Qed.
Lemma sum_list_app l k : sum_list (l ++ k) = sum_list l + sum_list k.
Proof. induction l as [|x l IH]; simpl; lia. Qed.

Lemma guarantee_nonneg w p : accounts w -> 0 <= guarantee w p.
Proof. intros A. unfold guarantee. destruct (procs w !! p) as [pr|] eqn:Hp; [|done]. apply (ac_pos _ A) in Hp. lia. Qed.
Lemma guarantees_nonneg w l : accounts w -> 0 <= sum_list (guarantee w <$> l).
Proof. intros A. apply sum_list_nonneg. intros x (p & -> & _)%list_elem_of_fmap. by apply guarantee_nonneg. Qed.

Context (Hm : forall c, c ∈ cores_tbl m -> (c < NCPU)%nat) (Hnd : NoDup (cores_tbl m)).
Lemma cores_ncpu : (length (cores_tbl m) <= NCPU)%nat.
Proof using Hm Hnd.
  rewrite <- (length_seq NCPU 0). apply submseteq_length, NoDup_submseteq; [done|]. intros c Hc. apply elem_of_seq. specialize (Hm c Hc). lia.
Qed.

(** *** [dp_clients_remove_client] *)

Lemma accounts_remove p w w' : inv w -> accounts w -> dp_clients_remove_client p w = Some w' -> accounts w' /\
  (p ∈ clients w -> exists pr, procs w !! p = Some pr /\ p :: clients w' ≡ₚ clients w /\ ip_to_proc w' = delete (ip_addr pr) (ip_to_proc w)).
Proof using Hm Hnd.
  intros Hi A H. destruct (remove_client_ok p w Hi) as (w2 & E2 & Hi2). rewrite H in E2. injection E2 as <-.
  unfold dp_clients_remove_client in H. destruct (list_find _ (clients w)) as [[i q]|] eqn:Ef.
  2: { injection H as <-. split; [done|]. apply list_find_None in Ef. intros Hp. by apply (Forall_forall _ _) with (x := p) in Ef. }
  apply list_find_Some in Ef as (Hk & -> & _). pose proof (swap_remove_perm _ _ _ Hk) as Hperm. bind_some H pr Hp.
  apply proc_put_keeps in H. set (w1 := w <| clients := _ |> <| ip_to_proc := _ |> <| procs := _ |> <| nr_guaranteed := _ |>) in H.
  split; [|intros _; exists pr; destruct H as ((_ & -> & ->) & _); done].
  apply (accounts_keeps w1 w'); [done|done|]. pose proof A as [A1 A2 A3 A4 A5].
  assert (forall q, guarantee w1 q = guarantee w q) as Hg.
  { intros q. unfold guarantee. simpl. destruct (decide (q = p)) as [->|Hne]; [by rewrite lookup_insert_eq, Hp|by rewrite lookup_insert_ne]. }
  assert (nr_guaranteed w - guaranteed_cores pr = sum_list (guarantee w <$> swap_remove i (clients w))) as Hnr.
  { rewrite A4, <- (sum_list_perm _ _ (fmap_Permutation (guarantee w) _ _ Hperm)), fmap_cons, sum_list_cons.
    unfold guarantee at 1. rewrite Hp. lia. }
  pose proof (guarantees_nonneg w (swap_remove i (clients w)) A). pose proof (A3 p pr Hp). pose proof cores_ncpu.
  assert (nr_guaranteed w1 = nr_guaranteed w - guaranteed_cores pr) as Hnr1.
  { simpl. apply s32_small. unfold is_s32, NCPU in *. lia. }
  split.
  - intros ip q. simpl. intros [Hne Hip]%lookup_delete_Some. destruct (A1 ip q Hip) as (Hc & qr & Hq & Ha).
    assert (q <> p) by congruence. split; [|exists qr; by rewrite lookup_insert_ne].
    rewrite <- Hperm in Hc. by apply elem_of_cons in Hc as [?|?].
  - intros q qr k th. simpl. intros [(-> & <-)|(_ & Hq)]%lookup_insert_Some Hth; [exact (A2 _ pr k th Hp Hth)|exact (A2 q qr k th Hq Hth)].
  - intros q qr. simpl. intros [(-> & <-)|(_ & Hq)]%lookup_insert_Some; [exact (A3 _ pr Hp)|exact (A3 q qr Hq)].
  - rewrite Hnr1, Hnr. f_equal. apply list_fmap_ext. done.
  - lia.
Qed.

(** *** [dp_clients_add_client] *)

Lemma attach_accounts p pr pr' w w1 : inv w -> accounts w -> procs w !! p = None -> 0 <= guaranteed_cores pr <= Z.of_nat NCPU ->
  sched_attach_proc m pr w = (Some pr', w1) -> accounts (with_client p pr' w1) /\ ip_addr pr' = ip_addr pr /\ ip_to_proc w1 = ip_to_proc w.
Proof using Hm Hnd.
  intros Hi A Hp Hg. unfold sched_attach_proc. destruct (_ >? _) eqn:Ec; [done|]. intros [= <- <-]. split; [|done].
  pose proof A as [A1 A2 A3 A4 A5]. pose proof (guarantees_nonneg w (clients w) A). pose proof cores_ncpu.
  rewrite u32_small in Ec by (unfold is_u32, NCPU in *; lia).
  assert (forall q, q ∈ clients w -> q <> p) as Hne.
  { intros q Hq ->. destruct (b_alive _ _ _ (i_base _ Hi) p) as [? E]; [unfold holders; apply elem_of_app; by left|congruence]. }
  set (w2 := with_client _ _ _). assert (nr_guaranteed w2 = nr_guaranteed w + guaranteed_cores pr) as En.
  { simpl. apply s32_small. unfold is_s32, NCPU in *. lia. }
  split.
  - intros ip q. simpl. intros Hip. destruct (A1 ip q Hip) as (Hc & qr & Hq & Ha). split; [apply elem_of_app; by left|].
    exists qr. rewrite lookup_insert_ne by (symmetry; by apply Hne). done.
  - intros q qr i th. simpl. intros [(-> & <-)|(_ & Hq)]%lookup_insert_Some Hth; [|exact (A2 q qr i th Hq Hth)].
    simpl in Hth. rewrite list_lookup_fmap, fmap_Some in Hth. destruct Hth as (u & _ & ->). by left.
  - intros q qr. simpl. intros [(-> & <-)|(_ & Hq)]%lookup_insert_Some; [done|exact (A3 q qr Hq)].
  - rewrite En, A4. change (clients w2) with (clients w ++ [p]). rewrite fmap_app, sum_list_app. cbn [fmap list_fmap]. rewrite sum_list_cons.
    unfold guarantee at 3. simpl procs. rewrite lookup_insert_eq. f_equal; [|simpl; lia]. f_equal. apply list_fmap_ext. intros k q Hk. unfold guarantee. simpl. rewrite lookup_insert_ne; [done|].
    symmetry. apply Hne. by eapply list_elem_of_lookup_2.
  - lia.
Qed.
Lemma accounts_address p pr w : accounts w -> p ∈ clients w -> procs w !! p = Some pr -> accounts (w <| ip_to_proc := <[ip_addr pr := p]> (ip_to_proc w) |>).
Proof.
  intros [A1 A2 A3 A4 A5] Hc Hp. split; try done. intros ip q. simpl. intros [(<- & <-)|(_ & Hip)]%lookup_insert_Some; [|by apply A1].
  split; [done|]. by exists pr.
Qed.

Lemma accounts_add hok mok p pr w w' : inv w -> accounts w -> procs w !! p = None -> fresh_proc pr = true ->
  0 <= guaranteed_cores pr <= Z.of_nat NCPU -> dp_clients_add_client m hok mok p pr w = Some w' -> accounts w'.
Proof using Hm Hnd.
  intros Hi A Hp Hf Hg H. unfold dp_clients_add_client in H. destruct (sched_attach_proc m pr w) as [[pr'|] w1] eqn:Ea.
  - cbv zeta in H. fold (with_client p pr' w1) in H. pose proof (with_client_ok m p pr pr' w w1 Hi Hp Hf Ea) as Hi2.
    destruct (attach_accounts p pr pr' w w1 Hi A Hp Hg Ea) as (A2 & Eip & Etbl). destruct (Hi2 ∅) as [Hi0 _].
    destruct (ip_to_proc _ !! _); [by apply accounts_remove in H as [? _]|]. destruct hok; [|by apply accounts_remove in H as [? _]]. cbn [negb] in H.
    assert (accounts (with_client p pr' w1 <| ip_to_proc := <[ip_addr pr' := p]> (ip_to_proc (with_client p pr' w1)) |>)) as A3.
    { assert (procs (with_client p pr' w1) !! p = Some (pr' <| kill := false |>)) as Hpp by apply lookup_insert_eq.
      pose proof (accounts_address p _ _ A2 ltac:(simpl; apply elem_of_app; right; left) Hpp) as A3. exact A3. }
    destruct (negb _ && negb _); [|by injection H as <-]. by apply accounts_remove in H as [? _]; [|apply Hi2|].
  - unfold sched_attach_proc in Ea. destruct (_ >? _); [|done]. injection Ea as <-. by injection H as <-.
Qed.
End Keeps.

Lemma fresh_ip m pr pr' w w1 : sched_attach_proc m pr w = (Some pr', w1) -> ip_addr pr' = ip_addr pr /\ ip_to_proc w1 = ip_to_proc w /\ clients w1 = clients w.
Proof. unfold sched_attach_proc. destruct (_ >? _); [done|]. by intros [= <- <-]. Qed.

(** What adding and removing a client leaves alone. *)
Definition other_clients (p : nat) (w w' : iok) : Prop :=
  state w' = state w /\ (length (ts w') <= length (ts w))%nat /\ (forall q, q <> p -> q ∈ clients w' <-> q ∈ clients w) /\
  forall q pr', q <> p -> procs w' !! q = Some pr' -> exists pr, procs w !! q = Some pr /\ guaranteed_cores pr' = guaranteed_cores pr /\ thread_count pr' = thread_count pr.
Lemma remove_others p w w' : dp_clients_remove_client p w = Some w' -> other_clients p w w' /\
  (NoDup (clients w) -> p ∉ clients w') /\ forall pr', procs w' !! p = Some pr' -> exists pr, procs w !! p = Some pr /\
    guaranteed_cores pr' = guaranteed_cores pr /\ thread_count pr' = thread_count pr.
Proof.
  unfold dp_clients_remove_client. destruct (list_find _ _) as [[i x]|] eqn:Ef.
  - apply list_find_Some in Ef as (Hk & -> & _). pose proof (swap_remove_perm _ _ _ Hk) as Hperm.
    set (l := swap_remove i (clients w)) in *. clearbody l. destruct (procs w !! p) as [pr|] eqn:Hp; [|done].
    cbn [mbind option_bind]. unfold proc_put. simpl procs. rewrite lookup_insert_eq. cbn [mbind option_bind]. simpl ref.
    assert (forall q : nat, q <> p -> q ∈ l <-> q ∈ clients w) as Hc.
    { intros q Hne. rewrite <- Hperm, elem_of_cons. naive_solver. }
    assert (NoDup (clients w) -> p ∉ l) as Hn by (rewrite <- Hperm, NoDup_cons; tauto).
    destruct (_ =? _); intros [= <-]; simpl; (split; [split; [done|split; [done|split; [done|]]]|split; [done|]]).
    + intros q pr' Hne. simpl. rewrite lookup_delete_ne, lookup_insert_ne by done. intros Hq. by exists pr'.
    + intros pr'. simpl. by rewrite lookup_delete_eq.
    + intros q pr' Hne. simpl. rewrite lookup_insert_ne, lookup_insert_ne by done. intros Hq. by exists pr'.
    + intros pr'. simpl. rewrite lookup_insert_eq. intros [= <-]. by exists pr.
  - intros [= <-]. apply list_find_None in Ef. split; [split; [done|split; [done|split; [done|]]]|split].
    + intros q pr' _ Hq. by exists pr'.
    + intros _ Hin. by apply (proj1 (Forall_forall _ _) Ef p).
    + intros pr' Hq. by exists pr'.
Qed.
Lemma add_others m hok mok p pr w w' : dp_clients_add_client m hok mok p pr w = Some w' -> procs w !! p = None -> p ∉ clients w -> NoDup (clients w) ->
  other_clients p w w' /\ (fst (sched_attach_proc m pr w) = None -> w' = w) /\ (p ∉ clients w' \/ clients w' = clients w ++ [p]) /\
  forall pr', procs w' !! p = Some pr' -> guaranteed_cores pr' = guaranteed_cores pr /\ thread_count pr' = thread_count pr.
Proof.
  unfold dp_clients_add_client, sched_attach_proc. destruct (_ >? _); cbv zeta; cbn [fst].
  { intros [= <-] Hp Hc Hn. split; [split; [done|split; [done|split; [done|]]]|split; [done|split; [by left|]]]; [intros q pr' _ Hq; by exists pr'|congruence]. }
  match goal with |- context [ip_to_proc ?x !! _] => set (w2 := x) end. intros H Hp Hc Hn.
  assert (NoDup (clients w2)) as Hn2 by (simpl; rewrite (comm app); by apply NoDup_cons).
  assert (forall w', other_clients p w2 w' -> other_clients p w w') as Hoth.
  { intros u (U1 & U2 & U3 & U4). split; [done|]. split; [done|]. split.
    - intros q Hne. rewrite (U3 q Hne). simpl. rewrite elem_of_app, list_elem_of_singleton. naive_solver.
    - intros q pr' Hne Hq. destruct (U4 q pr' Hne Hq) as (pr0 & H0 & E0). simpl in H0. rewrite lookup_insert_ne in H0 by done. by exists pr0. }
  assert (forall tbl, dp_clients_remove_client p (w2 <| ip_to_proc := tbl |>) = Some w' -> other_clients p w w' /\ (p ∉ clients w' \/ clients w' = clients w ++ [p]) /\
    forall pr', procs w' !! p = Some pr' -> guaranteed_cores pr' = guaranteed_cores pr /\ thread_count pr' = thread_count pr) as Hrm.
  { intros tbl (R1 & R2 & R3)%remove_others. split; [by apply Hoth|]. split; [left; by apply R2|]. intros pr' Hpr'.
    destruct (R3 pr' Hpr') as (pr0 & H0 & -> & ->). simpl in H0. rewrite lookup_insert_eq in H0. injection H0 as <-. split; [done|apply length_fmap]. }
  assert (forall tbl, w' = w2 <| ip_to_proc := tbl |> -> other_clients p w w' /\ (p ∉ clients w' \/ clients w' = clients w ++ [p]) /\
    forall pr', procs w' !! p = Some pr' -> guaranteed_cores pr' = guaranteed_cores pr /\ thread_count pr' = thread_count pr) as Hok.
  { intros tbl ->. split; [apply Hoth; split; [done|split; [done|split; [done|]]]; intros q pr' _ Hq; by exists pr'|]. split; [by right|].
    intros pr'. simpl. rewrite lookup_insert_eq. intros [= <-]. split; [done|apply length_fmap]. }
  assert (w2 = w2 <| ip_to_proc := ip_to_proc w2 |>) as Eid by done.
  enough (other_clients p w w' /\ (p ∉ clients w' \/ clients w' = clients w ++ [p]) /\ forall pr', procs w' !! p = Some pr' -> guaranteed_cores pr' = guaranteed_cores pr /\ thread_count pr' = thread_count pr)
    as (X1 & X2 & X3) by (split; [exact X1|split; [done|by split]]).
  destruct (ip_to_proc w2 !! _); [rewrite Eid in H; by apply Hrm in H|]. destruct hok; [|simpl negb in H; rewrite Eid in H; by apply Hrm in H].
  cbn [negb] in H. destruct (_ && _); [by apply Hrm in H|]. injection H as <-. by eapply Hok.
Qed.

(** A process whose address another client has is not taken as a client, but its
    removal takes the address out of the table: afterwards packets for the client
    that has the address find no process. *)
Theorem duplicate_address m hok mok p q pr w : inv w -> procs w !! p = None -> fresh_proc pr = true ->
  is_Some (fst (sched_attach_proc m pr w)) -> ip_to_proc w !! ip_addr pr = Some q ->
  exists w', dp_clients_add_client m hok mok p pr w = Some w' /\ clients w' ≡ₚ clients w /\ ip_to_proc w' !! ip_addr pr = None.
Proof.
  intros Hi Hp Hf Ha Hq. destruct (sched_attach_proc m pr w) as [[pr'|] w1] eqn:Ea; [|by destruct Ha].
  destruct (add_client_ok m hok mok p pr w Hi Hp Hf) as (w' & E & Hi'). exists w'. split; [done|].
  destruct (fresh_ip m pr pr' w w1 Ea) as (E1 & E2 & E3). unfold dp_clients_add_client in E. rewrite Ea in E. cbv zeta in E.
  fold (with_client p pr' w1) in E. simpl ip_to_proc in E. rewrite E1, E2, Hq in E. unfold dp_clients_remove_client in E.
  destruct (list_find _ _) as [[i x]|] eqn:Ef.
  - apply list_find_Some in Ef as (Hk & -> & _). pose proof (swap_remove_perm _ _ _ Hk) as Hperm. simpl procs in E. rewrite lookup_insert_eq in E.
    cbn [mbind option_bind] in E. apply (proc_put_keeps m) in E as ((_ & -> & ->) & _). simpl. rewrite E1, lookup_delete_eq. split; [|done].
    simpl in Hperm. rewrite E3 in *. apply (Permutation_cons_inv (a := p)). rewrite Hperm. symmetry. apply Permutation_cons_append.
  - apply list_find_None in Ef. exfalso. apply (proj1 (Forall_forall _ _) Ef p); [|done]. simpl. apply elem_of_app. right. left.
Qed.

(** Process 8 asks for the address of process 7. *)
Definition demo_client : iok := default iok_init (dp_clients_add_client demo_machine true true 7 (demo_proc 17 [70]%Z) iok_init).
Lemma duplicate_address_witness :
  ip_to_proc demo_client !! 17 = Some 7%nat /\ clients demo_client = [7%nat] /\
  exists w', dp_clients_add_client demo_machine true true 8 (demo_proc 17 [80]%Z) demo_client = Some w' /\
    clients w' ≡ₚ [7%nat] /\ ip_to_proc w' !! 17 = None.
Proof.
  split; [vm_compute; reflexivity|]. split; [vm_compute; reflexivity|].
  apply (duplicate_address demo_machine true true 8 7 (demo_proc 17 [80]%Z) demo_client).
  - destruct (add_client_ok demo_machine true true 7 (demo_proc 17 [70]%Z) iok_init iok_init_inv) as (w & E & H); [done|vm_compute; reflexivity|].
    unfold demo_client. by rewrite E.
  - vm_compute. reflexivity.
  - vm_compute. reflexivity.
  - by eexists.
  - vm_compute. reflexivity.
Defined.
