(* ===== verification/IoSimple.v ===== *)
(** * I/O kernel: the simple policy

    Models [iokernel/simple.c] on top of IoSched: the policy's table of which
    process has which core, its list of congested processes and its set of idle
    cores (a bitmap is the set of its positions, see Bitmap).  The entry of a process
    in the tables is the process itself.  [sched_poll], which calls the policy, and the
    arrival and departure of processes are here with it. *)

From S2P Require Import Prelude StdDef IoSched IoOwn IoDelay.

Definition EBUSY : Z := 16.
Definition NHIST : nat := 4.

(** [struct simple_data] *)
Record simple_data := SimpleData {
  is_congested : bool; qdelay_us : Z; threads_guaranteed : Z; threads_max : Z; threads_active : Z; waking : bool }.
#[global] Instance eta_simple_data : Settable simple_data := fun r =>
  SimpleData (is_congested r) (qdelay_us r) (threads_guaranteed r) (threads_max r) (threads_active r) (waking r).

(** The variables of [simple.c]; [data] has the entries of the attached processes. *)
Record policy := Policy {
  data : gmap nat simple_data; congested_procs : list nat; idle_cores : gset nat;
  cores : list (option nat); hist : list (list (option nat)) }.
#[global] Instance eta_policy : Settable policy := fun r =>
  Policy (data r) (congested_procs r) (idle_cores r) (cores r) (hist r).
(** The I/O kernel with the policy: [meters_of] has the meters of the kthreads of each
    process, [last_time] is the time of the last slow pass. *)
Record io := Io { sys : iok; pol : policy; meters_of : gmap nat (list meters); last_time : Z }.
#[global] Instance eta_io : Settable io := fun r => Io (sys r) (pol r) (meters_of r) (last_time r).

(** The part of [struct sched_spec] that the policy uses. *)
Record sched_spec := SchedSpec { max_cores : Z; spec_guaranteed : Z; spec_qdelay_us : Z }.

Definition simple_proc_is_preemptible (cursd nextsd : simple_data) : bool :=
  (threads_active cursd >? threads_guaranteed cursd) && (threads_active nextsd <? threads_guaranteed nextsd).

Definition set_data (p : nat) (d : simple_data) (s : policy) : policy := s <| data := <[p := d]> (data s) |>.

Definition simple_cleanup_core (c : nat) (s : policy) : option policy :=
  sd ← cores s !! c;
  match sd with
  | None => Some s
  | Some p =>
      d ← data s !! p;
      h ← hist s !! c;
      Some (set_data p (d <| threads_active := threads_active d - 1 |>) s <| cores := <[c := None]> (cores s) |>
              <| hist := <[c := Some p :: take (NHIST - 1) h]> (hist s) |>)
  end.

Definition simple_mark_congested (p : nat) (s : policy) : option policy :=
  d ← data s !! p;
  if is_congested d then Some s
  else Some (set_data p (d <| is_congested := true |>) s <| congested_procs := p :: congested_procs s |>).
Definition simple_unmark_congested (p : nat) (s : policy) : option policy :=
  d ← data s !! p;
  if negb (is_congested d) then Some s
  else if bool_decide (p ∈ congested_procs s)
  then Some (set_data p (d <| is_congested := false |>) s <| congested_procs := filter (fun q => q <> p) (congested_procs s) |>)
  else None.

Definition simple_attach (p : nat) (cfg : sched_spec) (s : policy) : policy :=
  set_data p (SimpleData false (spec_qdelay_us cfg) (s32 (spec_guaranteed cfg)) (s32 (max_cores cfg)) 0 false) s.

Definition forget (p : nat) (x : option nat) : option nat := if decide (x = Some p) then None else x.
Definition simple_detach (p : nat) (s : policy) : option policy :=
  s ← simple_unmark_congested p s;
  Some (s <| cores := forget p <$> cores s |> <| hist := (fun h : list (option nat) => forget p <$> h) <$> hist s |> <| data := delete p (data s) |>).

Section Policy.
Context (m : machine).

Definition sched_threads_avail (pr : proc) : nat := thread_count pr - active_thread_count pr.

(** [simple_run_kthread_on_core] *)
Definition simple_run_kthread_on_core (e : env) (p c : nat) (w : io) : option (Z * io) :=
  pr ← procs (sys w) !! p;
  if (sched_threads_avail pr =? 0)%nat then Some (- EBUSY, w)
  else
    '(ret, sy) ← sched_run_on_core m e p c (sys w);
    let w := w <| sys := sy |> in
    if negb (ret =? 0) then Some (ret, w)
    else
      s ← simple_cleanup_core c (pol w);
      d ← data s !! p;
      Some (0, w <| pol := set_data p (d <| threads_active := threads_active d + 1 |> <| waking := true |>) s
                             <| cores := <[c := Some p]> (cores s) |> <| idle_cores := idle_cores s ∖ {[c]} |> |>).

(** *** Choosing a core *)

Definition core_of (s : policy) (c : nat) : option nat := mjoin (cores s !! c).
(** The core can be taken for [p]: it has no process, or one that is preemptible. *)
Definition takeable (p : nat) (s : policy) (c : nat) : bool :=
  match core_of s c with
  | None => true
  | Some q =>
      match data s !! q, data s !! p with
      | Some dq, Some dp => simple_proc_is_preemptible dq dp
      | _, _ => false
      end
  end.
Definition not_own (p : nat) (s : policy) (c : nat) : bool := negb (bool_decide (core_of s c = Some p)).

(** First the siblings of cores of [p]. *)
Definition choose_sibling (p : nat) (s : policy) : option nat :=
  c ← List.find (fun c => let sib := siblings m c in
        negb (not_own p s c) && not_own p s sib && takeable p s sib && bool_decide (sib ∈ cores_tbl m)) (cores_tbl m);
  Some (siblings m c).
(** Then the cores where idle kthreads ran, or their siblings. *)
Fixpoint choose_previous (p : nat) (pr : proc) (l : list nat) (s : policy) : option nat :=
  match l with
  | [] => None
  | i :: l =>
      th ← threads pr !! i;
      if core th >=? Z.of_nat NCPU then None
      else
        let c := Z.to_nat (core th) in
        let sib := siblings m c in
        if not_own p s c && takeable p s c then Some c
        else if noht m then choose_previous p pr l s
        else if not_own p s sib && takeable p s sib && bool_decide (sib ∈ cores_tbl m) then Some sib
        else choose_previous p pr l s
  end.
Definition choose_preemptible (p : nat) (s : policy) : option nat :=
  List.find (fun c => not_own p s c && bool_decide (is_Some (core_of s c)) && takeable p s c) (cores_tbl m).
(** [bitmap_find_next_set] from 0. *)
Definition first_idle (s : policy) : option nat := List.find (fun c => bool_decide (c ∈ idle_cores s)) (seq 0 NCPU).

(** [simple_choose_core]; [None] is [NCPU]. *)
Definition simple_choose_core (p : nat) (w : io) : option (option nat) :=
  pr ← procs (sys w) !! p;
  let s := pol w in
  match (if noht m then None else choose_sibling p s) with
  | Some c => Some (Some c)
  | None =>
      match choose_previous p pr (idle_threads pr) s with
      | Some c => Some (Some c)
      | None => match first_idle s with Some c => Some (Some c) | None => Some (choose_preemptible p s) end
      end
  end.

Definition simple_add_kthread (e : env) (p : nat) (w : io) : option (Z * io) :=
  d ← data (pol w) !! p;
  if threads_active d >=? threads_max d then Some (- ENOENT, w)
  else
    core ← simple_choose_core p w;
    match core with
    | None => Some (- ENOENT, w)
    | Some c => simple_run_kthread_on_core e p c w
    end.
Definition simple_notify_core_needed := simple_add_kthread.

Definition simple_notify_congested (e : env) (p : nat) (delay : delay_info) (w : io) : option io :=
  d ← data (pol w) !! p;
  let congested := (if qdelay_us d =? 0 then standing_queue delay else max_delay_us delay >=? qdelay_us d) || parked_thread_busy delay in
  if waking d then Some (w <| pol := set_data p (d <| waking := false |>) (pol w) |>)
  else if negb congested then s ← simple_unmark_congested p (pol w); Some (w <| pol := s |>)
  else if is_congested d then Some w
  else
    '(ret, w) ← simple_add_kthread e p w;
    if ret =? 0 then Some w else s ← simple_mark_congested p (pol w); Some (w <| pol := s |>).

(** *** Choosing a process for an idle core *)

(** A congested process with a kthread to run. *)
Definition wants_core (w : io) (p : nat) : bool :=
  match data (pol w) !! p, procs (sys w) !! p with
  | Some d, Some pr => is_congested d && negb (sched_threads_avail pr =? 0)%nat
  | _, _ => false
  end.
Definition has_avail (w : io) (p : nat) : bool :=
  match procs (sys w) !! p with Some pr => negb (sched_threads_avail pr =? 0)%nat | None => false end.
Definition candidate (w : io) (x : option nat) : option nat := match x with Some p => if wants_core w p then Some p else None | None => None end.
Fixpoint choose_hist (w : io) (l k : list (option nat)) : option nat :=
  match l with
  | [] => None
  | x :: l =>
      match candidate w x with
      | Some p => Some p
      | None =>
          match (if noht m then None else candidate w (mjoin (head k))) with
          | Some p => Some p
          | None => choose_hist w l (tail k)
          end
      end
  end.
Definition simple_choose_kthread (c : nat) (w : io) : option nat :=
  let s := pol w in
  let hist_of c := default [] (hist s !! c) in
  match (if noht m then None else candidate w (core_of s (siblings m c))) with
  | Some p => Some p
  | None =>
      match choose_hist w (hist_of c) (hist_of (siblings m c)) with
      | Some p => Some p
      | None => List.find (has_avail w) (congested_procs s)
      end
  end.

(** *** [simple_sched_poll] *)

Definition poll_idle_core (e : env) (c : nat) (w : io) : option io :=
  s ← (match core_of (pol w) c with Some p => simple_unmark_congested p (pol w) | None => Some (pol w) end);
  s ← simple_cleanup_core c s;
  let w := w <| pol := s |> in
  match simple_choose_kthread c w with
  | None => Some (w <| pol := s <| idle_cores := {[c]} ∪ idle_cores s |> |>)
  | Some p =>
      '(ret, w) ← simple_run_kthread_on_core e p c w;
      if ret =? 0 then Some w
      else s ← simple_mark_congested p (pol w <| idle_cores := {[c]} ∪ idle_cores (pol w) |>); Some (w <| pol := s |>)
  end.
Fixpoint simple_sched_poll (e : env) (idle : list nat) (w : io) : option io :=
  match idle with [] => Some w | c :: l => w ← poll_idle_core e c w; simple_sched_poll e l w end.

(** *** [sched_poll] *)

(** The clock and the configuration of the I/O kernel. *)
Record params := Params { cycles_per_us : Z; start_tsc : Z; hw_timestamp_enabled : bool; noidlefastwake : bool }.
(** What one poll sees: the time stamp counter, and for each process and kthread what
    the measurement reads. *)
Record poll_view := PollView { now_tsc : Z; read_proc : nat -> proc_reading; read_thread : nat -> nat -> reading }.

(** [sched_measure_delay] of a client, with the notification of the policy. *)
Definition measure_client (k : params) (e : env) (v : poll_view) (p : nat) (w : io) : option io :=
  pr ← procs (sys w) !! p;
  mts ← meters_of w !! p;
  '(pr, mts, refill, d) ← sched_measure_delay (now_tsc v) (cycles_per_us k) (hw_timestamp_enabled k) (noidlefastwake k) (read_proc v p) (read_thread v p) pr mts;
  let w := w <| sys := sys w <| procs := <[p := pr]> (procs (sys w)) |> |> <| meters_of := <[p := mts]> (meters_of w) |> in
  match d with
  | None => Some w
  | Some d => simple_notify_congested e p (delay_info_of (cycles_per_us k) d) w
  end.
Fixpoint slow_pass (k : params) (e : env) (v : poll_view) (l : list nat) (w : io) : option io :=
  match l with [] => Some w | p :: l => w ← measure_client k e v p w; slow_pass k e v l w end.

Definition sched_add_core (k : params) (e : env) (p : nat) (w : io) : option (Z * io) :=
  if noidlefastwake k then
    pr ← procs (sys w) !! p;
    Some (0, w <| sys := sys w <| procs := <[p := pr <| p_next_poll := 0 |>]> (procs (sys w)) |> |>)
  else simple_notify_core_needed e p w.

(** Between slow passes: idle clients with a direct path that has work get a core. *)
Definition check_idle_client (k : params) (e : env) (v : poll_view) (p : nat) (w : io) : option io :=
  pr ← procs (sys w) !! p;
  if has_vfio_directpath pr || negb (has_directpath pr && (active_thread_count pr =? 0)%nat) then Some w
  else
    mts ← meters_of w !! p;
    let '(mts, busy) := sched_detect_io_for_idle_runtime (now_tsc v) (cycles_per_us k) (hw_timestamp_enabled k) (read_thread v p) 0 mts in
    let w := w <| meters_of := <[p := mts]> (meters_of w) |> in
    if busy : bool then '(_, w) ← sched_add_core k e p w; Some w else Some w.
Fixpoint idle_pass (k : params) (e : env) (v : poll_view) (l : list nat) (w : io) : option io :=
  match l with [] => Some w | p :: l => w ← check_idle_client k e v p w; idle_pass k e v l w end.

Definition first_pass (k : params) (e : env) (v : poll_view) (w : io) : option io :=
  let w := w <| sys := sys w <| cur_tsc := now_tsc v |> |> in
  let now := u64 (now_tsc v - start_tsc k) / cycles_per_us k in
  if u64 (now - last_time w) >=? IOKERNEL_POLL_INTERVAL then slow_pass k e v (clients (sys w)) (w <| last_time := now |>)
  else if negb (noidlefastwake k) then idle_pass k e v (clients (sys w)) w
  else Some w.
Definition sched_poll (k : params) (e : env) (v : poll_view) (w : io) : option io :=
  w ← first_pass k e v w;
  '(idle, sy) ← fast_pass e (cores_tbl m) (sys w);
  simple_sched_poll e idle (w <| sys := sy |>).

(** A process arrives or leaves: [sched_attach_proc] and [sched_detach_proc] call the
    policy; a process that the data path refuses is detached again. *)
Definition add_proc (hash_ok mem_ok : bool) (p : nat) (pr : proc) (mts : list meters) (max qdelay : Z) (w : io) : option io :=
  sy ← dp_clients_add_client m hash_ok mem_ok p pr (sys w);
  match fst (sched_attach_proc m pr (sys w)) with
  | None => Some (w <| sys := sy |>)
  | Some _ =>
      let s := simple_attach p (SchedSpec max (guaranteed_cores pr) qdelay) (pol w) in
      if bool_decide (p ∈ clients sy) then Some (w <| sys := sy |> <| pol := s |> <| meters_of := <[p := mts]> (meters_of w) |>)
      else s ← simple_detach p s; Some (w <| sys := sy |> <| pol := s |>)
  end.
Definition remove_proc (p : nat) (w : io) : option io :=
  if bool_decide (p ∈ clients (sys w)) then
    s ← simple_detach p (pol w);
    sy ← dp_clients_remove_client p (sys w);
    Some (w <| sys := sy |> <| pol := s |>)
  else Some w.
End Policy.

(** [simple_init] *)
Definition simple_init (m : machine) : policy :=
  Policy ∅ [] (list_to_set (cores_tbl m)) (replicate NCPU None) (replicate NCPU (replicate NHIST None)).
