(* ===== verification/IoPolicy.v ===== *)
(** * I/O kernel: what the simple policy does

    The tables of IoSimple agree with each other and with the cores of IoSched after
    every call of the policy; it respects the guarantees of the processes it takes
    cores from; and a process that is below its guarantee gets a core when it asks. *)

From S2P Require Import Prelude StdDef IoSched IoOwn IoDelay IoClients IoSimple.

Lemma cnt_insert {A} `{EqDecision A} (l : list A) c x y z : l !! c = Some x ->
  cnt z (<[c := y]> l) = cnt z l - (if decide (x = z) then 1 else 0) + (if decide (y = z) then 1 else 0).
Proof.
  revert c. induction l as [|a l IH]; intros [|c] Hc; simpl in *; [done|done|injection Hc as ->; rewrite !cnt_cons; lia|].
  rewrite !cnt_cons, (IH c Hc). lia.
Qed.
(** The positions of an element. *)
Lemma cnt_positions {A} `{EqDecision A} (x : A) l : exists k, NoDup k /\ Z.of_nat (length k) = cnt x l /\ forall i, i ∈ k <-> l !! i = Some x.
Proof.
  induction l as [|a l (k & H1 & H2 & H3)]; [exists []; split_and!; [by apply NoDup_nil|done|]; intros i; by rewrite elem_of_nil|].
  assert (forall i, i ∈ S <$> k <-> exists j, i = S j /\ l !! j = Some x) as Hk by (intros i; rewrite list_elem_of_fmap; naive_solver).
  rewrite cnt_cons. destruct (decide (a = x)) as [->|Hne].
  - exists (0%nat :: (S <$> k)). split_and!.
    + apply NoDup_cons. split; [rewrite Hk; by intros (j & ? & _)|]. apply NoDup_fmap_2; [apply _|done].
    + simpl. rewrite length_fmap. lia.
    + intros [|i]; rewrite elem_of_cons, Hk; naive_solver.
  - exists (S <$> k). split_and!; [apply NoDup_fmap_2; [apply _|done]|rewrite length_fmap; lia|]. intros [|i]; rewrite Hk; simpl; naive_solver.
Qed.

(** ** The tables *)

Record tables (s : policy) : Prop := {
  t_len : length (cores s) = NCPU /\ length (hist s) = NCPU;
  t_cores : forall c p, cores s !! c = Some (Some p) -> is_Some (data s !! p);
  t_active : forall p d, data s !! p = Some d -> threads_active d = cnt (Some p) (cores s);
  t_nodup : NoDup (congested_procs s);
  t_congested : forall p, p ∈ congested_procs s <-> exists d, data s !! p = Some d /\ is_congested d = true;
  t_hist : forall c h p, hist s !! c = Some h -> Some p ∈ h -> is_Some (data s !! p)
}.

(** What is the same in two versions of the tables. *)
Definition limits (s : policy) (p : nat) : option (Z * Z) := (fun d => (threads_guaranteed d, threads_max d)) <$> data s !! p.
Definition quiet (s s' : policy) : Prop := cores s' = cores s /\ idle_cores s' = idle_cores s /\ forall p, limits s' p = limits s p.

Lemma limits_set s s' p d d' : data s !! p = Some d -> data s' = <[p := d']> (data s) ->
  threads_guaranteed d' = threads_guaranteed d -> threads_max d' = threads_max d -> forall q, limits s' q = limits s q.
Proof.
  intros Hd E E1 E2 q. unfold limits. rewrite E. destruct (decide (q = p)) as [->|Hne]; [rewrite lookup_insert_eq, Hd; simpl; congruence|by rewrite lookup_insert_ne].
Qed.
Lemma limits_some s s' p : (forall p, limits s' p = limits s p) -> is_Some (data s' !! p) <-> is_Some (data s !! p).
Proof. intros H. specialize (H p). unfold limits in H. rewrite <- !(fmap_is_Some (fun d => (threads_guaranteed d, threads_max d))), H. done. Qed.

Section Ops.
Context (s : policy) (T : tables s).

Lemma tables_set s' p d d' : data s !! p = Some d -> threads_active d' = threads_active d ->
  threads_guaranteed d' = threads_guaranteed d -> threads_max d' = threads_max d ->
  data s' = <[p := d']> (data s) -> cores s' = cores s -> idle_cores s' = idle_cores s -> hist s' = hist s -> NoDup (congested_procs s') ->
  (forall q, q ∈ congested_procs s' <-> if decide (q = p) then is_congested d' = true else q ∈ congested_procs s) -> tables s' /\ quiet s s'.
Proof using T.
  intros Hd Ha E1 E2 S1 S2 S3 S4 Hl Hq. pose proof (limits_set s s' p d d' Hd S1 E1 E2) as HL.
  assert (forall q, is_Some (data s' !! q) <-> is_Some (data s !! q)) as Hs by (intros q; apply (limits_some s s' q HL)).
  split; [|done]. destruct T as [T1 T2 T3 T4 T5 T6]. split; rewrite ?S2, ?S4; try done.
  - intros c q Hc. by apply Hs, (T2 c).
  - intros q e. rewrite S1. intros [(<- & <-)|(_ & He)]%lookup_insert_Some; [rewrite Ha; by apply T3|by apply T3].
  - intros q. rewrite Hq, S1. destruct (decide (q = p)) as [->|Hne].
    + split; [intros Hc; exists d'; split; [apply lookup_insert_eq|done]|]. intros (e & He & Hc). rewrite lookup_insert_eq in He. by injection He as <-.
    + rewrite T5. by rewrite lookup_insert_ne.
  - intros c h q Hh Hin. by apply Hs, (T6 c h).
Qed.
Lemma mark_ok p : is_Some (data s !! p) -> exists s', simple_mark_congested p s = Some s' /\ tables s' /\ quiet s s'.
Proof using T.
  intros [d Hd]. unfold simple_mark_congested. rewrite Hd. cbn [mbind option_bind]. destruct (is_congested d) eqn:Ec; [by exists s|].
  assert (p ∉ congested_procs s) as Hn by (intros (e & He & Hc)%(t_congested _ T); congruence).
  eexists. split; [done|]. apply (tables_set _ p d (d <| is_congested := true |>)); [done..|apply NoDup_cons; split; [done|apply T]|].
 
  intros q. simpl. rewrite elem_of_cons. destruct (decide (q = p)); naive_solver.
Qed.
Lemma unmark_ok p : is_Some (data s !! p) -> exists s', simple_unmark_congested p s = Some s' /\ tables s' /\ quiet s s' /\
  forall d, data s' !! p = Some d -> is_congested d = false.
Proof using T.
  intros [d Hd]. unfold simple_unmark_congested. rewrite Hd. cbn [mbind option_bind]. destruct (is_congested d) eqn:Ec; cbn [negb].
  2: { exists s. split; [done|]. split; [done|]. split; [done|]. intros e He. congruence. }
  rewrite bool_decide_true by (apply (t_congested _ T); by exists d).
  eexists. split; [done|].
  match goal with |- tables ?x /\ _ => assert (tables x /\ quiet s x) as [H1 H2] end; [apply (tables_set _ p d (d <| is_congested := false |>)); [done..|apply NoDup_filter, T|]|].
  { intros q. simpl. rewrite list_elem_of_filter. destruct (decide (q = p)); naive_solver. }
  split; [done|]. split; [done|]. intros e. simpl. rewrite lookup_insert_eq. by intros [= <-].
Qed.

Lemma waking_ok p d b : data s !! p = Some d -> tables (set_data p (d <| waking := b |>) s) /\ quiet s (set_data p (d <| waking := b |>) s).
Proof using T.
  intros Hd. apply (tables_set _ p d (d <| waking := b |>)); [done..|apply T|]. intros q. simpl.
  destruct (decide (q = p)) as [->|Hne]; [|done]. rewrite (t_congested _ T), Hd. naive_solver.
Qed.

(** The process of core [c] becomes [x]. *)
Lemma tables_move s' c x y p d d' : cores s !! c = Some x -> data s !! p = Some d ->
  threads_guaranteed d' = threads_guaranteed d -> threads_max d' = threads_max d -> is_congested d' = is_congested d ->
  threads_active d' = threads_active d - (if decide (x = Some p) then 1 else 0) + (if decide (y = Some p) then 1 else 0) ->
  (forall q, q <> p -> x <> Some q /\ y <> Some q) ->
  data s' = <[p := d']> (data s) -> cores s' = <[c := y]> (cores s) -> congested_procs s' = congested_procs s ->
  length (hist s') = NCPU -> (forall k l q, hist s' !! k = Some l -> Some q ∈ l -> is_Some (data s !! q)) ->
  tables s' /\ forall q, limits s' q = limits s q.
Proof using T.
  intros Hc Hd E1 E2 E3 Ea Hxy S1 S2 S3 Hh1 Hh2. pose proof (limits_set s s' p d d' Hd S1 E1 E2) as HL.
  assert (forall q, is_Some (data s' !! q) <-> is_Some (data s !! q)) as Hs by (intros q; apply (limits_some s s' q HL)).
  split; [|done]. destruct T as [T1 T2 T3 T4 T5 T6]. split; rewrite ?S2, ?S3; try done.
  - rewrite length_insert. by split; [apply T1|].
  - intros k q [(<- & -> & _)|(_ & Hk)]%list_lookup_insert_Some; [|by apply Hs, (T2 k)].
    apply Hs. destruct (decide (q = p)) as [->|Hne]; [by eexists|]. by destruct (Hxy q Hne).
  - intros q e. rewrite S1, (cnt_insert _ c x y (Some q) Hc). intros [(<- & <-)|(Hne & He)]%lookup_insert_Some; [by rewrite Ea, (T3 p d Hd)|].
    rewrite (T3 q e He). destruct (Hxy q ltac:(congruence)). rewrite !decide_False by done. lia.
  - intros q. rewrite T5, S1. destruct (decide (q = p)) as [->|Hne]; [|by rewrite lookup_insert_ne].
    rewrite lookup_insert_eq, Hd. split; intros (e & [= <-] & Hcg); eexists; (split; [done|congruence]).
  - intros k l q Hl Hin. apply Hs. by apply (Hh2 k l).
Qed.
Lemma cleanup_ok c : (c < NCPU)%nat -> exists s', simple_cleanup_core c s = Some s' /\ tables s' /\
  cores s' = <[c := None]> (cores s) /\ idle_cores s' = idle_cores s /\ forall q, limits s' q = limits s q.
Proof using T.
  intros Hc. destruct T as [[T1 T1'] T2 T3 T4 T5 T6]. unfold simple_cleanup_core. destruct (lookup_lt_is_Some_2 (cores s) c) as [x Hx]; [lia|].
  rewrite Hx. cbn [mbind option_bind]. destruct x as [p|]; [|exists s; rewrite list_insert_id by done; done].
  destruct (T2 c p Hx) as [d Hd]. rewrite Hd. cbn [mbind option_bind]. destruct (lookup_lt_is_Some_2 (hist s) c) as [h Hh]; [lia|].
  rewrite Hh. cbn [mbind option_bind]. eexists. split; [done|]. set (s' := _ <| hist := _ |>).
  destruct (tables_move s' c (Some p) None p d (d <| threads_active := threads_active d - 1 |>)) as [H1 H2]; try done.
  - rewrite decide_True, decide_False by done. simpl. lia.
  - intros q Hne. split; congruence.
  - simpl. by rewrite length_insert.
  - intros k l q [(<- & <- & _)|(_ & Hk)]%list_lookup_insert_Some Hin; [|by eapply T6].
    apply elem_of_cons in Hin as [[= ->]|Hin]; [by eexists|]. apply (T6 c h); [done|]. by apply elem_of_take in Hin as (? & ?%list_elem_of_lookup_2 & _).
Qed.
Lemma assign_ok c p d : cores s !! c = Some None -> data s !! p = Some d ->
  let s' := set_data p (d <| threads_active := threads_active d + 1 |> <| waking := true |>) s
              <| cores := <[c := Some p]> (cores s) |> <| idle_cores := idle_cores s ∖ {[c]} |> in
  tables s' /\ forall q, limits s' q = limits s q.
Proof using T.
  intros Hc Hd s'. apply (tables_move s' c None (Some p) p d (d <| threads_active := threads_active d + 1 |> <| waking := true |>)); try done.
  - rewrite decide_False, decide_True by done. simpl. lia.
  - intros q Hne. split; congruence.
  - apply T.
  - apply T.
Qed.
End Ops.

Lemma attach_tables p cfg s : tables s -> data s !! p = None -> tables (simple_attach p cfg s).
Proof.
  intros [T1 T2 T3 T4 T5 T6] Hp. assert (forall q, is_Some (data s !! q) -> is_Some (data (simple_attach p cfg s) !! q)) as Hs.
  { intros q Hq. simpl. destruct (decide (q = p)) as [->|Hne]; [rewrite lookup_insert_eq; by eexists|by rewrite lookup_insert_ne]. }
  split; try done.
  - intros c q Hc. by apply Hs, (T2 c).
  - intros q d. simpl. intros [(<- & <-)|(_ & Hq)]%lookup_insert_Some; [|by apply T3]. simpl. pose proof (cnt_nonneg (Some p) (cores s)).
    destruct (decide (0 < cnt (Some p) (cores s))) as [Hc|Hc]; [|lia]. apply cnt_pos, list_elem_of_lookup in Hc as [c Hc]. destruct (T2 c p Hc). congruence.
  - intros q. simpl. rewrite T5. destruct (decide (q = p)) as [->|Hne]; [|by rewrite lookup_insert_ne].
    rewrite lookup_insert_eq. split; [intros (d & Hd & _); congruence|]. by intros (d & [= <-] & Hd).
  - intros c h q Hh Hin. by apply Hs, (T6 c h).
Qed.

Lemma cnt_forget p q l : q <> p -> cnt (Some q) (forget p <$> l) = cnt (Some q) l.
Proof.
  intros Hne. induction l as [|x l IH]; [done|]. rewrite fmap_cons, !cnt_cons, IH. f_equal. unfold forget.
  destruct (decide (x = Some p)) as [->|Hx]; [|done]. rewrite !decide_False; congruence.
Qed.
Lemma forget_some p x q : forget p x = Some q <-> x = Some q /\ q <> p.
Proof. unfold forget. destruct (decide (x = Some p)) as [->|Hne]; naive_solver. Qed.

Lemma detach_tables p s : tables s -> is_Some (data s !! p) -> exists s', simple_detach p s = Some s' /\ tables s' /\
  cores s' = forget p <$> cores s /\ idle_cores s' = idle_cores s /\ data s' !! p = None /\ forall q, q <> p -> limits s' q = limits s q.
Proof.
  intros T Hp. unfold simple_detach. destruct (unmark_ok s T p Hp) as (s1 & -> & T1 & (Q1 & Q2 & Q3) & Hu). cbn [mbind option_bind].
  eexists. split; [done|]. set (s' := _ <| data := _ |>).
  assert (data s' = delete p (data s1) /\ cores s' = forget p <$> cores s1 /\ congested_procs s' = congested_procs s1 /\
    hist s' = (fun h : list (option nat) => forget p <$> h) <$> hist s1 /\ idle_cores s' = idle_cores s1) as (D & C & G & H & I) by done.
  clearbody s'. split.
  2: { split; [congruence|]. split; [congruence|]. rewrite D. split; [apply lookup_delete_eq|]. intros q Hne. rewrite <- Q3. unfold limits. by rewrite D, lookup_delete_ne. }
  destruct T1 as [A1 A2 A3 A4 A5 A6]. split; rewrite ?C, ?G, ?H; try done.
  - by rewrite !length_fmap.
  - intros c q. rewrite list_lookup_fmap, fmap_Some. intros (x & Hx & [-> Hne]%eq_sym%forget_some). rewrite D, lookup_delete_ne by done. by apply (A2 c).
  - intros q d. rewrite D, lookup_delete_Some. intros (Hne & Hd). rewrite cnt_forget by done. by apply A3.
  - intros q. rewrite A5, D. destruct (decide (q = p)) as [->|Hne]; [|by rewrite lookup_delete_ne].
    rewrite lookup_delete_eq. split; [intros (d & Hd & Hc); specialize (Hu d Hd); congruence|by intros (d & ? & _)].
  - intros c h q. rewrite list_lookup_fmap, fmap_Some. intros (h0 & Hh0 & ->) (x & [-> Hne]%eq_sym%forget_some & Hx)%list_elem_of_fmap.
    rewrite D, lookup_delete_ne by done. by apply (A6 c h0).
Qed.

(** ** The tables and the cores *)

(** The process of the kthread that a core has, or is going to have. *)
Definition running (c : nat) (w : iok) : option nat := s ← state w !! c; fst <$> on_core s.

Lemma running_effect k c t w w' : (c < length (state w))%nat -> core_effect k c t w w' ->
  forall c', running c' w' = if decide (c' = c) then fst <$> t else running c' w.
Proof.
  intros Hc (_ & _ & s' & Es & Et) c'. unfold running. rewrite Es. destruct (decide (c' = c)) as [->|Hne].
  - rewrite list_lookup_insert_eq by done. simpl. by rewrite Et.
  - by rewrite list_lookup_insert_ne.
Qed.
Lemma running_pass idles w w' : inv w -> inv w' -> pass_effect idles w w' -> forall c, running c w' = if decide (c ∈ idles) then None else running c w.
Proof.
  intros [_ _ L] [_ _ L'] (_ & _ & H) c. unfold running. destruct (state w' !! c) as [s'|] eqn:Es'.
  - destruct (H c s' Es') as (s & Hs & Ho). rewrite Hs. simpl. rewrite Ho. by destruct (decide _).
  - apply lookup_ge_None in Es'. destruct (decide _); [done|]. rewrite lookup_ge_None_2; [done|lia].
Qed.
Lemma running_state w w' : state w' = state w -> forall c, running c w' = running c w.
Proof. intros E c. unfold running. by rewrite E. Qed.

Section Machine.
Context (m : machine) (Hm : forall c, c ∈ cores_tbl m -> (c < NCPU)%nat) (Hnd : NoDup (cores_tbl m)).

(** [X] are the cores that went idle, and that the policy has not yet seen. *)
Record agrees (X : list nat) (w : io) : Prop := {
  a_inv : inv (sys w);
  a_accounts : accounts m (sys w);
  a_tables : tables (pol w);
  a_clients : forall p, p ∈ clients (sys w) <-> is_Some (data (pol w) !! p);
  a_limits : forall p pr d, procs (sys w) !! p = Some pr -> data (pol w) !! p = Some d -> threads_guaranteed d = guaranteed_cores pr;
  a_cores : forall c p, cores (pol w) !! c = Some (Some p) -> c ∈ cores_tbl m /\ (c ∉ X -> running c (sys w) = Some p);
  a_idle : forall c, c ∈ idle_cores (pol w) -> c ∈ cores_tbl m /\ cores (pol w) !! c = Some None /\ running c (sys w) = None;
  a_x : forall c, c ∈ X -> c ∈ cores_tbl m /\ running c (sys w) = None;
  a_meters : forall p, p ∈ clients (sys w) -> exists mts, meters_of w !! p = Some mts /\ forall pr, procs (sys w) !! p = Some pr -> length mts = thread_count pr
}.

Lemma client_alive w p : inv w -> p ∈ clients w -> is_Some (procs w !! p).
Proof. intros [B _ _] Hp. apply (b_alive _ _ _ B). unfold holders. apply elem_of_app. by left. Qed.

(** *** Running a kthread *)

Lemma avail_idle pr : proc_ok pr -> sched_threads_avail pr = length (idle_threads pr).
Proof.
  intros [P1 P2 _ _ _ _]. apply Permutation_length in P1. rewrite length_app, length_seq in P1. unfold act in P1. rewrite length_take in P1.
  unfold sched_threads_avail. lia.
Qed.
Lemma pick_some pr c : idle_threads pr <> [] -> is_Some (sched_pick_kthread m pr c).
Proof.
  intros Hl. unfold sched_pick_kthread. destruct (List.find _ (idle_threads pr)); [by eexists|]. destruct (if noht m then _ else _); [by eexists|].
  destruct (idle_threads pr) as [|x l] using rev_ind; [done|]. rewrite last_snoc. by eexists.
Qed.
Lemma run_on_core_ret e p pr c w r w' : procs w !! p = Some pr -> idle_threads pr <> [] -> c ∈ cores_tbl m ->
  sched_run_on_core m e p c w = Some (r, w') -> r = 0.
Proof.
  intros Hp Hl Hc. unfold sched_run_on_core. rewrite Hp. cbn [mbind option_bind]. destruct (pick_some pr c Hl) as [i ->].
  destruct (idle_threads pr) as [|x l]; [done|]. rewrite bool_decide_true by done. cbn [negb].
  destruct (proc_get p w) as [w1|]; cbn [mbind option_bind]; [|done]. destruct (sched_enable_kthread _ c w1) as [w2|]; cbn [mbind option_bind]; [|done].
  unfold sched_run. destruct (state w2 !! c) as [s|]; cbn [mbind option_bind]; [|done]. destruct (wait s).
  - destruct (retire_opt _ _ _); cbn [mbind option_bind]; [|done]. by intros [= <- _].
  - match goal with |- context [mbind _ ?x] => destruct x end; cbn [mbind option_bind]; [|done]. by intros [= <- _].
Qed.

Lemma agrees_make_meters X X' w w' : agrees X w -> inv (sys w') -> keeps m (sys w) (sys w') -> tables (pol w') -> (forall q, limits (pol w') q = limits (pol w) q) ->
  (forall p mts, meters_of w !! p = Some mts -> exists mts', meters_of w' !! p = Some mts' /\ length mts' = length mts) ->
  (forall c p, cores (pol w') !! c = Some (Some p) -> c ∈ cores_tbl m /\ (c ∉ X' -> running c (sys w') = Some p)) ->
  (forall c, c ∈ idle_cores (pol w') -> c ∈ cores_tbl m /\ cores (pol w') !! c = Some None /\ running c (sys w') = None) ->
  (forall c, c ∈ X' -> c ∈ cores_tbl m /\ running c (sys w') = None) -> agrees X' w'.
Proof.
  intros A Hi K T L Hme Hc Hd Hx. split; try done.
  - apply (accounts_keeps m (sys w)); [done|done|apply A].
  - intros p. rewrite (limits_some _ _ p L). destruct K as ((_ & _ & ->) & _). apply A.
  - intros p pr' d' Hp Hd'. destruct K as (_ & K). destruct (K p pr' Hp) as (pr & Hpr & ((_ & -> & _) & _)). specialize (L p). unfold limits in L.
    rewrite Hd' in L. simpl in L. destruct (data (pol w) !! p) as [d|] eqn:Ed; [|done]. simpl in L. injection L as -> _. by apply (a_limits _ _ A p).
  - intros p. destruct K as ((_ & _ & ->) & K). intros Hp. destruct (a_meters _ _ A p Hp) as (mts & Hm1 & Hm2). destruct (Hme p mts Hm1) as (mts' & Hm3 & Hm4).
    exists mts'. split; [done|]. intros pr' Hp'. destruct (K p pr' Hp') as (pr & Hpr & ((_ & _ & ->) & _)). rewrite Hm4. by apply Hm2.
Qed.
Lemma agrees_make X X' w w' : agrees X w -> inv (sys w') -> keeps m (sys w) (sys w') -> tables (pol w') -> (forall q, limits (pol w') q = limits (pol w) q) ->
  meters_of w' = meters_of w ->
  (forall c p, cores (pol w') !! c = Some (Some p) -> c ∈ cores_tbl m /\ (c ∉ X' -> running c (sys w') = Some p)) ->
  (forall c, c ∈ idle_cores (pol w') -> c ∈ cores_tbl m /\ cores (pol w') !! c = Some None /\ running c (sys w') = None) ->
  (forall c, c ∈ X' -> c ∈ cores_tbl m /\ running c (sys w') = None) -> agrees X' w'.
Proof. intros A Hi K T L Hme Hc Hd Hx. apply (agrees_make_meters X X' w); try done. rewrite Hme. intros p mts Hp. by exists mts. Qed.
(** The policy's own tables, when neither the cores nor the idle cores change. *)
Lemma agrees_quiet X w s : agrees X w -> tables s -> quiet (pol w) s -> agrees X (w <| pol := s |>).
Proof.
  intros A T (Q1 & Q2 & Q3). apply (agrees_make X X w); try done; simpl; rewrite ?Q1, ?Q2; try apply A. apply keeps_refl.
Qed.

Definition granted (p c : nat) (w w' : io) : Prop :=
  cores (pol w') = <[c := Some p]> (cores (pol w)) /\ (forall q, limits (pol w') q = limits (pol w) q) /\
  clients (sys w') = clients (sys w) /\ (length (ts (sys w')) <= 1 + length (ts (sys w)))%nat.

Lemma grant_ok X p c i w sy : agrees X w -> p ∈ clients (sys w) -> c ∈ cores_tbl m -> inv sy -> keeps m (sys w) sy -> core_effect 1 c (Some (p, i)) (sys w) sy ->
  exists s d, simple_cleanup_core c (pol w) = Some s /\ data s !! p = Some d /\
    let w' := w <| sys := sy |> <| pol := set_data p (d <| threads_active := threads_active d + 1 |> <| waking := true |>) s
                   <| cores := <[c := Some p]> (cores s) |> <| idle_cores := idle_cores s ∖ {[c]} |> |> in
    agrees (filter (fun c' => c' <> c) X) w' /\ granted p c w w'.
Proof using Hm.
  intros A Hp Hc Hi K Ef. pose proof (Hm c Hc) as Hcn. destruct (cleanup_ok (pol w) (a_tables _ _ A) c Hcn) as (s & E & T & S1 & S2 & S3).
  assert (is_Some (data s !! p)) as [d Hd] by (apply (limits_some _ _ p S3); by apply A). exists s, d. split; [done|]. split; [done|].
  assert (length (cores (pol w)) = NCPU) as L by apply (a_tables _ _ A).
  destruct (assign_ok s T c p d) as [T' L']; [rewrite S1; apply list_lookup_insert_eq; lia|done|].
  assert (length (state (sys w)) = NCPU) as Ls by apply (a_inv _ _ A).
  pose proof (running_effect 1 c _ _ _ ltac:(by rewrite Ls) Ef) as Hr. destruct Ef as (F1 & F2 & _). intros w'. subst w'.
  split; [|split; [simpl; by rewrite S1, list_insert_insert_eq|split; [intros q; simpl; rewrite <- S3; apply L'|done]]].
  apply (agrees_make X _ w); try done; simpl.
  - intros q. rewrite <- S3. apply L'.
  - intros c' q. rewrite S1, list_insert_insert_eq, Hr. destruct (decide (c' = c)) as [->|Hne].
    + rewrite list_lookup_insert_eq by lia. intros [= <-]. done.
    + rewrite list_lookup_insert_ne by done. intros Hc'. destruct (a_cores _ _ A c' q Hc') as [H1 H2]. split; [done|].
      intros Hx. apply H2. intros Hx'. apply Hx, list_elem_of_filter. done.
  - intros c'. rewrite S1, S2, list_insert_insert_eq, Hr. intros [Hin Hne]%elem_of_difference. rewrite elem_of_singleton in Hne.
    rewrite decide_False, list_lookup_insert_ne by done. by apply A.
  - intros c' [Hne Hx]%list_elem_of_filter. rewrite Hr, decide_False by done. by apply A.
Qed.
Lemma simple_run_ok X e p c w : agrees X w -> p ∈ clients (sys w) -> (length (ts (sys w)) < NCPU)%nat ->
  exists r w', simple_run_kthread_on_core m e p c w = Some (r, w') /\
    ((r <> 0 /\ w' = w /\ forall pr, procs (sys w) !! p = Some pr -> idle_threads pr <> [] -> c ∉ cores_tbl m) \/
     (r = 0 /\ c ∈ cores_tbl m /\ agrees (filter (fun c' => c' <> c) X) w' /\ granted p c w w')).
Proof using Hm.
  intros A Hp Hroom. destruct (client_alive _ p (a_inv _ _ A) Hp) as [pr Hpr]. unfold simple_run_kthread_on_core. rewrite Hpr. cbn [mbind option_bind].
  assert (proc_ok pr) as Hok by (apply (b_procs _ _ _ (i_base _ (a_inv _ _ A)) p pr Hpr)). rewrite (avail_idle pr Hok).
  destruct (length (idle_threads pr) =? 0)%nat eqn:El.
  { eexists _, w. split; [done|]. left. split; [done|]. split; [done|]. intros pr' [= <-] Hne. by destruct (idle_threads pr). }
  destruct (sched_run_on_core_ok m Hm e p c (sys w) (a_inv _ _ A) ltac:(by eexists) Hroom) as (r & sy & E & Hi & Hr).
  pose proof (run_on_core_keeps m e p c (sys w) r sy E) as K. rewrite E. cbn [mbind option_bind].
  destruct Hr as [(Hr & ->)|(-> & Hc & i & Ef)].
  - replace (r =? 0) with false by lia. cbn [negb]. eexists _, _. split; [done|]. left. split; [done|]. split; [by destruct w|].
    intros pr' [= <-] Hne Hc. by apply Hr, (run_on_core_ret e p pr c (sys w) r (sys w)).
  - destruct (grant_ok X p c i w sy A Hp Hc Hi K Ef) as (s & d & E1 & E2 & H1 & H2). change (pol (w <| sys := sy |>)) with (pol w).
    change (negb (0 =? 0)) with false. cbv iota. rewrite E1. cbn [mbind option_bind]. rewrite E2. cbn [mbind option_bind]. eexists _, _. split; [done|]. right. done.
Qed.

(** *** Choosing a core *)

Definition good_core (p : nat) (s : policy) (c : nat) : Prop := c ∈ cores_tbl m /\ core_of s c <> Some p /\ takeable p s c = true.
Lemma not_own_true p s c : not_own p s c = true <-> core_of s c <> Some p.
Proof. unfold not_own. by rewrite negb_true_iff, bool_decide_eq_false. Qed.

Lemma choose_sibling_good p s c : choose_sibling m p s = Some c -> good_core p s c.
Proof.
  unfold choose_sibling. destruct (List.find _ _) as [c0|] eqn:Ef; [|done]. intros [= <-]. apply find_some in Ef as [_ H].
  rewrite !andb_true_iff, bool_decide_eq_true, not_own_true in H. split; tauto.
Qed.
Lemma choose_previous_good p pr l s c :
  (forall i th, threads pr !! i = Some th -> core th = UINT_MAX \/ exists c, c ∈ cores_tbl m /\ core th = Z.of_nat c) ->
  choose_previous m p pr l s = Some c -> good_core p s c.
Proof.
  intros Hth. induction l as [|i l IH]; simpl; [done|]. destruct (threads pr !! i) as [th|] eqn:Ei; cbn [mbind option_bind]; [|done].
  destruct (core th >=? Z.of_nat NCPU) eqn:Ec; [done|]. destruct (Hth i th Ei) as [E|(c0 & Hc0 & E)]; [rewrite E in Ec; done|]. rewrite E, Nat2Z.id.
  destruct (not_own p s c0 && takeable p s c0) eqn:E1.
  - intros [= <-]. apply andb_true_iff in E1 as [H1%not_own_true H2]. done.
  - destruct (noht m); [done|]. destruct (_ && bool_decide _) eqn:E2; [|done]. intros [= <-].
    rewrite !andb_true_iff, bool_decide_eq_true, not_own_true in E2. split; tauto.
Qed.
Lemma choose_core_ok X p w : agrees X w -> is_Some (procs (sys w) !! p) ->
  exists x, simple_choose_core m p w = Some x /\ forall c, x = Some c -> good_core p (pol w) c.
Proof.
  intros A [pr Hp]. unfold simple_choose_core. rewrite Hp. cbn [mbind option_bind].
  destruct (if noht m then None else choose_sibling m p (pol w)) as [c|] eqn:E1.
  { exists (Some c). split; [done|]. intros ? [= <-]. destruct (noht m); [done|by apply choose_sibling_good]. }
  destruct (choose_previous m p pr (idle_threads pr) (pol w)) as [c|] eqn:E2.
  { exists (Some c). split; [done|]. intros ? [= <-]. apply (choose_previous_good p pr (idle_threads pr)); [|done]. intros i th. by apply (ac_core _ _ (a_accounts _ _ A) p pr). }
  destruct (first_idle (pol w)) as [c|] eqn:E3.
  - exists (Some c). split; [done|]. intros ? [= <-]. apply find_some in E3 as [_ E3%bool_decide_eq_true].
    destruct (a_idle _ _ A c E3) as (H1 & H2 & _). unfold good_core, takeable, core_of. by rewrite H2.
  - eexists. split; [done|]. intros c Hc. apply find_some in Hc as [Hin Hc]. rewrite !andb_true_iff, not_own_true in Hc.
    split; [by apply list_elem_of_In|tauto].
Qed.

Lemma add_kthread_ok e p d w : agrees [] w -> data (pol w) !! p = Some d -> (length (ts (sys w)) < NCPU)%nat ->
  exists r w', simple_add_kthread m e p w = Some (r, w') /\
    ((r <> 0 /\ w' = w) \/ (r = 0 /\ threads_active d < threads_max d /\ agrees [] w' /\ exists c, good_core p (pol w) c /\ granted p c w w')).
Proof using Hm.
  intros A Hd Hroom. assert (p ∈ clients (sys w)) as Hp by (apply A; by eexists).
  unfold simple_add_kthread. rewrite Hd. cbn [mbind option_bind]. destruct (threads_active d >=? threads_max d) eqn:Em; [eexists _, w; split; [done|by left]|].
  destruct (choose_core_ok [] p w A (client_alive _ p (a_inv _ _ A) Hp)) as ([c|] & -> & Hc); cbn [mbind option_bind]; [|eexists _, w; split; [done|by left]].
  destruct (simple_run_ok [] e p c w A Hp Hroom) as (r & w' & -> & [(Hr & -> & _)|(-> & _ & A' & G)]); eexists _, _; (split; [done|]); [by left|].
  right. split; [done|]. split; [lia|]. split; [done|]. exists c. by split; [apply Hc|].
Qed.

(** *** Choosing a process *)

Lemma avail_spec X w p pr : agrees X w -> procs (sys w) !! p = Some pr -> negb (sched_threads_avail pr =? 0)%nat = true -> idle_threads pr <> [].
Proof.
  intros A Hp H E. rewrite (avail_idle pr), E in H; [done|]. apply (b_procs _ _ _ (i_base _ (a_inv _ _ A)) p pr Hp).
Qed.
Definition good_proc (w : io) (p : nat) : Prop := p ∈ clients (sys w) /\ exists pr, procs (sys w) !! p = Some pr /\ idle_threads pr <> [].
Lemma candidate_good X w x p : agrees X w -> candidate w x = Some p -> good_proc w p.
Proof.
  intros A. destruct x as [q|]; simpl; [|done]. destruct (wants_core w q) eqn:Er; [|done]. intros [= <-]. unfold wants_core in Er.
  destruct (data (pol w) !! q) as [d|] eqn:Ed; [|done]. destruct (procs (sys w) !! q) as [pr|] eqn:Ep; [|done]. apply andb_true_iff in Er as [_ Er].
  split; [apply A; by eexists|]. exists pr. split; [done|]. by apply (avail_spec X w q).
Qed.
Lemma choose_hist_good X w l k p : agrees X w -> choose_hist m w l k = Some p -> good_proc w p.
Proof.
  intros A. revert k. induction l as [|x l IH]; intros k; simpl; [done|]. destruct (candidate w x) as [q|] eqn:E1; [intros [= <-]; by apply (candidate_good X w x)|].
  destruct (if noht m then None else _) as [q|] eqn:E2; [|by apply IH]. intros [= <-]. destruct (noht m); [done|]. by apply (candidate_good X w) in E2.
Qed.
Lemma choose_kthread_good X c w p : agrees X w -> simple_choose_kthread m c w = Some p -> good_proc w p.
Proof.
  intros A. unfold simple_choose_kthread. destruct (if noht m then None else _) as [q|] eqn:E1.
  { intros [= <-]. destruct (noht m); [done|]. by apply (candidate_good X w) in E1. }
  destruct (choose_hist _ _ _ _) as [q|] eqn:E2; [intros [= <-]; by apply (choose_hist_good X w) in E2|].
  intros [Hin Hav]%find_some. apply list_elem_of_In, (t_congested _ (a_tables _ _ A)) in Hin as (d & Hd & _). split; [apply A; by eexists|].
  unfold has_avail in Hav. destruct (procs (sys w) !! p) as [pr|] eqn:Ep; [|done]. exists pr. split; [done|]. by apply (avail_spec X w p).
Qed.

(** *** Polling *)

Lemma agrees_ext X X' w : (forall c, c ∈ X <-> c ∈ X') -> agrees X w -> agrees X' w.
Proof. intros H [A1 A2 A3 A4 A5 A6 A7 A8 A9]. split; try done. - intros c p. rewrite <- H. apply A6. - intros c. rewrite <- H. apply A8. Qed.

Definition poll_effect (l : list nat) (w w' : io) : Prop :=
  clients (sys w') = clients (sys w) /\ (length (ts (sys w')) <= length l + length (ts (sys w)))%nat /\
  (forall q, limits (pol w') q = limits (pol w) q) /\ forall c, c ∉ l -> cores (pol w') !! c = cores (pol w) !! c.

Lemma release_core_ok X c w : agrees X w -> c ∈ X ->
  exists s s', (match core_of (pol w) c with Some p => simple_unmark_congested p (pol w) | None => Some (pol w) end) = Some s /\
    simple_cleanup_core c s = Some s' /\ agrees X (w <| pol := s' |>) /\ cores s' = <[c := None]> (cores (pol w)) /\
    idle_cores s' = idle_cores (pol w) /\ forall q, limits s' q = limits (pol w) q.
Proof using Hm.
  intros A Hx. destruct (a_x _ _ A c Hx) as [Hc Hr]. pose proof (a_tables _ _ A) as T.
  assert (exists s, (match core_of (pol w) c with Some p => simple_unmark_congested p (pol w) | None => Some (pol w) end) = Some s /\ tables s /\ quiet (pol w) s)
    as (s & E & T1 & (Q1 & Q2 & Q3)).
  { destruct (core_of (pol w) c) as [p|] eqn:Ec; [|by exists (pol w)]. unfold core_of in Ec.
    destruct (cores (pol w) !! c) as [y|] eqn:Ey; simpl in Ec; [|done]. subst y.
    destruct (unmark_ok _ T p (t_cores _ T c p Ey)) as (s & -> & T1 & Q & _). by exists s. }
  destruct (cleanup_ok s T1 c (Hm c Hc)) as (s' & E' & T2 & S1 & S2 & S3). exists s, s'. rewrite Q1 in S1. rewrite Q2 in S2.
  assert (forall q, limits s' q = limits (pol w) q) as L by (intros q; by rewrite S3, Q3). split_and!; try done.
  apply (agrees_make X X w); try done; simpl; [apply A|apply keeps_refl|..].
  - intros c' p. rewrite S1. intros [(_ & ? & _)|(_ & Hk)]%list_lookup_insert_Some; [done|by apply A].
  - intros c'. rewrite S2, S1. intros Hin. destruct (a_idle _ _ A c' Hin) as (H1 & H2 & H3). split; [done|]. split; [|done].
    destruct (decide (c' = c)) as [->|Hne]; [apply list_lookup_insert_eq; by eapply lookup_lt_Some|by rewrite list_lookup_insert_ne].
  - apply A.
Qed.

Lemma poll_idle_core_ok e c l w : agrees (c :: l) w -> c ∉ l -> (length (ts (sys w)) < NCPU)%nat ->
  exists w', poll_idle_core m e c w = Some w' /\ agrees l w' /\ poll_effect [c] w w'.
Proof using Hm.
  intros A Hl Hroom. destruct (a_x _ _ A c ltac:(left)) as [Hc Hr]. destruct (release_core_ok _ c w A ltac:(left)) as (s & s' & E1 & E2 & A1 & S1 & S2 & S3).
  unfold poll_idle_core. rewrite E1. cbn [mbind option_bind]. rewrite E2. cbn [mbind option_bind]. cbv zeta.
  assert (forall c', c' ∉ [c] -> cores s' !! c' = cores (pol w) !! c') as Hcores.
  { intros c' [Hne _]%not_elem_of_cons. rewrite S1. by rewrite list_lookup_insert_ne. }
  destruct (simple_choose_kthread m c (w <| pol := s' |>)) as [p|] eqn:Ek.
  - destruct (choose_kthread_good _ c _ p A1 Ek) as (Hp & pr & Hpr & Hne).
    destruct (simple_run_ok (c :: l) e p c _ A1 Hp Hroom) as (r & w' & -> & [(_ & _ & H)|(-> & _ & A' & G1 & G2 & G3 & G4)]); [by destruct (H pr Hpr Hne)|].
    cbn [mbind option_bind]. exists w'. split; [done|]. split.
    + apply (agrees_ext (filter (fun c' => c' <> c) (c :: l))); [|done]. intros c'. rewrite list_elem_of_filter, elem_of_cons. split; [tauto|]. intros Hin. split; [by intros ->|by right].
    + split; [done|]. split; [simpl in *; lia|]. split; [intros q; by rewrite G2, <- S3|]. intros c' Hc'. rewrite G1. simpl. rewrite list_lookup_insert_ne; [by apply Hcores|].
      intros ->. apply Hc'. left.
  - eexists. split; [done|]. split; [|split; [done|split; [simpl; lia|done]]].
    apply (agrees_make (c :: l) l (w <| pol := s' |>)); try done; try apply A1; [apply keeps_refl|split; apply A1|..].
    + intros c' p Hc'. destruct (a_cores _ _ A1 c' p Hc') as [H1 H2]. split; [done|]. intros Hx. apply H2. rewrite not_elem_of_cons. split; [|done].
      intros ->. simpl in Hc'. rewrite S1 in Hc'. apply list_lookup_insert_Some in Hc' as [(_ & ? & _)|(? & _)]; done.
    + intros c'. simpl. intros [->%elem_of_singleton|Hin]%elem_of_union; [|by apply A1]. split; [done|]. split; [|done].
      rewrite S1. apply list_lookup_insert_eq. destruct (t_len _ (a_tables _ _ A)) as [-> _]. by apply Hm.
    + intros c' Hin. apply A1. by right.
Qed.

Lemma simple_sched_poll_ok e l w : agrees l w -> NoDup l -> (length (ts (sys w)) + length l <= NCPU)%nat ->
  exists w', simple_sched_poll m e l w = Some w' /\ agrees [] w' /\ poll_effect l w w'.
Proof using Hm.
  revert w. induction l as [|c l IH]; intros w A Hl Hroom; simpl; [exists w; by split_and!|].
  apply NoDup_cons in Hl as [Hc Hl]. simpl in Hroom. destruct (poll_idle_core_ok e c l w A Hc) as (w1 & -> & A1 & P1 & P2 & P3 & P4); [lia|]. cbn [mbind option_bind].
  simpl in P2. destruct (IH w1 A1 Hl) as (w' & -> & A' & R1 & R2 & R3 & R4); [lia|]. exists w'. split; [done|]. split; [done|].
  split; [congruence|]. split; [simpl; lia|]. split; [intros q; by rewrite R3|]. intros c' [H1 H2]%not_elem_of_cons. rewrite R4 by done. apply P4. by rewrite list_elem_of_singleton.
Qed.

Lemma final_pass_ok e w : agrees [] w -> (length (ts (sys w)) + length (cores_tbl m) <= NCPU)%nat ->
  exists idles sy w', fast_pass e (cores_tbl m) (sys w) = Some (idles, sy) /\ simple_sched_poll m e idles (w <| sys := sy |>) = Some w' /\ agrees [] w' /\
    (forall c, c ∉ idles -> cores (pol w') !! c = cores (pol w) !! c) /\ forall q, limits (pol w') q = limits (pol w) q.
Proof using Hm Hnd.
  intros A Hroom. destruct (fast_pass_ok e (cores_tbl m) (sys w) (a_inv _ _ A) Hm Hnd) as (idles & sy & E & Hi & P & Hn & Hsub).
  pose proof (running_pass idles _ _ (a_inv _ _ A) Hi P) as Hr. destruct P as (P1 & P2 & _).
  assert (agrees idles (w <| sys := sy |>)) as A1.
  { apply (agrees_make [] idles w); try done; simpl; [by apply (fast_pass_keeps m e (cores_tbl m) _ idles)|apply A|..].
    - intros c p Hc. destruct (a_cores _ _ A c p Hc) as [H1 H2]. split; [done|]. intros Hx. rewrite Hr, decide_False by done. apply H2, not_elem_of_nil.
    - intros c Hc. destruct (a_idle _ _ A c Hc) as (H1 & H2 & H3). split; [done|]. split; [done|]. rewrite Hr. by destruct (decide _).
    - intros c Hc. split; [by apply Hsub|]. by rewrite Hr, decide_True. }
  assert (length idles <= length (cores_tbl m))%nat as Hlen by (apply submseteq_length, NoDup_submseteq; done).
  destruct (simple_sched_poll_ok e idles _ A1 Hn) as (w' & E' & A' & _ & _ & R3 & R4); [simpl; lia|].
  exists idles, sy, w'. done.
Qed.

(** *** The slow pass, and the pass over idle clients *)

(** Process [p], below its guarantee, may take core [c] from [q], which has more than
    its own. *)
Definition preempts (p c q : nat) (s : policy) : Prop :=
  exists dp dq, core_of s c = Some q /\ q <> p /\ data s !! q = Some dq /\ threads_guaranteed dq < threads_active dq /\
    data s !! p = Some dp /\ threads_active dp < threads_guaranteed dp.
Definition loses (w w' : io) (c q : nat) : Prop := core_of (pol w) c = Some q /\ core_of (pol w') c <> Some q.

Lemma granted_preempts p c0 w w' c q : agrees [] w -> good_core p (pol w) c0 -> granted p c0 w w' -> loses w w' c q -> preempts p c q (pol w).
Proof.
  intros A (_ & G1 & G2) (E & _) [Hc Hc']. destruct (decide (c = c0)) as [->|Hne].
  2: { destruct Hc'. unfold core_of in *. by rewrite E, list_lookup_insert_ne. }
  unfold takeable in G2. rewrite Hc in G1, G2. destruct (data (pol w) !! q) as [dq|] eqn:Eq; [|done]. destruct (data (pol w) !! p) as [dp|] eqn:Ep; [|done]. exists dp, dq.
  unfold simple_proc_is_preemptible in G2. rewrite andb_true_iff in G2. split; [done|]. split; [congruence|]. split; [done|]. split; [lia|]. split; [done|lia].
Qed.

(** One client of a pass. *)
Definition step_ok (p : nat) (w w' : io) : Prop :=
  agrees [] w' /\ clients (sys w') = clients (sys w) /\ (length (ts (sys w')) <= 1 + length (ts (sys w)))%nat /\
  forall c q, loses w w' c q -> preempts p c q (pol w).

Lemma step_quiet p w w' : agrees [] w' -> clients (sys w') = clients (sys w) -> ts (sys w') = ts (sys w) -> cores (pol w') = cores (pol w) -> step_ok p w w'.
Proof. intros A Ec Et Eco. split; [done|]. split; [done|]. rewrite Et. split; [lia|]. intros c q [H1 H2]. unfold core_of in *. rewrite Eco in H2. done. Qed.
Lemma step_granted p c w w' : agrees [] w -> agrees [] w' -> good_core p (pol w) c -> granted p c w w' -> step_ok p w w'.
Proof. intros A A' Hc G. split; [done|]. pose proof G as (_ & _ & G3 & G4). split; [done|]. split; [done|]. intros c' q. by apply (granted_preempts p c). Qed.

Lemma add_kthread_step e p w : agrees [] w -> p ∈ clients (sys w) -> (length (ts (sys w)) < NCPU)%nat ->
  exists r w', simple_add_kthread m e p w = Some (r, w') /\ step_ok p w w' /\ (r <> 0 -> w' = w).
Proof using Hm.
  intros A Hp Hroom. destruct (proj1 (a_clients _ _ A p) Hp) as [d Hd].
  destruct (add_kthread_ok e p d w A Hd Hroom) as (r & w' & -> & [(Hr & ->)|(-> & _ & A' & c & G1 & G2)]).
  - exists r, w. split; [done|]. split; [by apply step_quiet|done].
  - exists 0, w'. split; [done|]. split; [by apply (step_granted p c)|done].
Qed.
Lemma notify_step e p delay w : agrees [] w -> p ∈ clients (sys w) -> (length (ts (sys w)) < NCPU)%nat ->
  exists w', simple_notify_congested m e p delay w = Some w' /\ step_ok p w w'.
Proof using Hm.
  intros A Hp Hroom. assert (is_Some (data (pol w) !! p)) as [d Hd] by (by apply A). unfold simple_notify_congested. rewrite Hd. cbn [mbind option_bind]. cbv zeta.
  pose proof (a_tables _ _ A) as T.
  assert (forall s, tables s -> quiet (pol w) s -> step_ok p w (w <| pol := s |>)) as Hq.
  { intros s Ts Q. apply step_quiet; [by apply agrees_quiet|done|done|apply Q]. }
  destruct (waking d).
  { eexists. split; [done|]. destruct (waking_ok _ T p d false Hd). by apply Hq. }
  destruct (negb _).
  { destruct (unmark_ok _ T p ltac:(by eexists)) as (s & -> & T' & Q & _). eexists. split; [done|]. by apply Hq. }
  destruct (is_congested d); [exists w; split; [done|by apply step_quiet]|].
  destruct (add_kthread_step e p w A Hp Hroom) as (r & w' & -> & S & Hr); cbn [mbind option_bind]. destruct (r =? 0) eqn:Er; [by exists w'|].
  rewrite Hr by lia. destruct (mark_ok _ T p ltac:(by eexists)) as (s & -> & T' & Q). eexists. split; [done|]. by apply Hq.
Qed.

(** Other meters, and a process that differs as after a measurement. *)
Lemma agrees_measured p pr pr' mts mts' w : agrees [] w -> procs (sys w) !! p = Some pr -> measured pr pr' -> meters_of w !! p = Some mts -> length mts' = length mts ->
  agrees [] (w <| sys := sys w <| procs := <[p := pr']> (procs (sys w)) |> |> <| meters_of := <[p := mts']> (meters_of w) |>).
Proof.
  intros A Hp Hme Hm1 Hm2. apply (agrees_make_meters [] [] w); try done; simpl; try apply A.
  - destruct (a_inv _ _ A) as [B F L]. split; try done. apply (base_neutral _ _ _ p pr); [done|done|by apply measured_neutral].
  - by apply (measured_keeps m p pr).
  - intros q ms Hq. destruct (decide (q = p)) as [->|Hne]; [rewrite lookup_insert_eq; exists mts'; split; [done|congruence]|]. rewrite lookup_insert_ne by done. by exists ms.
Qed.
Lemma measured_refl pr np : measured pr (pr <| p_next_poll := np |>).
Proof. exists (threads pr), np. split; [by destruct pr|done]. Qed.

Lemma measure_client_ok k e v p w : agrees [] w -> p ∈ clients (sys w) -> (length (ts (sys w)) < NCPU)%nat ->
  exists w', measure_client m k e v p w = Some w' /\ step_ok p w w'.
Proof using Hm.
  intros A Hp Hroom. destruct (client_alive _ p (a_inv _ _ A) Hp) as [pr Hpr]. destruct (a_meters _ _ A p Hp) as (mts & Hm1 & Hm2).
  unfold measure_client. rewrite Hpr. cbn [mbind option_bind]. rewrite Hm1. cbn [mbind option_bind].
  destruct (measure_total (now_tsc v) (cycles_per_us k) (hw_timestamp_enabled k) (noidlefastwake k) (read_proc v p) (read_thread v p) pr mts (Hm2 pr Hpr))
    as (pr' & mts' & refill & d & -> & Hl & Hme). cbn [mbind option_bind]. cbv zeta.
  pose proof (agrees_measured p pr pr' mts mts' w A Hpr Hme Hm1 Hl) as A1. set (w1 := w <| sys := _ |> <| meters_of := _ |>) in *.
  destruct d as [d|]; [|exists w1; split; [done|by apply step_quiet]].
  destruct (notify_step e p (delay_info_of (cycles_per_us k) d) w1 A1 Hp Hroom) as (w' & E & S). exists w'. split; [done|exact S].
Qed.
Lemma add_core_ok k e p w : agrees [] w -> p ∈ clients (sys w) -> (length (ts (sys w)) < NCPU)%nat ->
  exists r w', sched_add_core m k e p w = Some (r, w') /\ step_ok p w w'.
Proof using Hm.
  intros A Hp Hroom. unfold sched_add_core. destruct (noidlefastwake k).
  - destruct (client_alive _ p (a_inv _ _ A) Hp) as [pr Hpr]. destruct (a_meters _ _ A p Hp) as (mts & Hm1 & _). rewrite Hpr. cbn [mbind option_bind].
    eexists _, _. split; [done|]. pose proof (agrees_measured p pr (pr <| p_next_poll := 0 |>) mts mts w A Hpr (measured_refl pr 0) Hm1 eq_refl) as A1.
    rewrite (insert_id (meters_of w) p mts Hm1) in A1. by apply step_quiet.
  - destruct (add_kthread_step e p w A Hp Hroom) as (r & w' & E & S & _). by exists r, w'.
Qed.
Lemma check_idle_ok k e v p w : agrees [] w -> p ∈ clients (sys w) -> (length (ts (sys w)) < NCPU)%nat ->
  exists w', check_idle_client m k e v p w = Some w' /\ step_ok p w w'.
Proof using Hm.
  intros A Hp Hroom. destruct (client_alive _ p (a_inv _ _ A) Hp) as [pr Hpr]. destruct (a_meters _ _ A p Hp) as (mts & Hm1 & Hm2).
  unfold check_idle_client. rewrite Hpr. cbn [mbind option_bind]. destruct (_ || _); [exists w; split; [done|by apply step_quiet]|]. rewrite Hm1. cbn [mbind option_bind].
  pose proof (detect_length (now_tsc v) (cycles_per_us k) (hw_timestamp_enabled k) (read_thread v p) 0 mts) as Hl.
  destruct (sched_detect_io_for_idle_runtime _ _ _ _ _ mts) as [mts' busy]. cbn [fst] in Hl. cbv zeta.
  assert (agrees [] (w <| meters_of := <[p := mts']> (meters_of w) |>)) as A1.
  { apply (agrees_make_meters [] [] w); try done; simpl; try apply A; [apply keeps_refl|]. intros q ms Hq. destruct (decide (q = p)) as [->|Hne].
    - rewrite lookup_insert_eq. exists mts'. split; [done|congruence].
    - rewrite lookup_insert_ne by done. by exists ms. }
  destruct busy; [|eexists; split; [done|by apply step_quiet]].
  destruct (add_core_ok k e p _ A1 Hp Hroom) as (r & w' & E & S). rewrite E. cbn [mbind option_bind]. exists w'. split; [done|exact S].
Qed.

(** A pass over clients, for either kind of step. *)
Fixpoint pass (f : nat -> io -> option io) (l : list nat) (w : io) : option io :=
  match l with [] => Some w | p :: l => w ← f p w; pass f l w end.
Lemma slow_pass_eq k e v l w : slow_pass m k e v l w = pass (measure_client m k e v) l w.
Proof. revert w. induction l as [|p l IH]; intros w; simpl; [done|]. destruct (measure_client m k e v p w); [apply IH|done]. Qed.
Lemma idle_pass_eq k e v l w : idle_pass m k e v l w = pass (check_idle_client m k e v) l w.
Proof. revert w. induction l as [|p l IH]; intros w; simpl; [done|]. destruct (check_idle_client m k e v p w); [apply IH|done]. Qed.

Lemma pass_ok f l w : (forall p w, agrees [] w -> p ∈ clients (sys w) -> (length (ts (sys w)) < NCPU)%nat -> exists w', f p w = Some w' /\ step_ok p w w') ->
  agrees [] w -> (forall p, p ∈ l -> p ∈ clients (sys w)) -> (length (ts (sys w)) + length l <= NCPU)%nat ->
  exists w', pass f l w = Some w' /\ agrees [] w' /\ clients (sys w') = clients (sys w) /\ (length (ts (sys w')) <= length l + length (ts (sys w)))%nat /\
    forall c q, loses w w' c q -> exists l1 p l2 w1, l = l1 ++ p :: l2 /\ pass f l1 w = Some w1 /\ preempts p c q (pol w1).
Proof.
  intros Hf. revert w. induction l as [|p l IH]; intros w A Hin Hroom; simpl.
  { exists w. split; [done|]. split; [done|]. split; [done|]. split; [lia|]. by intros c q [H1 H2]. }
  simpl in Hroom. destruct (Hf p w A (Hin p ltac:(left)) ltac:(lia)) as (w1 & E1 & A1 & C1 & T1 & L1). rewrite E1. cbn [mbind option_bind].
  destruct (IH w1 A1) as (w' & E' & A' & C' & T' & L'); [intros q Hq; rewrite C1; apply Hin; by right|lia|].
  exists w'. split; [done|]. split; [done|]. split; [congruence|]. split; [lia|]. intros c q [H1 H2].
  destruct (decide (core_of (pol w1) c = Some q)) as [Hc|Hc].
  - destruct (L' c q (conj Hc H2)) as (l1 & p' & l2 & w2 & -> & E2 & P). exists (p :: l1), p', l2, w2. split; [done|]. split; [|done]. simpl. by rewrite E1.
  - exists [], p, l, w. split; [done|]. split; [done|]. by apply L1.
Qed.
Lemma first_pass_ok k e v w : agrees [] w -> (length (ts (sys w)) + length (clients (sys w)) <= NCPU)%nat ->
  exists w', first_pass m k e v w = Some w' /\ agrees [] w' /\ clients (sys w') = clients (sys w) /\
    (length (ts (sys w')) <= length (clients (sys w)) + length (ts (sys w)))%nat /\
    forall c q, loses w w' c q -> exists l1 p l2 w0 w1, clients (sys w) = l1 ++ p :: l2 /\ pol w0 = pol w /\
      (slow_pass m k e v l1 w0 = Some w1 \/ idle_pass m k e v l1 w0 = Some w1) /\ preempts p c q (pol w1).
Proof using Hm.
  intros A Hroom. unfold first_pass. cbv zeta. set (w0 := w <| sys := _ |>). set (now := u64 _ / _).
  assert (agrees [] w0 /\ forall t, agrees [] (w0 <| last_time := t |>)) as [A0 At].
  { assert (forall t, agrees [] (w0 <| last_time := t |>)) as At; [|split; [specialize (At (last_time w0)); exact At|exact At]].
    intros t. apply (agrees_make [] [] w); try done; simpl; try apply A.
    - destruct (a_inv _ _ A) as [B F L]. split; try done. by apply (base_ext (sys w) _ _ _ [] [] B).
    - apply (keeps_ext m _ (sys w)); [apply keeps_refl|done..]. }
  destruct (_ >=? _); [|destruct (negb _)].
  - rewrite slow_pass_eq. destruct (pass_ok _ (clients (sys w0)) _ (measure_client_ok k e v) (At now) ltac:(done) Hroom) as (w' & -> & A' & C' & T' & L').
    exists w'. split; [done|]. split; [done|]. split; [done|]. split; [done|]. intros c q Hl. destruct (L' c q Hl) as (l1 & p & l2 & w1 & E1 & E2 & P).
    eexists l1, p, l2, _, w1. split; [done|]. split; [|split; [left; rewrite slow_pass_eq; exact E2|done]]. done.
  - rewrite idle_pass_eq. destruct (pass_ok _ (clients (sys w0)) _ (check_idle_ok k e v) A0 ltac:(done) Hroom) as (w' & -> & A' & C' & T' & L').
    exists w'. split; [done|]. split; [done|]. split; [done|]. split; [done|]. intros c q Hl. destruct (L' c q Hl) as (l1 & p & l2 & w1 & E1 & E2 & P).
    eexists l1, p, l2, _, w1. split; [done|]. split; [|split; [right; rewrite idle_pass_eq; exact E2|done]]. done.
  - exists w0. split; [done|]. split; [done|]. split; [done|]. split; [simpl; lia|]. by intros c q [H1 H2].
Qed.

(** *** Processes that arrive and leave *)

Lemma agrees_others p w sy s M : agrees [] w -> inv sy -> accounts m sy -> other_clients p (sys w) sy -> tables s -> idle_cores s = idle_cores (pol w) ->
  (forall c q, cores s !! c = Some (Some q) -> cores (pol w) !! c = Some (Some q)) ->
  (forall c, cores (pol w) !! c = Some None -> cores s !! c = Some None) ->
  (forall q, q <> p -> limits s q = limits (pol w) q) -> (p ∈ clients sy <-> is_Some (data s !! p)) ->
  (forall pr d, procs sy !! p = Some pr -> data s !! p = Some d -> threads_guaranteed d = guaranteed_cores pr) ->
  (forall q, q <> p -> M !! q = meters_of w !! q) ->
  (p ∈ clients sy -> exists mts, M !! p = Some mts /\ forall pr, procs sy !! p = Some pr -> length mts = thread_count pr) ->
  agrees [] (w <| sys := sy |> <| pol := s |> <| meters_of := M |>).
Proof.
  intros A Hi Ha (O1 & O2 & O3 & O4) T Ei Hc Hc0 L Hp Hg HM HMp. pose proof (running_state _ _ O1) as Hr. split; simpl; try done.
  - intros q. destruct (decide (q = p)) as [->|Hne]; [done|]. rewrite (O3 q Hne), (a_clients _ _ A). specialize (L q Hne). unfold limits in L.
    rewrite <- (fmap_is_Some (fun d => (threads_guaranteed d, threads_max d)) (data s !! q)), L. by rewrite fmap_is_Some.
  - intros q pr' d' Hq Hd'. destruct (decide (q = p)) as [->|Hne]; [by apply Hg|]. destruct (O4 q pr' Hne Hq) as (pr & Hpr & -> & _).
    specialize (L q Hne). unfold limits in L. rewrite Hd' in L. destruct (data (pol w) !! q) as [d|] eqn:Ed; [|done]. simpl in L. injection L as -> _.
    by apply (a_limits _ _ A q).
  - intros c q Hcq. rewrite Hr. by apply A, Hc.
  - intros c. rewrite Ei, Hr. intros Hin. destruct (a_idle _ _ A c Hin) as (H1 & H2 & H3). split; [done|]. split; [by apply Hc0|done].
  - by intros c ?%not_elem_of_nil.
  - intros q Hq. destruct (decide (q = p)) as [->|Hne]; [by apply HMp|]. rewrite (HM q Hne). apply (O3 q Hne) in Hq. destruct (a_meters _ _ A q Hq) as (mts & Hm1 & Hm2).
    exists mts. split; [done|]. intros pr' Hq'. destruct (O4 q pr' Hne Hq') as (pr & Hpr & _ & ->). by apply Hm2.
Qed.

(** The cores of the other processes stay theirs. *)
Definition keep_cores (p : nat) (w w' : io) : Prop := forall c q, q <> p -> cores (pol w) !! c = Some (Some q) -> cores (pol w') !! c = Some (Some q).
Lemma keep_forget p w w' : cores (pol w') = forget p <$> cores (pol w) -> keep_cores p w w'.
Proof. intros E c q Hne Hc. rewrite E, list_lookup_fmap, Hc. simpl. f_equal. by apply forget_some. Qed.

Lemma add_proc_ok hok mok p pr mts max qd w : agrees [] w -> procs (sys w) !! p = None -> fresh_proc pr = true -> 0 <= guaranteed_cores pr <= Z.of_nat NCPU ->
  length mts = thread_count pr -> exists w', add_proc m hok mok p pr mts max qd w = Some w' /\ agrees [] w' /\ keep_cores p w w'.
Proof using Hm Hnd.
  intros A Hp Hf Hg Hmts. pose proof (a_inv _ _ A) as Hi. destruct (add_client_ok m hok mok p pr (sys w) Hi Hp Hf) as (sy & E & Hi').
  pose proof (accounts_add m Hm Hnd hok mok p pr _ _ Hi (a_accounts _ _ A) Hp Hf Hg E) as Hac.
  assert (p ∉ clients (sys w)) as Hnc by (intros Hin; destruct (client_alive _ p Hi Hin); congruence).
  destruct (add_others m hok mok p pr _ _ E Hp Hnc (b_clients _ _ _ (i_base _ Hi))) as (Ho & Hnone & Hcl & Hgu).
  assert (data (pol w) !! p = None) as Hd by (apply eq_None_not_Some; rewrite <- (a_clients _ _ A); done).
  unfold add_proc. rewrite E. cbn [mbind option_bind]. destruct (fst (sched_attach_proc m pr (sys w))) as [pr'|].
  2: { eexists. split; [done|]. rewrite Hnone by done. split; [by destruct w|by intros c q _ Hc]. }
  cbv zeta. set (s := simple_attach _ _ _). pose proof (attach_tables p (SchedSpec max (guaranteed_cores pr) qd) (pol w) (a_tables _ _ A) Hd : tables s) as T.
  assert (forall q, q <> p -> limits s q = limits (pol w) q) as L by (intros q Hne; unfold limits; simpl; by rewrite lookup_insert_ne).
  assert (data s !! p = Some (SimpleData false qd (s32 (guaranteed_cores pr)) (s32 max) 0 false)) as Hs by apply lookup_insert_eq.
  case_bool_decide as Hc.
  - eexists. split; [done|]. split; [|by intros c q _ Hcq]. apply (agrees_others p w sy s (<[p := mts]> (meters_of w))); try done.
    + intros pr0 d Hpr0 Hd0. rewrite Hs in Hd0. injection Hd0 as <-. destruct (Hgu pr0 Hpr0) as [-> _]. simpl. apply s32_small. unfold is_s32, NCPU in *. lia.
    + intros q Hne. by rewrite lookup_insert_ne.
    + intros _. rewrite lookup_insert_eq. exists mts. split; [done|]. intros pr0 Hpr0. destruct (Hgu pr0 Hpr0) as [_ ->]. done.
  - destruct (detach_tables p s T ltac:(rewrite Hs; by eexists)) as (s' & -> & T' & C1 & C2 & C3 & C4). cbn [mbind option_bind]. eexists. split; [done|].
    split; [|by apply keep_forget]. apply (agrees_others p w sy s' (meters_of w)); try done;
      [|intros c Hc0|intros q Hne; rewrite C4; [by apply L|done]|rewrite C3; split; [done|by intros [? ?]]|congruence].
    + intros c q. rewrite C1, list_lookup_fmap, fmap_Some. by intros (x & Hx & [-> _]%eq_sym%forget_some).
    + rewrite C1, list_lookup_fmap. change (cores s) with (cores (pol w)). by rewrite Hc0.
Qed.

Lemma remove_proc_ok p w : agrees [] w -> exists w', remove_proc p w = Some w' /\ agrees [] w' /\ keep_cores p w w'.
Proof using Hm Hnd.
  intros A. unfold remove_proc. case_bool_decide as Hp; [|exists w; split; [done|]; split; [done|]; by intros c q _ Hcq]. pose proof (a_inv _ _ A) as Hi.
  destruct (detach_tables p (pol w) (a_tables _ _ A) ltac:(by apply A)) as (s' & -> & T' & C1 & C2 & C3 & C4). cbn [mbind option_bind].
  destruct (remove_client_ok p (sys w) Hi) as (sy & E & Hi'). rewrite E. cbn [mbind option_bind]. eexists. split; [done|].
  split; [|by apply keep_forget]. destruct (accounts_remove m Hm Hnd p _ _ Hi (a_accounts _ _ A) E) as [Hac _]. destruct (remove_others p _ _ E) as (Ho & Hn & _).
  assert (p ∉ clients sy) as Hnp by (apply Hn, (b_clients _ _ _ (i_base _ Hi))).
  apply (agrees_others p w sy s' (meters_of w)); try done; [|intros c Hc0| |congruence].
  - intros c q. rewrite C1, list_lookup_fmap, fmap_Some. by intros (x & Hx & [-> _]%eq_sym%forget_some).
  - by rewrite C1, list_lookup_fmap, Hc0.
  - rewrite C3. split; [done|by intros [? ?]].
Qed.

(** *** Enough cores for the guarantees *)

Lemma owned_positions (l : list (option nat)) ks :
  exists P : list nat, Z.of_nat (length P) = sum_list ((fun q => cnt (Some q) l) <$> ks) /\ forall c q, q ∈ ks -> l !! c = Some (Some q) -> c ∈ P.
Proof.
  induction ks as [|k ks (P & H1 & H2)]; [exists []; split; [done|]; by intros c q ?%not_elem_of_nil|].
  destruct (cnt_positions (Some k) l) as (L & _ & L2 & L3). exists (L ++ P). rewrite fmap_cons, sum_list_cons, length_app. split; [lia|].
  intros c q [->|Hq]%elem_of_cons Hc; apply elem_of_app; [left; by apply L3|right; by apply (H2 c q)].
Qed.
Lemma sum_list_lt {A} (f g : A -> Z) ks p : (forall q, q ∈ ks -> f q <= g q) -> p ∈ ks -> f p < g p -> sum_list (f <$> ks) < sum_list (g <$> ks).
Proof.
  intros Hle Hp Hlt. induction ks as [|k ks IH]; [by apply not_elem_of_nil in Hp|]. rewrite !fmap_cons, !sum_list_cons.
  assert (forall ks', (forall q, q ∈ ks' -> f q <= g q) -> sum_list (f <$> ks') <= sum_list (g <$> ks')) as Hsum.
  { induction ks' as [|k' ks' IH']; intros H; [done|]. rewrite !fmap_cons, !sum_list_cons. specialize (IH' (fun q Hq => H q (list_elem_of_further _ _ _ Hq))).
    specialize (H k' (list_elem_of_here _ _)). lia. }
  pose proof (Hle k (list_elem_of_here _ _)). assert (forall q, q ∈ ks -> f q <= g q) as Hle' by (intros q Hq; apply Hle; by right).
  apply elem_of_cons in Hp as [->|Hp]; [specialize (Hsum ks Hle'); lia|specialize (IH Hle' Hp); lia].
Qed.

Lemma choose_core_some X p d w : agrees X w -> data (pol w) !! p = Some d -> threads_active d < threads_guaranteed d ->
  (forall c, c ∈ cores_tbl m -> core_of (pol w) c = None -> c ∈ idle_cores (pol w)) -> simple_choose_core m p w <> Some None.
Proof using Hm Hnd.
  intros A Hd Hlt Hlimbo. assert (p ∈ clients (sys w)) as Hp by (apply A; by eexists). destruct (client_alive _ p (a_inv _ _ A) Hp) as [pr Hpr].
  unfold simple_choose_core. rewrite Hpr. cbn [mbind option_bind]. destruct (if noht m then None else _); [done|]. destruct (choose_previous _ _ _ _ _); [done|].
  destruct (first_idle (pol w)) eqn:E1; [done|]. destruct (choose_preemptible m p (pol w)) eqn:E2; [done|]. exfalso.
  assert (forall c, c ∈ cores_tbl m -> exists q, cores (pol w) !! c = Some (Some q)) as Hown.
  { intros c Hc. unfold core_of in Hlimbo. specialize (Hlimbo c Hc). destruct (cores (pol w) !! c) as [[q|]|] eqn:Ec; [by exists q|..].
    all: specialize (Hlimbo eq_refl); assert (bool_decide (c ∈ idle_cores (pol w)) = false) as E by
      (apply (find_none _ _ E1 c), list_elem_of_In, elem_of_seq; specialize (Hm c Hc); lia).
    all: by apply bool_decide_eq_false in E. }
  pose proof (a_tables _ _ A) as T. pose proof (a_accounts _ _ A) as Ac.
  assert (forall q, q ∈ clients (sys w) -> exists dq, data (pol w) !! q = Some dq /\ threads_guaranteed dq = guarantee (sys w) q) as Hgu.
  { intros q Hq. destruct (proj1 (a_clients _ _ A q) Hq) as [dq Hdq]. exists dq. split; [done|]. destruct (client_alive _ q (a_inv _ _ A) Hq) as [qr Hqr].
    unfold guarantee. rewrite Hqr. by apply (a_limits _ _ A q). }
  assert (forall q, q ∈ clients (sys w) -> q <> p -> cnt (Some q) (cores (pol w)) <= guarantee (sys w) q) as Hle.
  { intros q Hq Hne. destruct (Hgu q Hq) as (dq & Hdq & <-). destruct (decide (0 < cnt (Some q) (cores (pol w)))) as [Hc|Hc].
    - apply cnt_pos, list_elem_of_lookup in Hc as [c Hc]. destruct (a_cores _ _ A c q Hc) as [Hin _]. apply list_elem_of_In in Hin.
      pose proof (find_none _ _ E2 c Hin) as Hf. unfold not_own, takeable, core_of, simple_proc_is_preemptible in Hf. rewrite Hc in Hf. cbn [mjoin option_join] in Hf.
      rewrite Hdq, Hd, bool_decide_false, bool_decide_true in Hf; [|by eexists|congruence]. rewrite <- (t_active _ T q dq Hdq). cbn [negb andb] in Hf. lia.
    - destruct (Hgu q Hq) as (dq' & Hdq' & E). rewrite Hdq in Hdq'. injection Hdq' as <-. pose proof (guarantee_nonneg m (sys w) q Ac). lia. }
  assert (cnt (Some p) (cores (pol w)) < guarantee (sys w) p) as Hlt'.
  { destruct (Hgu p Hp) as (d' & Hd' & <-). rewrite Hd in Hd'. injection Hd' as <-. by rewrite <- (t_active _ T p d Hd). }
  destruct (owned_positions (cores (pol w)) (clients (sys w))) as (P & P1 & P2).
  assert (length (cores_tbl m) <= length P)%nat as Hlen.
  { apply submseteq_length, NoDup_submseteq; [done|]. intros c Hc. destruct (Hown c Hc) as [q Hq]. apply (P2 c q); [|done]. apply A. by apply (t_cores _ T c). }
  pose proof (sum_list_lt (fun q => cnt (Some q) (cores (pol w))) (guarantee (sys w)) (clients (sys w)) p) as Hsum.
  destruct Ac as [_ _ _ Hs Hfit]. rewrite <- Hs in Hsum. cbv beta in Hsum.
  assert (forall q, q ∈ clients (sys w) -> cnt (Some q) (cores (pol w)) <= guarantee (sys w) q) as Hall.
  { intros q Hq. destruct (decide (q = p)) as [->|Hne]; [lia|by apply Hle]. }
  specialize (Hsum Hall Hp Hlt'). lia.
Qed.

Lemma active_bound p d pr w : agrees [] w -> data (pol w) !! p = Some d -> procs (sys w) !! p = Some pr -> threads_active d <= Z.of_nat (active_thread_count pr).
Proof.
  intros A Hd Hp. pose proof (a_inv _ _ A) as [B _ _]. rewrite (t_active _ (a_tables _ _ A) p d Hd). destruct (cnt_positions (Some p) (cores (pol w))) as (L & L1 & <- & L3).
  assert (forall c, c ∈ L -> exists i, (c, (p, i)) ∈ slots (sys w)) as Hs.
  { intros c Hc%L3. destruct (a_cores _ _ A c p Hc) as [_ Hr]. specialize (Hr ltac:(apply not_elem_of_nil)). unfold running in Hr.
    destruct (state (sys w) !! c) as [s|] eqn:Es; [|done]. cbn [mbind option_bind] in Hr. destruct (on_core s) as [[q i]|] eqn:Eo; [|done]. injection Hr as ->.
    exists i. destruct (slots_at 0 _ c s Es) as (rest & H1 & _). rewrite H1. apply elem_of_app. left. apply list_elem_of_fmap. exists (p, i). split; [done|].
    unfold on_core in Eo. unfold slots_of. rewrite !elem_of_app. destruct (pending s); rewrite Eo; [right; left|do 2 right]; left. }
  assert (exists K, length K = length L /\ NoDup K /\ forall i, i ∈ K -> exists c, c ∈ L /\ (c, (p, i)) ∈ slots (sys w)) as (K & K1 & K2 & K3).
  { clear L3. induction L as [|c L IH]; [exists []; split; [done|]; split; [by apply NoDup_nil|]; by intros i ?%not_elem_of_nil|].
    apply NoDup_cons in L1 as [Hc L1]. destruct IH as (K & K1 & K2 & K3); [done|intros c' Hc'; apply Hs; by right|].
    destruct (Hs c ltac:(left)) as [i Hi]. exists (i :: K). split; [simpl; by rewrite K1|]. split.
    - apply NoDup_cons. split; [|done]. intros Hin. destruct (K3 i Hin) as (c' & Hc' & Hi'). destruct (b_core _ _ _ B _ _ Hi) as (th & Hth & E).
      destruct (b_core _ _ _ B _ _ Hi') as (th' & Hth' & E'). assert (c = c') by (apply Nat2Z.inj; congruence). by subst c'.
    - intros j [->|Hj]%elem_of_cons; [exists c; split; [left|done]|]. destruct (K3 j Hj) as (c' & ? & ?). exists c'. split; [by right|done]. }
  destruct (b_procs _ _ _ B p pr Hp) as (Hok & _). assert (length (act pr) = active_thread_count pr) as <-.
  { unfold act. rewrite length_take. pose proof (po_count _ Hok). lia. }
  apply Nat2Z.inj_le. rewrite <- K1. apply submseteq_length, NoDup_submseteq; [done|]. intros i Hi. destruct (K3 i Hi) as (c & _ & Hc).
  apply (b_owned _ _ _ B p i pr Hp). apply list_elem_of_fmap. by exists (c, (p, i)).
Qed.
End Machine.

(** ** Executions *)

(** What the data path does with the policy in place; [CoreNeeded] is a packet for a
    process without a kthread that runs. *)
Inductive event :=
| Polls (e : env) (v : poll_view) | CoreNeeded (e : env) (p : nat)
| Arrives (hash_ok mem_ok : bool) (p : nat) (pr : proc) (mts : list meters) (max qdelay : Z) | Leaves (p : nat) | Drained (t : tref).

(** What is assumed of the events.  [ts] has room for the kthreads that a poll or a
    request may start to poll ([poll_thread] does not test it), and a process arrives with
    a guarantee of at most [NCPU] cores, as [runtime/cfg.c] sees to ([guaranteedks] is at
    most [maxks]; [sched_attach_proc] does not test it). *)
Definition event_allowed (m : machine) (a : event) (w : io) : bool :=
  match a with
  | Polls _ _ => (length (ts (sys w)) + length (clients (sys w)) + length (cores_tbl m) <=? NCPU)%nat
  | CoreNeeded _ p => bool_decide (p ∈ clients (sys w)) && (length (ts (sys w)) <? NCPU)%nat
  | Arrives _ _ p pr mts _ _ =>
      negb (exists_proc p (sys w)) && fresh_proc pr && (0 <=? guaranteed_cores pr) && (guaranteed_cores pr <=? Z.of_nat NCPU) &&
      (length mts =? thread_count pr)%nat
  | Drained t => bool_decide (t ∈ ts (sys w))
  | Leaves _ => true
  end.
Definition handle (m : machine) (k : params) (a : event) (w : io) : option io :=
  match a with
  | Polls e v => sched_poll m k e v w
  | CoreNeeded e p => snd <$> sched_add_core m k e p w
  | Arrives hok mok p pr mts max qd => add_proc m hok mok p pr mts max qd w
  | Leaves p => remove_proc p w
  | Drained t => sy ← unpoll_thread t (sys w); Some (w <| sys := sy |>)
  end.

Definition io_init (m : machine) : io := Io iok_init (simple_init m) ∅ 0.
Inductive running_policy (m : machine) (k : params) : io -> Prop :=
| PolicyStart : running_policy m k (io_init m)
| PolicyEvent a w w' : running_policy m k w -> event_allowed m a w = true -> handle m k a w = Some w' -> running_policy m k w'.
Definition valid_machine (m : machine) : Prop := (forall c, c ∈ cores_tbl m -> (c < NCPU)%nat) /\ NoDup (cores_tbl m).

Lemma io_init_agrees m : valid_machine m -> agrees m [] (io_init m).
Proof.
  intros [Hm Hnd]. assert (forall c, running c iok_init = None) as Hr.
  { intros c. unfold running. destruct (state iok_init !! c) as [s|] eqn:Es; [|done]. by apply lookup_replicate in Es as [-> _]. }
  split.
  - apply iok_init_inv.
  - split; try done. simpl. lia.
  - split; [split; apply length_replicate|..].
    + intros c p Hc. by apply lookup_replicate in Hc as [? _].
    + done.
    + by apply NoDup_nil.
    + intros p. split; [by intros ?%not_elem_of_nil|by intros (d & ? & _)].
    + intros c h p Hh Hin. apply lookup_replicate in Hh as [-> _]. by apply elem_of_replicate in Hin as [? _].
  - intros p. split; [by intros ?%not_elem_of_nil|by intros [? ?]].
  - done.
  - intros c p Hc. by apply lookup_replicate in Hc as [? _].
  - intros c Hc. simpl in Hc. apply elem_of_list_to_set in Hc. split; [done|]. split; [|apply Hr]. apply lookup_replicate_2. by apply Hm.
  - by intros c ?%not_elem_of_nil.
  - by intros p ?%not_elem_of_nil.
Qed.

(** Why process [q] may lose core [c]: it leaves; or a client, in its turn of a pass
    or when it needs a core, preempts it; or the core went idle. *)
Definition may_lose (m : machine) (k : params) (a : event) (w : io) (c q : nat) : Prop :=
  match a with
  | Leaves p => q = p
  | CoreNeeded _ p => preempts p c q (pol w)
  | Polls e v =>
      (exists l1 p l2 w0 w1, clients (sys w) = l1 ++ p :: l2 /\ pol w0 = pol w /\
        (slow_pass m k e v l1 w0 = Some w1 \/ idle_pass m k e v l1 w0 = Some w1) /\ preempts p c q (pol w1)) \/
      (exists w1 idles sy, first_pass m k e v w = Some w1 /\ fast_pass e (cores_tbl m) (sys w1) = Some (idles, sy) /\ c ∈ idles)
  | _ => False
  end.

Lemma poll_event_ok m k e v w : valid_machine m -> agrees m [] w -> (length (ts (sys w)) + length (clients (sys w)) + length (cores_tbl m) <= NCPU)%nat ->
  exists w', sched_poll m k e v w = Some w' /\ agrees m [] w' /\ forall c q, loses w w' c q -> may_lose m k (Polls e v) w c q.
Proof.
  intros [Hm Hnd] A Hroom. destruct (first_pass_ok m Hm k e v w A ltac:(lia)) as (w1 & E1 & A1 & C1 & T1 & L1).
  destruct (final_pass_ok m Hm Hnd e w1 A1 ltac:(lia)) as (idles & sy & w' & E2 & E3 & A' & Hc & _).
  exists w'. unfold sched_poll. rewrite E1. cbn [mbind option_bind]. rewrite E2. cbn [mbind option_bind]. split; [done|]. split; [done|].
  intros c q [H1 H2]. destruct (decide (core_of (pol w1) c = Some q)) as [H3|H3]; [|left; by apply L1]. right. exists w1, idles, sy.
  split; [done|]. split; [done|]. destruct (decide (c ∈ idles)); [done|]. destruct H2. unfold core_of in *. by rewrite Hc.
Qed.

Lemma handle_ok m k a w : valid_machine m -> agrees m [] w -> event_allowed m a w = true -> exists w', handle m k a w = Some w' /\ agrees m [] w' /\
  forall c q, loses w w' c q -> may_lose m k a w c q.
Proof.
  intros [Hm Hnd] A Ha. destruct a as [e v|e p|hok mok p pr mts max qd|p|t]; simpl handle; simpl in Ha.
  - apply Nat.leb_le in Ha. by apply poll_event_ok.
  - apply andb_true_iff in Ha as [Hp%bool_decide_eq_true Hroom%Nat.ltb_lt]. destruct (add_core_ok m Hm k e p w A Hp Hroom) as (r & w' & E & A' & _ & _ & L).
    rewrite E. by exists w'.
  - rewrite !andb_true_iff, negb_true_iff in Ha. destruct Ha as ((((Hp & Hf) & Hg1) & Hg2) & Hl%Nat.eqb_eq). unfold exists_proc in Hp.
    assert (procs (sys w) !! p = None) as Hnone by (by destruct (procs (sys w) !! p)).
    destruct (add_proc_ok m Hm Hnd hok mok p pr mts max qd w A Hnone Hf ltac:(lia) Hl) as (w' & E & A' & K). exists w'. split; [done|]. split; [done|].
    intros c q [Hc Hne]. destruct Hne. unfold core_of in *. destruct (cores (pol w) !! c) as [x|] eqn:Ec; [|done]. simpl in Hc. subst x.
    rewrite (K c q); [done| |done]. intros ->. destruct (client_alive (sys w) p (a_inv _ _ _ A)) as [? ?]; [apply A; by apply (t_cores _ (a_tables _ _ _ A) c)|congruence].
  - destruct (remove_proc_ok m Hm Hnd p w A) as (w' & E & A' & K). exists w'. split; [done|]. split; [done|]. intros c q [Hc Hne].
    simpl. destruct (decide (q = p)) as [->|Hqp]; [done|]. destruct Hne. unfold core_of in *. destruct (cores (pol w) !! c) as [x|] eqn:Ec; [|done].
    simpl in Hc. subst x. by rewrite (K c q).
  - pose proof (a_inv _ _ _ A) as Hi. destruct Hi as [B F L]. apply bool_decide_eq_true, list_elem_of_lookup in Ha as [n Hn].
    destruct (b_ts _ _ _ B n t Hn) as (th & Hth & _). destruct (unpoll_thread_ok (sys w) _ [] t B) as (sy & E & B' & (F1 & F2 & F3)); [by eexists|].
    rewrite E. eexists. split; [done|]. pose proof (running_state _ _ F1) as Hr. split; [|by intros c q [H1 H2]].
    apply (agrees_make m [] [] w); try done; simpl; try setoid_rewrite Hr; try apply A.
    + split; rewrite F1; done.
    + by apply (unpoll_thread_keeps m t).
Qed.
Lemma policy_agrees m k w : valid_machine m -> running_policy m k w -> agrees m [] w.
Proof.
  intros Hm. induction 1 as [|a w w' _ IH Ha E]; [by apply io_init_agrees|]. destruct (handle_ok m k a w Hm IH Ha) as (w2 & E2 & H2 & _). congruence.
Qed.

(** ** Main results *)

(** C24: whatever the data path reports, in any order, as long as the arrays have room (a
    poll comes when polled kthreads, clients and cores are at most [NCPU] together, a
    request for a core when fewer than [NCPU] kthreads are polled) and a process arrives
    with a guarantee of 0 to [NCPU] cores: no event fails; the policy's table of cores
    agrees with the scheduler (a core that it gives to a process has a kthread of that
    process, an idle core has none); the count of a process is the number of its cores,
    and not more than its active kthreads; the congested processes are those that are
    marked; and the guarantees of the clients fit the machine. *)
Theorem policy_tables_agree m k w : valid_machine m -> running_policy m k w ->
  (forall a, event_allowed m a w = true -> is_Some (handle m k a w)) /\
  (forall c p, core_of (pol w) c = Some p -> c ∈ cores_tbl m /\ exists i, sched_get_thread_on_core c (sys w) = Some (Some (p, i))) /\
  (forall c, c ∈ idle_cores (pol w) -> c ∈ cores_tbl m /\ core_of (pol w) c = None /\ sched_get_thread_on_core c (sys w) = Some None) /\
  (forall p, p ∈ clients (sys w) -> exists d pr, data (pol w) !! p = Some d /\ procs (sys w) !! p = Some pr /\
    threads_active d = cnt (Some p) (cores (pol w)) /\ threads_active d <= Z.of_nat (active_thread_count pr) /\
    (is_congested d = true <-> p ∈ congested_procs (pol w))) /\
  sum_list (guarantee (sys w) <$> clients (sys w)) <= Z.of_nat (length (cores_tbl m)).
Proof.
  intros Hm Hr. pose proof (policy_agrees m k w Hm Hr) as A. split; [|split; [|split; [|split]]].
  - intros a Ha. destruct (handle_ok m k a w Hm A Ha) as (w' & -> & _). by eexists.
  - intros c p Hc. unfold core_of in Hc. destruct (cores (pol w) !! c) as [x|] eqn:Ec; [|done]. simpl in Hc. subst x.
    destruct (a_cores _ _ _ A c p Ec) as [Hin Hrun]. split; [done|]. specialize (Hrun ltac:(apply not_elem_of_nil)). unfold running in Hrun.
    unfold sched_get_thread_on_core. destruct (state (sys w) !! c) as [s|]; [|done]. cbn [mbind option_bind] in *. unfold on_core in Hrun.
    destruct (if pending s then pending_th s else cur_th s) as [[q i]|]; [|done]. injection Hrun as ->. by exists i.
  - intros c Hc. destruct (a_idle _ _ _ A c Hc) as (H1 & H2 & H3). split; [done|]. unfold core_of. rewrite H2. split; [done|].
    destruct (allowed_core m (sys w) c (a_inv _ _ _ A) (proj1 Hm) H1) as [s Hs]. unfold running in H3. unfold sched_get_thread_on_core. rewrite Hs in *.
    cbn [mbind option_bind] in *. unfold on_core in H3. by destruct (if pending s then pending_th s else cur_th s).
  - intros p Hp. destruct (proj1 (a_clients _ _ _ A p) Hp) as [d Hd]. destruct (client_alive _ p (a_inv _ _ _ A) Hp) as [pr Hpr]. exists d, pr.
    split; [done|]. split; [done|]. split; [by apply (a_tables _ _ _ A)|]. split; [by apply (active_bound m p d pr w)|].
    rewrite (t_congested _ (a_tables _ _ _ A)), Hd. naive_solver.
  - destruct (a_accounts _ _ _ A) as [_ _ _ <- H]. done.
Qed.

(** C25: a process loses a core only by leaving, by letting it go idle, or to a client
    that is below its guarantee while it has more than its own: nothing takes a core from
    a process at or below its guarantee. This covers the polls that come when polled
    kthreads, clients and cores are at most [NCPU] together. *)
Theorem policy_takes_cores m k a w w' c q : valid_machine m -> running_policy m k w -> event_allowed m a w = true -> handle m k a w = Some w' ->
  core_of (pol w) c = Some q -> core_of (pol w') c <> Some q -> may_lose m k a w c q.
Proof.
  intros Hm Hr Ha E Hc Hc'. destruct (handle_ok m k a w Hm (policy_agrees m k w Hm Hr) Ha) as (w2 & E2 & _ & H). rewrite E in E2. injection E2 as <-. by apply H.
Qed.

(** C26: with fast wake-ups enabled, a process below its guarantee and below its maximum
    that asks for a core, with a kthread to run and room in [ts] for its queues, gets one,
    unless a core is still being left by a process that is gone. *)
Theorem policy_serves_guarantees m k e p d pr w : valid_machine m -> running_policy m k w -> noidlefastwake k = false ->
  data (pol w) !! p = Some d -> threads_active d < threads_guaranteed d -> threads_active d < threads_max d ->
  procs (sys w) !! p = Some pr -> idle_threads pr <> [] -> (length (ts (sys w)) < NCPU)%nat ->
  (forall c, c ∈ cores_tbl m -> core_of (pol w) c = None -> c ∈ idle_cores (pol w)) ->
  exists w' d', sched_add_core m k e p w = Some (0, w') /\ data (pol w') !! p = Some d' /\ threads_active d' = threads_active d + 1.
Proof.
  intros [Hm Hnd] Hr Hfast Hd Hg Hmax Hp Hidle Hroom Hlimbo. pose proof (policy_agrees m k w (conj Hm Hnd) Hr) as A.
  assert (p ∈ clients (sys w)) as Hcl by (apply A; by eexists). pose proof (choose_core_some m Hm Hnd [] p d w A Hd Hg Hlimbo) as Hsome.
  destruct (choose_core_ok m [] p w A ltac:(by eexists)) as ([c|] & Ec & Hgood); [|done]. destruct (Hgood c eq_refl) as (Hc & Hown & _).
  destruct (simple_run_ok m Hm [] e p c w A Hcl Hroom) as (r & w' & E & [(_ & _ & H)|(-> & _ & A' & G1 & G2 & _)]); [by destruct (H pr Hp Hidle)|].
  assert (is_Some (data (pol w') !! p)) as [d' Hd'] by (apply (limits_some _ _ p G2); by eexists). exists w', d'. split; [|split; [done|]].
  - unfold sched_add_core, simple_notify_core_needed, simple_add_kthread. rewrite Hfast, Hd. cbn [mbind option_bind]. replace (_ >=? _) with false by lia. rewrite Ec. exact E.
  - rewrite (t_active _ (a_tables _ _ _ A') p d' Hd'), (t_active _ (a_tables _ _ _ A) p d Hd), G1.
    destruct (lookup_lt_is_Some_2 (cores (pol w)) c) as [x Hx]; [rewrite (proj1 (t_len _ (a_tables _ _ _ A))); by apply Hm|].
    rewrite (cnt_insert _ c x (Some p) (Some p) Hx). rewrite (decide_True (P := Some p = Some p)) by done. unfold core_of in Hown. rewrite Hx in Hown.
    rewrite decide_False by (by intros ->). lia.
Qed.

(** ** Witnesses *)

Fixpoint handle_all (m : machine) (k : params) (l : list event) (w : io) : option io :=
  match l with [] => Some w | a :: l => if event_allowed m a w then w ← handle m k a w; handle_all m k l w else None end.
Lemma handle_all_running m k l w w' : running_policy m k w -> handle_all m k l w = Some w' -> running_policy m k w'.
Proof.
  revert w. induction l as [|a l IH]; intros w Hr; simpl; [by intros [= <-]|]. destruct (event_allowed m a w) eqn:Ea; [|done].
  destruct (handle m k a w) as [w1|] eqn:E; [|done]. cbn [mbind option_bind]. apply IH. by apply (PolicyEvent m k a w).
Qed.
Lemma demo_machine_valid : valid_machine demo_machine.
Proof.
  split; [|by apply (bool_decide_unpack (NoDup [2; 3]%nat))]. intros c Hc. apply list_elem_of_In in Hc. simpl in Hc. unfold NCPU. lia.
Qed.

(** Process 7 has no guarantee; it asks for a core, and gets the second one when the
    poll of time 200 finds the uthreads that the poll of time 100 saw. Process 8 has a
    guarantee of one core. *)
Definition demo_guaranteed (n ip : Z) (l : list Z) : proc := demo_proc ip l <| guaranteed_cores := n |>.
Definition demo_params : params := Params 1 0 false false.
Definition demo_hwview : hwview := HwView 0 (fun _ => 0) (fun _ => 0).
Definition demo_meters : meters := Meters 0 0 0 0 UINT64_MAX sample_off sample_off 0 0 false.
Definition demo_reading (head tail : Z) : reading := Reading head tail 0 0 0 UINT64_MAX 0 0 0 demo_hwview demo_hwview.
Definition demo_poll (now head tail : Z) : event :=
  Polls (demo_env true) (PollView now (fun _ => ProcReading 0 0 (fun x => (false, x)))
    (fun p i => if ((p =? 7) && (i =? 0))%nat then demo_reading head tail else demo_reading 0 0)).
Definition demo_events : list event :=
  [Arrives true true 7 (demo_guaranteed 0 17 [70; 71; 72]%Z) (replicate 3 demo_meters) 3 0;
   Arrives true true 8 (demo_guaranteed 1 18 [80; 81]%Z) (replicate 2 demo_meters) 2 0;
   CoreNeeded (demo_env true) 7; demo_poll 100 5 0; demo_poll 200 8 3].
Definition policy_view (w : io) : list (option nat) * list (option Z) * list nat * list nat * list kcmd :=
  (core_of (pol w) <$> [2; 3]%nat, (fun p => threads_active <$> data (pol w) !! p) <$> [7; 8]%nat,
   elements (idle_cores (pol w)), congested_procs (pol w), kcmds (sys w)).
Definition demo_state : io := default (io_init demo_machine) (handle_all demo_machine demo_params demo_events (io_init demo_machine)).
Lemma demo_state_running : running_policy demo_machine demo_params demo_state.
Proof.
  unfold demo_state. destruct (handle_all _ _ _) as [w|] eqn:E; [|apply PolicyStart]. simpl.
  by apply (handle_all_running demo_machine demo_params demo_events (io_init demo_machine)); [apply PolicyStart|].
Qed.
Lemma policy_tables_agree_witness :
  policy_view demo_state = ([Some 7; Some 7]%nat, [Some 2; Some 0], [], [], [Krun 2 70; Krun 3 71]) /\
  forall p, p ∈ clients (sys demo_state) -> exists d pr, data (pol demo_state) !! p = Some d /\ procs (sys demo_state) !! p = Some pr /\
    threads_active d = cnt (Some p) (cores (pol demo_state)) /\ threads_active d <= Z.of_nat (active_thread_count pr) /\
    (is_congested d = true <-> p ∈ congested_procs (pol demo_state)).
Proof.
  split; [vm_compute; reflexivity|]. apply (policy_tables_agree demo_machine demo_params demo_state demo_machine_valid demo_state_running).
Defined.

(** Process 8 asks, and gets core 2 of process 7. *)
Definition demo_asks : event := CoreNeeded (demo_env true) 8.
Lemma policy_takes_cores_witness : exists w', handle demo_machine demo_params demo_asks demo_state = Some w' /\
  core_of (pol w') 2 = Some 8%nat /\ core_of (pol w') 3 = Some 7%nat /\ may_lose demo_machine demo_params demo_asks demo_state 2 7.
Proof.
  destruct (handle demo_machine demo_params demo_asks demo_state) as [w'|] eqn:E; [|vm_compute in E; discriminate E]. exists w'. split; [done|].
  assert (Some (core_of (pol w') 2, core_of (pol w') 3) = Some (Some 8%nat, Some 7%nat)) as V.
  { transitivity ((fun w => (core_of (pol w) 2, core_of (pol w) 3)) <$> handle demo_machine demo_params demo_asks demo_state); [by rewrite E|]. vm_compute. reflexivity. }
  injection V as V1 V2. split; [done|]. split; [done|].
  apply (policy_takes_cores demo_machine demo_params demo_asks demo_state w' 2 7 demo_machine_valid demo_state_running).
  - vm_compute. reflexivity.
  - done.
  - vm_compute. reflexivity.
  - congruence.
Defined.
Lemma policy_serves_guarantees_witness : exists w' d', sched_add_core demo_machine demo_params (demo_env true) 8 demo_state = Some (0, w') /\
  data (pol w') !! 8%nat = Some d' /\ threads_active d' = 0 + 1.
Proof.
  destruct (data (pol demo_state) !! 8%nat) as [d|] eqn:Ed; [|vm_compute in Ed; discriminate Ed].
  destruct (procs (sys demo_state) !! 8%nat) as [pr|] eqn:Ep; [|vm_compute in Ep; discriminate Ep].
  assert (Some (threads_active d, threads_guaranteed d, threads_max d) = Some (0, 1, 2)) as V.
  { transitivity ((fun d => (threads_active d, threads_guaranteed d, threads_max d)) <$> data (pol demo_state) !! 8%nat); [by rewrite Ed|]. vm_compute. reflexivity. }
  assert (Some (idle_threads pr) = Some [1; 0]%nat) as V'.
  { transitivity (idle_threads <$> procs (sys demo_state) !! 8%nat); [by rewrite Ep|]. vm_compute. reflexivity. }
  injection V as V1 V2 V3. injection V' as V'.
  destruct (policy_serves_guarantees demo_machine demo_params (demo_env true) 8 d pr demo_state demo_machine_valid demo_state_running eq_refl Ed)
    as (w' & d' & H1 & H2 & H3); [lia|lia|done| | | |exists w', d'; split; [exact H1|split; [exact H2|by rewrite H3, V1]]].
  - by rewrite V'.
  - apply Nat.ltb_lt. vm_compute. reflexivity.
  - intros c Hc. apply list_elem_of_In in Hc. destruct Hc as [<-|[<-|[]]]; intros H; vm_compute in H; discriminate H.
Defined.
