(* ===== verification/IoInit.v ===== *)
(** * I/O kernel: the cores it manages

    Models [sched_init] and [sched_scan_node] of [iokernel/sched.c]: which cores the
    I/O kernel keeps for itself and which it schedules, from the topology of the
    machine and the configuration.  Bitmaps are the sets of their positions. *)

From S2P Require Import Prelude StdDef IoSched IoOwn IoClients IoSimple IoPolicy.

(** [struct cpu_info], as [base/cpu.c] reads it from the operating system. *)
Record cpu_info := CpuInfo { package : nat; thread_siblings_mask : gset nat }.

(** The configuration; [numa_policy] is [sched_ops == &numa_ops], [input_allowed_cores]
    the list of cores from the command line. *)
Record config := Config {
  cpu_info_tbl : list cpu_info; numa_count : nat; managed_numa_node : nat; numa_policy : bool;
  input_allowed_cores : option (gset nat); cfg_noht : bool }.

(** [bitmap_find_next_set] and [bitmap_popcount] of bitmaps of [NCPU] bits. *)
Definition next_set (s : gset nat) (pos : nat) : nat :=
  match List.find (fun c => bool_decide (c ∈ s)) (seq pos (NCPU - pos)) with Some c => c | None => NCPU end.
Definition positions (s : gset nat) : list nat := filter (fun c => c ∈ s) (seq 0 NCPU).
Definition popcount (s : gset nat) : nat := length (positions s).

(** [sched_scan_node]: one core, and all cores of a node.  The state is the array
    [sched_siblings] and whether the scan has failed. *)
Definition sibling_of (i : nat) (info : cpu_info) : nat :=
  let sib := next_set (thread_siblings_mask info) 0 in
  if (sib =? i)%nat then next_set (thread_siblings_mask info) (S sib) else sib.
Definition siblings_valid (noht : bool) (info : cpu_info) : bool :=
  let nr := popcount (thread_siblings_mask info) in negb ((2 <? nr)%nat || ((nr =? 1)%nat && negb noht)).
Fixpoint scan_cpus (noht : bool) (node i : nat) (l : list cpu_info) (st : list nat * bool) : list nat * bool :=
  match l with
  | [] => st
  | info :: l =>
      scan_cpus noht node (S i) l
        (if (package info =? node)%nat then (<[i := sibling_of i info]> st.1, st.2 && siblings_valid noht info) else st)
  end.
Definition sched_scan_node (cfg : config) (node : nat) (st : list nat * bool) : list nat * bool :=
  scan_cpus (cfg_noht cfg) node 0 (cpu_info_tbl cfg) st.
Definition scan_nodes (cfg : config) : list nat * bool :=
  foldl (fun st node => sched_scan_node cfg node st) (replicate NCPU 0%nat, true) (seq 0 (numa_count cfg)).

(** The second pass. *)
Definition is_available (cfg : config) (i : nat) : bool :=
  match cpu_info_tbl cfg !! i with
  | Some info =>
      (numa_policy cfg || (package info =? managed_numa_node cfg)%nat) &&
      match input_allowed_cores cfg with Some s => bool_decide (i ∈ s) | None => true end
  | None => false
  end.
Definition available (cfg : config) : gset nat := list_to_set (filter (fun i => is_available cfg i = true) (seq 0 (length (cpu_info_tbl cfg)))).

(** Without hyperthreads: the siblings of allowed cores are cleared, in order. *)
Fixpoint clear_siblings (sib : nat -> nat) (l : list nat) (s : gset nat) : gset nat :=
  match l with
  | [] => s
  | i :: l => clear_siblings sib l (if bool_decide (i ∈ s) && negb (sib i =? NCPU)%nat then s ∖ {[sib i]} else s)
  end.

(** The machine, and the cores of the control plane and of the data plane. *)
Record core_layout := Layout { managed : machine; sched_ctrl_core : nat; sched_dp_core : nat }.
Definition sched_init (cfg : config) : Z + core_layout :=
  let '(sibs, valid) := scan_nodes cfg in
  let sib c := default 0%nat (sibs !! c) in
  if negb valid then inl (- EINVAL)
  else
    let allowed := available cfg in
    if (popcount allowed <? 4)%nat then inl (- EINVAL)
    else
      let ctrl := next_set allowed 0 in
      let dp := if cfg_noht cfg then next_set allowed (S ctrl) else sib ctrl in
      let allowed := allowed ∖ {[ctrl]} ∖ {[dp]} in
      let allowed := if cfg_noht cfg then clear_siblings sib (seq 0 NCPU) allowed else allowed in
      inr (Layout (Machine (positions allowed) sib (cfg_noht cfg)) ctrl dp).

(** ** Properties *)

Lemma positions_spec s c : c ∈ positions s <-> c ∈ s /\ (c < NCPU)%nat.
Proof. unfold positions. rewrite list_elem_of_filter, elem_of_seq. intuition lia. Qed.
Lemma positions_sorted s : StronglySorted lt (positions s).
Proof.
  unfold positions. generalize 0%nat. induction NCPU as [|n IH]; intros k; simpl; [constructor|]. rewrite filter_cons. destruct (decide _); [|apply IH].
  constructor; [apply IH|]. apply Forall_forall. intros c [_ Hc%elem_of_seq]%list_elem_of_filter. lia.
Qed.
Lemma find_seq f k n : match List.find f (seq k n) with
  | Some c => f c = true /\ (k <= c < k + n)%nat /\ forall j, (k <= j < c)%nat -> f j = false
  | None => forall j, (k <= j < k + n)%nat -> f j = false
  end.
Proof.
  revert k. induction n as [|n IH]; intros k; simpl; [intros j Hj; lia|]. destruct (f k) eqn:E; [split; [done|]; split; [lia|]; intros j Hj; lia|].
  specialize (IH (S k)). destruct (List.find f (seq (S k) n)) as [c|].
  - destruct IH as (H1 & H2 & H3). split; [done|]. split; [lia|]. intros j Hj. destruct (decide (j = k)) as [->|]; [done|]. apply H3. lia.
  - intros j Hj. destruct (decide (j = k)) as [->|]; [done|]. apply IH. lia.
Qed.
Lemma next_set_spec s pos c : c ∈ s -> (pos <= c < NCPU)%nat -> next_set s pos ∈ s /\ (pos <= next_set s pos <= c)%nat.
Proof.
  intros Hc Hr. unfold next_set. pose proof (find_seq (fun c => bool_decide (c ∈ s)) pos (NCPU - pos)) as H. destruct (List.find _ _) as [x|].
  - destruct H as (H1%bool_decide_eq_true & H2 & H3). split; [done|]. split; [lia|]. destruct (decide (x <= c)%nat) as [|Hlt]; [done|].
    specialize (H3 c ltac:(lia)). by apply bool_decide_eq_false in H3.
  - specialize (H c ltac:(lia)). by apply bool_decide_eq_false in H.
Qed.

Lemma next_set_ge s pos : (pos <= NCPU)%nat -> (pos <= next_set s pos)%nat.
Proof.
  intros Hp. unfold next_set. pose proof (find_seq (fun c => bool_decide (c ∈ s)) pos (NCPU - pos)) as H. destruct (List.find _ _) as [x|]; lia.
Qed.

(** A core with one hyperthread sibling. *)
Lemma sibling_of_spec i info : (i < NCPU)%nat -> i ∈ thread_siblings_mask info -> siblings_valid false info = true ->
  (sibling_of i info < NCPU)%nat /\ sibling_of i info <> i /\ sibling_of i info ∈ thread_siblings_mask info.
Proof.
  intros Hi Hin Hv. unfold sibling_of. cbv zeta. set (mask := thread_siblings_mask info) in *. destruct (next_set_spec mask 0 i Hin ltac:(lia)) as [H1 H2].
  destruct (next_set mask 0 =? i)%nat eqn:E; [|apply Nat.eqb_neq in E; split; [lia|by split]]. apply Nat.eqb_eq in E. rewrite E.
  unfold siblings_valid in Hv. fold mask in Hv. assert (exists j, j ∈ positions mask /\ j <> i) as (j & [Hj Hjn]%positions_spec & Hne).
  { unfold popcount in Hv. assert (i ∈ positions mask) as Hp by (by apply positions_spec). destruct (positions mask) as [|a [|b l]] eqn:Ep.
    - by apply not_elem_of_nil in Hp.
    - done.
    - pose proof (positions_sorted mask) as Hs. rewrite Ep in Hs. apply StronglySorted_inv in Hs as [_ Hs]. apply Forall_cons in Hs as [Hab _].
      destruct (decide (a = i)) as [->|]; [exists b; split; [right; left|lia]|exists a; split; [left|done]]. }
  destruct (next_set_spec mask 0 j Hj ltac:(lia)) as [_ H3]. destruct (next_set_spec mask (S i) j Hj ltac:(lia)) as [H4 H5]. split; [lia|]. split; [lia|done].
Qed.

Lemma scan_cpus_spec noht node l i st sibs v : scan_cpus noht node i l st = (sibs, v) -> length sibs = length st.1 /\ (v = true -> st.2 = true /\
  forall k info, l !! k = Some info -> package info = node -> siblings_valid noht info = true) /\
  forall c, sibs !! c = (if decide (i <= c)%nat then match l !! (c - i)%nat with
    | Some info => if decide (package info = node /\ c < length st.1)%nat then Some (sibling_of c info) else st.1 !! c
    | None => st.1 !! c end else st.1 !! c).
Proof.
  revert i st. induction l as [|info l IH]; intros i st; simpl.
  - intros E. rewrite E. simpl. split; [done|]. split; [done|]. intros c. destruct (decide _); done.
  - intros E. destruct (IH _ _ E) as (H1 & H2 & H3). clear IH E. destruct (package info =? node)%nat eqn:Ep; simpl in *.
    + rewrite length_insert in *. apply Nat.eqb_eq in Ep. split; [done|]. split.
      * intros Hv. destruct (H2 Hv) as [[H4 H5]%andb_true_iff H6]. split; [done|]. intros [|k] info' Hk; [by injection Hk as <-|by apply (H6 k)].
      * intros c. rewrite H3. destruct (decide (S i <= c)%nat) as [Hlt|Hge].
        -- rewrite decide_True by lia. replace (c - i)%nat with (S (c - S i)) by lia. simpl. rewrite list_lookup_insert_ne by lia. done.
        -- destruct (decide (i <= c)%nat) as [Hle|]; [|by rewrite list_lookup_insert_ne by lia]. assert (c = i) as -> by lia. rewrite Nat.sub_diag. simpl.
           destruct (decide (i < length st.1)%nat) as [Hl|Hl]; [rewrite list_lookup_insert_eq by done; by rewrite decide_True|].
           rewrite decide_False by tauto. by rewrite list_insert_ge by lia.
    + apply Nat.eqb_neq in Ep. split; [done|]. split.
      * intros Hv. destruct (H2 Hv) as [H4 H6]. split; [done|]. intros [|k] info' Hk; [by injection Hk as <-|by apply (H6 k)].
      * intros c. rewrite H3. destruct (decide (S i <= c)%nat) as [Hlt|Hge].
        -- rewrite decide_True by lia. by replace (c - i)%nat with (S (c - S i)) by lia.
        -- destruct (decide (i <= c)%nat) as [Hle|]; [|done]. assert (c = i) as -> by lia. rewrite Nat.sub_diag. simpl. by rewrite decide_False by tauto.
Qed.

Lemma clear_siblings_sub sib l s : clear_siblings sib l s ⊆ s.
Proof. revert s. induction l as [|i l IH]; intros s; simpl; [done|]. rewrite IH. destruct (_ && _); set_solver. Qed.
Lemma clear_siblings_spec sib l s i : i ∈ l -> i ∈ clear_siblings sib l s -> sib i <> NCPU -> sib i ∉ clear_siblings sib l s.
Proof.
  revert s. induction l as [|j l IH]; intros s Hl Hin Hs; [by apply not_elem_of_nil in Hl|]. simpl in *. apply elem_of_cons in Hl as [->|Hl].
  - pose proof (clear_siblings_sub sib l _ _ Hin) as H. intros Hc. apply clear_siblings_sub in Hc.
    assert (j ∈ s) as Hj by (destruct (_ && _) in H; set_solver). rewrite bool_decide_true in Hc by done. rewrite (proj2 (Nat.eqb_neq _ _) Hs) in Hc.
    simpl in Hc. set_solver.
  - by apply IH.
Qed.

Lemma scan_nodes_spec cfg sibs : scan_nodes cfg = (sibs, true) -> length sibs = NCPU /\
  forall c info, cpu_info_tbl cfg !! c = Some info -> (c < NCPU)%nat -> (package info < numa_count cfg)%nat ->
    sibs !! c = Some (sibling_of c info) /\ siblings_valid (cfg_noht cfg) info = true.
Proof.
  unfold scan_nodes. generalize (numa_count cfg). intros n. revert sibs. induction n as [|n IH]; intros sibs.
  { cbn [seq foldl]. intros H. apply (f_equal fst) in H. cbn [fst] in H. rewrite <- H. split; [apply length_replicate|]. intros c info _ _ Hp. lia. }
  rewrite seq_S, foldl_app. cbn [foldl]. destruct (foldl _ _ _) as [sibs0 v0] eqn:E0. intros E. destruct (scan_cpus_spec _ _ _ _ _ _ _ E) as (H1 & H2 & H3).
  destruct (H2 eq_refl) as [Hv H4]. cbn [fst snd] in *. subst v0. destruct (IH sibs0 eq_refl) as [I1 I2]. split; [congruence|]. intros c info Hc Hn Hp. rewrite H3, Nat.sub_0_r, Hc.
  rewrite (decide_True (P := (0 <= c)%nat)) by lia. destruct (decide (package info = n)) as [<-|Hne].
  - rewrite decide_True by lia. split; [done|by apply (H4 c)].
  - rewrite decide_False by tauto. apply I2; [done|done|lia].
Qed.

Lemma available_spec cfg c : c ∈ available cfg <-> is_available cfg c = true.
Proof.
  unfold available. rewrite elem_of_list_to_set, list_elem_of_filter, elem_of_seq. split; [tauto|]. intros H. split; [done|]. split; [lia|].
  unfold is_available in H. destruct (cpu_info_tbl cfg !! c) eqn:E; [|done]. by apply lookup_lt_Some in E.
Qed.
Lemma available_info cfg c : c ∈ available cfg -> is_Some (cpu_info_tbl cfg !! c).
Proof. rewrite available_spec. unfold is_available. destruct (cpu_info_tbl cfg !! c); [by eexists|done]. Qed.
Lemma first_core_in s : (0 < popcount s)%nat -> next_set s 0 ∈ s /\ (next_set s 0 < NCPU)%nat.
Proof.
  unfold popcount. destruct (positions s) as [|c l] eqn:E; simpl; [lia|]. intros _. assert (c ∈ positions s) as [Hc Hn]%positions_spec by (rewrite E; left).
  destruct (next_set_spec s 0 c Hc ltac:(lia)) as [H1 H2]. split; [done|lia].
Qed.

(** If the scan of the machine succeeds, the cores that are scheduled are in
    ascending order and in range, among those the user allows and on the managed
    node, and neither the control core nor the data-plane core is one of them;
    without hyperthreads no two of them are siblings; with hyperthreads every one
    has a sibling other than itself. *)
Theorem sched_init_machine cfg lay : sched_init cfg = inr lay ->
  (forall c info, cpu_info_tbl cfg !! c = Some info -> (c < NCPU)%nat /\ c ∈ thread_siblings_mask info /\ (package info < numa_count cfg)%nat) ->
  let m := managed lay in
  valid_machine m /\ StronglySorted lt (cores_tbl m) /\
  sched_ctrl_core lay ∉ cores_tbl m /\ sched_dp_core lay ∉ cores_tbl m /\ sched_ctrl_core lay <> sched_dp_core lay /\
  forall c, c ∈ cores_tbl m -> is_available cfg c = true /\
    (noht m = true -> siblings m c ∉ cores_tbl m) /\ (noht m = false -> (siblings m c < NCPU)%nat /\ siblings m c <> c).
Proof.
  intros E Htop m. subst m. unfold sched_init in E. destruct (scan_nodes cfg) as [sibs v] eqn:Es. destruct v; [|done]. cbn [negb] in E.
  destruct (scan_nodes_spec cfg sibs Es) as [L1 L2]. destruct (popcount (available cfg) <? 4)%nat eqn:Ec; [done|]. apply Nat.ltb_ge in Ec.
  destruct (first_core_in (available cfg) ltac:(lia)) as [Hctrl Hctrln]. set (sib := fun c => default 0%nat (sibs !! c)) in *.
  set (ctrl := next_set (available cfg) 0) in *. set (dp := if cfg_noht cfg then next_set (available cfg) (S ctrl) else sib ctrl) in *.
  set (rest := available cfg ∖ {[ctrl]} ∖ {[dp]}) in *. set (fin := if cfg_noht cfg then clear_siblings sib (seq 0 NCPU) rest else rest) in *.
  cbv zeta in E. fold sib ctrl dp rest fin in E. apply (inj inr) in E. rewrite <- E. clear E. cbn [managed cores_tbl siblings noht sched_ctrl_core sched_dp_core].
  assert (forall c, c ∈ fin -> c ∈ available cfg /\ c <> ctrl /\ c <> dp) as Hfin.
  { intros c Hc. assert (fin ⊆ rest) as Hsub by (unfold fin; destruct (cfg_noht cfg); [apply clear_siblings_sub|done]). apply Hsub in Hc.
    unfold rest in Hc. rewrite !elem_of_difference, !elem_of_singleton in Hc. tauto. }
  assert (forall c, c ∈ available cfg -> cfg_noht cfg = false -> (sib c < NCPU)%nat /\ sib c <> c) as Hsib.
  { intros c Hc Hno. destruct (available_info cfg c Hc) as [info Hi]. destruct (Htop c info Hi) as (T1 & T2 & T3). destruct (L2 c info Hi T1 T3) as [S1 S2].
    rewrite Hno in S2. destruct (sibling_of_spec c info T1 T2 S2) as (R1 & R2 & _). unfold sib. by rewrite S1. }
  split_and!.
  - split; cbn [cores_tbl]; [intros c [_ Hc]%positions_spec; done|]. unfold positions. apply NoDup_filter, NoDup_seq.
  - apply positions_sorted.
  - intros [Hc _]%positions_spec. apply Hfin in Hc. tauto.
  - intros [Hc _]%positions_spec. apply Hfin in Hc. tauto.
  - unfold dp. destruct (cfg_noht cfg) eqn:Hno; [|intros Heq; by destruct (Hsib ctrl Hctrl eq_refl)].
    pose proof (next_set_ge (available cfg) (S ctrl) ltac:(lia)). lia.
  - intros c [Hc Hcn]%positions_spec. destruct (Hfin c Hc) as [Ha _].
    split; [by apply available_spec|]. split; [|by apply Hsib]. intros Hno [Hs Hsn]%positions_spec.
    assert (fin = clear_siblings sib (seq 0 NCPU) rest) as Ef by (unfold fin; by rewrite Hno).
    change (c ∈ fin) in Hc. change (sib c ∈ fin) in Hs. rewrite Ef in Hc, Hs.
    assert (c ∈ seq 0 NCPU) as Hseq by (apply elem_of_seq; lia). assert (sib c <> NCPU) as Hne by lia.
    exact (clear_siblings_spec sib _ rest c Hseq Hc Hne Hs).
Qed.

(** One node of eight hyperthreads, the pairs (0, 4), (1, 5), (2, 6) and
    (3, 7); cores 0 and 4 are kept. *)
Definition demo_cpu (i : nat) : cpu_info := CpuInfo 0 {[(i mod 4)%nat; (i mod 4 + 4)%nat]}.
Definition demo_config : config := Config (demo_cpu <$> seq 0 8) 1 0 false None false.
Lemma sched_init_machine_witness : exists lay, sched_init demo_config = inr lay /\
  (cores_tbl (managed lay), sched_ctrl_core lay, sched_dp_core lay) = ([1; 2; 3; 5; 6; 7]%nat, 0%nat, 4%nat) /\
  valid_machine (managed lay).
Proof.
  destruct (sched_init demo_config) as [r|lay] eqn:E; [vm_compute in E; discriminate E|]. exists lay. split; [done|]. split.
  - transitivity (match sched_init demo_config with inr lay => (cores_tbl (managed lay), sched_ctrl_core lay, sched_dp_core lay) | inl _ => ([], 0, 0)%nat end);
      [by rewrite E|]. vm_compute. reflexivity.
  - apply (sched_init_machine demo_config lay E). intros c info Hc.
    assert (c < 8)%nat as Hlt by (apply lookup_lt_Some in Hc; done).
    do 8 (destruct c as [|c]; [vm_compute in Hc; injection Hc as <-; split; [unfold NCPU; lia|split; [by apply (bool_decide_unpack _)|simpl; lia]]|]). lia.
Defined.
