(* ===== verification/Tcp.v ===== *)
(** * tcp: connections, timers and the state machine's transitions

    Models the connection of [runtime/net/tcp.h] and the operations of
    [runtime/net/tcp.c] and [runtime/net/tcp_out.c] that run under the
    connection's lock.  The data of an [mbuf] is its payload, without headers.
    What an operation does outside the connection (packets sent, threads made
    ready, buffers freed) is a list of effects. *)

From S2P Require Import Prelude StdDef.

Abbreviation tid := nat.

(** ** Constants *)

Definition ONE_MS : Z := 1000.
Definition ONE_SECOND : Z := 1000000.
Definition TCP_MIN_MSS : Z := 88.
Definition TCP_WIN : Z := 0x1FFFF.
Definition TCP_ACK_TIMEOUT : Z := 10 * ONE_MS.
Definition TCP_CONNECT_TIMEOUT : Z := 5 * ONE_SECOND.
Definition TCP_OOQ_ACK_TIMEOUT : Z := 300 * ONE_MS.
Definition TCP_TIME_WAIT_TIMEOUT : Z := 1 * ONE_SECOND.
Definition TCP_ZERO_WND_TIMEOUT : Z := 300 * ONE_MS.
Definition TCP_RETRANSMIT_TIMEOUT : Z := 300 * ONE_MS.
Definition TCP_FAST_RETRANSMIT_THRESH : Z := 3.
Definition TCP_OOO_MAX_SIZE : Z := 2048.
Definition TCP_RETRANSMIT_BATCH : nat := 16.
Definition UINT16_MAX : Z := 65535.
Definition ETH_DEFAULT_MTU : Z := 1500.

Definition TCP_FIN : Z := 0x01.
Definition TCP_SYN : Z := 0x02.
Definition TCP_RST : Z := 0x04.
Definition TCP_PUSH : Z := 0x08.
Definition TCP_ACK : Z := 0x10.
Definition TCP_URG : Z := 0x20.

(** [(flags & f) != 0] *)
Definition has (flags f : Z) : bool := negb (Z.land flags f =? 0).

(** [sizeof(struct ip_hdr)] and [sizeof(struct tcp_hdr)] are 20. *)
Definition tcp_calculate_mss (mtu : Z) : Z := u32 (mtu - 20 - 20).

(** ** Data *)

Inductive tcp_state :=
| SYN_SENT | SYN_RECEIVED | ESTABLISHED | FIN_WAIT1 | FIN_WAIT2 | CLOSE_WAIT | CLOSING | LAST_ACK
| TIME_WAIT | CLOSED.

#[global] Instance tcp_state_eq_dec : EqDecision tcp_state.
Proof. solve_decision. Defined.

(** The value of the enumerator [TCP_STATE_*]. *)
Definition st_num (s : tcp_state) : Z :=
  match s with
  | SYN_SENT => 0 | SYN_RECEIVED => 1 | ESTABLISHED => 2 | FIN_WAIT1 => 3 | FIN_WAIT2 => 4
  | CLOSE_WAIT => 5 | CLOSING => 6 | LAST_ACK => 7 | TIME_WAIT => 8 | CLOSED => 9
  end.
Definition st_lt (a b : tcp_state) : bool := st_num a <? st_num b.
Definition st_eqb (a b : tcp_state) : bool := bool_decide (a = b).

Record mbuf := Mbuf {
  seg_seq : Z; seg_end : Z; m_flags : Z; m_opts : list Z; m_data : list Z; timestamp : Z; m_ref : Z }.
#[global] Instance eta_mbuf : Settable mbuf := fun r =>
  Mbuf (seg_seq r) (seg_end r) (m_flags r) (m_opts r) (m_data r) (timestamp r) (m_ref r).

Definition mbuf_length (m : mbuf) : Z := Z.of_nat (length (m_data m)).

(** [struct tcp_pcb] *)
Record tcp_pcb := TcpPcb {
  state : tcp_state;
  snd_una : Z; snd_nxt : Z; snd_wnd : Z; snd_wl1 : Z; snd_wl2 : Z; iss : Z; snd_wscale : Z; snd_mss : Z;
  rcv_nxt : Z; rcv_wnd : Z; irs : Z; rcv_wscale : Z; rcv_mss : Z }.
#[global] Instance eta_pcb : Settable tcp_pcb := fun r =>
  TcpPcb (state r) (snd_una r) (snd_nxt r) (snd_wnd r) (snd_wl1 r) (snd_wl2 r) (iss r) (snd_wscale r)
    (snd_mss r) (rcv_nxt r) (rcv_wnd r) (irs r) (rcv_wscale r) (rcv_mss r).

(** [struct tcpconn]; [time_wait_ts] is a union with [attach_ts]. *)
Record tcpconn := TcpConn {
  pcb : tcp_pcb; nonblocking : bool; ref : Z; err : Z; winmax : Z;
  rx_closed : bool; rx_exclusive : bool; rx_wq : list tid; rxq_ooo_len : Z; rxq_ooo : list mbuf;
  rxq : list mbuf;
  tx_closed : bool; tx_exclusive : bool; tx_wq : list tid; tx_last_ack : Z; tx_last_win : Z;
  tx_pending : option mbuf; txq : list mbuf; do_fast_retransmit : bool; fast_retransmit_last_ack : Z;
  next_timeout : Z; ack_ts : Z; zero_wnd_ts : Z; time_wait_ts : Z;
  zero_wnd : bool; ack_delayed : bool; rep_acks : Z; acks_delayed_cnt : Z }.
#[global] Instance eta_conn : Settable tcpconn := fun r =>
  TcpConn (pcb r) (nonblocking r) (ref r) (err r) (winmax r)
    (rx_closed r) (rx_exclusive r) (rx_wq r) (rxq_ooo_len r) (rxq_ooo r) (rxq r)
    (tx_closed r) (tx_exclusive r) (tx_wq r) (tx_last_ack r) (tx_last_win r)
    (tx_pending r) (txq r) (do_fast_retransmit r) (fast_retransmit_last_ack r)
    (next_timeout r) (ack_ts r) (zero_wnd_ts r) (time_wait_ts r)
    (zero_wnd r) (ack_delayed r) (rep_acks r) (acks_delayed_cnt r).

(** A packet handed to [net_tx_ip]; [p_l4len] is the length its checksum covers. *)
Record pkt := Pkt {
  p_flags : Z; p_seq : Z; p_ack : Z; p_win : Z; p_opts : list Z; p_data : list Z; p_l4len : Z }.

Inductive effect :=
| Wake (t : tid)            (* thread_ready *)
| Tx (p : pkt)              (* net_tx_ip, successfully *)
| Free (m : mbuf)           (* mbuf_free *)
| Destroy                   (* tcp_conn_destroy *)
| SpawnRetransmit.          (* thread_spawn(tcp_retransmit, c) *)

(** What the environment answers during one call: the clock, and for the [i]-th
    packet whether [net_tx_alloc_mbuf] finds a buffer and what [net_tx_ip]
    returns. *)
Record env := Env { microtime : Z; alloc : nat -> bool; net_tx_ip : nat -> Z }.

(** ** A monad for code that runs with the connection's lock held

    State, effects, and failure: [None] is a failed [assert] or [BUG_ON]. *)

Definition M (A : Type) : Type := tcpconn -> option (A * tcpconn * list effect).

Definition ret {A} (x : A) : M A := fun c => Some (x, c, []).
Definition bind {A B} (m : M A) (f : A -> M B) : M B := fun c =>
  match m c with
  | None => None
  | Some (x, c, e1) =>
      match f x c with None => None | Some (y, c, e2) => Some (y, c, e1 ++ e2) end
  end.
Definition get : M tcpconn := fun c => Some (c, c, []).
Definition modify (f : tcpconn -> tcpconn) : M unit := fun c => Some ((), f c, []).
Definition emit (e : list effect) : M unit := fun c => Some ((), c, e).
Definition require (b : bool) : M unit := fun c => if b then Some ((), c, []) else None.
Definition when (b : bool) (m : M unit) : M unit := if b then m else ret ().
Definition upd_pcb (f : tcp_pcb -> tcp_pcb) : M unit := modify (fun c => c <| pcb := f (pcb c) |>).

Declare Scope tcp_scope.
Notation "'let!' x := m 'in' k" := (bind m (fun x => k))
  (at level 200, x name, m at level 100, k at level 200, right associativity) : tcp_scope.
Notation "m ;;; k" := (bind m (fun _ => k)) (at level 100, right associativity) : tcp_scope.
#[global] Open Scope tcp_scope.

(** *** waitq.h *)

Definition wakes (l : list tid) : list effect := Wake <$> l.
Definition frees (l : list mbuf) : list effect := Free <$> l.

(** [waitq_release(&c->tx_wq)] and [waitq_release(&c->rx_wq)] *)
Definition release_tx_wq : M unit :=
  let! c := get in emit (wakes (tx_wq c)) ;;; modify (fun c => c <| tx_wq := [] |>).
Definition release_rx_wq : M unit :=
  let! c := get in emit (wakes (rx_wq c)) ;;; modify (fun c => c <| rx_wq := [] |>).

(** [waitq_signal(&c->rx_wq, &c->lock)] *)
Definition signal_rx_wq : M (option tid) :=
  let! c := get in
  match rx_wq c with
  | [] => ret None
  | t :: l => modify (fun c => c <| rx_wq := l |>) ;;; ret (Some t)
  end.

(** ** Timers *)

(** Is the TX window full? *)
Definition tcp_is_snd_full (c : tcpconn) : bool :=
  wraps_lte (u32 (snd_una (pcb c) + snd_wnd (pcb c))) (snd_nxt (pcb c)).

Definition tcp_timer_update (now : Z) (c : tcpconn) : tcpconn :=
  let t := UINT64_MAX in
  let t := if st_eqb (state (pcb c)) TIME_WAIT then u64 (time_wait_ts c + TCP_TIME_WAIT_TIMEOUT) else t in
  let t := if st_lt (state (pcb c)) ESTABLISHED then u64 (time_wait_ts c + TCP_CONNECT_TIMEOUT) else t in
  let t := if ack_delayed c then MIN t (u64 (ack_ts c + TCP_ACK_TIMEOUT)) else t in
  let t := if zero_wnd c then MIN t (u64 (zero_wnd_ts c + TCP_ZERO_WND_TIMEOUT)) else t in
  let t :=
    if negb (tx_exclusive c) then
      match txq c with
      | m :: _ => MIN t (u64 (timestamp m + TCP_RETRANSMIT_TIMEOUT))
      | [] => t
      end
    else t in
  let t := match rxq_ooo c with [] => t | _ => MIN t (u64 (now + TCP_OOQ_ACK_TIMEOUT)) end in
  c <| next_timeout := t |>.

(** ** State changes *)

Definition tcp_conn_set_state (E : env) (new_state : tcp_state) : M unit :=
  let! c := get in
  require (st_eqb (state (pcb c)) CLOSED || st_lt (state (pcb c)) new_state) ;;;
  when (st_lt (state (pcb c)) ESTABLISHED && negb (st_lt new_state ESTABLISHED)) release_tx_wq ;;;
  upd_pcb (fun p => p <| state := new_state |>) ;;;
  modify (tcp_timer_update (microtime E)).

(** [tcp_conn_put]: [kref_put] with [tcp_conn_release_ref]. *)
Definition tcp_conn_get : M unit := modify (fun c => c <| ref := atomic_inc (ref c) |>).
Definition tcp_conn_put : M unit :=
  let! c := get in
  let '(zero, r) := atomic_dec_and_test (ref c) in
  modify (fun c => c <| ref := r |>) ;;;
  when zero (require (st_eqb (state (pcb c)) CLOSED) ;;; emit [Destroy]).

Definition tcp_conn_shutdown_rx : M unit :=
  let! c := get in
  if rx_closed c then ret ()
  else modify (fun c => c <| rx_closed := true |>) ;;; release_rx_wq.

Definition tcp_conn_fail (E : env) (e : Z) : M unit :=
  modify (fun c => c <| err := e |>) ;;;
  tcp_conn_set_state E CLOSED ;;;
  tcp_conn_shutdown_rx ;;;
  let! c := get in
  when (negb (tx_closed c)) (modify (fun c => c <| tx_closed := true |>) ;;; release_tx_wq) ;;;
  when (negb (tx_exclusive c))
    (emit (frees (txq c ++ option_list (tx_pending c))) ;;;
     modify (fun c => c <| txq := [] |> <| tx_pending := None |>)) ;;;
  when (negb (rx_exclusive c)) (emit (frees (rxq c)) ;;; modify (fun c => c <| rxq := [] |>)) ;;;
  emit (frees (rxq_ooo c)) ;;; modify (fun c => c <| rxq_ooo := [] |>) ;;;
  tcp_conn_put.

(** [tcp_conn_err], the handler of network errors. *)
Definition tcp_conn_err (E : env) (e : Z) : M unit := tcp_conn_fail E e.

(** [tcp_conn_ack]: the buffers that are fully acknowledged leave the queue. *)
Fixpoint acked (una : Z) (q : list mbuf) : list mbuf * list mbuf :=
  match q with
  | [] => ([], [])
  | m :: q' =>
      if wraps_gt (seg_end m) una then ([], q)
      else let '(a, r) := acked una q' in (m :: a, r)
  end.
Definition tcp_conn_ack : M (list mbuf) :=
  let! c := get in
  if tx_exclusive c then ret []
  else
    let '(a, r) := acked (snd_una (pcb c)) (txq c) in
    modify (fun c => c <| txq := r |>) ;;; ret a.

(** ** Connection set-up *)

Fixpoint scale_loop (fuel : nat) (maxwin wscale : Z) : Z :=
  match fuel with
  | O => wscale
  | S fuel =>
      if (maxwin >? UINT16_MAX) && (wscale <? 14)
      then scale_loop fuel (Z.shiftr maxwin 1) (wscale + 1) else wscale
  end.
(** The loop stops at 14. *)
Definition tcp_scale_window (maxwin : Z) : Z := scale_loop 14 maxwin 0.

(** [tcp_conn_alloc], with the random initial sequence number and the MTU. *)
Definition tcp_conn_alloc (isn mtu : Z) : tcpconn :=
  TcpConn
    (TcpPcb CLOSED isn isn 0 0 0 isn 0 0 0 TCP_WIN 0 (tcp_scale_window TCP_WIN) (tcp_calculate_mss mtu))
    false 1 0 TCP_WIN
    false false [] 0 [] []
    false false [] 0 0 None [] false 0
    UINT64_MAX 0 0 0 false false 0 0.

(** [tcp_get_status]: [-EINPROGRESS], the error, or [-EPIPE]. *)
Definition EINPROGRESS : Z := 115.
Definition EPIPE : Z := 32.
Definition tcp_get_status (c : tcpconn) : Z :=
  if st_lt (state (pcb c)) ESTABLISHED then - EINPROGRESS
  else if tx_closed c then (if negb (err c =? 0) then - err c else - EPIPE) else 0.

(** ** Reasoning about the monad

    [wp m Q c]: [m] does not fail on [c], and [Q] holds of its result, the new
    connection and the effects. *)

Definition wp {A} (m : M A) (Q : A -> tcpconn -> list effect -> Prop) (c : tcpconn) : Prop :=
  match m c with None => False | Some (x, c', e) => Q x c' e end.

Lemma wp_ret {A} (x : A) (Q : A -> tcpconn -> list effect -> Prop) c : Q x c [] -> wp (ret x) Q c.
Proof. done. Qed.
Lemma wp_get (Q : tcpconn -> tcpconn -> list effect -> Prop) c : Q c c [] -> wp get Q c.
Proof. done. Qed.
Lemma wp_modify f (Q : unit -> tcpconn -> list effect -> Prop) c : Q () (f c) [] -> wp (modify f) Q c.
Proof. done. Qed.
Lemma wp_upd_pcb f (Q : unit -> tcpconn -> list effect -> Prop) c :
  Q () (c <| pcb := f (pcb c) |>) [] -> wp (upd_pcb f) Q c.
Proof. done. Qed.
Lemma wp_emit l (Q : unit -> tcpconn -> list effect -> Prop) c : Q () c l -> wp (emit l) Q c.
Proof. done. Qed.
Lemma wp_require b (Q : unit -> tcpconn -> list effect -> Prop) c : b = true -> Q () c [] -> wp (require b) Q c.
Proof. by intros ->. Qed.

Lemma wp_bind {A B} (m : M A) (f : A -> M B) Q c :
  wp m (fun x c' e1 => wp (f x) (fun y c'' e2 => Q y c'' (e1 ++ e2)) c') c -> wp (bind m f) Q c.
Proof.
  unfold wp, bind. destruct (m c) as [[[x c'] e1]|]; [|done]. by destruct (f x c') as [[[y c''] e2]|].
Qed.

Lemma wp_mono {A} (m : M A) (P Q : A -> tcpconn -> list effect -> Prop) c :
  wp m P c -> (forall x c' e, P x c' e -> Q x c' e) -> wp m Q c.
Proof. unfold wp. destruct (m c) as [[[x c'] e]|]; auto. Qed.

Lemma wp_when b m (Q : unit -> tcpconn -> list effect -> Prop) c :
  (b = true -> wp m Q c) -> (b = false -> Q () c []) -> wp (when b m) Q c.
Proof. intros H1 H2. destruct b; [by apply H1|by apply H2]. Qed.

(** [wp] gives the result. *)
Lemma wp_run {A} (m : M A) Q c : wp m Q c -> exists x c' e, m c = Some (x, c', e) /\ Q x c' e.
Proof. unfold wp. destruct (m c) as [[[x c'] e]|]; [|done]. eauto. Qed.

(** One monadic step. *)
Ltac wp_step :=
  lazymatch goal with
  | |- wp (bind _ _) _ _ => apply wp_bind
  | |- wp get _ _ => apply wp_get
  | |- wp (modify _) _ _ => apply wp_modify
  | |- wp (upd_pcb _) _ _ => apply wp_upd_pcb
  | |- wp (emit _) _ _ => apply wp_emit
  | |- wp (ret _) _ _ => apply wp_ret
  end.
Ltac wp_steps := repeat wp_step.
