(* ===== verification/TcpOut.v ===== *)
(** * tcp: the egress path

    Models [runtime/net/tcp_out.c]: control segments and their options, the
    segmenter [tcp_tx_send], retransmission, and the parts of
    [runtime/net/tcp.c] that write to a connection. *)

From S2P Require Import Prelude StdDef Tcp.

Definition ENOMEM : Z := 12.
Definition ENOBUFS : Z := 105.
Definition EAGAIN : Z := 11.

(** ** Headers and control segments *)

(** [tcp_push_tcphdr]: the header carries the connection's current
    acknowledgement and window, which are remembered. *)
Definition tcp_push_tcphdr (flags seq : Z) (opts data : list Z) (l4len : Z) : M pkt :=
  let! c := get in
  let ack := rcv_nxt (pcb c) in
  let win := rcv_wnd (pcb c) in
  modify (fun c => c <| tx_last_ack := ack |> <| tx_last_win := win |>) ;;;
  ret (Pkt flags seq ack (u16 (Z.shiftr win (rcv_wscale (pcb c)))) opts data l4len).

(** Hand a packet to [net_tx_ip]; the result is what it returns. *)
Definition transmit (E : env) (i : nat) (p : pkt) : M Z :=
  when (net_tx_ip E i =? 0) (emit [Tx p]) ;;; ret (net_tx_ip E i).

(** [tcp_tx_raw_rst] and [tcp_tx_raw_rst_ack], with the connection's addresses. *)
Definition tcp_tx_raw_rst (E : env) (i : nat) (seq : Z) : M unit :=
  if alloc E i then transmit E i (Pkt TCP_RST seq 0 0 [] [] 0) ;;; ret () else ret ().
Definition tcp_tx_raw_rst_ack (E : env) (i : nat) (seq ack : Z) : M unit :=
  if alloc E i then transmit E i (Pkt (Z.lor TCP_RST TCP_ACK) seq ack 0 [] [] 0) ;;; ret () else ret ().

Definition tcp_tx_ack (E : env) (i : nat) : M unit :=
  if alloc E i then
    let! c := get in
    let! p := tcp_push_tcphdr TCP_ACK (snd_nxt (pcb c)) [] [] 0 in
    transmit E i p ;;; ret ()
  else ret ().

Definition tcp_tx_probe_window (E : env) (i : nat) : M unit :=
  if alloc E i then
    let! c := get in
    let! p := tcp_push_tcphdr TCP_ACK (u32 (snd_una (pcb c) - 1)) [] [] 0 in
    transmit E i p ;;; ret ()
  else ret ().

(** *** Options *)

Definition TCP_OPTION_MSS : Z := 1.
Definition TCP_OPTION_WSCALE : Z := 2.
Definition TCP_OPT_EOL : Z := 0.
Definition TCP_OPT_NOP : Z := 1.
Definition TCP_OPT_MSS : Z := 2.
Definition TCP_OPT_WSCALE : Z := 3.
Definition TCP_OLEN_MSS : Z := 4.
Definition TCP_OLEN_WSCALE : Z := 3.

Record tcp_options := TcpOptions { opt_en : Z; mss : Z; wscale : Z }.

(** The bytes of [hton32(x)]. *)
Definition hton32 (x : Z) : list Z :=
  [Z.land (Z.shiftr x 24) 255; Z.land (Z.shiftr x 16) 255; Z.land (Z.shiftr x 8) 255; Z.land x 255].

(** [tcp_push_options]: each option is pushed in front of the previous one. *)
Definition tcp_push_options (o : tcp_options) : list Z :=
  let b := if has (opt_en o) TCP_OPTION_WSCALE
           then hton32 (Z.lor (Z.lor (Z.lor (Z.shiftl TCP_OPT_NOP 24) (Z.shiftl TCP_OPT_WSCALE 16))
                                 (Z.shiftl TCP_OLEN_WSCALE 8)) (wscale o))
           else [] in
  if has (opt_en o) TCP_OPTION_MSS
  then hton32 (Z.lor (Z.lor (Z.shiftl TCP_OPT_MSS 24) (Z.shiftl TCP_OLEN_MSS 16)) (mss o)) ++ b
  else b.

(** [tcp_tx_ctl]: a segment without data that occupies one sequence number. *)
Definition tcp_tx_ctl (E : env) (i : nat) (flags : Z) (opts : option tcp_options) : M Z :=
  if alloc E i then
    let! c := get in
    let seq := snd_nxt (pcb c) in
    let ob := match opts with Some o => tcp_push_options o | None => [] end in
    let! p := tcp_push_tcphdr flags seq ob [] 0 in
    upd_pcb (fun p => p <| snd_nxt := u32 (snd_nxt p + 1) |>) ;;;
    let! r := transmit E i p in
    modify (fun c => c <| txq := txq c ++
      [Mbuf seq (u32 (seq + 1)) flags ob [] (microtime E) (if r =? 0 then 2 else 1)] |>) ;;;
    ret r
  else ret (- ENOMEM).

(** ** The segmenter *)

(** The buffer the next bytes go to: the pending one, or a new one; with the
    number of bytes it takes. *)
Definition next_buf (E : env) (i : nat) (rest : Z) : M (option (mbuf * Z)) :=
  let! c := get in
  let smss := snd_mss (pcb c) in
  match tx_pending c with
  | Some m =>
      let seglen := MIN rest (u32 (smss - mbuf_length m)) in
      modify (fun c => c <| tx_pending := None |>) ;;;
      ret (Some (m <| seg_end := u32 (seg_end m + seglen) |>, seglen))
  | None =>
      if alloc E i then
        let seglen := MIN rest smss in
        let nxt := snd_nxt (pcb c) in
        ret (Some (Mbuf nxt (u32 (nxt + seglen)) TCP_ACK [] [] 0 2, seglen))
      else ret None
  end.

(** Transmit a filled buffer and queue it for retransmission. *)
Definition send_buf (E : env) (i : nat) (m : mbuf) : M Z :=
  let! p := tcp_push_tcphdr (m_flags m) (seg_seq m) [] (m_data m) (u16 (seg_end m - seg_seq m)) in
  let! r := transmit E i p in
  modify (fun c => c <| txq := txq c ++
    [m <| timestamp := microtime E |> <| m_ref := if r =? 0 then m_ref m else 1 |>] |>) ;;;
  ret r.

(** The loop of [tcp_tx_send]: [buf] is what is left to send.  The result is
    what is left and the value of [ret].  Every iteration takes at least one
    byte, except one that finds a full pending buffer; running out of fuel is a
    failure. *)
Fixpoint send_loop (fuel : nat) (E : env) (i : nat) (buf : list Z) (push : bool) (r : Z) : M (list Z * Z) :=
  match fuel with
  | O => require false ;;; ret (buf, r)
  | S fuel =>
      let! nb := next_buf E i (Z.of_nat (length buf)) in
      match nb with
      | None => ret (buf, - ENOBUFS)
      | Some (m, seglen) =>
          let n := Z.to_nat seglen in
          let m := m <| m_data := m_data m ++ take n buf |> in
          let buf := drop n buf in
          upd_pcb (fun p => p <| snd_nxt := u32 (snd_nxt p + seglen) |>) ;;;
          let! c := get in
          if negb push && bool_decide (buf = []) && (u64 (mbuf_length m - 20) <? snd_mss (pcb c))
          then modify (fun c => c <| tx_pending := Some m |>) ;;; ret (buf, r)
          else
            let m := if push && bool_decide (buf = [])
                     then m <| m_flags := Z.lor (m_flags m) TCP_PUSH |> else m in
            let! r := send_buf E i m in
            if bool_decide (buf = []) then ret (buf, r) else send_loop fuel E (S i) buf push r
      end
  end.

Definition tcp_tx_send (E : env) (buf : list Z) (push : bool) : M Z :=
  let! c := get in
  require (negb (st_lt (state (pcb c)) ESTABLISHED)) ;;;
  let! x := send_loop (length buf + 2) E 0 buf push 0 in
  let '(rest, r) := x in
  let sent := Z.of_nat (length buf) - Z.of_nat (length rest) in
  ret (if sent >? 0 then sent else r).

(** ** Retransmission *)

(** [tcp_tx_retransmit_one]: its result, and the buffer as it is left in the
    queue.  While the first transmission holds a reference the segment is
    copied.  A segment with options is a SYN, which cannot be partly
    acknowledged. *)
Definition tcp_tx_retransmit_one (E : env) (i : nat) (m : mbuf) : M (Z * mbuf) :=
  let l4len := u16 (seg_end m - seg_seq m) in
  let l4len := if has (m_flags m) (Z.lor TCP_SYN TCP_FIN) then u16 (l4len - 1) else l4len in
  let copy := negb (m_ref m =? 1) in
  if copy && negb (alloc E i) then ret (- ENOMEM, m)
  else
    let m' := if copy then m <| m_data := take (Z.to_nat l4len) (m_data m) |> else m <| m_ref := 2 |> in
    let! c := get in
    let una := snd_una (pcb c) in
    let free (x : mbuf) := if copy then m else x <| m_ref := m_ref x - 1 |> in
    if wraps_lte (seg_end m') una then ret (0, free m')
    else
      let n := u32 (una - seg_seq m') in
      let partly := wraps_lt (seg_seq m') una in
      require (negb partly || (n <=? mbuf_length m')) ;;;
      let m' := if partly then m' <| m_data := drop (Z.to_nat n) (m_data m') |> <| seg_seq := una |> else m' in
      let! p := tcp_push_tcphdr (m_flags m') (seg_seq m') (m_opts m') (m_data m') l4len in
      let! r := transmit E i p in
      ret (r, if r =? 0 then (if copy then m else m') else free m').

(** [tcp_tx_fast_retransmit_start] and [_finish]; the buffer is the first of the
    queue. *)
Definition tcp_tx_fast_retransmit_start (E : env) : M (option mbuf) :=
  let! c := get in
  if tx_exclusive c then ret None
  else
    match txq c with
    | [] => ret None
    | m :: q =>
        let m := m <| timestamp := microtime E |> <| m_ref := atomic_inc (m_ref m) |> in
        modify (fun c => c <| txq := m :: q |>) ;;; ret (Some m)
    end.
Definition tcp_tx_fast_retransmit_finish (E : env) (i : nat) (om : option mbuf) : M unit :=
  match om with
  | None => ret ()
  | Some m =>
      let! x := tcp_tx_retransmit_one E i m in
      modify (fun c => c <| txq :=
        match txq c with
        | h :: q => if seg_seq h =? seg_seq m then h <| m_ref := atomic_dec (m_ref h) |> :: q else h :: q
        | [] => []
        end |>)
  end.

(** The loop of [tcp_tx_retransmit] over the queue: the queue it leaves. *)
Fixpoint retransmit_loop (E : env) (i count : nat) (q : list mbuf) : M (list mbuf) :=
  match q with
  | [] => ret []
  | m :: q' =>
      if u64 (microtime E - timestamp m) <? TCP_RETRANSMIT_TIMEOUT then ret q
      else
        let! c := get in
        if wraps_gte (snd_una (pcb c)) (seg_end m) then
          let! r := retransmit_loop E i count q' in ret (m :: r)
        else
          let! x := tcp_tx_retransmit_one E i (m <| timestamp := microtime E |>) in
          let '(r, m) := x in
          if negb (r =? 0) || (TCP_RETRANSMIT_BATCH <=? S count)%nat then ret (m :: q')
          else let! q' := retransmit_loop E (S i) (S count) q' in ret (m :: q')
  end.
Definition tcp_tx_retransmit (E : env) : M unit :=
  let! c := get in
  let! q := retransmit_loop E 0 0 (txq c) in
  modify (fun c => c <| txq := q |>).

(** ** Writing *)

(** The outcome of a call that may block: the thread waits on the queue and
    starts over when it is woken. *)
Inductive outcome (A : Type) := Blocked | Done (x : A).
Arguments Blocked {A}.
Arguments Done {A} x.

(** [tcp_write_wait], from taking the lock to waiting or returning; on success
    the window left. *)
Definition tcp_write_wait (E : env) (t : tid) : M (outcome (Z + Z)) :=
  let! c := get in
  if negb (tx_closed c) && (st_lt (state (pcb c)) ESTABLISHED || tx_exclusive c || tcp_is_snd_full c) then
    when (negb (zero_wnd c) && tcp_is_snd_full c)
      (modify (fun c => tcp_timer_update (microtime E)
                          (c <| zero_wnd := true |> <| zero_wnd_ts := microtime E |>))) ;;;
    if nonblocking c then ret (Done (inl (- EAGAIN)))
    else modify (fun c => c <| tx_wq := tx_wq c ++ [t] |>) ;;; ret Blocked
  else
    modify (fun c => c <| zero_wnd := false |>) ;;;
    if tx_closed c then ret (Done (inl (if negb (err c =? 0) then - err c else - EPIPE)))
    else
      modify (fun c => c <| tx_exclusive := true |> <| acks_delayed_cnt := 0 |> <| ack_delayed := false |>) ;;;
      ret (Done (inr (u32 (snd_una (pcb c) + snd_wnd (pcb c) - snd_nxt (pcb c))))).

Definition tcp_write_finish (E : env) : M unit :=
  let! c := get in
  require (tx_exclusive c) ;;;
  modify (fun c => c <| tx_exclusive := false |>) ;;;
  let! q := tcp_conn_ack in
  modify (fun c => if rcv_nxt (pcb c) =? tx_last_ack c then c <| ack_delayed := false |>
                   else c <| ack_ts := microtime E |>) ;;;
  let! c := get in
  let! x :=
    (if st_eqb (state (pcb c)) CLOSED then
       modify (fun c => c <| txq := [] |> <| tx_pending := None |>) ;;;
       ret (q ++ txq c ++ option_list (tx_pending c), None)
     else if do_fast_retransmit c then
       modify (fun c => c <| do_fast_retransmit := false |>) ;;;
       if fast_retransmit_last_ack c =? snd_una (pcb c)
       then let! m := tcp_tx_fast_retransmit_start E in ret (q, m)
       else ret (q, None)
     else ret (q, None)) in
  modify (tcp_timer_update (microtime E)) ;;;
  let! c := get in
  modify (fun c => c <| tx_wq := [] |>) ;;;
  tcp_tx_fast_retransmit_finish E 0 (snd x) ;;;
  emit (wakes (tx_wq c)) ;;; emit (frees (fst x)).

(** [tcp_write] and [tcp_writev] once [tcp_write_wait] has returned [winlen]. *)
Definition tcp_write (E : env) (buf : list Z) (winlen : Z) : M Z :=
  let! r := tcp_tx_send E (take (Z.to_nat (MIN (Z.of_nat (length buf)) winlen)) buf) true in
  tcp_write_finish E ;;; ret r.

(** [Es k] answers for the [k]-th vector. *)
Fixpoint writev_loop (Es : nat -> env) (iov : list (list Z)) (winlen sent r : Z) : M (Z * Z) :=
  match iov with
  | [] => ret (sent, r)
  | b :: iov' =>
      if winlen <=? 0 then ret (sent, r)
      else
        let n := MIN (Z.of_nat (length b)) winlen in
        let push := bool_decide (iov' = []) && (Z.of_nat (length b) <=? winlen) in
        let! r := tcp_tx_send (Es 0%nat) (take (Z.to_nat n) b) push in
        if r <=? 0 then ret (sent, r) else writev_loop (fun k => Es (S k)) iov' (winlen - r) (sent + r) r
  end.
Definition tcp_writev (Es : nat -> env) (E : env) (iov : list (list Z)) (winlen : Z) : M Z :=
  let! x := writev_loop Es iov winlen 0 0 in
  let '(sent, r) := x in
  tcp_write_finish E ;;; ret (if sent >? 0 then sent else r).
