(* ===== verification/TcpIn.v ===== *)
(** * tcp: the ingress path

    Models [runtime/net/tcp_in.c]: the acceptability test, reassembly
    ([tcp_rx_text]), option parsing, the fast path [tcp_rx_conn] and the slow
    path [__tcp_rx_conn]; and the parts of [runtime/net/tcp.c] that read from a
    connection, shut it down and handle its timeouts. *)

From S2P Require Import Prelude StdDef Tcp TcpOut.

Definition ECONNRESET : Z := 104.
Definition ETIMEDOUT : Z := 110.
Definition ECONNABORTED : Z := 103.

(** ** Acceptability and resets *)

Definition is_acceptable (p : tcp_pcb) (len seq : Z) : bool :=
  let edge := u32 (rcv_nxt p + rcv_wnd p) in
  if (len =? 0) && (rcv_wnd p =? 0) then seq =? rcv_nxt p
  else if (len =? 0) && (rcv_wnd p >? 0) then wraps_lte (rcv_nxt p) seq && wraps_lt seq edge
  else if (len >? 0) && (rcv_wnd p =? 0) then false
  else
    (wraps_lte (rcv_nxt p) seq && wraps_lt seq edge) ||
    (wraps_lte (rcv_nxt p) (u32 (seq + len - 1)) && wraps_lt (u32 (seq + len - 1)) edge).

Definition send_rst (E : env) (i : nat) (acked : bool) (seq ack len : Z) : M unit :=
  if acked then tcp_tx_raw_rst E i ack else tcp_tx_raw_rst_ack E i 0 (u32 (seq + len)).

(** ** Reassembly *)

(** [mbuf_pull] and [mbuf_trim], with their [BUG_ON]. *)
Definition mbuf_pull (m : mbuf) (len : Z) : option mbuf :=
  if len >? mbuf_length m then None else Some (m <| m_data := drop (Z.to_nat len) (m_data m) |>).
Definition mbuf_trim (m : mbuf) (len : Z) : option mbuf :=
  if len >? mbuf_length m then None
  else Some (m <| m_data := take (length (m_data m) - Z.to_nat len) (m_data m) |>).

Definition lift {A} (x : option A) : M A := fun c => match x with Some a => Some (a, c, []) | None => None end.

(** Does the next receive octet clip the head of the text? *)
Definition clip_head (nxt : Z) (m : mbuf) : option mbuf :=
  if wraps_lt (seg_seq m) nxt then
    let len := u32 (nxt - seg_seq m) in
    match mbuf_pull m len with
    | Some m => Some (m <| seg_seq := u32 (seg_seq m + len) |>)
    | None => None
    end
  else Some m.

(** Does the receive window clip the tail of the text? *)
Definition clip_tail (edge : Z) (m : mbuf) : option mbuf :=
  if wraps_lt edge (seg_end m) then
    let len := u32 (seg_end m - edge) in
    match mbuf_trim m len with
    | Some m => Some (m <| seg_end := edge |>)
    | None => None
    end
  else Some m.

Definition tcp_rx_append_text (m : mbuf) : M unit :=
  let! c := get in
  let nxt := rcv_nxt (pcb c) in
  let wnd := rcv_wnd (pcb c) in
  require (wraps_lte (seg_seq m) nxt && wraps_gt (seg_end m) nxt) ;;;
  let! m := lift (clip_head nxt m) in
  let! m := lift (clip_tail (u32 (nxt + wnd)) m) in
  let n := u32 (seg_end m - seg_seq m) in
  require (wnd >=? n) ;;;
  upd_pcb (fun p => p <| rcv_nxt := seg_end m |> <| rcv_wnd := u32 (wnd - n) |>) ;;;
  modify (fun c => c <| rxq := rxq c ++ [m] |>).

(** The search of [tcp_rx_text] for the place of an out-of-order segment, from
    the back of the queue (here reversed): [None] when it is not needed. *)
Fixpoint ooo_insert (m : mbuf) (rq : list mbuf) : option (list mbuf) :=
  match rq with
  | [] => Some [m]
  | pos :: rq' =>
      if wraps_gt (seg_end m) (seg_end pos) then Some (m :: rq)
      else if wraps_gte (seg_seq m) (seg_seq pos) then None
      else match ooo_insert m rq' with Some r => Some (pos :: r) | None => None end
  end.

(** The loop at [drain], over the out-of-order queue: [wake] and [fin], and what
    is left of the queue. *)
Fixpoint drain_ooo (q : list mbuf) (wake fin : bool) : M (bool * bool * list mbuf) :=
  match q with
  | [] => ret (wake, fin, [])
  | pos :: q' =>
      let! c := get in
      if wraps_lte (seg_end pos) (rcv_nxt (pcb c)) then emit [Free pos] ;;; drain_ooo q' wake fin
      else if wraps_gt (seg_seq pos) (rcv_nxt (pcb c)) then ret (wake, fin, q)
      else tcp_rx_append_text pos ;;; drain_ooo q' true (fin || has (m_flags pos) TCP_FIN)
  end.

Definition run_drain (wake fin : bool) : M (bool * bool) :=
  let! c := get in
  let! x := drain_ooo (rxq_ooo c) wake fin in
  let '(wake, fin, q) := x in
  modify (fun c' => c' <| rxq_ooo := q |>
                      <| rxq_ooo_len := rxq_ooo_len c' - Z.of_nat (length (rxq_ooo c) - length q) |>) ;;;
  let! c := get in
  ret (wake || (rcv_wnd (pcb c) =? 0), fin).

(** [tcp_rx_text]: whether the segment was used, [wake] and [fin]. *)
Definition tcp_rx_text (m : mbuf) : M (bool * bool * bool) :=
  let! c := get in
  if rcv_wnd (pcb c) =? 0 then ret (false, false, false)
  else if wraps_lte (seg_seq m) (rcv_nxt (pcb c)) then
    let w := has (m_flags m) (Z.lor TCP_PUSH TCP_FIN) || negb (bool_decide (rxq c = [])) in
    let fin := w && has (m_flags m) TCP_FIN in
    tcp_rx_append_text m ;;;
    let! x := run_drain w fin in ret (true, fst x, snd x)
  else if rxq_ooo_len c >=? TCP_OOO_MAX_SIZE then ret (false, false, false)
  else
    match ooo_insert m (reverse (rxq_ooo c)) with
    | None => ret (false, false, false)
    | Some r =>
        modify (fun c => c <| rxq_ooo := reverse r |> <| rxq_ooo_len := rxq_ooo_len c + 1 |>) ;;;
        let! x := run_drain false false in ret (true, fst x, snd x)
    end.

(** ** Options *)

(** The loop of [tcp_parse_options]; [mem] is the byte at an offset from [ptr].
    [None] when the fuel runs out. *)
Fixpoint parse_loop (fuel : nat) (mem : Z -> Z) (ptr len en mss ws : Z) : option (Z * Z * Z) :=
  match fuel with
  | O => None
  | S fuel =>
      if len >? 0 then
        let opcode := mem ptr in
        if opcode =? TCP_OPT_EOL then Some (en, mss, ws)
        else if opcode =? TCP_OPT_NOP then parse_loop fuel mem (ptr + 1) (len - 1) en mss ws
        else
          let opsize := mem (ptr + 1) in
          let '(en, mss, ws) :=
            if (opcode =? TCP_OPT_MSS) && (opsize =? TCP_OLEN_MSS)
            then (Z.lor en TCP_OPTION_MSS, mem (ptr + 2) * 256 + mem (ptr + 3), ws)
            else if (opcode =? TCP_OPT_WSCALE) && (opsize =? TCP_OLEN_WSCALE)
            then (Z.lor en TCP_OPTION_WSCALE, mss, Z.min (mem (ptr + 2)) 14)
            else (en, mss, ws) in
          parse_loop fuel mem (ptr + opsize) (len - opsize) en mss ws
      else Some (en, mss, ws)
  end.

(** What [tcp_parse_options] stores in the connection. *)
Definition apply_options (en mss ws : Z) (c : tcpconn) : tcpconn :=
  let p := pcb c in
  let p := p <| snd_mss := MIN (MAX mss TCP_MIN_MSS) (rcv_mss p) |> <| snd_wscale := ws |> in
  let c := c <| pcb := p |> in
  let c := if has en TCP_OPTION_WSCALE then c
           else let w := MIN (winmax c) UINT16_MAX in
                c <| winmax := w |> <| pcb := pcb c <| rcv_wnd := w |> <| rcv_wscale := 0 |> |> in
  if has en TCP_OPTION_MSS then c
  else c <| pcb := pcb c <| snd_mss := tcp_calculate_mss ETH_DEFAULT_MTU |> |>.

(** [tcp_parse_options]; [optlen] iterations are enough when no option has
    length zero. *)
Definition tcp_parse_options (optp : Z -> Z) (optlen : Z) : M Z :=
  let! x := lift (parse_loop (S (Z.to_nat optlen)) optp 0 optlen 0 0 0) in
  let '(en, mss, ws) := x in
  modify (apply_options en mss ws) ;;; ret en.

(** ** The slow path *)

(** What [__tcp_rx_conn] has decided when it reaches the label [done]. *)
Record verdict := Verdict {
  do_ack : bool; do_drop : bool; woken : list tid; rx_th : option tid; acked_q : list mbuf;
  retransmit : option mbuf }.
#[global] Instance eta_verdict : Settable verdict := fun r =>
  Verdict (do_ack r) (do_drop r) (woken r) (rx_th r) (acked_q r) (retransmit r).

(** The initial values of its locals. *)
Definition drop_it : verdict := Verdict false true [] None [] None.

(** A segment's length, counting a FIN. *)
Definition seg_len (m : mbuf) : Z :=
  let len := u32 (seg_end m - seg_seq m) in if has (m_flags m) TCP_FIN then u32 (len + 1) else len.

(** The handling of [TCP_STATE_SYN_SENT]. *)
Definition rx_syn_sent (E : env) (m : mbuf) (ack snd_nxt0 win : Z) (optp : Z -> Z) (optlen : Z) : M verdict :=
  let! c := get in
  let seq := seg_seq m in
  let is_ack := has (m_flags m) TCP_ACK in
  let is_rst := has (m_flags m) TCP_RST in
  if is_ack && (wraps_lte ack (iss (pcb c)) || wraps_gt ack snd_nxt0)
  then send_rst E 0 false seq ack (seg_len m) ;;; ret drop_it
  else if is_ack && is_rst && wraps_lte (snd_una (pcb c)) ack && wraps_lte ack snd_nxt0
  then tcp_conn_fail E ECONNRESET ;;; ret drop_it
  else if negb is_ack && is_rst then ret drop_it
  else if negb (has (m_flags m) TCP_SYN) then ret drop_it
  else
    upd_pcb (fun p => p <| rcv_nxt := u32 (seq + 1) |> <| irs := seq |>) ;;;
    let! en := tcp_parse_options optp optlen in
    let! c := get in
    let opts := TcpOptions en (rcv_mss (pcb c)) (rcv_wscale (pcb c)) in
    let! q := (if is_ack then upd_pcb (fun p => p <| snd_una := ack |>) ;;; tcp_conn_ack else ret []) in
    let! c := get in
    if wraps_gt (snd_una (pcb c)) (iss (pcb c)) then
      upd_pcb (fun p => p <| snd_wnd := win |> <| snd_wl1 := seq |> <| snd_wl2 := ack |>) ;;;
      tcp_conn_set_state E ESTABLISHED ;;;
      ret (Verdict true true [] None q None)
    else
      let! r := tcp_tx_ctl E 0 (Z.lor TCP_SYN TCP_ACK) (Some opts) in
      when (r =? 0) (tcp_conn_set_state E SYN_RECEIVED) ;;;
      ret (Verdict false true [] None q None).

(** The acknowledgement and the window update: whether the ack repeats
    [snd_una], whether the window changed, and the buffers acknowledged. *)
Definition rx_ack (seq ack win : Z) : M (bool * bool * list mbuf) :=
  let! c := get in
  let! x :=
    (if negb (snd_una (pcb c) =? ack)
     then upd_pcb (fun p => p <| snd_una := ack |>) ;;; let! q := tcp_conn_ack in ret (false, q)
     else ret (true, [])) in
  let '(ack_same, q) := x in
  let! c := get in
  let p := pcb c in
  if (wraps_lt (snd_wl1 p) seq || ((snd_wl1 p =? seq) && wraps_lte (snd_wl2 p) ack)) &&
     (negb ack_same || (snd_wnd p <=? win))
  then
    upd_pcb (fun p => p <| snd_wnd := win |> <| snd_wl1 := seq |> <| snd_wl2 := ack |>) ;;;
    ret (ack_same, negb (snd_wnd p =? win) || negb (snd_wl2 p =? ack), q)
  else ret (ack_same, false, q).

(** Counting duplicate acks; the buffer to retransmit at once. *)
Definition rx_dup_ack (E : env) (ack len : Z) (ack_same wnd_updated : bool) : M (option mbuf) :=
  let! c := get in
  let p := pcb c in
  if ack_same && negb (snd_una p =? snd_nxt p) && (len =? 0) && negb wnd_updated then
    if rep_acks c + 1 >=? TCP_FAST_RETRANSMIT_THRESH then
      let! r :=
        (if tx_exclusive c
         then modify (fun c => c <| do_fast_retransmit := true |> <| fast_retransmit_last_ack := ack |>) ;;; ret None
         else tcp_tx_fast_retransmit_start E) in
      modify (fun c => c <| rep_acks := 0 |>) ;;; ret r
    else modify (fun c => c <| rep_acks := rep_acks c + 1 |>) ;;; ret None
  else if snd_una p =? ack then modify (fun c => c <| rep_acks := 0 |>) ;;; ret None
  else ret None.

(** The state changes of an acknowledged FIN; [true] when the connection is gone. *)
Definition rx_fin_acked (E : env) (snd_nxt0 : Z) : M bool :=
  let! c := get in
  let all := snd_una (pcb c) =? snd_nxt0 in
  if st_eqb (state (pcb c)) FIN_WAIT1 && all then tcp_conn_set_state E FIN_WAIT2 ;;; ret false
  else if st_eqb (state (pcb c)) CLOSING && all then
    modify (fun c => c <| time_wait_ts := microtime E |>) ;;;
    tcp_conn_set_state E TIME_WAIT ;;; ret false
  else if st_eqb (state (pcb c)) LAST_ACK && all then
    tcp_conn_set_state E CLOSED ;;; tcp_conn_put ;;; ret true
  else ret false.

(** Step 7: the text; the verdict so far and whether a FIN was reached. *)
Definition rx_segment_text (E : env) (m : mbuf) (len : Z) (v : verdict) : M (verdict * bool) :=
  let! c := get in
  let s := state (pcb c) in
  if (len >? 0) && (st_eqb s ESTABLISHED || st_eqb s FIN_WAIT1 || st_eqb s FIN_WAIT2) then
    let! x := tcp_rx_text (m <| seg_end := u32 (seg_seq m + len) |>) in
    let '(used, wake, fin) := x in
    let! c := get in
    require (negb wake || (negb (bool_decide (rxq c = [])) && used)) ;;;
    let! th := (if wake then signal_rx_wq else ret None) in
    modify (fun c => c <| acks_delayed_cnt := acks_delayed_cnt c + 1 |>) ;;;
    let! c := get in
    let now_ack := acks_delayed_cnt c >=? 2 in
    when (negb now_ack && negb (ack_delayed c))
      (modify (fun c => c <| ack_delayed := true |> <| ack_ts := microtime E |>)) ;;;
    ret (v <| do_ack := now_ack || negb (bool_decide (rxq_ooo c = [])) |> <| do_drop := negb used |>
           <| rx_th := th |>, fin)
  else ret (v, false).

(** Step 8: the FIN. *)
Definition rx_fin (E : env) (snd_nxt0 : Z) (v : verdict) : M verdict :=
  let! c := get in
  let s := state (pcb c) in
  require (negb (st_eqb s SYN_RECEIVED)) ;;;
  if st_eqb s ESTABLISHED then tcp_conn_set_state E CLOSE_WAIT ;;; ret v
  else if st_eqb s FIN_WAIT1 then
    require (negb (snd_una (pcb c) =? snd_nxt0)) ;;; tcp_conn_set_state E CLOSING ;;; ret v
  else if st_eqb s FIN_WAIT2 then
    modify (fun c => c <| time_wait_ts := microtime E |>) ;;;
    tcp_conn_set_state E TIME_WAIT ;;; ret (v <| do_ack := true |>)
  else ret v.

(** The other states, from step 5 on. *)
Definition rx_ack_and_text (E : env) (m : mbuf) (ack snd_nxt0 win : Z) : M verdict :=
  let seq := seg_seq m in
  let len := seg_len m in
  let! c := get in
  if st_eqb (state (pcb c)) SYN_RECEIVED && negb (wraps_lte (snd_una (pcb c)) ack && wraps_lte ack snd_nxt0)
  then send_rst E 0 true seq ack len ;;; ret drop_it
  else
    when (st_eqb (state (pcb c)) SYN_RECEIVED)
      (upd_pcb (fun p => p <| snd_wnd := win |> <| snd_wl1 := seq |> <| snd_wl2 := ack |>) ;;;
       tcp_conn_set_state E ESTABLISHED) ;;;
    let! c := get in
    let snd_was_full := tcp_is_snd_full c in
    let in_window := wraps_lte (snd_una (pcb c)) ack && wraps_lte ack snd_nxt0 in
    if negb in_window && wraps_gt ack snd_nxt0 then ret (drop_it <| do_ack := true |>)
    else
      let! x := (if in_window then rx_ack seq ack win else ret (false, false, [])) in
      let '(ack_same, wnd_updated, q) := x in
      let! c := get in
      let! ws := (if snd_was_full && negb (tcp_is_snd_full c)
                  then modify (fun c => c <| tx_wq := [] |>) ;;; ret (tx_wq c) else ret []) in
      let! rt := rx_dup_ack E ack len ack_same wnd_updated in
      let v := Verdict false true ws None q rt in
      let! gone := rx_fin_acked E snd_nxt0 in
      if gone then ret v
      else
        let! y := rx_segment_text E m len v in
        let '(v, fin) := y in
        if fin then rx_fin E snd_nxt0 v else ret v.

(** The part of [__tcp_rx_conn] before the label [done]. *)
Definition rx_body (E : env) (m : mbuf) (ack snd_nxt0 win : Z) (optp : Z -> Z) (optlen : Z) : M verdict :=
  let seq := seg_seq m in
  let len := seg_len m in
  let! c := get in
  if st_eqb (state (pcb c)) CLOSED then
    when (negb (has (m_flags m) TCP_RST)) (send_rst E 0 false seq ack len) ;;; ret drop_it
  else if st_eqb (state (pcb c)) SYN_SENT then rx_syn_sent E m ack snd_nxt0 win optp optlen
  else if negb (is_acceptable (pcb c) len seq) then
    ret (drop_it <| do_ack := negb (has (m_flags m) TCP_RST) |>)
  else if has (m_flags m) TCP_RST then tcp_conn_fail E ECONNRESET ;;; ret drop_it
  else if has (m_flags m) TCP_SYN then
    send_rst E 0 (has (m_flags m) TCP_ACK) seq ack len ;;; tcp_conn_fail E ECONNRESET ;;; ret drop_it
  else if negb (has (m_flags m) TCP_ACK) then ret drop_it
  else rx_ack_and_text E m ack snd_nxt0 win.

(** ... and after it. *)
Definition rx_done (E : env) (m : mbuf) (v : verdict) : M unit :=
  modify (tcp_timer_update (microtime E)) ;;;
  when (do_ack v) (modify (fun c => c <| ack_delayed := false |> <| acks_delayed_cnt := 0 |>)) ;;;
  emit (wakes (woken v ++ option_list (rx_th v))) ;;;
  emit (frees (acked_q v)) ;;;
  tcp_tx_fast_retransmit_finish E 1 (retransmit v) ;;;
  when (do_ack v) (tcp_tx_ack E 2) ;;;
  when (do_drop v) (emit [Free m]).

(** [__tcp_rx_conn] *)
Definition tcp_rx_conn_slow (E : env) (m : mbuf) (ack snd_nxt0 win : Z) (optp : Z -> Z) (optlen : Z) : M unit :=
  let! v := rx_body E m ack snd_nxt0 win optp optlen in rx_done E m v.

(** ** The fast path *)

Record tcp_hdr := TcpHdr { h_seq : Z; h_ack : Z; h_off : Z; h_flags : Z; h_win : Z }.

Definition TCP_SLOWPATH_FLAGS : Z := Z.lor TCP_FIN (Z.lor TCP_RST TCP_URG).

(** A segment that stays on the fast path, once the lock is held. *)
Definition tcp_rx_conn_fast (E : env) (m : mbuf) (ack win len : Z) : M unit :=
  let seq := seg_seq m in
  let! c := get in
  let! q :=
    (if wraps_lte (snd_una (pcb c)) ack then
       let! q :=
         (if negb (snd_una (pcb c) =? ack) then
            modify (fun c => c <| rep_acks := 0 |>) ;;;
            upd_pcb (fun p => p <| snd_una := ack |>) ;;; tcp_conn_ack
          else ret []) in
       let! c := get in
       let p := pcb c in
       when (wraps_lt (snd_wl1 p) seq || ((snd_wl1 p =? seq) && wraps_lte (snd_wl2 p) ack))
         (upd_pcb (fun p => p <| snd_wnd := win |> <| snd_wl1 := seq |> <| snd_wl2 := ack |>) ;;;
          modify (fun c => c <| rep_acks := 0 |>)) ;;;
       ret q
     else ret []) in
  upd_pcb (fun p => p <| rcv_nxt := seg_end m |> <| rcv_wnd := u32 (rcv_wnd p - len) |>) ;;;
  let! c := get in
  let! th := (if negb (bool_decide (rxq c = [])) || has (m_flags m) TCP_PUSH
              then signal_rx_wq else ret None) in
  modify (fun c => c <| acks_delayed_cnt := acks_delayed_cnt c + 1 |>) ;;;
  let! c := get in
  let now_ack := acks_delayed_cnt c >=? 2 in
  modify (fun c =>
    if now_ack then c <| ack_delayed := false |> <| acks_delayed_cnt := 0 |>
    else if negb (ack_delayed c) then
      c <| ack_ts := microtime E |> <| ack_delayed := true |>
        <| next_timeout := MIN (next_timeout c) (u64 (microtime E + TCP_ACK_TIMEOUT)) |>
    else c) ;;;
  modify (fun c => c <| rxq := rxq c ++ [m] |>) ;;;
  emit (wakes (option_list th)) ;;; emit (frees q) ;;;
  when now_ack (tcp_tx_ack E 0).

(** Whether a segment must take the slow path. *)
Definition needs_slow_path (c : tcpconn) (snd_nxt0 : Z) (flags seq ack len : Z) : bool :=
  has flags TCP_SLOWPATH_FLAGS || (len =? 0) || wraps_gt ack snd_nxt0 ||
  negb (st_eqb (state (pcb c)) ESTABLISHED) || tcp_is_snd_full c ||
  negb (seq =? rcv_nxt (pcb c)) || negb (bool_decide (rxq_ooo c = [])) || (rcv_wnd (pcb c) <? len).

(** [tcp_rx_conn], from the parsed header on: [ip_len] is the length in the IP
    header, [buf] the packet after the fixed part of the TCP header, [beyond]
    the memory after it, [snd_nxt0] the value of [snd_nxt] read before taking
    the lock. *)
Definition tcp_rx_conn (E : env) (h : tcp_hdr) (ip_len : Z) (buf : list Z) (beyond : Z -> Z) (snd_nxt0 : Z) : M unit :=
  let! c := get in
  let win := u32 (Z.shiftl (h_win h) (snd_wscale (pcb c))) in
  let hdr_len := h_off h * 4 in
  let len := u32 (ip_len - 20 - hdr_len) in
  if (hdr_len <? 20) || (len >? Z.of_nat (length buf)) || (len >? rcv_mss (pcb c))
  then emit [Free (Mbuf 0 0 0 [] buf 0 1)]
  else
    let optlen := hdr_len - 20 in
    let optp := fun i => if i <? Z.of_nat (length buf) then buf !!! Z.to_nat i else beyond i in
    let! m := lift (mbuf_pull (Mbuf (h_seq h) (u32 (h_seq h + len)) (h_flags h) [] buf 0 1) optlen) in
    if needs_slow_path c snd_nxt0 (h_flags h) (h_seq h) (h_ack h) len
    then tcp_rx_conn_slow E m (h_ack h) snd_nxt0 win optp optlen
    else tcp_rx_conn_fast E m (h_ack h) win len.

(** ** Reading *)

(** The loop of [tcp_read_wait]: the buffers taken off the queue and the bytes
    they hold, and the buffer of which only a part is read. *)
Fixpoint pop_loop (fuel : nat) (len readlen : Z) (q : list mbuf) : M (list mbuf * Z * option mbuf) :=
  match fuel with
  | O => ret (q, readlen, None)
  | S fuel =>
      if readlen <? len then
        let! c := get in
        match rxq c with
        | [] => ret (q, readlen, None)
        | m :: l =>
            let fin := has (m_flags m) TCP_FIN in
            when fin tcp_conn_shutdown_rx ;;;
            if fin && (mbuf_length m =? 0) then ret (q, readlen, None)
            else if len - readlen <? mbuf_length m then
              modify (fun c => c <| rx_exclusive := true |>) ;;; ret (q, len, Some m)
            else
              modify (fun c => c <| rxq := l |>) ;;;
              pop_loop fuel len (readlen + mbuf_length m) (q ++ [m])
        end
      else ret (q, readlen, None)
  end.

(** [tcp_read_wait], from taking the lock to waiting or returning. *)
Definition tcp_read_wait (E : env) (t : tid) (len : Z) : M (outcome (Z + (list mbuf * Z * option mbuf))) :=
  let! c := get in
  if negb (rx_closed c) && (rx_exclusive c || bool_decide (rxq c = [])) then
    if nonblocking c then ret (Done (inl (- EAGAIN)))
    else modify (fun c => c <| rx_wq := rx_wq c ++ [t] |>) ;;; ret Blocked
  else if rx_closed c then ret (Done (inl (- err c)))
  else
    let! x := pop_loop (S (length (rxq c))) len 0 [] in
    let '(q, readlen, mout) := x in
    upd_pcb (fun p => p <| rcv_wnd := u32 (rcv_wnd p + readlen) |>) ;;;
    let! c := get in
    when (wraps_gte (u32 (rcv_nxt (pcb c) + rcv_wnd (pcb c)))
            (u32 (tx_last_ack c + tx_last_win c + winmax c / 4)))
      (tcp_tx_ack E 0) ;;;
    ret (Done (inr x)).

(** The rest of [tcp_read]: copy the buffers, then a part of [mout], which is
    the first of the queue; and [tcp_read_finish]. *)
Definition tcp_read_copy (len : Z) (q : list mbuf) (mout : option mbuf) : M (list Z) :=
  let bytes := concat (m_data <$> q) in
  emit (frees q) ;;;
  match mout with
  | None => ret bytes
  | Some m =>
      let cpylen := len - Z.of_nat (length bytes) in
      let! m' := lift (mbuf_pull m cpylen) in
      let! c := get in
      modify (fun c => c <| rxq := (m' <| seg_seq := u32 (seg_seq m + cpylen) |>) :: tail (rxq c) |>
                         <| rx_exclusive := false |> <| rx_wq := [] |>) ;;;
      emit (wakes (rx_wq c)) ;;;
      ret (bytes ++ take (Z.to_nat cpylen) (m_data m))
  end.

(** ** Shutting down *)

(** The rest of [tcp_conn_shutdown_tx] from the loop on, to which a thread
    returns when it is woken: neither [tx_closed] nor the state is tested again. *)
Definition shutdown_tx_wait (E : env) (t : tid) : M (outcome Z) :=
  let! c := get in
  if tx_exclusive c then modify (fun c => c <| tx_wq := tx_wq c ++ [t] |>) ;;; ret Blocked
  else
    let! r := tcp_tx_ctl E 0 (Z.lor TCP_FIN TCP_ACK) None in
    if negb (r =? 0) then ret (Done r)
    else
      when (st_eqb (state (pcb c)) ESTABLISHED) (tcp_conn_set_state E FIN_WAIT1) ;;;
      when (st_eqb (state (pcb c)) CLOSE_WAIT) (tcp_conn_set_state E LAST_ACK) ;;;
      modify (fun c => c <| tx_closed := true |>) ;;;
      release_tx_wq ;;; ret (Done 0).

Definition tcp_conn_shutdown_tx (E : env) (t : tid) : M (outcome Z) :=
  let! c := get in
  if tx_closed c then ret (Done 0)
  else require (negb (st_lt (state (pcb c)) ESTABLISHED)) ;;; shutdown_tx_wait E t.

(** ** Timeouts *)

Definition tcp_handle_timeouts (E : env) : M unit :=
  let now := microtime E in
  let! c := get in
  let s := state (pcb c) in
  if st_eqb s CLOSED then ret ()
  else if st_lt s ESTABLISHED && (u64 (now - time_wait_ts c) >=? TCP_CONNECT_TIMEOUT)
  then tcp_conn_fail E ETIMEDOUT
  else if st_eqb s TIME_WAIT && (u64 (now - time_wait_ts c) >=? TCP_TIME_WAIT_TIMEOUT)
  then tcp_conn_set_state E CLOSED ;;; tcp_conn_put
  else
    let late_ack := ack_delayed c && (u64 (now - ack_ts c) >=? TCP_ACK_TIMEOUT) in
    when late_ack (modify (fun c => c <| ack_delayed := false |>)) ;;;
    let probe := zero_wnd c && (u64 (now - zero_wnd_ts c) >=? TCP_ZERO_WND_TIMEOUT) in
    when probe (modify (fun c => c <| zero_wnd_ts := now |>)) ;;;
    let resend := negb (tx_exclusive c) &&
      match txq c with [] => false | m :: _ => u64 (now - timestamp m) >=? TCP_RETRANSMIT_TIMEOUT end in
    when resend tcp_conn_get ;;;
    modify (tcp_timer_update now) ;;;
    when (late_ack || negb (bool_decide (rxq_ooo c = []))) (tcp_tx_ack E 0) ;;;
    when probe (tcp_tx_probe_window E 1) ;;;
    when resend (emit [SpawnRetransmit]).
