(* ===== verification/TcpRx.v ===== *)
(** * tcp: the bytes an application reads are the bytes the peer sent

    Theorems about reassembly and reading in TcpIn.  Sequence numbers are
    related to absolute positions in the peer's stream of bytes: [rcv_nxt] is
    the 32-bit truncation of a position [N], and a segment that starts at
    position [A] has [seg_seq = u32 A]. *)

From S2P Require Import Prelude StdDef Tcp TcpOut TcpIn.

(** ** Positions *)

(** The largest window and segment, which keep every comparison of sequence
    numbers within [2^31]. *)
Definition MAX_WND : Z := 2 ^ 29.
Definition MAX_SEG : Z := 2 ^ 16.

Lemma lte_counters A B : - 2 ^ 31 < A - B < 2 ^ 31 -> wraps_lte (u32 A) (u32 B) = (A <=? B).
Proof. intros H. unfold wraps_lte. rewrite s32_u32_diff by lia. zcases. Qed.
Lemma gt_counters A B : - 2 ^ 31 < A - B < 2 ^ 31 -> wraps_gt (u32 A) (u32 B) = (A >? B).
Proof. intros H. unfold wraps_gt. rewrite s32_u32_diff by lia. zcases. Qed.
Lemma gte_counters A B : - 2 ^ 31 < A - B < 2 ^ 31 -> wraps_gte (u32 A) (u32 B) = (A >=? B).
Proof. intros H. unfold wraps_gte. rewrite s32_u32_diff by lia. zcases. Qed.

Definition is_fin (m : mbuf) : Z := Z.b2z (has (m_flags m) TCP_FIN).

(** [m] is a segment of [L] sequence numbers that starts at position [A]; a FIN
    takes the last one. *)
Record seg_at (m : mbuf) (A L : Z) : Prop := {
  sa_seq : seg_seq m = u32 A;
  sa_end : seg_end m = u32 (A + L);
  sa_len : mbuf_length m = L - is_fin m;
  sa_pos : 0 < L <= MAX_SEG
}.

(** The receive side of a connection that has received everything before
    position [N]. *)
Record rcv_at (c : tcpconn) (N : Z) : Prop := {
  ra_nxt : rcv_nxt (pcb c) = u32 N;
  ra_wnd : 0 <= rcv_wnd (pcb c) <= MAX_WND
}.

(** ** Appending text *)

(** The connection with everything before [N'] received and [m'] queued. *)
Definition received (c : tcpconn) (N N' : Z) (m' : mbuf) : tcpconn :=
  c <| pcb := pcb c <| rcv_nxt := u32 N' |> <| rcv_wnd := rcv_wnd (pcb c) - (N' - N) |> |>
    <| rxq := rxq c ++ [m'] |>.

Lemma wp_lift {A} (x : option A) y (Q : A -> tcpconn -> list effect -> Prop) c :
  x = Some y -> Q y c [] -> wp (lift x) Q c.
Proof. by intros ->. Qed.

Lemma clip_head_spec m A L N :
  seg_at m A L -> A <= N < A + L ->
  exists m1, clip_head (u32 N) m = Some m1 /\ m_flags m1 = m_flags m /\
    m_data m1 = drop (Z.to_nat (N - A)) (m_data m) /\ seg_seq m1 = u32 N /\ seg_end m1 = u32 (A + L).
Proof.
  intros [Hs He Hl Hp] HN. unfold MAX_SEG in Hp. unfold clip_head, mbuf_pull.
  rewrite Hs, wraps_lt_counters by lia. destruct (Z.ltb_spec A N) as [Hlt|Hge].
  - rewrite u32_diff, Hl by lia. assert (N - A <= L - is_fin m) by (unfold is_fin; destruct (has _ _); simpl; lia).
    destruct (Z.gtb_spec (N - A) (L - is_fin m)); [lia|]. eexists. split; [done|]. simpl. split_and!; [done..| |done].
    rewrite Hs, u32_add_l. f_equal. lia.
  - assert (N = A) as -> by lia. exists m. rewrite Z.sub_diag. split_and!; done.
Qed.

Lemma clip_tail_spec m N E R :
  seg_seq m = u32 N -> seg_end m = u32 E -> N < E <= N + MAX_SEG -> N <= R <= N + MAX_WND ->
  E - N - is_fin m = mbuf_length m -> (is_fin m = 1 -> E <= R) ->
  exists m1, clip_tail (u32 R) m = Some m1 /\ m_flags m1 = m_flags m /\ seg_seq m1 = u32 N /\
    m_data m1 = take (Z.to_nat (Z.min E R - N)) (m_data m) /\ seg_end m1 = u32 (Z.min E R).
Proof.
  unfold MAX_SEG, MAX_WND. intros Hs He HE HR Hl Hf. unfold clip_tail, mbuf_trim. rewrite He, wraps_lt_counters by lia.
  assert (0 <= is_fin m <= 1) by (unfold is_fin; destruct (has _ _); simpl; lia).
  destruct (Z.ltb_spec R E) as [Hlt|Hge].
  - rewrite u32_diff by lia. destruct (Z.gtb_spec (E - R) (mbuf_length m)); [lia|].
    eexists. split; [done|]. simpl. rewrite Z.min_r by lia. split_and!; [done|done| |done].
    f_equal. unfold mbuf_length in *. lia.
  - rewrite Z.min_l by lia. exists m. split_and!; [done..| |done]. unfold mbuf_length in *. by rewrite take_ge by lia.
Qed.

Lemma append_spec m A L c N (N' := Z.min (A + L) (N + rcv_wnd (pcb c))) :
  seg_at m A L -> rcv_at c N -> A <= N < A + L -> (is_fin m = 1 -> A + L <= N + rcv_wnd (pcb c)) ->
  wp (tcp_rx_append_text m) (fun _ c' e => e = [] /\ exists m',
    m_flags m' = m_flags m /\ m_data m' = take (Z.to_nat (N' - N)) (drop (Z.to_nat (N - A)) (m_data m)) /\
    c' = received c N N' m') c.
Proof.
  intros Hm [Hn Hw] HN Hf. pose proof Hm as [Hs He Hl Hp]. unfold MAX_SEG, MAX_WND in *.
  destruct (clip_head_spec m A L N Hm HN) as (m1 & E1 & F1 & D1 & S1 & T1).
  assert (0 <= is_fin m <= 1) by (unfold is_fin; destruct (has _ _); simpl; lia).
  destruct (clip_tail_spec m1 N (A + L) (N + rcv_wnd (pcb c))) as (m2 & E2 & F2 & S2 & D2 & T2); try done;
    unfold MAX_SEG, MAX_WND; try lia.
  { unfold is_fin, mbuf_length in *. rewrite D1, F1, length_drop. lia. }
  { unfold is_fin in *. by rewrite F1. }
  unfold tcp_rx_append_text. do 2 wp_step. apply wp_bind, wp_require.
  { rewrite Hs, He, Hn, lte_counters, gt_counters by lia. zcases. }
  wp_step. eapply wp_lift; [by rewrite Hn|]. wp_step. rewrite Hn, u32_add_l. eapply wp_lift; [done|].
  fold N' in T2, D2. assert (u32 (seg_end m2 - seg_seq m2) = N' - N) as En
    by (rewrite S2, T2; apply u32_diff; lia).
  apply wp_bind, wp_require; [rewrite En; zcases|]. do 3 wp_step. split; [done|]. exists m2. split_and!.
  - congruence.
  - by rewrite D2, D1.
  - rewrite En, T2, u32_small by (unfold is_u32; lia). done.
Qed.

(** ** The peer's stream *)

Section Stream.
(** The byte at each position, the position of the FIN, if the peer closes,
    the position up to which the application has read, and the buffer it is
    copying from, if any. *)
Context (stream : Z -> Z) (fin_pos : option Z) (lim : Z) (hd : option mbuf).

Definition stream_at (A n : Z) : list Z := stream <$> seqZ A n.

(** The last position whose byte is part of the stream, before [N]. *)
Definition upto (N : Z) : Z := match fin_pos with Some e => Z.min N e | None => N end.

(** The bytes from [N] up to [N']. *)
Definition stream_to (N N' : Z) : list Z := stream_at N (upto N' - N).

(** A segment with the peer's bytes: a FIN, if any, ends the stream. *)
Record carries (m : mbuf) (A L : Z) : Prop := {
  ca_seg : seg_at m A L;
  ca_data : m_data m = stream_at A (L - is_fin m);
  ca_fin : is_fin m = 1 -> fin_pos = Some (A + L - 1);
  ca_end : is_fin m = 0 -> upto (A + L) = A + L
}.

Lemma upto_le N : upto N <= N.
Proof. unfold upto. destruct fin_pos; lia. Qed.
Lemma upto_mono N N' : N <= N' -> upto N <= upto N'.
Proof. unfold upto. destruct fin_pos; lia. Qed.

Lemma stream_at_app A n k : 0 <= n -> 0 <= k -> stream_at A (n + k) = stream_at A n ++ stream_at (A + n) k.
Proof. intros. unfold stream_at. by rewrite seqZ_app, fmap_app. Qed.

Lemma stream_at_nil A n : n <= 0 -> stream_at A n = [].
Proof. intros. unfold stream_at. by rewrite seqZ_nil. Qed.

Lemma length_stream_at A n : length (stream_at A n) = Z.to_nat n.
Proof. unfold stream_at. by rewrite length_fmap, length_seqZ. Qed.

Lemma stream_at_drop A n k : 0 <= k <= n -> drop (Z.to_nat k) (stream_at A n) = stream_at (A + k) (n - k).
Proof.
  intros. replace n with (k + (n - k)) at 1 by lia. rewrite stream_at_app by lia.
  rewrite drop_app_length'; [done|by rewrite length_stream_at].
Qed.

Lemma stream_at_take A n k : 0 <= k -> 0 <= n -> take (Z.to_nat k) (stream_at A n) = stream_at A (Z.min k n).
Proof.
  intros. destruct (Z.le_gt_cases n k).
  - rewrite Z.min_r by lia. apply take_ge. rewrite length_stream_at. lia.
  - rewrite Z.min_l by lia. replace n with (k + (n - k)) by lia. rewrite stream_at_app by lia.
    rewrite take_app_length'; [done|by rewrite length_stream_at].
Qed.

Lemma stream_to_app N N1 N2 : N <= N1 <= N2 -> stream_to N N1 ++ stream_to N1 N2 = stream_to N N2.
Proof.
  intros HN. unfold stream_to, upto. destruct fin_pos as [e|].
  - destruct (Z.le_gt_cases N1 e).
    + rewrite (Z.min_l N1) by lia.
      replace (Z.min N2 e - N) with ((N1 - N) + (Z.min N2 e - N1)) by lia. rewrite stream_at_app by lia.
      do 2 f_equal; lia.
    + rewrite !Z.min_r by lia. rewrite (stream_at_nil N1) by lia. by rewrite app_nil_r.
  - replace (N2 - N) with ((N1 - N) + (N2 - N1)) by lia. rewrite stream_at_app by lia. do 2 f_equal; lia.
Qed.

Lemma stream_to_nil N : stream_to N N = [].
Proof. unfold stream_to, upto. apply stream_at_nil. destruct fin_pos; lia. Qed.

(** What [tcp_rx_append_text] keeps of a segment. *)
Lemma carries_clip m A L N R (N' := Z.min (A + L) R) :
  carries m A L -> A <= N < A + L -> N <= R -> (is_fin m = 1 -> A + L <= R) ->
  take (Z.to_nat (N' - N)) (drop (Z.to_nat (N - A)) (m_data m)) = stream_to N N'.
Proof.
  intros [_ Hd Hf He] HN HR Hfr. assert (0 <= is_fin m <= 1) by (unfold is_fin; destruct (has _ _); simpl; lia).
  rewrite Hd, stream_at_drop, stream_at_take by lia. unfold stream_to.
  replace (A + (N - A)) with N by lia. f_equal. unfold upto in *.
  destruct (decide (is_fin m = 1)) as [E1|E0].
  - rewrite (Hf E1), E1. specialize (Hfr E1). lia.
  - specialize (He ltac:(lia)). destruct fin_pos; lia.
Qed.

(** ** Draining the out-of-order queue *)

(** A connection that has taken the buffers [added] and received up to [N],
    with the right edge of the window at [R]. *)
Definition advance (c : tcpconn) (N R : Z) (added : list mbuf) : tcpconn :=
  c <| pcb := pcb c <| rcv_nxt := u32 N |> <| rcv_wnd := R - N |> |> <| rxq := rxq c ++ added |>.

Lemma advance_id c N : rcv_at c N -> advance c N (N + rcv_wnd (pcb c)) [] = c.
Proof.
  intros [Hn _]. unfold advance. replace (N + _ - N) with (rcv_wnd (pcb c)) by lia. rewrite app_nil_r, <- Hn.
  destruct c as [p]. by destruct p.
Qed.

Lemma advance_trans c N1 N2 R a1 a2 : advance (advance c N1 R a1) N2 R a2 = advance c N2 R (a1 ++ a2).
Proof. unfold advance. simpl. by rewrite app_assoc. Qed.

Lemma advance_at c N R added : 0 <= R - N <= MAX_WND -> rcv_at (advance c N R added) N.
Proof. by split. Qed.

(** The bytes of a list of buffers. *)
Definition bytes (l : list mbuf) : list Z := concat (m_data <$> l).

Lemma bytes_app l1 l2 : bytes (l1 ++ l2) = bytes l1 ++ bytes l2.
Proof. unfold bytes. by rewrite fmap_app, concat_app. Qed.

(** Segments waiting for the gap before them to fill, each with its position;
    they start before the right edge [R], and end after [lo]. *)
Abbreviation pseg := (mbuf * (Z * Z))%type.
Definition p_start (x : pseg) : Z := fst (snd x).
Definition p_end (x : pseg) : Z := fst (snd x) + snd (snd x).

Record waits (R lo : Z) (x : pseg) : Prop := {
  wa_carries : carries (fst x) (fst (snd x)) (snd (snd x));
  wa_start : p_start x < R;
  wa_end : lo < p_end x;
  wa_fin : is_fin (fst x) = 1 -> p_end x <= R
}.
Definition by_end (x y : pseg) : Prop := p_end x <= p_end y.

Lemma waits_seq R lo x : waits R lo x ->
  seg_seq (fst x) = u32 (p_start x) /\ seg_end (fst x) = u32 (p_end x) /\ p_start x < p_end x <= p_start x + MAX_SEG.
Proof. intros [[[Hs He _ Hp] _ _ _] _ _ _]. unfold p_start, p_end in *. split_and!; [done|done|lia|lia]. Qed.

(** Has the FIN been received? *)
Definition closed (N : Z) : bool := upto N <? N.

(** Appending a segment passes the FIN exactly when it carries it. *)
Lemma carries_closed m A L N R (N' := Z.min (A + L) R) :
  carries m A L -> A <= N < A + L -> N <= R -> (is_fin m = 1 -> A + L <= R) ->
  closed N = false /\ closed N' = has (m_flags m) TCP_FIN.
Proof.
  intros [_ _ Hf He] HN HR Hfr. unfold closed, upto, is_fin in *. destruct (has (m_flags m) TCP_FIN); simpl in *.
  - rewrite (Hf eq_refl) in *. specialize (Hfr eq_refl). split; [apply Z.ltb_ge|apply Z.ltb_lt]; lia.
  - specialize (He eq_refl). destruct fin_pos; split; apply Z.ltb_ge; lia.
Qed.

Lemma closed_mono N N' : N <= N' -> closed N = true -> closed N' = true.
Proof. unfold closed, upto. rewrite !Z.ltb_lt. destruct fin_pos; lia. Qed.

Lemma drain_spec R lo : R - lo <= MAX_WND -> forall ps c N wake fin,
  rcv_at c N -> N + rcv_wnd (pcb c) = R -> lo <= N -> Forall (waits R lo) ps -> StronglySorted by_end ps ->
  wp (drain_ooo (fst <$> ps) wake fin) (fun x c' _ => exists N' ps' added,
    N <= N' <= R /\ snd x = fst <$> ps' /\ (exists k, ps' = drop k ps) /\ Forall (fun y => N' < p_end y) ps' /\
    c' = advance c N' R added /\ bytes added = stream_to N N' /\ (added = [] -> N' = N) /\
    (fst (fst x) = true -> wake = true \/ added <> []) /\
    snd (fst x) = fin || (closed N' && negb (closed N))) c.
Proof.
  intros HR. unfold MAX_WND in HR. induction ps as [|x ps IH]; intros c N wake fin Hat HRN Hlo Hps Hso; cbn [drain_ooo fmap list_fmap].
  { wp_step. exists N, [], []. rewrite stream_to_nil. split_and!; try done.
    - destruct Hat. lia.
    - by exists 0%nat.
    - subst R. by rewrite advance_id.
    - by left.
    - simpl. by rewrite andb_negb_r, orb_false_r. }
  apply Forall_cons in Hps as [Hx Hps]. apply StronglySorted_inv in Hso as [Hso Hhd].
  destruct (waits_seq _ _ _ Hx) as (Es & Ee & Hlen). pose proof Hx as [Hc Hst Hen Hfi].
  unfold MAX_SEG in Hlen. pose proof Hat as [Hn Hw]. unfold MAX_WND in Hw.
  do 2 wp_step. rewrite Hn, Ee, Es, lte_counters, gt_counters by lia.
  destruct (Z.leb_spec (p_end x) N) as [Hold|Hnew].
  { do 2 wp_step. eapply wp_mono; [by apply (IH c N)|]. intros y c' e (N' & ps' & added & H1 & H2 & [k H3] & H4).
    exists N', ps', added. split_and!; try apply H1; try apply H4; [done|]. by exists (S k). }
  destruct (Z.gtb_spec (p_start x) N) as [Hgap|Hin].
  { wp_step. exists N, (x :: ps), []. rewrite stream_to_nil. split_and!; try done; [lia|by exists 0%nat| | | |].
    - constructor; [done|]. eapply Forall_impl; [exact Hhd|]. unfold by_end. intros y ?. lia.
    - subst R. by rewrite advance_id.
    - by left.
    - simpl. by rewrite andb_negb_r, orb_false_r. }
  wp_step. eapply wp_mono; [apply (append_spec (fst x) _ _ c N (ca_seg _ _ _ Hc) Hat); [unfold p_start, p_end in *; lia|]|].
  { intros Ef. specialize (Hfi Ef). unfold p_end in Hfi. lia. }
  intros _ c1 e (-> & m' & _ & Hd & ->). fold (p_end x) in *. rewrite HRN in *.
  set (N1 := Z.min (p_end x) R) in *.
  replace (received c N N1 m') with (advance c N1 R [m']) by (unfold received, advance; by replace (rcv_wnd (pcb c) - (N1 - N)) with (R - N1) by lia).
  assert (m_data m' = stream_to N N1) as Hd'
    by (rewrite Hd; apply (carries_clip _ _ _ N R Hc); [unfold p_start, p_end in *; lia|lia|exact Hfi]).
  destruct (carries_closed _ _ _ N R Hc) as [Ec Ec']; [unfold p_start, p_end in *; lia|lia|exact Hfi|]. fold (p_end x) in Ec'. fold N1 in Ec'.
  eapply wp_mono; [apply (IH _ N1)|].
  - apply advance_at. unfold MAX_WND. lia.
  - simpl. lia.
  - lia.
  - done.
  - done.
  - intros y c' e' (N' & ps' & added & H1 & H2 & [k H3] & H4 & H5 & H6 & H7 & H8 & H9).
    exists N', ps', (m' :: added). split_and!; [lia|lia|done|by exists (S k)|done| | |done| |].
    + by rewrite H5, advance_trans.
    + unfold bytes in *. cbn [fmap list_fmap concat]. rewrite Hd', H6. apply stream_to_app. lia.
    + by right.
    + rewrite H9, Ec, <- Ec'. destruct fin; [done|]. destruct (closed N1) eqn:E1; [|by rewrite andb_true_r].
      by rewrite (closed_mono N1 N') by (lia || done).
Qed.

(** ** Inserting an out-of-order segment *)

Lemma StronglySorted_reverse (l : list pseg) :
  StronglySorted by_end l <-> StronglySorted (flip by_end) (reverse l).
Proof.
  induction l as [|x l IH]; [by split; constructor|]. rewrite reverse_cons, StronglySorted_app, <- IH. split.
  - intros H. apply StronglySorted_inv in H as [H1 H2]. rewrite Forall_forall in H2.
    split_and!; [|done|repeat constructor]. intros y z Hy ->%list_elem_of_singleton. by apply H2, elem_of_reverse.
  - intros (H1 & H2 & _). constructor; [done|]. apply Forall_forall. intros y Hy.
    apply (H1 y x); [by apply elem_of_reverse|set_solver].
Qed.

Lemma insert_spec R lo x : R - lo <= MAX_WND -> waits R lo x -> forall rps,
  Forall (waits R lo) rps -> StronglySorted (flip by_end) rps ->
  match ooo_insert (fst x) (fst <$> rps) with
  | None => True
  | Some r => exists rps', r = fst <$> rps' /\ rps' ≡ₚ x :: rps /\ StronglySorted (flip by_end) rps'
  end.
Proof.
  intros HR Hx. unfold MAX_WND in HR. destruct (waits_seq _ _ _ Hx) as (Es & Ee & Hl). destruct Hx as [_ Hx1 Hx2 _].
  unfold MAX_SEG in Hl. induction rps as [|y rps IH]; intros Hw Hs; cbn [ooo_insert fmap list_fmap].
  { exists [x]. split_and!; [done|done|repeat constructor]. }
  apply Forall_cons in Hw as [Hy Hw]. apply StronglySorted_inv in Hs as [Hs Hh].
  destruct (waits_seq _ _ _ Hy) as (Fs & Fe & Hl'). destruct Hy as [_ Hy1 Hy2 _]. unfold MAX_SEG in Hl'.
  rewrite Ee, Fe, Es, Fs, gt_counters, gte_counters by lia. destruct (Z.gtb_spec (p_end x) (p_end y)) as [Hgt|Hle].
  - exists (x :: y :: rps). split_and!; [done|done|]. constructor; [by constructor|]. constructor; [unfold flip, by_end; lia|].
    eapply Forall_impl; [exact Hh|]. unfold flip, by_end. intros z ?. lia.
  - rewrite Z.geb_leb. destruct (Z.leb_spec (p_start y) (p_start x)); [done|]. specialize (IH Hw Hs).
    destruct (ooo_insert (fst x) (fst <$> rps)) as [r|]; [|done]. destruct IH as (rps' & -> & Hp & Hs').
    exists (y :: rps'). split_and!; [done|by rewrite Hp, Permutation_swap|]. constructor; [done|].
    rewrite Hp. constructor; [unfold flip, by_end; lia|done].
Qed.

(** ** [tcp_rx_text] *)

(** The connection has received everything before [N], of which the bytes from
    [B] on are still queued; [ps] are the segments that arrived early.  The
    unread bytes and the window together are bounded. *)
Record reassembling (c : tcpconn) (B N : Z) (ps : list pseg) : Prop := {
  re_at : rcv_at c N;
  re_bytes : bytes (rxq c) = stream_to B N;
  re_read : B <= upto N;
  re_ooo : rxq_ooo c = fst <$> ps;
  re_len : rxq_ooo_len c = Z.of_nat (length ps);
  re_waits : Forall (waits (N + rcv_wnd (pcb c)) N) ps;
  re_sorted : StronglySorted by_end ps;
  re_room : lim <= N /\ N + rcv_wnd (pcb c) <= lim + MAX_WND;
  re_head : option_list hd `prefix_of` rxq c;
  re_excl : rx_exclusive c = bool_decide (is_Some hd)
}.

(** Everything but the receive queues and the receive window. *)
Definition blank (c : tcpconn) : tcpconn :=
  c <| pcb := pcb c <| rcv_nxt := 0 |> <| rcv_wnd := 0 |> |> <| rxq := [] |> <| rxq_ooo := [] |> <| rxq_ooo_len := 0 |>.

(** What [tcp_rx_text] does: the queues stay a prefix of the stream, which
    reaches [lo] at least, and what comes after a gap, the window's right edge does not move, and the flags say
    whether a reader should be woken and whether the FIN was reached. *)
Record text_done (c c' : tcpconn) (B N lo : Z) (used wake fin : bool) : Prop := {
  td_ex : exists N' ps', N <= N' /\ lo <= N' /\ N' + rcv_wnd (pcb c') = N + rcv_wnd (pcb c) /\
    reassembling c' B N' ps' /\ fin = closed N' && negb (closed N);
  td_rest : blank c' = blank c;
  td_wake : wake = true -> used = true /\ rxq c' <> []
}.

Lemma run_drain_spec c B N ps w f lo :
  rcv_at c N -> bytes (rxq c) = stream_to B N -> B <= upto N -> rxq_ooo c = fst <$> ps ->
  rxq_ooo_len c = Z.of_nat (length ps) -> Forall (waits (N + rcv_wnd (pcb c)) lo) ps -> StronglySorted by_end ps ->
  lo <= N -> N + rcv_wnd (pcb c) - lo <= MAX_WND -> lim <= N /\ N + rcv_wnd (pcb c) <= lim + MAX_WND ->
  option_list hd `prefix_of` rxq c -> rx_exclusive c = bool_decide (is_Some hd) -> (rcv_wnd (pcb c) = 0 -> rxq c <> []) -> (w = true -> rxq c <> []) ->
  wp (run_drain w f) (fun x c' _ => exists N' ps', N <= N' /\ N' + rcv_wnd (pcb c') = N + rcv_wnd (pcb c) /\
    reassembling c' B N' ps' /\ snd x = f || (closed N' && negb (closed N)) /\ blank c' = blank c /\
    (fst x = true -> rxq c' <> [])) c.
Proof.
  intros Hat Hb HB Ho Hl Hw Hs Hlo HR Hroom Hhd Hex H0 Hwk. pose proof (upto_le N). unfold run_drain. do 2 wp_step. rewrite Ho. wp_step.
  eapply wp_mono; [apply (drain_spec _ lo HR ps c N w f); done|].
  intros [[w' f'] q] c1 e (N' & ps' & added & HN & Hq & [k Hk] & Hend & Hc & Hbytes & Hnil & Hwake & Hfin). simpl in *.
  do 5 wp_step. rewrite Hc, Hq. exists N', ps'. simpl. rewrite Hk, !length_fmap, length_drop. split_and!; [lia|lia| |done|done|].
  - split; simpl; rewrite ?length_drop.
    + split; simpl; [done|]. destruct Hat. unfold MAX_WND in *. lia.
    + rewrite bytes_app, Hb, Hbytes. apply stream_to_app. lia.
    + pose proof (upto_mono N N'). lia.
    + done.
    + lia.
    + subst ps'. replace (N' + _) with (N + rcv_wnd (pcb c)) by lia.
      apply (Forall_drop _ k) in Hw. rewrite Forall_forall in Hw, Hend |- *. intros y Hy.
      destruct (Hw y Hy) as [? ? ? ?]. split; auto.
    + subst ps'. rewrite <- (take_drop k ps), StronglySorted_app in Hs. apply Hs.
    + lia.
    + by apply prefix_app_r.
    + done.
  - intros Hor. apply orb_true_iff in Hor as [Hor|Hz].
    + destruct (Hwake Hor) as [Hw1|Ha]; [specialize (Hwk Hw1)|]; intros E; apply app_eq_nil in E as [? ?]; done.
    + apply Z.eqb_eq in Hz. intros E. apply app_eq_nil in E as [E1 E2]. apply H0; [|done].
      specialize (Hnil E2). lia.
Qed.

Lemma reassembling_same c B N ps used :
  reassembling c B N ps -> text_done c c B N N used false false.
Proof.
  intros H. split; [|done|done]. exists N, ps. rewrite andb_negb_r. split_and!; [lia|lia|lia|done|done].
Qed.

Lemma has_lor fl a b : has fl a = true -> has fl (Z.lor b a) = true.
Proof.
  unfold has. rewrite !negb_true_iff, !Z.eqb_neq, Z.land_lor_distr_r. intros H E. apply H.
  apply Z.lor_eq_0_iff in E. apply E.
Qed.

(** A segment whose text overlaps the receive window. *)
Definition overlaps (N R A L : Z) : Prop := N <= A < R \/ N <= A + L - 1 < R.

(** How far a segment in order brings the connection. *)
Definition reach (N R A L : Z) : Z := if A <=? N then Z.max N (Z.min (A + L) R) else N.

Section Text.
Context (c : tcpconn) (B N : Z) (ps : list pseg) (Hre : reassembling c B N ps).
Context (m : mbuf) (A L : Z) (Hca : carries m A L).
Context (Hov : overlaps N (N + rcv_wnd (pcb c)) A L) (Hfin : is_fin m = 1 -> A + L <= N + rcv_wnd (pcb c)).

Lemma rx_in_order (w : bool) :
  A <= N -> (has (m_flags m) TCP_FIN = true -> w = true) ->
  wp (tcp_rx_append_text m ;;; let! x := run_drain w (w && has (m_flags m) TCP_FIN) in ret (true, fst x, snd x))
    (fun x c' _ => text_done c c' B N (reach N (N + rcv_wnd (pcb c)) A L) (fst (fst x)) (snd (fst x)) (snd x)) c.
Proof.
  intros HA Hwf. destruct Hre as [Hat Hb HB Ho Hl Hw Hs Hroom Hhd Hex]. pose proof Hat as [Hn Hwn].
  pose proof (ca_seg _ _ _ Hca) as [_ _ _ Hp]. unfold overlaps in Hov.
  set (R := N + rcv_wnd (pcb c)) in *. wp_step.
  eapply wp_mono; [apply (append_spec m A L c N (ca_seg _ _ _ Hca) Hat); [lia|exact Hfin]|].
  intros _ c1 e (-> & m' & _ & Hd & ->). fold R in Hd |- *. set (N1 := Z.min (A + L) R) in *.
  replace (received c N N1 m') with (advance c N1 R [m'])
    by (unfold received, advance; by replace (rcv_wnd (pcb c) - (N1 - N)) with (R - N1) by lia).
  assert (m_data m' = stream_to N N1) as Hd' by (rewrite Hd; apply (carries_clip _ _ _ N R Hca); (done || lia)).
  destruct (carries_closed _ _ _ N R Hca) as [Ec Ec1]; [lia|lia|done|]. fold N1 in Ec1.
  pose proof (upto_le N). assert (upto N <= upto N1) by (apply upto_mono; lia). wp_step. eapply wp_mono; [apply (run_drain_spec _ B N1 ps _ _ N)|]; simpl; try done; try lia.
  - apply advance_at. unfold MAX_WND in *. lia.
  - unfold bytes in *. rewrite fmap_app, concat_app, Hb. simpl. rewrite app_nil_r, Hd'. apply stream_to_app. lia.
  - by replace (N1 + (R - N1)) with R by lia.
  - by apply prefix_app_r.
  - intros _ E. by apply app_eq_nil in E as [_ ?].
  - intros _ E. by apply app_eq_nil in E as [_ ?].
  - intros x c' e' (N' & ps' & HN' & HR' & Hre' & Ef & Hbl & Hwk). wp_step. simpl. split.
    + exists N', ps'. split_and!; [lia|unfold reach; fold R; case_match; lia|lia|done|]. rewrite Ef, Ec, Ec1, andb_true_r.
      destruct (has (m_flags m) TCP_FIN) eqn:Hf; simpl.
      * rewrite Hwf by done. simpl. symmetry. apply (closed_mono N1); [lia|done].
      * by rewrite andb_false_r, andb_true_r.
    + done.
    + auto.
Qed.

Lemma rx_out_of_order :
  N < A ->
  wp (match ooo_insert m (reverse (rxq_ooo c)) with
      | None => ret (false, false, false)
      | Some r =>
          modify (fun c => c <| rxq_ooo := reverse r |> <| rxq_ooo_len := rxq_ooo_len c + 1 |>) ;;;
          let! x := run_drain false false in ret (true, fst x, snd x)
      end)
    (fun x c' _ => text_done c c' B N (reach N (N + rcv_wnd (pcb c)) A L) (fst (fst x)) (snd (fst x)) (snd x)) c.
Proof.
  intros HA. pose proof Hre as [Hat Hb HB Ho Hl Hw Hs Hroom Hhd Hex]. pose proof Hat as [Hn Hwn].
  unfold reach. rewrite (proj2 (Z.leb_gt A N)) by done. pose proof (ca_seg _ _ _ Hca) as [_ _ _ Hp]. unfold overlaps in Hov.
  set (R := N + rcv_wnd (pcb c)) in *. set (x := (m, (A, L))).
  assert (waits R N x) as Hx by (split; unfold p_start, p_end; simpl; [done|lia|lia|done]).
  pose proof (insert_spec R N x ltac:(lia) Hx (reverse ps)) as Hi. rewrite Ho, <- fmap_reverse.
  change m with (fst x). destruct (ooo_insert (fst x) (fst <$> reverse ps)) as [r|]; [|wp_step; by eapply reassembling_same].
  destruct Hi as (rps' & -> & Hp' & Hs'); [by apply Forall_reverse|by apply StronglySorted_reverse|].
  do 2 wp_step. wp_step. eapply wp_mono; [apply (run_drain_spec _ B N (reverse rps') _ _ N)|]; simpl; try done; try lia.
  - by rewrite fmap_reverse.
  - rewrite Hl, length_reverse, Hp'. simpl. rewrite length_reverse. lia.
  - fold R. rewrite reverse_Permutation, Hp'. constructor; [done|]. by apply Forall_reverse.
  - apply StronglySorted_reverse. by rewrite reverse_involutive.
  - intros y c' e' (N' & ps' & HN' & HR' & Hre' & Ef & Hbl & Hwk). wp_step. simpl. split; [|done|auto].
    exists N', ps'. simpl in *. auto 6.
Qed.

Lemma tcp_rx_text_spec :
  wp (tcp_rx_text m) (fun x c' _ => text_done c c' B N (reach N (N + rcv_wnd (pcb c)) A L) (fst (fst x)) (snd (fst x)) (snd x)) c.
Proof.
  pose proof Hre as [Hat _ _ _ _ _ _ _ _ _]. pose proof Hat as [Hn Hwn]. pose proof (ca_seg _ _ _ Hca) as [Hsq _ _ Hp].
  unfold overlaps in Hov. unfold MAX_WND, MAX_SEG in *. unfold tcp_rx_text. do 2 wp_step.
  destruct (Z.eqb_spec (rcv_wnd (pcb c)) 0) as [E|E]; [lia|]. rewrite Hsq, Hn, lte_counters by lia.
  destruct (Z.leb_spec A N).
  - apply rx_in_order; [done|]. intros Hf. apply orb_true_iff. left. by apply has_lor.
  - destruct (rxq_ooo_len c >=? TCP_OOO_MAX_SIZE); [|by apply rx_out_of_order].
    wp_step. unfold reach. rewrite (proj2 (Z.leb_gt A N)) by lia. by eapply reassembling_same.
Qed.
End Text.
End Stream.
