(* ===== verification/TcpFsm.v ===== *)
(** * tcp: the receive path as a whole

    Theorems about [tcp_rx_conn]: no assertion of the handler fails, the
    connection moves along the edges of the RFC 793 state diagram, and what it
    queues for the application is the peer's stream. *)

From S2P Require Import Prelude StdDef Tcp TcpOut TcpIn TcpRx.

(** ** Steps that leave the state and the receive side alone *)

(** What reassembly depends on. *)
Definition rxv (c : tcpconn) : Z * Z * list mbuf * list mbuf * Z * bool :=
  (rcv_nxt (pcb c), rcv_wnd (pcb c), rxq c, rxq_ooo c, rxq_ooo_len c, rx_exclusive c).

(** A segment in the transmit queue: a SYN or FIN has no data and takes one
    sequence number. *)
Definition ctl (m : mbuf) : bool := has (m_flags m) (Z.lor TCP_SYN TCP_FIN).
Record tx_seg (m : mbuf) : Prop := {
  ts_len : u32 (seg_end m - seg_seq m) = mbuf_length m + Z.b2z (ctl m);
  ts_ctl : ctl m = true -> m_data m = [];
  ts_max : mbuf_length m < 2 ^ 16
}.
Definition txok (c : tcpconn) : Prop := Forall tx_seg (txq c).

Record same (c c' : tcpconn) : Prop := {
  sm_tx : txok c';
  sm_rx : rxv c' = rxv c;
  sm_state : state (pcb c') = state (pcb c)
}.

(** [m] does not fail, and leaves the state and the receive side alone. *)
Definition quiet {A} (m : M A) : Prop := forall c, txok c -> wp m (fun _ c' _ => same c c') c.

Create HintDb quiet.

Lemma quiet_ret {A} (x : A) : quiet (ret x).
Proof. by intros c H. Qed.
Lemma quiet_get : quiet get.
Proof. by intros c H. Qed.
Lemma quiet_emit l : quiet (emit l).
Proof. by intros c H. Qed.
Lemma quiet_modify f : (forall c, txok c -> same c (f c)) -> quiet (modify f).
Proof. intros H c Hc. by apply H. Qed.

Lemma quiet_bind {A B} (m : M A) (f : A -> M B) : quiet m -> (forall x, quiet (f x)) -> quiet (bind m f).
Proof.
  intros Hm Hf c Hc. wp_step. eapply wp_mono; [by apply Hm|]. intros x c1 e [H1 H2 H3].
  eapply wp_mono; [by apply Hf|]. intros y c2 e2 [H4 H5 H6]. split; congruence || done.
Qed.

Lemma quiet_when b m : quiet m -> quiet (when b m).
Proof. intros H. destruct b; [done|apply quiet_ret]. Qed.
Lemma quiet_if {A} (b : bool) (m1 m2 : M A) : quiet m1 -> quiet m2 -> quiet (if b then m1 else m2).
Proof. by destruct b. Qed.
#[export] Hint Resolve quiet_ret quiet_get quiet_emit : quiet.

Ltac quiet_step :=
  lazymatch goal with
  | |- quiet (bind _ _) => apply quiet_bind
  | |- quiet (when _ _) => apply quiet_when
  | |- quiet (modify _) => first [solve [auto with quiet] | apply quiet_modify; by intros]
  | |- quiet (upd_pcb _) => apply quiet_modify; by intros
  | |- quiet (if _ then _ else _) => apply quiet_if
  | |- quiet (match ?x with _ => _ end) => destruct x
  | |- quiet (let _ := _ in _) => cbv zeta
  | |- quiet _ => solve [auto with quiet]
  | |- forall _, _ => intro
  end.
Ltac quiet := repeat quiet_step.

Lemma quiet_timer E : quiet (modify (tcp_timer_update (microtime E))).
Proof. by apply quiet_modify. Qed.

Lemma quiet_push_tcphdr fl s o d l : quiet (tcp_push_tcphdr fl s o d l).
Proof. unfold tcp_push_tcphdr. quiet. Qed.
Lemma quiet_transmit E i p : quiet (transmit E i p).
Proof. unfold transmit. quiet. Qed.
#[export] Hint Resolve quiet_timer quiet_push_tcphdr quiet_transmit : quiet.

Lemma quiet_raw_rst E i s : quiet (tcp_tx_raw_rst E i s).
Proof. unfold tcp_tx_raw_rst. quiet. Qed.
Lemma quiet_raw_rst_ack E i s a : quiet (tcp_tx_raw_rst_ack E i s a).
Proof. unfold tcp_tx_raw_rst_ack. quiet. Qed.
Lemma quiet_tx_ack E i : quiet (tcp_tx_ack E i).
Proof. unfold tcp_tx_ack. quiet. Qed.
Lemma quiet_probe E i : quiet (tcp_tx_probe_window E i).
Proof. unfold tcp_tx_probe_window. quiet. Qed.
#[export] Hint Resolve quiet_raw_rst quiet_raw_rst_ack quiet_tx_ack quiet_probe : quiet.

Lemma quiet_send_rst E i b s a l : quiet (send_rst E i b s a l).
Proof. unfold send_rst. quiet. Qed.
Lemma quiet_release_tx : quiet release_tx_wq.
Proof. unfold release_tx_wq. quiet. Qed.
Lemma quiet_release_rx : quiet release_rx_wq.
Proof. unfold release_rx_wq. quiet. Qed.
Lemma quiet_signal_rx : quiet signal_rx_wq.
Proof. unfold signal_rx_wq. quiet. Qed.
Lemma quiet_shutdown_rx : quiet tcp_conn_shutdown_rx.
Proof. unfold tcp_conn_shutdown_rx, release_rx_wq. quiet. Qed.
#[export] Hint Resolve quiet_send_rst quiet_release_tx quiet_release_rx quiet_signal_rx quiet_shutdown_rx : quiet.

(** *** The transmit queue *)

Lemma acked_split una q : fst (acked una q) ++ snd (acked una q) = q.
Proof.
  induction q as [|m q IH]; simpl; [done|]. destruct (wraps_gt _ _); [done|].
  destruct (acked una q) as [a r]. simpl in *. by rewrite IH.
Qed.

Lemma quiet_conn_ack : quiet tcp_conn_ack.
Proof.
  intros c Hc. unfold tcp_conn_ack. do 2 wp_step. destruct (tx_exclusive c); [by wp_step|].
  pose proof (acked_split (snd_una (pcb c)) (txq c)) as E. destruct (acked _ _) as [a r]. simpl in E.
  do 3 wp_step. split; [|done|done]. unfold txok in *. simpl. rewrite <- E in Hc. by apply Forall_app in Hc as [_ ?].
Qed.

(** A partial acknowledgement is of a data segment, and leaves some of it. *)
Lemma partly_acked m una :
  tx_seg m -> wraps_lte (seg_end m) una = false -> wraps_lt (seg_seq m) una = true ->
  ctl m = false /\ 0 < u32 (una - seg_seq m) < mbuf_length m.
Proof.
  intros [Hl Hc Hm] He Hs. unfold wraps_lte, wraps_lt in He, Hs. apply Z.leb_gt in He. apply Z.ltb_lt in Hs.
  assert (0 <= mbuf_length m) by (unfold mbuf_length; lia).
  set (x := u32 (una - seg_seq m)) in *. set (d := u32 (seg_end m - seg_seq m)) in *.
  assert (u32 (seg_seq m - una) = u32 (- x)) as E1.
  { unfold x, u32. rewrite <- Z.sub_0_l, Zminus_mod_idemp_r. f_equal. lia. }
  assert (u32 (seg_end m - una) = u32 (d - x)) as E2.
  { unfold d, x. autorewrite with width. f_equal. lia. }
  rewrite E1 in Hs. rewrite E2 in He. pose proof (u32_range (una - seg_seq m)) as Hx. fold x in Hx. unfold is_u32 in Hx.
  assert (0 <= d <= 2 ^ 16) by (destruct (ctl m); simpl in *; lia).
  assert (0 < x <= 2 ^ 31) as Hx' by (clear - Hs Hx; width).
  assert (x < d) as Hxd by (clear - He Hx Hx' H0; width).
  destruct (ctl m) eqn:Ec; [|simpl in Hl; lia].
  specialize (Hc eq_refl). unfold mbuf_length in *. rewrite Hc in Hl. simpl in Hl. lia.
Qed.

(** [m'], which may be a copy, is as good as [m]; and so is what is left of it
    after a partial acknowledgement. *)
Lemma tx_seg_copy m n : tx_seg m -> n = mbuf_length m -> tx_seg (m <| m_data := take (Z.to_nat n) (m_data m) |>).
Proof.
  intros [Hl Hc Hm] ->. unfold mbuf_length. rewrite Nat2Z.id, firstn_all. split; simpl; [done|done|].
  unfold mbuf_length in *. simpl. done.
Qed.

Lemma tx_seg_pull m una :
  tx_seg m -> ctl m = false -> 0 < u32 (una - seg_seq m) < mbuf_length m ->
  tx_seg (m <| m_data := drop (Z.to_nat (u32 (una - seg_seq m))) (m_data m) |> <| seg_seq := una |>).
Proof.
  intros [Hl Hc Hm] Ec Hx. rewrite Ec in Hl. split; unfold mbuf_length, ctl in *; simpl; rewrite ?length_drop.
  - rewrite Ec. replace (seg_end m - una) with ((seg_end m - seg_seq m) - (una - seg_seq m)) by lia.
    rewrite <- u32_sub_r, <- u32_sub_l, Hl. simpl in *. rewrite u32_small; [lia|]. unfold is_u32. lia.
  - by rewrite Ec.
  - lia.
Qed.

Lemma tx_seg_ref m r : tx_seg m -> tx_seg (m <| m_ref := r |>).
Proof. intros [Hl Hc Hm]. by split. Qed.
Lemma tx_seg_stamp m t : tx_seg m -> tx_seg (m <| timestamp := t |>).
Proof. intros [Hl Hc Hm]. by split. Qed.

(** The length in the checksum is that of the whole segment's text. *)
Lemma l4len_whole m : tx_seg m ->
  (if has (m_flags m) (Z.lor TCP_SYN TCP_FIN) then u16 (u16 (seg_end m - seg_seq m) - 1)
   else u16 (seg_end m - seg_seq m)) = mbuf_length m.
Proof.
  intros [Hl Hc Hm]. fold (ctl m). assert (0 <= mbuf_length m) by (unfold mbuf_length; lia).
  assert (u16 (seg_end m - seg_seq m) = u16 (mbuf_length m + Z.b2z (ctl m))) as E.
  { rewrite <- Hl. unfold u16, u32. change (2 ^ 32) with (2 ^ 16 * 2 ^ 16).
    symmetry. apply Z.mod_mod_divide, Z.divide_factor_l. }
  rewrite E. destruct (ctl m) eqn:Ec; simpl.
  - unfold mbuf_length. by rewrite Hc by done.
  - rewrite Z.add_0_r. unfold u16. by rewrite Z.mod_small by lia.
Qed.

Lemma retransmit_one_spec E i m c :
  txok c -> tx_seg m -> wp (tcp_tx_retransmit_one E i m) (fun x c' _ => same c c' /\ tx_seg (snd x)) c.
Proof.
  intros Hc Hm. unfold tcp_tx_retransmit_one. cbv zeta. rewrite (l4len_whole _ Hm).
  set (copy := negb (m_ref m =? 1)). destruct (copy && negb (alloc E i)); [by wp_step|].
  set (m1 := if copy then _ else _). assert (tx_seg m1) as Hm1.
  { unfold m1. destruct copy; [by apply tx_seg_copy|by apply tx_seg_ref]. }
  do 2 wp_step. set (una := snd_una (pcb c)). assert (forall x, tx_seg x -> tx_seg (if copy then m else x <| m_ref := m_ref x - 1 |>)) as Hfree.
  { intros x Hx. destruct copy; [done|by apply tx_seg_ref]. }
  destruct (wraps_lte (seg_end m1) una) eqn:He; [wp_step; split; [done|by apply Hfree]|].
  pose proof (partly_acked m1 una Hm1 He) as Hp. apply wp_bind, wp_require.
  { destruct (wraps_lt (seg_seq m1) una); [|done]. apply Z.leb_le. destruct (Hp eq_refl) as [_ ?]. lia. }
  set (m2 := if wraps_lt (seg_seq m1) una then _ else _). assert (tx_seg m2) as Hm2.
  { unfold m2. destruct (wraps_lt (seg_seq m1) una); [|done]. destruct (Hp eq_refl). by apply tx_seg_pull. }
  wp_step. eapply wp_mono; [by apply quiet_push_tcphdr|]. intros p c1 e1 H1.
  wp_step. eapply wp_mono; [apply quiet_transmit; by destruct H1|]. intros r c2 e2 H2. wp_step. split.
  - destruct H1, H2. split; congruence || done.
  - cbn [snd]. destruct (r =? 0); [by destruct copy|by apply (Hfree m2)].
Qed.

Lemma same_trans c1 c2 c3 : same c1 c2 -> same c2 c3 -> same c1 c3.
Proof. intros [_ H2 H3] [H4 H5 H6]. split; congruence || done. Qed.


Definition opt_seg (om : option mbuf) : Prop := forall m, om = Some m -> tx_seg m.

Lemma fast_retransmit_start_spec E c :
  txok c -> wp (tcp_tx_fast_retransmit_start E) (fun om c' _ => same c c' /\ opt_seg om) c.
Proof.
  intros Hc. unfold tcp_tx_fast_retransmit_start. do 2 wp_step. destruct (tx_exclusive c); [by wp_step|].
  unfold txok in Hc. destruct (txq c) as [|m q] eqn:Hq; [by wp_step; split; [split; [unfold txok; by rewrite Hq|..]|]|].
  apply Forall_cons in Hc as [Hm Hf]. do 3 wp_step.
  assert (tx_seg (m <| timestamp := microtime E |> <| m_ref := atomic_inc (m_ref m) |>)) by by apply tx_seg_ref, tx_seg_stamp.
  split; [split; [by constructor|done|done]|]. by intros ? [= <-].
Qed.

Lemma fast_retransmit_finish_spec E i om c :
  txok c -> opt_seg om -> wp (tcp_tx_fast_retransmit_finish E i om) (fun _ c' _ => same c c') c.
Proof.
  intros Hc Hm. unfold tcp_tx_fast_retransmit_finish. destruct om as [m|]; [|by wp_step].
  wp_step. eapply wp_mono; [apply retransmit_one_spec; auto|]. intros x c1 e1 [H1 _]. wp_step.
  eapply same_trans; [exact H1|]. destruct H1 as [H1 _ _]. split; [|done|done]. unfold txok in *. simpl.
  destruct (txq c1) as [|h q]; [done|]. apply Forall_cons in H1 as [Hh Hq]. destruct (_ =? _); [|by constructor].
  constructor; [by apply tx_seg_ref|done].
Qed.

Lemma quiet_rx_ack seq ack win : quiet (rx_ack seq ack win).
Proof. unfold rx_ack. pose proof quiet_conn_ack. quiet. Qed.

Lemma rx_dup_ack_spec E ack len b1 b2 c :
  txok c -> wp (rx_dup_ack E ack len b1 b2) (fun om c' _ => same c c' /\ opt_seg om) c.
Proof.
  intros Hc. unfold rx_dup_ack. do 2 wp_step. destruct (_ && _ && _ && _).
  - destruct (_ >=? _); [|by do 3 wp_step]. wp_step. destruct (tx_exclusive c); [by do 5 wp_step|].
    eapply wp_mono; [by apply fast_retransmit_start_spec|]. intros om c1 e1 [H1 H2]. do 3 wp_step. split; [|done].
    destruct H1. by split.
  - destruct (_ =? _); by wp_steps.
Qed.

(** *** State changes *)

Lemma set_state_spec E s c :
  txok c -> (state (pcb c) = CLOSED \/ st_num (state (pcb c)) < st_num s) ->
  wp (tcp_conn_set_state E s) (fun _ c' _ => txok c' /\ rxv c' = rxv c /\ state (pcb c') = s /\
    snd_una (pcb c') = snd_una (pcb c) /\ snd_nxt (pcb c') = snd_nxt (pcb c)) c.
Proof.
  intros Hc Hs. unfold tcp_conn_set_state. do 2 wp_step. apply wp_bind, wp_require.
  { unfold st_eqb, st_lt. apply orb_true_iff. destruct Hs as [-> | ?]; [by left|right; by apply Z.ltb_lt]. }
  wp_step. destruct (_ && _); unfold when, release_tx_wq; by wp_steps.
Qed.

Lemma conn_put_spec c :
  txok c -> state (pcb c) = CLOSED -> wp tcp_conn_put (fun _ c' _ => same c c') c.
Proof.
  intros Hc Hs. unfold tcp_conn_put. do 2 wp_step. destruct (atomic_dec_and_test (ref c)) as [z r]. do 2 wp_step.
  destruct z; unfold when; [|by wp_step]. apply wp_bind, wp_require; [unfold st_eqb; by rewrite Hs|]. by wp_step.
Qed.

Lemma conn_fail_spec E e c :
  txok c -> wp (tcp_conn_fail E e) (fun _ c' _ => txok c' /\ state (pcb c') = CLOSED) c.
Proof.
  intros Hc. unfold tcp_conn_fail. do 2 wp_step. wp_step.
  eapply wp_mono; [apply set_state_spec; [done|]|].
  { simpl. destruct (state (pcb c)); simpl; (by left) || (right; lia). }
  intros _ c1 e1 (H1 & _ & H3 & _). wp_step. eapply wp_mono; [by apply quiet_shutdown_rx|].
  intros _ c2 e2 [H4 _ H6].
  assert (forall c', txok c' -> state (pcb c') = CLOSED ->
    wp tcp_conn_put (fun _ c' _ => txok c' /\ state (pcb c') = CLOSED) c') as Hput.
  { intros c' Ht Hs. eapply wp_mono; [by apply conn_put_spec|]. intros _ c'' e' [? _ ?]. split; congruence || done. }
  do 2 wp_step. cbn [negb]. destruct (tx_closed c2), (tx_exclusive c2), (rx_exclusive c2); unfold when, release_tx_wq; cbn [negb];
    wp_steps; (apply Hput; [done || by constructor|simpl; congruence]).
Qed.

(** ** The state diagram *)

(** The edges of the RFC 793 diagram a received segment can take; a reset closes
    the connection in every state. *)
Inductive rfc_edge (reset : bool) : tcp_state -> tcp_state -> Prop :=
| e_syn_ack : rfc_edge reset SYN_SENT ESTABLISHED
| e_sim_open : rfc_edge reset SYN_SENT SYN_RECEIVED
| e_ack_of_syn : rfc_edge reset SYN_RECEIVED ESTABLISHED
| e_fin : rfc_edge reset ESTABLISHED CLOSE_WAIT
| e_ack_of_fin : rfc_edge reset FIN_WAIT1 FIN_WAIT2
| e_fin_crossed : rfc_edge reset FIN_WAIT1 CLOSING
| e_fin2 : rfc_edge reset FIN_WAIT2 TIME_WAIT
| e_closing : rfc_edge reset CLOSING TIME_WAIT
| e_last_ack : rfc_edge reset LAST_ACK CLOSED
| e_reset s : reset = true -> rfc_edge reset s CLOSED.
#[export] Hint Constructors rfc_edge : aspen.

(** The states after the peer's FIN. *)
Definition peer_closed (s : tcp_state) : bool :=
  match s with CLOSE_WAIT | CLOSING | LAST_ACK | TIME_WAIT => true | _ => false end.

Section Conn.
Context (stream : Z -> Z) (fin_pos : option Z) (lim : Z) (hd : option mbuf) (reset : bool).

(** A synchronized connection: until it is closed it has received the peer's
    stream up to [N], [B] is the next byte to be read, and its state says
    whether the FIN has been received. *)
Record conn_ok (c : tcpconn) (B N : Z) (ps : list (mbuf * (Z * Z))) : Prop := {
  co_tx : txok c;
  co_sync : state (pcb c) <> SYN_SENT;
  co_rx : state (pcb c) <> CLOSED ->
    reassembling stream fin_pos lim hd c B N ps /\ closed fin_pos N = peer_closed (state (pcb c))
}.

(** A segment with the peer's bytes, at position [A]. *)
Record incoming (m : mbuf) (A : Z) : Prop := {
  in_seq : seg_seq m = u32 A;
  in_end : seg_end m = u32 (A + mbuf_length m);
  in_len : mbuf_length m < MAX_SEG;
  in_data : m_data m = stream_at stream A (mbuf_length m);
  in_fin : is_fin m = 1 -> fin_pos = Some (A + mbuf_length m);
  in_text : is_fin m = 0 -> upto fin_pos (A + mbuf_length m) = A + mbuf_length m
}.

(** What handling a segment leaves: a step along the diagram to a connection
    that has received the stream up to [lo] at least. *)
Definition handled (c : tcpconn) (B lo : Z) (c' : tcpconn) : Prop :=
  rtc (rfc_edge reset) (state (pcb c)) (state (pcb c')) /\ exists N' ps', lo <= N' /\ conn_ok c' B N' ps'.

Lemma reassembling_rxv c c' B N ps :
  rxv c' = rxv c -> reassembling stream fin_pos lim hd c B N ps -> reassembling stream fin_pos lim hd c' B N ps.
Proof.
  unfold rxv. intros [= E1 E2 E3 E4 E5 E6] [[H1 H2] H3 H4 H5 H6 H7 H8 H9 H10 H11]. split; [split|..]; congruence || done || by rewrite E2.
Qed.

Lemma conn_ok_same c c' B N ps : same c c' -> conn_ok c B N ps -> conn_ok c' B N ps.
Proof.
  intros [H1 H2 H3] [H4 H5 H6]. split; [done|by rewrite H3|]. rewrite H3. intros Hs. destruct (H6 Hs) as [Hr Hc].
  split; [by eapply reassembling_rxv|done].
Qed.

Lemma handled_same c c' B N ps : conn_ok c B N ps -> same c c' -> handled c B N c'.
Proof.
  intros H Hs. split; [by destruct Hs as [_ _ ->]|]. exists N, ps. split; [lia|by eapply conn_ok_same].
Qed.

Lemma handled_closed c B N c' : reset = true -> txok c' -> state (pcb c') = CLOSED -> handled c B N c'.
Proof.
  intros Hr H Hs. split; [rewrite Hs; by apply rtc_once, e_reset|]. exists N, []. split; [lia|]. split; [done|by rewrite Hs|].
  by rewrite Hs.
Qed.

Lemma handled_then c c1 c2 B N : handled c B N c1 -> same c1 c2 -> handled c B N c2.
Proof.
  intros [H1 (N' & ps & H2 & H3)] Hs. split; [by destruct Hs as [_ _ ->]|]. exists N', ps. split; [done|].
  by eapply conn_ok_same.
Qed.

(** A new state keeps the receive side. *)
Lemma conn_ok_state c c' B N ps :
  conn_ok c B N ps -> txok c' -> rxv c' = rxv c -> state (pcb c) <> CLOSED -> state (pcb c') <> SYN_SENT ->
  peer_closed (state (pcb c')) = peer_closed (state (pcb c)) -> conn_ok c' B N ps.
Proof.
  intros [_ _ H] Ht Hr Hc Hs Hp. split; [done|done|]. intros _. destruct (H Hc) as [H1 H2].
  split; [by eapply reassembling_rxv|congruence].
Qed.

(** *** The segment's length and acceptability *)

Lemma seg_len_eq m A : incoming m A -> seg_len m = mbuf_length m + is_fin m.
Proof.
  intros [Hs He Hl _ _ _]. unfold seg_len. rewrite Hs, He. assert (0 <= mbuf_length m) by (unfold mbuf_length; lia).
  unfold MAX_SEG in Hl. rewrite u32_diff by lia. replace (A + mbuf_length m - A) with (mbuf_length m) by lia.
  unfold is_fin. destruct (has _ _); simpl; [apply u32_small; unfold is_u32|]; lia.
Qed.

Lemma incoming_carries m A :
  incoming m A -> 0 < seg_len m -> carries stream fin_pos (m <| seg_end := u32 (seg_seq m + seg_len m) |>) A (seg_len m).
Proof.
  intros Hin Hpos. pose proof (seg_len_eq _ _ Hin) as El. destruct Hin as [Hs He Hl Hd Hf Ht].
  assert (0 <= is_fin m <= 1) by (unfold is_fin; destruct (has _ _); simpl; lia). rewrite El in *. split.
  - split; simpl; [done|rewrite Hs, u32_add_l; done|unfold is_fin, mbuf_length in *; simpl; lia|unfold MAX_SEG in *; lia].
  - simpl. rewrite Hd at 1. f_equal. unfold is_fin. simpl. lia.
  - intros E. change (is_fin m = 1) in E. rewrite (Hf E), E. f_equal. lia.
  - intros E. change (is_fin m = 0) in E. specialize (Ht E). rewrite E, Z.add_0_r. done.
Qed.

Lemma acceptable_overlaps p N A L :
  rcv_nxt p = u32 N -> 0 <= rcv_wnd p <= MAX_WND -> - 2 ^ 29 <= A - N <= 2 ^ 29 -> 0 < L <= MAX_SEG ->
  is_acceptable p L (u32 A) = true -> overlaps N (N + rcv_wnd p) A L.
Proof.
  intros Hn Hw HA HL H. unfold MAX_WND, MAX_SEG, overlaps in *. unfold is_acceptable in H. rewrite Hn in H.
  autorewrite with width in H. replace (u32 A + L - 1) with (u32 A + (L - 1)) in H by lia. rewrite u32_add_l in H.
  replace (A + (L - 1)) with (A + L - 1) in H by lia.
  rewrite !lte_counters, !wraps_lt_counters in H by lia.
  destruct (Z.eqb_spec L 0); [lia|]. simpl in H. destruct (Z.gtb_spec L 0); [|lia]. simpl in H.
  destruct (Z.eqb_spec (rcv_wnd p) 0); [done|]. apply orb_true_iff in H as [H|H]; apply andb_true_iff in H as [H1 H2];
    apply Z.leb_le in H1; apply Z.ltb_lt in H2; lia.
Qed.

(** *** The handler's steps *)

Lemma set_state_ok E s c B N ps :
  conn_ok c B N ps -> state (pcb c) <> CLOSED -> s <> SYN_SENT -> st_num (state (pcb c)) < st_num s ->
  peer_closed s = peer_closed (state (pcb c)) ->
  wp (tcp_conn_set_state E s) (fun _ c' _ => conn_ok c' B N ps /\ state (pcb c') = s /\
    rxv c' = rxv c) c.
Proof.
  intros H Hc Hs Hlt Hp. pose proof H as [Ht _ _]. eapply wp_mono; [apply set_state_spec; auto|].
  intros _ c' _ (H1 & H2 & H3 & H4 & _). split_and!; [|done|done].
  eapply conn_ok_state; [exact H|done|done|done|congruence|congruence].
Qed.

(** Text is only taken in states where the peer has not closed. *)
Definition takes_text (s : tcp_state) : bool := st_eqb s ESTABLISHED || st_eqb s FIN_WAIT1 || st_eqb s FIN_WAIT2.

Lemma rx_fin_acked_spec E snd_nxt0 c B N ps :
  conn_ok c B N ps ->
  wp (rx_fin_acked E snd_nxt0) (fun gone c' _ => rtc (rfc_edge reset) (state (pcb c)) (state (pcb c')) /\
    conn_ok c' B N ps /\ rxv c' = rxv c /\ (state (pcb c') = FIN_WAIT1 -> snd_una (pcb c') <> snd_nxt0) /\
    takes_text (state (pcb c')) = takes_text (state (pcb c)) /\ (gone = true -> state (pcb c') = CLOSED)) c.
Proof.
  intros H. pose proof H as [Ht _ _]. unfold rx_fin_acked, st_eqb. do 2 wp_step.
  destruct (state (pcb c)) eqn:Hs; simpl; try (wp_step; rewrite Hs; split_and!; done);
    destruct (Z.eqb_spec (snd_una (pcb c)) snd_nxt0) as [Ea|Ea]; try (wp_step; rewrite Hs; split_and!; done).
  - wp_step. eapply wp_mono; [apply (set_state_ok E FIN_WAIT2 c B N ps); rewrite ?Hs; done|].
    intros _ c' e (H1 & H2 & H3). wp_step. rewrite H2. split_and!; [apply rtc_once, e_ack_of_fin|done..].
  - do 2 wp_step. wp_step. eapply wp_mono; [apply (set_state_ok E TIME_WAIT _ B N ps); simpl; rewrite ?Hs; try done|].
    { eapply conn_ok_same; [|exact H]. by split. }
    intros _ c' e (H1 & H2 & H3). wp_step. rewrite H2. split_and!; [apply rtc_once, e_closing|done..].
  - wp_step. eapply wp_mono; [apply (set_state_spec E CLOSED c Ht); rewrite Hs; by right|].
    intros _ c' e (H1 & H2 & H3 & _). wp_step. eapply wp_mono; [by apply conn_put_spec|].
    intros _ c2 e2 [H5 H7 H6]. wp_step. rewrite H6, H3. split_and!; [apply rtc_once, e_last_ack| |congruence|done..].
    split; [done|by rewrite H6, H3|by rewrite H6, H3].
Qed.

(** How far segment [m] at [A] brings connection [c]. *)
Definition brings (c : tcpconn) (N : Z) (m : mbuf) (A : Z) : Z :=
  if takes_text (state (pcb c)) then reach N (N + rcv_wnd (pcb c)) A (seg_len m) else N.

Lemma brings_ge c N m A : N <= brings c N m A.
Proof. unfold brings, reach. repeat case_match; lia. Qed.

Record text_ok (c c' : tcpconn) (B N lo : Z) (fin : bool) : Prop := {
  to_tx : txok c';
  to_state : state (pcb c') = state (pcb c);
  to_una : snd_una (pcb c') = snd_una (pcb c);
  to_takes : fin = true -> takes_text (state (pcb c)) = true;
  to_rx : state (pcb c) <> CLOSED -> exists N' ps', lo <= N' /\ reassembling stream fin_pos lim hd c' B N' ps' /\
    closed fin_pos N' = fin || closed fin_pos N
}.

Lemma brings_none c N m A :
  (seg_len m >? 0) && takes_text (state (pcb c)) = false -> 0 <= rcv_wnd (pcb c) -> brings c N m A <= N.
Proof. unfold brings, reach. rewrite Z.gtb_ltb, andb_false_iff, Z.ltb_ge. intros [H| ->] ?; repeat case_match; lia. Qed.

Lemma segment_text_spec E m A v c B N ps :
  conn_ok c B N ps -> incoming m A ->
  (0 < seg_len m -> overlaps N (N + rcv_wnd (pcb c)) A (seg_len m)) ->
  (is_fin m = 1 -> A + seg_len m <= N + rcv_wnd (pcb c)) ->
  wp (rx_segment_text E m (seg_len m) v)
    (fun x c' _ => text_ok c c' B N (brings c N m A) (snd x) /\ retransmit (fst x) = retransmit v) c.
Proof.
  intros [Ht Hsy Hrx] Hin Hov Hf. unfold rx_segment_text. do 2 wp_step. fold (takes_text (state (pcb c))).
  destruct ((seg_len m >? 0) && takes_text (state (pcb c))) eqn:Hc.
  2:{ wp_step. split; [|done]. split; try done. intros Hs. destruct (Hrx Hs) as [Hre Hcl].
      exists N, ps. split_and!; [|done|done]. apply brings_none; [done|]. pose proof (re_at _ _ _ _ _ _ _ _ Hre) as [_ Hw]. lia. }
  apply andb_true_iff in Hc as [Hpos Htk]. rewrite Z.gtb_ltb in Hpos. apply Z.ltb_lt in Hpos.
  assert (state (pcb c) <> CLOSED) as Hnc by (intros E'; by rewrite E' in Htk). destruct (Hrx Hnc) as [Hre Hcl].
  assert (closed fin_pos N = false) as Hcl0 by (rewrite Hcl; revert Htk; by destruct (state (pcb c))).
  wp_step. eapply wp_mono; [eapply tcp_rx_text_spec; [exact Hre|by apply incoming_carries|auto|]|].
  { intros Ef. by apply Hf. }
  intros [[used wake] fin] c1 e1 [(N' & ps' & HN & Hlo & HR & Hre' & Efin) Hbl Hwk]. simpl in *.
  assert (state (pcb c1) = state (pcb c)) as E1 by exact (f_equal (fun x => state (pcb x)) Hbl).
  assert (snd_una (pcb c1) = snd_una (pcb c)) as E2 by exact (f_equal (fun x => snd_una (pcb x)) Hbl).
  assert (txq c1 = txq c) as E3 by exact (f_equal txq Hbl).
  assert (txok c1) as Ht1 by (unfold txok; by rewrite E3).
  do 2 wp_step. apply wp_bind, wp_require.
  { destruct wake; [|done]. destruct (Hwk eq_refl) as [-> Hq]. simpl. rewrite bool_decide_false by done. done. }
  assert (forall c2, same c1 c2 -> snd_una (pcb c2) = snd_una (pcb c1) -> text_ok c c2 B N (brings c N m A) fin) as Hfinish.
  { intros c2 [G1 G2 G3] G4. split; [done|congruence|congruence|done|]. intros _. exists N', ps'.
    split_and!; [by unfold brings; rewrite Htk|by eapply reassembling_rxv|]. rewrite Efin, Hcl0, orb_false_r. simpl. by rewrite andb_true_r. }
  wp_step. eapply wp_mono with (P := fun _ c2 _ => same c1 c2 /\ snd_una (pcb c2) = snd_una (pcb c1)).
  { destruct wake; [|by wp_step]. unfold signal_rx_wq. do 2 wp_step. destruct (rx_wq c1); by wp_steps. }
  intros th c2 e2 [[G1 G2 G3] G4]. do 5 wp_step. apply wp_when; intros _; wp_steps; (split; [|done]);
    apply Hfinish; try done; by split.
Qed.

Lemma rx_fin_spec E snd_nxt0 v c B N ps :
  txok c -> takes_text (state (pcb c)) = true -> (state (pcb c) = FIN_WAIT1 -> snd_una (pcb c) <> snd_nxt0) ->
  reassembling stream fin_pos lim hd c B N ps -> closed fin_pos N = true ->
  wp (rx_fin E snd_nxt0 v) (fun v' c' _ => rtc (rfc_edge reset) (state (pcb c)) (state (pcb c')) /\ conn_ok c' B N ps /\
    retransmit v' = retransmit v) c.
Proof.
  intros Ht Htk Hun Hre Hcl. unfold rx_fin, st_eqb. do 2 wp_step.
  assert (forall s c', s <> SYN_SENT -> peer_closed s = true -> txok c' -> rxv c' = rxv c -> state (pcb c') = s ->
    conn_ok c' B N ps) as Hok.
  { intros s c' H1 H2 H3 H4 H5. split; [done|congruence|]. intros _. split; [by eapply reassembling_rxv|congruence]. }
  destruct (state (pcb c)) eqn:Hs; try done; simpl; (apply wp_bind, wp_require; [done|]).
  - wp_step. eapply wp_mono; [apply (set_state_spec E CLOSE_WAIT c Ht); rewrite Hs; by right|].
    intros _ c' e (H1 & H2 & H3 & _). wp_step. rewrite H3. split_and!; [apply rtc_once, e_fin|by apply (Hok CLOSE_WAIT)|done].
  - apply wp_bind, wp_require; [apply negb_true_iff, Z.eqb_neq; auto|].
    wp_step. eapply wp_mono; [apply (set_state_spec E CLOSING c Ht); rewrite Hs; by right|].
    intros _ c' e (H1 & H2 & H3 & _). wp_step. rewrite H3. split_and!; [apply rtc_once, e_fin_crossed|by apply (Hok CLOSING)|done].
  - do 3 wp_step. eapply wp_mono; [apply (set_state_spec E TIME_WAIT); [done|simpl; rewrite Hs; by right]|].
    intros _ c' e (H1 & H2 & H3 & _). wp_step. rewrite H3. split_and!; [apply rtc_once, e_fin2|by apply (Hok TIME_WAIT)|done].
Qed.

Lemma handled_mono c c' B lo lo' : lo' <= lo -> handled c B lo c' -> handled c B lo' c'.
Proof. intros H [H1 (N' & ps & H2 & H3)]. split; [done|]. exists N', ps. split; [lia|done]. Qed.

(** The end of the handler: FINs that were acknowledged, text, and the FIN. *)
Lemma text_tail_spec E m A snd_nxt0 v c B N ps :
  conn_ok c B N ps -> incoming m A ->
  (0 < seg_len m -> overlaps N (N + rcv_wnd (pcb c)) A (seg_len m)) ->
  (is_fin m = 1 -> A + seg_len m <= N + rcv_wnd (pcb c)) ->
  wp (let! gone := rx_fin_acked E snd_nxt0 in
      if gone then ret v
      else
        let! y := rx_segment_text E m (seg_len m) v in
        let '(v, fin) := y in
        if fin then rx_fin E snd_nxt0 v else ret v)
    (fun v' c' _ => handled c B (brings c N m A) c' /\ retransmit v' = retransmit v) c.
Proof.
  intros H Hin Hov Hf. wp_step. eapply wp_mono; [by apply (rx_fin_acked_spec E snd_nxt0 c B N ps)|].
  intros gone c1 e1 (R1 & H1 & V1 & U1 & K1 & G1).
  assert (rcv_wnd (pcb c1) = rcv_wnd (pcb c)) as Ew by (unfold rxv in V1; congruence).
  assert (brings c1 N m A = brings c N m A) as Eb by (unfold brings; by rewrite Ew, K1). rewrite <- Eb.
  destruct gone.
  { wp_step. split; [|done]. split; [done|]. exists N, ps. split; [|done]. unfold brings. by rewrite (G1 eq_refl). }
  wp_step. eapply wp_mono; [apply (segment_text_spec E m A v c1 B N ps H1 Hin); by rewrite ?Ew|].
  intros [v' fin] c2 e2 [[T1 T2 T3 T4 T5] Ev]. simpl in *. destruct fin.
  - specialize (T4 eq_refl). assert (state (pcb c1) <> CLOSED) as Hnc by (intros E'; by rewrite E' in T4).
    destruct (T5 Hnc) as (N' & ps' & HN & Hre & Hcl). rewrite <- T2 in T4.
    eapply wp_mono; [apply (rx_fin_spec E snd_nxt0 v' c2 B N' ps'); [done|done| |done|by rewrite Hcl]|].
    { intros E'. rewrite T3. apply U1. congruence. }
    intros v2 c3 e3 (R3 & H3 & E3). split; [|congruence]. split.
    + etrans; [exact R1|]. rewrite <- T2. exact R3.
    + exists N', ps'. done.
  - wp_step. split; [|done]. split; [by rewrite T2|]. destruct H1 as [_ G2 G3].
    destruct (decide (state (pcb c1) = CLOSED)) as [E'|Hnc].
    + exists N, ps. split; [unfold brings; by rewrite E'|]. split; [done|congruence|]. intros Hc. by rewrite T2 in Hc.
    + destruct (T5 Hnc) as (N' & ps' & HN & Hre & Hcl). destruct (G3 Hnc) as [_ Hp].
      exists N', ps'. split; [done|]. split; [done|congruence|]. intros _. split; [done|]. rewrite Hcl, T2. exact Hp.
Qed.

Lemma ack_and_text_spec E m A ack snd_nxt0 win c B N ps :
  conn_ok c B N ps -> state (pcb c) <> CLOSED -> incoming m A ->
  (0 < seg_len m -> overlaps N (N + rcv_wnd (pcb c)) A (seg_len m)) ->
  (is_fin m = 1 -> A + seg_len m <= N + rcv_wnd (pcb c)) ->
  wp (rx_ack_and_text E m ack snd_nxt0 win) 
    (fun v c' _ => handled c B (if wraps_gt ack snd_nxt0 then N else brings c N m A) c' /\ opt_seg (retransmit v)) c.
Proof.
  intros H Hnc Hin Hov Hf. unfold rx_ack_and_text. do 2 wp_step. unfold st_eqb.
  set (lo := if wraps_gt ack snd_nxt0 then N else brings c N m A).
  assert (lo <= brings c N m A) as Hlo by (subst lo; pose proof (brings_ge c N m A); case_match; lia).
  destruct (bool_decide (state (pcb c) = SYN_RECEIVED) && negb _) eqn:Hbad.
  { apply andb_true_iff in Hbad as [Hs%bool_decide_eq_true _]. wp_step. eapply wp_mono; [apply quiet_send_rst, H|]. intros [] c1 e1 Hsm. wp_step. split; [|done].
    apply (handled_mono _ _ _ N); [unfold brings in Hlo; rewrite Hs in Hlo; exact Hlo|]. by eapply handled_same. }
  wp_step. eapply wp_mono with (P := fun _ c1 _ => rtc (rfc_edge reset) (state (pcb c)) (state (pcb c1)) /\
    conn_ok c1 B N ps /\ rxv c1 = rxv c /\ brings c N m A <= brings c1 N m A).
  { apply wp_when; [|done]. intros Hs%bool_decide_eq_true. do 2 wp_step.
    eapply wp_mono; [apply (set_state_ok E ESTABLISHED _ B N ps); simpl; rewrite ?Hs; try done|].
    - eapply conn_ok_same; [|exact H]. split; [apply H|done|done].
    - intros [] c1 e1 (G1 & G2 & G3). split_and!; [|done|done|].
      + rewrite G2, Hs. apply rtc_once, e_ack_of_syn.
      + unfold brings at 1. rewrite Hs. apply brings_ge. }
  intros [] c1 e1 (R1 & H1 & V1 & Hbr). do 2 wp_step. clear Hbad.
  destruct (negb _ && _) eqn:Hgt.
  { wp_step. split; [|done]. split; [done|]. exists N, ps. apply andb_true_iff in Hgt as [_ Hgt]. subst lo. by rewrite Hgt. }
  wp_step. eapply wp_mono with (P := fun _ c2 _ => same c1 c2).
  { destruct (wraps_lte _ _ && _); [apply quiet_rx_ack, H1|by apply quiet_ret, H1]. }
  intros [[ack_same wnd] q] c2 e2 S2. do 3 wp_step. eapply wp_mono with (P := fun _ c3 _ => same c1 c3).
  { destruct (tcp_is_snd_full c1 && _); wp_steps; [|done]. eapply same_trans; [exact S2|]. destruct S2. by split. }
  intros ws c3 e3 S3. wp_step. eapply wp_mono; [apply rx_dup_ack_spec; by destruct S3|].
  intros rt c4 e4 [S4 Hrt]. pose proof (same_trans _ _ _ S3 S4) as S. pose proof (conn_ok_same _ _ _ _ _ S H1) as H4.
  assert (rcv_wnd (pcb c4) = rcv_wnd (pcb c)) as Ew by (destruct S as [_ V _]; unfold rxv in *; congruence).
  eapply wp_mono; [apply (text_tail_spec E m A snd_nxt0 _ c4 B N ps H4 Hin); by rewrite ?Ew|].
  intros v c5 e5 [[R5 Hex] Ev]. split; [|by rewrite Ev]. apply (handled_mono _ _ _ (brings c4 N m A)).
  { etrans; [exact Hlo|]. etrans; [exact Hbr|]. destruct S as [_ V Es]. unfold brings. rewrite Es.
    by replace (rcv_wnd (pcb c4)) with (rcv_wnd (pcb c1)) by (unfold rxv in V; congruence). }
  split; [|done].
  etrans; [exact R1|]. destruct S as [_ _ Es]. by rewrite <- Es.
Qed.

(** A segment that is not dropped before its text is looked at. *)
Definition accepts (c : tcpconn) (m : mbuf) (ack snd_nxt0 : Z) : bool :=
  is_acceptable (pcb c) (seg_len m) (seg_seq m) && negb (has (m_flags m) TCP_RST) &&
  negb (has (m_flags m) TCP_SYN) && has (m_flags m) TCP_ACK && negb (wraps_gt ack snd_nxt0).

(** A segment that resets the connection. *)
Definition resets (c : tcpconn) (m : mbuf) : bool :=
  is_acceptable (pcb c) (seg_len m) (seg_seq m) && (has (m_flags m) TCP_RST || has (m_flags m) TCP_SYN).

(** [__tcp_rx_conn] *)
Lemma slow_path_spec E m A ack snd_nxt0 win optp optlen c B N ps :
  conn_ok c B N ps -> incoming m A -> - 2 ^ 29 <= A - N <= 2 ^ 29 ->
  (is_fin m = 1 -> is_acceptable (pcb c) (seg_len m) (seg_seq m) = true -> A + seg_len m <= N + rcv_wnd (pcb c)) ->
  resets c m = reset ->
  wp (tcp_rx_conn_slow E m ack snd_nxt0 win optp optlen) 
    (fun _ c' _ => handled c B (if accepts c m ack snd_nxt0 then brings c N m A else N) c') c.
Proof.
  intros H Hin HA Hf Hr. pose proof H as [Ht Hsy Hrx].
  set (lo := if accepts c m ack snd_nxt0 then _ else _). unfold tcp_rx_conn_slow. wp_step.
  eapply wp_mono with (P := fun v c' _ => handled c B lo c' /\ opt_seg (retransmit v)).
  - assert (forall c', lo <= N -> same c c' -> handled c B lo c') as Hsame.
    { intros c' Hl Hs. eapply handled_mono; [exact Hl|]. by eapply handled_same. }
    assert (forall e c1, reset = true -> same c c1 -> wp (tcp_conn_fail E e ;;; ret drop_it)
      (fun v c' _ => handled c B lo c' /\ opt_seg (retransmit v)) c1) as Hfail.
    { intros e c1 Hr1 [Hs _ _]. wp_step. eapply wp_mono; [by apply conn_fail_spec|]. intros [] c2 e2 [G1 G2]. wp_step.
      split; [by apply handled_closed|done]. }
    unfold rx_body, st_eqb. do 2 wp_step. destruct (bool_decide_reflect (state (pcb c) = CLOSED)) as [Hc|Hnc].
    { assert (lo <= N) by (subst lo; unfold brings; rewrite Hc; by case_match).
      wp_step. eapply wp_mono; [apply quiet_when; [apply quiet_send_rst|done]|]. intros [] c1 e1 Hs. wp_step.
      split; [by apply Hsame|done]. }
    rewrite bool_decide_false by done. subst lo. unfold resets, accepts in *.
    destruct (is_acceptable (pcb c) (seg_len m) (seg_seq m)) eqn:Hacc; cbn [negb andb] in *; [|wp_step; split; [by apply Hsame|done]].
    destruct (has (m_flags m) TCP_RST); [by apply Hfail|]. destruct (has (m_flags m) TCP_SYN); cbn [negb andb orb] in *.
    { wp_step. eapply wp_mono; [by apply quiet_send_rst|]. intros [] c1 e1 Hs. by apply Hfail. }
    destruct (has (m_flags m) TCP_ACK); cbn [negb andb] in *; [|wp_step; split; [by apply Hsame|done]].
    destruct (Hrx Hnc) as [[[Hn Hw] _ _ _ _ _ _ _ _ _] _]. pose proof (seg_len_eq _ _ Hin) as El.
    assert (seg_len m <= MAX_SEG).
    { rewrite El. destruct Hin. unfold is_fin. destruct (has _ TCP_FIN); simpl; lia. }
    pose proof (ack_and_text_spec E m A ack snd_nxt0 win c B N ps H Hnc Hin) as Hs.
    destruct (wraps_gt ack snd_nxt0); (apply Hs; [|auto]);
      intros Hpos; apply acceptable_overlaps; try done; by rewrite <- (in_seq _ _ Hin).
  - intros v c1 e1 [Hh Hrt]. unfold rx_done. wp_step.
    assert (txok c1) as Ht1 by (destruct Hh as [_ (? & ? & _ & [? _ _])]; done).
    eapply wp_mono; [by apply quiet_timer|]. intros [] c2 e2 S2. wp_step.
    eapply wp_mono; [apply quiet_when; [quiet|by destruct S2]|]. intros [] c3 e3 S3. do 4 wp_step. wp_step.
    eapply wp_mono; [apply fast_retransmit_finish_spec; [by destruct S3|done]|]. intros [] c4 e4 S4. wp_step.
    eapply wp_mono; [apply quiet_when; [apply quiet_tx_ack|by destruct S4]|]. intros [] c5 e5 S5.
    eapply wp_mono; [apply quiet_when; [apply quiet_emit|by destruct S5]|]. intros [] c6 e6 S6.
    eapply handled_then; [exact Hh|]. eauto using same_trans.
Qed.
End Conn.
