(* ===== verification/TcpConn.v ===== *)
(** * tcp: a connection delivers the peer's stream

    The theorems of the receive side of TcpIn: the fast path, [tcp_rx_conn] and
    [tcp_read], on top of reassembly (TcpRx) and the slow path (TcpFsm). *)

From S2P Require Import Prelude StdDef Tcp TcpOut TcpIn TcpRx TcpFsm.

(** Give the current connection a name. *)
Ltac name_conn c := lazymatch goal with |- wp _ _ ?x => set (c := x) end.

Lemma quiet_wp {A} (m : M A) c : quiet m -> txok c -> wp m (fun _ c' _ => same c c') c.
Proof. intros H. apply H. Qed.

Section Conn.
Context (stream : Z -> Z) (fin_pos : option Z) (lim : Z) (hd : option mbuf).
Abbreviation conn_ok := (conn_ok stream fin_pos lim hd).
Abbreviation incoming := (incoming stream fin_pos).
Abbreviation reassembling := (reassembling stream fin_pos lim hd).

(** ** The fast path *)

Lemma fast_rxv E m ack win len c :
  txok c ->
  wp (tcp_rx_conn_fast E m ack win len) (fun _ c' _ => txok c' /\ state (pcb c') = state (pcb c) /\
    rxv c' = (seg_end m, u32 (rcv_wnd (pcb c) - len), rxq c ++ [m], rxq_ooo c, rxq_ooo_len c, rx_exclusive c)) c.
Proof.
  intros Ht. unfold tcp_rx_conn_fast. do 3 wp_step.
  eapply wp_mono with (P := fun _ c1 _ => same c c1).
  { apply quiet_wp; [|done]. pose proof quiet_conn_ack. quiet. }
  intros q c1 e1 [T1 V1 S1]. unfold rxv in V1. injection V1 as E1 E2 E3 E4 E5 E6. do 3 wp_step. wp_step.
  name_conn c2. wp_step. eapply wp_mono with (P := fun _ c3 _ => same c2 c3).
  { apply quiet_wp; [quiet|done]. }
  intros th c3 e3 [T3 V3 S3]. unfold rxv in V3. injection V3 as F1 F2 F3 F4 F5 F6. do 8 wp_step.
  name_conn c4.
  assert (txok c4 /\ state (pcb c4) = state (pcb c) /\
    rxv c4 = (seg_end m, u32 (rcv_wnd (pcb c) - len), rxq c ++ [m], rxq_ooo c, rxq_ooo_len c, rx_exclusive c)) as H4.
  { subst c4. unfold rxv. case_match; [|case_match]; simpl; rewrite ?F1, ?F2, ?F3, ?F4, ?F5, ?F6, ?S3; subst c2; simpl;
      rewrite ?E2, ?E3, ?E4, ?E5, ?E6, ?S1; done. }
  do 4 wp_step. apply wp_when; [|done]. intros _. eapply wp_mono; [apply quiet_tx_ack, H4|].
  intros [] c5 e5 [T5 V5 S5]. destruct H4 as (_ & <- & <-). done.
Qed.

Lemma fast_path_spec E m ack win c B N ps :
  conn_ok c B N ps -> incoming m N -> is_fin m = 0 -> state (pcb c) = ESTABLISHED -> rxq_ooo c = [] ->
  mbuf_length m <= rcv_wnd (pcb c) ->
  wp (tcp_rx_conn_fast E m ack win (mbuf_length m))
    (fun _ c' _ => conn_ok c' B (N + mbuf_length m) [] /\ state (pcb c') = ESTABLISHED) c.
Proof.
  intros [Ht Hs Hrx] Hin Hf He Hooo Hle. eapply wp_mono; [by apply fast_rxv|].
  intros _ c' e (T & S & V). unfold rxv in V. injection V as V1 V2 V3 V4 V5 V6. rewrite He in S. split; [|done].
  destruct Hrx as [[[Hn Hw] Hb HB Ho Hl Hwt Hso Hroom Hhd Hex] Hcl]; [by rewrite He|]. rewrite Hooo in Ho.
  symmetry in Ho. apply fmap_nil_inv in Ho as ->. destruct Hin as [I1 I2 I3 I4 I5 I6]. specialize (I6 Hf).
  assert (0 <= mbuf_length m) by (unfold mbuf_length; lia). pose proof (upto_le fin_pos N).
  rewrite u32_small in V2 by (unfold is_u32, MAX_WND in *; lia).
  split; [done|by rewrite S|]. intros _. rewrite S. split.
  - split; [split; [congruence|lia]| |lia|by rewrite V4|congruence|constructor|constructor|lia| |congruence].
    2:{ rewrite V3. by apply prefix_app_r. }
    unfold bytes in *. rewrite V3, fmap_app, concat_app, Hb. simpl. rewrite app_nil_r, I4.
    rewrite <- (stream_to_app _ _ B N (N + mbuf_length m)) by lia. f_equal. unfold stream_to. by rewrite I6, Z.add_simpl_l.
  - unfold closed. rewrite I6. simpl. lia.
Qed.

(** ** [tcp_rx_conn] *)

(** A packet with the peer's bytes: options [opts], text [data] at position [A]. *)
Record packet (h : tcp_hdr) (opts data : list Z) (A : Z) : Prop := {
  pk_off : h_off h * 4 = 20 + Z.of_nat (length opts);
  pk_seq : h_seq h = u32 A;
  pk_len : 40 + Z.of_nat (length (opts ++ data)) < 2 ^ 16;
  pk_data : data = stream_at stream A (Z.of_nat (length data));
  pk_fin : has (h_flags h) TCP_FIN = true -> fin_pos = Some (A + Z.of_nat (length data));
  pk_text : has (h_flags h) TCP_FIN = false -> upto fin_pos (A + Z.of_nat (length data)) = A + Z.of_nat (length data)
}.

(** The buffer of a packet without its headers. *)
Definition segment (h : tcp_hdr) (data : list Z) : mbuf :=
  Mbuf (h_seq h) (u32 (h_seq h + Z.of_nat (length data))) (h_flags h) [] data 0 1.

Lemma packet_incoming h opts data A : packet h opts data A -> incoming (segment h data) A.
Proof.
  intros [H1 H2 H3 H4 H5 H6]. rewrite length_app in H3. split; unfold segment, mbuf_length, is_fin; simpl; try done.
  - by rewrite H2, u32_add_l.
  - unfold MAX_SEG. lia.
  - intros E. apply H5. by destruct (has _ _).
  - intros E. apply H6. by destruct (has _ _).
Qed.

(** The position a packet brings the connection to. *)
Definition target (c : tcpconn) (N : Z) (h : tcp_hdr) (data : list Z) (A snd_nxt0 : Z) : Z :=
  if accepts c (segment h data) (h_ack h) snd_nxt0 && (Z.of_nat (length data) <=? rcv_mss (pcb c))
  then brings c N (segment h data) A else N.

Lemma target_ge c N h data A snd_nxt0 : N <= target c N h data A snd_nxt0.
Proof. unfold target. case_match; [apply brings_ge|lia]. Qed.

(** Without a reset only the last acknowledgement closes a connection. *)
Lemma edge_open s s' : rtc (rfc_edge false) s s' -> s <> CLOSED /\ s <> LAST_ACK -> s' <> CLOSED.
Proof.
  induction 1 as [|x y z H _ IH]; [by intros []|]. intros Hx. apply IH. inversion H; subst; naive_solver.
Qed.

(** The FIN of a packet that is accepted lies in the window. *)
Definition fin_fits (c : tcpconn) (N : Z) (m : mbuf) (A : Z) : Prop :=
  is_fin m = 1 -> is_acceptable (pcb c) (seg_len m) (seg_seq m) = true -> A + seg_len m <= N + rcv_wnd (pcb c).

Lemma rx_conn_spec E h opts data A beyond snd_nxt0 c B N ps (m := segment h data) :
  conn_ok c B N ps -> packet h opts data A -> - 2 ^ 29 <= A - N <= 2 ^ 29 -> fin_fits c N m A ->
  wp (tcp_rx_conn E h (40 + Z.of_nat (length (opts ++ data))) (opts ++ data) beyond snd_nxt0)
    (fun _ c' _ => handled stream fin_pos lim hd (resets c m) c B (target c N h data A snd_nxt0) c') c.
Proof.
  intros Hok Hpk HA Hfit. pose proof (packet_incoming _ _ _ _ Hpk) as Hin. fold m in Hin.
  assert (forall c', same c c' -> handled stream fin_pos lim hd (resets c m) c B N c') as Hsame by (intros; by eapply handled_same).
  destruct Hpk as [K1 K2 K3 K4 K5 K6]. unfold tcp_rx_conn. do 2 wp_step. rewrite K1.
  replace (40 + _ - 20 - _) with (Z.of_nat (length data)) by (rewrite length_app; lia). rewrite length_app in K3.
  rewrite u32_small by (unfold is_u32; lia). unfold target. fold m.
  rewrite (proj2 (Z.ltb_ge (20 + _) 20)) by lia. cbn [orb].
  rewrite (Z.gtb_ltb (Z.of_nat (length data)) (Z.of_nat (length (opts ++ data)))).
  rewrite (proj2 (Z.ltb_ge _ (Z.of_nat (length data)))) by (rewrite length_app; lia). cbn [orb].
  destruct (Z.gtb_spec (Z.of_nat (length data)) (rcv_mss (pcb c))) as [Hm|Hm].
  { rewrite (proj2 (Z.leb_gt _ _)), andb_false_r by lia. wp_step. apply Hsame. split; [apply Hok|done..]. }
  rewrite (proj2 (Z.leb_le _ _)), andb_true_r by lia. wp_step.
  apply wp_lift with (y := m).
  { unfold mbuf_pull, mbuf_length. simpl. rewrite Z.add_simpl_l, Z.gtb_ltb.
    rewrite (proj2 (Z.ltb_ge _ _)) by (rewrite length_app; lia). unfold m, segment.
    by rewrite Nat2Z.id, drop_app_length. }
  destruct (needs_slow_path _ _ _ _ _ _) eqn:Hslow.
  { eapply wp_mono; [by eapply slow_path_spec|]. done. }
  unfold needs_slow_path, st_eqb in Hslow. rewrite !orb_false_iff, !negb_false_iff, !bool_decide_eq_true, Z.eqb_eq in Hslow.
  destruct Hslow as [[[[[[[Hfl Hlen] Hack] Hst] Hful] Hseq] Hooo] Hwnd].
  assert (A = N) as ->.
  { destruct Hok as [_ _ Hrx]. destruct Hrx as [[[Hn _] _ _ _ _ _ _ _ _ _] _]; [by rewrite Hst|].
    rewrite K2, Hn in Hseq. clear - Hseq HA. width. }
  assert (is_fin m = 0) as Hf.
  { unfold is_fin. destruct (has (m_flags m) TCP_FIN) eqn:Ef; [|done]. exfalso.
    change (m_flags m) with (h_flags h) in Ef. unfold TCP_SLOWPATH_FLAGS in Hfl. rewrite Z.lor_comm in Hfl.
    by rewrite has_lor in Hfl. }
  eapply wp_mono; [apply (fast_path_spec E m _ _ c B N ps); [done..|unfold mbuf_length; simpl; lia]|].
  intros _ c' e [Hok' Hst']. split; [by rewrite Hst, Hst'|]. eexists _, _. split; [|exact Hok'].
  assert (brings c N m N <= N + mbuf_length m); [|case_match; unfold mbuf_length in *; lia].
  unfold brings, reach. rewrite (seg_len_eq _ _ _ _ Hin), Hf. unfold mbuf_length. repeat case_match; lia.
Qed.

(** Whatever packet of the peer's arrives at a synchronized connection, in
    whatever state, [tcp_rx_conn] returns without a failed assertion, moves along
    the RFC 793 state diagram, closes the connection by a reset only for an
    acceptable RST or SYN, and keeps the receive queue a contiguous prefix of the
    peer's stream that only grows. *)
Theorem tcp_rx_follows_rfc793 E h opts data A beyond snd_nxt0 c B N ps (m := segment h data) :
  conn_ok c B N ps -> packet h opts data A -> - 2 ^ 29 <= A - N <= 2 ^ 29 -> fin_fits c N m A ->
  exists c' e, tcp_rx_conn E h (40 + Z.of_nat (length (opts ++ data))) (opts ++ data) beyond snd_nxt0 c = Some ((), c', e) /\
    rtc (rfc_edge (resets c m)) (state (pcb c)) (state (pcb c')) /\
    exists N' ps', N <= N' /\ conn_ok c' B N' ps'.
Proof.
  intros H1 H2 H3 H4. pose proof (target_ge c N h data A snd_nxt0).
  destruct (wp_run _ _ _ (rx_conn_spec E h opts data A beyond snd_nxt0 c B N ps H1 H2 H3 H4))
    as ([] & c' & e & Hr & [Hs (N' & ps' & HN & Hok)]). exists c', e. split_and!; [done|done|].
  exists N', ps'. split; [unfold m in *; lia|done].
Qed.

(** A packet that is in order, acceptable, acknowledges nothing that was not
    sent and has no RST or SYN is always taken, by the fast path or the slow one:
    in a state that takes text the connection has afterwards received everything
    up to the packet's last byte (its FIN included), or up to the right edge of
    the window when that comes first, and is not closed. *)
Theorem tcp_rx_in_order_taken E h opts data A beyond snd_nxt0 c B N ps (m := segment h data) :
  conn_ok c B N ps -> packet h opts data A -> N - 2 ^ 29 <= A <= N -> fin_fits c N m A ->
  takes_text (state (pcb c)) = true -> accepts c m (h_ack h) snd_nxt0 = true -> Z.of_nat (length data) <= rcv_mss (pcb c) ->
  exists c' e N' ps',
    tcp_rx_conn E h (40 + Z.of_nat (length (opts ++ data))) (opts ++ data) beyond snd_nxt0 c = Some ((), c', e) /\
    conn_ok c' B N' ps' /\ Z.min (A + seg_len m) (N + rcv_wnd (pcb c)) <= N' /\ state (pcb c') <> CLOSED.
Proof.
  intros H1 H2 H3 H4 H5 H6 H7.
  destruct (wp_run _ _ _ (rx_conn_spec E h opts data A beyond snd_nxt0 c B N ps H1 H2 ltac:(lia) H4))
    as ([] & c' & e & Hr & [Hs (N' & ps' & HN & Hok)]). exists c', e, N', ps'. split_and!; [done|done| |].
  - unfold target, brings, reach in HN. fold m in HN. rewrite H6, H5, (proj2 (Z.leb_le _ _) H7), (proj2 (Z.leb_le A N)) in HN by lia.
    simpl in HN. lia.
  - assert (resets c m = false) as Er by (unfold resets, accepts in *; destruct (is_acceptable _ _ _), (has _ TCP_RST), (has _ TCP_SYN); done).
    fold m in Hs. rewrite Er in Hs. eapply edge_open; [exact Hs|]. by destruct (state (pcb c)).
Qed.
End Conn.

(** A connection in FIN_WAIT1 that has received up to 1000, and the peer's last
    three bytes with its FIN. *)
Definition half_closed : tcpconn :=
  tcp_conn_alloc 77 1500 <| pcb := (pcb (tcp_conn_alloc 77 1500)) <| state := FIN_WAIT1 |>
    <| rcv_nxt := 1000 |> <| snd_wnd := 1000 |> <| snd_nxt := 78 |> <| snd_una := 77 |> |>.
Definition last_hdr : tcp_hdr := TcpHdr 1000 78 5 (Z.lor TCP_ACK TCP_FIN) 1000.
Definition rx_env : env := Env 5 (fun _ => true) (fun _ => 0).

Lemma half_closed_ok : conn_ok (fun p => p) (Some 1003) 1000 None half_closed 1000 1000 [].
Proof.
  split; [constructor|discriminate|]. intros _. split; [|reflexivity].
  split; (done || constructor).
Qed.
Lemma last_packet : packet (fun p => p) (Some 1003) last_hdr [] [1000; 1001; 1002] 1000.
Proof. split; vm_compute; congruence. Qed.


