(* ===== verification/TcpStream.v ===== *)
(** * tcp: what the application reads

    [tcp_read] against the receive queue, and the behaviour of a connection
    under any sequence of packets, reads and timeouts: what the application has
    read is always a prefix of what the peer sent. *)

From S2P Require Import Prelude StdDef Tcp TcpOut TcpIn TcpRx TcpFsm TcpConn.

(** ** Taking buffers off the queue *)

Definition nbytes (q : list mbuf) : Z := Z.of_nat (length (bytes q)).

Lemma nbytes_cons m q : nbytes (m :: q) = mbuf_length m + nbytes q.
Proof. unfold nbytes, bytes, mbuf_length. rewrite fmap_cons. cbn [concat]. rewrite length_app. lia. Qed.
Lemma nbytes_nil : nbytes [] = 0.
Proof. done. Qed.
Lemma nbytes_nonneg q : 0 <= nbytes q.
Proof. unfold nbytes. lia. Qed.

Lemma shutdown_rx_spec c :
  txok c -> wp tcp_conn_shutdown_rx (fun _ c' _ => same c c' /\ rx_closed c' = true) c.
Proof.
  intros Ht. unfold tcp_conn_shutdown_rx, release_rx_wq. do 2 wp_step.
  destruct (rx_closed c) eqn:E; wp_steps; split; done.
Qed.

(** What [pop_loop] does: it takes [taken] off the queue, and maybe claims a
    part of the first buffer of the rest. *)
Record popped (c c' : tcpconn) (len readlen : Z) (taken : list mbuf) (x : Z * option mbuf) : Prop := {
  po_tx : txok c';
  po_state : state (pcb c') = state (pcb c);
  po_rest : exists rest, rxq c = taken ++ rest /\
    rxv c' = (rcv_nxt (pcb c), rcv_wnd (pcb c), rest, rxq_ooo c, rxq_ooo_len c,
              rx_exclusive c || bool_decide (is_Some (snd x))) /\
    match snd x with
    | Some m => fst x = len /\ 0 < len - (readlen + nbytes taken) < mbuf_length m /\ head rest = Some m
    | None => fst x = readlen + nbytes taken /\
        (fst x = len \/ match rest with [] => True | m :: _ => has (m_flags m) TCP_FIN = true /\ m_data m = [] end)
    end;
  po_fits : readlen + nbytes taken <= len
}.

Lemma pop_loop_spec fuel : forall len readlen q c,
  txok c -> readlen <= len -> (length (rxq c) < fuel)%nat ->
  wp (pop_loop fuel len readlen q) (fun x c' _ => exists taken,
    fst (fst x) = q ++ taken /\ popped c c' len readlen taken (snd (fst x), snd x)) c.
Proof.
  induction fuel as [|fuel IH]; intros len readlen q c Ht Hle Hf; [lia|]. cbn [pop_loop].
  assert (forall c', rxv c' = rxv c -> txok c' -> state (pcb c') = state (pcb c) ->
    readlen = len \/ match rxq c with [] => True | m :: _ => has (m_flags m) TCP_FIN = true /\ m_data m = [] end ->
    exists taken, q = q ++ taken /\ popped c c' len readlen taken (readlen, None)) as Hstop.
  { intros c' V T S Hr. exists []. rewrite app_nil_r. split; [done|].
    split; simpl; rewrite ?nbytes_nil; [done|done| |lia]. exists (rxq c). rewrite V, orb_false_r, Z.add_0_r. auto. }
  destruct (Z.ltb_spec readlen len) as [Hlt|Hge]; [|wp_step; apply Hstop; (done || (left; lia))].
  do 2 wp_step. destruct (rxq c) as [|m l] eqn:Hq; [wp_step; apply Hstop; auto|]. wp_step.
  eapply wp_mono with (P := fun _ c1 _ => same c c1).
  { apply wp_when; [|done]. intros _. eapply wp_mono; [by apply shutdown_rx_spec|]. by intros ? ? ? []. }
  intros [] c1 e1 [T1 V1 S1]. destruct (_ && _) eqn:Hfin.
  { apply andb_true_iff in Hfin as [Hfl Hz%Z.eqb_eq]. wp_step. apply Hstop; [done..|]. right. split; [done|].
    apply length_zero_iff_nil. unfold mbuf_length in Hz. lia. }
  pose proof V1 as V1'. unfold rxv in V1'. injection V1' as E1 E2 E3 E4 E5 E6.
  destruct (Z.ltb_spec (len - readlen) (mbuf_length m)) as [Hp|Hp].
  - do 3 wp_step. exists []. rewrite app_nil_r. split; [done|].
    split; simpl; rewrite ?nbytes_nil; [done|done| |lia]. exists (m :: l). unfold rxv. simpl. rewrite E1, E2, E3, E4, E5, Hq, orb_true_r.
    split_and!; (done || lia).
  - do 2 wp_step. eapply wp_mono; [apply IH; [done|lia|simpl in *; lia]|].
    intros [[q' rl] mo] c2 e2 (taken & Eq & [P1 P2 (rest & P3 & P4 & P5) P6]). simpl in *. exists (m :: taken).
    split; [by rewrite Eq, <- app_assoc|]. rewrite <- Z.add_assoc, <- nbytes_cons in P5, P6.
    split; simpl; [done|congruence| |done]. exists rest. split; [by rewrite Hq, P3|]. split; [|done].
    rewrite P4, E1, E2, E4, E5, E6. done.
Qed.

Section Stream.
Context (stream : Z -> Z) (fin_pos : option Z).
Abbreviation conn_ok := (conn_ok stream fin_pos).
Abbreviation reassembling := (reassembling stream fin_pos).

(** The two parts of a queue that holds a part of the stream. *)
Lemma split_stream B n l1 l2 (k := Z.of_nat (length l1)) :
  l1 ++ l2 = stream_at stream B n -> l1 = stream_at stream B k /\ l2 = stream_at stream (B + k) (n - k).
Proof.
  intros H. pose proof (f_equal length H) as Hl. rewrite length_app, length_stream_at in Hl.
  destruct (Z.le_gt_cases 0 n) as [Hn|Hn].
  2:{ assert (l1 = [] /\ l2 = []) as [-> ->] by (split; apply length_zero_iff_nil; lia). by rewrite !stream_at_nil by (simpl; lia). }
  replace n with (k + (n - k)) in H by lia. rewrite stream_at_app in H by lia.
  apply app_inj_1 in H; [done|]. rewrite length_stream_at. lia.
Qed.

(** What is claimed of the first buffer of the queue by a read of [len] bytes
    that has taken [q]. *)
Definition claimed (len : Z) (q : list mbuf) (mout : option mbuf) : Z :=
  match mout with Some _ => len - nbytes q | None => 0 end.

Lemma nbytes_app q1 q2 : nbytes (q1 ++ q2) = nbytes q1 + nbytes q2.
Proof. unfold nbytes. rewrite bytes_app, length_app. lia. Qed.

Lemma popped_claim c c1 len taken x :
  popped c c1 len 0 taken x ->
  fst x = nbytes taken + claimed len taken (snd x) /\ 0 <= claimed len taken (snd x) /\ fst x <= nbytes (rxq c).
Proof.
  intros [_ _ (rest & P3 & _ & P5) _]. unfold claimed. rewrite P3, nbytes_app. pose proof (nbytes_nonneg rest).
  destruct (snd x) as [m|]; [|lia]. destruct P5 as (P5 & P6 & P7). destruct rest as [|m' rest]; [done|].
  injection P7 as ->. rewrite nbytes_cons in *. pose proof (nbytes_nonneg rest). lia.
Qed.

Lemma nbytes_queue lim hd c B N ps : reassembling lim hd c B N ps -> nbytes (rxq c) = upto fin_pos N - B.
Proof.
  intros [_ Hb HB _ _ _ _ _ _ _]. unfold nbytes. rewrite Hb. unfold stream_to. rewrite length_stream_at. lia.
Qed.

Lemma popped_ok c c1 c' len taken x B N ps :
  conn_ok B None c B N ps -> popped c c1 len 0 taken x -> txok c' -> state (pcb c') = state (pcb c) ->
  rxv c' = (rcv_nxt (pcb c), u32 (rcv_wnd (pcb c) + fst x), rxq c1, rxq_ooo c, rxq_ooo_len c, rx_exclusive c1) ->
  conn_ok (B + fst x) (snd x) c' (B + nbytes taken) N ps /\
  (state (pcb c) <> CLOSED -> bytes taken = stream_at stream B (nbytes taken)).
Proof.
  intros [Ht Hsy Hrx] Hp T S V. destruct (popped_claim _ _ _ _ _ Hp) as (Hx & Hc0 & Hxq).
  destruct Hp as [_ _ (rest & P3 & P4 & P5) _]. unfold rxv in P4, V.
  injection P4 as E1 E2 E3 E4 E5 E6. injection V as F1 F2 F3 F4 F5 F6. pose proof (nbytes_nonneg taken).
  destruct (decide (state (pcb c) = CLOSED)) as [Hc|Hnc].
  { split; [|done]. split; [done|congruence|]. intros Hn. by rewrite S in Hn. }
  destruct (Hrx Hnc) as [Hre Hcl]. pose proof (nbytes_queue _ _ _ _ _ _ Hre).
  pose proof (upto_le fin_pos N).
  destruct Hre as [[Hn Hw] Hb HB Ho Hl Hwt Hso Hroom Hhd Hex]. rewrite P3, bytes_app in Hb.
  apply split_stream in Hb as [Hb1 Hb2]. fold (nbytes taken) in Hb1, Hb2.
  unfold MAX_WND in *. rewrite u32_small in F2 by (unfold is_u32; lia).
  split; [|done]. split; [done|congruence|]. intros _. rewrite S. split; [|done].
  split; try congruence; unfold MAX_WND; try lia.
  - split; [congruence|unfold MAX_WND; lia].
  - rewrite F3, E3, Hb2. unfold stream_to. f_equal. lia.
  - eapply Forall_impl; [exact Hwt|]. intros y [W1 W2 W3 W4]. split; [done|lia|done|]. intros Hf. specialize (W4 Hf). lia.
  - rewrite F3, E3. destruct (snd x) as [m|]; [|apply prefix_nil]. destruct P5 as (_ & _ & P5).
    destruct rest as [|m' rest]; [done|]. injection P5 as ->. by exists rest.
  - rewrite F6, E6, Hex. done.
Qed.

(** [tcp_read_wait] either waits, returns at once, or takes the first bytes. *)
Definition read_taken (c : tcpconn) (len B N : Z) (ps : list (mbuf * (Z * Z))) (c' : tcpconn)
    (x : list mbuf * Z * option mbuf) : Prop :=
  let '(q, rl, mout) := x in
  conn_ok (B + rl) mout c' (B + nbytes q) N ps /\ rl = nbytes q + claimed len q mout /\ nbytes q <= len /\
  match mout with Some m => 0 < claimed len q mout < mbuf_length m | None => True end /\
  (state (pcb c) <> CLOSED -> bytes q = stream_at stream B (nbytes q)).

Lemma read_wait_spec E t len c B N ps :
  conn_ok B None c B N ps -> 0 <= len ->
  wp (tcp_read_wait E t len) (fun r c' _ => state (pcb c') = state (pcb c) /\
    match r with
    | Blocked | Done (inl _) => conn_ok B None c' B N ps
    | Done (inr x) => read_taken c len B N ps c' x
    end) c.
Proof.
  intros Hok Hlen. pose proof Hok as [Ht _ _]. unfold tcp_read_wait. do 2 wp_step.
  destruct (_ && _). { destruct (nonblocking c); wp_steps; [done|]. split; [done|]. eapply conn_ok_same; [|exact Hok]. by split. }
  destruct (rx_closed c); [by wp_step|]. wp_step.
  eapply wp_mono; [apply pop_loop_spec; [done|lia|lia]|]. intros [[q rl] mo] c1 e1 (taken & Eq & Hp). simpl in Eq, Hp. subst q.
  pose proof Hp as [P1 P2 (rest & P3 & P4 & P5) P6]. do 4 wp_step. wp_step. name_conn c2.
  assert (txok c2) as T2 by done.
  eapply wp_mono; [apply quiet_when; [apply quiet_tx_ack|done]|]. intros [] c3 e3 [T3 V3 S3]. wp_step.
  assert (state (pcb c3) = state (pcb c)) as S by (rewrite S3; exact P2). split; [done|].
  destruct (popped_claim _ _ _ _ _ Hp) as (Hx & Hc0 & Hxq).
  destruct (popped_ok c c1 c3 len taken (rl, mo) B N ps Hok Hp T3 S) as [H1 H2].
  { rewrite V3. unfold rxv in *. simpl. injection P4 as -> -> -> -> -> ->. done. }
  split_and!; [done|done|lia| |done]. destruct mo as [m|]; [|done]. simpl in *. lia.
Qed.

Lemma read_copy_spec len q mout c B N ps :
  conn_ok (B + claimed len q mout) mout c B N ps ->
  match mout with Some m => 0 < claimed len q mout < mbuf_length m | None => True end ->
  wp (tcp_read_copy len q mout) (fun r c' _ => state (pcb c') = state (pcb c) /\
    conn_ok (B + claimed len q mout) None c' (B + claimed len q mout) N ps /\
    (state (pcb c) <> CLOSED -> r = bytes q ++ stream_at stream B (claimed len q mout))) c.
Proof.
  intros [Ht Hsy Hrx] Hcl. unfold tcp_read_copy. do 2 wp_step. destruct mout as [m|].
  2:{ wp_step. simpl. rewrite Z.add_0_r. unfold claimed in Hrx. rewrite Z.add_0_r in Hrx. split_and!; [done|done|].
      intros _. by rewrite stream_at_nil, app_nil_r. }
  set (k := claimed len q (Some m)) in *. fold (bytes q). change (len - _) with k. wp_step.
  eapply wp_lift. { unfold mbuf_pull. rewrite Z.gtb_ltb, (proj2 (Z.ltb_ge _ _)) by lia. done. }
  do 6 wp_step. simpl. destruct (decide (state (pcb c) = CLOSED)) as [Hc|Hnc]; [split_and!; done|].
  destruct (Hrx Hnc) as [Hre Hcd]. pose proof (nbytes_queue _ _ _ _ _ _ Hre) as Hnb.
  destruct Hre as [[Hn Hw] Hb HB Ho Hl Hwt Hso Hroom [l Hq] Hex]. simpl in Hq.
  rewrite Hq, nbytes_cons in Hnb. pose proof (nbytes_nonneg l).
  rewrite Hq in Hb |- *. change (bytes _) with (m_data m ++ bytes l) in Hb. simpl.
  rewrite <- (take_drop (Z.to_nat k) (m_data m)), <- app_assoc in Hb. apply split_stream in Hb as [Hb1 Hb2].
  rewrite length_take in Hb1, Hb2. replace (Z.of_nat _) with k in Hb1, Hb2 by (unfold mbuf_length in Hcl; lia).
  split_and!; [done| |by rewrite Hb1]. split; [done|done|]. intros _. split; [|done]. split; try done; try lia; simpl.
  - etrans; [exact Hb2|]. unfold stream_to. f_equal. lia.
  - apply prefix_nil.
Qed.

Lemma conn_closed lim hd c B N ps : txok c -> state (pcb c) = CLOSED -> conn_ok lim hd c B N ps.
Proof. intros Ht Hs. by split; rewrite ?Hs. Qed.

Lemma timeouts_spec E lim hd c B N ps :
  conn_ok lim hd c B N ps ->
  wp (tcp_handle_timeouts E) (fun _ c' _ => conn_ok lim hd c' B N ps /\
    (state (pcb c') = state (pcb c) \/ state (pcb c') = CLOSED)) c.
Proof.
  intros Hok. pose proof Hok as [Ht _ _]. unfold tcp_handle_timeouts. do 2 wp_step.
  destruct (st_eqb _ CLOSED); [wp_step; auto|]. destruct (st_lt _ _ && _).
  { eapply wp_mono; [by apply conn_fail_spec|]. intros [] c1 e1 [T1 S1]. split; [by apply conn_closed|by right]. }
  destruct (_ && _) eqn:Htw.
  { apply andb_true_iff in Htw as [Hs%bool_decide_eq_true _]. wp_step.
    eapply wp_mono; [apply set_state_spec; [done|by rewrite Hs; right]|]. intros [] c1 e1 (T1 & _ & S1 & _).
    eapply wp_mono; [by apply conn_put_spec|]. intros [] c2 e2 [T2 _ S2]. rewrite S1 in S2.
    split; [by apply conn_closed|by right]. }
  match goal with |- wp ?m _ _ => assert (quiet m) as Hq by (unfold tcp_conn_get; quiet) end.
  eapply wp_mono; [by apply Hq|]. intros [] c1 e1 Hs. split; [by eapply conn_ok_same|left; by destruct Hs].
Qed.
End Stream.

(** ** A connection and its reader *)

(** The connection, the position it has received up to, the read in progress,
    and what the application has read. *)
Record sys := Sys { conn : tcpconn; pos : Z; reading : option (Z * list mbuf * option mbuf); got : list Z }.
#[global] Instance eta_sys : Settable sys := fun r => Sys (conn r) (pos r) (reading r) (got r).

Inductive event :=
| Packet (E : env) (h : tcp_hdr) (opts data : list Z) (A : Z) (beyond : Z -> Z) (snd_nxt0 : Z)
| ReadWait (E : env) (t : tid) (len : Z)
| ReadCopy
| Timeout (E : env).

(** The position of [rcv_nxt], at or after [N]. *)
Definition locate (c : tcpconn) (N : Z) : Z := N + u32 (rcv_nxt (pcb c) - u32 N).

Definition sys_step (ev : event) (s : sys) : option sys :=
  match ev with
  | Packet E h opts data A beyond snd_nxt0 =>
      '(_, c', _) ← tcp_rx_conn E h (40 + Z.of_nat (length (opts ++ data))) (opts ++ data) beyond snd_nxt0 (conn s);
      Some (s <| conn := c' |> <| pos := locate c' (pos s) |>)
  | ReadWait E t len =>
      match reading s with
      | Some _ => Some s
      | None =>
          '(r, c', _) ← tcp_read_wait E t len (conn s);
          Some (s <| conn := c' |>
                  <| reading := match r with Done (inr (q, _, mout)) => Some (len, q, mout) | _ => None end |>)
      end
  | ReadCopy =>
      match reading s with
      | None => Some s
      | Some (len, q, mout) =>
          '(r, c', _) ← tcp_read_copy len q mout (conn s);
          Some (s <| conn := c' |> <| reading := None |> <| got := got s ++ r |>)
      end
  | Timeout E => '(_, c', _) ← tcp_handle_timeouts E (conn s); Some (s <| conn := c' |>)
  end.

Fixpoint sys_run (evs : list event) (s : sys) : option sys :=
  match evs with [] => Some s | ev :: evs => s' ← sys_step ev s; sys_run evs s' end.

Section Sys.
(** The peer's stream, which starts at position [start]. *)
Context (stream : Z -> Z) (fin_pos : option Z) (start : Z).

(** What may happen: packets that carry the peer's bytes, from around the
    window. *)
Definition valid (ev : event) (s : sys) : Prop :=
  match ev with
  | Packet _ h opts data A _ _ =>
      packet stream fin_pos h opts data A /\ - 2 ^ 29 <= A - pos s <= 2 ^ 29 /\
      fin_fits (conn s) (pos s) (segment h data) A
  | ReadWait _ _ len => 0 <= len
  | _ => True
  end.
Fixpoint valid_run (evs : list event) (s : sys) : Prop :=
  match evs with
  | [] => True
  | ev :: evs => valid ev s /\ forall s', sys_step ev s = Some s' -> valid_run evs s'
  end.

Definition taken_by (r : option (Z * list mbuf * option mbuf)) : list mbuf :=
  match r with Some (_, q, _) => q | None => [] end.
Definition copying (r : option (Z * list mbuf * option mbuf)) : option mbuf := r ≫= snd.
Definition claim (r : option (Z * list mbuf * option mbuf)) : Z :=
  match r with Some (len, q, mout) => claimed len q mout | None => 0 end.

(** The application has read up to position [G]; a read in progress has taken
    some buffers more, and a part of another one. *)
Record sys_at (s : sys) (G : Z) (ps : list (mbuf * (Z * Z))) (B := G + nbytes (taken_by (reading s))) : Prop := {
  sy_conn : conn_ok stream fin_pos (B + claim (reading s)) (copying (reading s)) (conn s) B (pos s) ps;
  sy_claim : match copying (reading s) with Some m => 0 < claim (reading s) < mbuf_length m | None => True end;
  sy_got : state (pcb (conn s)) <> CLOSED -> start <= G /\ got s = stream_at stream start (G - start) /\
    bytes (taken_by (reading s)) = stream_at stream G (nbytes (taken_by (reading s)))
}.
Definition sys_ok (s : sys) : Prop := exists G ps, sys_at s G ps.

(** The position after a packet is determined by [rcv_nxt]. *)
Lemma conn_ok_locate lim hd c B N c' N' ps ps' :
  conn_ok stream fin_pos lim hd c B N ps -> state (pcb c) <> CLOSED -> N <= N' ->
  conn_ok stream fin_pos lim hd c' B N' ps' -> state (pcb c') <> CLOSED -> locate c' N = N'.
Proof.
  intros [_ _ H] Hc HN [_ _ H'] Hc'. destruct (H Hc) as [[_ _ _ _ _ _ _ R _ _] _].
  destruct (H' Hc') as [[[Hn Hw] _ _ _ _ _ _ R' _ _] _]. unfold locate, MAX_WND in *. rewrite Hn, u32_diff by lia. lia.
Qed.

Lemma edge_closed reset s s' : rtc (rfc_edge reset) s s' -> s = CLOSED -> s' = CLOSED.
Proof. induction 1 as [|x y z H _ IH]; [done|]. intros ->. apply IH. by inversion H. Qed.

Lemma step_packet E h opts data A beyond snd_nxt0 s :
  sys_ok s -> valid (Packet E h opts data A beyond snd_nxt0) s ->
  exists s', sys_step (Packet E h opts data A beyond snd_nxt0) s = Some s' /\ sys_ok s'.
Proof.
  intros (G & ps & [H1 H2 H3]) (V1 & V2 & V3).
  destruct (wp_run _ _ _ (rx_conn_spec _ _ _ _ E h opts data A beyond snd_nxt0 _ _ _ _ H1 V1 V2 V3))
    as ([] & c' & e & Hm & [He (N' & ps' & HN & Hok)]).
  simpl. rewrite Hm. simpl. eexists. split; [done|].
  destruct (decide (state (pcb c') = CLOSED)) as [Hc|Hnc].
  { exists G, []. split; simpl; [|done|done]. apply conn_closed; [apply Hok|done]. }
  assert (state (pcb (conn s)) <> CLOSED) as Hnc0 by (intros Hc; by apply edge_closed in He).
  pose proof (target_ge (conn s) (pos s) h data A snd_nxt0).
  exists G, ps'. split; simpl; [|done|auto].
  by rewrite (conn_ok_locate _ _ _ _ _ _ N' _ _ H1 Hnc0 ltac:(lia) Hok Hnc).
Qed.

Lemma step_read_wait E t len s :
  sys_ok s -> 0 <= len -> exists s', sys_step (ReadWait E t len) s = Some s' /\ sys_ok s'.
Proof.
  intros Hok Hlen. simpl. destruct (reading s) as [r|] eqn:Hr; [eauto|].
  destruct Hok as (G & ps & [H1 H2 H3]). rewrite Hr in *. simpl in *. rewrite nbytes_nil, !Z.add_0_r in H1.
  destruct (wp_run _ _ _ (read_wait_spec _ _ E t len _ _ _ _ H1 Hlen)) as (r & c' & e & Hm & S & Hx). rewrite Hm. simpl.
  eexists. split; [done|]. exists G, ps.
  destruct r as [|[z|[[q rl] mo]]]; [| |destruct Hx as (X1 & X2 & X3 & X4 & X5)];
    (split; simpl; rewrite ?nbytes_nil, ?Z.add_0_r, ?S; [|done|]; auto).
  - by rewrite <- Z.add_assoc, <- X2.
  - intros Hn. destruct (H3 Hn) as (? & ? & _). auto.
Qed.

Lemma step_read_copy s : sys_ok s -> exists s', sys_step ReadCopy s = Some s' /\ sys_ok s'.
Proof.
  intros Hok. simpl. destruct (reading s) as [[[len q] mout]|] eqn:Hr; [|eauto].
  destruct Hok as (G & ps & [H1 H2 H3]). rewrite Hr in *. simpl in *.
  destruct (wp_run _ _ _ (read_copy_spec _ _ len q mout _ _ _ _ H1 H2)) as (r & c' & e & Hm & S & Hc' & Hd). rewrite Hm. simpl.
  eexists. split; [done|]. exists (G + nbytes q + claimed len q mout), ps. split; simpl; [by rewrite nbytes_nil, !Z.add_0_r|done|].
  rewrite S. intros Hn. destruct (H3 Hn) as (G1 & G2 & G3). specialize (Hd Hn).
  pose proof (nbytes_nonneg q). assert (0 <= claimed len q mout) by (destruct mout; simpl in *; lia).
  split_and!; [lia| |done]. rewrite G2, Hd, G3, app_assoc.
  replace (G + _ + _ - start) with ((G - start) + nbytes q + claimed len q mout) by lia.
  rewrite !stream_at_app by lia. f_equal; [f_equal|]; f_equal; lia.
Qed.

Lemma step_ok ev s : sys_ok s -> valid ev s -> exists s', sys_step ev s = Some s' /\ sys_ok s'.
Proof.
  destruct ev as [E h opts data A beyond snd_nxt0|E t len| |E]; intros Hok Hv.
  - by apply step_packet.
  - by apply step_read_wait.
  - by apply step_read_copy.
  - destruct Hok as (G & ps & [H1 H2 H3]).
    destruct (wp_run _ _ _ (timeouts_spec _ _ E _ _ _ _ _ _ H1)) as ([] & c' & e & Hm & Hok & Hs). simpl. rewrite Hm. simpl.
    eexists. split; [done|]. exists G, ps. split; simpl; [done|done|]. intros Hn. apply H3. by destruct Hs as [<-|].
Qed.

Lemma run_ok evs : forall s, sys_ok s -> valid_run evs s -> exists s', sys_run evs s = Some s' /\ sys_ok s'.
Proof.
  induction evs as [|ev evs IH]; intros s Hok Hv; simpl in *; [eauto|]. destruct Hv as [H1 H2].
  destruct (step_ok ev s Hok H1) as (s' & E & Hok'). rewrite E. simpl. by apply IH; [|apply H2].
Qed.

(** A connection that has just been set up. *)
Record fresh (c : tcpconn) : Prop := {
  fr_state : state (pcb c) = SYN_RECEIVED \/ state (pcb c) = ESTABLISHED;
  fr_tx : txok c;
  fr_rx : rxv c = (u32 start, rcv_wnd (pcb c), [], [], 0, false);
  fr_wnd : 0 <= rcv_wnd (pcb c) <= MAX_WND;
  fr_open : closed fin_pos start = false
}.

Lemma fresh_ok c : fresh c -> sys_ok (Sys c start None []).
Proof.
  intros [Hs Ht V Hw Hcl]. unfold rxv in V. injection V as E1 E2 E3 E4 E5. exists start, []. split; simpl; [|done|].
  - split; [done|by destruct Hs as [-> | ->]|]. intros _. rewrite nbytes_nil, !Z.add_0_r. split; [|by destruct Hs as [-> | ->]].
    unfold closed in Hcl. apply Z.ltb_ge in Hcl. pose proof (upto_le fin_pos start).
    split; rewrite ?E2, ?E3, ?E4, ?E5; try done; try lia; [|constructor].
    unfold stream_to. by rewrite stream_at_nil by lia.
  - intros _. rewrite Z.sub_diag. split_and!; [lia|by rewrite stream_at_nil|by rewrite nbytes_nil, stream_at_nil].
Qed.

(** What has been read, with what a reader holds and what is queued, is what has
    been received. *)
Lemma sys_stream s :
  sys_ok s -> state (pcb (conn s)) <> CLOSED ->
  got s ++ bytes (taken_by (reading s)) ++ bytes (rxq (conn s)) = stream_to stream fin_pos start (pos s) /\
  got s = stream_at stream start (Z.of_nat (length (got s))).
Proof.
  intros (G & ps & [[_ _ H1] _ H2]) Hn. destruct (H1 Hn) as [[_ Hb HB _ _ _ _ _ _ _] _]. destruct (H2 Hn) as (K1 & K2 & K3).
  assert (got s = stream_at stream start (Z.of_nat (length (got s)))) as Hg.
  { rewrite K2 at 2. rewrite length_stream_at, K2. f_equal. lia. }
  split; [|done]. rewrite Hb, K3, K2. pose proof (nbytes_nonneg (taken_by (reading s))). unfold stream_to.
  set (n := nbytes _) in *. replace (upto fin_pos (pos s) - start) with ((G - start) + (n + (upto fin_pos (pos s) - (G + n)))) by lia.
  rewrite (stream_at_app _ start), (stream_at_app _ (start + _)) by lia. by replace (start + (G - start)) with G by lia.
Qed.

(** C5: whatever the order in which a peer's packets arrive, are lost, repeated or
    overlap, and however the application's reads and the timeouts are mixed with them, a
    connection that has been set up never runs into a failed assertion; and as long as it
    is not closed, what the application has read, what a reader is about to return and
    what is still queued are exactly the bytes the peer sent up to the position received,
    in order and once each. The peer is one that follows the protocol: its segments have
    fewer than [2^16] bytes, carry the bytes of its stream at their position, lie within
    [2^29] of the position received, and a segment with a FIN that is acceptable ends
    inside the receive window. *)
Theorem tcp_delivers_stream evs c :
  fresh c -> valid_run evs (Sys c start None []) ->
  exists s, sys_run evs (Sys c start None []) = Some s /\
    (state (pcb (conn s)) <> CLOSED ->
     got s ++ bytes (taken_by (reading s)) ++ bytes (rxq (conn s)) = stream_to stream fin_pos start (pos s) /\
     got s = stream_at stream start (Z.of_nat (length (got s)))).
Proof.
  intros Hf Hv. destruct (run_ok _ _ (fresh_ok c Hf) Hv) as (s & E & Hok). exists s. split; [done|].
  intros Hn. by apply sys_stream.
Qed.
End Sys.

(** A peer that sends ten bytes and closes: its second packet arrives first and
    again after the first one, and the application reads seven bytes. *)
Definition demo_env : env := Env 5 (fun _ => true) (fun _ => 0).
Definition demo_conn : tcpconn :=
  tcp_conn_alloc 77 1500 <| pcb := (pcb (tcp_conn_alloc 77 1500)) <| state := ESTABLISHED |>
    <| rcv_nxt := 4294967290 |> <| snd_wnd := 1000 |> <| snd_nxt := 78 |> <| snd_una := 78 |> |>.
Definition demo_packet (A n flags : Z) (opts : list Z) : event :=
  Packet demo_env (TcpHdr (u32 A) 78 (5 + Z.of_nat (length opts) / 4) flags 1000) opts (seqZ A n) A (fun _ => 0) 78.
Definition demo : list event :=
  [demo_packet 4294967294 6 (Z.lor TCP_ACK TCP_FIN) []; ReadWait demo_env 1 7;
   demo_packet 4294967290 5 (Z.lor TCP_ACK TCP_PUSH) [1; 1; 1; 1];
   ReadWait demo_env 1 7; demo_packet 4294967294 6 (Z.lor TCP_ACK TCP_FIN) []; ReadCopy; Timeout demo_env].

(** Run an execution step by step. *)
Ltac run_valid :=
  repeat first
    [ exact I
    | split; [| let Hs := fresh "Hs" in intros ? Hs; vm_compute in Hs; injection Hs as <-] ].

Lemma tcp_delivers_stream_witness : exists s,
  sys_run demo (Sys demo_conn 4294967290 None []) = Some s /\ got s = seqZ 4294967290 7.
Proof.
  assert (valid_run (fun p => p) (Some 4294967300) demo (Sys demo_conn 4294967290 None [])) as Hv.
  { unfold demo. run_valid; simpl; try lia; (split; [split|split; [vm_compute; split; congruence|]]);
      try (vm_compute; reflexivity); try (vm_compute; congruence); try (intros ? ?; vm_compute; congruence). }
  destruct (tcp_delivers_stream (fun p => p) (Some 4294967300) 4294967290 demo demo_conn) as (s & E & H); [|exact Hv|].
  - split; try (right; reflexivity); try constructor; vm_compute; congruence.
  - exists s. split; [exact E|]. vm_compute in E. injection E as <-. apply H. vm_compute. discriminate.
Defined.

(** ** A FIN past the window

    [fin_fits] is needed: the length of a segment counts its FIN, so a FIN just
    past the right edge makes [tcp_rx_append_text] trim one byte that is not
    there. *)

Definition small_conn : tcpconn :=
  demo_conn <| pcb := pcb demo_conn <| rcv_nxt := 1000 |> <| rcv_wnd := 10 |> |>.
Definition early_fin : event :=
  Packet demo_env (TcpHdr 1005 78 5 (Z.lor TCP_ACK TCP_FIN) 1000) [] (seqZ 1005 5) 1005 (fun _ => 0) 78.
Definition in_order : event :=
  Packet demo_env (TcpHdr 1000 78 5 TCP_ACK 1000) [] (seqZ 1000 10) 1000 (fun _ => 0) 78.

(** A peer that announces its FIN one position past the receive window and
    then fills the window stops the receiver: both packets carry the peer's bytes
    and pass the window check, the first one is queued, and the second one makes
    [mbuf_trim] take a byte from an empty buffer, a failed assertion. *)
Theorem tcp_fin_past_window_fails :
  (exists s, sys_run [early_fin] (Sys small_conn 1000 None []) = Some s /\
     is_acceptable (pcb (conn s)) 10 1000 = true /\ sys_step in_order s = None) /\
  is_acceptable (pcb small_conn) 6 1005 = true /\
  packet (fun p => p) (Some 1010) (TcpHdr 1005 78 5 (Z.lor TCP_ACK TCP_FIN) 1000) [] (seqZ 1005 5) 1005 /\
  packet (fun p => p) (Some 1010) (TcpHdr 1000 78 5 TCP_ACK 1000) [] (seqZ 1000 10) 1000.
Proof.
  split_and!; [|done|split; vm_compute; congruence..].
  eexists. split; [vm_compute; reflexivity|]. split; vm_compute; reflexivity.
Qed.
