(* ===== verification/TcpTx.v ===== *)
(** * tcp: what is sent are the bytes the application wrote

    Theorems about TcpOut: the segmenter, acknowledgements and retransmission.
    As on the receive side, positions in the stream are integers and sequence
    numbers their 32-bit truncations. *)

From S2P Require Import Prelude StdDef Tcp TcpOut TcpIn TcpRx TcpFsm TcpConn.

Section Tx.
(** The bytes the application writes, by position, and the segment size. *)
Context (sent : Z -> Z) (mss : Z) (Hmss : 0 < mss < 2 ^ 16).

(** Sequence numbers of a segment: a SYN or FIN takes one. *)
Definition size (m : mbuf) : Z := mbuf_length m + Z.b2z (ctl m).

(** A segment of the stream, at position [A]. *)
Record placed (m : mbuf) (A : Z) : Prop := {
  pl_seq : seg_seq m = u32 A;
  pl_end : seg_end m = u32 (A + size m);
  pl_data : m_data m = stream_at sent A (mbuf_length m);
  pl_ctl : ctl m = true -> m_data m = [];
  pl_mss : mbuf_length m <= mss
}.

(** The segments [q] follow one another from [X] to [S]; what is missing before
    one of them has been acknowledged ([U] is the position of [snd_una]). *)
Fixpoint chain (U X : Z) (q : list mbuf) (S : Z) : Prop :=
  match q with
  | [] => X = S
  | m :: q => exists A, X <= A <= Z.max X U /\ placed m A /\ chain U (A + size m) q S
  end.

(** The queue and the pending segment are what may have to be sent again. *)
Record sending (c : tcpconn) (U X S : Z) : Prop := {
  se_chain : chain U X (txq c ++ option_list (tx_pending c)) S;
  se_nxt : snd_nxt (pcb c) = u32 S;
  se_una : snd_una (pcb c) = u32 U;
  se_mss : snd_mss (pcb c) = mss;
  se_pend : forall m, tx_pending c = Some m -> ctl m = false
}.

(** A packet that carries the stream's bytes at its sequence number. *)
Definition pkt_carries (p : pkt) : Prop :=
  exists A, p_seq p = u32 A /\ p_data p = stream_at sent A (Z.of_nat (length (p_data p))) /\
    Z.of_nat (length (p_data p)) <= mss.
Definition tx_carries (e : list effect) : Prop := Forall (fun x => match x with Tx p => pkt_carries p | _ => True end) e.

Lemma size_nonneg m : 0 <= size m.
Proof. unfold size, mbuf_length. destruct (ctl m); simpl; lia. Qed.

Lemma chain_app U X q1 q2 S : chain U X (q1 ++ q2) S <-> exists Y, chain U X q1 Y /\ chain U Y q2 S.
Proof.
  revert X. induction q1 as [|m q1 IH]; intros X; simpl.
  - split; [by exists X|]. by intros (Y & -> & ?).
  - split.
    + intros (A & H1 & H2 & (Y & H3 & H4)%IH). eauto 8.
    + intros (Y & (A & H1 & H2 & H3) & H4). exists A. split_and!; [lia|lia|done|]. apply IH. eauto.
Qed.

Lemma chain_le U X q S : chain U X q S -> X <= S.
Proof.
  revert X. induction q as [|m q IH]; intros X; simpl; [lia|]. intros (A & H1 & _ & H2%IH). pose proof (size_nonneg m). lia.
Qed.

Lemma chain_one U X m : placed m X -> chain U X [m] (X + size m).
Proof. intros H. exists X. simpl. split_and!; (lia || done). Qed.

Lemma placed_fill m A n buf :
  placed m A -> ctl m = false -> buf = stream_at sent (A + mbuf_length m) (Z.of_nat (length buf)) -> 0 <= n <= Z.of_nat (length buf) ->
  mbuf_length m + n <= mss ->
  let m' := m <| seg_end := u32 (seg_end m + n) |> <| m_data := m_data m ++ take (Z.to_nat n) buf |> in
  placed m' A /\ size m' = size m + n.
Proof.
  intros [H1 H2 H3 H4 H5] Hc Hb Hn Hle m'. assert (mbuf_length m' = mbuf_length m + n) as El.
  { unfold m', mbuf_length. simpl. rewrite length_app, length_take. lia. }
  assert (size m' = size m + n) as Es by (unfold size; rewrite El; change (ctl m') with (ctl m); lia).
  split; [|done]. split; simpl.
  - done.
  - rewrite H2, Es, u32_add_l. f_equal. lia.
  - rewrite El, stream_at_app by (unfold mbuf_length; lia). f_equal; [done|]. rewrite Hb, stream_at_take by lia. f_equal. lia.
  - change (ctl m') with (ctl m). by rewrite Hc.
  - lia.
Qed.

(** A segment filled by the segmenter: it follows the queue. *)
Record filled (c c' : tcpconn) (U X S : Z) (buf : list Z) (m : mbuf) (n : Z) : Prop := {
  fi_n : 0 <= n <= Z.of_nat (length buf);
  fi_more : n = 0 -> buf = [] \/ is_Some (tx_pending c);
  fi_seg : chain U X (txq c ++ [m]) (S + n);
  fi_ctl : ctl m = false;
  fi_conn : c' = c <| tx_pending := None |>
}.

Lemma next_buf_spec E i buf c U X S :
  sending c U X S -> buf = stream_at sent S (Z.of_nat (length buf)) ->
  wp (next_buf E i (Z.of_nat (length buf))) (fun nb c' e => e = [] /\
    match nb with
    | None => c' = c /\ alloc E i = false
    | Some (m, n) => filled c c' U X S buf (m <| m_data := m_data m ++ take (Z.to_nat n) buf |>) n
    end) c.
Proof.
  intros [Hch Hn Hu Hm Hp] Hbuf. unfold next_buf. do 2 wp_step. rewrite Hm. destruct (tx_pending c) as [m|] eqn:Ep.
  - do 3 wp_step. split; [done|]. specialize (Hp m eq_refl). simpl in Hch.
    apply chain_app in Hch as (Y & H1 & (A & H2 & H3 & H4)). simpl in H4.
    assert (A + size m = S) as H5 by done. unfold size in H5. rewrite Hp in H5. simpl in H5. pose proof H3 as [_ _ _ _ Hle].
    assert (0 <= mbuf_length m) by (unfold mbuf_length; lia).
    rewrite (u32_small (mss - mbuf_length m)) by (unfold is_u32; lia). set (n := MIN _ _).
    assert (0 <= n <= Z.of_nat (length buf) /\ n <= mss - mbuf_length m) as [Hn1 Hn2] by (unfold n, MIN; case_match; lia).
    destruct (placed_fill m A n buf H3 Hp) as [F1 F2]; [|lia|lia|].
    { rewrite Hbuf at 1. f_equal. lia. }
    split; [done|by right| |done|done]. apply chain_app. exists Y. split; [done|]. exists A. split_and!; [lia|lia|done|].
    simpl in F2 |- *. rewrite F2. unfold size. rewrite Hp. simpl. lia.
  - destruct (alloc E i) eqn:Ea; wp_step; split; try done. set (n := MIN _ _).
    assert (0 <= n <= Z.of_nat (length buf) /\ n <= mss) as [Hn1 Hn2] by (unfold n, MIN; case_match; lia).
    rewrite app_nil_r in Hch. simpl.
    set (m := Mbuf _ _ _ _ _ _ _). assert (mbuf_length m = n) as El by (unfold m, mbuf_length; simpl; rewrite length_take; lia).
    assert (size m = n) as Es by (unfold size; rewrite El; change (ctl m) with false; simpl; lia).
    split; [done| | |done|].
    + intros Hz. left. apply length_zero_iff_nil. unfold n, MIN in Hz. case_match; lia.
    + rewrite <- Es. apply chain_app. exists S. split; [done|]. apply chain_one. split; [done| | |done|lia].
      * unfold m at 1. simpl. by rewrite Hn, Es, u32_add_l.
      * rewrite El. unfold m. simpl. rewrite Hbuf, stream_at_take by lia. f_equal. lia.
    + destruct c; simpl in *. by subst.
Qed.

(** Only the place and the bytes of a segment matter. *)
Definition alike (m m' : mbuf) : Prop :=
  seg_seq m' = seg_seq m /\ seg_end m' = seg_end m /\ m_data m' = m_data m /\ ctl m' = ctl m.

Lemma placed_alike m m' A : alike m m' -> placed m A -> placed m' A /\ size m' = size m.
Proof.
  intros (E1 & E2 & E3 & E4) [H1 H2 H3 H4 H5].
  assert (mbuf_length m' = mbuf_length m) as El by (unfold mbuf_length; by rewrite E3).
  assert (size m' = size m) as Es by (unfold size; congruence). split; [|done]. split; rewrite ?El, ?Es, ?E1, ?E2, ?E3, ?E4; done.
Qed.

Lemma chain_alike U X q m m' q' S : alike m m' -> chain U X (q ++ m :: q') S -> chain U X (q ++ m' :: q') S.
Proof.
  intros Hm (Y & H1 & (A & H2 & H3 & H4))%chain_app. apply chain_app. exists Y. split; [done|].
  destruct (placed_alike m m' A Hm H3) as [H5 H6]. exists A. split; [done|]. split; [done|]. by rewrite H6.
Qed.

Lemma ctl_push m : ctl (m <| m_flags := Z.lor (m_flags m) TCP_PUSH |>) = ctl m.
Proof.
  unfold ctl, has. simpl. by rewrite Z.land_lor_distr_l, Z.lor_0_r.
Qed.

(** A data segment and the packet that carries it. *)
Lemma placed_carries m A fl ack win opts l4 : placed m A -> pkt_carries (Pkt fl (seg_seq m) ack win opts (m_data m) l4).
Proof. intros [H1 _ H3 _ H5]. exists A. by split_and!. Qed.

Lemma tx_carries_app e1 e2 : tx_carries e1 -> tx_carries e2 -> tx_carries (e1 ++ e2).
Proof. intros. by apply Forall_app. Qed.

Lemma transmit_spec E i p c :
  pkt_carries p -> wp (transmit E i p) (fun r c' e => r = net_tx_ip E i /\ c' = c /\ tx_carries e) c.
Proof.
  intros Hp. unfold transmit. wp_step. apply wp_when; intros _; wp_steps; (split_and!; [done|done|repeat constructor; done]).
Qed.

Lemma send_buf_spec E i m c U X S :
  chain U X (txq c ++ [m]) S ->
  wp (send_buf E i m) (fun _ c' e => tx_carries e /\ chain U X (txq c') S /\ pcb c' = pcb c /\
    tx_pending c' = tx_pending c /\ state (pcb c') = state (pcb c)) c.
Proof.
  intros Hch. unfold send_buf, tcp_push_tcphdr. do 6 wp_step.
  pose proof Hch as (Y & _ & (A & _ & HA & _))%chain_app.
  wp_step. eapply wp_mono; [apply transmit_spec; by eapply placed_carries|]. intros r c1 e1 (-> & -> & He). wp_steps. simpl.
  rewrite app_nil_r. split_and!; try done. by eapply chain_alike; [|exact Hch].
Qed.

Lemma send_loop_spec E push fuel : forall i buf r c U X S,
  sending c U X S -> buf = stream_at sent S (Z.of_nat (length buf)) ->
  (length buf + length (option_list (tx_pending c)) < fuel)%nat ->
  wp (send_loop fuel E i buf push r) (fun x c' e => tx_carries e /\ exists k, (k <= length buf)%nat /\
    fst x = drop k buf /\ sending c' U X (S + Z.of_nat k) /\ (push = true -> k = length buf -> buf <> [] -> tx_pending c' = None) /\
    ((k < length buf)%nat -> snd x = - ENOBUFS /\ exists j, alloc E j = false)) c.
Proof.
  induction fuel as [|fuel IH]; intros i buf r c U X S Hs Hbuf Hfuel; [lia|]. cbn [send_loop]. wp_step.
  eapply wp_mono; [by eapply next_buf_spec|]. intros [[m n]|] c1 e1 [-> Hnb].
  2:{ destruct Hnb as [-> Ha]. wp_step. split; [constructor|]. exists 0%nat. rewrite drop_0, Z.add_0_r.
      split_and!; [lia|done|done| |eauto]. intros _ Hk Hne. by destruct buf. }
  destruct Hnb as [Hn Hmore Hch Hctl ->]. cbv zeta. set (m1 := m <| m_data := _ |>) in *.
  destruct Hs as [_ Hnx Hu Hm Hp]. set (k := Z.to_nat n) in *. assert (n = Z.of_nat k) as En by lia. rewrite En in *.
  do 3 wp_step. wp_step. name_conn c2.
  assert (forall c', pcb c' = pcb c2 -> chain U X (txq c' ++ option_list (tx_pending c')) (S + Z.of_nat k) ->
    (forall m, tx_pending c' = Some m -> ctl m = false) -> sending c' U X (S + Z.of_nat k)) as Hsend.
  { intros c' E1 E2 E3. split; rewrite ?E1; [done|by simpl; rewrite Hnx, u32_add_l|done|done|done]. }
  destruct (negb push && bool_decide (drop k buf = []) && _) eqn:Hpend.
  { rewrite !andb_true_iff, bool_decide_eq_true in Hpend. destruct Hpend as [[Hpush Hd] _]. do 3 wp_step.
    split; [constructor|]. exists k. split_and!; [lia|done| |by destruct push|].
    - apply Hsend; simpl; [done|done|]. by intros ? [= <-].
    - intros Hlt. apply (f_equal length) in Hd. rewrite length_drop in Hd. simpl in Hd. lia. }
  clear Hpend. set (m2 := if push && _ then _ else _).
  assert (alike m1 m2) as Ha.
  { subst m2. destruct (push && _); [|done]. split_and!; [done|done|done|apply ctl_push]. }
  wp_step. eapply wp_mono; [apply (send_buf_spec E i m2 c2 U X (S + Z.of_nat k)); by eapply chain_alike|].
  intros r2 c3 e3 (He3 & Hch3 & Hp3 & Hpd & _). assert (tx_pending c3 = None) as Hpd3 by exact Hpd.
  assert (sending c3 U X (S + Z.of_nat k)) as Hs3 by (apply Hsend; [done|by rewrite Hpd3, app_nil_r|by rewrite Hpd3]).
  case_bool_decide as Hd.
  - wp_step. split; [by rewrite app_nil_r|]. exists k. split_and!; [lia|done|done|done|].
    intros Hlt. apply (f_equal length) in Hd. rewrite length_drop in Hd. simpl in Hd. lia.
  - assert (k < length buf)%nat as Hlt.
    { destruct (decide (k < length buf)%nat); [done|]. destruct Hd. apply drop_ge. lia. }
    eapply wp_mono; [apply (IH _ (drop k buf) _ _ U X _ Hs3)|].
    + rewrite length_drop. rewrite Hbuf at 1. replace k with (Z.to_nat (Z.of_nat k)) at 1 by lia.
      rewrite stream_at_drop by lia. f_equal. lia.
    + rewrite Hpd3, length_drop. simpl. destruct (decide (k = 0%nat)) as [Hk|]; [|lia].
      destruct Hmore as [Hb|[m0 Hb]]; [lia|rewrite Hb in Hlt; simpl in Hlt; lia|]. rewrite Hb in Hfuel. simpl in Hfuel. lia.
    + intros x c4 e4 (He4 & k' & K1 & K2 & K3 & K4 & K5). split; [by apply (tx_carries_app e3 e4)|]. exists (k + k')%nat.
      rewrite length_drop in *. split_and!; [lia| | | |].
      * by rewrite K2, drop_drop.
      * by rewrite Nat2Z.inj_add, Z.add_assoc.
      * intros Hpush Hk _. apply K4; [done|lia|done].
      * intros ?. apply K5. lia.
Qed.

Lemma tx_send_spec E buf push c U X S :
  sending c U X S -> st_lt (state (pcb c)) ESTABLISHED = false -> buf = stream_at sent S (Z.of_nat (length buf)) ->
  wp (tcp_tx_send E buf push) (fun r c' e => tx_carries e /\ exists k, (k <= length buf)%nat /\
    sending c' U X (S + Z.of_nat k) /\ (push = true -> k = length buf -> buf <> [] -> tx_pending c' = None) /\
    ((0 < k)%nat -> r = Z.of_nat k) /\
    ((k < length buf)%nat -> (exists j, alloc E j = false) /\ (k = 0%nat -> r = - ENOBUFS))) c.
Proof.
  intros Hs Hst Hbuf. unfold tcp_tx_send. do 2 wp_step. apply wp_bind, wp_require; [by rewrite Hst|]. wp_step.
  eapply wp_mono; [apply (send_loop_spec E push _ 0 buf 0 c U X S Hs Hbuf)|].
  { destruct (tx_pending c); simpl; lia. }
  intros [rest r] c1 e1 (He & k & K1 & K2 & K3 & K4 & K5). simpl in K2, K5. wp_step. split; [by rewrite app_nil_r|].
  exists k. rewrite K2, length_drop. replace (_ - _) with (Z.of_nat k) by lia. split_and!; [done|done|done| |].
  - intros Hk. rewrite Z.gtb_ltb, (proj2 (Z.ltb_lt _ _)) by lia. done.
  - intros Hk. destruct (K5 Hk) as [-> Hj]. split; [done|]. by intros ->.
Qed.

(** ** Retransmission *)

Lemma placed_tx_seg m A : placed m A -> tx_seg m.
Proof.
  intros [H1 H2 H3 H4 H5]. assert (0 <= mbuf_length m) by (unfold mbuf_length; lia). split; [|done|lia].
  rewrite H1, H2, u32_diff; fold (size m); [lia|]. unfold size. destruct (ctl m); simpl; lia.
Qed.

(** What is left of a segment whose head is acknowledged. *)
Lemma placed_pull m A U :
  placed m A -> ctl m = false -> - 2 ^ 31 < U - A < 2 ^ 31 -> 0 < u32 (u32 U - seg_seq m) < mbuf_length m ->
  let m' := m <| m_data := drop (Z.to_nat (u32 (u32 U - seg_seq m))) (m_data m) |> <| seg_seq := u32 U |> in
  A <= U /\ placed m' U /\ U + size m' = A + size m.
Proof.
  intros [H1 H2 H3 H4 H5] Hc Hd Hx m'. rewrite H1 in *.
  assert (u32 (u32 U - u32 A) = U - A) as Ed by (clear - Hd Hx Hmss H5; width). rewrite Ed in *.
  assert (mbuf_length m' = mbuf_length m - (U - A)) as El by (unfold m', mbuf_length in *; simpl; rewrite H1, Ed, length_drop; lia).
  assert (U + size m' = A + size m) as Es by (unfold size; rewrite El; change (ctl m') with (ctl m); lia).
  split_and!; [lia| |done]. split; [done|by rewrite Es| | |lia].
  - unfold m' at 1. simpl. rewrite El, H1, Ed, H3, stream_at_drop by lia. f_equal; lia.
  - change (ctl m') with (ctl m). by rewrite Hc.
Qed.

Definition near (U A : Z) : Prop := - 2 ^ 31 < U - A < 2 ^ 31.

Lemma retransmit_one_carries E i m A c U :
  placed m A -> near U A -> snd_una (pcb c) = u32 U ->
  wp (tcp_tx_retransmit_one E i m) (fun x c' e => tx_carries e /\ pcb c' = pcb c /\ txq c' = txq c /\
    tx_pending c' = tx_pending c /\
    exists A', A <= A' <= Z.max A U /\ placed (snd x) A' /\ A' + size (snd x) = A + size m) c.
Proof.
  intros Hm Hd Hu. unfold tcp_tx_retransmit_one. cbv zeta. rewrite (l4len_whole _ (placed_tx_seg _ _ Hm)).
  set (copy := negb (m_ref m =? 1)).
  assert (exists A', A <= A' <= Z.max A U /\ placed m A' /\ A' + size m = A + size m) as Hkeep by (exists A; split_and!; (lia || done)).
  destruct (copy && negb (alloc E i)); [wp_step; split_and!; (constructor || done)|].
  set (m1 := if copy then _ else _).
  assert (alike m m1) as Ha.
  { unfold m1, alike, mbuf_length. destruct copy; simpl; [|done]. by rewrite Nat2Z.id, firstn_all. }
  destruct (placed_alike m m1 A Ha Hm) as [Hm1 Es1].
  assert (forall x A', A <= A' <= Z.max A U -> placed x A' -> A' + size x = A + size m -> forall r, exists A', A <= A' <= Z.max A U /\
    placed (if copy then m else x <| m_ref := r |>) A' /\ A' + size (if copy then m else x <| m_ref := r |>) = A + size m) as Hfree.
  { intros x A' H1 H2 H3 r. destruct copy; [done|]. exists A'.
    destruct (placed_alike x (x <| m_ref := r |>) A' ltac:(done) H2) as [H4 H5]. by rewrite H5. }
  do 2 wp_step. rewrite Hu.
  destruct (wraps_lte (seg_end m1) (u32 U)) eqn:He.
  { wp_step. split_and!; [constructor|done|done|done|]. apply (Hfree m1 A); [lia|done|lia]. }
  pose proof (partly_acked m1 (u32 U) (placed_tx_seg _ _ Hm1) He) as Hp. apply wp_bind, wp_require.
  { destruct (wraps_lt (seg_seq m1) (u32 U)); [|done]. apply Z.leb_le. destruct (Hp eq_refl) as [_ ?]. lia. }
  set (m2 := if wraps_lt (seg_seq m1) (u32 U) then _ else _).
  assert (exists A', A <= A' <= Z.max A U /\ placed m2 A' /\ A' + size m2 = A + size m) as (A' & K1 & K2 & K3).
  { unfold m2. destruct (wraps_lt (seg_seq m1) (u32 U)); [|exists A; split_and!; (lia || done)].
    destruct (Hp eq_refl) as [P1 P2]. destruct (placed_pull m1 A U Hm1 P1 Hd P2) as (Q1 & Q2 & Q3). exists U.
    split_and!; (lia || done). }
  unfold tcp_push_tcphdr. do 6 wp_step. wp_step. eapply wp_mono; [apply transmit_spec; by eapply placed_carries|].
  intros r c1 e1 (-> & -> & He1). wp_step. split_and!; [by cbn [app]; rewrite app_nil_r|done|done|done|]. cbn [snd].
  destruct (_ =? 0); [destruct copy; [done|by exists A']|by apply (Hfree m2 A')].
Qed.

(** Everything unacknowledged fits half the sequence space. *)
Definition in_flight (U X S : Z) : Prop := X <= U <= S /\ S - X < 2 ^ 31.

Lemma retransmit_loop_carries E : forall q i count c U X S,
  chain U X q S -> (forall A, X <= A <= S -> near U A) -> snd_una (pcb c) = u32 U ->
  wp (retransmit_loop E i count q) (fun q' c' e => tx_carries e /\ pcb c' = pcb c /\ txq c' = txq c /\
    tx_pending c' = tx_pending c /\ chain U X q' S) c.
Proof.
  induction q as [|m q IH]; intros i count c U X S Hch Hd Hu; cbn [retransmit_loop].
  { wp_step. split_and!; (constructor || done). }
  destruct (_ <? TCP_RETRANSMIT_TIMEOUT); [wp_step; split_and!; (constructor || done)|].
  destruct Hch as (A & H1 & H2 & H3). pose proof (size_nonneg m). pose proof (chain_le _ _ _ _ H3).
  assert (forall B, A + size m <= B <= S -> near U B) as Hd' by (intros B ?; apply Hd; lia).
  do 2 wp_step. destruct (wraps_gte _ _).
  { wp_step. eapply wp_mono; [by apply IH|]. intros q' c' e (G1 & G2 & G3 & G4 & G5). wp_step. rewrite app_nil_r.
    split_and!; try done. by exists A. }
  destruct (placed_alike m (m <| timestamp := microtime E |>) A ltac:(done) H2) as [H4 H5].
  wp_step. eapply wp_mono; [apply (retransmit_one_carries _ _ _ A _ U H4); [apply Hd; lia|done]|].
  intros [r m'] c1 e1 (G1 & G2 & G3 & G4 & (A' & K1 & K2 & K3)). cbn [snd] in *. rewrite H5 in K3.
  assert (forall q', chain U (A + size m) q' S -> chain U X (m' :: q') S) as Hcons.
  { intros q' Hq'. exists A'. split_and!; [lia|lia|done|]. by rewrite K3. }
  destruct (_ || _).
  - wp_step. rewrite app_nil_r. split_and!; try done. by apply Hcons.
  - wp_step. eapply wp_mono; [apply (IH _ _ c1 U (A + size m) S); [done|done|by rewrite G2]|].
    intros q' c2 e2 (J1 & J2 & J3 & J4 & J5). wp_step. rewrite app_nil_r.
    split_and!; try congruence; [by apply (tx_carries_app e1 e2)|by apply Hcons].
Qed.

Lemma retransmit_carries E c U X S :
  sending c U X S -> in_flight U X S ->
  wp (tcp_tx_retransmit E) (fun _ c' e => tx_carries e /\ sending c' U X S) c.
Proof.
  intros [Hch Hn Hu Hm Hp] Hf. unfold tcp_tx_retransmit. apply chain_app in Hch as (Y & H1 & H2).
  pose proof (chain_le _ _ _ _ H1). pose proof (chain_le _ _ _ _ H2). do 3 wp_step.
  eapply wp_mono; [apply (retransmit_loop_carries E _ 0 0 c U X Y H1); [|done]|].
  { intros A ?. unfold near, in_flight in *. lia. }
  intros q' c1 e1 (G1 & G2 & G3 & G4 & G5). wp_step. cbn [app]. rewrite app_nil_r. split; [done|].
  split; simpl; rewrite ?G2, ?G4; try done. apply chain_app. eauto.
Qed.

(** ** Acknowledgements *)

Lemma acked_chain U S : forall q X,
  chain U X q S -> (forall A, X <= A <= S -> near U A) -> X <= U ->
  exists X', X <= X' <= U /\ chain U X' (snd (acked (u32 U) q)) S /\
    match snd (acked (u32 U) q) with [] => True | m :: _ => exists A, placed m A /\ U < A + size m end.
Proof.
  induction q as [|m q IH]; intros X Hch Hd HX; simpl in *; [exists X; split_and!; (lia || done)|].
  destruct Hch as (A & H1 & H2 & H3). pose proof (size_nonneg m). pose proof (chain_le _ _ _ _ H3).
  specialize (Hd (A + size m) ltac:(lia)) as Hn. unfold near in Hn. rewrite (pl_end _ _ H2), gt_counters by lia.
  destruct (Z.gtb_spec (A + size m) U).
  - simpl. exists X. split_and!; [lia|lia|by exists A|exists A; split; [done|lia]].
  - destruct (IH (A + size m) H3) as (X' & K1 & K2 & K3); [intros B ?; apply Hd; lia|lia|].
    destruct (acked (u32 U) q) as [a r]. simpl in *. exists X'. split_and!; (lia || done).
Qed.

Lemma chain_mono U U' : U <= U' -> forall q X S, chain U X q S -> chain U' X q S.
Proof.
  intros HU. induction q as [|m q IH]; intros X S; simpl; [done|]. intros (A & H1 & H2 & H3). exists A. split_and!; (lia || auto).
Qed.

(** A new acknowledgement [U'] removes what it covers, and nothing else. *)
Lemma conn_ack_spec c U U' X S :
  sending c U X S -> in_flight U X S -> U <= U' <= S -> tx_exclusive c = false ->
  wp tcp_conn_ack (fun freed c' e => e = [] /\ txq c = freed ++ txq c' /\ (exists X', X <= X' /\ sending c' U' X' S /\ in_flight U' X' S) /\
    match txq c' with [] => True | m :: _ => exists A, placed m A /\ U' < A + size m end)
    (c <| pcb := pcb c <| snd_una := u32 U' |> |>).
Proof.
  intros [Hch Hn Hu Hm Hp] [HX HS] HU Hx. unfold tcp_conn_ack. do 2 wp_step. simpl. rewrite Hx.
  apply (chain_mono U U') in Hch; [|lia]. apply chain_app in Hch as (Y & H1 & H2).
  pose proof (chain_le _ _ _ _ H1). pose proof (chain_le _ _ _ _ H2).
  destruct (acked_chain U' Y (txq c) X H1) as (X' & K1 & K2 & K3); [intros A ?; unfold near; lia|lia|].
  pose proof (acked_split (u32 U') (txq c)) as Es. destruct (acked (u32 U') (txq c)) as [a r]. simpl in *.
  do 3 wp_step. simpl. split_and!; [done|done| |done]. exists X'. split; [lia|]. split; [|unfold in_flight; lia].
  split; simpl; try done. apply chain_app. eauto.
Qed.

(** [tcp_tx_send] returns for every buffer, size and window; it cuts a prefix
    of the buffer into segments of at most [mss] bytes that continue the stream
    exactly where it stood, every packet it hands to the network carries the
    stream's bytes at its sequence number, the result is the number of bytes
    taken, a shorter prefix or [-ENOBUFS] only comes from a failed allocation,
    and with [push] nothing is held back. *)
Theorem tcp_tx_send_segments E buf push c U X S :
  sending c U X S -> st_lt (state (pcb c)) ESTABLISHED = false -> buf = stream_at sent S (Z.of_nat (length buf)) ->
  exists r c' e k, tcp_tx_send E buf push c = Some (r, c', e) /\ tx_carries e /\ (k <= length buf)%nat /\
    sending c' U X (S + Z.of_nat k) /\ (push = true -> k = length buf -> buf <> [] -> tx_pending c' = None) /\
    ((0 < k)%nat -> r = Z.of_nat k) /\
    ((k < length buf)%nat -> (exists j, alloc E j = false) /\ (k = 0%nat -> r = - ENOBUFS)).
Proof.
  intros H1 H2 H3. destruct (wp_run _ _ _ (tx_send_spec E buf push c U X S H1 H2 H3)) as (r & c' & e & Hr & He & k & Hk).
  exists r, c', e, k. split_and!; (done || apply Hk).
Qed.

(** Every packet that is retransmitted carries the stream's bytes at its
    sequence number, also when the head of a segment has been acknowledged since
    it was first sent, and the queue still holds everything from before [snd_una]
    to [snd_nxt]. *)
Theorem tcp_retransmits_stream E c U X S :
  sending c U X S -> in_flight U X S ->
  exists c' e, tcp_tx_retransmit E c = Some ((), c', e) /\ tx_carries e /\ sending c' U X S.
Proof.
  intros H1 H2. destruct (wp_run _ _ _ (retransmit_carries E c U X S H1 H2)) as ([] & c' & e & Hr & He & Hs). eauto.
Qed.

(** An acknowledgement up to [U'] frees a prefix of the transmit queue, all
    of whose segments end by [U']; the first segment it keeps ends after [U'],
    so nothing unacknowledged is ever dropped and nothing acknowledged is kept. *)
Theorem tcp_ack_frees_exactly c U U' X S :
  sending c U X S -> in_flight U X S -> U <= U' <= S -> tx_exclusive c = false ->
  exists freed c', tcp_conn_ack (c <| pcb := pcb c <| snd_una := u32 U' |> |>) = Some (freed, c', []) /\
    txq c = freed ++ txq c' /\ (exists X', X <= X' /\ sending c' U' X' S /\ in_flight U' X' S) /\
    match txq c' with [] => True | m :: _ => exists A, placed m A /\ U' < A + size m end.
Proof.
  intros H1 H2 H3 H4. destruct (wp_run _ _ _ (conn_ack_spec c U U' X S H1 H2 H3 H4)) as (freed & c' & e & Hr & -> & Hs). eauto.
Qed.
End Tx.

(** Seven bytes written to a connection with segments of three; the first four
    have been acknowledged. *)
Definition tx_conn : tcpconn :=
  tcp_conn_alloc 4294967290 1500 <| pcb := (pcb (tcp_conn_alloc 4294967290 1500)) <| state := ESTABLISHED |>
    <| snd_mss := 3 |> |>.
Definition tx_env : env := Env 10000000 (fun _ => true) (fun _ => 0).
Definition tx_written : tcpconn :=
  match tcp_tx_send tx_env (seqZ 4294967290 7) false tx_conn with Some (_, c, _) => c | None => tx_conn end.

Lemma tcp_tx_send_segments_witness : exists r c' e,
  tcp_tx_send tx_env (seqZ 4294967290 7) false tx_conn = Some (r, c', e) /\ r = 7 /\ tx_carries (fun p => p) 3 e.
Proof.
  destruct (tcp_tx_send_segments (fun p => p) 3 (conj eq_refl eq_refl) tx_env (seqZ 4294967290 7) false tx_conn
    4294967290 4294967290 4294967290) as (r & c' & e & k & E & H1 & H2 & H3 & H4 & H5 & H6).
  - split; [vm_compute; reflexivity..|vm_compute; discriminate].
  - reflexivity.
  - vm_compute. reflexivity.
  - exists r, c', e. split; [exact E|]. split; [|exact H1]. vm_compute in E. injection E as <- <- <-. reflexivity.
Defined.

(** The positions of a queue's segments decide [chain]. *)
Lemma tx_written_sending : sending (fun p => p) 3 tx_written 4294967290 4294967290 4294967297.
Proof.
  assert (forall m A, seg_seq m = u32 A -> seg_end m = u32 (A + size m) -> m_data m = stream_at (fun p => p) A (mbuf_length m) ->
    ctl m = false -> mbuf_length m <=? 3 = true -> placed (fun p => p) 3 m A) as Hpl.
  { intros m A H1 H2 H3 H4 H5. split; try done; [by rewrite H4|by apply Z.leb_le]. }
  split; [|vm_compute; reflexivity..|].
  - set (q := _ ++ _). vm_compute in q. subst q.
    exists 4294967290. split; [lia|]. split; [apply Hpl; vm_compute; reflexivity|].
    exists 4294967293. split; [vm_compute; split; discriminate|]. split; [apply Hpl; vm_compute; reflexivity|].
    exists 4294967296. split; [vm_compute; split; discriminate|]. split; [apply Hpl; vm_compute; reflexivity|]. reflexivity.
  - vm_compute. intros m [= <-].
Qed.


Lemma tcp_ack_frees_exactly_witness : exists freed c',
  tcp_conn_ack (tx_written <| pcb := pcb tx_written <| snd_una := u32 4294967294 |> |>) = Some (freed, c', []) /\
  length freed = 1%nat.
Proof.
  destruct (tcp_ack_frees_exactly (fun p => p) 3 tx_written _ 4294967294 _ _ tx_written_sending) as (freed & c' & E & _).
  - unfold in_flight. lia.
  - lia.
  - reflexivity.
  - exists freed, c'. split; [exact E|]. vm_compute in E. injection E as <- <-. reflexivity.
Defined.
