(* ===== verification/TcpOpts.v ===== *)
(** * tcp: options

    [tcp_push_options] (TcpOut) and [tcp_parse_options] (TcpIn) agree; the
    parser returns unless an option has length zero, on which it never returns. *)

From S2P Require Import Prelude StdDef Tcp TcpOut TcpIn.

(** ** Bytes of a 32-bit word *)

Lemma land_255 x : Z.land x 255 = x mod 256.
Proof. change 255 with (Z.ones 8). by rewrite Z.land_ones. Qed.

(** Adding a field below the bits in use. *)
Lemma lor_low a k b : 0 <= k -> 0 <= b < 2 ^ k -> Z.lor (Z.shiftl a k) b = a * 2 ^ k + b.
Proof.
  intros Hk Hb. assert (Z.land (Z.shiftl a k) b = 0) as Hl.
  { apply Z.bits_inj'. intros n Hn. rewrite Z.land_spec, Z.bits_0, Z.shiftl_spec by done.
    destruct (Z.lt_ge_cases n k); [by rewrite Z.testbit_neg_r by lia|].
    rewrite <- (Z.mod_small b (2 ^ k)), Z.mod_pow2_bits_high, andb_false_r by lia. done. }
  by rewrite <- Z.lxor_lor, <- Z.add_nocarry_lxor, Z.shiftl_mul_pow2.
Qed.

Lemma hton32_eq x : 0 <= x < 2 ^ 32 ->
  hton32 x = [x / 2 ^ 24; x / 2 ^ 16 mod 256; x / 2 ^ 8 mod 256; x mod 256].
Proof.
  intros H. unfold hton32. rewrite !land_255, !Z.shiftr_div_pow2 by lia. rewrite (Z.mod_small (x / 2 ^ 24)); [done|].
  split; [apply Z.div_pos; lia|]. apply Z.div_lt_upper_bound; lia.
Qed.

(** The two options, byte by byte. *)
Lemma mss_bytes v : 0 <= v < 2 ^ 16 ->
  hton32 (Z.lor (Z.lor (Z.shiftl TCP_OPT_MSS 24) (Z.shiftl TCP_OLEN_MSS 16)) v) =
  [TCP_OPT_MSS; TCP_OLEN_MSS; v / 256; v mod 256].
Proof.
  intros Hv. change (Z.lor (Z.shiftl TCP_OPT_MSS 24) (Z.shiftl TCP_OLEN_MSS 16)) with (Z.shiftl 516 16).
  rewrite lor_low, hton32_eq by lia. unfold TCP_OPT_MSS, TCP_OLEN_MSS.
  repeat apply (f_equal2 cons); [Z.to_euclidean_division_equations; lia..|done].
Qed.

Lemma wscale_bytes v : 0 <= v < 2 ^ 8 ->
  hton32 (Z.lor (Z.lor (Z.lor (Z.shiftl TCP_OPT_NOP 24) (Z.shiftl TCP_OPT_WSCALE 16)) (Z.shiftl TCP_OLEN_WSCALE 8)) v) =
  [TCP_OPT_NOP; TCP_OPT_WSCALE; TCP_OLEN_WSCALE; v].
Proof.
  intros Hv. change (Z.lor (Z.lor (Z.shiftl TCP_OPT_NOP 24) (Z.shiftl TCP_OPT_WSCALE 16)) (Z.shiftl TCP_OLEN_WSCALE 8))
    with (Z.shiftl 66307 8).
  rewrite lor_low, hton32_eq by lia. unfold TCP_OPT_NOP, TCP_OPT_WSCALE, TCP_OLEN_WSCALE.
  repeat apply (f_equal2 cons); [Z.to_euclidean_division_equations; lia..|done].
Qed.

(** The values of the options that are enabled. *)
Definition enabled (en bit v : Z) : Z := if has en bit then v else 0.

(** Reading the bytes [l], and [beyond] after them. *)
Definition mem_of (l : list Z) (beyond : Z -> Z) (i : Z) : Z :=
  if i <? Z.of_nat (length l) then l !!! Z.to_nat i else beyond i.

(** Parsing what was pushed. *)
Lemma parse_pushed o beyond (b := tcp_push_options o) :
  0 <= opt_en o < 4 -> 0 <= mss o < 2 ^ 16 -> 0 <= wscale o <= 14 ->
  parse_loop (S (length b)) (mem_of b beyond) 0 (Z.of_nat (length b)) 0 0 0 =
  Some (opt_en o, enabled (opt_en o) TCP_OPTION_MSS (mss o), enabled (opt_en o) TCP_OPTION_WSCALE (wscale o)).
Proof.
  intros He Hm Hw. subst b. unfold tcp_push_options. rewrite mss_bytes, wscale_bytes by lia.
  replace (enabled (opt_en o) TCP_OPTION_MSS (mss o))
    with (enabled (opt_en o) TCP_OPTION_MSS (mss o / 256 * 256 + mss o mod 256))
    by (f_equal; pose proof (Z.div_mod (mss o) 256); lia).
  replace (enabled (opt_en o) TCP_OPTION_WSCALE (wscale o))
    with (enabled (opt_en o) TCP_OPTION_WSCALE (Z.min (wscale o) 14)) by (f_equal; lia).
  generalize (mss o / 256) (mss o mod 256) (wscale o). intros hi lo ws.
  assert (opt_en o = 0 \/ opt_en o = 1 \/ opt_en o = 2 \/ opt_en o = 3) as [-> | [-> | [-> | ->]]] by lia; vm_compute; done.
Qed.

(** C38: the options a connection puts in its SYN are the ones its peer reads: for
    every combination of options, maximum segment size and window scale up to 14,
    parsing the pushed bytes gives the enabled options and their values. *)
Theorem tcp_options_roundtrip o beyond (b := tcp_push_options o) :
  0 <= opt_en o < 4 -> 0 <= mss o < 2 ^ 16 -> 0 <= wscale o <= 14 ->
  parse_loop (S (length b)) (mem_of b beyond) 0 (Z.of_nat (length b)) 0 0 0 =
  Some (opt_en o, enabled (opt_en o) TCP_OPTION_MSS (mss o), enabled (opt_en o) TCP_OPTION_WSCALE (wscale o)).
Proof. apply parse_pushed. Qed.

Lemma tcp_options_roundtrip_witness :
  parse_loop 9 (mem_of (tcp_push_options (TcpOptions 3 1460 7)) (fun _ => 0)) 0 8 0 0 0 = Some (3, 1460, 7).
Proof. apply (tcp_options_roundtrip (TcpOptions 3 1460 7) (fun _ => 0)); simpl; lia. Defined.

(** The parser returns on every sequence of options none of which claims
    length zero, whatever their kinds and lengths and also when the last one runs
    past the end, after at most one iteration per byte. *)
Theorem tcp_parse_options_returns mem ptr len en ms ws :
  (forall i, mem i = TCP_OPT_NOP \/ 0 < mem (i + 1)) ->
  is_Some (parse_loop (S (Z.to_nat len)) mem ptr len en ms ws).
Proof.
  intros Hp. remember (S (Z.to_nat len)) as fuel eqn:Hf. assert (Z.to_nat len < fuel)%nat as Hlt by lia. clear Hf.
  revert ptr len en ms ws Hlt. induction fuel as [|fuel IH]; intros ptr len en ms ws Hlt; [lia|]. cbn [parse_loop].
  destruct (Z.gtb_spec len 0); [|eauto]. destruct (_ =? TCP_OPT_EOL); [eauto|].
  destruct (Z.eqb_spec (mem ptr) TCP_OPT_NOP) as [|Hn]; [apply IH; lia|]. destruct (Hp ptr) as [|Ho]; [done|].
  destruct (_ && _); [|destruct (_ && _)]; apply IH; lia.
Qed.

Lemma tcp_parse_options_returns_witness :
  is_Some (parse_loop 41 (fun i => if i =? 0 then 8 else 10) 0 40 0 0 0).
Proof. apply (tcp_parse_options_returns (fun i => if i =? 0 then 8 else 10) 0 40 0 0 0). intros i. right. destruct (i + 1 =? 0); lia. Defined.

(** C39: an option of an unknown kind that claims length zero keeps the parser where
    it is: no number of iterations is enough, so a single SYN-ACK with such an
    option stops the thread that handles it, with the connection's lock held. *)
Theorem tcp_parse_options_loops fuel mem ptr len en ms ws :
  0 < len -> TCP_OPT_WSCALE < mem ptr -> mem (ptr + 1) = 0 ->
  parse_loop fuel mem ptr len en ms ws = None.
Proof.
  intros Hl Hk Hz. unfold TCP_OPT_WSCALE in Hk. induction fuel as [|fuel IH]; [done|]. cbn [parse_loop].
  rewrite Z.gtb_ltb, (proj2 (Z.ltb_lt 0 len)) by done. rewrite Hz, Z.add_0_r, Z.sub_0_r.
  unfold TCP_OPT_EOL, TCP_OPT_NOP, TCP_OPT_MSS, TCP_OPT_WSCALE. by do 4 rewrite (proj2 (Z.eqb_neq (mem ptr) _)) by lia.
Qed.

Lemma tcp_parse_options_loops_witness : parse_loop 1000 (fun i => if i =? 0 then 8 else 0) 0 4 0 0 0 = None.
Proof. apply tcp_parse_options_loops; simpl; reflexivity || lia. Defined.
