(* ===== verification/Transport.v ===== *)
(** * transport: dispatching packets to sockets

    Models [runtime/net/transport.c] on the lists of [RcuList] with the entries of [runtime/net/defs.h]: a hash table of the addresses
    sockets are bound to, automatic choice of a local port, and the lookup that
    finds the socket of a packet.  The hash is the CPU's CRC32 instruction, a
    parameter; no theorem depends on it.  An entry's address in memory is
    [e_id]. *)

From S2P Require Import Prelude StdDef.

Definition TRANS_TBL_SIZE : Z := 16384.
Definition MIN_EPHEMERAL : Z := 49152.
Definition MAX_EPHEMERAL : Z := 65535.
Definition IPPROTO_TCP : Z := 6.
Definition IPPROTO_UDP : Z := 17.
Definition EINVAL : Z := 22.
Definition EADDRINUSE : Z := 98.
Definition EADDRNOTAVAIL : Z := 99.

Record netaddr := NetAddr { ip : Z; port : Z }.
#[global] Instance eta_netaddr : Settable netaddr := fun r => NetAddr (ip r) (port r).

Inductive trans_match := TRANS_MATCH_3TUPLE | TRANS_MATCH_5TUPLE.
#[global] Instance trans_match_eq_dec : EqDecision trans_match.
Proof. solve_decision. Defined.

Record trans_entry := TransEntry {
  e_id : nat; e_match : trans_match; e_proto : Z; e_laddr : netaddr; e_raddr : netaddr }.
#[global] Instance eta_trans_entry : Settable trans_entry := fun r =>
  TransEntry (e_id r) (e_match r) (e_proto r) (e_laddr r) (e_raddr r).

Definition trans_init_3tuple (id : nat) (proto : Z) (laddr : netaddr) : trans_entry :=
  TransEntry id TRANS_MATCH_3TUPLE proto laddr (NetAddr 0 0).
Definition trans_init_5tuple (id : nat) (proto : Z) (laddr raddr : netaddr) : trans_entry :=
  TransEntry id TRANS_MATCH_5TUPLE proto laddr raddr.

(** The table, whose buckets are RCU lists, and the port counter. *)
Record trans := Trans { trans_tbl : gmap Z (list trans_entry); ephemeral_offset : Z }.
#[global] Instance eta_trans : Settable trans := fun r => Trans (trans_tbl r) (ephemeral_offset r).

(** The bucket lists as sequences, which is what [RcuList] shows of their
    pointers: adding at the head, removing a node, and a loop that stops at the
    first node that matches. *)
Definition bucket_add (l : list trans_entry) (e : trans_entry) : list trans_entry := e :: l.
Definition bucket_del (l : list trans_entry) (id : nat) : list trans_entry := filter (fun e => e_id e <> id) l.
Fixpoint bucket_find (p : trans_entry -> bool) (l : list trans_entry) : option trans_entry :=
  match l with [] => None | e :: l => if p e then Some e else bucket_find p l end.

(** A packet as [trans_lookup] sees it: the header fields, and the number of
    bytes after the IP header. *)
Record l4_packet := L4Packet { p_proto : Z; p_saddr : Z; p_daddr : Z; p_sport : Z; p_dport : Z; p_len : Z }.

(** What [net_rx_trans] does with a packet. *)
Inductive disposition := Deliver (e : trans_entry) | RxClosed | Drop.

Section Table.
(** [__mm_crc32_u64] and the seed chosen at start-up. *)
Context (crc32 : Z -> Z -> Z) (trans_seed : Z).

Definition hash_crc32c_one (seed val : Z) : Z := crc32 seed val.
Definition hash_crc32c_two (seed a b : Z) : Z := crc32 (crc32 seed a) b.

Definition trans_hash_3tuple (proto : Z) (laddr : netaddr) : Z :=
  u32 (hash_crc32c_one trans_seed
    (Z.lor (Z.lor (ip laddr) (Z.shiftl (port laddr) 32)) (Z.shiftl proto 48))).
Definition trans_hash_5tuple (proto : Z) (laddr raddr : netaddr) : Z :=
  u32 (hash_crc32c_two trans_seed (Z.lor (ip laddr) (Z.shiftl (port laddr) 32))
    (Z.lor (Z.lor (ip raddr) (Z.shiftl (port raddr) 32)) (Z.shiftl proto 48))).

Definition trans_hash (e : trans_entry) : Z :=
  match e_match e with
  | TRANS_MATCH_3TUPLE => trans_hash_3tuple (e_proto e) (e_laddr e)
  | TRANS_MATCH_5TUPLE => trans_hash_5tuple (e_proto e) (e_laddr e) (e_raddr e)
  end.
Definition bucket (e : trans_entry) : Z := trans_hash e mod TRANS_TBL_SIZE.

Definition addr_eqb (a b : netaddr) : bool := (ip a =? ip b) && (port a =? port b).

(** The test of [trans_table_add] for a conflicting entry [pos]. *)
Definition conflicts (e pos : trans_entry) : bool :=
  if bool_decide (e_match pos <> e_match e) then false
  else if bool_decide (e_match e = TRANS_MATCH_3TUPLE) && (e_proto e =? e_proto pos) && addr_eqb (e_laddr e) (e_laddr pos)
  then true
  else (e_proto e =? e_proto pos) && addr_eqb (e_laddr e) (e_laddr pos) && addr_eqb (e_raddr e) (e_raddr pos).

Definition trans_table_add (e : trans_entry) (s : trans) : Z * trans :=
  if port (e_laddr e) =? 0 then (- EINVAL, s)
  else
    let idx := bucket e in
    match bucket_find (conflicts e) (trans_tbl s !!! idx) with
    | Some _ => (- EADDRINUSE, s)
    | None =>
        (0, s <| trans_tbl := <[idx := bucket_add (trans_tbl s !!! idx) e]> (trans_tbl s) |>
              <| ephemeral_offset := u32 (ephemeral_offset s + 1) |>)
    end.

Definition num_ephemeral : Z := MAX_EPHEMERAL - MIN_EPHEMERAL + 1.
Definition with_port (e : trans_entry) (p : Z) : trans_entry := e <| e_laddr := e_laddr e <| port := p |> |>.

(** The loop of [trans_table_add_with_ephemeral_port], with [n] ports left. *)
Fixpoint ephemeral_loop (n : nat) (next offset : Z) (e : trans_entry) (s : trans) : Z * trans_entry * trans :=
  match n with
  | O => (- EADDRNOTAVAIL, e, s)
  | S n =>
      let e := with_port e (u16 (MIN_EPHEMERAL + (next + offset) mod num_ephemeral)) in
      let '(ret, s) := trans_table_add e s in
      if ret =? 0 then (0, e, s) else ephemeral_loop n (next + 1) offset e s
  end.
Definition trans_table_add_with_ephemeral_port (e : trans_entry) (s : trans) : Z * trans_entry * trans :=
  let e := with_port e 0 in
  let offset := u16 (trans_hash e + ephemeral_offset s) in
  ephemeral_loop (Z.to_nat num_ephemeral) 0 offset e s.

(** The node is unlinked from whichever bucket it is on. *)
Definition trans_table_remove (id : nat) (s : trans) : trans :=
  s <| trans_tbl := (fun l => bucket_del l id) <$> trans_tbl s |>.

(** The tests of the two loops of [trans_lookup]. *)
Definition match_5tuple (proto : Z) (laddr raddr : netaddr) (e : trans_entry) : bool :=
  bool_decide (e_match e = TRANS_MATCH_5TUPLE) && (e_proto e =? proto) &&
  addr_eqb (e_laddr e) laddr && addr_eqb (e_raddr e) raddr.
Definition match_3tuple (proto : Z) (laddr : netaddr) (e : trans_entry) : bool :=
  bool_decide (e_match e = TRANS_MATCH_3TUPLE) && (e_proto e =? proto) && addr_eqb (e_laddr e) laddr.

Definition trans_lookup (s : trans) (m : l4_packet) (reverse : bool) : option trans_entry :=
  if negb (p_proto m =? IPPROTO_UDP) && negb (p_proto m =? IPPROTO_TCP) then None
  else if p_len m <? 4 then None
  else
    let dst := NetAddr (p_daddr m) (p_dport m) in
    let src := NetAddr (p_saddr m) (p_sport m) in
    let '(laddr, raddr) := if reverse then (src, dst) else (dst, src) in
    match bucket_find (match_5tuple (p_proto m) laddr raddr)
            (trans_tbl s !!! (trans_hash_5tuple (p_proto m) laddr raddr mod TRANS_TBL_SIZE)) with
    | Some e => Some e
    | None => bucket_find (match_3tuple (p_proto m) laddr)
                (trans_tbl s !!! (trans_hash_3tuple (p_proto m) laddr mod TRANS_TBL_SIZE))
    end.

Definition net_rx_trans (s : trans) (m : l4_packet) : disposition :=
  match trans_lookup s m false with
  | Some e => Deliver e
  | None => if p_proto m =? IPPROTO_TCP then RxClosed else Drop
  end.

(** The entry whose [err] operation [trans_error] calls; [has_err] says whether
    it has one. *)
Definition trans_error (has_err : nat -> bool) (s : trans) (m : l4_packet) : option trans_entry :=
  match trans_lookup s m true with
  | Some e => if has_err (e_id e) then Some e else None
  | None => None
  end.

Definition trans_init : trans := Trans ∅ 0.
End Table.

(** ** What the table stands for *)

(** The address a socket is bound to: with a remote address for connections. *)
Abbreviation akey := (Z * (Z * Z) * option (Z * Z))%type.
Definition of_addr (a : netaddr) : Z * Z := (ip a, port a).
Definition key_of (e : trans_entry) : akey :=
  (e_proto e, of_addr (e_laddr e),
   match e_match e with TRANS_MATCH_3TUPLE => None | TRANS_MATCH_5TUPLE => Some (of_addr (e_raddr e)) end).

Lemma addr_eqb_iff a b : addr_eqb a b = true <-> of_addr a = of_addr b.
Proof. unfold addr_eqb, of_addr. by rewrite andb_true_iff, !Z.eqb_eq, pair_equal_spec. Qed.

Lemma conflicts_iff e pos : conflicts e pos = true <-> key_of e = key_of pos.
Proof.
  unfold conflicts, key_of. rewrite !pair_equal_spec, <- !addr_eqb_iff, <- Z.eqb_eq.
  destruct (e_match e), (e_match pos); simpl.
  - destruct (e_proto e =? e_proto pos), (addr_eqb (e_laddr e) (e_laddr pos)); simpl; naive_solver.
  - naive_solver.
  - naive_solver.
  - rewrite !andb_true_iff, (inj_iff Some), <- addr_eqb_iff. tauto.
Qed.

Lemma find_None p l : bucket_find p l = None <-> forall e, e ∈ l -> p e = false.
Proof.
  induction l as [|e l IH]; simpl; [split; [by intros _ ? ?%not_elem_of_nil|done]|]. destruct (p e) eqn:E.
  - split; [done|]. intros H. specialize (H e ltac:(left)). congruence.
  - rewrite IH. split; [|intros H x Hx; apply H; by right]. intros H x [-> | Hx]%elem_of_cons; auto.
Qed.

Lemma find_Some p l e : bucket_find p l = Some e -> e ∈ l /\ p e = true.
Proof.
  induction l as [|x l IH]; simpl; [done|]. destruct (p x) eqn:E; [intros [= ->]; split; [left|done]|].
  intros [? ?]%IH. split; [by right|done].
Qed.

Section Refinement.
Context (crc32 : Z -> Z -> Z) (seed : Z).
Abbreviation bucket := (bucket crc32 seed).
Abbreviation trans_table_add := (trans_table_add crc32 seed).
Abbreviation trans_lookup := (trans_lookup crc32 seed).

(** The table [s] stands for the map [m] from bound addresses to entries. *)
Record stands (s : trans) (m : gmap akey nat) : Prop := {
  st_in : forall i e, e ∈ trans_tbl s !!! i -> i = bucket e /\ m !! key_of e = Some (e_id e);
  st_all : forall k n, m !! k = Some n -> exists e, e ∈ trans_tbl s !!! bucket e /\ key_of e = k /\ e_id e = n;
  st_inj : forall k1 k2 n, m !! k1 = Some n -> m !! k2 = Some n -> k1 = k2
}.

Lemma stands_init : stands trans_init ∅.
Proof. split; [|done|done]. intros i e He. unfold trans_init in He. simpl in He. rewrite lookup_total_empty in He. by apply not_elem_of_nil in He. Qed.

(** The bucket depends on the address only. *)
Lemma bucket_key e e' : key_of e = key_of e' -> bucket e = bucket e'.
Proof.
  unfold key_of, Transport.bucket, trans_hash, trans_hash_3tuple, trans_hash_5tuple, of_addr.
  destruct (e_match e), (e_match e'); intros [=]; congruence.
Qed.

Lemma find_conflict s m e :
  stands s m ->
  match bucket_find (conflicts e) (trans_tbl s !!! bucket e) with
  | Some x => m !! key_of e = Some (e_id x)
  | None => m !! key_of e = None
  end.
Proof.
  intros [H1 H2 _]. destruct (bucket_find _ _) as [x|] eqn:E.
  - apply find_Some in E as [Hx Hc%conflicts_iff]. rewrite Hc. by apply H1 in Hx as [_ ?].
  - destruct (m !! key_of e) as [n|] eqn:Em; [|done]. destruct (H2 _ _ Em) as (x & Hx & Hk & _).
    rewrite (bucket_key x e Hk) in Hx. rewrite find_None in E. specialize (E x Hx).
    assert (conflicts e x = true) by by apply conflicts_iff. congruence.
Qed.

(** Adding an entry binds its address, unless it is taken. *)
Lemma add_spec s m e :
  stands s m -> (forall k, m !! k <> Some (e_id e)) ->
  let '(ret, s') := trans_table_add e s in
  if port (e_laddr e) =? 0 then ret = - EINVAL /\ s' = s
  else match m !! key_of e with
       | Some _ => ret = - EADDRINUSE /\ s' = s
       | None => ret = 0 /\ stands s' (<[key_of e := e_id e]> m)
       end.
Proof.
  intros Hs Hf. unfold Transport.trans_table_add. destruct (port (e_laddr e) =? 0); [done|].
  pose proof (find_conflict s m e Hs) as Hc. destruct (bucket_find _ _) as [x|]; rewrite Hc; [done|].
  split; [done|]. destruct Hs as [H1 H2 H3]. split; simpl.
  - intros i x. destruct (decide (i = bucket e)) as [->|Hi].
    + rewrite lookup_total_insert_eq. intros [-> | Hx]%elem_of_cons; [split; [done|by rewrite lookup_insert_eq]|].
      destruct (H1 _ _ Hx) as [Hb Hm]. split; [done|]. rewrite lookup_insert_ne; [done|]. congruence.
    + rewrite lookup_total_insert_ne by done. intros Hx. destruct (H1 _ _ Hx) as [Hb Hm]. split; [done|].
      rewrite lookup_insert_ne; [done|]. congruence.
  - intros k n [[<- <-]|[Hk Hm]]%lookup_insert_Some.
    + exists e. rewrite lookup_total_insert_eq. split; [left|done].
    + destruct (H2 _ _ Hm) as (x & Hx & Hkx & Hn). exists x. split; [|done].
      destruct (decide (bucket x = bucket e)) as [Eb|Eb].
      * rewrite Eb in *. rewrite lookup_total_insert_eq. by right.
      * by rewrite lookup_total_insert_ne.
  - intros k1 k2 n [[<- <-]|[Hk1 Hm1]]%lookup_insert_Some [[<- ?]|[Hk2 Hm2]]%lookup_insert_Some; try done; [| |eauto].
    + by apply Hf in Hm2.
    + subst n. by apply Hf in Hm1.
Qed.

(** Removing an entry frees the address it is bound to. *)
Lemma remove_spec s m id : stands s m -> stands (trans_table_remove id s) (filter (fun kv => snd kv <> id) m).
Proof.
  intros [H1 H2 H3]. assert (forall i, trans_tbl (trans_table_remove id s) !!! i = bucket_del (trans_tbl s !!! i) id) as Ht.
  { intros i. unfold trans_table_remove. simpl. rewrite !lookup_total_alt, lookup_fmap.
    by destruct (trans_tbl s !! i). }
  split.
  - intros i e. rewrite Ht. intros [Hne He]%list_elem_of_filter. destruct (H1 _ _ He) as [Hb Hm]. split; [done|].
    apply map_lookup_filter_Some. done.
  - intros k n [Hm Hne]%map_lookup_filter_Some. destruct (H2 _ _ Hm) as (e & He & Hk & Hn). exists e.
    rewrite Ht. split; [|done]. apply list_elem_of_filter. simpl in Hne. by subst.
  - intros k1 k2 n [Hm1 _]%map_lookup_filter_Some [Hm2 _]%map_lookup_filter_Some. eauto.
Qed.

Lemma find_key s m (p : trans_entry -> bool) i k :
  stands s m -> (forall e, p e = true <-> key_of e = k) -> (forall e, key_of e = k -> bucket e = i) ->
  e_id <$> bucket_find p (trans_tbl s !!! i) = m !! k.
Proof.
  intros [H1 H2 _] Hp Hi. destruct (bucket_find p _) as [x|] eqn:E; simpl.
  - apply find_Some in E as [Hx <-%Hp]. by apply H1 in Hx as [_ ?].
  - destruct (m !! k) as [n|] eqn:Em; [|done]. destruct (H2 _ _ Em) as (x & Hx & Hk & _).
    rewrite (Hi x Hk) in Hx. rewrite find_None in E. specialize (E x Hx). apply Hp in Hk. congruence.
Qed.

(** The socket a packet belongs to: the connection if there is one, and
    otherwise the listener of its local address. *)
Definition owner (m : gmap akey nat) (proto : Z) (laddr raddr : netaddr) : option nat :=
  match m !! (proto, of_addr laddr, Some (of_addr raddr)) with
  | Some n => Some n
  | None => m !! (proto, of_addr laddr, None)
  end.
Definition demux (m : gmap akey nat) (p : l4_packet) (reverse : bool) : option nat :=
  if ((p_proto p =? IPPROTO_UDP) || (p_proto p =? IPPROTO_TCP)) && (4 <=? p_len p) then
    if reverse then owner m (p_proto p) (NetAddr (p_saddr p) (p_sport p)) (NetAddr (p_daddr p) (p_dport p))
    else owner m (p_proto p) (NetAddr (p_daddr p) (p_dport p)) (NetAddr (p_saddr p) (p_sport p))
  else None.

Lemma find_5tuple s m proto laddr raddr :
  stands s m ->
  e_id <$> bucket_find (match_5tuple proto laddr raddr)
    (trans_tbl s !!! (trans_hash_5tuple crc32 seed proto laddr raddr mod TRANS_TBL_SIZE)) =
  m !! (proto, of_addr laddr, Some (of_addr raddr)).
Proof.
  intros Hs. apply (find_key s m); [done| |].
  - intros e. unfold key_of, match_5tuple. rewrite !pair_equal_spec, !andb_true_iff, !addr_eqb_iff, bool_decide_eq_true, Z.eqb_eq.
    destruct (e_match e); [split; intros; destruct_and?; congruence|]. rewrite (inj_iff Some). tauto.
  - intros e Hk. apply (bucket_key e (TransEntry 0 TRANS_MATCH_5TUPLE proto laddr raddr) Hk).
Qed.

Lemma find_3tuple s m proto laddr :
  stands s m ->
  e_id <$> bucket_find (match_3tuple proto laddr)
    (trans_tbl s !!! (trans_hash_3tuple crc32 seed proto laddr mod TRANS_TBL_SIZE)) =
  m !! (proto, of_addr laddr, None).
Proof.
  intros Hs. apply (find_key s m); [done| |].
  - intros e. unfold key_of, match_3tuple. rewrite !pair_equal_spec, !andb_true_iff, addr_eqb_iff, bool_decide_eq_true, Z.eqb_eq.
    destruct (e_match e); [tauto|split; intros; destruct_and?; congruence].
  - intros e Hk. apply (bucket_key e (TransEntry 0 TRANS_MATCH_3TUPLE proto laddr laddr) Hk).
Qed.

Lemma lookup_spec s m p reverse : stands s m -> e_id <$> trans_lookup s p reverse = demux m p reverse.
Proof.
  intros Hs. unfold Transport.trans_lookup, demux. rewrite <- negb_orb.
  destruct (_ || _); [|done]. simpl. rewrite Z.leb_antisym. destruct (p_len p <? 4); [done|]. simpl. unfold owner.
  destruct reverse; rewrite <- (find_5tuple s m), <- (find_3tuple s m) by done; by destruct (bucket_find _ _).
Qed.

Lemma ephemeral_port x : MIN_EPHEMERAL <= u16 (MIN_EPHEMERAL + x mod num_ephemeral) <= MAX_EPHEMERAL /\
  u16 (MIN_EPHEMERAL + x mod num_ephemeral) = MIN_EPHEMERAL + x mod num_ephemeral.
Proof.
  assert (0 <= x mod num_ephemeral < num_ephemeral) as H by by apply Z.mod_pos_bound.
  revert H. generalize (x mod num_ephemeral). intros y Hy.
  unfold u16. rewrite (Z.mod_small (_ + _)); unfold num_ephemeral, MIN_EPHEMERAL, MAX_EPHEMERAL in *; lia.
Qed.

Lemma with_port_twice e p q : with_port (with_port e p) q = with_port e q.
Proof. done. Qed.

(** The loop binds one of the ports it tries, or all of them are taken. *)
Lemma ephemeral_loop_spec n next offset e s m :
  stands s m -> (forall k, m !! k <> Some (e_id e)) ->
  let try j := with_port e (u16 (MIN_EPHEMERAL + (j + offset) mod num_ephemeral)) in
  let '(ret, e', s') := ephemeral_loop crc32 seed n next offset e s in
  (ret = 0 /\ (exists j, e' = try j) /\ m !! key_of e' = None /\ stands s' (<[key_of e' := e_id e]> m)) \/
  (ret = - EADDRNOTAVAIL /\ s' = s /\ forall j, next <= j < next + Z.of_nat n -> is_Some (m !! key_of (try j))).
Proof.
  revert next e. induction n as [|n IH]; intros next e Hs Hf; cbn [ephemeral_loop]; cbv zeta; [right; split_and!; [done..|lia]|].
  set (e1 := with_port e _). pose proof (add_spec s m e1 Hs Hf) as Ha.
  destruct (Transport.trans_table_add _ _ e1 s) as [ret s1].
  assert ((port (e_laddr e1) =? 0) = false) as Ep.
  { simpl. pose proof (proj1 (ephemeral_port (next + offset))). unfold MIN_EPHEMERAL in *. lia. }
  rewrite Ep in Ha. destruct (m !! key_of e1) as [x|] eqn:Em; destruct Ha as [-> Ha].
  - subst s1. change (- EADDRINUSE =? 0) with false. cbv iota.
    specialize (IH (next + 1) e1 Hs Hf). cbv zeta in IH.
    destruct (ephemeral_loop _ _ n _ _ _ _) as [[ret e2] s2].
    destruct IH as [(-> & Hj & H)|(-> & -> & H)]; [by left|right]. split_and!; [done..|].
    intros j Hj. destruct (decide (j = next)) as [->|]; [fold e1; rewrite Em; eauto|]. apply (H j). lia.
  - simpl. left. split_and!; eauto.
Qed.

(** An ephemeral port is found exactly when one is free. *)
Lemma ephemeral_spec s m e :
  stands s m -> (forall k, m !! k <> Some (e_id e)) ->
  let '(ret, e', s') := trans_table_add_with_ephemeral_port crc32 seed e s in
  (ret = 0 /\ MIN_EPHEMERAL <= port (e_laddr e') <= MAX_EPHEMERAL /\ e' = with_port e (port (e_laddr e')) /\
   m !! key_of e' = None /\ stands s' (<[key_of e' := e_id e]> m)) \/
  (ret = - EADDRNOTAVAIL /\ s' = s /\
   forall p, MIN_EPHEMERAL <= p <= MAX_EPHEMERAL -> is_Some (m !! key_of (with_port e p))).
Proof.
  intros Hs Hf. unfold trans_table_add_with_ephemeral_port. cbv zeta. set (offset := u16 _).
  pose proof (ephemeral_loop_spec (Z.to_nat num_ephemeral) 0 offset (with_port e 0) s m Hs Hf) as H. cbv zeta in H.
  destruct (ephemeral_loop _ _ _ _ _ _ _) as [[ret e'] s'].
  destruct H as [(-> & [j ->] & Hm & Hs')|(-> & -> & H)]; [left|right].
  - rewrite with_port_twice in *. split_and!; try done; apply ephemeral_port.
  - split_and!; [done..|]. intros p Hp. destruct (H ((p - MIN_EPHEMERAL - offset) mod num_ephemeral)) as [n Hn].
    { rewrite Z2Nat.id by done. by apply Z.mod_pos_bound. }
    exists n. rewrite <- Hn, with_port_twice. repeat f_equal. rewrite (proj2 (ephemeral_port _)), Zplus_mod_idemp_l.
    rewrite Z.mod_small; unfold num_ephemeral, MIN_EPHEMERAL, MAX_EPHEMERAL in *; lia.
Qed.

(** A call into the layer, and what it answers: a return code, the port chosen
    with it, or the socket a packet or an error goes to. *)
Inductive call :=
| Bind (e : trans_entry) | BindEphemeral (e : trans_entry) | Unbind (id : nat)
| Receive (p : l4_packet) | Error (p : l4_packet).
Inductive answer := Returned (ret : Z) | Chosen (ret port : Z) | Unbound | Received (d : option nat) (closed : bool) | Told (d : option nat).

(** Which entries have an [err] operation. *)
Context (has_err : nat -> bool).

Definition trans_call (o : call) (s : trans) : answer * trans :=
  match o with
  | Bind e => let '(ret, s) := trans_table_add e s in (Returned ret, s)
  | BindEphemeral e =>
      let '(ret, e, s) := trans_table_add_with_ephemeral_port crc32 seed e s in (Chosen ret (port (e_laddr e)), s)
  | Unbind id => (Unbound, trans_table_remove id s)
  | Receive p => (match net_rx_trans crc32 seed s p with
                  | Deliver e => Received (Some (e_id e)) false
                  | RxClosed => Received None true
                  | Drop => Received None false
                  end, s)
  | Error p => (Told (e_id <$> trans_error crc32 seed has_err s p), s)
  end.

(** The same calls on a map from addresses to sockets. *)
Inductive map_call : gmap akey nat -> call -> answer -> gmap akey nat -> Prop :=
| map_bind_zero m e : port (e_laddr e) = 0 -> map_call m (Bind e) (Returned (- EINVAL)) m
| map_bind_used m e :
    port (e_laddr e) <> 0 -> is_Some (m !! key_of e) -> map_call m (Bind e) (Returned (- EADDRINUSE)) m
| map_bind m e :
    port (e_laddr e) <> 0 -> m !! key_of e = None -> map_call m (Bind e) (Returned 0) (<[key_of e := e_id e]> m)
| map_ephemeral m e p :
    MIN_EPHEMERAL <= p <= MAX_EPHEMERAL -> m !! key_of (with_port e p) = None ->
    map_call m (BindEphemeral e) (Chosen 0 p) (<[key_of (with_port e p) := e_id e]> m)
| map_ephemeral_none m e p :
    (forall q, MIN_EPHEMERAL <= q <= MAX_EPHEMERAL -> is_Some (m !! key_of (with_port e q))) ->
    map_call m (BindEphemeral e) (Chosen (- EADDRNOTAVAIL) p) m
| map_unbind m id : map_call m (Unbind id) Unbound (filter (fun kv => snd kv <> id) m)
| map_receive m p :
    map_call m (Receive p)
      (Received (demux m p false) (bool_decide (demux m p false = None) && (p_proto p =? IPPROTO_TCP))) m
| map_error m p : map_call m (Error p) (Told (id ← demux m p true; if has_err id then Some id else None)) m.

(** An entry is not added while it is on the table. *)
Definition linked (s : trans) (id : nat) : bool :=
  existsb (fun kv => existsb (fun e => Nat.eqb (e_id e) id) (snd kv)) (map_to_list (trans_tbl s)).
Definition call_ok (s : trans) (o : call) : bool :=
  match o with
  | Bind e | BindEphemeral e => negb (linked s (e_id e))
  | Unbind id => linked s id
  | Receive _ | Error _ => true
  end.
Fixpoint trans_run (os : list call) (s : trans) : list answer * trans :=
  match os with
  | [] => ([], s)
  | o :: os => let '(a, s) := trans_call o s in let '(l, s) := trans_run os s in (a :: l, s)
  end.
Fixpoint calls_ok (os : list call) (s : trans) : bool :=
  match os with [] => true | o :: os => call_ok s o && calls_ok os (snd (trans_call o s)) end.
Inductive map_run : gmap akey nat -> list call -> list answer -> gmap akey nat -> Prop :=
| map_run_nil m : map_run m [] [] m
| map_run_cons m m' m'' o a os l : map_call m o a m' -> map_run m' os l m'' -> map_run m (o :: os) (a :: l) m''.

Lemma unlinked_fresh s m id : stands s m -> linked s id = false -> forall k, m !! k <> Some id.
Proof.
  intros [_ H _] Hl k Hk. destruct (H _ _ Hk) as (e & He & _ & Hid).
  enough (linked s id = true) by congruence. unfold linked. rewrite lookup_total_alt in He.
  destruct (trans_tbl s !! bucket e) as [l|] eqn:E; [|by apply not_elem_of_nil in He].
  apply existsb_exists. exists (bucket e, l). split; [by apply list_elem_of_In, elem_of_map_to_list|].
  apply existsb_exists. exists e. split; [by apply list_elem_of_In|]. by apply Nat.eqb_eq.
Qed.

Lemma trans_call_spec s m o :
  stands s m -> call_ok s o = true ->
  let '(a, s') := trans_call o s in exists m', map_call m o a m' /\ stands s' m'.
Proof.
  intros Hs Hok. destruct o as [e|e|id|p|p]; simpl.
  - apply negb_true_iff in Hok. pose proof (add_spec s m e Hs (unlinked_fresh s m _ Hs Hok)) as H.
    destruct (Transport.trans_table_add _ _ e s) as [ret s']. destruct (Z.eqb_spec (port (e_laddr e)) 0) as [E|E].
    { destruct H as [-> ->]. eexists. split; [by apply map_bind_zero|done]. }
    destruct (m !! key_of e) as [x|] eqn:Em; destruct H as [-> H].
    + subst s'. eexists. split; [apply map_bind_used; eauto|done].
    + eexists. split; [by apply map_bind|done].
  - apply negb_true_iff in Hok. pose proof (ephemeral_spec s m e Hs (unlinked_fresh s m _ Hs Hok)) as H.
    destruct (Transport.trans_table_add_with_ephemeral_port _ _ e s) as [[ret e'] s'].
    destruct H as [(-> & Hp & He & Hm & Hs')|(-> & -> & H)].
    + rewrite He in Hm, Hs'. eexists. split; [by apply map_ephemeral|done].
    + eexists. split; [by apply map_ephemeral_none|done].
  - eexists. split; [constructor|by apply remove_spec].
  - exists m. split; [|done]. pose proof (lookup_spec s m p false Hs) as H. unfold net_rx_trans.
    pose proof (map_receive m p) as Hc. rewrite <- H in Hc.
    destruct (Transport.trans_lookup _ _ s p false); [done|]. simpl in Hc. by destruct (p_proto p =? IPPROTO_TCP).
  - exists m. split; [|done]. pose proof (lookup_spec s m p true Hs) as H. unfold trans_error.
    pose proof (map_error m p) as Hc. rewrite <- H in Hc. destruct (Transport.trans_lookup _ _ s p true) as [e|]; [|done].
    simpl in *. by destruct (has_err (e_id e)).
Qed.

Lemma trans_run_spec os s m :
  stands s m -> calls_ok os s = true ->
  let '(l, s') := trans_run os s in exists m', map_run m os l m' /\ stands s' m'.
Proof.
  revert s m. induction os as [|o os IH]; simpl; intros s m Hs Hok; [eauto using map_run_nil|].
  apply andb_true_iff in Hok as [Ho Hos]. pose proof (trans_call_spec s m o Hs Ho) as H.
  destruct (trans_call o s) as [a s1]. destruct H as (m1 & Hc & Hs1). specialize (IH s1 m1 Hs1 Hos).
  destruct (trans_run os s1) as [l s2]. destruct IH as (m2 & Hr & Hs2). exists m2. split; [by eapply map_run_cons|done].
Qed.

(** C10: the transport layer behaves as a map from bound addresses (protocol,
    local address, and remote address for a connection) to sockets, whatever
    the hash function is: for every sequence of calls, adding an entry fails
    with EINVAL on port zero and with EADDRINUSE exactly when its address is
    bound, automatic port choice returns a free port of the ephemeral range and
    fails exactly when the whole range is taken, removal frees the address, and
    a received packet or a network error goes to the connection it belongs to,
    otherwise to the socket bound to its local address, otherwise to
    [tcp_rx_closed] for a TCP packet. *)
Theorem trans_refines_map os :
  calls_ok os trans_init = true ->
  let '(l, s) := trans_run os trans_init in exists m, map_run ∅ os l m /\ stands s m.
Proof. apply (trans_run_spec os trans_init ∅ stands_init). Qed.
End Refinement.

Definition demo_calls : list call :=
  [ Bind (trans_init_3tuple 1 IPPROTO_TCP (NetAddr 10 80));
    Bind (trans_init_3tuple 2 IPPROTO_TCP (NetAddr 10 80));
    Bind (trans_init_5tuple 3 IPPROTO_TCP (NetAddr 10 80) (NetAddr 20 5000));
    BindEphemeral (trans_init_3tuple 4 IPPROTO_UDP (NetAddr 10 0));
    Receive (L4Packet IPPROTO_TCP 20 10 5000 80 20); Receive (L4Packet IPPROTO_TCP 21 10 5000 80 20);
    Unbind 1; Receive (L4Packet IPPROTO_TCP 21 10 5000 80 20);
    Error (L4Packet IPPROTO_TCP 10 20 80 5000 20) ].
Definition demo_run := trans_run (fun a b => Z.lxor a b) 7 (fun _ => true) demo_calls trans_init.
Lemma trans_refines_map_witness :
  fst demo_run =
    [Returned 0; Returned (- EADDRINUSE); Returned 0; Chosen 0 49167; Received (Some 3%nat) false;
     Received (Some 1%nat) false; Unbound; Received None true; Told (Some 3%nat)] /\
  exists m, map_run (fun _ => true) ∅ demo_calls (fst demo_run) m /\ stands (fun a b => Z.lxor a b) 7 (snd demo_run) m.
Proof.
  split; [vm_compute; reflexivity|].
  apply (trans_refines_map (fun a b => Z.lxor a b) 7 (fun _ => true) demo_calls). vm_compute. reflexivity.
Defined.
