(* ===== verification/TcpOpen.v ===== *)
(** * tcp: opening connections

    Models the parts of [runtime/net/tcp.c] and [runtime/net/tcp_in.c] that
    create connections: attaching to the transport layer (Transport), dialling,
    listen queues and [tcp_accept], and the handlers of packets for a listener
    and for no socket.  What a call does outside the connection is as in [Tcp];
    an object is named by the number of its transport entry. *)

From S2P Require Import Prelude StdDef Transport Tcp TcpOut TcpIn TcpRx TcpFsm TcpConn TcpStream TcpTx TcpOpts.

(** ** The stack *)

(** The transport table, the list of all connections and whether the timeout
    worker is parked. *)
Record tcp_stack := TcpStack { table : trans; tcp_conns : list nat; tcp_worker_th : bool }.
#[global] Instance eta_tcp_stack : Settable tcp_stack := fun r => TcpStack (table r) (tcp_conns r) (tcp_worker_th r).

Section Open.
Context (crc32 : Z -> Z -> Z) (trans_seed : Z).
(** [netcfg.addr] and [net_get_mtu()]. *)
Context (my_addr mtu : Z).

(** Adding an entry, with an ephemeral port if the local port is zero. *)
Definition bind_entry (e : trans_entry) (s : tcp_stack) : Z * trans_entry * tcp_stack :=
  if port (e_laddr e) =? 0 then
    let '(r, e, t) := trans_table_add_with_ephemeral_port crc32 trans_seed e (table s) in (r, e, s <| table := t |>)
  else let '(r, t) := trans_table_add crc32 trans_seed e (table s) in (r, e, s <| table := t |>).

(** [tcp_conn_attach]; the connection's [attach_ts] is set by the callers below. *)
Definition tcp_conn_attach (id : nat) (laddr raddr : netaddr) (s : tcp_stack) : Z * trans_entry * tcp_stack :=
  let e := trans_init_5tuple id IPPROTO_TCP (NetAddr my_addr (port laddr)) raddr in
  if negb (ip laddr =? 0) && negb (ip laddr =? my_addr) then (- EINVAL, e, s)
  else
    let '(r, e, s) := bind_entry e s in
    if negb (r =? 0) then (r, e, s)
    else (0, e, s <| tcp_conns := tcp_conns s ++ [id] |> <| tcp_worker_th := false |>).

(** [tcp_conn_destroy]: the entry leaves the table at once; the memory and the
    place in the list of connections go after the RCU period ([tcp_conn_release]). *)
Definition tcp_conn_destroy (id : nat) (s : tcp_stack) : tcp_stack := s <| table := trans_table_remove id (table s) |>.
Definition tcp_conn_release (id : nat) (s : tcp_stack) : tcp_stack :=
  s <| tcp_conns := filter (fun i => i <> id) (tcp_conns s) |>.

(** ** Packets for a listener *)

(** The options a connection offers. *)
Definition own_options (en : Z) (c : tcpconn) : tcp_options := TcpOptions en (rcv_mss (pcb c)) (rcv_wscale (pcb c)).

(** The new connection of a valid SYN, before it is attached. *)
Definition accept_syn (isn seq : Z) (optp : Z -> Z) (optlen : Z) : option (Z * tcpconn) :=
  let c := tcp_conn_alloc isn mtu in
  let c := c <| pcb := pcb c <| irs := seq |> <| rcv_nxt := u32 (seq + 1) |> |> in
  '(en, c, _) ← tcp_parse_options optp optlen c; Some (en, c).

(** [tcp_rx_listener], from the parsed header on: [buf] is the packet after the
    fixed part of the header, [mem_ok] whether a connection can be allocated.
    [None] is a failed assertion or a loop that does not end. *)
Definition tcp_rx_listener (E : env) (mem_ok : bool) (id : nat) (isn : Z) (laddr raddr : netaddr) (h : tcp_hdr)
    (ip_len : Z) (buf : list Z) (beyond : Z -> Z) (s : tcp_stack) : option (option tcpconn * list effect * tcp_stack) :=
  if has (h_flags h) TCP_RST then Some (None, [], s)
  else if has (h_flags h) TCP_ACK then
    '(_, _, e) ← tcp_tx_raw_rst E 0 (h_ack h) (tcp_conn_alloc isn mtu); Some (None, e, s)
  else if negb (has (h_flags h) TCP_SYN) then Some (None, [], s)
  else
    let hdr_len := h_off h * 4 in
    if negb (ip_len - 20 =? hdr_len) then Some (None, [], s)
    else
      let optlen := hdr_len - 20 in
      if (optlen <? 0) || (optlen >? Z.of_nat (length buf)) then Some (None, [], s)
      else if negb mem_ok then Some (None, [], s)
      else
        '(en, c) ← accept_syn isn (h_seq h) (mem_of buf beyond) optlen;
        let opts := own_options en c in
        let '(r, _, s) := tcp_conn_attach id laddr raddr s in
        if negb (r =? 0) then Some (None, [], s)
        else
          let c := c <| time_wait_ts := microtime E |> in
          '(r, c, e) ← tcp_tx_ctl E 0 (Z.lor TCP_SYN TCP_ACK) (Some opts) c;
          if negb (r =? 0) then Some (None, e ++ [Destroy], tcp_conn_destroy id s)
          else
            '(_, c, e') ← (tcp_conn_get ;;; tcp_conn_set_state E SYN_RECEIVED) c;
            Some (Some c, e ++ e', s).

(** [tcp_rx_closed]: a segment for no socket is answered with a reset. *)
Definition tcp_rx_closed (E : env) (h : tcp_hdr) (ip_len : Z) : M unit :=
  if has (h_flags h) TCP_RST then Tcp.ret ()
  else if has (h_flags h) TCP_ACK then tcp_tx_raw_rst E 0 (h_ack h)
  else tcp_tx_raw_rst_ack E 0 0 (u32 (h_seq h + u32 (ip_len - 20 - h_off h * 4))).

(** ** Dialling *)

(** What [__tcp_dial] has done when it returns or waits for the first time. *)
Inductive dialled :=
| DialFailed (r : Z)
| DialInProgress (e : trans_entry) (c : tcpconn)   (* returned [-EINPROGRESS] *)
| Dialled (e : trans_entry) (c : tcpconn).         (* about to wait *)

Definition tcp_dial_start (E : env) (mem_ok : bool) (id : nat) (isn : Z) (laddr raddr : netaddr) (nonblock : bool)
    (s : tcp_stack) : option (dialled * list effect * tcp_stack) :=
  if negb mem_ok then Some (DialFailed (- ENOMEM), [], s)
  else
    let c := tcp_conn_alloc isn mtu <| nonblocking := nonblock |> in
    let raddr := if ip raddr =? 2130706433 then raddr <| ip := my_addr |> else raddr in
    let '(r, e, s) := tcp_conn_attach id laddr raddr s in
    if negb (r =? 0) then Some (DialFailed r, [], s)
    else
      let c := c <| time_wait_ts := microtime E |> in
      let opts := own_options (Z.lor TCP_OPTION_MSS TCP_OPTION_WSCALE) c in
      '(r, c, ef) ← tcp_tx_ctl E 0 TCP_SYN (Some opts) c;
      if negb (r =? 0) then Some (DialFailed r, ef ++ [Destroy], tcp_conn_destroy id s)
      else
        '(_, c, ef') ← (tcp_conn_get ;;; tcp_conn_set_state E SYN_SENT) c;
        Some ((if nonblock then DialInProgress e c else Dialled e c), ef ++ ef', s).

(** The rest of [__tcp_dial], to which thread [t] returns when it is woken: it
    waits again, fails (and destroys the connection), or succeeds. *)
Definition tcp_dial_wait (t : tid) : M (outcome Z) :=
  let! c := get in
  if negb (tx_closed c) && st_lt (state (pcb c)) ESTABLISHED
  then modify (fun c => c <| tx_wq := tx_wq c ++ [t] |>) ;;; Tcp.ret Blocked
  else if tx_closed c then emit [Destroy] ;;; Tcp.ret (Done (- err c))
  else Tcp.ret (Done 0).
End Open.

(** ** The handshake *)

(** A packet as the receiver parses it. *)
Definition wire_hdr (p : pkt) : tcp_hdr :=
  TcpHdr (p_seq p) (p_ack p) (5 + Z.of_nat (length (p_opts p)) / 4) (p_flags p) (p_win p).
Definition wire_buf (p : pkt) : list Z := p_opts p ++ p_data p.
Definition wire_len (p : pkt) : Z := 40 + Z.of_nat (length (wire_buf p)).

(** Options of this stack: both of them, with a scale of one. *)
Definition syn_opts (mtu : Z) : list Z := tcp_push_options (TcpOptions 3 (tcp_calculate_mss mtu) 1).
Definition syn_pkt (isn mtu : Z) : pkt := Pkt TCP_SYN isn 0 65535 (syn_opts mtu) [] 0.
Definition syn_ack_pkt (isn peer mtu : Z) : pkt := Pkt (Z.lor TCP_SYN TCP_ACK) isn (u32 (peer + 1)) 65535 (syn_opts mtu) [] 0.
Definition ack_pkt (isn peer : Z) : pkt := Pkt TCP_ACK (u32 (isn + 1)) (u32 (peer + 1)) 65535 [] [] 0.

(** A connection whose SYN is in flight. *)
Record opening (c : tcpconn) (st : tcp_state) (isn mtu : Z) (b : mbuf) : Prop := {
  op_state : state (pcb c) = st;
  op_iss : iss (pcb c) = isn;
  op_nxt : snd_nxt (pcb c) = u32 (isn + 1);
  op_una : snd_una (pcb c) = isn;
  op_txq : txq c = [b];
  op_buf : seg_seq b = isn /\ seg_end b = u32 (isn + 1) /\ m_data b = [] /\ has (m_flags b) TCP_SYN = true;
  op_free : tx_exclusive c = false /\ tx_pending c = None /\ tx_wq c = [] /\ rep_acks c = 0;
  op_rx : rx_exclusive c = false /\ rxq c = [] /\ rxq_ooo c = [] /\ rxq_ooo_len c = 0;
  op_win : rcv_wnd (pcb c) = TCP_WIN /\ rcv_wscale (pcb c) = 1 /\ winmax c = TCP_WIN;
  op_mss : rcv_mss (pcb c) = tcp_calculate_mss mtu;
  op_open : rx_closed c = false /\ tx_closed c = false /\ err c = 0 /\ ref c = 2
}.

Section Handshake.
Context (crc32 : Z -> Z -> Z) (trans_seed : Z).
(** Packets are allocated and sent. *)
Context (E : env) (Halloc : forall i, alloc E i = true) (Htx : forall i, net_tx_ip E i = 0).

(** A control segment that is sent. *)
Definition ctl_sent (flags : Z) (o : tcp_options) (c : tcpconn) : tcpconn :=
  c <| tx_last_ack := rcv_nxt (pcb c) |> <| tx_last_win := rcv_wnd (pcb c) |>
    <| pcb := pcb c <| snd_nxt := u32 (snd_nxt (pcb c) + 1) |> |>
    <| txq := txq c ++ [Mbuf (snd_nxt (pcb c)) (u32 (snd_nxt (pcb c) + 1)) flags (tcp_push_options o) [] (microtime E) 2] |>.
Lemma tx_ctl_sends i flags o c :
  tcp_tx_ctl E i flags (Some o) c =
    Some (0, ctl_sent flags o c,
      [Tx (Pkt flags (snd_nxt (pcb c)) (rcv_nxt (pcb c)) (u16 (Z.shiftr (rcv_wnd (pcb c)) (rcv_wscale (pcb c)))) (tcp_push_options o) [] 0)]).
Proof. unfold tcp_tx_ctl, transmit. by rewrite Halloc, Htx. Qed.

(** Taking the reference of the state machine. *)
Definition started (st : tcp_state) (c : tcpconn) : tcpconn :=
  tcp_timer_update (microtime E) (c <| ref := atomic_inc (ref c) |> <| pcb := pcb c <| state := st |> |>).
Lemma start_state st c :
  state (pcb c) = CLOSED -> (tcp_conn_get ;;; tcp_conn_set_state E st) c = Some ((), started st c, []).
Proof.
  intros Hs. unfold tcp_conn_get, tcp_conn_set_state, Tcp.bind, modify, get, require, when, upd_pcb. simpl. by rewrite Hs.
Qed.

Lemma scale_is_one : tcp_scale_window TCP_WIN = 1.
Proof. vm_compute. reflexivity. Qed.
Lemma win_field : u16 (Z.shiftr TCP_WIN 1) = 65535.
Proof. vm_compute. reflexivity. Qed.

(** The connection of [__tcp_dial] and of [tcp_rx_listener] before its SYN. *)
Record unopened (c : tcpconn) (isn mtu : Z) : Prop := {
  un_pcb : state (pcb c) = CLOSED /\ iss (pcb c) = isn /\ snd_nxt (pcb c) = isn /\ snd_una (pcb c) = isn;
  un_tx : txq c = [] /\ tx_exclusive c = false /\ tx_pending c = None /\ tx_wq c = [] /\ rep_acks c = 0;
  un_rx : rx_exclusive c = false /\ rxq c = [] /\ rxq_ooo c = [] /\ rxq_ooo_len c = 0;
  un_win : rcv_wnd (pcb c) = TCP_WIN /\ rcv_wscale (pcb c) = 1 /\ winmax c = TCP_WIN;
  un_mss : rcv_mss (pcb c) = tcp_calculate_mss mtu;
  un_open : rx_closed c = false /\ tx_closed c = false /\ err c = 0 /\ ref c = 1
}.
Lemma alloc_unopened isn mtu : unopened (tcp_conn_alloc isn mtu) isn mtu.
Proof. unfold tcp_conn_alloc. rewrite scale_is_one. by split. Qed.

Lemma unopened_at c isn mtu t : unopened c isn mtu -> unopened (c <| time_wait_ts := t |>) isn mtu.
Proof. intros []. by split. Qed.
Lemma unopened_irs c isn mtu x y : unopened c isn mtu -> unopened (c <| pcb := pcb c <| irs := x |> <| rcv_nxt := y |> |>) isn mtu.
Proof. intros []. by split. Qed.
Lemma unopened_nonblock c isn mtu b : unopened c isn mtu -> unopened (c <| nonblocking := b |>) isn mtu.
Proof. intros []. by split. Qed.

(** Its SYN, and the state machine started. *)
Lemma unopened_opens c isn mtu flags o st :
  unopened c isn mtu -> has flags TCP_SYN = true -> exists b, opening (started st (ctl_sent flags o c)) st isn mtu b.
Proof.
  intros [(P1 & P2 & P3 & P4) (T1 & T2 & T3 & T4 & T5) R W M (O1 & O2 & O3 & O4)] Hf. eexists. split; simpl; try done.
  - by rewrite P3.
  - by rewrite T1.
  - simpl. by rewrite P3.
  - by rewrite O4.
Qed.

(** [raddr] with the loopback address replaced. *)
Definition no_loopback (addr : Z) (raddr : netaddr) : netaddr :=
  if ip raddr =? 2130706433 then raddr <| ip := addr |> else raddr.

Lemma dial_sends addr mtu id isn laddr raddr s r e s' :
  tcp_conn_attach crc32 trans_seed addr id laddr (no_loopback addr raddr) s = (r, e, s') -> r = 0 ->
  exists c b, tcp_dial_start crc32 trans_seed addr mtu E true id isn laddr raddr false s =
    Some (Dialled e c, [Tx (syn_pkt isn mtu)], s') /\ opening c SYN_SENT isn mtu b /\ snd_wscale (pcb c) = 0.
Proof.
  unfold no_loopback. intros Ha ->. unfold tcp_dial_start. simpl negb. cbv iota zeta. rewrite Ha. simpl negb. cbv iota.
  set (c := _ <| time_wait_ts := _ |>). assert (unopened c isn mtu) as Hc by apply unopened_at, unopened_nonblock, alloc_unopened.
  rewrite tx_ctl_sends. cbn [mbind option_bind]. simpl negb. cbv iota.
  rewrite start_state by apply Hc. cbn [mbind option_bind].
  destruct (unopened_opens c isn mtu TCP_SYN (own_options (Z.lor TCP_OPTION_MSS TCP_OPTION_WSCALE) c) SYN_SENT Hc eq_refl) as [b Hb].
  eexists _, b. split; [|split; [exact Hb|done]]. unfold syn_pkt, syn_opts, own_options.
  destruct Hc as [(_ & _ & -> & _) _ _ (-> & -> & _) -> _]. rewrite win_field. done.
Qed.

(** Parsing the options of a peer's SYN. *)
Definition peer_options (mtu : Z) (c : tcpconn) : tcpconn := apply_options 3 (tcp_calculate_mss mtu) 1 c.
Lemma parse_syn_opts mtu beyond c :
  0 <= tcp_calculate_mss mtu < 2 ^ 16 ->
  tcp_parse_options (mem_of (syn_opts mtu) beyond) 8 c = Some (3, peer_options mtu c, []).
Proof.
  intros Hm. unfold tcp_parse_options, Tcp.bind, lift.
  assert (parse_loop 9 (mem_of (syn_opts mtu) beyond) 0 8 0 0 0 = Some (3, tcp_calculate_mss mtu, 1)) as H
    by (apply (parse_pushed (TcpOptions 3 (tcp_calculate_mss mtu) 1)); cbn [opt_en mss wscale]; lia).
  change (S (Z.to_nat 8)) with 9%nat. rewrite H. done.
Qed.
Lemma peer_options_unopened c isn mtu mtu' : unopened c isn mtu -> unopened (peer_options mtu' c) isn mtu.
Proof. intros [(? & ? & ? & ?) (? & ? & ? & ? & ?) (? & ? & ? & ?) (? & ? & ?) ? (? & ? & ? & ?)]. by split. Qed.

Lemma peer_options_pcb mtu c :
  rcv_nxt (pcb (peer_options mtu c)) = rcv_nxt (pcb c) /\
  snd_mss (pcb (peer_options mtu c)) = MIN (MAX (tcp_calculate_mss mtu) TCP_MIN_MSS) (rcv_mss (pcb c)) /\
  snd_wscale (pcb (peer_options mtu c)) = 1.
Proof. done. Qed.

Lemma listener_answers addr mtu id isn peer mtu' laddr raddr beyond s (p := syn_pkt peer mtu') :
  0 <= tcp_calculate_mss mtu' < 2 ^ 16 -> fst (fst (tcp_conn_attach crc32 trans_seed addr id laddr raddr s)) = 0 ->
  exists c s' b, tcp_rx_listener crc32 trans_seed addr mtu E true id isn laddr raddr (wire_hdr p) (wire_len p) (wire_buf p) beyond s =
    Some (Some c, [Tx (syn_ack_pkt isn peer mtu)], s') /\ opening c SYN_RECEIVED isn mtu b /\ rcv_nxt (pcb c) = u32 (peer + 1) /\
    snd_mss (pcb c) = MIN (MAX (tcp_calculate_mss mtu') TCP_MIN_MSS) (tcp_calculate_mss mtu) /\ snd_wscale (pcb c) = 1.
Proof.
  intros Hm Ha. unfold tcp_rx_listener.
  change (has (h_flags (wire_hdr p)) TCP_RST) with false. change (has (h_flags (wire_hdr p)) TCP_ACK) with false.
  change (has (h_flags (wire_hdr p)) TCP_SYN) with true. simpl negb. cbv iota zeta.
  change (wire_len p - 20 =? h_off (wire_hdr p) * 4) with true. change (h_off (wire_hdr p) * 4 - 20) with 8.
  assert (wire_buf p = syn_opts mtu') as -> by (unfold wire_buf; by rewrite app_nil_r).
  change ((8 <? 0) || (8 >? Z.of_nat (length (syn_opts mtu')))) with false. simpl negb. cbv iota.
  unfold accept_syn. set (c0 := _ <| pcb := _ |>). rewrite parse_syn_opts by done. cbn [mbind option_bind].
  assert (unopened c0 isn mtu) as H0 by apply unopened_irs, alloc_unopened.
  assert (rcv_nxt (pcb c0) = u32 (peer + 1)) as Hr by done. clearbody c0.
  pose proof (peer_options_unopened c0 isn mtu mtu' H0) as H1. destruct (peer_options_pcb mtu' c0) as (Q1 & Q2 & Q3).
  set (c1 := peer_options mtu' c0) in *. clearbody c1.
  destruct (tcp_conn_attach _ _ _ _ _ _ _) as [[r e] s1]. simpl in Ha. subst r. simpl negb. cbv iota.
  pose proof (unopened_at c1 isn mtu (microtime E) H1) as Hc.
  rewrite tx_ctl_sends. cbn [mbind option_bind]. simpl negb. cbv iota.
  rewrite start_state by apply Hc. cbn [mbind option_bind].
  destruct (unopened_opens _ isn mtu (Z.lor TCP_SYN TCP_ACK) (own_options 3 c1) SYN_RECEIVED Hc eq_refl) as [b Hb].
  eexists _, s1, b. split; [|split_and!; [exact Hb|simpl; congruence| |exact Q3]].
  - unfold syn_ack_pkt, syn_opts, own_options. destruct H1 as [(_ & _ & H1 & _) _ _ (H2 & H3 & _) H4 _]. simpl.
    rewrite Q1, Hr, H1, H2, H3, H4, win_field. done.
  - simpl. rewrite Q2. destruct H0 as [_ _ _ _ -> _]. done.
Qed.

(** An established connection that has sent and received nothing yet. *)
Record opened (c : tcpconn) (isn peer mss wnd : Z) : Prop := {
  od_state : state (pcb c) = ESTABLISHED;
  od_snd : snd_nxt (pcb c) = u32 (isn + 1) /\ snd_una (pcb c) = u32 (isn + 1) /\ snd_mss (pcb c) = mss /\ snd_wnd (pcb c) = wnd;
  od_rcv : rcv_nxt (pcb c) = u32 (peer + 1) /\ rcv_wnd (pcb c) = TCP_WIN /\ snd_wscale (pcb c) = 1;
  od_tx : txq c = [] /\ tx_pending c = None;
  od_rx : rx_exclusive c = false /\ rxq c = [] /\ rxq_ooo c = [] /\ rxq_ooo_len c = 0;
  od_open : rx_closed c = false /\ tx_closed c = false /\ ref c = 2 /\ rcv_wscale (pcb c) = 1
}.

Lemma syn_acked isn b : 0 <= isn < 2 ^ 32 -> seg_end b = u32 (isn + 1) -> acked (u32 (isn + 1)) [b] = ([b], []).
Proof. intros Hi Hb. simpl. rewrite Hb, gt_counters by lia. by rewrite Z.gtb_ltb, Z.ltb_irrefl. Qed.

Lemma tx_ack_sends i c :
  tcp_tx_ack E i c = Some ((), c <| tx_last_ack := rcv_nxt (pcb c) |> <| tx_last_win := rcv_wnd (pcb c) |>,
    [Tx (Pkt TCP_ACK (snd_nxt (pcb c)) (rcv_nxt (pcb c)) (u16 (Z.shiftr (rcv_wnd (pcb c)) (rcv_wscale (pcb c)))) [] [] 0)]).
Proof. unfold tcp_tx_ack, transmit. by rewrite Halloc, Htx. Qed.

Lemma syn_sent_answered c isn mtu peer mtu' b beyond m :
  opening c SYN_SENT isn mtu b -> 0 <= isn < 2 ^ 32 -> 0 <= tcp_calculate_mss mtu' < 2 ^ 16 ->
  seg_seq m = peer -> m_flags m = Z.lor TCP_SYN TCP_ACK ->
  wp (rx_syn_sent E m (u32 (isn + 1)) (snd_nxt (pcb c)) 65535 (mem_of (syn_opts mtu') beyond) 8)
    (fun v c' e => v = Verdict true true [] None [b] None /\ e = [] /\
      opened c' isn peer (MIN (MAX (tcp_calculate_mss mtu') TCP_MIN_MSS) (tcp_calculate_mss mtu)) 65535) c.
Proof.
  intros [Hst Hi Hn Hu Htq (_ & Hend & _) (Hx & Hpend & Hwq & _) Hrx (Hw & Hws & _) Hmss (Ho1 & Ho2 & _ & Ho4)] Hisn Hm Hseq Hfl.
  unfold rx_syn_sent. do 2 wp_step.
  rewrite Hfl, Hseq, Hn, Hi. change (has (Z.lor TCP_SYN TCP_ACK) TCP_ACK) with true.
  change (has (Z.lor TCP_SYN TCP_ACK) TCP_RST) with false. change (has (Z.lor TCP_SYN TCP_ACK) TCP_SYN) with true.
  assert (wraps_lte (u32 (isn + 1)) isn = false /\ wraps_gt (u32 (isn + 1)) isn = true /\
    wraps_gt (u32 (isn + 1)) (u32 (isn + 1)) = false) as (W1 & W2 & W3).
  { rewrite <- (u32_small isn) at 2 4 by done. rewrite lte_counters, !gt_counters by lia. split_and!; lia. }
  rewrite W1, W3. simpl negb. cbn [andb orb]. do 3 wp_step.
  unfold wp at 1. rewrite parse_syn_opts by done. set (c1 := peer_options _ _). do 4 wp_step. wp_step.
  unfold tcp_conn_ack. do 2 wp_step. name_conn c2.
  assert (tx_exclusive c2 = false /\ txq c2 = [b] /\ snd_una (pcb c2) = u32 (isn + 1)) as (-> & -> & ->) by done.
  rewrite syn_acked by done. do 4 wp_step. name_conn c3. wp_step.
  assert (snd_una (pcb c3) = u32 (isn + 1) /\ iss (pcb c3) = isn) as (-> & ->) by done. rewrite W2. do 3 wp_step.
  unfold tcp_conn_set_state. name_conn c4.
  assert (state (pcb c4) = SYN_SENT /\ tx_wq c4 = []) as [F1 F2] by done. do 2 wp_step. rewrite F1. wp_step.
  apply wp_require; [done|]. wp_step. apply wp_when; [intros _|done]. unfold release_tx_wq. do 4 wp_step. rewrite F2.
  wp_steps. split; [done|]. split; [done|]. rewrite <- Hmss. clear -Hn Hpend Hrx Hw Hws Ho1 Ho2 Ho4. split; split_and?; (done || apply Hrx).
Qed.

Lemma opened_same c c' isn peer mss wnd :
  opened c isn peer mss wnd -> pcb c' = pcb c -> txq c' = txq c -> tx_pending c' = tx_pending c ->
  rxv c' = rxv c -> rx_closed c' = rx_closed c -> tx_closed c' = tx_closed c -> ref c' = ref c -> opened c' isn peer mss wnd.
Proof.
  intros [] E1 E2 E3 E4 E5 E6 E7. unfold rxv in E4. injection E4 as _ _ F1 F2 F3 F4.
  split; rewrite ?E1, ?E2, ?E3, ?E5, ?E6, ?E7, ?F1, ?F2, ?F3, ?F4; done.
Qed.

(** Everything after the verdict, for a segment that is acknowledged at once. *)
Lemma done_acks m q c isn peer mss wnd :
  opened c isn peer mss wnd ->
  wp (rx_done E m (Verdict true true [] None q None))
    (fun _ c' e => e = frees q ++ [Tx (ack_pkt isn peer); Free m] /\ opened c' isn peer mss wnd) c.
Proof.
  intros Ho. unfold rx_done. wp_steps. apply wp_when; [intros _|done]. wp_steps. cbn [tcp_tx_fast_retransmit_finish TcpIn.retransmit].
  wp_steps. apply wp_when; [intros _|done]. name_conn c1.
  assert (opened c1 isn peer mss wnd) as H1 by by apply (opened_same c).
  unfold wp at 1. rewrite tx_ack_sends. apply wp_when; [intros _|done]. wp_step. split.
  - destruct H1 as [_ (-> & _) (-> & -> & _) _ _ (_ & _ & _ & ->)]. rewrite win_field. simpl. done.
  - by apply (opened_same c1).
Qed.

(** The client's side of the handshake. *)
Lemma client_opens c isn mtu peer mtu' b beyond (p := syn_ack_pkt peer isn mtu') :
  opening c SYN_SENT isn mtu b -> snd_wscale (pcb c) = 0 -> 0 <= isn < 2 ^ 32 -> 0 <= tcp_calculate_mss mtu' < 2 ^ 16 ->
  exists c' m, tcp_rx_conn E (wire_hdr p) (wire_len p) (wire_buf p) beyond (snd_nxt (pcb c)) c =
    Some ((), c', [Free b; Tx (ack_pkt isn peer); Free m]) /\
    opened c' isn peer (MIN (MAX (tcp_calculate_mss mtu') TCP_MIN_MSS) (tcp_calculate_mss mtu)) 65535.
Proof.
  intros Hc Hws Hisn Hm.
  set (m := Mbuf peer (u32 (peer + 0)) (Z.lor TCP_SYN TCP_ACK) [] [] 0 1).
  enough (wp (tcp_rx_conn E (wire_hdr p) (wire_len p) (wire_buf p) beyond (snd_nxt (pcb c))) (fun _ c' e =>
    e = [Free b; Tx (ack_pkt isn peer); Free m] /\
    opened c' isn peer (MIN (MAX (tcp_calculate_mss mtu') TCP_MIN_MSS) (tcp_calculate_mss mtu)) 65535) c) as H.
  { destruct (wp_run _ _ _ H) as ([] & c' & e & E1 & -> & Ho). eauto. }
  unfold tcp_rx_conn. do 2 wp_step. rewrite Hws, (op_mss _ _ _ _ _ Hc).
  change (u32 (Z.shiftl (h_win (wire_hdr p)) 0)) with 65535. change (h_off (wire_hdr p) * 4) with 28.
  change (u32 (wire_len p - 20 - 28)) with 0. change (28 - 20) with 8. change (28 <? 20) with false.
  assert ((0 >? tcp_calculate_mss mtu) = false) as ->.
  { rewrite Z.gtb_ltb. apply Z.ltb_ge. by apply Z.mod_pos_bound. }
  assert (wire_buf p = syn_opts mtu') as -> by (unfold wire_buf; by rewrite app_nil_r).
  change (0 >? Z.of_nat (length (syn_opts mtu'))) with false. cbn [orb]. wp_step.
  eapply wp_lift; [reflexivity|]. unfold TcpIn.needs_slow_path. change (0 =? 0) with true. rewrite orb_true_r. cbn [orb].
  unfold tcp_rx_conn_slow. wp_step. unfold rx_body. do 2 wp_step. rewrite (op_state _ _ _ _ _ Hc). simpl st_eqb. cbv iota.
  eapply wp_mono; [by apply (syn_sent_answered c isn mtu peer mtu' b beyond)|].
  intros v c1 e1 (-> & -> & Ho). eapply wp_mono; [by apply done_acks|]. intros [] c2 e2 (-> & Ho2). done.
Qed.

(** The server's side: the acknowledgement of its SYN. *)
Lemma ack_establishes c isn mtu peer b m :
  opening c SYN_RECEIVED isn mtu b -> rcv_nxt (pcb c) = u32 (peer + 1) -> snd_wscale (pcb c) = 1 ->
  0 <= isn < 2 ^ 32 -> seg_seq m = u32 (peer + 1) -> seg_end m = seg_seq m -> m_flags m = TCP_ACK ->
  wp (rx_ack_and_text E m (u32 (isn + 1)) (snd_nxt (pcb c)) 131070)
    (fun v c' e => v = Verdict false true [] None [b] None /\ e = [] /\
      opened c' isn peer (snd_mss (pcb c)) 131070) c.
Proof.
  intros [Hst Hi Hn Hu Htq (_ & Hend & _) (Hx & Hpend & Hwq & _) Hrx (Hw & Hws & _) Hmss (Ho1 & Ho2 & _ & Ho4)] Hr Hsw Hisn Hseq Hse Hfl.
  assert (seg_len m = 0) as Hlen.
  { unfold seg_len. rewrite Hfl, Hse, Z.sub_diag. done. }
  assert (wraps_lte isn (u32 (isn + 1)) = true /\ wraps_lte (u32 (isn + 1)) (u32 (isn + 1)) = true /\
    wraps_lte (u32 (isn + 131070)) (u32 (isn + 1)) = false) as (W1 & W2 & W3).
  { rewrite <- (u32_small isn) at 1 by done. rewrite !lte_counters by lia. split_and!; lia. }
  assert ((isn =? u32 (isn + 1)) = false) as W4.
  { apply Z.eqb_neq. intros H. pose proof (u32_diff (isn + 1) isn ltac:(lia)) as Hd.
    rewrite (u32_small isn), <- H, Z.sub_diag in Hd by done. change (u32 0) with 0 in Hd. lia. }
  unfold rx_ack_and_text. do 2 wp_step. rewrite Hlen, Hst, Hu, Hn, W1, W2. change (st_eqb SYN_RECEIVED SYN_RECEIVED) with true. cbn [andb negb]. wp_step.
  apply wp_when; [intros _|done]. do 2 wp_step. unfold tcp_conn_set_state. name_conn c1.
  assert (state (pcb c1) = SYN_RECEIVED /\ tx_wq c1 = []) as [F1 F2] by done. do 2 wp_step. rewrite F1. wp_step.
  apply wp_require; [done|]. wp_step. apply wp_when; [intros _|done]. unfold release_tx_wq. do 4 wp_step. rewrite F2.
  wp_steps. name_conn c2.
  assert (snd_una (pcb c2) = isn /\ snd_nxt (pcb c2) = u32 (isn + 1) /\ snd_wnd (pcb c2) = 131070 /\ snd_wl1 (pcb c2) = seg_seq m /\
    snd_wl2 (pcb c2) = u32 (isn + 1) /\ snd_mss (pcb c2) = snd_mss (pcb c) /\ snd_wscale (pcb c2) = 1 /\ state (pcb c2) = ESTABLISHED)
    as (K4 & K3 & G3 & G4 & G5 & G6 & G7 & G8) by done.
  assert (rcv_nxt (pcb c2) = u32 (peer + 1) /\ rcv_wnd (pcb c2) = TCP_WIN /\ rcv_wscale (pcb c2) = 1 /\ txq c2 = [b] /\ tx_exclusive c2 = false /\
    tx_pending c2 = None /\ rx_exclusive c2 = rx_exclusive c /\ rxq c2 = rxq c /\ rxq_ooo c2 = rxq_ooo c /\ rxq_ooo_len c2 = rxq_ooo_len c /\
    rx_closed c2 = false /\ tx_closed c2 = false /\ ref c2 = 2) as (R1 & R2 & R3 & R4 & R5 & R6 & R7 & R8 & R9 & R10 & R11 & R12 & R13) by done.
  clearbody c2.
  assert (tcp_is_snd_full c2 = false) as Hfull by (unfold tcp_is_snd_full; by rewrite K4, K3, G3, W3).
  rewrite K4, W1, Hfull. cbn [andb negb]. wp_step. unfold rx_ack. do 2 wp_step. rewrite K4, W4. cbn [negb]. do 3 wp_step.
  unfold tcp_conn_ack. do 3 wp_step. name_conn c3.
  assert (tx_exclusive c3 = false /\ txq c3 = [b] /\ snd_una (pcb c3) = u32 (isn + 1)) as (-> & -> & ->) by done.
  rewrite syn_acked by done. do 5 wp_step. name_conn c4. wp_step.
  assert (snd_wl1 (pcb c4) = seg_seq m /\ snd_wl2 (pcb c4) = u32 (isn + 1)) as [-> ->] by done.
  rewrite Z.eqb_refl, W2, orb_true_r. cbn [andb negb orb]. do 3 wp_step. name_conn c5. do 4 wp_step.
  assert (snd_una (pcb c5) = u32 (isn + 1) /\ state (pcb c5) = ESTABLISHED) as [L1 L2] by done.
  unfold rx_dup_ack. do 3 wp_step. cbn [andb]. rewrite L1, Z.eqb_refl. do 3 wp_step. wp_step. unfold rx_fin_acked. do 2 wp_step. name_conn c6.
  assert (state (pcb c6) = ESTABLISHED) as -> by done. change (st_eqb ESTABLISHED FIN_WAIT1) with false. change (st_eqb ESTABLISHED CLOSING) with false. change (st_eqb ESTABLISHED LAST_ACK) with false. cbn [andb]. do 2 wp_step. unfold rx_segment_text. do 2 wp_step.
  change (0 >? 0) with false. cbn [andb]. do 2 wp_step. split; [done|]. split; [done|].
  destruct Hrx as (X1 & X2 & X3 & X4). rewrite X1 in R7. rewrite X2 in R8. rewrite X3 in R9. rewrite X4 in R10. by split.
Qed.

Lemma server_opens c isn mtu peer b beyond (p := ack_pkt peer isn) :
  opening c SYN_RECEIVED isn mtu b -> rcv_nxt (pcb c) = u32 (peer + 1) -> snd_wscale (pcb c) = 1 -> 0 <= isn < 2 ^ 32 ->
  exists c' m, tcp_rx_conn E (wire_hdr p) (wire_len p) (wire_buf p) beyond (snd_nxt (pcb c)) c = Some ((), c', [Free b; Free m]) /\
    opened c' isn peer (snd_mss (pcb c)) 131070.
Proof.
  intros Hc Hr Hsw Hisn.
  set (m := Mbuf (u32 (peer + 1)) (u32 (u32 (peer + 1) + 0)) TCP_ACK [] [] 0 1).
  enough (wp (tcp_rx_conn E (wire_hdr p) (wire_len p) (wire_buf p) beyond (snd_nxt (pcb c))) (fun _ c' e =>
    e = [Free b; Free m] /\ opened c' isn peer (snd_mss (pcb c)) 131070) c) as H.
  { destruct (wp_run _ _ _ H) as ([] & c' & e & E1 & -> & Ho). eauto. }
  assert (seg_end m = seg_seq m) as Hm by (simpl; by rewrite Z.add_0_r, u32_idem).
  unfold tcp_rx_conn. do 2 wp_step. rewrite Hsw, (op_mss _ _ _ _ _ Hc).
  change (u32 (Z.shiftl (h_win (wire_hdr p)) 1)) with 131070. change (h_off (wire_hdr p) * 4) with 20.
  change (u32 (wire_len p - 20 - 20)) with 0. change (20 - 20) with 0. change (20 <? 20) with false.
  assert ((0 >? tcp_calculate_mss mtu) = false) as ->.
  { rewrite Z.gtb_ltb. apply Z.ltb_ge. by apply Z.mod_pos_bound. }
  change (0 >? Z.of_nat (length (wire_buf p))) with false. cbn [orb]. wp_step.
  eapply wp_lift; [reflexivity|]. unfold TcpIn.needs_slow_path. change (0 =? 0) with true. rewrite orb_true_r. cbn [orb].
  change (Mbuf _ _ _ _ _ _ _ <| m_data := _ |>) with m.
  unfold tcp_rx_conn_slow. wp_step. unfold rx_body. do 2 wp_step. rewrite (op_state _ _ _ _ _ Hc).
  change (st_eqb SYN_RECEIVED CLOSED) with false. change (st_eqb SYN_RECEIVED SYN_SENT) with false. cbv iota.
  assert (seg_len m = 0) as Hlen. { unfold seg_len. rewrite Hm, Z.sub_diag. done. }
  assert (is_acceptable (pcb c) (seg_len m) (seg_seq m) = true) as ->.
  { unfold is_acceptable. destruct (op_win _ _ _ _ _ Hc) as (-> & _). rewrite Hlen, Hr.
    change (0 =? 0) with true. change (TCP_WIN =? 0) with false. change (TCP_WIN >? 0) with true. cbn [andb].
    rewrite u32_add_l. change (seg_seq m) with (u32 (peer + 1)). rewrite lte_counters, wraps_lt_counters by (unfold TCP_WIN; lia).
    unfold TCP_WIN. lia. }
  change (has (m_flags m) TCP_RST) with false. change (has (m_flags m) TCP_SYN) with false. change (has (m_flags m) TCP_ACK) with true.
  cbn [negb]. eapply wp_mono; [by apply (ack_establishes c isn mtu peer b m)|].
  intros v c1 e1 (-> & -> & Ho). unfold rx_done. wp_steps. apply wp_when; [done|intros _].
  wp_steps. cbn [tcp_tx_fast_retransmit_finish TcpIn.retransmit]. wp_steps. apply wp_when; [done|intros _]. apply wp_when; [intros _|done].
  wp_step. split; [done|]. by apply (opened_same c1).
Qed.

(** A dial and its listener, with their packets carried between them. *)
Definition sent_pkts (e : list effect) : list pkt := omap (fun x => match x with Tx p => Some p | _ => None end) e.
Record endpoint := Endpoint { ep_addr : Z; ep_mtu : Z; ep_id : nat; ep_isn : Z; ep_stack : tcp_stack }.

Definition handshake (cl sv : endpoint) (laddr raddr : netaddr) (beyond : Z -> Z) : option (tcpconn * tcpconn) :=
  '(d, e1, _) ← tcp_dial_start crc32 trans_seed (ep_addr cl) (ep_mtu cl) E true (ep_id cl) (ep_isn cl) laddr raddr false (ep_stack cl);
  match d, sent_pkts e1 with
  | Dialled e c, [p1] =>
      '(o, e2, _) ← tcp_rx_listener crc32 trans_seed (ep_addr sv) (ep_mtu sv) E true (ep_id sv) (ep_isn sv) (e_raddr e) (e_laddr e)
          (wire_hdr p1) (wire_len p1) (wire_buf p1) beyond (ep_stack sv);
      match o, sent_pkts e2 with
      | Some s, [p2] =>
          '(_, c, e3) ← tcp_rx_conn E (wire_hdr p2) (wire_len p2) (wire_buf p2) beyond (snd_nxt (pcb c)) c;
          match sent_pkts e3 with
          | [p3] =>
              '(_, s, _) ← tcp_rx_conn E (wire_hdr p3) (wire_len p3) (wire_buf p3) beyond (snd_nxt (pcb s)) s;
              Some (c, s)
          | _ => None
          end
      | _, _ => None
      end
  | _, _ => None
  end.

(** A connection that can be used: it meets the hypotheses of the theorems about
    receiving (TcpStream) and sending (TcpTx). *)
Definition ready (c : tcpconn) (isn peer mss : Z) : Prop :=
  state (pcb c) = ESTABLISHED /\
  (forall fin_pos, closed fin_pos (peer + 1) = false -> fresh fin_pos (peer + 1) c) /\
  (forall bytes, sending bytes mss c (isn + 1) (isn + 1) (isn + 1)).

Lemma opened_ready c isn peer mss wnd : opened c isn peer mss wnd -> ready c isn peer mss.
Proof.
  intros [Hs (S1 & S2 & S3 & S4) (R1 & R2 & R3) (T1 & T2) (X1 & X2 & X3 & X4) _]. split; [done|]. split.
  - intros fin_pos Hf. split; [by right|by unfold txok; rewrite T1|by unfold rxv; rewrite R1, X1, X2, X3, X4| |done].
    rewrite R2. unfold TCP_WIN, MAX_WND. lia.
  - intros bs. split; [by rewrite T1, T2|done|done|done|by rewrite T2].
Qed.
End Handshake.

(** C15: a dial and a listener that exchange their packets open a connection, for all
    initial sequence numbers (also next to the wrap-around) and all segment sizes from 88
    bytes ([TCP_MIN_MSS]) to less than [2^16] on both sides: both ends reach ESTABLISHED,
    each expects exactly the first byte the other will send, nothing stays queued, both
    have agreed on the smaller segment size, and both meet the hypotheses under which
    sending and receiving are proved correct. The peers' addresses must be free in their
    transport tables and packets must be allocated and sent. *)
Theorem tcp_handshake_opens crc32 seed E cl sv laddr raddr beyond (mss := Z.min (tcp_calculate_mss (ep_mtu cl)) (tcp_calculate_mss (ep_mtu sv))) :
  (forall i, alloc E i = true) -> (forall i, net_tx_ip E i = 0) ->
  0 <= ep_isn cl < 2 ^ 32 -> 0 <= ep_isn sv < 2 ^ 32 ->
  TCP_MIN_MSS <= tcp_calculate_mss (ep_mtu cl) < 2 ^ 16 -> TCP_MIN_MSS <= tcp_calculate_mss (ep_mtu sv) < 2 ^ 16 ->
  (let '(r, e, _) := tcp_conn_attach crc32 seed (ep_addr cl) (ep_id cl) laddr (no_loopback (ep_addr cl) raddr) (ep_stack cl) in
   r = 0 /\ fst (fst (tcp_conn_attach crc32 seed (ep_addr sv) (ep_id sv) (e_raddr e) (e_laddr e) (ep_stack sv))) = 0) ->
  exists c s, handshake crc32 seed E cl sv laddr raddr beyond = Some (c, s) /\
    ready c (ep_isn cl) (ep_isn sv) mss /\ ready s (ep_isn sv) (ep_isn cl) mss.
Proof.
  intros Ha Ht Hi1 Hi2 Hm1 Hm2 Hat. unfold TCP_MIN_MSS in *.
  destruct (tcp_conn_attach _ _ _ (ep_id cl) _ _ _) as [[r e] s0] eqn:Ec. destruct Hat as [Hr Has].
  destruct (dial_sends crc32 seed E Ha Ht _ (ep_mtu cl) _ (ep_isn cl) _ _ _ _ _ _ Ec Hr) as (c1 & b1 & E1 & O1 & W1).
  destruct (listener_answers crc32 seed E Ha Ht (ep_addr sv) (ep_mtu sv) (ep_id sv) (ep_isn sv) (ep_isn cl) (ep_mtu cl) (e_raddr e) (e_laddr e)
    beyond (ep_stack sv) ltac:(lia) Has) as (s1 & s' & b2 & E2 & O2 & R2 & M2 & W2).
  destruct (client_opens E Ha Ht c1 (ep_isn cl) (ep_mtu cl) (ep_isn sv) (ep_mtu sv) b1 beyond O1 W1 Hi1 ltac:(lia)) as (c2 & m2 & E3 & O3).
  destruct (server_opens E s1 (ep_isn sv) (ep_mtu sv) (ep_isn cl) b2 beyond O2 R2 W2 Hi2) as (s2 & m3 & E4 & O4).
  exists c2, s2. split.
  - unfold handshake. rewrite E1. cbn [mbind option_bind]. simpl sent_pkts. cbv iota. rewrite E2. cbn [mbind option_bind]. simpl sent_pkts. cbv iota.
    rewrite E3. cbn [mbind option_bind]. simpl sent_pkts. cbv iota. by rewrite E4.
  - split; [eapply opened_ready|eapply opened_ready].
    + replace mss with (MIN (MAX (tcp_calculate_mss (ep_mtu sv)) TCP_MIN_MSS) (tcp_calculate_mss (ep_mtu cl))); [exact O3|].
      rewrite MIN_min, MAX_max. unfold mss, TCP_MIN_MSS. lia.
    + replace mss with (snd_mss (pcb s1)); [exact O4|]. rewrite M2, MIN_min, MAX_max. unfold mss, TCP_MIN_MSS. lia.
Qed.

Definition demo_stack : tcp_stack := TcpStack trans_init [] true.
Definition demo_client : endpoint := Endpoint 10 1500 1 4294967295 demo_stack.
Definition demo_server : endpoint := Endpoint 20 9000 2 17 demo_stack.
Lemma tcp_handshake_opens_witness : exists c s,
  handshake (fun a b => Z.lxor a b) 7 demo_env demo_client demo_server (NetAddr 0 0) (NetAddr 20 80) (fun _ => 0) = Some (c, s) /\
  ready c 4294967295 17 1460 /\ ready s 17 4294967295 1460.
Proof.
  apply (tcp_handshake_opens (fun a b => Z.lxor a b) 7 demo_env demo_client demo_server (NetAddr 0 0) (NetAddr 20 80) (fun _ => 0));
    try reflexivity; try (simpl; lia); try (split; vm_compute; congruence).
Defined.
