(* ===== verification/TcpListen.v ===== *)
(** * tcp: listen queues

    Models the listen queues of [runtime/net/tcp.c]: [tcp_listen], the handler
    [tcp_queue_recv], [tcp_accept], [tcp_qshutdown], [tcp_qclose] and
    [tcpq_set_nonblocking], each section under the queue's lock being one step.
    The connection itself is made by [tcp_rx_listener] (TcpOpen). *)

From S2P Require Import Prelude StdDef Transport Tcp TcpOut TcpIn TcpOpen.

(** [struct tcpqueue]; connections are named by their transport entries. *)
Record tcpqueue := TcpQueue {
  q_e : trans_entry; q_wq : list tid; q_conns : list nat; q_backlog : Z; q_shutdown : bool; q_nonblocking : bool }.
#[global] Instance eta_tcpqueue : Settable tcpqueue := fun r =>
  TcpQueue (q_e r) (q_wq r) (q_conns r) (q_backlog r) (q_shutdown r) (q_nonblocking r).

Section Listen.
Context (crc32 : Z -> Z -> Z) (trans_seed my_addr : Z).

Definition tcp_listen (mem_ok : bool) (id : nat) (laddr : netaddr) (backlog : Z) (s : tcp_stack) : (Z + tcpqueue) * tcp_stack :=
  if backlog <? 1 then (inl (- EINVAL), s)
  else if negb ((ip laddr =? 0) || (ip laddr =? 2130706433)) && negb (ip laddr =? my_addr) then (inl (- EINVAL), s)
  else if negb mem_ok then (inl (- ENOMEM), s)
  else
    let '(r, e, s) := bind_entry crc32 trans_seed (trans_init_3tuple id IPPROTO_TCP (NetAddr my_addr (port laddr))) s in
    if negb (r =? 0) then (inl r, s) else (inr (TcpQueue e [] [] backlog false false), s).
End Listen.

(** [tcp_queue_recv]: a place is reserved, the connection is made without the
    lock, and it is queued, with at most one thread to wake; or the place is
    given back.  [wq_pop] is [waitq_signal], and one round of [waitq_release]. *)
Definition queue_reserve (q : tcpqueue) : bool * tcpqueue :=
  if (q_backlog q =? 0) || q_shutdown q then (false, q) else (true, q <| q_backlog := q_backlog q - 1 |>).
Definition queue_unreserve (q : tcpqueue) : tcpqueue := q <| q_backlog := q_backlog q + 1 |>.
Definition wq_pop (q : tcpqueue) : option tid * tcpqueue := match q_wq q with [] => (None, q) | t :: l => (Some t, q <| q_wq := l |>) end.
Definition queue_conn (id : nat) (q : tcpqueue) : option tid * tcpqueue := wq_pop (q <| q_conns := q_conns q ++ [id] |>).

(** [tcp_accept] by thread [t], from taking the lock to waiting or returning. *)
Definition tcp_accept (t : tid) (q : tcpqueue) : outcome (Z + nat) * tcpqueue :=
  match q_conns q with
  | [] =>
      if q_shutdown q then (Done (inl (- EPIPE)), q)
      else if q_nonblocking q then (Done (inl (- EAGAIN)), q)
      else (Blocked, q <| q_wq := q_wq q ++ [t] |>)
  | c :: l => (Done (inr c), q <| q_backlog := q_backlog q + 1 |> <| q_conns := l |>)
  end.

(** [tcp_queue_recv] as a whole, when no other call comes between its sections. *)
Definition tcp_queue_recv (crc32 : Z -> Z -> Z) (trans_seed my_addr mtu : Z) (E : env) (mem_ok : bool) (id : nat) (isn : Z)
    (raddr : netaddr) (h : tcp_hdr) (ip_len : Z) (buf : list Z) (beyond : Z -> Z) (q : tcpqueue) (s : tcp_stack) :
    option (option tcpconn * option tid * list effect * tcpqueue * tcp_stack) :=
  let '(ok, q) := queue_reserve q in
  if negb ok then Some (None, None, [], q, s)
  else
    '(c, e, s) ← tcp_rx_listener crc32 trans_seed my_addr mtu E mem_ok id isn (e_laddr (q_e q)) raddr h ip_len buf beyond s;
    match c with
    | None => Some (None, None, e, queue_unreserve q, s)
    | Some c => let '(t, q) := queue_conn id q in Some (Some c, t, e, q, s)
    end.

(** [__tcp_qshutdown], under the lock ([None] is its [BUG_ON]) and then on the
    table; and [waitq_release], which [tcp_qshutdown] calls after it. *)
Definition qshutdown_mark (q : tcpqueue) : option tcpqueue := if q_shutdown q then None else Some (q <| q_shutdown := true |>).
Definition qshutdown_begin (q : tcpqueue) (s : tcp_stack) : option (tcpqueue * tcp_stack) :=
  q ← qshutdown_mark q; Some (q, s <| table := trans_table_remove (e_id (q_e q)) (table s) |>).
Definition queue_release (q : tcpqueue) : list tid * tcpqueue := (q_wq q, q <| q_wq := [] |>).
Definition tcp_qshutdown (q : tcpqueue) (s : tcp_stack) : option (list tid * tcpqueue * tcp_stack) :=
  '(q, s) ← qshutdown_begin q s; let '(ts, q) := queue_release q in Some (ts, q, s).

Definition tcpq_set_nonblocking (b : bool) (q : tcpqueue) : list tid * tcpqueue :=
  let q := q <| q_nonblocking := b |> in if b then queue_release q else ([], q).

(** [tcp_qclose]: the connections nobody accepted are destroyed; [None] when
    threads still wait. *)
Definition tcp_qclose (q : tcpqueue) (s : tcp_stack) : option (list nat * tcpqueue * tcp_stack) :=
  '(q, s) ← (if q_shutdown q then Some (q, s) else qshutdown_begin q s);
  match q_wq q with
  | [] => Some (q_conns q, q <| q_conns := [] |>, foldl (fun s id => tcp_conn_destroy id s) s (q_conns q))
  | _ :: _ => None
  end.

(** ** Callers *)

(** The queue with the callers in the middle of a call: handlers that hold a
    place, threads that were woken and have not run yet; and, as history, the
    connections that arrived and those that were accepted. *)
Record listener := Listener { q : tcpqueue; reserved : nat; woken : list tid; arrived : list nat; accepted : list nat }.
#[global] Instance eta_listener : Settable listener := fun r =>
  Listener (q r) (reserved r) (woken r) (arrived r) (accepted r).

Inductive lcall :=
| Reserve | Unreserve | Arrive (id : nat)   (* tcp_queue_recv *)
| Accept (t : tid) | Resume (t : tid)       (* tcp_accept, and its return from waiting *)
| Shutdown | Release                        (* tcp_qshutdown: the mark, then one waiter at a time *)
| Nonblock (b : bool).

(** One step; [None] when it cannot happen. *)
Definition lstep (a : lcall) (s : listener) : option listener :=
  match a with
  | Reserve =>
      let '(ok, q') := queue_reserve (q s) in
      Some (if ok then s <| q := q' |> <| reserved := S (reserved s) |> else s)
  | Unreserve =>
      match reserved s with O => None | S n => Some (s <| q := queue_unreserve (q s) |> <| reserved := n |>) end
  | Arrive id =>
      match reserved s with
      | O => None
      | S n =>
          let '(t, q') := queue_conn id (q s) in
          Some (s <| q := q' |> <| reserved := n |> <| woken := woken s ++ option_list t |> <| arrived := arrived s ++ [id] |>)
      end
  | Accept t | Resume t =>
      let back := match a with Resume _ => true | _ => false end in
      if bool_decide (t ∈ q_wq (q s)) || negb (eqb (bool_decide (t ∈ woken s)) back) then None
      else
        let '(r, q') := tcp_accept t (q s) in
        Some (s <| q := q' |> <| woken := filter (fun u => u <> t) (woken s) |>
                <| accepted := accepted s ++ match r with Done (inr c) => [c] | _ => [] end |>)
  | Shutdown => q' ← qshutdown_mark (q s); Some (s <| q := q' |>)
  | Release =>
      if q_shutdown (q s) then
        let '(t, q') := wq_pop (q s) in Some (s <| q := q' |> <| woken := woken s ++ option_list t |>)
      else None
  | Nonblock b => let '(ts, q') := tcpq_set_nonblocking b (q s) in Some (s <| q := q' |> <| woken := woken s ++ ts |>)
  end.

Fixpoint lrun (l : list lcall) (s : listener) : option listener :=
  match l with [] => Some s | a :: l => s ← lstep a s; lrun l s end.

(** A queue with no calls in progress. *)
Definition listening (q : tcpqueue) : listener := Listener q 0 [] [] [].

(** ** Properties *)

Record linv (backlog : Z) (s : listener) : Prop := {
  l_places : q_backlog (q s) + Z.of_nat (length (q_conns (q s))) + Z.of_nat (reserved s) = backlog /\ 0 <= q_backlog (q s);
  l_fifo : accepted s ++ q_conns (q s) = arrived s;
  l_wake : q_wq (q s) <> [] -> (length (q_conns (q s)) <= length (woken s))%nat;
  l_threads : NoDup (q_wq (q s) ++ woken s)
}.

Lemma filter_not_in (t : tid) (l : list tid) : t ∉ l -> filter (fun u => u <> t) l = l.
Proof.
  induction l as [|a l IH]; [done|]. intros [H1 H2]%not_elem_of_cons. rewrite filter_cons_True by done. by rewrite IH.
Qed.
Lemma filter_in_length (t : tid) (l : list tid) : NoDup l -> t ∈ l -> length l = S (length (filter (fun u => u <> t) l)).
Proof.
  induction l as [|a l IH]; intros Hd Ht; [by apply not_elem_of_nil in Ht|]. apply NoDup_cons in Hd as [Ha Hd].
  apply elem_of_cons in Ht as [->|Ht].
  - rewrite filter_cons_False by (intros H; by apply H). by rewrite filter_not_in.
  - rewrite filter_cons_True by (intros ->; done). simpl. by rewrite <- IH.
Qed.

Lemma accept_inv backlog s t back q' r :
  linv backlog s -> t ∉ q_wq (q s) -> bool_decide (t ∈ woken s) = back -> tcp_accept t (q s) = (r, q') ->
  linv backlog (s <| q := q' |> <| woken := filter (fun u => u <> t) (woken s) |>
                  <| accepted := accepted s ++ match r with Done (inr c) => [c] | _ => [] end |>).
Proof.
  intros [[Hp Hb] Hf Hw Ht] Hn _ Hacc. unfold tcp_accept in Hacc.
  apply NoDup_app in Ht as (D1 & D2 & D3).
  assert (NoDup (filter (fun u => u <> t) (woken s))) as D4 by by apply NoDup_filter.
  destruct (q_conns (q s)) as [|c l] eqn:Ec; [destruct (q_shutdown (q s)); [|destruct (q_nonblocking (q s))]|];
    injection Hacc as <- <-; split; simpl; rewrite ?Ec, ?app_nil_r; simpl in *; try done; try lia.
  - rewrite app_nil_r in Hf. done.
  - apply NoDup_app. split_and!; [done| |done]. intros x Hx [_ ?]%list_elem_of_filter. by apply (D2 x).
  - rewrite app_nil_r in Hf. done.
  - apply NoDup_app. split_and!; [done| |done]. intros x Hx [_ ?]%list_elem_of_filter. by apply (D2 x).
  - rewrite app_nil_r in Hf. done.
  - rewrite <- app_assoc. apply NoDup_app. split_and!; [done| |].
    + intros x Hx [->|[_ ?]%list_elem_of_filter]%elem_of_cons; [done|by apply (D2 x)].
    + apply NoDup_cons. split; [|done]. by intros [? _]%list_elem_of_filter.
  - by rewrite <- app_assoc.
  - intros Hq. specialize (Hw Hq). destruct (decide (t ∈ woken s)) as [Hin|Hni].
    + rewrite (filter_in_length t (woken s) D3 Hin) in Hw. lia.
    + rewrite filter_not_in by done. lia.
  - apply NoDup_app. split_and!; [done| |done]. intros x Hx [_ ?]%list_elem_of_filter. by apply (D2 x).
Qed.

Lemma lstep_inv backlog a s s' : linv backlog s -> lstep a s = Some s' -> linv backlog s'.
Proof.
  intros Hs Hst. pose proof Hs as [[Hp Hb] Hf Hw Ht].
  destruct a as [| |id|t|t| | |b]; simpl in Hst.
  - unfold queue_reserve in Hst. destruct (_ || _) eqn:E; injection Hst as <-; [done|].
    apply orb_false_iff in E as [E%Z.eqb_neq _]. split; simpl; try done. lia.
  - destruct (reserved s) as [|n]; [done|]. injection Hst as <-. split; simpl; try done. lia.
  - destruct (reserved s) as [|n]; [done|]. unfold queue_conn in Hst. simpl in Hst.
    destruct (q_wq (q s)) as [|u l] eqn:Ew; injection Hst as <-; split; simpl; rewrite ?Ew, ?length_app, ?app_nil_r, ?app_assoc; simpl; try done; try lia.
    + by rewrite Hf.
    + by rewrite Hf.
    + intros _. specialize (Hw ltac:(done)). lia.
    + rewrite (Permutation_app_comm (l ++ woken s)). done.
  - destruct (_ || _) eqn:E; [done|]. apply orb_false_iff in E as [E1%bool_decide_eq_false E2].
    destruct (tcp_accept t (q s)) as [r q'] eqn:Ea. injection Hst as <-. by apply (accept_inv backlog s t (bool_decide (t ∈ woken s))).
  - destruct (_ || _) eqn:E; [done|]. apply orb_false_iff in E as [E1%bool_decide_eq_false E2].
    destruct (tcp_accept t (q s)) as [r q'] eqn:Ea. injection Hst as <-. by apply (accept_inv backlog s t (bool_decide (t ∈ woken s))).
  - unfold qshutdown_mark in Hst. destruct (q_shutdown (q s)); [done|]. injection Hst as <-. by split.
  - destruct (q_shutdown (q s)); [|done]. unfold wq_pop in Hst. destruct (q_wq (q s)) as [|u l] eqn:Ew; injection Hst as <-; split; simpl; rewrite ?Ew, ?length_app, ?app_nil_r, ?app_assoc; simpl; try done.
    + intros _. specialize (Hw ltac:(done)). lia.
    + rewrite (Permutation_app_comm (l ++ woken s)). done.
  - destruct b; injection Hst as <-; split; simpl; rewrite ?app_nil_r; try done. by rewrite Permutation_app_comm.
Qed.

Lemma lrun_inv backlog l s s' : linv backlog s -> lrun l s = Some s' -> linv backlog s'.
Proof.
  revert s. induction l as [|a l IH]; intros s Hs Hr; simpl in Hr; [by injection Hr as <-|].
  destruct (lstep a s) as [s1|] eqn:E; [|done]. simpl in Hr. apply (IH s1); [by apply (lstep_inv backlog a s)|done].
Qed.

(** After the mark no thread goes to sleep, and each step of [waitq_release] wakes one. *)
Definition releases (l : list lcall) : nat := sum_list_with (fun a => match a with Release => 1%nat | _ => 0%nat end) l.
Lemma lstep_marked a s s' : q_shutdown (q s) = true -> lstep a s = Some s' ->
  q_shutdown (q s') = true /\ (length (q_wq (q s')) <= length (q_wq (q s)) - releases [a])%nat.
Proof.
  intros H1 Hst. destruct a as [| |id|t|t| | |b]; unfold releases; simpl in *.
  - unfold queue_reserve in Hst. rewrite H1, orb_true_r in Hst. injection Hst as <-. split; [done|lia].
  - destruct (reserved s); [done|]. injection Hst as <-. split; [done|]. simpl. lia.
  - destruct (reserved s); [done|]. unfold queue_conn, wq_pop in Hst. simpl in Hst. destruct (q_wq (q s)) eqn:Ew; injection Hst as <-; simpl; rewrite ?Ew; simpl; split; done || lia.
  - destruct (_ || _); [done|]. unfold tcp_accept in Hst. rewrite H1 in Hst. destruct (q_conns (q s)); injection Hst as <-; simpl; split; done || lia.
  - destruct (_ || _); [done|]. unfold tcp_accept in Hst. rewrite H1 in Hst. destruct (q_conns (q s)); injection Hst as <-; simpl; split; done || lia.
  - unfold qshutdown_mark in Hst. by rewrite H1 in Hst.
  - rewrite H1 in Hst. unfold wq_pop in Hst. destruct (q_wq (q s)) eqn:Ew; injection Hst as <-; simpl; rewrite ?Ew; simpl; split; done || lia.
  - destruct b; injection Hst as <-; simpl; split; done || lia.
Qed.
Lemma lrun_marked l s s' : q_shutdown (q s) = true -> lrun l s = Some s' -> (length (q_wq (q s')) <= length (q_wq (q s)) - releases l)%nat.
Proof.
  revert s. induction l as [|a l IH]; intros s Hs Hr; simpl in Hr; [injection Hr as <-; unfold releases; simpl; lia|].
  destruct (lstep a s) as [s1|] eqn:E; [|done]. simpl in Hr. destruct (lstep_marked a s s1 Hs E) as [H1 H2]. specialize (IH s1 H1 Hr).
  unfold releases in *. simpl in *. lia.
Qed.

Lemma listen_fresh crc32 seed my_addr mem_ok id laddr backlog st st' q0 :
  tcp_listen crc32 seed my_addr mem_ok id laddr backlog st = (inr q0, st') ->
  exists e, q0 = TcpQueue e [] [] backlog false false /\ 1 <= backlog.
Proof.
  unfold tcp_listen. intros H. destruct (backlog <? 1) eqn:Eb; [done|]. destruct (_ && _); [done|].
  destruct mem_ok; [|done]. simpl in H. destruct (bind_entry _ _ _ _) as [[r e] s]. destruct (negb _); [done|].
  injection H as <- _. exists e. split; [done|lia].
Qed.

(** The handler is the steps of its sections: it ends with the place given back
    or with the connection queued. *)
Theorem queue_recv_runs crc32 seed my_addr mtu E mem_ok id isn raddr h ip_len buf beyond s st c t e q' st' :
  tcp_queue_recv crc32 seed my_addr mtu E mem_ok id isn raddr h ip_len buf beyond (q s) st = Some (c, t, e, q', st') ->
  exists l s', l = match c with
                   | Some _ => [Reserve; Arrive id]
                   | None => if (q_backlog (q s) =? 0) || q_shutdown (q s) then [Reserve] else [Reserve; Unreserve]
                   end /\
    lrun l s = Some s' /\ q s' = q' /\ reserved s' = reserved s /\
    arrived s' = arrived s ++ match c with Some _ => [id] | None => [] end.
Proof.
  unfold tcp_queue_recv. intros H. destruct (queue_reserve (q s)) as [ok q1] eqn:Er.
  pose proof Er as Er'. unfold queue_reserve in Er. destruct (_ || _) eqn:Eb; injection Er as <- <-; simpl in H.
  - injection H as <- <- <- <- <-. exists [Reserve], s. simpl. rewrite Er', app_nil_r. by rewrite ?Eb.
  - destruct (tcp_rx_listener _ _ _ _ _ _ _ _ _ _ _ _ _ _ _) as [[[[c1|] e1] st1]|]; [| |done]; cbn [mbind option_bind] in H.
    + destruct (queue_conn _ _) as [t1 q2] eqn:Eq. injection H as <- <- <- <- <-.
      eexists _, _. split; [done|]. simpl. rewrite Er'. simpl. rewrite Eq. done.
    + injection H as <- <- <- <- <-. eexists _, _. split; [done|]. simpl. rewrite Er'. simpl.
      split; [done|]. by rewrite app_nil_r.
Qed.

(** C30: a listen queue, whatever the interleaving of handlers, accepting threads and
    shutdown, where [tcp_qshutdown] wakes its waiters one by one while handlers signal
    others (each taking a waiter off the list in one step): the connections that wait to be
    accepted and those being made never exceed the backlog it was created with;
    connections are accepted exactly once and in the order they arrived; while a thread
    sleeps in [tcp_accept], there are at least as many threads that were woken and have
    not run as waiting connections; and from the mark of [tcp_qshutdown] on no thread goes
    to sleep and each step of its loop leaves one sleeper less, so that the loop ends and
    then no thread ever sleeps on the queue. *)
Theorem tcp_listen_queue_fifo crc32 seed my_addr mem_ok id laddr backlog st st' q0 l s :
  tcp_listen crc32 seed my_addr mem_ok id laddr backlog st = (inr q0, st') -> lrun l (listening q0) = Some s ->
  Z.of_nat (length (q_conns (q s))) + Z.of_nat (reserved s) <= backlog /\
  accepted s ++ q_conns (q s) = arrived s /\
  (q_wq (q s) <> [] -> (length (q_conns (q s)) <= length (woken s))%nat) /\
  (q_shutdown (q s) = true -> forall l' s2, lrun l' s = Some s2 -> (length (q_wq (q s2)) <= length (q_wq (q s)) - releases l')%nat).
Proof.
  intros [e [-> Hb]]%listen_fresh Hr. assert (linv backlog s) as [[Hp Hq] Hf Hw _].
  { apply (lrun_inv backlog l (listening (TcpQueue e [] [] backlog false false))); [|done].
    split; simpl; try done; [lia|constructor]. }
  split_and!; [lia|done|done|]. intros Hq' l' s2. by apply lrun_marked.
Qed.

Definition demo_calls : list lcall := [Accept 1; Reserve; Reserve; Reserve; Arrive 5; Arrive 6; Resume 1; Accept 2; Accept 3; Shutdown]%nat.
Definition demo_queue : tcpqueue := TcpQueue (trans_init_3tuple 9 IPPROTO_TCP (NetAddr 10 80)) [] [] 2 false false.
Lemma tcp_listen_queue_fifo_witness : exists st s,
  tcp_listen (fun s x => s + x) 0 10 true 9 (NetAddr 0 80) 2 demo_stack = (inr demo_queue, st) /\
  lrun demo_calls (listening demo_queue) = Some s /\
  accepted s = [5; 6]%nat /\ q_wq (q s) = [3%nat] /\ accepted s ++ q_conns (q s) = arrived s.
Proof.
  do 2 eexists. split; [vm_compute; reflexivity|]. split; [vm_compute; reflexivity|]. split; [reflexivity|]. split; [reflexivity|].
  refine (proj1 (proj2 (tcp_listen_queue_fifo (fun s x => s + x) 0 10 true 9 (NetAddr 0 80) 2 demo_stack _ demo_queue demo_calls _ _ _)));
    vm_compute; reflexivity.
Defined.
