(* ===== verification/TcpClose.v ===== *)
(** * tcp: closing connections and their reference counts

    Models the calls of [runtime/net/tcp.c] that end a connection
    ([tcp_shutdown], [tcp_abort], [tcp_close]), the retransmission thread and
    the visit of the timeout worker, and shows that the reference count of a
    connection counts its holders: the application, the state machine while the
    connection is not closed, and the retransmission threads. *)

From S2P Require Import Prelude StdDef Transport Tcp TcpOut TcpIn TcpOpen.

(** ** The calls *)

Definition SHUT_RD : Z := 0.
Definition SHUT_WR : Z := 1.
Definition SHUT_RDWR : Z := 2.


(** [tcp_retransmit] by thread [t], from taking the lock to waiting or going
    on: whether the transmit queue was taken; and the rest of it. *)
Definition tcp_retransmit_wait (t : tid) : M (outcome bool) :=
  let! c := get in
  let closed := st_eqb (state (pcb c)) CLOSED in
  if tx_exclusive c && negb closed
  then modify (fun c => c <| tx_wq := tx_wq c ++ [t] |>) ;;; ret Blocked
  else when (negb closed) (modify (fun c => c <| tx_exclusive := true |>)) ;;; ret (Done (negb closed)).
Definition tcp_retransmit (E : env) (taken : bool) : M unit :=
  when taken (tcp_tx_retransmit E ;;; tcp_write_finish E) ;;; tcp_conn_put.

(** What follows [tcp_conn_shutdown_tx] in [tcp_shutdown]. *)
Definition shutdown_rest (rx : bool) (o : outcome Z) : M (outcome Z) :=
  match o with
  | Blocked => ret Blocked
  | Done r => if negb (r =? 0) then ret (Done r) else when rx tcp_conn_shutdown_rx ;;; ret (Done 0)
  end.
Definition tcp_shutdown (E : env) (t : tid) (how : Z) : M (outcome Z) :=
  if negb ((how =? SHUT_RD) || (how =? SHUT_WR) || (how =? SHUT_RDWR)) then ret (Done (- EINVAL))
  else
    let tx := (how =? SHUT_WR) || (how =? SHUT_RDWR) in
    let rx := (how =? SHUT_RD) || (how =? SHUT_RDWR) in
    let! o := (if tx then tcp_conn_shutdown_tx E t else ret (Done 0)) in shutdown_rest rx o.
(** ... when the thread returns from waiting for a writer. *)
Definition tcp_shutdown_resume (E : env) (t : tid) (how : Z) : M (outcome Z) :=
  let! o := shutdown_tx_wait E t in shutdown_rest (how =? SHUT_RDWR) o.

(** [tcp_abort]: after the failure it waits for a writer, then resets the peer. *)
Definition abort_wait (E : env) (t : tid) : M (outcome unit) :=
  let! c := get in
  if tx_exclusive c then modify (fun c => c <| tx_wq := tx_wq c ++ [t] |>) ;;; ret Blocked
  else tcp_tx_raw_rst E 0 (snd_nxt (pcb c)) ;;; ret (Done ()).
Definition tcp_abort (E : env) (t : tid) : M (outcome unit) :=
  let! c := get in
  if st_eqb (state (pcb c)) CLOSED then ret (Done ())
  else tcp_conn_fail E ECONNABORTED ;;; abort_wait E t.

(** What follows [tcp_conn_shutdown_tx] in [tcp_close]. *)
Definition close_rest (E : env) (o : outcome Z) : M (outcome unit) :=
  match o with
  | Blocked => ret Blocked
  | Done r =>
      when (negb (r =? 0)) (tcp_conn_fail E (- r)) ;;;
      tcp_conn_shutdown_rx ;;; tcp_conn_put ;;; ret (Done ())
  end.
Definition tcp_close (E : env) (t : tid) : M (outcome unit) :=
  let! c := get in
  require (bool_decide (rx_wq c = [])) ;;;
  let! o := tcp_conn_shutdown_tx E t in close_rest E o.
Definition tcp_close_resume (E : env) (t : tid) : M (outcome unit) :=
  let! o := shutdown_tx_wait E t in close_rest E o.

Definition tcp_set_nonblocking (b : bool) : M unit :=
  modify (fun c => c <| nonblocking := b |>) ;;;
  when b (release_tx_wq ;;; release_rx_wq).

(** What [tcp_worker] does to one connection of its list. *)
Definition worker_visit (E : env) : M unit :=
  let! c := get in when (next_timeout c <=? microtime E) (tcp_handle_timeouts E).

(** ** Counting *)

(** The reference of the state machine. *)
Definition live (c : tcpconn) : Z := if st_eqb (state (pcb c)) CLOSED then 0 else 1.

(** The states after the application closed its direction. *)
Definition fin_sent (s : tcp_state) : bool :=
  match s with FIN_WAIT1 | FIN_WAIT2 | CLOSING | LAST_ACK | TIME_WAIT | CLOSED => true | _ => false end.

Record counted (c : tcpconn) : Prop := {
  ct_ref : live c <= ref c < 2 ^ 31 - 1;
  ct_fin : fin_sent (state (pcb c)) = true -> tx_closed c = true
}.

Definition is_destroy (e : effect) : bool := match e with Destroy => true | _ => false end.
Definition is_spawn (e : effect) : bool := match e with SpawnRetransmit => true | _ => false end.
Definition tally (f : effect -> bool) (l : list effect) : Z := Z.of_nat (length (List.filter f l)).
Lemma tally_app f l k : tally f (l ++ k) = tally f l + tally f k.
Proof. unfold tally. rewrite List.filter_app, length_app. lia. Qed.
Lemma tally_wakes l : tally is_destroy (wakes l) = 0 /\ tally is_spawn (wakes l) = 0.
Proof. unfold tally, wakes. induction l as [|a l [IH1 IH2]]; done. Qed.
Lemma tally_frees l : tally is_destroy (frees l) = 0 /\ tally is_spawn (frees l) = 0.
Proof. unfold tally, frees. induction l as [|a l [IH1 IH2]]; done. Qed.

(** The count is unchanged, but for the reference of the state machine, dropped
    when the connection closes; the connection is destroyed exactly when that
    was the last one. *)
Record acct (c c' : tcpconn) (e : list effect) : Prop := {
  ac_closed : state (pcb c) = CLOSED -> state (pcb c') = CLOSED;
  ac_tx : tx_closed c = true -> tx_closed c' = true;
  ac_fin : fin_sent (state (pcb c')) = true -> tx_closed c' = true;
  ac_ref : ref c' - live c' = ref c - live c;
  ac_destroy : tally is_destroy e = if (live c' <? live c) && (ref c' =? 0) then 1 else 0;
  ac_spawn : tally is_spawn e = 0
}.

Lemma live_closed c : state (pcb c) = CLOSED -> live c = 0.
Proof. intros E. unfold live, st_eqb. by rewrite E. Qed.
Lemma live_open c : state (pcb c) <> CLOSED -> live c = 1.
Proof. intros E. unfold live, st_eqb. by rewrite bool_decide_eq_false_2. Qed.
Lemma live_01 c : live c = 0 \/ live c = 1.
Proof. unfold live. destruct (st_eqb _ _); auto. Qed.

Lemma acct_counted c c' e : counted c -> acct c c' e -> counted c'.
Proof.
  intros [Hr _] [H1 _ H3 H4 _ _]. split; [|done].
  destruct (decide (state (pcb c) = CLOSED)) as [E|E].
  - rewrite (live_closed c E), (live_closed c' (H1 E)) in *. lia.
  - rewrite (live_open c E) in *. destruct (live_01 c'); lia.
Qed.

Lemma acct_trans c c1 c2 e1 e2 : acct c c1 e1 -> acct c1 c2 e2 -> acct c c2 (e1 ++ e2).
Proof.
  intros [A1 A2 A3 A4 A5 A6] [B1 B2 B3 B4 B5 B6]. split; auto; [lia| |rewrite tally_app; lia].
  rewrite tally_app, A5, B5. destruct (decide (state (pcb c) = CLOSED)) as [E|E].
  - rewrite (live_closed c E), (live_closed c1 (A1 E)), (live_closed c2 (B1 (A1 E))) in *. done.
  - destruct (decide (state (pcb c1) = CLOSED)) as [E1|E1].
    + rewrite (live_open c E), (live_closed c1 E1), (live_closed c2 (B1 E1)) in *. simpl.
      replace (ref c2) with (ref c1) by lia. lia.
    + rewrite (live_open c E), (live_open c1 E1) in *. simpl. destruct (live_01 c2) as [->| ->]; simpl; lia.
Qed.

(** *** Steps that do not touch what is counted *)

Record unmoved (c c' : tcpconn) (e : list effect) : Prop := {
  um_state : state (pcb c') = state (pcb c);
  um_ref : ref c' = ref c;
  um_tx : tx_closed c' = tx_closed c;
  um_destroy : tally is_destroy e = 0;
  um_spawn : tally is_spawn e = 0
}.
Definition still {A} (m : M A) : Prop := forall c x c' e, m c = Some (x, c', e) -> unmoved c c' e.

Create HintDb still.

Lemma still_ret {A} (x : A) : still (ret x).
Proof. intros c y c' e [= <- <- <-]. done. Qed.
Lemma still_get : still get.
Proof. intros c y c' e [= <- <- <-]. done. Qed.
Lemma still_emit l : tally is_destroy l = 0 /\ tally is_spawn l = 0 -> still (emit l).
Proof. intros [H1 H2] c y c' e [= <- <- <-]. done. Qed.
Lemma still_modify f : (forall c, unmoved c (f c) []) -> still (modify f).
Proof. intros H c y c' e [= <- <- <-]. apply H. Qed.
Lemma still_require b : still (require b).
Proof. intros c y c' e H. unfold require in H. destruct b; [|done]. by injection H as <- <- <-. Qed.
Lemma still_lift {A} (o : option A) : still (lift o).
Proof. intros c y c' e H. unfold lift in H. destruct o; [|done]. by injection H as <- <- <-. Qed.

Lemma bind_inv {A B} (m : M A) (f : A -> M B) c y c2 e :
  bind m f c = Some (y, c2, e) -> exists x c1 e1 e2, m c = Some (x, c1, e1) /\ f x c1 = Some (y, c2, e2) /\ e = e1 ++ e2.
Proof.
  unfold bind. destruct (m c) as [[[x c1] e1]|]; [|done]. destruct (f x c1) as [[[y' c2'] e2]|] eqn:E; [|done].
  intros [= <- <- <-]. eauto 10.
Qed.

Lemma still_bind {A B} (m : M A) (f : A -> M B) : still m -> (forall x, still (f x)) -> still (bind m f).
Proof.
  intros Hm Hf c y c2 e (x & c1 & e1 & e2 & H1 & H2 & ->)%bind_inv.
  destruct (Hm _ _ _ _ H1), (Hf _ _ _ _ _ H2). split; rewrite ?tally_app; congruence || lia.
Qed.
Lemma still_when b m : still m -> still (when b m).
Proof. intros H. destruct b; [done|apply still_ret]. Qed.
Lemma still_if {A} (b : bool) (m1 m2 : M A) : still m1 -> still m2 -> still (if b then m1 else m2).
Proof. by destruct b. Qed.
#[export] Hint Resolve still_ret still_get still_require still_lift : still.
#[export] Hint Resolve still_emit tally_wakes tally_frees : still.

Ltac still_step :=
  lazymatch goal with
  | |- still (bind _ _) => apply still_bind
  | |- still (when _ _) => apply still_when
  | |- still (modify _) => first [solve [auto with still] | apply still_modify; intros; by split]
  | |- still (upd_pcb _) => apply still_modify; intros; by split
  | |- still (emit [_]) => by apply still_emit
  | |- still (if _ then _ else _) => apply still_if
  | |- still (match ?x with _ => _ end) => destruct x
  | |- still (let _ := _ in _) => cbv zeta
  | |- still _ => solve [auto with still]
  | |- forall _, _ => intro
  end.
Ltac still := repeat still_step.

Lemma still_timer now : still (modify (tcp_timer_update now)).
Proof. apply still_modify. by split. Qed.
Lemma still_push_tcphdr fl s o d l : still (tcp_push_tcphdr fl s o d l).
Proof. unfold tcp_push_tcphdr. still. Qed.
Lemma still_transmit E i p : still (transmit E i p).
Proof. unfold transmit. still. Qed.
#[export] Hint Resolve still_timer still_push_tcphdr still_transmit : still.

Lemma still_raw_rst E i s : still (tcp_tx_raw_rst E i s).
Proof. unfold tcp_tx_raw_rst. still. Qed.
Lemma still_raw_rst_ack E i s a : still (tcp_tx_raw_rst_ack E i s a).
Proof. unfold tcp_tx_raw_rst_ack. still. Qed.
Lemma still_tx_ack E i : still (tcp_tx_ack E i).
Proof. unfold tcp_tx_ack. still. Qed.
Lemma still_probe E i : still (tcp_tx_probe_window E i).
Proof. unfold tcp_tx_probe_window. still. Qed.
Lemma still_tx_ctl E i f o : still (tcp_tx_ctl E i f o).
Proof. unfold tcp_tx_ctl. still. Qed.
#[export] Hint Resolve still_raw_rst still_raw_rst_ack still_tx_ack still_probe still_tx_ctl : still.

Lemma still_send_rst E i b s a l : still (send_rst E i b s a l).
Proof. unfold send_rst. still. Qed.
Lemma still_release_tx : still release_tx_wq.
Proof. unfold release_tx_wq. still. Qed.
Lemma still_release_rx : still release_rx_wq.
Proof. unfold release_rx_wq. still. Qed.
Lemma still_signal_rx : still signal_rx_wq.
Proof. unfold signal_rx_wq. still. Qed.
#[export] Hint Resolve still_send_rst still_release_tx still_release_rx still_signal_rx : still.

Lemma still_shutdown_rx : still tcp_conn_shutdown_rx.
Proof. unfold tcp_conn_shutdown_rx. still. Qed.
Lemma still_conn_ack : still tcp_conn_ack.
Proof. unfold tcp_conn_ack. still. Qed.
Lemma still_retransmit_one E i m : still (tcp_tx_retransmit_one E i m).
Proof. unfold tcp_tx_retransmit_one. still. Qed.
#[export] Hint Resolve still_shutdown_rx still_conn_ack still_retransmit_one : still.

Lemma still_fast_start E : still (tcp_tx_fast_retransmit_start E).
Proof. unfold tcp_tx_fast_retransmit_start. still. Qed.
Lemma still_fast_finish E i o : still (tcp_tx_fast_retransmit_finish E i o).
Proof. unfold tcp_tx_fast_retransmit_finish. still. Qed.
Lemma still_retransmit_loop E i n q : still (retransmit_loop E i n q).
Proof. revert i n. induction q as [|m q IH]; intros i n; simpl; still. Qed.
#[export] Hint Resolve still_fast_start still_fast_finish still_retransmit_loop : still.

Lemma still_retransmit E : still (tcp_tx_retransmit E).
Proof. unfold tcp_tx_retransmit. still. Qed.
Lemma still_write_finish E : still (tcp_write_finish E).
Proof.
  unfold tcp_write_finish. still. apply still_modify. intros c. by destruct (rcv_nxt (pcb c) =? tx_last_ack c).
Qed.
Lemma still_write_wait E t : still (tcp_write_wait E t).
Proof. unfold tcp_write_wait. still. Qed.
Lemma still_next_buf E i r : still (next_buf E i r).
Proof. unfold next_buf. still. Qed.
Lemma still_send_buf E i m : still (send_buf E i m).
Proof. unfold send_buf. still. Qed.
#[export] Hint Resolve still_retransmit still_write_finish still_write_wait still_next_buf still_send_buf : still.

Lemma still_send_loop fuel E i buf push r : still (send_loop fuel E i buf push r).
Proof. revert i buf r. induction fuel as [|fuel IH]; intros i buf r; simpl; still. Qed.
#[export] Hint Resolve still_send_loop : still.
Lemma still_tx_send E buf push : still (tcp_tx_send E buf push).
Proof. unfold tcp_tx_send. still. Qed.
#[export] Hint Resolve still_tx_send : still.
Lemma still_write E buf w : still (tcp_write E buf w).
Proof. unfold tcp_write. still. Qed.
Lemma still_writev_loop Es iov w s r : still (writev_loop Es iov w s r).
Proof. revert Es w s r. induction iov as [|b iov IH]; intros Es w s r; simpl; still. Qed.
#[export] Hint Resolve still_write still_writev_loop : still.
Lemma still_writev Es E iov w : still (tcp_writev Es E iov w).
Proof. unfold tcp_writev. still. Qed.
#[export] Hint Resolve still_writev : still.

Lemma still_append m : still (tcp_rx_append_text m).
Proof. unfold tcp_rx_append_text. still. Qed.
#[export] Hint Resolve still_append : still.
Lemma still_drain q w f : still (drain_ooo q w f).
Proof. revert w f. induction q as [|m q IH]; intros w f; simpl; still. Qed.
#[export] Hint Resolve still_drain : still.
Lemma still_run_drain w f : still (run_drain w f).
Proof. unfold run_drain. still. Qed.
#[export] Hint Resolve still_run_drain : still.
Lemma still_rx_text m : still (tcp_rx_text m).
Proof. unfold tcp_rx_text. still. Qed.
Lemma still_apply_options en mss ws : still (modify (apply_options en mss ws)).
Proof. apply still_modify. intros c. unfold apply_options. by destruct (has en TCP_OPTION_WSCALE), (has en TCP_OPTION_MSS). Qed.
#[export] Hint Resolve still_rx_text still_apply_options : still.
Lemma still_parse_options p l : still (tcp_parse_options p l).
Proof. unfold tcp_parse_options. still. Qed.
#[export] Hint Resolve still_parse_options : still.

Lemma still_rx_ack s a w : still (rx_ack s a w).
Proof. unfold rx_ack. still. Qed.
Lemma still_dup_ack E a l b w : still (rx_dup_ack E a l b w).
Proof. unfold rx_dup_ack. still. Qed.
Lemma still_segment_text E m l v : still (rx_segment_text E m l v).
Proof. unfold rx_segment_text. still. Qed.
Lemma still_rx_done E m v : still (rx_done E m v).
Proof. unfold rx_done. still. Qed.
#[export] Hint Resolve still_rx_ack still_dup_ack still_segment_text still_rx_done : still.
Lemma still_rx_fast E m a w l : still (tcp_rx_conn_fast E m a w l).
Proof.
  unfold tcp_rx_conn_fast. still. apply still_modify. intros c'.
  destruct (_ >=? _); [done|]. by destruct (ack_delayed c').
Qed.
Lemma still_pop_loop fuel len rl q : still (pop_loop fuel len rl q).
Proof. revert rl q. induction fuel as [|fuel IH]; intros rl q; simpl; still. Qed.
#[export] Hint Resolve still_rx_fast still_pop_loop : still.
Lemma still_read_wait E t l : still (tcp_read_wait E t l).
Proof. unfold tcp_read_wait. still. Qed.
Lemma still_read_copy l q m : still (tcp_read_copy l q m).
Proof. unfold tcp_read_copy. still. Qed.
Lemma still_set_nonblocking b : still (tcp_set_nonblocking b).
Proof. unfold tcp_set_nonblocking. still. Qed.
Lemma still_retransmit_wait t : still (tcp_retransmit_wait t).
Proof. unfold tcp_retransmit_wait. still. Qed.
Lemma still_abort_wait E t : still (abort_wait E t).
Proof. unfold abort_wait. still. Qed.
#[export] Hint Resolve still_read_wait still_read_copy still_set_nonblocking still_retransmit_wait still_abort_wait : still.

(** *** Steps that may close the connection *)

(** [calm S m]: from a state of [S], [m] keeps the account. *)
Definition calm {A} (S : tcp_state -> Prop) (m : M A) : Prop :=
  forall c x c' e, S (state (pcb c)) -> counted c -> m c = Some (x, c', e) -> acct c c' e.
Abbreviation any := (fun _ : tcp_state => True).

Lemma unmoved_acct c c' e : counted c -> unmoved c c' e -> acct c c' e.
Proof.
  intros [_ Hf] [H1 H2 H3 H4 H5]. assert (live c' = live c) as El by (unfold live; by rewrite H1).
  split; rewrite ?H1, ?H2, ?H3, ?El; try done. by rewrite Z.ltb_irrefl.
Qed.

Lemma calm_still {A} S (m : M A) : still m -> calm S m.
Proof. intros H c x c' e _ Hc Hm. apply unmoved_acct; [done|]. by apply (H _ _ _ _ Hm). Qed.

Lemma calm_bind {A B} S (m : M A) (f : A -> M B) : calm S m -> (forall x, calm any (f x)) -> calm S (bind m f).
Proof.
  intros Hm Hf c y c2 e HS Hc (x & c1 & e1 & e2 & H1 & H2 & ->)%bind_inv.
  pose proof (Hm _ _ _ _ HS Hc H1) as A1. apply (acct_trans c c1 c2 e1 e2 A1).
  by apply (Hf x c1 y c2 e2 I (acct_counted _ _ _ Hc A1)).
Qed.
Lemma calm_bind_still {A B} S (m : M A) (f : A -> M B) : still m -> (forall x, calm S (f x)) -> calm S (bind m f).
Proof.
  intros Hm Hf c y c2 e HS Hc (x & c1 & e1 & e2 & H1 & H2 & ->)%bind_inv.
  pose proof (Hm _ _ _ _ H1) as U. pose proof (unmoved_acct _ _ _ Hc U) as A1. apply (acct_trans c c1 c2 e1 e2 A1).
  apply (Hf x c1 y c2 e2); [by rewrite (um_state _ _ _ U)|by apply (acct_counted _ _ _ Hc A1)|done].
Qed.
Lemma calm_bind_get {B} S (f : tcpconn -> M B) :
  (forall c, S (state (pcb c)) -> calm (eq (state (pcb c))) (f c)) -> calm S (bind get f).
Proof.
  intros Hf c y c2 e HS Hc (x & c1 & e1 & e2 & [= <- <- <-] & H2 & ->)%bind_inv. by apply (Hf c HS c y c2 e2).
Qed.
Lemma calm_when S b m : (b = true -> calm S m) -> calm S (when b m).
Proof. intros H. destruct b; [by apply H|apply calm_still, still_ret]. Qed.
Lemma calm_if {A} S (b : bool) (m1 m2 : M A) :
  (b = true -> calm S m1) -> (b = false -> calm S m2) -> calm S (if b then m1 else m2).
Proof. destruct b; auto. Qed.
Lemma calm_sub {A} (S T : tcp_state -> Prop) (m : M A) : calm T m -> (forall s, S s -> T s) -> calm S m.
Proof. intros H HS c x c' e Hc. apply H. by apply HS. Qed.

(** *** The state changes *)

Lemma set_state_moves E new c x c' e : tcp_conn_set_state E new c = Some (x, c', e) ->
  unmoved (c <| pcb := pcb c <| state := new |> |>) c' e.
Proof.
  unfold tcp_conn_set_state. intros (c0 & c1 & e1 & e2 & [= <- <- <-] & H & ->)%bind_inv.
  apply bind_inv in H as (? & c2 & ? & e3 & H1 & H & ->). pose proof (still_require _ _ _ _ _ H1) as [R1 R2 R3 R4 R5].
  apply bind_inv in H as (? & c3 & ? & e4 & H2 & H & ->).
  pose proof (still_when _ _ still_release_tx _ _ _ _ H2) as [W1 W2 W3 W4 W5].
  apply bind_inv in H as (? & c4 & ? & e5 & [= <- <- <-] & [= <- <- <-] & ->).
  split; simpl; rewrite ?tally_app; try congruence; unfold tally in *; simpl in *; lia.
Qed.

Lemma calm_set_state E new (S : tcp_state -> Prop) :
  new <> CLOSED -> (forall s, S s -> s <> CLOSED /\ (fin_sent new = true -> fin_sent s = true)) -> calm S (tcp_conn_set_state E new).
Proof.
  intros Hn HS c x c' e Hs [Hr Hf] H. destruct (HS _ Hs) as [H1 H2].
  destruct (set_state_moves _ _ _ _ _ _ H) as [U1 U2 U3 U4 U5]. simpl in *.
  assert (live c' = 1) as E' by (apply live_open; by rewrite U1). pose proof (live_open c H1) as El.
  split; rewrite ?U1, ?U2, ?U3, ?E', ?El; try done; try lia. intros F. by apply Hf, H2.
Qed.

Lemma put_spec c x c' e : 0 < ref c < 2 ^ 31 - 1 -> tcp_conn_put c = Some (x, c', e) ->
  state (pcb c') = state (pcb c) /\ tx_closed c' = tx_closed c /\ ref c' = ref c - 1 /\
  tally is_destroy e = (if ref c' =? 0 then 1 else 0) /\ tally is_spawn e = 0.
Proof.
  intros Hr. unfold tcp_conn_put. intros (c0 & c1 & e1 & e2 & [= <- <- <-] & H & ->)%bind_inv.
  unfold atomic_dec_and_test, atomic_sub_and_fetch in H. simpl in H.
  assert (s32 (ref c - 1) = ref c - 1) as Es by (apply s32_small; unfold is_s32; lia). rewrite !Es in H.
  apply bind_inv in H as (? & c2 & ? & e3 & [= <- <- <-] & H & ->).
  destruct (ref c - 1 =? 0) eqn:Ez; simpl in H.
  - apply bind_inv in H as (? & c3 & ? & e4 & H1 & [= <- <- <-] & ->).
    unfold require in H1. destruct (st_eqb _ _); [|done]. injection H1 as <- <- <-. simpl. by rewrite Ez.
  - injection H as <- <- <-. simpl. by rewrite Ez.
Qed.

(** Closing a connection that is not closed, and dropping the reference, with
    other steps in between. *)
Lemma close_and_put c c0 c1 c2 e0 e1 e2 x :
  state (pcb c) <> CLOSED -> counted c ->
  unmoved (c <| pcb := pcb c <| state := CLOSED |> |>) c0 e0 ->
  unmoved (c0 <| tx_closed := true |>) c1 e1 -> tcp_conn_put c1 = Some (x, c2, e2) -> acct c c2 (e0 ++ e1 ++ e2).
Proof.
  intros Hs [Hr _] [U1 U2 U3 U4 U5] [V1 V2 V3 V4 V5] H2. simpl in *. pose proof (live_open c Hs) as El.
  destruct (put_spec c1 _ _ _ ltac:(lia) H2) as (P1 & P2 & P3 & P4 & P5).
  assert (live c2 = 0) as El' by (apply live_closed; congruence).
  split; rewrite ?P1, ?P2, ?V3, ?tally_app, ?El, ?El', ?U4, ?V4, ?P4; try done; lia.
Qed.

Lemma calm_close_put E (S : tcp_state -> Prop) {A} (k : M A) :
  (forall s, S s -> s <> CLOSED /\ fin_sent s = true) -> still k -> calm S (tcp_conn_set_state E CLOSED ;;; tcp_conn_put ;;; k).
Proof.
  intros HS Hk c x c' e Hs Hc (? & c0 & e0 & e2 & H1 & (? & c1 & e1 & e3 & H2 & H3 & ->)%bind_inv & ->)%bind_inv.
  destruct (HS _ Hs) as [Hn Hf]. pose proof (set_state_moves _ _ _ _ _ _ H1) as U. rewrite app_assoc.
  assert (acct c c1 (e0 ++ e1)) as A1.
  { apply (close_and_put c c0 c0 c1 e0 [] e1 x1 Hn Hc U); [|done]. split; simpl; try done.
    destruct U as [_ _ U3 _ _]. rewrite U3. by apply (ct_fin c Hc). }
  apply (acct_trans _ _ _ _ _ A1), unmoved_acct; [by apply (acct_counted _ _ _ Hc A1)|by apply (Hk _ _ _ _ H3)].
Qed.

(** The clean-up of [tcp_conn_fail] after the change of the state, up to [k]. *)
Definition fail_cleanup (k : M unit) : M unit :=
  let! c := get in
  when (negb (tx_closed c)) (modify (fun c => c <| tx_closed := true |>) ;;; release_tx_wq) ;;;
  when (negb (tx_exclusive c))
    (emit (frees (txq c ++ option_list (tx_pending c))) ;;;
     modify (fun c => c <| txq := [] |> <| tx_pending := None |>)) ;;;
  when (negb (rx_exclusive c)) (emit (frees (rxq c)) ;;; modify (fun c => c <| rxq := [] |>)) ;;;
  emit (frees (rxq_ooo c)) ;;; modify (fun c => c <| rxq_ooo := [] |>) ;;; k.

Lemma unmoved_trans c c1 c2 e1 e2 : unmoved c c1 e1 -> unmoved c1 c2 e2 -> unmoved c c2 (e1 ++ e2).
Proof. intros [U1 U2 U3 U4 U5] [V1 V2 V3 V4 V5]. split; rewrite ?tally_app; congruence || lia. Qed.

Lemma cleanup_moves k c x c' e : fail_cleanup k c = Some (x, c', e) ->
  exists c1 e1 e2, unmoved (c <| tx_closed := true |>) c1 e1 /\ k c1 = Some (x, c', e2) /\ e = e1 ++ e2.
Proof.
  unfold fail_cleanup. intros (c0 & c1 & e1 & e2 & [= <- <- <-] & H & ->)%bind_inv.
  apply bind_inv in H as (? & c2 & e2' & e3 & H1 & H & ->).
  assert (unmoved (c <| tx_closed := true |>) c2 e2') as U2.
  { destruct (tx_closed c) eqn:Et; simpl in H1; [injection H1 as <- <- <-; by split|].
    apply bind_inv in H1 as (? & c3 & ? & e5 & [= <- <- <-] & H1 & ->). by apply (still_release_tx _ _ _ _ H1). }
  apply bind_inv in H as (? & c3 & e3' & e4 & H3 & H & ->).
  match type of H3 with ?m _ = _ => assert (still m) as S3 by still end. apply S3 in H3. clear S3.
  apply bind_inv in H as (? & c4 & e4' & e5 & H4 & H & ->).
  match type of H4 with ?m _ = _ => assert (still m) as S4 by still end. apply S4 in H4. clear S4.
  apply bind_inv in H as (? & c5 & e5' & e6 & H5 & H & ->).
  match type of H5 with ?m _ = _ => assert (still m) as S5 by still end. apply S5 in H5. clear S5.
  apply bind_inv in H as (? & c6 & e6' & e7 & [= <- <- <-] & H & ->).
  exists (c5 <| rxq_ooo := [] |>), (e2' ++ e3' ++ e4' ++ e5'), e7. split; [|split; [done|by rewrite <- !app_assoc]].
  apply (unmoved_trans _ _ _ _ _ U2), (unmoved_trans _ _ _ _ _ H3), (unmoved_trans _ _ _ _ _ H4).
  destruct H5. by split.
Qed.

Lemma calm_fail E z : calm (fun s => s <> CLOSED) (tcp_conn_fail E z).
Proof.
  intros c x c' e Hs Hc H. change (tcp_conn_fail E z) with
    (modify (fun c => c <| err := z |>) ;;; tcp_conn_set_state E CLOSED ;;; tcp_conn_shutdown_rx ;;; fail_cleanup tcp_conn_put) in H.
  apply bind_inv in H as (? & c0 & ? & e1 & [= <- <- <-] & H & ->).
  apply bind_inv in H as (? & c1 & e1' & e2 & H1 & H & ->). apply set_state_moves in H1.
  apply bind_inv in H as (? & c2 & e2' & e3 & H2 & H & ->). apply still_shutdown_rx in H2.
  apply cleanup_moves in H as (c3 & e3' & e4 & H3 & H & ->). rewrite (app_assoc e1').
  apply (close_and_put c c2 c3 c' (e1' ++ e2') e3' e4 x Hs Hc); [|done|done].
  refine (unmoved_trans _ _ _ _ _ _ H2). destruct H1. by split.
Qed.

(** *** The handlers and the calls *)

Lemma st_eqb_true a b : st_eqb a b = true -> a = b.
Proof. apply bool_decide_eq_true. Qed.
Lemma st_eqb_false a b : st_eqb a b = false -> a <> b.
Proof. apply bool_decide_eq_false. Qed.

(** What the branches taken say about the state. *)
Ltac known :=
  repeat match goal with
  | H : _ && _ = true |- _ => apply andb_true_iff in H as [? ?]
  | H : st_eqb _ _ = true |- _ => apply st_eqb_true in H
  | H : st_eqb _ _ = false |- _ => apply st_eqb_false in H
  end.
Ltac at_state := repeat match goal with H : state (pcb ?c) = _ |- context [state (pcb ?c)] => rewrite H end.
(** One step of an accounted computation: the steps that do not move the count
    are passed, branches remember their condition. *)
Ltac calm_step :=
  lazymatch goal with
  | |- calm _ (bind get _) => apply calm_bind_get; let H := fresh in intros ? H; cbv beta; try rewrite <- H; clear H
  | |- calm _ (bind (tcp_conn_set_state _ CLOSED) _) => apply calm_close_put; [intros ? <-; known; by at_state|still]
  | |- calm _ (bind _ _) => first [apply calm_bind_still; [by still|intro] | apply calm_bind; [|intro]]
  | |- calm _ (when _ _) => apply calm_when; intro
  | |- calm _ (if _ then _ else _) => apply calm_if; intro
  | |- calm _ (tcp_conn_set_state _ _) => apply calm_set_state; [done|intros ? <-; known; by at_state]
  | |- calm _ (tcp_conn_fail _ _) => apply (calm_sub _ _ _ (calm_fail _ _)); intros ? <-; known; congruence
  | |- calm _ (let _ := _ in _) => cbv zeta
  | |- calm _ (match ?x with _ => _ end) => destruct x
  | |- calm _ _ => first [apply calm_still; by still | apply (calm_sub _ any); [|done]; solve [auto with still]]
  end.
Ltac calm := repeat calm_step.

Lemma calm_syn_sent E m a n w p l : calm (eq SYN_SENT) (rx_syn_sent E m a n w p l).
Proof. unfold rx_syn_sent. calm. Qed.
Lemma calm_fin_acked E n : calm any (rx_fin_acked E n).
Proof. unfold rx_fin_acked. calm. Qed.
Lemma calm_fin E n v : calm any (rx_fin E n v).
Proof. unfold rx_fin. calm. Qed.
#[export] Hint Resolve calm_fin_acked calm_fin : still.
Lemma calm_ack_and_text E m a n w : calm any (rx_ack_and_text E m a n w).
Proof. unfold rx_ack_and_text. calm. Qed.
#[export] Hint Resolve calm_ack_and_text : still.
Lemma calm_rx_body E m a n w p l : calm any (rx_body E m a n w p l).
Proof.
  unfold rx_body. calm. apply (calm_sub _ _ _ (calm_syn_sent _ _ _ _ _ _ _)). intros ? <-. known. congruence.
Qed.
#[export] Hint Resolve calm_rx_body : still.
Lemma calm_rx_conn E h ip buf beyond n : calm any (tcp_rx_conn E h ip buf beyond n).
Proof. unfold tcp_rx_conn, tcp_rx_conn_slow. calm. Qed.

Lemma calm_abort E t : calm any (tcp_abort E t).
Proof. unfold tcp_abort. calm. Qed.

(** A change of state that neither closes nor opens the connection. *)
Lemma shift_acct c c1 c2 s e1 e2 :
  unmoved (c <| pcb := pcb c <| state := s |> |>) c1 e1 -> (state (pcb c) = CLOSED <-> s = CLOSED) ->
  unmoved (c1 <| tx_closed := true |>) c2 e2 -> acct c c2 (e1 ++ e2).
Proof.
  intros [U1 U2 U3 U4 U5] Hs [V1 V2 V3 V4 V5]. simpl in *.
  assert (live c2 = live c) as El.
  { unfold live, st_eqb. rewrite V1, U1. by rewrite (bool_decide_ext _ _ Hs). }
  split; rewrite ?V1, ?V3, ?tally_app, ?El, ?U4, ?V4, ?U5, ?V5, ?Z.ltb_irrefl; try done; [|lia].
  intros H. rewrite U1. by apply Hs.
Qed.

(** After a writer left, the FIN is sent; a connection that failed in the
    meantime stays closed. *)
Lemma calm_shutdown_tx_wait E t : calm any (shutdown_tx_wait E t).
Proof.
  unfold shutdown_tx_wait. apply calm_bind_get. intros c _. apply calm_if; intros _; [by calm|].
  apply calm_bind_still; [still|]. intros r. apply calm_if; intros _; [by calm|].
  intros c' x c'' e Hs Hc H. simpl in Hs.
  apply bind_inv in H as (? & c1 & e1 & e2 & H1 & H & ->). apply bind_inv in H as (? & c2 & e3 & e4 & H2 & H & ->).
  apply bind_inv in H as (? & c3 & ? & e5 & [= <- <- <-] & H & ->).
  assert (unmoved (c2 <| tx_closed := true |>) c'' e5) as U3.
  { assert (still (release_tx_wq ;;; ret (Done 0))) as S by still. by apply (S _ _ _ _ H). }
  rewrite (app_assoc e1). rewrite Hs in *. destruct (st_eqb _ ESTABLISHED) eqn:E1; simpl in H1.
  - apply set_state_moves in H1. known. rewrite E1 in H2. injection H2 as <- <- <-.
    rewrite app_nil_r. by apply (shift_acct c' c1 c'' FIN_WAIT1 e1 e5 H1); [rewrite E1|].
  - injection H1 as <- <- <-. destruct (st_eqb _ CLOSE_WAIT) eqn:E2; simpl in H2.
    + apply set_state_moves in H2. known. by apply (shift_acct c' c2 c'' LAST_ACK e3 e5 H2); [rewrite E2|].
    + injection H2 as <- <- <-. by apply (shift_acct c' c' c'' (state (pcb c')) [] e5).
Qed.
Lemma calm_shutdown_tx E t : calm any (tcp_conn_shutdown_tx E t).
Proof.
  unfold tcp_conn_shutdown_tx. calm. apply (calm_sub _ any); [|done]. apply calm_shutdown_tx_wait.
Qed.
#[export] Hint Resolve calm_shutdown_tx_wait calm_shutdown_tx : still.
Lemma calm_shutdown E t how : calm any (tcp_shutdown E t how).
Proof. unfold tcp_shutdown, shutdown_rest. calm. Qed.
Lemma calm_shutdown_resume E t how : calm any (tcp_shutdown_resume E t how).
Proof. unfold tcp_shutdown_resume, shutdown_rest. calm. Qed.

(** The worker keeps the account, but for the references it takes for the
    threads it spawns; a closed connection spawns none. *)
Record visited (c c' : tcpconn) (e : list effect) : Prop := {
  vi_fin : fin_sent (state (pcb c')) = true -> tx_closed c' = true;
  vi_ref : ref c' - live c' = ref c - live c + tally is_spawn e;
  vi_open : state (pcb c) = CLOSED -> state (pcb c') = CLOSED /\ tally is_spawn e = 0;
  vi_one : tally is_spawn e <= 1;
  vi_destroy : tally is_destroy e = if (live c' <? live c) && (ref c' =? 0) then 1 else 0
}.
Lemma acct_visited c c' e : acct c c' e -> visited c c' e.
Proof. intros [A1 A2 A3 A4 A5 A6]. split; auto; lia. Qed.

Lemma take_and_spawn (b : bool) c x1 x3 c1 c2 c' e1 e2 e3 :
  counted c -> ref c < 2 ^ 31 - 2 -> state (pcb c) <> CLOSED ->
  when b tcp_conn_get c = Some (x1, c1, e1) -> unmoved c1 c2 e2 ->
  when b (emit [SpawnRetransmit]) c2 = Some (x3, c', e3) -> visited c c' (e1 ++ e2 ++ e3).
Proof.
  intros [Hr Hf] Hb Hs H1 [U1 U2 U3 U4 U5] H3.
  assert (state (pcb c1) = state (pcb c) /\ tx_closed c1 = tx_closed c /\ ref c1 = ref c + Z.b2z b /\ e1 = []) as (G1 & G2 & G3 & ->).
  { destruct b; simpl in H1; injection H1 as <- <- <-; [|split_and!; simpl; (done || lia)]. split_and!; [done|done| |done].
    change (s32 (ref c + 1) = ref c + 1). apply s32_small. unfold is_s32. pose proof (live_open c Hs). lia. }
  assert (c' = c2 /\ tally is_destroy e3 = 0 /\ tally is_spawn e3 = Z.b2z b) as (-> & T1 & T2).
  { destruct b; simpl in H3; by injection H3 as <- <- <-. }
  assert (state (pcb c2) = state (pcb c)) as Es by congruence.
  assert (live c2 = live c) as El by (unfold live; by rewrite Es).
  split; rewrite ?Es, ?El, ?tally_app, ?U5, ?U4, ?T1, ?T2, ?Z.ltb_irrefl; try done.
  - intros F. rewrite U3, G2. by apply Hf.
  - simpl. unfold tally at 1. simpl. lia.
  - by destruct b.
Qed.

Lemma bind_some {A B} (m : M A) (f : A -> M B) c x c1 e1 y c2 e2 :
  m c = Some (x, c1, e1) -> f x c1 = Some (y, c2, e2) -> bind m f c = Some (y, c2, e1 ++ e2).
Proof. unfold bind. by intros -> ->. Qed.

Lemma unmoved_visited c c1 c' e1 e : unmoved c c1 e1 -> visited c1 c' e -> visited c c' (e1 ++ e).
Proof.
  intros [U1 U2 U3 U4 U5] [V1 V2 V3 V4 V5]. assert (live c1 = live c) as El by (unfold live; by rewrite U1).
  rewrite El, U2 in *. rewrite U1 in V3. split; rewrite ?tally_app, ?U4, ?U5; done.
Qed.

Lemma calm_close E (S : tcp_state -> Prop) :
  (forall s, S s -> s <> CLOSED /\ fin_sent s = true) -> calm S (tcp_conn_set_state E CLOSED ;;; tcp_conn_put).
Proof.
  intros HS c [] c' e Hs Hc (? & c1 & e1 & e2 & K1 & K2 & ->)%bind_inv.
  apply (calm_close_put E S (ret ()) HS (still_ret _) c () c' (e1 ++ e2) Hs Hc).
  eapply bind_some; [done|]. rewrite <- (app_nil_r e2). by eapply bind_some; [done|].
Qed.

(** Pass a first step that does not move the count. *)
Ltac pass H U :=
  apply bind_inv in H as (? & ? & ? & ? & U & H & ->);
  match type of U with ?m _ = _ => let S := fresh in assert (still m) as S by still; apply S in U; clear S end.

Lemma timeouts_visited E c x c' e : counted c -> ref c < 2 ^ 31 - 2 ->
  tcp_handle_timeouts E c = Some (x, c', e) -> visited c c' e.
Proof.
  intros Hc Hb. unfold tcp_handle_timeouts. cbv zeta. intros (c0 & c1 & e1 & e2 & [= <- <- <-] & H & ->)%bind_inv.
  rewrite app_nil_l. destruct (st_eqb (state (pcb c)) CLOSED) eqn:Es; [apply acct_visited, unmoved_acct; [done|by apply still_ret in H]|].
  apply st_eqb_false in Es. destruct (_ && _); [by apply acct_visited, (calm_fail _ _ _ _ _ _ Es Hc H)|].
  destruct (st_eqb (state (pcb c)) TIME_WAIT && _) eqn:Et.
  { known. apply acct_visited. refine (calm_close E (eq (state (pcb c))) _ c x c' e2 eq_refl Hc H). intros ? <-. by at_state. }
  pass H U1. pass H U2. rewrite app_assoc. pose proof (unmoved_trans _ _ _ _ _ U1 U2) as U.
  apply (unmoved_visited _ _ _ _ _ U). pose proof (acct_counted _ _ _ Hc (unmoved_acct _ _ _ Hc U)) as Hc'.
  destruct U as [Us Ur _ _ _]. apply bind_inv in H as (? & c4 & e7 & e8 & H3 & H & ->).
  pass H U4. pass H U5. pass H U6. 
  match goal with |- visited _ _ (_ ++ ?x ++ ?y ++ ?z ++ ?e) =>
    replace (x ++ y ++ z ++ e) with ((x ++ y ++ z) ++ e) by (by rewrite <- !app_assoc) end.
  pose proof (unmoved_trans _ _ _ _ _ U4 (unmoved_trans _ _ _ _ _ U5 U6)) as V.
  refine (take_and_spawn _ _ _ _ _ _ _ _ _ _ Hc' _ _ H3 V H); [by rewrite Ur|by rewrite Us].
Qed.
Lemma visit_visited E c x c' e : counted c -> ref c < 2 ^ 31 - 2 -> worker_visit E c = Some (x, c', e) -> visited c c' e.
Proof.
  intros Hc Hb. unfold worker_visit. intros (c0 & c1 & e1 & e2 & [= <- <- <-] & H & ->)%bind_inv.
  destruct (_ <=? _); simpl in H; [by apply (timeouts_visited E _ x)|].
  apply acct_visited, unmoved_acct; [done|by apply still_ret in H].
Qed.

(** The FIN that cannot be sent moves nothing, and one that can be is. *)
Lemma tx_wait_fails E t c r c' e : shutdown_tx_wait E t c = Some (Done r, c', e) -> r <> 0 ->
  unmoved c c' e /\ ~ (alloc E 0 = true /\ net_tx_ip E 0 = 0).
Proof.
  unfold shutdown_tx_wait. intros (c0 & c1 & e1 & e2 & [= <- <- <-] & H & ->)%bind_inv Hr.
  destruct (tx_exclusive c); [by apply bind_inv in H as (? & ? & ? & ? & _ & ? & _)|].
  apply bind_inv in H as (r' & c1 & e1 & e3 & H1 & H & ->). destruct (r' =? 0) eqn:E0; simpl in H.
  - repeat apply bind_inv in H as (? & ? & ? & ? & _ & H & _). by injection H as <- _ _.
  - injection H as <- <- <-. rewrite app_nil_r. split; [by apply still_tx_ctl in H1|]. intros [Ha Hn].
    unfold tcp_tx_ctl in H1. rewrite Ha in H1.
    do 3 apply bind_inv in H1 as (? & ? & ? & ? & _ & H1 & _). apply bind_inv in H1 as (k & ? & ? & ? & K & H1 & _).
    apply bind_inv in H1 as (? & ? & ? & ? & _ & H1 & _). injection H1 as <- _ _.
    apply bind_inv in K as (? & ? & ? & ? & _ & K & _). injection K as <- _ _. lia.
Qed.

(** Closing is an accounted step and, when it is done, dropping a reference. *)
Definition closes {A} (c : tcpconn) (o : outcome A) (c' : tcpconn) (e : list effect) : Prop :=
  match o with
  | Blocked => acct c c' e
  | Done _ => exists c1 e1 e2, acct c c1 e1 /\ tcp_conn_put c1 = Some ((), c', e2) /\ e = e1 ++ e2
  end.

Lemma close_rest_closes E c c1 e1 o x c' e :
  counted c -> acct c c1 e1 -> (forall r, o = Done r -> r <> 0 -> state (pcb c1) <> CLOSED) ->
  close_rest E o c1 = Some (x, c', e) -> closes c x c' (e1 ++ e).
Proof.
  intros Hc A Hn H. destruct o as [|r]; simpl in H; [injection H as <- <- <-; by rewrite app_nil_r|].
  apply bind_inv in H as (? & c2 & e2 & e3 & H1 & H & ->). apply bind_inv in H as (? & c3 & e4 & e5 & H2 & H & ->).
  apply bind_inv in H as ([] & c4 & e6 & e7 & H3 & [= <- <- <-] & ->). simpl.
  assert (acct c1 c2 e2) as A2.
  { pose proof (acct_counted _ _ _ Hc A) as Hc1. destruct (r =? 0) eqn:Er; simpl in H1.
    - injection H1 as <- <- <-. by apply unmoved_acct.
    - apply (calm_fail _ _ _ _ _ _ (Hn r eq_refl ltac:(lia)) Hc1 H1). }
  pose proof (acct_trans _ _ _ _ _ A A2) as A3. apply still_shutdown_rx in H2.
  pose proof (unmoved_acct _ _ _ (acct_counted _ _ _ Hc A3) H2) as A4.
  exists c3, ((e1 ++ e2) ++ e4), e6. split; [by apply (acct_trans _ c2)|]. split; [done|]. by rewrite app_nil_r, <- !app_assoc.
Qed.

Lemma close_resume_closes E t c x c' e :
  counted c -> (state (pcb c) = CLOSED -> alloc E 0 = true /\ net_tx_ip E 0 = 0) ->
  tcp_close_resume E t c = Some (x, c', e) -> closes c x c' e.
Proof.
  intros Hc Hz (o & c1 & e1 & e2 & H1 & H2 & ->)%bind_inv.
  apply (close_rest_closes E c c1 e1 o); [done|by apply (calm_shutdown_tx_wait E t _ _ _ _ I Hc H1)| |done].
  intros r -> Hr E1. destruct (tx_wait_fails _ _ _ _ _ _ H1 Hr) as [[Us _ _ _ _] Hk]. apply Hk, Hz. congruence.
Qed.

(** A call that starts on a closed connection finds that direction closed. *)
Lemma close_closes E t c x c' e : counted c -> tcp_close E t c = Some (x, c', e) -> closes c x c' e.
Proof.
  intros Hc (? & c1 & e1 & e2 & [= <- <- <-] & H & ->)%bind_inv. apply bind_inv in H as (? & c1 & e1 & e3 & H0 & H & ->).
  unfold require in H0. destruct (bool_decide _); [|done]. injection H0 as <- <- <-. simpl.
  apply bind_inv in H as (o & c1 & e1 & e2 & H1 & H2 & ->).
  apply (close_rest_closes E c c1 e1 o); [done|by apply (calm_shutdown_tx E t _ _ _ _ I Hc H1)| |done].
  intros r -> Hr E1. unfold tcp_conn_shutdown_tx in H1. apply bind_inv in H1 as (? & ? & ? & ? & [= <- <- <-] & H1 & ->).
  destruct (tx_closed c) eqn:Et; [by injection H1 as <- _ _|].
  apply bind_inv in H1 as (? & c2 & ? & ? & H0 & H1 & ->). apply still_require in H0 as [Us _ _ _ _].
  destruct (tx_wait_fails _ _ _ _ _ _ H1 Hr) as [[Vs _ _ _ _] _].
  assert (fin_sent (state (pcb c)) = true) as F by (by rewrite <- Us, <- Vs, E1).
  by rewrite (ct_fin c Hc F) in Et.
Qed.

(** ** A connection and its holders *)

(** The calls of the application that do not end with its reference. *)
Inductive app_call :=
| CWriteWait (E : env) (t : tid) | CWrite (E : env) (buf : list Z) (winlen : Z)
| CWritev (Es : nat -> env) (E : env) (iov : list (list Z)) (winlen : Z)
| CReadWait (E : env) (t : tid) (len : Z) | CReadCopy (len : Z) (q : list mbuf) (mout : option mbuf)
| CShutdown (E : env) (t : tid) (how : Z) | CShutdownResume (E : env) (t : tid) (how : Z)
| CAbort (E : env) (t : tid) | CAbortResume (E : env) (t : tid) | CNonblocking (b : bool).

Definition run_call (a : app_call) : M unit :=
  match a with
  | CWriteWait E t => tcp_write_wait E t ;;; ret ()
  | CWrite E buf w => tcp_write E buf w ;;; ret ()
  | CWritev Es E iov w => tcp_writev Es E iov w ;;; ret ()
  | CReadWait E t len => tcp_read_wait E t len ;;; ret ()
  | CReadCopy len q m => tcp_read_copy len q m ;;; ret ()
  | CShutdown E t how => tcp_shutdown E t how ;;; ret ()
  | CShutdownResume E t how => tcp_shutdown_resume E t how ;;; ret ()
  | CAbort E t => tcp_abort E t ;;; ret ()
  | CAbortResume E t => abort_wait E t ;;; ret ()
  | CNonblocking b => tcp_set_nonblocking b
  end.

(** The connection, whether the application has it, the retransmission threads
    and how often [tcp_conn_destroy] was called. *)
Record held := Held { conn : tcpconn; app : bool; threads : nat; destroyed : Z }.

Definition after (s : held) (c : tcpconn) (e : list effect) (a : bool) (n : nat) : held :=
  Held c a n (destroyed s + tally is_destroy e).

(** Packets and timeouts may still come in after the connection was destroyed,
    until the RCU period is over.  Errors of the network come in only while the
    connection is open, and the FIN of a [tcp_close] that waited can be sent if
    the connection failed meanwhile: the code is wrong otherwise. *)
Inductive hstep (s : held) : held -> Prop :=
| HRx E h ip buf beyond nxt x c e :
    tcp_rx_conn E h ip buf beyond nxt (conn s) = Some (x, c, e) -> hstep s (after s c e (app s) (threads s))
| HErr E z x c e : state (pcb (conn s)) <> CLOSED ->
    tcp_conn_err E z (conn s) = Some (x, c, e) -> hstep s (after s c e (app s) (threads s))
| HVisit E x c e : Z.of_nat (threads s) < 2 ^ 30 -> worker_visit E (conn s) = Some (x, c, e) ->
    hstep s (after s c e (app s) (threads s + Z.to_nat (tally is_spawn e)))
| HRetransmitWait t n x c e : threads s = S n ->
    tcp_retransmit_wait t (conn s) = Some (x, c, e) -> hstep s (after s c e (app s) (S n))
| HRetransmit E taken n x c e : threads s = S n ->
    tcp_retransmit E taken (conn s) = Some (x, c, e) -> hstep s (after s c e (app s) n)
| HCall a x c e : app s = true ->
    run_call a (conn s) = Some (x, c, e) -> hstep s (after s c e true (threads s))
| HClose E t o c e : app s = true -> tcp_close E t (conn s) = Some (o, c, e) ->
    hstep s (after s c e (match o with Blocked => true | Done _ => false end) (threads s))
| HCloseResume E t o c e : app s = true ->
    (state (pcb (conn s)) = CLOSED -> alloc E 0 = true /\ net_tx_ip E 0 = 0) ->
    tcp_close_resume E t (conn s) = Some (o, c, e) ->
    hstep s (after s c e (match o with Blocked => true | Done _ => false end) (threads s)).

(** A connection the application gets from [tcp_dial] or [tcp_accept]. *)
Inductive born : tcpconn -> Prop :=
| BornDial crc32 seed my_addr mtu E ok id isn l r nb s d entry c ef s' :
    tcp_dial_start crc32 seed my_addr mtu E ok id isn l r nb s = Some (d, ef, s') ->
    d = Dialled entry c \/ d = DialInProgress entry c -> born c
| BornAccept crc32 seed my_addr mtu E ok id isn l r h ip buf beyond s c ef s' :
    tcp_rx_listener crc32 seed my_addr mtu E ok id isn l r h ip buf beyond s = Some (Some c, ef, s') -> born c.

(** ** The count is right *)

Record hinv (s : held) : Prop := {
  hi_ref : ref (conn s) = Z.b2z (app s) + Z.of_nat (threads s) + live (conn s);
  hi_fin : fin_sent (state (pcb (conn s))) = true -> tx_closed (conn s) = true;
  hi_max : Z.of_nat (threads s) <= 2 ^ 30 + 1;
  hi_destroyed : destroyed s = if ref (conn s) =? 0 then 1 else 0
}.

Lemma hinv_counted s : hinv s -> counted (conn s).
Proof. intros [H1 H2 H3 _]. split; [|done]. destruct (app s), (live_01 (conn s)); simpl in *; lia. Qed.

Lemma hinv_visit s c e : hinv s -> visited (conn s) c e -> Z.of_nat (threads s) + tally is_spawn e <= 2 ^ 30 + 1 ->
  hinv (after s c e (app s) (threads s + Z.to_nat (tally is_spawn e))).
Proof.
  intros [H1 H2 H3 H4] [V1 V2 V3 _ V4] Ht. assert (0 <= tally is_spawn e) by (unfold tally; lia).
  split; simpl; [lia|done|lia|]. rewrite H4, V4.
  assert (0 <= Z.b2z (app s)) by (destruct (app s); simpl; lia).
  destruct (decide (state (pcb (conn s)) = CLOSED)) as [E|E].
  - destruct (V3 E) as [Ec Es]. rewrite (live_closed _ E), (live_closed c Ec), Es in *.
    replace (ref c) with (ref (conn s)) by lia. simpl. lia.
  - rewrite (live_open _ E) in *. destruct (live_01 c) as [E1|E1]; rewrite E1 in *; simpl.
    + replace (ref (conn s) =? 0) with false by lia. lia.
    + replace (ref (conn s) =? 0) with false by lia. by replace (ref c =? 0) with false by lia.
Qed.
Lemma hinv_acct s c e : hinv s -> acct (conn s) c e -> hinv (after s c e (app s) (threads s)).
Proof.
  intros Hi A.
  replace (after s c e (app s) (threads s)) with (after s c e (app s) (threads s + Z.to_nat (tally is_spawn e)))
    by (by rewrite (ac_spawn _ _ _ A), Nat.add_0_r).
  apply hinv_visit; [done|by apply acct_visited|]. rewrite (ac_spawn _ _ _ A). destruct Hi. lia.
Qed.

(** A holder drops its reference. *)
Lemma hinv_put s x c e a n : hinv s -> tcp_conn_put (conn s) = Some (x, c, e) ->
  Z.b2z a + Z.of_nat n + 1 = Z.b2z (app s) + Z.of_nat (threads s) -> (n <= threads s)%nat -> hinv (after s c e a n).
Proof.
  intros Hi H Hn Hle. pose proof (hinv_counted s Hi) as [Hc _]. destruct Hi as [H1 H2 H3 H4].
  assert (0 <= Z.b2z a) by (destruct a; simpl; lia).
  pose proof (live_01 (conn s)). destruct (put_spec (conn s) _ _ _ ltac:(lia) H) as (P1 & P2 & P3 & P4 & P5).
  assert (live c = live (conn s)) as El by (unfold live; by rewrite P1).
  split; simpl; rewrite ?P1, ?P2, ?El; [lia|done|lia|]. rewrite H4, P4.
  by replace (ref (conn s) =? 0) with false by lia.
Qed.

(** The reference cannot be dropped from under an open connection. *)
Lemma hinv_put_ok s : hinv s -> app s = true \/ threads s <> 0%nat -> is_Some (tcp_conn_put (conn s)).
Proof.
  intros Hi Hh. pose proof (hinv_counted s Hi) as [Hc _]. destruct Hi as [H1 _ _ _]. pose proof (live_01 (conn s)) as Hl.
  assert (0 < Z.b2z (app s) + Z.of_nat (threads s)) by (destruct Hh as [->|]; [simpl; lia|destruct (app s); simpl; lia]).
  unfold tcp_conn_put, bind, get, atomic_dec_and_test, atomic_sub_and_fetch. simpl.
  rewrite s32_small by (unfold is_s32; lia). destruct (ref (conn s) - 1 =? 0) eqn:E; [|by eexists].
  assert (live (conn s) = 0) as E0 by lia. unfold live in E0. unfold when, modify, require.
  destruct (st_eqb (state (pcb (conn s))) CLOSED); [by eexists|done].
Qed.

Lemma calm_call a : calm any (run_call a).
Proof.
  destruct a; simpl; try (apply calm_still; by still); (apply calm_bind; [|intros; apply calm_still; by still]);
    auto using calm_shutdown, calm_shutdown_resume, calm_abort.
Qed.

Lemma hinv_closes s o c e : hinv s -> app s = true -> closes (A := unit) (conn s) o c e ->
  hinv (after s c e (match o with Blocked => true | Done _ => false end) (threads s)).
Proof.
  intros Hi Ha H. destruct o as [|u]; simpl in H; [rewrite <- Ha; by apply hinv_acct|].
  destruct H as (c1 & e1 & e2 & A & P & ->). pose proof (hinv_acct s c1 e1 Hi A) as Hi1.
  pose proof (hinv_put _ _ _ _ false (threads s) Hi1 P) as Hi2. unfold after in *. simpl in *.
  rewrite tally_app, Z.add_assoc. apply Hi2; [|lia]. rewrite Ha. simpl. lia.
Qed.


Lemma hstep_inv s s' : hinv s -> hstep s s' -> hinv s'.
Proof.
  intros Hi H. pose proof (hinv_counted s Hi) as Hc.
  destruct H as [E h ip buf beyond nxt x c e H|E z x c e Hs H|E x c e Ht H|t n x c e Hn H|E taken n x c e Hn H
    |a x c e Ha H|E t o c e Ha H|E t o c e Ha Hz H].
  - apply hinv_acct; [done|]. by apply (calm_rx_conn _ _ _ _ _ _ _ _ _ _ I Hc H).
  - apply hinv_acct; [done|]. by apply (calm_fail _ _ _ _ _ _ Hs Hc H).
  - assert (visited (conn s) c e) as V.
    { apply (visit_visited E _ x); [done| |done]. destruct Hi. destruct (app s), (live_01 (conn s)); simpl in *; lia. }
    apply hinv_visit; [done|done|]. destruct V. lia.
  - rewrite <- Hn. apply hinv_acct; [done|]. apply unmoved_acct; [done|]. by apply still_retransmit_wait in H.
  - apply bind_inv in H as (? & c1 & e1 & e2 & H1 & H & ->).
    match type of H1 with ?m _ = _ => assert (still m) as S1 by still end. apply S1 in H1.
    pose proof (hinv_acct s c1 e1 Hi (unmoved_acct _ _ _ Hc H1)) as Hi1.
    pose proof (hinv_put _ _ _ _ (app s) n Hi1 H) as Hi2. unfold after in *. simpl in *.
    rewrite tally_app, Z.add_assoc. apply Hi2; lia.
  - rewrite <- Ha. apply hinv_acct; [done|]. by apply (calm_call a _ _ _ _ I Hc H).
  - apply hinv_closes; [done|done|]. by apply (close_closes E t).
  - apply hinv_closes; [done|done|]. by apply (close_resume_closes E t).
Qed.

(** The reference for the state machine is taken when a connection is opened. *)
Lemma start_counted E st c x c' e : ref c = 1 -> tx_closed c = false ->
  (tcp_conn_get ;;; tcp_conn_set_state E st) c = Some (x, c', e) ->
  ref c' = 2 /\ state (pcb c') = st /\ tx_closed c' = false.
Proof.
  intros Hr Ht (? & c1 & e1 & e2 & [= <- <- <-] & H & _)%bind_inv. apply set_state_moves in H as [U1 U2 U3 _ _].
  simpl in *. rewrite U2, U1, U3, Hr. done.
Qed.

Definition fresh_open (c : tcpconn) : Prop := fin_sent (state (pcb c)) = false /\ ref c = 2.

Lemma dial_fresh crc32 seed my_addr mtu E ok id isn l r nb s d entry c ef s' :
  tcp_dial_start crc32 seed my_addr mtu E ok id isn l r nb s = Some (d, ef, s') ->
  d = Dialled entry c \/ d = DialInProgress entry c -> fresh_open c.
Proof.
  intros H Hd. unfold tcp_dial_start in H. destruct ok; simpl in H; [|by injection H as <- _ _; destruct Hd].
  destruct (tcp_conn_attach _ _ _ _ _ _ _) as [[r1 e1] s1]. destruct (negb (r1 =? 0)); [by injection H as <- _ _; destruct Hd|].
  destruct (tcp_tx_ctl _ _ _ _ _) as [[[r2 c2] e2]|] eqn:Ec; [|done]. cbn [mbind option_bind] in H.
  destruct (negb (r2 =? 0)); [by injection H as <- _ _; destruct Hd|].
  destruct ((tcp_conn_get ;;; tcp_conn_set_state E SYN_SENT) c2) as [[[x3 c3] e3]|] eqn:Eg; [|done]. cbn [mbind option_bind] in H.
  apply still_tx_ctl in Ec as [_ U2 U3 _ _]. destruct (start_counted _ _ _ _ _ _ U2 U3 Eg) as (R1 & R2 & R3).
  assert (c = c3) as -> by (injection H as <- _ _; destruct nb; destruct Hd as [Hd|Hd]; congruence).
  split; [by rewrite R2|done].
Qed.

Lemma listener_fresh crc32 seed my_addr mtu E ok id isn l r h ip buf beyond s c ef s' :
  tcp_rx_listener crc32 seed my_addr mtu E ok id isn l r h ip buf beyond s = Some (Some c, ef, s') -> fresh_open c.
Proof.
  unfold tcp_rx_listener. intros H. destruct (has (h_flags h) TCP_RST); [done|].
  destruct (has (h_flags h) TCP_ACK); [by destruct (tcp_tx_raw_rst _ _ _ _) as [[[? ?] ?]|]|].
  destruct (negb (has _ _)); [done|]. cbv zeta in H. destruct (negb (_ =? _)); [done|].
  destruct (_ || _); [done|]. destruct ok; [|done]. simpl in H.
  destruct (accept_syn _ _ _ _ _) as [[en c0]|] eqn:Ea; [|done]. cbn [mbind option_bind] in H.
  destruct (tcp_conn_attach _ _ _ _ _ _ _) as [[r1 e1] s1]. destruct (negb (r1 =? 0)); [done|].
  destruct (tcp_tx_ctl _ _ _ _ _) as [[[r2 c2] e2]|] eqn:Ec; [|done]. cbn [mbind option_bind] in H.
  destruct (negb (r2 =? 0)); [done|].
  destruct ((tcp_conn_get ;;; tcp_conn_set_state E SYN_RECEIVED) c2) as [[[x3 c3] e3]|] eqn:Eg; [|done]. cbn [mbind option_bind] in H.
  injection H as <- _ _. unfold accept_syn in Ea.
  destruct (tcp_parse_options _ _ _) as [[[en' c1] e4]|] eqn:Ep; [|done]. injection Ea as _ <-.
  apply still_parse_options in Ep as [_ V2 V3 _ _]. apply still_tx_ctl in Ec as [_ U2 U3 _ _]. simpl in *.
  destruct (start_counted E SYN_RECEIVED c2 x3 c3 e3) as (R1 & R2 & R3); [congruence|congruence|done|].
  split; [by rewrite R2|done].
Qed.

Lemma born_hinv c : born c -> hinv (Held c true 0 0).
Proof.
  intros Hb. assert (fresh_open c) as [Hf Hr].
  { destruct Hb; [by eapply dial_fresh|by eapply listener_fresh]. }
  split; simpl; [|by rewrite Hf|lia|by rewrite Hr]. rewrite Hr, live_open; [done|]. intros Hk. by rewrite Hk in Hf.
Qed.

(** C16: the reference count of a connection, from [tcp_dial] or [tcp_accept] on and
    through any sequence of segments, timeouts, retransmission threads, calls of the
    application up to [tcp_close], and network errors that come while the connection is
    not CLOSED: the count is the number of holders (the application, the state machine
    while the connection is not closed, the retransmission threads); [tcp_conn_destroy] is
    called exactly once, when the last of them is gone, and not before; and a holder that
    drops its reference never runs into the [BUG_ON] for a connection that is still open.
    When a [tcp_close] that waited finds the connection CLOSED, its FIN must be allocated
    and sent, and there are at most [2^30] retransmission threads when the worker visits. *)
Theorem tcp_refcount_exact c s :
  born c -> rtc hstep (Held c true 0 0) s ->
  ref (conn s) = Z.b2z (app s) + Z.of_nat (threads s) + live (conn s) /\
  destroyed s = (if negb (app s) && (threads s =? 0)%nat && st_eqb (state (pcb (conn s))) CLOSED then 1 else 0) /\
  (app s = true \/ threads s <> 0%nat -> is_Some (tcp_conn_put (conn s))).
Proof.
  intros Hb Hr. assert (hinv s) as Hi.
  { apply born_hinv in Hb. induction Hr as [|a b d Hab _ IH]; [done|]. by apply IH, (hstep_inv a). }
  pose proof Hi as [H1 _ _ H4]. split; [done|]. split; [|by apply hinv_put_ok].
  rewrite H4, H1. unfold live. destruct (app s), (threads s) as [|n], (st_eqb _ _); simpl; try done; lia.
Qed.

Definition demo_env : env := Env 5 (fun _ => true) (fun _ => 0).
Definition demo_dial := tcp_dial_start (fun s x => s + x) 0 10 1500 demo_env true 1 7 (NetAddr 0 0) (NetAddr 20 80) false demo_stack.
Definition demo_conn : tcpconn :=
  match demo_dial with Some (Dialled _ c, _, _) => c | _ => tcp_conn_alloc 0 0 end.

(** A connection that is dialled, aborted and closed. *)
Lemma tcp_refcount_exact_witness : exists s,
  born demo_conn /\ rtc hstep (Held demo_conn true 0 0) s /\ app s = false /\ destroyed s = 1.
Proof.
  assert (born demo_conn) as Hb.
  { eapply (BornDial (fun s x => s + x) 0 10 1500 demo_env true 1 7 (NetAddr 0 0) (NetAddr 20 80) false demo_stack).
    - vm_compute. reflexivity.
    - left. vm_compute. reflexivity. }
  assert (exists s, rtc hstep (Held demo_conn true 0 0) s /\
            app s = false /\ threads s = 0%nat /\ state (pcb (conn s)) = CLOSED) as (s & Hr & Ha & Ht & Hs).
  { eexists. split; [eapply rtc_l; [|eapply rtc_l; [|apply rtc_refl]]|].
    - eapply (HCall _ (CAbort demo_env 1)); [reflexivity|]. vm_compute. reflexivity.
    - eapply (HClose _ demo_env 1 (Done ())); [reflexivity|]. vm_compute. reflexivity.
    - vm_compute. auto. }
  exists s. split; [exact Hb|]. split; [exact Hr|]. split; [exact Ha|].
  destruct (tcp_refcount_exact demo_conn s Hb Hr) as (_ & Hd & _). rewrite Hd, Ha, Ht, Hs. reflexivity.
Defined.
