(* ===== verification/Chksum.v ===== *)
(** * Internet checksums

    Models [inc/asm/chksum.h], instruction by instruction with the carry flag, and
    [inc/net/chksum.h].  A buffer is the list of its bytes; the machine is
    little-endian.  The reference is the 16-bit one's complement sum of RFC 1071. *)

From S2P Require Import Prelude StdDef.

(** ** The routines *)

(** Bytes in memory as a little-endian number. *)
Fixpoint le (l : list Z) : Z := match l with [] => 0 | b :: l => b + 256 * le l end.
Definition load (n : nat) (buf : list Z) : Z := le (take n buf).
Definition bytes_be16 (x : Z) : list Z := [Z.shiftr x 8 mod 256; x mod 256].
Definition bytes_be32 (x : Z) : list Z := bytes_be16 (Z.shiftr x 16) ++ bytes_be16 (u16 x).
Definition bytes_le16 (x : Z) : list Z := [x mod 256; Z.shiftr x 8 mod 256].

(** [adc] on operands of [w] bits: the sum and the carry flag. *)
Definition adc (w x y : Z) (cf : bool) : Z * bool := let s := x + y + Z.b2z cf in (s mod 2 ^ w, 2 ^ w <=? s).
(** An [add] followed by [adc $0]. *)
Definition add_adc (w x y : Z) : Z := let '(s, cf) := adc w x y false in (adc w s 0 cf).1.

Fixpoint adc_loop (n : nat) (sum : Z) (cf : bool) (buf : list Z) : Z * bool * list Z :=
  match n with
  | O => (sum, cf, buf)
  | S n => let '(sum, cf) := adc 64 sum (load 8 buf) cf in adc_loop n sum cf (drop 8 buf)
  end.
(** What is left of the buffer, [n] bytes if this bit of the length is set. *)
Definition add_tail (len : Z) (n : nat) (st : Z * list Z) : Z * list Z :=
  let '(sum, buf) := st in
  if Z.land len (Z.of_nat n) =? 0 then (sum, buf) else (add_adc 64 sum (load n buf), drop n buf).
Definition fold_sum (sum : Z) : Z :=
  let x := add_adc 32 (Z.shiftr sum 32) (u32 sum) in
  add_adc 16 (Z.shiftr x 16) (u16 x).
Definition chksum_internet (buf : list Z) : Z :=
  let len := Z.of_nat (length buf) in
  let edx := Z.shiftr len 3 in
  let st := if edx =? 0 then (0, buf)
            else let '(sum, cf, rest) := adc_loop (Z.to_nat edx) 0 false buf in ((adc 64 sum 0 cf).1, rest) in
  let st := add_tail len 1 (add_tail len 2 (add_tail len 4 st)) in
  u16 (Z.lnot (fold_sum st.1)).

(** [__raw_cksum]: its two loops, which take four words and one word at a time. *)
Fixpoint raw_words (buf : list Z) (sum : Z) : Z :=
  match buf with
  | a :: b :: buf => raw_words buf (u32 (sum + (a + 256 * b)))
  | [a] => u32 (sum + a)
  | [] => sum
  end.
Fixpoint raw_blocks (n : nat) (buf : list Z) (sum : Z) : list Z * Z :=
  match n with
  | O => (buf, sum)
  | S n =>
      let sum := u32 (sum + load 2 buf) in
      let sum := u32 (sum + load 2 (drop 2 buf)) in
      let sum := u32 (sum + load 2 (drop 4 buf)) in
      let sum := u32 (sum + load 2 (drop 6 buf)) in
      raw_blocks n (drop 8 buf) sum
  end.
Definition raw_cksum_sum (buf : list Z) (sum : Z) : Z :=
  let '(buf, sum) := raw_blocks (length buf / 8) buf sum in raw_words buf sum.
Definition raw_cksum_fold (sum : Z) : Z := u32 (Z.shiftr (Z.land sum 0xffff0000) 16 + Z.land sum 0xffff).
Definition raw_cksum_reduce (sum : Z) : Z := u16 (raw_cksum_fold (raw_cksum_fold sum)).
Definition raw_cksum (buf : list Z) : Z := raw_cksum_reduce (raw_cksum_sum buf 0).

(** The pseudo header as it lies in memory. *)
Definition psd_hdr (proto saddr daddr l4len : Z) : list Z :=
  bytes_be32 saddr ++ bytes_be32 daddr ++ [0; proto] ++ bytes_be16 l4len.
Definition ipv4_phdr_cksum (proto saddr daddr l4len : Z) : Z := raw_cksum (psd_hdr proto saddr daddr l4len).
Definition ipv4_udptcp_cksum (proto saddr daddr l4len : Z) (l4hdr : list Z) : Z :=
  let cksum := raw_cksum l4hdr in
  let cksum := u32 (cksum + ipv4_phdr_cksum proto saddr daddr l4len) in
  let cksum := raw_cksum_fold cksum in
  let cksum := Z.land (u32 (Z.lnot cksum)) 0xffff in
  u16 (if cksum =? 0 then 0xffff else cksum).

(** ** One's complement sums *)

Definition bytes (l : list Z) : Prop := Forall (fun b => 0 <= b < 256) l.
Fixpoint sum16 (l : list Z) : Z := match l with a :: b :: l => a + 256 * b + sum16 l | [a] => a | [] => 0 end.
(** The 16-bit representative of a sum: zero only for an empty sum. *)
Definition norm (s : Z) : Z := if s =? 0 then 0 else (s - 1) mod 65535 + 1.
(** Numbers with the same one's complement sum. *)
Definition same (x y : Z) : Prop := 0 <= x /\ 0 <= y /\ (exists k, x = y + 65535 * k) /\ (x = 0 <-> y = 0).

Lemma same_sum_refl x : 0 <= x -> same x x.
Proof. intros. split; [done|]. split; [done|]. split; [exists 0; lia|done]. Qed.
Lemma same_sum_trans x y z : same x y -> same y z -> same x z.
Proof.
  intros (H1 & H2 & [k ->] & H3) (_ & H4 & [k' ->] & H5). split; [done|]. split; [done|]. split; [exists (k + k'); lia|tauto].
Qed.
Lemma same_add x y x' y' : same x x' -> same y y' -> same (x + y) (x' + y').
Proof.
  intros (H1 & H2 & [k ->] & H3) (H4 & H5 & [k' ->] & H6). split; [lia|]. split; [lia|]. split; [exists (k + k'); lia|lia].
Qed.
Lemma same_shift x y k : 0 <= k -> same x y -> same (x * (1 + 65535 * k)) y.
Proof.
  intros Hk (H1 & H2 & [j ->] & H3). split; [nia|]. split; [done|]. split; [exists (j + k * (y + 65535 * j)); lia|nia].
Qed.
Lemma same_norm x s : 0 <= x < 65536 -> same x s -> x = norm s.
Proof.
  intros Hx (_ & Hs & [k E] & H0). unfold norm. destruct (s =? 0) eqn:Es; [apply Z.eqb_eq in Es; tauto|]. apply Z.eqb_neq in Es.
  replace (s - 1) with (x - 1 + (- k) * 65535) by lia. rewrite Z_mod_plus_full, Z.mod_small by lia. lia.
Qed.
Lemma norm_same s : 0 <= s -> same (norm s) s /\ 0 <= norm s < 65536.
Proof.
  intros Hs. unfold norm. destruct (s =? 0) eqn:Es; [apply Z.eqb_eq in Es as ->; split; [by apply same_sum_refl|lia]|]. apply Z.eqb_neq in Es.
  pose proof (Z.mod_pos_bound (s - 1) 65535 ltac:(lia)) as Hb. split; [|lia]. split; [lia|]. split; [done|]. split; [|lia].
  exists (- ((s - 1) / 65535)). pose proof (Z.div_mod (s - 1) 65535). lia.
Qed.

Lemma sum16_app l k : Nat.Even (length l) -> sum16 (l ++ k) = sum16 l + sum16 k.
Proof.
  induction l as [l IH] using (induction_ltof1 _ length). unfold ltof in IH. destruct l as [|a [|b l]]; intros Hev; [done|by apply Nat.even_spec in Hev|].
  simpl. rewrite IH; [lia|simpl; lia|]. apply Nat.even_spec in Hev. by apply Nat.even_spec.
Qed.
Lemma bytes_both l k : bytes (l ++ k) <-> bytes l /\ bytes k.
Proof. apply Forall_app. Qed.
Lemma bytes_take n l : bytes l -> bytes (take n l).
Proof. apply Forall_take. Qed.
Lemma bytes_drop n l : bytes l -> bytes (drop n l).
Proof. apply Forall_drop. Qed.
Lemma sum16_le l : bytes l -> same (le l) (sum16 l).
Proof.
  induction l as [l IH] using (induction_ltof1 _ length). unfold ltof in IH. destruct l as [|a [|b l]]; intros Hb.
  - by apply same_sum_refl.
  - apply Forall_cons in Hb as [Ha _]. simpl. rewrite Z.mul_0_r, Z.add_0_r. apply same_sum_refl. lia.
  - apply Forall_cons in Hb as [Ha [Hb Hl]%Forall_cons]. simpl. replace (a + 256 * (b + 256 * le l)) with (a + 256 * b + le l * (1 + 65535 * 1)) by lia.
    apply same_add; [apply same_sum_refl; lia|]. apply same_shift; [lia|]. apply IH; [simpl; lia|done].
Qed.
Lemma le_bound l : bytes l -> 0 <= le l < 256 ^ Z.of_nat (length l).
Proof.
  induction 1 as [|b l Hb Hl IH]; [done|]. simpl length. rewrite Nat2Z.inj_succ, Z.pow_succ_r by lia. cbn [le]. lia.
Qed.
Lemma load_spec n buf : bytes buf -> 0 <= load n buf < 256 ^ Z.of_nat n /\ same (load n buf) (sum16 (take n buf)).
Proof.
  intros Hb. unfold load. pose proof (bytes_take n buf Hb) as Ht. split; [|by apply sum16_le]. pose proof (le_bound _ Ht) as Hl.
  assert (256 ^ Z.of_nat (length (take n buf)) <= 256 ^ Z.of_nat n) by (apply Z.pow_le_mono_r; [lia|]; rewrite length_take; lia). lia.
Qed.
Lemma sum16_split n buf : Nat.Even n -> (n <= length buf)%nat -> sum16 buf = sum16 (take n buf) + sum16 (drop n buf).
Proof. intros He Hn. rewrite <- sum16_app; [by rewrite take_drop|]. by rewrite length_take_le. Qed.

(** Addition with the carry added back is one's complement addition. *)
Lemma pow2_factor w : w = 16 \/ w = 32 \/ w = 64 -> exists k, 0 <= k /\ 2 ^ w = 1 + 65535 * k.
Proof. intros [->|[->| ->]]; [exists 1|exists 65537|exists 281479271743489]; done. Qed.
Lemma add_adc_spec w x y : w = 16 \/ w = 32 \/ w = 64 -> 0 <= x < 2 ^ w -> 0 <= y < 2 ^ w ->
  0 <= add_adc w x y < 2 ^ w /\ same (add_adc w x y) (x + y).
Proof.
  intros Hw Hx Hy. destruct (pow2_factor w Hw) as (k & Hk & E). unfold add_adc, adc. cbn [Z.b2z fst]. rewrite !Z.add_0_r.
  destruct (2 ^ w <=? x + y) eqn:Ec; cbn [Z.b2z].
  - apply Z.leb_le in Ec. assert ((x + y) mod 2 ^ w = x + y - 2 ^ w) as -> by (symmetry; apply (Z.mod_unique _ _ 1); lia).
    rewrite Z.mod_small by lia. split; [lia|]. split; [lia|]. split; [lia|]. split; [exists (- k); lia|lia].
  - apply Z.leb_gt in Ec. rewrite (Z.mod_small (x + y)) by lia. rewrite Z.mod_small by lia. split; [lia|].
    rewrite Z.add_0_r. apply same_sum_refl. lia.
Qed.

(** The loop keeps the carry apart; a carry leaves room for it. *)
Lemma adc_loop_spec n sum cf buf : bytes buf -> (8 * n <= length buf)%nat -> 0 <= sum < 2 ^ 64 -> (cf = true -> sum < 2 ^ 64 - 1) ->
  exists sum' cf', adc_loop n sum cf buf = (sum', cf', drop (8 * n) buf) /\ 0 <= sum' < 2 ^ 64 /\ (cf' = true -> sum' < 2 ^ 64 - 1) /\
  same (sum' + Z.b2z cf') (sum + Z.b2z cf + sum16 (take (8 * n) buf)).
Proof.
  revert sum cf buf. induction n as [|n IH]; intros sum cf buf Hb Hl Hs Hcf; cbn [adc_loop].
  - exists sum, cf. rewrite drop_0. split; [done|]. split; [done|]. split; [done|]. simpl. rewrite Z.add_0_r. apply same_sum_refl. destruct cf; simpl; lia.
  - destruct (load_spec 8 buf Hb) as [Hw Hsame]. change (256 ^ Z.of_nat 8) with (2 ^ 64) in Hw. destruct (pow2_factor 64 ltac:(tauto)) as (k & Hk & E).
    unfold adc. set (s := sum + load 8 buf + Z.b2z cf).
    assert (0 <= s mod 2 ^ 64 < 2 ^ 64) as Hr by (apply Z.mod_pos_bound; lia).
    assert (((2 ^ 64 <=? s) = true -> s mod 2 ^ 64 < 2 ^ 64 - 1) /\ same (s mod 2 ^ 64 + Z.b2z (2 ^ 64 <=? s)) s) as [Hc Hss].
    { destruct (2 ^ 64 <=? s) eqn:Ec; [apply Z.leb_le in Ec|apply Z.leb_gt in Ec].
      - assert (s mod 2 ^ 64 = s - 2 ^ 64) as -> by (symmetry; apply (Z.mod_unique _ _ 1); destruct cf; simpl in *; lia).
        split; [intros _; destruct cf; simpl in *; lia|]. simpl. split; [lia|]. split; [lia|]. split; [exists (- k); lia|lia].
      - rewrite Z.mod_small by (destruct cf; simpl in *; lia). split; [done|]. simpl. rewrite Z.add_0_r. apply same_sum_refl. destruct cf; simpl in *; lia. }
    destruct (IH (s mod 2 ^ 64) (2 ^ 64 <=? s) (drop 8 buf)) as (sum' & cf' & -> & H1 & H2 & H3); [by apply bytes_drop|rewrite length_drop; lia|lia|done|].
    exists sum', cf'. rewrite drop_drop. replace (8 + 8 * n)%nat with (8 * S n)%nat by lia. split; [done|]. split; [done|]. split; [done|].
    refine (same_sum_trans _ _ _ H3 _). replace (sum16 (take (8 * S n) buf)) with (sum16 (take 8 buf) + sum16 (take (8 * n) (drop 8 buf))).
    + rewrite Z.add_assoc. apply same_add; [|apply same_sum_refl; apply sum16_le, bytes_take, bytes_drop, Hb].
      refine (same_sum_trans _ _ _ Hss _). unfold s. replace (sum + load 8 buf + Z.b2z cf) with (sum + Z.b2z cf + load 8 buf) by lia.
      apply same_add; [apply same_sum_refl; destruct cf; simpl; lia|done].
    + replace (8 * S n)%nat with (8 + 8 * n)%nat by lia. rewrite (sum16_split 8 (take (8 + 8 * n) buf)); [|by apply Nat.even_spec|rewrite length_take; lia].
      by rewrite take_take, skipn_firstn_comm, Nat.min_l, Nat.add_sub_swap, Nat.sub_diag by lia.
Qed.

Lemma mod_pow2_succ x k : 0 <= k -> x mod 2 ^ (k + 1) = x mod 2 ^ k + (if Z.testbit x k then 2 ^ k else 0).
Proof.
  intros Hk. rewrite Z.testbit_eqb by done. rewrite Z.pow_add_r, Z.rem_mul_r by lia. change (2 ^ 1) with 2.
  pose proof (Z.mod_pos_bound (x / 2 ^ k) 2 ltac:(lia)). destruct (_ =? 1) eqn:E; [apply Z.eqb_eq in E|apply Z.eqb_neq in E]; nia.
Qed.
(** The part of the buffer that is summed, [st]: what is left of it has the bytes that
    the low [k] bits of the length count. *)
Definition tail_ok (buf : list Z) (k : Z) (st : Z * list Z) : Prop :=
  bytes st.2 /\ Z.of_nat (length st.2) = Z.of_nat (length buf) mod 2 ^ k /\ 0 <= st.1 < 2 ^ 64 /\ same (st.1 + sum16 st.2) (sum16 buf).
Lemma add_tail_ok buf k n st : 0 <= k <= 2 -> Z.of_nat n = 2 ^ k -> tail_ok buf (k + 1) st -> tail_ok buf k (add_tail (Z.of_nat (length buf)) n st).
Proof.
  destruct st as [sum rest]. intros Hk Hn (Hb & Hl & Hs & Hsame). cbn [fst snd] in *. unfold add_tail. rewrite Hn, land_pow2_ne0 by lia.
  rewrite mod_pow2_succ in Hl by lia. destruct (Z.testbit _ k) eqn:Et; cbn [negb].
  2: { split; [done|]. split; [cbn [snd]; lia|]. by split. }
  assert (0 <= Z.of_nat (length buf) mod 2 ^ k) by (apply Z.mod_pos_bound; lia).
  destruct (load_spec n rest Hb) as [Hw Hsw]. assert (256 ^ Z.of_nat n <= 256 ^ 4) by (apply Z.pow_le_mono_r; [lia|]; rewrite Hn; change 4 with (2 ^ 2); apply Z.pow_le_mono_r; lia).
  assert (256 ^ 4 < 2 ^ 64) by done. destruct (add_adc_spec 64 sum (load n rest)) as [Ha Has]; [tauto|lia|lia|].
  split; [by apply bytes_drop|]. split; [cbn [snd]; rewrite length_drop; lia|]. split; [done|]. cbn [fst snd].
  assert (sum16 rest = sum16 (take n rest) + sum16 (drop n rest)) as Esum.
  { destruct (decide (k = 0)) as [->|Hk0]; [|apply sum16_split; [|lia]].
    - change (2 ^ 0) with 1 in *. rewrite Z.mod_1_r in Hl. assert (n = 1%nat) as -> by lia. destruct rest as [|a [|b rest]]; simpl in *; lia.
    - assert (n = 2%nat \/ n = 4%nat) as [-> | ->]; [|by apply Nat.even_spec|by apply Nat.even_spec].
      assert (k = 1 \/ k = 2) as [-> | ->] by lia; [left|right]; change (2 ^ 1) with 2 in Hn; change (2 ^ 2) with 4 in Hn; lia. }
  refine (same_sum_trans _ _ _ _ Hsame). rewrite Esum, Z.add_assoc. apply same_add; [|apply same_sum_refl, sum16_le, bytes_drop, Hb].
  refine (same_sum_trans _ _ _ Has _). apply same_add; [apply same_sum_refl; lia|done].
Qed.

Lemma shiftr_split x k : 0 <= k -> 0 <= x -> x = Z.shiftr x k * 2 ^ k + x mod 2 ^ k.
Proof. intros. rewrite Z.shiftr_div_pow2 by lia. pose proof (Z.div_mod x (2 ^ k)). lia. Qed.
(** Adding the halves of a number keeps its one's complement sum. *)
Lemma fold_halves x w : w = 16 \/ w = 32 -> 0 <= x < 2 ^ (2 * w) ->
  0 <= add_adc w (Z.shiftr x w) (x mod 2 ^ w) < 2 ^ w /\ same (add_adc w (Z.shiftr x w) (x mod 2 ^ w)) x.
Proof.
  intros Hw Hx. pose proof (shiftr_split x w ltac:(lia) ltac:(lia)) as E. pose proof (Z.mod_pos_bound x (2 ^ w) ltac:(lia)) as Hm.
  assert (0 <= Z.shiftr x w < 2 ^ w) as Hh.
  { rewrite Z.shiftr_div_pow2 by lia. split; [apply Z.div_pos; lia|]. apply Z.div_lt_upper_bound; [lia|]. rewrite <- Z.pow_add_r by lia. replace (w + w) with (2 * w) by lia. lia. }
  destruct (add_adc_spec w (Z.shiftr x w) (x mod 2 ^ w)) as [H1 H2]; [tauto|done|done|]. split; [done|]. refine (same_sum_trans _ _ _ H2 _).
  destruct (pow2_factor w) as (k & Hk & Ek); [tauto|]. rewrite E at 3. rewrite Ek at 2.
  destruct (same_add (Z.shiftr x w * (1 + 65535 * k)) (x mod 2 ^ w) (Z.shiftr x w) (x mod 2 ^ w)) as (A & B & [j C] & D);
    [apply same_shift; [done|]; apply same_sum_refl; lia|apply same_sum_refl; lia|]. split; [lia|]. split; [lia|]. split; [exists (- j); lia|tauto].
Qed.
Lemma fold_sum_spec sum : 0 <= sum < 2 ^ 64 -> 0 <= fold_sum sum < 65536 /\ same (fold_sum sum) sum.
Proof.
  intros Hs. unfold fold_sum, u32, u16. destruct (fold_halves sum 32) as [H1 H2]; [tauto|done|]. set (x := add_adc 32 _ _) in *.
  destruct (fold_halves x 16) as [H3 H4]; [tauto|done|]. split; [done|]. by apply (same_sum_trans _ _ _ H4).
Qed.

Lemma words_ok buf : bytes buf -> let edx := Z.shiftr (Z.of_nat (length buf)) 3 in
  tail_ok buf 3 (if edx =? 0 then (0, buf) else let '(sum, cf, rest) := adc_loop (Z.to_nat edx) 0 false buf in ((adc 64 sum 0 cf).1, rest)).
Proof.
  intros Hb edx. set (len := Z.of_nat (length buf)) in *.
  assert (0 <= edx /\ len = 8 * edx + len mod 8 /\ 0 <= len mod 8 < 8) as (He & Ed & Em).
  { unfold edx. rewrite Z.shiftr_div_pow2 by lia. split; [apply Z.div_pos; lia|]. split; [by apply Z.div_mod|by apply Z.mod_pos_bound]. }
  clearbody edx. unfold tail_ok. fold len. change (2 ^ 3) with 8. destruct (edx =? 0) eqn:E0.
  - apply Z.eqb_eq in E0. split; [done|]. split; [cbn [snd]; lia|]. split; [done|]. apply same_sum_refl, sum16_le, Hb.
  - destruct (adc_loop_spec (Z.to_nat edx) 0 false buf) as (sum & cf & -> & H1 & H2 & H3); [done|lia|lia|done|].
    split; [by apply bytes_drop|]. split; [cbn [snd]; rewrite length_drop; lia|]. unfold adc. cbn [fst snd].
    assert ((sum + 0 + Z.b2z cf) mod 2 ^ 64 = sum + Z.b2z cf) as -> by (rewrite Z.mod_small; destruct cf; simpl in *; lia).
    split; [destruct cf; simpl in *; lia|]. rewrite (sum16_split (8 * Z.to_nat edx) buf); [|exists (4 * Z.to_nat edx)%nat; lia|lia].
    apply same_add; [done|apply same_sum_refl, sum16_le, bytes_drop, Hb].
Qed.
Lemma tails_ok buf st : tail_ok buf 3 st -> let len := Z.of_nat (length buf) in
  let sum := (add_tail len 1 (add_tail len 2 (add_tail len 4 st))).1 in 0 <= sum < 2 ^ 64 /\ same sum (sum16 buf).
Proof.
  intros H3 len. apply (add_tail_ok _ 2 4) in H3; [|lia|done]. apply (add_tail_ok _ 1 2) in H3; [|lia|done]. apply (add_tail_ok _ 0 1) in H3; [|lia|done].
  fold len in H3. destruct (add_tail _ 1 _) as [sum rest]. destruct H3 as (_ & Hl & Hs & Hsame). cbn [fst snd] in *. change (2 ^ 0) with 1 in Hl. rewrite Z.mod_1_r in Hl.
  destruct rest as [|b rest]; [|simpl in Hl; lia]. cbn [sum16] in Hsame. rewrite Z.add_0_r in Hsame. done.
Qed.
Lemma complement16 f : 0 <= f < 65536 -> u16 (Z.lnot f) = 65535 - f.
Proof.
  intros Hf. unfold u16, Z.lnot. replace (Z.pred (- f)) with (65535 - f + (-1) * 2 ^ 16) by lia. rewrite Z_mod_plus_full, Z.mod_small by lia. done.
Qed.
Lemma chksum_internet_spec buf : bytes buf -> chksum_internet buf = 65535 - norm (sum16 buf).
Proof.
  intros Hb. destruct (tails_ok buf _ (words_ok buf Hb)) as [Hs Hsame]. destruct (fold_sum_spec _ Hs) as [Hr Hf].
  rewrite <- (same_norm _ _ Hr (same_sum_trans _ _ _ Hf Hsame)). by apply complement16.
Qed.

(** ** The routines in C *)

Lemma sum16_bound l : bytes l -> 0 <= sum16 l <= 65535 * Z.of_nat (length l).
Proof.
  induction l as [l IH] using (induction_ltof1 _ length). unfold ltof in IH. destruct l as [|a [|b l]]; intros Hb; [done| |].
  - apply Forall_cons in Hb as [Ha _]. simpl. lia.
  - apply Forall_cons in Hb as [Ha [Hb Hl]%Forall_cons]. specialize (IH l ltac:(simpl; lia) Hl). cbn [sum16 length]. lia.
Qed.
Lemma raw_words_spec l s : bytes l -> 0 <= s -> s + sum16 l < 2 ^ 32 -> raw_words l s = s + sum16 l.
Proof.
  revert s. induction l as [l IH] using (induction_ltof1 _ length). unfold ltof in IH. destruct l as [|a [|b l]]; intros s Hb Hs Hlt; cbn [raw_words sum16] in *; [lia| |].
  - apply Forall_cons in Hb as [Ha _]. apply u32_small. unfold is_u32. lia.
  - apply Forall_cons in Hb as [Ha [Hb Hl]%Forall_cons]. pose proof (sum16_bound l Hl). rewrite u32_small by (unfold is_u32; lia).
    rewrite IH; [lia|simpl; lia|done|lia|lia].
Qed.
Lemma load2_spec buf : (2 <= length buf)%nat -> load 2 buf = sum16 (take 2 buf).
Proof. destruct buf as [|a [|b buf]]; simpl; [lia|lia|]. intros _. unfold load. simpl. lia. Qed.
Lemma raw_block_spec buf : (8 <= length buf)%nat ->
  sum16 (take 8 buf) = load 2 buf + load 2 (drop 2 buf) + load 2 (drop 4 buf) + load 2 (drop 6 buf).
Proof.
  intros Hl. rewrite !load2_spec by (rewrite ?length_drop; lia). destruct buf as [|a [|b [|c [|d [|e [|f [|g [|h buf]]]]]]]]; simpl in Hl; try lia. simpl. lia.
Qed.
Lemma raw_blocks_spec n buf s : bytes buf -> (8 * n <= length buf)%nat -> 0 <= s -> s + sum16 buf < 2 ^ 32 ->
  raw_blocks n buf s = (drop (8 * n) buf, s + sum16 (take (8 * n) buf)).
Proof.
  revert buf s. induction n as [|n IH]; intros buf s Hb Hl Hs Hlt; cbn [raw_blocks]; [by rewrite drop_0, Z.add_0_r|].
  pose proof (raw_block_spec buf ltac:(lia)) as E. pose proof (fun k => proj1 (load_spec 2 (drop k buf) (bytes_drop k buf Hb))) as Hw.
  pose proof (Hw 0%nat) as W0. rewrite drop_0 in W0. pose proof (Hw 2%nat) as W2. pose proof (Hw 4%nat) as W4. pose proof (Hw 6%nat) as W6. clear Hw.
  rewrite (sum16_split 8 buf) in Hlt; [|by apply Nat.even_spec|lia]. pose proof (sum16_bound _ (bytes_drop 8 buf Hb)).
  change (256 ^ Z.of_nat 2) with 65536 in *. set (w0 := load 2 buf) in *. set (w2 := load 2 (drop 2 buf)) in *. set (w4 := load 2 (drop 4 buf)) in *. set (w6 := load 2 (drop 6 buf)) in *.
  rewrite (u32_small (s + w0)), (u32_small (s + w0 + w2)), (u32_small (s + w0 + w2 + w4)), (u32_small (s + w0 + w2 + w4 + w6)) by (unfold is_u32; lia).
  rewrite IH; [|by apply bytes_drop|rewrite length_drop; lia|lia|lia]. rewrite drop_drop. replace (8 + 8 * n)%nat with (8 * S n)%nat by lia. f_equal.
  replace (8 * S n)%nat with (8 + 8 * n)%nat by lia. rewrite (sum16_split 8 (take (8 + 8 * n) buf)); [|by apply Nat.even_spec|rewrite length_take; lia].
  rewrite take_take, skipn_firstn_comm, Nat.min_l, Nat.add_sub_swap, Nat.sub_diag by lia. rewrite E. change (0 + 8 * n)%nat with (8 * n)%nat. lia.
Qed.
Lemma raw_cksum_sum_spec buf : bytes buf -> Z.of_nat (length buf) <= 65536 -> raw_cksum_sum buf 0 = sum16 buf /\ 0 <= sum16 buf < 2 ^ 32.
Proof.
  intros Hb Hl. pose proof (sum16_bound buf Hb) as Hbd. assert (sum16 buf < 2 ^ 32) as Hlt by lia. split; [|lia]. unfold raw_cksum_sum.
  assert (8 * (length buf / 8) <= length buf)%nat as Hd by (apply Nat.Div0.mul_div_le). rewrite raw_blocks_spec by (done || lia).
  rewrite (sum16_split (8 * (length buf / 8)) buf) in Hlt |- *; [|exists (4 * (length buf / 8))%nat; lia|lia|exists (4 * (length buf / 8))%nat; lia|lia].
  pose proof (sum16_bound _ (bytes_take (8 * (length buf / 8)) buf Hb)). rewrite raw_words_spec; [lia|by apply bytes_drop|lia|lia].
Qed.
Lemma raw_fold_spec s : 0 <= s < 2 ^ 32 -> raw_cksum_fold s = s / 65536 + s mod 65536 /\ same (raw_cksum_fold s) s.
Proof.
  intros Hs. assert (raw_cksum_fold s = s / 65536 + s mod 65536) as E.
  { unfold raw_cksum_fold. rewrite Z.shiftr_land. change (Z.shiftr 0xffff0000 16) with (2 ^ 16 - 1). change 0xffff with (2 ^ 16 - 1).
    rewrite !land_pred_pow2 by lia. rewrite Z.shiftr_div_pow2 by lia. change (2 ^ 16) with 65536.
    assert (0 <= s / 65536 < 65536) by (split; [apply Z.div_pos; lia|apply Z.div_lt_upper_bound; lia]). rewrite (Z.mod_small (s / 65536)) by lia.
    pose proof (Z.mod_pos_bound s 65536). apply u32_small. unfold is_u32. lia. }
  split; [done|]. rewrite E. pose proof (Z.div_mod s 65536 ltac:(lia)). pose proof (Z.mod_pos_bound s 65536 ltac:(lia)).
  assert (0 <= s / 65536) by (apply Z.div_pos; lia). split; [lia|]. split; [lia|]. split; [exists (- (s / 65536)); lia|lia].
Qed.
Lemma raw_fold_small s : 0 <= s <= 131070 -> 0 <= raw_cksum_fold s < 65536.
Proof.
  intros Hs. destruct (raw_fold_spec s ltac:(lia)) as [-> _]. pose proof (Z.div_mod s 65536 ltac:(lia)). pose proof (Z.mod_pos_bound s 65536 ltac:(lia)).
  assert (0 <= s / 65536) by (apply Z.div_pos; lia). lia.
Qed.
Lemma raw_cksum_spec buf : bytes buf -> Z.of_nat (length buf) <= 65536 -> raw_cksum buf = norm (sum16 buf).
Proof.
  intros Hb Hl. destruct (raw_cksum_sum_spec buf Hb Hl) as [E Hs]. unfold raw_cksum, raw_cksum_reduce. rewrite E. clear E. set (s := sum16 buf) in *. clearbody s.
  destruct (raw_fold_spec s Hs) as [E1 S1]. assert (0 <= raw_cksum_fold s <= 131070) as Hb1.
  { rewrite E1. pose proof (Z.mod_pos_bound s 65536). assert (0 <= s / 65536 < 65536) by (split; [apply Z.div_pos; lia|apply Z.div_lt_upper_bound; lia]). lia. }
  destruct (raw_fold_spec (raw_cksum_fold s) ltac:(lia)) as [_ S2]. pose proof (raw_fold_small _ Hb1) as Hb2.
  unfold u16. rewrite Z.mod_small by done. apply same_norm; [done|]. by apply (same_sum_trans _ _ _ S2).
Qed.

Lemma byte_mod x : 0 <= x mod 256 < 256.
Proof. by apply Z.mod_pos_bound. Qed.
Lemma bytes_psd proto saddr daddr len : 0 <= proto < 256 -> bytes (psd_hdr proto saddr daddr len) /\ length (psd_hdr proto saddr daddr len) = 12%nat.
Proof. intros Hp. split; [|done]. unfold psd_hdr, bytes_be32, bytes_be16. repeat (constructor; [apply byte_mod || lia|]). constructor. Qed.
Lemma le16_spec x : 0 <= x < 65536 -> bytes (bytes_le16 x) /\ sum16 (bytes_le16 x) = x.
Proof.
  intros Hx. split; [repeat (constructor; [apply byte_mod|]); constructor|]. unfold bytes_le16. cbn [sum16]. rewrite Z.shiftr_div_pow2 by lia. change (2 ^ 8) with 256.
  rewrite (Z.mod_small (x / 256)) by (split; [apply Z.div_pos; lia|apply Z.div_lt_upper_bound; lia]). pose proof (Z.div_mod x 256). lia.
Qed.
(** Setting a zero field at an even position adds its value to the sum. *)
Lemma sum16_field pre post x : Nat.Even (length pre) -> 0 <= x < 65536 -> sum16 (pre ++ bytes_le16 x ++ post) = sum16 (pre ++ [0; 0] ++ post) + x.
Proof.
  intros He Hx. destruct (le16_spec x Hx) as [_ Es]. rewrite !(sum16_app pre), (sum16_app (bytes_le16 x)), (sum16_app [0; 0]), Es by (done || by apply Nat.even_spec).
  cbn [sum16]. lia.
Qed.
Lemma norm_full s : 0 < s -> norm s = 65535 <-> exists k, s = 65535 * k.
Proof.
  intros Hs. unfold norm. destruct (s =? 0) eqn:E; [lia|]. split.
  - intros H. exists ((s - 1) / 65535 + 1). pose proof (Z.div_mod (s - 1) 65535). lia.
  - intros [k ->]. replace (65535 * k - 1) with (65534 + (k - 1) * 65535) by lia. by rewrite Z_mod_plus_full.
Qed.
Lemma norm_complete s x : 0 <= s -> 0 < s + x -> (exists k, x = 65535 - norm s + 65535 * k) -> norm (s + x) = 65535.
Proof.
  intros Hs Hpos [k ->]. apply norm_full; [done|]. destruct (norm_same s Hs) as [(_ & _ & [j E] & _) _]. exists (1 + k - j). lia.
Qed.

Lemma udptcp_spec proto saddr daddr l4len l4 : bytes l4 -> Z.of_nat (length l4) <= 65536 -> 0 <= proto < 256 ->
  let s := sum16 (psd_hdr proto saddr daddr l4len) + sum16 l4 in
  ipv4_udptcp_cksum proto saddr daddr l4len l4 = (if 65535 - norm s =? 0 then 65535 else 65535 - norm s).
Proof.
  intros Hb Hl Hp s. destruct (bytes_psd proto saddr daddr l4len Hp) as [Hpb Hpl]. unfold ipv4_udptcp_cksum, ipv4_phdr_cksum.
  rewrite !raw_cksum_spec by (done || rewrite Hpl; lia). set (a := sum16 l4) in *. set (b := sum16 (psd_hdr _ _ _ _)) in *.
  assert (0 <= a /\ 0 <= b) as [Ha Hb'] by (split; apply sum16_bound; done). destruct (norm_same a Ha) as [Sa Ra], (norm_same b Hb') as [Sb Rb].
  rewrite (u32_small (norm a + norm b)) by (unfold is_u32; lia). destruct (raw_fold_spec (norm a + norm b) ltac:(lia)) as [_ Sf].
  pose proof (raw_fold_small (norm a + norm b) ltac:(lia)) as Rf. set (f := raw_cksum_fold _) in *. assert (f = norm s) as <-.
  { apply same_norm; [done|]. refine (same_sum_trans _ _ _ Sf _). unfold s. rewrite Z.add_comm. by apply same_add. }
  clearbody f. assert (Z.land (u32 (Z.lnot f)) 0xffff = 65535 - f) as ->.
  { change 0xffff with (2 ^ 16 - 1) at 1. rewrite land_pred_pow2, u32_mod_pow2 by lia. by apply complement16. }
  cbv zeta. destruct (65535 - f =? 0) eqn:E; unfold u16; rewrite Z.mod_small; lia.
Qed.

(** ** Main results *)

(** C31: for every buffer, the routine in assembly, which adds eight bytes at a time and
    keeps the carry, computes the complement of the one's complement sum of RFC 1071; for
    buffers of at most 65536 bytes the routine in C, which adds sixteen bits at a time
    without a carry, computes that sum, so that the two agree. *)
Theorem chksum_routines_agree buf : bytes buf ->
  chksum_internet buf = 65535 - norm (sum16 buf) /\
  (Z.of_nat (length buf) <= 65536 -> raw_cksum buf = norm (sum16 buf) /\ chksum_internet buf = 65535 - raw_cksum buf).
Proof.
  intros Hb. split; [by apply chksum_internet_spec|]. intros Hl. rewrite chksum_internet_spec, raw_cksum_spec by done. done.
Qed.

(** A header or segment with its checksum filled in verifies: the receiver's sum
    over it, for UDP and TCP together with the pseudo header, is zero.  The checksum of
    UDP and TCP is never zero, which in UDP means that there is none. *)
Theorem checksum_roundtrip pre post proto saddr daddr l4len : bytes pre -> bytes post -> Nat.Even (length pre) ->
  0 <= proto < 256 -> Z.of_nat (length (pre ++ [0; 0] ++ post)) <= 65536 ->
  let zeroed := pre ++ [0; 0] ++ post in
  let c := ipv4_udptcp_cksum proto saddr daddr l4len zeroed in
  chksum_internet (pre ++ bytes_le16 (chksum_internet zeroed) ++ post) = 0 /\
  c <> 0 /\ chksum_internet (psd_hdr proto saddr daddr l4len ++ pre ++ bytes_le16 c ++ post) = 0.
Proof.
  intros Hpre Hpost He Hp Hl zeroed c. assert (bytes zeroed) as Hz.
  { unfold zeroed. rewrite !bytes_both. split; [done|]. split; [repeat (constructor; [lia|]); constructor|done]. }
  assert (forall x, 0 <= x < 65536 -> bytes (pre ++ bytes_le16 x ++ post)) as Hset by (intros x Hx; rewrite !bytes_both; split_and!; [done|by apply le16_spec|done]).
  pose proof (sum16_bound _ Hz) as [Hs _]. pose proof (norm_same _ Hs) as [(_ & _ & _ & Hn0) Hn]. split.
  { pose proof (chksum_internet_spec _ Hz) as Ec. rewrite chksum_internet_spec by (apply Hset; lia). rewrite sum16_field by (done || lia). fold zeroed. rewrite Ec.
    rewrite norm_complete; [done|done|lia|exists 0; lia]. }
  destruct (bytes_psd proto saddr daddr l4len Hp) as [Hpb Hpl]. pose proof (sum16_bound _ Hpb) as [Hps _].
  unfold c. rewrite udptcp_spec by done. cbv zeta. set (s := sum16 (psd_hdr _ _ _ _) + sum16 zeroed). set (x := if _ =? 0 then _ else _).
  pose proof (norm_same s ltac:(lia)) as [_ Rs]. assert (0 < x < 65536 /\ exists k, x = 65535 - norm s + 65535 * k) as [Hx Hk].
  { unfold x. destruct (_ =? 0) eqn:E; [split; [lia|exists 1; lia]|split; [lia|exists 0; lia]]. }
  split; [lia|]. rewrite chksum_internet_spec by (rewrite bytes_both; split; [done|apply Hset; lia]).
  rewrite (sum16_app (psd_hdr _ _ _ _)) by (rewrite Hpl; by apply Nat.even_spec). rewrite sum16_field by (done || lia). fold zeroed. rewrite Z.add_assoc. fold s.
  rewrite norm_complete; [done|lia|lia|done].
Qed.

(** ** Witnesses *)

(** The first bytes of an IP header. *)
Definition sample_header : list Z := [0x45; 0; 0; 0x54; 0; 0; 0x40; 0; 0x40; 1].
Definition sample_addresses : list Z := [192; 168; 1; 1; 192; 168; 1; 3].
Lemma sample_bytes : bytes sample_header /\ bytes sample_addresses.
Proof. split; repeat (constructor; [lia|]); constructor. Qed.
Lemma chksum_routines_agree_witness : chksum_internet (sample_header ++ sample_addresses) = 0x54b7 /\
  chksum_internet (sample_header ++ sample_addresses) = 65535 - norm (sum16 (sample_header ++ sample_addresses)).
Proof.
  split; [vm_compute; reflexivity|]. refine (proj1 (chksum_routines_agree (sample_header ++ sample_addresses) _)). apply bytes_both. exact sample_bytes.
Defined.
