(* ===== verification/Bags.v ===== *)
(** * Bags

    The elements of all lists in a finite map, up to order, and a tactic that proves
    permutations by counting. *)

From S2P Require Import Prelude.

Section Occ.
Context `{EqDecision A}.
Definition occ (x : A) (l : list A) : nat := length (filter (fun y => y = x) l).
Lemma occ_nil x : occ x [] = 0%nat.
Proof. done. Qed.
Lemma occ_app x l k : occ x (l ++ k) = (occ x l + occ x k)%nat.
Proof. unfold occ. by rewrite filter_app, length_app. Qed.
Lemma occ_cons x y l : occ x (y :: l) = (occ x [y] + occ x l)%nat.
Proof. apply (occ_app x [y] l). Qed.
Lemma occ_perm x l k : l ≡ₚ k -> occ x l = occ x k.
Proof. intros H. unfold occ. by rewrite H. Qed.
Lemma occ_self x : occ x [x] = 1%nat.
Proof. unfold occ. rewrite filter_cons_True by done. done. Qed.
Lemma occ_pos x l : (0 < occ x l)%nat <-> x ∈ l.
Proof.
  unfold occ. split.
  - intros H. destruct (filter _ l) as [|y k] eqn:E; [simpl in H; lia|]. assert (y ∈ filter (fun y => y = x) l) as Hy by (rewrite E; apply list_elem_of_here).
    by apply list_elem_of_filter in Hy as [-> Hy].
  - intros H. assert (x ∈ filter (fun y => y = x) l) as Hx by (by apply list_elem_of_filter). destruct (filter _ l); [by apply not_elem_of_nil in Hx|simpl; lia].
Qed.
Lemma perm_occ l k : (forall x, occ x l = occ x k) -> l ≡ₚ k.
Proof.
  revert k. induction l as [|x l IH]; intros k H.
  - destruct k as [|y k]; [done|]. specialize (H y). rewrite occ_nil, occ_cons, occ_self in H. lia.
  - assert (x ∈ k) as (k1 & k2 & ->)%list_elem_of_split by (apply occ_pos; rewrite <- H, occ_cons, occ_self; lia).
    rewrite <- Permutation_middle. constructor. apply IH. intros y. specialize (H y). rewrite occ_app, (occ_cons y x l), (occ_cons y x k2) in H. rewrite occ_app. lia.
Qed.
End Occ.

(** Permutations of concatenations, from permutations in the context. *)
Ltac perm :=
  apply perm_occ; let x := fresh in intros x;
  repeat match goal with H : _ ≡ₚ _ |- _ => apply (occ_perm x) in H end;
  repeat match goal with H : context [occ x _] |- _ => progress (rewrite ?occ_app, ?occ_nil in H) end;
  rewrite ?occ_app, ?occ_nil;
  repeat match goal with
  | |- context [occ x (?y :: ?l)] => lazymatch l with nil => fail | _ => rewrite (occ_cons x y l) end
  | H : context [occ x (?y :: ?l)] |- _ => lazymatch l with nil => fail | _ => rewrite (occ_cons x y l) in H end
  end;
  rewrite ?occ_app, ?occ_nil in *; lia.

Section Bag.
Context {A B : Type} (f : A -> list B).
Definition bag (m : gmap nat A) : list B := map_to_list m ≫= fun x => f x.2.
Lemma bag_empty : bag ∅ = [].
Proof. unfold bag. by rewrite map_to_list_empty. Qed.
Lemma bag_insert m k x : m !! k = None -> bag (<[k := x]> m) ≡ₚ f x ++ bag m.
Proof. intros Hk. unfold bag. by rewrite map_to_list_insert. Qed.
Lemma bag_delete m k x : m !! k = Some x -> bag m ≡ₚ f x ++ bag (delete k m).
Proof. intros Hk. rewrite <- (insert_delete_id m k x Hk) at 1. apply bag_insert. apply lookup_delete_eq. Qed.
Lemma bag_update m k x y : m !! k = Some x -> f x ++ bag (<[k := y]> m) ≡ₚ f y ++ bag m.
Proof.
  intros Hk. rewrite <- insert_delete_eq. rewrite bag_insert by apply lookup_delete_eq. rewrite (bag_delete m k x Hk).
  rewrite !app_assoc. by rewrite (Permutation_app_comm (f x) (f y)).
Qed.
Lemma bag_elem m x : x ∈ bag m <-> exists k a, m !! k = Some a /\ x ∈ f a.
Proof.
  unfold bag. rewrite list_elem_of_bind. split.
  - intros ([k a] & Hx & Hk). apply elem_of_map_to_list in Hk. by exists k, a.
  - intros (k & a & Hk & Hx). exists (k, a). split; [done|]. by apply elem_of_map_to_list.
Qed.
End Bag.

Lemma filter_ne (a : nat) (l : list nat) : a ∉ l -> filter (fun b => b <> a) l = l.
Proof.
  induction l as [|b l IH]; [done|]. rewrite not_elem_of_cons. intros [Hne Hl]. rewrite filter_cons_True by congruence. by rewrite IH.
Qed.

(** The sum of a weight over the values of a map. *)
Section Tally.
Context {A : Type}.
Definition tally (f : A -> Z) (m : gmap nat A) : Z := map_fold (fun _ x acc => f x + acc) 0 m.
Definition weight (f : A -> Z) (o : option A) : Z := match o with Some x => f x | None => 0 end.
Lemma tally_empty f : tally f ∅ = 0.
Proof. apply map_fold_empty. Qed.
Lemma tally_insert f m k x : m !! k = None -> tally f (<[k := x]> m) = f x + tally f m.
Proof. intros Hk. unfold tally. apply (map_fold_insert_L (fun _ x acc => f x + acc) 0 k x m); [|done]. intros; lia. Qed.
Lemma tally_delete f m k : tally f (delete k m) = tally f m - weight f (m !! k).
Proof.
  destruct (m !! k) as [x|] eqn:E; simpl; [|by rewrite delete_id, Z.sub_0_r].
  rewrite <- (insert_delete_id m k x E) at 2. rewrite tally_insert by apply lookup_delete_eq. lia.
Qed.
Lemma tally_set f m k o : tally f (partial_alter (fun _ => o) k m) = tally f m - weight f (m !! k) + weight f o.
Proof.
  destruct o as [x|]; simpl.
  - change (partial_alter _ k m) with (<[k := x]> m). rewrite <- insert_delete_eq, tally_insert, tally_delete by apply lookup_delete_eq. lia.
  - change (partial_alter _ k m) with (delete k m). rewrite tally_delete. lia.
Qed.
Lemma tally_nonneg f m : (forall x, 0 <= f x) -> 0 <= tally f m.
Proof.
  intros Hf. unfold tally. apply (map_fold_weak_ind (fun r _ => 0 <= r)); [done|]. intros k x m' r _ Hr. specialize (Hf x). lia.
Qed.
Lemma tally_ge f m k x : (forall x, 0 <= f x) -> m !! k = Some x -> f x <= tally f m.
Proof.
  intros Hf Hk. pose proof (tally_delete f m k) as H. rewrite Hk in H. simpl in H. pose proof (tally_nonneg f (delete k m) Hf). lia.
Qed.
Lemma tally_zero f m k x : (forall x, 0 <= f x) -> tally f m <= 0 -> m !! k = Some x -> f x = 0.
Proof. intros Hf Hz Hk. pose proof (tally_ge f m k x Hf Hk). specialize (Hf x). lia. Qed.
Lemma tally_le f g m : (forall x, f x <= g x) -> tally f m <= tally g m.
Proof.
  intros H. induction m as [|k x m Hk IH] using map_ind; [by rewrite !tally_empty|]. rewrite !tally_insert by done. specialize (H x). lia.
Qed.
Lemma tally_add f g m : tally (fun x => f x + g x) m = tally f m + tally g m.
Proof. induction m as [|k x m Hk IH] using map_ind; [by rewrite !tally_empty|]. rewrite !tally_insert by done. lia. Qed.
End Tally.
