(* ===== verification/Arp.v ===== *)
(** * arp: resolving addresses

    Models [runtime/net/arp.c] and the headers of [inc/net/arp.h].  The table is a hash
    table of RCU lists (RcuList), whose entries are named by their addresses in memory;
    its locked sections are functions on it.  Callers of [arp_lookup], which start
    without the lock, received ARP packets, the worker thread and start-up are the
    threads of a transition system.  Buffers are numbers; a MAC address is its list of
    six bytes: the sections under the lock copy it whole, and [arp_lookup], which copies it
    without the lock, byte by byte.  Memory for the static entries is available at start-up,
    which otherwise stops the program. *)

From S2P Require Import Prelude StdDef Transport Chksum.

Definition ARP_SEED : Z := 0xD4812A53.
Definition ARP_TABLE_CAPACITY : Z := 1024.
Definition ARP_RETRIES : Z := 3.
Definition ARP_RETRY_TIME : Z := 1000000.
Definition ARP_REPROBE_TIME : Z := 10 * 1000000.
Definition ARP_HTYPE_ETHER : Z := 1.
Definition ETHTYPE_IP : Z := 0x0800.
Definition ARP_OP_REQUEST : Z := 1.
Definition ARP_OP_REPLY : Z := 2.

Abbreviation mac := (list Z).
Definition eth_addr_broadcast : mac := replicate 6 0xFF.
Definition eth_addr_is_multicast (a : mac) : bool := negb (Z.land (a !!! 0%nat) 0x01 =? 0).

(** ** Data *)

Inductive arp_state := ARP_STATE_PROBING | ARP_STATE_VALID | ARP_STATE_VALID_BUT_REPROBING | ARP_STATE_STATIC.
#[global] Instance arp_state_eq_dec : EqDecision arp_state.
Proof. solve_decision. Defined.

(** [a_eth] is [None] while it is not initialised. *)
Record arp_entry := ArpEntry { a_state : arp_state; a_ip : Z; a_eth : option mac; a_q : list nat; a_ts : Z; tries_left : Z }.
#[global] Instance eta_arp_entry : Settable arp_entry := fun r => ArpEntry (a_state r) (a_ip r) (a_eth r) (a_q r) (a_ts r) (tries_left r).
Record arp := Arp { arp_tbl : gmap Z (list nat); entries : gmap nat arp_entry; nr_dynamic_entries : Z; arp_worker_th : bool }.
#[global] Instance eta_arp : Settable arp := fun r => Arp (arp_tbl r) (entries r) (nr_dynamic_entries r) (arp_worker_th r).

Inductive effect :=
| ArpSend (op : Z) (dhost : mac) (daddr : Z)
| NetError (m : nat) | FreeMbuf (m : nat)
| RcuFree (a : nat) | WakeWorker.
#[global] Instance arp_effect_eq_dec : EqDecision effect.
Proof. solve_decision. Defined.

(** ** Operations on the table *)

Section Table.
Context (crc32 : Z -> Z -> Z).

Definition hash_ip (ip : Z) : Z := hash_crc32c_one crc32 ARP_SEED ip mod ARP_TABLE_CAPACITY.

(** [None] is an access to memory that holds no entry. *)
Fixpoint find_entry (es : gmap nat arp_entry) (l : list nat) (daddr : Z) : option (option nat) :=
  match l with
  | [] => Some None
  | a :: l => e ← es !! a; if a_ip e =? daddr then Some (Some a) else find_entry es l daddr
  end.
Definition lookup_entry (idx daddr : Z) (s : arp) : option (option nat) := find_entry (entries s) (arp_tbl s !!! idx) daddr.

Definition delete_entry (a : nat) (s : arp) : option (arp * list effect) :=
  e ← entries s !! a;
  let s := s <| arp_tbl := filter (fun b => b <> a) <$> arp_tbl s |> in
  let out := concat ((fun m => [NetError m; FreeMbuf m]) <$> a_q e) in
  let s := s <| entries := <[a := e <| a_q := [] |>]> (entries s) |> in
  if bool_decide (a_state e = ARP_STATE_STATIC) then None
  else Some (s <| nr_dynamic_entries := u64 (nr_dynamic_entries s - 1) |>, out ++ [RcuFree a]).

Definition insert_entry (a : nat) (idx : Z) (s : arp) : option (arp * list effect) :=
  e ← entries s !! a;
  let s := s <| arp_tbl := <[idx := a :: arp_tbl s !!! idx]> (arp_tbl s) |> in
  if bool_decide (a_state e = ARP_STATE_STATIC) then Some (s, [])
  else
    let n := u64 (nr_dynamic_entries s + 1) in
    let s := s <| nr_dynamic_entries := n |> in
    if (n =? 1) && arp_worker_th s then Some (s <| arp_worker_th := false |>, [WakeWorker]) else Some (s, []).

Definition create_entry (now daddr : Z) : arp_entry := ArpEntry ARP_STATE_PROBING daddr None [] now ARP_RETRIES.

Definition arp_age_entry (now_us now : Z) (a : nat) (s : arp) : option (arp * list effect) :=
  e ← entries s !! a;
  if u64 (now_us - a_ts e) <? (if bool_decide (a_state e = ARP_STATE_VALID) then ARP_REPROBE_TIME else ARP_RETRY_TIME) then Some (s, [])
  else
    let probe e := Some (s <| entries := <[a := e <| a_ts := now |>]> (entries s) |>, [ArpSend ARP_OP_REQUEST eth_addr_broadcast (a_ip e)]) in
    match a_state e with
    | ARP_STATE_PROBING | ARP_STATE_VALID_BUT_REPROBING =>
        if tries_left e =? 0 then delete_entry a s else probe (e <| tries_left := tries_left e - 1 |>)
    | ARP_STATE_VALID => probe (e <| a_state := ARP_STATE_VALID_BUT_REPROBING |> <| tries_left := ARP_RETRIES |>)
    | ARP_STATE_STATIC => Some (s, [])
    end.
(** The walk over a bucket; [clock] is what [microtime] says at each entry. *)
Fixpoint age_entries (now_us : Z) (clock : nat -> Z) (l : list nat) (s : arp) : option (arp * list effect) :=
  match l with
  | [] => Some (s, [])
  | a :: l =>
      '(s, o1) ← arp_age_entry now_us (clock a) a s;
      '(s, o2) ← age_entries now_us clock l s;
      Some (s, o1 ++ o2)
  end.

(** The section of [arp_update] under the lock; a new entry is put at [a]. The last
    result is the queue of buffers to send. *)
Definition arp_update (a : nat) (mem_ok : bool) (created now daddr : Z) (dhost : mac) (s : arp) : option (arp * list effect * list nat) :=
  let idx := hash_ip daddr in
  let finish b s out :=
    e ← entries s !! b;
    Some (s <| entries := <[b := e <| a_eth := Some dhost |> <| a_ts := now |> <| a_state := ARP_STATE_VALID |> <| a_q := [] |>]> (entries s) |>,
          out, a_q e) in
  found ← lookup_entry idx daddr s;
  match found with
  | None =>
      if mem_ok then
        '(s, out) ← insert_entry a idx (s <| entries := <[a := create_entry created daddr]> (entries s) |>);
        finish a s out
      else Some (s, [], [])
  | Some b =>
      e ← entries s !! b;
      if bool_decide (a_state e = ARP_STATE_STATIC) then Some (s, [], []) else finish b s []
  end.

(** The section of [arp_lookup] under the lock: the address, if it is known by now, and
    otherwise what becomes of the buffer. *)
Inductive lookup_result := Known (eth : option mac) | Waits | Unreachable.
Definition arp_lookup_locked (a : nat) (newe : option arp_entry) (daddr : Z) (m : option nat) (s : arp) :
  option (arp * list effect * lookup_result) :=
  let idx := hash_ip daddr in
  let enqueue b s out :=
    e ← entries s !! b;
    Some (s <| entries := <[b := e <| a_q := a_q e ++ option_list m |>]> (entries s) |>, out, Waits) in
  found ← lookup_entry idx daddr s;
  match found, newe with
  | Some b, _ =>
      e ← entries s !! b;
      if bool_decide (a_state e <> ARP_STATE_PROBING) then Some (s, [], Known (a_eth e)) else enqueue b s []
  | None, Some e => '(s, out) ← insert_entry a idx (s <| entries := <[a := e]> (entries s) |>); enqueue a s out
  | None, None => Some (s, [], Unreachable)
  end.

(** A static entry of [arp_init_late]. *)
Definition add_static (a : nat) (now : Z) (x : Z * mac) (s : arp) : option arp :=
  let e := create_entry now x.1 <| a_eth := Some x.2 |> <| a_state := ARP_STATE_STATIC |> in
  fst <$> insert_entry a (hash_ip x.1) (s <| entries := <[a := e]> (entries s) |>).
End Table.

(** ** Packets *)

Definition arp_packet (mac_addr : mac) (addr op : Z) (dhost : mac) (daddr : Z) : list Z :=
  bytes_be16 ARP_HTYPE_ETHER ++ bytes_be16 ETHTYPE_IP ++ [6; 4] ++ bytes_be16 op ++
  mac_addr ++ bytes_be32 addr ++ dhost ++ bytes_be32 daddr.
Definition be (l : list Z) : Z := fold_left (fun x b => 256 * x + b) l 0.
Definition field (off n : nat) (l : list Z) : list Z := take n (drop off l).
(** [net_rx_arp]: the mapping to record and the reply to send, for a host with address
    [addr]. *)
Definition net_rx_arp (addr : Z) (m : list Z) : option ((Z * mac) * option (mac * Z)) :=
  if (length m <? 28)%nat then None
  else if negb (be (field 0 2 m) =? ARP_HTYPE_ETHER) || negb (be (field 2 2 m) =? ETHTYPE_IP) ||
          negb (be (field 4 1 m) =? 6) || negb (be (field 5 1 m) =? 4) then None
  else
    let op := be (field 6 2 m) in
    let sender_mac := field 8 6 m in
    let sender_ip := be (field 14 4 m) in
    let target_ip := be (field 24 4 m) in
    if eth_addr_is_multicast sender_mac then None
    else Some ((sender_ip, sender_mac), if (addr =? target_ip) && (op =? ARP_OP_REQUEST) then Some (sender_mac, sender_ip) else None).

(** ** The threads *)

(** Where a thread is: in [arp_lookup] after it looked without the lock ([Found]), copying
    the address of an entry that it saw in a state other than probing ([Valid], with the
    bytes it has got), before it takes the lock ([Cold], with
    the entry it made); in [arp_update] after the lock ([Draining]).  The worker is not
    there yet, sleeps until it is woken or until a second is over, is about to read the
    clock, or is at a bucket. *)
Inductive pc :=
| Found (daddr : Z) (m : option nat) (e : option nat)
| Valid (daddr : Z) (m : option nat) (e : nat) (got : gmap nat Z)
| Cold (daddr : Z) (m : option nat) (newe : option arp_entry)
| Draining (daddr : Z) (dhost : mac) (q : list nat).
Inductive wpc := WNone | WParked | WSleep | WStart | WRun (now_us : Z) (i : Z).

(** The system: the table, entries that wait for the end of a grace period, the threads,
    and what happened: mappings that were received or configured, buffers that
    [arp_lookup] was given, sent to a MAC address, freed, or left with its caller, and
    the answers it gave. *)
Record sys := Sys {
  tb : arp; zombies : list nat; pcs : gmap nat pc; worker : wpc;
  announced : list (Z * mac); given : list nat; sent : list (nat * mac); freed : list nat; kept : list nat;
  answers : list (Z * option mac) }.
#[global] Instance eta_sys : Settable sys := fun r =>
  Sys (tb r) (zombies r) (pcs r) (worker r) (announced r) (given r) (sent r) (freed r) (kept r) (answers r).

(** The effects of a call on the other parts. *)
Definition apply_effect (s : sys) (x : effect) : sys :=
  match x with
  | FreeMbuf m => s <| freed := m :: freed s |>
  | RcuFree a => s <| zombies := a :: zombies s |>
  | WakeWorker => s <| worker := WStart |>
  | ArpSend _ _ _ | NetError _ => s
  end.
Definition run_effects (out : list effect) (s : sys) : sys := fold_left apply_effect out s.
(** The copy a thread has made of an address. *)
Definition copied (got : gmap nat Z) : mac := (fun i => got !!! i) <$> seq 0 6.
(** [arp_init_late] creates the worker, which is not ready to run yet. *)
Definition create_worker (s : sys) : sys := s <| tb := tb s <| arp_worker_th := true |> |> <| worker := WParked |>.
Definition goto (t : nat) (p : option pc) (s : sys) : sys := s <| pcs := partial_alter (fun _ => p) t (pcs s) |>.

(** The entry a reader may still look at. *)
Definition holds (p : pc) : option nat := match p with Found _ _ e => e | Valid _ _ e _ => Some e | _ => None end.

Section System.
Context (crc32 : Z -> Z -> Z) (statics : list (Z * mac)).
(** The next hop of a buffer. *)
Context (dest : nat -> Z).

(** The bytes of an address are copied in any order, so that any mix of an address with
    one that [arp_update] writes over it is possible. *)
Inductive step : sys -> sys -> Prop :=
| LookupStart s t daddr m e : pcs s !! t = None -> (forall x, m = Some x -> dest x = daddr /\ x ∉ given s) ->
    lookup_entry (hash_ip crc32 daddr) daddr (tb s) = Some e ->
    step s (goto t (Some (Found daddr m e)) (s <| given := option_list m ++ given s |>))
| LookupState s t daddr m a e : pcs s !! t = Some (Found daddr m (Some a)) -> entries (tb s) !! a = Some e ->
    step s (goto t (Some (if bool_decide (a_state e = ARP_STATE_PROBING) then Cold daddr m None else Valid daddr m a ∅)) s)
| LookupCopy s t daddr m a got e h i b : pcs s !! t = Some (Valid daddr m a got) -> entries (tb s) !! a = Some e ->
    a_eth e = Some h -> h !! i = Some b -> got !! i = None -> step s (goto t (Some (Valid daddr m a (<[i := b]> got))) s)
| LookupAnswer s t daddr m a got : pcs s !! t = Some (Valid daddr m a got) -> (forall i, (i < 6)%nat -> is_Some (got !! i)) ->
    step s (goto t None (s <| answers := (daddr, Some (copied got)) :: answers s |> <| kept := option_list m ++ kept s |>))
| LookupSolicit s t daddr m (now : Z) (mem_ok : bool) : pcs s !! t = Some (Found daddr m None) ->
    step s (if mem_ok then goto t (Some (Cold daddr m (Some (create_entry now daddr)))) s
            else goto t None (s <| kept := option_list m ++ kept s |>))
| LookupLocked s t daddr m newe a tb' out r : pcs s !! t = Some (Cold daddr m newe) -> entries (tb s) !! a = None ->
    arp_lookup_locked crc32 a newe daddr m (tb s) = Some (tb', out, r) ->
    step s (goto t None (run_effects out (s <| tb := tb' |>
      <| answers := match r with Known eth => (daddr, eth) :: answers s | _ => answers s end |>
      <| kept := match r with Known _ => option_list m ++ kept s | _ => kept s end |>
      <| freed := match r with Unreachable => option_list m ++ freed s | _ => freed s end |>)))
| Received s t daddr dhost a mem_ok created now tb' out q : pcs s !! t = None -> length dhost = 6%nat -> entries (tb s) !! a = None ->
    arp_update crc32 a mem_ok created now daddr dhost (tb s) = Some (tb', out, q) ->
    step s (goto t (Some (Draining daddr dhost q)) (run_effects out (s <| tb := tb' |> <| announced := (daddr, dhost) :: announced s |>)))
| Drain s t daddr dhost m q : pcs s !! t = Some (Draining daddr dhost (m :: q)) ->
    step s (goto t (Some (Draining daddr dhost q)) (s <| sent := (m, dhost) :: sent s |>))
| Drained s t daddr dhost : pcs s !! t = Some (Draining daddr dhost []) -> step s (goto t None s)
| Release s a : a ∈ zombies s -> (forall t p, pcs s !! t = Some p -> holds p <> Some a) ->
    step s (s <| tb := tb s <| entries := delete a (entries (tb s)) |> |> <| zombies := filter (fun b => b <> a) (zombies s) |>)
| WorkerStart s now_us : worker s = WStart -> step s (s <| worker := WRun now_us 0 |>)
| WorkerBucket s now_us i clock tb' out : worker s = WRun now_us i -> i < ARP_TABLE_CAPACITY ->
    age_entries now_us clock (arp_tbl (tb s) !!! i) (tb s) = Some (tb', out) ->
    step s (run_effects out (s <| tb := tb' |> <| worker := WRun now_us (i + 1) |>))
| WorkerRest s now_us i : worker s = WRun now_us i -> ARP_TABLE_CAPACITY <= i ->
    step s (if nr_dynamic_entries (tb s) =? 0 then s <| tb := tb s <| arp_worker_th := true |> |> <| worker := WParked |>
            else s <| worker := WSleep |>)
| WorkerWakes s : worker s = WSleep -> step s (s <| worker := WStart |>)
| StaticEntry s a now x tb' : worker s = WNone -> x ∈ statics -> length x.2 = 6%nat -> entries (tb s) !! a = None ->
    add_static crc32 a now x (tb s) = Some tb' ->
    step s (s <| tb := tb' |> <| announced := x :: announced s |>)
| WorkerCreated s : worker s = WNone -> step s (create_worker s).

Definition arp_init : sys := Sys (Arp ∅ ∅ 0 false) [] ∅ WNone [] [] [] [] [] [].
Inductive reachable : sys -> Prop :=
| RInit : reachable arp_init
| RStep s s' : reachable s -> step s s' -> reachable s'.

(** Progress of a thread does not get stuck on memory: whoever looks at an entry finds
    it there, and whoever copies an address finds all of its bytes (this is part of what
    is shown below). *)
Definition ready (s : sys) : Prop :=
  (forall daddr, is_Some (lookup_entry (hash_ip crc32 daddr) daddr (tb s))) /\
  (forall t p a, pcs s !! t = Some p -> holds p = Some a -> is_Some (entries (tb s) !! a)) /\
  (forall t d m a got i, pcs s !! t = Some (Valid d m a got) -> (i < 6)%nat -> exists e h, entries (tb s) !! a = Some e /\ a_eth e = Some h /\ is_Some (h !! i)).
End System.
