(* ===== verification/ArpSpec.v ===== *)
(** * arp: what resolution guarantees

    The theorems about Arp: a buffer that waits for an address is sent or given up
    exactly once, to an address that its next hop announced, the worker
    looks after every entry it should, and what [arp_send] sends is what [net_rx_arp]
    understands. *)

From S2P Require Import Prelude StdDef Bags Transport Chksum Arp.

(** ** The table *)

Section Table.
Context (crc32 : Z -> Z -> Z) (dest : nat -> Z).
Abbreviation hash := (hash_ip crc32).
Abbreviation bucket_of s i := (arp_tbl s !!! i).

Definition dynamic (e : arp_entry) : bool := bool_decide (a_state e <> ARP_STATE_STATIC).
(** The buffers in the queues, and the addresses of the dynamic entries in memory. *)
Definition queued (s : arp) : list nat := bag a_q (entries s).
Definition dynamics (s : arp) : list Z := bag (fun e => if dynamic e then [a_ip e] else []) (entries s).

(** An entry on its own: buffers wait only while it is probing, and for its address. *)
Definition entry_ok (ann : list (Z * mac)) (e : arp_entry) : Prop :=
  (a_q e <> [] -> a_state e = ARP_STATE_PROBING) /\
  (a_state e <> ARP_STATE_PROBING -> exists h, a_eth e = Some h /\ length h = 6%nat /\ (a_ip e, h) ∈ ann) /\
  (forall m, m ∈ a_q e -> dest m = a_ip e).

(** The table, with the entries [zs] that were taken out of it and the mappings [ann]
    that were announced. *)
Record tbl_ok (s : arp) (zs : list nat) (ann : list (Z * mac)) : Prop := {
  t_in : forall i a, a ∈ bucket_of s i -> a ∉ zs /\ exists e, entries s !! a = Some e /\ hash (a_ip e) = i;
  t_nodup : forall i, NoDup (bucket_of s i);
  t_all : forall a e, entries s !! a = Some e -> a ∉ zs -> a ∈ bucket_of s (hash (a_ip e));
  t_zombie : forall a, a ∈ zs -> exists e, entries s !! a = Some e /\ a_q e = [] /\ dynamic e = true;
  t_zs : NoDup zs;
  t_entry : forall a e, entries s !! a = Some e -> entry_ok ann e;
  t_count : nr_dynamic_entries s = u64 (Z.of_nat (length (dynamics s)) - Z.of_nat (length zs));
  t_unique : forall a b ea eb, entries s !! a = Some ea -> entries s !! b = Some eb -> a ∉ zs -> b ∉ zs ->
    dynamic ea = true -> dynamic eb = true -> a_ip ea = a_ip eb -> a = b
}.

(** What a reader of an entry relies on. *)
Definition keeps (s s' : arp) : Prop := forall a e, entries s !! a = Some e -> exists e', entries s' !! a = Some e' /\ a_ip e' = a_ip e /\
  (a_state e <> ARP_STATE_PROBING -> a_state e' <> ARP_STATE_PROBING).
Lemma arp_keeps_refl s : keeps s s.
Proof. intros a e H. by exists e. Qed.
Lemma keeps_worker s b : keeps s (s <| arp_worker_th := b |>).
Proof. intros a e H. by exists e. Qed.
Lemma arp_keeps_trans s1 s2 s3 : keeps s1 s2 -> keeps s2 s3 -> keeps s1 s3.
Proof.
  intros H1 H2 a e He. destruct (H1 a e He) as (e2 & E2 & I2 & S2). destruct (H2 a e2 E2) as (e3 & E3 & I3 & S3). exists e3. split; [done|]. split; [congruence|tauto].
Qed.

Lemma tbl_ok_perm s zs zs' ann : zs ≡ₚ zs' -> tbl_ok s zs ann -> tbl_ok s zs' ann.
Proof.
  intros Hp [H1 H2 H3 H4 H5 H6 H7 H8]. split; try setoid_rewrite <- Hp; try done.
Qed.
Lemma tbl_ok_announce s zs ann x : tbl_ok s zs ann -> tbl_ok s zs (x :: ann).
Proof.
  intros [H1 H2 H3 H4 H5 H6 H7 H8]. split; try done. intros a e He. destruct (H6 a e He) as (Q1 & Q2 & Q3). split; [done|]. split; [|done].
  intros Hs. destruct (Q2 Hs) as (h & E & Hl & Hin). exists h. split; [done|]. split; [done|]. by apply list_elem_of_further.
Qed.
Lemma tbl_ok_worker s zs ann b : tbl_ok s zs ann -> tbl_ok (s <| arp_worker_th := b |>) zs ann.
Proof. intros [H1 H2 H3 H4 H5 H6 H7 H8]. by split. Qed.

(** An entry changes in place. *)
Lemma tbl_ok_update s zs ann a e e' : tbl_ok s zs ann -> entries s !! a = Some e -> a_ip e' = a_ip e -> dynamic e' = dynamic e ->
  entry_ok ann e' -> (a ∈ zs -> a_q e' = []) -> (a_state e <> ARP_STATE_PROBING -> a_state e' <> ARP_STATE_PROBING) ->
  let s' := s <| entries := <[a := e']> (entries s) |> in
  tbl_ok s' zs ann /\ keeps s s' /\ a_q e ++ queued s' ≡ₚ a_q e' ++ queued s.
Proof.
  intros [H1 H2 H3 H4 H5 H6 H7 H8] Ha Hip Hdyn Hok Hz Hst s'.
  assert (entries s' = <[a := e']> (entries s)) as Es by done. assert (arp_tbl s' = arp_tbl s) as Et by done.
  assert (forall b x, entries s' !! b = Some x -> exists y, entries s !! b = Some y /\ a_ip x = a_ip y /\ dynamic x = dynamic y) as Hback.
  { intros b x Hb. rewrite Es in Hb. apply lookup_insert_Some in Hb as [[<- <-]|[Hne Hb]]; [by exists e|by exists x]. }
  assert (forall b x, entries s !! b = Some x -> b <> a -> entries s' !! b = Some x) as Hother by (intros b x Hb Hne; rewrite Es; by rewrite lookup_insert_ne).
  assert (entries s' !! a = Some e') as Hnew by (rewrite Es; apply lookup_insert_eq).
  split; [split|split].
  - rewrite Et. intros i b Hb. destruct (H1 i b Hb) as (Hnz & x & Hx & Hi). split; [done|]. destruct (decide (b = a)) as [->|Hne].
    + exists e'. split; [done|congruence].
    + exists x. split; [by apply Hother|done].
  - exact H2.
  - intros b x Hb Hnz. destruct (Hback b x Hb) as (y & Hy & -> & _). by apply H3.
  - intros b Hb. destruct (H4 b Hb) as (x & Hx & Hq & Hd). destruct (decide (b = a)) as [->|Hne].
    + exists e'. split; [done|]. split; [by apply Hz|congruence].
    + exists x. split; [by apply Hother|done].
  - exact H5.
  - intros b x Hb. rewrite Es in Hb. apply lookup_insert_Some in Hb as [[<- <-]|[Hne Hb]]; [done|by apply (H6 b)].
  - change (nr_dynamic_entries s') with (nr_dynamic_entries s). rewrite H7. f_equal. f_equal. f_equal. apply Permutation_length.
    pose proof (bag_update (fun e => if dynamic e then [a_ip e] else []) (entries s) a e e' Ha) as Hp.
    cbn beta in Hp. rewrite Hdyn, Hip in Hp. apply Permutation_app_inv_l in Hp. by symmetry.
  - intros b c x y Hb Hc Hnb Hnc Hdx Hdy Hxy. destruct (Hback b x Hb) as (x0 & Hx0 & Ex & Dx), (Hback c y Hc) as (y0 & Hy0 & Ey & Dy).
    apply (H8 b c x0 y0); congruence.
  - intros b x Hb. destruct (decide (b = a)) as [->|Hne].
    + exists e'. split; [done|]. rewrite Ha in Hb. injection Hb as <-. done.
    + exists x. split; [by apply Hother|done].
  - by apply bag_update.
Qed.

Lemma find_entry_ok es l d : (forall a, a ∈ l -> is_Some (es !! a)) -> exists r, find_entry es l d = Some r /\
  match r with
  | Some a => a ∈ l /\ exists e, es !! a = Some e /\ a_ip e = d
  | None => forall a e, a ∈ l -> es !! a = Some e -> a_ip e <> d
  end.
Proof.
  induction l as [|a l IH]; intros Hl; cbn [find_entry].
  { exists None. split; [done|]. by intros a e ?%not_elem_of_nil. }
  destruct (Hl a (list_elem_of_here a l)) as [e He]. rewrite He. cbn [mbind option_bind]. destruct (a_ip e =? d) eqn:E.
  - exists (Some a). split; [done|]. split; [apply list_elem_of_here|]. exists e. split; [done|lia].
  - destruct IH as ([b|] & -> & H); [intros b Hb; by apply Hl, list_elem_of_further|exists (Some b)|exists None]; (split; [done|]).
    + destruct H as [H1 H2]. split; [by apply list_elem_of_further|done].
    + intros b x Hb Hx. apply elem_of_cons in Hb as [->|Hb]; [|by apply (H b)]. assert (x = e) as -> by congruence. lia.
Qed.
Lemma lookup_entry_ok s zs ann d : tbl_ok s zs ann -> exists r, lookup_entry (hash d) d s = Some r /\
  match r with
  | Some a => a ∉ zs /\ exists e, entries s !! a = Some e /\ a_ip e = d
  | None => forall a e, entries s !! a = Some e -> a ∉ zs -> a_ip e <> d
  end.
Proof.
  intros T. destruct (find_entry_ok (entries s) (bucket_of s (hash d)) d) as ([a|] & E & H).
  - intros a Ha. destruct (t_in _ _ _ T _ _ Ha) as (_ & e & He & _). by eexists.
  - exists (Some a). split; [done|]. destruct H as [H1 H2]. split; [by destruct (t_in _ _ _ T _ _ H1)|done].
  - exists None. split; [done|]. intros a e He Hz Hip. apply (H a e); [|done|done]. rewrite <- Hip. by apply (t_all _ _ _ T).
Qed.

(** A new entry goes to the head of its bucket. *)
Lemma insert_entry_ok s zs ann a e : tbl_ok s zs ann -> entries s !! a = None -> entry_ok ann e -> a_q e = [] ->
  (dynamic e = true -> forall b x, entries s !! b = Some x -> b ∉ zs -> a_ip x <> a_ip e) ->
  exists s' out, insert_entry a (hash (a_ip e)) (s <| entries := <[a := e]> (entries s) |>) = Some (s', out) /\
  tbl_ok s' zs ann /\ keeps s s' /\ queued s' ≡ₚ queued s /\ entries s' = <[a := e]> (entries s) /\
  nr_dynamic_entries s' = (if dynamic e then u64 (nr_dynamic_entries s + 1) else nr_dynamic_entries s) /\
  ((out = [] /\ arp_worker_th s' = arp_worker_th s /\ (dynamic e && arp_worker_th s = true -> nr_dynamic_entries s' <> 1)) \/
   (out = [WakeWorker] /\ arp_worker_th s = true /\ arp_worker_th s' = false /\ nr_dynamic_entries s' = 1)).
Proof.
  intros T Ha Hok Hq Huniq. pose proof T as [H1 H2 H3 H4 H5 H6 H7 H8].
  assert (a ∉ zs) as Hz by (intros Hz; destruct (H4 a Hz) as (x & Hx & _); congruence).
  assert (forall s', entries s' = <[a := e]> (entries s) -> arp_tbl s' = <[hash (a_ip e) := a :: bucket_of s (hash (a_ip e))]> (arp_tbl s) ->
    nr_dynamic_entries s' = (if dynamic e then u64 (nr_dynamic_entries s + 1) else nr_dynamic_entries s) ->
    tbl_ok s' zs ann /\ keeps s s' /\ queued s' ≡ₚ queued s) as Hmain.
  { intros s' Es Et En.
    assert (forall b x, entries s !! b = Some x -> entries s' !! b = Some x) as Hold by (intros b x Hb; rewrite Es; rewrite lookup_insert_ne by congruence; done).
    assert (forall i, bucket_of s' i = if decide (i = hash (a_ip e)) then a :: bucket_of s i else bucket_of s i) as Hbk.
    { intros i. rewrite Et. case_decide as Hi; [subst i; apply lookup_total_insert_eq|by rewrite lookup_total_insert_ne by congruence]. }
    assert (forall i, a ∉ bucket_of s i) as Hnb by (intros i Hin; destruct (H1 i a Hin) as (_ & x & Hx & _); congruence).
    split; [split|split].
    - intros i b. rewrite Hbk. case_decide as Hi; [rewrite elem_of_cons; intros [->|Hb]|intros Hb].
      + split; [done|]. exists e. split; [rewrite Es; apply lookup_insert_eq|done].
      + destruct (H1 i b Hb) as (Hnz & x & Hx & Hh). split; [done|]. exists x. split; [by apply Hold|done].
      + destruct (H1 i b Hb) as (Hnz & x & Hx & Hh). split; [done|]. exists x. split; [by apply Hold|done].
    - intros i. rewrite Hbk. case_decide; [|done]. by constructor.
    - intros b x Hb Hnz. rewrite Es in Hb. rewrite Hbk. apply lookup_insert_Some in Hb as [[<- <-]|[Hne Hb]].
      + rewrite decide_True by done. apply list_elem_of_here.
      + case_decide; [apply list_elem_of_further|]; by apply H3.
    - intros b Hb. destruct (H4 b Hb) as (x & Hx & Hr). exists x. split; [by apply Hold|done].
    - done.
    - intros b x Hb. rewrite Es in Hb. apply lookup_insert_Some in Hb as [[<- <-]|[Hne Hb]]; [done|by apply (H6 b)].
    - rewrite En, H7. unfold dynamics. rewrite Es. rewrite (Permutation_length (bag_insert _ (entries s) a e Ha)), length_app. destruct (dynamic e); simpl length; [|done].
      unfold u64. rewrite Z.add_mod_idemp_l by done. f_equal. lia.
    - intros b c x y Hb Hc Hnb' Hnc Hdx Hdy Hxy. rewrite Es in Hb, Hc. apply lookup_insert_Some in Hb as [[<- <-]|[Hne Hb]]; apply lookup_insert_Some in Hc as [[<- <-]|[Hne' Hc]].
      + done.
      + by destruct (Huniq Hdx c y).
      + by destruct (Huniq Hdy b x).
      + by apply (H8 b c x y).
    - intros b x Hb. exists x. split; [by apply Hold|done].
    - unfold queued. rewrite Es, (bag_insert a_q _ _ _ Ha), Hq. done. }
  unfold insert_entry. cbn [entries arp_tbl nr_dynamic_entries arp_worker_th]. change (entries (s <| entries := <[a := e]> (entries s) |>)) with (<[a := e]> (entries s)).
  rewrite lookup_insert_eq. cbn [mbind option_bind]. cbv zeta. unfold dynamic in Hmain |- *. destruct (bool_decide (a_state e = ARP_STATE_STATIC)) eqn:Ed.
  - apply bool_decide_eq_true in Ed. rewrite bool_decide_false by (intros Hx; by apply Hx). rewrite bool_decide_false in Hmain by (intros Hx; by apply Hx).
    eexists _, []. split; [done|]. destruct (Hmain (s <| entries := <[a := e]> (entries s) |> <| arp_tbl := <[hash (a_ip e) := a :: bucket_of s (hash (a_ip e))]> (arp_tbl s) |>)) as (R1 & R2 & R3); [done..|].
    split_and!; try done. left. by split_and!.
  - apply bool_decide_eq_false in Ed. rewrite bool_decide_true in * by done.
    destruct (_ && _) eqn:Ew; eexists _, _; (split; [done|]).
    + match goal with |- tbl_ok ?x _ _ /\ _ => destruct (Hmain x) as (R1 & R2 & R3); [done..|] end. split_and!; try done. right. apply andb_true_iff in Ew as [En Ew]. apply Z.eqb_eq in En. by split_and!.
    + match goal with |- tbl_ok ?x _ _ /\ _ => destruct (Hmain x) as (R1 & R2 & R3); [done..|] end. split_and!; try done. left. split_and!; try done.
      intros Hw. apply andb_true_iff in Hw as [_ Hw]. simpl in *. rewrite Hw, andb_true_r in Ew. by apply Z.eqb_neq in Ew.
Qed.

(** The buffers a call frees and the entries it hands to RCU. *)
Definition frees (out : list effect) : list nat := omap (fun x => match x with FreeMbuf m => Some m | _ => None end) out.
Definition retired (out : list effect) : list nat := omap (fun x => match x with RcuFree a => Some a | _ => None end) out.
Lemma frees_queue q : frees (concat ((fun m => [NetError m; FreeMbuf m]) <$> q)) = q /\ retired (concat ((fun m => [NetError m; FreeMbuf m]) <$> q)) = [] /\
  WakeWorker ∉ concat ((fun m => [NetError m; FreeMbuf m]) <$> q).
Proof.
  induction q as [|m q (IH1 & IH2 & IH3)]; [by split_and!; [| |apply not_elem_of_nil]|]. rewrite fmap_cons. cbn [concat]. unfold frees, retired in *. rewrite !omap_app, IH1, IH2.
  split; [done|]. split; [done|]. rewrite elem_of_app. intros [H|H]; [|done]. by rewrite !elem_of_cons, elem_of_nil in H; destruct H as [|[|]].
Qed.
Lemma bucket_filter s a i : (filter (fun b => b <> a) <$> arp_tbl s) !!! i = filter (fun b => b <> a) (bucket_of s i).
Proof. rewrite !lookup_total_alt, lookup_fmap. by destruct (arp_tbl s !! i). Qed.

Lemma delete_entry_ok s zs ann a e : tbl_ok s zs ann -> entries s !! a = Some e -> a ∉ zs -> dynamic e = true ->
  exists s', delete_entry a s = Some (s', concat ((fun m => [NetError m; FreeMbuf m]) <$> a_q e) ++ [RcuFree a]) /\
  tbl_ok s' (a :: zs) ann /\ keeps s s' /\ queued s ≡ₚ a_q e ++ queued s' /\ arp_worker_th s' = arp_worker_th s /\
  (forall b, b <> a -> entries s' !! b = entries s !! b) /\ nr_dynamic_entries s' = u64 (nr_dynamic_entries s - 1).
Proof.
  intros T Ha Hz Hd. unfold delete_entry. rewrite Ha. cbn [mbind option_bind]. cbv zeta. unfold dynamic in Hd. apply bool_decide_eq_true in Hd as Hd'.
  rewrite bool_decide_false by done. eexists. split; [done|].
  destruct (tbl_ok_update s zs ann a e (e <| a_q := [] |>) T Ha) as (T' & K & Q); [done|done| |done|done|].
  { destruct (t_entry _ _ _ T a e Ha) as (E1 & E2 & E3). split; [done|]. split; [done|]. by intros m ?%not_elem_of_nil. }
  simpl in Q. cbn [entries arp_worker_th nr_dynamic_entries]. set (s1 := s <| entries := _ |>) in T', K, Q.
  match goal with |- tbl_ok ?x _ _ /\ _ => set (s' := x) end.
  assert (entries s' = entries s1) as Es by done. assert (arp_tbl s' = filter (fun b => b <> a) <$> arp_tbl s1) as Et by done.
  assert (nr_dynamic_entries s' = u64 (nr_dynamic_entries s1 - 1)) as En by done.
  assert (entries s1 !! a = Some (e <| a_q := [] |>)) as Ha1 by apply lookup_insert_eq.
  split_and!; [|exact K|by symmetry|done| |done]; [|intros b Hb; change (entries s') with (<[a := e <| a_q := [] |>]> (entries s)); by rewrite lookup_insert_ne].
  clearbody s' s1. destruct T' as [H1 H2 H3 H4 H5 H6 H7 H8]. split; try rewrite Es; try rewrite Et.
  - intros i b. rewrite bucket_filter, list_elem_of_filter. intros [Hb Hin]. destruct (H1 i b Hin) as (Hnz & x & Hx & Hi). split; [by rewrite not_elem_of_cons|by exists x].
  - intros i. rewrite bucket_filter. by apply NoDup_filter.
  - intros b x Hb Hnz. rewrite not_elem_of_cons in Hnz. rewrite bucket_filter, list_elem_of_filter. split; [tauto|]. apply H3; tauto.
  - intros b. rewrite elem_of_cons. intros [->|Hb]; [|by apply H4]. exists (e <| a_q := [] |>). split; [done|]. split; [done|]. by apply bool_decide_eq_true.
  - by constructor.
  - done.
  - rewrite En, H7. unfold u64, dynamics. rewrite Es, Zminus_mod_idemp_l. simpl length. f_equal. lia.
  - intros b c x y Hb Hc. rewrite !not_elem_of_cons. intros [_ Hnb] [_ Hnc]. by apply (H8 b c x y).
Qed.

(** Ageing an entry, and a bucket. *)
Record aged (s : arp) (zs : list nat) (ann : list (Z * mac)) (s' : arp) (out : list effect) : Prop := {
  ag_ok : tbl_ok s' (retired out ++ zs) ann; ag_keeps : keeps s s'; ag_q : queued s ≡ₚ frees out ++ queued s';
  ag_worker : arp_worker_th s' = arp_worker_th s; ag_wake : WakeWorker ∉ out }.
Lemma age_entry_ok now_us now s zs ann a e : tbl_ok s zs ann -> entries s !! a = Some e -> a ∉ zs ->
  exists s' out, arp_age_entry now_us now a s = Some (s', out) /\ aged s zs ann s' out /\
  (forall b, b <> a -> entries s' !! b = entries s !! b) /\ (forall b, b ∈ retired out -> b = a).
Proof.
  intros T Ha Hz. unfold arp_age_entry. rewrite Ha. cbn [mbind option_bind]. destruct (_ <? _).
  { exists s, []. split; [done|]. split; [split; try done; [apply arp_keeps_refl|apply not_elem_of_nil]|]. split; [done|]. by intros b ?%not_elem_of_nil. }
  assert (forall e' i, a_ip e' = a_ip e -> dynamic e' = dynamic e -> entry_ok ann e' -> a_q e' = a_q e -> (a_state e <> ARP_STATE_PROBING -> a_state e' <> ARP_STATE_PROBING) ->
    exists s' out, Some (s <| entries := <[a := e']> (entries s) |>, [ArpSend ARP_OP_REQUEST eth_addr_broadcast i]) = Some (s', out) /\
    aged s zs ann s' out /\ (forall b, b <> a -> entries s' !! b = entries s !! b) /\ (forall b, b ∈ retired out -> b = a)) as Hprobe.
  { intros e' i E1 E2 E3 E4 E5. destruct (tbl_ok_update s zs ann a e e' T Ha E1 E2 E3) as (T' & K & Q); [done|done|]. rewrite E4 in Q. apply Permutation_app_inv_l in Q.
    eexists _, _. split; [done|]. split; [split; try done; by rewrite list_elem_of_singleton|].
    split; [intros b Hb; simpl; by rewrite lookup_insert_ne|by intros b ?%not_elem_of_nil]. }
  pose proof (t_entry _ _ _ T a e Ha) as (Q1 & Q2 & Q3).
  assert (dynamic e = true -> tries_left e = 0 -> exists s' out, delete_entry a s = Some (s', out) /\ aged s zs ann s' out /\
    (forall b, b <> a -> entries s' !! b = entries s !! b) /\ (forall b, b ∈ retired out -> b = a)) as Hdel.
  { intros Hd _. destruct (delete_entry_ok s zs ann a e T Ha Hz Hd) as (s' & E & T' & K & Q & W & O & _). destruct (frees_queue (a_q e)) as (F1 & F2 & F3).
    eexists _, _. split; [done|]. unfold frees, retired in *. split; [split; unfold frees, retired; rewrite ?omap_app, ?F1, ?F2; try done|split; [done|]].
    - simpl. by rewrite app_nil_r.
    - rewrite elem_of_app, list_elem_of_singleton. intros [H|H]; done.
    - unfold retired. rewrite omap_app, F2. simpl. intros b Hb. by apply list_elem_of_singleton in Hb. }
  cbv zeta. destruct (a_state e) eqn:Es.
  - destruct (tries_left e =? 0) eqn:Et; [apply Hdel; [unfold dynamic; rewrite Es; done|lia]|]. apply Hprobe; try done; unfold dynamic; simpl; rewrite ?Es; done.
  - apply Hprobe; try done; [unfold dynamic; simpl; by rewrite Es|]. split; [intros Hq; by specialize (Q1 Hq)|]. split; [intros _; by apply Q2|done].
  - destruct (tries_left e =? 0) eqn:Et; [apply Hdel; [unfold dynamic; rewrite Es; done|lia]|]. apply Hprobe; try done; unfold dynamic; simpl; rewrite ?Es; done.
  - exists s, []. split; [done|]. split; [split; try done; [apply arp_keeps_refl|apply not_elem_of_nil]|]. split; [done|]. by intros b ?%not_elem_of_nil.
Qed.
Lemma age_entries_ok now_us clock l s zs ann : tbl_ok s zs ann -> NoDup l -> (forall a, a ∈ l -> a ∉ zs /\ is_Some (entries s !! a)) ->
  exists s' out, age_entries now_us clock l s = Some (s', out) /\ aged s zs ann s' out.
Proof.
  revert s zs. induction l as [|a l IH]; intros s zs T Hnd Hl; cbn [age_entries].
  { exists s, []. split; [done|]. split; try done; [apply arp_keeps_refl|apply not_elem_of_nil]. }
  apply NoDup_cons in Hnd as [Hal Hnd]. destruct (Hl a (list_elem_of_here a l)) as [Hz [e He]].
  destruct (age_entry_ok now_us (clock a) s zs ann a e T He Hz) as (s1 & o1 & E1 & [A1 A2 A3 A4 A5] & O1 & R1). rewrite E1. cbn [mbind option_bind].
  destruct (IH s1 (retired o1 ++ zs) A1 Hnd) as (s2 & o2 & E2 & [B1 B2 B3 B4 B5]).
  { intros b Hb. assert (b <> a) as Hba by congruence. destruct (Hl b (list_elem_of_further _ _ _ Hb)) as [Hbz Hbe]. rewrite (O1 b Hba). split; [|done].
    rewrite not_elem_of_app. split; [|done]. intros Hr. by apply Hba, R1. }
  rewrite E2. cbn [mbind option_bind]. exists s2, (o1 ++ o2). split; [done|]. unfold retired, frees in *. split.
  - unfold retired. rewrite omap_app. refine (tbl_ok_perm _ _ _ _ _ B1). perm.
  - by apply (arp_keeps_trans _ s1).
  - unfold frees. rewrite omap_app, A3, B3. by rewrite app_assoc.
  - congruence.
  - by rewrite not_elem_of_app.
Qed.

(** An insertion counts a dynamic entry, and wakes the worker if it is the first. *)
Definition wakes (s s' : arp) (out : list effect) : Prop :=
  (out = [] /\ arp_worker_th s' = arp_worker_th s /\
   (nr_dynamic_entries s' = nr_dynamic_entries s \/
    (nr_dynamic_entries s' = u64 (nr_dynamic_entries s + 1) /\ (arp_worker_th s = true -> nr_dynamic_entries s' <> 1)))) \/
  (out = [WakeWorker] /\ arp_worker_th s = true /\ arp_worker_th s' = false /\ nr_dynamic_entries s' = 1 /\ nr_dynamic_entries s' = u64 (nr_dynamic_entries s + 1)).
Lemma insert_wakes s s' out e : dynamic e = true ->
  nr_dynamic_entries s' = (if dynamic e then u64 (nr_dynamic_entries s + 1) else nr_dynamic_entries s) ->
  (out = [] /\ arp_worker_th s' = arp_worker_th s /\ (dynamic e && arp_worker_th s = true -> nr_dynamic_entries s' <> 1)) \/
  (out = [WakeWorker] /\ arp_worker_th s = true /\ arp_worker_th s' = false /\ nr_dynamic_entries s' = 1) -> wakes s s' out.
Proof.
  intros -> Hn [(-> & Hw & Hne)|(-> & Hw & Hw' & Hn1)]; [left|right]; split_and!; try done. right. split; [done|]. intros H. apply Hne. by rewrite H.
Qed.

Lemma update_ok a mem_ok created now daddr dhost s zs ann : length dhost = 6%nat -> tbl_ok s zs ann -> entries s !! a = None ->
  exists s' out q, arp_update crc32 a mem_ok created now daddr dhost s = Some (s', out, q) /\
  tbl_ok s' zs ((daddr, dhost) :: ann) /\ keeps s s' /\ queued s ≡ₚ q ++ queued s' /\ (forall m, m ∈ q -> dest m = daddr) /\ wakes s s' out.
Proof.
  intros Hlen T0 Ha. pose proof (tbl_ok_announce s zs ann (daddr, dhost) T0) as T. clear T0. unfold arp_update.
  assert (forall s1 b e, tbl_ok s1 zs ((daddr, dhost) :: ann) -> b ∉ zs -> entries s1 !! b = Some e -> a_ip e = daddr -> dynamic e = true ->
    let s2 := s1 <| entries := <[b := e <| a_eth := Some dhost |> <| a_ts := now |> <| a_state := ARP_STATE_VALID |> <| a_q := [] |>]> (entries s1) |> in
    tbl_ok s2 zs ((daddr, dhost) :: ann) /\ keeps s1 s2 /\ queued s1 ≡ₚ a_q e ++ queued s2 /\ (forall m, m ∈ a_q e -> dest m = daddr)) as Hfinish.
  { intros s1 b e T1 Hz He Hip Hd s2. destruct (tbl_ok_update s1 zs _ b e (e <| a_eth := Some dhost |> <| a_ts := now |> <| a_state := ARP_STATE_VALID |> <| a_q := [] |>) T1 He) as (T2 & K & Q); try done.
    - split; [done|]. split; [|by intros m ?%not_elem_of_nil]. intros _. exists dhost. split; [done|]. split; [done|]. simpl. rewrite Hip. apply list_elem_of_here.
    - simpl in Q. split; [done|]. split; [done|]. split; [by symmetry|]. intros m Hm. rewrite <- Hip. by apply (t_entry _ _ _ T1 b e He). }
  destruct (lookup_entry_ok s zs _ daddr T) as ([b|] & -> & H); cbn [mbind option_bind].
  - destruct H as (Hz & e & He & Hip). rewrite He. cbn [mbind option_bind]. destruct (bool_decide (a_state e = ARP_STATE_STATIC)) eqn:Es.
    { eexists s, [], []. split; [done|]. split; [done|]. split; [apply arp_keeps_refl|]. split; [done|]. split; [by intros m ?%not_elem_of_nil|]. left. split_and!; try done. by left. }
    apply bool_decide_eq_false in Es. destruct (Hfinish s b e T Hz He Hip) as (T2 & K & Q & D); [by apply bool_decide_eq_true|].
    eexists _, _, _. split; [done|]. split_and!; try done. left. split_and!; try done. by left.
  - destruct mem_ok.
    2: { eexists s, [], []. split; [done|]. split; [done|]. split; [apply arp_keeps_refl|]. split; [done|]. split; [by intros m ?%not_elem_of_nil|]. left. split_and!; try done. by left. }
    assert (a ∉ zs) as Hz by (intros Hz; destruct (t_zombie _ _ _ T a Hz) as (x & Hx & _); congruence).
    destruct (insert_entry_ok s zs _ a (create_entry created daddr) T Ha) as (s1 & out & E & T1 & K1 & Q1 & Es & En & W); [|done|by intros _; apply H|].
    { split; [done|]. split; [done|by intros m ?%not_elem_of_nil]. }
    change (a_ip (create_entry created daddr)) with daddr in E. rewrite E. cbn [mbind option_bind].
    assert (entries s1 !! a = Some (create_entry created daddr)) as Ha1 by (rewrite Es; apply lookup_insert_eq). rewrite Ha1. cbn [mbind option_bind].
    destruct (Hfinish s1 a _ T1 Hz Ha1) as (T2 & K2 & Q2 & D); [done|done|]. eexists _, _, _. split; [done|]. split; [done|]. split; [by apply (arp_keeps_trans _ s1)|].
    split; [by rewrite <- Q1, Q2|]. split; [done|]. by apply (insert_wakes s _ out (create_entry created daddr)).
Qed.

Lemma lookup_locked_ok a newe daddr m s zs ann : tbl_ok s zs ann -> entries s !! a = None ->
  (forall e, newe = Some e -> exists now, e = create_entry now daddr) -> (forall x, m = Some x -> dest x = daddr) ->
  exists s' out r, arp_lookup_locked crc32 a newe daddr m s = Some (s', out, r) /\ tbl_ok s' zs ann /\ keeps s s' /\ wakes s s' out /\
  match r with
  | Known eth => (exists h, eth = Some h /\ length h = 6%nat /\ (daddr, h) ∈ ann) /\ queued s' ≡ₚ queued s
  | Waits => queued s' ≡ₚ option_list m ++ queued s
  | Unreachable => queued s' ≡ₚ queued s
  end.
Proof.
  intros T Ha Hnew Hm. unfold arp_lookup_locked.
  assert (forall s1 b e, tbl_ok s1 zs ann -> b ∉ zs -> entries s1 !! b = Some e -> a_ip e = daddr -> a_state e = ARP_STATE_PROBING ->
    let s2 := s1 <| entries := <[b := e <| a_q := a_q e ++ option_list m |>]> (entries s1) |> in
    tbl_ok s2 zs ann /\ keeps s1 s2 /\ queued s2 ≡ₚ option_list m ++ queued s1) as Henq.
  { intros s1 b e T1 Hz He Hip Hs s2. destruct (tbl_ok_update s1 zs ann b e (e <| a_q := a_q e ++ option_list m |>) T1 He) as (T2 & K & Q); try done.
    - pose proof (t_entry _ _ _ T1 b e He) as (Q1 & Q2 & Q3). split; [done|]. split; [done|]. simpl. intros x. rewrite elem_of_app. intros [Hx|Hx]; [by apply Q3|].
      rewrite Hip. apply Hm. destruct m; simpl in Hx; [by apply list_elem_of_singleton in Hx as ->|by apply not_elem_of_nil in Hx].
    - split; [done|]. split; [done|]. simpl in Q. rewrite <- app_assoc in Q. by apply Permutation_app_inv_l in Q. }
  destruct (lookup_entry_ok s zs ann daddr T) as ([b|] & -> & H); cbn [mbind option_bind].
  - destruct H as (Hz & e & He & Hip). rewrite He. cbn [mbind option_bind]. destruct (bool_decide (a_state e <> ARP_STATE_PROBING)) eqn:Es.
    + apply bool_decide_eq_true in Es. eexists s, [], _. split; [done|]. split; [done|]. split; [apply arp_keeps_refl|]. split; [left; split_and!; try done; by left|].
      split; [|done]. rewrite <- Hip. by apply (t_entry _ _ _ T b e He).
    + apply bool_decide_eq_false in Es. destruct (Henq s b e T Hz He Hip) as (T2 & K & Q); [by destruct (decide (a_state e = ARP_STATE_PROBING))|].
      eexists _, [], Waits. split; [done|]. split; [done|]. split; [done|]. split; [left; split_and!; try done; by left|done].
  - destruct newe as [e|].
    2: { eexists s, [], Unreachable. split; [done|]. split; [done|]. split; [apply arp_keeps_refl|]. split; [left; split_and!; try done; by left|done]. }
    destruct (Hnew e eq_refl) as [now ->]. assert (a ∉ zs) as Hz by (intros Hz; destruct (t_zombie _ _ _ T a Hz) as (x & Hx & _); congruence).
    destruct (insert_entry_ok s zs _ a (create_entry now daddr) T Ha) as (s1 & out & E & T1 & K1 & Q1 & Es & En & W); [|done|by intros _; apply H|].
    { split; [done|]. split; [done|by intros x ?%not_elem_of_nil]. }
    change (a_ip (create_entry now daddr)) with daddr in E. rewrite E. cbn [mbind option_bind].
    assert (entries s1 !! a = Some (create_entry now daddr)) as Ha1 by (rewrite Es; apply lookup_insert_eq). rewrite Ha1. cbn [mbind option_bind].
    destruct (Henq s1 a _ T1 Hz Ha1) as (T2 & K2 & Q2); [done|done|]. eexists _, _, Waits. split; [done|]. split; [done|]. split; [by apply (arp_keeps_trans _ s1)|].
    split; [by apply (insert_wakes s _ out (create_entry now daddr))|]. by rewrite <- Q1.
Qed.

Lemma add_static_ok a now x s zs ann : length x.2 = 6%nat -> tbl_ok s zs ann -> entries s !! a = None -> exists s', add_static crc32 a now x s = Some s' /\
  tbl_ok s' zs (x :: ann) /\ keeps s s' /\ queued s' ≡ₚ queued s /\ nr_dynamic_entries s' = nr_dynamic_entries s /\ arp_worker_th s' = arp_worker_th s.
Proof.
  intros Hlen T0 Ha. pose proof (tbl_ok_announce s zs ann x T0) as T. unfold add_static.
  destruct (insert_entry_ok s zs _ a (create_entry now x.1 <| a_eth := Some x.2 |> <| a_state := ARP_STATE_STATIC |>) T Ha) as (s1 & out & E & T1 & K1 & Q1 & Es & En & W); [|done|done|].
  { split; [done|]. split; [|by intros m ?%not_elem_of_nil]. intros _. exists x.2. split; [done|]. split; [done|]. destruct x. apply list_elem_of_here. }
  match type of E with insert_entry _ (hash (a_ip ?e)) _ = _ => change (a_ip e) with x.1 in E end. rewrite E. exists s1. split_and!; try done.
  destruct W as [(_ & -> & _)|(_ & Hw & Hw' & _)]; [done|]. unfold insert_entry in E. simpl in E. rewrite lookup_insert_eq in E. simpl in E. injection E as <- _. simpl in Hw'. congruence.
Qed.
End Table.

(** ** The system *)

Section System.
Context (crc32 : Z -> Z -> Z) (statics : list (Z * mac)) (dest : nat -> Z).

(** The buffers a thread has, and what it knows. *)
Definition pkts (p : pc) : list nat :=
  match p with Found _ m _ | Valid _ m _ _ | Cold _ m _ => option_list m | Draining _ _ q => q end.
(** A byte of an address that was announced, and an answer made of such bytes. *)
Definition heard (ann : list (Z * mac)) (d : Z) (i : nat) (b : Z) : Prop := exists h, (d, h) ∈ ann /\ length h = 6%nat /\ h !! i = Some b.
Definition pieces (ann : list (Z * mac)) (d : Z) (h : mac) : Prop := length h = 6%nat /\ forall i b, h !! i = Some b -> heard ann d i b.
Lemma heard_mono ann ann' d i b : (forall x, x ∈ ann -> x ∈ ann') -> heard ann d i b -> heard ann' d i b.
Proof. intros H (h & H1 & H2). exists h. split; [by apply H|done]. Qed.
Lemma pieces_mono ann ann' d h : (forall x, x ∈ ann -> x ∈ ann') -> pieces ann d h -> pieces ann' d h.
Proof. intros H [H1 H2]. split; [done|]. intros i b Hb. by apply (heard_mono ann), H2. Qed.
Lemma pieces_whole ann d h : (d, h) ∈ ann -> length h = 6%nat -> pieces ann d h.
Proof. intros H Hl. split; [done|]. intros i b Hb. by exists h. Qed.
Lemma pieces_copied ann d got : (forall i, (i < 6)%nat -> is_Some (got !! i)) -> (forall i b, got !! i = Some b -> heard ann d i b) -> pieces ann d (copied got).
Proof.
  intros H6 Hg. split; [done|]. unfold copied. intros i b. rewrite list_lookup_fmap. destruct (seq 0 6 !! i) as [j|] eqn:E; [|done].
  apply lookup_seq in E as [-> Hi]. simpl. intros [= <-]. apply Hg. destruct (H6 i Hi) as [b Hb]. by rewrite (lookup_total_correct _ _ _ Hb).
Qed.
(** With a single address announced, the answer is that address. *)
Lemma pieces_single ann d h h0 : pieces ann d h -> (forall h', (d, h') ∈ ann -> h' = h0) -> h = h0.
Proof.
  intros [Hl H] H1. destruct h as [|b h]; [done|]. destruct (H 0%nat b eq_refl) as (h' & Hh & Hl' & _). rewrite (H1 h' Hh) in Hl'.
  apply list_eq_same_length with 6%nat; [done..|]. intros i x y Hi Hx Hy. destruct (H i x Hx) as (h2 & Hh2 & _ & Hb). rewrite (H1 h2 Hh2) in Hb. congruence.
Qed.
Definition pc_ok (es : gmap nat arp_entry) (ann : list (Z * mac)) (p : pc) : Prop :=
  match p with
  | Found d m (Some a) => exists e, es !! a = Some e /\ a_ip e = d
  | Found d m None => True
  | Valid d m a got => (exists e, es !! a = Some e /\ a_ip e = d /\ a_state e <> ARP_STATE_PROBING) /\ forall i b, got !! i = Some b -> heard ann d i b
  | Cold d m newe => forall e, newe = Some e -> exists now, e = create_entry now d
  | Draining d h q => (d, h) ∈ ann
  end /\ forall m, m ∈ pkts p -> dest m = match p with Found d _ _ | Valid d _ _ _ | Cold d _ _ | Draining d _ _ => d end.

Record inv (s : sys) : Prop := {
  i_tbl : tbl_ok crc32 dest (tb s) (zombies s) (announced s);
  i_pc : forall t p, pcs s !! t = Some p -> pc_ok (entries (tb s)) (announced s) p;
  i_pkts : given s ≡ₚ bag pkts (pcs s) ++ queued (tb s) ++ (sent s).*1 ++ freed s ++ kept s;
  i_given : NoDup (given s);
  i_sent : forall m h, (m, h) ∈ sent s -> (dest m, h) ∈ announced s;
  i_answers : forall d r, (d, r) ∈ answers s -> exists h, r = Some h /\ pieces (announced s) d h
}.

Lemma run_effects_facts out s : let s' := run_effects out s in
  tb s' = tb s /\ pcs s' = pcs s /\ announced s' = announced s /\ given s' = given s /\ sent s' = sent s /\ kept s' = kept s /\ answers s' = answers s /\
  freed s' ≡ₚ frees out ++ freed s /\ zombies s' ≡ₚ retired out ++ zombies s /\ worker s' = if bool_decide (WakeWorker ∈ out) then WStart else worker s.
Proof.
  unfold run_effects. revert s. induction out as [|x out IH]; intros s; [simpl; split_and!; try done|].
  cbn [fold_left]. destruct (IH (apply_effect s x)) as (H1 & H2 & H3 & H4 & H5 & H6 & H7 & H8 & H9 & H10). cbv zeta in *. rewrite H1, H2, H3, H4, H5, H6, H7, H10.
  assert (bool_decide (WakeWorker ∈ x :: out) = bool_decide (x = WakeWorker) || bool_decide (WakeWorker ∈ out)) as ->.
  { destruct (bool_decide (x = WakeWorker)) eqn:E; [apply bool_decide_eq_true in E as ->; apply bool_decide_eq_true, list_elem_of_here|].
    apply bool_decide_eq_false in E. simpl. apply bool_decide_ext. rewrite elem_of_cons. split; [intros [<-|H]; done|by right]. }
  unfold frees, retired in *. destruct x; simpl in *; split_and!; try done; try (by destruct (bool_decide _)).
  - rewrite H8. symmetry. apply Permutation_middle.
  - rewrite H9. symmetry. apply Permutation_middle.
Qed.
Lemma wakes_effects s s' out : wakes s s' out -> frees out = [] /\ retired out = [].
Proof. intros [(-> & _)|(-> & _)]; done. Qed.

Lemma pc_ok_keeps s s' ann ann' p : keeps s s' -> (forall x, x ∈ ann -> x ∈ ann') -> pc_ok (entries s) ann p -> pc_ok (entries s') ann' p.
Proof.
  intros K Hann [H1 H2]. split; [|done]. destruct p as [d m [a|]|d m a got|d m newe|d h q]; try done.
  - destruct H1 as (e & He & <-). destruct (K a e He) as (e' & He' & Hip & _). by exists e'.
  - destruct H1 as [(e & He & <- & Hs) Hg]. destruct (K a e He) as (e' & He' & Hip & Hs'). split.
    + exists e'. split; [done|]. split; [done|]. by apply Hs'.
    + intros i b Hb. by apply (heard_mono ann), Hg.
  - by apply Hann.
Qed.
Definition opt_pkts (p : option pc) : list nat := match p with Some p => pkts p | None => [] end.
Lemma goto_bag (ps : gmap nat pc) t new : opt_pkts (ps !! t) ++ bag pkts (partial_alter (fun _ => new) t ps) ≡ₚ opt_pkts new ++ bag pkts ps.
Proof.
  destruct new as [p|].
  - change (partial_alter (fun _ => Some p) t ps) with (<[t := p]> ps). destruct (ps !! t) as [p'|] eqn:E; simpl; [by apply bag_update|by apply bag_insert].
  - change (partial_alter (fun _ => None) t ps) with (delete t ps). destruct (ps !! t) as [p'|] eqn:E; simpl; [symmetry; by apply bag_delete|]. by rewrite delete_id.
Qed.

(** A thread moves on. *)
Lemma inv_make s s' t new : inv s -> pcs s' = partial_alter (fun _ => new) t (pcs s) ->
  tbl_ok crc32 dest (tb s') (zombies s') (announced s') -> keeps (tb s) (tb s') -> (forall x, x ∈ announced s -> x ∈ announced s') ->
  (forall p, new = Some p -> pc_ok (entries (tb s')) (announced s') p) ->
  given s' ≡ₚ bag pkts (pcs s') ++ queued (tb s') ++ (sent s').*1 ++ freed s' ++ kept s' -> NoDup (given s') ->
  (forall m h, (m, h) ∈ sent s' -> (m, h) ∈ sent s \/ (dest m, h) ∈ announced s') ->
  (forall d r, (d, r) ∈ answers s' -> (d, r) ∈ answers s \/ exists h, r = Some h /\ pieces (announced s') d h) -> inv s'.
Proof.
  intros [I1 I2 I3 I4 I5 I6] Ep T K Hann Hnew Hp Hnd Hs Ha. split; try done.
  - intros u p Hu. rewrite Ep in Hu. destruct (decide (u = t)) as [->|Hne].
    + rewrite lookup_partial_alter_eq in Hu. by apply Hnew.
    + rewrite lookup_partial_alter_ne in Hu by done. apply (pc_ok_keeps (tb s) _ (announced s)); [done|done|]. by apply (I2 u).
  - intros m h Hm. destruct (Hs m h Hm) as [H|H]; [by apply Hann, I5|done].
  - intros d r Hr. destruct (Ha d r Hr) as [H|H]; [|done]. destruct (I6 d r H) as (h & -> & Hh). exists h. split; [done|]. by apply (pieces_mono (announced s)).
Qed.

Lemma arp_init_inv : inv arp_init.
Proof.
  split; try done.
  - split; try done.
    + intros i a. change (a ∈ (∅ : gmap Z (list nat)) !!! i -> a ∉ [] /\ exists e, (∅ : gmap nat arp_entry) !! a = Some e /\ hash_ip crc32 (a_ip e) = i).
      rewrite lookup_total_empty. by intros ?%not_elem_of_nil.
    + intros i. change (NoDup ((∅ : gmap Z (list nat)) !!! i)). rewrite lookup_total_empty. constructor.
    + by intros a ?%not_elem_of_nil.
    + constructor.
  - constructor.
  - by intros m h ?%not_elem_of_nil.
  - by intros d r ?%not_elem_of_nil.
Qed.
(** A thread that only moves on. *)
Lemma inv_goto s t p new : inv s -> pcs s !! t = Some p -> (forall p', new = Some p' -> pc_ok (entries (tb s)) (announced s) p') ->
  opt_pkts new = pkts p -> inv (goto t new s).
Proof.
  intros I Ht Hok Hp. apply (inv_make s _ t new); try done; try apply I; try apply arp_keeps_refl; try by left.
  pose proof (goto_bag (pcs s) t new) as G. rewrite Ht, Hp in G. simpl in G. apply Permutation_app_inv_l in G. simpl. rewrite G. apply I.
Qed.
(** A call leaves its buffer with the caller. *)
Lemma inv_return s t p ans : inv s -> pcs s !! t = Some p -> (forall d r, (d, r) ∈ ans -> exists h, r = Some h /\ pieces (announced s) d h) ->
  inv (goto t None (s <| answers := ans ++ answers s |> <| kept := pkts p ++ kept s |>)).
Proof.
  intros I Ht Hans. apply (inv_make s _ t None); try done; try apply I; try apply arp_keeps_refl; try by left.
  - pose proof (goto_bag (pcs s) t None) as G. rewrite Ht in G. pose proof (i_pkts _ I) as P. simpl in *. perm.
  - intros d r. simpl. rewrite elem_of_app. intros [H|H]; [right; by apply Hans|by left].
Qed.
Lemma step_lookup_locked s t daddr m newe a tb' out r : inv s -> pcs s !! t = Some (Cold daddr m newe) -> entries (tb s) !! a = None ->
  arp_lookup_locked crc32 a newe daddr m (tb s) = Some (tb', out, r) ->
  inv (goto t None (run_effects out (s <| tb := tb' |>
      <| answers := match r with Known eth => (daddr, eth) :: answers s | _ => answers s end |>
      <| kept := match r with Known _ => option_list m ++ kept s | _ => kept s end |>
      <| freed := match r with Unreachable => option_list m ++ freed s | _ => freed s end |>))).
Proof.
  intros I Ht Ha E. destruct (i_pc _ I t _ Ht) as [Hnew Hm].
  destruct (lookup_locked_ok crc32 dest a newe daddr m (tb s) _ _ (i_tbl _ I) Ha Hnew) as (tb2 & out2 & r2 & E2 & T & K & W & R); [intros x ->; apply Hm, list_elem_of_here|].
  rewrite E in E2. injection E2 as <- <- <-. destruct (wakes_effects _ _ _ W) as [F Z].
  set (s1 := s <| tb := tb' |> <| answers := _ |> <| kept := _ |> <| freed := _ |>). destruct (run_effects_facts out s1) as (E1 & E2 & E3 & E4 & E5 & E6 & E7 & E8 & E9 & _).
  rewrite F in E8. rewrite Z in E9. simpl in E8, E9. set (s2 := run_effects out s1) in *. clearbody s2.
  apply (inv_make s _ t None); simpl; rewrite ?E1, ?E2, ?E3, ?E4, ?E5, ?E6, ?E7; try done; try apply I; try by left.
  - apply (tbl_ok_perm _ _ _ (zombies s)); [by rewrite E9|done].
  - pose proof (goto_bag (pcs s) t None) as G. rewrite Ht in G. pose proof (i_pkts _ I) as P. simpl in *. destruct r as [eth| |]; [destruct R as [_ R]| |]; simpl in *; perm.
  - simpl. intros d x Hx. destruct r as [eth| |]; [|by left|by left]. destruct R as [(h & -> & Hl & Hh) _]. apply elem_of_cons in Hx as [[= -> ->]|Hx]; [right|by left]. exists h. split; [done|]. by apply pieces_whole.
Qed.
Lemma step_received s t daddr dhost a mem_ok created now tb' out q : length dhost = 6%nat -> inv s -> pcs s !! t = None -> entries (tb s) !! a = None ->
  arp_update crc32 a mem_ok created now daddr dhost (tb s) = Some (tb', out, q) ->
  inv (goto t (Some (Draining daddr dhost q)) (run_effects out (s <| tb := tb' |> <| announced := (daddr, dhost) :: announced s |>))).
Proof.
  intros Hlen I Ht Ha E. destruct (update_ok crc32 dest a mem_ok created now daddr dhost (tb s) _ _ Hlen (i_tbl _ I) Ha) as (tb2 & out2 & q2 & E2 & T & K & Q & D & W).
  rewrite E in E2. injection E2 as <- <- <-. destruct (wakes_effects _ _ _ W) as [F Z].
  set (s1 := s <| tb := tb' |> <| announced := _ |>). destruct (run_effects_facts out s1) as (E1 & E2 & E3 & E4 & E5 & E6 & E7 & E8 & E9 & _).
  rewrite F in E8. rewrite Z in E9. simpl in E8, E9. set (s2 := run_effects out s1) in *. clearbody s2.
  apply (inv_make s _ t (Some (Draining daddr dhost q))); simpl; rewrite ?E1, ?E2, ?E3, ?E4, ?E5, ?E6, ?E7; try done; try apply I; try by left.
  - apply (tbl_ok_perm _ _ _ (zombies s)); [by rewrite E9|done].
  - intros x Hx. by apply list_elem_of_further.
  - intros p [= <-]. split; [apply list_elem_of_here|done].
  - pose proof (goto_bag (pcs s) t (Some (Draining daddr dhost q))) as G. rewrite Ht in G. pose proof (i_pkts _ I) as P. simpl in *. perm.
Qed.
Lemma inv_worker s s' : inv s -> pcs s' = pcs s -> announced s' = announced s -> given s' = given s -> sent s' = sent s -> kept s' = kept s -> answers s' = answers s ->
  tbl_ok crc32 dest (tb s') (zombies s') (announced s') -> keeps (tb s) (tb s') -> queued (tb s) ++ freed s ≡ₚ queued (tb s') ++ freed s' -> inv s'.
Proof.
  intros [I1 I2 I3 I4 I5 I6] E1 E2 E3 E4 E5 E6 T K Q. split; try done; try (rewrite ?E2, ?E3, ?E4, ?E6; done).
  - intros t p Ht. rewrite E1 in Ht. rewrite E2. apply (pc_ok_keeps (tb s) _ (announced s)); [done|done|]. by apply (I2 t).
  - rewrite E1, E3, E4, E5. perm.
Qed.

Lemma step_lookup_start s t daddr m e : inv s -> pcs s !! t = None -> (forall x, m = Some x -> dest x = daddr /\ x ∉ given s) ->
  lookup_entry (hash_ip crc32 daddr) daddr (tb s) = Some e -> inv (goto t (Some (Found daddr m e)) (s <| given := option_list m ++ given s |>)).
Proof.
  intros I Ht Hm E. destruct (lookup_entry_ok crc32 dest (tb s) _ _ daddr (i_tbl _ I)) as (r & Er & Hr). rewrite E in Er. injection Er as <-.
  apply (inv_make s _ t (Some (Found daddr m e))); try done; try apply I; try apply arp_keeps_refl; try by left.
  - intros p [= <-]. split; [|intros x Hx; destruct m as [y|]; simpl in Hx; [apply list_elem_of_singleton in Hx as ->; by apply Hm|by apply not_elem_of_nil in Hx]].
    destruct e as [a|]; [|done]. destruct Hr as (_ & x & Hx & Hip). by exists x.
  - pose proof (goto_bag (pcs s) t (Some (Found daddr m e))) as G. rewrite Ht in G. pose proof (i_pkts _ I) as P. simpl in *. perm.
  - simpl. destruct m as [x|]; simpl; [|apply I]. constructor; [by apply Hm|apply I].
Qed.
Lemma step_release s a : inv s -> a ∈ zombies s -> (forall t p, pcs s !! t = Some p -> holds p <> Some a) ->
  inv (s <| tb := tb s <| entries := delete a (entries (tb s)) |> |> <| zombies := filter (fun b => b <> a) (zombies s) |>).
Proof.
  intros [I1 I2 I3 I4 I5 I6] Ha Hno. pose proof I1 as [H1 H2 H3 H4 H5 H6 H7 H8]. destruct (H4 a Ha) as (e & He & Hq & Hd).
  assert (forall b x, delete a (entries (tb s)) !! b = Some x -> b <> a /\ entries (tb s) !! b = Some x) as Hdel by (intros b x Hb; by apply lookup_delete_Some in Hb as [Hne Hb]).
  assert (forall b, b <> a -> b ∉ filter (fun b => b <> a) (zombies s) -> b ∉ zombies s) as Hz by (intros b Hb Hnb Hin; apply Hnb, list_elem_of_filter; done).
  split; try done.
  - split; simpl.
    + intros i b Hb. destruct (H1 i b Hb) as (Hnz & x & Hx & Hi). split; [rewrite list_elem_of_filter; tauto|]. exists x. split; [|done]. rewrite lookup_delete_ne; [done|]. by intros <-.
    + done.
    + intros b x Hb Hnz. apply Hdel in Hb as [Hne Hb]. apply H3; [done|by apply Hz].
    + intros b Hb. apply list_elem_of_filter in Hb as [Hne Hb]. destruct (H4 b Hb) as (x & Hx & Hr). exists x. split; [by rewrite lookup_delete_ne|done].
    + by apply NoDup_filter.
    + intros b x Hb. apply Hdel in Hb as [Hne Hb]. by apply (H6 b).
    + rewrite H7. f_equal. unfold dynamics. simpl. rewrite (Permutation_length (bag_delete _ (entries (tb s)) a e He)), length_app, Hd. simpl length.
      destruct (list_elem_of_split _ _ Ha) as (l1 & l2 & El). rewrite El in H5. apply NoDup_app in H5 as (Hn1 & Hn & Hn2). apply NoDup_cons in Hn2 as [Hn2 Hn3].
      assert (filter (fun b => b <> a) (zombies s) = l1 ++ l2) as ->.
      { rewrite El, filter_app, filter_cons_False by (intros H; by apply H). f_equal; apply filter_ne; [intros Hb; by apply (Hn a Hb), list_elem_of_here|done]. }
      rewrite El, !length_app. simpl length. lia.
    + intros b c x y Hb Hc Hnb Hnc. apply Hdel in Hb as [Hne Hb]. apply Hdel in Hc as [Hne' Hc]. apply (H8 b c x y); [done|done|by apply Hz|by apply Hz].
  - intros t p Ht. destruct (I2 t p Ht) as [P1 P2]. pose proof (Hno t p Ht) as Hh. split; [|done]. destruct p as [d m [b|]|d m b got|d m newe|d h q]; try done; simpl in *.
    + destruct P1 as (x & Hx & Hr). exists x. split; [rewrite lookup_delete_ne; [done|congruence]|done].
    + destruct P1 as [(x & Hx & Hr) Hg]. split; [|done]. exists x. split; [rewrite lookup_delete_ne; [done|congruence]|done].
  - simpl. rewrite I3. unfold queued. simpl. by rewrite (bag_delete a_q (entries (tb s)) a e He), Hq.
Qed.
Lemma arp_step_inv s s' : inv s -> step crc32 statics dest s s' -> inv s'.
Proof.
  intros I St. destruct St as [s t daddr m e Ht Hm E|s t daddr m a e Ht He|s t daddr m a got e h i b Ht He Hh Hb Hi|s t daddr m a got Ht Hg|s t daddr m now mem_ok Ht|s t daddr m newe a tb' out r Ht Ha E
    |s t daddr dhost a mem_ok created now tb' out q Ht Hlen Ha E|s t daddr dhost m q Ht|s t daddr dhost Ht|s a Ha Hno|s now_us Hw|s now_us i clock tb' out Hw Hi E|s now_us i Hw Hi|s Hw
    |s a now x tb' Hw Hx Hlen Ha E|s Hw].
  - by apply step_lookup_start.
  - destruct (i_pc _ I t _ Ht) as [(x & Hx & Hip) Hm]. assert (x = e) as -> by congruence. apply (inv_goto s t (Found daddr m (Some a))); [done|done| |by case_bool_decide].
    intros p [= <-]. case_bool_decide as Hs; [by split|]. split; [|done]. split; [by exists e|]. intros i b. by rewrite lookup_empty.
  - destruct (i_pc _ I t _ Ht) as [[(x & Hx & Hip & Hs) Hg] Hm]. assert (x = e) as -> by congruence. apply (inv_goto s t (Valid daddr m a got)); [done|done| |done].
    intros p [= <-]. split; [|done]. split; [by exists e|]. intros j c Hj. apply lookup_insert_Some in Hj as [[<- <-]|[_ Hj]]; [|by apply Hg].
    destruct (t_entry _ _ _ _ _ (i_tbl _ I) a e He) as (_ & Q & _). destruct (Q Hs) as (h' & Eh & Hl & Hin). rewrite Hh in Eh. injection Eh as <-. exists h. by rewrite <- Hip.
  - destruct (i_pc _ I t _ Ht) as [[_ Hgot] Hm]. apply (inv_return s t (Valid daddr m a got) [(daddr, Some (copied got))]); [done|done|].
    intros d r Hr. apply list_elem_of_singleton in Hr as [= -> ->]. eexists. split; [done|]. by apply pieces_copied.
  - destruct (i_pc _ I t _ Ht) as [_ Hm]. destruct mem_ok.
    + apply (inv_goto s t (Found daddr m None)); try done. intros p [= <-]. split; [|done]. intros e [= <-]. by exists now.
    + apply (inv_return s t (Found daddr m None) []); [done|done|]. by intros d r ?%not_elem_of_nil.
  - by apply (step_lookup_locked s t daddr m newe a).
  - by apply (step_received s t daddr dhost a mem_ok created now).
  - destruct (i_pc _ I t _ Ht) as [Hann Hm]. apply (inv_make s _ t (Some (Draining daddr dhost q))); try done; try apply I; try apply arp_keeps_refl; try by left.
    + intros p [= <-]. split; [done|]. intros x Hx. by apply Hm, list_elem_of_further.
    + pose proof (goto_bag (pcs s) t (Some (Draining daddr dhost q))) as G. rewrite Ht in G. pose proof (i_pkts _ I) as P. cbn [opt_pkts pkts] in G.
      change (given s ≡ₚ bag pkts (partial_alter (fun _ => Some (Draining daddr dhost q)) t (pcs s)) ++ queued (tb s) ++ (m :: (sent s).*1) ++ freed s ++ kept s). perm.
    + intros x h. simpl. rewrite elem_of_cons. intros [[= -> ->]|H]; [right|by left]. rewrite (Hm m (list_elem_of_here m q)). done.
  - by apply (inv_goto s t (Draining daddr dhost [])).
  - by apply step_release.
  - apply (inv_worker s); try done; try apply I. apply arp_keeps_refl.
  - destruct (age_entries_ok crc32 dest now_us clock (arp_tbl (tb s) !!! i) (tb s) _ _ (i_tbl _ I)) as (tb2 & out2 & E2 & [A1 A2 A3 A4 A5]).
    { apply (t_nodup _ _ _ _ _ (i_tbl _ I)). }
    { intros a Ha. destruct (t_in _ _ _ _ _ (i_tbl _ I) i a Ha) as (Hz & e & He & _). split; [done|by eexists]. }
    rewrite E in E2. injection E2 as <- <-. set (s1 := s <| tb := tb' |> <| worker := _ |>). destruct (run_effects_facts out s1) as (E1 & E2 & E3 & E4 & E5 & E6 & E7 & E8 & E9 & _).
    apply (inv_worker s); rewrite ?E1, ?E2, ?E3, ?E4, ?E5, ?E6, ?E7; try done.
    + apply (tbl_ok_perm _ _ _ (retired out ++ zombies s)); [by rewrite E9|done].
    + change (tb s1) with tb'. change (freed s1) with (freed s) in E8. perm.
  - destruct (_ =? 0); apply (inv_worker s); try done; try apply I; try apply arp_keeps_refl; [by apply tbl_ok_worker, I|apply keeps_worker].
  - apply (inv_worker s); try done; try apply I. apply arp_keeps_refl.
  - destruct (add_static_ok crc32 dest a now x (tb s) _ _ Hlen (i_tbl _ I) Ha) as (tb2 & E2 & T & K & Q & _). rewrite E in E2. injection E2 as <-.
    destruct I as [I1 I2 I3 I4 I5 I6]. split; try done.
    + intros t p Ht. apply (pc_ok_keeps (tb s) _ (announced s)); [done|intros y Hy; by apply list_elem_of_further|]. by apply (I2 t).
    + simpl. perm.
    + intros m h Hm. apply list_elem_of_further. by apply I5.
    + intros d r Hr. destruct (I6 d r Hr) as (h & -> & Hh). exists h. split; [done|]. apply (pieces_mono (announced s)); [|done]. intros y Hy. by apply list_elem_of_further.
  - apply (inv_worker s); try done; [by apply tbl_ok_worker, I|apply keeps_worker].
Qed.
Lemma arp_reachable_inv s : reachable crc32 statics dest s -> inv s.
Proof. induction 1 as [|s s' _ IH St]; [apply arp_init_inv|by apply (arp_step_inv s)]. Qed.

(** ** The worker *)

(** The thread to wake is noted exactly while the worker is parked. *)
Definition th_ok (s : sys) : Prop := arp_worker_th (tb s) = true <-> worker s = WParked.
(** What a step does to the worker and to the number of dynamic entries. *)
Inductive worker_rel (s s' : sys) : Prop :=
| WRStays : worker s' = worker s ->
    nr_dynamic_entries (tb s') = nr_dynamic_entries (tb s) \/
    (nr_dynamic_entries (tb s') = u64 (nr_dynamic_entries (tb s) + 1) /\ (worker s = WParked -> nr_dynamic_entries (tb s') <> 1)) -> worker_rel s s'
| WRWoken : worker s = WParked -> worker s' = WStart -> nr_dynamic_entries (tb s') = 1 -> u64 (nr_dynamic_entries (tb s) + 1) = 1 -> worker_rel s s'
| WRActs : worker s <> WNone -> worker s <> WParked -> worker s' <> WNone -> (worker s' = WParked -> nr_dynamic_entries (tb s') = 0) -> worker_rel s s'
| WRCreated : worker s = WNone -> worker s' = WParked -> nr_dynamic_entries (tb s') = nr_dynamic_entries (tb s) -> worker_rel s s'.

Lemma wakes_worker s s' out : th_ok s -> wakes (tb s) (tb s') out -> worker s' = (if bool_decide (WakeWorker ∈ out) then WStart else worker s) ->
  th_ok s' /\ worker_rel s s'.
Proof.
  unfold th_ok. intros Hth W Ew. destruct W as [(-> & W1 & W2)|(-> & W1 & W2 & W3 & W4)].
  - rewrite bool_decide_false in Ew by apply not_elem_of_nil. rewrite Ew, W1. split; [done|]. apply WRStays; [done|].
    destruct W2 as [W2|[W2 W2']]; [by left|right]. split; [done|]. intros Hp. by apply W2', Hth.
  - rewrite bool_decide_true in Ew by apply list_elem_of_here. rewrite Ew, W2. split; [done|]. apply WRWoken; [by apply Hth|done|done|congruence].
Qed.
Lemma step_worker s s' : inv s -> th_ok s -> step crc32 statics dest s s' -> th_ok s' /\ worker_rel s s'.
Proof.
  intros I Hth St. assert (forall s2, tb s2 = tb s -> worker s2 = worker s -> th_ok s2 /\ worker_rel s s2) as Hsame.
  { intros s2 E1 E2. unfold th_ok. rewrite E1, E2. split; [done|]. apply WRStays; [done|]. left. by rewrite E1. }
  destruct St as [s t daddr m e Ht Hm E|s t daddr m a e Ht He|s t daddr m a got e h i b Ht He Hh Hb Hi|s t daddr m a got Ht Hg|s t daddr m now mem_ok Ht|s t daddr m newe a tb' out r Ht Ha E
    |s t daddr dhost a mem_ok created now tb' out q Ht Hlen Ha E|s t daddr dhost m q Ht|s t daddr dhost Ht|s a Ha Hno|s now_us Hw|s now_us i clock tb' out Hw Hi E|s now_us i Hw Hi|s Hw
    |s a now x tb' Hw Hx Hlen Ha E|s Hw]; try (by apply Hsame).
  - by destruct mem_ok; apply Hsame.
  - destruct (i_pc _ I t _ Ht) as [Hnew Hm].
    destruct (lookup_locked_ok crc32 dest a newe daddr m (tb s) _ _ (i_tbl _ I) Ha Hnew) as (tb2 & out2 & r2 & E2 & _ & _ & W & _); [intros x ->; apply Hm, list_elem_of_here|].
    rewrite E in E2. injection E2 as <- <- <-. match goal with |- th_ok (goto t None (run_effects out ?x)) /\ _ => destruct (run_effects_facts out x) as (E1 & _ & _ & _ & _ & _ & _ & _ & _ & E10) end.
    apply (wakes_worker s _ out); [done| |exact E10]. change (tb (goto t None ?x)) with (tb x). by rewrite E1.
  - destruct (update_ok crc32 dest a mem_ok created now daddr dhost (tb s) _ _ Hlen (i_tbl _ I) Ha) as (tb2 & out2 & q2 & E2 & _ & _ & _ & _ & W).
    rewrite E in E2. injection E2 as <- <- <-. match goal with |- th_ok (goto t _ (run_effects out ?x)) /\ _ => destruct (run_effects_facts out x) as (E1 & _ & _ & _ & _ & _ & _ & _ & _ & E10) end.
    apply (wakes_worker s _ out); [done| |exact E10]. change (tb (goto t (Some (Draining daddr dhost q)) ?x)) with (tb x). by rewrite E1.
  - split; [exact Hth|]. apply WRStays; [done|by left].
  - unfold th_ok in *. simpl. rewrite Hth, Hw. split; [done|]. apply WRActs; rewrite ?Hw; done.
  - destruct (age_entries_ok crc32 dest now_us clock (arp_tbl (tb s) !!! i) (tb s) _ _ (i_tbl _ I)) as (tb2 & out2 & E2 & [A1 A2 A3 A4 A5]).
    { apply (t_nodup _ _ _ _ _ (i_tbl _ I)). }
    { intros a Ha. destruct (t_in _ _ _ _ _ (i_tbl _ I) i a Ha) as (Hz & e & He & _). split; [done|by eexists]. }
    rewrite E in E2. injection E2 as <- <-. set (s1 := s <| tb := tb' |> <| worker := _ |>). destruct (run_effects_facts out s1) as (E1 & _ & _ & _ & _ & _ & _ & _ & _ & E10).
    rewrite bool_decide_false in E10 by done. change (worker s1) with (WRun now_us (i + 1)) in E10. unfold th_ok in *. rewrite E1, E10. change (tb s1) with tb'. rewrite A4, Hth, Hw.
    split; [done|]. apply WRActs; rewrite ?Hw, ?E10; done.
  - unfold th_ok in *. destruct (_ =? 0) eqn:E0; simpl; [|rewrite Hth, Hw]; (split; [done|]); apply WRActs; rewrite ?Hw; try done. intros _. simpl. lia.
  - unfold th_ok in *. simpl. rewrite Hth, Hw. split; [done|]. apply WRActs; rewrite ?Hw; done.
  - destruct (add_static_ok crc32 dest a now x (tb s) _ _ Hlen (i_tbl _ I) Ha) as (tb2 & E2 & _ & _ & _ & En & Ew). rewrite E in E2. injection E2 as <-.
    unfold th_ok in *. simpl. rewrite Ew. split; [done|]. apply WRStays; [done|by left].
  - unfold th_ok. simpl. split; [done|]. by apply WRCreated.
Qed.
Lemma reachable_th s : reachable crc32 statics dest s -> th_ok s.
Proof. induction 1 as [|s s' Hr IH St]; [done|]. apply (step_worker s); [by apply arp_reachable_inv|done|done]. Qed.
End System.

(** Distinct dynamic entries are counted. *)
Lemma dynamics_length es l : NoDup l -> (forall a, a ∈ l -> exists e, es !! a = Some e /\ dynamic e = true) ->
  (length l <= length (bag (fun e => if dynamic e then [a_ip e] else []) es))%nat.
Proof.
  revert es. induction l as [|a l IH]; intros es Hnd Hl; [simpl; lia|]. apply NoDup_cons in Hnd as [Ha Hnd]. destruct (Hl a (list_elem_of_here a l)) as (e & He & Hd).
  rewrite (Permutation_length (bag_delete _ es a e He)), Hd, length_app. simpl length. apply le_n_S, IH; [done|].
  intros b Hb. destruct (Hl b (list_elem_of_further _ _ _ Hb)) as (x & Hx & Hdx). exists x. split; [|done]. rewrite lookup_delete_ne; [done|congruence].
Qed.
(** With fewer than [2^64] entries in memory, the count is exact. *)
Lemma count_exact crc32 dest s zs ann : tbl_ok crc32 dest s zs ann -> Z.of_nat (length (dynamics s)) < 2 ^ 64 ->
  nr_dynamic_entries s = Z.of_nat (length (dynamics s)) - Z.of_nat (length zs) /\
  (forall a e, entries s !! a = Some e -> a ∉ zs -> dynamic e = true -> 0 < nr_dynamic_entries s).
Proof.
  intros T Hlt. assert (length zs <= length (dynamics s))%nat as Hz.
  { apply dynamics_length; [apply T|]. intros a Ha. destruct (t_zombie _ _ _ _ _ T a Ha) as (e & He & _ & Hd). by exists e. }
  assert (nr_dynamic_entries s = Z.of_nat (length (dynamics s)) - Z.of_nat (length zs)) as E by (rewrite (t_count _ _ _ _ _ T); apply u64_small; unfold is_u64; lia).
  split; [done|]. intros a e Ha Hna Hd. assert (length (a :: zs) <= length (dynamics s))%nat as Hlen; [|simpl in Hlen; lia].
  apply dynamics_length; [constructor; [done|apply T]|]. intros b. rewrite elem_of_cons. intros [->|Hb]; [by exists e|].
  destruct (t_zombie _ _ _ _ _ T b Hb) as (x & Hx & _ & Hdx). by exists x.
Qed.

(** ** Main results *)

(** Executions in which no dynamic entry exists when the worker is created. *)
Inductive clean (crc32 : Z -> Z -> Z) (statics : list (Z * mac)) (dest : nat -> Z) : sys -> Prop :=
| CleanInit : clean crc32 statics dest arp_init
| CleanStep s s' : clean crc32 statics dest s -> step crc32 statics dest s s' ->
    (worker s = WNone -> worker s' = WParked -> nr_dynamic_entries (tb s) = 0) -> clean crc32 statics dest s'.
(** The worker is created, and was not woken although there are entries to look after. *)
Definition stranded (s : sys) : Prop := worker s = WParked /\ nr_dynamic_entries (tb s) <> 0.
(** Steps within the memory of a machine. *)
Definition small_step (crc32 : Z -> Z -> Z) (statics : list (Z * mac)) (dest : nat -> Z) (s s' : sys) : Prop :=
  step crc32 statics dest s s' /\ Z.of_nat (length (dynamics (tb s'))) < 2 ^ 63.

(** C14: whatever the interleaving of callers, received packets and the worker, a buffer
    that was handed to [arp_lookup] is at any time in exactly one place: with a caller,
    in the queue of an entry that is being probed for its next hop, on its way out,
    sent, or freed; if ARP sends it, it goes to a MAC address that was announced or
    configured for its next hop; and no thread looks at an entry that is gone.  An answer
    to a caller has six bytes, each of which is that byte of an address announced or
    configured for the next hop: it is that address when only one was announced, but a
    caller that copies without the lock can mix an address with one that replaces it. *)
Theorem arp_packets crc32 statics dest s : reachable crc32 statics dest s ->
  given s ≡ₚ bag pkts (pcs s) ++ queued (tb s) ++ (sent s).*1 ++ freed s ++ kept s /\ NoDup (given s) /\
  (forall m h, (m, h) ∈ sent s -> (dest m, h) ∈ announced s) /\
  (forall d r, (d, r) ∈ answers s -> exists h, r = Some h /\ pieces (announced s) d h /\
    forall h0, (forall h', (d, h') ∈ announced s -> h' = h0) -> h = h0) /\
  (forall m, m ∈ queued (tb s) -> exists a e, a ∈ arp_tbl (tb s) !!! hash_ip crc32 (dest m) /\ entries (tb s) !! a = Some e /\ a_ip e = dest m /\ a_state e = ARP_STATE_PROBING) /\
  ready crc32 s.
Proof.
  intros Hr. pose proof (arp_reachable_inv _ _ _ _ Hr) as I. split; [apply I|]. split; [apply I|]. split; [apply I|]. split; [|split].
  - intros d r Hr'. destruct (i_answers _ _ _ I d r Hr') as (h & -> & Hp). exists h. split; [done|]. split; [done|]. intros h0. by apply pieces_single.
  - intros m Hm. apply bag_elem in Hm as (a & e & Ha & Hm). destruct (t_entry _ _ _ _ _ (i_tbl _ _ _ I) a e Ha) as (Q1 & _ & Q3). exists a, e. rewrite (Q3 m Hm).
    assert (a ∉ zombies s) as Hz.
    { intros Hz. destruct (t_zombie _ _ _ _ _ (i_tbl _ _ _ I) a Hz) as (x & Hx & Hq & _). assert (x = e) as -> by congruence. rewrite Hq in Hm. by apply not_elem_of_nil in Hm. }
    split; [by apply (t_all _ _ _ _ _ (i_tbl _ _ _ I))|]. split; [done|]. split; [done|]. apply Q1. intros E. rewrite E in Hm. by apply not_elem_of_nil in Hm.
  - split; [|split].
    + intros d. destruct (lookup_entry_ok crc32 dest (tb s) _ _ d (i_tbl _ _ _ I)) as (r & -> & _). by eexists.
    + intros t p a Ht Ha. destruct (i_pc _ _ _ I t p Ht) as [H _]. destruct p as [d m [b|]|d m b got|d m newe|d h q]; simpl in *; try done; injection Ha as ->;
        [destruct H as (e & He & _)|destruct H as [(e & He & _) _]]; by exists e.
    + intros t d m a got i Ht Hi. destruct (i_pc _ _ _ I t _ Ht) as [[(e & He & Hip & Hs) _] _]. destruct (t_entry _ _ _ _ _ (i_tbl _ _ _ I) a e He) as (_ & Q & _).
      destruct (Q Hs) as (h & Eh & Hl & _). exists e, h. split; [done|]. split; [done|]. apply lookup_lt_is_Some. lia.
Qed.

(** If no entry precedes the worker, the worker rests only while no dynamic entry is
    in the table: every entry is looked after. *)
Theorem arp_worker_attends crc32 statics dest s a e : clean crc32 statics dest s -> Z.of_nat (length (dynamics (tb s))) < 2 ^ 64 ->
  entries (tb s) !! a = Some e -> a ∉ zombies s -> dynamic e = true -> worker s <> WParked.
Proof.
  intros Hc Hlt Ha Hz Hd Hp. assert (reachable crc32 statics dest s /\ (worker s = WParked -> nr_dynamic_entries (tb s) = 0)) as [Hr H0].
  { clear -Hc. induction Hc as [|s s' _ [Hr IH] St Hcl]; [by split; [constructor|]|]. split; [by apply (RStep _ _ _ s)|]. intros Hp.
    destruct (step_worker crc32 statics dest s s' (arp_reachable_inv _ _ _ _ Hr) (reachable_th _ _ _ _ Hr) St) as [_ [E [En|[En Hne]]|_ E|_ _ _ H|E1 _ En]].
    - rewrite En. apply IH. congruence.
    - rewrite E in Hp. rewrite (IH Hp) in En. by destruct (Hne Hp).
    - congruence.
    - by apply H.
    - rewrite En. by apply Hcl. }
  destruct (count_exact crc32 dest _ _ _ (i_tbl _ _ _ (arp_reachable_inv _ _ _ _ Hr)) Hlt) as [_ Hpos]. specialize (Hpos a e Ha Hz Hd). rewrite (H0 Hp) in Hpos. lia.
Qed.

(** What can happen to an entry that the worker does not look after: buffers may join its
    queue, and its host may announce itself. *)
Definition waits_on (e e' : arp_entry) : Prop :=
  a_ip e' = a_ip e /\ tries_left e' = tries_left e /\
  (a_state e' = ARP_STATE_VALID \/ (a_state e' = a_state e /\ a_ts e' = a_ts e /\ a_q e `prefix_of` a_q e')).
Definition untended (es es' : gmap nat arp_entry) : Prop := forall a e, es !! a = Some e -> exists e', es' !! a = Some e' /\ waits_on e e'.
Lemma untended_refl es : untended es es.
Proof. intros a e H. exists e. split; [done|]. split; [done|]. split; [done|]. right. by split_and!. Qed.
Lemma untended_trans es1 es2 es3 : untended es1 es2 -> untended es2 es3 -> untended es1 es3.
Proof.
  intros H1 H2 a e He. destruct (H1 a e He) as (e2 & E2 & I2 & T2 & S2). destruct (H2 a e2 E2) as (e3 & E3 & I3 & T3 & S3).
  exists e3. split; [done|]. split; [congruence|]. split; [congruence|]. destruct S3 as [S3|(S3 & C3 & Q3)]; [by left|].
  destruct S2 as [S2|(S2 & C2 & Q2)]; [left; congruence|right]. split; [congruence|]. split; [congruence|]. by transitivity (a_q e2).
Qed.
Lemma untended_new es a e : es !! a = None -> untended es (<[a := e]> es).
Proof. intros Ha b x Hb. destruct (untended_refl es b x Hb) as (y & Hy & W). exists y. rewrite lookup_insert_ne by congruence. done. Qed.
Lemma untended_update es a e e' : es !! a = Some e -> waits_on e e' -> untended es (<[a := e']> es).
Proof.
  intros Ha W b x Hb. destruct (decide (a = b)) as [<-|Hne]; [exists e'; rewrite lookup_insert_eq; split; [done|congruence]|].
  rewrite lookup_insert_ne by done. by apply untended_refl.
Qed.
Lemma insert_entry_entries a idx s s' out : insert_entry a idx s = Some (s', out) -> entries s' = entries s.
Proof.
  unfold insert_entry. destruct (entries s !! a) as [e|]; cbn [mbind option_bind]; [|done]. cbv zeta.
  destruct (bool_decide _); [by intros [= <- <-]|]. destruct (_ && _); by intros [= <- <-].
Qed.
Lemma update_untended crc32 a mem_ok created now daddr dhost s s' out q : entries s !! a = None ->
  arp_update crc32 a mem_ok created now daddr dhost s = Some (s', out, q) -> untended (entries s) (entries s').
Proof.
  intros Ha. unfold arp_update. cbv zeta. destruct (lookup_entry _ _ _) as [[b|]|]; cbn [mbind option_bind]; [| |done].
  - destruct (entries s !! b) as [e|] eqn:He; cbn [mbind option_bind]; [|done]. destruct (bool_decide _); intros [= <- <- <-]; [apply untended_refl|].
    apply (untended_update _ b e); [done|]. split; [done|]. split; [done|]. by left.
  - destruct mem_ok; [|intros [= <- <- <-]; apply untended_refl]. destruct (insert_entry _ _ _) as [[s1 o]|] eqn:E; cbn [mbind option_bind]; [|done].
    apply insert_entry_entries in E. rewrite E. cbn [entries]. change (entries (s <| entries := ?x |>)) with x. rewrite lookup_insert_eq. cbn [mbind option_bind].
    intros [= <- _ _]. rewrite insert_insert_eq. by apply untended_new.
Qed.
Lemma lookup_untended crc32 a newe daddr m s s' out r : entries s !! a = None ->
  arp_lookup_locked crc32 a newe daddr m s = Some (s', out, r) -> untended (entries s) (entries s').
Proof.
  intros Ha. unfold arp_lookup_locked. cbv zeta. destruct (lookup_entry _ _ _) as [[b|]|]; cbn [mbind option_bind]; [| |done].
  - destruct (entries s !! b) as [e|] eqn:He; cbn [mbind option_bind]; [|done]. destruct (bool_decide _); intros [= <- <- <-]; [apply untended_refl|].
    apply (untended_update _ b e); [done|]. split; [done|]. split; [done|]. right. split; [done|]. split; [done|]. by apply prefix_app_r.
  - destruct newe as [e|]; [|intros [= <- <- <-]; apply untended_refl]. destruct (insert_entry _ _ _) as [[s1 o]|] eqn:E; cbn [mbind option_bind]; [|done].
    apply insert_entry_entries in E. rewrite E. change (entries (s <| entries := ?x |>)) with x. rewrite lookup_insert_eq. cbn [mbind option_bind].
    intros [= <- _ _]. rewrite insert_insert_eq. by apply untended_new.
Qed.

(** As long as the worker has not run, nothing was given up, and a caller that saw an
    entry will find it again. *)
Record unswept (s : sys) : Prop := {
  un_zombies : zombies s = []; un_freed : freed s = [];
  un_cold : forall t d m, pcs s !! t = Some (Cold d m None) -> exists a e, entries (tb s) !! a = Some e /\ a_ip e = d }.
Lemma unswept_goto s s' t new : unswept s -> zombies s' = [] -> freed s' = [] -> pcs s' = partial_alter (fun _ => new) t (pcs s) ->
  untended (entries (tb s)) (entries (tb s')) -> (forall d m, new = Some (Cold d m None) -> exists a e, entries (tb s') !! a = Some e /\ a_ip e = d) -> unswept s'.
Proof.
  intros [U1 U2 U3] E1 E2 E3 K Hnew. split; [done|done|]. intros u d m Hu. rewrite E3 in Hu. destruct (decide (u = t)) as [->|Hne].
  - rewrite lookup_partial_alter_eq in Hu. by apply (Hnew d m).
  - rewrite lookup_partial_alter_ne in Hu by done. destruct (U3 u d m Hu) as (a & e & He & <-). destruct (K a e He) as (e' & He' & Hip & _). by exists a, e'.
Qed.
Lemma unswept_locked crc32 dest s t daddr m newe a tb' out r : inv crc32 dest s -> unswept s -> pcs s !! t = Some (Cold daddr m newe) ->
  arp_lookup_locked crc32 a newe daddr m (tb s) = Some (tb', out, r) -> r <> Unreachable.
Proof.
  intros I U Ht E ->. unfold arp_lookup_locked in E. cbv zeta in E. destruct (lookup_entry_ok crc32 dest (tb s) _ _ daddr (i_tbl _ _ _ I)) as (f & Ef & Hf).
  rewrite Ef in E. destruct f as [b|]; cbn [mbind option_bind] in E.
  - destruct (entries (tb s) !! b) as [e|]; cbn [mbind option_bind] in E; [|done]. by destruct (bool_decide _).
  - destruct newe as [e|]; [destruct (insert_entry _ _ _) as [[s1 o]|]; cbn [mbind option_bind] in E; [|done]; by destruct (entries s1 !! a)|].
    destruct (un_cold s U t daddr m Ht) as (b & e & He & Hip). apply (Hf b e He); [|done]. rewrite (un_zombies s U). apply not_elem_of_nil.
Qed.
(** A section under the lock that frees nothing. *)
Lemma wakes_quiet tb0 tb1 out s : wakes tb0 tb1 out -> zombies s = [] -> freed s = [] ->
  let s' := run_effects out s in zombies s' = [] /\ freed s' = [] /\ pcs s' = pcs s /\ tb s' = tb s.
Proof.
  intros W H1 H2. destruct (wakes_effects _ _ _ W) as [F Z]. destruct (run_effects_facts out s) as (E1 & E2 & _ & _ & _ & _ & _ & E8 & E9 & _).
  rewrite F, H2 in E8. rewrite Z, H1 in E9. split_and!; [by apply Permutation_nil_r|by apply Permutation_nil_r|done|done].
Qed.
Lemma step_unswept crc32 statics dest s s' : inv crc32 dest s -> unswept s -> worker s = WNone \/ worker s = WParked -> step crc32 statics dest s s' ->
  unswept s' /\ untended (entries (tb s)) (entries (tb s')).
Proof.
  intros I U Hwk St. pose proof U as [U1 U2 U3].
  assert (forall s2, zombies s2 = [] -> freed s2 = [] -> pcs s2 = pcs s -> untended (entries (tb s)) (entries (tb s2)) -> unswept s2 /\ untended (entries (tb s)) (entries (tb s2))) as Hrest.
  { intros s2 E1 E2 E3 K. split; [|done]. split; [done..|]. intros t d m Ht. rewrite E3 in Ht. destruct (U3 t d m Ht) as (a & e & He & <-).
    destruct (K a e He) as (e' & He' & Hip & _). by exists a, e'. }
  assert (forall t new s2, zombies s2 = [] -> freed s2 = [] -> pcs s2 = partial_alter (fun _ => new) t (pcs s) -> untended (entries (tb s)) (entries (tb s2)) ->
    (forall d m, new = Some (Cold d m None) -> exists a e, entries (tb s2) !! a = Some e /\ a_ip e = d) -> unswept s2 /\ untended (entries (tb s)) (entries (tb s2))) as Hgo.
  { intros t new s2 E1 E2 E3 K Hn. split; [|done]. by apply (unswept_goto s s2 t new). }
  assert (untended (entries (tb s)) (entries (tb s))) as R by apply untended_refl.
  destruct St as [s t daddr m e Ht Hm E|s t daddr m a e Ht He|s t daddr m a got e h i b Ht He Hh Hb Hi|s t daddr m a got Ht Hg|s t daddr m now mem_ok Ht|s t daddr m newe a tb' out r Ht Ha E
    |s t daddr dhost a mem_ok created now tb' out q Ht Hlen Ha E|s t daddr dhost m q Ht|s t daddr dhost Ht|s a Ha Hno|s now_us Hw|s now_us i clock tb' out Hw Hi E|s now_us i Hw Hi|s Hw
    |s a now x tb' Hw Hx Hlen Ha E|s Hw]; try (destruct Hwk; congruence); try (by eapply Hgo); try (by apply Hrest).
  - destruct (i_pc _ _ _ I t _ Ht) as [(x & Hx & Hip) _]. eapply Hgo; try done. intros d m' Hd. exists a, x. split; [done|]. case_bool_decide; congruence.
  - destruct mem_ok; by eapply Hgo.
  - pose proof (unswept_locked crc32 dest s t daddr m newe a tb' out r I U Ht E) as Hr. pose proof (i_pc _ _ _ I t _ Ht) as [Hnew Hm].
    destruct (lookup_locked_ok crc32 dest a newe daddr m (tb s) _ _ (i_tbl _ _ _ I) Ha Hnew) as (tb2 & out2 & r2 & E2 & _ & _ & W & _); [intros x ->; apply Hm, list_elem_of_here|].
    rewrite E in E2. injection E2 as <- <- <-. match goal with |- unswept (goto t None (run_effects out ?x)) /\ _ => set (s1 := x) end.
    destruct (wakes_quiet _ _ _ s1 W) as (E1 & E2 & E3 & E4); [done|by destruct r|].
    apply (Hgo t None); try done; [simpl; by rewrite E3|]. simpl. rewrite E4. by apply (lookup_untended crc32 a newe daddr m _ _ out r).
  - destruct (update_ok crc32 dest a mem_ok created now daddr dhost (tb s) _ _ Hlen (i_tbl _ _ _ I) Ha) as (tb2 & out2 & q2 & E2 & _ & _ & _ & _ & W).
    rewrite E in E2. injection E2 as <- <- <-. match goal with |- unswept (goto t _ (run_effects out ?x)) /\ _ => set (s1 := x) end.
    destruct (wakes_quiet _ _ _ s1 W) as (E1 & E2 & E3 & E4); [done|done|].
    apply (Hgo t (Some (Draining daddr dhost q))); try done; [simpl; by rewrite E3|]. simpl. rewrite E4. by apply (update_untended crc32 a mem_ok created now daddr dhost _ _ out q).
  - rewrite U1 in Ha. by apply not_elem_of_nil in Ha.
  - apply Hrest; try done. cbn [tb entries]. unfold add_static in E. destruct (insert_entry _ _ _) as [[s1 o]|] eqn:Ei; simpl in E; [|done]. injection E as <-.
    apply insert_entry_entries in Ei. change (untended (entries (tb s)) (entries s1)). rewrite Ei. by apply untended_new.
Qed.
Lemma unswept_before crc32 statics dest s : reachable crc32 statics dest s -> worker s = WNone -> unswept s.
Proof.
  induction 1 as [|s s' Hr IH St]; intros Hw; [by split|]. pose proof (arp_reachable_inv _ _ _ _ Hr) as I.
  assert (worker s = WNone) as Hw0.
  { destruct (step_worker crc32 statics dest s s' I (reachable_th _ _ _ _ Hr) St) as [_ [E _|_ E|_ _ H _|E _ _]]; [congruence|congruence|done|done]. }
  by apply (step_unswept crc32 statics dest s); [|apply IH|left|].
Qed.
(** A stranded worker stays where it is. *)
Lemma step_stranded crc32 statics dest s s' : reachable crc32 statics dest s -> stranded s -> Z.of_nat (length (dynamics (tb s))) < 2 ^ 63 ->
  small_step crc32 statics dest s s' -> stranded s'.
Proof.
  intros Hr Hs Hlt [St Hlt1]. pose proof (arp_reachable_inv _ _ _ _ Hr) as I. destruct Hs as [Hp Hn]. destruct (count_exact crc32 dest _ _ _ (i_tbl _ _ _ I) ltac:(lia)) as [E _].
  assert (0 <= nr_dynamic_entries (tb s)) as Hb by (rewrite (t_count _ _ _ _ _ (i_tbl _ _ _ I)); apply u64_range).
  assert (u64 (nr_dynamic_entries (tb s) + 1) = nr_dynamic_entries (tb s) + 1) as Eu by (apply u64_small; unfold is_u64; lia).
  destruct (step_worker crc32 statics dest s s' I (reachable_th _ _ _ _ Hr) St) as [_ [Ew En|_ _ _ Ew|_ Hnp _ _|Hnone _ _]]; [|lia|done|congruence].
  split; [congruence|]. destruct En as [En|[En _]]; lia.
Qed.
Lemma stranded_run crc32 statics dest s s' : rtc (small_step crc32 statics dest) s s' -> reachable crc32 statics dest s -> stranded s -> unswept s ->
  Z.of_nat (length (dynamics (tb s))) < 2 ^ 63 -> stranded s' /\ unswept s' /\ untended (entries (tb s)) (entries (tb s')).
Proof.
  induction 1 as [s|s s1 s2 St _ IH]; intros Hr Hs U Hlt; [split; [done|]; split; [done|apply untended_refl]|]. pose proof (step_stranded _ _ _ s s1 Hr Hs Hlt St) as Hs1.
  destruct St as [St Hlt1]. destruct (step_unswept crc32 statics dest s s1) as [U1 K1]; [by apply (arp_reachable_inv _ statics)|done|right; apply Hs|done|].
  destruct IH as (H1 & H2 & H3); [by apply (RStep _ _ _ s)|done|done|done|]. split; [done|]. split; [done|]. by apply (untended_trans _ (entries (tb s1))).
Qed.

Lemma small_reachable crc32 statics dest s s' : rtc (small_step crc32 statics dest) s s' -> reachable crc32 statics dest s -> reachable crc32 statics dest s'.
Proof. induction 1 as [|x y z [Hxy _] _ IH]; [done|]. intros R. apply IH. by apply (RStep _ _ _ x). Qed.

(** C37: if a mapping was received, or a lookup made, before [arp_init_late] creates the
    worker, so that there is a dynamic entry by then, the worker is never woken, whatever
    happens afterwards (with fewer than [2^63] entries in memory).  No entry is then ever
    taken out of the table and no buffer freed; an entry that is being probed keeps its
    time stamp, its number of tries and all of its waiting buffers, unless its host
    announces itself. *)
Theorem arp_worker_stranded crc32 statics dest s s' : reachable crc32 statics dest s -> worker s = WNone -> nr_dynamic_entries (tb s) <> 0 ->
  Z.of_nat (length (dynamics (tb s))) < 2 ^ 63 -> rtc (small_step crc32 statics dest) (create_worker s) s' ->
  worker s' = WParked /\ zombies s' = [] /\ freed s' = [] /\
  forall a e, entries (tb s) !! a = Some e -> exists e', entries (tb s') !! a = Some e' /\ a ∈ arp_tbl (tb s') !!! hash_ip crc32 (a_ip e) /\ waits_on e e'.
Proof.
  intros Hr Hw Hn Hlt Hs. assert (step crc32 statics dest s (create_worker s)) as St by by apply WorkerCreated.
  destruct (step_unswept crc32 statics dest s _ (arp_reachable_inv _ _ _ _ Hr) (unswept_before _ _ _ s Hr Hw) (or_introl Hw) St) as [U K].
  destruct (stranded_run _ _ _ _ _ Hs) as ([H1 H2] & [U1 U2 U3] & K'); [by apply (RStep _ _ _ s)|by split|done|done|]. split_and!; try done.
  intros a e He. destruct (K' a e He) as (e' & He' & W). exists e'. split; [done|]. split; [|done]. pose proof W as [<- _].
  assert (reachable crc32 statics dest s') as Hr' by (apply (small_reachable _ _ _ _ _ Hs); by apply (RStep _ _ _ s)).
  apply (t_all _ _ _ _ _ (i_tbl _ _ _ (arp_reachable_inv _ _ _ _ Hr')) a e' He'). rewrite U1. apply not_elem_of_nil.
Qed.

(** Rounds of the worker over one entry, with the times they see. *)
Fixpoint age_rounds (l : list (Z * Z)) (a : nat) (s : arp) : option (arp * list effect) :=
  match l with
  | [] => Some (s, [])
  | (now_us, now) :: l => '(s, o1) ← arp_age_entry now_us now a s; '(s, o2) ← age_rounds l a s; Some (s, o1 ++ o2)
  end.
Lemma age_probe now_us now a s e : entries s !! a = Some e -> a_state e = ARP_STATE_PROBING -> tries_left e <> 0 -> ARP_RETRY_TIME <= u64 (now_us - a_ts e) ->
  arp_age_entry now_us now a s = Some (s <| entries := <[a := e <| tries_left := tries_left e - 1 |> <| a_ts := now |>]> (entries s) |>,
    [ArpSend ARP_OP_REQUEST eth_addr_broadcast (a_ip e)]).
Proof.
  intros He Hs Ht Hdue. unfold arp_age_entry. rewrite He. cbn [mbind option_bind]. rewrite Hs, bool_decide_false by done. replace (_ <? _) with false by lia.
  by replace (tries_left e =? 0) with false by lia.
Qed.

(** An address that nobody answers for is asked for three times more, a second apart or
    longer, and then given up: its buffers are reported as unreachable and freed, and the
    entry is gone. *)
Theorem arp_gives_up a s e t1 c1 t2 c2 t3 c3 t4 c4 : entries s !! a = Some e -> a_state e = ARP_STATE_PROBING -> tries_left e = ARP_RETRIES ->
  ARP_RETRY_TIME <= u64 (t1 - a_ts e) -> ARP_RETRY_TIME <= u64 (t2 - c1) -> ARP_RETRY_TIME <= u64 (t3 - c2) -> ARP_RETRY_TIME <= u64 (t4 - c3) ->
  exists s', age_rounds [(t1, c1); (t2, c2); (t3, c3); (t4, c4)] a s =
    Some (s', replicate 3 (ArpSend ARP_OP_REQUEST eth_addr_broadcast (a_ip e)) ++ concat ((fun m => [NetError m; FreeMbuf m]) <$> a_q e) ++ [RcuFree a]) /\
  forall i, a ∉ arp_tbl s' !!! i.
Proof.
  intros He Hs Ht D1 D2 D3 D4. cbn [age_rounds]. rewrite (age_probe t1 c1 a s e He Hs) by (done || rewrite Ht; done). cbn [mbind option_bind].
  set (e1 := e <| tries_left := _ |> <| a_ts := c1 |>). set (s1 := s <| entries := _ |>). assert (entries s1 !! a = Some e1) as H1 by apply lookup_insert_eq.
  assert (tries_left e1 = 2 /\ a_ts e1 = c1 /\ a_state e1 = ARP_STATE_PROBING /\ a_ip e1 = a_ip e /\ a_q e1 = a_q e) as (T1 & C1 & S1 & I1 & Q1) by (simpl; rewrite Ht; done).
  clearbody e1 s1. rewrite (age_probe t2 c2 a s1 e1 H1 S1) by (rewrite ?T1, ?C1; done). cbn [mbind option_bind].
  set (e2 := e1 <| tries_left := _ |> <| a_ts := c2 |>). set (s2 := s1 <| entries := _ |>). assert (entries s2 !! a = Some e2) as H2 by apply lookup_insert_eq.
  assert (tries_left e2 = 1 /\ a_ts e2 = c2 /\ a_state e2 = ARP_STATE_PROBING /\ a_ip e2 = a_ip e /\ a_q e2 = a_q e) as (T2 & C2 & S2 & I2 & Q2) by (simpl; rewrite T1; done).
  clearbody e2 s2. rewrite (age_probe t3 c3 a s2 e2 H2 S2) by (rewrite ?T2, ?C2; done). cbn [mbind option_bind].
  set (e3 := e2 <| tries_left := _ |> <| a_ts := c3 |>). set (s3 := s2 <| entries := _ |>). assert (entries s3 !! a = Some e3) as H3 by apply lookup_insert_eq.
  assert (tries_left e3 = 0 /\ a_ts e3 = c3 /\ a_state e3 = ARP_STATE_PROBING /\ a_q e3 = a_q e) as (T3 & C3 & S3 & Q3) by (simpl; rewrite T2; done).
  clearbody e3 s3. unfold arp_age_entry. rewrite H3. cbn [mbind option_bind]. rewrite S3, T3, C3, bool_decide_false by done. replace (_ <? _) with false by lia.
  unfold delete_entry. rewrite H3. cbn [mbind option_bind]. cbv zeta. rewrite S3, bool_decide_false by done. change (0 =? 0) with true. cbn [mbind option_bind].
  rewrite I1, I2, Q3. eexists. split; [rewrite app_nil_r; done|]. intros i. simpl.
  change (a ∉ (filter (fun b => b <> a) <$> arp_tbl s3) !!! i). rewrite bucket_filter, list_elem_of_filter. tauto.
Qed.

(** ** Messages *)

Lemma be16_bytes x : 0 <= x < 2 ^ 16 -> be (bytes_be16 x) = x.
Proof.
  intros Hx. unfold be, bytes_be16. cbn [fold_left]. rewrite Z.shiftr_div_pow2 by lia. change (2 ^ 8) with 256.
  rewrite (Z.mod_small (x / 256)) by (split; [apply Z.div_pos; lia|apply Z.div_lt_upper_bound; lia]). pose proof (Z.div_mod x 256). lia.
Qed.
Lemma be_app l k : be (l ++ k) = be l * 256 ^ Z.of_nat (length k) + be k.
Proof.
  unfold be. rewrite fold_left_app. generalize (fold_left (fun x b => 256 * x + b) l 0). induction k as [|b k IH] using rev_ind; intros z; [simpl; lia|].
  rewrite !fold_left_app, IH, length_app. cbn [fold_left length]. rewrite Nat2Z.inj_add, Z.pow_add_r by lia. change (256 ^ Z.of_nat 1) with 256. lia.
Qed.
Lemma be32_bytes x : 0 <= x < 2 ^ 32 -> be (bytes_be32 x) = x.
Proof.
  intros Hx. unfold bytes_be32. rewrite be_app, !be16_bytes.
  - change (256 ^ Z.of_nat (length (bytes_be16 (u16 x)))) with (2 ^ 16). rewrite Z.shiftr_div_pow2 by lia. unfold u16. pose proof (Z.div_mod x (2 ^ 16)). lia.
  - apply Z.mod_pos_bound. lia.
  - rewrite Z.shiftr_div_pow2 by lia. split; [apply Z.div_pos; lia|apply Z.div_lt_upper_bound; lia].
Qed.

(** A host understands what [arp_send] of another one sends: it records the sender's
    addresses, and answers a request for its own address, and only that, to the sender. *)
Theorem arp_message_roundtrip sender_mac addr op dhost daddr me : length sender_mac = 6%nat -> length dhost = 6%nat -> eth_addr_is_multicast sender_mac = false ->
  0 <= addr < 2 ^ 32 -> 0 <= daddr < 2 ^ 32 -> 0 <= op < 2 ^ 16 ->
  net_rx_arp me (arp_packet sender_mac addr op dhost daddr) =
    Some ((addr, sender_mac), if (me =? daddr) && (op =? ARP_OP_REQUEST) then Some (sender_mac, addr) else None).
Proof.
  intros Hs Hd Hm Ha Hda Hop. assert (length (bytes_be32 addr) = 4%nat /\ length (bytes_be32 daddr) = 4%nat /\ length (bytes_be16 op) = 2%nat) as (L1 & L2 & L3) by done.
  pose proof (be32_bytes addr Ha) as B1. pose proof (be32_bytes daddr Hda) as B2. pose proof (be16_bytes op Hop) as B3. unfold arp_packet.
  set (x := bytes_be32 addr) in *. set (y := bytes_be32 daddr) in *. set (z := bytes_be16 op) in *. clearbody x y z.
  unfold net_rx_arp. rewrite !length_app, Hs, Hd, L1, L2, L3. change (_ <? 28)%nat with false at 1.
  set (m := _ ++ _). assert (field 6 2 m = z /\ field 8 6 m = sender_mac /\ field 14 4 m = x /\ field 24 4 m = y /\ field 0 6 m = [0; 1; 8; 0; 6; 4]) as (F1 & F2 & F3 & F4 & F5).
  { destruct z as [|z0 [|z1 [|]]]; try done. destruct sender_mac as [|m0 [|m1 [|m2 [|m3 [|m4 [|m5 [|]]]]]]]; try done.
    destruct x as [|x0 [|x1 [|x2 [|x3 [|]]]]]; try done. destruct y as [|y0 [|y1 [|y2 [|y3 [|]]]]]; try done.
    destruct dhost as [|d0 [|d1 [|d2 [|d3 [|d4 [|d5 [|]]]]]]]; done. }
  assert (forall o n, (o + n <= 6)%nat -> field o n m = field o n [0; 1; 8; 0; 6; 4]) as F6.
  { intros o n Hon. rewrite <- F5. unfold field. rewrite drop_0, skipn_firstn_comm, take_take, Nat.min_l by lia. done. }
  rewrite F1, F2, F3, F4, Hm, B1, B2, B3, !F6 by lia. reflexivity.
Qed.

(** ** Witnesses *)

Definition sample_crc (seed x : Z) : Z := x.
Definition sample_mac : mac := [0x02; 0; 0; 0; 0; 0x09].
(** A buffer for host 9 waits for its address, and is sent when host 9 announces it. *)
Abbreviation sample_reachable := (reachable sample_crc [] (fun _ => 9)).
Lemma sample_resolves : exists s, sample_reachable s /\ sent s = [(5%nat, sample_mac)] /\ given s = [5%nat].
Proof.
  eassert (sample_reachable _) as R1 by (eapply RStep; [apply RInit|]; eapply (LookupStart _ _ _ _ 0 9 (Some 5%nat)); [reflexivity| |reflexivity]; intros x _; split; [done|apply not_elem_of_nil]).
  eassert (sample_reachable _) as R2 by (eapply RStep; [exact R1|]; eapply (LookupSolicit _ _ _ _ 0 9 (Some 5%nat) 100 true); reflexivity). clear R1.
  eassert (sample_reachable _) as R3 by (eapply RStep; [exact R2|]; eapply (LookupLocked _ _ _ _ 0 9 (Some 5%nat) _ 40); reflexivity). vm_compute in R3. clear R2.
  eassert (sample_reachable _) as R4 by (eapply RStep; [exact R3|]; eapply (Received _ _ _ _ 1 9 sample_mac 41 true 150 150); reflexivity). vm_compute in R4. clear R3.
  eassert (sample_reachable _) as R5 by (eapply RStep; [exact R4|]; eapply (Drain _ _ _ _ 1); reflexivity). vm_compute in R5. clear R4.
  eexists. split; [exact R5|]. split; reflexivity.
Defined.
Lemma arp_packets_witness : exists s, reachable sample_crc [] (fun _ => 9) s /\ sent s = [(5%nat, sample_mac)] /\
  (forall m h, (m, h) ∈ sent s -> (9, h) ∈ announced s) /\ given s ≡ₚ bag pkts (pcs s) ++ queued (tb s) ++ (sent s).*1 ++ freed s ++ kept s.
Proof.
  destruct sample_resolves as (s & Hr & Hs & _). exists s. split; [exact Hr|]. split; [exact Hs|].
  destruct (arp_packets sample_crc [] (fun _ => 9) s Hr) as (H1 & _ & H2 & _). split; [exact H2|exact H1].
Defined.
(** A lookup for host 9 that came before the worker waits for ever. *)
Lemma arp_worker_stranded_witness : exists s a e, reachable sample_crc [] (fun _ => 9) s /\ worker s = WNone /\ nr_dynamic_entries (tb s) = 1 /\
  entries (tb s) !! a = Some e /\ a_state e = ARP_STATE_PROBING /\ a_q e = [5%nat] /\
  forall s', rtc (small_step sample_crc [] (fun _ => 9)) (create_worker s) s' -> worker s' = WParked /\ freed s' = [] /\
    exists e', entries (tb s') !! a = Some e' /\ waits_on e e'.
Proof.
  eassert (sample_reachable _) as R1 by (eapply RStep; [apply RInit|]; eapply (LookupStart _ _ _ _ 0 9 (Some 5%nat)); [reflexivity| |reflexivity]; intros x _; split; [done|apply not_elem_of_nil]).
  eassert (sample_reachable _) as R2 by (eapply RStep; [exact R1|]; eapply (LookupSolicit _ _ _ _ 0 9 (Some 5%nat) 100 true); reflexivity). clear R1.
  eassert (sample_reachable _) as R3 by (eapply RStep; [exact R2|]; eapply (LookupLocked _ _ _ _ 0 9 (Some 5%nat) _ 40); reflexivity). vm_compute in R3. clear R2.
  eexists _, 40%nat, _. split; [exact R3|]. do 5 (split; [reflexivity|]). intros s' Hs.
  destruct (arp_worker_stranded sample_crc [] (fun _ => 9) _ s' R3) as (H1 & _ & H3 & H4); [reflexivity|done|by vm_compute|exact Hs|].
  split; [exact H1|]. split; [exact H3|]. destruct (H4 40%nat _ eq_refl) as (e' & He' & _ & W). by exists e'.
Defined.
