(* ===== verification/NetCore.v ===== *)
(** * net: sending and receiving packets

    Models [runtime/net/core.c] and [runtime/net/icmp.c] with the packet buffers of
    [inc/net/mbuf.h].  Headers are written and read byte by
    byte.  What the network card,
    memory, ARP (Arp) and the channel to the I/O kernel (Lrpc) answer are arguments.
    The pool of buffers is Mempool; flow affinity, which only the direct path computes,
    and the parsing of addresses are left out. *)

From S2P Require Import Prelude StdDef Transport Chksum Arp ArpSpec.

Definition ETHTYPE_ARP : Z := 0x0806.
Definition IPPROTO_ICMP : Z := 1.
Definition IPPROTO_DIRECTPATH_ARP_ENCAP : Z := 252.
Definition IPVERSION : Z := 4.
Definition IP_DF : Z := 0x4000.
Definition IP_MF : Z := 0x2000.
Definition OLFLAG_IP_CHKSUM : Z := 1.
Definition OLFLAG_IPV4 : Z := 4.
Definition MBUF_DEFAULT_HEADROOM : Z := 128.
Definition USHRT_MAX : Z := 65535.
Definition ICMP_ECHOREPLY : Z := 0.
Definition ICMP_ECHO : Z := 8.
Definition ICMP_MINLEN : nat := 8.
Definition ENOMEM : Z := 12.
Definition EINPROGRESS : Z := 115.
(** [sizeof] of the headers. *)
Definition eth_hdr_len : nat := 14.
Definition ip_hdr_len : nat := 20.

Record net_cfg := NetCfg { addr : Z; netmask : Z; gateway : Z; mac_addr : mac; eth_mtu : Z }.

(** ** Buffers *)

(** A buffer: the bytes from its head to the data pointer, the data, the length from the
    head, and the offset of the network header, once it is set.  [None] is a failed
    [BUG_ON] or [assert], or the use of an offset that was not set. *)
Record buf := Buf { front : list Z; data : list Z; head_len : Z; network_off : option Z; txflags : Z }.
#[global] Instance eta_buf : Settable buf := fun r => Buf (front r) (data r) (head_len r) (network_off r) (txflags r).
Definition mbuf_length (b : buf) : Z := Z.of_nat (length (data b)).
Definition mbuf_headroom (b : buf) : Z := Z.of_nat (length (front b)).

Definition mbuf_push (hdr : list Z) (b : buf) : option buf :=
  if (length (front b) <? length hdr)%nat then None
  else Some (b <| front := take (length (front b) - length hdr) (front b) |> <| data := hdr ++ data b |>).
Definition mbuf_pull_or_null (n : nat) (b : buf) : option (list Z * buf) :=
  if (n <=? length (data b))%nat then Some (take n (data b), b <| front := front b ++ take n (data b) |> <| data := drop n (data b) |>) else None.
Definition mbuf_pull (n : nat) (b : buf) : option (list Z * buf) := mbuf_pull_or_null n b.
Definition mbuf_put (l : list Z) (b : buf) : option buf :=
  if head_len b <? mbuf_length b + Z.of_nat (length l) then None else Some (b <| data := data b ++ l |>).
Definition mbuf_trim (n : Z) (b : buf) : option buf :=
  if mbuf_length b <? n then None else Some (b <| data := take (Z.to_nat (mbuf_length b - n)) (data b) |>).
Definition mbuf_mark_network_offset (b : buf) : option buf :=
  if USHRT_MAX <? mbuf_headroom b then None else Some (b <| network_off := Some (mbuf_headroom b) |>).
Definition mbuf_network_hdr (n : nat) (b : buf) : option (list Z) :=
  off ← network_off b; Some (take n (drop (Z.to_nat off) (front b ++ data b))).
(** The reserved bytes are not initialised. *)
Definition mbuf_init (len : Z) (reserved : list Z) : option buf :=
  if Z.of_nat (length reserved) <? len then Some (Buf reserved [] len None 0) else None.
Definition net_tx_alloc_mbuf (c : net_cfg) (reserved : list Z) : option buf := mbuf_init (eth_mtu c) (take (Z.to_nat MBUF_DEFAULT_HEADROOM) reserved).

(** ** Receiving *)

(** The fields of the IP header, as they lie in memory. *)
Definition ip_version (h : list Z) : Z := Z.shiftr (h !!! 0%nat) 4.
Definition ip_header_len (h : list Z) : Z := Z.land (h !!! 0%nat) 15.
Definition ip_off (h : list Z) : Z := load 2 (drop 6 h).
Definition ip_len (h : list Z) : Z := be (field 2 2 h).
Definition ip_proto (h : list Z) : Z := h !!! 9%nat.
Definition ip_saddr (h : list Z) : Z := be (field 12 4 h).
Definition ip_daddr (h : list Z) : Z := be (field 16 4 h).

Definition ip_hdr_supported (h : list Z) : bool :=
  (ip_version h =? IPVERSION) && (ip_header_len h =? 5) && (Z.land (ip_off h) IP_MF =? 0).

(** What becomes of a received packet: it is handed on without its headers. *)
Inductive rx := RxDrop | RxArp (m : buf) | RxIcmp (m : buf) (iphdr : list Z) (len : Z) | RxTrans (m : buf).
Definition net_rx_one (c : net_cfg) (csum_unnecessary : bool) (m : buf) : option rx :=
  match mbuf_pull_or_null eth_hdr_len m with
  | None => Some RxDrop
  | Some (llhdr, m) =>
      let type := be (field 12 2 llhdr) in
      if type =? ETHTYPE_ARP then Some (RxArp m)
      else if negb (type =? ETHTYPE_IP) || negb (bool_decide (field 0 6 llhdr = mac_addr c)) then Some RxDrop
      else
        m ← mbuf_mark_network_offset m;
        match mbuf_pull_or_null ip_hdr_len m with
        | None => Some RxDrop
        | Some (iphdr, m) =>
            if negb csum_unnecessary && negb (chksum_internet iphdr =? 0) then Some RxDrop
            else if negb (ip_hdr_supported iphdr) then Some RxDrop
            else
              let len := u16 (ip_len iphdr - Z.of_nat ip_hdr_len) in
              if mbuf_length m <? len then Some RxDrop
              else
                m ← (if len <? mbuf_length m then mbuf_trim (mbuf_length m - len) m else Some m);
                if ip_proto iphdr =? IPPROTO_ICMP then Some (RxIcmp m iphdr len)
                else if (ip_proto iphdr =? IPPROTO_UDP) || (ip_proto iphdr =? IPPROTO_TCP) then Some (RxTrans m)
                else if ip_proto iphdr =? IPPROTO_DIRECTPATH_ARP_ENCAP then Some (RxArp m)
                else Some RxDrop
        end
  end.
(** What [trans_lookup] (Transport) sees of a packet. *)
Definition l4_of (m : buf) : option l4_packet :=
  iphdr ← mbuf_network_hdr ip_hdr_len m;
  Some (L4Packet (ip_proto iphdr) (ip_saddr iphdr) (ip_daddr iphdr) (be (field 0 2 (data m))) (be (field 2 2 (data m))) (mbuf_length m)).

(** [net_error]: whether the packet goes to [trans_error]. *)
Definition net_error (m : buf) : option buf :=
  match mbuf_pull_or_null ip_hdr_len m with
  | None => None
  | Some (iphdr, m) =>
      if negb (ip_hdr_supported iphdr) then None
      else if (ip_proto iphdr =? IPPROTO_UDP) || (ip_proto iphdr =? IPPROTO_TCP) then Some m else None
  end.

(** ** Sending *)

Definition net_push_iphdr (c : net_cfg) (proto daddr : Z) (b : buf) : option buf :=
  let len := u16 (mbuf_length b + Z.of_nat ip_hdr_len) in
  mbuf_push ([Z.lor (Z.shiftl IPVERSION 4) 5; 0] ++ bytes_be16 len ++ bytes_be16 0 ++ bytes_be16 IP_DF ++ [64; proto] ++ [0; 0] ++
             bytes_be32 (addr c) ++ bytes_be32 daddr) b.
Definition net_get_ip_route (c : net_cfg) (daddr : Z) : Z :=
  if negb (Z.land daddr (netmask c) =? Z.land (addr c) (netmask c)) then gateway c else daddr.

(** What [arp_lookup] (Arp) answers, and what a call does with its buffer: the frame that
    is given to the driver, the copy that is received locally, buffers that are freed or
    kept by ARP. *)
Inductive arp_answer := ArpKnown (dhost : mac) | ArpInProgress | ArpNoMem.
Inductive tx := Xmit (frame : list Z) (flags : Z) | LoopRx (m : buf) | LoopDropped | FreeBuf | ToArp (daddr : Z).

Definition net_tx_eth (c : net_cfg) (type : Z) (dhost : mac) (b : buf) : option (list tx) :=
  b ← mbuf_push (dhost ++ mac_addr c ++ bytes_be16 type) b;
  Some [Xmit (data b) (txflags b)].

(** The network offset of the copy is not set. *)
Definition net_tx_local_loopback (mem_ok spawn_ok : bool) (proto : Z) (b : buf) : option (Z * list tx * buf) :=
  if negb mem_ok then Some (- ENOMEM, [], b)
  else
    m ← mbuf_init (mbuf_length b) [];
    '(_, m) ← mbuf_pull ip_hdr_len (m <| data := data b |>);
    let rx := if ((proto =? IPPROTO_UDP) || (proto =? IPPROTO_TCP)) && spawn_ok then LoopRx m else LoopDropped in
    Some (0, [rx; FreeBuf], b).

Definition net_tx_ip (c : net_cfg) (arp : Z -> arp_answer) (mem_ok spawn_ok : bool) (proto daddr : Z) (b : buf) : option (Z * list tx * buf) :=
  b ← net_push_iphdr c proto daddr b;
  b ← mbuf_mark_network_offset b;
  if daddr =? addr c then net_tx_local_loopback mem_ok spawn_ok proto b
  else
    let b := b <| txflags := Z.lor (txflags b) (Z.lor OLFLAG_IP_CHKSUM OLFLAG_IPV4) |> in
    let daddr := net_get_ip_route c daddr in
    match arp daddr with
    | ArpInProgress => Some (0, [ToArp daddr], b)
    | ArpNoMem => '(_, b) ← mbuf_pull ip_hdr_len b; Some (- ENOMEM, [], b)
    | ArpKnown dhost => out ← net_tx_eth c ETHTYPE_IP dhost b; Some (0, out, b)
    end.
Definition net_tx_ip_or_free (c : net_cfg) (arp : Z -> arp_answer) (mem_ok spawn_ok : bool) (proto daddr : Z) (b : buf) : option (list tx) :=
  '(ret, out, _) ← net_tx_ip c arp mem_ok spawn_ok proto daddr b;
  Some (if ret =? 0 then out else out ++ [FreeBuf]).

(** [net_tx_ip_burst]; the buffers that are left with the caller are the last result. *)
Fixpoint push_iphdrs (c : net_cfg) (proto daddr : Z) (ms : list buf) : option (list buf) :=
  match ms with
  | [] => Some []
  | b :: ms =>
      b ← net_push_iphdr c proto daddr b;
      ms ← push_iphdrs c proto daddr ms;
      Some (b <| txflags := Z.lor (txflags b) (Z.lor OLFLAG_IP_CHKSUM OLFLAG_IPV4) |> :: ms)
  end.
Fixpoint pull_iphdrs (ms : list buf) : option (list buf) :=
  match ms with [] => Some [] | b :: ms => '(_, b) ← mbuf_pull ip_hdr_len b; ms ← pull_iphdrs ms; Some (b :: ms) end.
Fixpoint tx_eths (c : net_cfg) (dhost : mac) (ms : list buf) : option (list tx) :=
  match ms with [] => Some [] | b :: ms => o ← net_tx_eth c ETHTYPE_IP dhost b; out ← tx_eths c dhost ms; Some (o ++ out) end.
Definition net_tx_ip_burst (c : net_cfg) (arp : Z -> arp_answer) (proto daddr : Z) (ms : list buf) : option (Z * list tx * list buf) :=
  match ms with
  | [] => None
  | _ =>
      ms ← push_iphdrs c proto daddr ms;
      let daddr := net_get_ip_route c daddr in
      match arp daddr with
      | ArpInProgress => Some (0, [ToArp daddr], [])
      | ArpNoMem => ms ← pull_iphdrs ms; Some (- ENOMEM, [], ms)
      | ArpKnown dhost => out ← tx_eths c dhost ms; Some (0, out, [])
      end
  end.

(** ** ICMP *)

Definition net_rx_icmp_echo (c : net_cfg) (arp : Z -> arp_answer) (alloc_ok mem_ok : bool) (reserved pkt iphdr : list Z) : option (list tx) :=
  if negb alloc_ok then Some [FreeBuf]
  else
    m ← net_tx_alloc_mbuf c reserved;
    let reply := [ICMP_ECHOREPLY; pkt !!! 1%nat] ++ [0; 0] ++ drop 4 pkt in
    m ← mbuf_put ([ICMP_ECHOREPLY; pkt !!! 1%nat] ++ bytes_le16 (chksum_internet reply) ++ drop 4 pkt) m;
    out ← net_tx_ip_or_free c arp mem_ok true IPPROTO_ICMP (ip_saddr iphdr) m;
    Some (out ++ [FreeBuf]).
(** A reply to a ping of ours goes to [net_recv_ping], if it is long enough. *)
Inductive icmp_rx := IcmpDrop | IcmpEcho (out : list tx) | IcmpReply (pkt : list Z).
Definition net_rx_icmp (c : net_cfg) (arp : Z -> arp_answer) (alloc_ok mem_ok : bool) (reserved : list Z) (m : buf) (iphdr : list Z) (len : Z) : option icmp_rx :=
  match mbuf_pull_or_null ICMP_MINLEN m with
  | None => Some IcmpDrop
  | Some (_, m') =>
      let pkt := take (Z.to_nat len) (data m) in
      let type := data m !!! 0%nat in
      if type =? ICMP_ECHO then out ← net_rx_icmp_echo c arp alloc_ok mem_ok reserved pkt iphdr; Some (IcmpEcho out)
      else if type =? ICMP_ECHOREPLY then Some (if (16 <=? length (data m'))%nat then IcmpReply (data m) else IcmpDrop)
      else Some IcmpDrop
  end.
(** [type] and [code] are not used. *)
Definition net_tx_icmp (c : net_cfg) (arp : Z -> arp_answer) (mem_ok : bool) (type code daddr : Z) (id seq : list Z) (b : buf) : option (Z * list tx * buf) :=
  let zeroed := [ICMP_ECHO; 0] ++ [0; 0] ++ id ++ seq ++ data b in
  b ← mbuf_push ([ICMP_ECHO; 0] ++ bytes_le16 (chksum_internet zeroed) ++ id ++ seq) b;
  net_tx_ip c arp mem_ok true IPPROTO_ICMP daddr b.

(** ** The driver queue *)

(** [net_tx_drain_overflow]: whether packets are left, those that the driver took, and the
    queue; [cede] and [accept] say for each packet whether the kthread is asked to give up
    its core and whether the driver has room. *)
Fixpoint net_tx_drain_overflow (cede accept : nat -> bool) (i : nat) (q : list nat) : bool * list nat * list nat :=
  match q with
  | [] => (false, [], [])
  | m :: q' =>
      if cede i then (true, [], q)
      else if accept i then let '(busy, sent, q) := net_tx_drain_overflow cede accept (S i) q' in (busy, m :: sent, q)
      else (true, [], q)
  end.
Definition net_tx_raw (cede accept : nat -> bool) (room : bool) (m : nat) (q : list nat) : list nat * list nat :=
  let '(busy, sent, q) := match q with [] => (false, [], []) | _ => net_tx_drain_overflow cede accept 0 q end in
  if busy then (sent, q ++ [m]) else if room then (sent ++ [m], q) else (sent, q ++ [m]).

Inductive tx_call := TxRaw (cede accept : nat -> bool) (room : bool) (m : nat) | TxDrain (cede accept : nat -> bool).
Fixpoint tx_run (l : list tx_call) (q : list nat) : list nat * list nat :=
  match l with
  | [] => ([], q)
  | TxRaw cede accept room m :: l =>
      let '(s1, q) := net_tx_raw cede accept room m q in let '(s2, q) := tx_run l q in (s1 ++ s2, q)
  | TxDrain cede accept :: l =>
      let '(_, s1, q) := net_tx_drain_overflow cede accept 0 q in let '(s2, q) := tx_run l q in (s1 ++ s2, q)
  end.
Definition tx_given (l : list tx_call) : list nat := omap (fun x => match x with TxRaw _ _ _ m => Some m | _ => None end) l.

Lemma drain_overflow_order cede accept i q : let '(busy, sent, q') := net_tx_drain_overflow cede accept i q in sent ++ q' = q /\ (busy = false -> q' = []).
Proof.
  revert i. induction q as [|m q IH]; intros i; cbn [net_tx_drain_overflow]; [done|]. destruct (cede i); [done|]. destruct (accept i); [|done].
  specialize (IH (S i)). destruct (net_tx_drain_overflow cede accept (S i) q) as [[busy sent] q']. destruct IH as [<- IH]. done.
Qed.
Lemma tx_raw_order cede accept room m q : let '(sent, q') := net_tx_raw cede accept room m q in sent ++ q' = q ++ [m].
Proof.
  unfold net_tx_raw. assert (forall r : bool * list nat * list nat, (let '(busy, sent, q') := r in sent ++ q' = q /\ (busy = false -> q' = [])) ->
    let '(sent, q') := (let '(busy, sent, q) := r in if busy : bool then (sent, q ++ [m]) else if room then (sent ++ [m], q) else (sent, q ++ [m])) in sent ++ q' = q ++ [m]) as H.
  { intros [[[] sent] q'] [<- Hq]; [by rewrite app_assoc|]. rewrite (Hq eq_refl). destruct room; rewrite ?app_nil_r; done. }
  apply H. destruct q; [done|]. apply drain_overflow_order.
Qed.

(** Whatever the driver refuses, packets leave in the order in which they were given,
    none is lost and none is sent twice. *)
Theorem net_tx_in_order l : let '(sent, q) := tx_run l [] in sent ++ q = tx_given l.
Proof.
  assert (forall q, let '(sent, q') := tx_run l q in sent ++ q' = q ++ tx_given l) as H; [|exact (H [])].
  induction l as [|[cede accept room m|cede accept] l IH]; intros q; cbn [tx_run]; [by rewrite app_nil_r|..].
  - pose proof (tx_raw_order cede accept room m q) as H1. destruct (net_tx_raw _ _ _ _ _) as [s1 q1]. specialize (IH q1). destruct (tx_run l q1) as [s2 q2].
    rewrite <- app_assoc, IH, app_assoc, H1. by rewrite <- app_assoc.
  - pose proof (drain_overflow_order cede accept 0 q) as H1. destruct (net_tx_drain_overflow _ _ _ _) as [[busy s1] q1]. destruct H1 as [H1 _]. specialize (IH q1).
    destruct (tx_run l q1) as [s2 q2]. by rewrite <- app_assoc, IH, app_assoc, H1.
Qed.

(** ** Headers *)

Definition ip_header (c : net_cfg) (proto daddr len : Z) : list Z :=
  [0x45; 0] ++ bytes_be16 len ++ [0; 0; 0x40; 0; 64; proto] ++ [0; 0] ++ bytes_be32 (addr c) ++ bytes_be32 daddr.
Lemma net_push_iphdr_ok c proto daddr b : (ip_hdr_len <= length (front b))%nat -> 0 <= mbuf_length b <= 65515 ->
  net_push_iphdr c proto daddr b = Some (b <| front := take (length (front b) - 20) (front b) |> <| data := ip_header c proto daddr (mbuf_length b + 20) ++ data b |>).
Proof.
  intros Hf Hl. unfold net_push_iphdr, mbuf_push. replace (u16 (mbuf_length b + Z.of_nat ip_hdr_len)) with (mbuf_length b + 20).
  2: { symmetry. unfold u16, ip_hdr_len. apply Z.mod_small. lia. }
  change ([Z.lor (Z.shiftl IPVERSION 4) 5; 0] ++ ?x) with ([0x45; 0] ++ x). cbv zeta.
  rewrite (proj2 (Nat.ltb_ge _ _)); [done|]. exact Hf.
Qed.
Lemma ip_header_fields c proto daddr len : 0 <= len < 2 ^ 16 -> 0 <= addr c < 2 ^ 32 -> 0 <= daddr < 2 ^ 32 ->
  forall ck, length ck = 2%nat -> let h := take 10 (ip_header c proto daddr len) ++ ck ++ drop 12 (ip_header c proto daddr len) in
  length h = 20%nat /\ ip_hdr_supported h = true /\ ip_len h = len /\ ip_proto h = proto /\ ip_saddr h = addr c /\ ip_daddr h = daddr.
Proof.
  intros Hl Ha Hd ck Hck h. destruct ck as [|c0 [|c1 [|]]]; try done. split; [done|]. split; [done|].
  split; [exact (be16_bytes len Hl)|]. split; [done|]. split; [exact (be32_bytes (addr c) Ha)|exact (be32_bytes daddr Hd)].
Qed.
Lemma ip_header_bytes c proto daddr len : 0 <= proto < 256 -> bytes (ip_header c proto daddr len).
Proof. intros Hp. unfold ip_header, bytes_be32, bytes_be16. cbn [app]. repeat (constructor; [apply byte_mod || lia|]). constructor. Qed.

(** What the network card does for [OLFLAG_IP_CHKSUM]: it fills in the checksum of the IP
    header after the Ethernet header. *)
Definition fill_ip_checksum (frame : list Z) : list Z :=
  let h := field eth_hdr_len ip_hdr_len frame in
  take 24 frame ++ bytes_le16 (chksum_internet h) ++ drop 26 frame.
(** [net_rx_alloc_mbuf]: the buffer of a received frame. *)
Definition rx_buf (frame : list Z) : buf := Buf [] frame (Z.of_nat (length frame)) None 0.

Lemma fill_spec dhost smac type h payload : length dhost = 6%nat -> length smac = 6%nat -> length type = 2%nat -> length h = 20%nat ->
  fill_ip_checksum ((dhost ++ smac ++ type) ++ h ++ payload) =
    (dhost ++ smac ++ type) ++ (take 10 h ++ bytes_le16 (chksum_internet h) ++ drop 12 h) ++ payload.
Proof.
  intros L1 L2 L3 L4. set (e := dhost ++ smac ++ type). assert (length e = 14%nat) as Le by (unfold e; rewrite !length_app; lia). unfold fill_ip_checksum, field, eth_hdr_len, ip_hdr_len.
  assert (drop 14 (e ++ h ++ payload) = h ++ payload) as Ed by (rewrite <- Le; apply drop_app_length).
  rewrite Ed, (take_app_le h payload), (take_ge h) by lia.
  assert (take 24 (e ++ h ++ payload) = e ++ take 10 h) as -> by (rewrite take_app_ge, Le, (take_app_le h) by lia; done).
  assert (drop 26 (e ++ h ++ payload) = drop 12 h ++ payload) as -> by (rewrite drop_app_ge, Le, (drop_app_le h) by lia; done). by rewrite <- !app_assoc.
Qed.
(** A filled header passes the receiver's check. *)
Lemma ip_checksum_ok c proto daddr len : 0 <= proto < 256 ->
  let h := ip_header c proto daddr len in chksum_internet (take 10 h ++ bytes_le16 (chksum_internet h) ++ drop 12 h) = 0.
Proof.
  intros Hp h. pose proof (ip_header_bytes c proto daddr len Hp) as Hb. assert (h = take 10 h ++ [0; 0] ++ drop 12 h) as Eh by done.
  assert (bytes (take 10 h) /\ bytes (drop 12 h)) as [B1 B2] by (split; [by apply bytes_take|by apply bytes_drop]). fold h in Hb.
  rewrite Eh at 2. pose proof (chksum_internet_spec _ Hb) as Ec. rewrite <- Eh, Ec. pose proof (sum16_bound _ Hb) as [Hs _]. pose proof (norm_same _ Hs) as [_ Hn].
  rewrite chksum_internet_spec.
  - rewrite sum16_field; [|by exists 5%nat|lia]. rewrite <- Eh. assert (0 < sum16 h) as Hpos.
    { change h with (0x45 :: 0 :: drop 2 h). cbn [sum16]. pose proof (sum16_bound (drop 2 h) (bytes_drop 2 _ Hb)) as [H2 _]. lia. }
    rewrite norm_complete; [done|done|lia|exists 0; lia].
  - rewrite !bytes_both. split_and!; [done|apply le16_spec; lia|done].
Qed.
Lemma net_rx_one_ip c csum e h payload : length e = 14%nat -> be (field 12 2 e) = ETHTYPE_IP -> field 0 6 e = mac_addr c -> length h = 20%nat ->
  chksum_internet h = 0 -> ip_hdr_supported h = true -> ip_len h = Z.of_nat (length payload) + 20 -> Z.of_nat (length payload) <= 65515 ->
  (ip_proto h = IPPROTO_UDP \/ ip_proto h = IPPROTO_TCP) ->
  net_rx_one c csum (rx_buf (e ++ h ++ payload)) = Some (RxTrans (Buf (e ++ h) payload (Z.of_nat (length (e ++ h ++ payload))) (Some 14) 0)).
Proof.
  intros Le Ety Emac Lh Eck Esup Elen Hlen Hproto. unfold net_rx_one, mbuf_pull_or_null, rx_buf. cbn [data front head_len network_off txflags].
  rewrite (proj2 (Nat.leb_le _ _)) by (rewrite length_app, Le; unfold eth_hdr_len; lia).
  change (take eth_hdr_len (e ++ h ++ payload)) with (take 14 (e ++ h ++ payload)). change (drop eth_hdr_len (e ++ h ++ payload)) with (drop 14 (e ++ h ++ payload)).
  assert (take 14 (e ++ h ++ payload) = e /\ drop 14 (e ++ h ++ payload) = h ++ payload) as [-> ->] by (rewrite <- Le; split; [apply take_app_length|apply drop_app_length]).
  rewrite Ety, Emac, bool_decide_true by done. change (ETHTYPE_IP =? ETHTYPE_ARP) with false. change (ETHTYPE_IP =? ETHTYPE_IP) with true. cbn [negb orb].
  unfold mbuf_mark_network_offset, mbuf_headroom. cbn [set eta_buf front data head_len network_off txflags]. rewrite app_nil_l, Le. change (USHRT_MAX <? Z.of_nat 14) with false.
  cbn [mbind option_bind set eta_buf front data head_len network_off txflags]. rewrite (proj2 (Nat.leb_le _ _)) by (rewrite length_app, Lh; unfold ip_hdr_len; lia).
  change ip_hdr_len with 20%nat. assert (take 20 (h ++ payload) = h /\ drop 20 (h ++ payload) = payload) as [-> ->] by (rewrite <- Lh; split; [apply take_app_length|apply drop_app_length]).
  rewrite Eck, Esup, Elen. change (negb csum && negb (0 =? 0)) with (negb csum && false). rewrite andb_false_r. cbn [negb].
  assert (u16 (Z.of_nat (length payload) + 20 - Z.of_nat 20) = Z.of_nat (length payload)) as -> by (unfold u16; rewrite Z.mod_small; lia).
  unfold mbuf_length. cbn [set eta_buf front data head_len network_off txflags]. rewrite Z.ltb_irrefl. cbn [mbind option_bind].
  destruct Hproto as [-> | ->]; done.
Qed.

(** What [net_tx_ip] hands to the driver for a host that ARP knows. *)
Lemma net_tx_ip_xmit c arp mem_ok spawn_ok proto daddr b dhost : (34 <= length (front b))%nat -> mbuf_headroom b <= USHRT_MAX -> 0 <= mbuf_length b <= 65515 ->
  daddr <> addr c -> length (mac_addr c) = 6%nat -> length dhost = 6%nat -> arp (net_get_ip_route c daddr) = ArpKnown dhost ->
  exists b', net_tx_ip c arp mem_ok spawn_ok proto daddr b =
    Some (0, [Xmit ((dhost ++ mac_addr c ++ bytes_be16 ETHTYPE_IP) ++ ip_header c proto daddr (mbuf_length b + 20) ++ data b) (Z.lor (txflags b) (Z.lor OLFLAG_IP_CHKSUM OLFLAG_IPV4))], b').
Proof.
  intros Hf Hfm Hl Hne Lm Lh Harp. unfold net_tx_ip. rewrite net_push_iphdr_ok by (unfold ip_hdr_len; lia). cbn [mbind option_bind].
  set (h := ip_header c proto daddr (mbuf_length b + 20)). unfold mbuf_mark_network_offset. set (b1 := b <| front := _ |> <| data := _ |>).
  assert (length (front b1) = length (front b) - 20)%nat as Lf by (unfold b1; simpl; rewrite length_take; lia).
  rewrite (proj2 (Z.ltb_ge _ _)) by (unfold mbuf_headroom in *; rewrite Lf; lia). cbn [mbind option_bind]. rewrite (proj2 (Z.eqb_neq _ _)) by done. rewrite Harp.
  unfold net_tx_eth, mbuf_push. set (b2 := b1 <| network_off := _ |> <| txflags := _ |>). assert (front b2 = front b1 /\ data b2 = h ++ data b) as [Ef Edt] by done.
  rewrite Ef, Lf, Edt. assert (length (dhost ++ mac_addr c ++ bytes_be16 ETHTYPE_IP) = 14%nat) as Le by (rewrite !length_app; simpl; lia). rewrite Le.
  rewrite (proj2 (Nat.ltb_ge _ _)) by lia. cbn [mbind option_bind]. eexists. done.
Qed.
(** What the transport layer reads of a received packet. *)
Lemma l4_of_rx e h payload hl : length e = 14%nat -> length h = 20%nat ->
  l4_of (Buf (e ++ h) payload hl (Some 14) 0) = Some (L4Packet (ip_proto h) (ip_saddr h) (ip_daddr h) (be (field 0 2 payload)) (be (field 2 2 payload)) (Z.of_nat (length payload))).
Proof.
  intros Le Lh. unfold l4_of, mbuf_network_hdr. cbn [network_off front data mbind option_bind]. change (Z.to_nat 14) with 14%nat.
  replace (take ip_hdr_len (drop 14 ((e ++ h) ++ payload))) with h; [done|].
  rewrite <- app_assoc, <- Le, drop_app_length. change ip_hdr_len with 20%nat. rewrite <- Lh. symmetry. apply take_app_length.
Qed.

(** A datagram or segment that [net_tx_ip] sends to another host, routed, resolved and
    with the checksum filled in by the card, is accepted by the host with the MAC address
    that ARP gave, whether or not its card verified the checksum: its transport layer gets
    exactly the payload, with the sender's and the destination's addresses. *)
Lemma ip_delivered c peer arp mem_ok spawn_ok proto daddr b dhost csum : (34 <= length (front b))%nat -> mbuf_headroom b <= USHRT_MAX -> mbuf_length b <= 65515 ->
  (proto = IPPROTO_UDP \/ proto = IPPROTO_TCP) -> 0 <= addr c < 2 ^ 32 -> 0 <= daddr < 2 ^ 32 -> daddr <> addr c ->
  length (mac_addr c) = 6%nat -> length dhost = 6%nat -> arp (net_get_ip_route c daddr) = ArpKnown dhost -> mac_addr peer = dhost ->
  exists frame flags b' m, net_tx_ip c arp mem_ok spawn_ok proto daddr b = Some (0, [Xmit frame flags], b') /\
    Z.land flags OLFLAG_IP_CHKSUM = OLFLAG_IP_CHKSUM /\
    net_rx_one peer csum (rx_buf (fill_ip_checksum frame)) = Some (RxTrans m) /\ data m = data b /\
    l4_of m = Some (L4Packet proto (addr c) daddr (be (field 0 2 (data b))) (be (field 2 2 (data b))) (mbuf_length b)).
Proof.
  intros Hf Hfm Hl Hproto Ha Hd Hne Lm Lh Harp Hpeer. assert (0 <= mbuf_length b) as Hpos by (unfold mbuf_length; lia).
  assert (0 <= proto < 256) as Hp by (destruct Hproto as [-> | ->]; done).
  destruct (net_tx_ip_xmit c arp mem_ok spawn_ok proto daddr b dhost) as [b' ->]; try done. set (h := ip_header c proto daddr (mbuf_length b + 20)).
  set (e := dhost ++ mac_addr c ++ bytes_be16 ETHTYPE_IP). assert (length e = 14%nat) as Le by (unfold e; rewrite !length_app, Lm, Lh; done).
  pose proof (ip_header_fields c proto daddr (mbuf_length b + 20) ltac:(lia) Ha Hd (bytes_le16 (chksum_internet h)) eq_refl) as (F1 & F2 & F3 & F4 & F5 & F6).
  pose proof (ip_checksum_ok c proto daddr (mbuf_length b + 20) Hp) as Fck. fold h in F1, F2, F3, F4, F5, F6, Fck. cbv zeta in *.
  set (h' := take 10 h ++ _ ++ _) in *. exists (e ++ h ++ data b). eexists _, b', _. split; [done|]. split.
  { rewrite !Z.land_lor_distr_l. apply Z.bits_inj'. intros n Hn. rewrite !Z.lor_spec, !Z.land_spec. by destruct (Z.testbit (txflags b) n), (Z.testbit OLFLAG_IP_CHKSUM n) , (Z.testbit OLFLAG_IPV4 n). }
  unfold e. rewrite fill_spec by done. fold e. fold h'. split; [apply net_rx_one_ip; try done|].
  - unfold e, field. rewrite app_assoc, drop_app_ge by (rewrite length_app; lia). rewrite length_app, Lm, Lh. done.
  - unfold e, field. rewrite drop_0, Hpeer, take_app_le, take_ge by lia. done.
  - split; [done|]. rewrite l4_of_rx by done. by rewrite F4, F5, F6.
Qed.
(** The fragment filter reads the flags without the byte order conversion, so it tests
    bit 5 of the fragment offset.  The first byte of the field, which holds the
    more-fragments flag, does not matter: the first fragment of a datagram is accepted as a
    whole packet, and the last one too unless its offset has bit 5. *)
Theorem ip_fragments_accepted a b h : (6 <= length a)%nat -> bytes b -> length b = 2%nat -> let off := be b in
  (ip_hdr_supported (take 6 a ++ b ++ h) = (ip_version a =? IPVERSION) && (ip_header_len a =? 5) && negb (Z.testbit off 5)) /\
  (forall hi, 0 <= hi < 256 -> ip_hdr_supported (take 6 a ++ [hi] ++ drop 1 b ++ h) = ip_hdr_supported (take 6 a ++ b ++ h)).
Proof.
  intros La Hb Lb off. destruct b as [|b0 [|b1 [|]]]; try done. destruct a as [|a0 [|a1 [|a2 [|a3 [|a4 [|a5 a]]]]]]; simpl in La; try lia.
  apply Forall_cons in Hb as [H0 [H1 _]%Forall_cons].
  assert (forall hi, 0 <= hi < 256 -> (Z.land (load 2 [hi; b1]) IP_MF =? 0) = negb (Z.testbit b1 5)) as Hbit.
  { intros hi Hhi. assert (load 2 [hi; b1] = hi + Z.shiftl b1 8) as -> by (unfold load, le; simpl; rewrite Z.shiftl_mul_pow2; lia).
    assert (IP_MF = 2 ^ 13) as -> by done. rewrite Z.land_comm. replace (Z.testbit b1 5) with (Z.testbit (hi + Z.shiftl b1 8) 13).
    - set (x := hi + Z.shiftl b1 8). destruct (Z.testbit x 13) eqn:E.
      + apply Z.eqb_neq. intros C. pose proof (Z.land_spec (2 ^ 13) x 13) as L. rewrite C, E, Z.pow2_bits_true in L by lia. done.
      + apply Z.eqb_eq. apply Z.bits_inj'. intros n Hn. rewrite Z.land_spec, Z.bits_0. destruct (Z.eq_dec n 13) as [-> |]; [by rewrite E, andb_false_r|].
        by rewrite Z.pow2_bits_false by lia.
    - rewrite Z.shiftl_mul_pow2 by lia. rewrite !Z.testbit_odd, !Z.shiftr_div_pow2 by lia. f_equal. change (2 ^ 13) with (2 ^ 8 * 2 ^ 5).
      rewrite <- Z.div_div by lia. f_equal. rewrite Z.div_add by lia. rewrite Z.div_small by lia. lia. }
  assert (off = 256 * b0 + b1) as Eoff by (unfold off, be; simpl; lia).
  assert (Z.testbit off 5 = Z.testbit b1 5) as Et.
  { rewrite Eoff, !Z.testbit_odd, !Z.shiftr_div_pow2 by lia. replace (256 * b0 + b1) with (b1 + 2 * 2 ^ 2 * b0 * 2 ^ 5) by lia. rewrite Z.div_add by lia.
    replace (2 * 2 ^ 2 * b0) with (2 * (4 * b0)) by lia. by rewrite Z.odd_add_mul_2. }
  split.
  - unfold ip_hdr_supported. rewrite Et. rewrite <- (Hbit b0 H0). done.
  - intros hi Hhi. unfold ip_hdr_supported. f_equal. etransitivity; [exact (Hbit hi Hhi)|]. symmetry. exact (Hbit b0 H0).
Qed.
Lemma ip_fragments_accepted_witness :
  let a := [0x45; 0; 0; 28; 0; 1] in
  ip_hdr_supported (take 6 a ++ [0x20; 0] ++ replicate 12 0) = true /\ be [0x20; 0] = 0x2000 /\
  (forall hi, 0 <= hi < 256 -> ip_hdr_supported (take 6 a ++ [hi] ++ drop 1 [0x20; 0] ++ replicate 12 0) = ip_hdr_supported (take 6 a ++ [0x20; 0] ++ replicate 12 0)).
Proof.
  destruct (ip_fragments_accepted [0x45; 0; 0; 28; 0; 1] [0x20; 0] (replicate 12 0) ltac:(simpl; lia) ltac:(repeat constructor; lia) eq_refl) as [H1 H2].
  split; [exact H1|]. split; [reflexivity|exact H2].
Defined.

(** A packet to the own address is copied for the local receive path, but the copy's
    network offset is never set: the transport layer looks for the IP header at an
    arbitrary place.  When there is no memory for the copy, the caller gets its buffer back
    with the IP header still in front, whereas a failure of ARP takes it off: a second
    attempt to send the first prepends a second header. *)
Theorem loopback_header_unset c arp proto b : (ip_hdr_len <= length (front b))%nat -> mbuf_headroom b <= USHRT_MAX -> mbuf_length b <= 65515 ->
  (proto = IPPROTO_UDP \/ proto = IPPROTO_TCP) ->
  (exists m b', net_tx_ip c arp true true proto (addr c) b = Some (0, [LoopRx m; FreeBuf], b') /\ data m = data b /\ l4_of m = None) /\
  (exists b', net_tx_ip c arp false true proto (addr c) b = Some (- ENOMEM, [], b') /\ data b' = ip_header c proto (addr c) (mbuf_length b + 20) ++ data b) /\
  (forall daddr, daddr <> addr c -> (forall a, arp a = ArpNoMem) -> exists b', net_tx_ip c arp true true proto daddr b = Some (- ENOMEM, [], b') /\ data b' = data b).
Proof.
  intros Hf Hfm Hl Hproto. assert (0 <= mbuf_length b) as Hpos by (unfold mbuf_length; lia).
  assert (forall mem_ok daddr, net_tx_ip c arp mem_ok true proto daddr b =
    let h := ip_header c proto daddr (mbuf_length b + 20) in
    let b1 := b <| front := take (length (front b) - 20) (front b) |> <| data := h ++ data b |> <| network_off := Some (Z.of_nat (length (take (length (front b) - 20) (front b)))) |> in
    if daddr =? addr c then net_tx_local_loopback mem_ok true proto b1 else
    let b2 := b1 <| txflags := Z.lor (txflags b) (Z.lor OLFLAG_IP_CHKSUM OLFLAG_IPV4) |> in
    match arp (net_get_ip_route c daddr) with
    | ArpInProgress => Some (0, [ToArp (net_get_ip_route c daddr)], b2)
    | ArpNoMem => '(_, b) ← mbuf_pull ip_hdr_len b2; Some (- ENOMEM, [], b)
    | ArpKnown dhost => out ← net_tx_eth c ETHTYPE_IP dhost b2; Some (0, out, b2)
    end) as E.
  { intros mem_ok daddr. unfold net_tx_ip. rewrite net_push_iphdr_ok by done. cbn [mbind option_bind]. unfold mbuf_mark_network_offset.
    rewrite (proj2 (Z.ltb_ge _ _)); [done|]. unfold mbuf_headroom in *. cbn [set eta_buf front]. rewrite length_take. lia. }
  split; [|split].
  - rewrite E. cbv zeta. rewrite Z.eqb_refl. unfold net_tx_local_loopback, mbuf_init. cbn [negb]. rewrite (proj2 (Z.ltb_lt _ _)) by (unfold mbuf_length; simpl; lia).
    unfold mbuf_pull, mbuf_pull_or_null. cbn [mbind option_bind set eta_buf front data]. rewrite (proj2 (Nat.leb_le _ _)) by (simpl; unfold ip_hdr_len; lia). cbn [mbind option_bind].
    replace ((proto =? IPPROTO_UDP) || (proto =? IPPROTO_TCP)) with true by (by destruct Hproto as [-> | ->]). eexists _, _. done.
  - rewrite E. cbv zeta. rewrite Z.eqb_refl. eexists. done.
  - intros daddr Hne Harp. rewrite E. cbv zeta. rewrite (proj2 (Z.eqb_neq _ _)), Harp by done. unfold mbuf_pull, mbuf_pull_or_null. cbn [set eta_buf front data].
    rewrite (proj2 (Nat.leb_le _ _)) by (simpl; unfold ip_hdr_len; lia). eexists. done.
Qed.
Lemma loopback_header_unset_witness :
  let c := NetCfg 0x0a000001 0xffffff00 0x0a0000fe [2; 0; 0; 0; 0; 1] 1500 in let b := Buf (replicate 128 0) [0; 7; 0; 9; 0; 9; 0; 0; 65] 1500 None 0 in
  (exists m b', net_tx_ip c (fun _ => ArpNoMem) true true IPPROTO_UDP (addr c) b = Some (0, [LoopRx m; FreeBuf], b') /\ data m = data b /\ l4_of m = None) /\
  (exists b', net_tx_ip c (fun _ => ArpNoMem) false true IPPROTO_UDP (addr c) b = Some (- ENOMEM, [], b') /\ data b' = ip_header c IPPROTO_UDP (addr c) (mbuf_length b + 20) ++ data b) /\
  (forall daddr, daddr <> addr c -> (forall a : Z, (fun _ => ArpNoMem) a = ArpNoMem) -> exists b', net_tx_ip c (fun _ => ArpNoMem) true true IPPROTO_UDP daddr b = Some (- ENOMEM, [], b') /\ data b' = data b).
Proof.
  exact (loopback_header_unset (NetCfg 0x0a000001 0xffffff00 0x0a0000fe [2; 0; 0; 0; 0; 1] 1500) (fun _ => ArpNoMem) IPPROTO_UDP
    (Buf (replicate 128 0) [0; 7; 0; 9; 0; 9; 0; 0; 65] 1500 None 0) ltac:(apply Nat.leb_le; reflexivity) ltac:(done) ltac:(done) ltac:(by left)).
Defined.

(** The reply to a ping carries the data of the ping with a valid checksum, to the host
    that sent it. *)
Lemma icmp_checksum_ok a k l : bytes [a; k] -> bytes l -> chksum_internet ([a; k] ++ bytes_le16 (chksum_internet ([a; k] ++ [0; 0] ++ l)) ++ l) = 0.
Proof.
  intros B1 B2. assert (bytes ([a; k] ++ [0; 0] ++ l)) as Bz by (rewrite !bytes_both; split_and!; [done|repeat constructor; lia|done]).
  rewrite (chksum_internet_spec _ Bz). pose proof (sum16_bound _ Bz) as [Hs _]. pose proof (norm_same _ Hs) as [(_ & _ & _ & Hz) Hn]. rewrite chksum_internet_spec.
  - rewrite sum16_field; [|by exists 1%nat|lia]. rewrite norm_complete; [done|done|lia|exists 0; lia].
  - rewrite !bytes_both. split_and!; [done|apply le16_spec; lia|done].
Qed.
Theorem ping_answered c arp mem_ok reserved dhost code rest iphdr : (128 <= length reserved)%nat -> 128 < eth_mtu c -> Z.of_nat (length rest) + 4 <= eth_mtu c ->
  eth_mtu c <= 65515 -> bytes [code] -> bytes rest -> (4 <= length rest)%nat -> ip_saddr iphdr <> addr c ->
  length (mac_addr c) = 6%nat -> length dhost = 6%nat -> arp (net_get_ip_route c (ip_saddr iphdr)) = ArpKnown dhost ->
  forall front ck hl, length ck = 2%nat -> exists frame flags icmp,
  net_rx_icmp c arp true mem_ok reserved (Buf front ([ICMP_ECHO; code] ++ ck ++ rest) hl (Some 14) 0) iphdr (Z.of_nat (length rest) + 4) = Some (IcmpEcho [Xmit frame flags; FreeBuf]) /\
  drop 34 frame = icmp /\ length icmp = (length rest + 4)%nat /\ take 2 icmp = [ICMP_ECHOREPLY; code] /\ drop 4 icmp = rest /\ chksum_internet icmp = 0.
Proof.
  intros Hres Hmtu Hlen Hmax Hcode Hrest Hmin Hne Lm Lh Harp fr ck hl Lck. destruct ck as [|c0 [|c1 [|]]]; try done.
  unfold net_rx_icmp, mbuf_pull_or_null. cbn [data app]. rewrite (proj2 (Nat.leb_le _ _)) by (simpl; unfold ICMP_MINLEN; lia). cbn [data app list_lookup_total].
  change (_ =? ICMP_ECHO) with true. cbv iota. rewrite take_ge by (simpl; lia). unfold net_rx_icmp_echo, net_tx_alloc_mbuf, mbuf_init. cbn [negb].
  change (Z.to_nat MBUF_DEFAULT_HEADROOM) with 128%nat. rewrite length_take_le by done. rewrite (proj2 (Z.ltb_lt _ _)) by lia. cbn [mbind option_bind].
  set (icmp := [ICMP_ECHOREPLY; _] ++ bytes_le16 _ ++ _). unfold mbuf_put. cbn [data head_len app]. assert (length icmp = (length rest + 4)%nat) as Li by (unfold icmp; rewrite !length_app, length_drop; simpl; lia).
  unfold mbuf_length. cbn [data]. rewrite (proj2 (Z.ltb_ge _ _)) by (rewrite Li; simpl; lia). cbn [mbind option_bind].
  assert (icmp = [ICMP_ECHOREPLY; code] ++ bytes_le16 (chksum_internet ([ICMP_ECHOREPLY; code] ++ [0; 0] ++ rest)) ++ rest) as Ei by done. clearbody icmp.
  unfold net_tx_ip_or_free. set (b := set data _ _). assert (data b = icmp /\ front b = take 128 reserved) as [Ed Ef] by done. clearbody b.
  destruct (net_tx_ip_xmit c arp mem_ok true IPPROTO_ICMP (ip_saddr iphdr) b dhost) as [b' ->]; try done.
  - rewrite Ef, length_take. lia.
  - unfold mbuf_headroom, USHRT_MAX. rewrite Ef, length_take. lia.
  - unfold mbuf_length. rewrite Ed, Li. lia.
  - cbn [mbind option_bind]. change (0 =? 0) with true. cbv iota. eexists _, _, icmp. split; [done|]. rewrite Ed. split.
    + set (e := dhost ++ mac_addr c ++ bytes_be16 ETHTYPE_IP). assert (length e = 14%nat) as Le by (unfold e; rewrite !length_app, Lm, Lh; done).
      set (h := ip_header _ _ _ _). assert (length h = 20%nat) as Lhd by done. rewrite app_assoc. assert (34 = length (e ++ h))%nat as -> by (rewrite length_app; lia). apply drop_app_length.
    + split; [done|]. rewrite Ei. split; [done|]. split; [done|]. apply icmp_checksum_ok; [|done]. apply Forall_cons. split; [done|exact Hcode].
Qed.
