(* ===== verification/Udp.v ===== *)
(** * udp: datagram sockets

    Models [runtime/net/udp.c] with the wait queues of [runtime/net/waitq.h] and the buffer
    queue of [inc/net/mbufq.h].  Datagrams are sent and received as bytes through NetCore.
    A socket is a transition system: each section of code under a lock is one step, the two
    places that hold one lock while they wait for the other are states of their own, and
    what happens outside the locks (waking threads, the unlocked read of the error,
    releasing all waiters one by one) is a step for each access.  Threads that wait are in
    the lists of the wait queues.  Users of a socket follow its documentation: it is shut
    down at most once, and closed when no other call is in progress. *)

From S2P Require Import Prelude StdDef Transport Chksum Arp NetCore.

Definition UDP_IN_DEFAULT_CAP : Z := 512.
Definition UDP_OUT_DEFAULT_CAP : Z := 2048.
Definition EAGAIN : Z := 11.
Definition EPIPE : Z := 32.
Definition EDESTADDRREQ : Z := 89.
Definition EMSGSIZE : Z := 90.
Definition ENOBUFS : Z := 105.
Definition udp_hdr_len : nat := 8.
(** [MAKE_IP_ADDR(127, 0, 0, 1)]. *)
Definition IP_LOOPBACK : Z := 0x7f000001.

(** ** Datagrams *)

Definition no_loopback (c : net_cfg) (a : netaddr) : netaddr := if ip a =? IP_LOOPBACK then a <| ip := addr c |> else a.
(** [udp_init]. *)
Definition udp_payload_size (c : net_cfg) : Z := u32 (eth_mtu c - Z.of_nat (ip_hdr_len + udp_hdr_len)).

Definition udp_send_raw (c : net_cfg) (arp : Z -> arp_answer) (mem_ok spawn_ok : bool) (len : Z) (laddr raddr : netaddr) (b : buf) : option (Z * list tx * buf) :=
  let raddr := no_loopback c raddr in
  b ← mbuf_push (bytes_be16 (port laddr) ++ bytes_be16 (port raddr) ++ bytes_be16 (u16 (len + Z.of_nat udp_hdr_len)) ++ [0; 0]) b;
  net_tx_ip c arp mem_ok spawn_ok IPPROTO_UDP (ip raddr) b.

Definition local_addr (c : net_cfg) (a : netaddr) : option netaddr :=
  if ip a =? 0 then Some (a <| ip := addr c |>) else if ip a =? addr c then Some a else None.

(** [udp_send]: the result and what happens to the buffer. *)
Definition udp_send (c : net_cfg) (arp : Z -> arp_answer) (alloc_ok mem_ok spawn_ok : bool) (reserved payload : list Z) (laddr raddr : netaddr) : option (Z * list tx) :=
  let len := Z.of_nat (length payload) in
  if udp_payload_size c <? len then Some (- EMSGSIZE, [])
  else match local_addr c laddr with
  | None => Some (- EINVAL, [])
  | Some laddr =>
      if port laddr =? 0 then Some (- EINVAL, [])
      else
        let raddr := no_loopback c raddr in
        if negb alloc_ok then Some (- ENOBUFS, [])
        else
          m ← net_tx_alloc_mbuf c reserved;
          m ← mbuf_put payload m;
          '(ret, out, _) ← udp_send_raw c arp mem_ok spawn_ok len laddr raddr m;
          Some (if ret =? 0 then (len, out) else (ret, out ++ [FreeBuf]))
  end.
(** The loop of [udp_sendv]; the left result is too long a datagram. *)
Fixpoint put_iovs (psize len : Z) (iov : list (list Z)) (m : buf) : option (buf + buf * Z) :=
  match iov with
  | [] => Some (inr (m, len))
  | v :: iov =>
      let len := len + Z.of_nat (length v) in
      if psize <? len then Some (inl m) else m ← mbuf_put v m; put_iovs psize len iov m
  end.
Definition udp_sendv (c : net_cfg) (arp : Z -> arp_answer) (alloc_ok mem_ok spawn_ok : bool) (reserved : list Z) (iov : list (list Z)) (laddr raddr : netaddr) : option (Z * list tx) :=
  match local_addr c laddr with
  | None => Some (- EINVAL, [])
  | Some laddr =>
      if port laddr =? 0 then Some (- EINVAL, [])
      else
        let raddr := no_loopback c raddr in
        if negb alloc_ok then Some (- ENOBUFS, [])
        else
          m ← net_tx_alloc_mbuf c reserved;
          r ← put_iovs (udp_payload_size c) 0 iov m;
          match r with
          | inl _ => Some (- EMSGSIZE, [FreeBuf])
          | inr (m, len) =>
              '(ret, out, _) ← udp_send_raw c arp mem_ok spawn_ok len laddr raddr m;
              Some (if ret =? 0 then (len, out) else (ret, out ++ [FreeBuf]))
          end
  end.

(** A received datagram: what its headers say of its sender, and its data.  The transport
    offset was set to the data pointer by [net_rx_trans]. *)
Record dgram := Dgram { d_from : netaddr; d_data : list Z }.
Definition udp_pull (m : buf) : option (option dgram) :=
  iphdr ← mbuf_network_hdr ip_hdr_len m;
  Some (match mbuf_pull_or_null udp_hdr_len m with
        | None => None
        | Some (udphdr, m) => Some (Dgram (NetAddr (ip_saddr iphdr) (be (field 0 2 udphdr))) (data m))
        end).
(** [udp_par_recv]: the thread that is made for the datagram, with [udp_spawn_data]. *)
Inductive par_rx := ParDrop | ParSpawn (laddr : netaddr) (d : dgram).
Definition udp_par_recv (thread_ok : bool) (laddr : netaddr) (m : buf) : option par_rx :=
  d ← udp_pull m;
  Some (match d with None => ParDrop | Some d => if thread_ok then ParSpawn laddr d else ParDrop end).

(** ** Opening *)

Section Open.
Context (crc32 : Z -> Z -> Z) (seed : Z) (c : net_cfg).

Definition udp_bind (e : trans_entry) (s : trans) : Z * trans_entry * trans :=
  if port (e_laddr e) =? 0 then trans_table_add_with_ephemeral_port crc32 seed e s
  else let '(ret, s) := trans_table_add crc32 seed e s in (ret, e, s).
(** The socket [id], its entry, and whether the memory was given back. *)
Inductive opened := Open (e : trans_entry) | Refused (ret : Z) (freed : bool).
Definition udp_open (mem_ok : bool) (e : netaddr -> trans_entry) (laddr : netaddr) (bind : trans_entry -> trans -> Z * trans_entry * trans) (s : trans) : opened * trans :=
  match local_addr c laddr with
  | None => (Refused (- EINVAL) false, s)
  | Some laddr =>
      if negb mem_ok then (Refused (- ENOMEM) false, s)
      else let '(ret, e, s) := bind (e laddr) s in if ret =? 0 then (Open e, s) else (Refused ret true, s)
  end.
Definition udp_dial (mem_ok : bool) (id : nat) (laddr raddr : netaddr) : trans -> opened * trans :=
  udp_open mem_ok (fun laddr => trans_init_5tuple id IPPROTO_UDP laddr (no_loopback c raddr)) laddr udp_bind.
Definition udp_listen (mem_ok : bool) (id : nat) (laddr : netaddr) : trans -> opened * trans :=
  udp_open mem_ok (fun laddr => trans_init_3tuple id IPPROTO_UDP laddr) laddr udp_bind.
Definition udp_create_spawner (mem_ok : bool) (id : nat) (laddr : netaddr) : trans -> opened * trans :=
  udp_open mem_ok (fun laddr => trans_init_3tuple id IPPROTO_UDP laddr) laddr (fun e s => let '(ret, s) := trans_table_add crc32 seed e s in (ret, e, s)).
End Open.

(** ** A socket *)

Record udpconn := UdpConn {
  shutdown : bool; nonblocking : bool;
  inq_cap : Z; inq_len : Z; inq_err : Z; inq_wq : list nat; inq : list dgram;
  outq_free : bool; outq_cap : Z; outq_len : Z; outq_wq : list nat }.
#[global] Instance eta_udpconn : Settable udpconn := fun r =>
  UdpConn (shutdown r) (nonblocking r) (inq_cap r) (inq_len r) (inq_err r) (inq_wq r) (inq r) (outq_free r) (outq_cap r) (outq_len r) (outq_wq r).
Definition udp_init_conn : udpconn := UdpConn false false UDP_IN_DEFAULT_CAP 0 0 [] [] false UDP_OUT_DEFAULT_CAP 0 [].

(** [waitq_signal]: the first waiter leaves the queue. *)
Definition waitq_signal (q : list nat) : option nat * list nat := match q with [] => (None, []) | t :: q => (Some t, q) end.

(** [udp_conn_recv] under its lock: [None] when the datagram is dropped, and otherwise the
    waiter to wake. *)
Definition udp_conn_recv (d : dgram) (c : udpconn) : udpconn * option (option nat) :=
  if (inq_cap c <=? inq_len c) || negb (inq_err c =? 0) || shutdown c then (c, None)
  else
    let c := c <| inq := inq c ++ [d] |> <| inq_len := inq_len c + 1 |> in
    let '(th, q) := waitq_signal (inq_wq c) in (c <| inq_wq := q |>, Some th).
Definition udp_conn_err (err : Z) (c : udpconn) : udpconn * bool :=
  (c <| inq_err := err |>, (inq_err c =? 0) && negb (shutdown c)).

(** [udp_read_from] by thread [t] under its lock, until it waits or leaves. *)
Inductive read_result := ReadWaits | ReadFails (ret : Z) | ReadGets (d : dgram).
Definition udp_read_from (t : nat) (c : udpconn) : udpconn * read_result :=
  match inq c with
  | [] =>
      if (inq_err c =? 0) && negb (shutdown c) then
        if nonblocking c then (c, ReadFails (- EAGAIN)) else (c <| inq_wq := inq_wq c ++ [t] |>, ReadWaits)
      else if shutdown c then (c, ReadFails 0)
      else (c, ReadFails (- inq_err c))
  | d :: q =>
      if negb (inq_err c =? 0) then (c, ReadFails (- inq_err c))
      else (c <| inq := q |> <| inq_len := inq_len c - 1 |>, ReadGets d)
  end.
(** What the caller with a buffer of [len] bytes gets. *)
Definition read_copy (len : Z) (d : dgram) : Z * list Z :=
  let ret := Z.min len (Z.of_nat (length (d_data d))) in (ret, take (Z.to_nat ret) (d_data d)).

(** [udp_write_to] before its lock: the destination, or an error. *)
Definition udp_write_dest (cfg : net_cfg) (e : trans_entry) (len : Z) (raddr : option netaddr) : Z + netaddr :=
  if udp_payload_size cfg <? len then inl (- EMSGSIZE)
  else match raddr with
  | None => if bool_decide (e_match e = TRANS_MATCH_3TUPLE) then inl (- EDESTADDRREQ) else inr (e_raddr e)
  | Some a => inr (no_loopback cfg a)
  end.
(** Under its lock, until it waits or leaves. *)
Inductive write_result := WriteWaits | WriteFails (ret : Z) | WriteGoes.
Definition udp_write_to (t : nat) (c : udpconn) : udpconn * write_result :=
  if (outq_cap c <=? outq_len c) && negb (shutdown c) then
    if nonblocking c then (c, WriteFails (- EAGAIN)) else (c <| outq_wq := outq_wq c ++ [t] |>, WriteWaits)
  else if shutdown c then (c, WriteFails (- EPIPE))
  else (c <| outq_len := outq_len c + 1 |>, WriteGoes).
(** After it: the buffer is sent, or the error returned without touching the socket
    again. *)
Definition udp_write_send (cfg : net_cfg) (arp : Z -> arp_answer) (alloc_ok mem_ok spawn_ok : bool) (reserved payload : list Z) (laddr raddr : netaddr) : option (Z * list tx) :=
  if negb alloc_ok then Some (- ENOBUFS, [])
  else
    m ← net_tx_alloc_mbuf cfg reserved;
    m ← mbuf_put payload m;
    '(ret, out, _) ← udp_send_raw cfg arp mem_ok spawn_ok (Z.of_nat (length payload)) laddr raddr m;
    Some (if ret =? 0 then (Z.of_nat (length payload), out) else (ret, out ++ [FreeBuf])).

(** [udp_tx_release_mbuf] under its lock: the waiter to wake and whether the socket is to
    be freed. *)
Definition udp_tx_release_mbuf (c : udpconn) : udpconn * option nat * bool :=
  let c := c <| outq_len := outq_len c - 1 |> in
  let free_conn := outq_free c && (outq_len c =? 0) in
  if shutdown c then (c, None, free_conn)
  else let '(th, q) := waitq_signal (outq_wq c) in (c <| outq_wq := q |>, th, free_conn).

(** [__udp_shutdown] under both locks; [None] is the failed [BUG_ON]. *)
Definition udp_shutdown_locked (c : udpconn) : option udpconn := if shutdown c then None else Some (c <| shutdown := true |>).
(** The section of [udp_close] under the lock. *)
Definition udp_close_locked (c : udpconn) : udpconn * bool := (c <| outq_free := true |>, outq_len c =? 0).
(** [udp_set_nonblocking] under both locks: the threads that it wakes. *)
Definition udp_set_nonblocking (b : bool) (c : udpconn) : udpconn * list nat :=
  let c := c <| nonblocking := b |> in
  if b then (c <| inq_wq := [] |> <| outq_wq := [] |>, inq_wq c ++ outq_wq c) else (c, []).
Definition udp_set_buffers (read_mbufs write_mbufs : Z) (c : udpconn) : udpconn := c <| inq_cap := read_mbufs |> <| outq_cap := write_mbufs |>.

(** ** Threads *)

(** Where a thread is.  Error numbers are positive; [k] says whether [__udp_shutdown] was
    called by [udp_close]. *)
Inductive pc :=
| PRecv (d : dgram) | PWake (th : option nat)
| PErr (err : positive) | PErrRelease
| PRead (len : Z) | PReadWait (len : Z)
| PWrite | PWriteWait | PSend
| PRel | PRelWake (th : option nat) (free_conn : bool) | PPut
| PShut (k : bool) | PShutHalf (k : bool) | PShutRemove (k : bool) | PShutCheck | PShutIn | PShutOut
| PClose | PCloseCheck | PCloseDrain | PCloseLock
| PNb (b : bool) | PNbHalf (b : bool).

(** Calls of the user other than [udp_close], and calls from the receive path, which run in
    an RCU section. *)
Definition user (p : pc) : bool :=
  match p with
  | PRead _ | PReadWait _ | PWrite | PWriteWait | PSend | PNb _ | PNbHalf _ | PShutCheck | PShutIn | PShutOut => true
  | PShut k | PShutHalf k | PShutRemove k => negb k
  | _ => false
  end.
Definition reader (p : pc) : bool := match p with PRecv _ | PWake _ | PErr _ | PErrRelease => true | _ => false end.

(** The socket with the owners of its locks, whether it is in the table of the transport
    layer, buffers that the network card or ARP has, threads, how often it was released and
    whether its memory was freed.  Then what happened: calls of [udp_shutdown] and
    [udp_close], changes of the buffer sizes, datagrams that were queued, read (with the
    size of the reader's buffer) and discarded, and writes that failed after they took a
    slot. *)
Record sys := Sys {
  sock : udpconn; inq_lock : option nat; outq_lock : option nat; bound : bool; inflight : nat; pcs : gmap nat pc; puts : nat; freed : bool;
  shut_called : bool; closed : bool; resized : bool; accepted : list dgram; delivered : list (Z * dgram); discarded : list dgram; leaked : nat }.
#[global] Instance eta_sys : Settable sys := fun r =>
  Sys (sock r) (inq_lock r) (outq_lock r) (bound r) (inflight r) (pcs r) (puts r) (freed r)
      (shut_called r) (closed r) (resized r) (accepted r) (delivered r) (discarded r) (leaked r).

Definition goto (t : nat) (p : option pc) (s : sys) : sys := s <| pcs := partial_alter (fun _ => p) t (pcs s) |>.
(** [thread_ready]: a thread that waits tries to take the lock again. *)
Definition ready (p : pc) : pc := match p with PReadWait len => PRead len | PWriteWait => PWrite | _ => p end.
Definition wake (u : nat) (s : sys) : sys := s <| pcs := alter ready u (pcs s) |>.
Definition waitq_signal_finish (th : option nat) (s : sys) : sys := match th with Some u => wake u s | None => s end.
Definition wake_all (l : list nat) (s : sys) : sys := fold_left (fun s u => wake u s) l s.

(** The application calls [udp_shutdown] at most once ([BUG_ON] for a second call), and
    [udp_close] once, when its other calls have returned. *)
Inductive step : sys -> sys -> Prop :=
| StartRecv s t d : pcs s !! t = None -> bound s = true -> step s (goto t (Some (PRecv d)) s)
| StartErr s t err : pcs s !! t = None -> bound s = true -> step s (goto t (Some (PErr err)) s)
| StartRead s t len : pcs s !! t = None -> closed s = false -> 0 <= len -> step s (goto t (Some (PRead len)) s)
| StartWrite s t : pcs s !! t = None -> closed s = false -> step s (goto t (Some PWrite) s)
| StartNb s t b : pcs s !! t = None -> closed s = false -> step s (goto t (Some (PNb b)) s)
| StartShut s t : pcs s !! t = None -> closed s = false -> shut_called s = false -> step s (goto t (Some (PShut false)) (s <| shut_called := true |>))
| StartClose s t : pcs s !! t = None -> closed s = false -> (forall u p, pcs s !! u = Some p -> user p = false) ->
    step s (goto t (Some PClose) (s <| closed := true |>))
| SetBuffers s rd wr : closed s = false -> step s (s <| sock := udp_set_buffers rd wr (sock s) |> <| resized := true |>)
| Completed s t n : pcs s !! t = None -> inflight s = S n -> step s (goto t (Some PRel) (s <| inflight := n |>))
| RecvLocked s t d : pcs s !! t = Some (PRecv d) -> inq_lock s = None ->
    step s (let '(c, r) := udp_conn_recv d (sock s) in
            match r with
            | None => goto t None (s <| sock := c |>)
            | Some th => goto t (Some (PWake th)) (s <| sock := c |> <| accepted := accepted s ++ [d] |>)
            end)
| RecvWake s t th : pcs s !! t = Some (PWake th) -> step s (goto t None (waitq_signal_finish th s))
| ErrLocked s t err : pcs s !! t = Some (PErr err) -> inq_lock s = None ->
    step s (let '(c, do_release) := udp_conn_err (Z.pos err) (sock s) in goto t (if do_release then Some PErrRelease else None) (s <| sock := c |>))
| ReleaseIn s t p u q : pcs s !! t = Some p -> p = PErrRelease \/ p = PShutIn -> inq_wq (sock s) = u :: q ->
    step s (wake u (s <| sock := sock s <| inq_wq := q |> |>))
| ReleasedIn s t p : pcs s !! t = Some p -> p = PErrRelease \/ p = PShutIn -> inq_wq (sock s) = [] ->
    step s (goto t (if p is PShutIn then Some PShutOut else None) s)
| ReadLocked s t len : pcs s !! t = Some (PRead len) -> inq_lock s = None ->
    step s (let '(c, r) := udp_read_from t (sock s) in
            match r with
            | ReadWaits => goto t (Some (PReadWait len)) (s <| sock := c |>)
            | ReadFails _ => goto t None (s <| sock := c |>)
            | ReadGets d => goto t None (s <| sock := c |> <| delivered := delivered s ++ [(len, d)] |>)
            end)
| WriteLocked s t : pcs s !! t = Some PWrite -> outq_lock s = None ->
    step s (let '(c, r) := udp_write_to t (sock s) in
            goto t (match r with WriteWaits => Some PWriteWait | WriteFails _ => None | WriteGoes => Some PSend end) (s <| sock := c |>))
| Sent s t (ok : bool) : pcs s !! t = Some PSend ->
    step s (goto t None (if ok then s <| inflight := S (inflight s) |> else s <| leaked := S (leaked s) |>))
| RelLocked s t : pcs s !! t = Some PRel -> outq_lock s = None ->
    step s (let '(c, th, free_conn) := udp_tx_release_mbuf (sock s) in goto t (Some (PRelWake th free_conn)) (s <| sock := c |>))
| RelWake s t th free_conn : pcs s !! t = Some (PRelWake th free_conn) ->
    step s (goto t (if free_conn then Some PPut else None) (waitq_signal_finish th s))
| Put s t : pcs s !! t = Some PPut -> step s (goto t None (s <| puts := S (puts s) |>))
| ShutFirst s t k : pcs s !! t = Some (PShut k) -> inq_lock s = None -> step s (goto t (Some (PShutHalf k)) (s <| inq_lock := Some t |>))
| ShutSecond s t k c : pcs s !! t = Some (PShutHalf k) -> outq_lock s = None -> udp_shutdown_locked (sock s) = Some c ->
    step s (goto t (Some (PShutRemove k)) (s <| sock := c |> <| inq_lock := None |>))
| ShutRemove s t k : pcs s !! t = Some (PShutRemove k) -> step s (goto t (Some (if k then PCloseCheck else PShutCheck)) (s <| bound := false |>))
| ShutCheck s t : pcs s !! t = Some PShutCheck -> step s (goto t (Some (if inq_err (sock s) =? 0 then PShutIn else PShutOut)) s)
| ReleaseOut s t u q : pcs s !! t = Some PShutOut -> outq_wq (sock s) = u :: q -> step s (wake u (s <| sock := sock s <| outq_wq := q |> |>))
| ReleasedOut s t : pcs s !! t = Some PShutOut -> outq_wq (sock s) = [] -> step s (goto t None s)
| CloseStart s t : pcs s !! t = Some PClose -> step s (goto t (Some (if shutdown (sock s) then PCloseCheck else PShut true)) s)
| CloseCheck s t : pcs s !! t = Some PCloseCheck -> inq_wq (sock s) = [] -> outq_wq (sock s) = [] -> step s (goto t (Some PCloseDrain) s)
| CloseDrain s t d q : pcs s !! t = Some PCloseDrain -> inq (sock s) = d :: q ->
    step s (s <| sock := sock s <| inq := q |> |> <| discarded := discarded s ++ [d] |>)
| CloseDrained s t : pcs s !! t = Some PCloseDrain -> inq (sock s) = [] -> step s (goto t (Some PCloseLock) s)
| CloseLocked s t : pcs s !! t = Some PCloseLock -> outq_lock s = None ->
    step s (let '(c, free_conn) := udp_close_locked (sock s) in goto t (if free_conn then Some PPut else None) (s <| sock := c |>))
| NbFirst s t b : pcs s !! t = Some (PNb b) -> outq_lock s = None -> step s (goto t (Some (PNbHalf b)) (s <| outq_lock := Some t |>))
| NbSecond s t b : pcs s !! t = Some (PNbHalf b) -> inq_lock s = None ->
    step s (let '(c, l) := udp_set_nonblocking b (sock s) in goto t None (wake_all l (s <| sock := c |> <| outq_lock := None |>)))
| Freed s : (0 < puts s)%nat -> (forall u p, pcs s !! u = Some p -> reader p = false) -> step s (s <| freed := true |>).

Definition udp_new : sys := Sys udp_init_conn None None true 0 ∅ 0 false false false false [] [] [] 0.
Inductive reachable : sys -> Prop :=
| RInit : reachable udp_new
| RStep s s' : reachable s -> step s s' -> reachable s'.
