(* ===== verification/UdpSpec.v ===== *)
(** * udp: what a socket guarantees, and where it hangs

    Invariants of the transition system of Udp: datagrams are read in the order of their
    arrival, the queues are bounded, no thread sleeps while there is something for it to do,
    a closed socket is released once and its memory is not used afterwards.  Then the
    executions in which a thread is not woken, two calls wait for each other, or slots of
    the send queue are lost. *)

From S2P Require Import Prelude StdDef Transport Chksum Arp ArpSpec Bags NetCore Udp.

(** ** Threads by what they are doing *)

Definition w_user (p : pc) : Z := if user p then 1 else 0.
Definition w_rcu (p : pc) : Z := if reader p then 1 else 0.
(** In [udp_close], before the socket is marked. *)
Definition w_close (p : pc) : Z :=
  match p with PShut k | PShutHalf k | PShutRemove k => Z.b2z k | PClose | PCloseCheck | PCloseDrain | PCloseLock => 1 | _ => 0 end.
Definition w_start (p : pc) : Z := match p with PClose => 1 | _ => 0 end.
Definition w_shut (p : pc) : Z := match p with PShut _ | PShutHalf _ => 1 | _ => 0 end.
Definition w_remove (p : pc) : Z := match p with PShutRemove _ => 1 | _ => 0 end.
Definition w_past (p : pc) : Z := match p with PShutCheck | PShutIn | PShutOut | PCloseCheck | PCloseDrain | PCloseLock => 1 | _ => 0 end.
Definition w_drained (p : pc) : Z := match p with PCloseLock => 1 | _ => 0 end.
Definition w_slot (p : pc) : Z := match p with PSend | PRel => 1 | _ => 0 end.
Definition w_put (p : pc) : Z := match p with PPut | PRelWake _ true => 1 | _ => 0 end.
(** Threads that will look at the queue: readers that are awake, and those that wake one. *)
Definition w_read (p : pc) : Z := match p with PRead _ | PWake (Some _) => 1 | _ => 0 end.
Definition w_write (p : pc) : Z := match p with PWrite | PRelWake (Some _) _ => 1 | _ => 0 end.
(** About to wake [u]. *)
Definition w_in (u : nat) (p : pc) : Z := match p with PWake (Some v) => if decide (v = u) then 1 else 0 | _ => 0 end.
Definition w_out (u : nat) (p : pc) : Z := match p with PRelWake (Some v) _ => if decide (v = u) then 1 else 0 | _ => 0 end.
Definition w_rwait (p : pc) : Z := match p with PReadWait _ => 1 | _ => 0 end.
Definition w_wwait (p : pc) : Z := match p with PWriteWait => 1 | _ => 0 end.

Lemma w_user_pos p : 0 <= w_user p. Proof. unfold w_user. by destruct (user p). Qed.
Lemma w_close_pos p : 0 <= w_close p. Proof. destruct p as [| | | | | | | | | | | |[]|[]|[]| | | | | | | | |]; simpl; lia. Qed.
Lemma w_rcu_pos p : 0 <= w_rcu p. Proof. unfold w_rcu. by destruct (reader p). Qed.
Lemma w_in_pos u p : 0 <= w_in u p. Proof. destruct p; simpl; try lia. destruct th; [|lia]. case_decide; lia. Qed.
Lemma w_out_pos u p : 0 <= w_out u p. Proof. destruct p; simpl; try lia. destruct th; [|lia]. case_decide; lia. Qed.
Lemma w_slot_pos p : 0 <= w_slot p. Proof. destruct p; simpl; lia. Qed.
Lemma w_put_pos p : 0 <= w_put p. Proof. destruct p; simpl; try lia. by destruct free_conn. Qed.
Lemma w_read_pos p : 0 <= w_read p. Proof. destruct p; simpl; try lia. destruct th; lia. Qed.
Lemma w_write_pos p : 0 <= w_write p. Proof. destruct p; simpl; try lia. destruct th; lia. Qed.
Lemma w_past_pos p : 0 <= w_past p. Proof. destruct p; simpl; lia. Qed.
Lemma w_remove_pos p : 0 <= w_remove p. Proof. destruct p; simpl; lia. Qed.
Lemma w_shut_pos p : 0 <= w_shut p. Proof. destruct p; simpl; lia. Qed.
Lemma w_start_pos p : 0 <= w_start p. Proof. destruct p; simpl; lia. Qed.
Lemma w_drained_pos p : 0 <= w_drained p. Proof. destruct p; simpl; lia. Qed.
#[export] Hint Resolve w_user_pos w_close_pos w_rcu_pos w_in_pos w_out_pos w_slot_pos w_put_pos w_read_pos w_write_pos w_past_pos w_remove_pos w_shut_pos w_start_pos
  w_drained_pos : weights.

Lemma chains_le m : tally w_shut m + tally w_remove m + tally w_start m <= tally w_user m + tally w_close m.
Proof.
  rewrite <- !tally_add. apply tally_le. intros p. destruct p as [| | | | | | | | | | | |[]|[]|[]| | | | | | | | |]; unfold w_user; simpl; lia.
Qed.

(** Waking a thread that waits. *)
Lemma alter_ready (m : gmap nat pc) u p : m !! u = Some p -> alter ready u m = partial_alter (fun _ => Some (ready p)) u m.
Proof.
  intros E. apply map_eq. intros v.
  destruct (decide (u = v)) as [<- |]; [by rewrite lookup_alter_eq, lookup_partial_alter_eq, E|by rewrite lookup_alter_ne, lookup_partial_alter_ne].
Qed.
Lemma wake_ready u p s : pcs s !! u = Some p -> wake u s = goto u (Some (ready p)) s.
Proof. intros H. unfold wake, goto. by rewrite (alter_ready _ _ _ H). Qed.
(** Waking does not change a weight that does not tell a waiting thread from an awake one. *)
Lemma tally_wake w u m : (forall p, w (ready p) = w p) -> tally w (alter ready u m) = tally w m.
Proof.
  intros Hw. destruct (m !! u) as [p|] eqn:E; [rewrite (alter_ready _ _ _ E), tally_set, E; simpl; rewrite Hw; lia|].
  f_equal. apply map_eq. intros v. destruct (decide (u = v)) as [<- |]; [by rewrite lookup_alter_eq, E|by rewrite lookup_alter_ne].
Qed.

(** ** Shutting down and closing *)

Record life (s : sys) : Prop := {
  l_user : closed s = true -> tally w_user (pcs s) = 0;
  l_close : tally w_close (pcs s) + Z.b2z (outq_free (sock s)) = Z.b2z (closed s);
  l_shut : tally w_shut (pcs s) + Z.b2z (shutdown (sock s)) <= 1;
  l_fresh : shut_called s = false -> closed s = false -> tally w_shut (pcs s) + Z.b2z (shutdown (sock s)) = 0;
  l_bound : Z.b2z (shutdown (sock s)) = Z.b2z (negb (bound s)) + tally w_remove (pcs s);
  l_past : 0 < tally w_past (pcs s) + Z.b2z (outq_free (sock s)) -> bound s = false }.

(** What [life] depends on. *)
Lemma life_ext s s' : life s -> closed s' = closed s -> outq_free (sock s') = outq_free (sock s) -> shutdown (sock s') = shutdown (sock s) ->
  shut_called s' = shut_called s -> bound s' = bound s ->
  (forall w, w = w_user \/ w = w_close \/ w = w_shut \/ w = w_remove \/ w = w_past -> tally w (pcs s') = tally w (pcs s)) -> life s'.
Proof.
  intros [? ? ? ? ? ?] E1 E2 E3 E4 E5 Ht. pose proof (Ht w_user) as T1. pose proof (Ht w_close) as T2. pose proof (Ht w_shut) as T3. pose proof (Ht w_remove) as T4. pose proof (Ht w_past) as T5.
  constructor; rewrite ?E1, ?E2, ?E3, ?E4, ?E5, ?T1, ?T2, ?T3, ?T4, ?T5 by tauto; done.
Qed.
Lemma life_wake u s : life s -> life (wake u s).
Proof. intros L. apply (life_ext s); try done. intros w Hw. apply tally_wake. intros p. by destruct Hw as [-> |[-> |[-> |[-> | ->]]]], p. Qed.
Lemma life_wakes l s : life s -> life (wake_all l s).
Proof. unfold wake_all. revert s. induction l as [|u l IH]; intros s L; [done|]. simpl. apply IH. by apply life_wake. Qed.

(** A thread moves and nothing else that matters changes. *)
Lemma life_move s s' t o o' : life s -> pcs s !! t = o -> pcs s' = partial_alter (fun _ => o') t (pcs s) ->
  closed s' = closed s -> outq_free (sock s') = outq_free (sock s) -> shutdown (sock s') = shutdown (sock s) -> shut_called s' = shut_called s -> bound s' = bound s ->
  weight w_close o' = weight w_close o -> weight w_shut o' = weight w_shut o -> weight w_remove o' = weight w_remove o -> weight w_past o' <= weight w_past o ->
  (closed s = true -> weight w_user o' <= weight w_user o) -> life s'.
Proof.
  intros [L1 L2 L3 L4 L5 L6] Ho Ep E1 E2 E3 E4 E5 W1 W2 W3 W4 W5. pose proof (tally_nonneg w_user (pcs s') w_user_pos) as N.
  rewrite Ep, tally_set, Ho in N. constructor; rewrite ?E1, ?E2, ?E3, ?E4, ?E5, ?Ep, ?tally_set, ?Ho; intros; try lia; try (specialize (L4 ltac:(done) ltac:(done)); lia).
  - specialize (L1 ltac:(done)). specialize (W5 ltac:(done)). lia.
  - apply L6. lia.
Qed.
Ltac cases :=
  unfold udp_conn_recv, udp_conn_err, udp_read_from, udp_write_to, udp_tx_release_mbuf, udp_close_locked, waitq_signal in *;
  repeat (case_match; simplify_eq/=).
Ltac step_cases H :=
  destruct H as [s t d H Hb|s t err H Hb|s t len H Hcl Hlen|s t H Hcl|s t b H Hcl|s t H Hcl Hsh|s t H Hcl Hu|s rd wr Hcl|s t n H Hn|s t d H Hl|s t th H|s t err H Hl
    |s t p u q H Hp Hq|s t p H Hp Hq|s t len H Hl|s t H Hl|s t ok H|s t H Hl|s t th fr H|s t H|s t k H Hl|s t k c H Hl Hs|s t k H|s t H|s t u q H Hq|s t H Hq
    |s t H|s t H Hi Ho|s t d q H Hq|s t H Hq|s t H Hl|s t b H Hl|s t b H Hl|s Hp Hr].

Lemma wake_lookup u t p s : pcs s !! t = Some p -> ready p = p -> pcs (wake u s) !! t = Some p.
Proof. intros H Hr. simpl. destruct (decide (u = t)) as [-> |]; [by rewrite lookup_alter_eq, H; simpl; rewrite Hr|by rewrite lookup_alter_ne]. Qed.
Lemma wake_all_lookup l t p s : pcs s !! t = Some p -> ready p = p -> pcs (wake_all l s) !! t = Some p.
Proof. unfold wake_all. revert s. induction l as [|u l IH]; intros s H Hr; [done|]. simpl. apply IH; [|done]. by apply wake_lookup. Qed.
Lemma finish_lookup th t p s : pcs s !! t = Some p -> ready p = p -> pcs (waitq_signal_finish th s) !! t = Some p.
Proof. destruct th; [apply wake_lookup|done]. Qed.
Lemma life_finish th s : life s -> life (waitq_signal_finish th s).
Proof. destruct th; [apply life_wake|done]. Qed.
(** Changes of the socket that [life] does not see. *)
Lemma life_sock s c : life s -> outq_free c = outq_free (sock s) -> shutdown c = shutdown (sock s) -> life (s <| sock := c |>).
Proof. intros L ? ?. by apply (life_ext s). Qed.

Ltac fields := unfold goto; cbn [waitq_signal_finish sock inq_lock outq_lock bound inflight pcs puts freed shut_called closed resized accepted delivered discarded leaked set eta_sys
  shutdown nonblocking inq_cap inq_len inq_err inq_wq inq outq_free outq_cap outq_len outq_wq eta_udpconn fst snd].
Ltac weigh H := rewrite ?tally_set, ?H; cbn [weight w_user w_close w_start w_shut w_remove w_past w_drained w_slot w_put w_read w_write w_rcu user reader negb Z.b2z].
Ltac life_hyp :=
  match goal with
  | H : 0 < _ + _ -> ?g |- ?g => apply H; lia
  | H : _ = true -> tally w_user _ = 0 |- _ => specialize (H ltac:(assumption || congruence)); lia
  | H : _ = false -> _ = false -> _ |- _ => specialize (H ltac:(done || congruence) ltac:(done || congruence)); lia
  end.
Lemma b2z_range b : 0 <= Z.b2z b <= 1.
Proof. by destruct b. Qed.
(** A thread moves in a way that matters for [life]. *)
Ltac life_lia H :=
  match goal with L : life ?s |- _ =>
    pose proof (chains_le (pcs s)) as Hch; pose proof (tally_nonneg w_start (pcs s) w_start_pos); pose proof (tally_nonneg w_shut (pcs s) w_shut_pos);
    pose proof (tally_nonneg w_remove (pcs s) w_remove_pos); pose proof (tally_nonneg w_past (pcs s) w_past_pos);
    pose proof (b2z_range (shutdown (sock s))); pose proof (b2z_range (negb (bound s))); pose proof (b2z_range (outq_free (sock s))); pose proof (b2z_range (closed s));
    destruct L as [L1 L2 L3 L4 L5 L6] end;
  constructor; fields; weigh H; intros;
  first [lia | congruence | life_hyp | idtac].

Lemma tally_none (f : pc -> bool) m : (forall u p, m !! u = Some p -> f p = false) -> tally (fun p => if f p then 1 else 0) m = 0.
Proof.
  induction m as [|k x m Hk IH] using map_ind; intros H; [by rewrite tally_empty|]. rewrite tally_insert by done.
  rewrite IH; [|intros u p Hu; apply (H u); rewrite lookup_insert_ne; [done|congruence]]. by rewrite (H k x (lookup_insert_eq _ _ _)).
Qed.

Lemma life_step s s' : life s -> step s s' -> life s'.
Proof.
  intros L H. step_cases H; try (cases; (eapply (life_move s _ t); [done|exact H|reflexivity|done|done|done|done|done|done|done|done|done|cbn; intros; done || congruence]); fail).
  - life_lia H.
  - assert (tally w_user (pcs s) = 0) as Hu0 by exact (tally_none user _ Hu). pose proof (l_close s L) as Lc. rewrite Hcl in Lc. simpl in Lc. life_lia H.
  - by apply (life_ext s).
  - eapply (life_move (waitq_signal_finish th s) _ t); [by apply life_finish|by apply finish_lookup|done..].
  - by apply life_wake, (life_sock s).
  - destruct Hp as [-> | ->]; (eapply (life_move s _ t); [done|exact H|reflexivity|done..]).
  - destruct fr; (eapply (life_move (waitq_signal_finish th s) _ t); [by apply life_finish|by apply finish_lookup|done..]).
  - unfold udp_shutdown_locked in Hs. destruct (shutdown (sock s)) eqn:Es; simplify_eq. assert (Z.b2z (shutdown (sock s)) = 0) by (by rewrite Es). destruct k; life_lia H.
  - pose proof (tally_ge w_remove _ _ _ w_remove_pos H) as Hge. simpl in Hge. destruct k; life_lia H.
  - by apply life_wake, (life_sock s).
  - pose proof (tally_ge w_start _ _ _ w_start_pos H) as Hge. pose proof (tally_ge w_close _ _ _ w_close_pos H) as Hge2. simpl in Hge, Hge2.
    assert (closed s = true) as Hcl by (pose proof (l_close s L) as Lc; destruct (closed s); [done|destruct (outq_free (sock s)); simpl in Lc; lia]).
    pose proof (l_user s L Hcl). pose proof (l_close s L) as Lc. rewrite Hcl in Lc. simpl in Lc. destruct (shutdown (sock s)) eqn:Es.
    + assert (Z.b2z (shutdown (sock s)) = 1) by (by rewrite Es). life_lia H. destruct (bound s); [simpl in *; lia|done].
    + assert (Z.b2z (shutdown (sock s)) = 0) by (by rewrite Es). life_lia H.
  - by apply (life_ext s).
  - pose proof (tally_ge w_close _ _ _ w_close_pos H) as Hge. pose proof (tally_ge w_past _ _ _ w_past_pos H) as Hge2. simpl in Hge, Hge2.
    cbn. destruct (outq_len (sock s) =? 0); life_lia H.
  - destruct (udp_set_nonblocking b (sock s)) as [c l] eqn:E. assert (outq_free c = outq_free (sock s) /\ shutdown c = shutdown (sock s)) as [? ?] by (by destruct b; simplify_eq/=).
    eapply (life_move (wake_all l (s <| sock := c |> <| outq_lock := None |>)) _ t); [apply life_wakes; by apply (life_ext s)|by apply wake_all_lookup|done..].
  - by apply (life_ext s).
Qed.

Lemma life_reachable s : reachable s -> life s.
Proof. induction 1 as [|s s' _ IH H]; [|by apply (life_step s)]. constructor; simpl; rewrite ?tally_empty; done. Qed.

(** ** Waiting *)

(** A thread that waits is in the wait queue, or about to be woken, and only once; [x] and
    [y] count wake-ups on the way. *)
Record waits (x y : nat -> Z) (s : sys) : Prop := {
  q_in : forall u, Z.of_nat (occ u (inq_wq (sock s))) + x u + tally (w_in u) (pcs s) = weight w_rwait (pcs s !! u);
  q_out : forall u, Z.of_nat (occ u (outq_wq (sock s))) + y u + tally (w_out u) (pcs s) = weight w_wwait (pcs s !! u) }.
Definition none : nat -> Z := fun _ => 0.
Definition one (v u : nat) : Z := Z.of_nat (occ u [v]).
Definition at_ (t : nat) (n : Z) (u : nat) : Z := if decide (u = t) then n else 0.

Lemma waits_move x y x' y' s s' t o o' : waits x y s -> pcs s !! t = o -> pcs s' = partial_alter (fun _ => o') t (pcs s) ->
  (forall u, Z.of_nat (occ u (inq_wq (sock s'))) + x' u + weight (w_in u) o' + at_ t (weight w_rwait o) u =
             Z.of_nat (occ u (inq_wq (sock s))) + x u + weight (w_in u) o + at_ t (weight w_rwait o') u) ->
  (forall u, Z.of_nat (occ u (outq_wq (sock s'))) + y' u + weight (w_out u) o' + at_ t (weight w_wwait o) u =
             Z.of_nat (occ u (outq_wq (sock s))) + y u + weight (w_out u) o + at_ t (weight w_wwait o') u) -> waits x' y' s'.
Proof.
  intros [Wi Wo] Ho Ep Hi Hy. unfold at_ in *. split; intros u; rewrite Ep, tally_set, Ho.
  - specialize (Wi u). specialize (Hi u). destruct (decide (u = t)) as [-> |]; [rewrite lookup_partial_alter_eq; rewrite Ho in Wi|rewrite lookup_partial_alter_ne by done]; lia.
  - specialize (Wo u). specialize (Hy u). destruct (decide (u = t)) as [-> |]; [rewrite lookup_partial_alter_eq; rewrite Ho in Wo|rewrite lookup_partial_alter_ne by done]; lia.
Qed.
Lemma at_zero t u : at_ t 0 u = 0.
Proof. unfold at_. by case_decide. Qed.
Lemma at_one t u : at_ t 1 u = one t u.
Proof. unfold at_, one, occ. rewrite filter_cons, filter_nil. repeat case_decide; done || congruence. Qed.
Lemma w_in_one u v : w_in u (PWake (Some v)) = one v u.
Proof. unfold one, occ. simpl. rewrite filter_cons, filter_nil. by case_decide. Qed.
Lemma w_out_one u v b : w_out u (PRelWake (Some v) b) = one v u.
Proof. unfold one, occ. simpl. rewrite filter_cons, filter_nil. by case_decide. Qed.
Lemma one_self u : one u u = 1.
Proof. unfold one. by rewrite occ_self. Qed.
Lemma occ_one v u q : Z.of_nat (occ u (v :: q)) = one v u + Z.of_nat (occ u q).
Proof. unfold one. rewrite occ_cons. lia. Qed.
Lemma occ_last v u q : Z.of_nat (occ u (q ++ [v])) = Z.of_nat (occ u q) + one v u.
Proof. unfold one. rewrite occ_app. lia. Qed.

(** A thread with a wake-up on its way waits. *)
Lemma waits_in x y s u : waits x y s -> 0 < Z.of_nat (occ u (inq_wq (sock s))) + x u + tally (w_in u) (pcs s) -> exists len, pcs s !! u = Some (PReadWait len).
Proof. intros [Wi _] H. rewrite Wi in H. destruct (pcs s !! u) as [[]|]; simpl in H; try lia. by eexists. Qed.
Lemma waits_out x y s u : waits x y s -> 0 < Z.of_nat (occ u (outq_wq (sock s))) + y u + tally (w_out u) (pcs s) -> pcs s !! u = Some PWriteWait.
Proof. intros [_ Wo] H. rewrite Wo in H. destruct (pcs s !! u) as [[]|]; simpl in H; try lia. done. Qed.
Lemma waits_wake_in x y s u len : waits x y s -> pcs s !! u = Some (PReadWait len) -> waits (fun v => x v - one u v) y (wake u s).
Proof.
  intros W H. rewrite (wake_ready _ _ _ H). eapply (waits_move _ _ _ _ s); [done|exact H|reflexivity|intros v; simpl; rewrite at_zero, at_one; lia|intros v; simpl; rewrite !at_zero; lia].
Qed.
Lemma waits_wake_out x y s u : waits x y s -> pcs s !! u = Some PWriteWait -> waits x (fun v => y v - one u v) (wake u s).
Proof.
  intros W H. rewrite (wake_ready _ _ _ H). eapply (waits_move _ _ _ _ s); [done|exact H|reflexivity|intros v; simpl; rewrite !at_zero; lia|intros v; simpl; rewrite at_zero, at_one; lia].
Qed.
Lemma waits_ext x y x' y' s s' : waits x y s -> pcs s' = pcs s ->
  (forall u, Z.of_nat (occ u (inq_wq (sock s'))) + x' u = Z.of_nat (occ u (inq_wq (sock s))) + x u) ->
  (forall u, Z.of_nat (occ u (outq_wq (sock s'))) + y' u = Z.of_nat (occ u (outq_wq (sock s))) + y u) -> waits x' y' s'.
Proof. intros [Wi Wo] Ep Hi Hy. split; intros u; rewrite Ep; [rewrite <- Wi; specialize (Hi u)|rewrite <- Wo; specialize (Hy u)]; lia. Qed.
Lemma wake_all_sock l s : sock (wake_all l s) = sock s.
Proof. unfold wake_all. revert s. induction l as [|u l IH]; intros s; [done|]. simpl. by rewrite IH. Qed.
Ltac waits_lia :=
  intros; fields; rewrite ?wake_all_sock; unfold wake; fields; cbn [weight]; rewrite ?w_in_one, ?w_out_one; cbn [w_in w_out w_rwait w_wwait]; rewrite ?at_zero, ?at_one, ?occ_last;
  repeat match goal with H : ?q = _ :: _ |- context [?q] => rewrite H end; repeat match goal with H : ?q = [] |- context [?q] => rewrite H end; rewrite ?occ_one, ?occ_nil; unfold none; cbv beta; lia.

Lemma waits_wakes l k s : waits (fun u => Z.of_nat (occ u l)) (fun u => Z.of_nat (occ u k)) s -> waits none none (wake_all (l ++ k) s).
Proof.
  unfold wake_all. revert s. induction l as [|u l IH]; intros s W; simpl.
  - revert s W. induction k as [|u k IH]; intros s W; simpl; [by apply (waits_ext _ _ none none s s W)|]. apply IH.
    assert (pcs s !! u = Some PWriteWait) as H.
    { apply (waits_out _ _ _ u W). pose proof (tally_nonneg (w_out u) (pcs s) (w_out_pos u)). rewrite occ_one, one_self. lia. }
    eapply waits_ext; [exact (waits_wake_out _ _ _ _ W H)|done|intros v; simpl; lia|intros v; cbv beta; rewrite occ_one; simpl; lia].
  - apply IH. destruct (waits_in _ _ _ u W) as [len H].
    { pose proof (tally_nonneg (w_in u) (pcs s) (w_in_pos u)). rewrite occ_one, one_self. lia. }
    eapply waits_ext; [exact (waits_wake_in _ _ _ _ _ W H)|done|intros v; cbv beta; rewrite occ_one; simpl; lia|intros v; simpl; lia].
Qed.
(** A thread that was told to wake [u] does so and moves on. *)
Lemma waits_signal_in s t u : waits none none s -> pcs s !! t = Some (PWake (Some u)) -> waits none none (goto t None (wake u s)).
Proof.
  intros W H. destruct (waits_in _ _ _ u W) as [len Hu].
  { pose proof (tally_ge (w_in u) _ _ _ (w_in_pos u) H) as Hge. rewrite w_in_one, one_self in Hge. unfold none. lia. }
  eapply (waits_move _ _ none none (wake u s) _ t); [exact (waits_wake_in _ _ _ _ _ W Hu)|by apply wake_lookup|reflexivity|waits_lia|waits_lia].
Qed.
Lemma waits_signal_out s t u b o : waits none none s -> pcs s !! t = Some (PRelWake (Some u) b) -> o = None \/ o = Some PPut -> waits none none (goto t o (wake u s)).
Proof.
  intros W H Ho. assert (pcs s !! u = Some PWriteWait) as Hu.
  { apply (waits_out _ _ _ u W). pose proof (tally_ge (w_out u) _ _ _ (w_out_pos u) H) as Hge. rewrite w_out_one, one_self in Hge. unfold none. lia. }
  destruct Ho as [-> | ->]; (eapply (waits_move _ _ none none (wake u s) _ t); [exact (waits_wake_out _ _ _ _ W Hu)|by apply wake_lookup|reflexivity|waits_lia|waits_lia]).
Qed.
Lemma waits_pop_in s u q : waits none none s -> inq_wq (sock s) = u :: q -> waits none none (wake u (s <| sock := sock s <| inq_wq := q |> |>)).
Proof.
  intros W Hq. destruct (waits_in _ _ _ u W) as [len Hu].
  { rewrite Hq, occ_one, one_self. pose proof (tally_nonneg (w_in u) (pcs s) (w_in_pos u)). unfold none. lia. }
  assert (waits (one u) none (s <| sock := sock s <| inq_wq := q |> |>)) as W' by (apply (waits_ext _ _ _ _ _ _ W); [done|waits_lia|done]).
  eapply waits_ext; [exact (waits_wake_in _ _ _ _ _ W' Hu)|done|intros v; unfold none; lia|done].
Qed.
Lemma waits_pop_out s u q : waits none none s -> outq_wq (sock s) = u :: q -> waits none none (wake u (s <| sock := sock s <| outq_wq := q |> |>)).
Proof.
  intros W Hq. assert (pcs s !! u = Some PWriteWait) as Hu.
  { apply (waits_out _ _ _ u W). rewrite Hq, occ_one, one_self. pose proof (tally_nonneg (w_out u) (pcs s) (w_out_pos u)). unfold none. lia. }
  assert (waits none (one u) (s <| sock := sock s <| outq_wq := q |> |>)) as W' by (apply (waits_ext _ _ _ _ _ _ W); [done|done|waits_lia]).
  eapply waits_ext; [exact (waits_wake_out _ _ _ _ W' Hu)|done|done|intros v; unfold none; lia].
Qed.
Lemma waits_step s s' : waits none none s -> step s s' -> waits none none s'.
Proof.
  intros W H. step_cases H; try (cases; (eapply (waits_move none none none none s _ t); [done|exact H|reflexivity|waits_lia|waits_lia]); fail).
  - by apply (waits_ext _ _ _ _ _ _ W).
  - destruct th as [u|]; [by apply waits_signal_in|]. eapply (waits_move none none none none s _ t); [done|exact H|reflexivity|waits_lia|waits_lia].
  - by apply waits_pop_in.
  - destruct Hp as [-> | ->]; (eapply (waits_move none none none none s _ t); [done|exact H|reflexivity|waits_lia|waits_lia]).
  - destruct th as [u|]; [apply (waits_signal_out _ _ _ fr); [done|done|destruct fr; tauto]|].
    destruct fr; (eapply (waits_move none none none none s _ t); [done|exact H|reflexivity|waits_lia|waits_lia]).
  - unfold udp_shutdown_locked in Hs. case_match; simplify_eq. eapply (waits_move none none none none s _ t); [done|exact H|reflexivity|waits_lia|waits_lia].
  - by apply waits_pop_out.
  - by apply (waits_ext _ _ _ _ _ _ W).
  - destruct (udp_set_nonblocking b (sock s)) as [c l] eqn:E. destruct b; simplify_eq/=.
    + match goal with |- waits _ _ (goto _ _ ?s1) => eapply (waits_move none none none none s1 _ t) end; [apply waits_wakes|by apply wake_all_lookup|done|waits_lia|waits_lia].
      apply (waits_ext _ _ _ _ _ _ W); [done|waits_lia|waits_lia].
    + eapply (waits_move none none none none s _ t); [done|exact H|reflexivity|waits_lia|waits_lia].
  - by apply (waits_ext _ _ _ _ _ _ W).
Qed.
Lemma waits_reachable s : reachable s -> waits none none s.
Proof. induction 1 as [|s s' _ IH H]; [|by apply (waits_step s)]. constructor; intros u; simpl; rewrite tally_empty, lookup_empty; done. Qed.

(** ** Datagrams *)

Record queue (s : sys) : Prop := {
  d_fifo : accepted s = (snd <$> delivered s) ++ discarded s ++ inq (sock s);
  d_len : inq_len (sock s) = Z.of_nat (length (inq (sock s)) + length (discarded s));
  d_disc : discarded s <> [] -> closed s = true;
  d_err : 0 <= inq_err (sock s);
  d_empty : 0 < tally w_drained (pcs s) + Z.b2z (outq_free (sock s)) -> inq (sock s) = [];
  d_cap : resized s = false -> inq_cap (sock s) = UDP_IN_DEFAULT_CAP /\ outq_cap (sock s) = UDP_OUT_DEFAULT_CAP /\
            inq_len (sock s) <= UDP_IN_DEFAULT_CAP /\ outq_len (sock s) <= UDP_OUT_DEFAULT_CAP }.
Lemma queue_ext s s' : queue s -> accepted s' = accepted s -> delivered s' = delivered s -> discarded s' = discarded s -> closed s' = closed s -> resized s' = resized s ->
  inq (sock s') = inq (sock s) -> inq_len (sock s') = inq_len (sock s) -> inq_err (sock s') = inq_err (sock s) -> outq_free (sock s') = outq_free (sock s) ->
  inq_cap (sock s') = inq_cap (sock s) -> outq_cap (sock s') = outq_cap (sock s) -> outq_len (sock s') = outq_len (sock s) ->
  tally w_drained (pcs s') = tally w_drained (pcs s) -> queue s'.
Proof. intros [? ? ? ? ? ?] E1 E2 E3 E4 E5 E6 E7 E8 E9 E10 E11 E12 E13. constructor; rewrite ?E1, ?E2, ?E3, ?E4, ?E5, ?E6, ?E7, ?E8, ?E9, ?E10, ?E11, ?E12, ?E13; done. Qed.
Lemma queue_wake u s : queue s -> queue (wake u s).
Proof. intros Q. apply (queue_ext s); try done. apply tally_wake. by intros []. Qed.
Lemma queue_wakes l s : queue s -> queue (wake_all l s).
Proof. unfold wake_all. revert s. induction l as [|u l IH]; intros s Q; [done|]. simpl. apply IH. by apply queue_wake. Qed.
Lemma queue_finish th s : queue s -> queue (waitq_signal_finish th s).
Proof. destruct th; [apply queue_wake|done]. Qed.
(** A thread moves, without [udp_close] getting to its last section. *)
Lemma queue_move s t o o' : queue s -> pcs s !! t = o -> weight w_drained o' <= weight w_drained o -> queue (goto t o' s).
Proof. intros [? ? ? ? De ?] Ho Hw. constructor; try done. fields. rewrite tally_set, Ho. intros Hp. apply De. lia. Qed.

(** The calls of a user find the socket open. *)
Lemma user_open s t p : life s -> pcs s !! t = Some p -> user p = true -> closed s = false.
Proof.
  intros L H Hu. destruct (closed s) eqn:Ec; [|done]. pose proof (l_user s L Ec) as H0. pose proof (tally_ge w_user _ _ _ w_user_pos H) as H1. unfold w_user at 1 in H1. rewrite Hu in H1. lia.
Qed.
Lemma open_kept s : life s -> closed s = false -> outq_free (sock s) = false.
Proof. intros L Hc. pose proof (l_close s L) as H. rewrite Hc in H. pose proof (tally_nonneg w_close (pcs s) w_close_pos). destruct (outq_free (sock s)); [simpl in H; lia|done]. Qed.
Lemma drained_shut s : life s -> 0 < tally w_drained (pcs s) + Z.b2z (outq_free (sock s)) -> shutdown (sock s) = true.
Proof.
  intros L H. assert (bound s = false) as Hb.
  { apply (l_past s L). assert (tally w_drained (pcs s) <= tally w_past (pcs s)); [|lia]. apply tally_le. by intros []. }
  pose proof (l_bound s L) as E. rewrite Hb in E. pose proof (tally_nonneg w_remove (pcs s) w_remove_pos). destruct (shutdown (sock s)); [done|simpl in E; lia].
Qed.
Lemma queue_recv s d c r : life s -> queue s -> udp_conn_recv d (sock s) = (c, r) ->
  queue (s <| sock := c |> <| accepted := match r with None => accepted s | Some _ => accepted s ++ [d] end |>).
Proof.
  intros L Q E. unfold udp_conn_recv in E. destruct (_ || _ || _) eqn:Eb; simplify_eq; [by apply (queue_ext s)|].
  apply orb_false_iff in Eb as [[Eb1 Eb2]%orb_false_iff Eb3]. apply Z.leb_gt in Eb1.
  assert (forall q, queue (s <| sock := sock s <| inq := inq (sock s) ++ [d] |> <| inq_len := inq_len (sock s) + 1 |> <| inq_wq := q |> |> <| accepted := accepted s ++ [d] |>)) as Hq.
  { intros q. destruct Q as [Df Dl Dd De Dm Dc]. constructor; fields.
    - by rewrite Df, <- !app_assoc.
    - rewrite length_app, Dl. simpl. lia.
    - done.
    - done.
    - intros Hp. pose proof (drained_shut s L Hp). congruence.
    - intros Hr. destruct (Dc Hr) as (E1 & E2 & E3 & E4). rewrite E1 in Eb1. split_and!; try done. lia. }
  unfold waitq_signal in E. cbn in E. destruct (inq_wq (sock s)); simplify_eq; apply Hq.
Qed.
Lemma queue_read s t len c r : life s -> queue s -> pcs s !! t = Some (PRead len) -> udp_read_from t (sock s) = (c, r) ->
  queue (s <| sock := c |> <| delivered := match r with ReadGets d => delivered s ++ [(len, d)] | _ => delivered s end |>).
Proof.
  intros L Q H E. pose proof (user_open s t _ L H eq_refl) as Hc. assert (discarded s = []) as Hd.
  { destruct (discarded s) eqn:Ed; [done|]. pose proof (d_disc s Q) as D. rewrite Ed, Hc in D. by specialize (D ltac:(done)). }
  unfold udp_read_from in E. repeat (case_match; simplify_eq/=); try (by apply (queue_ext s)).
  match goal with E : inq (sock s) = _ |- _ => destruct Q as [Df Dl Dd De Dm Dc]; rewrite Hd, E in *; constructor; fields; rewrite ?Hd; try done end.
  - rewrite Df, fmap_app. simpl. by rewrite <- app_assoc.
  - rewrite Dl. simpl. lia.
  - intros Hp. specialize (Dm Hp). done.
  - intros Hr. destruct (Dc Hr) as (E1 & E2 & E3 & E4). split_and!; try done. lia.
Qed.
Lemma queue_sock s c : queue s -> inq c = inq (sock s) -> inq_len c = inq_len (sock s) -> 0 <= inq_err c -> outq_free c = outq_free (sock s) ->
  (resized s = false -> inq_cap c = inq_cap (sock s) /\ outq_cap c = outq_cap (sock s) /\ outq_len c <= UDP_OUT_DEFAULT_CAP) -> queue (s <| sock := c |>).
Proof.
  intros [Df Dl Dd De Dm Dc] E1 E2 E3 E4 E5. constructor; fields; rewrite ?E1, ?E2, ?E4; try done. intros Hr. destruct (Dc Hr) as (C1 & C2 & C3 & C4). destruct (E5 Hr) as (-> & -> & ?). done.
Qed.
(** A writer counts a slot. *)
Lemma queue_write s t c r : queue s -> udp_write_to t (sock s) = (c, r) -> queue (s <| sock := c |>).
Proof.
  intros Q E. apply queue_sock; [done|..]; unfold udp_write_to in E; repeat (case_match; simplify_eq/=); try done; try apply (d_err s Q).
  all: intros Hr; destruct (d_cap s Q Hr) as (C1 & C2 & C3 & C4); split_and!; try done; rewrite C2 in *; lia.
Qed.
Lemma queue_release s c th b : queue s -> udp_tx_release_mbuf (sock s) = (c, th, b) -> queue (s <| sock := c |>).
Proof.
  intros Q E. apply queue_sock; [done|..]; unfold udp_tx_release_mbuf, waitq_signal in E; cbn in E; repeat (case_match; simplify_eq/=); try done; try apply (d_err s Q).
  all: intros Hr; destruct (d_cap s Q Hr) as (C1 & C2 & C3 & C4); split_and!; try done; lia.
Qed.
Lemma queue_step s s' : life s -> queue s -> step s s' -> queue s'.
Proof.
  intros L Q H. pose proof Q as [Df Dl Dd De Dm Dc]. step_cases H; try (eapply queue_move; [by apply (queue_ext s)|exact H|done]; fail).
  - constructor; try done. fields. weigh H. intros Hp. apply Dm. lia.
  - constructor; done.
  - destruct (udp_conn_recv d (sock s)) as [c r] eqn:E. pose proof (queue_recv s d c r L Q E) as Q'. destruct r as [th|]; (eapply queue_move; [|exact H|done]); [done|by eapply queue_ext].
  - eapply queue_move; [by apply queue_finish|by apply finish_lookup|done].
  - cbn. case_match; (eapply queue_move; [|exact H|done]); (apply queue_sock; try done); intros Hr; by destruct (Dc Hr) as (_ & _ & _ & ?).
  - by apply queue_wake, (queue_ext s).
  - destruct Hp as [-> | ->]; (eapply queue_move; [done|exact H|done]).
  - destruct (udp_read_from t (sock s)) as [c r] eqn:E. pose proof (queue_read s t len c r L Q H E) as Q'.
    destruct r; (eapply queue_move; [|exact H|done]); [by eapply queue_ext|by eapply queue_ext|done].
  - destruct (udp_write_to t (sock s)) as [c r] eqn:E. eapply queue_move; [by apply (queue_write s t c r)|exact H|by destruct r].
  - destruct ok; (eapply queue_move; [by apply (queue_ext s)|exact H|done]).
  - destruct (udp_tx_release_mbuf (sock s)) as [[c th] b] eqn:E. eapply queue_move; [by apply (queue_release s c th b)|exact H|done].
  - destruct fr; (eapply queue_move; [by apply queue_finish|by apply finish_lookup|done]).
  - unfold udp_shutdown_locked in Hs. case_match; simplify_eq. eapply queue_move; [by apply (queue_ext s)|exact H|done].
  - destruct k; (eapply queue_move; [by apply (queue_ext s)|exact H|done]).
  - case_match; (eapply queue_move; [done|exact H|done]).
  - by apply queue_wake, (queue_ext s).
  - case_match; (eapply queue_move; [done|exact H|done]).
  - constructor; fields; try done.
    + rewrite Df, Hq. by rewrite <- app_assoc.
    + rewrite Dl, Hq, length_app. simpl. lia.
    + intros _. pose proof (l_close s L) as E. pose proof (tally_ge w_close _ _ _ w_close_pos H) as Hge. simpl in Hge. destruct (closed s); [done|destruct (outq_free (sock s)); simpl in E; lia].
    + intros Hp. specialize (Dm Hp). congruence.
  - constructor; fields; try done.
  - cbn. assert (inq (sock s) = []) as Hi by (apply Dm; pose proof (tally_ge w_drained _ _ _ w_drained_pos H) as Hge; simpl in Hge; destruct (outq_free (sock s)); simpl; lia).
    case_match; (eapply queue_move; [|exact H|done]); by constructor.
  - destruct (udp_set_nonblocking b (sock s)) as [c l] eqn:E. eapply queue_move; [apply queue_wakes; apply (queue_ext s); try done|by apply wake_all_lookup|done]; by destruct b; simplify_eq/=.
  - by apply (queue_ext s).
Qed.
Lemma queue_reachable s : reachable s -> queue s.
Proof. induction 1 as [|s s' Hr IH H]; [|apply (queue_step s); auto using life_reachable]. constructor; simpl; rewrite ?tally_empty; done. Qed.

(** ** Slots, wake-ups and the last reference *)

Record counts (s : sys) : Prop := {
  n_slot : outq_len (sock s) = tally w_slot (pcs s) + Z.of_nat (inflight s) + Z.of_nat (leaked s);
  n_put : Z.of_nat (puts s) + tally w_put (pcs s) = if outq_free (sock s) && (outq_len (sock s) =? 0) then 1 else 0;
  n_read : inq_err (sock s) = 0 -> inq_wq (sock s) <> [] -> Z.of_nat (length (inq (sock s))) <= tally w_read (pcs s);
  n_write : shutdown (sock s) = false -> resized s = false -> outq_wq (sock s) <> [] -> outq_cap (sock s) <= outq_len (sock s) + tally w_write (pcs s);
  n_freed : freed s = true -> (0 < puts s)%nat /\ tally w_rcu (pcs s) = 0 }.
(** Threads move; as many as before, or more, will look at the queues. *)
Lemma counts_ext s s' : counts s -> outq_len (sock s') = outq_len (sock s) -> outq_free (sock s') = outq_free (sock s) -> inq_err (sock s') = inq_err (sock s) ->
  inq (sock s') = inq (sock s) -> shutdown (sock s') = shutdown (sock s) -> outq_cap (sock s') = outq_cap (sock s) ->
  (inq_wq (sock s') <> [] -> inq_wq (sock s) <> []) -> (outq_wq (sock s') <> [] -> outq_wq (sock s) <> []) ->
  inflight s' = inflight s -> leaked s' = leaked s -> puts s' = puts s -> resized s' = resized s -> freed s' = freed s ->
  tally w_slot (pcs s') = tally w_slot (pcs s) -> tally w_put (pcs s') = tally w_put (pcs s) -> tally w_read (pcs s) <= tally w_read (pcs s') ->
  tally w_write (pcs s) <= tally w_write (pcs s') -> (freed s = true -> tally w_rcu (pcs s') <= tally w_rcu (pcs s)) -> counts s'.
Proof.
  intros [Ns Np Nr Nw Nf] E1 E2 E3 E4 E5 E6 Hi Ho E7 E8 E9 E10 E11 T1 T2 T3 T4 T5. pose proof (tally_nonneg w_rcu (pcs s') w_rcu_pos).
  constructor; rewrite ?E1, ?E2, ?E3, ?E4, ?E5, ?E6, ?E7, ?E8, ?E9, ?E10, ?E11, ?T1, ?T2; try done; intros.
  - specialize (Nr ltac:(done) ltac:(auto)). lia.
  - specialize (Nw ltac:(done) ltac:(done) ltac:(auto)). lia.
  - specialize (Nf ltac:(done)) as [? ?]. specialize (T5 ltac:(done)). split; [done|lia].
Qed.
Lemma counts_move s t o o' : counts s -> pcs s !! t = o -> weight w_slot o' = weight w_slot o -> weight w_put o' = weight w_put o ->
  weight w_read o <= weight w_read o' -> weight w_write o <= weight w_write o' -> (freed s = true -> weight w_rcu o' <= weight w_rcu o) -> counts (goto t o' s).
Proof. intros N Ho W1 W2 W3 W4 W5. apply (counts_ext s); try done; fields; rewrite tally_set, Ho; intros; try lia. specialize (W5 ltac:(done)). lia. Qed.
Lemma tally_wake_ge w u m : (forall p, w p <= w (ready p)) -> tally w m <= tally w (alter ready u m).
Proof.
  intros Hw. destruct (m !! u) as [p|] eqn:E; [rewrite (alter_ready _ _ _ E), tally_set, E; simpl; specialize (Hw p); lia|].
  replace (alter ready u m) with m; [done|]. apply map_eq. intros v. destruct (decide (u = v)) as [<- |]; [by rewrite lookup_alter_eq, E|by rewrite lookup_alter_ne].
Qed.
Lemma counts_wake u s : counts s -> counts (wake u s).
Proof.
  intros N. apply (counts_ext s); try done; fields; unfold wake; fields.
  - apply tally_wake. by intros [].
  - apply tally_wake. by intros [].
  - apply tally_wake_ge. intros []; simpl; lia.
  - apply tally_wake_ge. intros []; simpl; lia.
  - intros _. rewrite tally_wake; [done|]. by intros [].
Qed.
Lemma counts_wakes l s : counts s -> counts (wake_all l s).
Proof. unfold wake_all. revert s. induction l as [|u l IH]; intros s N; [done|]. simpl. apply IH. by apply counts_wake. Qed.
(** A freed socket was marked by [udp_close], has no entry, and nothing is in flight. *)
Lemma put_marked s : counts s -> 0 < Z.of_nat (puts s) + tally w_put (pcs s) -> outq_free (sock s) = true /\ outq_len (sock s) = 0.
Proof. intros N H. rewrite (n_put s N) in H. destruct (outq_free (sock s)); [|simpl in H; lia]. destruct (outq_len (sock s) =? 0) eqn:E; [|simpl in H; lia]. apply Z.eqb_eq in E. done. Qed.
Lemma marked_unbound s : life s -> outq_free (sock s) = true -> bound s = false.
Proof. intros L H. apply (l_past s L). rewrite H. pose proof (tally_nonneg w_past (pcs s) w_past_pos). simpl. lia. Qed.
Lemma freed_unbound s : life s -> counts s -> freed s = true -> bound s = false.
Proof.
  intros L N H. destruct (n_freed s N H) as [Hp _]. apply marked_unbound; [done|]. apply (put_marked s N). pose proof (tally_nonneg w_put (pcs s) w_put_pos). lia.
Qed.
Ltac counts_hyp :=
  match goal with
  | H : _ + tally w_put _ = _ |- _ + _ = _ => rewrite <- H; lia
  | H : freed _ = true -> _ |- _ /\ _ => destruct (H ltac:(done)) as [? ?]; split; [done || lia|lia]
  | H : inq_err _ = 0 -> _ -> _ |- _ => specialize (H ltac:(done || congruence) ltac:(done || congruence)); rewrite ?length_app; simpl; simpl in H; lia
  | H : shutdown _ = false -> _ -> _ -> _ |- _ => specialize (H ltac:(done || congruence) ltac:(done || congruence) ltac:(done || congruence)); lia
  end.
Ltac counts_lia H :=
  match goal with N : counts _ |- _ => destruct N as [Ns Np Nr Nw Nf] end;
  constructor; fields; weigh H; try lia; intros; try congruence; try counts_hyp;
  try (match goal with E : inq (sock _) = _ |- _ => rewrite E in *; simpl in * end; first [lia | counts_hyp]).
Lemma counts_recv s t d c r : counts s -> pcs s !! t = Some (PRecv d) -> udp_conn_recv d (sock s) = (c, r) ->
  counts (goto t (PWake <$> r) (s <| sock := c |>)).
Proof.
  intros N H E. assert (1 <= tally w_rcu (pcs s)) as Hge by exact (tally_ge w_rcu _ _ _ w_rcu_pos H).
  unfold udp_conn_recv, waitq_signal in E. cbn in E. repeat (case_match; simplify_eq/=); counts_lia H.
Qed.
Lemma counts_read s t len c r : counts s -> pcs s !! t = Some (PRead len) -> udp_read_from t (sock s) = (c, r) ->
  counts (goto t (match r with ReadWaits => Some (PReadWait len) | _ => None end) (s <| sock := c |>)).
Proof.
  intros N H E. pose proof (tally_ge w_read _ _ _ w_read_pos H) as Hge. simpl in Hge. 
  unfold udp_read_from in E. repeat (case_match; simplify_eq/=); counts_lia H.
Qed.
Lemma counts_write s t c r : life s -> counts s -> pcs s !! t = Some PWrite -> udp_write_to t (sock s) = (c, r) ->
  counts (goto t (match r with WriteWaits => Some PWriteWait | WriteFails _ => None | WriteGoes => Some PSend end) (s <| sock := c |>)).
Proof.
  intros L N H E. pose proof (tally_ge w_write _ _ _ w_write_pos H) as Hge. simpl in Hge. pose proof (open_kept s L (user_open s t _ L H eq_refl)) as Ho.
  unfold udp_write_to in E. repeat (case_match; simplify_eq/=); counts_lia H; rewrite ?Ho in *; simpl in *; lia.
Qed.
Lemma counts_release s t c th b : counts s -> pcs s !! t = Some PRel -> udp_tx_release_mbuf (sock s) = (c, th, b) -> counts (goto t (Some (PRelWake th b)) (s <| sock := c |>)).
Proof.
  intros N H E. pose proof (tally_ge w_slot _ _ _ w_slot_pos H) as Hge. simpl in Hge.
  assert (Z.of_nat (puts s) + tally w_put (pcs s) = 0) as Hp.
  { pose proof (n_slot s N). rewrite (n_put s N). rewrite (proj2 (Z.eqb_neq (outq_len (sock s)) 0)) by lia. by rewrite andb_false_r. }
  unfold udp_tx_release_mbuf, waitq_signal in E. cbn in E. repeat (case_match; simplify_eq/=); counts_lia H.
Qed.
(** Threads that wake others: one more thread is awake for the one that moves on. *)
Lemma counts_signal_in s t u : waits none none s -> counts s -> pcs s !! t = Some (PWake (Some u)) -> counts (goto t None (wake u s)).
Proof.
  intros W N H. assert (1 <= tally w_rcu (pcs s)) as Hge by exact (tally_ge w_rcu _ _ _ w_rcu_pos H). destruct (waits_in _ _ _ u W) as [len Hu].
  { pose proof (tally_ge (w_in u) _ _ _ (w_in_pos u) H) as Hin. rewrite w_in_one, one_self in Hin. unfold none. lia. }
  rewrite (wake_ready _ _ _ Hu). assert (t <> u) as Hne by congruence. assert (forall o, partial_alter (fun _ : option pc => o) u (pcs s) !! t = Some (PWake (Some u))) as Ht.
  { intros o. by rewrite lookup_partial_alter_ne by congruence. }
  apply (counts_ext s); try done; fields; rewrite !tally_set, Ht, Hu; cbn; lia.
Qed.
Lemma counts_signal_out s t u b : waits none none s -> counts s -> pcs s !! t = Some (PRelWake (Some u) b) -> counts (goto t (if b then Some PPut else None) (wake u s)).
Proof.
  intros W N H. assert (pcs s !! u = Some PWriteWait) as Hu.
  { apply (waits_out _ _ _ u W). pose proof (tally_ge (w_out u) _ _ _ (w_out_pos u) H) as Hin. rewrite w_out_one, one_self in Hin. unfold none. lia. }
  rewrite (wake_ready _ _ _ Hu). assert (t <> u) as Hne by congruence. assert (forall o, partial_alter (fun _ : option pc => o) u (pcs s) !! t = Some (PRelWake (Some u) b)) as Ht.
  { intros o. by rewrite lookup_partial_alter_ne by congruence. }
  apply (counts_ext s); try done; fields; rewrite !tally_set, Ht, Hu; destruct b; cbn; lia.
Qed.
Lemma counts_close s t : life s -> counts s -> pcs s !! t = Some PCloseLock ->
  counts (goto t (if outq_len (sock s) =? 0 then Some PPut else None) (s <| sock := sock s <| outq_free := true |> |>)).
Proof.
  intros L N H. pose proof (tally_ge w_close _ _ _ w_close_pos H) as Hge. simpl in Hge. pose proof (l_close s L) as Lc. pose proof (b2z_range (closed s)).
  assert (outq_free (sock s) = false) as Ho by (destruct (outq_free (sock s)); [simpl in Lc; lia|done]). pose proof (n_put s N) as Hz. rewrite Ho in Hz. simpl in Hz.
  destruct (outq_len (sock s) =? 0) eqn:E; counts_lia H; rewrite E; simpl; lia.
Qed.
Lemma counts_step s s' : life s -> waits none none s -> counts s -> step s s' -> counts s'.
Proof.
  intros L W N H. pose proof (freed_unbound s L N) as Hfb. step_cases H; try (eapply counts_move; [by apply (counts_ext s)|exact H|done|done|done|done|done]; fail).
  - eapply counts_move; [done|exact H|done..|]. intros Hf. specialize (Hfb Hf). congruence.
  - eapply counts_move; [done|exact H|done..|]. intros Hf. specialize (Hfb Hf). congruence.
  - destruct N. by constructor.
  - counts_lia H.
  - destruct (udp_conn_recv d (sock s)) as [c r] eqn:E. pose proof (counts_recv s t d c r N H E) as N'. destruct r as [th|]; [|done]. by apply (counts_ext _ _ N').
  - destruct th as [u|]; [by apply counts_signal_in|]. by apply (counts_move s t _ _ N H).
  - assert (1 <= tally w_rcu (pcs s)) as Hge by exact (tally_ge w_rcu _ _ _ w_rcu_pos H). cbn. case_match; counts_lia H.
  - apply counts_wake, (counts_ext s); try done. fields. by rewrite Hq.
  - destruct Hp as [-> | ->]; by apply (counts_move s t _ _ N H).
  - destruct (udp_read_from t (sock s)) as [c r] eqn:E. pose proof (counts_read s t len c r N H E) as N'. destruct r; [done|done|]. by apply (counts_ext _ _ N').
  - destruct (udp_write_to t (sock s)) as [c r] eqn:E. by apply counts_write.
  - destruct ok; counts_lia H.
  - destruct (udp_tx_release_mbuf (sock s)) as [[c th] b] eqn:E. by apply counts_release.
  - destruct th as [u|]; [by apply counts_signal_out|]. destruct fr; by apply (counts_move s t _ _ N H).
  - counts_lia H.
  - unfold udp_shutdown_locked in Hs. case_match; simplify_eq. counts_lia H.
  - destruct k; counts_lia H.
  - case_match; by apply (counts_move s t _ _ N H).
  - apply counts_wake, (counts_ext s); try done. fields. by rewrite Hq.
  - case_match; by apply (counts_move s t _ _ N H).
  - destruct N as [Ns Np Nr Nw Nf]. constructor; fields; try done. intros He Hw. specialize (Nr He Hw). rewrite Hq in Nr. simpl in Nr. lia.
  - by apply counts_close.
  - destruct (udp_set_nonblocking b (sock s)) as [c l] eqn:E. eapply counts_move; [apply counts_wakes|by apply wake_all_lookup|done..]. 
    destruct b; simplify_eq/=; by apply (counts_ext s).
  - destruct N. constructor; try done. intros _. split; [done|]. exact (tally_none reader _ Hr).
Qed.
Lemma counts_reachable s : reachable s -> counts s.
Proof. induction 1 as [|s s' Hr IH H]; [|apply (counts_step s); auto using life_reachable, waits_reachable]. constructor; simpl; rewrite ?tally_empty; done. Qed.

(** ** What holds *)

Lemma occ_in (u : nat) q : 0 < Z.of_nat (occ u q) -> u ∈ q.
Proof. intros H. apply occ_pos. lia. Qed.
Lemma tally_pos_elem (w : pc -> Z) m : (forall p, 0 <= w p) -> 0 < tally w m -> exists t p, m !! t = Some p /\ 0 < w p.
Proof.
  intros Hw. induction m as [|k x m Hk IH] using map_ind; intros H; [rewrite tally_empty in H; lia|]. rewrite tally_insert in H by done.
  destruct (Z.eq_dec (w x) 0) as [Hx|Hx]; [|exists k, x; specialize (Hw x); rewrite lookup_insert_eq; split; [done|lia]].
  destruct IH as (t & p & Ht & Hp); [lia|]. exists t, p. split; [|done]. rewrite lookup_insert_ne; [done|congruence].
Qed.

(** C11: in every state that a socket can reach, the datagrams that were queued are those
    that were read, in the same order, then those that closing discarded, then those that
    are queued; a thread that waits is in its wait queue or about to be woken; as long as
    the buffers were not resized, the queues respect their capacities; as long as no error
    is recorded and a reader is in the wait queue, at least as many threads are on their
    way to the queue as there are datagrams in it, so none is left unattended; and as long
    as the socket is not shut down, its buffers were not resized and a writer is in the
    wait queue, the free slots are all about to be taken. The application calls
    [udp_shutdown] at most once. *)
Theorem udp_socket_delivers s : reachable s ->
  accepted s = (snd <$> delivered s) ++ discarded s ++ inq (sock s) /\
  (resized s = false -> Z.of_nat (length (inq (sock s))) <= UDP_IN_DEFAULT_CAP /\ Z.of_nat (inflight s) <= UDP_OUT_DEFAULT_CAP) /\
  (forall u len, pcs s !! u = Some (PReadWait len) -> u ∈ inq_wq (sock s) \/ exists t, pcs s !! t = Some (PWake (Some u))) /\
  (forall u, pcs s !! u = Some PWriteWait -> u ∈ outq_wq (sock s) \/ exists t b, pcs s !! t = Some (PRelWake (Some u) b)) /\
  (inq_err (sock s) = 0 -> inq_wq (sock s) <> [] -> Z.of_nat (length (inq (sock s))) <= tally w_read (pcs s)) /\
  (shutdown (sock s) = false -> resized s = false -> outq_wq (sock s) <> [] -> outq_cap (sock s) - outq_len (sock s) <= tally w_write (pcs s)).
Proof.
  intros R. pose proof (queue_reachable s R) as Q. pose proof (counts_reachable s R) as N. pose proof (waits_reachable s R) as [Wi Wo].
  split; [apply Q|]. split; [|split; [|split; [|split; [apply N|]]]].
  - intros Hr. destruct (d_cap s Q Hr) as (_ & _ & H1 & H2). rewrite (d_len s Q) in H1. rewrite (n_slot s N) in H2. pose proof (tally_nonneg w_slot (pcs s) w_slot_pos). lia.
  - intros u len H. specialize (Wi u). rewrite H in Wi. simpl in Wi. unfold none in Wi. destruct (decide (0 < Z.of_nat (occ u (inq_wq (sock s))))) as [Ho|Ho]; [left; by apply occ_in|right].
    destruct (tally_pos_elem (w_in u) (pcs s) (w_in_pos u)) as (t & p & Ht & Hp); [lia|]. exists t. rewrite Ht. destruct p; simpl in Hp; try lia. destruct th as [v|]; [|lia]. case_decide; [by subst|lia].
  - intros u H. specialize (Wo u). rewrite H in Wo. simpl in Wo. unfold none in Wo. destruct (decide (0 < Z.of_nat (occ u (outq_wq (sock s))))) as [Ho|Ho]; [left; by apply occ_in|right].
    destruct (tally_pos_elem (w_out u) (pcs s) (w_out_pos u)) as (t & p & Ht & Hp); [lia|]. exists t. rewrite Ht. destruct p; simpl in Hp; try lia. destruct th as [v|]; [|lia]. case_decide; [subst; by eexists|lia].
  - intros Hs Hr Hw. pose proof (n_write s N Hs Hr Hw). lia.
Qed.

(** The next step of an execution, with the state it leads to in normal form. *)
Ltac next R tac :=
  eapply RStep in R; [|tac];
  match type of R with reachable ?x => let y := eval vm_compute in x in assert (reachable y) as R' by (vm_cast_no_check R); clear R; rename R' into R end.
(** A reader that waited got the first of two datagrams. *)
Definition delivery_demo : sys :=
  Sys (UdpConn false false 512 1 0 [] [Dgram (NetAddr 1 2) [8]] false 2048 0 []) None None true 0 {[2%nat := PWake None]} 0 false false false false
    [Dgram (NetAddr 1 2) [7]; Dgram (NetAddr 1 2) [8]] [(100, Dgram (NetAddr 1 2) [7])] [] 0.
Lemma delivery_run : reachable delivery_demo.
Proof.
  pose proof RInit as R.
  next R ltac:(apply (StartRead _ 1 100); done). next R ltac:(apply (ReadLocked _ 1 100); done).
  next R ltac:(apply (StartRecv _ 2 (Dgram (NetAddr 1 2) [7])); done). next R ltac:(apply (RecvLocked _ 2 (Dgram (NetAddr 1 2) [7])); done).
  next R ltac:(apply (RecvWake _ 2 (Some 1%nat)); done). next R ltac:(apply (StartRecv _ 2 (Dgram (NetAddr 1 2) [8])); done).
  next R ltac:(apply (RecvLocked _ 2 (Dgram (NetAddr 1 2) [8])); done). next R ltac:(apply (ReadLocked _ 1 100); done).
  exact R.
Qed.
Lemma udp_socket_delivers_witness : accepted delivery_demo = (snd <$> delivered delivery_demo) ++ discarded delivery_demo ++ inq (sock delivery_demo) /\
  Z.of_nat (length (inq (sock delivery_demo))) <= UDP_IN_DEFAULT_CAP.
Proof. destruct (udp_socket_delivers delivery_demo delivery_run) as (H1 & H2 & _). split; [exact H1|exact (proj1 (H2 eq_refl))]. Defined.

Lemma occ_none (q : list nat) : (forall u, occ u q = 0%nat) -> q = [].
Proof. destruct q as [|u q]; [done|]. intros H. specialize (H u). rewrite occ_cons, occ_self in H. lia. Qed.
(** Nobody waits once the socket is being closed. *)
Lemma closed_alone s : life s -> waits none none s -> closed s = true -> inq_wq (sock s) = [] /\ outq_wq (sock s) = [].
Proof.
  intros L W Hc. assert (forall u p, pcs s !! u = Some p -> user p = false) as Hu.
  { intros u p H. destruct (user p) eqn:E; [|done]. pose proof (user_open s u p L H E). congruence. }
  split; apply occ_none; intros u.
  - pose proof (q_in _ _ s W u) as E. pose proof (tally_nonneg (w_in u) (pcs s) (w_in_pos u)). unfold none in E. destruct (pcs s !! u) as [p|] eqn:Ep; simpl in E; [|lia].
    specialize (Hu u p Ep). destruct p; simpl in *; done || lia.
  - pose proof (q_out _ _ s W u) as E. pose proof (tally_nonneg (w_out u) (pcs s) (w_out_pos u)). unfold none in E. destruct (pcs s !! u) as [p|] eqn:Ep; simpl in E; [|lia].
    specialize (Hu u p Ep). destruct p; simpl in *; done || lia.
Qed.
Lemma in_close s t p : life s -> pcs s !! t = Some p -> 0 < w_close p -> closed s = true.
Proof.
  intros L H Hw. pose proof (tally_ge w_close _ _ _ w_close_pos H). pose proof (l_close s L) as E. pose proof (b2z_range (outq_free (sock s))). destruct (closed s); [done|simpl in E; lia].
Qed.
(** The threads that are left when the last reference is gone. *)
Lemma freed_threads s t p : life s -> waits none none s -> counts s -> freed s = true -> pcs s !! t = Some p -> p = PRelWake None false.
Proof.
  intros L W N Hf H. destruct (n_freed s N Hf) as [Hp Hrcu]. pose proof (tally_nonneg w_put (pcs s) w_put_pos) as Hpp.
  destruct (put_marked s N) as [Ho Hl]; [lia|]. pose proof (n_put s N) as Np. rewrite Ho, Hl in Np. simpl in Np. pose proof (n_slot s N) as Ns. rewrite Hl in Ns.
  pose proof (l_close s L) as Lc. rewrite Ho in Lc. pose proof (b2z_range (closed s)) as Hb. pose proof (tally_nonneg w_close (pcs s) w_close_pos). simpl in Lc.
  assert (closed s = true) as Hc by (destruct (closed s); [done|simpl in *; lia]). pose proof (tally_nonneg w_slot (pcs s) w_slot_pos).
  pose proof (tally_zero w_close (pcs s) _ _ w_close_pos ltac:(lia) H) as Z1. pose proof (tally_zero w_put (pcs s) _ _ w_put_pos ltac:(lia) H) as Z2.
  pose proof (tally_zero w_slot (pcs s) _ _ w_slot_pos ltac:(lia) H) as Z3. pose proof (tally_zero w_rcu (pcs s) _ _ w_rcu_pos ltac:(lia) H) as Z4.
  pose proof (tally_zero w_user (pcs s) _ _ w_user_pos ltac:(rewrite (l_user s L Hc); lia) H) as Z5.
  destruct p as [| | | | | | | | | |th [] | |[]|[]|[]| | | | | | | | |]; cbn in *; try done. destruct th as [v|]; [|done].
  assert (pcs s !! v = Some PWriteWait) as Hv.
  { apply (waits_out _ _ _ v W). pose proof (tally_ge (w_out v) _ _ _ (w_out_pos v) H) as Hin. rewrite w_out_one, one_self in Hin. unfold none. lia. }
  pose proof (user_open s v _ L Hv eq_refl). congruence.
Qed.

(** C12: closing: the assertions of [__udp_shutdown] and [udp_close] hold, where the
    application calls [udp_shutdown] at most once; the last reference is dropped at most
    once, and it is dropped when the socket was closed, all calls have returned, nothing
    is in flight and no write failed after it took its slot; once the memory is freed, the
    only threads still in the code are completions that do not touch the socket again, and
    no datagram can reach it. *)
Theorem udp_closed_once s : reachable s ->
  (forall t k, pcs s !! t = Some (PShutHalf k) -> is_Some (udp_shutdown_locked (sock s))) /\
  (forall t, pcs s !! t = Some PCloseCheck -> inq_wq (sock s) = [] /\ outq_wq (sock s) = []) /\
  (puts s <= 1)%nat /\
  (freed s = true -> inflight s = 0%nat /\ bound s = false /\ inq (sock s) = [] /\ forall t p, pcs s !! t = Some p -> p = PRelWake None false) /\
  (closed s = true -> pcs s = ∅ -> inflight s = 0%nat -> leaked s = 0%nat -> puts s = 1%nat).
Proof.
  intros R. pose proof (life_reachable s R) as L. pose proof (queue_reachable s R) as Q. pose proof (counts_reachable s R) as N. pose proof (waits_reachable s R) as W.
  pose proof (n_put s N) as Np. pose proof (tally_nonneg w_put (pcs s) w_put_pos) as Hpp. split; [|split; [|split; [|split]]].
  - intros t k H. pose proof (tally_ge w_shut _ _ _ w_shut_pos H) as Hge. pose proof (l_shut s L) as E. simpl in Hge. unfold udp_shutdown_locked.
    destruct (shutdown (sock s)); [simpl in E; lia|by eexists].
  - intros t H. by apply closed_alone, (in_close s t _ L H).
  - destruct (_ && _); lia.
  - intros Hf. destruct (n_freed s N Hf) as [Hp Hrcu]. destruct (put_marked s N) as [Ho Hl]; [lia|]. split; [|split; [by apply freed_unbound|split]].
    + pose proof (n_slot s N) as Ns. pose proof (tally_nonneg w_slot (pcs s) w_slot_pos). lia.
    + apply (d_empty s Q). rewrite Ho. pose proof (tally_nonneg w_drained (pcs s) w_drained_pos). simpl. lia.
    + intros t p H. by apply (freed_threads s t).
  - intros Hc Hpc Hi Hl. pose proof (n_slot s N) as Ns. pose proof (l_close s L) as E. rewrite Hpc, tally_empty in *. rewrite Hc in E. rewrite Hi, Hl in Ns. simpl in Ns.
    destruct (outq_free (sock s)); [|simpl in E; lia]. rewrite Ns in Np. simpl in Np. lia.
Qed.
(** A socket that was closed while a buffer was in flight. *)
Definition close_demo : sys :=
  Sys (UdpConn true false 512 0 0 [] [] true 2048 0 []) None None false 0 ∅ 1 true false true false [] [] [] 0.
Lemma close_run : reachable close_demo.
Proof.
  pose proof RInit as R.
  eapply RStep in R; [|apply (StartWrite _ 1); done]. eapply RStep in R; [|apply (WriteLocked _ 1); done]. eapply RStep in R; [|apply (Sent _ 1 true); done].
  eapply RStep in R; [|apply (StartClose _ 2); [done|done|done]]. eapply RStep in R; [|apply (CloseStart _ 2); done].
  eapply RStep in R; [|apply (ShutFirst _ 2 true); done]. eapply RStep in R; [|eapply (ShutSecond _ 2 true); done]. eapply RStep in R; [|apply (ShutRemove _ 2 true); done].
  eapply RStep in R; [|apply (CloseCheck _ 2); done]. eapply RStep in R; [|apply (CloseDrained _ 2); done]. eapply RStep in R; [|apply (CloseLocked _ 2); done].
  eapply RStep in R; [|apply (Completed _ 3 0); done]. eapply RStep in R; [|apply (RelLocked _ 3); done]. eapply RStep in R; [|apply (RelWake _ 3 None true); done].
  eapply RStep in R; [|apply (Put _ 3); done]. eapply RStep in R; [|apply Freed; [apply Nat.ltb_lt; reflexivity|done]].
  eapply eq_ind; [exact R|]. vm_compute. reflexivity.
Qed.
Lemma udp_closed_once_witness : inflight close_demo = 0%nat /\ bound close_demo = false /\ (puts close_demo <= 1)%nat.
Proof. destruct (udp_closed_once close_demo close_run) as (_ & _ & H1 & H2 & _). destruct (H2 eq_refl) as (H3 & H4 & _). split; [exact H3|]. split; [exact H4|exact H1]. Defined.

(** ** Where it hangs *)

(** A reader waits; [udp_shutdown] sets its mark; an error arrives, which leaves the waking
    to the shutdown; the shutdown sees the error and leaves it to the error. *)
Lemma lost_wakeup_run : exists s, reachable s /\ pcs s = {[1%nat := PReadWait 100]} /\ inq_wq (sock s) = [1%nat] /\ shutdown (sock s) = true /\ inq_err (sock s) <> 0 /\
  bound s = false /\ shut_called s = true /\ closed s = false /\ outq_free (sock s) = false /\ nonblocking (sock s) = false /\ outq_wq (sock s) = [].
Proof.
  pose proof RInit as R.
  eapply RStep in R; [|apply (StartRead _ 1 100); done]. eapply RStep in R; [|apply (ReadLocked _ 1 100); done].
  eapply RStep in R; [|apply (StartShut _ 2); done]. eapply RStep in R; [|apply (StartErr _ 3 113); done].
  eapply RStep in R; [|apply (ShutFirst _ 2 false); done]. eapply RStep in R; [|eapply (ShutSecond _ 2 false); done].
  eapply RStep in R; [|apply (ErrLocked _ 3 113); done]. eapply RStep in R; [|apply (ShutRemove _ 2 false); done].
  eapply RStep in R; [|apply (ShutCheck _ 2); done]. eapply RStep in R; [|apply (ReleasedOut _ 2); done].
  eexists. split; [exact R|]. split; [vm_compute; reflexivity|done].
Qed.
(** What other threads can still do then. *)
Definition quiet (p : pc) : bool := match p with PRead _ | PWrite | PSend | PRel | PRelWake None false | PNb _ | PNbHalf _ => true | _ => false end.
Record forgotten (s : sys) : Prop := {
  f_waits : pcs s !! 1%nat = Some (PReadWait 100); f_queue : inq_wq (sock s) = [1%nat]; f_shut : shutdown (sock s) = true; f_bound : bound s = false;
  f_called : shut_called s = true; f_open : closed s = false; f_kept : outq_free (sock s) = false;
  f_quiet : forall t p, pcs s !! t = Some p -> t <> 1%nat -> quiet p = true }.
Lemma forgotten_move s s' t o' : forgotten s -> t <> 1%nat -> pcs s' = partial_alter (fun _ => o') t (pcs s) -> match o' with Some p => quiet p = true | None => True end ->
  inq_wq (sock s') = inq_wq (sock s) -> shutdown (sock s') = shutdown (sock s) -> bound s' = bound s -> shut_called s' = shut_called s -> closed s' = closed s ->
  outq_free (sock s') = outq_free (sock s) -> forgotten s'.
Proof.
  intros [F1 F2 F3 F4 F5 F6 F7 F8] Ht Ep Hq E1 E2 E3 E4 E5 E6. constructor; rewrite ?E1, ?E2, ?E3, ?E4, ?E5, ?E6, ?Ep; try done; [by rewrite lookup_partial_alter_ne|].
  intros u p. destruct (decide (t = u)) as [<- |]; [rewrite lookup_partial_alter_eq; intros ->; done|rewrite lookup_partial_alter_ne by done; apply F8].
Qed.
Lemma forgotten_step s s' : forgotten s -> step s s' -> nonblocking (sock s') = false -> forgotten s'.
Proof.
  intros F H Hblk. pose proof F as [F1 F2 F3 F4 F5 F6 F7 F8].
  assert (forall t p, pcs s !! t = Some p -> p <> PReadWait 100 -> t <> 1%nat /\ quiet p = true) as Hqu.
  { intros t p Ht Hp. assert (t <> 1%nat) by congruence. split; [done|by apply (F8 t)]. }
  assert (forall t, pcs s !! t = None -> t <> 1%nat) as Hnew by congruence.
  step_cases H; try congruence; try (destruct (Hqu t _ H ltac:(done)) as [Ht Hqt]; done);
    try (destruct Hp as [-> | ->]; destruct (Hqu t _ H ltac:(done)) as [Ht Hqt]; done);
    try (eapply (forgotten_move s _ t); [done|by apply Hnew|reflexivity|done..]; fail);
    try (destruct (Hqu t _ H ltac:(done)) as [Ht Hqt]; cases; (eapply (forgotten_move s _ t); [done|done|reflexivity|done..]); fail).
  - by specialize (Hu _ _ F1).
  - by constructor.
  - destruct (Hqu t _ H ltac:(done)) as [Ht _]. unfold udp_read_from. rewrite F3, andb_false_r. destruct (inq (sock s)); [|destruct (negb _)]; by eapply (forgotten_move s _ t).
  - destruct (Hqu t _ H ltac:(done)) as [Ht _]. unfold udp_write_to. rewrite F3, andb_false_r. by eapply (forgotten_move s _ t).
  - destruct (Hqu t _ H ltac:(done)) as [Ht _]. unfold udp_tx_release_mbuf. cbn. rewrite F3, F7. by eapply (forgotten_move s _ t).
  - destruct (Hqu t _ H ltac:(done)) as [Ht _]. destruct b; [|by eapply (forgotten_move s _ t)]. exfalso. simpl in Hblk. rewrite wake_all_sock in Hblk. done.
  - by constructor.
Qed.

(** [udp_shutdown] takes the lock of the receive queue first, [udp_set_nonblocking] that of
    the send queue. *)
Record deadlocked (s : sys) : Prop := {
  k_in : inq_lock s = Some 1%nat; k_out : outq_lock s = Some 2%nat; k_shut : pcs s !! 1%nat = Some (PShutHalf false); k_nb : pcs s !! 2%nat = Some (PNbHalf true) }.
Lemma deadlock_run : exists s, reachable s /\ deadlocked s.
Proof.
  pose proof RInit as R. eapply RStep in R; [|apply (StartShut _ 1); done]. eapply RStep in R; [|apply (StartNb _ 2 true); done].
  eapply RStep in R; [|apply (ShutFirst _ 1 false); done]. eapply RStep in R; [|apply (NbFirst _ 2 true); done]. eexists. split; [exact R|]. by split.
Qed.
Lemma deadlock_step s s' : deadlocked s -> step s s' -> deadlocked s' /\ accepted s' = accepted s /\ delivered s' = delivered s.
Proof.
  intros D H. pose proof D as [D1 D2 D3 D4].
  assert (forall t o x, pcs s !! t = x -> x <> Some (PShutHalf false) -> x <> Some (PNbHalf true) -> forall s1, inq_lock s1 = inq_lock s -> outq_lock s1 = outq_lock s ->
    (forall u p, pcs s !! u = Some p -> ready p = p -> pcs s1 !! u = Some p) -> deadlocked (goto t o s1)) as Hg.
  { intros t o x Hx N1 N2 s1 E1 E2 Ep. split; [by rewrite <- D1|by rewrite <- D2|..]; fields; rewrite lookup_partial_alter_ne by congruence; by apply Ep. }
  step_cases H; try congruence.
  all: try (split; [by apply (Hg t _ _ H)|done]; fail).
  all: try (split; [by destruct D; constructor|done]; fail).
  - split; [|by destruct th]. apply (Hg t _ _ H); try done; [by destruct th..|]. intros u p Hp Hr. by apply finish_lookup.
  - split; [|done]. constructor; try done; by apply wake_lookup.
  - destruct Hp as [-> | ->]; (split; [by apply (Hg t _ _ H)|done]).
  - split; [|by destruct ok]. apply (Hg t _ _ H); try done; by destruct ok.
  - split; [|by destruct th]. apply (Hg t _ _ H); try done; [by destruct th..|]. intros u p Hp Hr. by apply finish_lookup.
  - split; [|done]. constructor; try done; by apply wake_lookup.
Qed.

(** C36: two ways to hang.  An error that arrives while [udp_shutdown] runs can leave a
    reader asleep for ever: whatever happens, short of making the socket nonblocking, it is
    not woken.  [udp_shutdown] and [udp_set_nonblocking] take the two locks in opposite
    orders: both can wait for ever, and then nobody can read or receive any more. *)
Theorem udp_can_hang :
  (exists s, reachable s /\ pcs s = {[1%nat := PReadWait 100]} /\ shutdown (sock s) = true /\
    forall s', rtc (fun a b => step a b /\ nonblocking (sock b) = false) s s' -> pcs s' !! 1%nat = Some (PReadWait 100)) /\
  (exists s, reachable s /\ pcs s !! 1%nat = Some (PShutHalf false) /\ pcs s !! 2%nat = Some (PNbHalf true) /\
    forall s', rtc step s s' -> pcs s' !! 1%nat = Some (PShutHalf false) /\ pcs s' !! 2%nat = Some (PNbHalf true) /\ accepted s' = accepted s /\ delivered s' = delivered s).
Proof.
  split.
  - destruct lost_wakeup_run as (s & R & Hpc & Hq & Hs & He & Hb & Hc & Ho & Hf & Hn & Hw). exists s. split; [done|]. split; [done|]. split; [done|]. intros s' Hrun.
    assert (forgotten s) as F.
    { constructor; try done; rewrite Hpc; [apply lookup_singleton_eq|]. intros t p Ht Hne. by rewrite lookup_singleton_ne in Ht. }
    clear -F Hrun. induction Hrun as [x|x y z [H1 H2] _ IH]; [apply F|]. apply IH. by apply (forgotten_step x).
  - destruct deadlock_run as (s & R & D). exists s. split; [done|]. split; [apply D|]. split; [apply D|]. intros s' Hrun. clear R.
    assert (deadlocked s' /\ accepted s' = accepted s /\ delivered s' = delivered s) as (D' & Ea & Ed).
    { induction Hrun as [|x y z H1 _ IH]; [done|]. destruct (deadlock_step _ _ D H1) as (D1 & E1 & E2). destruct (IH D1) as (D2 & E3 & E4). by rewrite E3, E4. }
    split; [apply D'|]. split; [apply D'|done].
Qed.

(** Writes that fail for want of a buffer, one after the other. *)
Lemma leak_run n : Z.of_nat n <= UDP_OUT_DEFAULT_CAP -> exists s, reachable s /\ pcs s = ∅ /\ inflight s = 0%nat /\ leaked s = n /\ resized s = false /\ closed s = false /\
  outq_lock s = None /\ sock s = udp_init_conn <| outq_len := Z.of_nat n |>.
Proof.
  induction n as [|n IH]; intros Hn; [exists udp_new; split; [apply RInit|done]|]. destruct IH as (s & R & Hp & Hi & Hl & Hr & Hc & Ho & Hs); [lia|].
  eapply RStep in R; [|apply (StartWrite _ 1); [by rewrite Hp|done]]. eapply RStep in R; [|apply (WriteLocked _ 1); [fields; by rewrite lookup_partial_alter_eq|done]].
  unfold udp_write_to in R. revert R. fields. rewrite Hs. fields. rewrite (proj2 (Z.leb_gt _ _)) by (cbn [outq_cap udp_init_conn]; lia). simpl. intros R.
  eapply RStep in R; [|apply (Sent _ 1 false); fields; by rewrite lookup_partial_alter_eq]. eexists. split; [exact R|]. split; [simpl; by rewrite Hp|]. split; [done|].
  split; [simpl; by rewrite Hl|]. split; [done|]. split; [done|]. split; [done|]. simpl. unfold set. simpl. do 2 f_equal. lia.
Qed.
Lemma wake_all_leaked l s : leaked (wake_all l s) = leaked s.
Proof. unfold wake_all. revert s. induction l as [|u l IH]; intros s; [done|]. simpl. by rewrite IH. Qed.
Lemma leaked_mono s s' : rtc step s s' -> (leaked s <= leaked s')%nat.
Proof.
  induction 1 as [|x y z H _ IH]; [done|]. etransitivity; [|exact IH]. step_cases H; cases; try done; try (by destruct th).
  - simpl. lia.
  - by rewrite wake_all_leaked.
Qed.
Lemma rtc_reachable s s' : rtc step s s' -> reachable s -> reachable s'.
Proof. induction 1 as [|x y z H _ IH]; [done|]. intros R. apply IH. by apply (RStep x). Qed.

(** [udp_write_to] does not give its slot of the send queue back when it finds no buffer
    or cannot send: any number of slots can be lost while no call is in progress and
    nothing is in flight.  When all are lost no write ever gets to send again, and a socket
    that lost one is never released. *)
Theorem udp_slots_leak :
  (forall n, Z.of_nat n <= UDP_OUT_DEFAULT_CAP -> exists s, reachable s /\ pcs s = ∅ /\ inflight s = 0%nat /\ leaked s = n /\ closed s = false /\ resized s = false) /\
  (forall s s', reachable s -> Z.of_nat (leaked s) = UDP_OUT_DEFAULT_CAP -> rtc step s s' -> resized s' = false -> inflight s' = 0%nat /\ forall t, pcs s' !! t <> Some PSend) /\
  (forall s s', reachable s -> (0 < leaked s)%nat -> rtc step s s' -> puts s' = 0%nat).
Proof.
  split; [|split].
  - intros n Hn. destruct (leak_run n Hn) as (s & R & Hp & Hi & Hl & Hr & Hc & _ & _). by exists s.
  - intros s s' R Hl Hrun Hr. pose proof (leaked_mono _ _ Hrun) as Hm. pose proof (rtc_reachable _ _ Hrun R) as R'. pose proof (counts_reachable s' R') as N.
    destruct (d_cap s' (queue_reachable s' R') Hr) as (_ & _ & _ & Hcap). rewrite (n_slot s' N) in Hcap. pose proof (tally_nonneg w_slot (pcs s') w_slot_pos).
    split; [lia|]. intros t Ht. pose proof (tally_ge w_slot _ _ _ w_slot_pos Ht) as Hge. simpl in Hge. lia.
  - intros s s' R Hl Hrun. pose proof (leaked_mono _ _ Hrun) as Hm. pose proof (counts_reachable s' (rtc_reachable _ _ Hrun R)) as N.
    pose proof (tally_nonneg w_put (pcs s') w_put_pos). pose proof (tally_nonneg w_slot (pcs s') w_slot_pos). destruct (decide (puts s' = 0%nat)); [done|].
    destruct (put_marked s' N) as [_ Hz]; [lia|]. rewrite (n_slot s' N) in Hz. lia.
Qed.

(** ** From sender to receiver *)

Definition udp_header (la raddr : netaddr) (len : Z) : list Z := bytes_be16 (port la) ++ bytes_be16 (port raddr) ++ bytes_be16 (u16 (len + 8)) ++ [0; 0].
(** What [udp_send] hands to the network layer. *)
Lemma udp_send_ip c arp mem_ok spawn_ok reserved payload laddr la raddr : (128 <= length reserved)%nat -> 128 < eth_mtu c <= 65535 -> Z.of_nat (length payload) <= udp_payload_size c ->
  local_addr c laddr = Some la -> 0 < port la -> ip raddr <> IP_LOOPBACK -> exists b, length (front b) = 120%nat /\ data b = udp_header la raddr (Z.of_nat (length payload)) ++ payload /\
  udp_send c arp true mem_ok spawn_ok reserved payload laddr raddr =
    ('(ret, out, _) ← net_tx_ip c arp mem_ok spawn_ok IPPROTO_UDP (ip raddr) b; Some (if ret =? 0 then (Z.of_nat (length payload), out) else (ret, out ++ [FreeBuf]))).
Proof.
  intros Hres Hmtu Hlen Hla Hp1 Hnl. unfold udp_send. rewrite (proj2 (Z.ltb_ge _ _)) by done. rewrite Hla. rewrite (proj2 (Z.eqb_neq (port la) 0)) by lia.
  assert (no_loopback c raddr = raddr) as Enl by (unfold no_loopback; by rewrite (proj2 (Z.eqb_neq _ _))). cbv zeta. rewrite !Enl. cbn [negb].
  unfold udp_payload_size, u32 in Hlen. change (Z.of_nat (ip_hdr_len + udp_hdr_len)) with 28 in Hlen. rewrite Z.mod_small in Hlen by lia.
  unfold net_tx_alloc_mbuf, mbuf_init. change (Z.to_nat MBUF_DEFAULT_HEADROOM) with 128%nat. rewrite length_take_le by done. rewrite (proj2 (Z.ltb_lt _ _)) by lia. cbn [mbind option_bind].
  unfold mbuf_put. cbn [head_len]. unfold mbuf_length. cbn [data length]. rewrite (proj2 (Z.ltb_ge _ _)) by lia. cbn [mbind option_bind app].
  unfold udp_send_raw. rewrite Enl. change (bytes_be16 (port la) ++ _) with (udp_header la raddr (Z.of_nat (length payload))). set (hdr := udp_header _ _ _).
  assert (length hdr = 8%nat) as Lhdr by done. unfold mbuf_push. cbn [front set eta_buf data].
  rewrite length_take_le by done. rewrite (proj2 (Nat.ltb_ge _ _)) by lia. cbn [mbind option_bind].
  match goal with |- context [net_tx_ip _ _ _ _ _ _ ?b0] => exists b0 end. split; [|done]. cbn [front]. rewrite !length_take. lia.
Qed.

(** C13: a datagram that [udp_send] accepts for another host, whose MAC address ARP knows and
    whose header checksum the card fills in, is received there by the transport layer under
    the addresses and ports it was sent with, and yields exactly the payload, with the
    sender's address and port. *)
Theorem udp_datagram_roundtrip c peer arp mem_ok spawn_ok reserved payload laddr la raddr dhost csum :
  (128 <= length reserved)%nat -> 128 < eth_mtu c <= 65535 -> Z.of_nat (length payload) <= udp_payload_size c ->
  local_addr c laddr = Some la -> 0 < port la < 2 ^ 16 -> 0 <= port raddr < 2 ^ 16 -> 0 <= addr c < 2 ^ 32 -> 0 <= ip raddr < 2 ^ 32 ->
  ip raddr <> addr c -> ip raddr <> IP_LOOPBACK -> length (mac_addr c) = 6%nat -> length dhost = 6%nat -> arp (net_get_ip_route c (ip raddr)) = ArpKnown dhost -> mac_addr peer = dhost ->
  exists frame flags m, udp_send c arp true mem_ok spawn_ok reserved payload laddr raddr = Some (Z.of_nat (length payload), [Xmit frame flags]) /\
    Z.land flags OLFLAG_IP_CHKSUM = OLFLAG_IP_CHKSUM /\ net_rx_one peer csum (rx_buf (fill_ip_checksum frame)) = Some (RxTrans m) /\
    l4_of m = Some (L4Packet IPPROTO_UDP (addr c) (ip raddr) (port la) (port raddr) (Z.of_nat (length payload) + 8)) /\
    udp_pull m = Some (Some (Dgram (NetAddr (addr c) (port la)) payload)).
Proof.
  intros Hres Hmtu Hlen Hla Hp1 Hp2 Ha Hd Hne Hnl Lm Lh Harp Hpeer.
  destruct (udp_send_ip c arp mem_ok spawn_ok reserved payload laddr la raddr) as (b & Lf & Eb & ->); try done; [lia|].
  assert (mbuf_length b = Z.of_nat (length payload) + 8) as Lb by (unfold mbuf_length; rewrite Eb, length_app; simpl; lia).
  unfold udp_payload_size, u32 in Hlen. change (Z.of_nat (ip_hdr_len + udp_hdr_len)) with 28 in Hlen. rewrite Z.mod_small in Hlen by lia.
  destruct (ip_delivered c peer arp mem_ok spawn_ok IPPROTO_UDP (ip raddr) b dhost csum) as (frame & flags & b' & m & -> & E2 & E3 & E4 & E5); try done; try lia.
  - unfold mbuf_headroom, USHRT_MAX. lia.
  - exists frame, flags, m. split; [done|]. split; [done|]. split; [done|].
    assert (be (field 0 2 (data b)) = port la /\ be (field 2 2 (data b)) = port raddr) as [F1 F2].
    { rewrite Eb. split; [exact (be16_bytes (port la) ltac:(lia))|exact (be16_bytes (port raddr) Hp2)]. }
    split; [by rewrite E5, F1, F2, Lb|]. revert E5. unfold l4_of, udp_pull. destruct (mbuf_network_hdr ip_hdr_len m) as [h|]; [|done]. cbn [mbind option_bind]. intros [= _ Hsa _ _ _ _].
    unfold mbuf_pull_or_null. rewrite E4, Eb, (proj2 (Nat.leb_le udp_hdr_len _)) by (rewrite length_app; change (length (udp_header _ _ _)) with 8%nat; unfold udp_hdr_len; lia). cbn [data set eta_buf].
    rewrite Hsa. change (be (field 0 2 (take udp_hdr_len (udp_header la raddr (Z.of_nat (length payload)) ++ payload)))) with (be (field 0 2 (udp_header la raddr (Z.of_nat (length payload)) ++ payload))).
    rewrite <- Eb, F1, Eb. done.
Qed.
Lemma udp_datagram_roundtrip_witness : exists frame flags m,
  let c := NetCfg 0x0a000001 0xffffff00 0x0a0000fe [2; 0; 0; 0; 0; 1] 1500 in
  udp_send c (fun _ => ArpKnown [2; 0; 0; 0; 0; 2]) true true true (replicate 128 0) [104; 105] (NetAddr 0 4000) (NetAddr 0x0a000002 53) = Some (2, [Xmit frame flags]) /\
  Z.land flags OLFLAG_IP_CHKSUM = OLFLAG_IP_CHKSUM /\
  net_rx_one (NetCfg 0x0a000002 0xffffff00 0x0a0000fe [2; 0; 0; 0; 0; 2] 1500) false (rx_buf (fill_ip_checksum frame)) = Some (RxTrans m) /\
  l4_of m = Some (L4Packet IPPROTO_UDP 0x0a000001 0x0a000002 4000 53 10) /\ udp_pull m = Some (Some (Dgram (NetAddr 0x0a000001 4000) [104; 105])).
Proof.
  exact (udp_datagram_roundtrip (NetCfg 0x0a000001 0xffffff00 0x0a0000fe [2; 0; 0; 0; 0; 1] 1500) (NetCfg 0x0a000002 0xffffff00 0x0a0000fe [2; 0; 0; 0; 0; 2] 1500)
    (fun _ => ArpKnown [2; 0; 0; 0; 0; 2]) true true (replicate 128 0) [104; 105] (NetAddr 0 4000) (NetAddr 0x0a000001 4000) (NetAddr 0x0a000002 53) [2; 0; 0; 0; 0; 2] false
    ltac:(apply Nat.leb_le; reflexivity) ltac:(done) ltac:(done) ltac:(done) ltac:(done) ltac:(done) ltac:(done) ltac:(done) ltac:(done) ltac:(done) ltac:(done) ltac:(done)
    ltac:(done) ltac:(done)).
Defined.
