(* ===== verification/RpcUtil.v ===== *)
(** * breakwater: whole reads and writes

    Models [breakwater/src/util.c]: loops that read or write exactly what was asked for
    over a connection that takes or gives it in pieces.  What each call of the connection
    returns is a list; a loop that outlives the list waits. *)

From S2P Require Import Prelude StdDef.

(** A piece that was read, the end of the stream or an error. *)
Inductive piece := Bytes (bs : list Z) | Fails (err : Z).

(** With the result of the loop, and what is in the buffer. *)
Fixpoint tcp_read_full (rs : list piece) (got : list Z) (len : Z) : option (Z * list Z) :=
  if negb (Z.of_nat (length got) <? len) then Some (Z.of_nat (length got), got)
  else match rs with
       | [] => None
       | Fails e :: _ => Some (e, got)
       | Bytes bs :: rs => if bool_decide (bs = []) then Some (0, got) else tcp_read_full rs (got ++ bs) len
       end.

(** The vectors left after [n] bytes, if any are. *)
Fixpoint pull_iov (n : Z) (iov : list (list Z)) : option (list (list Z)) :=
  match iov with
  | [] => None
  | v :: r => if n <? Z.of_nat (length v) then Some (drop (Z.to_nat n) v :: r) else pull_iov (n - Z.of_nat (length v)) r
  end.
(** With the result of the loop, and what the connection took. *)
Fixpoint tcp_writev_full (rs : list Z) (iov : list (list Z)) (len : Z) : option (Z * list Z) :=
  match rs with
  | [] => None
  | n :: rs =>
      if n <? 0 then Some (n, [])
      else
        let took := take (Z.to_nat n) (concat iov) in
        match pull_iov n iov with
        | Some iov => match tcp_writev_full rs iov (len + n) with Some (r, bs) => Some (r, took ++ bs) | None => None end
        | None => Some (len + n, took)
        end
  end.
Definition tcp_write_full (rs : list Z) (buf : list Z) : option (Z * list Z) := tcp_writev_full rs [buf] 0.

(** The connection reads at most what it is asked for, and writes something, but no more
    than it is given. *)
Fixpoint reads_fit (rs : list piece) (room : Z) : Prop :=
  match rs with Bytes bs :: rs => Z.of_nat (length bs) <= room /\ reads_fit rs (room - Z.of_nat (length bs)) | Fails e :: _ => e <= 0 | [] => True end.
Fixpoint writes_fit (rs : list Z) (room : Z) : Prop :=
  match rs with n :: rs => n < 0 \/ 0 < n <= room /\ writes_fit rs (room - n) | [] => True end.

Lemma pull_iov_some n iov iov' : 0 <= n -> pull_iov n iov = Some iov' -> concat iov' = drop (Z.to_nat n) (concat iov) /\ n < Z.of_nat (length (concat iov)).
Proof.
  revert n. induction iov as [|v r IH]; intros n Hn H; simpl in *; [done|]. rewrite length_app. destruct (n <? Z.of_nat (length v)) eqn:E.
  - simplify_eq. simpl. rewrite drop_app_le by lia. split; [done|lia].
  - destruct (IH (n - Z.of_nat (length v)) ltac:(lia) H) as [-> Hl]. rewrite drop_app_ge by lia. split; [f_equal; lia|lia].
Qed.
Lemma pull_iov_none n iov : 0 <= n -> pull_iov n iov = None -> Z.of_nat (length (concat iov)) <= n.
Proof.
  revert n. induction iov as [|v r IH]; intros n Hn H; simpl in *; [lia|]. rewrite length_app. destruct (n <? Z.of_nat (length v)) eqn:E; [done|]. specialize (IH (n - Z.of_nat (length v)) ltac:(lia) H). lia.
Qed.
(** A write that succeeds has handed over all bytes in order, whatever the pieces, and
    returns their number. *)
Lemma tcp_writev_full_all rs iov len r bs : writes_fit rs (Z.of_nat (length (concat iov))) -> 0 <= len -> tcp_writev_full rs iov len = Some (r, bs) -> 0 <= r ->
  bs = concat iov /\ r = len + Z.of_nat (length (concat iov)).
Proof.
  revert iov len r bs. induction rs as [|n rs IH]; intros iov len r bs Hf Hl E Hr; [done|]. cbn [tcp_writev_full writes_fit] in *. destruct (n <? 0) eqn:En; [simplify_eq; lia|]. destruct Hf as [Hf|[Hn Hf]]; [lia|].
  destruct (pull_iov n iov) as [iov'|] eqn:Ep.
  - destruct (pull_iov_some n iov iov' ltac:(lia) Ep) as [Ec Hlt]. destruct (tcp_writev_full rs iov' (len + n)) as [[r' bs']|] eqn:E'; [|done]. simplify_eq.
    assert (Z.of_nat (length (concat iov')) = Z.of_nat (length (concat iov)) - n) as El by (rewrite Ec, length_drop; lia).
    destruct (IH iov' (len + n) r bs' ltac:(by rewrite El) ltac:(lia) E' Hr) as [-> ->]. split; [by rewrite Ec, take_drop|lia].
  - simplify_eq. pose proof (pull_iov_none n iov ltac:(lia) Ep). rewrite take_ge by lia. split; [done|lia].
Qed.
(** It returns: after as many calls as there are bytes nothing is left. *)
Lemma tcp_writev_full_returns rs iov len : writes_fit rs (Z.of_nat (length (concat iov))) -> (0 < length (concat iov) <= length rs)%nat -> tcp_writev_full rs iov len <> None.
Proof.
  revert iov len. induction rs as [|n rs IH]; intros iov len Hf Hn; [simpl in Hn; lia|]. cbn [tcp_writev_full writes_fit] in *. destruct (n <? 0) eqn:En; [done|]. destruct Hf as [Hf|[Hp Hf]]; [lia|].
  destruct (pull_iov n iov) as [iov'|] eqn:Ep; [|done]. destruct (pull_iov_some n iov iov' ltac:(lia) Ep) as [Ec Hlt].
  assert (Z.of_nat (length (concat iov')) = Z.of_nat (length (concat iov)) - n) as El by (rewrite Ec, length_drop; lia). simpl in Hn.
  pose proof (IH iov' (len + n) ltac:(by rewrite El) ltac:(lia)) as H. by destruct (tcp_writev_full rs iov' (len + n)) as [[]|].
Qed.
(** A read that succeeds has as many bytes as asked for, in order. *)
Lemma tcp_read_full_all rs got len r bs : reads_fit rs (len - Z.of_nat (length got)) -> Z.of_nat (length got) <= len -> tcp_read_full rs got len = Some (r, bs) -> 0 < r ->
  r = len /\ Z.of_nat (length bs) = len /\ got `prefix_of` bs.
Proof.
  revert got. induction rs as [|p rs IH]; intros got Hf Hl E Hr; cbn [tcp_read_full reads_fit] in *; destruct (Z.of_nat (length got) <? len) eqn:El; cbn [negb] in E; try (simplify_eq; split; [lia|]; split; [lia|done]); [done|].
  destruct p as [p|e]; [|simplify_eq; lia]. case_bool_decide as Ep; [simplify_eq; lia|]. destruct Hf as [Hp Hf].
  destruct (IH (got ++ p)) as (E1 & E2 & E3); try done; rewrite ?length_app; [by replace (len - Z.of_nat (length got + length p)) with (len - Z.of_nat (length got) - Z.of_nat (length p)) by lia|lia|].
  split; [done|]. split; [done|]. etransitivity; [|exact E3]. by exists p.
Qed.
(** A read of nothing returns zero, which is also what the end of the stream returns. *)
Lemma tcp_read_full_nothing rs : tcp_read_full rs [] 0 = Some (0, []).
Proof. by destruct rs. Qed.
