(* ===== verification/BwClient.v ===== *)
(** * breakwater: requests and windows, on the client

    Models [breakwater/src/bw_client.c]: a ring of the last sixteen requests that wait for
    a window, with indices that wrap at 32 bits, and the thread that drops requests when
    they are too old.  Every call is a section under the session's mutex; the messages that
    it writes to the connection are its second result.  The tail of the file shows that
    the ring is a queue that drops its oldest requests, and that requests leave in order
    and within the window. *)

From S2P Require Import Prelude StdDef.

Definition CRPC_QLEN : Z := 16.
Definition SRPC_BUF_SIZE : Z := 4096.
Definition CBW_MAX_CLIENT_DELAY_US : Z := 10.
Definition E2BIG : Z := 7.

(** ** Data *)

(** [struct crpc_ctx]; [c_data] is [buf], up to [len]. *)
Record crpc_ctx := Ctx { c_id : Z; c_ts : Z; c_data : list Z }.
(** [struct cbw_hdr] with the payload: a call or a window update. *)
Inductive cmsg :=
| MCall (id demand ts_sent : Z) (dsync : bool) (data : list Z)
| MWinupdate (demand : Z) (dsync : bool).
(** [struct sbw_hdr]: a response, or a window update. *)
Inductive smsg := SResponse (id w ts_sent : Z) (drop : bool) (data : list Z) | SWinupdate (w : Z).

Record cbw_session := Cbw {
  req_id : Z; waiting_winupdate : bool; win_avail : Z; win_used : Z; running : bool; demand_sync : bool; init : bool;
  head : Z; tail : Z; qreq : list crpc_ctx; winu_rx : Z; winu_tx : Z; resp_rx : Z; req_tx : Z; req_dropped : Z }.
#[global] Instance eta_cbw_session : Settable cbw_session := fun r =>
  Cbw (req_id r) (waiting_winupdate r) (win_avail r) (win_used r) (running r) (demand_sync r) (init r)
    (head r) (tail r) (qreq r) (winu_rx r) (winu_tx r) (resp_rx r) (req_tx r) (req_dropped r).

(** [cbw_open]. *)
Definition cbw_open : cbw_session := Cbw 1 false 0 0 true false false 0 0 (replicate 16 (Ctx 0 0 [])) 0 0 0 0 0.

Definition qlen (s : cbw_session) : Z := u32 (head s - tail s).
Definition slot_at (s : cbw_session) (pos : Z) : crpc_ctx := nth (Z.to_nat (pos mod CRPC_QLEN)) (qreq s) (Ctx 0 0 []).

(** ** Sections *)

(** Whether the write succeeds is [ok]. *)
Definition crpc_send_winupdate (ok : bool) (s : cbw_session) : cbw_session * list cmsg :=
  (if ok then s <| winu_tx := winu_tx s + 1 |> else s, [MWinupdate (qlen s) (demand_sync s)]).

(** The loop of [crpc_send_request_vector], which sends at most as many requests as wait. *)
Fixpoint vector_loop (n : nat) (now : Z) (s : cbw_session) : cbw_session * list cmsg :=
  match n with
  | O => (s, [])
  | S n =>
      if negb (head s =? tail s) && (win_used s <? win_avail s) then
        let c := slot_at s (tail s) in
        let s := s <| tail := u32 (tail s + 1) |> in
        let m := MCall (c_id c) (qlen s) now (demand_sync s) (c_data c) in
        let '(s, ms) := vector_loop n now (s <| win_used := u32 (win_used s + 1) |>) in (s, m :: ms)
      else (s, [])
  end.
Definition crpc_send_request_vector (now : Z) (s : cbw_session) : cbw_session * list cmsg :=
  if (head s =? tail s) || (win_avail s <=? win_used s) then (s, [])
  else
    let '(s, ms) := vector_loop (Z.to_nat (qlen s)) now s in
    let s := if head s =? tail s then s <| head := 0 |> <| tail := 0 |> else s in
    (s <| req_tx := req_tx s + Z.of_nat (length ms) |>, ms).

(** [crpc_send_raw]: with the value that it returns, the length or the error. *)
Definition crpc_send_raw (err : option Z) (now : Z) (data : list Z) (id : Z) (s : cbw_session) : cbw_session * list cmsg * Z :=
  let m := MCall id (qlen s) now (demand_sync s) data in
  match err with Some e => (s, [m], e) | None => (s <| req_tx := req_tx s + 1 |>, [m], Z.of_nat (length data)) end.

(** The loop that drops requests that have waited too long, in [crpc_drain_queue] and
    [crpc_timer]. *)
Fixpoint expire_loop (n : nat) (now : Z) (s : cbw_session) : cbw_session :=
  match n with
  | O => s
  | S n =>
      if negb (head s =? tail s) && negb (u64 (now - c_ts (slot_at s (tail s))) <=? CBW_MAX_CLIENT_DELAY_US)
      then expire_loop n now (s <| tail := u32 (tail s + 1) |> <| req_dropped := req_dropped s + 1 |>) else s
  end.
Definition drop_expired (now : Z) (s : cbw_session) : cbw_session := expire_loop (Z.to_nat (qlen s)) now s.
(** [now'] is the time that [crpc_send_request_vector] reads. *)
Definition crpc_drain_queue (ok : bool) (now now' : Z) (s : cbw_session) : cbw_session * list cmsg :=
  if (head s =? tail s) || waiting_winupdate s then (s, [])
  else if (win_avail s =? 0) && demand_sync s then crpc_send_winupdate ok (s <| waiting_winupdate := true |>)
  else crpc_send_request_vector now' (drop_expired now s).

(** The last result says whether the timer thread is signalled. *)
Definition crpc_enqueue_one (ok : bool) (now : Z) (data : list Z) (s : cbw_session) : cbw_session * list cmsg * bool :=
  let s := if CRPC_QLEN <=? qlen s then s <| tail := u32 (tail s + 1) |> <| req_dropped := req_dropped s + 1 |> else s in
  let s := s <| qreq := <[Z.to_nat (head s mod CRPC_QLEN) := Ctx (req_id s) now data]> (qreq s) |> <| head := u32 (head s + 1) |> <| req_id := u64 (req_id s + 1) |> in
  let '(s, ms) := if init s then (s, []) else let '(s, ms) := crpc_send_winupdate ok s in (s <| waiting_winupdate := true |> <| init := true |>, ms) in
  (s, ms, qlen s =? 1).

(** [cbw_send_one] of a request that is not too long, with its result; the three times are
    those that are read in order. *)
Definition cbw_send_one (err : option Z) (ok : bool) (now now1 now2 : Z) (data : list Z) (s : cbw_session) : cbw_session * list cmsg * bool * Z :=
  if (win_used s <? win_avail s) && (head s =? tail s) then
    let '(s, ms, ret) := crpc_send_raw err now data (req_id s) (s <| win_used := u32 (win_used s + 1) |> <| req_id := u64 (req_id s + 1) |>) in (s, ms, false, ret)
  else
    let '(s, ms, signal) := crpc_enqueue_one ok now data s in
    let '(s, ms') := crpc_drain_queue ok now1 now2 s in
    (s, ms ++ ms', signal, Z.of_nat (length data)).
Definition cbw_send (err : option Z) (ok : bool) (now now1 now2 : Z) (data : list Z) (s : cbw_session) : cbw_session * list cmsg * bool * Z :=
  if SRPC_BUF_SIZE <? Z.of_nat (length data) then (s, [], false, - E2BIG) else cbw_send_one err ok now now1 now2 data s.

(** The section of [cbw_recv_one] for a message of the server; [None] is a failed assertion. *)
Definition cbw_recv_one (ok : bool) (now now' : Z) (m : smsg) (s : cbw_session) : option (cbw_session * list cmsg) :=
  match m with
  | SResponse _ w _ _ data =>
      let s := if bool_decide (data = []) then s else s <| resp_rx := resp_rx s + 1 |> in
      if win_used s =? 0 then None
      else
        let s := s <| win_used := u32 (win_used s - 1) |> <| win_avail := u32 w |> <| waiting_winupdate := false |> in
        Some (if 0 <? win_avail s then crpc_drain_queue ok now now' s else (s, []))
  | SWinupdate w =>
      let s := s <| win_avail := u32 w |> <| waiting_winupdate := false |> in
      let '(s, ms) := if 0 <? win_avail s then crpc_drain_queue ok now now' s else (s, []) in
      Some (s <| winu_rx := winu_rx s + 1 |>, ms)
  end.

(** [crpc_timer] with the mutex: it waits for a request, or drops the old ones, and sleeps
    until the time that is the last result. *)
Inductive tpc := TRun | TWait | TSleep (until : Z) | TDone.
Definition crpc_timer (ok : bool) (now : Z) (s : cbw_session) : cbw_session * list cmsg * tpc :=
  if running s && (head s =? tail s) then (s, [], TWait)
  else if negb (running s) then (s, [], TDone)
  else
    let n := qlen s in
    let s := drop_expired now s in
    if head s =? tail s then
      if (0 <? n - qlen s) && demand_sync s then let '(s, ms) := crpc_send_winupdate ok (s <| waiting_winupdate := false |>) in (s, ms, TRun)
      else (s, [], TRun)
    else (s, [], TSleep (u64 (c_ts (slot_at s (u32 (head s - 1))) + CBW_MAX_CLIENT_DELAY_US))).
(** [cbw_close] up to the wait for the timer thread. *)
Definition cbw_close (s : cbw_session) : cbw_session := s <| running := false |>.

(** ** The ring is a queue *)

(** The requests that wait, the oldest first. *)
Definition queue (s : cbw_session) : list crpc_ctx := map (fun k => slot_at s (tail s + Z.of_nat k)) (seq 0 (Z.to_nat (qlen s))).
Record wf (s : cbw_session) : Prop := {
  wf_ring : length (qreq s) = 16%nat; wf_head : 0 <= head s < 2 ^ 32; wf_tail : 0 <= tail s < 2 ^ 32; wf_qlen : qlen s <= 16;
  wf_avail : 0 <= win_avail s < 2 ^ 32; wf_used : 0 <= win_used s < 2 ^ 32 }.
Lemma qlen_range s : 0 <= qlen s < 2 ^ 32.
Proof. unfold qlen, u32. apply Z.mod_pos_bound. lia. Qed.
Lemma length_queue s : Z.of_nat (length (queue s)) = qlen s.
Proof. unfold queue. rewrite length_map, length_seq. pose proof (qlen_range s). lia. Qed.
Lemma qlen_zero s : wf s -> (head s =? tail s) = (qlen s =? 0).
Proof.
  intros [_ Hh Ht _ _ _]. unfold qlen. destruct (head s =? tail s) eqn:E.
  - apply Z.eqb_eq in E. by rewrite E, Z.sub_diag.
  - apply Z.eqb_neq in E. symmetry. apply Z.eqb_neq. unfold u32. intros H. apply Z.mod_divide in H as [k Hk]; [|lia]. nia.
Qed.
Lemma slot_at_mod s p q : (p - q) mod 16 = 0 -> slot_at s p = slot_at s q.
Proof. intros H. unfold slot_at, CRPC_QLEN. replace (p mod 16) with (q mod 16); [done|]. apply Z.mod_divide in H as [k Hk]; [|lia]. replace p with (q + k * 16) by lia. by rewrite Z.mod_add. Qed.
Lemma u32_mod16 x k : (u32 x + k - (x + k)) mod 16 = 0.
Proof.
  unfold u32. rewrite (Z.mod_eq x (2 ^ 32)) by lia. replace (x - 2 ^ 32 * (x / 2 ^ 32) + k - (x + k)) with (- (2 ^ 28 * (x / 2 ^ 32)) * 16) by lia. apply Z.mod_mul. lia.
Qed.
Lemma qlen_pop s : 0 < qlen s -> u32 (head s - u32 (tail s + 1)) = qlen s - 1.
Proof.
  intros H. pose proof (qlen_range s) as Hr. unfold qlen, u32 in *. rewrite Zminus_mod_idemp_r. replace (head s - (tail s + 1)) with (head s - tail s - 1) by lia.
  rewrite <- (Zminus_mod_idemp_l (head s - tail s)). apply Z.mod_small. lia.
Qed.
(** Taking the oldest request. *)
Lemma queue_pop s s' : wf s -> 0 < qlen s -> head s' = head s -> tail s' = u32 (tail s + 1) -> qreq s' = qreq s ->
  queue s = slot_at s (tail s) :: queue s' /\ qlen s' = qlen s - 1.
Proof.
  intros Hw Hq Eh Et Er. assert (qlen s' = qlen s - 1) as El by (unfold qlen at 1; rewrite Eh, Et; by apply qlen_pop). split; [|done]. unfold queue. rewrite El.
  replace (Z.to_nat (qlen s)) with (S (Z.to_nat (qlen s - 1))) by lia. simpl. rewrite Z.add_0_r. f_equal. rewrite <- seq_shift, map_map. apply map_ext_in. intros k _.
  unfold slot_at at 1 2. rewrite Er. change (slot_at s (tail s + Z.of_nat (S k)) = slot_at s (tail s' + Z.of_nat k)). apply slot_at_mod. rewrite Et.
  pose proof (u32_mod16 (tail s + 1) (Z.of_nat k)) as H. apply Z.mod_divide in H as [q Hq']; [|lia]. apply Z.mod_divide; [lia|]. exists (- q). lia.
Qed.

(** What the sections do to the queue. *)
Fixpoint a_send (room : nat) (now : Z) (ds : bool) (q : list crpc_ctx) : list crpc_ctx * list cmsg :=
  match room, q with
  | S room, c :: q => let '(r, ms) := a_send room now ds q in (r, MCall (c_id c) (Z.of_nat (length q)) now ds (c_data c) :: ms)
  | _, _ => (q, [])
  end.
Fixpoint a_expire (now : Z) (q : list crpc_ctx) : list crpc_ctx :=
  match q with c :: r => if u64 (now - c_ts c) <=? CBW_MAX_CLIENT_DELAY_US then q else a_expire now r | [] => [] end.
Definition a_enqueue (c : crpc_ctx) (q : list crpc_ctx) : list crpc_ctx := (if 16 <=? Z.of_nat (length q) then List.tl q else q) ++ [c].

Lemma queue_empty s : qlen s = 0 -> queue s = [].
Proof. intros H. apply length_zero_iff_nil. pose proof (length_queue s). lia. Qed.
Lemma cbw_queue_ext s s' : head s' = head s -> tail s' = tail s -> qreq s' = qreq s -> queue s' = queue s.
Proof. intros E1 E2 E3. unfold queue, qlen, slot_at. by rewrite E1, E2, E3. Qed.
Lemma wf_ext s s' : wf s -> head s' = head s -> tail s' = tail s -> qreq s' = qreq s -> win_avail s' = win_avail s -> win_used s' = win_used s -> wf s'.
Proof. intros [] E1 E2 E3 E4 E5. constructor; unfold qlen in *; rewrite ?E1, ?E2, ?E3, ?E4, ?E5; done. Qed.
Lemma wf_pop s s' : wf s -> 0 < qlen s -> head s' = head s -> tail s' = u32 (tail s + 1) -> qreq s' = qreq s -> win_avail s' = win_avail s -> 0 <= win_used s' < 2 ^ 32 -> wf s'.
Proof.
  intros Hw Hq Eh Et Er Ea Hu. destruct (queue_pop s s' Hw Hq Eh Et Er) as [_ El]. destruct Hw. constructor; rewrite ?Eh, ?Er, ?Ea; try done; [|lia]. rewrite Et. unfold u32. apply Z.mod_pos_bound. lia.
Qed.
Lemma vector_loop_spec n now s : wf s -> qlen s <= Z.of_nat n ->
  let '(s', ms) := vector_loop n now s in
  (queue s', ms) = a_send (Z.to_nat (win_avail s - win_used s)) now (demand_sync s) (queue s) /\ wf s' /\
  s' = s <| tail := tail s' |> <| win_used := win_used s + Z.of_nat (length ms) |>.
Proof.
  revert s. induction n as [|n IH]; intros s Hw Hn; cbn [vector_loop].
  - pose proof (qlen_range s). rewrite (queue_empty s) by lia. split; [by destruct (Z.to_nat _)|]. split; [done|]. destruct s. unfold set. simpl. f_equal. lia.
  - rewrite (qlen_zero s Hw). pose proof (qlen_range s) as Hr. destruct (qlen s =? 0) eqn:E0; cbn [negb andb].
    { rewrite (queue_empty s) by lia. split; [by destruct (Z.to_nat _)|]. split; [done|]. destruct s. unfold set. simpl. f_equal. lia. }
    destruct (win_used s <? win_avail s) eqn:Eu.
    2:{ replace (Z.to_nat (win_avail s - win_used s)) with 0%nat by lia. split; [done|]. split; [done|]. destruct s. unfold set. simpl. f_equal. lia. }
    set (s1 := s <| tail := u32 (tail s + 1) |> <| win_used := u32 (win_used s + 1) |>). assert (u32 (win_used s + 1) = win_used s + 1) as Eu1 by (destruct Hw; apply Z.mod_small; lia).
    assert (wf s1) as Hw1 by (apply (wf_pop s); try done; [lia|]; simpl; rewrite Eu1; destruct Hw; lia).
    destruct (queue_pop s s1 Hw ltac:(lia) eq_refl eq_refl eq_refl) as [Eq El]. specialize (IH s1 Hw1 ltac:(lia)).
    change (s <| tail := u32 (tail s + 1) |> <| win_used := u32 (win_used (s <| tail := u32 (tail s + 1) |>) + 1) |>) with s1.
    destruct (vector_loop n now s1) as [s' ms]. destruct IH as (Ha & Hw' & Es). rewrite Eq. replace (Z.to_nat (win_avail s - win_used s)) with (S (Z.to_nat (win_avail s1 - win_used s1))) by (simpl; lia).
    cbn [a_send]. change (demand_sync s) with (demand_sync s1). rewrite <- Ha, length_queue. split; [done|]. split; [done|].
    rewrite Es. unfold set. simpl. rewrite Eu1. f_equal. lia.
Qed.
Lemma expire_loop_spec n now s : wf s -> qlen s <= Z.of_nat n ->
  let s' := expire_loop n now s in
  queue s' = a_expire now (queue s) /\ wf s' /\ s' = s <| tail := tail s' |> <| req_dropped := req_dropped s' |>.
Proof.
  revert s. induction n as [|n IH]; intros s Hw Hn; cbv zeta; cbn [expire_loop].
  - pose proof (qlen_range s). rewrite (queue_empty s) by lia. by destruct s.
  - rewrite (qlen_zero s Hw). pose proof (qlen_range s) as Hr. destruct (qlen s =? 0) eqn:E0; cbn [negb andb]; [rewrite (queue_empty s) by lia; by destruct s|].
    set (s1 := s <| tail := u32 (tail s + 1) |> <| req_dropped := req_dropped s + 1 |>).
    destruct (queue_pop s s1 Hw ltac:(lia) eq_refl eq_refl eq_refl) as [Eq El]. rewrite Eq. cbn [a_expire].
    destruct (u64 (now - c_ts (slot_at s (tail s))) <=? CBW_MAX_CLIENT_DELAY_US); cbn [negb]; [rewrite <- Eq; by destruct s|].
    assert (wf s1) as Hw1 by (apply (wf_pop s); try done; [lia|]; by destruct Hw). destruct (IH s1 Hw1 ltac:(lia)) as (Ha & Hw' & Es). split; [done|]. split; [done|].
    rewrite Es at 1. done.
Qed.

(** ** The session, with a queue for the ring *)

Record aclient := AClient { a_q : list crpc_ctx; a_id : Z; a_avail : Z; a_used : Z; a_wait : bool; a_run : bool; a_ds : bool; a_init : bool }.
#[global] Instance eta_aclient : Settable aclient := fun r => AClient (a_q r) (a_id r) (a_avail r) (a_used r) (a_wait r) (a_run r) (a_ds r) (a_init r).
Definition abs (s : cbw_session) : aclient := AClient (queue s) (req_id s) (win_avail s) (win_used s) (waiting_winupdate s) (running s) (demand_sync s) (init s).
Definition a_len (a : aclient) : Z := Z.of_nat (length (a_q a)).
Definition a_winupdate (a : aclient) : list cmsg := [MWinupdate (a_len a) (a_ds a)].
Definition a_vector (now : Z) (a : aclient) : aclient * list cmsg :=
  let '(q, ms) := a_send (Z.to_nat (a_avail a - a_used a)) now (a_ds a) (a_q a) in (a <| a_q := q |> <| a_used := a_used a + Z.of_nat (length ms) |>, ms).
Definition a_drain (now now' : Z) (a : aclient) : aclient * list cmsg :=
  if (a_len a =? 0) || a_wait a then (a, [])
  else if (a_avail a =? 0) && a_ds a then (a <| a_wait := true |>, a_winupdate a)
  else a_vector now' (a <| a_q := a_expire now (a_q a) |>).
Definition a_send_one (now now1 now2 : Z) (data : list Z) (a : aclient) : aclient * list cmsg * bool :=
  if (a_used a <? a_avail a) && (a_len a =? 0) then (a <| a_used := a_used a + 1 |> <| a_id := u64 (a_id a + 1) |>, [MCall (a_id a) 0 now (a_ds a) data], false)
  else
    let a := a <| a_q := a_enqueue (Ctx (a_id a) now data) (a_q a) |> <| a_id := u64 (a_id a + 1) |> in
    let '(a, ms) := if a_init a then (a, []) else (a <| a_wait := true |> <| a_init := true |>, a_winupdate a) in
    let '(a', ms') := a_drain now1 now2 a in (a', ms ++ ms', a_len a =? 1).
Definition a_recv (now now' : Z) (m : smsg) (a : aclient) : option (aclient * list cmsg) :=
  let go w a := let a := a <| a_avail := u32 w |> <| a_wait := false |> in if 0 <? a_avail a then a_drain now now' a else (a, []) in
  match m with
  | SResponse _ w _ _ _ => if a_used a =? 0 then None else Some (go w (a <| a_used := a_used a - 1 |>))
  | SWinupdate w => Some (go w a)
  end.
Definition a_timer (now : Z) (a : aclient) : aclient * list cmsg * tpc :=
  if a_run a && (a_len a =? 0) then (a, [], TWait) else if negb (a_run a) then (a, [], TDone)
  else
    let q := a_expire now (a_q a) in
    match list.last q with
    | None => if a_ds a then (a <| a_q := q |> <| a_wait := false |>, a_winupdate (a <| a_q := q |>), TRun) else (a <| a_q := q |>, [], TRun)
    | Some c => (a <| a_q := q |>, [], TSleep (u64 (c_ts c + CBW_MAX_CLIENT_DELAY_US)))
    end.

Lemma winupdate_refines ok s : wf s -> let '(s', ms) := crpc_send_winupdate ok s in wf s' /\ abs s' = abs s /\ ms = a_winupdate (abs s).
Proof.
  intros Hw. unfold crpc_send_winupdate, a_winupdate, a_len. simpl. rewrite length_queue. split; [destruct ok; [by apply (wf_ext s)|done]|]. by destruct ok.
Qed.
Lemma vector_refines now s : wf s -> let '(s', ms) := crpc_send_request_vector now s in wf s' /\ (abs s', ms) = a_vector now (abs s).
Proof.
  intros Hw. unfold crpc_send_request_vector, a_vector. cbn [a_avail a_used a_ds a_q abs]. rewrite (qlen_zero s Hw). pose proof (qlen_range s) as Hr. destruct (qlen s =? 0) eqn:E0; cbn [orb].
  { rewrite (queue_empty s) by lia. split; [done|]. unfold abs. rewrite (queue_empty s) by lia. destruct (Z.to_nat _); simpl; unfold set; simpl; by rewrite Z.add_0_r. }
  destruct (win_avail s <=? win_used s) eqn:Eu.
  { replace (Z.to_nat (win_avail s - win_used s)) with 0%nat by lia. simpl. split; [done|]. unfold abs, set. simpl. by rewrite Z.add_0_r. }
  pose proof (vector_loop_spec (Z.to_nat (qlen s)) now s Hw ltac:(lia)) as H. destruct (vector_loop _ now s) as [s1 ms]. destruct H as (<- & Hw1 & Es). rewrite (qlen_zero s1 Hw1).
  set (s2 := if qlen s1 =? 0 then _ else s1). assert (wf s2 /\ abs s2 = abs s1) as [Hw2 Eq].
  { unfold s2. destruct (qlen s1 =? 0) eqn:E1; [|done]. split; [destruct Hw1; constructor; try done; unfold qlen; simpl; lia|]. unfold abs. rewrite (queue_empty s1) by lia. done. }
  split; [by apply (wf_ext s2)|]. f_equal. change (abs (s2 <| req_tx := req_tx s2 + Z.of_nat (length ms) |>)) with (abs s2).
  rewrite Eq. unfold abs at 1. by rewrite Es at 2 3 4 5 6 7 8.
Qed.
Lemma drain_refines ok now now' s : wf s -> let '(s', ms) := crpc_drain_queue ok now now' s in wf s' /\ (abs s', ms) = a_drain now now' (abs s).
Proof.
  intros Hw. unfold crpc_drain_queue, a_drain. change (a_len (abs s)) with (Z.of_nat (length (queue s))). rewrite length_queue, (qlen_zero s Hw). simpl (a_wait _). destruct (_ || _); [done|].
  simpl (a_avail _). simpl (a_ds _). destruct (_ && _).
  - set (s1 := s <| waiting_winupdate := true |>). assert (wf s1) as Hw1 by (by apply (wf_ext s)). pose proof (winupdate_refines ok s1 Hw1) as H. destruct (crpc_send_winupdate ok s1) as [s' ms].
    destruct H as (Hw' & Ea & Em). split; [done|]. by rewrite Ea, Em.
  - pose proof (expire_loop_spec (Z.to_nat (qlen s)) now s Hw ltac:(pose proof (qlen_range s); lia)) as H. fold (drop_expired now s) in H. cbv zeta in H. destruct H as (Eq & Hw1 & Es).
    replace (abs s <| a_q := a_expire now (a_q (abs s)) |>) with (abs (drop_expired now s)); [by apply vector_refines|]. unfold abs at 1. rewrite Eq, Es. done.
Qed.
(** Adding a request: the slot that it takes is the oldest one's if the ring is full. *)
Lemma queue_push s s' c : wf s -> qlen s < 16 -> tail s' = tail s -> head s' = u32 (head s + 1) -> qreq s' = <[Z.to_nat (head s mod CRPC_QLEN) := c]> (qreq s) ->
  queue s' = queue s ++ [c] /\ qlen s' = qlen s + 1.
Proof.
  intros [Hr Hh Ht _ _ _] Hq Et Eh Er. pose proof (qlen_range s) as Hl.
  assert (qlen s' = qlen s + 1) as El. { unfold qlen, u32 in *. rewrite Et, Eh. unfold u32. rewrite Zminus_mod_idemp_l. replace (head s + 1 - tail s) with (head s - tail s + 1) by lia. rewrite <- Zplus_mod_idemp_l. apply Z.mod_small. lia. }
  split; [|done]. unfold queue. rewrite El. replace (Z.to_nat (qlen s + 1)) with (Z.to_nat (qlen s) + 1)%nat by lia. rewrite seq_app, map_app. simpl.
  assert ((head s - (tail s + qlen s)) mod 16 = 0) as Hm.
  { pose proof (u32_mod16 (head s - tail s) 0) as H. fold (qlen s) in H. apply Z.mod_divide in H as [k Hk]; [|lia]. apply Z.mod_divide; [lia|]. exists (- k). lia. }
  unfold slot_at. rewrite Er, Et. f_equal.
  - apply map_ext_in. intros k Hk%in_seq. rewrite !nth_lookup, list_lookup_insert_ne; [done|]. unfold CRPC_QLEN. intros E. apply Z2Nat.inj in E; try (apply Z.mod_pos_bound; lia).
    apply Z.mod_divide in Hm as [j Hj]; [|lia]. pose proof (Z.div_mod (head s) 16). pose proof (Z.div_mod (tail s + Z.of_nat k) 16). lia.
  - f_equal. rewrite nth_lookup. replace ((tail s + Z.of_nat (Z.to_nat (qlen s))) mod CRPC_QLEN) with (head s mod CRPC_QLEN).
    + rewrite list_lookup_insert_eq; [done|]. rewrite Hr. unfold CRPC_QLEN. pose proof (Z.mod_pos_bound (head s) 16). lia.
    + unfold CRPC_QLEN. apply Z.mod_divide in Hm as [j Hj]; [|lia]. replace (head s) with (tail s + Z.of_nat (Z.to_nat (qlen s)) + j * 16) by lia. apply Z.mod_add. lia.
Qed.
Lemma enqueue_refines ok now data s : wf s -> let '(s', ms, sig) := crpc_enqueue_one ok now data s in
  wf s' /\ let a := abs s <| a_q := a_enqueue (Ctx (req_id s) now data) (queue s) |> <| a_id := u64 (req_id s + 1) |> in
  (abs s', ms) = (if init s then (a, []) else (a <| a_wait := true |> <| a_init := true |>, a_winupdate a)) /\ sig = (a_len a =? 1).
Proof.
  intros Hw. unfold crpc_enqueue_one. set (s0 := if CRPC_QLEN <=? qlen s then _ else s). pose proof (qlen_range s) as Hr.
  assert (wf s0 /\ qlen s0 < 16 /\ queue s0 = (if 16 <=? Z.of_nat (length (queue s)) then List.tl (queue s) else queue s) /\ abs s0 = abs s <| a_q := queue s0 |>) as (Hw0 & H0 & Eq0 & Ea0).
  { unfold s0. rewrite length_queue. unfold CRPC_QLEN. destruct (16 <=? qlen s) eqn:E; [|split; [done|]; split; [lia|done]].
    set (s1 := s <| tail := _ |> <| req_dropped := _ |>). destruct (queue_pop s s1 Hw ltac:(lia) eq_refl eq_refl eq_refl) as [Eq El]. destruct Hw as [? ? ? ? ? ?] eqn:EW. clear EW.
    split; [apply (wf_pop s); try done; lia|]. split; [lia|]. rewrite Eq. done. }
  clearbody s0. assert (req_id s0 = req_id s) as Eid by (apply (f_equal a_id) in Ea0; done). assert (init s0 = init s) as Ei by (apply (f_equal a_init) in Ea0; done).
  set (s1 := s0 <| qreq := _ |> <| head := _ |> <| req_id := _ |>). destruct (queue_push s0 s1 (Ctx (req_id s0) now data) Hw0 H0 eq_refl eq_refl eq_refl) as [Eq1 El1].
  assert (wf s1) as Hw1. { destruct Hw0 as [? ? ? ? ? ?]. constructor; try done; [simpl; by rewrite length_insert|simpl; unfold u32; apply Z.mod_pos_bound; lia|lia]. }
  assert (abs s1 = abs s <| a_q := a_enqueue (Ctx (req_id s) now data) (queue s) |> <| a_id := u64 (req_id s + 1) |>) as Ea.
  { unfold abs at 1. rewrite Eq1, Eq0, Eid. simpl. rewrite Eid. apply (f_equal (fun a => AClient (a_enqueue (Ctx (req_id s) now data) (queue s)) (u64 (req_id s + 1)) (a_avail a) (a_used a) (a_wait a) (a_run a) (a_ds a) (a_init a))) in Ea0. done. }
  set (a := abs s <| a_q := _ |> <| a_id := _ |>) in *. change (init s1) with (init s0). rewrite Ei. clearbody s1. assert (qlen s1 = a_len a) as El by (rewrite <- Ea; unfold a_len; simpl; by rewrite length_queue).
  destruct (init s); [split; [done|]; by rewrite Ea, El|]. pose proof (winupdate_refines ok s1 Hw1) as H. unfold crpc_send_winupdate in *. destruct H as (Hw' & Ea' & Em).
  split; [destruct ok; by apply (wf_ext s1)|]. split; [|destruct ok; exact (f_equal (fun n => n =? 1) El)]. rewrite Em, <- Ea. f_equal. destruct ok; done.
Qed.
Lemma send_one_refines err ok t0 t1 t2 data s : wf s -> let '(s', ms, sig, _) := cbw_send_one err ok t0 t1 t2 data s in
  wf s' /\ (abs s', ms, sig) = a_send_one t0 t1 t2 data (abs s).
Proof.
  intros Hw. unfold cbw_send_one, a_send_one. change (a_len (abs s)) with (Z.of_nat (length (queue s))). cbn [a_used a_avail abs a_id a_ds a_init a_q]. rewrite length_queue, (qlen_zero s Hw).
  destruct ((win_used s <? win_avail s) && (qlen s =? 0)) eqn:E.
  - apply andb_true_iff in E as [Eu E0]. apply Z.eqb_eq in E0. assert (u32 (win_used s + 1) = win_used s + 1) as Eu1 by (destruct Hw; apply Z.mod_small; lia).
    unfold crpc_send_raw. change (qlen (s <| win_used := _ |> <| req_id := _ |>)) with (qlen s). rewrite E0, Eu1.
    set (s1 := s <| win_used := win_used s + 1 |> <| req_id := u64 (req_id s + 1) |>). assert (wf s1) as Hw1 by (destruct Hw; constructor; try done; simpl; lia).
    destruct err; (split; [by apply (wf_ext s1)|done]).
  - pose proof (enqueue_refines ok t0 data s Hw) as H. destruct (crpc_enqueue_one ok t0 data s) as [[s1 ms] sig]. destruct H as (Hw1 & Ha & ->).
    set (a := abs s <| a_q := _ |> <| a_id := _ |>) in *. change (a_init a) with (init s). rewrite <- Ha. pose proof (drain_refines ok t1 t2 s1 Hw1) as H. destruct (crpc_drain_queue ok t1 t2 s1) as [s2 ms']. destruct H as (Hw2 & Hd).
    split; [done|]. rewrite <- Hd. assert (a_len (abs s1) = a_len a) as ->; [|done]. apply (f_equal fst) in Ha. destruct (init s); cbn [fst] in Ha; by rewrite Ha.
Qed.
Lemma recv_refines ok now now' m s : wf s ->
  match cbw_recv_one ok now now' m s, a_recv now now' m (abs s) with
  | Some (s', ms), Some r => wf s' /\ r = (abs s', ms) | None, None => True | _, _ => False end.
Proof.
  intros Hw. assert (forall s w, wf s -> let s1 := s <| win_avail := u32 w |> <| waiting_winupdate := false |> in
    let '(s', ms) := if 0 <? win_avail s1 then crpc_drain_queue ok now now' s1 else (s1, []) in
    wf s' /\ (let a := abs s <| a_avail := u32 w |> <| a_wait := false |> in if 0 <? a_avail a then a_drain now now' a else (a, [])) = (abs s', ms)) as Hgo.
  { clear. intros s w Hw. cbv zeta. set (s1 := s <| win_avail := u32 w |> <| waiting_winupdate := false |>). assert (wf s1) as Hw1 by (destruct Hw; constructor; try done; simpl; apply Z.mod_pos_bound; lia).
    change (abs s <| a_avail := u32 w |> <| a_wait := false |>) with (abs s1). change (a_avail (abs s1)) with (win_avail s1). destruct (0 <? win_avail s1); [|done].
    pose proof (drain_refines ok now now' s1 Hw1) as H. destruct (crpc_drain_queue ok now now' s1) as [s' ms]. destruct H as (H1 & H2). by rewrite H2. }
  destruct m as [id w ts drop data|w]; cbn [cbw_recv_one a_recv].
  - set (s0 := if bool_decide (data = []) then _ else _). assert (wf s0 /\ abs s0 = abs s /\ win_used s0 = win_used s) as (Hw0 & Ea & Eu) by (unfold s0; case_bool_decide; [done|split; [by apply (wf_ext s)|done]]).
    clearbody s0. cbn [a_used abs]. rewrite Eu. destruct (win_used s =? 0) eqn:E0; [done|]. rewrite <- Ea. clear Ea. assert (u32 (win_used s0 - 1) = win_used s0 - 1) as E1 by (rewrite Eu; destruct Hw; apply Z.mod_small; lia).
    rewrite <- Eu, E1. assert (wf (s0 <| win_used := win_used s0 - 1 |>)) as Hw2 by (destruct Hw0; constructor; try done; simpl; lia). specialize (Hgo _ w Hw2). cbv zeta in Hgo.
    destruct (if 0 <? win_avail _ then _ else _) as [s' ms]. destruct Hgo as [H1 H2]. split; [done|]. exact H2.
  - specialize (Hgo s w Hw). cbv zeta in Hgo. destruct (if 0 <? win_avail _ then _ else _) as [s' ms]. destruct Hgo as [H1 H2]. split; [by apply (wf_ext s')|]. exact H2.
Qed.
Lemma queue_last s : wf s -> 0 < qlen s -> list.last (queue s) = Some (slot_at s (u32 (head s - 1))).
Proof.
  intros Hw Hq. unfold queue. replace (Z.to_nat (qlen s)) with (Z.to_nat (qlen s - 1) + 1)%nat by lia. rewrite seq_app, map_app, last_app. simpl. f_equal. apply slot_at_mod.
  pose proof (u32_mod16 (head s - 1) 0) as H1. pose proof (u32_mod16 (head s - tail s) 0) as H2. fold (qlen s) in H2. apply Z.mod_divide in H1 as [j Hj]; [|lia]. apply Z.mod_divide in H2 as [k Hk]; [|lia].
  apply Z.mod_divide; [lia|]. exists (k - j). lia.
Qed.
Lemma timer_refines ok now s : wf s -> let '(s', ms, p) := crpc_timer ok now s in wf s' /\ (abs s', ms, p) = a_timer now (abs s).
Proof.
  intros Hw. unfold crpc_timer, a_timer. change (a_len (abs s)) with (Z.of_nat (length (queue s))). cbn [a_run a_ds a_q abs]. rewrite length_queue, (qlen_zero s Hw). pose proof (qlen_range s) as Hr.
  destruct (running s && (qlen s =? 0)) eqn:E1; [done|]. destruct (running s); simpl in E1; cbn [negb]; [|done]. apply Z.eqb_neq in E1.
  pose proof (expire_loop_spec (Z.to_nat (qlen s)) now s Hw ltac:(lia)) as H. fold (drop_expired now s) in H. cbv zeta in H. destruct H as (Eq & Hw1 & Es).
  assert (abs (drop_expired now s) = abs s <| a_q := a_expire now (queue s) |>) as Ea by (unfold abs at 1; by rewrite Eq, Es).
  assert (demand_sync (drop_expired now s) = demand_sync s) as Ed by (by rewrite Es). clear Es. set (s1 := drop_expired now s) in *. clearbody s1. rewrite (qlen_zero s1 Hw1), <- Ea, Ed, <- Eq. pose proof (qlen_range s1) as Hr1.
  destruct (qlen s1 =? 0) eqn:E0; [|rewrite (queue_last s1 Hw1) by lia; by split]. apply Z.eqb_eq in E0. replace (0 <? qlen s - qlen s1) with true by lia. rewrite (queue_empty s1 E0). cbn [list.last andb].
  destruct (demand_sync s); [|by split]. set (s2 := s1 <| waiting_winupdate := false |>). assert (wf s2) as Hw2 by (by apply (wf_ext s1)).
  pose proof (winupdate_refines ok s2 Hw2) as H. destruct (crpc_send_winupdate ok s2) as [s3 ms]. destruct H as (Hw3 & Ea3 & Em3). split; [done|]. by rewrite Ea3, Em3.
Qed.

(** ** Executions *)

(** A session with its timer thread. *)
Record client := Client { cs : cbw_session; tm : tpc }.
Inductive event :=
| ESend (err : option Z) (ok : bool) (now now1 now2 : Z) (data : list Z) | ERecv (ok : bool) (now now' : Z) (m : smsg)
| ETimer (ok : bool) (now : Z) | EWake | EClose.
(** [condvar_signal]. *)
Definition signalled (sig : bool) (p : tpc) : tpc := match p with TWait => if sig then TRun else TWait | _ => p end.
Definition exec (e : event) (c : client) : option (client * list cmsg) :=
  match e with
  | ESend err ok t0 t1 t2 data => let '(s, ms, sig, _) := cbw_send err ok t0 t1 t2 data (cs c) in Some (Client s (signalled sig (tm c)), ms)
  | ERecv ok t1 t2 m => match cbw_recv_one ok t1 t2 m (cs c) with Some (s, ms) => Some (Client s (tm c), ms) | None => None end
  | ETimer ok now => match tm c with TRun => let '(s, ms, p) := crpc_timer ok now (cs c) in Some (Client s p, ms) | _ => None end
  | EWake => match tm c with TSleep _ => Some (Client (cs c) TRun, []) | _ => None end
  | EClose => Some (Client (cbw_close (cs c)) (signalled true (tm c)), [])
  end.
Fixpoint run (es : list event) (c : client) : option (client * list cmsg) :=
  match es with
  | [] => Some (c, [])
  | e :: es => match exec e c with Some (c, ms) => match run es c with Some (c, ms') => Some (c, ms ++ ms') | None => None end | None => None end
  end.
Definition opened : client := Client cbw_open TRun.

(** The same with a queue. *)
Definition a_exec (e : event) (c : aclient * tpc) : option (aclient * tpc * list cmsg) :=
  let '(a, p) := c in
  match e with
  | ESend _ _ t0 t1 t2 data =>
      if SRPC_BUF_SIZE <? Z.of_nat (length data) then Some (a, p, []) else let '(a, ms, sig) := a_send_one t0 t1 t2 data a in Some (a, signalled sig p, ms)
  | ERecv _ t1 t2 m => match a_recv t1 t2 m a with Some (a, ms) => Some (a, p, ms) | None => None end
  | ETimer _ now => match p with TRun => let '(a, ms, p) := a_timer now a in Some (a, p, ms) | _ => None end
  | EWake => match p with TSleep _ => Some (a, TRun, []) | _ => None end
  | EClose => Some (a <| a_run := false |>, signalled true p, [])
  end.
Fixpoint a_runs (es : list event) (c : aclient * tpc) : option (aclient * tpc * list cmsg) :=
  match es with
  | [] => Some (c, [])
  | e :: es => match a_exec e c with Some (c, ms) => match a_runs es c with Some (c, ms') => Some (c, ms ++ ms') | None => None end | None => None end
  end.
Definition a_opened : aclient * tpc := (AClient [] 1 0 0 false true false false, TRun).
Definition cabs (c : client) : aclient * tpc := (abs (cs c), tm c).
Lemma exec_refines e c : wf (cs c) -> match exec e c with Some (c', ms) => wf (cs c') /\ a_exec e (cabs c) = Some (cabs c', ms) | None => a_exec e (cabs c) = None end.
Proof.
  intros Hw. destruct c as [s p]. destruct e as [err ok t0 t1 t2 data|ok t1 t2 m|ok now| |]; cbn [exec a_exec cabs cs tm] in *.
  - unfold cbw_send. destruct (_ <? _); [by destruct p|]. pose proof (send_one_refines err ok t0 t1 t2 data s Hw) as H. destruct (cbw_send_one err ok t0 t1 t2 data s) as [[[s' ms] sig] r]. destruct H as [Hw' <-]. done.
  - pose proof (recv_refines ok t1 t2 m s Hw) as H. destruct (cbw_recv_one ok t1 t2 m s) as [[s' ms]|], (a_recv t1 t2 m (abs s)) as [r|]; try done. destruct H as [Hw' ->]. done.
  - destruct p; try done. pose proof (timer_refines ok now s Hw) as H. destruct (crpc_timer ok now s) as [[s' ms] q]. destruct H as [Hw' <-]. done.
  - by destruct p.
  - split; [by apply (wf_ext s)|done].
Qed.
Lemma wf_open : wf cbw_open.
Proof. by constructor. Qed.
Lemma cbw_run_refines es c : wf (cs c) -> match run es c with Some (c', ms) => wf (cs c') /\ a_runs es (cabs c) = Some (cabs c', ms) | None => a_runs es (cabs c) = None end.
Proof.
  revert c. induction es as [|e es IH]; intros c Hw; [done|]. cbn [run a_runs]. pose proof (exec_refines e c Hw) as H. destruct (exec e c) as [[c1 ms]|]; [|by rewrite H]. destruct H as [Hw1 ->].
  specialize (IH c1 Hw1). destruct (run es c1) as [[c2 ms']|]; [destruct IH as [Hw2 ->]; done|by rewrite IH].
Qed.

(** ** Order and windows *)

Definition ids (q : list crpc_ctx) : list Z := map c_id q.
Definition call_ids (ms : list cmsg) : list Z := omap (fun m => match m with MCall id _ _ _ _ => Some id | MWinupdate _ _ => None end) ms.
Lemma call_ids_app l k : call_ids (l ++ k) = call_ids l ++ call_ids k.
Proof. apply omap_app. Qed.
Lemma forall_sublist (P : Z -> Prop) l k : l `sublist_of` k -> Forall P k -> Forall P l.
Proof. intros Hs%sublist_subseteq H. rewrite Forall_forall in *. auto. Qed.
Lemma sorted_sublist (l k : list Z) : l `sublist_of` k -> StronglySorted Z.lt k -> StronglySorted Z.lt l.
Proof.
  induction 1 as [|x l k Hs IH|x l k Hs IH]; intros H; [done| |]; apply StronglySorted_inv in H as [H1 H2]; [|by apply IH].
  constructor; [by apply IH|]. by apply (forall_sublist _ _ k).
Qed.
(** A section sends requests from the front of the queue, drops some, and keeps the rest. *)
Record moves (a a' : aclient) (ms : list cmsg) : Prop := {
  mv_ids : call_ids ms ++ ids (a_q a') `sublist_of` ids (a_q a); mv_id : a_id a' = a_id a; mv_avail : a_avail a' = a_avail a; mv_run : a_run a' = a_run a;
  mv_used : a_used a' = a_used a + Z.of_nat (length (call_ids ms)); mv_max : a_used a' <= Z.max (a_used a) (a_avail a) }.
Lemma a_send_ids n now ds q : let '(q', ms) := a_send n now ds q in call_ids ms ++ ids q' = ids q /\ length (call_ids ms) = length ms /\ (length ms <= n)%nat.
Proof.
  revert q. induction n as [|n IH]; intros [|c q]; simpl; try (split; [done|simpl; lia]). specialize (IH q). destruct (a_send n now ds q) as [q' ms]. destruct IH as (E & El & Hl). simpl. rewrite E, El. split; [done|]. lia.
Qed.
Lemma a_expire_sub now q : a_expire now q `suffix_of` q.
Proof. induction q as [|c q IH]; simpl; [done|]. destruct (_ <=? _); [done|]. by apply suffix_cons_r. Qed.
Lemma ids_suffix q q' : q' `suffix_of` q -> ids q' `sublist_of` ids q.
Proof. intros [k ->]. unfold ids. rewrite map_app. by apply sublist_inserts_l. Qed.
Lemma cbw_moves_refl a b : a_q b = a_q a -> a_id b = a_id a -> a_avail b = a_avail a -> a_run b = a_run a -> a_used b = a_used a -> moves a b [].
Proof. intros E1 E2 E3 E4 E5. constructor; simpl; rewrite ?E1, ?E5; try done; lia. Qed.
Lemma moves_drain now now' a : moves a (a_drain now now' a).1 (a_drain now now' a).2.
Proof.
  unfold a_drain. destruct (_ || _); [by apply cbw_moves_refl|]. destruct (_ && _).
  { constructor; simpl; try done; lia. }
  unfold a_vector. simpl. pose proof (a_send_ids (Z.to_nat (a_avail a - a_used a)) now' (a_ds a) (a_expire now (a_q a))) as H. destruct (a_send _ now' (a_ds a) _) as [q ms]. destruct H as (E & El & Hl).
  constructor; simpl; try done; [rewrite E; apply ids_suffix, a_expire_sub|lia|lia].
Qed.
Record ainv (W : Z) (a : aclient) (p : tpc) (sent : list Z) : Prop := {
  i_sorted : StronglySorted Z.lt (sent ++ ids (a_q a)); i_below : Forall (fun i => i < a_id a) (sent ++ ids (a_q a)); i_id : 1 <= a_id a;
  i_used : 0 <= a_used a <= W; i_avail : 0 <= a_avail a <= W; i_wait : p = TWait -> a_q a = [] /\ a_run a = true }.
Lemma ainv_moves W a a' p p' ms sent : ainv W a p sent -> moves a a' ms -> (p' = TWait -> p = TWait \/ (a_q a' = [] /\ a_run a' = true)) -> ainv W a' p' (sent ++ call_ids ms).
Proof.
  intros [I1 I2 I3 I4 I5 I6] [M1 M2 M3 M4 M5 M6] Hp. assert (sent ++ call_ids ms ++ ids (a_q a') `sublist_of` sent ++ ids (a_q a)) as Hs by (by apply sublist_app). rewrite app_assoc in Hs. constructor; try lia.
  - by apply (sorted_sublist _ _ Hs).
  - rewrite M2. by apply (forall_sublist _ _ _ Hs).
  - intros Ep. destruct (Hp Ep) as [Ew|]; [|done]. destruct (I6 Ew) as [Eq Er]. rewrite M4. split; [|done]. rewrite Eq in M1. simpl in M1. apply sublist_nil_r, app_eq_nil in M1 as [_ M1]. by apply map_eq_nil in M1.
Qed.
Lemma a_enqueue_ids c q : ids (a_enqueue c q) `sublist_of` ids q ++ [c_id c].
Proof.
  unfold a_enqueue, ids. rewrite map_app. apply sublist_app; [|done]. destruct (_ <=? _); [|done]. destruct q; [done|]. simpl. by apply sublist_cons.
Qed.
Lemma ainv_new W a p sent : ainv W a p sent -> a_id a + 1 < 2 ^ 64 -> StronglySorted Z.lt ((sent ++ ids (a_q a)) ++ [a_id a]) /\ Forall (fun i => i < a_id a + 1) ((sent ++ ids (a_q a)) ++ [a_id a]) /\ u64 (a_id a + 1) = a_id a + 1.
Proof.
  intros [I1 I2 I3 _ _ _] Hi. split; [|split].
  - apply StronglySorted_app_2; [|done|by repeat constructor]. intros x y Hx Hy. apply list_elem_of_singleton in Hy as ->. rewrite Forall_forall in I2. by apply I2.
  - rewrite Forall_app. split; [|by repeat constructor; lia]. eapply Forall_impl; [exact I2|]. simpl. lia.
  - apply Z.mod_small. lia.
Qed.
Lemma ainv_send W t0 t1 t2 data a p sent : ainv W a p sent -> a_id a + 1 < 2 ^ 64 ->
  let '(a', ms, sig) := a_send_one t0 t1 t2 data a in ainv W a' (signalled sig p) (sent ++ call_ids ms) /\ a_id a' = a_id a + 1.
Proof.
  intros Hi Hid. destruct (ainv_new W a p sent Hi Hid) as (Hs & Hb & Eid). pose proof Hi as [I1 I2 I3 I4 I5 I6]. unfold a_send_one. rewrite Eid. destruct ((a_used a <? a_avail a) && (a_len a =? 0)) eqn:E.
  - apply andb_true_iff in E as [Eu E0]. unfold a_len in E0. assert (a_q a = []) as Eq by (apply length_zero_iff_nil; lia). rewrite Eq in *. simpl in *. rewrite app_nil_r in *.
    split; [|done]. constructor; simpl; rewrite ?Eq; simpl; rewrite ?app_nil_r; try done; try lia. destruct p; done.
  - set (c := Ctx (a_id a) t0 data). set (a1 := a <| a_q := _ |> <| a_id := _ |>).
    assert (sent ++ ids (a_q a1) `sublist_of` (sent ++ ids (a_q a)) ++ [a_id a]) as Hsub by (rewrite <- app_assoc; apply sublist_app; [done|]; apply (a_enqueue_ids c)).
    assert (length (a_q a) = 0%nat -> a_len a1 = 1) as Hl by (intros E0; unfold a_len; simpl; apply length_zero_iff_nil in E0; by rewrite E0).
    set (r := if a_init a1 then (a1, []) else (a1 <| a_wait := true |> <| a_init := true |>, a_winupdate a1)). assert (call_ids r.2 = [] /\ a_q r.1 = a_q a1 /\ a_id r.1 = a_id a + 1 /\ a_used r.1 = a_used a /\ a_avail r.1 = a_avail a /\ a_run r.1 = a_run a) as (R1 & R2 & R3 & R4 & R5 & R6) by (unfold r; by destruct (a_init a1)).
    destruct r as [a2 ms]. simpl in R1, R2, R3, R4, R5, R6. pose proof (moves_drain t1 t2 a2) as M. destruct (a_drain t1 t2 a2) as [a3 ms']. simpl in M. rewrite call_ids_app, R1. simpl. split; [|by rewrite (mv_id _ _ _ M)].
    apply (ainv_moves W a2 a3 TRun); [|done|].
    + constructor; rewrite ?R2, ?R3; try lia; [by apply (sorted_sublist _ _ Hsub)|by apply (forall_sublist _ _ _ Hsub)|done].
    + unfold signalled. destruct p; try done. destruct (I6 eq_refl) as [Eq _]. replace (a_len a2) with (a_len a1) by (unfold a_len; by rewrite R2). rewrite Hl by (by rewrite Eq). done.
Qed.
Lemma ainv_recv W t1 t2 m a p sent : ainv W a p sent -> 0 <= W < 2 ^ 32 -> (match m with SResponse _ w _ _ _ => 0 <= w <= W | SWinupdate w => 0 <= w <= W end) ->
  match a_recv t1 t2 m a with Some (a', ms) => ainv W a' p (sent ++ call_ids ms) /\ a_id a' = a_id a | None => True end.
Proof.
  intros Hi HW Hm. assert (forall a w, ainv W a p sent -> 0 <= w <= W ->
    let '(a', ms) := (let a := a <| a_avail := u32 w |> <| a_wait := false |> in if 0 <? a_avail a then a_drain t1 t2 a else (a, [])) in ainv W a' p (sent ++ call_ids ms) /\ a_id a' = a_id a) as Hgo.
  { clear. intros a w [I1 I2 I3 I4 I5 I6] Hw. cbv zeta. set (a1 := a <| a_avail := u32 w |> <| a_wait := false |>). assert (ainv W a1 p sent) as H1.
    { constructor; simpl; try done. unfold u32. pose proof (Z.mod_le w (2 ^ 32)). pose proof (Z.mod_pos_bound w (2 ^ 32)). lia. }
    destruct (0 <? a_avail a1); [|simpl; by rewrite app_nil_r]. pose proof (moves_drain t1 t2 a1) as M. destruct (a_drain t1 t2 a1) as [a2 ms]. simpl in M. split; [|apply (mv_id _ _ _ M)]. by apply (ainv_moves W a1 a2 p); auto. }
  destruct m as [id w ts d data|w]; cbn [a_recv].
  - destruct (a_used a =? 0) eqn:E0; [done|]. destruct Hi as [I1 I2 I3 I4 I5 I6]. assert (ainv W (a <| a_used := a_used a - 1 |>) p sent) as H1 by (constructor; simpl; try done; lia). exact (Hgo _ w H1 Hm).
  - exact (Hgo a w Hi Hm).
Qed.
Lemma ainv_timer W now a sent : ainv W a TRun sent -> let '(a', ms, p) := a_timer now a in ainv W a' p (sent ++ call_ids ms) /\ a_id a' = a_id a.
Proof.
  intros Hi. unfold a_timer. destruct (a_run a && (a_len a =? 0)) eqn:E1.
  { apply andb_true_iff in E1 as [Er E0]. unfold a_len in E0. simpl. rewrite app_nil_r. split; [|done]. destruct Hi. constructor; try done. intros _. split; [|done]. apply length_zero_iff_nil. lia. }
  destruct (a_run a) eqn:Er; simpl; [|rewrite app_nil_r; split; [|done]; by destruct Hi]. set (q := a_expire now (a_q a)).
  assert (forall b ms, call_ids ms = [] -> a_q b = q -> a_id b = a_id a -> a_avail b = a_avail a -> a_run b = a_run a -> a_used b = a_used a -> moves a b ms) as Hm.
  { intros b ms E2 E3 E4 E5 E6 E7. constructor; rewrite ?E2, ?E3; simpl; try done; [apply ids_suffix, a_expire_sub|lia|lia]. }
  destruct (list.last q); [|destruct (a_ds a)]; (split; [|done]); (eapply (ainv_moves W a _ TRun); [done|by apply Hm|done]).
Qed.
Lemma ainv_exec W e a p sent : ainv W a p sent -> 0 <= W < 2 ^ 32 -> (match e with ERecv _ _ _ (SResponse _ w _ _ _) | ERecv _ _ _ (SWinupdate w) => 0 <= w <= W | _ => True end) -> a_id a + 1 < 2 ^ 64 ->
  match a_exec e (a, p) with Some (a', p', ms) => ainv W a' p' (sent ++ call_ids ms) /\ a_id a <= a_id a' <= a_id a + 1 | None => True end.
Proof.
  intros Hi HW Hm Hid. destruct e as [err ok t0 t1 t2 data|ok t1 t2 m|ok now| |]; cbn [a_exec].
  - destruct (_ <? _); [simpl; rewrite app_nil_r; split; [done|lia]|]. pose proof (ainv_send W t0 t1 t2 data a p sent Hi Hid) as H. destruct (a_send_one t0 t1 t2 data a) as [[a' ms] sig]. destruct H. split; [done|lia].
  - pose proof (ainv_recv W t1 t2 m a p sent Hi HW ltac:(by destruct m)) as H. destruct (a_recv t1 t2 m a) as [[a' ms]|]; [|done]. destruct H. split; [done|lia].
  - destruct p; try done. pose proof (ainv_timer W now a sent Hi) as H. destruct (a_timer now a) as [[a' ms] p']. destruct H. split; [done|lia].
  - destruct p; try done. simpl. rewrite app_nil_r. split; [by destruct Hi|lia].
  - simpl. rewrite app_nil_r. split; [|lia]. destruct Hi. constructor; try done. by destruct p.
Qed.

(** The server offers windows of at most [W]. *)
Definition offered (W : Z) (e : event) : Prop := match e with ERecv _ _ _ (SResponse _ w _ _ _) | ERecv _ _ _ (SWinupdate w) => 0 <= w <= W | _ => True end.
Lemma ainv_runs W es a p sent : ainv W a p sent -> 0 <= W < 2 ^ 32 -> Forall (offered W) es -> a_id a + Z.of_nat (length es) < 2 ^ 64 ->
  match a_runs es (a, p) with Some (a', p', ms) => ainv W a' p' (sent ++ call_ids ms) | None => True end.
Proof.
  revert a p sent. induction es as [|e es IH]; intros a p sent Hi HW Ho Hid; cbn [a_runs]; [simpl; by rewrite app_nil_r|]. apply Forall_cons in Ho as [He Ho]. simpl in Hid.
  pose proof (ainv_exec W e a p sent Hi HW He ltac:(lia)) as H. destruct (a_exec e (a, p)) as [[[a1 p1] ms]|]; [|done]. destruct H as [H1 Hi1]. specialize (IH a1 p1 _ H1 HW Ho ltac:(lia)).
  destruct (a_runs es (a1, p1)) as [[[a2 p2] ms']|]; [|done]. by rewrite call_ids_app, app_assoc.
Qed.
(** C20: A client session, over any calls, messages of the server, runs of the timer thread
    and closing, sends what the session with a plain queue sends, with the indices of the
    ring near their wrap as well: requests that find no window wait, the oldest makes room
    when sixteen wait, and those that have waited too long are dropped.  So requests are
    sent in the order of the calls, each at most once; at most sixteen wait; no more are
    outstanding than the largest window that was offered; and when the timer thread waits
    to be signalled there is nothing for it to do. *)
Theorem cbw_client_queue W es c ms : 0 <= W < 2 ^ 32 -> Forall (offered W) es -> Z.of_nat (length es) < 2 ^ 64 - 1 -> run es opened = Some (c, ms) ->
  a_runs es a_opened = Some (abs (cs c), tm c, ms)
  /\ StronglySorted Z.lt (call_ids ms ++ ids (queue (cs c))) /\ (length (queue (cs c)) <= 16)%nat
  /\ 0 <= win_used (cs c) <= W /\ (tm c = TWait -> queue (cs c) = [] /\ running (cs c) = true).
Proof.
  intros HW Ho Hn E. pose proof (cbw_run_refines es opened wf_open) as H. rewrite E in H. destruct H as [Hw Ha]. split; [done|].
  assert (ainv W a_opened.1 TRun []) as H0 by (constructor; simpl; try done; [constructor|lia|lia]). pose proof (ainv_runs W es _ _ _ H0 HW Ho ltac:(simpl; lia)) as H.
  change (a_opened.1, TRun) with (cabs opened) in H. rewrite Ha in H. destruct H as [I1 I2 I3 I4 I5 I6]. split; [done|]. split; [|done]. pose proof (length_queue (cs c)). pose proof (wf_qlen _ Hw). lia.
Qed.
(** Two requests wait for a window; it comes, and one of them is sent. *)
Definition demo_events : list event := [ETimer true 0; ESend None true 1 1 1 [7]; ESend None true 2 2 2 [8]; ERecv true 3 3 (SWinupdate 1)].
Definition demo_client : client := Client (Cbw 3 false 1 1 true false true 2 1 (Ctx 1 1 [7] :: Ctx 2 2 [8] :: replicate 14 (Ctx 0 0 [])) 1 1 0 1 0) TRun.
Lemma cbw_client_queue_witness :
  run demo_events opened = Some (demo_client, [MWinupdate 1 false; MCall 1 1 3 false [7]]) /\ StronglySorted Z.lt ([1] ++ ids (queue (cs demo_client))).
Proof.
  split; [reflexivity|]. apply (cbw_client_queue 63 demo_events demo_client [MWinupdate 1 false; MCall 1 1 3 false [7]]); [lia| |simpl; lia|reflexivity].
  repeat (apply Forall_cons; split; [simpl; (done || lia)|]). constructor.
Defined.

(** What an event does to the count of outstanding requests. *)
Definition returned (e : event) : Z := match e with ERecv _ _ _ (SResponse _ _ _ _ _) => 1 | _ => 0 end.
Record counts (W : Z) (a a' : aclient) (ms : list cmsg) (r : Z) : Prop := {
  k_used : a_used a' = a_used a + Z.of_nat (length (call_ids ms)) - r; k_max : 0 <= a_used a' <= W; k_avail : 0 <= a_avail a' <= W }.
Lemma counts_moves W a a' ms : moves a a' ms -> 0 <= a_used a <= W -> 0 <= a_avail a <= W -> counts W a a' ms 0.
Proof. intros [M1 M2 M3 M4 M5 M6] Hu Ha. constructor; lia. Qed.
Lemma counts_send W t0 t1 t2 data a : 0 <= a_used a <= W -> 0 <= a_avail a <= W -> counts W a (a_send_one t0 t1 t2 data a).1.1 (a_send_one t0 t1 t2 data a).1.2 0.
Proof.
  intros Hu Ha. unfold a_send_one. destruct ((a_used a <? a_avail a) && _) eqn:E; [apply andb_true_iff in E as [Eu _]; constructor; simpl; lia|].
  set (a1 := a <| a_q := _ |> <| a_id := _ |>). set (r := if a_init a1 then (a1, []) else (a1 <| a_wait := true |> <| a_init := true |>, a_winupdate a1)).
  assert (call_ids r.2 = [] /\ a_used r.1 = a_used a /\ a_avail r.1 = a_avail a) as (R1 & R2 & R3) by (unfold r; by destruct (a_init a1)). destruct r as [a2 ms]. simpl in R1, R2, R3.
  pose proof (counts_moves W a2 _ _ (moves_drain t1 t2 a2) ltac:(lia) ltac:(lia)) as [K1 K2 K3]. destruct (a_drain t1 t2 a2) as [a3 ms']. simpl in *. constructor; try done. rewrite call_ids_app, R1. simpl. lia.
Qed.
Lemma cbw_counts_recv W t1 t2 m a : 0 <= a_used a <= W -> 0 <= W < 2 ^ 32 -> (match m with SResponse _ w _ _ _ => 0 <= w <= W | SWinupdate w => 0 <= w <= W end) ->
  match a_recv t1 t2 m a with Some (a', ms) => counts W a a' ms (match m with SResponse _ _ _ _ _ => 1 | _ => 0 end) | None => a_used a = 0 end.
Proof.
  intros Hu HW Hm. assert (forall a w, 0 <= a_used a <= W -> 0 <= w <= W ->
    let '(a', ms) := (let a := a <| a_avail := u32 w |> <| a_wait := false |> in if 0 <? a_avail a then a_drain t1 t2 a else (a, [])) in counts W a a' ms 0) as Hgo.
  { clear - HW. intros a w Hu Hw. cbv zeta. assert (u32 w = w) as Ew by (apply Z.mod_small; lia). rewrite Ew. set (a1 := a <| a_avail := w |> <| a_wait := false |>).
    destruct (0 <? a_avail a1); [|constructor; simpl; lia]. pose proof (counts_moves W a1 _ _ (moves_drain t1 t2 a1) Hu Hw) as [K1 K2 K3]. by destruct (a_drain t1 t2 a1) as [a2 ms]. }
  destruct m as [id w ts d data|w]; cbn [a_recv].
  - destruct (a_used a =? 0) eqn:E0; [lia|]. apply Z.eqb_neq in E0. assert (0 <= a_used (a <| a_used := a_used a - 1 |>) <= W) as Hu1 by (simpl; lia). pose proof (Hgo _ w Hu1 Hm) as H. cbv zeta in H.
    destruct (if 0 <? a_avail _ then _ else _) as [a' ms]. destruct H as [K1 K2 K3]. simpl in K1. constructor; try done. lia.
  - exact (Hgo a w Hu Hm).
Qed.
Lemma counts_exec W e a p : 0 <= a_used a <= W -> 0 <= a_avail a <= W -> 0 <= W < 2 ^ 32 -> offered W e ->
  match a_exec e (a, p) with Some (a', _, ms) => counts W a a' ms (returned e) | None => returned e = 1 -> a_used a = 0 end.
Proof.
  intros Hu Ha HW Ho. destruct e as [err ok t0 t1 t2 data|ok t1 t2 m|ok now| |]; cbn [a_exec].
  - destruct (_ <? _); [constructor; simpl; lia|]. pose proof (counts_send W t0 t1 t2 data a Hu Ha) as H. by destruct (a_send_one t0 t1 t2 data a) as [[a' ms] sig].
  - pose proof (cbw_counts_recv W t1 t2 m a Hu HW ltac:(by destruct m)) as H. destruct (a_recv t1 t2 m a) as [[a' ms]|]; [by destruct m|done].
  - destruct p; try done. unfold a_timer. destruct (_ && _); [constructor; simpl; lia|]. destruct (negb _); [constructor; simpl; lia|]. destruct (list.last _); [constructor; simpl; lia|]. destruct (a_ds a); constructor; simpl; lia.
  - destruct p; try done. constructor; simpl; lia.
  - constructor; simpl; lia.
Qed.
