(* ===== verification/Breakwater.v ===== *)
(** * breakwater: credits of the overload control, on the server

    Models [breakwater/src/bw_server.c].  A client may have as many requests outstanding
    as its window says; the server divides a global window among the sessions, and keeps
    sessions without a window in a list for each core, from which a worker wakes them.
    The bitmaps of slots are sets of positions (Bitmap).  A session has a receiver, a
    sender and a worker for each request; they, and the congestion control worker, are the
    threads of a transition system with a step for each section of code under a lock of
    the session or of a list, and for each atomic access outside.  What clients send, how
    long the queues are and whether writes succeed is arbitrary; the target that the
    congestion control computes in floating point is a parameter of its step. *)

From S2P Require Import Prelude StdDef.

Definition SBW_MAX_WINDOW : Z := 64.
Definition SBW_MAX_WINDOW_EXP : Z := 6.
Definition SBW_DROP_THRESH : Z := 160.
Definition all_slots : gset nat := list_to_set (seq 0 64).

(** ** Data *)

(** The counters and lists that the sessions share. *)
Record globals := Globals { win_avail : Z; win_used : Z; srpc_num_pending : Z; num_sess : Z; num_drained : Z; drained : gmap Z (list nat) }.
#[global] Instance eta_globals : Settable globals := fun r => Globals (win_avail r) (win_used r) (srpc_num_pending r) (num_sess r) (num_drained r) (drained r).

(** [struct sbw_session]; a slot holds a context when it is not in [avail], and [dropped]
    are those whose context is marked [drop]. *)
Record session := Session {
  drained_core : Z; is_linked : bool; wake_up : bool; need_winupdate : bool; win : Z; advertised_win : Z; num_pending : Z;
  demand : Z; demand_sync : bool; avail : gset nat; completed : gset nat; dropped : gset nat; closed : bool; sender_th : bool }.
#[global] Instance eta_session : Settable session := fun r =>
  Session (drained_core r) (is_linked r) (wake_up r) (need_winupdate r) (win r) (advertised_win r) (num_pending r)
    (demand r) (demand_sync r) (avail r) (completed r) (dropped r) (closed r) (sender_th r).
(** The session that [srpc_server] makes. *)
Definition new_session : session := Session (-1) false false false 0 0 0 0 false all_slots ∅ ∅ false false.

(** [chdr.demand] and [BW_CFLAG_DSYNC] of a client's header. *)
Record chdr := Chdr { h_demand : Z; h_dsync : bool }.

Definition first_slot (l : gset nat) : option nat := fst <$> list_find (fun i => i ∈ l) (seq 0 64).
Definition srpc_get_slot (s : session) : session * option nat :=
  match first_slot (avail s) with Some i => (s <| avail := avail s ∖ {[i]} |>, Some i) | None => (s, None) end.
Definition srpc_put_slot (i : nat) (s : session) : session := s <| avail := avail s ∪ {[i]} |>.

(** [MIN] of an unsigned 64-bit number and an int, stored in an int. *)
Definition umin (x y : Z) : Z := s32 (Z.min (u64 x) (u64 y)).

(** [runtime_max_cores()], and whether the build keeps [assert]. *)
Section Code.
Context (max_cores : Z) (debug : bool).

(** ** Sections under the session's lock *)

Definition srpc_update_window (req_dropped : bool) (g : globals) (s : session) : globals * session :=
  if negb (drained_core s =? -1) then (g, s)
  else
    let old_win := win s in
    let open_window := win_avail g - win_used g in
    let max_overprovision := Z.max (Z.quot open_window (num_sess g)) 1 in
    let w := if win_used g <? win_avail g then umin (num_pending s + demand s + max_overprovision) (win s + open_window)
             else if win_avail g <? win_used g then win s - 1 else win s in
    let w := if wake_up s || (num_sess g <=? max_cores) then Z.max w max_overprovision else w in
    let w := if (0 <? old_win) && (w =? 0) && negb req_dropped && negb (demand_sync s) then max_overprovision else w in
    let w := Z.max w (num_pending s) in
    let w := Z.min w (SBW_MAX_WINDOW - 1) in
    let w := umin w (num_pending s + demand s + (if demand_sync s then 0 else max_overprovision)) in
    (g <| win_used := win_used g + (w - old_win) |>, s <| win := w |>).

(** The lock of the list is taken inside. *)
Definition srpc_remove_from_drained_list (i : nat) (g : globals) (s : session) : globals * session :=
  if drained_core s =? -1 then (g, s)
  else
    let '(g, s) := if is_linked s then
        (g <| drained := alter (filter (fun j => j <> i)) (drained_core s) (drained g) |> <| num_drained := num_drained g - 1 |>, s <| is_linked := false |>)
      else (g, s) in
    (g, s <| drained_core := -1 |>).

(** The window is cut to what the client can use. *)
Definition adjust_window (g : globals) (s : session) : globals * session :=
  let need := u64 (num_pending s + demand s) in
  if need <? u64 (win s) then (g <| win_used := win_used g - s32 (win s - need) |>, s <| win := s32 need |>) else (g, s).

(** [srpc_recv_one], a call in slot [idx]: the last result says whether it is dropped. *)
Definition recv_call (i idx : nat) (h : chdr) (queue_us : Z) (g : globals) (s : session) : globals * session * bool :=
  let s := s <| demand := h_demand h |> <| demand_sync := h_dsync h |> in
  let '(g, s) := srpc_remove_from_drained_list i g s in
  let s := s <| num_pending := num_pending s + 1 |> in
  let '(g, s) := adjust_window g s in
  let g := g <| srpc_num_pending := srpc_num_pending g + 1 |> in
  if SBW_DROP_THRESH <=? queue_us then
    (g, s <| dropped := dropped s ∪ {[idx]} |> <| completed := completed s ∪ {[idx]} |> <| sender_th := false |>, true)
  else (g, s, false).
(** The same for a window update. *)
Definition recv_winupdate (i : nat) (h : chdr) (g : globals) (s : session) : globals * session :=
  let old_demand := demand s in
  let s := s <| demand := h_demand h |> <| demand_sync := h_dsync h |> in
  let '(g, s) :=
    if (0 <? old_demand) && (demand s =? 0) then srpc_remove_from_drained_list i g s
    else if (old_demand =? 0) && (0 <? demand s) && (num_pending s =? 0) then (g, s <| sender_th := false |> <| need_winupdate := true |>)
    else (g, s) in
  let s := if demand s =? 0 then s <| advertised_win := 0 |> else s in
  adjust_window g s.

(** [srpc_worker] after the handler. *)
Definition worker_done (idx : nat) (s : session) : session := s <| completed := completed s ∪ {[idx]} |> <| sender_th := false |>.

(** The first section of [srpc_sender]. *)
Definition sender_sleeps (s : session) : bool := negb (closed s) && negb (need_winupdate s) && negb (wake_up s) && bool_decide (completed s = ∅).
Inductive sender_action := SendWinupdate | SendResponses (tmp : gset nat) (w dcore : Z).
Definition sender_section (i : nat) (g : globals) (s : session) : globals * session * sender_action :=
  let s := s <| sender_th := false |> in
  let tmp := completed s in
  let s := s <| completed := ∅ |> in
  let req_dropped := negb (bool_decide (tmp ∩ dropped s = ∅)) in
  let '(g, s) := if wake_up s then srpc_remove_from_drained_list i g s else (g, s) in
  let dcore := drained_core s in
  let num_resp := Z.of_nat (size tmp) in
  let s := s <| num_pending := num_pending s - num_resp |> in
  let '(g, s) := srpc_update_window req_dropped g s in
  let send_winupdate := (need_winupdate s || wake_up s) && (num_resp =? 0) && (advertised_win s <? win s) in
  let s := if (0 <? num_resp) || send_winupdate then s <| advertised_win := win s |> else s in
  let s := s <| need_winupdate := false |> <| wake_up := false |> in
  (g, s, if send_winupdate then SendWinupdate else SendResponses tmp (win s) dcore).
(** Its last section, on core [core]: the session goes to the list of drained ones; [None]
    is a [BUG_ON], or a session that is in a list already (an [assert], without which the
    lists are damaged). *)
Definition sender_drain (i : nat) (core : Z) (g : globals) (s : session) : option (globals * session) :=
  if negb (demand_sync s) || (0 <? demand s) then
    if is_linked s || (0 <? win s) then None
    else Some (g <| drained := <[core := drained g !!! core ++ [i]]> (drained g) |> <| num_drained := num_drained g + 1 |>,
               s <| is_linked := true |> <| drained_core := core |>)
  else Some (g, s).
(** When it may stop waiting at the end. *)
Definition sender_may_end (s : session) : bool := closed s && bool_decide (64 <= size (avail s) + size (completed s))%nat.

(** The section of [srpc_server] that closes the session. *)
Definition server_close (i : nat) (g : globals) (s : session) : globals * session :=
  let s := s <| sender_th := false |> <| closed := true |> in
  let '(g, s) := if is_linked s then srpc_remove_from_drained_list i g s else (g, s) in
  (g <| win_used := win_used g - win s |> <| srpc_num_pending := srpc_num_pending g - num_pending s |>,
   s <| num_pending := 0 |> <| demand := 0 |> <| win := 0 |>).

(** [srpc_cc_worker]: the new global window, from what the control law says. *)
Definition cc_clamp (target sess : Z) : Z := Z.min (Z.max target max_cores) (Z.shiftl sess SBW_MAX_WINDOW_EXP).

(** ** Threads *)

Inductive rpc := RRead | RPayload (idx : nat) (h : chdr) | RCall (idx : nat) (h : chdr) | RUpdate (h : chdr) | RClose | RLeave | RWait.
Inductive spc := SLoop | SPark | SWinupdate | SSending (tmp : gset nat) (w dcore : Z) | SSent (n : Z) (w dcore : Z) | SDrain | SEnd | SEndPark | SDone.
(** The congestion control worker sleeps; looks for drained sessions; has popped one from
    its list; has cleared its [drained_core]; has counted it; has given it a window. *)
Inductive ccpc := CSleep | CScan (new_win win_open : Z) | CPopped (new_win win_open : Z) (i : nat) | CCleared (new_win win_open : Z) (i : nat)
| CChosen (new_win win_open : Z) (i : nat) | CWoken (new_win win_open : Z) (i : nat).

(** How the program can go wrong: an assertion on the last session fails; the session that
    is drained has a window ([BUG_ON]) or is in a list; the session that the congestion
    control worker chose has a window ([BUG_ON]), or has been freed; a session is freed
    while it is in a list. *)
Inductive fault_kind := AssertReset | BugDrain | BugChosen | UseAfterFree | FreedListed.

(** A session with its threads and the slots that workers run in. *)
Record ses := Ses { ss : session; recv : rpc; send : spc; running : gset nat }.
#[global] Instance eta_ses : Settable ses := fun r => Ses (ss r) (recv r) (send r) (running r).
(** [resets] and [writes] are the server threads that saw the last session go and are about
    to test that nothing is in use, or to set the counters to their first values.  [lost]
    sums the windows that sessions had when they were freed, [skew] what the resets took
    off. *)
Record sys := Sys { gl : globals; sessions : gmap nat ses; cc : ccpc; resets : nat; writes : nat; lost : Z; skew : Z; fault : option fault_kind }.
#[global] Instance eta_sys : Settable sys := fun r => Sys (gl r) (sessions r) (cc r) (resets r) (writes r) (lost r) (skew r) (fault r).

Definition put_ses (i : nat) (x : ses) (y : sys) : sys := y <| sessions := <[i := x]> (sessions y) |>.
(** [thread_ready] of the sender, if it had left itself to be woken. *)
Definition wake_sender (was : session) (p : spc) : spc :=
  if sender_th was then match p with SPark => SLoop | SEndPark => SEnd | _ => p end else p.

(** A section under a lock, or an atomic operation, is a step; [Freed] is the [sfree] of a
    session together with the read of [srpc_num_sess] after it. *)
Inductive step : sys -> sys -> Prop :=
(** [srpc_server] *)
| Accepted y i : fault y = None -> sessions y !! i = None -> step y (put_ses i (Ses new_session RRead SLoop ∅) (y <| gl := gl y <| num_sess := num_sess (gl y) + 1 |> |>))
| ReadCall y i x h : fault y = None -> sessions y !! i = Some x -> recv x = RRead ->
    step y (let '(s, slot) := srpc_get_slot (ss x) in
            match slot with Some idx => put_ses i (x <| ss := s |> <| recv := RPayload idx h |>) y | None => y end)
| ReadUpdate y i x h : fault y = None -> sessions y !! i = Some x -> recv x = RRead -> step y (put_ses i (x <| recv := RUpdate h |>) y)
| ReadFails y i x : fault y = None -> sessions y !! i = Some x -> recv x = RRead -> step y (put_ses i (x <| recv := RClose |>) y)
| ReadPayload y i x idx h (ok : bool) : fault y = None -> sessions y !! i = Some x -> recv x = RPayload idx h ->
    step y (put_ses i (if ok then x <| recv := RCall idx h |> else x <| ss := srpc_put_slot idx (ss x) |> <| recv := RClose |>) y)
| CallLocked y i x idx h queue_us : fault y = None -> sessions y !! i = Some x -> recv x = RCall idx h ->
    step y (let '(g, s, drop) := recv_call i idx h queue_us (gl y) (ss x) in
            put_ses i (if drop : bool then x <| ss := s |> <| recv := RRead |> <| send := wake_sender (ss x) (send x) |>
                       else x <| ss := s |> <| recv := RRead |> <| running := running x ∪ {[idx]} |>) (y <| gl := g |>))
| UpdateLocked y i x h : fault y = None -> sessions y !! i = Some x -> recv x = RUpdate h ->
    step y (let '(g, s) := recv_winupdate i h (gl y) (ss x) in
            put_ses i (x <| ss := s |> <| recv := RRead |>
              <| send := if sender_th s then send x else wake_sender (ss x) (send x) |>) (y <| gl := g |>))
| CloseLocked y i x : fault y = None -> sessions y !! i = Some x -> recv x = RClose ->
    step y (let '(g, s) := server_close i (gl y) (ss x) in
            put_ses i (x <| ss := s |> <| recv := RLeave |> <| send := wake_sender (ss x) (send x) |>) (y <| gl := g |>))
| Leave y i x : fault y = None -> sessions y !! i = Some x -> recv x = RLeave ->
    step y (put_ses i (x <| recv := RWait |>) (y <| gl := gl y <| num_sess := num_sess (gl y) - 1 |> |>))
| Freed y i x : fault y = None -> sessions y !! i = Some x -> recv x = RWait -> send x = SDone ->
    step y (y <| sessions := delete i (sessions y) |> <| lost := lost y + win (ss x) |> <| resets := if num_sess (gl y) =? 0 then S (resets y) else resets y |>
              <| fault := if is_linked (ss x) then Some FreedListed else None |>)
| Tested y n : fault y = None -> resets y = S n ->
    step y (if negb debug || ((win_used (gl y) =? 0) && (num_drained (gl y) =? 0)) then y <| resets := n |> <| writes := S (writes y) |> else y <| fault := Some AssertReset |>)
| Reset y n : fault y = None -> writes y = S n ->
    step y (y <| writes := n |> <| skew := skew y - win_used (gl y) |> <| gl := gl y <| win_used := 0 |> <| win_avail := max_cores |> |>)
(** [srpc_worker] *)
| Handled y i x idx : fault y = None -> sessions y !! i = Some x -> idx ∈ running x ->
    step y (put_ses i (x <| ss := worker_done idx (ss x <| dropped := dropped (ss x) ∖ {[idx]} |>) |> <| running := running x ∖ {[idx]} |> <| send := wake_sender (ss x) (send x) |>) y)
(** [srpc_sender] *)
| SenderParks y i x : fault y = None -> sessions y !! i = Some x -> send x = SLoop -> sender_sleeps (ss x) = true ->
    step y (put_ses i (x <| ss := ss x <| sender_th := true |> |> <| send := SPark |>) y)
| SenderClosed y i x : fault y = None -> sessions y !! i = Some x -> send x = SLoop -> closed (ss x) = true ->
    step y (put_ses i (x <| ss := ss x <| sender_th := false |> |> <| send := SEnd |>) y)
| SenderLocked y i x : fault y = None -> sessions y !! i = Some x -> send x = SLoop -> sender_sleeps (ss x) = false -> closed (ss x) = false ->
    step y (let '(g, s, a) := sender_section i (gl y) (ss x) in
            put_ses i (x <| ss := s |> <| send := match a with SendWinupdate => SWinupdate | SendResponses tmp w dcore => SSending tmp w dcore end |>) (y <| gl := g |>))
| WinupdateSent y i x (ok : bool) : fault y = None -> sessions y !! i = Some x -> send x = SWinupdate ->
    step y (put_ses i (x <| send := if ok then SLoop else SEnd |>) y)
| ResponsesSent y i x tmp w dcore : fault y = None -> sessions y !! i = Some x -> send x = SSending tmp w dcore ->
    step y (put_ses i (x <| ss := ss x <| avail := avail (ss x) ∪ tmp |> |> <| send := SSent (Z.of_nat (size tmp)) w dcore |>) y)
| ResponsesCounted y i x n w dcore : fault y = None -> sessions y !! i = Some x -> send x = SSent n w dcore ->
    step y (put_ses i (x <| send := if (w =? 0) && (dcore =? -1) && bool_decide (avail (ss x) = all_slots) then SDrain else SLoop |>)
              (y <| gl := gl y <| srpc_num_pending := srpc_num_pending (gl y) - n |> |>))
| DrainLocked y i x core : fault y = None -> sessions y !! i = Some x -> send x = SDrain -> 0 <= core < max_cores ->
    step y (match sender_drain i core (gl y) (ss x) with
            | Some (g, s) => put_ses i (x <| ss := s |> <| send := SLoop |>) (y <| gl := g |>)
            | None => y <| fault := Some BugDrain |>
            end)
| EndParks y i x : fault y = None -> sessions y !! i = Some x -> send x = SEnd -> sender_may_end (ss x) = false ->
    step y (put_ses i (x <| ss := ss x <| sender_th := true |> |> <| send := SEndPark |>) y)
| EndLocked y i x : fault y = None -> sessions y !! i = Some x -> send x = SEnd -> sender_may_end (ss x) = true ->
    step y (let '(g, s) := srpc_remove_from_drained_list i (gl y) (ss x) in
            put_ses i (x <| ss := s <| avail := all_slots |> |> <| send := SDone |>) (y <| gl := g |>))
(** [srpc_cc_worker] *)
| CcStarts y target : fault y = None -> cc y = CSleep ->
    step y (let new_win := cc_clamp target (num_sess (gl y)) in y <| cc := CScan new_win (new_win - win_used (gl y)) |>)
| CcPops y new_win win_open core i l : fault y = None -> cc y = CScan new_win win_open -> 0 < win_open -> drained (gl y) !! core = Some (i :: l) ->
    step y (match sessions y !! i with
            | Some x => put_ses i (x <| ss := ss x <| is_linked := false |> |>) (y <| gl := gl y <| drained := <[core := l]> (drained (gl y)) |> |> <| cc := CPopped new_win win_open i |>)
            | None => y <| fault := Some UseAfterFree |>
            end)
| CcClears y new_win win_open i : fault y = None -> cc y = CPopped new_win win_open i ->
    step y (match sessions y !! i with
            | Some x => put_ses i (x <| ss := ss x <| drained_core := -1 |> |>) (y <| cc := CCleared new_win win_open i |>)
            | None => y <| fault := Some UseAfterFree |>
            end)
| CcCounts y new_win win_open i : fault y = None -> cc y = CCleared new_win win_open i ->
    step y (y <| gl := gl y <| num_drained := num_drained (gl y) - 1 |> |> <| cc := CChosen new_win win_open i |>)
| CcWakes y new_win win_open i : fault y = None -> cc y = CChosen new_win win_open i ->
    step y (match sessions y !! i with
            | Some x => if 0 <? win (ss x) then y <| fault := Some BugChosen |>
                        else put_ses i (x <| ss := ss x <| sender_th := false |> <| wake_up := true |> <| win := 1 |> |> <| send := wake_sender (ss x) (send x) |>)
                               (y <| cc := CWoken new_win win_open i |>)
            | None => y <| fault := Some UseAfterFree |>
            end)
| CcUses y new_win win_open i : fault y = None -> cc y = CWoken new_win win_open i ->
    step y (y <| gl := gl y <| win_used := win_used (gl y) + 1 |> |> <| cc := CScan new_win (win_open - 1) |>)
(** When no window is left, or each list was empty when it was looked at. *)
| CcEnds y new_win win_open : fault y = None -> cc y = CScan new_win win_open -> step y (y <| gl := gl y <| win_avail := new_win |> |> <| cc := CSleep |>).

Definition srpc_init : sys := Sys (Globals max_cores 0 0 0 0 ∅) ∅ CSleep 0 0 0 0 None.
Inductive reachable : sys -> Prop :=
| RInit : reachable srpc_init
| RStep y y' : reachable y -> step y y' -> reachable y'.
End Code.
