(* ===== verification/BwExec.v ===== *)
(** * breakwater: the steps of the server as a function

    A label for each step of the transition system of Breakwater, and a function that takes
    the step of a label where it can be taken; it has the same steps as the relation. *)

From S2P Require Import Prelude StdDef Breakwater.

Inductive label :=
| LAccept (i : nat) | LReadCall (i : nat) (h : chdr) | LReadUpdate (i : nat) (h : chdr) | LReadFails (i : nat) | LPayload (i : nat) (ok : bool)
| LCall (i : nat) (queue_us : Z) | LUpdate (i : nat) | LClose (i : nat) | LLeave (i : nat) | LFree (i : nat) | LTest | LReset
| LHandled (i idx : nat) | LParks (i : nat) | LSenderClosed (i : nat) | LSection (i : nat) | LWinupdateSent (i : nat) (ok : bool) | LSent (i : nat) | LCounted (i : nat) | LDrain (i : nat) (core : Z) | LEndParks (i : nat) | LEnd (i : nat)
| LCcStart (target : Z) | LCcPop (core : Z) | LCcClear | LCcCount | LCcWake | LCcUse | LCcEnd.

Definition on (i : nat) (y : sys) (k : ses -> option sys) : option sys := match sessions y !! i with Some x => k x | None => None end.
(** Finds the state of a thread that a step asks for. *)
Ltac find_pc :=
  repeat match goal with
  | H : None = Some _ |- _ => discriminate H
  | H : on _ _ _ = Some _ |- _ => unfold on in H
  | H : match ?e with _ => _ end = Some _ |- _ => let E := fresh "E" in destruct e eqn:E; try discriminate H
  | H : Some _ = Some _ |- _ => injection H as <-
  end.
Section Run.
Context (mc : Z) (debug : bool).
Definition exec_server (a : label) (y : sys) : option sys :=
  match a with
  | LAccept i => match sessions y !! i with Some _ => None | None => Some (put_ses i (Ses new_session RRead SLoop ∅) (y <| gl := gl y <| num_sess := num_sess (gl y) + 1 |> |>)) end
  | LReadCall i h => on i y (fun x => match recv x with RRead =>
      Some (let '(s, slot) := srpc_get_slot (ss x) in match slot with Some idx => put_ses i (x <| ss := s |> <| recv := RPayload idx h |>) y | None => y end) | _ => None end)
  | LReadUpdate i h => on i y (fun x => match recv x with RRead => Some (put_ses i (x <| recv := RUpdate h |>) y) | _ => None end)
  | LReadFails i => on i y (fun x => match recv x with RRead => Some (put_ses i (x <| recv := RClose |>) y) | _ => None end)
  | LPayload i ok => on i y (fun x => match recv x with RPayload idx h =>
      Some (put_ses i (if ok : bool then x <| recv := RCall idx h |> else x <| ss := srpc_put_slot idx (ss x) |> <| recv := RClose |>) y) | _ => None end)
  | LCall i queue_us => on i y (fun x => match recv x with RCall idx h =>
      Some (let '(g, s, drop) := recv_call i idx h queue_us (gl y) (ss x) in
            put_ses i (if drop : bool then x <| ss := s |> <| recv := RRead |> <| send := wake_sender (ss x) (send x) |>
                       else x <| ss := s |> <| recv := RRead |> <| running := running x ∪ {[idx]} |>) (y <| gl := g |>)) | _ => None end)
  | LUpdate i => on i y (fun x => match recv x with RUpdate h =>
      Some (let '(g, s) := recv_winupdate i h (gl y) (ss x) in
            put_ses i (x <| ss := s |> <| recv := RRead |> <| send := if sender_th s then send x else wake_sender (ss x) (send x) |>) (y <| gl := g |>)) | _ => None end)
  | LClose i => on i y (fun x => match recv x with RClose =>
      Some (let '(g, s) := server_close i (gl y) (ss x) in
            put_ses i (x <| ss := s |> <| recv := RLeave |> <| send := wake_sender (ss x) (send x) |>) (y <| gl := g |>)) | _ => None end)
  | LLeave i => on i y (fun x => match recv x with RLeave => Some (put_ses i (x <| recv := RWait |>) (y <| gl := gl y <| num_sess := num_sess (gl y) - 1 |> |>)) | _ => None end)
  | LFree i => on i y (fun x => match recv x, send x with RWait, SDone =>
      Some (y <| sessions := delete i (sessions y) |> <| lost := lost y + win (ss x) |> <| resets := if num_sess (gl y) =? 0 then S (resets y) else resets y |>
              <| fault := if is_linked (ss x) then Some FreedListed else None |>) | _, _ => None end)
  | LTest => match resets y with S n =>
      Some (if negb debug || ((win_used (gl y) =? 0) && (num_drained (gl y) =? 0)) then y <| resets := n |> <| writes := S (writes y) |> else y <| fault := Some AssertReset |>) | O => None end
  | LReset => match writes y with S n => Some (y <| writes := n |> <| skew := skew y - win_used (gl y) |> <| gl := gl y <| win_used := 0 |> <| win_avail := mc |> |>) | O => None end
  | LHandled i idx => on i y (fun x => if decide (idx ∈ running x) then
      Some (put_ses i (x <| ss := worker_done idx (ss x <| dropped := dropped (ss x) ∖ {[idx]} |>) |> <| running := running x ∖ {[idx]} |> <| send := wake_sender (ss x) (send x) |>) y) else None)
  | _ => None
  end.
Definition exec_sender (a : label) (y : sys) : option sys :=
  match a with
  | LParks i => on i y (fun x => match send x, sender_sleeps (ss x) with SLoop, true => Some (put_ses i (x <| ss := ss x <| sender_th := true |> |> <| send := SPark |>) y) | _, _ => None end)
  | LSenderClosed i => on i y (fun x => match send x, closed (ss x) with SLoop, true => Some (put_ses i (x <| ss := ss x <| sender_th := false |> |> <| send := SEnd |>) y) | _, _ => None end)
  | LSection i => on i y (fun x => match send x, sender_sleeps (ss x), closed (ss x) with SLoop, false, false =>
      Some (let '(g, s, a) := sender_section mc i (gl y) (ss x) in
            put_ses i (x <| ss := s |> <| send := match a with SendWinupdate => SWinupdate | SendResponses tmp w dcore => SSending tmp w dcore end |>) (y <| gl := g |>)) | _, _, _ => None end)
  | LWinupdateSent i ok => on i y (fun x => match send x with SWinupdate => Some (put_ses i (x <| send := if ok : bool then SLoop else SEnd |>) y) | _ => None end)
  | LSent i => on i y (fun x => match send x with SSending tmp w dcore =>
      Some (put_ses i (x <| ss := ss x <| avail := avail (ss x) ∪ tmp |> |> <| send := SSent (Z.of_nat (size tmp)) w dcore |>) y) | _ => None end)
  | LCounted i => on i y (fun x => match send x with SSent n w dcore =>
      Some (put_ses i (x <| send := if (w =? 0) && (dcore =? -1) && bool_decide (avail (ss x) = all_slots) then SDrain else SLoop |>)
              (y <| gl := gl y <| srpc_num_pending := srpc_num_pending (gl y) - n |> |>)) | _ => None end)
  | LDrain i core => on i y (fun x => match send x, (0 <=? core) && (core <? mc) with SDrain, true =>
      Some (match sender_drain i core (gl y) (ss x) with Some (g, s) => put_ses i (x <| ss := s |> <| send := SLoop |>) (y <| gl := g |>) | None => y <| fault := Some BugDrain |> end) | _, _ => None end)
  | LEndParks i => on i y (fun x => match send x, sender_may_end (ss x) with SEnd, false => Some (put_ses i (x <| ss := ss x <| sender_th := true |> |> <| send := SEndPark |>) y) | _, _ => None end)
  | LEnd i => on i y (fun x => match send x, sender_may_end (ss x) with SEnd, true =>
      Some (let '(g, s) := srpc_remove_from_drained_list i (gl y) (ss x) in put_ses i (x <| ss := s <| avail := all_slots |> |> <| send := SDone |>) (y <| gl := g |>)) | _, _ => None end)
  | _ => None
  end.
Definition exec_cc (a : label) (y : sys) : option sys :=
  match a, cc y with
  | LCcStart target, CSleep => Some (let nw := cc_clamp mc target (num_sess (gl y)) in y <| cc := CScan nw (nw - win_used (gl y)) |>)
  | LCcPop core, CScan nw wo => match drained (gl y) !! core, 0 <? wo with Some (i :: l), true =>
      Some (match sessions y !! i with
            | Some x => put_ses i (x <| ss := ss x <| is_linked := false |> |>) (y <| gl := gl y <| drained := <[core := l]> (drained (gl y)) |> |> <| cc := CPopped nw wo i |>)
            | None => y <| fault := Some UseAfterFree |> end) | _, _ => None end
  | LCcClear, CPopped nw wo i => Some (match sessions y !! i with Some x => put_ses i (x <| ss := ss x <| drained_core := -1 |> |>) (y <| cc := CCleared nw wo i |>) | None => y <| fault := Some UseAfterFree |> end)
  | LCcCount, CCleared nw wo i => Some (y <| gl := gl y <| num_drained := num_drained (gl y) - 1 |> |> <| cc := CChosen nw wo i |>)
  | LCcWake, CChosen nw wo i => Some (match sessions y !! i with
      | Some x => if 0 <? win (ss x) then y <| fault := Some BugChosen |>
                  else put_ses i (x <| ss := ss x <| sender_th := false |> <| wake_up := true |> <| win := 1 |> |> <| send := wake_sender (ss x) (send x) |>) (y <| cc := CWoken nw wo i |>)
      | None => y <| fault := Some UseAfterFree |> end)
  | LCcUse, CWoken nw wo i => Some (y <| gl := gl y <| win_used := win_used (gl y) + 1 |> |> <| cc := CScan nw (wo - 1) |>)
  | LCcEnd, CScan nw wo => Some (y <| gl := gl y <| win_avail := nw |> |> <| cc := CSleep |>)
  | _, _ => None
  end.
Definition exec (a : label) (y : sys) : option sys :=
  match fault y with
  | Some _ => None
  | None => match exec_server a y with Some z => Some z | None => match exec_sender a y with Some z => Some z | None => exec_cc a y end end
  end.
Fixpoint run (l : list label) (y : sys) : option sys := match l with [] => Some y | a :: l => match exec a y with Some z => run l z | None => None end end.

Lemma server_sound a y z : fault y = None -> exec_server a y = Some z -> step mc debug y z.
Proof.
  intros Hf H. destruct a; cbn [exec_server exec_sender] in H; find_pc.
  - by apply Accepted.
  - by apply ReadCall.
  - by apply ReadUpdate.
  - by apply ReadFails.
  - by apply (ReadPayload _ _ y i _ _ _ ok).
  - by apply CallLocked.
  - by apply UpdateLocked.
  - by apply CloseLocked.
  - by apply Leave.
  - by apply Freed.
  - by apply Tested.
  - by apply Reset.
  - by apply Handled.
Qed.
Lemma sender_sound a y z : fault y = None -> exec_sender a y = Some z -> step mc debug y z.
Proof.
  intros Hf H. destruct a; cbn [exec_server exec_sender] in H; find_pc.
  - by apply SenderParks.
  - by apply SenderClosed.
  - by apply SenderLocked.
  - by apply (WinupdateSent _ _ y i _ ok).
  - by apply ResponsesSent.
  - by apply ResponsesCounted.
  - apply DrainLocked; try done. apply andb_true_iff in E1. lia.
  - by apply EndParks.
  - by apply EndLocked.
Qed.
Lemma cc_sound a y z : fault y = None -> exec_cc a y = Some z -> step mc debug y z.
Proof.
  intros Hf H. unfold exec_cc in H. destruct a; destruct (cc y) eqn:Ec; find_pc.
  - by apply CcStarts.
  - apply CcPops; try done. lia.
  - by apply CcClears.
  - by apply CcCounts.
  - by apply CcWakes.
  - by eapply CcUses.
  - by eapply CcEnds.
Qed.
Lemma exec_sound a y z : exec a y = Some z -> step mc debug y z.
Proof.
  unfold exec. intros E. destruct (fault y) eqn:Hf; [done|]. destruct (exec_server a y) eqn:E1; [simplify_eq; by apply (server_sound a)|].
  destruct (exec_sender a y) eqn:E2; [simplify_eq; by apply (sender_sound a)|by apply (cc_sound a)].
Qed.
(** Takes the step of a label from the equations of its rule. *)
Ltac takes a :=
  exists a; unfold exec, exec_server, exec_sender, exec_cc, on;
  repeat match goal with H : ?e = _ |- _ => rewrite H; clear H end; reflexivity.
Lemma exec_complete y z : step mc debug y z -> exists a, exec a y = Some z.
Proof.
  intros H. destruct H as [y i|y i x h|y i x h|y i x|y i x idx h b|y i x idx h q|y i x h|y i x|y i x|y i x|y n|y n|y i x idx Hf Hi Hr|y i x|y i x|y i x|y i x b|y i x tmp w d|y i x n w d|y i x core Hf Hi Es Hc|y i x|y i x
    |y target|y nw wo core i l Hf Ec Hw Hl|y nw wo i|y nw wo i|y nw wo i|y nw wo i|y nw wo].
  - takes (LAccept i).
  - takes (LReadCall i h).
  - takes (LReadUpdate i h).
  - takes (LReadFails i).
  - takes (LPayload i b).
  - takes (LCall i q).
  - takes (LUpdate i).
  - takes (LClose i).
  - takes (LLeave i).
  - takes (LFree i).
  - takes LTest.
  - takes LReset.
  - exists (LHandled i idx). unfold exec, exec_server, on. rewrite Hf, Hi, decide_True by done. done.
  - takes (LParks i).
  - takes (LSenderClosed i).
  - takes (LSection i).
  - takes (LWinupdateSent i b).
  - takes (LSent i).
  - takes (LCounted i).
  - exists (LDrain i core). unfold exec, exec_server, exec_sender, on. rewrite Hf, Hi, Es. by replace ((0 <=? core) && (core <? mc)) with true by (symmetry; apply andb_true_iff; lia).
  - takes (LEndParks i).
  - takes (LEnd i).
  - takes (LCcStart target).
  - exists (LCcPop core). unfold exec, exec_server, exec_sender, exec_cc. rewrite Hf, Ec, Hl. by replace (0 <? wo) with true by lia.
  - takes LCcClear.
  - takes LCcCount.
  - takes LCcWake.
  - takes LCcUse.
  - takes LCcEnd.
Qed.
Lemma run_sound l y z : reachable mc debug y -> run l y = Some z -> reachable mc debug z.
Proof.
  revert y. induction l as [|a l IH]; intros y R H; simpl in H; [by simplify_eq|]. destruct (exec a y) as [u|] eqn:E; [|done]. apply (IH u); [|done]. apply (RStep _ _ y); [done|by apply (exec_sound a)].
Qed.
End Run.

