(* ===== verification/BwRaces.v ===== *)
(** * breakwater: what the congestion control worker can meet

    Executions of the server (Breakwater) in which [srpc_cc_worker] has taken a session off
    its list, and lets go of the locks before it gives it a window: the session can get a
    window meanwhile, be drained again, or be freed.  Then two in which the counter of used
    windows is wrong for good.  An execution is a list of labels (BwExec). *)

From S2P Require Import Prelude StdDef Bags Breakwater BwExec.

(** ** Executions *)

(** On one core, the first session has the whole window; the second had no window when its
    request was answered, and the worker has just taken it off the list. *)
Definition call (i : nat) (h : chdr) : list label := [LReadCall i h; LPayload i true; LCall i 0; LHandled i 0].
Definition respond (i : nat) : list label := [LSection i; LSent i; LCounted i].
Definition update (i : nat) (h : chdr) : list label := [LReadUpdate i h; LUpdate i].
Definition leaves (i : nat) : list label := [LReadFails i; LClose i; LLeave i; LSenderClosed i; LEnd i; LFree i].
Definition first_window : list label := LAccept 1 :: update 1 (Chdr 1 false) ++ [LSection 1; LWinupdateSent 1 true].
Definition popped : list label := first_window ++ LAccept 2 :: call 2 (Chdr 0 false) ++ respond 2 ++ [LDrain 2 0; LCcStart 5; LCcPop 0].
(** The session is freed before the worker takes its lock. *)
Definition freed : list label := popped ++ leaves 2 ++ [LCcClear].
(** The client asks for a window, and gets that of the first session, which leaves. *)
Definition given : list label := popped ++ [LCcClear; LCcCount] ++ update 2 (Chdr 1 false) ++ [LReadFails 1; LClose 1; LLeave 1; LSection 2; LCcWake].
(** The session is answered again, and the worker gives it a window before it is drained. *)
Definition drained_again : list label := popped ++ [LCcClear; LCcCount] ++ call 2 (Chdr 0 false) ++ respond 2 ++ [LCcWake; LDrain 2 0].
(** The session is drained again before the worker clears its core, and then leaves. *)
Definition listed_again : list label := popped ++ call 2 (Chdr 0 false) ++ respond 2 ++ LDrain 2 0 :: LCcClear :: leaves 2.
(** The session leaves, and then the worker gives it a window. *)
Definition leaked : list label := popped ++ [LCcClear; LCcCount; LReadFails 2; LClose 2; LCcWake; LCcUse; LCcEnd; LLeave 2; LSenderClosed 2; LEnd 2; LFree 2].
(** A session gets a window while the thread of the last one sets the counters. *)
Definition raced : list label := LAccept 2 :: leaves 2 ++ LTest :: first_window ++ [LReset].

Lemma faulty (debug : bool) l k : (fault <$> run 1 debug l (srpc_init 1)) = Some (Some k) -> exists y, reachable 1 debug y /\ fault y = Some k.
Proof.
  intros H. destruct (run 1 debug l (srpc_init 1)) as [y|] eqn:E; [|done]. simpl in H. simplify_eq. exists y. split; [|done]. by apply (run_sound 1 debug l (srpc_init 1)); [apply RInit|].
Qed.
(** C35: Between taking a drained session off its list and giving it a window the congestion
    control worker holds no lock, and so it can find that the session has a window or has
    been freed, the session's sender can find a window on the session it drains, and a
    session can be freed while it is in a list.  In a build with assertions, the last
    session to leave can find a window in use. *)
Theorem bw_worker_races :
  (forall k, k <> AssertReset -> exists y, reachable 1 false y /\ fault y = Some k) /\ exists y, reachable 1 true y /\ fault y = Some AssertReset.
Proof.
  split; [intros []; intros Hk; [done|apply (faulty false drained_again)|apply (faulty false given)|apply (faulty false freed)|apply (faulty false listed_again)]|apply (faulty true (leaked ++ leaves 1 ++ [LTest]))];
    vm_compute; reflexivity.
Qed.

(** Nobody is about to change the counter of used windows: the congestion control worker
    sleeps, and no session has just left. *)
Definition settled (y : sys) : bool := match cc y, resets y, writes y, fault y with CSleep, O, O, None => true | _, _, _, _ => false end.
Definition windows (y : sys) : bool * Z * Z := (settled y, win_used (gl y), tally (fun x => win (ss x)) (sessions y)).
Lemma settles (debug : bool) l w : (windows <$> run 1 debug l (srpc_init 1)) = Some w -> exists y, reachable 1 debug y /\ windows y = w.
Proof.
  intros H. destruct (run 1 debug l (srpc_init 1)) as [y|] eqn:E; [|done]. simpl in H. injection H as H. exists y. split; [|done]. by apply (run_sound 1 debug l (srpc_init 1)); [apply RInit|].
Qed.
(** The counter of used windows can be wrong for good.  A session that leaves while the
    worker has it gets a window that nobody gives back: one session with a window of one is
    left, and two are counted.  And a session that gets its window while the thread of the
    last one sets the counters loses it from the count: it holds one, and none is counted. *)
Theorem bw_windows_miscounted debug :
  (exists y, reachable 1 debug y /\ settled y = true /\ win_used (gl y) = 2 /\ tally (fun x => win (ss x)) (sessions y) = 1) /\
  (exists y, reachable 1 debug y /\ settled y = true /\ win_used (gl y) = 0 /\ tally (fun x => win (ss x)) (sessions y) = 1).
Proof.
  split; [destruct (settles debug leaked (true, 2, 1)) as (y & R & H)|destruct (settles debug raced (true, 0, 1)) as (y & R & H)];
    try (destruct debug; vm_compute; reflexivity); unfold windows in H; injection H as H1 H2 H3; by exists y.
Qed.
