(* ===== verification/BwServer.v ===== *)
(** * breakwater: what the server's accounting guarantees

    Invariants of the transition system of Breakwater: slots are in one place, windows are
    within bounds and add up to the global counters, a sender that sleeps has nothing to
    do, and a sender ends when no worker is left. *)

From S2P Require Import Prelude StdDef Bags Breakwater BwExec BwRaces.

(** ** Sections of code *)

(** Membership as a number. *)
Definition has (j : nat) (A : gset nat) : Z := if decide (j ∈ A) then 1 else 0.
Lemma has_range j A : 0 <= has j A <= 1.
Proof. unfold has. case_decide; lia. Qed.
Lemma has_empty j : has j ∅ = 0.
Proof. unfold has. by rewrite decide_False by set_solver. Qed.
Lemma has_in j A : j ∈ A -> has j A = 1.
Proof. intros. unfold has. by rewrite decide_True. Qed.
Lemma has_out j A : j ∉ A -> has j A = 0.
Proof. intros. unfold has. by rewrite decide_False. Qed.
Lemma has_one j A : has j A = 1 -> j ∈ A.
Proof. unfold has. by case_decide. Qed.
Lemma has_zero j A : has j A = 0 -> j ∉ A.
Proof. unfold has. by case_decide. Qed.
Lemma has_union j A B : (forall k, has k A + has k B <= 1) -> has j (A ∪ B) = has j A + has j B.
Proof. intros H. specialize (H j). unfold has in *. repeat case_decide; set_solver by lia. Qed.
Lemma has_diff j A i : i ∈ A -> has j (A ∖ {[i]}) = has j A - has j {[i]}.
Proof. intros H. unfold has in *. repeat case_decide; set_solver by lia. Qed.

(** A section changes the window of a session and the counter by the same amount. *)
Definition shifted (g : globals) (s : session) (w : Z) (r : globals * session) : Prop :=
  r = (g <| win_used := win_used g + (w - win s) |>, s <| win := w |>).
Lemma shifted_same g s : shifted g s (win s) (g, s).
Proof. unfold shifted. destruct g, s. unfold set. simpl. do 2 f_equal. lia. Qed.
Lemma u64_id x : 0 <= x < 2 ^ 64 -> u64 x = x.
Proof. intros. unfold u64. by apply Z.mod_small. Qed.
Lemma u64_pos x : 0 <= u64 x < 2 ^ 64.
Proof. unfold u64. apply Z.mod_pos_bound. lia. Qed.
Lemma s32_id x : - 2 ^ 31 <= x < 2 ^ 31 -> s32 x = x.
Proof. apply s32_small. Qed.
Lemma umin_le x y : 0 <= y < 2 ^ 31 -> 0 <= umin x y <= y.
Proof. intros Hy. unfold umin. rewrite (u64_id y) by lia. pose proof (u64_pos x). rewrite s32_id; lia. Qed.
Lemma umin_le_l x y : 0 <= x < 2 ^ 31 -> 0 <= umin x y <= x.
Proof. intros Hx. unfold umin. rewrite (u64_id x) by lia. pose proof (u64_pos y). rewrite s32_id; lia. Qed.

Lemma update_window_shifts mc d g s : 0 <= win s < SBW_MAX_WINDOW -> 0 <= num_pending s ->
  exists w, shifted g s w (srpc_update_window mc d g s) /\ 0 <= w < SBW_MAX_WINDOW.
Proof.
  intros Hw Hp. unfold srpc_update_window. destruct (negb _); [exists (win s); split; [apply shifted_same|done]|].
  set (w3 := Z.min (Z.max _ (num_pending s)) _). assert (0 <= w3 < SBW_MAX_WINDOW) as H3 by (unfold w3, SBW_MAX_WINDOW in *; lia). clearbody w3.
  eexists. split; [reflexivity|]. pose proof (umin_le_l w3 (num_pending s + demand s + (if demand_sync s then 0 else Z.max (Z.quot (win_avail g - win_used g) (num_sess g)) 1))) as H.
  unfold SBW_MAX_WINDOW in *. lia.
Qed.
Lemma adjust_window_shifts g s : 0 <= win s < SBW_MAX_WINDOW -> exists w, shifted g s w (adjust_window g s) /\ 0 <= w < SBW_MAX_WINDOW.
Proof.
  intros Hw. unfold adjust_window, SBW_MAX_WINDOW in *. rewrite (u64_id (win s)) by lia. pose proof (u64_pos (num_pending s + demand s)) as Hn. set (n := u64 _) in *. clearbody n.
  destruct (n <? win s) eqn:E; [|exists (win s); split; [apply shifted_same|done]]. apply Z.ltb_lt in E. rewrite !s32_id by lia. exists n. split; [|lia].
  unfold shifted. by replace (win_used g - (win s - n)) with (win_used g + (n - win s)) by lia.
Qed.


(** ** Accounting *)

(** The session is in one list if it is linked: that of [drained_core], unless it was
    cleared after it was listed again. *)
Definition placed (i : nat) (l : gmap Z (list nat)) (s : session) : Prop :=
  if is_linked s then exists k, 0 <= k /\ (drained_core s = k \/ drained_core s = -1) /\ forall j, occ i (l !!! j) = if decide (j = k) then 1%nat else 0%nat
  else forall j, occ i (l !!! j) = 0%nat.
(** A section of session [i] keeps the books: windows, requests (by [dp]), lists. *)
Record acct (i : nat) (g : globals) (s : session) (g' : globals) (s' : session) (dp : Z) : Prop := {
  a_used : win_used g' = win_used g + (win s' - win s);
  a_pend : srpc_num_pending g' = srpc_num_pending g + dp;
  a_sess : num_sess g' = num_sess g;
  a_drained : num_drained g' = num_drained g + (Z.b2z (is_linked s') - Z.b2z (is_linked s));
  a_mine : placed i (drained g) s -> placed i (drained g') s';
  a_other : forall j k, j <> i -> occ j (drained g' !!! k) = occ j (drained g !!! k) }.
Lemma bw_acct_trans i g s g1 s1 g2 s2 d e : acct i g s g1 s1 d -> acct i g1 s1 g2 s2 e -> acct i g s g2 s2 (d + e).
Proof.
  intros [A1 A2 A3 A4 A5 A6] [B1 B2 B3 B4 B5 B6]. constructor; try lia; try congruence; [auto|]. intros j k Hj. by rewrite B6, A6.
Qed.
Lemma acct_local i g s s' : win s' = win s -> is_linked s' = is_linked s -> drained_core s' = drained_core s -> acct i g s g s' 0.
Proof. intros E1 E2 E3. constructor; rewrite ?E1, ?E2; try lia; try done. unfold placed. by rewrite E2, E3. Qed.
Lemma acct_shift i g s w r : shifted g s w r -> acct i g s r.1 r.2 0.
Proof. intros ->. constructor; simpl; try lia; done. Qed.
Lemma occ_filter_ne (j i : nat) (l : list nat) : occ j (filter (fun k => k <> i) l) = if decide (j = i) then 0%nat else occ j l.
Proof.
  unfold occ. rewrite list_filter_filter. case_decide as E.
  - subst. replace (filter _ l) with (@nil nat); [done|]. symmetry. induction l as [|x l IH]; [done|]. rewrite filter_cons_False; [done|]. by intros [-> ?].
  - f_equal. apply list_filter_iff. intros x. split; [by intros [? ?]|]. intros ->. done.
Qed.
Lemma occ_alter (j i : nat) (k k' : Z) (m : gmap Z (list nat)) :
  occ j (alter (filter (fun x => x <> i)) k m !!! k') = if decide (k' = k /\ j = i) then 0%nat else occ j (m !!! k').
Proof.
  rewrite lookup_total_alt, (lookup_total_alt m). destruct (decide (k' = k)) as [-> |Hk].
  - rewrite lookup_alter_eq. destruct (m !! k) as [l|]; simpl; [|by case_decide]. rewrite occ_filter_ne. repeat case_decide; tauto.
  - rewrite lookup_alter_ne by congruence. rewrite decide_False; tauto.
Qed.
Lemma acct_remove i g s : acct i g s (srpc_remove_from_drained_list i g s).1 (srpc_remove_from_drained_list i g s).2 0.
Proof.
  unfold srpc_remove_from_drained_list. destruct (drained_core s =? -1) eqn:E; [by apply acct_local|]. apply Z.eqb_neq in E.
  destruct (is_linked s) eqn:El; constructor; simpl; rewrite ?El; simpl; try lia.
  - unfold placed. simpl. rewrite El. intros (k & Hk & Hc & H) j. rewrite occ_alter, H. repeat case_decide; try done. exfalso. destruct Hc; [|done]. naive_solver.
  - intros j k Hj. rewrite occ_alter, decide_False; tauto.
  - unfold placed. simpl. by rewrite El.
Qed.

(** What a session has besides its windows and its place in the lists. *)
Definition body (s : session) : session := s <| win := 0 |> <| advertised_win := 0 |> <| is_linked := false |> <| drained_core := -1 |>.
Lemma body_remove i g s : body (srpc_remove_from_drained_list i g s).2 = body s.
Proof. unfold srpc_remove_from_drained_list. destruct (_ =? -1); [done|]. by destruct (is_linked s). Qed.
Lemma body_shift g s w r : shifted g s w r -> body r.2 = body s.
Proof. by intros ->. Qed.
Lemma win_remove i g s : win (srpc_remove_from_drained_list i g s).2 = win s.
Proof. unfold srpc_remove_from_drained_list. destruct (_ =? -1); [done|]. by destruct (is_linked s). Qed.

(** A section keeps the books, its window within bounds, and does [f] to the rest. *)
Definition section_ok (i : nat) (g : globals) (s : session) (dp : Z) (f : session -> session) (r : globals * session) : Prop :=
  acct i g s r.1 r.2 dp /\ 0 <= win r.2 < SBW_MAX_WINDOW /\ body r.2 = f (body s).
Lemma section_trans i g s d e f h r r' : section_ok i g s d f r -> section_ok i r.1 r.2 e h r' -> section_ok i g s (d + e) (h ∘ f) r'.
Proof. intros (A & W & B) (A' & W' & B'). split; [by apply (bw_acct_trans _ _ _ _ _ _ _ _ _ A A')|]. split; [done|]. by rewrite B', B. Qed.
Lemma section_remove i g s : 0 <= win s < SBW_MAX_WINDOW -> section_ok i g s 0 id (srpc_remove_from_drained_list i g s).
Proof. intros Hw. split; [apply acct_remove|]. split; [by rewrite win_remove|apply body_remove]. Qed.
Lemma section_adjust i g s : 0 <= win s < SBW_MAX_WINDOW -> section_ok i g s 0 id (adjust_window g s).
Proof.
  intros Hw. destruct (adjust_window_shifts g s Hw) as (w & Hs & Hw'). split; [by apply (acct_shift _ _ _ w)|]. split; [by rewrite Hs|by apply (body_shift g s w)].
Qed.
Lemma section_update mc i d g s : 0 <= win s < SBW_MAX_WINDOW -> 0 <= num_pending s -> section_ok i g s 0 id (srpc_update_window mc d g s).
Proof.
  intros Hw Hp. destruct (update_window_shifts mc d g s Hw Hp) as (w & Hs & Hw'). split; [by apply (acct_shift _ _ _ w)|]. split; [by rewrite Hs|by apply (body_shift g s w)].
Qed.
Lemma section_local i g s f : 0 <= win s < SBW_MAX_WINDOW -> win (f s) = win s -> is_linked (f s) = is_linked s -> drained_core (f s) = drained_core s ->
  body (f s) = f (body s) -> section_ok i g s 0 f (g, f s).
Proof. intros Hw E1 E2 E3 E4. split; [by apply acct_local|]. simpl. by rewrite E1. Qed.

Definition add_pending (n : Z) (s : session) : session := s <| num_pending := num_pending s + n |>.
Lemma section_call i idx h q g s : 0 <= win s < SBW_MAX_WINDOW ->
  let '(g', s', drop) := recv_call i idx h q g s in
  section_ok i g s 1 (fun b => let b := b <| demand := h_demand h |> <| demand_sync := h_dsync h |> <| num_pending := num_pending b + 1 |> in
    if drop then b <| dropped := dropped b ∪ {[idx]} |> <| completed := completed b ∪ {[idx]} |> <| sender_th := false |> else b) (g', s').
Proof.
  intros Hw. unfold recv_call. set (s0 := s <| demand := h_demand h |> <| demand_sync := h_dsync h |>).
  assert (section_ok i g s 0 (fun b => b <| demand := h_demand h |> <| demand_sync := h_dsync h |>) (g, s0)) as H0 by (by apply (section_local i g s (fun b => b <| demand := h_demand h |> <| demand_sync := h_dsync h |>))).
  pose proof (section_trans _ _ _ _ _ _ _ _ _ H0 (section_remove i g s0 Hw)) as H1. destruct (srpc_remove_from_drained_list i g s0) as [g1 s1]. clear H0.
  pose proof (section_trans _ _ _ _ _ _ _ _ _ H1 (section_local i g1 s1 (add_pending 1) (proj1 (proj2 H1)) eq_refl eq_refl eq_refl eq_refl)) as H2. clear H1.
  pose proof (section_trans _ _ _ _ _ _ _ _ _ H2 (section_adjust i _ _ (proj1 (proj2 H2)))) as H3. simpl in H3. clear H2.
  destruct (adjust_window g1 _) as [g3 s3]. destruct H3 as ([A1 A2 A3 A4 A5 A6] & W & B). unfold compose, id in B. simpl in *.
  destruct (SBW_DROP_THRESH <=? q); (split; [constructor; simpl; try lia; try done|]); (split; [done|]); simpl; [|done].
  transitivity (body s3 <| dropped := dropped (body s3) ∪ {[idx]} |> <| completed := completed (body s3) ∪ {[idx]} |> <| sender_th := false |>); [done|]. by rewrite B.
Qed.
Definition asks_window (s : session) (h : chdr) : bool := (demand s =? 0) && (0 <? h_demand h) && (num_pending s =? 0).
Lemma section_winupdate i h g s : 0 <= win s < SBW_MAX_WINDOW ->
  section_ok i g s 0 (fun b => let b := b <| demand := h_demand h |> <| demand_sync := h_dsync h |> in
    if asks_window s h then b <| sender_th := false |> <| need_winupdate := true |> else b) (recv_winupdate i h g s).
Proof.
  intros Hw. unfold recv_winupdate. cbv zeta. set (s0 := s <| demand := h_demand h |> <| demand_sync := h_dsync h |>).
  set (f := fun b : session => let b := b <| demand := h_demand h |> <| demand_sync := h_dsync h |> in if asks_window s h then b <| sender_th := false |> <| need_winupdate := true |> else b).
  match goal with |- section_ok _ _ _ _ _ (let '(_, _) := ?e in _) => set (r := e) end. assert (section_ok i g s 0 f r) as H1.
  { unfold r, f, asks_window. change (num_pending s0) with (num_pending s). change (demand s0) with (h_demand h). destruct ((0 <? demand s) && (h_demand h =? 0)) eqn:E.
    - replace ((demand s =? 0) && _ && _) with false by (symmetry; rewrite !andb_false_iff; apply andb_true_iff in E; left; left; lia).
      apply (section_trans i g s 0 0 (fun b => b <| demand := h_demand h |> <| demand_sync := h_dsync h |>) id (g, s0)); [by apply (section_local i g s (fun b => b <| demand := h_demand h |> <| demand_sync := h_dsync h |>))|by apply section_remove].
    - destruct ((demand s =? 0) && _ && _); [by apply (section_local i g s (fun b => b <| demand := h_demand h |> <| demand_sync := h_dsync h |> <| sender_th := false |> <| need_winupdate := true |>))
      |by apply (section_local i g s (fun b => b <| demand := h_demand h |> <| demand_sync := h_dsync h |>))]. }
  clearbody r. destruct r as [g1 s1]. set (s2 := if demand s1 =? 0 then _ else _).
  assert (section_ok i g1 s1 0 id (g1, s2)) as H2 by (unfold s2; destruct (demand s1 =? 0); (split; [by apply acct_local|split; [apply (proj1 (proj2 H1))|done]])).
  apply (section_trans i g s 0 0 f id (g1, s2)); [by apply (section_trans i g s 0 0 f id (g1, s1))|]. apply section_adjust. apply H2.
Qed.
Lemma section_close i g s : 0 <= win s < SBW_MAX_WINDOW ->
  section_ok i g s (- num_pending s) (fun b => b <| sender_th := false |> <| closed := true |> <| num_pending := 0 |> <| demand := 0 |>) (server_close i g s).
Proof.
  intros Hw. unfold server_close. set (s0 := s <| sender_th := false |> <| closed := true |>).
  match goal with |- section_ok _ _ _ _ _ (let '(_, _) := ?e in _) => set (r := e) end.
  assert (section_ok i g s 0 (fun b => b <| sender_th := false |> <| closed := true |>) r) as H1.
  { unfold r. destruct (is_linked s0); [|by apply (section_local i g s (fun b => b <| sender_th := false |> <| closed := true |>))].
    apply (section_trans i g s 0 0 (fun b => b <| sender_th := false |> <| closed := true |>) id (g, s0)); [by apply (section_local i g s (fun b => b <| sender_th := false |> <| closed := true |>))|by apply section_remove]. }
  clearbody r. destruct r as [g1 s1]. destruct H1 as ([A1 A2 A3 A4 A5 A6] & W & B). simpl in *. pose proof (f_equal num_pending B) as Hp. simpl in Hp.
  split; [constructor; simpl; try lia; done|]. split; [simpl; unfold SBW_MAX_WINDOW; lia|]. simpl.
  transitivity (body s1 <| num_pending := 0 |> <| demand := 0 |>); [done|]. by rewrite B.
Qed.
Lemma section_send mc i g s : 0 <= win s < SBW_MAX_WINDOW -> Z.of_nat (size (completed s)) <= num_pending s ->
  let '(g', s', a) := sender_section mc i g s in
  section_ok i g s 0 (fun b => b <| sender_th := false |> <| num_pending := num_pending b - Z.of_nat (size (completed b)) |> <| completed := ∅ |> <| need_winupdate := false |> <| wake_up := false |>) (g', s')
  /\ match a with SendWinupdate => completed s = ∅ | SendResponses tmp w _ => tmp = completed s /\ w = win s' end.
Proof.
  intros Hw Hp. unfold sender_section. cbv zeta. change (completed (s <| sender_th := false |>)) with (completed s). set (s0 := s <| sender_th := false |> <| completed := ∅ |>). set (d := negb _). clearbody d.
  set (r := if wake_up _ then _ else _).
  assert (section_ok i g s 0 (fun b => b <| sender_th := false |> <| completed := ∅ |>) r) as H1.
  { unfold r. destruct (wake_up s0); [|by apply (section_local i g s (fun b => b <| sender_th := false |> <| completed := ∅ |>))].
    apply (section_trans i g s 0 0 (fun b => b <| sender_th := false |> <| completed := ∅ |>) id (g, s0)); [by apply (section_local i g s (fun b => b <| sender_th := false |> <| completed := ∅ |>))|by apply section_remove]. }
  clearbody r. destruct r as [g1 s1]. pose proof (f_equal num_pending (proj2 (proj2 H1))) as Hp1. simpl in Hp1. set (n := Z.of_nat (size (completed s))) in *.
  pose proof (section_trans _ _ _ _ _ _ _ _ _ H1 (section_local i g1 s1 (add_pending (- n)) (proj1 (proj2 H1)) eq_refl eq_refl eq_refl eq_refl)) as H2. clear H1.
  pose proof (section_trans _ _ _ _ _ _ _ _ _ H2 (section_update mc i d g1 (s1 <| num_pending := num_pending s1 - n |>) (proj1 (proj2 H2)) ltac:(simpl; lia))) as H3. clear H2.
  destruct (srpc_update_window mc d g1 _) as [g3 s3]. set (b := (need_winupdate s3 || _) && _ && _).
  set (s4 := if (0 <? n) || b then s3 <| advertised_win := win s3 |> else s3). destruct H3 as (A & W & B). unfold compose, id in B. simpl in A, W, B.
  assert (body s4 = body s3 /\ win s4 = win s3 /\ is_linked s4 = is_linked s3 /\ drained_core s4 = drained_core s3) as (Eb & Ew & El & Ec) by (unfold s4; destruct ((0 <? n) || b); done).
  split.
  - split; [apply (bw_acct_trans i g s g3 s3 _ _ 0 0 A); by apply acct_local|]. split; [simpl; by rewrite Ew|].
    transitivity (body s4 <| need_winupdate := false |> <| wake_up := false |>); [done|]. by rewrite Eb, B.
  - destruct b eqn:Eb'; [|done]. unfold b in Eb'. apply andb_true_iff in Eb' as [Eb' _]. apply andb_true_iff in Eb' as [_ E]. apply Z.eqb_eq in E. unfold n in E. apply leibniz_equiv, size_empty_inv. lia.
Qed.

(** ** Invariants *)

(** The slots that a receiver reads into, and those whose responses are being sent. *)
Definition reading (p : rpc) : gset nat := match p with RPayload idx _ | RCall idx _ => {[idx]} | _ => ∅ end.
Definition sending (p : spc) : gset nat := match p with SSending tmp _ _ => tmp | _ => ∅ end.
Definition unsent (p : spc) : Z := match p with SSending tmp _ _ => Z.of_nat (size tmp) | SSent n _ _ => n | _ => 0 end.
Definition gone (p : rpc) : bool := match p with RLeave | RWait => true | _ => false end.
Definition parked (p : spc) : bool := match p with SPark | SEndPark => true | _ => false end.

Record ok (x : ses) : Prop := {
  (** each slot is free, or in the hands of one thread *)
  o_slots : send x <> SDone -> forall j, has j (avail (ss x)) + has j (reading (recv x)) + has j (running x) + has j (completed (ss x)) + has j (sending (send x)) = has j all_slots;
  o_pend : num_pending (ss x) = if closed (ss x) then 0 else Z.of_nat (size (running x)) + Z.of_nat (size (completed (ss x)));
  o_win : 0 <= win (ss x) < SBW_MAX_WINDOW;
  o_closed : closed (ss x) = gone (recv x);
  (** the sender sleeps only with nothing to do, and can be woken *)
  o_th : sender_th (ss x) = parked (send x);
  o_park : send x = SPark -> sender_sleeps (ss x) = true;
  o_endpark : send x = SEndPark -> sender_may_end (ss x) = false;
  (** it ends when no worker is left *)
  o_done : send x = SDone -> closed (ss x) = true /\ running x = ∅ }.

Definition w_win (x : ses) : Z := win (ss x).
Definition w_pend (x : ses) : Z := num_pending (ss x) + unsent (send x).
Definition w_live (x : ses) : Z := match recv x with RWait => 0 | _ => 1 end.
Definition w_linked (x : ses) : Z := Z.b2z (is_linked (ss x)).
Definition cc_given (c : ccpc) : Z := match c with CWoken _ _ _ => 1 | _ => 0 end.
Definition cc_popped (c : ccpc) : Z := match c with CPopped _ _ _ | CCleared _ _ _ => 1 | _ => 0 end.
(** The counters are sums over the sessions, and the lists hold the linked ones. *)
Record global (y : sys) : Prop := {
  g_used : win_used (gl y) = tally w_win (sessions y) + lost y + skew y - cc_given (cc y);
  g_pend : srpc_num_pending (gl y) = tally w_pend (sessions y);
  g_sess : num_sess (gl y) = tally w_live (sessions y);
  g_drained : num_drained (gl y) = tally w_linked (sessions y) + cc_popped (cc y);
  g_placed : forall i x, sessions y !! i = Some x -> placed i (drained (gl y)) (ss x);
  g_absent : forall i k, sessions y !! i = None -> occ i (drained (gl y) !!! k) = 0%nat }.
Definition inv (y : sys) : Prop := fault y = None -> global y /\ forall i x, sessions y !! i = Some x -> ok x.

Lemma tally_put (f : ses -> Z) m i x x' : m !! i = Some x -> tally f (<[i := x']> m) = tally f m + (f x' - f x).
Proof. intros Hi. change (<[i := x']> m) with (partial_alter (fun _ => Some x') i m). rewrite tally_set, Hi. simpl. lia. Qed.
Lemma global_put y i x x' g dp : global y -> sessions y !! i = Some x -> acct i (gl y) (ss x) g (ss x') dp ->
  w_pend x' = w_pend x + dp -> w_live x' = w_live x -> global (put_ses i x' (y <| gl := g |>)).
Proof.
  intros [G1 G2 G3 G4 G5 G6] Hi [A1 A2 A3 A4 A5 A6] Hp Hl. constructor; simpl; rewrite ?(tally_put _ _ _ _ _ Hi); unfold w_win, w_linked in *; try lia.
  - intros j z Hj. destruct (decide (j = i)) as [-> |Hne].
    + rewrite lookup_insert_eq in Hj. simplify_eq. by apply A5, G5.
    + rewrite lookup_insert_ne in Hj by done. pose proof (G5 j z Hj) as H. unfold placed in *. destruct (is_linked (ss z)).
      * destruct H as (k & Hk & Hc & H). exists k. split; [done|]. split; [done|]. intros k'. by rewrite A6.
      * intros k. by rewrite A6.
  - intros j k Hj. destruct (decide (j = i)) as [-> |Hne]; [by rewrite lookup_insert_eq in Hj|]. rewrite lookup_insert_ne in Hj by done. rewrite A6 by done. by apply G6.
Qed.
Lemma put_gl y i x : put_ses i x (y <| gl := gl y |>) = put_ses i x y.
Proof. by destruct y. Qed.
(** A step that leaves windows, lists and counters alone. *)
Lemma global_keep y i x x' : global y -> sessions y !! i = Some x -> win (ss x') = win (ss x) -> is_linked (ss x') = is_linked (ss x) -> drained_core (ss x') = drained_core (ss x) ->
  w_pend x' = w_pend x -> w_live x' = w_live x -> global (put_ses i x' y).
Proof.
  intros G Hi E1 E2 E3 E4 E5. rewrite <- put_gl. apply (global_put y i x x' (gl y) 0); [done|done|by apply acct_local|lia|done].
Qed.
Lemma inv_put y i x y' : (forall i x, sessions y !! i = Some x -> ok x) -> sessions y' = <[i := x]> (sessions y) -> ok x -> global y' -> inv y'.
Proof.
  intros H E Hx G _. split; [done|]. intros j z Hj. rewrite E in Hj. destruct (decide (j = i)) as [-> |Hne]; [rewrite lookup_insert_eq in Hj; by simplify_eq|].
  rewrite lookup_insert_ne in Hj by done. by apply (H j).
Qed.

(** *** Sessions *)

#[local] Opaque all_slots.

Lemma has_add j A i : has j (A ∪ {[i]}) = if decide (j = i) then 1 else has j A.
Proof. unfold has. repeat case_decide; set_solver. Qed.
Lemma has_del j A i : has j (A ∖ {[i]}) = if decide (j = i) then 0 else has j A.
Proof. unfold has. repeat case_decide; set_solver. Qed.
Lemma has_single j i : has j {[i]} = if decide (j = i) then 1 else 0.
Proof. unfold has. repeat case_decide; set_solver. Qed.
Lemma size_add (A : gset nat) i : has i A = 0 -> Z.of_nat (size (A ∪ {[i]})) = Z.of_nat (size A) + 1.
Proof. intros H%has_zero. rewrite size_union by set_solver. rewrite size_singleton. lia. Qed.
Lemma size_del (A : gset nat) i : i ∈ A -> Z.of_nat (size (A ∖ {[i]})) = Z.of_nat (size A) - 1.
Proof.
  intros H. pose proof (size_difference A {[i]} ltac:(set_solver)) as E. rewrite size_singleton in E.
  assert (size A <> 0%nat) by (intros H0%size_empty_inv; set_solver). lia.
Qed.
Lemma first_slot_free l i : first_slot l = Some i -> i ∈ l.
Proof. unfold first_slot. intros ([k z] & Hf & ->)%fmap_Some. apply list_find_Some in Hf as (Hk & Hz & _). apply lookup_seq in Hk as [-> ?]. done. Qed.

#[local] Opaque has.
(** The equation of slot [j], with the ranges of its terms. *)
Ltac slot H j :=
  let E := fresh "Es" in pose proof (H j) as E; rewrite ?has_add, ?has_del, ?has_single, ?has_empty in *;
  repeat match goal with |- context [has j ?A] => lazymatch goal with _ : 0 <= has j A <= 1 |- _ => fail | _ => pose proof (has_range j A) end
  | _ : context [has j ?A] |- _ => lazymatch goal with _ : 0 <= has j A <= 1 |- _ => fail | _ => pose proof (has_range j A) end end.
Ltac fields B :=
  let go p := (let E := fresh "E" in pose proof (f_equal p B) as E; simpl in E) in
  go avail; go completed; go num_pending; go closed; go sender_th; go wake_up; go need_winupdate.

Lemma ok_new : ok (Ses new_session RRead SLoop ∅).
Proof. constructor; simpl; try done. intros _ j. rewrite has_empty. lia. Qed.
Lemma ok_recv x p : ok x -> reading p = reading (recv x) -> gone p = gone (recv x) -> ok (x <| recv := p |>).
Proof. intros [O1 O2 O3 O4 O5 O6 O7 O8] E1 E2. constructor; simpl; rewrite ?E1, ?E2; done. Qed.
Lemma ok_slot x i h : ok x -> recv x = RRead -> first_slot (avail (ss x)) = Some i ->
  ok (x <| ss := ss x <| avail := avail (ss x) ∖ {[i]} |> |> <| recv := RPayload i h |>).
Proof.
  intros [O1 O2 O3 O4 O5 O6 O7 O8] Er Hf%first_slot_free. rewrite Er in *. simpl in O4. constructor; simpl; try done.
  - intros Hd j. specialize (O1 Hd). apply has_in in Hf. slot O1 j. case_decide; subst; lia.
  - intros Hp. unfold sender_may_end. simpl. by rewrite O4.
Qed.
Lemma ok_payload x i h : ok x -> recv x = RPayload i h -> ok (x <| ss := srpc_put_slot i (ss x) |> <| recv := RClose |>).
Proof.
  intros [O1 O2 O3 O4 O5 O6 O7 O8] Er. rewrite Er in *. simpl in *. constructor; simpl; try done.
  - intros Hd j. specialize (O1 Hd). slot O1 j. case_decide; subst; lia.
  - intros Hp. unfold sender_may_end. simpl. by rewrite O4.
Qed.
Lemma wake_parked s p : sender_th s = parked p -> parked (wake_sender s p) = false.
Proof. unfold wake_sender. intros ->. by destruct p. Qed.
Lemma wake_same s p : sender_th s = parked p -> sending (wake_sender s p) = sending p /\ unsent (wake_sender s p) = unsent p /\ (wake_sender s p = SDone <-> p = SDone).
Proof. unfold wake_sender. intros ->. by destruct p. Qed.
(** Once its thread is awake, nothing is promised about the sender's sleep. *)
Lemma ok_awake s p r q : parked p = false -> 0 <= win s < SBW_MAX_WINDOW -> sender_th s = false -> closed s = gone q ->
  (p <> SDone -> forall j, has j (avail s) + has j (reading q) + has j r + has j (completed s) + has j (sending p) = has j all_slots) ->
  num_pending s = (if closed s then 0 else Z.of_nat (size r) + Z.of_nat (size (completed s))) -> (p = SDone -> closed s = true /\ r = ∅) ->
  ok (Ses s q p r).
Proof. intros Hp Hw Ht Hc Hs Hn Hd. constructor; simpl; try done; [congruence| |]; intros ->; done. Qed.
Lemma ok_call x i h s : ok x -> recv x = RCall i h -> 0 <= win s < SBW_MAX_WINDOW -> body s = body (ss x <| demand := h_demand h |> <| demand_sync := h_dsync h |> <| num_pending := num_pending (ss x) + 1 |>) ->
  ok (x <| ss := s |> <| recv := RRead |> <| running := running x ∪ {[i]} |>).
Proof.
  intros [O1 O2 O3 O4 O5 O6 O7 O8] Er Hw B. fields B. rewrite Er in *. simpl in *. constructor; simpl; rewrite ?E, ?E0, ?E1, ?E2, ?E3; try done.
  - intros Hd j. specialize (O1 Hd). slot O1 j. case_decide; subst; lia.
  - rewrite O2, O4. rewrite size_add; [lia|]. assert (send x <> SDone) as Hd by (intros Hd; apply O8 in Hd as [Hd _]; congruence). specialize (O1 Hd). slot O1 i. rewrite decide_True in * by done. lia.
  - unfold sender_sleeps in *. by rewrite E2, E4, E5, E0.
  - unfold sender_may_end. intros _. by rewrite E2, O4.
  - intros Hd. apply O8 in Hd as [Hd _]. congruence.
Qed.
Lemma ok_dropped x i h s : ok x -> recv x = RCall i h -> 0 <= win s < SBW_MAX_WINDOW ->
  body s = body (ss x <| demand := h_demand h |> <| demand_sync := h_dsync h |> <| num_pending := num_pending (ss x) + 1 |> <| dropped := dropped (ss x) ∪ {[i]} |> <| completed := completed (ss x) ∪ {[i]} |> <| sender_th := false |>) ->
  ok (x <| ss := s |> <| recv := RRead |> <| send := wake_sender (ss x) (send x) |>).
Proof.
  intros Hx Er Hw B. pose proof Hx as [O1 O2 O3 O4 O5 O6 O7 O8]. fields B. rewrite Er in *. simpl in *.
  destruct (wake_same _ _ O5) as (W1 & W2 & W3). apply ok_awake; rewrite ?W1, ?W3, ?E, ?E0, ?E1, ?E2, ?E3; [by apply wake_parked|done|done|done| | |done].
  - intros Hd j. specialize (O1 Hd). slot O1 j. case_decide; subst; lia.
  - rewrite O2, O4. rewrite size_add; [lia|]. assert (send x <> SDone) as Hd by (intros Hd; apply O8 in Hd as [Hd _]; congruence). specialize (O1 Hd). slot O1 i. rewrite decide_True in * by done. lia.
Qed.
Lemma ok_winupdate x h s : ok x -> recv x = RUpdate h -> 0 <= win s < SBW_MAX_WINDOW ->
  body s = (let b := body (ss x) <| demand := h_demand h |> <| demand_sync := h_dsync h |> in if asks_window (ss x) h then b <| sender_th := false |> <| need_winupdate := true |> else b) ->
  ok (x <| ss := s |> <| recv := RRead |> <| send := if sender_th s then send x else wake_sender (ss x) (send x) |>).
Proof.
  intros Hx Er Hw B. pose proof Hx as [O1 O2 O3 O4 O5 O6 O7 O8]. rewrite Er in *. simpl in *. destruct (asks_window (ss x) h); fields B.
  - rewrite E3. destruct (wake_same _ _ O5) as (W1 & W2 & W3). apply ok_awake; rewrite ?W1, ?W3, ?E, ?E0, ?E1, ?E2, ?E3; try done. by apply wake_parked.
  - replace (if sender_th s then _ else _) with (send x) by (rewrite E3; unfold wake_sender; by destruct (sender_th (ss x))).
    constructor; simpl; unfold sender_sleeps, sender_may_end in *; rewrite ?E, ?E0, ?E1, ?E2, ?E3, ?E4, ?E5; done.
Qed.
Lemma ok_close x s : ok x -> recv x = RClose -> 0 <= win s < SBW_MAX_WINDOW ->
  body s = body (ss x) <| sender_th := false |> <| closed := true |> <| num_pending := 0 |> <| demand := 0 |> ->
  ok (x <| ss := s |> <| recv := RLeave |> <| send := wake_sender (ss x) (send x) |>).
Proof.
  intros Hx Er Hw B. pose proof Hx as [O1 O2 O3 O4 O5 O6 O7 O8]. rewrite Er in *. simpl in *. fields B.
  destruct (wake_same _ _ O5) as (W1 & W2 & W3). apply ok_awake; rewrite ?W1, ?W3, ?E, ?E0, ?E1, ?E2, ?E3; try done; [by apply wake_parked|].
  intros Hd. apply O8 in Hd as [Hd _]. congruence.
Qed.
Lemma ok_handled x i (d : gset nat) : ok x -> i ∈ running x ->
  ok (x <| ss := worker_done i (ss x <| dropped := d |>) |> <| running := running x ∖ {[i]} |> <| send := wake_sender (ss x) (send x) |>).
Proof.
  intros Hx Hi. pose proof Hx as [O1 O2 O3 O4 O5 O6 O7 O8]. assert (send x <> SDone) as Hd by (intros Hd; apply O8 in Hd as [_ Hd]; set_solver). specialize (O1 Hd).
  destruct (wake_same _ _ O5) as (W1 & W2 & W3). apply ok_awake; rewrite ?W1, ?W3; simpl; try done; [by apply wake_parked| |].
  - intros _ j. apply has_in in Hi. slot O1 j. case_decide; subst; lia.
  - rewrite O2. destruct (closed (ss x)); [done|]. rewrite size_add, size_del by (try done; apply has_in in Hi; slot O1 i; lia). lia.
Qed.
Lemma ok_section x s a : ok x -> closed (ss x) = false -> send x = SLoop -> 0 <= win s < SBW_MAX_WINDOW ->
  body s = body (ss x) <| sender_th := false |> <| num_pending := num_pending (ss x) - Z.of_nat (size (completed (ss x))) |> <| completed := ∅ |> <| need_winupdate := false |> <| wake_up := false |> ->
  match a with SendWinupdate => completed (ss x) = ∅ | SendResponses tmp _ _ => tmp = completed (ss x) end ->
  ok (x <| ss := s |> <| send := match a with SendWinupdate => SWinupdate | SendResponses tmp w dcore => SSending tmp w dcore end |>).
Proof.
  intros Hx Hc El Hw B Ha. pose proof Hx as [O1 O2 O3 O4 O5 O6 O7 O8]. rewrite El in *. simpl in *. fields B. specialize (O1 ltac:(done)).
  apply ok_awake; rewrite ?E, ?E0, ?E1, ?E2, ?E3; try done.
  - by destruct a.
  - intros _ j. slot O1 j. destruct a; [rewrite Ha in *; rewrite has_empty in *|subst tmp]; simpl; rewrite ?has_empty; lia.
  - rewrite O2, Hc, size_empty. lia.
  - by destruct a.
Qed.
Lemma ok_send x s p : ok x -> send x <> SDone -> p <> SDone -> parked p = false -> sending p = sending (send x) -> sender_th s = false ->
  body s = body (ss x) <| sender_th := false |> -> win s = win (ss x) -> ok (x <| ss := s |> <| send := p |>).
Proof.
  intros [O1 O2 O3 O4 O5 O6 O7 O8] Hd Hp Ep Es Et B Ew. fields B. specialize (O1 Hd). apply ok_awake; simpl; rewrite ?Es, ?Ew, ?E, ?E0, ?E1, ?E2, ?E3; done.
Qed.
Lemma ok_parks x : ok x -> send x = SLoop -> sender_sleeps (ss x) = true -> ok (x <| ss := ss x <| sender_th := true |> |> <| send := SPark |>).
Proof. intros [O1 O2 O3 O4 O5 O6 O7 O8] El Hs. rewrite El in *. specialize (O1 ltac:(done)). by constructor. Qed.
Lemma ok_endparks x : ok x -> send x = SEnd -> sender_may_end (ss x) = false -> ok (x <| ss := ss x <| sender_th := true |> |> <| send := SEndPark |>).
Proof. intros [O1 O2 O3 O4 O5 O6 O7 O8] El Hs. rewrite El in *. specialize (O1 ltac:(done)). by constructor. Qed.
Lemma ok_sent x tmp w dcore : ok x -> send x = SSending tmp w dcore ->
  ok (x <| ss := ss x <| avail := avail (ss x) ∪ tmp |> |> <| send := SSent (Z.of_nat (size tmp)) w dcore |>).
Proof.
  intros [O1 O2 O3 O4 O5 O6 O7 O8] El. rewrite El in *. specialize (O1 ltac:(done)). simpl in *. apply ok_awake; simpl; try done.
  intros _ j. rewrite has_union; [slot O1 j; lia|]. intros k. slot O1 k. pose proof (has_range k all_slots). lia.
Qed.
(** When all slots are free or completed, no worker is left. *)
Lemma size_all : size all_slots = 64%nat.
Proof. by vm_compute. Qed.
Lemma ends_idle x : ok x -> send x = SEnd -> sender_may_end (ss x) = true -> closed (ss x) = true /\ running x = ∅.
Proof.
  intros [O1 O2 O3 O4 O5 O6 O7 O8] El He. rewrite El in *. specialize (O1 ltac:(done)). unfold sender_may_end in He. apply andb_true_iff in He as [Hc Hs%bool_decide_eq_true]. split; [done|].
  set (A := avail (ss x)) in *. set (C := completed (ss x)) in *. assert (forall j, has j A + has j (running x) + has j C <= has j all_slots) as H by (intros j; slot O1 j; lia). clear - H Hs.
  assert (A ## C) as Hac. { intros j H1%has_in H2%has_in. specialize (H j). pose proof (has_range j all_slots). pose proof (has_range j (running x)). lia. }
  assert (A ∪ C = all_slots) as E.
  { apply set_subseteq_size_eq; [|rewrite size_union, size_all by done; lia]. intros j Hj. apply has_one. specialize (H j). pose proof (has_range j all_slots). pose proof (has_range j (running x)).
    pose proof (has_range j A). pose proof (has_range j C). apply elem_of_union in Hj as [Hj%has_in|Hj%has_in]; lia. }
  apply leibniz_equiv, set_equiv_subseteq. split; [|set_solver]. intros j Hj. specialize (H j). rewrite (has_in j _ Hj) in H. pose proof (has_range j A). pose proof (has_range j C).
  assert (j ∈ all_slots) as Hall by (apply has_one; pose proof (has_range j all_slots); lia). rewrite <- E in Hall. rewrite (has_in j all_slots) in H by (by rewrite <- E). apply elem_of_union in Hall as [Ha%has_in|Ha%has_in]; lia.
Qed.
Lemma ok_end x s : ok x -> send x = SEnd -> sender_may_end (ss x) = true -> body s = body (ss x) -> win s = win (ss x) -> ok (x <| ss := s <| avail := all_slots |> |> <| send := SDone |>).
Proof.
  intros Hx El He B Ew. destruct (ends_idle x Hx El He) as [Hc Hr]. destruct Hx as [O1 O2 O3 O4 O5 O6 O7 O8]. fields B. rewrite El in *. simpl in *.
  apply ok_awake; simpl; rewrite ?Ew, ?E, ?E0, ?E1, ?E2, ?E3; [done..|by intros []|done|done].
Qed.
(** The congestion control worker changes its place in the lists, or wakes it. *)
Lemma ok_listed x s : ok x -> body s = body (ss x) -> win s = win (ss x) -> ok (x <| ss := s |>).
Proof.
  intros [O1 O2 O3 O4 O5 O6 O7 O8] B Ew. fields B. constructor; simpl; unfold sender_sleeps, sender_may_end in *; rewrite ?Ew, ?E, ?E0, ?E1, ?E2, ?E3, ?E4, ?E5; done.
Qed.
Lemma ok_woken x : ok x -> ok (x <| ss := ss x <| sender_th := false |> <| wake_up := true |> <| win := 1 |> |> <| send := wake_sender (ss x) (send x) |>).
Proof.
  intros [O1 O2 O3 O4 O5 O6 O7 O8]. destruct (wake_same _ _ O5) as (W1 & W2 & W3). apply ok_awake; rewrite ?W1, ?W3; simpl; try done. by apply wake_parked.
Qed.

(** *** Steps *)

Lemma occ_push (j i : nat) (k k' : Z) (m : gmap Z (list nat)) :
  occ j (<[k := m !!! k ++ [i]]> m !!! k') = (occ j (m !!! k') + if decide (k' = k /\ j = i) then 1 else 0)%nat.
Proof.
  rewrite lookup_total_insert. case_decide as Ek; simplify_eq.
  - rewrite occ_app. destruct (decide (j = i)) as [-> |Hne]; [by rewrite occ_self, decide_True|]. rewrite (decide_False (P := k' = k' /\ j = i)) by tauto.
    unfold occ at 2. rewrite filter_cons_False by congruence. done.
  - rewrite decide_False by naive_solver. lia.
Qed.
Lemma drain_acct i core g s g' s' : 0 <= core -> sender_drain i core g s = Some (g', s') -> acct i g s g' s' 0 /\ body s' = body s /\ win s' = win s.
Proof.
  intros Hc. unfold sender_drain. destruct (negb _ || _); [|intros; simplify_eq; split; [by apply acct_local|done]].
  destruct (is_linked s) eqn:El; simpl; [done|]. destruct (0 <? win s); [done|]. intros; simplify_eq. split; [|done]. constructor; simpl; rewrite ?El; simpl; try lia.
  - unfold placed. simpl. rewrite El. intros H. exists core. split; [done|]. split; [by left|]. intros j. rewrite occ_push, H. repeat case_decide; naive_solver.
  - intros j k Hj. rewrite occ_push, decide_False by tauto. lia.
Qed.
Lemma global_cc y c : global y -> cc_given c = cc_given (cc y) -> cc_popped c = cc_popped (cc y) -> global (y <| cc := c |>).
Proof. intros [G1 G2 G3 G4 G5 G6] E1 E2. constructor; simpl; rewrite ?E1, ?E2; done. Qed.
Lemma occ_pop (j i : nat) (k k' : Z) (m : gmap Z (list nat)) l : m !! k = Some (i :: l) ->
  occ j (m !!! k') = (occ j (<[k := l]> m !!! k') + if decide (k' = k /\ j = i) then 1 else 0)%nat.
Proof.
  intros Hm. rewrite lookup_total_insert. case_decide as Ek; simplify_eq.
  - rewrite (lookup_total_correct _ _ _ Hm), occ_cons. destruct (decide (j = i)) as [-> |Hne]; [rewrite occ_self, decide_True by done; lia|]. rewrite (decide_False (P := k' = k' /\ j = i)) by tauto.
    unfold occ at 1. rewrite filter_cons_False by congruence. simpl. lia.
  - rewrite decide_False by naive_solver. lia.
Qed.
Lemma global_pop y nw wo i x core l : global y -> cc y = CScan nw wo -> drained (gl y) !! core = Some (i :: l) -> sessions y !! i = Some x ->
  global (put_ses i (x <| ss := ss x <| is_linked := false |> |>) (y <| gl := gl y <| drained := <[core := l]> (drained (gl y)) |> |> <| cc := CPopped nw wo i |>)).
Proof.
  intros [G1 G2 G3 G4 G5 G6] Ec Hl Hi. pose proof (fun j k => occ_pop j i core k _ _ Hl) as Ho. pose proof (G5 i x Hi) as Hp. pose proof (Ho i core) as Hic. rewrite decide_True in Hic by done.
  unfold placed in Hp. destruct (is_linked (ss x)) eqn:El; [|rewrite Hp in Hic; lia]. destruct Hp as (k & Hk & Hc & Hp). rewrite Hp in Hic. case_decide as Ek; [subst k|lia].
  rewrite Ec in *. constructor; simpl; rewrite ?(tally_put _ _ _ _ _ Hi); unfold w_win, w_pend, w_live, w_linked in *; simpl in *; rewrite ?El; simpl; try lia.
  - intros j z Hj. destruct (decide (j = i)) as [-> |Hne].
    + rewrite lookup_insert_eq in Hj. simplify_eq. unfold placed. simpl. intros k. specialize (Ho i k). rewrite Hp in Ho. repeat case_decide; naive_solver lia.
    + rewrite lookup_insert_ne in Hj by done. pose proof (G5 j z Hj) as H. unfold placed in *. assert (forall k, occ j (<[core := l]> (drained (gl y)) !!! k) = occ j (drained (gl y) !!! k)) as E
        by (intros k; specialize (Ho j k); rewrite decide_False in Ho by tauto; lia).
      destruct (is_linked (ss z)); [destruct H as (k & Hk' & Hc' & H); exists k; split; [done|]; split; [done|]|]; intros k'; by rewrite E.
  - intros j k Hj. destruct (decide (j = i)) as [-> |Hne]; [by rewrite lookup_insert_eq in Hj|]. rewrite lookup_insert_ne in Hj by done. specialize (Ho j k). rewrite (G6 j k Hj) in Ho. lia.
Qed.
Lemma global_wake y nw wo i x p : global y -> cc y = CChosen nw wo i -> sessions y !! i = Some x -> win (ss x) = 0 -> unsent p = unsent (send x) ->
  global (put_ses i (x <| ss := ss x <| sender_th := false |> <| wake_up := true |> <| win := 1 |> |> <| send := p |>) (y <| cc := CWoken nw wo i |>)).
Proof.
  intros [G1 G2 G3 G4 G5 G6] Ec Hi Hw Hp. rewrite Ec in *. constructor; simpl; rewrite ?(tally_put _ _ _ _ _ Hi); unfold w_win, w_pend, w_live, w_linked in *; simpl in *; rewrite ?Hw, ?Hp; try lia.
  - intros j z Hj. destruct (decide (j = i)) as [-> |Hne]; [rewrite lookup_insert_eq in Hj; simplify_eq; apply (G5 i x Hi)|]. rewrite lookup_insert_ne in Hj by done. by apply G5.
  - intros j k Hj. apply G6. apply lookup_insert_None in Hj. tauto.
Qed.
Lemma bw_inv_move y i x x' g dp : inv y -> fault y = None -> sessions y !! i = Some x -> (ok x -> ok x') -> (ok x -> acct i (gl y) (ss x) g (ss x') dp) ->
  (ok x -> w_pend x' = w_pend x + dp) -> w_live x' = w_live x -> inv (put_ses i x' (y <| gl := g |>)).
Proof.
  intros Hy Hf Hi Hx Ha Hp Hl. destruct (Hy Hf) as [G O]. pose proof (O i x Hi) as Hok. apply (inv_put y i x'); [done|done|by apply Hx|]. by apply (global_put y i x x' g dp); auto.
Qed.
Lemma inv_keep y i x x' : inv y -> fault y = None -> sessions y !! i = Some x -> (ok x -> ok x') -> win (ss x') = win (ss x) -> is_linked (ss x') = is_linked (ss x) ->
  drained_core (ss x') = drained_core (ss x) -> (ok x -> w_pend x' = w_pend x) -> w_live x' = w_live x -> inv (put_ses i x' y).
Proof.
  intros Hy Hf Hi Hx E1 E2 E3 Hp Hl. rewrite <- put_gl. apply (bw_inv_move y i x x' (gl y) 0); try done; [intros _; by apply acct_local|]. intros H. rewrite Hp by done. lia.
Qed.
Lemma inv_accepted y i : inv y -> fault y = None -> sessions y !! i = None ->
  inv (put_ses i (Ses new_session RRead SLoop ∅) (y <| gl := gl y <| num_sess := num_sess (gl y) + 1 |> |>)).
Proof.
  intros Hy Hf Hi. destruct (Hy Hf) as [[G1 G2 G3 G4 G5 G6] O]. apply (inv_put y i (Ses new_session RRead SLoop ∅)); [done|done|apply ok_new|].
  constructor; simpl; rewrite ?tally_insert by done; unfold w_win, w_pend, w_live, w_linked in *; simpl in *; try lia.
  - intros j x Hj. destruct (decide (j = i)) as [-> |Hne]; [rewrite lookup_insert_eq in Hj; simplify_eq; intros k; by apply G6|]. rewrite lookup_insert_ne in Hj by done. by apply G5.
  - intros j k Hj. apply G6. apply lookup_insert_None in Hj. tauto.
Qed.
Lemma inv_freed y i x : inv y -> fault y = None -> sessions y !! i = Some x -> recv x = RWait -> send x = SDone -> is_linked (ss x) = false ->
  forall n, inv (y <| sessions := delete i (sessions y) |> <| lost := lost y + win (ss x) |> <| resets := n |> <| fault := None |>).
Proof.
  intros Hy Hf Hi Er Es El n _. destruct (Hy Hf) as [[G1 G2 G3 G4 G5 G6] O]. destruct (O i x Hi) as [_ O2 _ O4 _ _ _ _]. rewrite Er in O4. simpl in O4. rewrite O4 in O2. split.
  - constructor; simpl; rewrite ?tally_delete, ?Hi; simpl; [unfold w_win at 2; lia|unfold w_pend at 2; rewrite Es, O2; simpl; lia|unfold w_live at 2; rewrite Er; lia|unfold w_linked at 2; rewrite El; simpl; lia| |].
    + intros j z [Hne Hj]%lookup_delete_Some. by apply G5.
    + intros j k Hj. destruct (decide (j = i)) as [-> |Hne]; [|rewrite lookup_delete_ne in Hj by done; by apply G6]. pose proof (G5 i x Hi) as Hp. unfold placed in Hp. rewrite El in Hp. apply Hp.
  - simpl. intros j z [_ Hj]%lookup_delete_Some. by apply (O j).
Qed.
Lemma inv_call y i x idx h q : inv y -> fault y = None -> sessions y !! i = Some x -> recv x = RCall idx h ->
  inv (let '(g, s, drop) := recv_call i idx h q (gl y) (ss x) in
       put_ses i (if drop : bool then x <| ss := s |> <| recv := RRead |> <| send := wake_sender (ss x) (send x) |>
                  else x <| ss := s |> <| recv := RRead |> <| running := running x ∪ {[idx]} |>) (y <| gl := g |>)).
Proof.
  intros Hy Hf Hi Er. destruct (Hy Hf) as [G O]. pose proof (section_call i idx h q (gl y) (ss x) (o_win x (O i x Hi))) as H.
  destruct (recv_call i idx h q (gl y) (ss x)) as [[g s] drop]. destruct H as (A & W & B). simpl in A, W, B. pose proof (f_equal num_pending B) as Hp.
  destruct drop; simpl in Hp; apply (bw_inv_move y i x _ g 1); try done; [intros; by apply (ok_dropped x idx h)| |unfold w_live; by rewrite Er|intros; by apply (ok_call x idx h)| |unfold w_live; by rewrite Er].
  - intros Hx. unfold w_pend. simpl. destruct (wake_same _ _ (o_th x Hx)) as (_ & -> & _). lia.
  - intros Hx. unfold w_pend. simpl. lia.
Qed.
Lemma bw_inv_update y i x h : inv y -> fault y = None -> sessions y !! i = Some x -> recv x = RUpdate h ->
  inv (let '(g, s) := recv_winupdate i h (gl y) (ss x) in
       put_ses i (x <| ss := s |> <| recv := RRead |> <| send := if sender_th s then send x else wake_sender (ss x) (send x) |>) (y <| gl := g |>)).
Proof.
  intros Hy Hf Hi Er. destruct (Hy Hf) as [G O]. pose proof (section_winupdate i h (gl y) (ss x) (o_win x (O i x Hi))) as (A & W & B). destruct (recv_winupdate i h (gl y) (ss x)) as [g s].
  simpl in A, W, B. apply (bw_inv_move y i x _ g 0); try done; [intros; by apply (ok_winupdate x h)| |unfold w_live; by rewrite Er].
  intros Hx. pose proof (f_equal num_pending B) as Hp. destruct (wake_same _ _ (o_th x Hx)) as (_ & Hu & _). unfold w_pend. simpl. destruct (sender_th s), (asks_window (ss x) h); simpl in Hp; lia.
Qed.
Lemma inv_close y i x : inv y -> fault y = None -> sessions y !! i = Some x -> recv x = RClose ->
  inv (let '(g, s) := server_close i (gl y) (ss x) in put_ses i (x <| ss := s |> <| recv := RLeave |> <| send := wake_sender (ss x) (send x) |>) (y <| gl := g |>)).
Proof.
  intros Hy Hf Hi Er. destruct (Hy Hf) as [G O]. pose proof (section_close i (gl y) (ss x) (o_win x (O i x Hi))) as (A & W & B). destruct (server_close i (gl y) (ss x)) as [g s].
  simpl in A, W, B. apply (bw_inv_move y i x _ g (- num_pending (ss x))); try done; [intros; by apply ok_close| |unfold w_live; by rewrite Er].
  intros Hx. pose proof (f_equal num_pending B) as Hp. destruct (wake_same _ _ (o_th x Hx)) as (_ & Hu & _). unfold w_pend. simpl in *. lia.
Qed.
Lemma inv_section mc y i x : inv y -> fault y = None -> sessions y !! i = Some x -> send x = SLoop -> closed (ss x) = false ->
  inv (let '(g, s, a) := sender_section mc i (gl y) (ss x) in
       put_ses i (x <| ss := s |> <| send := match a with SendWinupdate => SWinupdate | SendResponses tmp w dcore => SSending tmp w dcore end |>) (y <| gl := g |>)).
Proof.
  intros Hy Hf Hi Es Hc. destruct (Hy Hf) as [G O]. pose proof (O i x Hi) as Hx. pose proof (o_pend x Hx) as Hp. rewrite Hc in Hp.
  pose proof (section_send mc i (gl y) (ss x) (o_win x Hx) ltac:(lia)) as H. destruct (sender_section mc i (gl y) (ss x)) as [[g s] a]. destruct H as ((A & W & B) & Ha). simpl in A, W, B.
  apply (bw_inv_move y i x _ g 0); try done; [intros _; apply ok_section; try done; destruct a; naive_solver|].
  intros _. pose proof (f_equal num_pending B) as Hp'. simpl in Hp'. unfold w_pend. simpl. rewrite Hp', Es. destruct a; [rewrite Ha, size_empty|destruct Ha as [-> _]]; simpl; lia.
Qed.
Lemma body_awake s : sender_th s = false -> body s = body s <| sender_th := false |>.
Proof. destruct s. simpl. by intros ->. Qed.
Lemma ok_goes x p : ok x -> send x <> SDone -> parked (send x) = false -> p <> SDone -> parked p = false -> sending p = sending (send x) -> ok (x <| send := p |>).
Proof.
  intros Hx Hd Hp Hd' Hp' Es. pose proof (o_th x Hx) as Ht. rewrite Hp in Ht. destruct x as [s r q z]. simpl in *.
  apply (ok_send (Ses s r q z) s p); simpl; try done. by apply body_awake.
Qed.
Lemma inv_drain mc y i x core : inv y -> fault y = None -> sessions y !! i = Some x -> send x = SDrain -> 0 <= core < mc ->
  inv (match sender_drain i core (gl y) (ss x) with Some (g, s) => put_ses i (x <| ss := s |> <| send := SLoop |>) (y <| gl := g |>) | None => y <| fault := Some BugDrain |> end).
Proof.
  intros Hy Hf Hi Es Hc. destruct (sender_drain i core (gl y) (ss x)) as [[g s]|] eqn:E; [|done]. apply drain_acct in E as (A & B & W); [|lia].
  pose proof (f_equal sender_th B) as Ht. pose proof (f_equal num_pending B) as Hp. simpl in Ht, Hp. apply (bw_inv_move y i x _ g 0); try done; [|intros _; unfold w_pend; simpl; rewrite Es; simpl; lia].
  intros Hx. pose proof (o_th x Hx) as Ht'. rewrite Es in Ht'. simpl in Ht'. apply ok_send; try done; try (by rewrite Es); [congruence|]. rewrite B. by apply body_awake.
Qed.
Lemma inv_end y i x : inv y -> fault y = None -> sessions y !! i = Some x -> send x = SEnd -> sender_may_end (ss x) = true ->
  inv (let '(g, s) := srpc_remove_from_drained_list i (gl y) (ss x) in put_ses i (x <| ss := s <| avail := all_slots |> |> <| send := SDone |>) (y <| gl := g |>)).
Proof.
  intros Hy Hf Hi Es He. pose proof (acct_remove i (gl y) (ss x)) as A. pose proof (body_remove i (gl y) (ss x)) as B. pose proof (win_remove i (gl y) (ss x)) as W.
  destruct (srpc_remove_from_drained_list i (gl y) (ss x)) as [g s]. simpl in *. apply (bw_inv_move y i x _ g 0); try done.
  - intros. by apply ok_end.
  - intros _. apply (bw_acct_trans i (gl y) (ss x) g s g _ 0 0 A). by apply acct_local.
  - intros _. pose proof (f_equal num_pending B) as Hp. unfold w_pend. simpl in *. rewrite Es. simpl. lia.
Qed.
Lemma inv_leave y i x : inv y -> fault y = None -> sessions y !! i = Some x -> recv x = RLeave ->
  inv (put_ses i (x <| recv := RWait |>) (y <| gl := gl y <| num_sess := num_sess (gl y) - 1 |> |>)).
Proof.
  intros Hy Hf Hi Er. destruct (Hy Hf) as [[G1 G2 G3 G4 G5 G6] O]. apply (inv_put y i (x <| recv := RWait |>)); [done|done|apply ok_recv; [by apply (O i)|by rewrite Er|by rewrite Er]|].
  constructor; simpl; rewrite ?(tally_put _ _ _ _ _ Hi); unfold w_win, w_pend, w_live, w_linked in *; simpl in *; rewrite ?Er; try lia.
  - intros j z Hj. destruct (decide (j = i)) as [-> |Hne]; [rewrite lookup_insert_eq in Hj; simplify_eq; apply (G5 i x Hi)|]. rewrite lookup_insert_ne in Hj by done. by apply G5.
  - intros j k Hj. apply G6. apply lookup_insert_None in Hj. tauto.
Qed.
Lemma inv_counted y i x n w d : inv y -> fault y = None -> sessions y !! i = Some x -> send x = SSent n w d ->
  inv (put_ses i (x <| send := if (w =? 0) && (d =? -1) && bool_decide (avail (ss x) = all_slots) then SDrain else SLoop |>)
         (y <| gl := gl y <| srpc_num_pending := srpc_num_pending (gl y) - n |> |>)).
Proof.
  intros Hy Hf Hi Es. set (b := _ && _ && _). clearbody b. apply (bw_inv_move y i x _ _ (- n)); try done.
  - intros Hx. apply ok_goes; rewrite ?Es; by destruct b.
  - intros _. constructor; simpl; try lia; done.
  - intros _. unfold w_pend. simpl. rewrite Es. destruct b; simpl; lia.
Qed.
Lemma inv_clears y nw wo i : inv y -> fault y = None -> cc y = CPopped nw wo i ->
  inv (match sessions y !! i with Some x => put_ses i (x <| ss := ss x <| drained_core := -1 |> |>) (y <| cc := CCleared nw wo i |>) | None => y <| fault := Some UseAfterFree |> end).
Proof.
  intros Hy Hf Ec. destruct (sessions y !! i) as [x|] eqn:Hi; [|done]. destruct (Hy Hf) as [G O]. apply (inv_put y i (x <| ss := ss x <| drained_core := -1 |> |>)); [done|done|apply ok_listed; [by apply (O i)|done|done]|].
  apply (global_cc (put_ses i (x <| ss := ss x <| drained_core := -1 |> |>) y) (CCleared nw wo i)); [|simpl; by rewrite Ec|simpl; by rewrite Ec].
  rewrite <- put_gl. apply (global_put y i x _ (gl y) 0); try done; [|unfold w_pend; simpl; lia]. constructor; simpl; try lia; try done.
  unfold placed. simpl. destruct (is_linked (ss x)); [|done]. intros (k & Hk & Hc & H). exists k. split; [done|]. split; [by right|done].
Qed.

Section Steps.
Context (mc : Z) (debug : bool).
Lemma bw_step_inv y y' : step mc debug y y' -> inv y -> inv y'.
Proof.
  intros Hs Hy. destruct Hs as [y i Hf Hi|y i x h Hf Hi Er|y i x h Hf Hi Er|y i x Hf Hi Er|y i x idx h b Hf Hi Er|y i x idx h q Hf Hi Er|y i x h Hf Hi Er|y i x Hf Hi Er|y i x Hf Hi Er|y i x Hf Hi Er Es
    |y n Hf Hn|y n Hf Hn|y i x idx Hf Hi Hr|y i x Hf Hi Es He|y i x Hf Hi Es He|y i x Hf Hi Es He Hc|y i x b Hf Hi Es|y i x tmp w d Hf Hi Es|y i x n w d Hf Hi Es|y i x core Hf Hi Es Hc|y i x Hf Hi Es He|y i x Hf Hi Es He
    |y target Hf Ec|y nw wo core i l Hf Ec Hw Hl|y nw wo i Hf Ec|y nw wo i Hf Ec|y nw wo i Hf Ec|y nw wo i Hf Ec|y nw wo Hf Ec].
  - by apply inv_accepted.
  - unfold srpc_get_slot. destruct (first_slot (avail (ss x))) as [idx|] eqn:E; [|done]. apply (inv_keep y i x); try done; [intros; by apply ok_slot|]. unfold w_live. by rewrite Er.
  - apply (inv_keep y i x); try done; [intros; apply ok_recv; by rewrite ?Er|]. unfold w_live. by rewrite Er.
  - apply (inv_keep y i x); try done; [intros; apply ok_recv; by rewrite ?Er|]. unfold w_live. by rewrite Er.
  - destruct b; apply (inv_keep y i x); try done; [intros; apply ok_recv; by rewrite ?Er|unfold w_live; by rewrite Er|intros; by apply (ok_payload x idx h)|unfold w_live; by rewrite Er].
  - by apply inv_call.
  - by apply bw_inv_update.
  - by apply inv_close.
  - apply (inv_leave y i x); done.
  - destruct (is_linked (ss x)) eqn:El; [done|]. by apply inv_freed.
  - destruct (_ || _); [|done]. intros _. destruct (Hy Hf) as [[] O]. by split.
  - intros _. destruct (Hy Hf) as [[G1 G2 G3 G4 G5 G6] O]. split; [|done]. constructor; simpl; try done. lia.
  - apply (inv_keep y i x); try done; [intros; by apply ok_handled|]. intros Hx. unfold w_pend. simpl. by destruct (wake_same _ _ (o_th x Hx)) as (_ & -> & _).
  - apply (inv_keep y i x); try done; [intros; by apply ok_parks|]. intros _. unfold w_pend. by rewrite Es.
  - apply (inv_keep y i x); try done; [intros; apply ok_send; rewrite ?Es; done|]. intros _. unfold w_pend. by rewrite Es.
  - by apply inv_section.
  - apply (inv_keep y i x); try done; [|intros _; unfold w_pend; rewrite Es; by destruct b].
    intros Hx. apply ok_goes; rewrite ?Es; by destruct b.
  - apply (inv_keep y i x); try done; [intros; by apply ok_sent|]. intros _. unfold w_pend. by rewrite Es.
  - apply (inv_counted y i x n w d); done.
  - by apply (inv_drain mc).
  - apply (inv_keep y i x); try done; [intros; by apply ok_endparks|]. intros _. unfold w_pend. by rewrite Es.
  - by apply inv_end.
  - intros _. destruct (Hy Hf) as [G O]. split; [|done]. apply global_cc; by rewrite ?Ec.
  - destruct (sessions y !! i) as [x|] eqn:Hi; [|done]. destruct (Hy Hf) as [G O]. apply (inv_put y i (x <| ss := ss x <| is_linked := false |> |>)); [done|done|apply ok_listed; [by apply (O i)|done|done]|by apply global_pop].
  - apply inv_clears; done.
  - intros _. destruct (Hy Hf) as [[G1 G2 G3 G4 G5 G6] O]. rewrite Ec in *. split; [|done]. constructor; simpl in *; try done; lia.
  - destruct (sessions y !! i) as [x|] eqn:Hi; [|done]. destruct (0 <? win (ss x)) eqn:Ew; [done|]. apply Z.ltb_ge in Ew. destruct (Hy Hf) as [G O]. pose proof (O i x Hi) as Hx.
    apply (inv_put y i (x <| ss := ss x <| sender_th := false |> <| wake_up := true |> <| win := 1 |> |> <| send := wake_sender (ss x) (send x) |>)); [done|done|by apply ok_woken|].
    apply global_wake; try done; [pose proof (o_win x Hx); lia|]. by destruct (wake_same _ _ (o_th x Hx)) as (_ & -> & _).
  - intros _. destruct (Hy Hf) as [[G1 G2 G3 G4 G5 G6] O]. rewrite Ec in *. split; [|done]. constructor; simpl in *; try done; lia.
  - intros _. destruct (Hy Hf) as [[G1 G2 G3 G4 G5 G6] O]. rewrite Ec in *. split; [|done]. constructor; simpl in *; try done; lia.
Qed.
Lemma bw_init_inv : inv (srpc_init mc).
Proof. intros _. split; [|done]. constructor; simpl; rewrite ?tally_empty; done. Qed.
Lemma bw_inv y : reachable mc debug y -> inv y.
Proof. induction 1; [apply bw_init_inv|by apply (bw_step_inv y)]. Qed.
End Steps.

(** A sender that waits at the end waits for the receiver or for a worker. *)
Lemma waiting_worker x : ok x -> send x = SEndPark -> sender_may_end (ss x) = false -> closed (ss x) = false \/ running x <> ∅.
Proof.
  intros [O1 O2 O3 O4 O5 O6 O7 O8] Hs He. destruct (closed (ss x)) eqn:Hc; [|by left]. right. intros Hr. rewrite Hs, Hr in *. specialize (O1 ltac:(done)). unfold sender_may_end in He. rewrite Hc in He.
  assert (reading (recv x) = ∅) as Er by (destruct (recv x); done). rewrite Er in O1. apply bool_decide_eq_false in He. apply He.
  assert (forall j, has j (avail (ss x)) + has j (completed (ss x)) = has j all_slots) as H by (intros j; slot O1 j; simpl in *; rewrite ?has_empty in *; lia).
  rewrite <- size_all, <- size_union; [|intros j H1%has_in H2%has_in; specialize (H j); pose proof (has_range j all_slots); lia].
  apply subseteq_size. intros j Hj%has_in. specialize (H j). pose proof (has_range j (avail (ss x))). pose proof (has_range j (completed (ss x))). apply elem_of_union. destruct (decide (has j (avail (ss x)) = 1)); [left|right]; apply has_one; lia.
Qed.

(** ** Theorems *)

Lemma occ_nodup (l : list nat) : (forall i, (occ i l <= 1)%nat) -> NoDup l.
Proof.
  induction l as [|i l IH]; intros H; constructor.
  - intros Hi%occ_pos. specialize (H i). rewrite occ_cons, occ_self in H. lia.
  - apply IH. intros j. specialize (H j). rewrite occ_cons in H. lia.
Qed.
Lemma listed_once y i k : global y -> (occ i (drained (gl y) !!! k) <= 1)%nat.
Proof.
  intros G. destruct (sessions y !! i) as [x|] eqn:Hi; [|rewrite (g_absent y G i k Hi); lia]. pose proof (g_placed y G i x Hi) as H. unfold placed in H.
  destruct (is_linked (ss x)); [destruct H as (c & _ & _ & H)|]; rewrite H; [case_decide|]; lia.
Qed.
Lemma listed_linked y i k : global y -> i ∈ drained (gl y) !!! k -> exists x, sessions y !! i = Some x /\ is_linked (ss x) = true /\ forall k', i ∈ drained (gl y) !!! k' -> k' = k.
Proof.
  intros G Hk%occ_pos. destruct (sessions y !! i) as [x|] eqn:Hi; [|rewrite (g_absent y G i k Hi) in Hk; lia]. pose proof (g_placed y G i x Hi) as H. unfold placed in H. exists x. split; [done|].
  destruct (is_linked (ss x)); [|rewrite H in Hk; lia]. destruct H as (c & _ & _ & H). split; [done|]. intros k' Hk'%occ_pos. rewrite H in Hk, Hk'. repeat case_decide; subst; (done || lia).
Qed.
Lemma w_live_nonneg x : 0 <= w_live x.
Proof. unfold w_live. destruct (recv x); lia. Qed.
(** C17: As long as nothing has gone wrong, the counters of the server are sums over its
    sessions: the used window is what sessions hold, with what was lost with freed sessions
    and in resets, and less the one that the congestion control worker has yet to count;
    pending requests are those of the sessions and those whose responses are being sent;
    drained sessions are those in a list and the one the worker has yet to count.  A list
    of drained sessions has sessions that exist, each once and in no other list; and the
    number of sessions that windows are divided by is positive. *)
Theorem bw_accounting mc debug y : reachable mc debug y -> fault y = None ->
  win_used (gl y) = tally (fun x => win (ss x)) (sessions y) + lost y + skew y - cc_given (cc y)
  /\ srpc_num_pending (gl y) = tally (fun x => num_pending (ss x) + unsent (send x)) (sessions y)
  /\ num_sess (gl y) = tally w_live (sessions y)
  /\ num_drained (gl y) = tally (fun x => Z.b2z (is_linked (ss x))) (sessions y) + cc_popped (cc y)
  /\ (forall k, NoDup (drained (gl y) !!! k))
  /\ (forall i k, i ∈ drained (gl y) !!! k -> exists x, sessions y !! i = Some x /\ is_linked (ss x) = true /\ forall k', i ∈ drained (gl y) !!! k' -> k' = k)
  /\ forall i x, sessions y !! i = Some x -> closed (ss x) = false -> 0 < num_sess (gl y).
Proof.
  intros R Hf. destruct (bw_inv mc debug y R Hf) as [G O]. split; [apply G|]. split; [apply G|]. split; [apply G|]. split; [apply G|].
  split; [intros k; apply occ_nodup; intros i; by apply listed_once|]. split; [intros i k; by apply listed_linked|].
  intros i x Hi Hc. rewrite (g_sess y G). pose proof (tally_ge w_live _ i x w_live_nonneg Hi) as H. pose proof (o_closed x (O i x Hi)) as E. rewrite Hc in E. unfold w_live at 1 in H. destruct (recv x); (lia || done).
Qed.

(** One core; the first session has the whole window, the worker has just popped the second. *)
Definition idle (core w demand : Z) : ses := Ses (Session core false false false w w 0 demand false all_slots ∅ ∅ false false) RRead SLoop ∅.
Definition popped_demo : sys := Sys (Globals 1 1 0 2 1 {[0 := []]}) {[1%nat := idle (-1) 1 1; 2%nat := idle 0 0 0]} (CPopped 5 4 2) 0 0 0 0 None.
Lemma popped_run debug : reachable 1 debug popped_demo.
Proof. apply (run_sound 1 debug popped (srpc_init 1)); [apply RInit|]. destruct debug; vm_compute; reflexivity. Qed.
Lemma bw_accounting_witness :
  win_used (gl popped_demo) = 1 /\ win_used (gl popped_demo) = tally (fun x => win (ss x)) (sessions popped_demo) + lost popped_demo + skew popped_demo - cc_given (cc popped_demo).
Proof. split; [reflexivity|]. apply (bw_accounting 1 true popped_demo); [apply popped_run|reflexivity]. Defined.

(** C18: as long as nothing has gone wrong: until its sender ends, a slot of a session is
    free, being read into, with a worker, completed or being sent, and only one of these;
    while the session is open, requests counted as pending are those with workers and
    those completed, and once it is closed none is counted, even if workers still run; a
    window has at most 63 requests. A sender that sleeps can be woken and has nothing to
    do: no response, no window to announce; and one that waits at the end has a client
    that is still connected or a worker that will wake it. A sender ends when the session
    is closed and no worker is left. *)
Theorem bw_sessions mc debug y i x : reachable mc debug y -> fault y = None -> sessions y !! i = Some x ->
  (send x <> SDone -> forall j, has j (avail (ss x)) + has j (reading (recv x)) + has j (running x) + has j (completed (ss x)) + has j (sending (send x)) = has j all_slots)
  /\ num_pending (ss x) = (if closed (ss x) then 0 else Z.of_nat (size (running x)) + Z.of_nat (size (completed (ss x))))
  /\ 0 <= win (ss x) <= 63
  /\ (send x = SPark -> sender_th (ss x) = true /\ closed (ss x) = false /\ completed (ss x) = ∅ /\ need_winupdate (ss x) = false /\ wake_up (ss x) = false)
  /\ (send x = SEndPark -> sender_th (ss x) = true /\ (closed (ss x) = false \/ running x <> ∅))
  /\ (send x = SDone -> closed (ss x) = true /\ running x = ∅).
Proof.
  intros R Hf Hi. destruct (bw_inv mc debug y R Hf) as [G O]. pose proof (O i x Hi) as Hx. destruct (O i x Hi) as [O1 O2 O3 O4 O5 O6 O7 O8]. unfold SBW_MAX_WINDOW in O3. split; [done|]. split; [done|]. split; [lia|].
  split.
  { intros Hs. rewrite Hs in O5. specialize (O6 Hs). unfold sender_sleeps in O6. rewrite !andb_true_iff, !negb_true_iff, bool_decide_eq_true in O6. tauto. }
  split; [|done]. intros Hs. rewrite Hs in O5. split; [done|]. specialize (O7 Hs). apply (waiting_worker x Hx Hs O7).
Qed.
(** A session at work: slot 0 is with a worker, slot 1 is being sent, slot 2 is completed, and a
    request is being read into slot 3. *)
Definition busy : list label :=
  first_window ++ [LReadCall 1 (Chdr 1 false); LPayload 1 true; LCall 1 0; LReadCall 1 (Chdr 1 false); LPayload 1 true; LCall 1 0; LHandled 1 1; LSection 1;
    LReadCall 1 (Chdr 1 false); LPayload 1 true; LCall 1 0; LHandled 1 2; LReadCall 1 (Chdr 1 false)].
Definition session_view (x : ses) : list nat * list nat * list nat * list nat * bool :=
  (elements (running x), elements (sending (send x)), elements (completed (ss x)), elements (reading (recv x)), closed (ss x)).
Lemma bw_sessions_witness : exists y x, run 1 true busy (srpc_init 1) = Some y /\ sessions y !! 1%nat = Some x /\
  session_view x = ([0], [1], [2], [3], false)%nat /\ num_pending (ss x) = Z.of_nat (size (running x)) + Z.of_nat (size (completed (ss x))) /\ 0 <= win (ss x) <= 63.
Proof.
  assert (match run 1 true busy (srpc_init 1) with Some y => (fault y, session_view <$> sessions y !! 1%nat) | None => (Some AssertReset, None) end
    = (None, Some ([0], [1], [2], [3], false)%nat)) as H by (vm_compute; reflexivity).
  destruct (run 1 true busy (srpc_init 1)) as [y|] eqn:E; [|done]. injection H as Hf H. destruct (sessions y !! 1%nat) as [x|] eqn:Ex; [|done]. injection H as H1 H2 H3 H4 H5.
  exists y, x. split; [done|]. split; [done|]. split; [unfold session_view; congruence|].
  destruct (bw_sessions 1 true y 1 x (run_sound 1 true busy (srpc_init 1) y (RInit 1 true) E) Hf Ex) as (_ & K1 & K2 & _). rewrite H5 in K1. split; [exact K1|exact K2].
Defined.
