(* ===== verification/BwLink.v ===== *)
(** * breakwater: a client and its session

    Composes the client (BwClient) with one session of the server (Breakwater), over a
    connection that keeps messages in order; the other sessions, the congestion control
    worker and the clock do what they like.  A client that keeps within the windows it is
    offered always finds a slot at the server, so no request is thrown away for want of
    one, and the client's count of outstanding requests is never below zero. *)

From S2P Require Import Prelude StdDef Bags BwClient Breakwater BwExec BwRaces BwServer.

Record bw_link := Link { srv : sys; cli : client; up : list cmsg; down : list smsg }.
#[global] Instance eta_link : Settable bw_link := fun r => Link (srv r) (cli r) (up r) (down r).

Section Link.
Context (mc : Z) (debug : bool) (i : nat).

(** The session still reads requests. *)
Definition serving (p : rpc) : bool := match p with RRead | RPayload _ _ | RCall _ _ | RUpdate _ => true | _ => false end.
Definition alive (y : sys) : bool := match sessions y !! i with Some x => serving (recv x) | None => false end.
(** The steps that read from or write to the connection. *)
Definition quiet (a : label) : bool :=
  match a with LReadCall j _ | LReadUpdate j _ | LSent j | LWinupdateSent j _ => negb (bool_decide (j = i)) | _ => true end.
Definition response_of (x : ses) (m : smsg) : Prop := exists id ts drop data, m = SResponse id (win (ss x)) ts drop data.

Inductive lstep : bw_link -> bw_link -> Prop :=
| ClientActs l e c ms : (forall ok t t' m, e <> ERecv ok t t' m) -> BwClient.exec e (cli l) = Some (c, ms) -> lstep l (l <| cli := c |> <| up := up l ++ ms |>)
| ClientReceives l ok t t' m d c ms : down l = m :: d -> BwClient.exec (ERecv ok t t' m) (cli l) = Some (c, ms) -> lstep l (l <| cli := c |> <| up := up l ++ ms |> <| down := d |>)
| ServerActs l a y : alive (srv l) = true -> quiet a = true -> exec mc debug a (srv l) = Some y -> lstep l (l <| srv := y |>)
| ServerReadsCall l id dem ts ds data u y : alive (srv l) = true -> up l = MCall id dem ts ds data :: u -> exec mc debug (LReadCall i (Chdr dem ds)) (srv l) = Some y ->
    lstep l (l <| srv := y |> <| up := u |>)
| ServerReadsUpdate l dem ds u y : alive (srv l) = true -> up l = MWinupdate dem ds :: u -> exec mc debug (LReadUpdate i (Chdr dem ds)) (srv l) = Some y ->
    lstep l (l <| srv := y |> <| up := u |>)
(** Some of the responses may get lost when the write fails. *)
| ServerSends l x tmp w d y ms : alive (srv l) = true -> sessions (srv l) !! i = Some x -> send x = SSending tmp w d -> exec mc debug (LSent i) (srv l) = Some y ->
    (length ms <= size tmp)%nat -> Forall (response_of x) ms -> lstep l (l <| srv := y |> <| down := down l ++ ms |>)
| ServerSendsUpdate l x (ok : bool) y : alive (srv l) = true -> sessions (srv l) !! i = Some x -> exec mc debug (LWinupdateSent i ok) (srv l) = Some y ->
    lstep l (l <| srv := y |> <| down := down l ++ (if ok then [BwClient.SWinupdate (win (ss x))] else []) |>).

(** A client that has just connected to a server that is in any state. *)
Inductive linked : bw_link -> Prop :=
| LinkOpens y y' : reachable mc debug y -> exec mc debug (LAccept i) y = Some y' -> linked (Link y' opened [] [])
| LinkSteps l l' : linked l -> lstep l l' -> linked l'.

(** ** Slots *)

Lemma avail_remove j g s : avail (srpc_remove_from_drained_list j g s).2 = avail s.
Proof. unfold srpc_remove_from_drained_list. destruct (_ =? -1); [done|]. by destruct (is_linked s). Qed.
Lemma avail_adjust g s : avail (adjust_window g s).2 = avail s.
Proof. unfold adjust_window. by destruct (_ <? _). Qed.
Lemma avail_update d g s : avail (srpc_update_window mc d g s).2 = avail s.
Proof. unfold srpc_update_window. by destruct (negb _). Qed.
Lemma avail_call j idx h q g s : avail (recv_call j idx h q g s).1.2 = avail s.
Proof.
  unfold recv_call. set (s0 := s <| demand := h_demand h |> <| demand_sync := h_dsync h |>). pose proof (avail_remove j g s0) as E1. destruct (srpc_remove_from_drained_list j g s0) as [g1 s1].
  pose proof (avail_adjust g1 (s1 <| num_pending := num_pending s1 + 1 |>)) as E2. destruct (adjust_window g1 _) as [g2 s2]. simpl in *. by destruct (_ <=? q); simpl; rewrite E2.
Qed.
Lemma avail_winupdate j h g s : avail (recv_winupdate j h g s).2 = avail s.
Proof.
  unfold recv_winupdate. cbv zeta. set (s0 := s <| demand := h_demand h |> <| demand_sync := h_dsync h |>). pose proof (avail_remove j g s0) as E1.
  match goal with |- context [let '(_, _) := ?e in adjust_window _ _] => assert (avail e.2 = avail s) as E2; [destruct (_ && (demand s0 =? 0)); [done|by destruct (_ && _ && _)]|destruct e as [g1 s1]] end.
  rewrite avail_adjust. simpl in E2. by destruct (demand s1 =? 0).
Qed.
Lemma avail_close j g s : avail (server_close j g s).2 = avail s.
Proof.
  unfold server_close. cbv zeta. set (s0 := s <| sender_th := false |> <| closed := true |>). pose proof (avail_remove j g s0) as E1. destruct (is_linked s0); [|done]. by destruct (srpc_remove_from_drained_list j g s0) as [g1 s1].
Qed.
Lemma avail_section j g s : avail (sender_section mc j g s).1.2 = avail s.
Proof.
  unfold sender_section. cbv zeta. set (s0 := s <| sender_th := false |> <| completed := ∅ |>). pose proof (avail_remove j g s0) as E1.
  match goal with |- context [let '(_, _) := ?e in _] => assert (avail e.2 = avail s) as E2; [by destruct (wake_up s0)|destruct e as [g1 s1]] end. simpl in E2.
  match goal with |- context [srpc_update_window mc ?d g1 ?t] => pose proof (avail_update d g1 t) as E3; destruct (srpc_update_window mc d g1 t) as [g3 s3] end. cbn [fst snd] in *.
  match goal with |- context [if ?b then s3 <| advertised_win := _ |> else s3] => destruct b end; simpl in *; congruence.
Qed.

(** A quiet step leaves the slots of the session alone, while it goes on reading. *)
Definition slots_of (y : sys) : option (gset nat) := (fun x => avail (ss x)) <$> sessions y !! i.
Lemma slots_put y y' j x x' : sessions y !! j = Some x -> sessions y' = <[j := x']> (sessions y) -> (j = i -> avail (ss x') = avail (ss x)) -> slots_of y' = slots_of y.
Proof.
  intros Hj E Ha. unfold slots_of. rewrite E. destruct (decide (j = i)) as [-> |Hne]; [rewrite lookup_insert_eq, Hj; simpl; by rewrite Ha|by rewrite lookup_insert_ne].
Qed.
(** The session [j] that a step changes keeps its slots. *)
Ltac keeps_slots y j x := eapply (slots_put y _ j x); [done|reflexivity|done].
Lemma slots_same y y' : sessions y' = sessions y -> slots_of y' = slots_of y.
Proof. intros E. unfold slots_of. by rewrite E. Qed.
Lemma quiet_server a y y' : alive y = true -> quiet a = true -> exec_server mc debug a y = Some y' -> alive y' = false \/ slots_of y' = slots_of y.
Proof.
  intros Hl Hq H. destruct a as [j|j h|j h|j|j ok|j q|j|j|j|j| | |j idx|j|j|j|j ok|j|j|j core|j|j|t|core| | | | |]; cbn [exec_server quiet] in *; find_pc.
  - right. unfold slots_of, put_ses. simpl. destruct (decide (j = i)) as [-> |Hne]; [|by rewrite lookup_insert_ne]. unfold alive in Hl. by rewrite E in Hl.
  - apply negb_true_iff, bool_decide_eq_false in Hq. right. unfold srpc_get_slot. destruct (first_slot _); [|done]. keeps_slots y j s.
  - right. keeps_slots y j s.
  - right. keeps_slots y j s.
  - destruct ok; [right; keeps_slots y j s|]. destruct (decide (j = i)) as [-> |Hne]; [left; unfold alive, put_ses; simpl; by rewrite lookup_insert_eq|right; keeps_slots y j s].
  - right. pose proof (avail_call j idx h q (gl y) (ss s)) as Ea. destruct (recv_call j idx h q (gl y) (ss s)) as [[g s'] drop]. eapply (slots_put y _ j s); [done|reflexivity|]. intros _. by destruct drop.
  - right. pose proof (avail_winupdate j h (gl y) (ss s)) as Ea. destruct (recv_winupdate j h (gl y) (ss s)) as [g s']. keeps_slots y j s.
  - right. pose proof (avail_close j (gl y) (ss s)) as Ea. destruct (server_close j (gl y) (ss s)) as [g s']. keeps_slots y j s.
  - right. keeps_slots y j s.
  - unfold alive in *. right. unfold slots_of. simpl. destruct (decide (j = i)) as [-> |Hne]; [|by rewrite lookup_delete_ne]. rewrite E in Hl. by rewrite E0 in Hl.
  - right. apply slots_same. by destruct (_ || _).
  - right. by apply slots_same.
  - right. keeps_slots y j s.
Qed.
Lemma quiet_sender a y y' : alive y = true -> quiet a = true -> (forall j x, sessions y !! j = Some x -> ok x) -> exec_sender mc a y = Some y' -> slots_of y' = slots_of y.
Proof.
  intros Hl Hq Ho H. destruct a as [j|j h|j h|j|j ok|j q|j|j|j|j| | |j idx|j|j|j|j ok|j|j|j core|j|j|t|core| | | | |]; cbn [exec_sender quiet] in *; find_pc.
  - keeps_slots y j s.
  - keeps_slots y j s.
  - pose proof (avail_section j (gl y) (ss s)) as Ea. destruct (sender_section mc j (gl y) (ss s)) as [[g s'] a]. keeps_slots y j s.
  - keeps_slots y j s.
  - apply negb_true_iff, bool_decide_eq_false in Hq. keeps_slots y j s.
  - keeps_slots y j s.
  - destruct (sender_drain j core (gl y) (ss s)) as [[g s']|] eqn:Ed; [|by apply slots_same]. eapply (slots_put y _ j s); [done|reflexivity|]. intros _. unfold sender_drain in Ed. destruct (_ || (0 <? demand _)); [|by simplify_eq]. destruct (_ || _); [done|by simplify_eq].
  - keeps_slots y j s.
  - pose proof (avail_remove j (gl y) (ss s)) as Ea. destruct (srpc_remove_from_drained_list j (gl y) (ss s)) as [g s']. eapply (slots_put y _ j s); [done|reflexivity|]. intros ->. exfalso. unfold sender_may_end in *.
    pose proof (o_closed s (Ho i s E)) as Hc. unfold alive in Hl. rewrite E in Hl. destruct (closed (ss s)); [|done]. by destruct (recv s).
Qed.
Lemma quiet_cc a y y' : exec_cc mc a y = Some y' -> slots_of y' = slots_of y.
Proof.
  intros H. unfold exec_cc in H. destruct a; destruct (cc y) as [|nw wo|nw wo j|nw wo j|nw wo j|nw wo j] eqn:Ec; find_pc; try (by apply slots_same).
  - match goal with |- context [sessions y !! ?j] => destruct (sessions y !! j) as [x|] eqn:Hj end; [|by apply slots_same]. eapply (slots_put y _ _ x); [done|reflexivity|done].
  - destruct (sessions y !! j) as [x|] eqn:Hj; [|by apply slots_same]. keeps_slots y j x.
  - destruct (sessions y !! j) as [x|] eqn:Hj; [|by apply slots_same]. destruct (0 <? win (ss x)); [by apply slots_same|]. keeps_slots y j x.
Qed.
Lemma quiet_slots a y y' : alive y = true -> quiet a = true -> (forall j x, sessions y !! j = Some x -> ok x) -> exec mc debug a y = Some y' -> alive y' = false \/ slots_of y' = slots_of y.
Proof.
  intros Hl Hq Ho. unfold exec. destruct (fault y); [done|]. destruct (exec_server mc debug a y) as [z|] eqn:E1; [intros; simplify_eq; by apply (quiet_server a)|].
  destruct (exec_sender mc a y) as [z|] eqn:E2; [intros; simplify_eq; right; by apply (quiet_sender a)|]. intros. right. by apply (quiet_cc a).
Qed.

(** ** The budget *)

Definition calls (ms : list cmsg) : Z := Z.of_nat (length (call_ids ms)).
Fixpoint responses (ms : list smsg) : Z := match ms with [] => 0 | SResponse _ _ _ _ _ :: ms => 1 + responses ms | BwClient.SWinupdate _ :: ms => responses ms end.
Definition small (m : smsg) : Prop := match m with SResponse _ w _ _ _ => 0 <= w <= 63 | BwClient.SWinupdate w => 0 <= w <= 63 end.
Lemma calls_app l k : calls (l ++ k) = calls l + calls k.
Proof. unfold calls. rewrite call_ids_app, length_app. lia. Qed.
Lemma responses_app l k : responses (l ++ k) = responses l + responses k.
Proof. induction l as [|[] l IH]; simpl; lia. Qed.
Lemma responses_length l : 0 <= responses l <= Z.of_nat (length l).
Proof. induction l as [|[] l IH]; simpl; lia. Qed.
(** Requests under way, slots in use and responses under way are all outstanding. *)
Record budget (l : bw_link) : Prop := {
  b_reach : reachable mc debug (srv l); b_wf : wf (cs (cli l)); b_used : 0 <= BwClient.win_used (cs (cli l)) <= 63; b_avail : 0 <= BwClient.win_avail (cs (cli l)) <= 63;
  b_small : Forall small (down l);
  b_sum : fault (srv l) = None -> alive (srv l) = true -> forall v, slots_of (srv l) = Some v -> calls (up l) + (64 - Z.of_nat (size v)) + responses (down l) <= BwClient.win_used (cs (cli l)) }.
Lemma exec_no_fault a y y' : exec mc debug a y = Some y' -> fault y = None.
Proof. unfold exec. by destruct (fault y). Qed.
Lemma exec_reach a y y' : reachable mc debug y -> exec mc debug a y = Some y' -> reachable mc debug y'.
Proof. intros R E. apply (RStep mc debug y); [done|by apply (exec_sound mc debug a)]. Qed.
Lemma reach_ok y : reachable mc debug y -> fault y = None -> forall j x, sessions y !! j = Some x -> ok x.
Proof. intros R Hf. by apply (bw_inv mc debug y R Hf). Qed.
Lemma client_counts e c c' ms : wf (cs c) -> 0 <= BwClient.win_used (cs c) <= 63 -> 0 <= BwClient.win_avail (cs c) <= 63 -> offered 63 e -> BwClient.exec e c = Some (c', ms) ->
  wf (cs c') /\ 0 <= BwClient.win_used (cs c') <= 63 /\ 0 <= BwClient.win_avail (cs c') <= 63 /\ BwClient.win_used (cs c') = BwClient.win_used (cs c) + calls ms - returned e.
Proof.
  intros Hw Hu Ha Ho E. pose proof (exec_refines e c Hw) as H. rewrite E in H. destruct H as [Hw' Ea]. pose proof (counts_exec 63 e (abs (cs c)) (tm c) Hu Ha ltac:(lia) Ho) as H.
  change (abs (cs c), tm c) with (cabs c) in H. rewrite Ea in H. destruct H as [K1 K2 K3]. done.
Qed.
Lemma budget_opens y y' : reachable mc debug y -> exec mc debug (LAccept i) y = Some y' -> budget (Link y' opened [] []).
Proof.
  intros R E. constructor; simpl; try (unfold opened; simpl; lia); [by apply (exec_reach (LAccept i) y)|apply wf_open|constructor|]. intros _ _ v Hv. unfold exec in E. destruct (fault y); [done|]. cbn [exec_server] in E.
  destruct (sessions y !! i); [done|]. simplify_eq. unfold slots_of, put_ses in Hv. simpl in Hv. rewrite lookup_insert_eq in Hv. simpl in Hv. simplify_eq. rewrite size_all. done.
Qed.
Lemma budget_client l e c ms d : budget l -> offered 63 e -> BwClient.exec e (cli l) = Some (c, ms) -> responses (down l) = responses d + returned e -> Forall small d ->
  budget (l <| cli := c |> <| up := up l ++ ms |> <| down := d |>).
Proof.
  intros [B1 B2 B3 B4 B5 B6] Ho E Er Hd. destruct (client_counts e (cli l) c ms B2 B3 B4 Ho E) as (Hw & Hu & Ha & Es). constructor; simpl; try done.
  intros Hf Hl v Hv. specialize (B6 Hf Hl v Hv). rewrite calls_app. lia.
Qed.
Lemma budget_quiet l a y : budget l -> alive (srv l) = true -> quiet a = true -> exec mc debug a (srv l) = Some y -> budget (l <| srv := y |>).
Proof.
  intros [B1 B2 B3 B4 B5 B6] Hl Hq E. pose proof (exec_no_fault _ _ _ E) as Hf. constructor; simpl; try done; [by apply (exec_reach a (srv l))|].
  intros _ Hl' v Hv. destruct (quiet_slots a (srv l) y Hl Hq (reach_ok _ B1 Hf) E) as [Hn|Es]; [congruence|]. rewrite Es in Hv. by apply B6.
Qed.
Lemma exec_on a y y' (k : ses -> option sys) : exec mc debug a y = Some y' -> exec_cc mc a y = None ->
  (exec_server mc debug a y = on i y k /\ exec_sender mc a y = None) \/ (exec_server mc debug a y = None /\ exec_sender mc a y = on i y k) -> exists x, sessions y !! i = Some x /\ k x = Some y'.
Proof.
  intros E Ec H. unfold exec in E. destruct (fault y); [done|]. assert (on i y k = Some y') as Eo by (destruct H as [[E1 E2]|[E1 E2]]; rewrite E1, E2, Ec in E; [by destruct (on i y k)|by destruct (on i y k)]).
  unfold on in Eo. destruct (sessions y !! i) as [x|]; [|done]. by exists x.
Qed.
Lemma bw_slots_at y x : sessions y !! i = Some x -> slots_of y = Some (avail (ss x)).
Proof. intros E. unfold slots_of. by rewrite E. Qed.
Lemma budget_call l id dem ts ds data u y : budget l -> alive (srv l) = true -> up l = MCall id dem ts ds data :: u -> exec mc debug (LReadCall i (Chdr dem ds)) (srv l) = Some y ->
  budget (l <| srv := y |> <| up := u |>).
Proof.
  intros [B1 B2 B3 B4 B5 B6] Hl Eu E. pose proof (exec_no_fault _ _ _ E) as Hf. constructor; simpl; try done; [by apply (exec_reach (LReadCall i (Chdr dem ds)) (srv l))|]. intros _ Hl' v Hv.
  destruct (exec_on _ _ _ _ E eq_refl ltac:(left; split; reflexivity)) as (x & Hx & Ex). specialize (B6 Hf Hl _ (bw_slots_at _ x Hx)). rewrite Eu in B6. unfold calls in *. simpl in B6.
  destruct (recv x); try done. unfold srpc_get_slot in Ex. destruct (first_slot (avail (ss x))) as [idx|] eqn:Ei; simplify_eq.
  - unfold slots_of, put_ses in Hv. simpl in Hv. rewrite lookup_insert_eq in Hv. simpl in Hv. simplify_eq. apply first_slot_free in Ei. rewrite size_del by done. lia.
  - rewrite (bw_slots_at _ x Hx) in Hv. simplify_eq. lia.
Qed.
Lemma budget_update l dem ds u y : budget l -> alive (srv l) = true -> up l = MWinupdate dem ds :: u -> exec mc debug (LReadUpdate i (Chdr dem ds)) (srv l) = Some y -> budget (l <| srv := y |> <| up := u |>).
Proof.
  intros [B1 B2 B3 B4 B5 B6] Hl Eu E. pose proof (exec_no_fault _ _ _ E) as Hf. constructor; simpl; try done; [by apply (exec_reach (LReadUpdate i (Chdr dem ds)) (srv l))|]. intros _ Hl' v Hv.
  destruct (exec_on _ _ _ _ E eq_refl ltac:(left; split; reflexivity)) as (x & Hx & Ex). specialize (B6 Hf Hl _ (bw_slots_at _ x Hx)). rewrite Eu in B6. unfold calls in *. simpl in B6.
  destruct (recv x); try done. simplify_eq. unfold slots_of, put_ses in Hv. simpl in Hv. rewrite lookup_insert_eq in Hv. simpl in Hv. simplify_eq. lia.
Qed.
Lemma budget_sends l x tmp w d y ms : budget l -> alive (srv l) = true -> sessions (srv l) !! i = Some x -> send x = SSending tmp w d -> exec mc debug (LSent i) (srv l) = Some y ->
  (length ms <= size tmp)%nat -> Forall (response_of x) ms -> budget (l <| srv := y |> <| down := down l ++ ms |>).
Proof.
  intros [B1 B2 B3 B4 B5 B6] Hl Hx Es E Hn Hm. pose proof (exec_no_fault _ _ _ E) as Hf. pose proof (reach_ok _ B1 Hf i x Hx) as [O1 _ O3 _ _ _ _ _]. unfold SBW_MAX_WINDOW in O3.
  constructor; simpl; try done; [by apply (exec_reach (LSent i) (srv l))| |].
  - apply Forall_app. split; [done|]. eapply Forall_impl; [exact Hm|]. intros m (id & ts & drop & data & ->). simpl. lia.
  - intros _ Hl' v Hv. destruct (exec_on _ _ _ _ E eq_refl ltac:(right; split; reflexivity)) as (z & Hz & Ez). rewrite Hx in Hz. simplify_eq. rewrite Es in Ez. simplify_eq.
    unfold slots_of, put_ses in Hv. simpl in Hv. rewrite lookup_insert_eq in Hv. simpl in Hv. simplify_eq. specialize (B6 Hf Hl _ (bw_slots_at _ z Hx)). rewrite responses_app. pose proof (responses_length ms).
    rewrite size_union; [lia|]. intros j H1%has_in H2%has_in. specialize (O1 ltac:(by rewrite Es) j). rewrite Es in O1. simpl in O1. pose proof (has_range j all_slots). pose proof (has_range j (reading (recv z))).
    pose proof (has_range j (Breakwater.running z)). pose proof (has_range j (completed (ss z))). lia.
Qed.
Lemma budget_winupdate l x (ok : bool) y : budget l -> alive (srv l) = true -> sessions (srv l) !! i = Some x -> exec mc debug (LWinupdateSent i ok) (srv l) = Some y ->
  budget (l <| srv := y |> <| down := down l ++ (if ok then [BwClient.SWinupdate (win (ss x))] else []) |>).
Proof.
  intros [B1 B2 B3 B4 B5 B6] Hl Hx E. pose proof (exec_no_fault _ _ _ E) as Hf. pose proof (reach_ok _ B1 Hf i x Hx) as [_ _ O3 _ _ _ _ _]. unfold SBW_MAX_WINDOW in O3.
  constructor; simpl; try done; [by apply (exec_reach (LWinupdateSent i ok) (srv l))| |].
  - apply Forall_app. split; [done|]. destruct ok; repeat constructor; simpl; lia.
  - intros _ Hl' v Hv. destruct (exec_on _ _ _ _ E eq_refl ltac:(right; split; reflexivity)) as (z & Hz & Ez). rewrite Hx in Hz. simplify_eq. destruct (send z); try done. simplify_eq.
    unfold slots_of, put_ses in Hv. simpl in Hv. rewrite lookup_insert_eq in Hv. simpl in Hv. simplify_eq. specialize (B6 Hf Hl _ (bw_slots_at _ z Hx)). rewrite responses_app. destruct ok; simpl; lia.
Qed.
Lemma linked_budget l : linked l -> budget l.
Proof.
  induction 1 as [y y' R E|l l' _ B S]; [by apply (budget_opens y)|]. destruct S as [l e c ms He E|l ok t t' m d c ms Ed E| | | | |]; try (by eauto using budget_quiet, budget_call, budget_update, budget_sends, budget_winupdate).
  - replace (l <| cli := c |> <| up := up l ++ ms |>) with (l <| cli := c |> <| up := up l ++ ms |> <| down := down l |>) by (by destruct l).
    apply (budget_client l e); try done; [by destruct e; try done; exfalso; by eapply He| |by destruct B]. destruct e; simpl; try lia. exfalso. by eapply He.
  - pose proof (b_small l B) as Hs. rewrite Ed in Hs. apply Forall_cons in Hs as [Hm Hs]. apply (budget_client l (ERecv ok t t' m) c ms d B); [by destruct m|done|rewrite Ed; destruct m; simpl; lia|done].
Qed.
End Link.

(** A slot that is free is found. *)
Lemma first_slot_total v j : j ∈ v -> j ∈ all_slots -> exists k, first_slot v = Some k.
Proof.
  intros Hv Hj. unfold first_slot. destruct (list_find (fun k => k ∈ v) (seq 0 64)) as [[k z]|] eqn:E; [by exists k|]. apply list_find_None in E. rewrite Forall_forall in E.
  exfalso. apply (E j); [|done]. unfold all_slots in Hj. by apply elem_of_list_to_set in Hj.
Qed.

(** C19: a client and its session, whatever the other sessions, the congestion control
    worker and the network do, as long as nothing has gone wrong at the server and it
    reads from the session: at most 63 requests are outstanding, and those under way,
    those in a slot and those whose response is under way are among them. So when the
    server reads the header of a request, it finds a free slot; and a response that the
    client reads finds a request outstanding. *)
Theorem bw_slots_suffice mc debug i l x : linked mc debug i l -> fault (srv l) = None -> sessions (srv l) !! i = Some x -> serving (recv x) = true ->
  calls (up l) + (64 - Z.of_nat (size (avail (ss x)))) + responses (down l) <= BwClient.win_used (cs (cli l)) <= 63
  /\ (forall id dem ts ds data u, up l = MCall id dem ts ds data :: u -> exists k, (srpc_get_slot (ss x)).2 = Some k /\ k ∈ avail (ss x))
  /\ (forall id w ts drop data d ok t t', down l = SResponse id w ts drop data :: d -> cbw_recv_one ok t t' (SResponse id w ts drop data) (cs (cli l)) <> None).
Proof.
  intros L Hf Hx Hs. pose proof (linked_budget mc debug i l L) as [B1 B2 B3 B4 B5 B6]. assert (alive i (srv l) = true) as Hl by (unfold alive; by rewrite Hx). specialize (B6 Hf Hl _ (bw_slots_at i _ x Hx)).
  assert (0 <= calls (up l)) as Hc by (unfold calls; lia). pose proof (responses_length (down l)) as Hr. pose proof (reach_ok mc debug _ B1 Hf i x Hx) as Hok.
  assert (send x <> SDone) as Hd by (intros Hd; destruct (o_done x Hok Hd) as [Hcl _]; rewrite (o_closed x Hok) in Hcl; by destruct (recv x)).
  assert (avail (ss x) ⊆ all_slots) as Hsub. { intros j Hj%has_in. apply has_one. pose proof (o_slots x Hok Hd j) as E. pose proof (has_range j all_slots). pose proof (has_range j (reading (recv x))). pose proof (has_range j (Breakwater.running x)). pose proof (has_range j (completed (ss x))). pose proof (has_range j (sending (send x))). lia. }
  assert (Z.of_nat (size (avail (ss x))) <= 64) as H64 by (apply subseteq_size in Hsub; rewrite size_all in Hsub; lia). split; [lia|]. split.
  - intros id dem ts ds data u Eu. rewrite Eu in B6. unfold calls in B6. simpl in B6. destruct (set_choose_L (avail (ss x))) as [j Hj]; [intros E0%(f_equal size); rewrite size_empty in E0; lia|].
    destruct (first_slot_total (avail (ss x)) j Hj (Hsub j Hj)) as [k Ek]. exists k. unfold srpc_get_slot. rewrite Ek. split; [done|by apply first_slot_free].
  - intros id w ts drop data d ok t t' Ed. rewrite Ed in B6. simpl in B6. pose proof (responses_length d). assert (BwClient.win_used (cs (cli l)) =? 0 = false) as E0 by (apply Z.eqb_neq; lia). unfold cbw_recv_one.
    replace (BwClient.win_used (if bool_decide (data = []) then _ else _)) with (BwClient.win_used (cs (cli l))) by (by case_bool_decide). by rewrite E0.
Qed.

(** The client has sent the first of its two requests, and the server is about to read it. *)
Definition demo_link : bw_link :=
  Link (Sys (Globals 1 1 0 1 0 ∅) {[1%nat := idle (-1) 1 1]} CSleep 0 0 0 0 None) demo_client [MCall 1 1 3 false [7]] [].
(** The next step of the client, or of the server. *)
Ltac client L e := eapply LinkSteps in L; [|eapply (ClientActs _ _ _ _ e); [done|vm_compute; reflexivity]]; simpl in L.
Ltac server L a := eapply LinkSteps in L; [|eapply (ServerActs _ _ _ _ a); [reflexivity|reflexivity|vm_compute; reflexivity]]; simpl in L.
Lemma demo_linked : linked 1 true 1 demo_link.
Proof.
  assert (linked 1 true 1 (Link (put_ses 1 (Ses new_session RRead SLoop ∅) (srpc_init 1 <| gl := gl (srpc_init 1) <| num_sess := 1 |> |>)) opened [] [])) as L
    by (apply (LinkOpens _ _ _ (srpc_init 1)); [apply RInit|reflexivity]).
  client L (ETimer true 0). client L (ESend None true 1 1 1 [7]). client L (ESend None true 2 2 2 [8]).
  eapply LinkSteps in L; [|eapply ServerReadsUpdate; [reflexivity|reflexivity|vm_compute; reflexivity]]. simpl in L.
  server L (LUpdate 1). server L (LSection 1).
  eapply LinkSteps in L; [|eapply (ServerSendsUpdate _ _ _ _ _ true); [reflexivity|reflexivity|vm_compute; reflexivity]]. simpl in L.
  eapply LinkSteps in L; [|eapply (ClientReceives _ _ _ _ true 3 3); [reflexivity|vm_compute; reflexivity]]. simpl in L.
  vm_cast_no_check L.
Qed.
Lemma bw_slots_suffice_witness : up demo_link = [MCall 1 1 3 false [7]] /\ exists k, (srpc_get_slot (ss (idle (-1) 1 1))).2 = Some k /\ k ∈ avail (ss (idle (-1) 1 1)).
Proof.
  split; [reflexivity|]. apply (bw_slots_suffice 1 true 1 demo_link (idle (-1) 1 1) demo_linked) with (id := 1) (dem := 1) (ts := 3) (ds := false) (data := [7]) (u := []); reflexivity.
Defined.
