(* ===== verification/IoData.v ===== *)
(** * The data path of the I/O kernel

    Models [iokernel/rx.c], [iokernel/tx.c], [iokernel/commands.c] and
    [iokernel/mempool_completion.c]: packets that the runtimes send are taken from their
    channels and put on the ring of the network card with a buffer each; when the card is
    done with a buffer, the runtime gets a completion, over its receive channel or, when
    that is full, from an overflow queue later; packets that arrive go to the runtime that
    has their address.  The channels are bounded queues (Lrpc).  The card, which takes some
    of the buffers it is given and frees some of those it has, and the scheduler, which
    starts a kthread of a process that has none, are parameters. *)

From S2P Require Import Prelude StdDef IoSched.

Definition IOKERNEL_TX_BURST_SIZE : nat := 64.
Definition IOKERNEL_CMD_BURST_SIZE : nat := 64.
Definition IOKERNEL_OVERFLOW_BATCH_DRAIN : nat := 64.

(** ** Data *)

Inductive txflag := TX_IP_CKSUM | TX_TCP_CKSUM | TX_IPV4 | TX_IPV6.
Inductive csum := CHECKSUM_TYPE_NEEDED | CHECKSUM_TYPE_UNNECESSARY | CHECKSUM_TYPE_COMPLETE.
(** A received packet, the fields that are read, and the header put before it for the
    runtime, with the buffer as [completion_data]. *)
Record rx_mbuf := RxMbuf { buf_id : nat; pkt_len : Z; hash_rss : Z; cksum_good : bool; ether_type : Z; ip_dst : Z; arp_tip : Z }.
Record rx_net_hdr := RxNetHdr { rx_completion_data : nat; rx_len : Z; rss_hash : Z; csum_type : csum }.
(** What goes to a runtime. *)
Inductive rxmsg := RX_NET_RECV (hdr : rx_net_hdr) | RX_NET_COMPLETE (data : Z).
(** A message on a packet channel: its command and pointer, and the header that the shared
    memory has there. *)
Record tx_net_hdr := TxNetHdr { completion_data : Z; len : Z; olflags : Z }.
Record txmsg := TxMsg { cmd : Z; payload : Z; hdr : tx_net_hdr }.
Record shm_region := ShmRegion { base : Z; rlen : Z }.
(** A transmit buffer, the fields that are set for a packet; the lengths of the protocol
    headers, [None] when they are left as they were. *)
Record tx_mbuf := TxMbuf { buf_addr : Z; buf_iova : Z; data_len : Z; ol_flags : list txflag; hdr_lens : option (Z * Z * Z) }.
(** The part of [struct proc] that the data path uses; [overflow_queue] has
    [nr_overflows] entries.  Of the references, [held] are those of the table of clients
    and of the cores. *)
Record proc := Proc {
  ref : Z; held : Z; kill : bool; region : shm_region; page_paddrs : list Z; ip_addr : Z; thread_active : list bool; flow_tbl : list nat; idle_threads : list nat; next_thread_rr : Z;
  max_overflows : nat; overflow_queue : list Z }.
#[global] Instance eta_proc : Settable proc := fun r =>
  Proc (ref r) (held r) (kill r) (region r) (page_paddrs r) (ip_addr r) (thread_active r) (flow_tbl r) (idle_threads r) (next_thread_rr r) (max_overflows r) (overflow_queue r).
Definition thread_count (p : proc) : nat := length (thread_active p).
Definition sched_threads_active (p : proc) : nat := length (filter (fun b => b = true) (thread_active p)).

(** What was taken from runtimes and sent to them, and the completions that were dropped
    with their process or given up; a packet is its process and its tag. *)
Record ledger := Ledger { taken : list (nat * Z); sent_up : list (tref * rxmsg); dropped : list (nat * Z); given_up : list (nat * Z) }.
#[global] Instance eta_ledger : Settable ledger := fun r => Ledger (taken r) (sent_up r) (dropped r) (given_up r).
(** The data path: the processes that are not released, the polled kthreads, the channels,
    the processes with completions to come, the free transmit buffers (a stack, the last
    one on top), what is noted in each buffer ([tx_pktmbuf_priv]) and its other fields, the
    static variables of [tx_burst], the buffers the card has; the kthreads that the scheduler
    looks at next; received buffers that were freed. *)
Record dpath := Dpath {
  procs : gmap nat proc; ip_to_proc : gmap Z nat; ts : list tref; rxq : gmap tref (list rxmsg); txpktq : gmap tref (list txmsg); txcmdq : gmap tref (list nat);
  overflow_procs : list nat; stack : list nat; priv : gmap nat (tref * Z); mbufs : gmap nat tx_mbuf; bufs : list nat; n_pkts : nat; pos : Z; cmd_pos : Z; nic : list nat;
  poll_next : gset tref; rx_freed : list nat; log : ledger }.
#[global] Instance eta_dpath : Settable dpath := fun r =>
  Dpath (procs r) (ip_to_proc r) (ts r) (rxq r) (txpktq r) (txcmdq r) (overflow_procs r) (stack r) (priv r) (mbufs r) (bufs r) (n_pkts r) (pos r) (cmd_pos r) (nic r) (poll_next r) (rx_freed r) (log r).
Definition put_proc (p : nat) (pr : proc) (d : dpath) : dpath := d <| procs := <[p := pr]> (procs d) |>.

(** [ref_get] and [ref_put]; the process goes away at zero.  [None] is the use of a process
    that has gone. *)
Definition proc_get (p : nat) (d : dpath) : option dpath := pr ← procs d !! p; Some (put_proc p (pr <| ref := ref pr + 1 |>) d).
Definition proc_put (p : nat) (d : dpath) : option dpath :=
  pr ← procs d !! p;
  Some (if ref pr - 1 =? 0 then d <| procs := delete p (procs d) |> else put_proc p (pr <| ref := ref pr - 1 |>) d).
(** The index [ts_idx] of a kthread is its position in [ts]. *)
Definition unpoll_thread (t : tref) (d : dpath) : option dpath :=
  match list_find (fun u => u = t) (ts d) with
  | Some (k, _) => proc_put t.1 (d <| ts := swap_remove k (ts d) |>)
  | None => Some d
  end.

Definition note (f : ledger -> ledger) (d : dpath) : dpath := d <| log := f (log d) |>.

Section Code.
(** The size of a receive channel; [sched_add_core] and [sched_detach_proc]; the number of
    transmit buffers. *)
Context (rxq_size : nat) (add_core detach : nat -> dpath -> dpath) (pool_size : nat).

(** ** Sending to a runtime *)

(** [lrpc_send] on the receive channel of a kthread, as the bounded queue that Lrpc proves
    it to be. *)
Definition rxq_send (t : tref) (m : rxmsg) (d : dpath) : bool * dpath :=
  let q := rxq d !!! t in if (length q <? rxq_size)%nat then (true, note (fun l => l <| sent_up := sent_up l ++ [(t, m)] |>) (d <| rxq := <[t := q ++ [m]]> (rxq d) |>)) else (false, d).
Definition rx_send_to_runtime (p : nat) (hash : Z) (m : rxmsg) (d : dpath) : option (bool * dpath) :=
  pr ← procs d !! p;
  let d := if (0 <? sched_threads_active pr)%nat then d else add_core p d in
  pr ← procs d !! p;
  i ← (if (0 <? sched_threads_active pr)%nat then flow_tbl pr !! Z.to_nat (u32 hash mod Z.of_nat (thread_count pr)) else head (idle_threads pr));
  Some (rxq_send (p, i) m (d <| poll_next := poll_next d ∪ {[(p, i)]} |>)).

Definition SIZEOF_RX_NET_HDR : Z := 24.
(** [rx_prepend_rx_preamble]: the header is part of the packet when its length is taken. *)
Definition rx_prepend_rx_preamble (b : rx_mbuf) : rx_net_hdr :=
  let total := u32 (pkt_len b + SIZEOF_RX_NET_HDR) in
  RxNetHdr (buf_id b) (u32 (total - SIZEOF_RX_NET_HDR)) (hash_rss b) (if cksum_good b then CHECKSUM_TYPE_UNNECESSARY else CHECKSUM_TYPE_NEEDED).
Definition ETHTYPE_IP : Z := 0x0800.
Definition ETHTYPE_ARP : Z := 0x0806.
Definition rx_dst (b : rx_mbuf) : option Z :=
  if ether_type b =? ETHTYPE_IP then Some (ip_dst b) else if ether_type b =? ETHTYPE_ARP then Some (arp_tip b) else None.
Definition rx_free (b : rx_mbuf) (d : dpath) : dpath := d <| rx_freed := rx_freed d ++ [buf_id b] |>.
Definition rx_one_pkt (b : rx_mbuf) (d : dpath) : option dpath :=
  match rx_dst b with
  | None => Some (rx_free b d)
  | Some dst_ip =>
      match ip_to_proc d !! dst_ip with
      | None => Some (rx_free b d)
      | Some p => let net_hdr := rx_prepend_rx_preamble b in '(ok, d) ← rx_send_to_runtime p (rss_hash net_hdr) (RX_NET_RECV net_hdr) d; Some (if ok : bool then d else rx_free b d)
      end
  end.
Fixpoint rx_burst (l : list rx_mbuf) (d : dpath) : option dpath := match l with [] => Some d | b :: l => d ← rx_one_pkt b d; rx_burst l d end.

(** ** Completions *)

Definition tx_send_completion (buf : nat) (d : dpath) : option (bool * dpath) :=
  match priv d !! buf with
  | None => Some (true, d)
  | Some ((p, i), data) =>
      pr ← procs d !! p;
      if kill pr then d ← proc_put p d; Some (true, note (fun l => l <| dropped := dropped l ++ [(p, data)] |>) d)
      else
        act ← thread_active pr !! i;
        '(ok, d) ← (if act : bool then Some (rxq_send (p, i) (RX_NET_COMPLETE data) d)
                    else rx_send_to_runtime p (next_thread_rr pr) (RX_NET_COMPLETE data) (put_proc p (pr <| next_thread_rr := u32 (next_thread_rr pr + 1) |>) d));
        if ok : bool then d ← proc_put p d; Some (true, d)
        else
          pr ← procs d !! p;
          if bool_decide (length (overflow_queue pr) = max_overflows pr) then Some (false, note (fun l => l <| given_up := given_up l ++ [(p, data)] |>) d)
          else
            let d := if bool_decide (overflow_queue pr = []) then d <| overflow_procs := p :: overflow_procs d |> else d in
            d ← proc_put p (put_proc p (pr <| overflow_queue := overflow_queue pr ++ [data] |>) d); Some (true, d)
  end.
Fixpoint send_completions (objs : list nat) (d : dpath) : option dpath :=
  match objs with [] => Some d | b :: objs => '(_, d) ← tx_send_completion b d; send_completions objs d end.
(** [completion_enqueue] and [completion_dequeue]. *)
Definition completion_enqueue (objs : list nat) (d : dpath) : option (bool * dpath) :=
  if (pool_size <? length (stack d) + length objs)%nat then Some (false, d)
  else d ← send_completions objs d; Some (true, d <| stack := stack d ++ objs |>).
Definition completion_dequeue (n : nat) (d : dpath) : option (list nat) * dpath :=
  if (length (stack d) <? n)%nat then (None, d)
  else (Some (drop (length (stack d) - n) (stack d)), d <| stack := take (length (stack d) - n) (stack d) |>).

(** [drain_overflow_queue]: the newest completions first. *)
Fixpoint drain_overflow_queue (p : nat) (n : nat) (d : dpath) : option (nat * dpath) :=
  match n with
  | O => Some (0%nat, d)
  | S n =>
      pr ← procs d !! p;
      match last (overflow_queue pr) with
      | None => Some (0%nat, d)
      | Some data =>
          let q := overflow_queue pr in
          '(ok, d) ← rx_send_to_runtime p (next_thread_rr pr) (RX_NET_COMPLETE data)
                       (put_proc p (pr <| next_thread_rr := u32 (next_thread_rr pr + 1) |> <| overflow_queue := take (length q - 1) q |>) d);
          if ok : bool then '(k, d) ← drain_overflow_queue p n d; Some (S k, d)
          else pr ← procs d !! p; Some (0%nat, put_proc p (pr <| overflow_queue := overflow_queue pr ++ [data] |>) d)
      end
  end.
(** The loop of [tx_drain_completions], over the processes that were listed. *)
Fixpoint drain_procs (l : list nat) (drained : nat) (don : list nat) (d : dpath) : option (nat * list nat * list nat * dpath) :=
  match l with
  | [] => Some (drained, [], don, d)
  | p :: l =>
      '(k, d) ← drain_overflow_queue p (IOKERNEL_OVERFLOW_BATCH_DRAIN - drained) d;
      pr ← procs d !! p;
      let don := if bool_decide (overflow_queue pr = []) then don else don ++ [p] in
      if (IOKERNEL_OVERFLOW_BATCH_DRAIN <=? drained + k)%nat then Some ((drained + k)%nat, l, don, d) else drain_procs l (drained + k) don d
  end.
Definition tx_drain_completions (d : dpath) : option (bool * dpath) :=
  '(drained, l, don, d) ← drain_procs (overflow_procs d) 0 [] d;
  Some ((0 <? drained)%nat, d <| overflow_procs := l ++ don |>).

(** ** Sending packets *)

Definition TXPKT_NET_XMIT : Z := 0.
Definition SIZEOF_TX_NET_HDR : Z := 18.
(** [shmptr_to_ptr] of an object of [n] bytes. *)
Definition shmptr_to_ptr (r : shm_region) (shmptr n : Z) : option Z :=
  if (u64 (-1) - shmptr <? rlen r) || (rlen r <? u64 (shmptr + n)) then None else Some (u64 (shmptr + base r)).
(** [tx_drain_queue]: at most [n] headers, with their addresses; another command or a
    pointer out of the region stops the program. *)
Fixpoint tx_drain_queue (t : tref) (n : nat) (d : dpath) : option (list (Z * tx_net_hdr) * dpath) :=
  match n with
  | O => Some ([], d)
  | S n =>
      match txpktq d !!! t with
      | [] => pr ← procs d !! t.1; act ← thread_active pr !! t.2; d ← (if act : bool then Some d else unpoll_thread t d); Some ([], d)
      | m :: q =>
          pr ← procs d !! t.1;
          guard (cmd m = TXPKT_NET_XMIT);; a ← shmptr_to_ptr (region pr) (payload m) SIZEOF_TX_NET_HDR;
          '(l, d) ← tx_drain_queue t n (d <| txpktq := <[t := q]> (txpktq d) |>); Some ((a, hdr m) :: l, d)
      end
  end.
(** The loop over the polled kthreads, from number [i] on: the headers and kthreads that
    were added, and whether the burst is full. *)
Fixpoint poll_threads (fuel i : nat) (n : nat) (d : dpath) : option (list (tref * (Z * tx_net_hdr)) * bool * dpath) :=
  match fuel with
  | O => None
  | S fuel =>
      if negb (i <? length (ts d))%nat then Some ([], false, d)
      else
        t ← ts d !! Z.to_nat (u32 (pos d + Z.of_nat i) mod Z.of_nat (length (ts d)));
        '(l, d) ← tx_drain_queue t (IOKERNEL_TX_BURST_SIZE - n) d;
        let l := (t,.) <$> l in
        let n := (n + length l)%nat in
        if (IOKERNEL_TX_BURST_SIZE <=? n)%nat then Some (l, true, d) else '(r, full, d) ← poll_threads fuel (S i) n d; Some (l ++ r, full, d)
  end.
Definition PGSHIFT_2MB : Z := 21.
Definition PGN_2MB (a : Z) : Z := Z.shiftr a PGSHIFT_2MB.
Definition PGOFF_2MB (a : Z) : Z := Z.land a (Z.ones PGSHIFT_2MB).
Definition olflag (f : txflag) : Z := match f with TX_IP_CKSUM => 1 | TX_TCP_CKSUM => 2 | TX_IPV4 => 4 | TX_IPV6 => 8 end.
(** The fields of the buffer for a header at [a]; [None] is a page that is not in the
    table of the process. *)
Definition tx_fill (pr : proc) (a : Z) (h : tx_net_hdr) : option tx_mbuf :=
  let addr := a + SIZEOF_TX_NET_HDR in
  pa ← page_paddrs pr !! Z.to_nat (PGN_2MB (u64 (addr - base (region pr))));
  Some (TxMbuf addr (pa + PGOFF_2MB addr) (len h) (filter (fun f => Z.land (olflags h) (olflag f) <> 0) [TX_IP_CKSUM; TX_TCP_CKSUM; TX_IPV4; TX_IPV6]) (if olflags h =? 0 then None else Some (14, 20, 20))).
Definition tx_prepare_tx_mbuf (buf : nat) (h : tref * (Z * tx_net_hdr)) (d : dpath) : option dpath :=
  let '(t, (a, h)) := h in
  pr ← procs d !! t.1;
  mb ← tx_fill pr a h;
  d ← proc_get t.1 (d <| mbufs := <[buf := mb]> (mbufs d) |> <| priv := <[buf := (t, completion_data h)]> (priv d) |>);
  Some (note (fun l => l <| taken := taken l ++ [(t.1, completion_data h)] |>) d).
(** The headers of packets that an earlier call took are lost with its stack. *)
Fixpoint prepare_all (bs : list nat) (hs : list (option (tref * (Z * tx_net_hdr)))) (d : dpath) : option dpath :=
  match bs, hs with
  | b :: bs, Some h :: hs => d ← tx_prepare_tx_mbuf b h d; prepare_all bs hs d
  | [], _ => Some d
  | _, _ => None
  end.
(** [rte_eth_tx_burst]: the card frees its oldest [reclaim] buffers and takes the first
    [accept] of those it is given. *)
Definition eth_tx_burst (reclaim accept : nat) (bs : list nat) (d : dpath) : option (nat * dpath) :=
  '(_, d) ← completion_enqueue (take reclaim (nic d)) (d <| nic := drop reclaim (nic d) |>);
  let n := Nat.min accept (length bs) in Some (n, d <| nic := nic d ++ take n bs |>).
Definition tx_burst (reclaim accept : nat) (d : dpath) : option (bool * dpath) :=
  '(l, full, d) ← poll_threads (S (length (ts d))) 0 (n_pkts d) d;
  let hdrs := replicate (n_pkts d - length (bufs d)) None ++ (Some <$> l) in
  let n := (n_pkts d + length l)%nat in
  let d := d <| n_pkts := n |> in
  if negb full && (n =? 0)%nat then Some (false, d)
  else
    let d := if full : bool then d else d <| pos := u32 (pos d + 1) |> in
    let '(got, d) := if (0 <? n - length (bufs d))%nat then completion_dequeue (n - length (bufs d)) d else (Some [], d) in
    match got with
    | None => Some (true, d)
    | Some new =>
        d ← prepare_all new hdrs d;
        let bs := bufs d ++ new in
        '(k, d) ← eth_tx_burst reclaim accept bs d;
        Some (true, d <| bufs := drop k bs |> <| n_pkts := (n - k)%nat |>)
    end.

(** ** Commands of runtimes *)

Fixpoint commands_drain_queue (t : tref) (n : nat) (d : dpath) : list nat * dpath :=
  match n with
  | O => ([], d)
  | S n =>
      match txcmdq d !!! t with
      | [] => ([], d)
      | b :: q => let '(l, d) := commands_drain_queue t n (d <| txcmdq := <[t := q]> (txcmdq d) |>) in (b :: l, d)
      end
  end.
Fixpoint commands_poll (l : list nat) (n : nat) (d : dpath) : option (list nat * dpath) :=
  match l with
  | [] => Some ([], d)
  | i :: l =>
      if (IOKERNEL_CMD_BURST_SIZE <=? n)%nat then Some ([], d)
      else
        t ← ts d !! Z.to_nat (u32 (cmd_pos d + Z.of_nat i) mod Z.of_nat (length (ts d)));
        let '(bs, d) := commands_drain_queue t (IOKERNEL_CMD_BURST_SIZE - n) d in
        '(r, d) ← commands_poll l (n + length bs) d; Some (bs ++ r, d)
  end.
Definition commands_rx (d : dpath) : option (bool * dpath) :=
  '(bs, d) ← commands_poll (seq 0 (length (ts d))) 0 d;
  Some (negb (bool_decide (bs = [])), d <| cmd_pos := u32 (cmd_pos d + 1) |> <| rx_freed := rx_freed d ++ bs |>).

(** ** Clients *)

(** The clients are the processes that are not torn down.  [dp_clients_remove_client] warns
    and returns when the process is not one; the completions that wait in a process are
    lost with it. *)
Definition drop_waiting (p : nat) (pr : proc) : ledger -> ledger := fun l => l <| dropped := dropped l ++ ((p,.) <$> overflow_queue pr) |>.
Definition remove_client (p : nat) (d : dpath) : option dpath :=
  match procs d !! p with
  | Some pr =>
      if kill pr then Some d
      else
        let d := d <| ip_to_proc := delete (ip_addr pr) (ip_to_proc d) |> in
        let d := if bool_decide (overflow_queue pr = []) then d else d <| overflow_procs := filter (fun q => q <> p) (overflow_procs d) |> in
        let d := note (drop_waiting p pr) (put_proc p (pr <| kill := true |> <| held := held pr - 1 |>) d) in
        proc_put p (detach p d)
  | None => Some d
  end.
(** [dp_clients_add_client]: [attach_ok] is whether the scheduler takes the process,
    [hash_ok] whether the hash table takes its address, [mem_ok] whether the device can use
    its memory, or need not, with the direct path. *)
Definition add_client (attach_ok hash_ok mem_ok : bool) (p : nat) (pr : proc) (d : dpath) : option dpath :=
  let d := put_proc p pr d in
  if negb attach_ok then proc_put p d
  else
    match ip_to_proc d !! ip_addr pr with
    | Some _ => remove_client p d
    | None =>
        if negb hash_ok then remove_client p d
        else
          let d := d <| ip_to_proc := <[ip_addr pr := p]> (ip_to_proc d) |> in
          if negb mem_ok then remove_client p d else Some d
    end.
End Code.
