(* ===== verification/IoDataSpec.v ===== *)
(** * The data path of the I/O kernel: no buffer, completion or process is lost

    Invariants of IoData.  A transmit buffer is free, waits for the card or is with the
    card; a packet that was taken gets one completion; a process is there as long as a
    buffer or the array of polled kthreads refers to it. *)

From S2P Require Import Prelude StdDef Bags IoSched IoData.

(** ** Completions that wait in a process *)

Section Overflows.
Definition own_tags (x : nat * proc) : list (nat * Z) := if kill x.2 then [] else (x.1,.) <$> overflow_queue x.2.
Definition otags (m : gmap nat proc) : list (nat * Z) := map_to_list m ≫= own_tags.
Lemma otags_insert m p pr : m !! p = None -> otags (<[p := pr]> m) ≡ₚ own_tags (p, pr) ++ otags m.
Proof. intros H. unfold otags. by rewrite map_to_list_insert. Qed.
Lemma otags_delete m p pr : m !! p = Some pr -> otags m ≡ₚ own_tags (p, pr) ++ otags (delete p m).
Proof. intros H. rewrite <- (insert_delete_id m p pr H) at 1. apply otags_insert. apply lookup_delete_eq. Qed.
Lemma otags_update m p pr pr' : m !! p = Some pr -> own_tags (p, pr) ++ otags (<[p := pr']> m) ≡ₚ own_tags (p, pr') ++ otags m.
Proof.
  intros H. rewrite <- insert_delete_eq. rewrite otags_insert by apply lookup_delete_eq. rewrite (otags_delete m p pr H). rewrite !app_assoc. by rewrite (Permutation_app_comm (own_tags (p, pr))).
Qed.
Lemma otags_same m p pr pr' : m !! p = Some pr -> own_tags (p, pr') = own_tags (p, pr) -> otags (<[p := pr']> m) ≡ₚ otags m.
Proof. intros H E. apply (Permutation_app_inv_l (own_tags (p, pr))). rewrite otags_update by done. by rewrite E. Qed.
Definition tags_at (m : gmap nat proc) (p : nat) : list (nat * Z) := match m !! p with Some pr => own_tags (p, pr) | None => [] end.
Lemma otags_ext m m' : (forall p, tags_at m p = tags_at m' p) -> otags m ≡ₚ otags m'.
Proof.
  revert m'. induction m as [|p x m Hp IH] using map_ind; intros m' H.
  - assert (forall p, tags_at m' p = []) as H' by (intros p; by rewrite <- H). clear H. induction m' as [|p x m' Hp IH] using map_ind; [done|]. rewrite otags_insert by done.
    pose proof (H' p) as E. unfold tags_at in E. rewrite lookup_insert_eq in E. rewrite E. simpl. apply IH. intros q. pose proof (H' q) as Eq. unfold tags_at in *. destruct (decide (q = p)) as [-> |Hne]; [by rewrite Hp|by rewrite lookup_insert_ne in Eq].
  - rewrite otags_insert by done. pose proof (H p) as E. unfold tags_at in E. rewrite lookup_insert_eq in E.
    assert (forall q, q <> p -> tags_at m q = tags_at m' q) as Hq by (intros q Hne; rewrite <- H; unfold tags_at; by rewrite lookup_insert_ne).
    destruct (m' !! p) as [y|] eqn:Ey.
    + rewrite (otags_delete m' p y Ey), <- E. f_equiv. apply IH. intros q. destruct (decide (q = p)) as [-> |Hne]; [unfold tags_at; by rewrite Hp, lookup_delete_eq|]. rewrite Hq by done. unfold tags_at. by rewrite lookup_delete_ne.
    + rewrite E. simpl. apply IH. intros q. destruct (decide (q = p)) as [-> |Hne]; [unfold tags_at; by rewrite Hp, Ey|by apply Hq].
Qed.
End Overflows.

(** The completions among what was sent up. *)
Definition completion (x : tref * rxmsg) : option (nat * Z) := match x.2 with RX_NET_COMPLETE data => Some (x.1.1, data) | RX_NET_RECV _ => None end.
Definition completions (l : list (tref * rxmsg)) : list (nat * Z) := omap completion l.
Definition tag_of (m : gmap nat (tref * Z)) (b : nat) : nat * Z := match m !! b with Some ((p, _), data) => (p, data) | None => (0%nat, 0) end.

(** What the flow table and the lists of kthreads promise, which is the scheduler's. *)
Record routes (pr : proc) : Prop := {
  r_some : (0 < thread_count pr)%nat; r_flow : length (flow_tbl pr) = thread_count pr; r_flow_ok : Forall (fun i => (i < thread_count pr)%nat) (flow_tbl pr);
  r_idle : sched_threads_active pr = 0%nat -> idle_threads pr <> [] }.
Lemma routes_ext pr pr' : routes pr -> thread_active pr' = thread_active pr -> flow_tbl pr' = flow_tbl pr -> idle_threads pr' = idle_threads pr -> routes pr'.
Proof. intros [H1 H2 H3 H4] E1 E2 E3. constructor; unfold thread_count, sched_threads_active in *; by rewrite ?E1, ?E2, ?E3. Qed.
Lemma routes_pick pr hash : routes pr -> exists i,
  (if (0 <? sched_threads_active pr)%nat then flow_tbl pr !! Z.to_nat (u32 hash mod Z.of_nat (thread_count pr)) else head (idle_threads pr)) = Some i.
Proof.
  intros [H1 H2 H3 H4]. destruct (0 <? sched_threads_active pr)%nat eqn:E.
  - apply lookup_lt_is_Some_2. rewrite H2. pose proof (Z.mod_pos_bound (u32 hash) (Z.of_nat (thread_count pr)) ltac:(lia)). lia.
  - apply Nat.ltb_ge in E. destruct (idle_threads pr) as [|i l]; [by destruct H4; [lia|]|by exists i].
Qed.

Section Spec.
Context (rxq_size : nat) (add_core : nat -> dpath -> dpath) (pool_size : nat).

(** The transmit buffers [fl] are in use, [fr] are in the hands of the code, which also
    has the completions [tg] to send and the references [rf]; [ov] are the processes with
    completions to come. *)
Record inv_at (ov fl fr : list nat) (tg : list (nat * Z)) (rf : list nat) (d : dpath) : Prop := {
  v_perm : stack d ++ fl ++ fr ≡ₚ seq 0 pool_size;
  v_priv : forall b, b ∈ fl -> exists p i data pr, priv d !! b = Some ((p, i), data) /\ procs d !! p = Some pr /\ (i < thread_count pr)%nat;
  v_ref : forall p pr, procs d !! p = Some pr ->
    ref pr = held pr + Z.of_nat (occ p (ts d).*1 + occ p (fst ∘ tag_of (priv d) <$> fl) + occ p rf + occ p (given_up (log d)).*1) /\ 0 < ref pr /\ 0 <= held pr /\ (kill pr = false -> 1 <= held pr);
  v_rf : forall p, p ∈ rf ++ (given_up (log d)).*1 -> is_Some (procs d !! p);
  v_ts : forall t, t ∈ ts d -> exists pr, procs d !! t.1 = Some pr /\ (t.2 < thread_count pr)%nat;
  v_tags : taken (log d) ≡ₚ (tag_of (priv d) <$> fl) ++ tg ++ completions (sent_up (log d)) ++ otags (procs d) ++ dropped (log d) ++ given_up (log d);
  v_over : NoDup ov /\ forall p, p ∈ ov <-> exists pr, procs d !! p = Some pr /\ kill pr = false /\ overflow_queue pr <> [];
  v_cap : forall p pr, procs d !! p = Some pr -> (length (overflow_queue pr) <= max_overflows pr)%nat /\ routes pr }.

(** What the scheduler may change: references of its own, kthreads, and what is polled. *)
Definition same_path (d d' : dpath) : Prop :=
  exists procs' ts' poll', d' = d <| procs := procs' |> <| ts := ts' |> <| poll_next := poll' |>.
Record same_proc (a b : proc) : Prop := {
  s_kill : kill b = kill a; s_rr : next_thread_rr b = next_thread_rr a; s_max : max_overflows b = max_overflows a; s_over : overflow_queue b = overflow_queue a;
  s_count : thread_count b = thread_count a; s_region : region b = region a; s_pages : page_paddrs b = page_paddrs a; s_ip : ip_addr b = ip_addr a }.
Record sched_only (d d' : dpath) : Prop := {
  c_path : same_path d d';
  c_procs : forall p, match procs d !! p, procs d' !! p with
    | Some a, Some b => same_proc a b /\ routes b /\ ref b - held b - Z.of_nat (occ p (ts d').*1) = ref a - held a - Z.of_nat (occ p (ts d).*1) /\ 0 < ref b /\ 0 <= held b /\ (kill b = false -> 1 <= held b)
    | Some a, None => kill a = true /\ ref a - held a - Z.of_nat (occ p (ts d).*1) = 0
    | None, None => True
    | None, Some _ => False
    end;
  c_ts : forall t, t ∈ ts d' -> exists pr, procs d' !! t.1 = Some pr /\ (t.2 < thread_count pr)%nat }.

(** What the scheduler relies on. *)
Record sched_pre (d : dpath) : Prop := {
  e_procs : forall p pr, procs d !! p = Some pr -> routes pr /\ 0 < ref pr /\ 0 <= held pr /\ (kill pr = false -> 1 <= held pr);
  e_ts : forall t, t ∈ ts d -> exists pr, procs d !! t.1 = Some pr /\ (t.2 < thread_count pr)%nat }.
Lemma inv_sched_pre ov fl fr tg rf d : inv_at ov fl fr tg rf d -> sched_pre d.
Proof. intros V. constructor; [|apply V]. intros p pr Hp. destruct (v_ref _ _ _ _ _ _ V p pr Hp) as [_ H]. by destruct (v_cap _ _ _ _ _ _ V p pr Hp). Qed.

Lemma sched_inv ov fl fr tg rf d d' : sched_only d d' -> inv_at ov fl fr tg rf d -> inv_at ov fl fr tg rf d'.
Proof.
  intros [(procs' & ts' & poll' & ->) Cp Ct] [V1 V2 V3 V4 V5 V6 V7 V8]. simpl in *.
  assert (forall p a, procs d !! p = Some a -> (0 < occ p (fst ∘ tag_of (priv d) <$> fl) + occ p rf + occ p (given_up (log d)).*1)%nat -> exists b, procs' !! p = Some b /\ same_proc a b) as Hkeep.
  { intros p a Ha Hpos. specialize (Cp p). rewrite Ha in Cp. destruct (procs' !! p) as [b|]; [exists b; by destruct Cp as [Cs _]|]. destruct (V3 p a Ha) as [Hr _]. lia. }
  constructor; simpl; try done.
  - intros b Hb. destruct (V2 b Hb) as (p & i & data & a & Hpr & Ha & Hi). destruct (Hkeep p a Ha) as (a' & Ha' & Hs).
    { assert (0 < occ p (fst ∘ tag_of (priv d) <$> fl))%nat; [|lia]. apply occ_pos. apply list_elem_of_fmap. exists b. split; [|done]. simpl. unfold tag_of. by rewrite Hpr. }
    exists p, i, data, a'. split; [done|]. split; [done|]. by rewrite (s_count _ _ Hs).
  - intros p b Hb. specialize (Cp p). rewrite Hb in Cp. destruct (procs d !! p) as [a|] eqn:Ha; [|done]. destruct Cp as (Hs & _ & Hr & Hp & Hh & Hk). destruct (V3 p a Ha) as (Hr' & _). split; [|done].
    lia.
  - intros p Hp. destruct (V4 p Hp) as [a Ha]. destruct (Hkeep p a Ha) as (b & Hb & _); [|by exists b]. apply elem_of_app in Hp as [Hp|Hp]; apply occ_pos in Hp; lia.
  - rewrite V6. do 3 f_equiv. f_equiv. symmetry. apply otags_ext. intros p. specialize (Cp p). unfold tags_at. destruct (procs d !! p) as [a|] eqn:Ha, (procs' !! p) as [b|]; try done.
    + destruct Cp as ([S1 _ _ S4 _ _ _ _] & _). unfold own_tags. simpl. by rewrite S1, S4.
    + destruct Cp as [Hk _]. unfold own_tags. simpl. by rewrite Hk.
  - destruct V7 as [Hn Hv]. split; [done|]. intros p. rewrite Hv. specialize (Cp p). split.
    + intros (a & Ha & Hk & Hq). rewrite Ha in Cp. destruct (procs' !! p) as [b|]; [|destruct Cp; congruence]. destruct Cp as ([S1 _ _ S4 _ _ _ _] & _). exists b. by rewrite S1, S4.
    + intros (b & Hb & Hk & Hq). rewrite Hb in Cp. destruct (procs d !! p) as [a|]; [|done]. destruct Cp as ([S1 _ _ S4 _ _ _ _] & _). exists a. by rewrite <- S1, <- S4.
  - intros p b Hb. specialize (Cp p). rewrite Hb in Cp. destruct (procs d !! p) as [a|] eqn:Ha; [|done]. destruct Cp as ([_ _ S3 S4 _ _ _ _] & Hrt & _). rewrite S3, S4. split; [by apply (V8 p a)|done].
Qed.
(** Changes to one process. *)
Lemma inv_proc ov ov' fl fr tg tg' rf rf' d p pr pr' : inv_at ov fl fr tg rf d -> procs d !! p = Some pr -> same_proc (pr <| next_thread_rr := next_thread_rr pr' |> <| overflow_queue := overflow_queue pr' |>) pr' ->
  routes pr' -> held pr' = held pr -> (length (overflow_queue pr') <= max_overflows pr')%nat -> own_tags (p, pr) ++ tg ≡ₚ own_tags (p, pr') ++ tg' ->
  (NoDup ov' /\ (forall q, q <> p -> q ∈ ov' <-> q ∈ ov) /\ (p ∈ ov' <-> kill pr' = false /\ overflow_queue pr' <> [])) -> ref pr' - Z.of_nat (occ p rf') = ref pr - Z.of_nat (occ p rf) -> 0 < ref pr' -> (forall q, q <> p -> occ q rf' = occ q rf) ->
  inv_at ov' fl fr tg' rf' (put_proc p pr' d).
Proof.
  intros [V1 V2 V3 V4 V5 V6 V7 V8] Hp [S1 _ S3 _ S5 _ _ _] Hrt Hh Hcap Htg (Hnd & Hoth & Hemp) Href Hpos Hocc. simpl in *.
  assert (forall q x, procs d !! q = Some x -> exists y, <[p := pr']> (procs d) !! q = Some y /\ thread_count y = thread_count x) as Hkeep.
  { intros q x Hx. destruct (decide (q = p)) as [-> |Hne]; [exists pr'; rewrite lookup_insert_eq; split; [done|]; rewrite Hp in Hx; by simplify_eq|]. exists x. by rewrite lookup_insert_ne. }
  constructor; simpl; try done.
  - intros b Hb. destruct (V2 b Hb) as (q & i & data & x & Hpr & Hx & Hi). destruct (Hkeep q x Hx) as (y & Hy & Ey). exists q, i, data, y. split; [done|]. split; [done|]. by rewrite Ey.
  - intros q y Hy. destruct (decide (q = p)) as [-> |Hne].
    + rewrite lookup_insert_eq in Hy. simplify_eq. destruct (V3 p pr Hp) as (E & E1 & E2 & E3). rewrite Hh, S1. split; [lia|]. done.
    + rewrite lookup_insert_ne in Hy by done. rewrite Hocc by done. by apply V3.
  - intros q Hq. destruct (decide (q = p)) as [-> |Hne]; [rewrite lookup_insert_eq; by eexists|]. rewrite lookup_insert_ne by done. apply V4. apply elem_of_app. apply elem_of_app in Hq as [Hq|Hq]; [left|by right].
    apply occ_pos. rewrite <- Hocc by done. by apply occ_pos.
  - intros u Hu. destruct (V5 u Hu) as (x & Hx & Hi). destruct (Hkeep u.1 x Hx) as (y & Hy & Ey). exists y. split; [done|]. by rewrite Ey.
  - rewrite V6. f_equiv. apply (Permutation_app_inv_l (own_tags (p, pr))). pose proof (otags_update (procs d) p pr pr' Hp) as Ho. revert Htg Ho. generalize (own_tags (p, pr)) (own_tags (p, pr')) (otags (procs d)) (otags (<[p := pr']> (procs d))). clear. intros A B O O' H1 H2. perm.
  - split; [done|]. intros q. destruct (decide (q = p)) as [-> |Hne].
    + rewrite Hemp, lookup_insert_eq. split; [intros [Hk Hq]; by exists pr'|]. intros (x & Hx & Hk & Hq). by simplify_eq.
    + rewrite lookup_insert_ne by done. rewrite Hoth by done. apply V7.
  - intros q y Hy. destruct (decide (q = p)) as [-> |Hne]; [rewrite lookup_insert_eq in Hy; by simplify_eq|]. rewrite lookup_insert_ne in Hy by done. by apply (V8 q y).
Qed.
Lemma inv_listed ov fl fr tg rf d p pr pr' : inv_at ov fl fr tg rf d -> procs d !! p = Some pr -> kill pr' = kill pr -> (overflow_queue pr' = [] <-> overflow_queue pr = []) ->
  NoDup ov /\ (forall q, q <> p -> q ∈ ov <-> q ∈ ov) /\ (p ∈ ov <-> kill pr' = false /\ overflow_queue pr' <> []).
Proof.
  intros V Hp Hk Hq. destruct (v_over _ _ _ _ _ _ V) as [Hn Hv]. split; [done|]. split; [done|]. rewrite Hv, Hk. unfold not. rewrite Hq. split; [intros (x & Hx & H); by simplify_eq|]. intros H. by exists pr.
Qed.
(** The process with address [ad] is a client. *)
Definition living (p : nat) (ad : Z) (d : dpath) : Prop := exists pr, procs d !! p = Some pr /\ kill pr = false /\ ip_addr pr = ad.
(** Giving a reference back. *)
Lemma dp_put_ok ov fl fr tg rf d p : inv_at ov fl fr tg (p :: rf) d -> exists m, proc_put p d = Some (d <| procs := m |>) /\ inv_at ov fl fr tg rf (d <| procs := m |>) /\ forall q ad, living q ad d -> living q ad (d <| procs := m |>).
Proof.
  intros V. destruct (v_rf _ _ _ _ _ _ V p ltac:(apply elem_of_app; left; apply list_elem_of_here)) as [pr Hp]. unfold proc_put. rewrite Hp. cbn [mbind option_bind].
  destruct (v_ref _ _ _ _ _ _ V p pr Hp) as (Hr & Hpos & Hh & Hk). rewrite occ_cons, occ_self in Hr. destruct (ref pr - 1 =? 0) eqn:E.
  - apply Z.eqb_eq in E. eexists. split; [done|]. assert (kill pr = true) as Hkill by (destruct (kill pr); [done|]; specialize (Hk eq_refl); lia).
    assert (occ p (ts d).*1 = 0 /\ occ p (fst ∘ tag_of (priv d) <$> fl) = 0 /\ occ p rf = 0 /\ occ p (given_up (log d)).*1 = 0)%nat as (Z1 & Z2 & Z3 & Z4) by lia. destruct V as [V1 V2 V3 V4 V5 V6 V7 V8]. split; [constructor; simpl; try done|].
    + intros b Hb. destruct (V2 b Hb) as (q & i & data & x & Hpr & Hx & Hi). exists q, i, data, x. split; [done|]. split; [|done]. rewrite lookup_delete_ne; [done|]. intros ->.
      assert (0 < occ q (fst ∘ tag_of (priv d) <$> fl))%nat; [|lia]. apply occ_pos. apply list_elem_of_fmap. exists b. split; [|done]. simpl. unfold tag_of. by rewrite Hpr.
    + intros q x [Hne Hx]%lookup_delete_Some. destruct (V3 q x Hx) as (H1 & H2). split; [|done]. rewrite occ_cons in H1. replace (occ q [p]) with 0%nat in H1; [lia|].
      unfold occ. rewrite filter_cons_False by congruence. done.
    + intros q Hq. rewrite lookup_delete_ne; [apply V4; apply elem_of_app; apply elem_of_app in Hq as [Hq|Hq]; [left; by apply list_elem_of_further|by right]|]. intros ->. apply elem_of_app in Hq as [Hq|Hq]; apply occ_pos in Hq; lia.
    + intros u Hu. destruct (V5 u Hu) as (x & Hx & Hi). exists x. split; [|done]. rewrite lookup_delete_ne; [done|]. intros ->. assert (0 < occ u.1 (ts d).*1)%nat; [|lia]. apply occ_pos. apply list_elem_of_fmap. by exists u.
    + rewrite V6. rewrite (otags_delete (procs d) p pr Hp). unfold own_tags. simpl. by rewrite Hkill.
    + destruct V7 as [Hn Hv]. split; [done|]. intros q. rewrite Hv. split.
      * intros (x & Hx & Hkx & Hq). exists x. split; [|done]. rewrite lookup_delete_ne; [done|]. intros ->. congruence.
      * intros (x & [_ Hx]%lookup_delete_Some & Hq). by exists x.
    + intros q x [_ Hx]%lookup_delete_Some. by apply (V8 q x).
    + intros q ad (x & Hx & Hkx). exists x. split; [|done]. simpl. rewrite lookup_delete_ne; [done|]. intros ->. destruct Hkx. congruence.
  - apply Z.eqb_neq in E. exists (<[p := pr <| ref := ref pr - 1 |>]> (procs d)). split; [done|]. split.
    + apply (inv_proc ov ov fl fr tg tg (p :: rf) rf d p pr (pr <| ref := ref pr - 1 |>)); try done; simpl; try lia; [apply (routes_ext pr); [by apply (v_cap _ _ _ _ _ _ V p pr)|done..]|by apply (v_cap _ _ _ _ _ _ V p pr)|by apply (inv_listed ov fl fr tg (p :: rf) d p pr)|rewrite occ_cons, occ_self; lia|].
      intros q Hq. rewrite occ_cons. replace (occ q [p]) with 0%nat; [done|]. unfold occ. by rewrite filter_cons_False by congruence.
    + intros q ad (x & Hx & Hkx). destruct (decide (q = p)) as [-> |Hne]; [exists (pr <| ref := ref pr - 1 |>); simpl; rewrite lookup_insert_eq; split; [done|]; rewrite Hp in Hx; by simplify_eq|].
      exists x. simpl. by rewrite lookup_insert_ne.
Qed.
(** What completions and the scheduler leave alone. *)
Record keeps (d d' : dpath) : Prop := {
  p_stack : stack d' = stack d; p_priv : priv d' = priv d; p_bufs : bufs d' = bufs d; p_pkts : n_pkts d' = n_pkts d; p_pos : pos d' = pos d; p_nic : nic d' = nic d; p_tx : txpktq d' = txpktq d; p_ip : ip_to_proc d' = ip_to_proc d; p_taken : taken (log d') = taken (log d);
  p_living : forall q ad, living q ad d -> living q ad d' }.
Lemma dp_keeps_refl d : keeps d d.
Proof. by constructor. Qed.
Lemma dp_keeps_trans d d1 d2 : keeps d d1 -> keeps d1 d2 -> keeps d d2.
Proof. intros [] []. constructor; try congruence. auto. Qed.
Lemma dp_keeps_procs d m : (forall q ad, living q ad d -> living q ad (d <| procs := m |>)) -> keeps d (d <| procs := m |>).
Proof. by constructor. Qed.
Lemma keeps_proc d p pr pr' : procs d !! p = Some pr -> kill pr' = kill pr -> ip_addr pr' = ip_addr pr -> keeps d (put_proc p pr' d).
Proof.
  intros Hp Hk Hi. constructor; try done. intros q ad (x & Hx & Hkx). unfold living. simpl. destruct (decide (q = p)) as [-> |Hne]; [|exists x; by rewrite lookup_insert_ne]. exists pr'. rewrite lookup_insert_eq. rewrite Hp in Hx. simplify_eq. by rewrite Hk, Hi.
Qed.
Lemma keeps_sched d d' : sched_only d d' -> keeps d d'.
Proof.
  intros [(procs' & ts' & poll' & ->) Cp _]. constructor; try done. intros q ad (a & Ha & Hk & Hi). specialize (Cp q). rewrite Ha in Cp. unfold living. simpl in *. destruct (procs' !! q) as [b|]; [|destruct Cp; congruence].
  exists b. split; [done|]. destruct Cp as ([S1 _ _ _ _ _ _ S8] & _). split; congruence.
Qed.
Definition in_hand (p : nat) (m : rxmsg) : list (nat * Z) := match m with RX_NET_COMPLETE data => [(p, data)] | RX_NET_RECV _ => [] end.
Definition sent (ok : bool) (t : tref) (m : rxmsg) (d d' : dpath) : Prop := sent_up (log d') = sent_up (log d) ++ (if ok then [(t, m)] else []) /\ rx_freed d' = rx_freed d.
Lemma lrpc_ok ov fl fr tg rf t m d : inv_at ov fl fr (in_hand t.1 m ++ tg) rf d ->
  let '(ok, d') := rxq_send rxq_size t m d in inv_at ov fl fr (if ok then tg else in_hand t.1 m ++ tg) rf d' /\ keeps d d' /\ procs d' = procs d /\ overflow_procs d' = overflow_procs d /\ sent ok t m d d'.
Proof.
  intros V. unfold rxq_send. destruct (_ <? _)%nat; [|split; [done|]; split; [apply dp_keeps_refl|]; split; [done|]; split; [done|]; split; [by rewrite app_nil_r|done]]. split; [|split; [by constructor|done]]. destruct V as [V1 V2 V3 V4 V5 V6 V7 V8]. constructor; try done.
  simpl. rewrite V6. unfold completions. rewrite omap_app. destruct m as [b|data]; simpl; [by rewrite app_nil_r|]. perm.
Qed.
Hypothesis add_core_ok : forall p d, sched_pre d -> sched_only d (add_core p d).
Lemma inv_poll ov fl fr tg rf d x : inv_at ov fl fr tg rf d -> inv_at ov fl fr tg rf (d <| poll_next := x |>).
Proof. by intros []. Qed.
Lemma dp_send_ok ov fl fr tg rf p pr hash m d : inv_at ov fl fr (in_hand p m ++ tg) rf d -> procs d !! p = Some pr -> kill pr = false ->
  exists ok d' pr', rx_send_to_runtime rxq_size add_core p hash m d = Some (ok, d') /\ inv_at ov fl fr (if ok : bool then tg else in_hand p m ++ tg) rf d' /\ keeps d d' /\
    procs d' !! p = Some pr' /\ same_proc pr pr' /\ overflow_procs d' = overflow_procs d /\ exists i, sent ok (p, i) m d d'.
Proof.
  intros V Hp Hk. unfold rx_send_to_runtime. rewrite Hp. cbn [mbind option_bind].
  set (d1 := if (0 <? sched_threads_active pr)%nat then d else add_core p d).
  assert (inv_at ov fl fr (in_hand p m ++ tg) rf d1 /\ keeps d d1 /\ overflow_procs d1 = overflow_procs d /\ (log d1 = log d /\ rx_freed d1 = rx_freed d) /\ exists pr1, procs d1 !! p = Some pr1 /\ same_proc pr pr1) as (V1 & K1 & Eo & [El Ef] & pr1 & Hp1 & S1).
  { unfold d1. destruct (0 <? sched_threads_active pr)%nat; [split; [done|]; split; [apply dp_keeps_refl|]; split; [done|]; split; [done|]; by exists pr|]. pose proof (add_core_ok p d (inv_sched_pre _ _ _ _ _ _ V)) as C. split; [by apply (sched_inv _ _ _ _ _ d)|]. split; [by apply keeps_sched|].
    destruct C as [(procs' & ts' & poll' & E) Cp _]. split; [by rewrite E|]. split; [by rewrite E|]. specialize (Cp p). rewrite Hp in Cp. destruct (procs (add_core p d) !! p) as [b|]; [|destruct Cp; congruence]. exists b. by destruct Cp. }
  clearbody d1. rewrite Hp1. cbn [mbind option_bind]. destruct (routes_pick pr1 hash) as [i Hi]; [by apply (v_cap _ _ _ _ _ _ V1 p pr1)|]. rewrite Hi. cbn [mbind option_bind].
  set (d2 := d1 <| poll_next := _ |>). assert (inv_at ov fl fr (in_hand p m ++ tg) rf d2) as V2 by (by apply inv_poll). pose proof (lrpc_ok ov fl fr tg rf (p, i) m d2 V2) as H. destruct (rxq_send rxq_size (p, i) m d2) as [ok d3].
  destruct H as (V3 & K3 & E1 & E2 & E3 & E4). simpl in E3, E4. exists ok, d3, pr1. split; [done|]. split; [done|]. split; [apply (dp_keeps_trans d d1); [done|]; apply (dp_keeps_trans d1 d2); [by constructor|done]|]. rewrite E1, E2. split; [done|]. split; [done|]. split; [done|]. exists i. split; [by rewrite E3, El|by rewrite E4].
Qed.

(** *** Completions *)

Lemma inv_perm ov ov' fl fl' fr fr' tg rf d : inv_at ov fl fr tg rf d -> ov ≡ₚ ov' -> fl ≡ₚ fl' -> fr ≡ₚ fr' -> inv_at ov' fl' fr' tg rf d.
Proof.
  intros [V1 V2 V3 V4 V5 V6 V7 V8] Eo El Er. constructor; try done.
  - by rewrite <- El, <- Er.
  - intros b Hb. apply V2. by rewrite El.
  - intros p pr Hp. destruct (V3 p pr Hp) as [H1 H2]. split; [|done]. rewrite H1. by rewrite (occ_perm _ _ _ (fmap_Permutation (fst ∘ tag_of (priv d)) _ _ El)).
  - by rewrite <- El.
  - destruct V7 as [Hn Hv]. split; [by rewrite <- Eo|]. intros p. rewrite <- Hv. by rewrite Eo.
Qed.
(** The code takes a buffer that is in use, with its completion and its reference. *)
Lemma take_buf ov b fl fr tg rf d : inv_at ov (b :: fl) fr tg rf d -> exists p i data pr, priv d !! b = Some ((p, i), data) /\ procs d !! p = Some pr /\ (i < thread_count pr)%nat /\ inv_at ov fl (b :: fr) ((p, data) :: tg) (p :: rf) d.
Proof.
  intros [V1 V2 V3 V4 V5 V6 V7 V8]. destruct (V2 b ltac:(apply list_elem_of_here)) as (p & i & data & pr & Hb & Hp & Hi). exists p, i, data, pr. split; [done|]. split; [done|]. split; [done|].
  assert (tag_of (priv d) b = (p, data)) as Et by (unfold tag_of; by rewrite Hb). constructor; try done.
  - rewrite <- V1. simpl. rewrite <- Permutation_middle. done.
  - intros c Hc. apply V2. by apply list_elem_of_further.
  - intros q x Hx. destruct (V3 q x Hx) as [H1 H2]. split; [|done]. rewrite H1. rewrite fmap_cons, (occ_cons q p rf), (occ_cons q _ (_ <$> fl)). simpl. rewrite Et. simpl. lia.
  - intros q [Hq|Hq]%elem_of_app; [|apply V4; apply elem_of_app; by right]. apply elem_of_cons in Hq as [-> |Hq]; [by exists pr|]. apply V4. apply elem_of_app. by left.
  - rewrite V6. rewrite fmap_cons, Et. clear. perm.
Qed.
Lemma note_dropped ov fl fr tg rf d x : inv_at ov fl fr (x :: tg) rf d -> inv_at ov fl fr tg rf (note (fun l => l <| dropped := dropped l ++ [x] |>) d).
Proof. intros [V1 V2 V3 V4 V5 V6 V7 V8]. constructor; try done. simpl. rewrite V6. clear. simpl. perm. Qed.
Lemma note_given_up ov fl fr tg rf d p data : inv_at ov fl fr ((p, data) :: tg) (p :: rf) d -> inv_at ov fl fr tg rf (note (fun l => l <| given_up := given_up l ++ [(p, data)] |>) d).
Proof.
  intros [V1 V2 V3 V4 V5 V6 V7 V8]. constructor; try done; simpl.
  - intros q x Hx. destruct (V3 q x Hx) as [H1 H2]. split; [|done]. rewrite H1. rewrite fmap_app, occ_app, (occ_cons q p rf). simpl. lia.
  - intros q Hq. apply V4. rewrite fmap_app in Hq. simpl in *. set_solver.
  - rewrite V6. clear. simpl. perm.
Qed.
(** A completion that could not be sent waits, or is given up. *)
Definition put_off (p : nat) (data : Z) (d : dpath) : option (bool * dpath) :=
  pr ← procs d !! p;
  if bool_decide (length (overflow_queue pr) = max_overflows pr) then Some (false, note (fun l => l <| given_up := given_up l ++ [(p, data)] |>) d)
  else
    let d := if bool_decide (overflow_queue pr = []) then d <| overflow_procs := p :: overflow_procs d |> else d in
    d ← proc_put p (put_proc p (pr <| overflow_queue := overflow_queue pr ++ [data] |>) d); Some (true, d).
Lemma keeps_over d x : keeps d (d <| overflow_procs := x |>).
Proof. by constructor. Qed.
Lemma inv_over ov fl fr tg rf d x : inv_at ov fl fr tg rf d -> inv_at ov fl fr tg rf (d <| overflow_procs := x |>).
Proof. by intros []. Qed.
Lemma put_off_ok fl fr tg rf p ad data d : inv_at (overflow_procs d) fl fr ((p, data) :: tg) (p :: rf) d -> living p ad d ->
  exists r d', put_off p data d = Some (r, d') /\ inv_at (overflow_procs d') fl fr tg rf d' /\ keeps d d'.
Proof.
  intros V (pr & Hp & Hk & _). unfold put_off. rewrite Hp. cbn [mbind option_bind]. destruct (v_cap _ _ _ _ _ _ V p pr Hp) as [Hcap Hrt]. case_bool_decide as Hfull.
  { eexists _, _. split; [done|]. split; [by apply note_given_up|by constructor]. }
  set (ov := if bool_decide (overflow_queue pr = []) then p :: overflow_procs d else overflow_procs d).
  set (d1 := if bool_decide (overflow_queue pr = []) then d <| overflow_procs := p :: overflow_procs d |> else d).
  assert (d1 = d <| overflow_procs := ov |>) as -> by (unfold d1, ov; destruct (bool_decide _); by destruct d).
  set (pr' := pr <| overflow_queue := overflow_queue pr ++ [data] |>).
  assert (inv_at ov fl fr tg (p :: rf) (put_proc p pr' (d <| overflow_procs := ov |>))) as V'.
  { apply (inv_proc (overflow_procs d) ov fl fr ((p, data) :: tg) tg (p :: rf) (p :: rf) _ p pr); try done; [by apply inv_over|..].
    - by apply (routes_ext pr).
    - simpl. rewrite length_app. simpl. lia.
    - unfold own_tags. simpl. rewrite Hk, fmap_app. simpl. by rewrite <- app_assoc.
    - destruct (v_over _ _ _ _ _ _ V) as [Hn Hv]. assert (p ∈ overflow_procs d <-> overflow_queue pr <> []) as Hin.
      { rewrite Hv. split; [intros (x & Hx & _ & H); by simplify_eq|]. intros H. by exists pr. }
      unfold ov. case_bool_decide as He; simpl; rewrite Hk.
      + split; [constructor; [rewrite Hin; intros H; by apply H|done]|]. split; [intros q Hq; set_solver|]. split; [intros _; split; [done|]; by destruct (overflow_queue pr)|]. intros _. apply list_elem_of_here.
      + split; [done|]. split; [done|]. rewrite Hin. split; [intros _; split; [done|]; by destruct (overflow_queue pr)|done].
    - by apply (v_ref _ _ _ _ _ _ V p pr). }
  destruct (dp_put_ok _ _ _ _ _ _ _ V') as (m & -> & V2 & K). cbn [mbind option_bind]. eexists _, _. split; [done|]. split; [done|].
  apply (dp_keeps_trans _ (put_proc p pr' (d <| overflow_procs := ov |>))); [|by apply dp_keeps_procs]. apply (dp_keeps_trans _ (d <| overflow_procs := ov |>)); [apply keeps_over|by apply (keeps_proc _ p pr)].
Qed.
Lemma dp_give_back fl fr tg rf p d : inv_at (overflow_procs d) fl fr tg (p :: rf) d -> exists d', proc_put p d = Some d' /\ inv_at (overflow_procs d') fl fr tg rf d' /\ keeps d d'.
Proof. intros V. destruct (dp_put_ok _ _ _ _ _ _ _ V) as (m & E & V' & K). eexists. split; [done|]. split; [done|]. by apply dp_keeps_procs. Qed.
Lemma next_rr_ok ov fl fr tg rf p pr n d : inv_at ov fl fr tg rf d -> procs d !! p = Some pr -> inv_at ov fl fr tg rf (put_proc p (pr <| next_thread_rr := n |>) d).
Proof.
  intros V Hp. destruct (v_cap _ _ _ _ _ _ V p pr Hp) as [Hcap Hrt]. apply (inv_proc ov ov fl fr tg tg rf rf d p pr); try done; [by apply (routes_ext pr)|by apply (inv_listed ov fl fr tg rf d p pr)|].
  by apply (v_ref _ _ _ _ _ _ V p pr).
Qed.
Lemma send_completion_ok b fl fr tg d : inv_at (overflow_procs d) (b :: fl) fr tg [] d ->
  exists r d', tx_send_completion rxq_size add_core b d = Some (r, d') /\ inv_at (overflow_procs d') fl (b :: fr) tg [] d' /\ keeps d d'.
Proof.
  intros (p & i & data & pr & Hb & Hp & Hi & V)%take_buf. unfold tx_send_completion. rewrite Hb, Hp. cbn [mbind option_bind]. destruct (kill pr) eqn:Hk.
  { destruct (dp_give_back _ _ _ _ _ _ V) as (d' & -> & V' & K). cbn [mbind option_bind]. eexists _, _. split; [done|]. split; [by apply note_dropped|]. apply (dp_keeps_trans _ d'); [done|]. by constructor. }
  destruct (lookup_lt_is_Some_2 (thread_active pr) i Hi) as [act ->]. cbn [mbind option_bind].
  assert (exists ok d1, (if act then Some (rxq_send rxq_size (p, i) (RX_NET_COMPLETE data) d)
      else rx_send_to_runtime rxq_size add_core p (next_thread_rr pr) (RX_NET_COMPLETE data) (put_proc p (pr <| next_thread_rr := u32 (next_thread_rr pr + 1) |>) d)) = Some (ok, d1) /\
    inv_at (overflow_procs d1) fl (b :: fr) (if ok : bool then tg else (p, data) :: tg) [p] d1 /\ keeps d d1) as (ok & d1 & -> & V1 & K1).
  { destruct act.
    - pose proof (lrpc_ok _ fl (b :: fr) tg [p] (p, i) (RX_NET_COMPLETE data) d V) as H. destruct (rxq_send _ _ _ _) as [ok d1]. destruct H as (H1 & H2 & _ & H4 & _). exists ok, d1. rewrite H4. by destruct ok.
    - set (pr1 := pr <| next_thread_rr := _ |>). pose proof (next_rr_ok _ _ _ _ _ _ _ (u32 (next_thread_rr pr + 1)) _ V Hp) as V0.
      destruct (dp_send_ok _ fl (b :: fr) tg [p] p pr1 (next_thread_rr pr) (RX_NET_COMPLETE data) _ V0) as (ok & d1 & pr2 & E & V1 & K1 & _ & _ & E4 & _); [simpl; by rewrite lookup_insert_eq|done|].
      exists ok, d1. split; [done|]. rewrite E4. split; [by destruct ok|]. apply (dp_keeps_trans _ (put_proc p pr1 d)); [by apply (keeps_proc _ p pr)|done]. }
  cbn [mbind option_bind]. destruct ok.
  - destruct (dp_give_back _ _ _ _ _ _ V1) as (d2 & -> & V2 & K2). cbn [mbind option_bind]. eexists _, _. split; [done|]. split; [done|]. by apply (dp_keeps_trans _ d1).
  - destruct (put_off_ok _ _ _ _ _ (ip_addr pr) _ _ V1) as (r & d2 & E2 & V2 & K2); [apply K1; by exists pr|]. exists r, d2. split; [exact E2|]. split; [done|]. by apply (dp_keeps_trans _ d1).
Qed.
Lemma send_completions_ok l fl fr tg d : inv_at (overflow_procs d) (l ++ fl) fr tg [] d ->
  exists d', send_completions rxq_size add_core l d = Some d' /\ inv_at (overflow_procs d') fl (l ++ fr) tg [] d' /\ keeps d d'.
Proof.
  revert fr d. induction l as [|b l IH]; intros fr d V; simpl; [exists d; split; [done|]; split; [done|apply dp_keeps_refl]|].
  destruct (send_completion_ok _ _ _ _ _ V) as (r & d1 & -> & V1 & K1). cbn [mbind option_bind]. destruct (IH _ _ V1) as (d2 & -> & V2 & K2). exists d2. split; [done|]. split; [|by apply (dp_keeps_trans _ d1)].
  apply (inv_perm _ _ _ _ _ _ _ _ _ V2); [done|done|]. by rewrite Permutation_middle.
Qed.
(** The buffers that the card is done with go back to the pool. *)
Lemma enqueue_ok l fl fr tg d : inv_at (overflow_procs d) (l ++ fl) fr tg [] d ->
  exists d', completion_enqueue rxq_size add_core pool_size l d = Some (true, d') /\ inv_at (overflow_procs d') fl fr tg [] d' /\ (forall q ad, living q ad d -> living q ad d') /\
    stack d' = stack d ++ l /\ bufs d' = bufs d /\ nic d' = nic d /\ n_pkts d' = n_pkts d /\ pos d' = pos d /\ txpktq d' = txpktq d /\ ip_to_proc d' = ip_to_proc d /\ priv d' = priv d /\ taken (log d') = taken (log d).
Proof.
  intros V. unfold completion_enqueue. pose proof (Permutation_length (v_perm _ _ _ _ _ _ V)) as Hlen. rewrite !length_app, length_seq in Hlen.
  destruct (Nat.ltb_spec pool_size (length (stack d) + length l)) as [H|_]; [lia|]. destruct (send_completions_ok _ _ _ _ _ V) as (d1 & -> & V1 & K1). cbn [mbind option_bind].
  eexists. split; [done|]. destruct K1 as [K1 K2 K3 K4 K5 K6 K7 K8 K9 K10]. simpl. rewrite K1. split; [|by split].
  destruct V1 as [V1 V2 V3 V4 V5 V6 V7 V8]. constructor; try done. simpl. rewrite K1 in V1. rewrite <- V1. clear. perm.
Qed.
End Spec.
