(* ===== verification/IoDataRun.v ===== *)
(** * The data path of the I/O kernel: bursts

    Theorems on the handlers of IoData, from the lemmas of IoDataSpec: every handler returns
    in every state that can be reached, and what it does to packets, buffers and
    completions. *)

From S2P Require Import Prelude StdDef Bags IoSched IoData IoDataSpec.

(** What a handler needs of the messages of runtimes: a packet with its header and the
    start of its payload in the region, from a process that a client entry or a core holds. *)
Definition wf_msg (pr : proc) (m : txmsg) : Prop :=
  cmd m = TXPKT_NET_XMIT /\ exists a, shmptr_to_ptr (region pr) (payload m) SIZEOF_TX_NET_HDR = Some a /\ is_Some (tx_fill pr a (hdr m)).
Definition sendable (d : dpath) : Prop :=
  forall t pr, procs d !! t.1 = Some pr -> txpktq d !!! t <> [] -> 1 <= held pr /\ Forall (wf_msg pr) (txpktq d !!! t).
(** A header that was taken, and can be used. *)
Abbreviation header := (tref * (Z * tx_net_hdr))%type.
Definition ready (d : dpath) (h : header) : Prop :=
  exists pr, procs d !! h.1.1 = Some pr /\ 1 <= held pr /\ (h.1.2 < thread_count pr)%nat /\ is_Some (tx_fill pr h.2.1 h.2.2).
Definition tags (l : list header) : list (nat * Z) := (fun h => (h.1.1, completion_data h.2.2)) <$> l.

(** The headers of one kthread. *)
Definition of_thread (u : tref) (l : list header) : list tx_net_hdr := (fun h => h.2.2) <$> filter (fun h => h.1 = u) l.

(** Changes to references only, and packets taken. *)
Definition refs_only (d d' : dpath) : Prop := forall q x, procs d !! q = Some x -> 1 <= held x -> exists r, procs d' !! q = Some (x <| ref := r |>).
Record polled (d d' : dpath) : Prop := {
  q_path : exists procs' ts' tx', d' = d <| procs := procs' |> <| ts := ts' |> <| txpktq := tx' |>;
  q_fwd : refs_only d d';
  q_back : forall q y, procs d' !! q = Some y -> exists x r, procs d !! q = Some x /\ y = x <| ref := r |>;
  q_suf : forall u, txpktq d' !!! u `suffix_of` txpktq d !!! u;
  q_ts : (length (ts d') <= length (ts d))%nat }.
Lemma path_procs d m : exists procs' ts' tx', d <| procs := m |> = d <| procs := procs' |> <| ts := ts' |> <| txpktq := tx' |>.
Proof. exists m, (ts d), (txpktq d). by destruct d. Qed.
Lemma refs_trans d d1 d2 : refs_only d d1 -> refs_only d1 d2 -> refs_only d d2.
Proof. intros H1 H2 q x Hx Hh. destruct (H1 q x Hx Hh) as [r Hr]. destruct (H2 q _ Hr Hh) as [r' Hr']. by exists r'. Qed.
Lemma polled_refl d : polled d d.
Proof.
  constructor; try done; [exists (procs d), (ts d), (txpktq d); by destruct d|intros q x Hx _; exists (ref x); by destruct x|]. intros q y Hy. exists y, (ref y). split; [done|by destruct y].
Qed.
Lemma polled_trans d d1 d2 : polled d d1 -> polled d1 d2 -> polled d d2.
Proof.
  intros [(a & b & c & ->) A2 A3 A4 A5] [(a' & b' & c' & ->) B2 B3 B4 B5]. constructor.
  - by exists a', b', c'.
  - by eapply refs_trans.
  - intros q y Hy. destruct (B3 q y Hy) as (x & r & Hx & ->). destruct (A3 q x Hx) as (x' & r' & Hx' & ->). by exists x', r.
  - intros u. etrans; [apply B4|apply A4].
  - simpl in *. lia.
Qed.
Lemma ready_refs d d' h : refs_only d d' -> ready d h -> ready d' h.
Proof. intros H (pr & Hp & Hh & Hi & Hf). destruct (H _ _ Hp Hh) as [r Hr]. by exists (pr <| ref := r |>). Qed.
Lemma sendable_polled d d' : polled d d' -> sendable d -> sendable d'.
Proof.
  intros [_ _ Hb Hs _] H t y Hy Hq. destruct (Hb _ _ Hy) as (x & r & Hx & ->). destruct (Hs t) as [k Hk]. destruct (H t x Hx) as [H1 H2].
  { rewrite Hk. by destruct k. }
  split; [done|]. rewrite Hk in H2. by apply Forall_app in H2 as [_ H2].
Qed.

Section Bursts.
Context (pool_size : nat).
Abbreviation inv := (inv_at pool_size).

Lemma polled_put ov fl fr tg rf p d d' : inv ov fl fr tg (p :: rf) d -> proc_put p d = Some d' -> polled d d'.
Proof.
  intros V H. unfold proc_put in H. destruct (procs d !! p) as [pr|] eqn:Hp; [|done]. cbn [mbind option_bind] in H. injection H as <-.
  destruct (v_ref _ _ _ _ _ _ _ V p pr Hp) as (Hr & Hpos & Hh & Hk). rewrite occ_cons, occ_self in Hr. destruct (_ =? 0) eqn:E; (constructor; [apply path_procs|..]); try done.
  - apply Z.eqb_eq in E. intros q x Hx Hx1. exists (ref x). simpl. rewrite lookup_delete_ne; [by destruct x|]. intros ->. simplify_eq. lia.
  - simpl. intros q y [_ Hy]%lookup_delete_Some. exists y, (ref y). split; [done|by destruct y].
  - intros q x Hx _. simpl. destruct (decide (q = p)) as [-> |Hne]; [rewrite lookup_insert_eq; simplify_eq; by eexists|]. exists (ref x). rewrite lookup_insert_ne by done. by destruct x.
  - simpl. intros q y Hy. destruct (decide (q = p)) as [-> |Hne]; [rewrite lookup_insert_eq in Hy; simplify_eq; by eexists _, _|]. rewrite lookup_insert_ne in Hy by done. exists y, (ref y). split; [done|by destruct y].
Qed.
(** A kthread leaves the array. *)
Lemma unpoll_ok ov fl fr tg rf t d : inv ov fl fr tg rf d ->
  exists d', unpoll_thread t d = Some d' /\ inv ov fl fr tg rf d' /\ polled d d' /\ txpktq d' = txpktq d.
Proof.
  intros V. unfold unpoll_thread. destruct (list_find _ _) as [[k u]|] eqn:Ef; [|exists d; split; [done|]; split; [done|]; split; [apply polled_refl|done]].
  apply list_find_Some in Ef as (Hk & -> & _). pose proof (swap_remove_perm _ _ _ Hk) as Hperm. set (d1 := d <| ts := swap_remove k (ts d) |>).
  assert (inv ov fl fr tg (t.1 :: rf) d1) as V1.
  { pose proof (v_ts _ _ _ _ _ _ _ V t ltac:(by eapply list_elem_of_lookup_2)) as (pr & Hp & _). destruct V as [V1 V2 V3 V4 V5 V6 V7 V8]. constructor; try done.
    - intros q x Hx. destruct (V3 q x Hx) as [H1 H2]. split; [|done]. rewrite H1. rewrite (occ_cons q t.1 rf). simpl. rewrite <- (occ_perm q _ _ (fmap_Permutation fst _ _ Hperm)). rewrite fmap_cons, (occ_cons q t.1 (_ <$> _)). lia.
    - intros q Hq. simpl in Hq. apply elem_of_cons in Hq as [-> |Hq]; [by exists pr|by apply V4].
    - intros u Hu. apply V5. rewrite <- Hperm. by apply list_elem_of_further. }
  destruct (dp_put_ok _ _ _ _ _ _ _ _ V1) as (m & E & V2 & _). eexists. split; [exact E|]. split; [done|]. split; [|done]. apply (polled_trans _ d1); [|by apply (polled_put _ _ _ _ _ _ _ _ V1)].
  destruct (polled_refl d) as [_ P2 P3 P4 _]. constructor; try done; [exists (procs d), (swap_remove k (ts d)), (txpktq d); by destruct d|].
  simpl. apply Permutation_length in Hperm. simpl in Hperm. lia.
Qed.
(** The packets of one kthread. *)
Lemma drain_queue_ok ov fl fr tg rf t n d : inv ov fl fr tg rf d -> sendable d -> t ∈ ts d -> exists l d', tx_drain_queue t n d = Some (l, d') /\ inv ov fl fr tg rf d' /\ polled d d' /\
  (length l <= n)%nat /\ hdr <$> txpktq d !!! t = l.*2 ++ (hdr <$> txpktq d' !!! t) /\ (forall u, u <> t -> txpktq d' !!! u = txpktq d !!! u) /\ Forall (fun x => ready d' (t, x)) l.
Proof.
  revert d. induction n as [|n IH]; intros d V S Ht; cbn [tx_drain_queue]; [exists [], d; split; [done|]; split; [done|]; split; [apply polled_refl|]; split; [simpl; lia|done]|].
  destruct (v_ts _ _ _ _ _ _ _ V t Ht) as (pr & Hp & Hi). rewrite Hp. cbn [mbind option_bind]. destruct (txpktq d !!! t) as [|m q] eqn:Eq.
  { destruct (lookup_lt_is_Some_2 (thread_active pr) t.2 Hi) as [act ->]. cbn [mbind option_bind].
    assert (exists d', (if act then Some d else unpoll_thread t d) = Some d' /\ inv ov fl fr tg rf d' /\ polled d d' /\ txpktq d' = txpktq d) as (d' & -> & V' & P & E) by (destruct act; [exists d; split; [done|]; split; [done|]; split; [apply polled_refl|done]|by apply unpoll_ok]).
    exists [], d'. cbn [mbind option_bind]. rewrite E, Eq. split; [done|]. split; [done|]. split; [done|]. split; [simpl; lia|]. done. }
  destruct (S t pr Hp) as [Hh Hw]; [by rewrite Eq|]. rewrite Eq in Hw. apply Forall_cons in Hw as [(Hc & a & Ha & Hf) Hw]. rewrite Ha. rewrite option_guard_True by done. cbn [mbind option_bind].
  set (d1 := d <| txpktq := <[t := q]> (txpktq d) |>). assert (inv ov fl fr tg rf d1) as V1 by (by destruct V).
  assert (polled d d1) as P1.
  { destruct (polled_refl d) as [_ P2 P3 _ P5]. constructor; try done; [exists (procs d), (ts d), (<[t := q]> (txpktq d)); by destruct d|]. intros u. simpl. destruct (decide (u = t)) as [-> |Hne]; [|by rewrite lookup_total_insert_ne].
    rewrite lookup_total_insert_eq, Eq. by apply suffix_cons_r. }
  destruct (IH d1 V1 (sendable_polled _ _ P1 S) Ht) as (l & d' & -> & V' & P' & Hl & Hq & Hu & Hr). cbn [mbind option_bind]. exists ((a, hdr m) :: l), d'. split; [done|]. split; [done|].
  assert (polled d d') as P by (by apply (polled_trans _ d1)). split; [done|]. split; [simpl; lia|]. simpl in Hq. rewrite lookup_total_insert_eq in Hq. split; [by rewrite !fmap_cons, Hq|].
  split; [intros u Hne; rewrite Hu by done; by apply lookup_total_insert_ne|]. apply Forall_cons. split; [|done]. apply (ready_refs d); [apply P|]. by exists pr.
Qed.
Lemma of_thread_app u l k : of_thread u (l ++ k) = of_thread u l ++ of_thread u k.
Proof. unfold of_thread. by rewrite filter_app, fmap_app. Qed.
Lemma of_thread_self t l : of_thread t ((t,.) <$> l) = l.*2.
Proof. unfold of_thread. induction l as [|x l IH]; [done|]. rewrite fmap_cons, filter_cons_True by done. by rewrite !fmap_cons, IH. Qed.
Lemma of_thread_other t u l : u <> t -> of_thread u ((t,.) <$> l) = [].
Proof. intros H. unfold of_thread. induction l as [|x l IH]; [done|]. rewrite fmap_cons, filter_cons_False by (simpl; congruence). done. Qed.
Lemma poll_threads_ok ov fl fr tg rf fuel i n d : inv ov fl fr tg rf d -> sendable d -> (n <= IOKERNEL_TX_BURST_SIZE)%nat -> (length (ts d) - i < fuel)%nat ->
  exists l full d', poll_threads fuel i n d = Some (l, full, d') /\ inv ov fl fr tg rf d' /\ polled d d' /\ (n + length l <= IOKERNEL_TX_BURST_SIZE)%nat /\
    (full = true -> n + length l = IOKERNEL_TX_BURST_SIZE)%nat /\ (forall u, hdr <$> txpktq d !!! u = of_thread u l ++ (hdr <$> txpktq d' !!! u)) /\ Forall (ready d') l.
Proof.
  revert i n d. induction fuel as [|fuel IH]; intros i n d V Sd Hn Hf; [lia|]. cbn [poll_threads]. destruct (Nat.ltb_spec i (length (ts d))) as [Hi|Hi]; cbn [negb].
  2: { exists [], false, d. split; [done|]. split; [done|]. split; [apply polled_refl|]. split; [simpl; lia|]. done. }
  destruct (lookup_lt_is_Some_2 (ts d) (Z.to_nat (u32 (pos d + Z.of_nat i) mod Z.of_nat (length (ts d))))) as [t Ht].
  { pose proof (Z.mod_pos_bound (u32 (pos d + Z.of_nat i)) (Z.of_nat (length (ts d))) ltac:(lia)). lia. }
  rewrite Ht. cbn [mbind option_bind]. apply list_elem_of_lookup_2 in Ht.
  destruct (drain_queue_ok _ _ _ _ _ t (IOKERNEL_TX_BURST_SIZE - n) d V Sd Ht) as (l & d1 & -> & V1 & P1 & Hl & Hq & Hu & Hr). cbn [mbind option_bind]. rewrite length_fmap.
  assert (forall u, hdr <$> txpktq d !!! u = of_thread u ((t,.) <$> l) ++ (hdr <$> txpktq d1 !!! u)) as Hq1.
  { intros u. destruct (decide (u = t)) as [-> |Hne]; [by rewrite of_thread_self|]. by rewrite of_thread_other, Hu. }
  assert (Forall (ready d1) ((t,.) <$> l)) as Hr1 by (by apply Forall_fmap). destruct (Nat.leb_spec IOKERNEL_TX_BURST_SIZE (n + length l)) as [Hfull|Hfull].
  - exists ((t,.) <$> l), true, d1. rewrite length_fmap. split; [done|]. split; [done|]. split; [done|]. split; [lia|]. split; [lia|]. done.
  - destruct (IH (S i) (n + length l)%nat d1 V1 (sendable_polled _ _ P1 Sd)) as (r & full & d2 & -> & V2 & P2 & Hl2 & Hf2 & Hq2 & Hr2); [lia|pose proof (q_ts _ _ P1); lia|]. cbn [mbind option_bind].
    exists (((t,.) <$> l) ++ r), full, d2. rewrite length_app, length_fmap. split; [done|]. split; [done|]. split; [by apply (polled_trans _ d1)|]. split; [lia|]. split; [intros H; specialize (Hf2 H); lia|].
    split; [intros u; by rewrite Hq1, Hq2, of_thread_app, app_assoc|]. apply Forall_app. split; [|done]. eapply Forall_impl; [exact Hr1|]. intros h. apply ready_refs, P2.
Qed.

(** *** Filling buffers *)

Lemma tag_insert m b x (fl : list nat) : b ∉ fl -> tag_of (<[b := x]> m) <$> fl = tag_of m <$> fl.
Proof. intros H. apply list_fmap_ext. intros i c Hc. unfold tag_of. rewrite lookup_insert_ne; [done|]. intros <-. apply H. by eapply list_elem_of_lookup_2. Qed.
Lemma tag_insert_fst m b x (fl : list nat) : b ∉ fl -> fst ∘ tag_of (<[b := x]> m) <$> fl = fst ∘ tag_of m <$> fl.
Proof. intros H. rewrite (list_fmap_compose (tag_of (<[b := x]> m)) fst), tag_insert by done. by rewrite <- list_fmap_compose. Qed.
Record filled (l : list header) (d d' : dpath) : Prop := {
  f_refs : refs_only d d'; f_stack : stack d' = stack d; f_bufs : bufs d' = bufs d; f_nic : nic d' = nic d; f_pkts : n_pkts d' = n_pkts d; f_pos : pos d' = pos d; f_tx : txpktq d' = txpktq d;
  f_ip : ip_to_proc d' = ip_to_proc d; f_over : overflow_procs d' = overflow_procs d; f_taken : taken (log d') = taken (log d) ++ tags l; f_living : forall q ad, living q ad d -> living q ad d' }.
Lemma prepare_ok ov fl fr tg rf b h d : inv ov fl (b :: fr) tg rf d -> ready d h ->
  exists d', tx_prepare_tx_mbuf b h d = Some d' /\ inv ov (b :: fl) fr tg rf d' /\ filled [h] d d' /\ tag_of (priv d') b = (h.1.1, completion_data h.2.2) /\ forall c, c <> b -> priv d' !! c = priv d !! c.
Proof.
  intros V (pr & Hp & Hh & Hi & mb & Hf). destruct h as [[p i] [a h]]. cbn [fst snd] in *. unfold tx_prepare_tx_mbuf. cbn [fst snd]. rewrite Hp. cbn [mbind option_bind]. rewrite Hf. cbn [mbind option_bind]. unfold proc_get. simpl procs. rewrite Hp. cbn [mbind option_bind].
  eexists. split; [done|]. assert (b ∉ fl) as Hb.
  { assert (NoDup (stack d ++ fl ++ b :: fr)) as Hnd by (rewrite (v_perm _ _ _ _ _ _ _ V); apply NoDup_seq). apply NoDup_app in Hnd as (_ & _ & Hnd). apply NoDup_app in Hnd as (_ & Hd & _). intros Hin. apply (Hd b Hin). apply list_elem_of_here. }
  split; [|split; [constructor; try done|]].
  - destruct V as [V1 V2 V3 V4 V5 V6 V7 V8]. constructor; try done; simpl.
    + rewrite <- V1. clear. perm.
    + intros c [-> |Hc]%elem_of_cons; [exists p, i, (completion_data h), (pr <| ref := ref pr + 1 |>); by rewrite !lookup_insert_eq|].
      destruct (V2 c Hc) as (q & j & data & x & Hx & Hq & Hj). assert (c <> b) by (by intros ->). rewrite lookup_insert_ne by done. destruct (decide (q = p)) as [-> |Hne].
      * exists p, j, data, (pr <| ref := ref pr + 1 |>). rewrite lookup_insert_eq. by simplify_eq.
      * exists q, j, data, x. by rewrite lookup_insert_ne.
    + intros q x Hx. rewrite occ_cons. simpl. unfold tag_of at 1. rewrite lookup_insert_eq. cbn [fst]. change (list_fmap nat nat ?f fl) with (f <$> fl). rewrite tag_insert_fst by done. destruct (decide (q = p)) as [-> |Hne].
      * rewrite lookup_insert_eq in Hx. simplify_eq. simpl. rewrite occ_self. destruct (V3 p pr Hp) as (H1 & H2 & H3 & H4). split; [lia|]. split; [lia|]. done.
      * rewrite lookup_insert_ne in Hx by done. replace (occ q [p]) with 0%nat; [by apply V3|]. unfold occ. by rewrite filter_cons_False by congruence.
    + intros q Hq. destruct (decide (q = p)) as [-> |Hne]; [rewrite lookup_insert_eq; by eexists|]. rewrite lookup_insert_ne by done. by apply V4.
    + intros u Hu. destruct (V5 u Hu) as (x & Hx & Hj). destruct (decide (u.1 = p)) as [E|Hne]; [|exists x; by rewrite lookup_insert_ne]. exists (pr <| ref := ref pr + 1 |>). rewrite E in *. rewrite lookup_insert_eq. by simplify_eq.
    + rewrite V6, tag_insert by done. rewrite (otags_same _ _ pr) by done. unfold tag_of at 2. rewrite lookup_insert_eq. clear. perm.
    + destruct V7 as [Hn Hv]. split; [done|]. intros q. rewrite Hv. destruct (decide (q = p)) as [-> |Hne]; [|by rewrite lookup_insert_ne]. rewrite lookup_insert_eq. split; intros (x & Hx & H); simplify_eq; eexists; done.
    + intros q x Hx. destruct (decide (q = p)) as [-> |Hne]; [|rewrite lookup_insert_ne in Hx by done; by apply (V8 q)]. rewrite lookup_insert_eq in Hx. simplify_eq. destruct (V8 p pr Hp) as [H1 H2]. split; [done|]. by apply (routes_ext pr).
  - intros q x Hx _. simpl. destruct (decide (q = p)) as [-> |Hne]; [rewrite lookup_insert_eq; simplify_eq; by eexists|]. exists (ref x). rewrite lookup_insert_ne by done. by destruct x.
  - intros q ad (x & Hx & Hk). unfold living. simpl. destruct (decide (q = p)) as [-> |Hne]; [rewrite lookup_insert_eq; simplify_eq; by eexists|]. exists x. by rewrite lookup_insert_ne.
  - simpl. split; [unfold tag_of; by rewrite lookup_insert_eq|]. intros c Hc. by rewrite lookup_insert_ne.
Qed.
Lemma dp_filled_trans l k d d1 d2 : filled l d d1 -> filled k d1 d2 -> filled (l ++ k) d d2.
Proof. intros [A1 A2 A3 A4 A5 A6 A7 A8 A9 A10 A11] [B1 B2 B3 B4 B5 B6 B7 B8 B9 B10 B11]. constructor; try congruence; [by eapply refs_trans|unfold tags in *; by rewrite B10, A10, fmap_app, app_assoc|auto]. Qed.
Lemma dp_filled_nil d : filled [] d d.
Proof. constructor; try done; [apply polled_refl|by rewrite app_nil_r]. Qed.
Lemma prepare_all_ok ov fl fr tg rf bs hs d : inv ov fl (bs ++ fr) tg rf d -> length bs = length hs -> Forall (ready d) hs ->
  exists d', prepare_all bs (Some <$> hs) d = Some d' /\ inv ov (fl ++ bs) fr tg rf d' /\ filled hs d d' /\ tag_of (priv d') <$> bs = tags hs /\ forall c, c ∉ bs -> priv d' !! c = priv d !! c.
Proof.
  revert fl hs d. induction bs as [|b bs IH]; intros fl [|h hs] d V Hlen Hr; try done; rewrite ?fmap_cons; cbn [prepare_all]; [exists d; rewrite app_nil_r; split; [done|]; split; [done|]; split; [apply dp_filled_nil|done]|].
  apply Forall_cons in Hr as [Hh Hr]. destruct (prepare_ok _ _ _ _ _ _ _ _ V Hh) as (d1 & -> & V1 & F1 & Ht1 & Hp1). cbn [mbind option_bind].
  destruct (IH (b :: fl) hs d1 V1) as (d2 & -> & V2 & F2 & Ht2 & Hp2); [by injection Hlen|eapply Forall_impl; [exact Hr|]; intros x; apply ready_refs, F1|]. exists d2. split; [done|].
  assert (b ∉ bs) as Hb.
  { assert (NoDup (stack d ++ fl ++ (b :: bs) ++ fr)) as Hnd by (rewrite (v_perm _ _ _ _ _ _ _ V); apply NoDup_seq). apply NoDup_app in Hnd as (_ & _ & Hnd). apply NoDup_app in Hnd as (_ & _ & Hnd). apply NoDup_app in Hnd as (Hnd & _). by apply NoDup_cons in Hnd as [Hnd _]. }
  split; [apply (inv_perm _ _ _ _ _ _ _ _ _ _ V2); [done|simpl; by rewrite Permutation_middle|done]|]. split; [by apply (dp_filled_trans [h] hs _ d1)|]. split.
  - rewrite fmap_cons, Ht2. unfold tags. rewrite fmap_cons. f_equal. rewrite <- Ht1. unfold tag_of. by rewrite Hp2.
  - intros c Hc. rewrite not_elem_of_cons in Hc. destruct Hc as [Hc1 Hc2]. rewrite Hp2 by done. by apply Hp1.
Qed.

(** *** One burst *)

Context (rxq_size : nat) (add_core : nat -> dpath -> dpath) (ring : nat).
Hypothesis add_core_ok : forall p d, sched_pre d -> sched_only d (add_core p d).
Hypothesis pool_enough : (ring + IOKERNEL_TX_BURST_SIZE <= pool_size)%nat.

(** Between handlers: the buffers in use are with the card, in order, then wait for it. *)
Record dp_inv (d : dpath) : Prop := {
  i_at : inv (overflow_procs d) (nic d ++ bufs d) [] [] [] d; i_pkts : n_pkts d = length (bufs d); i_burst : (n_pkts d <= IOKERNEL_TX_BURST_SIZE)%nat; i_ring : (length (nic d) <= ring)%nat;
  i_ip : forall ip p, ip_to_proc d !! ip = Some p -> living p ip d }.
Definition wire (d : dpath) : list (nat * Z) := tag_of (priv d) <$> (nic d ++ bufs d).

Lemma dequeue_ok ov fl tg rf n d : inv ov fl [] tg rf d -> (n + length fl <= pool_size)%nat ->
  exists new d', completion_dequeue n d = (Some new, d') /\ length new = n /\ inv ov fl new tg rf d' /\ d' = d <| stack := stack d' |>.
Proof.
  intros V Hn. unfold completion_dequeue. pose proof (Permutation_length (v_perm _ _ _ _ _ _ _ V)) as Hlen. rewrite !length_app, length_seq in Hlen. simpl in Hlen.
  destruct (Nat.ltb_spec (length (stack d)) n) as [H|H]; [lia|]. eexists _, _. split; [done|]. split; [rewrite length_drop; lia|]. split; [|done]. destruct V as [V1 V2 V3 V4 V5 V6 V7 V8]. constructor; try done.
  simpl. rewrite <- V1. set (k := (length (stack d) - n)%nat). rewrite <- (take_drop k (stack d)) at 3. clear. perm.
Qed.
Lemma eth_burst_ok reclaim accept new d : inv (overflow_procs d) (nic d ++ bufs d ++ new) [] [] [] d -> (length (nic d) - reclaim + accept <= ring)%nat ->
  exists k d', eth_tx_burst rxq_size add_core pool_size reclaim accept (bufs d ++ new) d = Some (k, d') /\ (k <= length (bufs d ++ new))%nat /\
    nic d' = drop reclaim (nic d) ++ take k (bufs d ++ new) /\ inv (overflow_procs d') (nic d' ++ drop k (bufs d ++ new)) [] [] [] d' /\ (length (nic d') <= ring)%nat /\
    (forall q ad, living q ad d -> living q ad d') /\ txpktq d' = txpktq d /\ ip_to_proc d' = ip_to_proc d /\ priv d' = priv d /\ taken (log d') = taken (log d).
Proof.
  intros V Hring. unfold eth_tx_burst. set (d0 := d <| nic := drop reclaim (nic d) |>). assert (inv (overflow_procs d0) (take reclaim (nic d) ++ drop reclaim (nic d) ++ bufs d ++ new) [] [] [] d0) as V0.
  { rewrite app_assoc, take_drop. by destruct V. }
  destruct (enqueue_ok rxq_size add_core pool_size add_core_ok _ _ _ _ _ V0) as (d1 & -> & V1 & L1 & E1 & E2 & E3 & E4 & E5 & E6 & E7 & E8 & E9). cbn [mbind option_bind]. set (k := Nat.min accept _).
  eexists k, _. split; [done|]. split; [lia|]. simpl. rewrite E3. simpl. split; [done|]. split.
  - rewrite <- app_assoc. rewrite take_drop. by destruct V1.
  - rewrite length_app, length_drop, length_take. split; [lia|]. done.
Qed.
Definition burst_done (reclaim : nat) (d d' : dpath) : Prop := exists l k,
  (forall u, hdr <$> txpktq d !!! u = of_thread u l ++ (hdr <$> txpktq d' !!! u)) /\ taken (log d') = taken (log d) ++ tags l /\ (k <= reclaim)%nat /\ wire d' = drop k (wire d) ++ tags l.
Lemma tags_unused m m' (l new : list nat) : (forall c, c ∉ new -> m' !! c = m !! c) -> (forall b, b ∈ l -> b ∉ new) -> tag_of m' <$> l = tag_of m <$> l.
Proof. intros H Hn. apply list_fmap_ext. intros i b Hb. unfold tag_of. rewrite H; [done|]. apply Hn. by eapply list_elem_of_lookup_2. Qed.
(** From the packets that were taken on. *)
Lemma send_burst_ok reclaim accept l d : inv (overflow_procs d) (nic d ++ bufs d) [] [] [] d -> (length (nic d) <= ring)%nat -> (forall ip p, ip_to_proc d !! ip = Some p -> living p ip d) -> (length (bufs d) + length l <= IOKERNEL_TX_BURST_SIZE)%nat -> Forall (ready d) l -> (length (nic d) - reclaim + accept <= ring)%nat ->
  exists new d1 d2 k d3, (if (0 <? length l)%nat then completion_dequeue (length l) d else (Some [], d)) = (Some new, d1) /\ bufs d1 = bufs d /\ prepare_all new (Some <$> l) d1 = Some d2 /\ bufs d2 = bufs d /\
    eth_tx_burst rxq_size add_core pool_size reclaim accept (bufs d ++ new) d2 = Some (k, d3) /\ dp_inv (d3 <| bufs := drop k (bufs d ++ new) |> <| n_pkts := (length (bufs d) + length l - k)%nat |>) /\
    txpktq d3 = txpktq d /\ taken (log d3) = taken (log d) ++ tags l /\ tag_of (priv d3) <$> nic d3 ++ drop k (bufs d ++ new) = drop reclaim (tag_of (priv d) <$> nic d) ++ (tag_of (priv d) <$> bufs d) ++ tags l.
Proof.
  intros V Hr Hip Hl Hready Hring.
  assert (exists new d1, (if (0 <? length l)%nat then completion_dequeue (length l) d else (Some [], d)) = (Some new, d1) /\ length new = length l /\ inv (overflow_procs d) (nic d ++ bufs d) new [] [] d1 /\ d1 = d <| stack := stack d1 |>) as (new & d1 & E1 & Hnew & V1 & Ed1).
  { destruct (Nat.ltb_spec 0 (length l)) as [Hpos|Hz]; [apply (dequeue_ok _ _ _ _ _ _ V); rewrite length_app; lia|]. exists [], d. split; [done|]. split; [simpl; lia|]. split; [done|by destruct d]. }
  exists new, d1. rewrite <- (app_nil_r new) in V1. destruct (prepare_all_ok _ _ _ _ _ new l d1 V1 Hnew) as (d2 & E2 & V2 & F2 & Ht & Hp); [by rewrite Ed1|]. destruct F2 as [F1 F2 F3 F4 F5 F6 F7 F8 F9 F10 F11].
  assert (bufs d2 = bufs d /\ nic d2 = nic d /\ txpktq d2 = txpktq d /\ ip_to_proc d2 = ip_to_proc d /\ overflow_procs d2 = overflow_procs d /\ taken (log d2) = taken (log d) ++ tags l) as (G1 & G2 & G3 & G4 & G5 & G6).
  { rewrite F3, F4, F7, F8, F9, F10, Ed1. done. }
  rewrite <- app_assoc in V2. rewrite <- G5, <- G2, <- G1 in V2. destruct (eth_burst_ok reclaim accept new d2 V2) as (k & d3 & E3 & Hk & En & V3 & Hr3 & L3 & H1 & H2 & H3 & H4); [by rewrite G2|]. rewrite G1 in *. exists d2, k, d3.
  split; [done|]. split; [by rewrite Ed1|]. split; [done|]. split; [done|]. split; [done|]. split; [|split; [congruence|]; split; [congruence|]].
  - constructor; [by destruct V3|simpl; rewrite length_drop, length_app, Hnew; done|simpl; lia|done|]. simpl. intros ip p. rewrite H2, G4. intros Hp'. apply L3. apply F11. rewrite Ed1. by apply Hip in Hp'.
  - assert (forall b, b ∈ nic d ++ bufs d -> b ∉ new) as Hdis.
    { assert (NoDup (stack d1 ++ (nic d ++ bufs d) ++ new ++ [])) as Hnd by (rewrite (v_perm _ _ _ _ _ _ _ V1); apply NoDup_seq). rewrite app_nil_r in Hnd. apply NoDup_app in Hnd as (_ & _ & Hnd). by apply NoDup_app in Hnd as (_ & Hnd & _). }
    assert (priv d1 = priv d) as Ep by (by rewrite Ed1). rewrite Ep in Hp. rewrite En, G2, H3, <- app_assoc, take_drop. rewrite !fmap_app, Ht. rewrite <- fmap_drop.
    rewrite !(tags_unused (priv d) (priv d2) _ new); [done|done|set_solver|done|]. intros b Hb'. apply Hdis. apply elem_of_app. left. apply (subseteq_drop reclaim _ b Hb').
Qed.
Lemma tx_burst_ok reclaim accept d : dp_inv d -> sendable d -> (length (nic d) - reclaim + accept <= ring)%nat ->
  exists r d', tx_burst rxq_size add_core pool_size reclaim accept d = Some (r, d') /\ dp_inv d' /\ burst_done reclaim d d'.
Proof.
  intros D S Hring. unfold tx_burst. pose proof D as [V Hn Hb Hr Hip].
  destruct (poll_threads_ok _ _ _ _ _ (Datatypes.S (length (ts d))) 0 (n_pkts d) d V S) as (l & full & d1 & -> & V1 & P1 & Hl & Hf & Hq & Hready); [lia|lia|]. cbn [mbind option_bind].
  assert (dp_inv d1) as D1.
  { destruct (q_path _ _ P1) as (a & b & c & E). constructor; [rewrite E; by rewrite E in V1|by rewrite E|by rewrite E|by rewrite E|]. rewrite E. simpl. intros ip p Hp. destruct (Hip ip p Hp) as (x & Hx & Hk & Hi).
    destruct (q_fwd _ _ P1 p x Hx) as [r' Hr']; [by apply (v_ref _ _ _ _ _ _ _ V p x)|]. rewrite E in Hr'. by eexists. }
  destruct (q_path _ _ P1) as (pm & tm & qm & Ep). assert (n_pkts d1 = n_pkts d /\ bufs d1 = bufs d /\ nic d1 = nic d /\ priv d1 = priv d /\ log d1 = log d) as (G1 & G2 & G3 & G4 & G5) by (by rewrite Ep).
  clear Ep. rewrite G1, G2, Hn, Nat.sub_diag. cbn [replicate app]. set (n := (length (bufs d) + length l)%nat). destruct (negb full && (n =? 0)%nat) eqn:Ez.
  - apply andb_true_iff in Ez as [_ Ez]. apply Nat.eqb_eq in Ez. eexists _, _. split; [done|]. assert (bufs d = [] /\ l = []) as [Ebufs ->] by (split; apply nil_length_inv; lia). split.
    + destruct D1 as [X1 X2 X3 X4 X5]. constructor; [by destruct X1|simpl; rewrite G2, Ez, Ebufs; done|simpl; rewrite Ez; lia|done|done].
    + exists [], 0%nat. simpl. rewrite G5, app_nil_r. split; [done|]. split; [done|]. split; [lia|]. unfold wire. simpl. by rewrite G4, G3, G2, app_nil_r.
  - set (d2 := if full then d1 <| n_pkts := n |> else d1 <| n_pkts := n |> <| pos := u32 (pos (d1 <| n_pkts := n |>) + 1) |>).
    assert (exists x y, d2 = d1 <| n_pkts := x |> <| pos := y |>) as (x & y & E2) by (unfold d2; destruct full; [exists n, (pos d1); by destruct d1|by eexists _, _]).
    assert (inv (overflow_procs d2) (nic d2 ++ bufs d2) [] [] [] d2 /\ bufs d2 = bufs d /\ nic d2 = nic d /\ priv d2 = priv d /\ log d2 = log d /\ txpktq d2 = txpktq d1) as (V2 & M2 & M3 & M4 & M5 & M6) by (rewrite E2; split; [by destruct D1 as [[]]|done]).
    assert (forall ip p, ip_to_proc d2 !! ip = Some p -> living p ip d2) as Hip2 by (rewrite E2; apply D1).
    destruct (send_burst_ok reclaim accept l d2 V2) as (new & d3 & d4 & k & d5 & Z1 & Z2 & Z3 & Z4 & Z5 & Z6 & Z7 & Z8 & Z9); [by rewrite M3|done|by rewrite M2, <- Hn|by rewrite E2|by rewrite M3|].
    rewrite M2. replace (n - length (bufs d))%nat with (length l) by lia. rewrite Z1. rewrite Z3. cbn [mbind option_bind]. rewrite Z4, Z5. cbn [mbind option_bind]. rewrite M2 in *. eexists _, _. split; [done|]. split; [done|].
    exists l, (Nat.min reclaim (length (nic d))). simpl. rewrite Z7, Z8, M6, M5. split; [done|]. split; [done|]. split; [lia|]. unfold wire. simpl. rewrite Z9, M4, M3, fmap_app.
    destruct (Nat.le_ge_cases reclaim (length (nic d))) as [Hle|Hge].
    + rewrite Nat.min_l by done. by rewrite drop_app_le, app_assoc by (by rewrite length_fmap).
    + rewrite Nat.min_r by done. rewrite drop_ge by (by rewrite length_fmap). rewrite drop_app_length'; [done|by rewrite length_fmap].
Qed.
End Bursts.
