(* ===== verification/IoDataPath.v ===== *)
(** * The data path of the I/O kernel: its runs

    The loop of [iokernel/main.c] as a transition system over IoData: its handlers in any
    order, the runtimes, the scheduler, and clients that come and go.  Every handler returns
    in every state that can be reached, transmit buffers and completions are accounted for,
    and received packets go where they should. *)

From S2P Require Import Prelude StdDef Bags IoSched IoData IoDataSpec IoDataRun.

Section Runs.
Context (rxq_size : nat) (add_core detach : nat -> dpath -> dpath) (pool_size ring : nat).
Hypothesis add_core_ok : forall p d, sched_pre d -> sched_only d (add_core p d).
Hypothesis detach_ok : forall p d, sched_pre d -> sched_only d (detach p d).
Hypothesis pool_enough : (ring + IOKERNEL_TX_BURST_SIZE <= pool_size)%nat.
Abbreviation inv := (inv_at pool_size).
Abbreviation dp_ok := (dp_inv pool_size ring).

Lemma dp_keeps d d' : dp_ok d -> keeps d d' -> inv (overflow_procs d') (nic d ++ bufs d) [] [] [] d' -> dp_ok d'.
Proof.
  intros [D1 D2 D3 D4 D5] [K1 K2 K3 K4 K5 K6 K7 K8 K9 K10] V. constructor; [by rewrite K6, K3|by rewrite K4, K3|by rewrite K4|by rewrite K6|]. intros ip p. rewrite K8. intros Hp. apply K10. by apply D5.
Qed.

(** ** Completions that waited *)

Definition with_waiting (p : nat) (d : dpath) (ov : list nat) : list nat :=
  match procs d !! p with Some pr => if bool_decide (overflow_queue pr = []) then ov else p :: ov | None => ov end.
Lemma waiting_change ov fl fr tg tg' rf d p pr pr' : p ∉ ov -> inv (with_waiting p d ov) fl fr tg rf d -> procs d !! p = Some pr -> kill pr = false ->
  same_proc (pr <| next_thread_rr := next_thread_rr pr' |> <| overflow_queue := overflow_queue pr' |>) pr' -> routes pr' -> held pr' = held pr -> ref pr' = ref pr ->
  (length (overflow_queue pr') <= max_overflows pr')%nat -> own_tags (p, pr) ++ tg ≡ₚ own_tags (p, pr') ++ tg' ->
  inv (with_waiting p (put_proc p pr' d) ov) fl fr tg' rf (put_proc p pr' d).
Proof.
  intros Hov V Hp Hk Hs Hrt Hh Hr Hlen Htg. assert (kill pr' = false) as Hk' by (by rewrite (s_kill _ _ Hs)). apply (inv_proc pool_size (with_waiting p d ov) _ fl fr tg tg' rf rf d p pr pr'); try done; [|lia|rewrite Hr; by apply (v_ref _ _ _ _ _ _ _ V p pr)].
  unfold with_waiting in *. simpl. rewrite lookup_insert_eq. rewrite Hp in *. assert (NoDup ov) as Hn by (destruct (v_over _ _ _ _ _ _ _ V) as [Hn _]; case_bool_decide; [done|by apply NoDup_cons in Hn as [_ Hn]]). clear V.
  split; [case_bool_decide; [done|by constructor]|]. split; [intros q Hq; repeat case_bool_decide; set_solver|]. rewrite Hk'. case_bool_decide as E; split; [done|by intros [_ H]|by split|]. intros _. apply list_elem_of_here.
Qed.
Lemma drain_overflow_ok p n ov fl fr tg rf ad d : p ∉ ov -> inv (with_waiting p d ov) fl fr tg rf d -> living p ad d ->
  exists k d', drain_overflow_queue rxq_size add_core p n d = Some (k, d') /\ (k <= n)%nat /\ inv (with_waiting p d' ov) fl fr tg rf d' /\ keeps d d'.
Proof.
  intros Hov. revert d. induction n as [|n IH]; intros d V L; cbn [drain_overflow_queue]; [exists 0%nat, d; split; [done|]; split; [done|]; split; [done|apply dp_keeps_refl]|].
  destruct L as (pr & Hp & Hk & Had). rewrite Hp. cbn [mbind option_bind]. destruct (last (overflow_queue pr)) as [data|] eqn:El; [|exists 0%nat, d; split; [done|]; split; [lia|]; split; [done|apply dp_keeps_refl]].
  apply last_Some in El as [q Eq]. destruct (v_cap _ _ _ _ _ _ _ V p pr Hp) as [Hcap Hrt]. assert (take (length (overflow_queue pr) - 1) (overflow_queue pr) = q) as Et by (rewrite Eq, length_app; simpl; rewrite Nat.add_sub; by rewrite take_app_length). rewrite Et.
  set (pr1 := pr <| next_thread_rr := _ |> <| overflow_queue := q |>). set (d1 := put_proc p pr1 d).
  assert (inv (with_waiting p d1 ov) fl fr ((p, data) :: tg) rf d1) as V1.
  { apply (waiting_change ov fl fr tg _ rf d p pr pr1 Hov V Hp Hk); try done; [by apply (routes_ext pr)|simpl; rewrite Eq, length_app in Hcap; simpl in Hcap; lia|]. unfold own_tags. simpl. rewrite Hk, Eq, fmap_app. simpl. by rewrite <- app_assoc. }
  destruct (dp_send_ok rxq_size add_core pool_size add_core_ok _ fl fr tg rf p pr1 (next_thread_rr pr) (RX_NET_COMPLETE data) d1 V1) as (ok & d2 & pr2 & -> & V2 & K2 & Hp2 & S2 & _); [simpl; by rewrite lookup_insert_eq|done|]. cbn [mbind option_bind].
  assert (keeps d d2) as K by (apply (dp_keeps_trans _ d1); [by apply (keeps_proc _ p pr)|done]).
  assert (with_waiting p d2 ov = with_waiting p d1 ov) as Ew by (unfold with_waiting; rewrite Hp2; simpl; rewrite lookup_insert_eq; by rewrite (s_over _ _ S2)). rewrite <- Ew in V2. destruct ok.
  - destruct (IH d2 V2) as (k & d3 & -> & Hk3 & V3 & K3); [apply K; by exists pr|]. cbn [mbind option_bind]. exists (S k), d3. split; [done|]. split; [lia|]. split; [done|]. by apply (dp_keeps_trans _ d2).
  - rewrite Hp2. cbn [mbind option_bind]. assert (kill pr2 = false) as Hk2 by (by rewrite (s_kill _ _ S2)). assert (overflow_queue pr2 = q) as Eq2 by (by rewrite (s_over _ _ S2)). eexists 0%nat, _. split; [done|]. split; [lia|].
    split; [|apply (dp_keeps_trans _ d2); [done|by apply (keeps_proc _ p pr2)]]. apply (waiting_change ov fl fr _ _ rf d2 p pr2 _ Hov V2 Hp2 Hk2); try done.
    + apply (routes_ext pr2); [|done..]. by apply (v_cap _ _ _ _ _ _ _ V2 p pr2).
    + simpl. rewrite (s_max _ _ S2), Eq2. simpl. by rewrite <- Eq.
    + unfold own_tags. simpl. rewrite Hk2, fmap_app. simpl. by rewrite <- app_assoc.
Qed.
Lemma drain_procs_ok l drained don fl fr tg rf d : inv (l ++ don) fl fr tg rf d ->
  exists k l' don' d', drain_procs rxq_size add_core l drained don d = Some (k, l', don', d') /\ inv (l' ++ don') fl fr tg rf d' /\ keeps d d'.
Proof.
  revert drained don d. induction l as [|p l IH]; intros drained don d V; cbn [drain_procs]; [eexists _, _, _, _; split; [done|]; split; [done|apply dp_keeps_refl]|].
  destruct (v_over _ _ _ _ _ _ _ V) as [Hn Hv]. destruct (proj1 (Hv p) ltac:(apply list_elem_of_here)) as (pr & Hp & Hk & Hq). simpl in Hn. apply NoDup_cons in Hn as [Hnp Hn].
  assert (with_waiting p d (l ++ don) = p :: l ++ don) as Ew by (unfold with_waiting; rewrite Hp; by rewrite bool_decide_eq_false_2).
  destruct (drain_overflow_ok p (IOKERNEL_OVERFLOW_BATCH_DRAIN - drained) (l ++ don) fl fr tg rf (ip_addr pr) d Hnp) as (k & d1 & -> & Hkn & V1 & K1); [by rewrite Ew|by exists pr|]. cbn [mbind option_bind].
  destruct (p_living _ _ K1 p (ip_addr pr) ltac:(by exists pr)) as (pr1 & Hp1 & Hk1). rewrite Hp1. cbn [mbind option_bind]. set (don1 := if bool_decide _ then _ else _).
  assert (inv (l ++ don1) fl fr tg rf d1) as V2.
  { apply (inv_perm _ _ _ _ _ _ _ _ _ _ V1); [|done|done]. unfold with_waiting, don1. rewrite Hp1. case_bool_decide; [done|]. rewrite app_assoc. by rewrite Permutation_cons_append. }
  destruct (_ <=? _)%nat; [by eexists _, _, _, _|]. destruct (IH (drained + k)%nat don1 d1 V2) as (k' & l' & don' & d2 & -> & V3 & K3). eexists _, _, _, _. split; [done|]. split; [done|]. by apply (dp_keeps_trans _ d1).
Qed.
Lemma drain_completions_ok d : dp_ok d -> exists r d', tx_drain_completions rxq_size add_core d = Some (r, d') /\ dp_ok d'.
Proof.
  intros D. unfold tx_drain_completions. destruct (drain_procs_ok (overflow_procs d) 0 [] (nic d ++ bufs d) [] [] [] d) as (k & l & don & d1 & -> & V & K); [rewrite app_nil_r; apply D|]. cbn [mbind option_bind]. eexists _, _. split; [done|].
  apply (dp_keeps d); [done|apply (dp_keeps_trans _ d1); [done|apply keeps_over]|by apply inv_over].
Qed.

(** ** Received packets *)

Definition recv_buf (x : tref * rxmsg) : option nat := match x.2 with RX_NET_RECV h => Some (rx_completion_data h) | RX_NET_COMPLETE _ => None end.
(** A message for the process with the address of a packet, with the packet. *)
Definition delivered (d : dpath) (b : rx_mbuf) (x : tref * rxmsg) : Prop :=
  exists dst h, rx_dst b = Some dst /\ ip_to_proc d !! dst = Some x.1.1 /\ x.2 = RX_NET_RECV h /\ rx_completion_data h = buf_id b /\ rx_len h = u32 (pkt_len b) /\ rss_hash h = hash_rss b.
Lemma preamble_len b : rx_len (rx_prepend_rx_preamble b) = u32 (pkt_len b).
Proof. unfold rx_prepend_rx_preamble, u32. cbn [rx_len]. rewrite Zminus_mod_idemp_l. f_equal. lia. Qed.
Definition outcome (d : dpath) (b : rx_mbuf) (up : list (tref * rxmsg)) (fr : list nat) : Prop := (up = [] /\ fr = [buf_id b]) \/ (exists x, up = [x] /\ fr = [] /\ delivered d b x).
Lemma rx_one_ok b d : dp_ok d -> exists d' up fr, rx_one_pkt rxq_size add_core b d = Some d' /\ dp_ok d' /\ ip_to_proc d' = ip_to_proc d /\
  sent_up (log d') = sent_up (log d) ++ up /\ rx_freed d' = rx_freed d ++ fr /\ outcome d b up fr.
Proof.
  intros D. assert (forall d1, dp_ok d1 -> dp_ok (rx_free b d1)) as Hfree by (intros d1 []; constructor; try done; by destruct i_at).
  assert (exists up fr, rx_free b d = rx_free b d /\ sent_up (log (rx_free b d)) = sent_up (log d) ++ up /\ rx_freed (rx_free b d) = rx_freed d ++ fr /\ outcome d b up fr) as (up & fr & Hd) by (exists [], [buf_id b]; rewrite app_nil_r; repeat split; by left).
  unfold rx_one_pkt. destruct (rx_dst b) as [dst|] eqn:Edst; [|exists (rx_free b d), up, fr; split; [done|]; split; [by apply Hfree|]; split; [done|]; apply Hd]. destruct (ip_to_proc d !! dst) as [p|] eqn:Ep; [|exists (rx_free b d), up, fr; split; [done|]; split; [by apply Hfree|]; split; [done|]; apply Hd].
  clear up fr Hd. destruct (i_ip _ _ _ D dst p Ep) as (pr & Hp & Hk & _). set (h := rx_prepend_rx_preamble b).
  destruct (dp_send_ok rxq_size add_core pool_size add_core_ok (overflow_procs d) (nic d ++ bufs d) [] [] [] p pr (rss_hash h) (RX_NET_RECV h) d) as (ok & d1 & pr1 & E & V1 & K1 & _ & _ & Eo & i & Hs & Hf); [apply D|done|done|].
  rewrite E. cbn [mbind option_bind]. assert (dp_ok d1) as D1 by (apply (dp_keeps d); [done|done|rewrite Eo; by destruct ok]). destruct ok.
  - exists d1, [((p, i), RX_NET_RECV h)], []. split; [done|]. split; [done|]. split; [apply K1|]. split; [done|]. split; [by rewrite Hf, app_nil_r|]. right. eexists. split; [done|]. split; [done|]. exists dst, h. split; [done|]. split; [done|]. split; [done|]. split; [done|]. split; [apply preamble_len|done].
  - exists (rx_free b d1), [], [buf_id b]. split; [done|]. split; [by apply Hfree|]. split; [apply K1|]. split; [done|]. split; [simpl; by rewrite Hf|]. by left.
Qed.
Lemma rx_burst_ok l d : dp_ok d -> exists d' up fr, rx_burst rxq_size add_core l d = Some d' /\ dp_ok d' /\ sent_up (log d') = sent_up (log d) ++ up /\ rx_freed d' = rx_freed d ++ fr /\
  buf_id <$> l ≡ₚ omap recv_buf up ++ fr /\ omap recv_buf up `sublist_of` (buf_id <$> l) /\ Forall (fun x => exists b, b ∈ l /\ delivered d b x) up.
Proof.
  revert d. induction l as [|b l IH]; intros d D; cbn [rx_burst]; [exists d, [], []; rewrite !app_nil_r; done|]. destruct (rx_one_ok b d D) as (d1 & up1 & fr1 & -> & D1 & Eip & Es & Ef & Ho). cbn [mbind option_bind].
  destruct (IH d1 D1) as (d2 & up & fr & -> & D2 & Es2 & Ef2 & Hp & Hsub & Hall). exists d2, (up1 ++ up), (fr1 ++ fr). split; [done|]. split; [done|]. split; [by rewrite Es2, Es, app_assoc|]. split; [by rewrite Ef2, Ef, app_assoc|].
  assert (Forall (fun x => exists c, c ∈ b :: l /\ delivered d c x) up) as Hall'.
  { eapply Forall_impl; [exact Hall|]. intros x (c & Hc & Hx). exists c. split; [by apply list_elem_of_further|]. unfold delivered in *. by rewrite <- Eip. }
  destruct Ho as [[-> ->]|(x & -> & -> & Hx)]; cbn [app].
  - split; [rewrite fmap_cons, Hp; perm|]. split; [by apply sublist_cons|done].
  - pose proof Hx as (dst & h & _ & _ & Eh & Eb & _). assert (recv_buf x = Some (buf_id b)) as Er by (unfold recv_buf; by rewrite Eh, Eb). cbn [omap list_omap]. rewrite Er. split; [rewrite fmap_cons, Hp; done|].
    split; [by apply sublist_skip|]. apply Forall_cons. split; [|done]. exists b. split; [apply list_elem_of_here|done].
Qed.

(** ** Commands *)

Lemma commands_drain_spec t n d : let '(l, d') := commands_drain_queue t n d in d' = d <| txcmdq := txcmdq d' |> /\ (length l <= n)%nat.
Proof.
  revert d. induction n as [|n IH]; intros d; cbn [commands_drain_queue]; [split; [by destruct d|done]|]. destruct (txcmdq d !!! t) as [|b q]; [split; [by destruct d|simpl; lia]|].
  specialize (IH (d <| txcmdq := <[t := q]> (txcmdq d) |>)). destruct (commands_drain_queue t n _) as [l d']. destruct IH as [-> IH]. split; [done|simpl; lia].
Qed.
Lemma commands_poll_spec l n d : (l <> [] -> ts d <> []) -> (n <= IOKERNEL_CMD_BURST_SIZE)%nat -> exists bs d', commands_poll l n d = Some (bs, d') /\ d' = d <| txcmdq := txcmdq d' |> /\ (n + length bs <= IOKERNEL_CMD_BURST_SIZE)%nat.
Proof.
  revert n d. induction l as [|i l IH]; intros n d Hts Hn; cbn [commands_poll]; [exists [], d; split; [done|]; split; [by destruct d|simpl; lia]|]. destruct (_ <=? _)%nat; [exists [], d; split; [done|]; split; [by destruct d|simpl; lia]|].
  assert (0 < length (ts d))%nat as Hpos by (destruct (ts d); [by destruct Hts|simpl; lia]). destruct (lookup_lt_is_Some_2 (ts d) (Z.to_nat (u32 (cmd_pos d + Z.of_nat i) mod Z.of_nat (length (ts d))))) as [t ->].
  { pose proof (Z.mod_pos_bound (u32 (cmd_pos d + Z.of_nat i)) (Z.of_nat (length (ts d))) ltac:(lia)). lia. }
  cbn [mbind option_bind]. pose proof (commands_drain_spec t (IOKERNEL_CMD_BURST_SIZE - n) d) as H. destruct (commands_drain_queue _ _ _) as [bs d1]. destruct H as [E Hl]. destruct (IH (n + length bs)%nat d1) as (r & d2 & -> & E2 & Hl2); [rewrite E; intros _; destruct (ts d) eqn:Et; [simpl in Hpos; lia|simpl; by rewrite Et]|lia|].
  cbn [mbind option_bind]. exists (bs ++ r), d2. split; [done|]. rewrite length_app. split; [|lia]. rewrite E2, E. by destruct d.
Qed.
Lemma commands_rx_ok d : dp_ok d -> exists r d' bs, commands_rx d = Some (r, d') /\ dp_ok d' /\ rx_freed d' = rx_freed d ++ bs /\ (length bs <= IOKERNEL_CMD_BURST_SIZE)%nat.
Proof.
  intros D. unfold commands_rx. destruct (commands_poll_spec (seq 0 (length (ts d))) 0 d) as (bs & d1 & -> & E & Hl); [by destruct (ts d)|unfold IOKERNEL_CMD_BURST_SIZE; lia|]. cbn [mbind option_bind]. eexists _, _, bs. split; [done|].
  split; [|split; [by rewrite E|lia]]. revert E. generalize (txcmdq d1). intros x ->. destruct D as [[] D2 D3 D4 D5]. by constructor; [constructor|..].
Qed.

(** ** Clients *)

Lemma inv_kill fl fr tg rf d p pr : inv (overflow_procs d) fl fr tg rf d -> procs d !! p = Some pr -> kill pr = false ->
  inv (filter (fun q => q <> p) (overflow_procs d)) fl fr tg (p :: rf) (note (drop_waiting p pr) (put_proc p (pr <| kill := true |> <| held := held pr - 1 |>) d)).
Proof.
  intros [V1 V2 V3 V4 V5 V6 V7 V8] Hp Hk. set (pr' := pr <| kill := true |> <| held := held pr - 1 |>).
  assert (forall q x, procs d !! q = Some x -> exists y, <[p := pr']> (procs d) !! q = Some y /\ thread_count y = thread_count x) as Hkeep.
  { intros q x Hx. destruct (decide (q = p)) as [-> |Hne]; [exists pr'; rewrite lookup_insert_eq; by simplify_eq|]. exists x. by rewrite lookup_insert_ne. }
  constructor; try done; simpl.
  - intros b Hb. destruct (V2 b Hb) as (q & i & data & x & H1 & H2 & H3). destruct (Hkeep q x H2) as (y & Hy & Ey). exists q, i, data, y. split; [done|]. split; [done|]. by rewrite Ey.
  - intros q x Hx. rewrite (occ_cons q p rf). destruct (decide (q = p)) as [-> |Hne].
    + rewrite lookup_insert_eq in Hx. simplify_eq. simpl. rewrite occ_self. destruct (V3 p pr Hp) as (H1 & H2 & H3 & H4). specialize (H4 Hk). split; [lia|]. split; [done|]. split; [lia|done].
    + rewrite lookup_insert_ne in Hx by done. replace (occ q [p]) with 0%nat; [by apply V3|]. unfold occ. by rewrite filter_cons_False by congruence.
  - intros q Hq. destruct (decide (q = p)) as [-> |Hne]; [rewrite lookup_insert_eq; by eexists|]. rewrite lookup_insert_ne by done. apply V4. set_solver.
  - intros u Hu. destruct (V5 u Hu) as (x & Hx & Hi). destruct (Hkeep u.1 x Hx) as (y & Hy & Ey). exists y. split; [done|]. by rewrite Ey.
  - rewrite V6. pose proof (otags_update (procs d) p pr pr' Hp) as Ho. unfold own_tags in Ho at 2. simpl in Ho. unfold own_tags in Ho. simpl in Ho. rewrite Hk in Ho. revert Ho. generalize ((p,.) <$> overflow_queue pr) (otags (procs d)) (otags (<[p := pr']> (procs d))). clear. intros A O O' H. rewrite <- H. perm.
  - destruct V7 as [Hn Hv]. split; [by apply NoDup_filter|]. intros q. rewrite list_elem_of_filter, Hv. destruct (decide (q = p)) as [-> |Hne]; [rewrite lookup_insert_eq|by rewrite lookup_insert_ne; [naive_solver|]].
    split; [by intros [H _]|]. intros (x & Hx & Hkx & _). by simplify_eq.
  - intros q x Hx. destruct (decide (q = p)) as [-> |Hne]; [|rewrite lookup_insert_ne in Hx by done; by apply (V8 q)]. rewrite lookup_insert_eq in Hx. simplify_eq. destruct (V8 p pr Hp) as [H1 H2]. split; [done|]. by apply (routes_ext pr).
Qed.
Lemma filter_keeps p (l : list nat) : (forall q, q ∈ l -> q <> p) -> filter (fun q => q <> p) l = l.
Proof. induction l as [|x l IH]; intros H; [done|]. rewrite filter_cons_True by (apply H, list_elem_of_here). f_equal. apply IH. intros q Hq. apply H. by apply list_elem_of_further. Qed.
Lemma dp_remove_client_ok p d : dp_ok d -> exists d', remove_client detach p d = Some d' /\ dp_ok d'.
Proof.
  intros D. unfold remove_client. destruct (procs d !! p) as [pr|] eqn:Hp; [|by exists d]. destruct (kill pr) eqn:Hk; [by exists d|]. set (pr' := pr <| kill := true |> <| held := held pr - 1 |>).
  set (ov := filter (fun q => q <> p) (overflow_procs d)). set (d0 := d <| ip_to_proc := delete (ip_addr pr) (ip_to_proc d) |>).
  assert ((if bool_decide (overflow_queue pr = []) then d0 else d0 <| overflow_procs := filter (fun q => q <> p) (overflow_procs d0) |>) = d0 <| overflow_procs := ov |>) as ->.
  { case_bool_decide as E; [|done]. unfold ov. rewrite filter_keeps; [by destruct d|]. intros q Hq ->. apply (v_over _ _ _ _ _ _ _ (i_at _ _ _ D)) in Hq as (x & Hx & _ & H). by simplify_eq. }
  set (d1 := note _ _). assert (inv (overflow_procs d1) (nic d ++ bufs d) [] [] [p] d1) as V1.
  { pose proof (inv_kill _ _ _ _ d p pr (i_at _ _ _ D) Hp Hk) as [V1 V2 V3 V4 V5 V6 V7 V8]. by constructor. }
  assert (forall ip q, ip_to_proc d1 !! ip = Some q -> living q ip d1) as Hip1.
  { simpl. intros ip q [Hne Hq]%lookup_delete_Some. destruct (i_ip _ _ _ D ip q Hq) as (x & Hx & Hkx & Hi). exists x. simpl. split; [|done]. rewrite lookup_insert_ne; [done|]. intros <-. simplify_eq. }
  pose proof (detach_ok p d1 (inv_sched_pre _ _ _ _ _ _ _ V1)) as C. pose proof (sched_inv _ _ _ _ _ _ _ _ C V1) as V2. pose proof (keeps_sched _ _ C) as K2. destruct (dp_put_ok _ _ _ _ _ _ _ _ V2) as (m & E & V3 & L3). rewrite E.
  eexists. split; [done|]. pose proof (c_path _ _ C) as (a & b & c & Ec). destruct K2 as [K1 K2 K3 K4 K5 K6 K7 K8 K9 K10].
  constructor; [|simpl; rewrite K4, K3; apply D|simpl; rewrite K4; apply D|simpl; rewrite K6; apply D|].
  - assert (overflow_procs (detach p d1) = overflow_procs d1 /\ nic (detach p d1) = nic d /\ bufs (detach p d1) = bufs d) as (O1 & O2 & O3) by (by rewrite Ec). rewrite <- O1, <- O2, <- O3 in V3. exact V3.
  - intros ip q Hq. apply L3, K10, Hip1. simpl in Hq. by rewrite K8 in Hq.
Qed.
(** A process that comes, as [sched_attach_proc] leaves it: not a process that is there,
    with one reference and nothing that waits. *)
Definition fresh (p : nat) (pr : proc) (d : dpath) : Prop :=
  procs d !! p = None /\ ref pr = 1 /\ held pr = 1 /\ kill pr = false /\ overflow_queue pr = [] /\ routes pr.
Lemma dp_put_fresh_ok p pr d : dp_ok d -> fresh p pr d -> dp_ok (put_proc p pr d).
Proof.
  intros [[V1 V2 V3 V4 V5 V6 V7 V8] D2 D3 D4 D5] (Hp & Hr & Hh & Hk & Hq & Hrt).
  assert (forall q x, procs d !! q = Some x -> <[p := pr]> (procs d) !! q = Some x) as Hkeep by (intros q x Hx; rewrite lookup_insert_ne; [done|congruence]).
  constructor; try done; [constructor; try done; simpl|].
  - intros b Hb. destruct (V2 b Hb) as (q & i & data & x & H1 & H2 & H3). exists q, i, data, x. auto.
  - intros q x Hx. destruct (decide (q = p)) as [-> |Hne]; [|rewrite lookup_insert_ne in Hx by done; by apply V3]. rewrite lookup_insert_eq in Hx. simplify_eq.
    assert (forall l, (forall q, q ∈ l -> is_Some (procs d !! q)) -> occ p l = 0%nat) as Hz.
    { intros l Hl. destruct (occ p l) eqn:E; [done|]. assert (p ∈ l) as Hin by (apply occ_pos; lia). destruct (Hl p Hin). congruence. }
    rewrite (Hz (ts d).*1), (Hz (_ <$> _ ++ _)), (Hz (given_up _).*1); [simpl; lia|exact V4|..].
    + intros q (b & -> & Hb)%list_elem_of_fmap. destruct (V2 b Hb) as (q & i & data & y & H1 & H2 & _). simpl. unfold tag_of. rewrite H1. by exists y.
    + intros q (u & -> & Hu)%list_elem_of_fmap. destruct (V5 u Hu) as (y & Hy & _). by exists y.
  - intros q Hin. destruct (V4 q Hin) as [x Hx]. exists x. auto.
  - intros u Hu. destruct (V5 u Hu) as (y & Hy & Hi). exists y. auto.
  - rewrite V6, otags_insert by done. unfold own_tags. simpl. by rewrite Hk, Hq.
  - destruct V7 as [Hn Hv]. split; [done|]. intros q. rewrite Hv. split; [intros (x & Hx & H); exists x; auto|]. intros (x & Hx & Hkx & Hqx). destruct (decide (q = p)) as [-> |Hne]; [|rewrite lookup_insert_ne in Hx by done; by exists x]. rewrite lookup_insert_eq in Hx. by simplify_eq.
  - intros q x Hx. destruct (decide (q = p)) as [-> |Hne]; [|rewrite lookup_insert_ne in Hx by done; by apply (V8 q)]. rewrite lookup_insert_eq in Hx. simplify_eq. rewrite Hq. split; [simpl; lia|done].
  - simpl. intros ip q Hip. destruct (D5 ip q Hip) as (x & Hx & H). exists x. simpl. auto.
Qed.
Lemma dp_address_ok p pr d : dp_ok d -> procs d !! p = Some pr -> kill pr = false -> dp_ok (d <| ip_to_proc := <[ip_addr pr := p]> (ip_to_proc d) |>).
Proof.
  intros [[] D2 D3 D4 D5] Hp Hk. constructor; try done. simpl. intros ip q [(<- & <-)|(_ & Hip)]%lookup_insert_Some; [by exists pr|]. by apply D5.
Qed.
Lemma dp_add_client_ok attach_ok hash_ok mem_ok p pr d : dp_ok d -> fresh p pr d -> exists d', add_client detach attach_ok hash_ok mem_ok p pr d = Some d' /\ dp_ok d'.
Proof.
  intros D Hf. pose proof (dp_put_fresh_ok p pr d D Hf) as D1. destruct Hf as (Hp & Hr & _ & Hk & _). assert (procs (put_proc p pr d) !! p = Some pr) as Hp1 by apply lookup_insert_eq.
  unfold add_client. destruct attach_ok; simpl negb; cbv iota.
  - destruct (ip_to_proc _ !! _); [by apply dp_remove_client_ok|]. destruct hash_ok; [|by apply dp_remove_client_ok]. pose proof (dp_address_ok p pr _ D1 Hp1 Hk) as D2.
    destruct mem_ok; [by eexists|by apply dp_remove_client_ok].
  - exists d. split; [|done]. unfold proc_put. rewrite Hp1. cbn [mbind option_bind]. rewrite Hr. simpl. f_equal. destruct d. unfold put_proc. simpl. unfold set. simpl. f_equal. by apply delete_insert_id.
Qed.

(** ** Runs *)

(** One handler of the loop, or something else that happens: the scheduler, a client that
    comes or goes, a runtime that sends a packet or a command or reads its channel. *)
Inductive dstep (d : dpath) : dpath -> Prop :=
| d_rx l d' : rx_burst rxq_size add_core l d = Some d' -> dstep d d'
| d_drain r d' : tx_drain_completions rxq_size add_core d = Some (r, d') -> dstep d d'
| d_tx reclaim accept r d' : (length (nic d) - reclaim + accept <= ring)%nat -> sendable d -> tx_burst rxq_size add_core pool_size reclaim accept d = Some (r, d') -> dstep d d'
| d_commands r d' : commands_rx d = Some (r, d') -> dstep d d'
| d_sched d' : sched_only d d' -> dstep d d'
| d_add attach_ok hash_ok mem_ok p pr d' : fresh p pr d -> add_client detach attach_ok hash_ok mem_ok p pr d = Some d' -> dstep d d'
| d_remove p d' : remove_client detach p d = Some d' -> dstep d d'
| d_post t m : dstep d (d <| txpktq := <[t := txpktq d !!! t ++ [m]]> (txpktq d) |>)
| d_command t b : dstep d (d <| txcmdq := <[t := txcmdq d !!! t ++ [b]]> (txcmdq d) |>)
| d_read t m q : rxq d !!! t = m :: q -> dstep d (d <| rxq := <[t := q]> (rxq d) |>).
Definition dp_start : dpath := Dpath ∅ ∅ [] ∅ ∅ ∅ [] (seq 0 pool_size) ∅ ∅ [] 0 0 0 [] ∅ [] (Ledger [] [] [] []).
Lemma dp_start_ok : dp_ok dp_start.
Proof.
  constructor; [constructor|done|simpl; lia|simpl; lia|]; simpl; try done.
  - by rewrite app_nil_r.
  - by intros b Hb%elem_of_nil.
  - by intros p Hp%elem_of_nil.
  - by intros t Ht%elem_of_nil.
  - split; [constructor|]. intros p. split; [by intros H%elem_of_nil|]. by intros (pr & Hp & _).
Qed.
Lemma dstep_ok d d' : dstep d d' -> dp_ok d -> dp_ok d'.
Proof.
  intros [l d1 E|r d1 E|reclaim accept r d1 Hr Hs E|r d1 E|d1 C|a h m p pr d1 Hf E|p d1 E|t m|t b|t m q Hq] D.
  - destruct (rx_burst_ok l d D) as (d2 & _ & _ & E2 & D2 & _). congruence.
  - destruct (drain_completions_ok d D) as (r2 & d2 & E2 & D2). congruence.
  - destruct (tx_burst_ok pool_size rxq_size add_core ring add_core_ok pool_enough reclaim accept d D Hs Hr) as (r2 & d2 & E2 & D2 & _). congruence.
  - destruct (commands_rx_ok d D) as (r2 & d2 & _ & E2 & D2 & _). congruence.
  - apply (dp_keeps d); [done|by apply keeps_sched|]. apply (sched_inv _ _ _ _ _ _ d); [done|]. destruct (c_path _ _ C) as (a & b & c & ->). apply D.
  - destruct (dp_add_client_ok a h m p pr d D Hf) as (d2 & E2 & D2). congruence.
  - destruct (dp_remove_client_ok p d D) as (d2 & E2 & D2). congruence.
  - destruct D as [[] D2 D3 D4 D5]. by constructor; [constructor|..].
  - destruct D as [[] D2 D3 D4 D5]. by constructor; [constructor|..].
  - destruct D as [[] D2 D3 D4 D5]. by constructor; [constructor|..].
Qed.
Lemma dp_run_ok d : rtc dstep dp_start d -> dp_ok d.
Proof. intros H. pose proof dp_start_ok as D. revert D. induction H as [|x y z Hs _ IH]; [done|]. intros D. apply IH. by apply (dstep_ok x). Qed.

(** C40: in every state that the data path of the I/O kernel can reach, with a scheduler
    that only starts and stops kthreads and polls their channels, with a card that holds
    at most as many buffers as leave a burst in the pool, and bursts that are taken only
    while the channels hold well-formed messages, of processes that a client entry or a
    core still refers to: every transmit buffer is in exactly one place: in the pool, with
    the card or waiting for it; each packet that was taken from a runtime has exactly one
    outcome: its buffer is in use, its completion was sent, waits in the overflow queue of
    its process, was dropped with its process, or was given up; the process of a buffer in
    use has not been released, and neither has one with a completion that was given up,
    which it never will be; and every handler returns, without use of a process that is
    gone and without running out of buffers. *)
Theorem iok_data_path d : rtc dstep dp_start d ->
  stack d ++ nic d ++ bufs d ≡ₚ seq 0 pool_size /\
  taken (log d) ≡ₚ (tag_of (priv d) <$> nic d ++ bufs d) ++ completions (sent_up (log d)) ++ otags (procs d) ++ dropped (log d) ++ given_up (log d) /\
  (forall b, b ∈ nic d ++ bufs d -> is_Some (procs d !! (tag_of (priv d) b).1)) /\ (forall x, x ∈ given_up (log d) -> is_Some (procs d !! x.1)) /\
  (forall l, is_Some (rx_burst rxq_size add_core l d)) /\ is_Some (tx_drain_completions rxq_size add_core d) /\ is_Some (commands_rx d) /\ (forall p, is_Some (remove_client detach p d)) /\
  (forall reclaim accept, (length (nic d) - reclaim + accept <= ring)%nat -> sendable d -> is_Some (tx_burst rxq_size add_core pool_size reclaim accept d)).
Proof.
  intros H%dp_run_ok. pose proof (i_at _ _ _ H) as V. split; [pose proof (v_perm _ _ _ _ _ _ _ V) as E; by rewrite app_nil_r in E|]. split; [apply (v_tags _ _ _ _ _ _ _ V)|].
  split; [intros b Hb; destruct (v_priv _ _ _ _ _ _ _ V b Hb) as (p & i & data & pr & E & Hp & _); unfold tag_of; rewrite E; by exists pr|].
  split; [intros x Hx; apply (v_rf _ _ _ _ _ _ _ V); simpl; apply list_elem_of_fmap; by exists x|]. split; [intros l; destruct (rx_burst_ok l d H) as (d' & _ & _ & -> & _); by eexists|].
  split; [destruct (drain_completions_ok d H) as (r & d' & -> & _); by eexists|]. split; [destruct (commands_rx_ok d H) as (r & d' & _ & -> & _); by eexists|]. split; [intros p; destruct (dp_remove_client_ok p d H) as (d' & -> & _); by eexists|].
  intros reclaim accept Hr Hs. destruct (tx_burst_ok pool_size rxq_size add_core ring add_core_ok pool_enough reclaim accept d H Hs Hr) as (r & d' & -> & _). by eexists.
Qed.

(** A burst of transmissions returns, and takes from the channel of each kthread a
    number of packets from its front, in order; the packets that the card and the I/O
    kernel then have, in the order of transmission, are those they had, without some of the
    oldest, which the card is done with, followed by the packets that were taken. *)
Theorem tx_burst_fifo reclaim accept d : rtc dstep dp_start d -> (length (nic d) - reclaim + accept <= ring)%nat -> sendable d ->
  exists r d' l k, tx_burst rxq_size add_core pool_size reclaim accept d = Some (r, d') /\ (forall u, hdr <$> txpktq d !!! u = of_thread u l ++ (hdr <$> txpktq d' !!! u)) /\
    taken (log d') = taken (log d) ++ tags l /\ (k <= reclaim)%nat /\ wire d' = drop k (wire d) ++ tags l /\ (length (bufs d') <= IOKERNEL_TX_BURST_SIZE)%nat.
Proof.
  intros H%dp_run_ok Hr Hs. destruct (tx_burst_ok pool_size rxq_size add_core ring add_core_ok pool_enough reclaim accept d H Hs Hr) as (r & d' & E & D & l & k & Hd). exists r, d', l, k. split; [done|]. destruct Hd as (H1 & H2 & H3 & H4).
  split; [done|]. split; [done|]. split; [done|]. split; [done|]. destruct D as [_ D2 D3 _ _]. lia.
Qed.

(** A burst of received packets returns; each packet goes, with its length and hash, to
    one kthread of the process that has its destination address, or its buffer is freed,
    and never both; and the packets that are delivered are delivered in the order in which
    they came. *)
Theorem rx_burst_delivers l d : rtc dstep dp_start d -> exists d' up fr, rx_burst rxq_size add_core l d = Some d' /\ sent_up (log d') = sent_up (log d) ++ up /\ rx_freed d' = rx_freed d ++ fr /\
  buf_id <$> l ≡ₚ omap recv_buf up ++ fr /\ omap recv_buf up `sublist_of` (buf_id <$> l) /\ Forall (fun x => exists b, b ∈ l /\ delivered d b x) up.
Proof. intros H%dp_run_ok. destruct (rx_burst_ok l d H) as (d' & up & fr & E & _ & H'). by exists d', up, fr. Qed.
End Runs.

(** ** An example *)

(** A scheduler that has no core to give. *)
Definition no_core (p : nat) (d : dpath) : dpath := d.
Lemma same_proc_refl pr : same_proc pr pr.
Proof. by constructor. Qed.
Lemma no_core_ok p d : sched_pre d -> sched_only d (no_core p d).
Proof.
  intros [E1 E2]. unfold no_core. constructor; [exists (procs d), (ts d), (poll_next d); by destruct d| |done]. intros q. destruct (procs d !! q) as [pr|] eqn:Hq; [|done]. destruct (E1 q pr Hq) as (H1 & H2). split; [apply same_proc_refl|]. by split.
Qed.
(** One client with one kthread and four megabytes. *)
Definition demo_proc (act : bool) (r h : Z) : proc :=
  Proc r h false (ShmRegion 0x200000000 0x400000) [0x10000000; 0x30000000] 42 [act] [0%nat] (if act then [] else [0%nat]) 0 2 [].
Definition demo_msg : txmsg := TxMsg TXPKT_NET_XMIT 0x1000 (TxNetHdr 99 64 5).
Definition demo_client : dpath := default (dp_start 128) (add_client no_core true true true 7 (demo_proc false 1 1) (dp_start 128)).
Definition demo_running : dpath := demo_client <| procs := <[7%nat := demo_proc true 3 2]> ∅ |> <| ts := [(7, 0)%nat] |> <| poll_next := ∅ |>.
Definition demo_posted : dpath := demo_running <| txpktq := <[(7, 0)%nat := [demo_msg]]> ∅ |>.
Definition demo_sent : dpath := default demo_posted (snd <$> tx_burst 4 no_core 128 0 64 demo_posted).
Abbreviation demo_step := (dstep 4 no_core no_core 128 64).

Lemma demo_routes act r h : routes (demo_proc act r h).
Proof. constructor; unfold thread_count; simpl; [lia|done|repeat constructor|by destruct act]. Qed.
(** The scheduler, with one process. *)
Lemma demo_sched d act r h act' r' h' l l' x : procs d = <[7%nat := demo_proc act r h]> ∅ -> ts d = l -> Forall (fun t => t = (7, 0)%nat) l' -> 0 < r' -> 1 <= h' ->
  r' - h' - Z.of_nat (length l') = r - h - Z.of_nat (length l) -> Forall (fun t => t = (7, 0)%nat) l -> sched_only d (d <| procs := <[7%nat := demo_proc act' r' h']> ∅ |> <| ts := l' |> <| poll_next := x |>).
Proof.
  intros Hp Hl Hl' Hr Hh E Hts. assert (forall l : list tref, Forall (fun t => t = (7, 0)%nat) l -> occ 7%nat l.*1 = length l) as Hocc.
  { intros k. induction 1 as [|t k -> _ IH]; [done|]. rewrite fmap_cons, occ_cons. simpl fst. by rewrite occ_self, IH. }
  constructor; [by eexists _, _, _| |].
  - intros p. simpl. rewrite Hp, Hl. destruct (decide (p = 7%nat)) as [-> |Hne]; [|by rewrite !lookup_insert_ne].
    rewrite !lookup_insert_eq, !Hocc by done. split; [by constructor|]. split; [apply demo_routes|]. simpl. split; [lia|]. split; [done|]. split; [lia|done].
  - simpl. intros t Ht. rewrite Forall_forall in Hl'. rewrite (Hl' t Ht). exists (demo_proc act' r' h'). split; [apply lookup_insert_eq|simpl; unfold thread_count; simpl; lia].
Qed.
Lemma demo_run : rtc demo_step (dp_start 128) demo_posted.
Proof.
  apply (rtc_l _ _ demo_client); [apply (d_add _ _ _ _ _ _ true true true 7 (demo_proc false 1 1)); [|done]; split; [done|]; split; [done|]; split; [done|]; split; [done|]; split; [done|apply demo_routes]|].
  apply (rtc_l _ _ demo_running); [apply d_sched; by apply (demo_sched _ false 1 1 _ _ _ []); repeat constructor|]. apply rtc_once. exact (d_post _ _ _ _ _ demo_running (7, 0)%nat demo_msg).
Qed.
Lemma demo_wf pr : region pr = ShmRegion 0x200000000 0x400000 -> page_paddrs pr = [0x10000000; 0x30000000] -> wf_msg pr demo_msg.
Proof. intros Er Ep. split; [done|]. unfold tx_fill. rewrite Er, Ep. exists 0x200001000. split; [by vm_compute|]. by vm_compute; eexists. Qed.
Lemma demo_queue t : demo_posted.(txpktq) !!! t <> [] -> t = (7, 0)%nat.
Proof. intros H. destruct (decide (t = (7, 0)%nat)) as [-> |Hne]; [done|]. destruct H. simpl. by rewrite lookup_total_insert_ne. Qed.
Lemma demo_sendable : sendable demo_posted.
Proof. intros t pr Hp Hq. apply demo_queue in Hq as ->. vm_compute in Hp. injection Hp as <-. split; [simpl; lia|]. repeat constructor. by apply demo_wf. Qed.
Lemma demo_run_sent : rtc demo_step (dp_start 128) demo_sent.
Proof. eapply rtc_r; [apply demo_run|]. apply (d_tx _ _ _ _ _ _ 0 64 true); [vm_compute; lia|apply demo_sendable|]. by vm_compute. Qed.

Lemma iok_data_path_witness : rtc demo_step (dp_start 128) demo_sent /\ length (nic demo_sent) = 1%nat /\ stack demo_sent ++ nic demo_sent ++ bufs demo_sent ≡ₚ seq 0 128.
Proof. split; [apply demo_run_sent|]. split; [by vm_compute|]. apply (iok_data_path 4 no_core no_core 128 64 no_core_ok no_core_ok ltac:(vm_compute; lia) demo_sent demo_run_sent). Defined.
Lemma tx_burst_fifo_witness : exists r d' l k, tx_burst 4 no_core 128 0 64 demo_posted = Some (r, d') /\ wire d' = drop k (wire demo_posted) ++ tags l.
Proof.
  destruct (tx_burst_fifo 4 no_core no_core 128 64 no_core_ok no_core_ok ltac:(vm_compute; lia) 0 64 demo_posted demo_run ltac:(vm_compute; lia) demo_sendable) as (r & d' & l & k & H1 & _ & _ & _ & H2 & _). by exists r, d', l, k.
Defined.
Definition demo_pkt : rx_mbuf := RxMbuf 3 60 5 true ETHTYPE_IP 42 0.
Lemma rx_burst_delivers_witness : exists d' up fr, rx_burst 4 no_core [demo_pkt] demo_sent = Some d' /\ [3%nat] ≡ₚ omap recv_buf up ++ fr.
Proof.
  destruct (rx_burst_delivers 4 no_core no_core 128 64 no_core_ok no_core_ok ltac:(vm_compute; lia) [demo_pkt] demo_sent demo_run_sent) as (d' & up & fr & H1 & _ & _ & H2 & _). by exists d', up, fr.
Defined.
